(* ===== verification/_CoqProject ===== *)
-Q . S2P
Prelude.v
Effects.v
Uint256.v
Compact.v
Serialize.v
MerkleDamgard.v
Sha256.v
Sha1.v
Ripemd160.v
Hash.v
Text.v
Script.v
Interpreter.v
Spends.v
PubKey.v
Tx.v
SigHash.v
Compressor.v
Coins.v
CoinsView.v
CoinsDB.v
Connect.v
Params.v
BlockIndex.v
Checkpoints.v
Pow.v
Chain.v
CheckQueue.v
Merkle.v
PartialMerkle.v
Block.v
TxCheck.v
CheckBlock.v
Accept.v
Candidates.v
Linking.v
BestChain.v
Activation.v
Arrival.v
NodeRun.v
SampleNode.v
Subsidy.v
CheckInputs.v
Ledger.v
ConnectBlock.v
Standard.v
MemPool.v
PoolView.v
PoolAccept.v
PoolAdmission.v
Bloom.v
Base58.v
Modifier.v
Kernel.v
