(* ===== verification/Prelude.v ===== *)
(** * The core of Bitcoin2: a verification library

    The development models the consensus core of the node under [src/src/]: the data it
    hashes and stores, the script interpreter that authorises spending, the set of unspent
    outputs with its caches and its database, the effect of blocks on it, the tree of block
    headers with the rules of proof of work and proof of stake, the choice of the best chain,
    the memory pool, the Merkle trees and Bloom filters that serve light clients, the encodings
    of addresses and keys, and the queue that runs script checks in parallel.

    ** How the program fits together

    A transaction ([primitives/transaction.*]) is serialized by [serialize.h] and hashed by
    the classes of [crypto/]; the double SHA-256 is its identity ([hash.h], [uint256.*]).
    Its inputs name outputs of earlier transactions; the script of such an output
    ([script/script.*]) and that of the input are run by [script/interpreter.cpp], which asks
    a checker whether a signature signs the hash of the transaction.  The outputs not spent
    yet are kept by transaction in [CCoins] records ([coins.h]), compressed by
    [compressor.*] in the database of [txdb.cpp] and cached by stacks of [CCoinsViewCache].
    [main.cpp] applies a block to the topmost cache, records in [undo.h] what it needs to
    take the block back, and keeps the headers in a tree of [CBlockIndex] ([chain.*]) whose
    entries carry their work; [pow.cpp] says what work the next block needs, and [kernel.cpp]
    which coin stakes may make one.  Transactions that wait for a block are kept in the pool of
    [txmempool.*], which [AcceptToMemoryPool] guards.  The scripts of a block are checked by the threads of [checkqueue.h].  The header commits to the
    transactions through a Merkle tree ([primitives/block.cpp]), and [merkleblock.*] proves to
    light clients which transactions their filter ([bloom.*]) matched.  [script/standard.cpp]
    knows the forms of scripts that belong to addresses, and [base58.*] writes these down.

    ** Files

    Each file names the sources it models; definitions keep the names of the code, and the
    files build on each other in the order below.

    - [Prelude]: bytes, machine integers with their wrap-around, bit operations, the
      [result] type of fallible code, the hint databases [btc] and [btc_rw].
    - [Effects]: code that changes a state and stops at its first failure, with the triples
      its theorems are stated and proved with.
    - [Uint256], [Compact]: [base_uint] as a list of 32-bit limbs ([val] is its number, [wf]
      its invariant); [SetCompact] and [GetCompact].
    - [Serialize]: streams as lists of bytes, CompactSize, VarInt, vectors; the interface
      [Serializer] with the laws [SerializerRoundTrip] (what is written is read back, with the
      announced size) and [SerializerOk] (nothing else is read).
    - [MerkleDamgard], [Sha256], [Sha1], [Ripemd160], [Hash]: the streaming hashers over one
      buffering lemma, the unrolled compression functions against the standards, and the hash
      helpers.
    - [Text]: hexadecimal, base 64 and base 32 ([utilstrencodings.*], [uint256.cpp]).
    - [Script], [Interpreter], [Spends], [SigHash]: script numbers, the decoder, the
      evaluator as a state transformer with its four ways to stop (error, exception, assertion,
      undefined behaviour), what it accepts for the standard outputs, the signature hash.  The
      checker of signatures is the class [BaseSignatureChecker].
    - [PubKey], [Tx], [Compressor], [Coins]: the records and their formats.
    - [CoinsView], [CoinsDB]: the interface [CCoinsView] with its laws, [CCoinsViewOk] for a
      view that is read and [CCoinsViewWrites] for one that is also written; the cache is an
      instance over any lawful view, the database over any lawful key-value store.
    - [Connect]: [UpdateCoins] and [DisconnectBlock].
    - [Params], [BlockIndex], [Checkpoints], [Pow], [Chain]: the networks, the heap of [CBlockIndex] entries
      (pointers are keys of a finite map, a bad pointer is an error value), the next target,
      [AddToBlockIndex], the active chain, locators and forks.
    - [CheckQueue]: the queue as a step relation between critical sections.
    - [Merkle], [PartialMerkle]: the tree of a block, its branches, the partial trees.
    - [Block], [TxCheck], [CheckBlock], [Accept], [Subsidy]: blocks and their hash, the checks
      of a transaction (with the mints and spends of zerocoins, over the class [Zerocoin]) and
      of a block by themselves, those of a header in the tree ([AcceptBlockHeader]), the
      reward of a block and of its masternode.
    - [Candidates], [Linking]: the status bits and counts of entries, the order of the set of
      candidate tips, [FindMostWorkChain], [PruneBlockIndexCandidates] and
      [ReceivedBlockTransactions], with the invariants of entries, of the candidates and of
      [mapBlocksUnlinked].
    - [BestChain], [Activation]: [ConnectTip], [DisconnectTip], [ActivateBestChainStep],
      [ActivateBestChain].  What they need of the stores, of [ConnectBlock] and of
      [DisconnectBlock] is the class [Node] with its laws [NodeOk].
    - [Arrival], [NodeRun]: [AcceptBlock] and [ProcessNewBlock] over the class [Arrival] with its
      laws [ArrivalOk]; a node as a step relation from the start on the genesis block, and
      its invariant.  [SampleNode] is a small node where every one of these laws holds.
    - [CheckInputs], [Ledger], [ConnectBlock]: the checks of the inputs of a transaction; the
      unspent outputs as a map with the transition of a transaction and of a block, which is
      the specification; [ConnectBlock] with its tests, its undo data and its writes.
    - [Standard]: the templates of [Solver], destinations and the scripts made for them.
    - [MemPool], [PoolView], [PoolAccept], [PoolAdmission]: the pool with the map of the outputs
      it spends, its removals and additions; the view [CCoinsViewMemPool], an instance of the
      interface of views to be read; [AcceptToMemoryPool], statement by statement, and what it
      decides.
    - [Bloom]: the filters, the messages by which a peer sets its own, and [CMerkleBlock].
    - [Base58]: base 58 with and without checksum, addresses, exported private keys.
    - [Modifier], [Kernel]: the stake modifiers; the kernel of the three versions of the rule,
      the search for one, [CheckProofOfStake] and [CheckWork].

    ** What the theorems show

    - From every state a node can reach, [ActivateBestChain] ends; afterwards the coins are
      those of the chain of the tip, whose blocks are all there and acceptable, and no chain of
      acceptable blocks the node has is preferred to it.  [ProcessNewBlock] ends on every
      block, and says whether the block is in the tree or was refused.
    - The interpreter is safe: from a bounded stack no script reaches undefined behaviour, a
      failed assertion, an uncaught exception or an overflow, and it ends; the same for a pair
      of scripts.  It accepts the standard spends exactly when they should be, and
      [OP_CHECKMULTISIG] exactly when the signatures match distinct keys in order.
    - A coin cache refines a map, over any base, for every session of reads, modifications and
      flushes.  A block that [ConnectBlock] accepts changes this map as [Ledger] says, follows
      the rules of spending at each of its transactions, and creates no more money than the
      reward of its height allows; [DisconnectBlock] with the undo data it wrote restores it.
    - [CheckTransaction], [CheckInputs], [CheckBlock] and [AcceptBlockHeader] accept exactly
      what their specifications say and end with a report on everything else, but for the
      accidents their theorems name (malformed zerocoin scripts, a header without the second
      transaction that is read); accepted blocks with the same header have the same
      transactions, or a collision is found.
    - The supply of the main network never exceeds its maximum.
    - The stake modifier is the one its rule specifies, whatever the order in which the
      candidates are sorted; [CheckProofOfStake] accepts exactly the coin stakes that hit their
      target, and a kernel that the search finds is one.
    - The pool and the map of the outputs it spends agree after every operation, removal takes
      exactly the descendants, and [AcceptToMemoryPool] takes exactly the transactions that pass
      its tests against the coins of the chain and of the pool.
    - Standard scripts are recognised exactly, and destinations are read back from their scripts
      and from their addresses.
    - No filter that a peer sends makes the node divide by zero or leave a vector, and none
      hides a transaction it should match.
    - Every state of the block index reached by adding headers and moving the tip satisfies its
      invariant (heights, skip pointers, work, best header, links of the active chain); searches
      along it end and find what they should; the next target is within its bounds.
    - The check queue: under every interleaving each session gets the right verdict, and every
      run of enabled steps ends with all sessions answered.
    - Encodings are bijections onto their canonical forms (sizes, integers, script numbers, base 58,
      transactions, compressed amounts and scripts, coins, compact targets, public keys).
    - The hashers compute the published functions however their input is cut; the big integers
      compute modulo a power of two; the signature hash agrees with its original definition.
    - The Merkle root binds the transactions, branches and partial trees check to it, and a
      forged partial tree is a collision.

    ** Conventions, bounds and fuel

    Integers are [Z] with the wrap-around of their width written out ([u32], [i64], ...);
    signed overflow is an error value.  Loops that are not structural have fuel, always a
    length or a bound of the data, and the theorems are stated for the fuel the definitions
    use: the length of a script (an instruction takes at least a byte), the bits of a VarInt,
    the height of an entry along [pprev], the number of leaves of a Merkle tree (a level halves),
    32 for the height of a partial tree (the width of its counter).  Partial trees are bounded
    by the 69,905 transactions the code itself accepts.  The walks of the stake modifiers go to
    a parent or to a higher block of the active chain at each turn; the buffers of base 58 have
    the sizes of the code, and are proved long enough.  [ActivateBestChain] on an index of [n]
    entries takes at most [S n * S n] turns: each finds a better tip or marks an entry as
    failed.  The counts of entries are 32 bits wide in the code; [room] says that the
    transactions of a chain are fewer than that.  The host is little-endian, as the
    code assumes.

    ** Parameters

    Signature verification (secp256k1), the decompression of public keys, the Quark hash of old
    headers, the numbers, spends, proofs and accumulators of zerocoin with the record of its
    mints (the class [Zerocoin]), the answers of the masternode layer,
    the outcomes of reads and writes of the block files, the clock, the requests sent to peers,
    the memory pool and the wallet as [ConnectTip] calls them, the fee estimator as the pool
    calls it, and the key-value store (LevelDB) are parameters; so are the comparison of
    [CheckWork], which is made on [double]s, and the two sizes a new filter computes with them,
    and the address of a literal in memory, which the code takes for a number.
    Where code relies on a law of one of them the law is a hypothesis, with an instance that
    shows it can hold.

    ** Not modelled

    The network: sockets, peers, the book of their addresses and the handling of messages, but
    for those that set a filter.  The wallet and the miner, which choose and sign transactions;
    signing itself is secp256k1's.  The RPC servers, the interface, start-up and logging, which
    are input and output.  Zerocoin beyond the checks of its mints and spends: its arithmetic is
    OpenSSL's; masternodes, budgets and
    obfuscation, except for what blocks ask of them.  The third-party hash functions of the
    Quark chain, LevelDB, secp256k1 and UniValue, which the repository only carries along.
    SHA-512 and its HMAC serve the derivation of keys alone, which no block depends on.  The
    files of blocks, whose positions are data of the entries here. *)

From Stdlib Require Import ZArith Lia List Bool.
From stdpp Require Import base gmap list.
From coqutil Require Import Byte Word.LittleEndianList Z.PushPullMod.

Open Scope Z_scope.

(** ** Bytes *)

(** [byte] is the standard library's 256-constructor type; [byte.unsigned] and
    [byte.of_Z] are coqutil's conversions. *)
#[export] Instance byte_eq_decision : EqDecision byte := Byte.byte_eq_dec.

#[export] Program Instance byte_countable : Countable byte :=
  inj_countable' Byte.to_N (fun n => default Byte.x00 (Byte.of_N n)) _.
Next Obligation. intros b. simpl. by rewrite Byte.of_to_N. Qed.

#[export] Instance byte_inhabited : Inhabited byte := populate Byte.x00.

Declare Scope btc_scope.
Delimit Scope btc_scope with btc.

(** ** Machine integers as [Z] with their wrap-around written out *)

Definition u8 (z : Z) : Z := z mod 2 ^ 8.
Definition u16 (z : Z) : Z := z mod 2 ^ 16.
Definition u32 (z : Z) : Z := z mod 2 ^ 32.
Definition u64 (z : Z) : Z := z mod 2 ^ 64.

(** Two's complement reinterpretation (the implementation-defined conversion to
    a signed type that every supported compiler performs). *)
Definition i32 (z : Z) : Z := (z + 2 ^ 31) mod 2 ^ 32 - 2 ^ 31.
Definition i64 (z : Z) : Z := (z + 2 ^ 63) mod 2 ^ 64 - 2 ^ 63.

Definition in_u8 (z : Z) : Prop := 0 <= z < 2 ^ 8.
Definition in_u32 (z : Z) : Prop := 0 <= z < 2 ^ 32.
Definition in_u64 (z : Z) : Prop := 0 <= z < 2 ^ 64.
Definition in_i32 (z : Z) : Prop := - 2 ^ 31 <= z < 2 ^ 31.
Definition in_i64 (z : Z) : Prop := - 2 ^ 63 <= z < 2 ^ 63.

Create HintDb btc.
Create Rewrite HintDb btc_rw.

Lemma u32_range z : in_u32 (u32 z).
Proof. unfold in_u32, u32. apply Z.mod_pos_bound. lia. Qed.

Lemma u64_range z : in_u64 (u64 z).
Proof. unfold in_u64, u64. apply Z.mod_pos_bound. lia. Qed.

Lemma u8_range z : in_u8 (u8 z).
Proof. unfold in_u8, u8. apply Z.mod_pos_bound. lia. Qed.

Lemma u32_small z : in_u32 z -> u32 z = z.
Proof. apply Z.mod_small. Qed.

Lemma u64_small z : in_u64 z -> u64 z = z.
Proof. apply Z.mod_small. Qed.

Lemma i64_small z : in_i64 z -> i64 z = z.
Proof. unfold in_i64, i64. intros. rewrite Z.mod_small; lia. Qed.

Lemma i32_small z : in_i32 z -> i32 z = z.
Proof. unfold in_i32, i32. intros. rewrite Z.mod_small; lia. Qed.

Lemma u32_add_l x y : u32 (Z.add (u32 x) y) = u32 (Z.add x y).
Proof. unfold u32. apply Z.add_mod_idemp_l. lia. Qed.

Lemma u32_add_r x y : u32 (Z.add x (u32 y)) = u32 (Z.add x y).
Proof. unfold u32. apply Z.add_mod_idemp_r. lia. Qed.

Lemma u32_fold x : x mod 2 ^ 32 = u32 x.
Proof. done. Qed.
#[export] Hint Resolve u8_range u32_range u64_range : btc.
#[export] Hint Rewrite u32_small u64_small i64_small i32_small
  using (unfold in_u32, in_u64, in_i64, in_i32; lia) : btc_rw.

(** [uint32_t] operators: sums and left shifts wrap around. *)
Declare Scope w32_scope.
Delimit Scope w32_scope with w32.
Notation "x + y" := (u32 (Z.add x%w32 y%w32)) : w32_scope.
Notation "x - y" := (u32 (Z.sub x%w32 y%w32)) : w32_scope.
Notation "x * y" := (u32 (Z.mul x%w32 y%w32)) : w32_scope.
Notation "x << n" := (u32 (Z.shiftl x%w32 n)) (at level 35, no associativity) : w32_scope.
Notation "x >> n" := (Z.shiftr x%w32 n) (at level 35, no associativity) : w32_scope.

(** ** Bit operations against arithmetic *)

Lemma land_ones_mod a n : 0 <= n -> Z.land a (2 ^ n - 1) = a mod 2 ^ n.
Proof.
  intros. replace (2 ^ n - 1) with (Z.ones n) by (rewrite Z.ones_equiv; lia).
  by apply Z.land_ones.
Qed.

(** Bits at or above the width of a small number are zero. *)
Lemma testbit_high a n i : 0 <= a < 2 ^ n -> n <= i -> Z.testbit a i = false.
Proof.
  intros Ha Hi. destruct (decide (0 <= n)).
  - rewrite <- (Z.mod_small a (2 ^ n)) by done. by apply Z.mod_pow2_bits_high.
  - rewrite Z.pow_neg_r in Ha; lia.
Qed.

(** Bitwise operators keep a width. *)
Lemma bitwise_bound (f : Z -> Z -> Z) (g : bool -> bool -> bool) n a b :
  (forall x y i, Z.testbit (f x y) i = g (Z.testbit x i) (Z.testbit y i)) ->
  g false false = false -> 0 <= n -> 0 <= a < 2 ^ n -> 0 <= b < 2 ^ n ->
  0 <= f a b < 2 ^ n.
Proof.
  intros Hf Hg Hn Ha Hb.
  replace (f a b) with (f a b mod 2 ^ n); [apply Z.mod_pos_bound; lia|].
  apply Z.bits_inj'; intros i Hi. rewrite Z.testbit_mod_pow2 by done.
  destruct (Z.ltb_spec i n); [done|]. simpl.
  by rewrite Hf, (testbit_high a n), (testbit_high b n).
Qed.

Lemma lor_bound n a b :
  0 <= n -> 0 <= a < 2 ^ n -> 0 <= b < 2 ^ n -> 0 <= Z.lor a b < 2 ^ n.
Proof. apply (bitwise_bound Z.lor orb); [|done]. intros; apply Z.lor_spec. Qed.

Lemma land_bound n a b :
  0 <= n -> 0 <= a < 2 ^ n -> 0 <= b < 2 ^ n -> 0 <= Z.land a b < 2 ^ n.
Proof. apply (bitwise_bound Z.land andb); [|done]. intros; apply Z.land_spec. Qed.

Lemma lxor_bound n a b :
  0 <= n -> 0 <= a < 2 ^ n -> 0 <= b < 2 ^ n -> 0 <= Z.lxor a b < 2 ^ n.
Proof. apply (bitwise_bound Z.lxor xorb); [|done]. intros; apply Z.lxor_spec. Qed.

Lemma land_shifted_0 a b n :
  0 <= n -> 0 <= a < 2 ^ n -> Z.land a (b * 2 ^ n) = 0.
Proof.
  intros Hn Ha. apply Z.bits_inj'; intros i Hi.
  rewrite Z.land_spec, Z.bits_0, <- Z.shiftl_mul_pow2, Z.shiftl_spec by lia.
  destruct (decide (i < n)).
  - rewrite (Z.testbit_neg_r b) by lia. apply andb_false_r.
  - by rewrite (testbit_high a n) by lia.
Qed.

Lemma lor_disjoint_add a b n :
  0 <= n -> 0 <= a < 2 ^ n -> Z.lor a (b * 2 ^ n) = a + b * 2 ^ n.
Proof.
  intros Hn Ha. rewrite <- Z.add_lor_land, land_shifted_0 by done. lia.
Qed.

(** A mask of low bits does not see what is above them. *)
Lemma land_low m c d w : 0 <= w -> 0 <= c < 2 ^ w -> 0 <= d < 2 ^ w ->
  Z.land (m * 2 ^ w + c) d = Z.land c d.
Proof.
  intros Hw Hc Hd. apply Z.bits_inj'. intros i Hi. rewrite !Z.land_spec.
  destruct (Z.ltb_spec i w) as [L|L].
  - f_equal. rewrite <- (Z.mod_pow2_bits_low _ w i) by lia.
    by rewrite Z.add_comm, Z.mod_add, Z.mod_small by lia.
  - by rewrite (testbit_high d w i), !andb_false_r by done.
Qed.

(** ** Lists read and written by index *)

Section nth_insert.
Context {A : Type} (d : A).

Lemma nth_insert_eq (l : list A) i x :
  (i < length l)%nat -> nth i (<[i:=x]> l) d = x.
Proof.
  revert i; induction l; intros [|i] H; simpl in *; try lia; [done|].
  apply IHl; lia.
Qed.

Lemma nth_insert_ne (l : list A) i j x :
  i <> j -> nth j (<[i:=x]> l) d = nth j l d.
Proof.
  revert i j; induction l; intros [|i] [|j] H; simpl in *; try lia; try done.
  apply IHl; lia.
Qed.

Lemma nth_lookup_total (l : list A) i : nth i l d = default d (l !! i).
Proof. revert i; induction l; intros [|i]; simpl; auto. Qed.
End nth_insert.

(** ** Results of fallible code *)

(** [Ret] is normal termination, [Err] a failure the code reports. *)
Inductive result (E A : Type) : Type :=
| Ret (a : A)
| Err (e : E).
Arguments Ret {E A} a.
Arguments Err {E A} e.

Definition result_bind {E A B} (m : result E A) (k : A -> result E B) : result E B :=
  match m with Ret a => k a | Err e => Err e end.

Notation "'let*' p ':=' m 'in' k" := (result_bind m (fun p => k))
  (at level 10, p strict pattern, m at level 100, k at level 200,
   format "'[v' 'let*'  p  ':='  m  'in' '/' k ']'") : btc_scope.

Lemma result_bind_Ret {E A B} (m : result E A) (k : A -> result E B) b :
  result_bind m k = Ret b <-> exists a, m = Ret a /\ k a = Ret b.
Proof.
  split; [destruct m as [a|e]; [by exists a | done] |].
  by intros (a & -> & ?).
Qed.

(** ** Tactics *)

(** Turn boolean comparisons in hypotheses and goal into propositions. *)
Ltac bool_prop :=
  repeat match goal with
  | H : (_ && _)%bool = true |- _ => apply andb_true_iff in H; destruct H
  | H : (_ || _)%bool = false |- _ => apply orb_false_iff in H; destruct H
  | H : context [_ >? _] |- _ => rewrite Z.gtb_ltb in H
  | H : context [_ >=? _] |- _ => rewrite Z.geb_leb in H
  | H : negb _ = true |- _ => apply negb_true_iff in H
  | H : negb _ = false |- _ => apply negb_false_iff in H
  | H : (_ =? _) = true |- _ => apply Z.eqb_eq in H
  | H : (_ =? _) = false |- _ => apply Z.eqb_neq in H
  | H : (_ <? _) = true |- _ => apply Z.ltb_lt in H
  | H : (_ <? _) = false |- _ => apply Z.ltb_ge in H
  | H : (_ <=? _) = true |- _ => apply Z.leb_le in H
  | H : (_ <=? _) = false |- _ => apply Z.leb_gt in H
  end.

(** Case analysis on the comparisons of the goal. *)
Ltac cmp_cases :=
  repeat match goal with
  | |- context [?a =? ?b] => destruct (Z.eqb_spec a b)
  | |- context [?a <? ?b] => destruct (Z.ltb_spec a b)
  | |- context [?a <=? ?b] => destruct (Z.leb_spec a b)
  end.

(** Equality of [uint32_t] sums up to associativity and commutativity. *)
Ltac u32_ring := unfold u32; Z.push_pull_mod; first [reflexivity | f_equal; ring].

(** Take the next [let w := t in ...] of the code, keeping [t] as an equation. *)
Ltac next_word :=
  lazymatch goal with
  | |- (let w := ?t in @?B w) = ?R =>
      refine ((fun P : forall w, w = t -> B w = R => P t eq_refl) _);
      let w := fresh "w" in let E := fresh "E" in intros w E; cbv beta
  end.
