(* ===== verification/Effects.v ===== *)
(** * Code that changes state and may fail

    The checks of [main.cpp] update caches and tables, and stop at the first failure,
    keeping what they changed.  [eff] is the type of such code, [triple] its total
    specification: what holds when it returns and what holds when it fails. *)

From Stdlib Require Import ZArith Lia List Bool.
From stdpp Require Import base option list.
From S2P Require Import Prelude.

Open Scope btc_scope.

Definition eff (S E A : Type) : Type := S -> result E A * S.

Section operations.
Context {S E : Type}.

Definition eret {A} (a : A) : eff S E A := fun s => (Ret a, s).
Definition throw {A} (e : E) : eff S E A := fun s => (Err e, s).
Definition ebind {A B} (m : eff S E A) (k : A -> eff S E B) : eff S E B :=
  fun s => match m s with (Ret a, s') => k a s' | (Err e, s') => (Err e, s') end.
(** Code that only reads. *)
Definition lift {A} (r : result E A) : eff S E A := fun s => (r, s).
Definition update (f : S -> S) : eff S E unit := fun s => (Ret tt, f s).
(** Code with a value and no failure. *)
Definition reads {A} (f : S -> S * A) : eff S E A := fun s => let '(s', a) := f s in (Ret a, s').

(** A loop that carries a value and stops at the first failure. *)
Fixpoint efold {A X} (f : A -> X -> eff S E A) (l : list X) (a : A) : eff S E A :=
  match l with [] => eret a | x :: l => ebind (f a x) (efold f l) end.

Definition triple {A} (P : S -> Prop) (m : eff S E A) (Q : A -> S -> Prop) (X : E -> S -> Prop) : Prop :=
  forall s, P s -> match m s with (Ret a, s') => Q a s' | (Err e, s') => X e s' end.
End operations.

Notation "'do*' p ':=' m 'in' k" := (ebind m (fun p => k))
  (at level 10, p strict pattern, m at level 100, k at level 200,
   format "'[v' 'do*'  p  ':='  m  'in' '/' k ']'") : btc_scope.

(** ** Rules *)

Section rules.
Context {S E : Type}.

Lemma triple_ret {A} (P : S -> Prop) (a : A) (Q : A -> S -> Prop) (X : E -> S -> Prop) :
  (forall s, P s -> Q a s) -> triple P (eret a) Q X.
Proof. intros H s Hs. exact (H s Hs). Qed.

Lemma triple_throw {A} (P : S -> Prop) (e : E) (Q : A -> S -> Prop) (X : E -> S -> Prop) :
  (forall s, P s -> X e s) -> triple P (throw e) Q X.
Proof. intros H s Hs. exact (H s Hs). Qed.

Lemma triple_bind {A B} (P : S -> Prop) (m : eff S E A) (k : A -> eff S E B) R Q X :
  triple P m R X -> (forall a, triple (R a) (k a) Q X) -> triple P (ebind m k) Q X.
Proof.
  intros Hm Hk s Hs. specialize (Hm s Hs). unfold ebind. destruct (m s) as [[a|e] s']; [exact (Hk a s' Hm)|exact Hm].
Qed.

Lemma triple_conseq {A} (P P' : S -> Prop) (m : eff S E A) Q Q' X X' :
  triple P' m Q' X' -> (forall s, P s -> P' s) -> (forall a s, Q' a s -> Q a s) -> (forall e s, X' e s -> X e s) -> triple P m Q X.
Proof.
  intros H HP HQ HX s Hs. specialize (H s (HP s Hs)). destruct (m s) as [[a|e] s']; auto.
Qed.

Lemma triple_lift {A} (P : S -> Prop) (r : result E A) (Q : A -> S -> Prop) (X : E -> S -> Prop) :
  (forall s a, r = Ret a -> P s -> Q a s) -> (forall s e, r = Err e -> P s -> X e s) -> triple P (lift r) Q X.
Proof. intros HQ HX s Hs. unfold lift. destruct r; eauto. Qed.

Lemma triple_update (P : S -> Prop) (f : S -> S) (Q : unit -> S -> Prop) (X : E -> S -> Prop) :
  (forall s, P s -> Q tt (f s)) -> triple P (update f) Q X.
Proof. intros H s Hs. exact (H s Hs). Qed.

Lemma triple_reads {A} (P : S -> Prop) (f : S -> S * A) (Q : A -> S -> Prop) (X : E -> S -> Prop) :
  (forall s, P s -> Q (f s).2 (f s).1) -> triple P (reads f) Q X.
Proof. intros H s Hs. unfold reads. specialize (H s Hs). by destruct (f s). Qed.

(** The invariant of a loop speaks of the elements done. *)
Lemma triple_fold {A X} (f : A -> X -> eff S E A) (I : list X -> A -> S -> Prop) (Z : E -> S -> Prop) l :
  forall done a, (forall done x a, x ∈ l -> triple (I done a) (f a x) (I (done ++ [x])) Z) ->
  triple (I done a) (efold f l a) (I (done ++ l)) Z.
Proof.
  induction l as [|x l IH]; intros done a Hf; cbn [efold].
  - apply triple_ret. by rewrite app_nil_r.
  - eapply triple_bind; [apply Hf, list_elem_of_here|]. intros a'.
    replace (done ++ x :: l) with ((done ++ [x]) ++ l) by (by rewrite <- app_assoc).
    apply IH. intros d y b Hy. by apply Hf, list_elem_of_further.
Qed.

(** A run that returns went through its parts. *)
Lemma ebind_inv {A B} (m : eff S E A) (k : A -> eff S E B) s b s'' :
  ebind m k s = (Ret b, s'') -> exists a s', m s = (Ret a, s') /\ k a s' = (Ret b, s'').
Proof. unfold ebind. destruct (m s) as [[a|e] s']; [intros K; by exists a, s'|done]. Qed.

Lemma lift_inv {A} (r : result E A) (s : S) a s' : lift r s = (Ret a, s') -> r = Ret a /\ s' = s.
Proof. unfold lift. by intros [= -> <-]. Qed.

Lemma reads_inv {A} (f : S -> S * A) s a s' : (reads f : eff S E A) s = (Ret a, s') -> f s = (s', a).
Proof. unfold reads. destruct (f s). by intros [= -> ->]. Qed.

Lemma eret_inv {A} (x a : A) (s s' : S) : (eret x : eff S E A) s = (Ret a, s') -> x = a /\ s' = s.
Proof. unfold eret. by intros [= -> <-]. Qed.
End rules.

(** ** Runs from one state *)

(** The run of [m] from [s] ends as [Q] says, or fails as [X] allows. *)
Definition runs {S E A : Type} (X : E -> S -> Prop) (m : eff S E A) (s : S) (Q : A -> S -> Prop) : Prop :=
  match m s with (Ret a, s') => Q a s' | (Err e, s') => X e s' end.

Section runs.
Context {S E : Type} (X : E -> S -> Prop).

Lemma runs_ret {A} (a : A) (s : S) (Q : A -> S -> Prop) : Q a s -> runs X (eret a) s Q.
Proof. done. Qed.

Lemma runs_bind {A B} (m : eff S E A) (k : A -> eff S E B) s (R : A -> S -> Prop) (Q : B -> S -> Prop) :
  runs X m s R -> (forall a s', R a s' -> runs X (k a) s' Q) -> runs X (ebind m k) s Q.
Proof. unfold runs, ebind. destruct (m s) as [[a|e] s']; [|done]. intros HR K. exact (K a s' HR). Qed.

Lemma runs_conseq {A} (m : eff S E A) s (R Q : A -> S -> Prop) : runs X m s R -> (forall a s', R a s' -> Q a s') -> runs X m s Q.
Proof. unfold runs. destruct (m s) as [[a|e] s']; auto. Qed.

(** The same where the first part has been run. *)
Lemma runs_step {A B} (m : eff S E A) (k : A -> eff S E B) s a s' (Q : B -> S -> Prop) :
  m s = (Ret a, s') -> runs X (k a) s' Q -> runs X (ebind m k) s Q.
Proof. unfold runs, ebind. by intros ->. Qed.

Lemma runs_fail {A B} (m : eff S E A) (k : A -> eff S E B) s e s' (Q : B -> S -> Prop) :
  m s = (Err e, s') -> X e s' -> runs X (ebind m k) s Q.
Proof. unfold runs, ebind. by intros ->. Qed.

Lemma runs_update (f : S -> S) s (Q : unit -> S -> Prop) : Q tt (f s) -> runs X (update f) s Q.
Proof. done. Qed.

Lemma runs_lift {A} (r : result E A) a s (Q : A -> S -> Prop) : r = Ret a -> Q a s -> runs X (lift r) s Q.
Proof. by intros ->. Qed.

Lemma runs_throw {A} (e : E) s (Q : A -> S -> Prop) : X e s -> runs X (throw e) s Q.
Proof. done. Qed.
End runs.

Lemma runs_weaken {S E A : Type} (X Y : E -> S -> Prop) (m : eff S E A) s (Q : A -> S -> Prop) :
  runs X m s Q -> (forall e s', X e s' -> Y e s') -> runs Y m s Q.
Proof. unfold runs. destruct (m s) as [[a|e] s']; auto. Qed.

(** Take the next step of a run that returns: [E] is the run, [a] its value and [s] the state after it. *)
Ltac run_step E a s E1 := apply ebind_inv in E as (a & s & E1 & E).
