(* ===== verification/Uint256.v ===== *)
(** * Fixed-width unsigned integers ([uint256.h], [uint256.cpp])

    [base_uint<BITS>] is an array of [WIDTH = BITS / 32] little-endian 32-bit
    limbs.  A value is the list of its limbs; [val] is the number it denotes
    and [wf] the invariant of the class.  The theorems state that the limb loops
    compute arithmetic modulo [2 ^ BITS]. *)

From Stdlib Require Import ZArith Lia List Bool.
From stdpp Require Import base list.
From S2P Require Import Prelude.

Open Scope Z_scope.

(** ** The class and its invariant *)

Abbreviation base_uint := (list Z).

Fixpoint val (pn : base_uint) : Z :=
  match pn with [] => 0 | x :: t => x + 2 ^ 32 * val t end.

Definition wf (WIDTH : nat) (pn : base_uint) : Prop :=
  length pn = WIDTH /\ Forall in_u32 pn.

Definition BITS (WIDTH : nat) : Z := 32 * Z.of_nat WIDTH.

(** ** Construction, tests, and the bitwise operators *)

Definition base_uint_zero (WIDTH : nat) : base_uint := repeat 0 WIDTH.

(** [base_uint(uint64_t b)] and [operator=(uint64_t)]. *)
Definition base_uint_u64 (WIDTH : nat) (b : Z) : base_uint :=
  u32 b :: u32 (Z.shiftr b 32) :: repeat 0 (WIDTH - 2).

Definition IsNull (pn : base_uint) : bool := forallb (fun x => x =? 0) pn.

Definition bnot (pn : base_uint) : base_uint := map (fun x => u32 (Z.lnot x)) pn.

(** [operator^=], [operator&=], [operator|=] on two values of one width. *)
Fixpoint limbwise (f : Z -> Z -> Z) (a b : base_uint) : base_uint :=
  match a, b with
  | x :: a', y :: b' => f x y :: limbwise f a' b'
  | _, _ => []
  end.
Definition bxor : base_uint -> base_uint -> base_uint := limbwise Z.lxor.
Definition band : base_uint -> base_uint -> base_uint := limbwise Z.land.
Definition bor : base_uint -> base_uint -> base_uint := limbwise Z.lor.

(** ** Addition, increment, negation, subtraction *)

(** The loop of [operator+=]: [n = carry + pn[i] + b.pn[i]]. *)
Fixpoint add_loop (carry : Z) (a b : base_uint) : base_uint :=
  match a, b with
  | x :: a', y :: b' =>
      let n := u64 (carry + x + y) in
      Z.land n (2 ^ 32 - 1) :: add_loop (Z.shiftr n 32) a' b'
  | _, _ => []
  end.
Definition badd (a b : base_uint) : base_uint := add_loop 0 a b.

(** [operator++]: [while (++pn[i] == 0 && i < WIDTH - 1) i++]. *)
Fixpoint binc (pn : base_uint) : base_uint :=
  match pn with
  | [] => []
  | x :: t => let y := u32 (x + 1) in y :: (if y =? 0 then binc t else t)
  end.

(** [operator--]: [while (--pn[i] == (uint32_t)-1 && i < WIDTH - 1) i++]. *)
Fixpoint bdec (pn : base_uint) : base_uint :=
  match pn with
  | [] => []
  | x :: t => let y := u32 (x - 1) in y :: (if y =? 2 ^ 32 - 1 then bdec t else t)
  end.

Definition bneg (pn : base_uint) : base_uint := binc (bnot pn).
Definition bsub (a b : base_uint) : base_uint := badd a (bneg b).

(** ** Multiplication *)

(** [operator*=(uint32_t b32)]. *)
Fixpoint mul32_loop (carry b32 : Z) (pn : base_uint) : base_uint :=
  match pn with
  | [] => []
  | x :: t =>
      let n := u64 (carry + b32 * x) in
      Z.land n (2 ^ 32 - 1) :: mul32_loop (Z.shiftr n 32) b32 t
  end.
Definition bmul32 (pn : base_uint) (b32 : Z) : base_uint := mul32_loop 0 b32 pn.

(** The inner loop of [operator*=(const base_uint&)] for one [j]: it adds
    [a.pn[j] * b] to [pn[j..]], [i] running while [i + j < WIDTH]. *)
Fixpoint mul_row (carry aj : Z) (pn b : base_uint) : base_uint :=
  match pn, b with
  | p :: pn', bi :: b' =>
      let n := u64 (carry + p + aj * bi) in
      Z.land n (2 ^ 32 - 1) :: mul_row (Z.shiftr n 32) aj pn' b'
  | _, _ => pn
  end.

(** The outer loop: row [j] only touches [pn[j..]], so [pn[j]] is final after it. *)
Fixpoint mul_rows (a pn b : base_uint) : base_uint :=
  match a, pn with
  | aj :: a', _ :: _ =>
      match mul_row 0 aj pn b with
      | r :: rest => r :: mul_rows a' rest b
      | [] => []
      end
  | _, _ => pn
  end.
(** [operator*=(const base_uint&)] for two distinct objects.  In [x *= x], which is not
    modelled, the product is zeroed before [b] is read. *)
Definition bmul (a b : base_uint) : base_uint :=
  mul_rows a (base_uint_zero (length a)) b.

(** ** Shifts *)

Definition limb (pn : base_uint) (i : nat) : Z := nth i pn 0.

(** [pn[i] |= v] *)
Definition or_at (pn : base_uint) (i : nat) (v : Z) : base_uint :=
  <[i := Z.lor (limb pn i) v]> pn.

(** One iteration of the loop of [operator<<=], [k = shift / 32], [s = shift % 32]. *)
Definition shl_step (a : base_uint) (k : nat) (s : Z) (pn : base_uint) (i : nat) : base_uint :=
  let pn1 := if ((i + k + 1 <? length a)%nat && negb (s =? 0))%bool
             then or_at pn (i + k + 1) (Z.shiftr (limb a i) (32 - s)) else pn in
  if (i + k <? length a)%nat
  then or_at pn1 (i + k) (u32 (Z.shiftl (limb a i) s)) else pn1.

Definition bshl (a : base_uint) (shift : Z) : base_uint :=
  fold_left (shl_step a (Z.to_nat (shift / 32)) (shift mod 32))
    (seq 0 (length a)) (base_uint_zero (length a)).

(** One iteration of the loop of [operator>>=]. *)
Definition shr_step (a : base_uint) (k : nat) (s : Z) (pn : base_uint) (i : nat) : base_uint :=
  let pn1 := if ((k + 1 <=? i)%nat && negb (s =? 0))%bool
             then or_at pn (i - k - 1) (u32 (Z.shiftl (limb a i) (32 - s))) else pn in
  if (k <=? i)%nat
  then or_at pn1 (i - k) (Z.shiftr (limb a i) s) else pn1.

Definition bshr (a : base_uint) (shift : Z) : base_uint :=
  fold_left (shr_step a (Z.to_nat (shift / 32)) (shift mod 32))
    (seq 0 (length a)) (base_uint_zero (length a)).

(** ** Comparison and bit length *)

(** [CompareTo]: from the most significant limb down. *)
Fixpoint CompareTo_loop (i : nat) (a b : base_uint) : Z :=
  match i with
  | O => 0
  | S i' => if limb a i' <? limb b i' then -1
            else if limb a i' >? limb b i' then 1
            else CompareTo_loop i' a b
  end.
Definition CompareTo (a b : base_uint) : Z := CompareTo_loop (length a) a b.

Definition EqualTo (a : base_uint) (b : Z) : bool :=
  forallb (fun x => x =? 0) (drop 2 a) &&
  (limb a 1 =? Z.shiftr b 32) && (limb a 0 =? Z.land b (2 ^ 32 - 1)).

(** [for (bits = 31; bits > 0; bits--) if (pn[pos] & 1 << bits) return ...] *)
Fixpoint bits_limb (x : Z) (bits : nat) : Z :=
  match bits with
  | O => 1
  | S b => if negb (Z.land x (Z.shiftl 1 (Z.of_nat bits)) =? 0)
           then Z.of_nat bits + 1 else bits_limb x b
  end.

Fixpoint bits_loop (pos : nat) (pn : base_uint) : Z :=
  match pos with
  | O => 0
  | S p => if negb (limb pn p =? 0)
           then 32 * Z.of_nat p + bits_limb (limb pn p) 31 else bits_loop p pn
  end.
Definition bits (pn : base_uint) : Z := bits_loop (length pn) pn.

(** ** Division *)

(** The loop of [operator/=]: [shift] counts down to 0. *)
Fixpoint div_loop (shift : nat) (num div quo : base_uint) : base_uint * base_uint :=
  let '(num1, quo1) :=
    if 0 <=? CompareTo num div
    then (bsub num div,
          or_at quo (shift / 32)
            (u32 (Z.shiftl 1 (Z.of_nat (Nat.modulo shift 32)))))
    else (num, quo) in
  match shift with
  | O => (quo1, num1)
  | S s => div_loop s num1 (bshr div 1) quo1
  end.

Inductive uint_error : Type := DivisionByZero | WrongSize.

Definition bdiv (a b : base_uint) : result uint_error base_uint :=
  let num_bits := bits a in
  let div_bits := bits b in
  if div_bits =? 0 then Err DivisionByZero
  else if div_bits >? num_bits then Ret (base_uint_zero (length a))
  else let shift := num_bits - div_bits in
       Ret (fst (div_loop (Z.to_nat shift) a (bshl b shift) (base_uint_zero (length a)))).

(** ** Accessors *)

Definition Get64 (pn : base_uint) (n : nat) : Z :=
  Z.lor (limb pn (2 * n)) (Z.shiftl (limb pn (2 * n + 1)) 32).
Definition Get32 (pn : base_uint) (n : nat) : Z := limb pn (2 * n).
Definition GetLow64 (pn : base_uint) : Z := Z.lor (limb pn 0) (Z.shiftl (limb pn 1) 32).

(** [uint512::trim256]. *)
Definition trim256 (pn : base_uint) : base_uint := take 8 pn.

(** ** Values and limbs *)

Lemma wf_nil : wf 0 [].
Proof. by split. Qed.

Lemma wf_cons n x t : wf (S n) (x :: t) <-> in_u32 x /\ wf n t.
Proof. unfold wf. simpl. rewrite Forall_cons. split; intros; intuition lia. Qed.

Lemma wf_S_inv n l : wf (S n) l -> exists x t, l = x :: t /\ in_u32 x /\ wf n t.
Proof.
  intros [Hl HF]. destruct l as [|x t]; [done|]. exists x, t.
  split; [done|]. by apply wf_cons.
Qed.

Lemma wf_0_inv l : wf 0 l -> l = [].
Proof. intros [Hl _]. by destruct l. Qed.

Lemma wf_zero n : wf n (base_uint_zero n).
Proof.
  induction n; [apply wf_nil|]. apply wf_cons. split; [|done].
  unfold in_u32; lia.
Qed.

Lemma val_zero n : val (base_uint_zero n) = 0.
Proof. induction n; [done|]. simpl. unfold base_uint_zero in IHn. lia. Qed.

Lemma BITS_S n : 2 ^ BITS (S n) = 2 ^ 32 * 2 ^ BITS n.
Proof. unfold BITS. rewrite <- Z.pow_add_r by lia. f_equal. lia. Qed.

Lemma BITS_pos n : 0 < 2 ^ BITS n.
Proof. apply Z.pow_pos_nonneg; unfold BITS; lia. Qed.

Lemma val_range n l : wf n l -> 0 <= val l < 2 ^ BITS n.
Proof.
  revert l; induction n; intros l H.
  - rewrite (wf_0_inv l H). unfold BITS. simpl. lia.
  - destruct (wf_S_inv _ _ H) as (x & t & -> & Hx & Ht).
    specialize (IHn _ Ht). rewrite BITS_S. simpl val. unfold in_u32 in Hx. nia.
Qed.

Lemma val_inj n a b : wf n a -> wf n b -> val a = val b -> a = b.
Proof.
  revert a b; induction n; intros a b Ha Hb E.
  - by rewrite (wf_0_inv a Ha), (wf_0_inv b Hb).
  - destruct (wf_S_inv _ _ Ha) as (x & s & -> & Hx & Hs).
    destruct (wf_S_inv _ _ Hb) as (y & t & -> & Hy & Ht).
    simpl val in E. unfold in_u32 in *.
    assert (x = y) as -> by lia. f_equal. apply IHn; [done|done|lia].
Qed.

(** The step every carry loop makes: splitting off the low limb. *)
Lemma mod_limb n h M : 0 < M ->
  (n + 2 ^ 32 * h) mod (2 ^ 32 * M) = n mod 2 ^ 32 + 2 ^ 32 * ((n / 2 ^ 32 + h) mod M).
Proof.
  intros. rewrite Z.rem_mul_r by lia.
  rewrite (Z.mul_comm _ h), Z.mod_add, Z.div_add by lia. done.
Qed.

Lemma land_limb n : Z.land n (2 ^ 32 - 1) = n mod 2 ^ 32.
Proof. by apply land_ones_mod. Qed.

Lemma shiftr_limb n : Z.shiftr n 32 = n / 2 ^ 32.
Proof. by rewrite Z.shiftr_div_pow2. Qed.

Lemma mod_limb_u32 n : in_u32 (n mod 2 ^ 32).
Proof. unfold in_u32. apply Z.mod_pos_bound. lia. Qed.
#[export] Hint Resolve mod_limb_u32 wf_nil wf_zero : btc.

(** ** The carry loops compute modular arithmetic *)

Lemma add_loop_spec n : forall c a b, wf n a -> wf n b -> 0 <= c <= 1 ->
  wf n (add_loop c a b) /\ val (add_loop c a b) = (c + val a + val b) mod 2 ^ BITS n.
Proof.
  induction n; intros c a b Ha Hb Hc.
  - rewrite (wf_0_inv a Ha), (wf_0_inv b Hb). split; [apply wf_nil|].
    unfold BITS. by rewrite Z.mod_1_r.
  - destruct (wf_S_inv _ _ Ha) as (x & s & -> & Hx & Hs).
    destruct (wf_S_inv _ _ Hb) as (y & t & -> & Hy & Ht).
    unfold in_u32 in Hx, Hy. cbn [add_loop].
    rewrite land_limb, shiftr_limb, u64_small by (unfold in_u64; lia).
    destruct (IHn ((c + x + y) / 2 ^ 32) s t Hs Ht) as [W V].
    { Z.div_mod_to_equations. lia. }
    split; [apply wf_cons; auto with btc|].
    cbn [val]. rewrite V, BITS_S.
    replace (c + (x + 2 ^ 32 * val s) + (y + 2 ^ 32 * val t))
      with (c + x + y + 2 ^ 32 * (val s + val t)) by lia.
    rewrite mod_limb by apply BITS_pos. by rewrite Z.add_assoc.
Qed.

Lemma badd_spec n a b : wf n a -> wf n b ->
  wf n (badd a b) /\ val (badd a b) = (val a + val b) mod 2 ^ BITS n.
Proof. intros. apply (add_loop_spec n 0); auto. lia. Qed.

Lemma bnot_spec n a : wf n a -> wf n (bnot a) /\ val (bnot a) = 2 ^ BITS n - 1 - val a.
Proof.
  revert a; induction n; intros a Ha.
  - rewrite (wf_0_inv a Ha). split; [apply wf_nil|done].
  - destruct (wf_S_inv _ _ Ha) as (x & s & -> & Hx & Hs). unfold in_u32 in Hx.
    destruct (IHn s Hs) as [W V].
    assert (E : u32 (Z.lnot x) = 2 ^ 32 - 1 - x).
    { unfold u32, Z.lnot. rewrite <- (Z.mod_add _ 1) by lia.
      rewrite Z.mod_small; lia. }
    cbn [bnot map]. fold (bnot s). split.
    + apply wf_cons. auto with btc.
    + cbn [val]. rewrite V, E, BITS_S. lia.
Qed.

Lemma binc_spec n a : wf n a ->
  wf n (binc a) /\ val (binc a) = (val a + 1) mod 2 ^ BITS n.
Proof.
  revert a; induction n; intros a Ha.
  - rewrite (wf_0_inv a Ha). split; [apply wf_nil|]. unfold BITS. by rewrite Z.mod_1_r.
  - destruct (wf_S_inv _ _ Ha) as (x & s & -> & Hx & Hs). unfold in_u32 in Hx.
    destruct (IHn s Hs) as [W V]. pose proof (val_range _ _ Hs).
    pose proof (BITS_pos n). cbn [binc val]. rewrite BITS_S.
    replace (x + 2 ^ 32 * val s + 1) with (x + 1 + 2 ^ 32 * val s) by lia.
    rewrite mod_limb by done. change (u32 (x + 1)) with ((x + 1) mod 2 ^ 32).
    destruct (Z.eqb_spec ((x + 1) mod 2 ^ 32) 0) as [E|E].
    + split; [apply wf_cons; auto with btc|]. rewrite V.
      assert ((x + 1) / 2 ^ 32 = 1) as -> by (Z.div_mod_to_equations; lia).
      by rewrite (Z.add_comm 1).
    + split; [apply wf_cons; auto with btc|].
      assert ((x + 1) / 2 ^ 32 = 0) as -> by (Z.div_mod_to_equations; lia).
      by rewrite Z.add_0_l, (Z.mod_small (val s)).
Qed.

Lemma bdec_spec n a : wf n a ->
  wf n (bdec a) /\ val (bdec a) = (val a - 1) mod 2 ^ BITS n.
Proof.
  revert a; induction n; intros a Ha.
  - rewrite (wf_0_inv a Ha). split; [apply wf_nil|]. unfold BITS. by rewrite Z.mod_1_r.
  - destruct (wf_S_inv _ _ Ha) as (x & s & -> & Hx & Hs). unfold in_u32 in Hx.
    destruct (IHn s Hs) as [W V]. pose proof (val_range _ _ Hs).
    pose proof (BITS_pos n). cbn [bdec val]. rewrite BITS_S.
    replace (x + 2 ^ 32 * val s - 1) with (x - 1 + 2 ^ 32 * val s) by lia.
    rewrite mod_limb by done. change (u32 (x - 1)) with ((x - 1) mod 2 ^ 32).
    destruct (Z.eqb_spec ((x - 1) mod 2 ^ 32) (2 ^ 32 - 1)) as [E|E].
    + split; [apply wf_cons; auto with btc|]. rewrite V.
      assert ((x - 1) / 2 ^ 32 = -1) as -> by (Z.div_mod_to_equations; lia).
      by rewrite (Z.add_comm (-1)).
    + split; [apply wf_cons; auto with btc|].
      assert ((x - 1) / 2 ^ 32 = 0) as -> by (Z.div_mod_to_equations; lia).
      by rewrite Z.add_0_l, (Z.mod_small (val s)).
Qed.

Lemma bneg_spec n a : wf n a ->
  wf n (bneg a) /\ val (bneg a) = (- val a) mod 2 ^ BITS n.
Proof.
  intros Ha. destruct (bnot_spec n a Ha) as [W V].
  destruct (binc_spec n _ W) as [W' V']. split; [done|].
  unfold bneg. rewrite V', V. rewrite <- (Z.mod_add (- val a) 1) by (pose proof (BITS_pos n); lia).
  f_equal. lia.
Qed.

Lemma bsub_spec n a b : wf n a -> wf n b ->
  wf n (bsub a b) /\ val (bsub a b) = (val a - val b) mod 2 ^ BITS n.
Proof.
  intros Ha Hb. destruct (bneg_spec n b Hb) as [W V].
  destruct (badd_spec n a _ Ha W) as [W' V']. split; [done|].
  unfold bsub. rewrite V', V, Z.add_mod_idemp_r by (pose proof (BITS_pos n); lia).
  f_equal; lia.
Qed.

Lemma mul32_loop_spec n : forall c k a, wf n a -> in_u32 c -> in_u32 k ->
  wf n (mul32_loop c k a) /\ val (mul32_loop c k a) = (c + k * val a) mod 2 ^ BITS n.
Proof.
  induction n; intros c k a Ha Hc Hk.
  - rewrite (wf_0_inv a Ha). split; [apply wf_nil|]. unfold BITS. by rewrite Z.mod_1_r.
  - destruct (wf_S_inv _ _ Ha) as (x & s & -> & Hx & Hs).
    unfold in_u32 in *. cbn [mul32_loop].
    assert (0 <= c + k * x < 2 ^ 64) by nia.
    rewrite land_limb, shiftr_limb, u64_small by done.
    destruct (IHn ((c + k * x) / 2 ^ 32) k s Hs) as [W V]; [|done|].
    { Z.div_mod_to_equations. nia. }
    split; [apply wf_cons; auto with btc|].
    cbn [val]. rewrite V, BITS_S.
    replace (c + k * (x + 2 ^ 32 * val s))
      with (c + k * x + 2 ^ 32 * (k * val s)) by lia.
    by rewrite mod_limb by apply BITS_pos.
Qed.

Lemma bmul32_spec n a k : wf n a -> in_u32 k ->
  wf n (bmul32 a k) /\ val (bmul32 a k) = (val a * k) mod 2 ^ BITS n.
Proof.
  intros Ha Hk. destruct (mul32_loop_spec n 0 k a Ha) as [W V]; [|done|].
  { unfold in_u32. lia. }
  split; [done|]. unfold bmul32. rewrite V. f_equal. lia.
Qed.

Lemma mul_row_spec n : forall m c aj p b, wf n p -> wf m b -> (n <= m)%nat ->
  in_u32 c -> in_u32 aj ->
  wf n (mul_row c aj p b) /\
  val (mul_row c aj p b) = (c + val p + aj * val b) mod 2 ^ BITS n.
Proof.
  induction n; intros m c aj p b Hp Hb Hnm Hc Haj.
  - rewrite (wf_0_inv p Hp). split; [apply wf_nil|]. unfold BITS. by rewrite Z.mod_1_r.
  - destruct m as [|m]; [lia|].
    destruct (wf_S_inv _ _ Hp) as (x & s & -> & Hx & Hs).
    destruct (wf_S_inv _ _ Hb) as (y & t & -> & Hy & Ht).
    unfold in_u32 in *. cbn [mul_row].
    assert (0 <= c + x + aj * y < 2 ^ 64) by nia.
    rewrite land_limb, shiftr_limb, u64_small by done.
    destruct (IHn m ((c + x + aj * y) / 2 ^ 32) aj s t Hs Ht) as [W V]; [lia| |done|].
    { Z.div_mod_to_equations. nia. }
    split; [apply wf_cons; auto with btc|].
    cbn [val]. rewrite V, BITS_S.
    replace (c + (x + 2 ^ 32 * val s) + aj * (y + 2 ^ 32 * val t))
      with (c + x + aj * y + 2 ^ 32 * (val s + aj * val t)) by lia.
    rewrite mod_limb by apply BITS_pos. by rewrite Z.add_assoc.
Qed.

Lemma mul_rows_spec n : forall m a p b, wf n a -> wf n p -> wf m b -> (n <= m)%nat ->
  wf n (mul_rows a p b) /\ val (mul_rows a p b) = (val p + val a * val b) mod 2 ^ BITS n.
Proof.
  induction n; intros m a p b Ha Hp Hb Hnm.
  - rewrite (wf_0_inv p Hp), (wf_0_inv a Ha). split; [apply wf_nil|].
    unfold BITS. by rewrite Z.mod_1_r.
  - destruct (wf_S_inv _ _ Ha) as (aj & a' & -> & Haj & Ha').
    destruct (mul_row_spec (S n) m 0 aj p b) as [W V]; auto.
    { unfold in_u32; lia. }
    destruct (wf_S_inv _ _ Hp) as (x & s & -> & Hx & Hs). cbn [mul_rows].
    destruct (wf_S_inv _ _ W) as (r & rest & E & Hr & Hrest). rewrite E in V |- *.
    destruct (IHn m a' rest b Ha' Hrest Hb) as [W2 V2]; [lia|].
    split; [apply wf_cons; auto|]. cbn [val] in V |- *. rewrite V2, BITS_S in *.
    unfold in_u32 in Hr. pose proof (BITS_pos n).
    rewrite <- (Z.mod_small r (2 ^ 32)) at 1 by lia.
    replace (val rest + val a' * val b) with (r / 2 ^ 32 + (val rest + val a' * val b))
      by (rewrite Z.div_small; lia).
    rewrite <- mod_limb by done.
    replace (r + 2 ^ 32 * (val rest + val a' * val b))
      with ((r + 2 ^ 32 * val rest) + 2 ^ 32 * (val a' * val b)) by lia.
    rewrite V, Z.add_mod_idemp_l by lia. f_equal. lia.
Qed.

Lemma bmul_spec n a b : wf n a -> wf n b ->
  wf n (bmul a b) /\ val (bmul a b) = (val a * val b) mod 2 ^ BITS n.
Proof.
  intros Ha Hb. unfold bmul. rewrite (proj1 Ha).
  destruct (mul_rows_spec n n a (base_uint_zero n) b) as [W V]; auto with btc.
  by rewrite val_zero in V.
Qed.

(** ** Bits of a limb list *)

Lemma limb_range n a i : wf n a -> in_u32 (limb a i).
Proof.
  intros [_ HF]. unfold limb. revert i.
  induction HF as [|x t Hx HF IH]; intros [|i]; cbn [nth]; [| |done|apply IH];
    unfold in_u32; lia.
Qed.

Lemma val_cons_lor x t : in_u32 x -> val (x :: t) = Z.lor x (val t * 2 ^ 32).
Proof. intros Hx. rewrite lor_disjoint_add by (unfold in_u32 in Hx; lia). simpl. lia. Qed.

Lemma or_at_wf n pn i v : wf n pn -> in_u32 v -> wf n (or_at pn i v).
Proof.
  intros H Hv. pose proof (limb_range n pn i H) as Hr. destruct H as [Hl HF].
  unfold or_at. split; [by rewrite length_insert|]. apply Forall_insert; [done|].
  by apply lor_bound.
Qed.

Lemma val_or_at n pn i v : wf n pn -> (i < n)%nat -> in_u32 v ->
  val (or_at pn i v) = Z.lor (val pn) (v * 2 ^ (32 * Z.of_nat i)).
Proof.
  revert pn i; induction n; intros pn i Hp Hi Hv; [lia|].
  destruct (wf_S_inv _ _ Hp) as (x & s & -> & Hx & Hs).
  pose proof (or_at_wf _ _ i v Hp Hv) as Ho.
  destruct i as [|i].
  - unfold or_at, limb in *. simpl in Ho |- *. apply wf_cons in Ho as [Ho _].
    change (x + 2 ^ 32 * val s) with (val (x :: s)).
    change (Z.lor x v + 2 ^ 32 * val s) with (val (Z.lor x v :: s)).
    rewrite !val_cons_lor by done. rewrite Z.mul_1_r.
    by rewrite <- !Z.lor_assoc, (Z.lor_comm v).
  - change (or_at (x :: s) (S i) v) with (x :: or_at s i v).
    rewrite !val_cons_lor by done. rewrite IHn by (done || lia).
    rewrite <- Z.lor_assoc. f_equal.
    rewrite <- !Z.shiftl_mul_pow2, Z.shiftl_lor, Z.shiftl_shiftl by lia.
    do 2 f_equal. lia.
Qed.

(** ** Shifts *)

Lemma lor_mod_pow2 a b n : 0 <= n ->
  Z.lor a b mod 2 ^ n = Z.lor (a mod 2 ^ n) (b mod 2 ^ n).
Proof. intros. rewrite <- !Z.land_ones by done. apply Z.land_lor_distr_l. Qed.

Lemma take_wf n a i : wf n a -> (i <= n)%nat -> wf i (take i a).
Proof.
  intros [Hl HF] Hi. split; [rewrite length_take; lia|]. by apply Forall_take.
Qed.

Lemma val_take_S n a i : wf n a -> (i < n)%nat ->
  val (take (S i) a) = Z.lor (val (take i a)) (limb a i * 2 ^ (32 * Z.of_nat i)).
Proof.
  intros Ha Hi. pose proof (val_range i (take i a)) as Hr.
  rewrite lor_disjoint_add; [|lia|apply Hr; eapply take_wf; eauto; lia].
  clear Hr. revert a i Ha Hi; induction n; intros a i Ha Hi; [lia|].
  destruct (wf_S_inv _ _ Ha) as (x & s & -> & Hx & Hs).
  destruct i as [|i]; [change (x + 2 ^ 32 * 0 = 0 + x * 1); lia|].
  change (take (S (S i)) (x :: s)) with (x :: take (S i) s).
  change (take (S i) (x :: s)) with (x :: take i s).
  cbn [val]. rewrite IHn by (done || lia). change (limb (x :: s) (S i)) with (limb s i).
  replace (32 * Z.of_nat (S i)) with (32 + 32 * Z.of_nat i) by lia.
  rewrite Z.pow_add_r by lia. lia.
Qed.

(** Shifting a limb left splits it over two limbs. *)
Lemma limb_shl_split x s : in_u32 x -> 0 <= s < 32 ->
  x * 2 ^ s = u32 (Z.shiftl x s) + Z.shiftr x (32 - s) * 2 ^ 32 /\ in_u32 (Z.shiftr x (32 - s)) /\ (s = 0 -> Z.shiftr x (32 - s) = 0).
Proof.
  intros Hx Hs. unfold in_u32, u32 in *.
  rewrite Z.shiftl_mul_pow2, Z.shiftr_div_pow2 by lia.
  assert (E : x / 2 ^ (32 - s) = x * 2 ^ s / 2 ^ 32).
  { replace (2 ^ 32) with (2 ^ (32 - s) * 2 ^ s).
    - symmetry. apply Z.div_mul_cancel_r; apply Z.pow_nonzero; lia.
    - rewrite <- Z.pow_add_r by lia. f_equal. lia. }
  split; [rewrite E; pose proof (Z.div_mod (x * 2 ^ s) (2 ^ 32)); lia|].
  assert (0 < 2 ^ (32 - s)) by (apply Z.pow_pos_nonneg; lia).
  split; [|intros ->; by apply Z.div_small].
  split; [apply Z.div_pos; lia|]. apply Z.div_lt_upper_bound; nia.
Qed.

Lemma mul_pow2_S x m : 0 <= m -> x * 2 ^ (32 + m) = x * 2 ^ 32 * 2 ^ m.
Proof. intros. rewrite Z.pow_add_r by lia. lia. Qed.

Lemma limb_pos_S i : 32 * Z.of_nat (i + 1) = 32 + 32 * Z.of_nat i.
Proof. lia. Qed.

(** Two adjacent limbs placed at limb position [m]. *)
Lemma lor_two_limbs q r m : in_u32 r ->
  Z.lor (q * 2 ^ (32 * Z.of_nat (m + 1))) (r * 2 ^ (32 * Z.of_nat m)) =
  (r + q * 2 ^ 32) * 2 ^ (32 * Z.of_nat m).
Proof.
  intros Hr. unfold in_u32 in Hr. rewrite limb_pos_S, mul_pow2_S by lia.
  rewrite <- (lor_disjoint_add r q 32) by lia.
  rewrite <- !(Z.shiftl_mul_pow2 _ (32 * _)) by lia.
  by rewrite Z.shiftl_lor, Z.lor_comm.
Qed.

Lemma two_limbs_mod n q r m : in_u32 q -> in_u32 r ->
  ((r + q * 2 ^ 32) * 2 ^ (32 * Z.of_nat m)) mod 2 ^ BITS n =
  Z.lor (if (m + 1 <? n)%nat then q * 2 ^ (32 * Z.of_nat (m + 1)) else 0)
        (if (m <? n)%nat then r * 2 ^ (32 * Z.of_nat m) else 0).
Proof.
  intros Hq Hr. pose proof (lor_two_limbs q r m Hr) as L. unfold in_u32 in *.
  assert (0 < 2 ^ (32 * Z.of_nat m)) by (apply Z.pow_pos_nonneg; lia).
  destruct (Nat.ltb_spec m n) as [H1|H1]; [destruct (Nat.ltb_spec (m + 1) n) as [H2|H2]|].
  - rewrite L. apply Z.mod_small. split; [nia|].
    apply Z.lt_le_trans with (2 ^ 64 * 2 ^ (32 * Z.of_nat m)).
    + apply Z.mul_lt_mono_pos_r; lia.
    + rewrite <- Z.pow_add_r by lia. apply Z.pow_le_mono_r; unfold BITS; lia.
  - assert (2 ^ BITS n = 2 ^ 32 * 2 ^ (32 * Z.of_nat m)) as ->.
    { rewrite <- Z.pow_add_r by lia. f_equal. unfold BITS. lia. }
    rewrite Z.mul_mod_distr_r by lia. by rewrite Z.mod_add, Z.mod_small by lia.
  - assert ((m + 1 <? n)%nat = false) as -> by (apply Nat.ltb_ge; lia).
    replace (2 ^ (32 * Z.of_nat m)) with (2 ^ (32 * Z.of_nat m - BITS n) * 2 ^ BITS n).
    + rewrite Z.mul_assoc. by rewrite Z.mod_mul by (pose proof (BITS_pos n); lia).
    + rewrite <- Z.pow_add_r by (unfold BITS; lia). f_equal. lia.
Qed.

(** One iteration of the [<<=] loop adds the two halves of limb [i]. *)
Lemma shl_step_val n a k s pn i : wf n a -> wf n pn -> (i < n)%nat -> 0 <= s < 32 ->
  wf n (shl_step a k s pn i) /\ val (shl_step a k s pn i) =
  Z.lor (val pn) ((limb a i * 2 ^ (32 * Z.of_nat i) * 2 ^ (32 * Z.of_nat k + s)) mod 2 ^ BITS n).
Proof.
  intros Ha Hpn Hi Hs. pose proof (limb_range n a i Ha) as Hx.
  destruct (limb_shl_split (limb a i) s Hx Hs) as (E & Hq & Hq0).
  pose proof (u32_range (Z.shiftl (limb a i) s)) as Hr.
  replace (limb a i * 2 ^ (32 * Z.of_nat i) * 2 ^ (32 * Z.of_nat k + s))
    with (limb a i * 2 ^ s * 2 ^ (32 * Z.of_nat (i + k))).
  2:{ replace (32 * Z.of_nat (i + k)) with (32 * Z.of_nat i + 32 * Z.of_nat k) by lia.
      rewrite !Z.pow_add_r by lia. lia. }
  rewrite E, two_limbs_mod by done. unfold shl_step. rewrite (proj1 Ha).
  set (c := (_ && negb (s =? 0))%bool). set (pn1 := if c then _ else pn).
  assert (H1 : wf n pn1 /\ val pn1 = Z.lor (val pn)
    (if (i + k + 1 <? n)%nat
     then Z.shiftr (limb a i) (32 - s) * 2 ^ (32 * Z.of_nat (i + k + 1)) else 0)).
  { unfold pn1, c. destruct (Nat.ltb_spec (i + k + 1) n); cbn [andb]; [|by rewrite Z.lor_0_r].
    destruct (Z.eqb_spec s 0); cbn [negb].
    - rewrite Hq0 by done. by rewrite Z.mul_0_l, Z.lor_0_r.
    - split; [by apply or_at_wf | by apply (val_or_at n)]. }
  destruct H1 as [W1 V1].
  destruct (Nat.ltb_spec (i + k) n); [|by rewrite Z.lor_0_r].
  split; [by apply or_at_wf|]. rewrite (val_or_at n) by done. by rewrite V1, Z.lor_assoc.
Qed.

Lemma bshl_spec n a shift : wf n a -> 0 <= shift ->
  wf n (bshl a shift) /\ val (bshl a shift) = (val a * 2 ^ shift) mod 2 ^ BITS n.
Proof.
  intros Ha Hsh. unfold bshl. rewrite (proj1 Ha).
  set (k := Z.to_nat (shift / 32)). set (s := shift mod 32).
  assert (Hs : 0 <= s < 32) by (apply Z.mod_pos_bound; lia).
  assert (Hk : shift = 32 * Z.of_nat k + s).
  { unfold k, s. rewrite Z2Nat.id by (apply Z.div_pos; lia). apply Z.div_mod. lia. }
  assert (L : forall i, (i <= n)%nat ->
    wf n (fold_left (shl_step a k s) (seq 0 i) (base_uint_zero n)) /\ val (fold_left (shl_step a k s) (seq 0 i) (base_uint_zero n))
      = (val (take i a) * 2 ^ shift) mod 2 ^ BITS n).
  { induction i as [|i IH]; intros Hi.
    - split; [apply wf_zero|]. simpl. by rewrite val_zero.
    - destruct IH as [W V]; [lia|]. rewrite seq_S, fold_left_app. cbn [fold_left Nat.add].
      destruct (shl_step_val n a k s _ i Ha W) as [W' V']; [lia|done|].
      split; [done|]. rewrite V', V, (val_take_S n), <- Hk by (done || lia).
      rewrite <- !(Z.shiftl_mul_pow2 _ shift), Z.shiftl_lor by lia.
      rewrite lor_mod_pow2 by (unfold BITS; lia). done. }
  destruct (L n) as [W V]; [done|]. split; [done|]. rewrite V. f_equal.
  rewrite firstn_all2; [done|]. by rewrite (proj1 Ha).
Qed.

Lemma limb_shr_split x s : 0 <= s < 32 ->
  Z.shiftr (x * 2 ^ 32) s = u32 (Z.shiftl x (32 - s)) + Z.shiftr x s * 2 ^ 32.
Proof.
  intros Hs. unfold u32. rewrite !Z.shiftr_div_pow2, Z.shiftl_mul_pow2 by lia.
  assert (0 < 2 ^ s) by (apply Z.pow_pos_nonneg; lia).
  assert (E : 2 ^ 32 = 2 ^ (32 - s) * 2 ^ s).
  { rewrite <- Z.pow_add_r by lia. f_equal. lia. }
  assert (x * 2 ^ 32 / 2 ^ s = x * 2 ^ (32 - s)) as ->.
  { rewrite E, Z.mul_assoc. apply Z.div_mul. lia. }
  assert (x / 2 ^ s = x * 2 ^ (32 - s) / 2 ^ 32) as ->.
  { rewrite E, (Z.mul_comm (2 ^ (32 - s)) (2 ^ s)). symmetry.
    apply Z.div_mul_cancel_r; [lia|]. apply Z.pow_nonzero; lia. }
  pose proof (Z.div_mod (x * 2 ^ (32 - s)) (2 ^ 32)). lia.
Qed.

Lemma shiftr_limb_in_u32 x s : in_u32 x -> 0 <= s -> in_u32 (Z.shiftr x s).
Proof.
  unfold in_u32. intros Hx Hs. rewrite Z.shiftr_div_pow2 by lia.
  assert (0 < 2 ^ s) by (apply Z.pow_pos_nonneg; lia).
  split; [apply Z.div_pos; lia|]. apply Z.div_lt_upper_bound; nia.
Qed.

(** What limb [i] contributes to the number shifted right by [32 * k + s]. *)
Lemma shr_contrib x i k s : in_u32 x -> 0 <= s < 32 ->
  Z.shiftr (x * 2 ^ (32 * Z.of_nat i)) (32 * Z.of_nat k + s) =
  if (k + 1 <=? i)%nat
  then (u32 (Z.shiftl x (32 - s)) + Z.shiftr x s * 2 ^ 32) * 2 ^ (32 * Z.of_nat (i - k - 1))
  else if (k <=? i)%nat then Z.shiftr x s else 0.
Proof.
  intros Hx Hs. rewrite <- Z.shiftr_shiftr by lia. unfold in_u32 in Hx.
  destruct (Nat.leb_spec (k + 1) i) as [H|H]; [|destruct (Nat.leb_spec k i)].
  - rewrite <- limb_shr_split by done.
    replace (32 * Z.of_nat i)
      with (32 + (32 * Z.of_nat (i - k - 1)) + 32 * Z.of_nat k) by lia.
    rewrite Z.pow_add_r, Z.mul_assoc, (Z.shiftr_div_pow2 _ (32 * Z.of_nat k)) by lia.
    rewrite Z.div_mul by (apply Z.pow_nonzero; lia).
    rewrite mul_pow2_S by lia. set (m := 32 * Z.of_nat (i - k - 1)).
    rewrite <- !(Z.shiftl_mul_pow2 _ m), <- !(Z.shiftl_mul_pow2 _ 32) by lia.
    rewrite !Z.shiftl_shiftl by lia.
    rewrite Z.shiftr_shiftl_l, Z.shiftr_shiftl_l, Z.shiftl_shiftl by lia. f_equal. lia.
  - assert (i = k) as -> by lia. rewrite (Z.shiftr_div_pow2 _ (32 * Z.of_nat k)) by lia.
    by rewrite Z.div_mul by (apply Z.pow_nonzero; lia).
  - rewrite (Z.shiftr_div_pow2 _ (32 * Z.of_nat k)) by lia.
    rewrite Z.div_small; [apply Z.shiftr_0_l|]. split; [nia|].
    apply Z.lt_le_trans with (2 ^ 32 * 2 ^ (32 * Z.of_nat i)).
    + apply Z.mul_lt_mono_pos_r; [apply Z.pow_pos_nonneg|]; lia.
    + rewrite <- Z.pow_add_r by lia. apply Z.pow_le_mono_r; lia.
Qed.

Lemma shr_step_val n a k s pn i : wf n a -> wf n pn -> (i < n)%nat -> 0 <= s < 32 ->
  wf n (shr_step a k s pn i) /\
  val (shr_step a k s pn i) =
  Z.lor (val pn) (Z.shiftr (limb a i * 2 ^ (32 * Z.of_nat i)) (32 * Z.of_nat k + s)).
Proof.
  intros Ha Hpn Hi Hs. pose proof (limb_range n a i Ha) as Hx.
  pose proof (u32_range (Z.shiftl (limb a i) (32 - s))) as Hl.
  assert (Hr : in_u32 (Z.shiftr (limb a i) s)) by (apply shiftr_limb_in_u32; [done|lia]).
  rewrite shr_contrib by done. unfold shr_step.
  destruct (Nat.leb_spec (k + 1) i) as [H|H]; cbn [andb].
  - assert ((k <=? i)%nat = true) as -> by (apply Nat.leb_le; lia).
    rewrite <- lor_two_limbs by done. replace (i - k - 1 + 1)%nat with (i - k)%nat by lia.
    destruct (Z.eqb_spec s 0) as [->|]; cbn [negb].
    + assert (u32 (Z.shiftl (limb a i) (32 - 0)) = 0) as ->.
      { unfold u32. rewrite Z.shiftl_mul_pow2 by lia. by apply Z.mod_mul. }
      split; [by apply or_at_wf|].
      rewrite (val_or_at n) by (done || lia). by rewrite Z.mul_0_l, Z.lor_0_r.
    + split; [apply or_at_wf; [by apply or_at_wf|done]|].
      rewrite (val_or_at n); [|by apply or_at_wf|lia|done].
      rewrite (val_or_at n) by (done || lia).
      rewrite <- Z.lor_assoc. f_equal. apply Z.lor_comm.
  - destruct (Nat.leb_spec k i); [|by rewrite Z.lor_0_r].
    split; [by apply or_at_wf|]. rewrite (val_or_at n) by (done || lia).
    replace (i - k)%nat with 0%nat by lia. by rewrite Z.mul_1_r.
Qed.

Lemma bshr_spec n a shift : wf n a -> 0 <= shift ->
  wf n (bshr a shift) /\ val (bshr a shift) = val a / 2 ^ shift.
Proof.
  intros Ha Hsh. unfold bshr. rewrite (proj1 Ha).
  set (k := Z.to_nat (shift / 32)). set (s := shift mod 32).
  assert (Hs : 0 <= s < 32) by (apply Z.mod_pos_bound; lia).
  assert (Hk : shift = 32 * Z.of_nat k + s).
  { unfold k, s. rewrite Z2Nat.id by (apply Z.div_pos; lia). apply Z.div_mod. lia. }
  rewrite <- Z.shiftr_div_pow2 by done.
  assert (L : forall i, (i <= n)%nat ->
    wf n (fold_left (shr_step a k s) (seq 0 i) (base_uint_zero n)) /\
    val (fold_left (shr_step a k s) (seq 0 i) (base_uint_zero n))
      = Z.shiftr (val (take i a)) shift).
  { induction i as [|i IH]; intros Hi.
    - split; [apply wf_zero|]. cbn. by rewrite val_zero, Z.shiftr_0_l.
    - destruct IH as [W V]; [lia|]. rewrite seq_S, fold_left_app. cbn [fold_left Nat.add].
      destruct (shr_step_val n a k s _ i Ha W) as [W' V']; [lia|done|].
      split; [done|]. rewrite V', V, (val_take_S n), <- Hk by (done || lia).
      by rewrite Z.shiftr_lor. }
  destruct (L n) as [W V]; [done|]. split; [done|]. rewrite V. f_equal.
  rewrite firstn_all2; [done|]. by rewrite (proj1 Ha).
Qed.

(** ** Comparison *)

Lemma val_take_S_add n a i : wf n a -> (i < n)%nat ->
  val (take (S i) a) = val (take i a) + limb a i * 2 ^ (32 * Z.of_nat i) /\
  0 <= val (take i a) < 2 ^ (32 * Z.of_nat i).
Proof.
  intros Ha Hi. assert (wf i (take i a)) as W by (apply (take_wf n); [done|lia]).
  pose proof (val_range _ _ W). unfold BITS in *.
  rewrite (val_take_S n), lor_disjoint_add by (done || lia). done.
Qed.

Lemma CompareTo_loop_spec n a b i : wf n a -> wf n b -> (i <= n)%nat ->
  CompareTo_loop i a b = Z.sgn (val (take i a) - val (take i b)).
Proof.
  intros Ha Hb. induction i as [|i IH]; intros Hi; [done|].
  destruct (val_take_S_add n a i Ha) as [Ea Ra]; [lia|].
  destruct (val_take_S_add n b i Hb) as [Eb Rb]; [lia|].
  assert (0 < 2 ^ (32 * Z.of_nat i)) by (apply Z.pow_pos_nonneg; lia).
  cbn [CompareTo_loop]. rewrite Ea, Eb, Z.gtb_ltb.
  destruct (Z.ltb_spec (limb a i) (limb b i)); [symmetry; apply Z.sgn_neg; nia|].
  destruct (Z.ltb_spec (limb b i) (limb a i)); [symmetry; apply Z.sgn_pos; nia|].
  assert (limb a i = limb b i) as -> by lia. rewrite IH by lia. f_equal. lia.
Qed.

Lemma CompareTo_spec n a b : wf n a -> wf n b -> CompareTo a b = Z.sgn (val a - val b).
Proof.
  intros Ha Hb. unfold CompareTo. rewrite (CompareTo_loop_spec n) by (try done; by rewrite (proj1 Ha)).
  rewrite !firstn_all2; [done| |]; rewrite ?(proj1 Ha), ?(proj1 Hb); done.
Qed.

(** ** Bit length *)

Lemma land_bit x b : 0 <= b -> negb (Z.land x (Z.shiftl 1 b) =? 0) = Z.testbit x b.
Proof.
  intros Hb. rewrite Z.shiftl_1_l.
  assert (Z.land x (2 ^ b) = if Z.testbit x b then 2 ^ b else 0) as ->.
  { apply Z.bits_inj'; intros i Hi. rewrite Z.land_spec, Z.pow2_bits_eqb by done.
    destruct (Z.eqb_spec b i) as [->|Hne].
    - destruct (Z.testbit x i); by rewrite ?Z.pow2_bits_true, ?Z.bits_0 by done.
    - rewrite andb_false_r. destruct (Z.testbit x b); [|by rewrite Z.bits_0].
      by rewrite Z.pow2_bits_false. }
  pose proof (Z.pow_pos_nonneg 2 b).
  destruct (Z.testbit x b); [|done]. destruct (Z.eqb_spec (2 ^ b) 0); [lia|done].
Qed.

Lemma bits_limb_spec b x : 0 < x < 2 ^ (Z.of_nat b + 1) -> bits_limb x b = Z.log2 x + 1.
Proof.
  induction b as [|b IH]; intros Hx.
  - assert (x = 1) as -> by (change (2 ^ (Z.of_nat 0 + 1)) with 2 in Hx; lia). done.
  - cbn [bits_limb]. rewrite land_bit by lia.
    destruct (Z.testbit x (Z.of_nat (S b))) eqn:E.
    + f_equal. symmetry. apply Z.log2_unique; [lia|]. split; [|lia].
      destruct (Z.le_gt_cases (2 ^ Z.of_nat (S b)) x); [done|].
      rewrite (testbit_high x (Z.of_nat (S b))) in E by lia. done.
    + apply IH. split; [lia|]. destruct (Z.le_gt_cases (2 ^ Z.of_nat (S b)) x) as [H|H].
      * assert (Z.log2 x = Z.of_nat (S b)) as L by (apply Z.log2_unique; lia).
        rewrite <- L, Z.bit_log2 in E by lia. done.
      * replace (Z.of_nat b + 1) with (Z.of_nat (S b)) by lia. done.
Qed.

(** The number of bits of a value: 0 for 0, otherwise [log2 + 1]. *)
Definition bitlen (v : Z) : Z := if v =? 0 then 0 else Z.log2 v + 1.

Lemma bits_loop_spec n a i : wf n a -> (i <= n)%nat ->
  bits_loop i a = bitlen (val (take i a)).
Proof.
  intros Ha. induction i as [|i IH]; intros Hi; [done|].
  destruct (val_take_S_add n a i Ha) as [Ea Ra]; [lia|]. cbn [bits_loop].
  pose proof (limb_range n a i Ha) as Hx. unfold in_u32 in Hx.
  destruct (Z.eqb_spec (limb a i) 0) as [E|E]; cbn [negb].
  - rewrite IH, Ea, E by lia. f_equal. lia.
  - rewrite (bits_limb_spec 31) by (change (2 ^ (Z.of_nat 31 + 1)) with (2 ^ 32); lia).
    assert (0 < 2 ^ (32 * Z.of_nat i)) by (apply Z.pow_pos_nonneg; lia).
    unfold bitlen. destruct (Z.eqb_spec (val (take (S i) a)) 0); [nia|].
    assert (Z.log2 (val (take (S i) a)) = Z.log2 (limb a i) + 32 * Z.of_nat i) as ->; [|lia].
    apply Z.log2_unique; [pose proof (Z.log2_nonneg (limb a i)); lia|].
    destruct (Z.log2_spec (limb a i)) as [L1 L2]; [lia|]. rewrite Ea.
    pose proof (Z.log2_nonneg (limb a i)).
    replace (Z.succ (Z.log2 (limb a i) + 32 * Z.of_nat i))
      with (Z.succ (Z.log2 (limb a i)) + 32 * Z.of_nat i) by lia.
    rewrite !Z.pow_add_r by lia. nia.
Qed.

Lemma bits_spec n a : wf n a -> bits a = bitlen (val a).
Proof.
  intros Ha. unfold bits. rewrite (bits_loop_spec n) by (try done; by rewrite (proj1 Ha)).
  by rewrite firstn_all.
Qed.

Lemma bitlen_lt v m : 0 <= v -> 0 <= m -> (v < 2 ^ m <-> bitlen v <= m).
Proof.
  intros Hv Hm. unfold bitlen. destruct (Z.eqb_spec v 0) as [->|].
  - pose proof (Z.pow_pos_nonneg 2 m). lia.
  - rewrite (Z.log2_lt_pow2 v m) by lia. lia.
Qed.

(** ** Division *)

Lemma set_bit_val n quo s : wf n quo -> Z.of_nat s < BITS n ->
  val quo mod 2 ^ (Z.of_nat s + 1) = 0 ->
  let quo1 := or_at quo (s / 32) (u32 (Z.shiftl 1 (Z.of_nat (Nat.modulo s 32)))) in
  wf n quo1 /\ val quo1 = val quo + 2 ^ Z.of_nat s.
Proof.
  intros Hq Hs Hm quo1. pose proof (Nat.mod_upper_bound s 32). pose proof (Nat.div_mod_eq s 32).
  assert (in_u32 (2 ^ Z.of_nat (Nat.modulo s 32))) as Hr.
  { unfold in_u32. split; [apply Z.pow_nonneg; lia|]. apply Z.pow_lt_mono_r; lia. }
  assert (E : u32 (Z.shiftl 1 (Z.of_nat (Nat.modulo s 32))) = 2 ^ Z.of_nat (Nat.modulo s 32)).
  { rewrite Z.shiftl_1_l. by apply u32_small. }
  unfold quo1. rewrite E. split; [by apply or_at_wf|].
  rewrite (val_or_at n) by (try done; unfold BITS in Hs; lia).
  rewrite <- Z.pow_add_r by lia.
  replace (Z.of_nat (s mod 32) + 32 * Z.of_nat (s / 32)) with (Z.of_nat s) by lia.
  rewrite Z.lor_comm. apply Z.div_exact in Hm; [|apply Z.pow_nonzero; lia].
  rewrite Hm, Z.mul_comm. rewrite lor_disjoint_add; [lia|lia|].
  split; [apply Z.pow_nonneg; lia|]. apply Z.pow_lt_mono_r; lia.
Qed.

Lemma div_loop_spec n D s : forall num div quo,
  0 < D -> wf n num -> wf n div -> wf n quo ->
  Z.of_nat s < BITS n -> val div = D * 2 ^ Z.of_nat s ->
  val num < D * 2 ^ (Z.of_nat s + 1) -> val quo mod 2 ^ (Z.of_nat s + 1) = 0 ->
  let r := div_loop s num div quo in
  wf n (fst r) /\ val (fst r) = val quo + val num / D /\ val (snd r) = val num mod D.
Proof.
  induction s as [|s IH]; intros num div quo HD Hn Hd Hq Hs Ed Hlt Hm; cbn [div_loop];
    rewrite (CompareTo_spec n) by done; pose proof (val_range _ _ Hn) as Rn;
    pose proof (val_range _ _ Hd) as Rd;
    destruct (set_bit_val n quo _ Hq Hs Hm) as [W1 V1];
    destruct (bsub_spec n num div Hn Hd) as [W2 V2].
  - change (2 ^ Z.of_nat 0) with 1 in *. change (2 ^ (Z.of_nat 0 + 1)) with 2 in *.
    destruct (Z.leb_spec 0 (Z.sgn (val num - val div))) as [C|C]; cbn [fst snd].
    + apply Z.sgn_nonneg in C. rewrite V1, V2, Z.mod_small by lia.
      split; [done|]. split; [f_equal; apply (Z.div_unique_pos _ _ _ (val num - D)); lia|].
      apply (Z.mod_unique_pos _ _ 1); lia.
    + apply Z.sgn_neg_iff in C. rewrite Z.div_small, Z.mod_small by lia. split; [done|lia].
  - destruct (bshr_spec n div 1 Hd) as [W3 V3]; [done|].
    assert (P : 2 ^ Z.of_nat (S s) = 2 * 2 ^ Z.of_nat s).
    { rewrite Nat2Z.inj_succ, Z.pow_succ_r; lia. }
    replace (Z.of_nat (S s) + 1) with (Z.succ (Z.of_nat (S s))) in * by lia.
    rewrite Z.pow_succ_r in Hlt, Hm by lia.
    assert (0 < 2 ^ Z.of_nat s) by (apply Z.pow_pos_nonneg; lia).
    assert (E3 : val (bshr div 1) = D * 2 ^ Z.of_nat s).
    { rewrite V3, Ed, P. change (2 ^ 1) with 2.
      replace (D * (2 * 2 ^ Z.of_nat s)) with (D * 2 ^ Z.of_nat s * 2) by lia.
      by apply Z.div_mul. }
    replace (Z.of_nat s + 1) with (Z.of_nat (S s)) in IH by lia.
    apply Z.mod_divide in Hm as [q Eq]; [|lia].
    destruct (Z.leb_spec 0 (Z.sgn (val num - val div))) as [C|C]; cbn [fst snd].
    + apply Z.sgn_nonneg in C. rewrite Z.mod_small in V2 by lia.
      destruct (IH (bsub num div) (bshr div 1)
        (or_at quo (S s / 32) (u32 (Z.shiftl 1 (Z.of_nat (S s mod 32)))))) as (R1 & R2 & R3);
        try done; try lia.
      { rewrite V1, Eq. replace (q * (2 * 2 ^ Z.of_nat (S s)) + 2 ^ Z.of_nat (S s))
          with ((2 * q + 1) * 2 ^ Z.of_nat (S s)) by lia. apply Z.mod_mul. lia. }
      split; [done|]. rewrite R2, R3, V1, V2, Ed.
      replace (val num) with (val num - D * 2 ^ Z.of_nat (S s) + 2 ^ Z.of_nat (S s) * D) at 2 4
        by lia.
      rewrite Z.div_add, Z.mod_add by lia. lia.
    + apply Z.sgn_neg_iff in C.
      destruct (IH num (bshr div 1) quo) as (R1 & R2 & R3); try done; try lia.
      rewrite Eq. replace (q * (2 * 2 ^ Z.of_nat (S s))) with (2 * q * 2 ^ Z.of_nat (S s)) by lia.
      apply Z.mod_mul. lia.
Qed.

Lemma bdiv_spec n a b : wf n a -> wf n b ->
  (val b = 0 -> bdiv a b = Err DivisionByZero) /\
  (val b <> 0 -> exists q, bdiv a b = Ret q /\ wf n q /\ val q = val a / val b).
Proof.
  intros Ha Hb. unfold bdiv. rewrite !(bits_spec n) by done.
  pose proof (val_range _ _ Ha) as Ra. pose proof (val_range _ _ Hb) as Rb.
  split; intros Hz; [by rewrite Hz|]. rewrite (proj1 Ha).
  assert (Eb : bitlen (val b) = Z.log2 (val b) + 1)
    by (unfold bitlen; destruct (Z.eqb_spec (val b) 0); lia).
  pose proof (Z.log2_nonneg (val b)). destruct (Z.eqb_spec (bitlen (val b)) 0); [lia|].
  rewrite Z.gtb_ltb. destruct (Z.ltb_spec (bitlen (val a)) (bitlen (val b))) as [L|L].
  - exists (base_uint_zero n). split; [done|]. split; [apply wf_zero|].
    rewrite val_zero, Z.div_small; [done|]. split; [lia|].
    destruct (Z.log2_spec (val b)) as [B1 _]; [lia|].
    apply Z.lt_le_trans with (2 ^ Z.log2 (val b)); [|done].
    apply bitlen_lt; [lia..|]. lia.
  - set (sh := bitlen (val a) - bitlen (val b)).
    assert (Hsh : 0 <= sh) by (unfold sh; lia).
    assert (Ea : bitlen (val a) <= BITS n).
    { apply bitlen_lt; [lia|unfold BITS; lia|lia]. }
    destruct (Z.log2_spec (val b)) as [B1 B2]; [lia|].
    assert (Hfit : val b * 2 ^ sh < 2 ^ BITS n).
    { apply Z.lt_le_trans with (2 ^ (Z.succ (Z.log2 (val b))) * 2 ^ sh).
      - apply Z.mul_lt_mono_pos_r; [apply Z.pow_pos_nonneg|]; lia.
      - rewrite <- Z.pow_add_r by lia. apply Z.pow_le_mono_r; unfold sh in *; lia. }
    assert (0 < 2 ^ sh) by (apply Z.pow_pos_nonneg; lia).
    destruct (bshl_spec n b sh Hb Hsh) as [W V]. rewrite Z.mod_small in V by nia.
    destruct (div_loop_spec n (val b) (Z.to_nat sh) a (bshl b sh) (base_uint_zero n))
      as (R1 & R2 & _); auto with btc; rewrite ?Z2Nat.id by done; try done; try lia.
    + apply Z.lt_le_trans with (2 ^ (bitlen (val a))); [apply bitlen_lt; lia|].
      apply Z.le_trans with (2 ^ Z.log2 (val b) * 2 ^ (sh + 1)).
      * rewrite <- Z.pow_add_r by lia. apply Z.pow_le_mono_r; unfold sh; lia.
      * apply Z.mul_le_mono_nonneg_r; [apply Z.pow_nonneg; lia|done].
    + by rewrite val_zero, Z.mod_0_l by (apply Z.pow_nonzero; lia).
    + eexists. split; [done|]. split; [done|]. by rewrite R2, val_zero.
Qed.

(** ** Properties *)

Ltac solve_wf := split; [reflexivity | repeat constructor; unfold in_u32; lia].

Lemma limbwise_spec (f : Z -> Z -> Z) (g : bool -> bool -> bool) n a b :
  (forall x y i, Z.testbit (f x y) i = g (Z.testbit x i) (Z.testbit y i)) ->
  g false false = false -> wf n a -> wf n b ->
  wf n (limbwise f a b) /\ val (limbwise f a b) = f (val a) (val b).
Proof.
  intros Hf Hg. assert (F0 : f 0 0 = 0).
  { apply Z.bits_inj'; intros. by rewrite Hf, !Z.bits_0, Hg. }
  revert a b; induction n; intros a b Ha Hb.
  - rewrite (wf_0_inv a Ha), (wf_0_inv b Hb). split; [apply wf_nil|]. cbn. by rewrite F0.
  - destruct (wf_S_inv _ _ Ha) as (x & s & -> & Hx & Hs).
    destruct (wf_S_inv _ _ Hb) as (y & t & -> & Hy & Ht).
    destruct (IHn s t Hs Ht) as [W V]. cbn [limbwise].
    assert (Hxy : in_u32 (f x y)) by (apply (bitwise_bound f g); done).
    split; [by apply wf_cons|]. rewrite !val_cons_lor, V by done.
    apply Z.bits_inj'; intros i Hi.
    rewrite Hf, !Z.lor_spec, <- !Z.shiftl_mul_pow2, !Z.shiftl_spec, !Hf by lia.
    destruct (Z.ltb_spec i 32).
    + by rewrite !(Z.testbit_neg_r _ (i - 32)), Hg, !orb_false_r by lia.
    + unfold in_u32 in *. by rewrite !(testbit_high _ 32), !orb_false_l, Hg by lia.
Qed.

(** The limb loops of [base_uint] are arithmetic modulo [2 ^ BITS]: every
    operator keeps the class invariant, [+=], [-=], [*=] by a value and by a word,
    unary minus, [++] and [--] compute the integer operation modulo [2 ^ BITS], [~]
    is the complement, and [^=], [&=], [|=] are the bitwise operations. *)
Theorem base_uint_ring (n : nat) (a b : base_uint) (k : Z)
    (Ha : wf n a) (Hb : wf n b) (Hk : in_u32 k) :
  (wf n (badd a b) /\ val (badd a b) = (val a + val b) mod 2 ^ BITS n) /\
  (wf n (bsub a b) /\ val (bsub a b) = (val a - val b) mod 2 ^ BITS n) /\
  (wf n (bmul a b) /\ val (bmul a b) = (val a * val b) mod 2 ^ BITS n) /\
  (wf n (bmul32 a k) /\ val (bmul32 a k) = (val a * k) mod 2 ^ BITS n) /\
  (wf n (bneg a) /\ val (bneg a) = (- val a) mod 2 ^ BITS n) /\
  (wf n (binc a) /\ val (binc a) = (val a + 1) mod 2 ^ BITS n) /\
  (wf n (bdec a) /\ val (bdec a) = (val a - 1) mod 2 ^ BITS n) /\
  (wf n (bnot a) /\ val (bnot a) = 2 ^ BITS n - 1 - val a) /\
  (val (bxor a b) = Z.lxor (val a) (val b)) /\
  (val (band a b) = Z.land (val a) (val b)) /\
  (val (bor a b) = Z.lor (val a) (val b)).
Proof.
  split; [by apply badd_spec|]. split; [by apply bsub_spec|].
  split; [by apply bmul_spec|]. split; [by apply bmul32_spec|].
  split; [by apply bneg_spec|]. split; [by apply binc_spec|].
  split; [by apply bdec_spec|]. split; [by apply bnot_spec|].
  split; [|split].
  - apply (limbwise_spec _ xorb n); auto using Z.lxor_spec.
  - apply (limbwise_spec _ andb n); auto using Z.land_spec.
  - apply (limbwise_spec _ orb n); auto using Z.lor_spec.
Qed.

Lemma base_uint_ring_witness :
  val (badd [2 ^ 32 - 1; 5] [1; 7]) = (val [2 ^ 32 - 1; 5] + val [1; 7]) mod 2 ^ BITS 2.
Proof.
  eapply (base_uint_ring 2 [2 ^ 32 - 1; 5] [1; 7] 3); [solve_wf | solve_wf |].
  unfold in_u32; lia.
Defined.

(** [<<=] multiplies by a power of two modulo [2 ^ BITS], [>>=] divides by it,
    for every shift count, including counts of [BITS] and more. *)
Theorem base_uint_shift (n : nat) (a : base_uint) (shift : Z)
    (Ha : wf n a) (Hs : 0 <= shift) :
  wf n (bshl a shift) /\ val (bshl a shift) = (val a * 2 ^ shift) mod 2 ^ BITS n /\
  wf n (bshr a shift) /\ val (bshr a shift) = val a / 2 ^ shift.
Proof.
  destruct (bshl_spec n a shift Ha Hs), (bshr_spec n a shift Ha Hs). auto.
Qed.

Lemma base_uint_shift_witness :
  val (bshl [0x80000001; 3] 33) = (val [0x80000001; 3] * 2 ^ 33) mod 2 ^ BITS 2.
Proof. apply (base_uint_shift 2 [0x80000001; 3] 33); [solve_wf | lia]. Defined.

(** Long division is Euclidean division: dividing by zero is the error
    [DivisionByZero]; otherwise the loop returns the quotient of the two numbers. *)
Theorem base_uint_div (n : nat) (a b : base_uint) (Ha : wf n a) (Hb : wf n b) :
  match bdiv a b with
  | Err e => e = DivisionByZero /\ val b = 0
  | Ret q => wf n q /\ val b <> 0 /\ val q = val a / val b
  end.
Proof.
  destruct (bdiv_spec n a b Ha Hb) as [H0 H1].
  destruct (decide (val b = 0)) as [E|E]; [by rewrite H0|].
  destruct (H1 E) as (q & -> & W & V). auto.
Qed.

Lemma base_uint_div_witness :
  match bdiv [7; 9] [0; 2] with
  | Err e => e = DivisionByZero /\ val [0; 2] = 0
  | Ret q => wf 2 q /\ val [0; 2] <> 0 /\ val q = val [7; 9] / val [0; 2]
  end.
Proof. apply (base_uint_div 2 [7; 9] [0; 2]); solve_wf. Defined.

Lemma EqualTo_spec n a b : wf n a -> (2 <= n)%nat -> in_u64 b ->
  EqualTo a b = (val a =? b).
Proof.
  intros Ha Hn Hb. destruct n as [|[|n]]; [lia..|].
  destruct (wf_S_inv _ _ Ha) as (x & s & -> & Hx & Hs).
  destruct (wf_S_inv _ _ Hs) as (y & t & -> & Hy & Ht).
  assert (E : forallb (fun x => x =? 0) t = (val t =? 0)).
  { clear -Ht. revert t Ht; induction n; intros t Ht; [by rewrite (wf_0_inv t Ht)|].
    destruct (wf_S_inv _ _ Ht) as (z & u & -> & Hz & Hu). unfold in_u32 in Hz.
    pose proof (val_range _ _ Hu). cbn [forallb val]. rewrite IHn by done.
    cmp_cases; cbn; lia || done. }
  unfold EqualTo. change (drop 2 (x :: y :: t)) with t. rewrite E.
  unfold limb. cbn [nth val]. rewrite land_limb, shiftr_limb.
  pose proof (val_range _ _ Ht). unfold in_u32, in_u64 in *.
  pose proof (Z.div_mod b (2 ^ 32)). pose proof (Z.mod_pos_bound b (2 ^ 32)).
  assert (b / 2 ^ 32 < 2 ^ 32) by (apply Z.div_lt_upper_bound; lia).
  cmp_cases; cbn; lia || done.
Qed.

(** [CompareTo] is the sign of the difference of the numbers, equality with a
    word tests the number, [bits] is the position of the highest set bit plus one,
    and two values are the same array exactly when they are the same number. *)
Theorem base_uint_compare (n : nat) (a b : base_uint) (w : Z)
    (Ha : wf n a) (Hb : wf n b) (Hn : (2 <= n)%nat) (Hw : in_u64 w) :
  CompareTo a b = Z.sgn (val a - val b) /\
  EqualTo a w = (val a =? w) /\
  bits a = bitlen (val a) /\
  (val a = val b <-> a = b).
Proof.
  split; [by apply (CompareTo_spec n)|]. split; [by apply (EqualTo_spec n)|].
  split; [by apply (bits_spec n)|]. split; [by apply (val_inj n)|by intros ->].
Qed.

Lemma base_uint_compare_witness : CompareTo [1; 2] [2; 1] = Z.sgn (val [1; 2] - val [2; 1]).
Proof.
  apply (base_uint_compare 2 [1; 2] [2; 1] 5); [solve_wf | solve_wf | lia |].
  unfold in_u64; lia.
Defined.
