(* ===== verification/Compact.v ===== *)
(** * The compact target format ([uint256::SetCompact], [uint256::GetCompact])

    A 32-bit floating representation of a 256-bit target: 8 bits of byte count,
    a sign bit, 23 bits of mantissa.  The [assert]s of [GetCompact] are the
    [None] of its result. *)

From Stdlib Require Import ZArith Lia List Bool.
From stdpp Require Import base list.
From S2P Require Import Prelude Uint256.

Open Scope Z_scope.

(** Result of [SetCompact]: the value and the flags [*pfNegative], [*pfOverflow]. *)
Definition SetCompact (nCompact : Z) : base_uint * bool * bool :=
  let nSize := Z.shiftr nCompact 24 in
  let nWord0 := Z.land nCompact 0x007fffff in
  let nWord := if nSize <=? 3 then Z.shiftr nWord0 (8 * (3 - nSize)) else nWord0 in
  let v := if nSize <=? 3 then base_uint_u64 8 nWord
           else bshl (base_uint_u64 8 nWord) (8 * (nSize - 3)) in
  (v,
   negb (nWord =? 0) && negb (Z.land nCompact 0x00800000 =? 0),
   negb (nWord =? 0) && ((nSize >? 34) || ((nWord >? 0xff) && (nSize >? 33)) ||
                         ((nWord >? 0xffff) && (nSize >? 32)))).

Definition GetCompact (pn : base_uint) (fNegative : bool) : option Z :=
  let nSize := (bits pn + 7) / 8 in
  let nCompact :=
    if nSize <=? 3 then u32 (Z.shiftl (GetLow64 pn) (8 * (3 - nSize)))
    else u32 (GetLow64 (bshr pn (8 * (nSize - 3)))) in
  let '(nCompact, nSize) :=
    if negb (Z.land nCompact 0x00800000 =? 0)
    then (Z.shiftr nCompact 8, nSize + 1) else (nCompact, nSize) in
  if negb (Z.land nCompact (u32 (Z.lnot 0x007fffff)) =? 0) then None
  else if negb (nSize <? 256) then None
  else
    let nCompact := Z.lor nCompact (u32 (Z.shiftl nSize 24)) in
    Some (Z.lor nCompact
            (if fNegative && negb (Z.land nCompact 0x007fffff =? 0) then 0x00800000 else 0)).

Example SetCompact_genesis :
  val (fst (fst (SetCompact 0x1d00ffff))) = 0xffff * 2 ^ 208.
Proof. vm_compute. reflexivity. Qed.
Example GetCompact_doc : GetCompact [0x34560000; 0x12; 0; 0; 0; 0; 0; 0] false = Some 0x05123456.
Proof. vm_compute. reflexivity. Qed.
Example GetCompact_doc2 : GetCompact [0xde000000; 0xc0; 0; 0; 0; 0; 0; 0] false = Some 0x0600c0de.
Proof. vm_compute. reflexivity. Qed.

(** ** The two functions on numbers *)

Lemma base_uint_u64_spec n b : (2 <= n)%nat -> 0 <= b < 2 ^ 64 ->
  wf n (base_uint_u64 n b) /\ val (base_uint_u64 n b) = b.
Proof.
  intros Hn Hb. unfold base_uint_u64. fold (base_uint_zero (n - 2)).
  assert (n = S (S (n - 2))) as En by lia. split.
  - rewrite En at 1. apply wf_cons. split; [apply u32_range|].
    apply wf_cons. split; [apply u32_range|]. apply wf_zero.
  - cbn [val]. rewrite val_zero. unfold u32. rewrite Z.shiftr_div_pow2 by lia.
    rewrite (Z.mod_small (b / 2 ^ 32)).
    2:{ split; [apply Z.div_pos; lia|]. apply Z.div_lt_upper_bound; lia. }
    pose proof (Z.div_mod b (2 ^ 32)). lia.
Qed.

Lemma GetLow64_spec n a : wf n a -> (2 <= n)%nat -> GetLow64 a = val a mod 2 ^ 64.
Proof.
  intros Ha Hn. destruct n as [|[|n]]; [lia..|].
  destruct (wf_S_inv _ _ Ha) as (x & s & -> & Hx & Hs).
  destruct (wf_S_inv _ _ Hs) as (y & t & -> & Hy & Ht).
  unfold GetLow64, limb. cbn [nth]. unfold in_u32 in *.
  rewrite Z.shiftl_mul_pow2, lor_disjoint_add by lia. cbn [val].
  replace (x + 2 ^ 32 * (y + 2 ^ 32 * val t)) with (x + y * 2 ^ 32 + val t * 2 ^ 64) by lia.
  rewrite Z.mod_add by lia. rewrite Z.mod_small; lia.
Qed.

(** Mantissa and byte count that [GetCompact] stores for a number. *)
Definition compact_size0 (v : Z) : Z := (bitlen v + 7) / 8.
Definition compact_mant0 (v : Z) : Z :=
  let s := compact_size0 v in
  if s <=? 3 then v * 2 ^ (8 * (3 - s)) else v / 2 ^ (8 * (s - 3)).
Definition compact_size (v : Z) : Z :=
  if compact_mant0 v <? 2 ^ 23 then compact_size0 v else compact_size0 v + 1.
Definition compact_mant (v : Z) : Z :=
  if compact_mant0 v <? 2 ^ 23 then compact_mant0 v else compact_mant0 v / 2 ^ 8.

Lemma compact_size0_bounds v : 0 < v ->
  2 ^ (8 * (compact_size0 v - 1)) <= v < 2 ^ (8 * compact_size0 v) /\ 1 <= compact_size0 v.
Proof.
  intros Hv. unfold compact_size0, bitlen. destruct (Z.eqb_spec v 0); [lia|].
  pose proof (Z.log2_nonneg v). destruct (Z.log2_spec v Hv) as [L1 L2].
  pose proof (Z.div_mod (Z.log2 v + 1 + 7) 8 ltac:(lia)).
  pose proof (Z.mod_pos_bound (Z.log2 v + 1 + 7) 8 ltac:(lia)).
  split; [split|lia].
  - apply Z.le_trans with (2 ^ Z.log2 v); [|done]. apply Z.pow_le_mono_r; lia.
  - apply Z.lt_le_trans with (2 ^ Z.succ (Z.log2 v)); [done|]. apply Z.pow_le_mono_r; lia.
Qed.

(** A value divided by all but three of its bytes has its top byte in place. *)
Lemma compact_mant0_bounds v : 0 < v -> 2 ^ 16 <= compact_mant0 v < 2 ^ 24.
Proof.
  intros Hv. destruct (compact_size0_bounds v Hv) as [[B1 B2] B3].
  unfold compact_mant0. set (s := compact_size0 v) in *.
  destruct (Z.leb_spec s 3).
  - assert (0 < 2 ^ (8 * (3 - s))) by (apply Z.pow_pos_nonneg; lia).
    assert (E1 : 2 ^ 16 = 2 ^ (8 * (s - 1)) * 2 ^ (8 * (3 - s)))
      by (rewrite <- Z.pow_add_r by lia; f_equal; lia).
    assert (E2 : 2 ^ 24 = 2 ^ (8 * s) * 2 ^ (8 * (3 - s)))
      by (rewrite <- Z.pow_add_r by lia; f_equal; lia).
    rewrite E1, E2. split; [apply Z.mul_le_mono_nonneg_r|apply Z.mul_lt_mono_pos_r]; lia.
  - assert (0 < 2 ^ (8 * (s - 3))) by (apply Z.pow_pos_nonneg; lia).
    split; [apply Z.div_le_lower_bound|apply Z.div_lt_upper_bound]; try done.
    + rewrite <- Z.pow_add_r by lia. replace (8 * (s - 3) + 16) with (8 * (s - 1)) by lia. done.
    + rewrite <- Z.pow_add_r by lia. replace (8 * (s - 3) + 24) with (8 * s) by lia. done.
Qed.

Lemma compact_mant_bounds v : 0 < v -> 2 ^ 15 <= compact_mant v < 2 ^ 23.
Proof.
  intros Hv. pose proof (compact_mant0_bounds v Hv). unfold compact_mant.
  destruct (Z.ltb_spec (compact_mant0 v) (2 ^ 23)); [lia|].
  split; [apply Z.div_le_lower_bound|apply Z.div_lt_upper_bound]; lia.
Qed.

Lemma testbit_top x m : 0 <= m -> 0 <= x < 2 ^ (m + 1) -> Z.testbit x m = (2 ^ m <=? x).
Proof.
  intros Hm Hx. destruct (Z.leb_spec (2 ^ m) x).
  - pose proof (Z.pow_pos_nonneg 2 m). rewrite <- (Z.log2_unique x m) by lia.
    apply Z.bit_log2. lia.
  - apply (testbit_high x m); lia.
Qed.

Lemma sign_bit_test x : 0 <= x < 2 ^ 24 -> (Z.land x 0x00800000 =? 0) = (x <? 2 ^ 23).
Proof.
  intros Hx. pose proof (land_bit x 23 ltac:(lia)) as L.
  rewrite testbit_top in L by (done || lia). change (Z.shiftl 1 23) with 0x00800000 in L.
  apply (f_equal negb) in L. rewrite negb_involutive in L. rewrite L.
  symmetry. apply Z.ltb_antisym.
Qed.

Lemma compact_bounds v : 0 <= v < 2 ^ 256 ->
  0 <= compact_size0 v <= 32 /\ 0 <= compact_mant0 v < 2 ^ 24 /\
  0 <= compact_mant v < 2 ^ 23 /\ 0 <= compact_size v <= 33.
Proof.
  intros Rv. assert (Hs : 0 <= compact_size0 v <= 32).
  { unfold compact_size0. assert (0 <= bitlen v <= 256).
    { split; [unfold bitlen; pose proof (Z.log2_nonneg v); destruct (v =? 0); lia|].
      apply bitlen_lt; lia. }
    split; [apply Z.div_pos; lia|]. apply Z.lt_succ_r, Z.div_lt_upper_bound; lia. }
  split; [done|]. assert (Hc : 0 <= compact_size v <= 33).
  { unfold compact_size. destruct (_ <? _); lia. }
  destruct (decide (v = 0)) as [->|]; [done|].
  pose proof (compact_mant0_bounds v). pose proof (compact_mant_bounds v). lia.
Qed.

(** The word both branches of [GetCompact] start from. *)
Lemma GetCompact_word a : wf 8 a ->
  let s := compact_size0 (val a) in
  (if s <=? 3 then u32 (Z.shiftl (GetLow64 a) (8 * (3 - s)))
   else u32 (GetLow64 (bshr a (8 * (s - 3))))) = compact_mant0 (val a).
Proof.
  intros Ha s. pose proof (val_range _ _ Ha) as Rv. change (BITS 8) with 256 in Rv.
  destruct (compact_bounds _ Rv) as (Hs & Hm & _). fold s in Hs.
  unfold compact_mant0 in *. fold s in Hm |- *. destruct (Z.leb_spec s 3).
  - assert (0 <= val a < 2 ^ 64).
    { split; [lia|]. apply bitlen_lt; [lia..|]. unfold s, compact_size0 in *.
      pose proof (Z.div_mod (bitlen (val a) + 7) 8 ltac:(lia)).
      pose proof (Z.mod_pos_bound (bitlen (val a) + 7) 8 ltac:(lia)). lia. }
    rewrite (GetLow64_spec 8), Z.mod_small by (done || lia).
    rewrite Z.shiftl_mul_pow2 by lia. apply u32_small. unfold in_u32. lia.
  - destruct (bshr_spec 8 a (8 * (s - 3)) Ha) as [W V]; [lia|].
    rewrite (GetLow64_spec 8), V by (done || lia).
    rewrite (Z.mod_small _ (2 ^ 64)) by lia. apply u32_small. unfold in_u32. lia.
Qed.

(** Adding the sign bit above a 23-bit mantissa. *)
Lemma lor_sign m s (neg : bool) : 0 <= m < 2 ^ 23 -> 0 <= s ->
  Z.lor (m + s * 2 ^ 24)
    (if neg && negb (Z.land (m + s * 2 ^ 24) 0x007fffff =? 0) then 0x00800000 else 0) =
  m + (if neg && negb (m =? 0) then 2 ^ 23 else 0) + s * 2 ^ 24.
Proof.
  intros Hm Hs. change 0x007fffff with (2 ^ 23 - 1). rewrite land_ones_mod by lia.
  replace (m + s * 2 ^ 24) with (m + (2 * s) * 2 ^ 23) at 2 by lia.
  rewrite Z.mod_add, (Z.mod_small m) by lia.
  destruct (neg && negb (m =? 0)); [|rewrite Z.lor_0_r; lia].
  rewrite <- (lor_disjoint_add m s 24), <- Z.lor_assoc, (Z.lor_comm (s * _)), Z.lor_assoc by lia.
  change 0x00800000 with (1 * 2 ^ 23). rewrite (lor_disjoint_add m 1 23) by lia.
  rewrite lor_disjoint_add by lia. lia.
Qed.

(** [GetCompact] never fails an assertion, and stores mantissa and size. *)
Lemma GetCompact_spec a neg : wf 8 a ->
  GetCompact a neg = Some (compact_mant (val a) +
    (if neg && negb (compact_mant (val a) =? 0) then 2 ^ 23 else 0) +
    compact_size (val a) * 2 ^ 24).
Proof.
  intros Ha. pose proof (val_range _ _ Ha) as Rv. change (BITS 8) with 256 in Rv.
  destruct (compact_bounds _ Rv) as (_ & Hm0 & Hm & Hs). unfold GetCompact.
  rewrite (bits_spec 8) by done. fold (compact_size0 (val a)).
  rewrite GetCompact_word, sign_bit_test by done.
  set (P := if negb (compact_mant0 (val a) <? 2 ^ 23) then _ else _).
  assert (P = (compact_mant (val a), compact_size (val a))) as ->.
  { unfold P, compact_mant, compact_size.
    destruct (compact_mant0 (val a) <? 2 ^ 23); cbn [negb]; [done|].
    by rewrite Z.shiftr_div_pow2 by lia. }
  change (u32 (Z.lnot 8388607)) with (0x1ff * 2 ^ 23). rewrite land_shifted_0 by lia.
  cbn [Z.eqb negb]. destruct (Z.ltb_spec (compact_size (val a)) 256); [|lia]. cbn [negb].
  rewrite Z.shiftl_mul_pow2, u32_small by (unfold in_u32; lia).
  rewrite lor_disjoint_add by lia. f_equal. apply lor_sign; lia.
Qed.

(** [SetCompact] on the fields of a compact number. *)
Lemma SetCompact_fields m (sg : bool) s : 0 <= m < 2 ^ 23 -> 0 <= s < 256 ->
  let c := m + (if sg then 2 ^ 23 else 0) + s * 2 ^ 24 in
  Z.shiftr c 24 = s /\ Z.land c 0x007fffff = m /\ (Z.land c 0x00800000 =? 0) = negb sg.
Proof.
  intros Hm Hs c. assert (0 <= m + (if sg then 2 ^ 23 else 0) < 2 ^ 24) by (destruct sg; lia).
  split; [|split].
  - unfold c. rewrite Z.shiftr_div_pow2, Z.div_add, Z.div_small by lia. lia.
  - change 0x007fffff with (2 ^ 23 - 1). rewrite land_ones_mod by lia. unfold c.
    replace (m + _ + s * 2 ^ 24) with (m + ((if sg then 1 else 0) + 2 * s) * 2 ^ 23)
      by (destruct sg; lia).
    rewrite Z.mod_add, Z.mod_small by lia. done.
  - pose proof (land_bit c 23 ltac:(lia)) as L. change (Z.shiftl 1 23) with 0x00800000 in L.
    apply (f_equal negb) in L. rewrite negb_involutive in L. rewrite L. f_equal.
    rewrite <- (Z.mod_pow2_bits_low c 24) by lia. unfold c.
    rewrite Z.mod_add, Z.mod_small by lia. rewrite testbit_top by lia.
    destruct sg; cmp_cases; lia || done.
Qed.

(** The overflow test of [SetCompact] is exact. *)
Lemma overflow_test m s : 0 <= m < 2 ^ 23 -> 3 < s ->
  negb (m =? 0) && ((34 <? s) || ((0xff <? m) && (33 <? s)) || ((0xffff <? m) && (32 <? s))) =
  negb (m * 2 ^ (8 * (s - 3)) <? 2 ^ 256).
Proof.
  intros Hm Hs. destruct (Z.eqb_spec m 0) as [->|]; [done|]. cbn [negb andb].
  assert (C : s <= 32 \/ s = 33 \/ s = 34 \/ 35 <= s) by lia.
  destruct C as [C|[->|[->|C]]].
  - assert (2 ^ (8 * (s - 3)) <= 2 ^ 232) by (apply Z.pow_le_mono_r; lia).
    assert (m * 2 ^ (8 * (s - 3)) < 2 ^ 256) by nia.
    cmp_cases; cbn [negb andb orb]; lia || done.
  - change (2 ^ (8 * (33 - 3))) with (2 ^ 240). cmp_cases; cbn [negb andb orb]; lia || done.
  - change (2 ^ (8 * (34 - 3))) with (2 ^ 248). cmp_cases; cbn [negb andb orb]; lia || done.
  - assert (2 ^ 256 <= 2 ^ (8 * (s - 3))) by (apply Z.pow_le_mono_r; lia).
    assert (2 ^ 256 <= m * 2 ^ (8 * (s - 3))) by nia.
    cmp_cases; cbn [negb andb orb]; lia || done.
Qed.

(** The number a compact encoding denotes: [mantissa * 256 ^ (size - 3)], rounded
    down when the size is below 3. *)
Definition compact_value (m s : Z) : Z :=
  if s <=? 3 then m / 2 ^ (8 * (3 - s)) else m * 2 ^ (8 * (s - 3)).

Lemma SetCompact_spec m (sg : bool) s : 0 <= m < 2 ^ 23 -> 0 <= s < 256 ->
  let c := m + (if sg then 2 ^ 23 else 0) + s * 2 ^ 24 in
  exists v, SetCompact c = (v, sg && negb (compact_value m s =? 0),
                            negb (compact_value m s <? 2 ^ 256)) /\
    wf 8 v /\ val v = compact_value m s mod 2 ^ 256.
Proof.
  intros Hm Hs c. destruct (SetCompact_fields m sg s Hm Hs) as (E1 & E2 & E3).
  fold c in E1, E2, E3. unfold SetCompact. rewrite E1, E2, E3, negb_involutive.
  unfold compact_value. destruct (Z.leb_spec s 3).
  - rewrite Z.shiftr_div_pow2 by lia. set (w := m / 2 ^ (8 * (3 - s))).
    assert (0 <= w <= m).
    { pose proof (Z.pow_pos_nonneg 2 (8 * (3 - s))).
      split; [apply Z.div_pos; lia|]. apply Z.div_le_upper_bound; [lia|nia]. }
    destruct (base_uint_u64_spec 8 w) as [W V]; [lia..|].
    eexists. split; [|split; [exact W|]]; [|rewrite V; symmetry; apply Z.mod_small; lia].
    rewrite !Z.gtb_ltb. f_equal; [f_equal; apply andb_comm|].
    destruct (Z.ltb_spec w (2 ^ 256)); [|lia]. destruct (w =? 0); [done|].
    cbn [negb andb]. cmp_cases; lia || by rewrite ?andb_false_r.
  - destruct (base_uint_u64_spec 8 m) as [W V]; [lia..|].
    destruct (bshl_spec 8 (base_uint_u64 8 m) (8 * (s - 3)) W) as [W' V']; [lia|].
    eexists. split; [|split; [exact W'|]]; [|by rewrite V', V].
    assert (0 < 2 ^ (8 * (s - 3))) by (apply Z.pow_pos_nonneg; lia).
    rewrite !Z.gtb_ltb. f_equal; [f_equal|].
    + rewrite andb_comm. f_equal. f_equal.
      destruct (Z.eqb_spec m 0) as [->|]; [done|]. symmetry. apply Z.eqb_neq. nia.
    + by apply overflow_test.
Qed.

(** ** Round trip *)

(** The part of [v] that its compact form keeps: its bytes above the mantissa. *)
Definition compact_trunc (v : Z) : Z :=
  if compact_size v <=? 3 then v
  else v / 2 ^ (8 * (compact_size v - 3)) * 2 ^ (8 * (compact_size v - 3)).

Lemma compact_value_of v : 0 <= v < 2 ^ 256 ->
  compact_value (compact_mant v) (compact_size v) = compact_trunc v.
Proof.
  intros Hv. destruct (compact_bounds v Hv) as (Hs & _).
  unfold compact_value, compact_trunc, compact_mant, compact_size, compact_mant0 in *.
  set (s := compact_size0 v) in *.
  assert (Hpos : forall k, 0 <= k -> 0 < 2 ^ k) by (intros; apply Z.pow_pos_nonneg; lia).
  destruct (Z.leb_spec s 3) as [L|L].
  - destruct (_ <? _).
    + destruct (Z.leb_spec s 3); [|lia]. apply Z.div_mul. specialize (Hpos (8 * (3 - s))). lia.
    + destruct (Z.leb_spec (s + 1) 3).
      * rewrite Z.div_div by (specialize (Hpos (8 * (3 - (s + 1)))); lia || done).
        rewrite <- Z.pow_add_r by lia.
        replace (8 + 8 * (3 - (s + 1))) with (8 * (3 - s)) by lia.
        apply Z.div_mul. specialize (Hpos (8 * (3 - s))). lia.
      * assert (s = 3) as -> by lia. change (2 ^ (8 * (3 - 3))) with 1. by rewrite Z.mul_1_r.
  - destruct (_ <? _).
    + destruct (Z.leb_spec s 3); [lia|]. done.
    + destruct (Z.leb_spec (s + 1) 3); [lia|].
      rewrite Z.div_div by (specialize (Hpos (8 * (s - 3))); lia).
      rewrite <- Z.pow_add_r by lia.
      by replace (8 * (s - 3) + 8) with (8 * (s + 1 - 3)) by lia.
Qed.

Lemma compact_trunc_bounds v : 0 < v < 2 ^ 256 ->
  compact_trunc v <= v < compact_trunc v + compact_trunc v / 2 ^ 15 + 1.
Proof.
  intros Hv. pose proof (compact_value_of v ltac:(lia)) as E.
  pose proof (compact_mant_bounds v ltac:(lia)) as M. revert E.
  unfold compact_value, compact_trunc. destruct (Z.leb_spec (compact_size v) 3).
  - intros _. pose proof (Z.div_pos v (2 ^ 15)). lia.
  - intros <-. set (P := 2 ^ (8 * (compact_size v - 3))).
    assert (HP : 0 < P) by (apply Z.pow_pos_nonneg; lia).
    assert (EM : compact_mant v * P = v / P * P).
    { pose proof (compact_value_of v ltac:(lia)) as E. unfold compact_value, compact_trunc in E.
      destruct (Z.leb_spec (compact_size v) 3); [lia|]. done. }
    pose proof (Z.div_mod v P ltac:(lia)). pose proof (Z.mod_pos_bound v P HP).
    assert (P <= compact_mant v * P / 2 ^ 15) by (apply Z.div_le_lower_bound; nia). lia.
Qed.

Lemma compact_trunc_range v : 0 <= v < 2 ^ 256 ->
  0 <= compact_trunc v <= v /\ v <= compact_trunc v + compact_trunc v / 2 ^ 15.
Proof.
  intros Hv. destruct (compact_bounds v Hv) as (_ & _ & Hm & Hs).
  assert (0 <= compact_trunc v).
  { rewrite <- compact_value_of by done. unfold compact_value.
    destruct (Z.leb_spec (compact_size v) 3);
      [apply Z.div_pos; [lia|apply Z.pow_pos_nonneg; lia]|].
    apply Z.mul_nonneg_nonneg; [lia|apply Z.pow_nonneg; lia]. }
  destruct (decide (v = 0)) as [->|]; [done|]. pose proof (compact_trunc_bounds v). lia.
Qed.

(** What is read back from the compact form of a number. *)
Lemma compact_codec a : wf 8 a ->
  exists (c : Z) (v : base_uint), GetCompact a false = Some c /\ SetCompact c = (v, false, false) /\
    wf 8 v /\ val v = compact_trunc (val a).
Proof.
  intros Ha. pose proof (val_range _ _ Ha) as Rv. change (BITS 8) with 256 in Rv.
  destruct (compact_bounds _ Rv) as (_ & _ & Hm & Hs).
  rewrite GetCompact_spec by done. cbn [andb].
  destruct (SetCompact_spec (compact_mant (val a)) false (compact_size (val a)))
    as (v & E & W & V); [lia..|]. pose proof (compact_trunc_range (val a) Rv) as [T _].
  rewrite compact_value_of, Z.mod_small in V by lia.
  rewrite compact_value_of in E by done. destruct (Z.ltb_spec (compact_trunc (val a)) (2 ^ 256)); [|lia].
  eexists _, v. split; [done|]. split; [exact E|]. by split.
Qed.

(** Every compact number decodes to a well-formed number, with both flags clear exactly
    when it denotes a target. *)
Lemma SetCompact_wf c : in_u32 c -> wf 8 (SetCompact c).1.1.
Proof.
  intros Hc. unfold in_u32 in Hc. set (lo := c mod 2 ^ 24).
  assert (Hlo : 0 <= lo < 2 ^ 24) by (apply Z.mod_pos_bound; lia).
  assert (Hs : 0 <= c / 2 ^ 24 < 256) by (split; [apply Z.div_pos; lia|apply Z.div_lt_upper_bound; lia]).
  pose proof (Z.div_mod c (2 ^ 24) ltac:(lia)) as D. fold lo in D.
  destruct (Z.ltb_spec lo (2 ^ 23)) as [L|L].
  - destruct (SetCompact_spec lo false (c / 2 ^ 24)) as (v & E & W & _); [lia..|].
    replace (lo + 0 + c / 2 ^ 24 * 2 ^ 24) with c in E by lia. by rewrite E.
  - destruct (SetCompact_spec (lo - 2 ^ 23) true (c / 2 ^ 24)) as (v & E & W & _); [lia..|].
    replace (lo - 2 ^ 23 + 2 ^ 23 + c / 2 ^ 24 * 2 ^ 24) with c in E by lia. by rewrite E.
Qed.

(** What the compact format loses of a number. Encoding a 256-bit target never
    fails an assertion, decoding the result raises neither flag and gives back the
    target cut to its three most significant bytes, or to two when the top bit of the
    first is set ([compact_trunc]), so the decoded target is
    at most the original and within a relative error of [2 ^ -15]. *)
Theorem compact_roundtrip (a : base_uint) (Ha : wf 8 a) :
  exists c v, GetCompact a false = Some c /\ SetCompact c = (v, false, false) /\
    wf 8 v /\ val v = compact_trunc (val a) /\
    val v <= val a <= val v + val v / 2 ^ 15.
Proof.
  destruct (compact_codec a Ha) as (c & v & Ec & Ev & W & V). exists c, v.
  pose proof (val_range _ _ Ha) as Rv. change (BITS 8) with 256 in Rv.
  destruct (compact_trunc_range _ Rv) as [T1 T2]. rewrite V. split; [exact Ec|]. split; [exact Ev|]. split; [exact W|]. split; [reflexivity|lia].
Qed.

Lemma compact_roundtrip_witness :
  exists c v, GetCompact [0x12345678; 0x9abcdef0; 0; 0; 0; 0; 0; 1] false = Some c /\
    SetCompact c = (v, false, false) /\ wf 8 v /\
    val v = compact_trunc (val [0x12345678; 0x9abcdef0; 0; 0; 0; 0; 0; 1]) /\
    val v <= val [0x12345678; 0x9abcdef0; 0; 0; 0; 0; 0; 1] <= val v + val v / 2 ^ 15.
Proof. apply compact_roundtrip. solve_wf. Defined.
