(* ===== verification/Serialize.v ===== *)
(** * Serialization primitives ([serialize.h], [crypto/common.h])

    A stream that is written is the list of bytes appended to it; a stream that is
    read is the list of bytes left.  [Err] is the [std::ios_base::failure] the code
    throws.  The little-endian host of the supported platforms is assumed by the
    code ([WRITEDATA] copies the object representation); [le_split] and
    [le_combine] (coqutil) are that representation. *)

From Stdlib Require Import ZArith Lia List Bool.
From stdpp Require Import base list.
From coqutil Require Import Byte Word.LittleEndianList.
From S2P Require Import Prelude.

Open Scope Z_scope.
Open Scope btc_scope.

Abbreviation bytes := (list byte).

(** ** [crypto/common.h] *)

Definition ReadLE32 (p : bytes) : Z := le_combine (take 4 p).
Definition ReadLE64 (p : bytes) : Z := le_combine (take 8 p).
Definition WriteLE32 (x : Z) : bytes := le_split 4 x.
Definition WriteLE64 (x : Z) : bytes := le_split 8 x.
Definition ReadBE32 (p : bytes) : Z := le_combine (rev (take 4 p)).
Definition ReadBE64 (p : bytes) : Z := le_combine (rev (take 8 p)).
Definition WriteBE32 (x : Z) : bytes := rev (le_split 4 x).
Definition WriteBE64 (x : Z) : bytes := rev (le_split 8 x).

(** ** Streams *)

Inductive ser_error : Type :=
| EndOfData          (* CDataStream::read() : end of data *)
| NonCanonicalSize   (* non-canonical ReadCompactSize() *)
| SizeTooLarge       (* ReadCompactSize() : size too large *)
| LengthLimit        (* String length limit exceeded *)
| AssertFailed.      (* assert() *)

Definition reader (A : Type) : Type := bytes -> result ser_error (A * bytes).

Definition read_bytes (n : nat) : reader bytes := fun s =>
  if (length s <? n)%nat then Err EndOfData else Ret (take n s, drop n s).

(** [CDataStream::ignore(int nSize)]: the size is converted to [int]. *)
Definition stream_ignore (nSize : Z) : reader unit := fun s =>
  if i32 nSize <? 0 then Err AssertFailed else
  let* (_, s) := read_bytes (Z.to_nat (i32 nSize)) s in Ret (tt, s).

(** [ser_writedata8/16/32/64], [WRITEDATA] of an [n]-byte integer. *)
Definition ser_writedata (n : nat) (x : Z) : bytes := le_split n x.
Definition ser_writedata32be (x : Z) : bytes := rev (le_split 4 x).
Definition ser_readdata (n : nat) : reader Z := fun s =>
  let* (b, rest) := read_bytes n s in Ret (le_combine b, rest).
Definition ser_readdata32be : reader Z := fun s =>
  let* (b, rest) := read_bytes 4 s in Ret (le_combine (rev b), rest).

(** Reading a two's complement integer of 4 or 8 bytes. *)
Definition read_i32 : reader Z := fun s =>
  let* (x, rest) := ser_readdata 4 s in Ret (i32 x, rest).
Definition read_i64 : reader Z := fun s =>
  let* (x, rest) := ser_readdata 8 s in Ret (i64 x, rest).

(** ** Compact sizes *)

Definition MAX_SIZE : Z := 0x02000000.

Definition GetSizeOfCompactSize (nSize : Z) : Z :=
  if nSize <? 253 then 1
  else if nSize <=? 0xffff then 1 + 2
  else if nSize <=? 0xffffffff then 1 + 4
  else 1 + 8.

Definition WriteCompactSize (nSize : Z) : bytes :=
  if nSize <? 253 then ser_writedata 1 nSize
  else if nSize <=? 0xffff then ser_writedata 1 253 ++ ser_writedata 2 nSize
  else if nSize <=? 0xffffffff then ser_writedata 1 254 ++ ser_writedata 4 nSize
  else ser_writedata 1 255 ++ ser_writedata 8 nSize.

Definition ReadCompactSize : reader Z := fun s =>
  let* (chSize, s) := ser_readdata 1 s in
  let* (nSizeRet, s) :=
    if chSize <? 253 then Ret (chSize, s)
    else if chSize =? 253 then
      let* (xSize, s) := ser_readdata 2 s in
      if xSize <? 253 then Err NonCanonicalSize else Ret (xSize, s)
    else if chSize =? 254 then
      let* (xSize, s) := ser_readdata 4 s in
      if xSize <? 0x10000 then Err NonCanonicalSize else Ret (xSize, s)
    else
      let* (xSize, s) := ser_readdata 8 s in
      if xSize <? 0x100000000 then Err NonCanonicalSize else Ret (xSize, s) in
  if nSizeRet >? MAX_SIZE then Err SizeTooLarge else Ret (nSizeRet, s).

(** ** Variable-length integers *)

(** [while (true) { nRet++; if (n <= 0x7F) break; n = (n >> 7) - 1; }] *)
Fixpoint GetSizeOfVarInt_loop (fuel : nat) (nRet n : Z) : option Z :=
  match fuel with
  | O => None
  | S f => if n <=? 0x7F then Some (nRet + 1)
           else GetSizeOfVarInt_loop f (nRet + 1) (Z.shiftr n 7 - 1)
  end.

(** [(sizeof(n) * 8 + 6) / 7]: the size of the buffer [tmp] for a [w]-bit integer,
    which bounds the iterations of both loops. *)
Definition varint_tmp (w : nat) : nat := (w + 6) / 7.

Definition GetSizeOfVarInt (w : nat) (n : Z) : option Z :=
  GetSizeOfVarInt_loop (varint_tmp w) 0 n.

(** The loop fills [tmp[0]], [tmp[1]], ... and the bytes go out from the last one
    down, so [acc] holds them in output order; [first] is [len == 0].  [None] is an
    index past the end of [tmp]. *)
Fixpoint WriteVarInt_loop (fuel : nat) (first : bool) (n : Z) (acc : bytes) : option bytes :=
  match fuel with
  | O => None
  | S f =>
      let acc := byte.of_Z (Z.lor (Z.land n 0x7F) (if first then 0x00 else 0x80)) :: acc in
      if n <=? 0x7F then Some acc
      else WriteVarInt_loop f false (Z.shiftr n 7 - 1) acc
  end.
Definition WriteVarInt (w : nat) (n : Z) : option bytes :=
  WriteVarInt_loop (varint_tmp w) true n [].

(** [ReadVarInt<Stream, I>]: [wrap] is the conversion to the type [I]. *)
Fixpoint ReadVarInt_loop (wrap : Z -> Z) (n : Z) (s : bytes) : result ser_error (Z * bytes) :=
  match s with
  | [] => Err EndOfData
  | ch :: s' =>
      let n := wrap (Z.lor (Z.shiftl n 7) (Z.land (byte.unsigned ch) 0x7F)) in
      if negb (Z.land (byte.unsigned ch) 0x80 =? 0)
      then ReadVarInt_loop wrap (wrap (n + 1)) s' else Ret (n, s')
  end.
Definition ReadVarInt (wrap : Z -> Z) : reader Z := ReadVarInt_loop wrap 0.

Example varint_doc : map (WriteVarInt 64) [0; 127; 128; 255; 16511; 65535; 2 ^ 32]
  = [Some [Byte.x00]; Some [Byte.x7f]; Some [Byte.x80; Byte.x00]; Some [Byte.x80; Byte.x7f];
     Some [Byte.xff; Byte.x7f]; Some [Byte.x82; Byte.xfe; Byte.x7f];
     Some [Byte.x8e; Byte.xfe; Byte.xfe; Byte.xff; Byte.x00]].
Proof. vm_compute. reflexivity. Qed.

(** ** Fixed-width integers round trip *)

Lemma length_le_split' n x : length (le_split n x) = n.
Proof. apply length_le_split. Qed.

Lemma read_bytes_app n b rest : length b = n -> read_bytes n (b ++ rest) = Ret (b, rest).
Proof.
  intros <-. unfold read_bytes. rewrite length_app.
  assert ((length b + length rest <? length b)%nat = false) as -> by (apply Nat.ltb_ge; lia).
  by rewrite take_app_length, drop_app_length.
Qed.

Lemma read_bytes_inv n s b rest : read_bytes n s = Ret (b, rest) -> s = b ++ rest /\ length b = n.
Proof.
  unfold read_bytes. destruct (Nat.ltb_spec (length s) n); [done|].
  intros [= <- <-]. rewrite take_drop, length_take. split; [done|lia].
Qed.

Lemma ser_readdata_app n x rest : 0 <= x < 2 ^ (Z.of_nat n * 8) ->
  ser_readdata n (ser_writedata n x ++ rest) = Ret (x, rest).
Proof.
  intros Hx. unfold ser_readdata, ser_writedata.
  rewrite read_bytes_app by apply length_le_split. simpl.
  by rewrite le_combine_split, Z.mod_small.
Qed.

Lemma ser_readdata_inv n s x rest : ser_readdata n s = Ret (x, rest) ->
  s = ser_writedata n x ++ rest /\ 0 <= x < 2 ^ (Z.of_nat n * 8).
Proof.
  unfold ser_readdata. destruct (read_bytes n s) as [[b r]|] eqn:E; [|done].
  apply read_bytes_inv in E as [-> Hl]. intros [= <- <-]. subst n.
  unfold ser_writedata. rewrite split_le_combine. split; [done|].
  pose proof (le_combine_bound b). by rewrite (Z.mul_comm _ 8).
Qed.

Lemma ser_readdata_err n s e : ser_readdata n s = Err e -> e = EndOfData /\ (length s < n)%nat.
Proof.
  unfold ser_readdata, read_bytes. destruct (Nat.ltb_spec (length s) n); [|done].
  by intros [= <-].
Qed.

Lemma read_i32_app x rest : in_i32 x -> read_i32 (ser_writedata 4 x ++ rest) = Ret (x, rest).
Proof.
  intros Hx. unfold read_i32, ser_writedata. rewrite le_split_mod.
  rewrite ser_readdata_app by (apply Z.mod_pos_bound; lia). simpl. do 2 f_equal.
  unfold i32, in_i32 in *. rewrite Z.add_mod_idemp_l, Z.mod_small by lia. lia.
Qed.

Lemma read_i64_app x rest : in_i64 x -> read_i64 (ser_writedata 8 x ++ rest) = Ret (x, rest).
Proof.
  intros Hx. unfold read_i64, ser_writedata. rewrite le_split_mod.
  rewrite ser_readdata_app by (apply Z.mod_pos_bound; lia). simpl. do 2 f_equal.
  unfold i64, in_i64 in *. rewrite Z.add_mod_idemp_l, Z.mod_small by lia. lia.
Qed.

Lemma read_i32_inv s x rest : read_i32 s = Ret (x, rest) ->
  s = ser_writedata 4 x ++ rest /\ in_i32 x.
Proof.
  unfold read_i32. intros ((y & s') & E & [= <- <-])%result_bind_Ret.
  apply ser_readdata_inv in E as [-> Hy]. change (2 ^ (Z.of_nat 4 * 8)) with (2 ^ 32) in Hy.
  split.
  - unfold ser_writedata. rewrite (le_split_mod (i32 y) 4). do 2 f_equal.
    change (2 ^ (Z.of_nat 4 * 8)) with (2 ^ 32). unfold i32.
    rewrite <- Zminus_mod_idemp_l, Z.mod_mod, Zminus_mod_idemp_l by lia.
    rewrite Z.add_simpl_r. by rewrite Z.mod_small.
  - unfold i32, in_i32. pose proof (Z.mod_pos_bound (y + 2 ^ 31) (2 ^ 32)). lia.
Qed.

Lemma read_i64_inv s x rest : read_i64 s = Ret (x, rest) ->
  s = ser_writedata 8 x ++ rest /\ in_i64 x.
Proof.
  unfold read_i64. intros ((y & s') & E & [= <- <-])%result_bind_Ret.
  apply ser_readdata_inv in E as [-> Hy]. change (2 ^ (Z.of_nat 8 * 8)) with (2 ^ 64) in Hy.
  split.
  - unfold ser_writedata. rewrite (le_split_mod (i64 y) 8). do 2 f_equal.
    change (2 ^ (Z.of_nat 8 * 8)) with (2 ^ 64). unfold i64.
    rewrite <- Zminus_mod_idemp_l, Z.mod_mod, Zminus_mod_idemp_l by lia.
    rewrite Z.add_simpl_r. by rewrite Z.mod_small.
  - unfold i64, in_i64. pose proof (Z.mod_pos_bound (y + 2 ^ 63) (2 ^ 64)). lia.
Qed.

(** ** Compact sizes *)

Lemma GetSizeOfCompactSize_spec n : in_u64 n ->
  Z.of_nat (length (WriteCompactSize n)) = GetSizeOfCompactSize n.
Proof.
  intros Hn. unfold WriteCompactSize, GetSizeOfCompactSize, ser_writedata.
  cmp_cases; rewrite ?length_app, ?length_le_split; lia.
Qed.

Lemma ReadCompactSize_app n rest : 0 <= n <= MAX_SIZE ->
  ReadCompactSize (WriteCompactSize n ++ rest) = Ret (n, rest).
Proof.
  unfold MAX_SIZE. intros Hn. unfold WriteCompactSize, ReadCompactSize.
  assert (G : (n >? MAX_SIZE) = false) by (rewrite Z.gtb_ltb; apply Z.ltb_ge; unfold MAX_SIZE; lia).
  destruct (Z.ltb_spec n 253); [|destruct (Z.leb_spec n 0xffff); [|destruct (Z.leb_spec n 0xffffffff); [|lia]]];
    rewrite <- ?app_assoc, ser_readdata_app by (simpl; lia); cbn -[ser_readdata ser_writedata Z.ltb Z.gtb MAX_SIZE].
  - destruct (Z.ltb_spec n 253); [|lia]. cbn -[MAX_SIZE Z.gtb]. by rewrite G.
  - rewrite ser_readdata_app by (simpl; lia). cbn -[Z.ltb MAX_SIZE Z.gtb].
    destruct (Z.ltb_spec n 253); [lia|]. cbn -[MAX_SIZE Z.gtb]. by rewrite G.
  - rewrite ser_readdata_app by (simpl; lia). cbn -[Z.ltb MAX_SIZE Z.gtb].
    destruct (Z.ltb_spec n 0x10000); [lia|]. cbn -[MAX_SIZE Z.gtb]. by rewrite G.
Qed.

Lemma ReadCompactSize_inv s n rest : ReadCompactSize s = Ret (n, rest) ->
  s = WriteCompactSize n ++ rest /\ 0 <= n <= MAX_SIZE.
Proof.
  unfold ReadCompactSize. destruct (ser_readdata 1 s) as [[ch s1]|] eqn:E1; [|done].
  apply ser_readdata_inv in E1 as [-> Hch]. cbn -[ser_readdata ser_writedata Z.ltb Z.eqb Z.gtb MAX_SIZE].
  change (2 ^ (Z.of_nat 1 * 8)) with 256 in Hch.
  destruct (if ch <? 253 then _ else _) as [[m s2]|] eqn:E2; [|done]. cbn -[MAX_SIZE Z.gtb].
  rewrite Z.gtb_ltb. destruct (Z.ltb_spec MAX_SIZE m); [done|]. intros [= <- <-].
  cut (ser_writedata 1 ch ++ s1 = WriteCompactSize m ++ s2 /\ 0 <= m); [intros [-> ?]; auto|].
  unfold WriteCompactSize. destruct (Z.ltb_spec ch 253) as [C|C].
  { injection E2 as -> ->. destruct (Z.ltb_spec m 253); [|lia]. auto with lia. }
  destruct (Z.eqb_spec ch 253) as [->|C1]; [|destruct (Z.eqb_spec ch 254) as [->|C2]].
  - destruct (ser_readdata 2 s1) as [[x r]|] eqn:E3; [|done].
    cbn -[Z.ltb] in E2. destruct (Z.ltb_spec x 253); [done|]. injection E2 as -> ->.
    apply ser_readdata_inv in E3 as [-> Hx]. change (2 ^ (Z.of_nat 2 * 8)) with 0x10000 in Hx.
    destruct (Z.ltb_spec m 253); [lia|]. destruct (Z.leb_spec m 0xffff); [|lia].
    rewrite <- app_assoc. auto with lia.
  - destruct (ser_readdata 4 s1) as [[x r]|] eqn:E3; [|done].
    cbn -[Z.ltb] in E2. destruct (Z.ltb_spec x 0x10000); [done|]. injection E2 as -> ->.
    apply ser_readdata_inv in E3 as [-> Hx]. change (2 ^ (Z.of_nat 4 * 8)) with 0x100000000 in Hx.
    destruct (Z.ltb_spec m 253); [lia|]. destruct (Z.leb_spec m 0xffff); [lia|].
    destruct (Z.leb_spec m 0xffffffff); [|lia]. rewrite <- app_assoc. auto with lia.
  - destruct (ser_readdata 8 s1) as [[x r]|] eqn:E3; [|done].
    cbn -[Z.ltb] in E2. destruct (Z.ltb_spec x 0x100000000); [done|]. injection E2 as -> ->.
    unfold MAX_SIZE in *. lia.
Qed.

(** ** Variable-length integers *)

(** The number of values [f] bytes can encode: [128 + 128^2 + ... + 128^f]. *)
Fixpoint varint_cap (f : nat) : Z :=
  match f with O => 0 | S f => 128 * (varint_cap f + 1) end.

Lemma varint_cap_pow f : (0 < f)%nat -> 2 ^ (7 * Z.of_nat f) <= varint_cap f.
Proof.
  induction f as [|[|f] IH]; [lia|done|]. intros _.
  replace (7 * Z.of_nat (S (S f))) with (7 + 7 * Z.of_nat (S f)) by lia.
  rewrite Z.pow_add_r by lia. change (2 ^ 7) with 128.
  change (varint_cap (S (S f))) with (128 * (varint_cap (S f) + 1)). lia.
Qed.

Lemma varint_cap_tmp w : (0 < w)%nat -> 2 ^ Z.of_nat w <= varint_cap (varint_tmp w).
Proof.
  intros Hw. unfold varint_tmp. pose proof (Nat.div_mod_eq (w + 6) 7).
  pose proof (Nat.mod_upper_bound (w + 6) 7).
  transitivity (2 ^ (7 * Z.of_nat ((w + 6) / 7))); [apply Z.pow_le_mono_r; lia|].
  apply varint_cap_pow. lia.
Qed.

Lemma varint_byte n (first : bool) : 0 <= n ->
  byte.unsigned (byte.of_Z (Z.lor (Z.land n 0x7F) (if first then 0x00 else 0x80)))
  = n mod 128 + (if first then 0 else 128).
Proof.
  intros Hn. change 0x7F with (2 ^ 7 - 1). rewrite land_ones_mod by lia. change (2 ^ 7) with 128.
  assert (0 <= n mod 128 < 128) by (apply Z.mod_pos_bound; lia).
  rewrite byte.unsigned_of_Z. unfold byte.wrap. destruct first.
  - rewrite Z.lor_0_r, Z.mod_small; lia.
  - pose proof (lor_disjoint_add (n mod 128) 1 7 ltac:(lia) ltac:(lia)) as L.
    change (1 * 2 ^ 7) with 128 in L. rewrite L, Z.mod_small; lia.
Qed.

Lemma varint_byte_cont n (first : bool) : 0 <= n ->
  negb (Z.land (n mod 128 + (if first then 0 else 128)) 0x80 =? 0) = negb first.
Proof.
  intros Hn. assert (B : 0 <= n mod 128 < 2 ^ 7) by (apply Z.mod_pos_bound; lia).
  pose proof (land_shifted_0 (n mod 128) 1 7 ltac:(lia) B) as L.
  pose proof (lor_disjoint_add (n mod 128) 1 7 ltac:(lia) B) as L'.
  change (1 * 2 ^ 7) with 128 in L, L'.
  destruct first.
  - by rewrite Z.add_0_r, L.
  - rewrite <- L', Z.land_lor_distr_l, L. done.
Qed.

Lemma varint_byte_low n (first : bool) m : 0 <= n -> m = n / 128 ->
  Z.lor (Z.shiftl m 7) (Z.land (n mod 128 + (if first then 0 else 128)) 0x7F) = n.
Proof.
  intros Hn ->. change 0x7F with (2 ^ 7 - 1). rewrite land_ones_mod by lia. change (2 ^ 7) with 128.
  replace ((n mod 128 + (if first then 0 else 128)) mod 128) with (n mod 128)
    by (destruct first; Z.div_mod_to_equations; lia).
  rewrite Z.lor_comm, Z.shiftl_mul_pow2, lor_disjoint_add by (try apply Z.mod_pos_bound; lia).
  Z.div_mod_to_equations; lia.
Qed.

Section VarInt.
Context (wrap : Z -> Z) (w : nat).
Hypothesis w_pos : (0 < w)%nat.
Hypothesis wrap_id : forall x, 0 <= x < 2 ^ Z.of_nat w -> wrap x = x.

Lemma WriteVarInt_loop_spec fuel first n acc :
  0 <= n < varint_cap fuel -> n < 2 ^ Z.of_nat w ->
  exists pre, WriteVarInt_loop fuel first n acc = Some (pre ++ acc) /\
    (forall k, GetSizeOfVarInt_loop fuel k n = Some (k + Z.of_nat (length pre))) /\
    forall tail, ReadVarInt_loop wrap 0 (pre ++ tail)
      = if first then Ret (n, tail) else ReadVarInt_loop wrap (wrap (n + 1)) tail.
Proof.
  revert first n acc. induction fuel as [|f IH]; intros first n acc Hn Hw; [simpl in Hn; lia|].
  simpl in Hn. cbn -[Z.leb Z.land Z.lor Z.shiftr byte.of_Z].
  assert (Hd : Z.shiftr n 7 = n / 128) by (rewrite Z.shiftr_div_pow2 by lia; done).
  rewrite Hd. destruct (Z.leb_spec n 0x7F).
  - eexists [_]; split; [reflexivity|split; [done|]]. intros tail.
    cbn -[Z.land Z.lor Z.shiftl byte.of_Z byte.unsigned]. rewrite varint_byte by lia.
    rewrite varint_byte_cont, varint_byte_low, (wrap_id n)
      by first [lia | rewrite Z.div_small; lia].
    by destruct first.
  - destruct (IH false (n / 128 - 1)
      (byte.of_Z (Z.lor (Z.land n 0x7F) (if first then 0 else 128)) :: acc))
      as (pre & -> & Hs & Hr); [Z.div_mod_to_equations; lia..|].
    eexists (pre ++ [_]). split; [by rewrite <- app_assoc|]. split.
    { intros k. rewrite Hs, length_app. simpl length. f_equal. lia. }
    intros tail. rewrite <- app_assoc, Hr. cbn -[Z.land Z.lor Z.shiftl byte.of_Z byte.unsigned].
    rewrite varint_byte, varint_byte_cont, varint_byte_low, (wrap_id n); try lia.
    + by destruct first.
    + rewrite Z.sub_add, wrap_id; [done|]. Z.div_mod_to_equations; lia.
Qed.

(** Writing never runs past the buffer, and what is written is what is read. *)
Lemma WriteVarInt_spec n rest : 0 <= n < 2 ^ Z.of_nat w ->
  exists out, WriteVarInt w n = Some out /\
    GetSizeOfVarInt w n = Some (Z.of_nat (length out)) /\
    (length out <= varint_tmp w)%nat /\
    ReadVarInt wrap (out ++ rest) = Ret (n, rest).
Proof.
  intros Hn. pose proof (varint_cap_tmp w w_pos).
  destruct (WriteVarInt_loop_spec (varint_tmp w) true n []) as (pre & Hp & Hs & Hr); [lia..|].
  exists pre. unfold WriteVarInt, GetSizeOfVarInt, ReadVarInt. rewrite Hp, app_nil_r, Hs, Hr.
  repeat split. clear -Hp. revert Hp. generalize true. generalize (varint_tmp w) as f.
  assert (G : forall f b n acc o, WriteVarInt_loop f b n acc = Some o ->
    (length o <= length acc + f)%nat).
  { induction f as [|f IH]; intros b m acc o; [done|].
    cbn -[Z.leb Z.land Z.lor Z.shiftr byte.of_Z]. destruct (m <=? 127).
    - intros [= <-]. simpl. lia.
    - intros ?%IH. simpl in *. lia. }
  intros f b Hp%G. rewrite length_app in Hp. simpl in Hp. lia.
Qed.
End VarInt.

(** Compact sizes are a bijection between the sizes up to [MAX_SIZE] and the
    encodings the reader accepts: reading succeeds exactly on the bytes the writer
    produces (every longer form is rejected as non-canonical), consumes just those,
    and their number is [GetSizeOfCompactSize]. *)
Theorem compact_size_bijection (s rest : bytes) (n : Z) :
  (ReadCompactSize s = Ret (n, rest)
   <-> s = WriteCompactSize n ++ rest /\ 0 <= n <= MAX_SIZE) /\
  (in_u64 n -> Z.of_nat (length (WriteCompactSize n)) = GetSizeOfCompactSize n).
Proof.
  split; [split|].
  - apply ReadCompactSize_inv.
  - intros [-> Hn]. by apply ReadCompactSize_app.
  - apply GetSizeOfCompactSize_spec.
Qed.

(** A [w]-bit unsigned integer written with [WriteVarInt] never indexes past
    its buffer, has the size [GetSizeOfVarInt] announces, and [ReadVarInt] gives
    the integer back and leaves the bytes that follow. *)
Theorem varint_roundtrip (w : nat) (n : Z) (rest : bytes)
  (Hw : (0 < w)%nat) (Hn : 0 <= n < 2 ^ Z.of_nat w) :
  exists out, WriteVarInt w n = Some out /\
    GetSizeOfVarInt w n = Some (Z.of_nat (length out)) /\
    (length out <= varint_tmp w)%nat /\
    ReadVarInt (fun x => x mod 2 ^ Z.of_nat w) (out ++ rest) = Ret (n, rest).
Proof. apply WriteVarInt_spec; [done|intros; by apply Z.mod_small|done]. Qed.

Lemma varint_roundtrip_witness : (0 < 64)%nat /\ exists out,
  WriteVarInt 64 0xffffffffffffffff = Some out /\
  ReadVarInt u64 (out ++ [Byte.x01]) = Ret (0xffffffffffffffff, [Byte.x01]).
Proof.
  split; [lia|].
  destruct (varint_roundtrip 64 0xffffffffffffffff [Byte.x01]) as (o & H & _ & _ & R); [lia|lia|].
  exists o. split; [exact H|exact R].
Defined.

(** ** Containers *)

(** What a type with [ADD_SERIALIZE_METHODS] offers to the streams: how it is
    written and read and the size [GetSerializeSize] computes; [Serializable] are
    the values the stream format can carry. *)
Class Serializer (A : Type) : Type := {
  Serialize : A -> bytes;
  Unserialize : reader A;
  GetSerializeSize : A -> Z;
  Serializable : A -> Prop;
}.

(** What is written is read back, and has the announced size. *)
Class SerializerRoundTrip (A : Type) `{Serializer A} : Prop := {
  Unserialize_Serialize x rest :
    Serializable x -> Unserialize (Serialize x ++ rest) = Ret (x, rest);
  GetSerializeSize_Serialize x :
    Serializable x -> Z.of_nat (length (Serialize x)) = GetSerializeSize x;
}.

(** Besides, nothing else is read. *)
Class SerializerOk (A : Type) `{Serializer A} : Prop := {
  SerializerOk_roundtrip :: SerializerRoundTrip A;
  Unserialize_inv s x rest :
    Unserialize s = Ret (x, rest) -> s = Serialize x ++ rest /\ Serializable x;
}.

(** Vectors of [unsigned char], and strings: one opaque blob. *)
Definition Serialize_blob (v : bytes) : bytes :=
  WriteCompactSize (Z.of_nat (length v)) ++ v.
Definition GetSerializeSize_blob (v : bytes) : Z :=
  GetSizeOfCompactSize (Z.of_nat (length v)) + Z.of_nat (length v).

(** The blob is read in blocks of at most 5000000 bytes; [n] is [nSize - i]. *)
Definition blob_block : Z := 1 + 4999999 / 1.
Fixpoint read_blocks (fuel : nat) (n : Z) (v : bytes) : reader bytes := fun s =>
  match fuel with
  | O => Ret (v, s)
  | S f =>
      if 0 <? n then
        let blk := Z.min n blob_block in
        let* (b, s) := read_bytes (Z.to_nat blk) s in read_blocks f (n - blk) (v ++ b) s
      else Ret (v, s)
  end.
Definition Unserialize_blob : reader bytes := fun s =>
  let* (nSize, s) := ReadCompactSize s in
  read_blocks (S (Z.to_nat (nSize / 5000000))) nSize [] s.

(** [LimitedString<Limit>] *)
Definition Unserialize_limited (Limit : Z) : reader bytes := fun s =>
  let* (size, s) := ReadCompactSize s in
  if size >? Limit then Err LengthLimit else
  if negb (size =? 0) then read_bytes (Z.to_nat size) s else Ret ([], s).

Section vector.
Context {A : Type} `{Serializer A}.

Definition Serialize_vec (v : list A) : bytes :=
  WriteCompactSize (Z.of_nat (length v)) ++ flat_map Serialize v.

Definition GetSerializeSize_vec (v : list A) : Z :=
  fold_left (fun nSize x => nSize + GetSerializeSize x) v
    (GetSizeOfCompactSize (Z.of_nat (length v))).

(** The inner loop [for (; i < nMid; i++)]. *)
Fixpoint read_elems (n : nat) (v : list A) : reader (list A) := fun s =>
  match n with
  | O => Ret (v, s)
  | S n => let* (x, s) := Unserialize s in read_elems n (v ++ [x]) s
  end.

(** The outer loop: [v] holds [i] elements, and grows by at most [step]
    elements ([5000000 / sizeof(T)]) before they are read. *)
Fixpoint read_chunks (fuel : nat) (step nSize nMid : Z) (v : list A) : reader (list A) := fun s =>
  match fuel with
  | O => Ret (v, s)
  | S f =>
      if nMid <? nSize then
        let nMid' := if nMid + step >? nSize then nSize else nMid + step in
        let* (v, s) := read_elems (Z.to_nat (nMid' - nMid)) v s in
        read_chunks f step nSize nMid' v s
      else Ret (v, s)
  end.
Definition Unserialize_vec (step : Z) : reader (list A) := fun s =>
  let* (nSize, s) := ReadCompactSize s in
  read_chunks (S (Z.to_nat nSize)) step nSize 0 [] s.
End vector.

Definition Serialize_pair {A B} `{Serializer A, Serializer B} (p : A * B) : bytes :=
  Serialize p.1 ++ Serialize p.2.
Definition Unserialize_pair {A B} `{Serializer A, Serializer B} : reader (A * B) := fun s =>
  let* (x, s) := Unserialize s in
  let* (y, s) := Unserialize s in
  Ret ((x, y), s).

(** Reading a blob block by block is reading it at once, errors included. *)
Lemma read_bytes_plus m n s :
  read_bytes (m + n) s = let* (a, s) := read_bytes m s in
                         let* (b, s) := read_bytes n s in Ret (a ++ b, s).
Proof.
  unfold read_bytes. destruct (Nat.ltb_spec (length s) m); simpl.
  { destruct (Nat.ltb_spec (length s) (m + n)); [done|lia]. }
  rewrite length_drop. destruct (Nat.ltb_spec (length s) (m + n)), (Nat.ltb_spec (length s - m) n);
    simpl; try lia; [done|].
  by rewrite drop_drop, take_take_drop.
Qed.

Lemma read_blocks_spec fuel n v s : n <= Z.of_nat fuel * blob_block ->
  read_blocks fuel n v s = let* (b, s) := read_bytes (Z.to_nat n) s in Ret (v ++ b, s).
Proof.
  assert (B : 0 < blob_block) by done.
  revert n v s. induction fuel as [|f IH]; intros n v s Hn; cbn -[blob_block read_bytes].
  { assert (Z.to_nat n = 0%nat) as -> by lia. simpl. by rewrite app_nil_r. }
  destruct (Z.ltb_spec 0 n).
  - replace (Z.to_nat n) with (Z.to_nat (Z.min n blob_block) + Z.to_nat (n - Z.min n blob_block))%nat
      by lia.
    rewrite read_bytes_plus. destruct (read_bytes (Z.to_nat (Z.min n blob_block)) s) as [[b r]|]; [|done].
    cbn -[blob_block read_bytes]. rewrite IH by lia.
    destruct (read_bytes _ r) as [[b' r']|]; [|done]. simpl. by rewrite app_assoc.
  - assert (Z.to_nat n = 0%nat) as -> by lia. simpl. by rewrite app_nil_r.
Qed.

Lemma Unserialize_blob_spec s :
  Unserialize_blob s = let* (n, s) := ReadCompactSize s in read_bytes (Z.to_nat n) s.
Proof.
  unfold Unserialize_blob. destruct (ReadCompactSize s) as [[n r]|] eqn:E; [|done].
  apply ReadCompactSize_inv in E as [_ Hn]. cbn -[blob_block read_bytes read_blocks].
  rewrite read_blocks_spec.
  - by destruct (read_bytes _ r) as [[b r']|].
  - rewrite Nat2Z.inj_succ, Z2Nat.id by (apply Z.div_pos; lia). change blob_block with 5000000.
    Z.div_mod_to_equations; lia.
Qed.

Lemma Unserialize_blob_app v rest : Z.of_nat (length v) <= MAX_SIZE ->
  Unserialize_blob (Serialize_blob v ++ rest) = Ret (v, rest).
Proof.
  intros Hv. rewrite Unserialize_blob_spec. unfold Serialize_blob.
  rewrite <- app_assoc, ReadCompactSize_app by lia. simpl. rewrite Nat2Z.id.
  by apply read_bytes_app.
Qed.

(** Only the bytes the writer produces are read as a blob. *)
Lemma Unserialize_blob_inv s v rest : Unserialize_blob s = Ret (v, rest) ->
  s = Serialize_blob v ++ rest /\ Z.of_nat (length v) <= MAX_SIZE.
Proof.
  rewrite Unserialize_blob_spec. intros ((n & s') & E & R)%result_bind_Ret.
  apply ReadCompactSize_inv in E as [-> Hn]. apply read_bytes_inv in R as [-> Hl].
  unfold Serialize_blob. rewrite Hl, Z2Nat.id by lia. rewrite <- app_assoc. split; [done|lia].
Qed.

Lemma GetSerializeSize_blob_spec v : Z.of_nat (length v) <= MAX_SIZE ->
  Z.of_nat (length (Serialize_blob v)) = GetSerializeSize_blob v.
Proof.
  intros Hv. unfold Serialize_blob, GetSerializeSize_blob, MAX_SIZE in *.
  rewrite length_app, Nat2Z.inj_add, GetSizeOfCompactSize_spec; [done|]. unfold in_u64; lia.
Qed.

Section vector_spec.
Context {A : Type} `{SerializerRoundTrip A}.

Lemma read_elems_plus m n (v : list A) s :
  read_elems (m + n) v s = let* (v', s) := read_elems m v s in read_elems n v' s.
Proof.
  revert v s. induction m as [|m IH]; intros v s; simpl; [done|].
  destruct (Unserialize s) as [[x r]|]; [|done]. simpl. apply IH.
Qed.

(** Growing the vector chunk by chunk reads the same elements. *)
Lemma read_chunks_spec step nSize fuel nMid (v : list A) s :
  0 < step -> nMid <= nSize -> (Z.to_nat (nSize - nMid) <= fuel)%nat ->
  read_chunks fuel step nSize nMid v s = read_elems (Z.to_nat (nSize - nMid)) v s.
Proof.
  intros Hs. revert nMid v s. induction fuel as [|f IH]; intros nMid v s Hm Hf; simpl.
  { by replace (Z.to_nat (nSize - nMid)) with 0%nat by lia. }
  destruct (Z.ltb_spec nMid nSize); [|by replace (Z.to_nat (nSize - nMid)) with 0%nat by lia].
  set (m := if nMid + step >? nSize then nSize else nMid + step).
  assert (nMid < m <= nSize) by (subst m; rewrite Z.gtb_ltb; cmp_cases; lia).
  replace (Z.to_nat (nSize - nMid)) with (Z.to_nat (m - nMid) + Z.to_nat (nSize - m))%nat by lia.
  rewrite read_elems_plus. destruct (read_elems _ v s) as [[v' r]|]; [|done].
  apply IH; lia.
Qed.

Lemma Unserialize_vec_spec step s : 0 < step ->
  Unserialize_vec (A:=A) step s
  = let* (n, s) := ReadCompactSize s in read_elems (Z.to_nat n) [] s.
Proof.
  intros Hs. unfold Unserialize_vec. destruct (ReadCompactSize s) as [[n r]|] eqn:E; [|done].
  apply ReadCompactSize_inv in E as [_ Hn]. cbn -[read_chunks].
  rewrite read_chunks_spec by lia. by rewrite Z.sub_0_r.
Qed.

Lemma read_elems_app (w v : list A) rest : Forall Serializable w ->
  read_elems (length w) v (flat_map Serialize w ++ rest) = Ret (v ++ w, rest).
Proof.
  intros Hw. revert v. induction Hw as [|x w Hx Hw IH]; intros v; simpl.
  { by rewrite app_nil_r. }
  rewrite <- app_assoc, Unserialize_Serialize by done. simpl. by rewrite IH, <- app_assoc.
Qed.

Lemma Unserialize_vec_app step (v : list A) rest :
  0 < step -> Z.of_nat (length v) <= MAX_SIZE -> Forall Serializable v ->
  Unserialize_vec step (Serialize_vec v ++ rest) = Ret (v, rest).
Proof.
  intros Hs Hl Hv. rewrite Unserialize_vec_spec by done. unfold Serialize_vec.
  rewrite <- app_assoc, ReadCompactSize_app by lia. simpl. rewrite Nat2Z.id.
  by apply read_elems_app.
Qed.

Lemma GetSerializeSize_vec_spec (v : list A) :
  Z.of_nat (length v) <= MAX_SIZE -> Forall Serializable v ->
  Z.of_nat (length (Serialize_vec v)) = GetSerializeSize_vec v.
Proof.
  intros Hl Hv. unfold Serialize_vec, GetSerializeSize_vec, MAX_SIZE in *.
  rewrite length_app, Nat2Z.inj_add, GetSizeOfCompactSize_spec by (unfold in_u64; lia).
  generalize (GetSizeOfCompactSize (Z.of_nat (length v))) as k. clear Hl.
  induction Hv as [|x v Hx Hv IH]; intros k; simpl; [lia|].
  rewrite <- IH, length_app, <- GetSerializeSize_Serialize by done. lia.
Qed.
End vector_spec.

Section vector_inv.
Context {A : Type} `{SerializerOk A}.

Lemma read_elems_inv n (v w : list A) s rest : read_elems n v s = Ret (w, rest) ->
  exists u, w = v ++ u /\ length u = n /\ s = flat_map Serialize u ++ rest /\ Forall Serializable u.
Proof.
  revert v s. induction n as [|n IH]; intros v s; simpl.
  { intros [= <- <-]. exists []. rewrite app_nil_r. auto. }
  intros ((x & s') & E & R)%result_bind_Ret. apply Unserialize_inv in E as [-> Hx].
  apply IH in R as (u & -> & <- & -> & Hu). exists (x :: u). simpl. rewrite <- !app_assoc. auto.
Qed.

(** Only the bytes the writer produces are read as a vector. *)
Lemma Unserialize_vec_inv step s (v : list A) rest : 0 < step ->
  Unserialize_vec step s = Ret (v, rest) ->
  s = Serialize_vec v ++ rest /\ Z.of_nat (length v) <= MAX_SIZE /\ Forall Serializable v.
Proof.
  intros Hs. rewrite Unserialize_vec_spec by done. intros ((n & s') & E & R)%result_bind_Ret.
  apply ReadCompactSize_inv in E as [-> Hn]. apply read_elems_inv in R as (u & -> & Hl & -> & Hu).
  simpl. unfold Serialize_vec. rewrite Hl, Z2Nat.id by lia. rewrite <- app_assoc.
  split; [done|]. split; [lia|done].
Qed.

End vector_inv.

Lemma Unserialize_pair_app {A B} `{SerializerRoundTrip A, SerializerRoundTrip B} (p : A * B) rest :
  Serializable p.1 -> Serializable p.2 ->
  Unserialize_pair (Serialize_pair p ++ rest) = Ret (p, rest).
Proof.
  intros H1' H2'. destruct p as [a b]. unfold Unserialize_pair, Serialize_pair. simpl in *.
  rewrite <- app_assoc, Unserialize_Serialize by done. simpl.
  by rewrite Unserialize_Serialize by done.
Qed.
