(* ===== verification/MerkleDamgard.v ===== *)
(** * Streaming hashers ([crypto/sha256.cpp], [crypto/sha1.cpp], [crypto/ripemd160.cpp],
    [crypto/sha512.cpp])

    The four hasher classes share one [Write]: a buffer of one block, a byte
    counter and a chaining state to which every full block is fed.  This file
    models that buffering once, over a block size and a compression function, and
    proves that the state after any sequence of writes only depends on the bytes
    written, however they were cut into pieces. *)

From Stdlib Require Import ZArith Lia List Bool.
From stdpp Require Import base list.
From coqutil Require Import Byte Word.LittleEndianList.
From S2P Require Import Prelude Serialize.

Open Scope Z_scope.

(** The chaining state [s], the block buffer [buf] and the counter [bytes] of a
    [CSHA256], [CSHA1], [CRIPEMD160] or [CSHA512]. *)
Record hasher : Type := mk_hasher { h_s : list Z; h_buf : list byte; h_bytes : Z }.

(** [memcpy(dst + off, src, |src|)] in a buffer. *)
Definition memcpy {A} (dst : list A) (off : nat) (src : list A) : list A :=
  take off dst ++ src ++ drop (off + length src) dst.

Section MerkleDamgard.
Context (blk : nat) (Transform : list Z -> list byte -> list Z).

(** [while (end >= data + blk) { Transform(s, data); data += blk; }] *)
Fixpoint write_blocks (fuel : nat) (s : list Z) (data : list byte) : list Z * list byte :=
  match fuel with
  | O => (s, data)
  | S f => if (blk <=? length data)%nat
           then write_blocks f (Transform s (take blk data)) (drop blk data)
           else (s, data)
  end.

Definition Write (h : hasher) (data : list byte) : hasher :=
  let bufsize := Z.to_nat (h_bytes h mod Z.of_nat blk) in
  let total := u64 (h_bytes h + Z.of_nat (length data)) in
  let '(s, buf, bufsize, data) :=
    if negb (bufsize =? 0)%nat && (blk <=? bufsize + length data)%nat then
      let buf := memcpy (h_buf h) bufsize (take (blk - bufsize) data) in
      (Transform (h_s h) buf, buf, 0%nat, drop (blk - bufsize) data)
    else (h_s h, h_buf h, bufsize, data) in
  let '(s, data) := write_blocks (length data) s data in
  mk_hasher s (if (0 <? length data)%nat then memcpy buf bufsize data else buf) total.

(** A sequence of calls [.Write(d1).Write(d2)...]. *)
Definition Writes (h : hasher) (ds : list (list byte)) : hasher := fold_left Write ds h.

(** ** What the hasher holds after a message *)

Hypothesis blk_pos : (0 < blk)%nat.
Hypothesis blk_u64 : (Z.of_nat blk | 2 ^ 64).

(** Feed the full blocks of a message, return the state and the bytes left. *)
Definition absorb (s : list Z) (m : list byte) : list Z * list byte := write_blocks (length m) s m.

Lemma write_blocks_fuel f s m : (length m <= f)%nat -> write_blocks f s m = absorb s m.
Proof.
  unfold absorb. intros Hf.
  cut (forall n f s m, (length m <= n)%nat -> (length m <= f)%nat ->
         write_blocks f s m = write_blocks (length m) s m); [eauto|].
  clear f s m Hf. induction n as [|n IH]; intros f s m Hn Hf.
  { destruct m; [|simpl in Hn; lia]. destruct f; [done|]. simpl.
    destruct (Nat.leb_spec blk 0); [lia|done]. }
  destruct f as [|f]; [destruct m; [done|simpl in Hf; lia]|].
  destruct m as [|b m]; [simpl; destruct (Nat.leb_spec blk 0); [lia|done]|].
  set (l := b :: m) in *. change (length l) with (S (length m)). cbn [write_blocks].
  destruct (Nat.leb_spec blk (length l)); [|done].
  assert (length (drop blk l) <= length m)%nat by (rewrite length_drop; subst l; simpl in *; lia).
  assert (length m <= n)%nat by (subst l; simpl in *; lia).
  assert (length m <= f)%nat by (subst l; simpl in *; lia).
  rewrite (IH f), (IH (length m)); lia || done.
Qed.

Lemma absorb_short s m : (length m < blk)%nat -> absorb s m = (s, m).
Proof.
  intros H. unfold absorb. destruct m; [done|]. cbn [write_blocks length] in *.
  destruct (Nat.leb_spec blk (S (length m))); [lia|done].
Qed.

Lemma absorb_step s m : (blk <= length m)%nat ->
  absorb s m = absorb (Transform s (take blk m)) (drop blk m).
Proof.
  intros H. unfold absorb at 1. destruct m as [|b m]; [simpl in H; lia|].
  cbn [write_blocks length]. destruct (Nat.leb_spec blk (S (length m))); [|simpl in H; lia].
  apply write_blocks_fuel. rewrite length_drop. simpl. lia.
Qed.

Lemma absorb_ind (P : list Z -> list byte -> Prop) :
  (forall s m, (length m < blk)%nat -> P s m) ->
  (forall s m, (blk <= length m)%nat -> P (Transform s (take blk m)) (drop blk m) -> P s m) ->
  forall s m, P s m.
Proof.
  intros H0 H1 s m. remember (length m) as n eqn:En. revert s m En.
  induction n as [n IH] using lt_wf_ind. intros s m ->.
  destruct (Nat.ltb_spec (length m) blk); [auto|]. apply H1; [done|].
  eapply IH; [|reflexivity]. rewrite length_drop. lia.
Qed.

Lemma absorb_left_length s m : length (absorb s m).2 = (length m mod blk)%nat.
Proof.
  revert s m. apply absorb_ind; intros s m H.
  - rewrite absorb_short by done. by rewrite Nat.mod_small.
  - intros IH. rewrite absorb_step, IH, length_drop by done.
    replace (length m) with ((length m - blk) + 1 * blk)%nat at 2 by lia.
    by rewrite Nat.Div0.mod_add.
Qed.

(** Absorbing a concatenation is absorbing the parts, the left-over bytes of the
    first in front of the second. *)
Lemma absorb_app s m d :
  absorb s (m ++ d) = absorb (absorb s m).1 ((absorb s m).2 ++ d).
Proof.
  revert s m. apply (absorb_ind (fun s m => absorb s (m ++ d) = absorb (absorb s m).1 ((absorb s m).2 ++ d)));
    intros s m H.
  - by rewrite (absorb_short s m).
  - intros IH. rewrite (absorb_step s m), <- IH by done.
    rewrite absorb_step by (rewrite length_app; lia).
    by rewrite take_app_le, drop_app_le.
Qed.

(** [h] is the hasher that started in [s0] and was given the bytes [m]. *)
Definition holds (s0 : list Z) (m : list byte) (h : hasher) : Prop :=
  h_bytes h = u64 (Z.of_nat (length m)) /\ length (h_buf h) = blk /\
  h_s h = (absorb s0 m).1 /\
  take (length m mod blk) (h_buf h) = (absorb s0 m).2.

Lemma bufsize_spec n : Z.to_nat (u64 (Z.of_nat n) mod Z.of_nat blk) = (n mod blk)%nat.
Proof.
  destruct blk_u64 as [k Hk]. unfold u64. rewrite Hk.
  rewrite Z.mod_mod_divide.
  - by rewrite <- Nat2Z.inj_mod, Nat2Z.id.
  - by exists k.
Qed.

Lemma take_memcpy {A} (dst : list A) off src :
  (off <= length dst)%nat -> take (off + length src) (memcpy dst off src) = take off dst ++ src.
Proof.
  intros H. unfold memcpy. rewrite app_assoc. rewrite take_app_le.
  - rewrite firstn_all2; [done|]. rewrite length_app, length_take. lia.
  - rewrite length_app, length_take. lia.
Qed.

Lemma length_memcpy {A} (dst : list A) off src :
  (off + length src <= length dst)%nat -> length (memcpy dst off src) = length dst.
Proof. intros. unfold memcpy. rewrite !length_app, length_take, length_drop. lia. Qed.

Lemma holds_init s0 buf : length buf = blk -> holds s0 [] (mk_hasher s0 buf 0).
Proof. intros H. unfold holds. simpl. rewrite Nat.Div0.mod_0_l. auto. Qed.

(** The tail of [Write]: what [write_blocks] leaves goes into the buffer at
    [off], which is where the bytes already there end. *)
Lemma holds_tail s0 m s buf off data t :
  length buf = blk -> t = u64 (Z.of_nat (length m)) ->
  absorb s0 m = (s, take off buf ++ data) -> (off <= blk)%nat ->
  holds s0 m (mk_hasher s (if (0 <? length data)%nat then memcpy buf off data else buf) t).
Proof.
  intros Hb -> Ha Hoff.
  pose proof (absorb_left_length s0 m) as Hl. rewrite Ha in Hl. simpl in Hl.
  rewrite length_app, length_take, Nat.min_l in Hl by lia.
  pose proof (Nat.mod_upper_bound (length m) blk).
  unfold holds. rewrite Ha. simpl. rewrite <- Hl.
  destruct (Nat.ltb_spec 0 (length data)).
  - rewrite length_memcpy, take_memcpy by lia. auto.
  - assert (data = []) as -> by (destruct data; [done|simpl in *; lia]). simpl.
    rewrite Nat.add_0_r, app_nil_r. auto.
Qed.

Lemma Write_holds s0 m h d : holds s0 m h -> holds s0 (m ++ d) (Write h d).
Proof.
  intros (Hn & Hb & Hs & Hr).
  pose proof (absorb_left_length s0 m) as Hl. pose proof (Nat.mod_upper_bound (length m) blk).
  pose proof (absorb_app s0 m d) as Ha. rewrite <- Hr, <- Hs in Ha.
  unfold Write. rewrite Hn, bufsize_spec.
  set (bs := (length m mod blk)%nat) in *.
  assert (T : u64 (u64 (Z.of_nat (length m)) + Z.of_nat (length d)) = u64 (Z.of_nat (length (m ++ d)))).
  { unfold u64. rewrite length_app, Nat2Z.inj_add. apply Z.add_mod_idemp_l. lia. }
  rewrite T. assert (Lt : length (take bs (h_buf h)) = bs) by (rewrite length_take; lia).
  destruct (Nat.eqb_spec bs 0) as [E|E]; simpl;
    [|destruct (Nat.leb_spec blk (bs + length d))].
  - rewrite write_blocks_fuel by done. destruct (absorb (h_s h) d) as [s2 d2] eqn:Ea.
    apply holds_tail; try done; [|lia]. rewrite Ha, E. simpl. exact Ea.
  - rewrite write_blocks_fuel by (rewrite length_drop; lia).
    assert (Lk : length (take (blk - bs) d) = (blk - bs)%nat) by (rewrite length_take; lia).
    set (buf := memcpy _ _ _).
    assert (Eb : buf = take bs (h_buf h) ++ take (blk - bs) d).
    { subst buf. unfold memcpy. rewrite Lk, (drop_ge (h_buf h)) by lia. by rewrite app_nil_r. }
    destruct (absorb (Transform (h_s h) buf) (drop (blk - bs) d)) as [s2 d2] eqn:Ea.
    apply holds_tail; try done; [|rewrite Ha|lia].
    { subst buf. rewrite length_memcpy; lia. }
    rewrite absorb_step by (rewrite length_app; lia).
    rewrite take_app_ge, drop_app_ge by lia. by rewrite Lt, <- Eb, Ea.
  - rewrite write_blocks_fuel by done. rewrite absorb_short by lia.
    apply holds_tail; try done; [|lia]. rewrite Ha. apply absorb_short. rewrite length_app. lia.
Qed.

Lemma Writes_holds s0 m h ds : holds s0 m h -> holds s0 (m ++ concat ds) (Writes h ds).
Proof.
  revert m h. induction ds as [|d ds IH]; intros m h H; simpl; [by rewrite app_nil_r|].
  rewrite app_assoc. by apply IH, Write_holds.
Qed.

(** ** Padding *)

(** The padding of a message of [n] bytes whose length field takes [lenlen] bytes:
    [1 + ((2 * blk - 1 - lenlen - n % blk) % blk)] bytes, the first one [0x80]. *)
Definition pad_size (lenlen n : nat) : nat :=
  1 + ((2 * blk - 1 - lenlen - n mod blk) mod blk).
Definition padding (lenlen n : nat) : list byte := Byte.x80 :: repeat Byte.x00 (pad_size lenlen n - 1).

(** The [n] blocks of a message. *)
Definition blocks_of (n : nat) (m : list byte) : list (list byte) :=
  map (fun i => take blk (drop (i * blk) m)) (seq 0 n).

(** The Merkle-Damgard iteration over a padded message. *)
Definition compress_padded (lenlen : nat) (s0 : list Z) (m len : list byte) : list Z :=
  let p := m ++ padding lenlen (length m) ++ len in
  fold_left Transform (blocks_of (length p / blk) p) s0.

Lemma absorb_blocks n s m : length m = (n * blk)%nat ->
  absorb s m = (fold_left Transform (blocks_of n m) s, []).
Proof.
  revert s m. induction n as [|n IH]; intros s m H.
  { destruct m; [done|simpl in H; lia]. }
  rewrite absorb_step by (simpl in H; lia). rewrite IH by (rewrite length_drop; simpl in H; lia).
  f_equal. unfold blocks_of. simpl. rewrite drop_0. f_equal.
  rewrite <- seq_shift, map_map. apply map_ext. intros i. by rewrite drop_drop.
Qed.

Lemma pad_multiple lenlen n : (lenlen < blk)%nat ->
  ((n + pad_size lenlen n + lenlen) mod blk = 0)%nat.
Proof.
  intros H. unfold pad_size. pose proof (Nat.mod_upper_bound n blk).
  rewrite (Nat.div_mod_eq n blk) at 1.
  set (q := (n / blk)%nat). set (r := (n mod blk)%nat) in *.
  pose proof (Nat.div_mod_eq (2 * blk - 1 - lenlen - r) blk) as D.
  set (e := ((2 * blk - 1 - lenlen - r) mod blk)%nat) in *.
  replace (blk * q + r + (1 + e) + lenlen)%nat
    with ((q + 2 - (2 * blk - 1 - lenlen - r) / blk) * blk)%nat; [apply Nat.Div0.mod_mul|].
  assert ((2 * blk - 1 - lenlen - r) / blk <= 1)%nat.
  { apply Nat.lt_succ_r, Nat.Div0.div_lt_upper_bound. lia. }
  nia.
Qed.

Lemma Finalize_holds lenlen s0 m h len :
  (lenlen < blk)%nat -> length len = lenlen -> holds s0 m h ->
  h_s (Write (Write h (padding lenlen (length m))) len) = compress_padded lenlen s0 m len.
Proof.
  intros Hl <- H. unfold compress_padded.
  destruct (Write_holds s0 (m ++ padding (length len) (length m)) _ len (Write_holds s0 m _ _ H))
    as (_ & _ & E & _).
  rewrite E, <- app_assoc. set (p := m ++ _ ++ _).
  assert (D : length p = (length p / blk * blk)%nat).
  { pose proof (pad_multiple (length len) (length m) Hl) as M.
    replace (length m + _ + _)%nat with (length p) in M.
    - pose proof (Nat.div_mod_eq (length p) blk). lia.
    - subst p. unfold padding. rewrite !length_app. cbn [length]. rewrite repeat_length.
      assert (1 <= pad_size (length len) (length m))%nat by (unfold pad_size; lia). lia. }
  by rewrite (absorb_blocks _ s0 p D).
Qed.
End MerkleDamgard.

(** ** The 64-byte hashers *)

(** [static const unsigned char pad[64] = {0x80};] *)
Definition pad : list byte := Byte.x80 :: repeat Byte.x00 63.

Lemma divide_64 : (Z.of_nat 64 | 2 ^ 64).
Proof. by exists (2 ^ 58). Qed.

(** [pad] cut to the length the code computes is the padding of the standard. *)
Lemma take_pad n : (n <= 63)%nat -> take (1 + n) pad = Byte.x80 :: repeat Byte.x00 n.
Proof.
  intros H. unfold pad. cbn [Nat.add take]. f_equal.
  replace (repeat Byte.x00 63) with (repeat Byte.x00 n ++ repeat Byte.x00 (63 - n))
    by (rewrite <- repeat_app; f_equal; lia).
  apply take_app_length'. by rewrite repeat_length.
Qed.

Lemma pad_padding T s0 m h : holds 64 T s0 m h ->
  take (1 + (119 - Z.to_nat (h_bytes h mod 64)) mod 64)%nat pad = padding 64 8 (length m).
Proof.
  intros (Hn & _). rewrite Hn. change 64 with (Z.of_nat 64).
  rewrite (bufsize_spec 64 divide_64). rewrite take_pad.
  - unfold padding, pad_size. change (2 * 64 - 1 - 8)%nat with 119%nat.
    cbn [Nat.add Nat.sub]. by rewrite Nat.sub_0_r.
  - pose proof (Nat.mod_upper_bound (119 - length m mod 64) 64). lia.
Qed.
