(* ===== verification/Sha256.v ===== *)
(** * SHA-256 ([crypto/sha256.cpp], [crypto/sha256.h])

    [Transform] is the unrolled compression function of the code, register renaming
    and in-place message schedule included; it is proved equal to the 64-step loop of
    FIPS 180-4 ([compress]).  [CSHA256_Write] and [CSHA256_Finalize] are then proved
    to compute the standard's hash of all the bytes written. *)

From Stdlib Require Import ZArith Lia List Bool.
From stdpp Require Import base list.
From coqutil Require Import Byte Word.LittleEndianList.
From S2P Require Import Prelude Serialize MerkleDamgard.

Open Scope Z_scope.
Open Scope w32_scope.

Definition Ch (x y z : Z) : Z := Z.lxor z (Z.land x (Z.lxor y z)).
Definition Maj (x y z : Z) : Z := Z.lor (Z.land x y) (Z.land z (Z.lor x y)).
Definition Sigma0 (x : Z) : Z :=
  Z.lxor (Z.lxor (Z.lor (x >> 2) (x << 30)) (Z.lor (x >> 13) (x << 19))) (Z.lor (x >> 22) (x << 10)).
Definition Sigma1 (x : Z) : Z :=
  Z.lxor (Z.lxor (Z.lor (x >> 6) (x << 26)) (Z.lor (x >> 11) (x << 21))) (Z.lor (x >> 25) (x << 7)).
Definition sigma0 (x : Z) : Z :=
  Z.lxor (Z.lxor (Z.lor (x >> 7) (x << 25)) (Z.lor (x >> 18) (x << 14))) (x >> 3).
Definition sigma1 (x : Z) : Z :=
  Z.lxor (Z.lxor (Z.lor (x >> 17) (x << 15)) (Z.lor (x >> 19) (x << 13))) (x >> 10).

(** One round: the new values of [d] and [h]. *)
Definition Round (a b c d e f g h k w : Z) : Z * Z :=
  let t1 := h + Sigma1 e + Ch e f g + k + w in
  let t2 := Sigma0 a + Maj a b c in
  (d + t1, t1 + t2).

Definition Initialize : list Z :=
  [0x6a09e667; 0xbb67ae85; 0x3c6ef372; 0xa54ff53a; 0x510e527f; 0x9b05688c; 0x1f83d9ab; 0x5be0cd19].

(** The four groups of sixteen calls of [Round] in [Transform], with the working
    variables [a ... h] and [w0 ... w15] they leave to the next group. *)
Definition rounds_0_15 (s : list Z) (chunk : list byte) : list Z * list Z :=
  match s with
  | [a; b; c; d; e; f; g; h] =>
  let w0 := ReadBE32 (drop 0 chunk) in
  let '(d, h) := Round a b c d e f g h 0x428a2f98 w0 in
  let w1 := ReadBE32 (drop 4 chunk) in
  let '(c, g) := Round h a b c d e f g 0x71374491 w1 in
  let w2 := ReadBE32 (drop 8 chunk) in
  let '(b, f) := Round g h a b c d e f 0xb5c0fbcf w2 in
  let w3 := ReadBE32 (drop 12 chunk) in
  let '(a, e) := Round f g h a b c d e 0xe9b5dba5 w3 in
  let w4 := ReadBE32 (drop 16 chunk) in
  let '(h, d) := Round e f g h a b c d 0x3956c25b w4 in
  let w5 := ReadBE32 (drop 20 chunk) in
  let '(g, c) := Round d e f g h a b c 0x59f111f1 w5 in
  let w6 := ReadBE32 (drop 24 chunk) in
  let '(f, b) := Round c d e f g h a b 0x923f82a4 w6 in
  let w7 := ReadBE32 (drop 28 chunk) in
  let '(e, a) := Round b c d e f g h a 0xab1c5ed5 w7 in
  let w8 := ReadBE32 (drop 32 chunk) in
  let '(d, h) := Round a b c d e f g h 0xd807aa98 w8 in
  let w9 := ReadBE32 (drop 36 chunk) in
  let '(c, g) := Round h a b c d e f g 0x12835b01 w9 in
  let w10 := ReadBE32 (drop 40 chunk) in
  let '(b, f) := Round g h a b c d e f 0x243185be w10 in
  let w11 := ReadBE32 (drop 44 chunk) in
  let '(a, e) := Round f g h a b c d e 0x550c7dc3 w11 in
  let w12 := ReadBE32 (drop 48 chunk) in
  let '(h, d) := Round e f g h a b c d 0x72be5d74 w12 in
  let w13 := ReadBE32 (drop 52 chunk) in
  let '(g, c) := Round d e f g h a b c 0x80deb1fe w13 in
  let w14 := ReadBE32 (drop 56 chunk) in
  let '(f, b) := Round c d e f g h a b 0x9bdc06a7 w14 in
  let w15 := ReadBE32 (drop 60 chunk) in
  let '(e, a) := Round b c d e f g h a 0xc19bf174 w15 in
  ([a; b; c; d; e; f; g; h], [w0; w1; w2; w3; w4; w5; w6; w7; w8; w9; w10; w11; w12; w13; w14; w15])
  | _ => (s, [])
  end.

Definition rounds_16_31 (s w : list Z) : list Z * list Z :=
  match s, w with
  | [a; b; c; d; e; f; g; h], [w0; w1; w2; w3; w4; w5; w6; w7; w8; w9; w10; w11; w12; w13; w14; w15] =>
  let w0 := w0 + (sigma1 w14 + w9 + sigma0 w1) in
  let '(d, h) := Round a b c d e f g h 0xe49b69c1 w0 in
  let w1 := w1 + (sigma1 w15 + w10 + sigma0 w2) in
  let '(c, g) := Round h a b c d e f g 0xefbe4786 w1 in
  let w2 := w2 + (sigma1 w0 + w11 + sigma0 w3) in
  let '(b, f) := Round g h a b c d e f 0x0fc19dc6 w2 in
  let w3 := w3 + (sigma1 w1 + w12 + sigma0 w4) in
  let '(a, e) := Round f g h a b c d e 0x240ca1cc w3 in
  let w4 := w4 + (sigma1 w2 + w13 + sigma0 w5) in
  let '(h, d) := Round e f g h a b c d 0x2de92c6f w4 in
  let w5 := w5 + (sigma1 w3 + w14 + sigma0 w6) in
  let '(g, c) := Round d e f g h a b c 0x4a7484aa w5 in
  let w6 := w6 + (sigma1 w4 + w15 + sigma0 w7) in
  let '(f, b) := Round c d e f g h a b 0x5cb0a9dc w6 in
  let w7 := w7 + (sigma1 w5 + w0 + sigma0 w8) in
  let '(e, a) := Round b c d e f g h a 0x76f988da w7 in
  let w8 := w8 + (sigma1 w6 + w1 + sigma0 w9) in
  let '(d, h) := Round a b c d e f g h 0x983e5152 w8 in
  let w9 := w9 + (sigma1 w7 + w2 + sigma0 w10) in
  let '(c, g) := Round h a b c d e f g 0xa831c66d w9 in
  let w10 := w10 + (sigma1 w8 + w3 + sigma0 w11) in
  let '(b, f) := Round g h a b c d e f 0xb00327c8 w10 in
  let w11 := w11 + (sigma1 w9 + w4 + sigma0 w12) in
  let '(a, e) := Round f g h a b c d e 0xbf597fc7 w11 in
  let w12 := w12 + (sigma1 w10 + w5 + sigma0 w13) in
  let '(h, d) := Round e f g h a b c d 0xc6e00bf3 w12 in
  let w13 := w13 + (sigma1 w11 + w6 + sigma0 w14) in
  let '(g, c) := Round d e f g h a b c 0xd5a79147 w13 in
  let w14 := w14 + (sigma1 w12 + w7 + sigma0 w15) in
  let '(f, b) := Round c d e f g h a b 0x06ca6351 w14 in
  let w15 := w15 + (sigma1 w13 + w8 + sigma0 w0) in
  let '(e, a) := Round b c d e f g h a 0x14292967 w15 in
  ([a; b; c; d; e; f; g; h], [w0; w1; w2; w3; w4; w5; w6; w7; w8; w9; w10; w11; w12; w13; w14; w15])
  | _, _ => (s, w)
  end.

Definition rounds_32_47 (s w : list Z) : list Z * list Z :=
  match s, w with
  | [a; b; c; d; e; f; g; h], [w0; w1; w2; w3; w4; w5; w6; w7; w8; w9; w10; w11; w12; w13; w14; w15] =>
  let w0 := w0 + (sigma1 w14 + w9 + sigma0 w1) in
  let '(d, h) := Round a b c d e f g h 0x27b70a85 w0 in
  let w1 := w1 + (sigma1 w15 + w10 + sigma0 w2) in
  let '(c, g) := Round h a b c d e f g 0x2e1b2138 w1 in
  let w2 := w2 + (sigma1 w0 + w11 + sigma0 w3) in
  let '(b, f) := Round g h a b c d e f 0x4d2c6dfc w2 in
  let w3 := w3 + (sigma1 w1 + w12 + sigma0 w4) in
  let '(a, e) := Round f g h a b c d e 0x53380d13 w3 in
  let w4 := w4 + (sigma1 w2 + w13 + sigma0 w5) in
  let '(h, d) := Round e f g h a b c d 0x650a7354 w4 in
  let w5 := w5 + (sigma1 w3 + w14 + sigma0 w6) in
  let '(g, c) := Round d e f g h a b c 0x766a0abb w5 in
  let w6 := w6 + (sigma1 w4 + w15 + sigma0 w7) in
  let '(f, b) := Round c d e f g h a b 0x81c2c92e w6 in
  let w7 := w7 + (sigma1 w5 + w0 + sigma0 w8) in
  let '(e, a) := Round b c d e f g h a 0x92722c85 w7 in
  let w8 := w8 + (sigma1 w6 + w1 + sigma0 w9) in
  let '(d, h) := Round a b c d e f g h 0xa2bfe8a1 w8 in
  let w9 := w9 + (sigma1 w7 + w2 + sigma0 w10) in
  let '(c, g) := Round h a b c d e f g 0xa81a664b w9 in
  let w10 := w10 + (sigma1 w8 + w3 + sigma0 w11) in
  let '(b, f) := Round g h a b c d e f 0xc24b8b70 w10 in
  let w11 := w11 + (sigma1 w9 + w4 + sigma0 w12) in
  let '(a, e) := Round f g h a b c d e 0xc76c51a3 w11 in
  let w12 := w12 + (sigma1 w10 + w5 + sigma0 w13) in
  let '(h, d) := Round e f g h a b c d 0xd192e819 w12 in
  let w13 := w13 + (sigma1 w11 + w6 + sigma0 w14) in
  let '(g, c) := Round d e f g h a b c 0xd6990624 w13 in
  let w14 := w14 + (sigma1 w12 + w7 + sigma0 w15) in
  let '(f, b) := Round c d e f g h a b 0xf40e3585 w14 in
  let w15 := w15 + (sigma1 w13 + w8 + sigma0 w0) in
  let '(e, a) := Round b c d e f g h a 0x106aa070 w15 in
  ([a; b; c; d; e; f; g; h], [w0; w1; w2; w3; w4; w5; w6; w7; w8; w9; w10; w11; w12; w13; w14; w15])
  | _, _ => (s, w)
  end.

Definition rounds_48_63 (s w : list Z) : list Z :=
  match s, w with
  | [a; b; c; d; e; f; g; h], [w0; w1; w2; w3; w4; w5; w6; w7; w8; w9; w10; w11; w12; w13; w14; w15] =>
  let w0 := w0 + (sigma1 w14 + w9 + sigma0 w1) in
  let '(d, h) := Round a b c d e f g h 0x19a4c116 w0 in
  let w1 := w1 + (sigma1 w15 + w10 + sigma0 w2) in
  let '(c, g) := Round h a b c d e f g 0x1e376c08 w1 in
  let w2 := w2 + (sigma1 w0 + w11 + sigma0 w3) in
  let '(b, f) := Round g h a b c d e f 0x2748774c w2 in
  let w3 := w3 + (sigma1 w1 + w12 + sigma0 w4) in
  let '(a, e) := Round f g h a b c d e 0x34b0bcb5 w3 in
  let w4 := w4 + (sigma1 w2 + w13 + sigma0 w5) in
  let '(h, d) := Round e f g h a b c d 0x391c0cb3 w4 in
  let w5 := w5 + (sigma1 w3 + w14 + sigma0 w6) in
  let '(g, c) := Round d e f g h a b c 0x4ed8aa4a w5 in
  let w6 := w6 + (sigma1 w4 + w15 + sigma0 w7) in
  let '(f, b) := Round c d e f g h a b 0x5b9cca4f w6 in
  let w7 := w7 + (sigma1 w5 + w0 + sigma0 w8) in
  let '(e, a) := Round b c d e f g h a 0x682e6ff3 w7 in
  let w8 := w8 + (sigma1 w6 + w1 + sigma0 w9) in
  let '(d, h) := Round a b c d e f g h 0x748f82ee w8 in
  let w9 := w9 + (sigma1 w7 + w2 + sigma0 w10) in
  let '(c, g) := Round h a b c d e f g 0x78a5636f w9 in
  let w10 := w10 + (sigma1 w8 + w3 + sigma0 w11) in
  let '(b, f) := Round g h a b c d e f 0x84c87814 w10 in
  let w11 := w11 + (sigma1 w9 + w4 + sigma0 w12) in
  let '(a, e) := Round f g h a b c d e 0x8cc70208 w11 in
  let w12 := w12 + (sigma1 w10 + w5 + sigma0 w13) in
  let '(h, d) := Round e f g h a b c d 0x90befffa w12 in
  let w13 := w13 + (sigma1 w11 + w6 + sigma0 w14) in
  let '(g, c) := Round d e f g h a b c 0xa4506ceb w13 in
  let w14 := w14 + sigma1 w12 + w7 + sigma0 w15 in
  let '(f, b) := Round c d e f g h a b 0xbef9a3f7 w14 in
  let w15 := w15 + sigma1 w13 + w8 + sigma0 w0 in
  let '(e, a) := Round b c d e f g h a 0xc67178f2 w15 in
  [a; b; c; d; e; f; g; h]
  | _, _ => s
  end.

Definition Transform (s : list Z) (chunk : list byte) : list Z :=
  let '(v, w) := rounds_0_15 s chunk in
  let '(v, w) := rounds_16_31 v w in
  let '(v, w) := rounds_32_47 v w in
  let v := rounds_48_63 v w in
  zip_with (fun x y => x + y) s v.

(** ** The class *)

Definition OUTPUT_SIZE : nat := 32.

(** The constructor leaves [buf] uninitialised: it is an argument. *)
Definition CSHA256_new (buf : list byte) : hasher := mk_hasher Initialize buf 0.
Definition CSHA256_Write : hasher -> list byte -> hasher := Write 64 Transform.
Definition CSHA256_Reset (h : hasher) : hasher := mk_hasher Initialize (h_buf h) 0.

Definition CSHA256_Finalize (h : hasher) : hasher * list byte :=
  let sizedesc := WriteBE64 (u64 (Z.shiftl (h_bytes h) 3)) in
  let h := CSHA256_Write h (take (1 + (119 - Z.to_nat (h_bytes h mod 64)) mod 64)%nat pad) in
  let h := CSHA256_Write h sizedesc in
  (h, concat (map WriteBE32 (h_s h))).

(** [CSHA256().Write(m).Finalize(hash)] *)
Definition sha256 (m : list byte) : list byte :=
  (CSHA256_Finalize (CSHA256_Write (CSHA256_new (repeat Byte.x00 64)) m)).2.

(** ** FIPS 180-4 *)

(** The constants are the first 32 bits of the fractional parts of the cube roots of
    the first 64 primes. *)
Fixpoint cube_root (k : nat) (n r : Z) : Z :=
  match k with
  | O => r
  | S k => let r' := (r + 2 ^ Z.of_nat k)%Z in
           cube_root k n (if r' ^ 3 <=? n then r' else r)
  end.
Definition is_prime (n : nat) : bool := forallb (fun d => negb (n mod d =? 0)%nat) (seq 2 (n - 2)).
Definition K256 : list Z := Eval vm_compute in
  map (fun p => (cube_root 36 (Z.of_nat p * 2 ^ 96) 0 mod 2 ^ 32)%Z) (List.filter is_prime (seq 2 310)).

Definition ROTR (n x : Z) : Z := Z.lor (Z.shiftr x n) (Z.shiftl x (32 - n) mod 2 ^ 32).
Definition fips_Ch (x y z : Z) : Z := Z.lxor (Z.land x y) (Z.land (u32 (Z.lnot x)) z).
Definition fips_Maj (x y z : Z) : Z := Z.lxor (Z.lxor (Z.land x y) (Z.land x z)) (Z.land y z).
Definition fips_Sigma0 (x : Z) : Z := Z.lxor (Z.lxor (ROTR 2 x) (ROTR 13 x)) (ROTR 22 x).
Definition fips_Sigma1 (x : Z) : Z := Z.lxor (Z.lxor (ROTR 6 x) (ROTR 11 x)) (ROTR 25 x).
Definition fips_sigma0 (x : Z) : Z := Z.lxor (Z.lxor (ROTR 7 x) (ROTR 18 x)) (Z.shiftr x 3).
Definition fips_sigma1 (x : Z) : Z := Z.lxor (Z.lxor (ROTR 17 x) (ROTR 19 x)) (Z.shiftr x 10).

(** [W_t = sigma1(W_(t-2)) + W_(t-7) + sigma0(W_(t-15)) + W_(t-16)] for the window
    [W_(t-16), ..., W_(t-1)]. *)
Definition fips_W (w : list Z) : Z :=
  (fips_sigma1 (nth 14 w 0) + nth 9 w 0 + fips_sigma0 (nth 1 w 0) + nth 0 w 0)%Z mod 2 ^ 32.

Definition fips_round (st : list Z) (k w : Z) : list Z :=
  match st with
  | [a; b; c; d; e; f; g; h] =>
      let T1 := (h + fips_Sigma1 e + fips_Ch e f g + k + w)%Z in
      let T2 := (fips_Sigma0 a + fips_Maj a b c)%Z in
      [(T1 + T2) mod 2 ^ 32; a; b; c; (d + T1) mod 2 ^ 32; e; f; g]
  | _ => st
  end.

(** The rounds [t < 16] with their constants and message words, and the rounds
    [t >= 16], which keep the last sixteen words of the schedule. *)
Fixpoint fips_load (ks ws : list Z) (st : list Z) : list Z :=
  match ks, ws with
  | k :: ks, w :: ws => fips_load ks ws (fips_round st k w)
  | _, _ => st
  end.
Fixpoint fips_expand (ks w st : list Z) : list Z * list Z :=
  match ks with
  | [] => (st, w)
  | k :: ks => let wt := fips_W w in fips_expand ks (tail w ++ [wt]) (fips_round st k wt)
  end.

(** The big-endian words of a block. *)
Definition fips_block (chunk : list byte) : list Z :=
  map (fun i => ReadBE32 (drop (4 * i) chunk)) (seq 0 16).

Definition compress (H : list Z) (chunk : list byte) : list Z :=
  let w := fips_block chunk in
  zip_with (fun x y => (x + y)%Z mod 2 ^ 32) H
    (fips_expand (drop 16 K256) w (fips_load (take 16 K256) w H)).1.

(** The digest of a message shorter than [2 ^ 61] bytes. *)
Definition fips_sha256 (m : list byte) : list byte :=
  concat (map (fun x => rev (le_split 4 x))
    (compress_padded 64 compress 8 Initialize m
       (rev (le_split 8 (8 * Z.of_nat (length m)))%Z))).

(** ** The unrolled rounds are the loop of the standard *)

Lemma Ch_fips x y z : in_u32 z -> Ch x y z = fips_Ch x y z.
Proof.
  intros Hz. unfold Ch, fips_Ch, u32. apply Z.bits_inj'. intros i Hi.
  rewrite !Z.lxor_spec, !Z.land_spec, Z.lxor_spec, Z.testbit_mod_pow2, Z.lnot_spec by lia.
  destruct (Z.ltb_spec i 32).
  - by destruct (Z.testbit x i), (Z.testbit y i), (Z.testbit z i).
  - rewrite (testbit_high z 32) by done. by destruct (Z.testbit x i), (Z.testbit y i).
Qed.

Lemma Maj_fips x y z : Maj x y z = fips_Maj x y z.
Proof.
  apply Z.bits_inj'. intros i Hi. unfold Maj, fips_Maj.
  rewrite !Z.lxor_spec, !Z.lor_spec, !Z.land_spec, Z.lor_spec.
  by destruct (Z.testbit x i), (Z.testbit y i), (Z.testbit z i).
Qed.

Lemma Sigma0_fips x : fips_Sigma0 x = Sigma0 x.
Proof. done. Qed.
Lemma Sigma1_fips x : fips_Sigma1 x = Sigma1 x.
Proof. done. Qed.
Lemma sigma0_fips x : fips_sigma0 x = sigma0 x.
Proof. done. Qed.
Lemma sigma1_fips x : fips_sigma1 x = sigma1 x.
Proof. done. Qed.

Lemma Round_fips a b c d e f g h k w : in_u32 g ->
  fips_round [a; b; c; d; e; f; g; h] k w
  = let '(d', h') := Round a b c d e f g h k w in [h'; a; b; c; d'; e; f; g].
Proof.
  intros Hg. unfold fips_round, Round. rewrite (Ch_fips e f g), Maj_fips by done.
  rewrite Sigma0_fips, Sigma1_fips, !u32_fold.
  cbv zeta.
  lazymatch goal with |- [?x; _; _; _; ?y; _; _; _] = [?x'; _; _; _; ?y'; _; _; _] =>
    assert (x = x') as -> by u32_ring; by assert (y = y') as -> by u32_ring end.
Qed.

Lemma fips_W_code w0 w1 w2 w3 w4 w5 w6 w7 w8 w9 w10 w11 w12 w13 w14 w15 :
  fips_W [w0; w1; w2; w3; w4; w5; w6; w7; w8; w9; w10; w11; w12; w13; w14; w15]
  = w0 + (sigma1 w14 + w9 + sigma0 w1).
Proof.
  unfold fips_W. cbn [nth]. rewrite sigma0_fips, sigma1_fips, u32_fold.
  u32_ring.
Qed.

Lemma Round_range a b c d e f g h k w : in_u32 (Round a b c d e f g h k w).1 /\
  in_u32 (Round a b c d e f g h k w).2.
Proof. split; apply u32_range. Qed.

(** One unrolled round against one iteration of each loop; [BODY] is the rest of
    the unrolled code. *)
Section step.
Context {A : Type} (BODY : Z -> Z -> A) (a b c d e f g h k w : Z) (ks ws : list Z).

Lemma step_load (D : list Z -> A) : in_u32 g ->
  (forall d' h', in_u32 d' -> in_u32 h' ->
     BODY d' h' = D (fips_load ks ws [h'; a; b; c; d'; e; f; g])) ->
  (let '(d', h') := Round a b c d e f g h k w in BODY d' h')
  = D (fips_load (k :: ks) (w :: ws) [a; b; c; d; e; f; g; h]).
Proof.
  intros Hg H. cbn [fips_load]. rewrite Round_fips by done.
  destruct (Round_range a b c d e f g h k w).
  destruct (Round a b c d e f g h k w) as [d' h']. by apply H.
Qed.

Lemma step_expand (D : list Z * list Z -> A) : w = fips_W ws -> in_u32 g ->
  (forall d' h', in_u32 d' -> in_u32 h' ->
     BODY d' h' = D (fips_expand ks (tail ws ++ [w]) [h'; a; b; c; d'; e; f; g])) ->
  (let '(d', h') := Round a b c d e f g h k w in BODY d' h')
  = D (fips_expand (k :: ks) ws [a; b; c; d; e; f; g; h]).
Proof.
  intros -> Hg H. cbn [fips_expand]. rewrite Round_fips by done.
  destruct (Round_range a b c d e f g h k (fips_W ws)).
  destruct (Round a b c d e f g h k (fips_W ws)) as [d' h']. by apply H.
Qed.
End step.

(** Take the next round of the code; the rest of the code is given to the step
    lemma by matching, so that it stays as it is. *)
Ltac load_round :=
  next_word; match goal with E : ?w = ReadBE32 _ |- _ => rewrite <- E; clear E end;
  lazymatch goal with
  | |- (match Round ?a ?b ?c ?d ?e ?f ?g ?h ?k ?w with (x, y) => @?B x y end)
       = (fips_load (_ :: ?ks) (_ :: ?ws) _, ?W) =>
      refine (step_load B a b c d e f g h k w ks ws (fun v => (v, W)) _ _); [assumption|];
      cbv beta; intros ? ? ? ?
  end.

Ltac word_eq E := rewrite E, fips_W_code;
  u32_ring.

Ltac expand_round :=
  next_word;
  lazymatch goal with
  | E : ?w = _ |- (match Round ?a ?b ?c ?d ?e ?f ?g ?h ?k ?w with (x, y) => @?B x y end)
       = ?C (fips_expand (_ :: ?ks) ?ws _) =>
      refine (step_expand B a b c d e f g h k w ks ws C _ _ _);
      [word_eq E|assumption|]; clear E; intros ? ? ? ?; cbv beta match fix delta [tail app]
  end.

(** A working state: eight words. *)
Definition is_state (st : list Z) : Prop := length st = 8%nat /\ Forall in_u32 st.

Lemma is_state_inv st : is_state st -> exists a b c d e f g h,
  st = [a; b; c; d; e; f; g; h] /\ in_u32 a /\ in_u32 b /\ in_u32 c /\ in_u32 d /\
  in_u32 e /\ in_u32 f /\ in_u32 g /\ in_u32 h.
Proof.
  intros [L F]. do 9 (destruct st as [|? st]; try discriminate L).
  rewrite !Forall_cons in F. do 8 eexists. split; [reflexivity|]. tauto.
Qed.

Lemma window_inv (w : list Z) : length w = 16%nat ->
  exists w0 w1 w2 w3 w4 w5 w6 w7 w8 w9 w10 w11 w12 w13 w14 w15,
  w = [w0; w1; w2; w3; w4; w5; w6; w7; w8; w9; w10; w11; w12; w13; w14; w15].
Proof. intros L. do 17 (destruct w as [|? w]; try discriminate L). by do 16 eexists. Qed.

Ltac destruct_state H :=
  destruct (is_state_inv _ H) as (?a & ?b & ?c & ?d & ?e & ?f & ?g & ?h & -> & ? & ? & ? & ? & ? & ? & ? & ?).
Ltac destruct_window H :=
  destruct (window_inv _ H) as (?w & ?w & ?w & ?w & ?w & ?w & ?w & ?w & ?w & ?w & ?w & ?w & ?w & ?w & ?w & ?w & ->).

Lemma fips_round_state st k w : is_state st -> is_state (fips_round st k w).
Proof.
  intros H. destruct_state H. rewrite Round_fips by assumption.
  destruct (Round_range a b c d e f g h k w) as [R1 R2].
  destruct (Round a b c d e f g h k w) as [d' h']. split; [done|].
  by repeat (apply Forall_cons; split; [assumption|]).
Qed.

Lemma fips_load_state ks ws st : is_state st -> is_state (fips_load ks ws st).
Proof.
  revert ws st. induction ks as [|k ks IH]; intros [|w ws] st H; simpl; try done.
  by apply IH, fips_round_state.
Qed.

Lemma fips_expand_state ks w st : is_state st -> length w = 16%nat ->
  is_state (fips_expand ks w st).1 /\ length (fips_expand ks w st).2 = 16%nat.
Proof.
  revert w st. induction ks as [|k ks IH]; intros w st H Hw; simpl; [done|].
  apply IH; [by apply fips_round_state|].
  destruct w; [done|]. rewrite length_app. simpl in *. lia.
Qed.

Lemma fips_expand_app ks ks' w st :
  fips_expand (ks ++ ks') w st
  = fips_expand ks' (fips_expand ks w st).2 (fips_expand ks w st).1.
Proof. revert w st. induction ks as [|k ks IH]; intros w st; simpl; [done|]. by rewrite IH. Qed.

Definition K_group (i : nat) : list Z := take 16 (drop (16 * i) K256).

Ltac split_constants :=
  match goal with |- context [K_group ?i] =>
    let l := eval compute in (K_group i) in change (K_group i) with l end.

Lemma rounds_0_15_spec st chunk : is_state st ->
  rounds_0_15 st chunk = (fips_load (K_group 0) (fips_block chunk) st, fips_block chunk).
Proof.
  intros H. destruct_state H. cbv delta [rounds_0_15] beta match. split_constants.
  let l := eval cbv [fips_block map seq Nat.mul Nat.add] in (fips_block chunk) in
    change (fips_block chunk) with l.
  do 16 load_round. reflexivity.
Qed.

Ltac expand_group H Hw :=
  destruct_state H; destruct_window Hw; cbv beta match; split_constants;
  lazymatch goal with |- ?L = fips_expand ?k ?w ?s => change (L = id (fips_expand k w s)) | _ => idtac end;
  do 16 expand_round; reflexivity.

Lemma rounds_16_31_spec st w : is_state st -> length w = 16%nat ->
  rounds_16_31 st w = fips_expand (K_group 1) w st.
Proof. intros H Hw. cbv delta [rounds_16_31]. expand_group H Hw. Qed.

Lemma rounds_32_47_spec st w : is_state st -> length w = 16%nat ->
  rounds_32_47 st w = fips_expand (K_group 2) w st.
Proof. intros H Hw. cbv delta [rounds_32_47]. expand_group H Hw. Qed.

Lemma rounds_48_63_spec st w : is_state st -> length w = 16%nat ->
  rounds_48_63 st w = (fips_expand (K_group 3) w st).1.
Proof. intros H Hw. cbv delta [rounds_48_63]. expand_group H Hw. Qed.

Lemma Transform_compress st chunk : is_state st -> Transform st chunk = compress st chunk.
Proof.
  intros H. unfold Transform. rewrite rounds_0_15_spec by done.
  assert (H0 : is_state (fips_load (K_group 0) (fips_block chunk) st)) by by apply fips_load_state.
  assert (W0 : length (fips_block chunk) = 16%nat) by done.
  unfold compress. change (take 16 K256) with (K_group 0).
  change (drop 16 K256) with (K_group 1 ++ K_group 2 ++ K_group 3). rewrite !fips_expand_app.
  generalize dependent (fips_load (K_group 0) (fips_block chunk) st). intros v H0.
  generalize dependent (fips_block chunk). intros w W0.
  rewrite rounds_16_31_spec by done. destruct (fips_expand_state (K_group 1) w v H0 W0) as [H1 W1].
  destruct (fips_expand (K_group 1) w v) as [v1 w1]. cbn [fst snd] in *.
  rewrite rounds_32_47_spec by done. destruct (fips_expand_state (K_group 2) w1 v1 H1 W1) as [H2 W2].
  destruct (fips_expand (K_group 2) w1 v1) as [v2 w2]. cbn [fst snd] in *.
  by rewrite rounds_48_63_spec by done.
Qed.

(** ** The hasher *)

Definition str_bytes (l : list Z) : list byte := map byte.of_Z l.

Example sha256_empty : sha256 [] = str_bytes
  [0xe3;0xb0;0xc4;0x42;0x98;0xfc;0x1c;0x14;0x9a;0xfb;0xf4;0xc8;0x99;0x6f;0xb9;0x24;
   0x27;0xae;0x41;0xe4;0x64;0x9b;0x93;0x4c;0xa4;0x95;0x99;0x1b;0x78;0x52;0xb8;0x55].
Proof. vm_compute. reflexivity. Qed.

Example sha256_abc : sha256 (str_bytes [0x61; 0x62; 0x63]) = str_bytes
  [0xba;0x78;0x16;0xbf;0x8f;0x01;0xcf;0xea;0x41;0x41;0x40;0xde;0x5d;0xae;0x22;0x23;
   0xb0;0x03;0x61;0xa3;0x96;0x17;0x7a;0x9c;0xb4;0x10;0xff;0x61;0xf2;0x00;0x15;0xad].
Proof. vm_compute. reflexivity. Qed.

Lemma compress_state st chunk : is_state st -> is_state (compress st chunk).
Proof.
  intros H. unfold compress.
  destruct (fips_expand_state (drop 16 K256) (fips_block chunk)
    (fips_load (take 16 K256) (fips_block chunk) st)) as [H1 _]; [by apply fips_load_state|done|].
  destruct (fips_expand _ _ _) as [v w]. cbn [fst] in *.
  destruct (is_state_inv _ H) as (?&?&?&?&?&?&?&?&->&_).
  destruct (is_state_inv _ H1) as (?&?&?&?&?&?&?&?&->&_).
  split; [done|]. cbn [zip_with].
  by repeat (apply Forall_cons; split; [apply (u32_range (_ + _))|]).
Qed.

Lemma Initialize_state : is_state Initialize.
Proof.
  split; [done|]. unfold Initialize, in_u32.
  by repeat (apply Forall_cons; split; [lia|]).
Qed.

(** The code's compression function and the standard's give the same iteration. *)
Lemma fold_Transform l st : is_state st -> fold_left Transform l st = fold_left compress l st.
Proof.
  revert st. induction l as [|x l IH]; intros st H; simpl; [done|].
  rewrite Transform_compress by done. by apply IH, compress_state.
Qed.

Lemma fold_compress_state l st : is_state st -> is_state (fold_left compress l st).
Proof. revert st. induction l; intros st H; simpl; [done|]. by apply IHl, compress_state. Qed.

(** The hasher after any writes holds their concatenation. *)
Definition sha256_holds : list byte -> hasher -> Prop := holds 64 Transform Initialize.

Lemma CSHA256_new_holds buf : length buf = 64%nat -> sha256_holds [] (CSHA256_new buf).
Proof. apply holds_init. Qed.

Lemma CSHA256_Reset_holds m h : sha256_holds m h -> sha256_holds [] (CSHA256_Reset h).
Proof. intros (_ & Hb & _). by apply holds_init. Qed.

Lemma CSHA256_Write_holds m h d : sha256_holds m h -> sha256_holds (m ++ d) (CSHA256_Write h d).
Proof. apply Write_holds; [lia|apply divide_64]. Qed.

Lemma CSHA256_Writes_holds ds m h :
  sha256_holds m h -> sha256_holds (m ++ concat ds) (fold_left CSHA256_Write ds h).
Proof.
  revert m h. induction ds as [|d ds IH]; intros m h H; simpl; [by rewrite app_nil_r|].
  rewrite app_assoc. by apply IH, CSHA256_Write_holds.
Qed.

(** The digest of the bytes written; the length field is the 64-bit counter of
    bits, so that this is the standard's digest below [2 ^ 61] bytes. *)
Definition digest (m : list byte) : list byte :=
  concat (map WriteBE32 (compress_padded 64 compress 8 Initialize m
    (WriteBE64 (u64 (Z.shiftl (u64 (Z.of_nat (length m))) 3))))).

Lemma CSHA256_Finalize_digest m h : sha256_holds m h -> (CSHA256_Finalize h).2 = digest m.
Proof.
  intros H. pose proof H as (Hn & _). unfold CSHA256_Finalize, digest. cbn [snd].
  rewrite (pad_padding _ _ m h H), Hn. unfold CSHA256_Write.
  rewrite (Finalize_holds 64 Transform) with (lenlen := 8%nat) (s0 := Initialize)
    by first [lia | apply divide_64 | done].
  unfold compress_padded. cbv zeta. by rewrite fold_Transform by apply Initialize_state.
Qed.

Lemma digest_fips m : Z.of_nat (length m) < 2 ^ 61 -> digest m = fips_sha256 m.
Proof.
  intros Hm. unfold digest, fips_sha256, WriteBE64, WriteBE32. do 3 f_equal.
  unfold u64. rewrite (Z.mod_small (Z.of_nat _)), Z.shiftl_mul_pow2, Z.mod_small by lia.
  by rewrite Z.mul_comm.
Qed.

Lemma digest_length m : length (digest m) = 32%nat.
Proof.
  unfold digest, compress_padded. cbv zeta. set (l := blocks_of _ _ _).
  pose proof (fold_compress_state l Initialize Initialize_state) as H.
  destruct (is_state_inv _ H) as (?&?&?&?&?&?&?&?&->&_). done.
Qed.

Lemma sha256_digest m : sha256 m = digest m.
Proof.
  unfold sha256. apply CSHA256_Finalize_digest. apply (CSHA256_Write_holds []), CSHA256_new_holds.
  reflexivity.
Qed.

Lemma CSHA256_Finalize_sha256 m h : sha256_holds m h -> (CSHA256_Finalize h).2 = sha256 m.
Proof. intros H. by rewrite sha256_digest, CSHA256_Finalize_digest with (m := m). Qed.

Lemma sha256_length m : length (sha256 m) = 32%nat.
Proof. by rewrite sha256_digest, digest_length. Qed.

(** What [Finalize] leaves behind still is a hasher: [Reset] makes it fresh. *)
Lemma CSHA256_Finalize_Reset m h : sha256_holds m h ->
  sha256_holds [] (CSHA256_Reset (CSHA256_Finalize h).1).
Proof.
  intros H. unfold CSHA256_Finalize. cbn [fst].
  eapply CSHA256_Reset_holds, CSHA256_Write_holds, CSHA256_Write_holds, H.
Qed.

(** C27: the hasher computes SHA-256 as FIPS 180-4 defines it. Whatever the content of
    the uninitialised buffer and however the message is cut into calls of [Write],
    [Finalize] returns the 32-byte digest of the padded message under the standard's
    64-step compression function, which the unrolled [Transform] implements. *)
Theorem sha256_streaming (buf : list byte) (ds : list (list byte))
    (Hbuf : length buf = 64%nat) (Hlen : Z.of_nat (length (concat ds)) < 2 ^ 61) :
  (CSHA256_Finalize (fold_left CSHA256_Write ds (CSHA256_new buf))).2
    = fips_sha256 (concat ds) /\
  length (fips_sha256 (concat ds)) = OUTPUT_SIZE.
Proof.
  rewrite <- digest_fips by done. split; [|apply digest_length]. apply CSHA256_Finalize_digest.
  by apply (CSHA256_Writes_holds ds []), CSHA256_new_holds.
Qed.

Lemma sha256_streaming_witness :
  let ds := [str_bytes [0x61]; []; str_bytes [0x62; 0x63]] in
  (CSHA256_Finalize (fold_left CSHA256_Write ds (CSHA256_new (repeat Byte.xff 64)))).2
  = fips_sha256 (str_bytes [0x61; 0x62; 0x63]).
Proof.
  intros ds. apply (sha256_streaming (repeat Byte.xff 64) ds); [reflexivity|].
  vm_compute. reflexivity.
Defined.
