(* ===== verification/Sha1.v ===== *)
(** * SHA-1 ([crypto/sha1.cpp], [crypto/sha1.h])

    The unrolled compression function against the 80-step loop of FIPS 180-4, and the
    hasher class on top of it. *)

From Stdlib Require Import ZArith Lia List Bool.
From stdpp Require Import base list.
From coqutil Require Import Byte Word.LittleEndianList.
From S2P Require Import Prelude Serialize MerkleDamgard.

Open Scope Z_scope.
Open Scope w32_scope.

(** One round: the new values of [b] and [e]. *)
Definition Round (a b c d e f k w : Z) : Z * Z :=
  (Z.lor (b << 30) (b >> 2), e + (Z.lor (a << 5) (a >> 27) + f + k + w)).

Definition f1 (b c d : Z) : Z := Z.lxor d (Z.land b (Z.lxor c d)).
Definition f2 (b c d : Z) : Z := Z.lxor (Z.lxor b c) d.
Definition f3 (b c d : Z) : Z := Z.lor (Z.land b c) (Z.land d (Z.lor b c)).
Definition left (x : Z) : Z := Z.lor (x << 1) (x >> 31).

Definition Initialize : list Z := [0x67452301; 0xEFCDAB89; 0x98BADCFE; 0x10325476; 0xC3D2E1F0].

Definition k1 : Z := 0x5A827999.
Definition k2 : Z := 0x6ED9EBA1.
Definition k3 : Z := 0x8F1BBCDC.
Definition k4 : Z := 0xCA62C1D6.

(** The five groups of sixteen calls of [Round] in [Transform]. *)
Definition rounds_0_15 (s : list Z) (chunk : list byte) : list Z * list Z :=
  match s with
  | [a; b; c; d; e] =>
  let w0 := ReadBE32 (drop 0 chunk) in
  let '(b, e) := Round a b c d e (f1 b c d) k1 w0 in
  let w1 := ReadBE32 (drop 4 chunk) in
  let '(a, d) := Round e a b c d (f1 a b c) k1 w1 in
  let w2 := ReadBE32 (drop 8 chunk) in
  let '(e, c) := Round d e a b c (f1 e a b) k1 w2 in
  let w3 := ReadBE32 (drop 12 chunk) in
  let '(d, b) := Round c d e a b (f1 d e a) k1 w3 in
  let w4 := ReadBE32 (drop 16 chunk) in
  let '(c, a) := Round b c d e a (f1 c d e) k1 w4 in
  let w5 := ReadBE32 (drop 20 chunk) in
  let '(b, e) := Round a b c d e (f1 b c d) k1 w5 in
  let w6 := ReadBE32 (drop 24 chunk) in
  let '(a, d) := Round e a b c d (f1 a b c) k1 w6 in
  let w7 := ReadBE32 (drop 28 chunk) in
  let '(e, c) := Round d e a b c (f1 e a b) k1 w7 in
  let w8 := ReadBE32 (drop 32 chunk) in
  let '(d, b) := Round c d e a b (f1 d e a) k1 w8 in
  let w9 := ReadBE32 (drop 36 chunk) in
  let '(c, a) := Round b c d e a (f1 c d e) k1 w9 in
  let w10 := ReadBE32 (drop 40 chunk) in
  let '(b, e) := Round a b c d e (f1 b c d) k1 w10 in
  let w11 := ReadBE32 (drop 44 chunk) in
  let '(a, d) := Round e a b c d (f1 a b c) k1 w11 in
  let w12 := ReadBE32 (drop 48 chunk) in
  let '(e, c) := Round d e a b c (f1 e a b) k1 w12 in
  let w13 := ReadBE32 (drop 52 chunk) in
  let '(d, b) := Round c d e a b (f1 d e a) k1 w13 in
  let w14 := ReadBE32 (drop 56 chunk) in
  let '(c, a) := Round b c d e a (f1 c d e) k1 w14 in
  let w15 := ReadBE32 (drop 60 chunk) in
  let '(b, e) := Round a b c d e (f1 b c d) k1 w15 in
  ([a; b; c; d; e], [w0; w1; w2; w3; w4; w5; w6; w7; w8; w9; w10; w11; w12; w13; w14; w15])
  | _ => (s, [])
  end.

Definition rounds_16_31 (s w : list Z) : list Z * list Z :=
  match s, w with
  | [a; b; c; d; e], [w0; w1; w2; w3; w4; w5; w6; w7; w8; w9; w10; w11; w12; w13; w14; w15] =>
  let w0 := left (Z.lxor (Z.lxor (Z.lxor w0 w13) w8) w2) in
  let '(a, d) := Round e a b c d (f1 a b c) k1 w0 in
  let w1 := left (Z.lxor (Z.lxor (Z.lxor w1 w14) w9) w3) in
  let '(e, c) := Round d e a b c (f1 e a b) k1 w1 in
  let w2 := left (Z.lxor (Z.lxor (Z.lxor w2 w15) w10) w4) in
  let '(d, b) := Round c d e a b (f1 d e a) k1 w2 in
  let w3 := left (Z.lxor (Z.lxor (Z.lxor w3 w0) w11) w5) in
  let '(c, a) := Round b c d e a (f1 c d e) k1 w3 in
  let w4 := left (Z.lxor (Z.lxor (Z.lxor w4 w1) w12) w6) in
  let '(b, e) := Round a b c d e (f2 b c d) k2 w4 in
  let w5 := left (Z.lxor (Z.lxor (Z.lxor w5 w2) w13) w7) in
  let '(a, d) := Round e a b c d (f2 a b c) k2 w5 in
  let w6 := left (Z.lxor (Z.lxor (Z.lxor w6 w3) w14) w8) in
  let '(e, c) := Round d e a b c (f2 e a b) k2 w6 in
  let w7 := left (Z.lxor (Z.lxor (Z.lxor w7 w4) w15) w9) in
  let '(d, b) := Round c d e a b (f2 d e a) k2 w7 in
  let w8 := left (Z.lxor (Z.lxor (Z.lxor w8 w5) w0) w10) in
  let '(c, a) := Round b c d e a (f2 c d e) k2 w8 in
  let w9 := left (Z.lxor (Z.lxor (Z.lxor w9 w6) w1) w11) in
  let '(b, e) := Round a b c d e (f2 b c d) k2 w9 in
  let w10 := left (Z.lxor (Z.lxor (Z.lxor w10 w7) w2) w12) in
  let '(a, d) := Round e a b c d (f2 a b c) k2 w10 in
  let w11 := left (Z.lxor (Z.lxor (Z.lxor w11 w8) w3) w13) in
  let '(e, c) := Round d e a b c (f2 e a b) k2 w11 in
  let w12 := left (Z.lxor (Z.lxor (Z.lxor w12 w9) w4) w14) in
  let '(d, b) := Round c d e a b (f2 d e a) k2 w12 in
  let w13 := left (Z.lxor (Z.lxor (Z.lxor w13 w10) w5) w15) in
  let '(c, a) := Round b c d e a (f2 c d e) k2 w13 in
  let w14 := left (Z.lxor (Z.lxor (Z.lxor w14 w11) w6) w0) in
  let '(b, e) := Round a b c d e (f2 b c d) k2 w14 in
  let w15 := left (Z.lxor (Z.lxor (Z.lxor w15 w12) w7) w1) in
  let '(a, d) := Round e a b c d (f2 a b c) k2 w15 in
  ([a; b; c; d; e], [w0; w1; w2; w3; w4; w5; w6; w7; w8; w9; w10; w11; w12; w13; w14; w15])
  | _, _ => (s, w)
  end.

Definition rounds_32_47 (s w : list Z) : list Z * list Z :=
  match s, w with
  | [a; b; c; d; e], [w0; w1; w2; w3; w4; w5; w6; w7; w8; w9; w10; w11; w12; w13; w14; w15] =>
  let w0 := left (Z.lxor (Z.lxor (Z.lxor w0 w13) w8) w2) in
  let '(e, c) := Round d e a b c (f2 e a b) k2 w0 in
  let w1 := left (Z.lxor (Z.lxor (Z.lxor w1 w14) w9) w3) in
  let '(d, b) := Round c d e a b (f2 d e a) k2 w1 in
  let w2 := left (Z.lxor (Z.lxor (Z.lxor w2 w15) w10) w4) in
  let '(c, a) := Round b c d e a (f2 c d e) k2 w2 in
  let w3 := left (Z.lxor (Z.lxor (Z.lxor w3 w0) w11) w5) in
  let '(b, e) := Round a b c d e (f2 b c d) k2 w3 in
  let w4 := left (Z.lxor (Z.lxor (Z.lxor w4 w1) w12) w6) in
  let '(a, d) := Round e a b c d (f2 a b c) k2 w4 in
  let w5 := left (Z.lxor (Z.lxor (Z.lxor w5 w2) w13) w7) in
  let '(e, c) := Round d e a b c (f2 e a b) k2 w5 in
  let w6 := left (Z.lxor (Z.lxor (Z.lxor w6 w3) w14) w8) in
  let '(d, b) := Round c d e a b (f2 d e a) k2 w6 in
  let w7 := left (Z.lxor (Z.lxor (Z.lxor w7 w4) w15) w9) in
  let '(c, a) := Round b c d e a (f2 c d e) k2 w7 in
  let w8 := left (Z.lxor (Z.lxor (Z.lxor w8 w5) w0) w10) in
  let '(b, e) := Round a b c d e (f3 b c d) k3 w8 in
  let w9 := left (Z.lxor (Z.lxor (Z.lxor w9 w6) w1) w11) in
  let '(a, d) := Round e a b c d (f3 a b c) k3 w9 in
  let w10 := left (Z.lxor (Z.lxor (Z.lxor w10 w7) w2) w12) in
  let '(e, c) := Round d e a b c (f3 e a b) k3 w10 in
  let w11 := left (Z.lxor (Z.lxor (Z.lxor w11 w8) w3) w13) in
  let '(d, b) := Round c d e a b (f3 d e a) k3 w11 in
  let w12 := left (Z.lxor (Z.lxor (Z.lxor w12 w9) w4) w14) in
  let '(c, a) := Round b c d e a (f3 c d e) k3 w12 in
  let w13 := left (Z.lxor (Z.lxor (Z.lxor w13 w10) w5) w15) in
  let '(b, e) := Round a b c d e (f3 b c d) k3 w13 in
  let w14 := left (Z.lxor (Z.lxor (Z.lxor w14 w11) w6) w0) in
  let '(a, d) := Round e a b c d (f3 a b c) k3 w14 in
  let w15 := left (Z.lxor (Z.lxor (Z.lxor w15 w12) w7) w1) in
  let '(e, c) := Round d e a b c (f3 e a b) k3 w15 in
  ([a; b; c; d; e], [w0; w1; w2; w3; w4; w5; w6; w7; w8; w9; w10; w11; w12; w13; w14; w15])
  | _, _ => (s, w)
  end.

Definition rounds_48_63 (s w : list Z) : list Z * list Z :=
  match s, w with
  | [a; b; c; d; e], [w0; w1; w2; w3; w4; w5; w6; w7; w8; w9; w10; w11; w12; w13; w14; w15] =>
  let w0 := left (Z.lxor (Z.lxor (Z.lxor w0 w13) w8) w2) in
  let '(d, b) := Round c d e a b (f3 d e a) k3 w0 in
  let w1 := left (Z.lxor (Z.lxor (Z.lxor w1 w14) w9) w3) in
  let '(c, a) := Round b c d e a (f3 c d e) k3 w1 in
  let w2 := left (Z.lxor (Z.lxor (Z.lxor w2 w15) w10) w4) in
  let '(b, e) := Round a b c d e (f3 b c d) k3 w2 in
  let w3 := left (Z.lxor (Z.lxor (Z.lxor w3 w0) w11) w5) in
  let '(a, d) := Round e a b c d (f3 a b c) k3 w3 in
  let w4 := left (Z.lxor (Z.lxor (Z.lxor w4 w1) w12) w6) in
  let '(e, c) := Round d e a b c (f3 e a b) k3 w4 in
  let w5 := left (Z.lxor (Z.lxor (Z.lxor w5 w2) w13) w7) in
  let '(d, b) := Round c d e a b (f3 d e a) k3 w5 in
  let w6 := left (Z.lxor (Z.lxor (Z.lxor w6 w3) w14) w8) in
  let '(c, a) := Round b c d e a (f3 c d e) k3 w6 in
  let w7 := left (Z.lxor (Z.lxor (Z.lxor w7 w4) w15) w9) in
  let '(b, e) := Round a b c d e (f3 b c d) k3 w7 in
  let w8 := left (Z.lxor (Z.lxor (Z.lxor w8 w5) w0) w10) in
  let '(a, d) := Round e a b c d (f3 a b c) k3 w8 in
  let w9 := left (Z.lxor (Z.lxor (Z.lxor w9 w6) w1) w11) in
  let '(e, c) := Round d e a b c (f3 e a b) k3 w9 in
  let w10 := left (Z.lxor (Z.lxor (Z.lxor w10 w7) w2) w12) in
  let '(d, b) := Round c d e a b (f3 d e a) k3 w10 in
  let w11 := left (Z.lxor (Z.lxor (Z.lxor w11 w8) w3) w13) in
  let '(c, a) := Round b c d e a (f3 c d e) k3 w11 in
  let w12 := left (Z.lxor (Z.lxor (Z.lxor w12 w9) w4) w14) in
  let '(b, e) := Round a b c d e (f2 b c d) k4 w12 in
  let w13 := left (Z.lxor (Z.lxor (Z.lxor w13 w10) w5) w15) in
  let '(a, d) := Round e a b c d (f2 a b c) k4 w13 in
  let w14 := left (Z.lxor (Z.lxor (Z.lxor w14 w11) w6) w0) in
  let '(e, c) := Round d e a b c (f2 e a b) k4 w14 in
  let w15 := left (Z.lxor (Z.lxor (Z.lxor w15 w12) w7) w1) in
  let '(d, b) := Round c d e a b (f2 d e a) k4 w15 in
  ([a; b; c; d; e], [w0; w1; w2; w3; w4; w5; w6; w7; w8; w9; w10; w11; w12; w13; w14; w15])
  | _, _ => (s, w)
  end.

Definition rounds_64_79 (s w : list Z) : list Z :=
  match s, w with
  | [a; b; c; d; e], [w0; w1; w2; w3; w4; w5; w6; w7; w8; w9; w10; w11; w12; w13; w14; w15] =>
  let w0 := left (Z.lxor (Z.lxor (Z.lxor w0 w13) w8) w2) in
  let '(c, a) := Round b c d e a (f2 c d e) k4 w0 in
  let w1 := left (Z.lxor (Z.lxor (Z.lxor w1 w14) w9) w3) in
  let '(b, e) := Round a b c d e (f2 b c d) k4 w1 in
  let w2 := left (Z.lxor (Z.lxor (Z.lxor w2 w15) w10) w4) in
  let '(a, d) := Round e a b c d (f2 a b c) k4 w2 in
  let w3 := left (Z.lxor (Z.lxor (Z.lxor w3 w0) w11) w5) in
  let '(e, c) := Round d e a b c (f2 e a b) k4 w3 in
  let w4 := left (Z.lxor (Z.lxor (Z.lxor w4 w1) w12) w6) in
  let '(d, b) := Round c d e a b (f2 d e a) k4 w4 in
  let w5 := left (Z.lxor (Z.lxor (Z.lxor w5 w2) w13) w7) in
  let '(c, a) := Round b c d e a (f2 c d e) k4 w5 in
  let w6 := left (Z.lxor (Z.lxor (Z.lxor w6 w3) w14) w8) in
  let '(b, e) := Round a b c d e (f2 b c d) k4 w6 in
  let w7 := left (Z.lxor (Z.lxor (Z.lxor w7 w4) w15) w9) in
  let '(a, d) := Round e a b c d (f2 a b c) k4 w7 in
  let w8 := left (Z.lxor (Z.lxor (Z.lxor w8 w5) w0) w10) in
  let '(e, c) := Round d e a b c (f2 e a b) k4 w8 in
  let w9 := left (Z.lxor (Z.lxor (Z.lxor w9 w6) w1) w11) in
  let '(d, b) := Round c d e a b (f2 d e a) k4 w9 in
  let w10 := left (Z.lxor (Z.lxor (Z.lxor w10 w7) w2) w12) in
  let '(c, a) := Round b c d e a (f2 c d e) k4 w10 in
  let w11 := left (Z.lxor (Z.lxor (Z.lxor w11 w8) w3) w13) in
  let '(b, e) := Round a b c d e (f2 b c d) k4 w11 in
  let w12 := left (Z.lxor (Z.lxor (Z.lxor w12 w9) w4) w14) in
  let '(a, d) := Round e a b c d (f2 a b c) k4 w12 in
  let w13 := left (Z.lxor (Z.lxor (Z.lxor w13 w10) w5) w15) in
  let '(e, c) := Round d e a b c (f2 e a b) k4 w13 in
  let w14 := left (Z.lxor (Z.lxor (Z.lxor w14 w11) w6) w0) in
  let '(d, b) := Round c d e a b (f2 d e a) k4 w14 in
  let w15 := left (Z.lxor (Z.lxor (Z.lxor w15 w12) w7) w1) in
  let '(c, a) := Round b c d e a (f2 c d e) k4 w15 in
  [a; b; c; d; e]
  | _, _ => s
  end.

Definition Transform (s : list Z) (chunk : list byte) : list Z :=
  let '(v, w) := rounds_0_15 s chunk in
  let '(v, w) := rounds_16_31 v w in
  let '(v, w) := rounds_32_47 v w in
  let '(v, w) := rounds_48_63 v w in
  let v := rounds_64_79 v w in
  zip_with (fun x y => x + y) s v.

(** ** The class *)

Definition OUTPUT_SIZE : nat := 20.

Definition CSHA1_new (buf : list byte) : hasher := mk_hasher Initialize buf 0.
Definition CSHA1_Write : hasher -> list byte -> hasher := Write 64 Transform.
Definition CSHA1_Reset (h : hasher) : hasher := mk_hasher Initialize (h_buf h) 0.

Definition CSHA1_Finalize (h : hasher) : hasher * list byte :=
  let sizedesc := WriteBE64 (u64 (Z.shiftl (h_bytes h) 3)) in
  let h := CSHA1_Write h (take (1 + (119 - Z.to_nat (h_bytes h mod 64)) mod 64)%nat pad) in
  let h := CSHA1_Write h sizedesc in
  (h, concat (map WriteBE32 (h_s h))).

(** [CSHA1().Write(m).Finalize(hash)] *)
Definition sha1 (m : list byte) : list byte :=
  (CSHA1_Finalize (CSHA1_Write (CSHA1_new (repeat Byte.x00 64)) m)).2.

(** ** FIPS 180-4 *)

Definition ROTL (n x : Z) : Z := Z.lor (Z.shiftl x n mod 2 ^ 32) (Z.shiftr x (32 - n)).
Definition fips_Ch (x y z : Z) : Z := Z.lxor (Z.land x y) (Z.land (u32 (Z.lnot x)) z).
Definition fips_Parity (x y z : Z) : Z := Z.lxor (Z.lxor x y) z.
Definition fips_Maj (x y z : Z) : Z := Z.lxor (Z.lxor (Z.land x y) (Z.land x z)) (Z.land y z).

(** The function and the constant of every step. *)
Definition fips_steps : list ((Z -> Z -> Z -> Z) * Z) :=
  repeat (fips_Ch, 0x5A827999) 20 ++ repeat (fips_Parity, 0x6ED9EBA1) 20 ++
  repeat (fips_Maj, 0x8F1BBCDC) 20 ++ repeat (fips_Parity, 0xCA62C1D6) 20.

(** [W_t = ROTL1 (W_(t-3) xor W_(t-8) xor W_(t-14) xor W_(t-16))] *)
Definition fips_W (w : list Z) : Z :=
  ROTL 1 (Z.lxor (Z.lxor (Z.lxor (nth 13 w 0) (nth 8 w 0)) (nth 2 w 0)) (nth 0 w 0)).

Definition fips_round (st : list Z) (fk : (Z -> Z -> Z -> Z) * Z) (w : Z) : list Z :=
  match st with
  | [a; b; c; d; e] =>
      let T := (ROTL 5 a + fk.1 b c d + e + fk.2 + w)%Z mod 2 ^ 32 in
      [T; a; ROTL 30 b; c; d]
  | _ => st
  end.

Fixpoint fips_load (ks : list ((Z -> Z -> Z -> Z) * Z)) (ws : list Z) (st : list Z) : list Z :=
  match ks, ws with
  | k :: ks, w :: ws => fips_load ks ws (fips_round st k w)
  | _, _ => st
  end.
Fixpoint fips_expand (ks : list ((Z -> Z -> Z -> Z) * Z)) (w st : list Z) : list Z * list Z :=
  match ks with
  | [] => (st, w)
  | k :: ks => let wt := fips_W w in fips_expand ks (tail w ++ [wt]) (fips_round st k wt)
  end.

Definition fips_block (chunk : list byte) : list Z :=
  map (fun i => ReadBE32 (drop (4 * i) chunk)) (seq 0 16).

Definition compress (H : list Z) (chunk : list byte) : list Z :=
  let w := fips_block chunk in
  zip_with (fun x y => (x + y)%Z mod 2 ^ 32) H
    (fips_expand (drop 16 fips_steps) w (fips_load (take 16 fips_steps) w H)).1.

(** The digest of a message shorter than [2 ^ 61] bytes. *)
Definition fips_sha1 (m : list byte) : list byte :=
  concat (map (fun x => rev (le_split 4 x))
    (compress_padded 64 compress 8 Initialize m
       (rev (le_split 8 (8 * Z.of_nat (length m)))%Z))).

Example sha1_abc : sha1 (map byte.of_Z [0x61; 0x62; 0x63]) = map byte.of_Z
  [0xa9;0x99;0x3e;0x36;0x47;0x06;0x81;0x6a;0xba;0x3e;0x25;0x71;0x78;0x50;0xc2;0x6c;0x9c;0xd0;0xd8;0x9d].
Proof. vm_compute. reflexivity. Qed.

(** ** The unrolled rounds are the loop of the standard *)

Lemma f1_fips x y z : in_u32 z -> f1 x y z = fips_Ch x y z.
Proof.
  intros Hz. unfold f1, fips_Ch, u32. apply Z.bits_inj'. intros i Hi.
  rewrite !Z.lxor_spec, !Z.land_spec, Z.lxor_spec, Z.testbit_mod_pow2, Z.lnot_spec by lia.
  destruct (Z.ltb_spec i 32).
  - by destruct (Z.testbit x i), (Z.testbit y i), (Z.testbit z i).
  - rewrite (testbit_high z 32) by done. by destruct (Z.testbit x i), (Z.testbit y i).
Qed.

Lemma f3_fips x y z : f3 x y z = fips_Maj x y z.
Proof.
  apply Z.bits_inj'. intros i Hi. unfold f3, fips_Maj.
  rewrite !Z.lxor_spec, !Z.lor_spec, !Z.land_spec, Z.lor_spec.
  by destruct (Z.testbit x i), (Z.testbit y i), (Z.testbit z i).
Qed.

Lemma ROTL_range n x : 0 <= n <= 32 -> in_u32 x -> in_u32 (ROTL n x).
Proof.
  intros Hn Hx. unfold in_u32, ROTL in *. apply lor_bound; [lia|apply Z.mod_pos_bound; lia|].
  rewrite Z.shiftr_div_pow2 by lia. split; [apply Z.div_pos; lia|].
  apply (Z.le_lt_trans _ x); [|lia]. apply Z.div_le_upper_bound; [lia|].
  pose proof (Z.pow_pos_nonneg 2 (32 - n)). nia.
Qed.

Lemma Round_fips_sha1 a b c d e f F k w : f b c d = F ->
  fips_round [a; b; c; d; e] (f, k) w
  = let '(b', e') := Round a b c d e F k w in [e'; a; b'; c; d].
Proof.
  intros <-. unfold fips_round, Round. cbv zeta. cbn [fst snd].
  change (ROTL 30 b) with (Z.lor (b << 30) (b >> 2)).
  change (ROTL 5 a) with (Z.lor (a << 5) (a >> 27)). rewrite u32_fold. f_equal. u32_ring.
Qed.

Lemma fips_W_code_sha1 w0 w1 w2 w3 w4 w5 w6 w7 w8 w9 w10 w11 w12 w13 w14 w15 :
  fips_W [w0; w1; w2; w3; w4; w5; w6; w7; w8; w9; w10; w11; w12; w13; w14; w15]
  = left (Z.lxor (Z.lxor (Z.lxor w0 w13) w8) w2).
Proof.
  unfold fips_W. cbn [nth]. rewrite (Z.lxor_comm _ w0), <- !Z.lxor_assoc. done.
Qed.

Lemma Round_range_sha1 a b c d e f k w : in_u32 b -> in_u32 (Round a b c d e f k w).1 /\
  in_u32 (Round a b c d e f k w).2.
Proof. intros. split; [by apply (ROTL_range 30)|apply u32_range]. Qed.

Section step.
Context {A : Type} (BODY : Z -> Z -> A) (a b c d e F k w : Z) (f : Z -> Z -> Z -> Z).
Context (ks : list ((Z -> Z -> Z -> Z) * Z)) (ws : list Z).

Lemma step_load_sha1 (D : list Z -> A) : f b c d = F -> in_u32 b ->
  (forall b' e', in_u32 b' -> in_u32 e' -> BODY b' e' = D (fips_load ks ws [e'; a; b'; c; d])) ->
  (let '(b', e') := Round a b c d e F k w in BODY b' e')
  = D (fips_load ((f, k) :: ks) (w :: ws) [a; b; c; d; e]).
Proof.
  intros HF Hb H. cbn [fips_load]. rewrite (Round_fips_sha1 a b c d e f F) by done.
  destruct (Round_range_sha1 a b c d e F k w Hb).
  destruct (Round a b c d e F k w) as [b' e']. by apply H.
Qed.

Lemma step_expand_sha1 (D : list Z * list Z -> A) : w = fips_W ws -> f b c d = F -> in_u32 b ->
  (forall b' e', in_u32 b' -> in_u32 e' ->
     BODY b' e' = D (fips_expand ks (tail ws ++ [w]) [e'; a; b'; c; d])) ->
  (let '(b', e') := Round a b c d e F k w in BODY b' e')
  = D (fips_expand ((f, k) :: ks) ws [a; b; c; d; e]).
Proof.
  intros -> HF Hb H. cbn [fips_expand]. rewrite (Round_fips_sha1 a b c d e f F) by done.
  destruct (Round_range_sha1 a b c d e F k (fips_W ws) Hb).
  destruct (Round a b c d e F k (fips_W ws)) as [b' e']. by apply H.
Qed.
End step.

(** Sixteen rounds leave the roles of [a ... e] shifted by one: the variable that
    holds the standard's [a] moves to the next name. *)
Definition rot (n : nat) (l : list Z) : list Z := Nat.iter n (fun l => tail l ++ take 1 l) l.
Definition rot_out (n : nat) (p : list Z * list Z) : list Z * list Z := (rot n p.1, p.2).
Definition rot_fst (n : nat) (p : list Z * list Z) : list Z := rot n p.1.

Ltac same_function :=
  solve [reflexivity | symmetry; apply f3_fips | symmetry; apply f1_fips; assumption].

Ltac load_round :=
  next_word; match goal with E : ?w = ReadBE32 _ |- _ => rewrite <- E; clear E end;
  lazymatch goal with
  | |- (match Round ?a ?b ?c ?d ?e ?F ?k ?w with (x, y) => @?B x y end)
       = (rot 1 (fips_load ((?f, _) :: ?ks) (_ :: ?ws) _), ?W) =>
      refine (step_load_sha1 B a b c d e F k w f ks ws (fun v => (rot 1 v, W)) _ _ _);
      [same_function|assumption|]; cbv beta; intros ? ? ? ?
  end.

Ltac expand_round :=
  next_word;
  lazymatch goal with
  | E : ?w = _ |- (match Round ?a ?b ?c ?d ?e ?F ?k ?w with (x, y) => @?B x y end)
       = ?C (fips_expand ((?f, _) :: ?ks) ?ws _) =>
      refine (step_expand_sha1 B a b c d e F k w f ks ws C _ _ _ _);
      [rewrite E, fips_W_code_sha1; reflexivity|same_function|assumption|];
      clear E; intros ? ? ? ?; cbv beta match fix delta [tail app]
  end.

(** A working state: five words. *)
Definition is_state (st : list Z) : Prop := length st = 5%nat /\ Forall in_u32 st.

Lemma is_state_inv_sha1 st : is_state st -> exists a b c d e,
  st = [a; b; c; d; e] /\ in_u32 a /\ in_u32 b /\ in_u32 c /\ in_u32 d /\ in_u32 e.
Proof.
  intros [L F]. do 6 (destruct st as [|? st]; try discriminate L).
  rewrite !Forall_cons in F. do 5 eexists. split; [reflexivity|]. tauto.
Qed.

Lemma window_inv_sha1 (w : list Z) : length w = 16%nat ->
  exists w0 w1 w2 w3 w4 w5 w6 w7 w8 w9 w10 w11 w12 w13 w14 w15,
  w = [w0; w1; w2; w3; w4; w5; w6; w7; w8; w9; w10; w11; w12; w13; w14; w15].
Proof. intros L. do 17 (destruct w as [|? w]; try discriminate L). by do 16 eexists. Qed.

Ltac destruct_state H :=
  destruct (is_state_inv_sha1 _ H) as (?a & ?b & ?c & ?d & ?e & -> & ? & ? & ? & ? & ?).
Ltac destruct_window H :=
  destruct (window_inv_sha1 _ H) as (?w & ?w & ?w & ?w & ?w & ?w & ?w & ?w & ?w & ?w & ?w & ?w & ?w & ?w & ?w & ?w & ->).

Lemma fips_round_state_sha1 st k w : is_state st -> is_state (fips_round st k w).
Proof.
  intros H. destruct_state H. destruct k as [f k]. rewrite (Round_fips_sha1 a b c d e f _) by done.
  destruct (Round_range_sha1 a b c d e (f b c d) k w) as [R1 R2]; [done|].
  destruct (Round a b c d e (f b c d) k w) as [b' e']. split; [done|].
  by repeat (apply Forall_cons; split; [assumption|]).
Qed.

Lemma fips_load_state_sha1 ks ws st : is_state st -> is_state (fips_load ks ws st).
Proof.
  revert ws st. induction ks as [|k ks IH]; intros [|w ws] st H; simpl; try done.
  by apply IH, fips_round_state_sha1.
Qed.

Lemma fips_expand_state_sha1 ks w st : is_state st -> length w = 16%nat ->
  is_state (fips_expand ks w st).1 /\ length (fips_expand ks w st).2 = 16%nat.
Proof.
  revert w st. induction ks as [|k ks IH]; intros w st H Hw; simpl; [done|].
  apply IH; [by apply fips_round_state_sha1|].
  destruct w; [done|]. rewrite length_app. simpl in *. lia.
Qed.

Lemma fips_expand_app_sha1 ks ks' w st :
  fips_expand (ks ++ ks') w st
  = fips_expand ks' (fips_expand ks w st).2 (fips_expand ks w st).1.
Proof. revert w st. induction ks as [|k ks IH]; intros w st; simpl; [done|]. by rewrite IH. Qed.

Definition step_group (i : nat) : list ((Z -> Z -> Z -> Z) * Z) := take 16 (drop (16 * i) fips_steps).

Ltac split_constants :=
  match goal with |- context [step_group ?i] =>
    let l := eval cbv [step_group fips_steps repeat app take drop Nat.mul Nat.add] in (step_group i) in
    change (step_group i) with l end.

Lemma rounds_0_15_spec_sha1 st chunk : is_state st ->
  rounds_0_15 st chunk = (rot 1 (fips_load (step_group 0) (fips_block chunk) st), fips_block chunk).
Proof.
  intros H. destruct_state H. cbv delta [rounds_0_15] beta match. split_constants.
  let l := eval cbv [fips_block map seq Nat.mul Nat.add] in (fips_block chunk) in
    change (fips_block chunk) with l.
  do 16 load_round. reflexivity.
Qed.

Ltac expand_group H Hw :=
  destruct_state H; destruct_window Hw;
  lazymatch goal with |- context [rot ?n ?l] =>
    let l' := eval compute in (rot n l) in change (rot n l) with l' end;
  cbv beta match; split_constants;
  do 16 expand_round; reflexivity.

Lemma rounds_16_31_spec_sha1 st w : is_state st -> length w = 16%nat ->
  rounds_16_31 (rot 1 st) w = rot_out 2 (fips_expand (step_group 1) w st).
Proof. intros H Hw. cbv delta [rounds_16_31]. expand_group H Hw. Qed.

Lemma rounds_32_47_spec_sha1 st w : is_state st -> length w = 16%nat ->
  rounds_32_47 (rot 2 st) w = rot_out 3 (fips_expand (step_group 2) w st).
Proof. intros H Hw. cbv delta [rounds_32_47]. expand_group H Hw. Qed.

Lemma rounds_48_63_spec_sha1 st w : is_state st -> length w = 16%nat ->
  rounds_48_63 (rot 3 st) w = rot_out 4 (fips_expand (step_group 3) w st).
Proof. intros H Hw. cbv delta [rounds_48_63]. expand_group H Hw. Qed.

Lemma rounds_64_79_spec st w : is_state st -> length w = 16%nat ->
  rounds_64_79 (rot 4 st) w = rot_fst 5 (fips_expand (step_group 4) w st).
Proof. intros H Hw. cbv delta [rounds_64_79].
  expand_group H Hw.
Qed.

Lemma Transform_compress_sha1 st chunk : is_state st -> Transform st chunk = compress st chunk.
Proof.
  intros H. unfold Transform. rewrite rounds_0_15_spec_sha1 by done.
  assert (H0 : is_state (fips_load (step_group 0) (fips_block chunk) st)) by by apply fips_load_state_sha1.
  assert (W0 : length (fips_block chunk) = 16%nat) by done.
  unfold compress. change (take 16 fips_steps) with (step_group 0).
  change (drop 16 fips_steps) with (step_group 1 ++ step_group 2 ++ step_group 3 ++ step_group 4).
  rewrite !fips_expand_app_sha1.
  generalize dependent (fips_load (step_group 0) (fips_block chunk) st). intros v H0.
  generalize dependent (fips_block chunk). intros w W0.
  rewrite rounds_16_31_spec_sha1 by done. destruct (fips_expand_state_sha1 (step_group 1) w v H0 W0) as [H1 W1].
  destruct (fips_expand (step_group 1) w v) as [v1 w1]. unfold rot_out; cbn [fst snd] in *.
  rewrite rounds_32_47_spec_sha1 by done. destruct (fips_expand_state_sha1 (step_group 2) w1 v1 H1 W1) as [H2 W2].
  destruct (fips_expand (step_group 2) w1 v1) as [v2 w2]. unfold rot_out; cbn [fst snd] in *.
  rewrite rounds_48_63_spec_sha1 by done. destruct (fips_expand_state_sha1 (step_group 3) w2 v2 H2 W2) as [H3 W3].
  destruct (fips_expand (step_group 3) w2 v2) as [v3 w3]. unfold rot_out; cbn [fst snd] in *.
  rewrite rounds_64_79_spec by done. destruct (fips_expand_state_sha1 (step_group 4) w3 v3 H3 W3) as [H4 _].
  destruct (fips_expand (step_group 4) w3 v3) as [v4 w4]. unfold rot_out; cbn [fst snd] in *.
  by destruct (is_state_inv_sha1 _ H4) as (?&?&?&?&?&->&_).
Qed.

Lemma compress_state_sha1 st chunk : is_state st -> is_state (compress st chunk).
Proof.
  intros H. unfold compress.
  destruct (fips_expand_state_sha1 (drop 16 fips_steps) (fips_block chunk)
    (fips_load (take 16 fips_steps) (fips_block chunk) st)) as [H1 _]; [by apply fips_load_state_sha1|done|].
  destruct (fips_expand _ _ _) as [v w]. cbn [fst] in *.
  destruct (is_state_inv_sha1 _ H) as (?&?&?&?&?&->&_).
  destruct (is_state_inv_sha1 _ H1) as (?&?&?&?&?&->&_).
  split; [done|]. cbn [zip_with].
  by repeat (apply Forall_cons; split; [apply (u32_range (_ + _))|]).
Qed.

Lemma Initialize_state_sha1 : is_state Initialize.
Proof.
  split; [done|]. unfold Initialize, in_u32.
  by repeat (apply Forall_cons; split; [lia|]).
Qed.

(** The code's compression function and the standard's give the same iteration. *)
Lemma fold_Transform_sha1 l st : is_state st -> fold_left Transform l st = fold_left compress l st.
Proof.
  revert st. induction l as [|x l IH]; intros st H; simpl; [done|].
  rewrite Transform_compress_sha1 by done. by apply IH, compress_state_sha1.
Qed.

Lemma fold_compress_state_sha1 l st : is_state st -> is_state (fold_left compress l st).
Proof. revert st. induction l; intros st H; simpl; [done|]. by apply IHl, compress_state_sha1. Qed.

(** The hasher after any writes holds their concatenation. *)
Definition sha1_holds : list byte -> hasher -> Prop := holds 64 Transform Initialize.

Lemma CSHA1_new_holds buf : length buf = 64%nat -> sha1_holds [] (CSHA1_new buf).
Proof. apply holds_init. Qed.

Lemma CSHA1_Reset_holds m h : sha1_holds m h -> sha1_holds [] (CSHA1_Reset h).
Proof. intros (_ & Hb & _). by apply holds_init. Qed.

Lemma CSHA1_Write_holds m h d : sha1_holds m h -> sha1_holds (m ++ d) (CSHA1_Write h d).
Proof. apply Write_holds; [lia|apply divide_64]. Qed.

Lemma CSHA1_Writes_holds ds m h :
  sha1_holds m h -> sha1_holds (m ++ concat ds) (fold_left CSHA1_Write ds h).
Proof.
  revert m h. induction ds as [|d ds IH]; intros m h H; simpl; [by rewrite app_nil_r|].
  rewrite app_assoc. by apply IH, CSHA1_Write_holds.
Qed.

(** The digest of the bytes written; the length field is the 64-bit counter of
    bits, so that this is the standard's digest below [2 ^ 61] bytes. *)
Definition digest (m : list byte) : list byte :=
  concat (map WriteBE32 (compress_padded 64 compress 8 Initialize m
    (WriteBE64 (u64 (Z.shiftl (u64 (Z.of_nat (length m))) 3))))).

Lemma CSHA1_Finalize_digest m h : sha1_holds m h -> (CSHA1_Finalize h).2 = digest m.
Proof.
  intros H. pose proof H as (Hn & _). unfold CSHA1_Finalize, digest. cbn [snd].
  rewrite (pad_padding _ _ m h H), Hn. unfold CSHA1_Write.
  rewrite (Finalize_holds 64 Transform) with (lenlen := 8%nat) (s0 := Initialize)
    by first [lia | apply divide_64 | done].
  unfold compress_padded. cbv zeta. by rewrite fold_Transform_sha1 by apply Initialize_state_sha1.
Qed.

Lemma digest_fips_sha1 m : Z.of_nat (length m) < 2 ^ 61 -> digest m = fips_sha1 m.
Proof.
  intros Hm. unfold digest, fips_sha1, WriteBE64, WriteBE32. do 3 f_equal.
  unfold u64. rewrite (Z.mod_small (Z.of_nat _)), Z.shiftl_mul_pow2, Z.mod_small by lia.
  by rewrite Z.mul_comm.
Qed.

Lemma digest_length_sha1 m : length (digest m) = 20%nat.
Proof.
  unfold digest, compress_padded. cbv zeta. set (l := blocks_of _ _ _).
  pose proof (fold_compress_state_sha1 l Initialize Initialize_state_sha1) as H.
  destruct (is_state_inv_sha1 _ H) as (?&?&?&?&?&->&_). done.
Qed.

Lemma sha1_digest m : sha1 m = digest m.
Proof.
  unfold sha1. apply CSHA1_Finalize_digest. apply (CSHA1_Write_holds []), CSHA1_new_holds.
  reflexivity.
Qed.

Lemma CSHA1_Finalize_sha1 m h : sha1_holds m h -> (CSHA1_Finalize h).2 = sha1 m.
Proof. intros H. by rewrite sha1_digest, CSHA1_Finalize_digest with (m := m). Qed.

Lemma sha1_length m : length (sha1 m) = 20%nat.
Proof. by rewrite sha1_digest, digest_length_sha1. Qed.

(** What [Finalize] leaves behind still is a hasher: [Reset] makes it fresh. *)
Lemma CSHA1_Finalize_Reset m h : sha1_holds m h ->
  sha1_holds [] (CSHA1_Reset (CSHA1_Finalize h).1).
Proof.
  intros H. unfold CSHA1_Finalize. cbn [fst].
  eapply CSHA1_Reset_holds, CSHA1_Write_holds, CSHA1_Write_holds, H.
Qed.

(** The hasher computes SHA-1 as FIPS 180-4 defines it. Whatever the content of
    the uninitialised buffer and however the message is cut into calls of [Write],
    [Finalize] returns the 20-byte digest of the padded message under the standard's
    80-step compression function, which the unrolled [Transform] implements. *)
Theorem sha1_streaming (buf : list byte) (ds : list (list byte))
    (Hbuf : length buf = 64%nat) (Hlen : Z.of_nat (length (concat ds)) < 2 ^ 61) :
  (CSHA1_Finalize (fold_left CSHA1_Write ds (CSHA1_new buf))).2
    = fips_sha1 (concat ds) /\
  length (fips_sha1 (concat ds)) = OUTPUT_SIZE.
Proof.
  rewrite <- digest_fips_sha1 by done. split; [|apply digest_length_sha1]. apply CSHA1_Finalize_digest.
  by apply (CSHA1_Writes_holds ds []), CSHA1_new_holds.
Qed.

Lemma sha1_streaming_witness :
  let ds := [map byte.of_Z [0x61]; []; map byte.of_Z [0x62; 0x63]] in
  (CSHA1_Finalize (fold_left CSHA1_Write ds (CSHA1_new (repeat Byte.xff 64)))).2
  = fips_sha1 (map byte.of_Z [0x61; 0x62; 0x63]).
Proof.
  intros ds. apply (sha1_streaming (repeat Byte.xff 64) ds); [reflexivity|].
  vm_compute. reflexivity.
Defined.
