(* ===== verification/Ripemd160.v ===== *)
(** * RIPEMD-160 ([crypto/ripemd160.cpp], [crypto/ripemd160.h])

    The unrolled, interleaved compression function against the published definition
    (two lines of 80 steps driven by tables of message words and rotations), and the
    hasher class on top of it. *)

From Stdlib Require Import ZArith Lia List Bool.
From stdpp Require Import base list.
From coqutil Require Import Byte Word.LittleEndianList.
From S2P Require Import Prelude Serialize MerkleDamgard.

Open Scope Z_scope.
Open Scope w32_scope.

(** [~x] on [uint32_t]. *)
Definition not32 (x : Z) : Z := u32 (Z.lnot x).

Definition f1 (x y z : Z) : Z := Z.lxor (Z.lxor x y) z.
Definition f2 (x y z : Z) : Z := Z.lor (Z.land x y) (Z.land (not32 x) z).
Definition f3 (x y z : Z) : Z := Z.lxor (Z.lor x (not32 y)) z.
Definition f4 (x y z : Z) : Z := Z.lor (Z.land x z) (Z.land y (not32 z)).
Definition f5 (x y z : Z) : Z := Z.lxor x (Z.lor y (not32 z)).

Definition Initialize : list Z := [0x67452301; 0xEFCDAB89; 0x98BADCFE; 0x10325476; 0xC3D2E1F0].

Definition rol (x i : Z) : Z := Z.lor (x << i) (x >> Z.sub 32 i).

(** One round: the new values of [a] and [c]. *)
Definition Round (a b c d e f x k r : Z) : Z * Z :=
  (rol (a + f + x + k)%w32 r + e, rol c 10).

Definition R11 (a b c d e x r : Z) : Z * Z := Round a b c d e (f1 b c d) x 0 r.
Definition R21 (a b c d e x r : Z) : Z * Z := Round a b c d e (f2 b c d) x 0x5A827999 r.
Definition R31 (a b c d e x r : Z) : Z * Z := Round a b c d e (f3 b c d) x 0x6ED9EBA1 r.
Definition R41 (a b c d e x r : Z) : Z * Z := Round a b c d e (f4 b c d) x 0x8F1BBCDC r.
Definition R51 (a b c d e x r : Z) : Z * Z := Round a b c d e (f5 b c d) x 0xA953FD4E r.

Definition R12 (a b c d e x r : Z) : Z * Z := Round a b c d e (f5 b c d) x 0x50A28BE6 r.
Definition R22 (a b c d e x r : Z) : Z * Z := Round a b c d e (f4 b c d) x 0x5C4DD124 r.
Definition R32 (a b c d e x r : Z) : Z * Z := Round a b c d e (f3 b c d) x 0x6D703EF3 r.
Definition R42 (a b c d e x r : Z) : Z * Z := Round a b c d e (f2 b c d) x 0x7A6D76E9 r.
Definition R52 (a b c d e x r : Z) : Z * Z := Round a b c d e (f1 b c d) x 0 r.

(** The five groups of calls in [Transform]; sixteen on each line, interleaved. *)
Definition rounds_1 (s1 s2 w : list Z) : list Z * list Z :=
  match s1, s2, w with
  | [a1; b1; c1; d1; e1], [a2; b2; c2; d2; e2], [w0; w1; w2; w3; w4; w5; w6; w7; w8; w9; w10; w11; w12; w13; w14; w15] =>
  let '(a1, c1) := R11 a1 b1 c1 d1 e1 w0 11 in
  let '(a2, c2) := R12 a2 b2 c2 d2 e2 w5 8 in
  let '(e1, b1) := R11 e1 a1 b1 c1 d1 w1 14 in
  let '(e2, b2) := R12 e2 a2 b2 c2 d2 w14 9 in
  let '(d1, a1) := R11 d1 e1 a1 b1 c1 w2 15 in
  let '(d2, a2) := R12 d2 e2 a2 b2 c2 w7 9 in
  let '(c1, e1) := R11 c1 d1 e1 a1 b1 w3 12 in
  let '(c2, e2) := R12 c2 d2 e2 a2 b2 w0 11 in
  let '(b1, d1) := R11 b1 c1 d1 e1 a1 w4 5 in
  let '(b2, d2) := R12 b2 c2 d2 e2 a2 w9 13 in
  let '(a1, c1) := R11 a1 b1 c1 d1 e1 w5 8 in
  let '(a2, c2) := R12 a2 b2 c2 d2 e2 w2 15 in
  let '(e1, b1) := R11 e1 a1 b1 c1 d1 w6 7 in
  let '(e2, b2) := R12 e2 a2 b2 c2 d2 w11 15 in
  let '(d1, a1) := R11 d1 e1 a1 b1 c1 w7 9 in
  let '(d2, a2) := R12 d2 e2 a2 b2 c2 w4 5 in
  let '(c1, e1) := R11 c1 d1 e1 a1 b1 w8 11 in
  let '(c2, e2) := R12 c2 d2 e2 a2 b2 w13 7 in
  let '(b1, d1) := R11 b1 c1 d1 e1 a1 w9 13 in
  let '(b2, d2) := R12 b2 c2 d2 e2 a2 w6 7 in
  let '(a1, c1) := R11 a1 b1 c1 d1 e1 w10 14 in
  let '(a2, c2) := R12 a2 b2 c2 d2 e2 w15 8 in
  let '(e1, b1) := R11 e1 a1 b1 c1 d1 w11 15 in
  let '(e2, b2) := R12 e2 a2 b2 c2 d2 w8 11 in
  let '(d1, a1) := R11 d1 e1 a1 b1 c1 w12 6 in
  let '(d2, a2) := R12 d2 e2 a2 b2 c2 w1 14 in
  let '(c1, e1) := R11 c1 d1 e1 a1 b1 w13 7 in
  let '(c2, e2) := R12 c2 d2 e2 a2 b2 w10 14 in
  let '(b1, d1) := R11 b1 c1 d1 e1 a1 w14 9 in
  let '(b2, d2) := R12 b2 c2 d2 e2 a2 w3 12 in
  let '(a1, c1) := R11 a1 b1 c1 d1 e1 w15 8 in
  let '(a2, c2) := R12 a2 b2 c2 d2 e2 w12 6 in
  ([a1; b1; c1; d1; e1], [a2; b2; c2; d2; e2])
  | _, _, _ => (s1, s2)
  end.

Definition rounds_2 (s1 s2 w : list Z) : list Z * list Z :=
  match s1, s2, w with
  | [a1; b1; c1; d1; e1], [a2; b2; c2; d2; e2], [w0; w1; w2; w3; w4; w5; w6; w7; w8; w9; w10; w11; w12; w13; w14; w15] =>
  let '(e1, b1) := R21 e1 a1 b1 c1 d1 w7 7 in
  let '(e2, b2) := R22 e2 a2 b2 c2 d2 w6 9 in
  let '(d1, a1) := R21 d1 e1 a1 b1 c1 w4 6 in
  let '(d2, a2) := R22 d2 e2 a2 b2 c2 w11 13 in
  let '(c1, e1) := R21 c1 d1 e1 a1 b1 w13 8 in
  let '(c2, e2) := R22 c2 d2 e2 a2 b2 w3 15 in
  let '(b1, d1) := R21 b1 c1 d1 e1 a1 w1 13 in
  let '(b2, d2) := R22 b2 c2 d2 e2 a2 w7 7 in
  let '(a1, c1) := R21 a1 b1 c1 d1 e1 w10 11 in
  let '(a2, c2) := R22 a2 b2 c2 d2 e2 w0 12 in
  let '(e1, b1) := R21 e1 a1 b1 c1 d1 w6 9 in
  let '(e2, b2) := R22 e2 a2 b2 c2 d2 w13 8 in
  let '(d1, a1) := R21 d1 e1 a1 b1 c1 w15 7 in
  let '(d2, a2) := R22 d2 e2 a2 b2 c2 w5 9 in
  let '(c1, e1) := R21 c1 d1 e1 a1 b1 w3 15 in
  let '(c2, e2) := R22 c2 d2 e2 a2 b2 w10 11 in
  let '(b1, d1) := R21 b1 c1 d1 e1 a1 w12 7 in
  let '(b2, d2) := R22 b2 c2 d2 e2 a2 w14 7 in
  let '(a1, c1) := R21 a1 b1 c1 d1 e1 w0 12 in
  let '(a2, c2) := R22 a2 b2 c2 d2 e2 w15 7 in
  let '(e1, b1) := R21 e1 a1 b1 c1 d1 w9 15 in
  let '(e2, b2) := R22 e2 a2 b2 c2 d2 w8 12 in
  let '(d1, a1) := R21 d1 e1 a1 b1 c1 w5 9 in
  let '(d2, a2) := R22 d2 e2 a2 b2 c2 w12 7 in
  let '(c1, e1) := R21 c1 d1 e1 a1 b1 w2 11 in
  let '(c2, e2) := R22 c2 d2 e2 a2 b2 w4 6 in
  let '(b1, d1) := R21 b1 c1 d1 e1 a1 w14 7 in
  let '(b2, d2) := R22 b2 c2 d2 e2 a2 w9 15 in
  let '(a1, c1) := R21 a1 b1 c1 d1 e1 w11 13 in
  let '(a2, c2) := R22 a2 b2 c2 d2 e2 w1 13 in
  let '(e1, b1) := R21 e1 a1 b1 c1 d1 w8 12 in
  let '(e2, b2) := R22 e2 a2 b2 c2 d2 w2 11 in
  ([a1; b1; c1; d1; e1], [a2; b2; c2; d2; e2])
  | _, _, _ => (s1, s2)
  end.

Definition rounds_3 (s1 s2 w : list Z) : list Z * list Z :=
  match s1, s2, w with
  | [a1; b1; c1; d1; e1], [a2; b2; c2; d2; e2], [w0; w1; w2; w3; w4; w5; w6; w7; w8; w9; w10; w11; w12; w13; w14; w15] =>
  let '(d1, a1) := R31 d1 e1 a1 b1 c1 w3 11 in
  let '(d2, a2) := R32 d2 e2 a2 b2 c2 w15 9 in
  let '(c1, e1) := R31 c1 d1 e1 a1 b1 w10 13 in
  let '(c2, e2) := R32 c2 d2 e2 a2 b2 w5 7 in
  let '(b1, d1) := R31 b1 c1 d1 e1 a1 w14 6 in
  let '(b2, d2) := R32 b2 c2 d2 e2 a2 w1 15 in
  let '(a1, c1) := R31 a1 b1 c1 d1 e1 w4 7 in
  let '(a2, c2) := R32 a2 b2 c2 d2 e2 w3 11 in
  let '(e1, b1) := R31 e1 a1 b1 c1 d1 w9 14 in
  let '(e2, b2) := R32 e2 a2 b2 c2 d2 w7 8 in
  let '(d1, a1) := R31 d1 e1 a1 b1 c1 w15 9 in
  let '(d2, a2) := R32 d2 e2 a2 b2 c2 w14 6 in
  let '(c1, e1) := R31 c1 d1 e1 a1 b1 w8 13 in
  let '(c2, e2) := R32 c2 d2 e2 a2 b2 w6 6 in
  let '(b1, d1) := R31 b1 c1 d1 e1 a1 w1 15 in
  let '(b2, d2) := R32 b2 c2 d2 e2 a2 w9 14 in
  let '(a1, c1) := R31 a1 b1 c1 d1 e1 w2 14 in
  let '(a2, c2) := R32 a2 b2 c2 d2 e2 w11 12 in
  let '(e1, b1) := R31 e1 a1 b1 c1 d1 w7 8 in
  let '(e2, b2) := R32 e2 a2 b2 c2 d2 w8 13 in
  let '(d1, a1) := R31 d1 e1 a1 b1 c1 w0 13 in
  let '(d2, a2) := R32 d2 e2 a2 b2 c2 w12 5 in
  let '(c1, e1) := R31 c1 d1 e1 a1 b1 w6 6 in
  let '(c2, e2) := R32 c2 d2 e2 a2 b2 w2 14 in
  let '(b1, d1) := R31 b1 c1 d1 e1 a1 w13 5 in
  let '(b2, d2) := R32 b2 c2 d2 e2 a2 w10 13 in
  let '(a1, c1) := R31 a1 b1 c1 d1 e1 w11 12 in
  let '(a2, c2) := R32 a2 b2 c2 d2 e2 w0 13 in
  let '(e1, b1) := R31 e1 a1 b1 c1 d1 w5 7 in
  let '(e2, b2) := R32 e2 a2 b2 c2 d2 w4 7 in
  let '(d1, a1) := R31 d1 e1 a1 b1 c1 w12 5 in
  let '(d2, a2) := R32 d2 e2 a2 b2 c2 w13 5 in
  ([a1; b1; c1; d1; e1], [a2; b2; c2; d2; e2])
  | _, _, _ => (s1, s2)
  end.

Definition rounds_4 (s1 s2 w : list Z) : list Z * list Z :=
  match s1, s2, w with
  | [a1; b1; c1; d1; e1], [a2; b2; c2; d2; e2], [w0; w1; w2; w3; w4; w5; w6; w7; w8; w9; w10; w11; w12; w13; w14; w15] =>
  let '(c1, e1) := R41 c1 d1 e1 a1 b1 w1 11 in
  let '(c2, e2) := R42 c2 d2 e2 a2 b2 w8 15 in
  let '(b1, d1) := R41 b1 c1 d1 e1 a1 w9 12 in
  let '(b2, d2) := R42 b2 c2 d2 e2 a2 w6 5 in
  let '(a1, c1) := R41 a1 b1 c1 d1 e1 w11 14 in
  let '(a2, c2) := R42 a2 b2 c2 d2 e2 w4 8 in
  let '(e1, b1) := R41 e1 a1 b1 c1 d1 w10 15 in
  let '(e2, b2) := R42 e2 a2 b2 c2 d2 w1 11 in
  let '(d1, a1) := R41 d1 e1 a1 b1 c1 w0 14 in
  let '(d2, a2) := R42 d2 e2 a2 b2 c2 w3 14 in
  let '(c1, e1) := R41 c1 d1 e1 a1 b1 w8 15 in
  let '(c2, e2) := R42 c2 d2 e2 a2 b2 w11 14 in
  let '(b1, d1) := R41 b1 c1 d1 e1 a1 w12 9 in
  let '(b2, d2) := R42 b2 c2 d2 e2 a2 w15 6 in
  let '(a1, c1) := R41 a1 b1 c1 d1 e1 w4 8 in
  let '(a2, c2) := R42 a2 b2 c2 d2 e2 w0 14 in
  let '(e1, b1) := R41 e1 a1 b1 c1 d1 w13 9 in
  let '(e2, b2) := R42 e2 a2 b2 c2 d2 w5 6 in
  let '(d1, a1) := R41 d1 e1 a1 b1 c1 w3 14 in
  let '(d2, a2) := R42 d2 e2 a2 b2 c2 w12 9 in
  let '(c1, e1) := R41 c1 d1 e1 a1 b1 w7 5 in
  let '(c2, e2) := R42 c2 d2 e2 a2 b2 w2 12 in
  let '(b1, d1) := R41 b1 c1 d1 e1 a1 w15 6 in
  let '(b2, d2) := R42 b2 c2 d2 e2 a2 w13 9 in
  let '(a1, c1) := R41 a1 b1 c1 d1 e1 w14 8 in
  let '(a2, c2) := R42 a2 b2 c2 d2 e2 w9 12 in
  let '(e1, b1) := R41 e1 a1 b1 c1 d1 w5 6 in
  let '(e2, b2) := R42 e2 a2 b2 c2 d2 w7 5 in
  let '(d1, a1) := R41 d1 e1 a1 b1 c1 w6 5 in
  let '(d2, a2) := R42 d2 e2 a2 b2 c2 w10 15 in
  let '(c1, e1) := R41 c1 d1 e1 a1 b1 w2 12 in
  let '(c2, e2) := R42 c2 d2 e2 a2 b2 w14 8 in
  ([a1; b1; c1; d1; e1], [a2; b2; c2; d2; e2])
  | _, _, _ => (s1, s2)
  end.

Definition rounds_5 (s1 s2 w : list Z) : list Z * list Z :=
  match s1, s2, w with
  | [a1; b1; c1; d1; e1], [a2; b2; c2; d2; e2], [w0; w1; w2; w3; w4; w5; w6; w7; w8; w9; w10; w11; w12; w13; w14; w15] =>
  let '(b1, d1) := R51 b1 c1 d1 e1 a1 w4 9 in
  let '(b2, d2) := R52 b2 c2 d2 e2 a2 w12 8 in
  let '(a1, c1) := R51 a1 b1 c1 d1 e1 w0 15 in
  let '(a2, c2) := R52 a2 b2 c2 d2 e2 w15 5 in
  let '(e1, b1) := R51 e1 a1 b1 c1 d1 w5 5 in
  let '(e2, b2) := R52 e2 a2 b2 c2 d2 w10 12 in
  let '(d1, a1) := R51 d1 e1 a1 b1 c1 w9 11 in
  let '(d2, a2) := R52 d2 e2 a2 b2 c2 w4 9 in
  let '(c1, e1) := R51 c1 d1 e1 a1 b1 w7 6 in
  let '(c2, e2) := R52 c2 d2 e2 a2 b2 w1 12 in
  let '(b1, d1) := R51 b1 c1 d1 e1 a1 w12 8 in
  let '(b2, d2) := R52 b2 c2 d2 e2 a2 w5 5 in
  let '(a1, c1) := R51 a1 b1 c1 d1 e1 w2 13 in
  let '(a2, c2) := R52 a2 b2 c2 d2 e2 w8 14 in
  let '(e1, b1) := R51 e1 a1 b1 c1 d1 w10 12 in
  let '(e2, b2) := R52 e2 a2 b2 c2 d2 w7 6 in
  let '(d1, a1) := R51 d1 e1 a1 b1 c1 w14 5 in
  let '(d2, a2) := R52 d2 e2 a2 b2 c2 w6 8 in
  let '(c1, e1) := R51 c1 d1 e1 a1 b1 w1 12 in
  let '(c2, e2) := R52 c2 d2 e2 a2 b2 w2 13 in
  let '(b1, d1) := R51 b1 c1 d1 e1 a1 w3 13 in
  let '(b2, d2) := R52 b2 c2 d2 e2 a2 w13 6 in
  let '(a1, c1) := R51 a1 b1 c1 d1 e1 w8 14 in
  let '(a2, c2) := R52 a2 b2 c2 d2 e2 w14 5 in
  let '(e1, b1) := R51 e1 a1 b1 c1 d1 w11 11 in
  let '(e2, b2) := R52 e2 a2 b2 c2 d2 w0 15 in
  let '(d1, a1) := R51 d1 e1 a1 b1 c1 w6 8 in
  let '(d2, a2) := R52 d2 e2 a2 b2 c2 w3 13 in
  let '(c1, e1) := R51 c1 d1 e1 a1 b1 w15 5 in
  let '(c2, e2) := R52 c2 d2 e2 a2 b2 w9 11 in
  let '(b1, d1) := R51 b1 c1 d1 e1 a1 w13 6 in
  let '(b2, d2) := R52 b2 c2 d2 e2 a2 w11 11 in
  ([a1; b1; c1; d1; e1], [a2; b2; c2; d2; e2])
  | _, _, _ => (s1, s2)
  end.

Definition block_words (chunk : list byte) : list Z :=
  [ReadLE32 (drop 0 chunk); ReadLE32 (drop 4 chunk); ReadLE32 (drop 8 chunk); ReadLE32 (drop 12 chunk);
   ReadLE32 (drop 16 chunk); ReadLE32 (drop 20 chunk); ReadLE32 (drop 24 chunk); ReadLE32 (drop 28 chunk);
   ReadLE32 (drop 32 chunk); ReadLE32 (drop 36 chunk); ReadLE32 (drop 40 chunk); ReadLE32 (drop 44 chunk);
   ReadLE32 (drop 48 chunk); ReadLE32 (drop 52 chunk); ReadLE32 (drop 56 chunk); ReadLE32 (drop 60 chunk)].

(** The five statements after the rounds. *)
Definition add_lines (s v1 v2 : list Z) : list Z :=
  match s, v1, v2 with
  | [s0; s1; s2; s3; s4], [a1; b1; c1; d1; e1], [a2; b2; c2; d2; e2] =>
      [s1 + c1 + d2; s2 + d1 + e2; s3 + e1 + a2; s4 + a1 + b2; s0 + b1 + c2]
  | _, _, _ => s
  end.

Definition Transform (s : list Z) (chunk : list byte) : list Z :=
  let w := block_words chunk in
  let '(v1, v2) := rounds_1 s s w in
  let '(v1, v2) := rounds_2 v1 v2 w in
  let '(v1, v2) := rounds_3 v1 v2 w in
  let '(v1, v2) := rounds_4 v1 v2 w in
  let '(v1, v2) := rounds_5 v1 v2 w in
  add_lines s v1 v2.

(** ** The class *)

Definition OUTPUT_SIZE : nat := 20.

Definition CRIPEMD160_new (buf : list byte) : hasher := mk_hasher Initialize buf 0.
Definition CRIPEMD160_Write : hasher -> list byte -> hasher := Write 64 Transform.
Definition CRIPEMD160_Reset (h : hasher) : hasher := mk_hasher Initialize (h_buf h) 0.

Definition CRIPEMD160_Finalize (h : hasher) : hasher * list byte :=
  let sizedesc := WriteLE64 (u64 (Z.shiftl (h_bytes h) 3)) in
  let h := CRIPEMD160_Write h (take (1 + (119 - Z.to_nat (h_bytes h mod 64)) mod 64)%nat pad) in
  let h := CRIPEMD160_Write h sizedesc in
  (h, concat (map WriteLE32 (h_s h))).

(** [CRIPEMD160().Write(m).Finalize(hash)] *)
Definition ripemd160 (m : list byte) : list byte :=
  (CRIPEMD160_Finalize (CRIPEMD160_Write (CRIPEMD160_new (repeat Byte.x00 64)) m)).2.

(** ** The published definition *)

(** Message word and rotation of every step: [r], [s] on the left line and [r'],
    [s'] on the right line. *)
Definition rmd_r : list nat :=
  [0; 1; 2; 3; 4; 5; 6; 7; 8; 9; 10; 11; 12; 13; 14; 15;
   7; 4; 13; 1; 10; 6; 15; 3; 12; 0; 9; 5; 2; 14; 11; 8;
   3; 10; 14; 4; 9; 15; 8; 1; 2; 7; 0; 6; 13; 11; 5; 12;
   1; 9; 11; 10; 0; 8; 12; 4; 13; 3; 7; 15; 14; 5; 6; 2;
   4; 0; 5; 9; 7; 12; 2; 10; 14; 1; 3; 8; 11; 6; 15; 13]%nat.
Definition rmd_s : list Z :=
  [11; 14; 15; 12; 5; 8; 7; 9; 11; 13; 14; 15; 6; 7; 9; 8;
   7; 6; 8; 13; 11; 9; 7; 15; 7; 12; 15; 9; 11; 7; 13; 12;
   11; 13; 6; 7; 14; 9; 13; 15; 14; 8; 13; 6; 5; 12; 7; 5;
   11; 12; 14; 15; 14; 15; 9; 8; 9; 14; 5; 6; 8; 6; 5; 12;
   9; 15; 5; 11; 6; 8; 13; 12; 5; 12; 13; 14; 11; 8; 5; 6].
Definition rmd_r' : list nat :=
  [5; 14; 7; 0; 9; 2; 11; 4; 13; 6; 15; 8; 1; 10; 3; 12;
   6; 11; 3; 7; 0; 13; 5; 10; 14; 15; 8; 12; 4; 9; 1; 2;
   15; 5; 1; 3; 7; 14; 6; 9; 11; 8; 12; 2; 10; 0; 4; 13;
   8; 6; 4; 1; 3; 11; 15; 0; 5; 12; 2; 13; 9; 7; 10; 14;
   12; 15; 10; 4; 1; 5; 8; 7; 6; 2; 13; 14; 0; 3; 9; 11]%nat.
Definition rmd_s' : list Z :=
  [8; 9; 9; 11; 13; 15; 15; 5; 7; 7; 8; 11; 14; 14; 12; 6;
   9; 13; 15; 7; 12; 8; 9; 11; 7; 7; 12; 7; 6; 15; 13; 11;
   9; 7; 15; 11; 8; 6; 6; 14; 12; 13; 5; 14; 13; 13; 7; 5;
   15; 5; 8; 11; 14; 14; 6; 14; 6; 9; 12; 9; 12; 5; 15; 8;
   8; 5; 12; 9; 12; 5; 14; 6; 8; 13; 6; 5; 15; 13; 11; 11].

(** Function and constant of every step. *)
Definition rmd_f : list ((Z -> Z -> Z -> Z) * Z) :=
  repeat (f1, 0) 16 ++ repeat (f2, 0x5A827999) 16 ++ repeat (f3, 0x6ED9EBA1) 16 ++
  repeat (f4, 0x8F1BBCDC) 16 ++ repeat (f5, 0xA953FD4E) 16.
Definition rmd_f' : list ((Z -> Z -> Z -> Z) * Z) :=
  repeat (f5, 0x50A28BE6) 16 ++ repeat (f4, 0x5C4DD124) 16 ++ repeat (f3, 0x6D703EF3) 16 ++
  repeat (f2, 0x7A6D76E9) 16 ++ repeat (f1, 0) 16.

Definition rmd_step : Type := ((Z -> Z -> Z -> Z) * Z) * (nat * Z).
Definition left_steps : list rmd_step := zip rmd_f (zip rmd_r rmd_s).
Definition right_steps : list rmd_step := zip rmd_f' (zip rmd_r' rmd_s').

(** [T := rol_s(j)(A + f(j, B, C, D) + X[r(j)] + K(j)) + E; A := E; E := D;
    D := rol_10(C); C := B; B := T] *)
Definition rmd_round (X : list Z) (st : list Z) (p : rmd_step) : list Z :=
  let '((f, K), (r, s)) := p in
  match st with
  | [A; B; C; D; E] =>
      let T := (rol ((A + f B C D + nth r X 0 + K)%Z mod 2 ^ 32) s + E)%Z mod 2 ^ 32 in
      [E; T; B; rol C 10; D]
  | _ => st
  end.

Definition rmd_line (X : list Z) (st : list Z) (ps : list rmd_step) : list Z :=
  fold_left (rmd_round X) ps st.

Definition rmd_combine (h v v' : list Z) : list Z :=
  match h, v, v' with
  | [h0; h1; h2; h3; h4], [A; B; C; D; E], [A'; B'; C'; D'; E'] =>
      [(h1 + C + D')%Z mod 2 ^ 32; (h2 + D + E')%Z mod 2 ^ 32; (h3 + E + A')%Z mod 2 ^ 32;
       (h4 + A + B')%Z mod 2 ^ 32; (h0 + B + C')%Z mod 2 ^ 32]
  | _, _, _ => h
  end.

Definition compress (h : list Z) (chunk : list byte) : list Z :=
  let X := map (fun i => ReadLE32 (drop (4 * i) chunk)) (seq 0 16) in
  rmd_combine h (rmd_line X h left_steps) (rmd_line X h right_steps).

(** The digest of a message shorter than [2 ^ 61] bytes. *)
Definition rmd160 (m : list byte) : list byte :=
  concat (map (fun x => le_split 4 x)
    (compress_padded 64 compress 8 Initialize m (le_split 8 (8 * Z.of_nat (length m))%Z))).

Example ripemd160_abc : ripemd160 (map byte.of_Z [0x61; 0x62; 0x63]) = map byte.of_Z
  [0x8e;0xb2;0x08;0xf7;0xe0;0x5d;0x98;0x7a;0x9b;0x04;0x4a;0x8e;0x98;0xc6;0xb0;0x87;0xf1;0x5a;0x0b;0xfc].
Proof. vm_compute. reflexivity. Qed.

(** ** The unrolled lines are the lines of the definition *)

Lemma Round_rmd X a b c d e f x k r s : nth r X 0 = x ->
  rmd_round X [a; b; c; d; e] ((f, k), (r, s))
  = let '(a', c') := Round a b c d e (f b c d) x k s in [e; a'; b; c'; d].
Proof.
  intros <-. unfold rmd_round, Round. cbv zeta beta match. rewrite !u32_fold.
  match goal with |- [_; rol ?x _ + _; _; _; _] = [_; rol ?y _ + _; _; _; _] =>
    assert (x = y) as -> by u32_ring end.
  done.
Qed.

(** The remaining code after one call of [Round], on the left or the right line. *)
Section step.
Context {A : Type} (BODY : Z -> Z -> A) (D : list Z -> A).
Context (X : list Z) (a b c d e x k r : Z) (f : Z -> Z -> Z -> Z) (i : nat) (ps : list rmd_step).

Lemma step_line : nth i X 0 = x ->
  (forall a' c', BODY a' c' = D (rmd_line X [e; a'; b; c'; d] ps)) ->
  (let '(a', c') := Round a b c d e (f b c d) x k r in BODY a' c')
  = D (rmd_line X [a; b; c; d; e] (((f, k), (i, r)) :: ps)).
Proof.
  intros Hx H. unfold rmd_line. cbn [fold_left]. rewrite (Round_rmd X a b c d e f x) by done.
  destruct (Round a b c d e (f b c d) x k r) as [a' c']. apply H.
Qed.
End step.

(** The variables after [n] steps, in the order of the code's names. *)
Definition rot (n : nat) (l : list Z) : list Z := Nat.iter n (fun l => tail l ++ take 1 l) l.

Ltac head_round :=
  lazymatch goal with
  | |- (match ?R ?a ?b ?c ?d ?e ?x ?r with (y, z) => @?B y z end) = _ =>
      let t := eval cbv beta delta [R] in (R a b c d e x r) in
      change (R a b c d e x r) with t
  end.

Ltac line_round :=
  head_round;
  lazymatch goal with
  | |- (match Round ?a ?b ?c ?d ?e (?f _ _ _) ?x ?k ?r with (y, z) => @?B y z end)
       = (rot ?n (rmd_line ?X [?a; _; _; _; _] (((?f, ?k), (?i, ?r)) :: ?ps)), ?R) =>
      refine (step_line B (fun v => (rot n v, R)) X a b c d e x k r f i ps _ _)
  | |- (match Round ?a ?b ?c ?d ?e (?f _ _ _) ?x ?k ?r with (y, z) => @?B y z end)
       = (?L, rot ?n (rmd_line ?X [?a; _; _; _; _] (((?f, ?k), (?i, ?r)) :: ?ps))) =>
      refine (step_line B (fun v => (L, rot n v)) X a b c d e x k r f i ps _ _)
  end; [reflexivity|]; cbv beta; intros ? ?.

Definition group {A} (l : list A) (i : nat) : list A := take 16 (drop (16 * i) l).

Lemma words_inv (l : list Z) : length l = 5%nat -> exists a b c d e, l = [a; b; c; d; e].
Proof. intros L. do 6 (destruct l as [|? l]; try discriminate L). by do 5 eexists. Qed.

Lemma window_inv_rmd (w : list Z) : length w = 16%nat ->
  exists w0 w1 w2 w3 w4 w5 w6 w7 w8 w9 w10 w11 w12 w13 w14 w15,
  w = [w0; w1; w2; w3; w4; w5; w6; w7; w8; w9; w10; w11; w12; w13; w14; w15].
Proof. intros L. do 17 (destruct w as [|? w]; try discriminate L). by do 16 eexists. Qed.

Ltac rounds_group H1 H2 Hw :=
  destruct (words_inv _ H1) as (?a & ?b & ?c & ?d & ?e & ->);
  destruct (words_inv _ H2) as (?a & ?b & ?c & ?d & ?e & ->);
  destruct (window_inv_rmd _ Hw) as (?w & ?w & ?w & ?w & ?w & ?w & ?w & ?w & ?w & ?w & ?w & ?w & ?w & ?w & ?w & ?w & ->);
  clear H1 H2 Hw;
  lazymatch goal with |- ?f (rot ?n ?l) (rot _ ?l') ?w = _ =>
    let x := eval compute in (rot n l) in let y := eval compute in (rot n l') in
    change (rot n l) with x; change (rot n l') with y end;
  lazymatch goal with |- ?f ?x ?y ?w = _ =>
    let t := eval cbv beta match delta [f] in (f x y w) in change (f x y w) with t end;
  lazymatch goal with |- context [group left_steps ?i] =>
    let l := eval cbv [group left_steps rmd_f rmd_r rmd_s zip zip_with repeat app take drop Nat.mul Nat.add]
      in (group left_steps i) in change (group left_steps i) with l;
    let r := eval cbv [group right_steps rmd_f' rmd_r' rmd_s' zip zip_with repeat app take drop Nat.mul Nat.add]
      in (group right_steps i) in change (group right_steps i) with r end;
  do 32 line_round; reflexivity.

Section groups.
Context (v1 v2 X : list Z).
Hypotheses (H1 : length v1 = 5%nat) (H2 : length v2 = 5%nat) (HX : length X = 16%nat).

Lemma rounds_1_spec : rounds_1 (rot 0 v1) (rot 0 v2) X
  = (rot 1 (rmd_line X v1 (group left_steps 0)), rot 1 (rmd_line X v2 (group right_steps 0))).
Proof. rounds_group H1 H2 HX. Qed.

Lemma rounds_2_spec : rounds_2 (rot 1 v1) (rot 1 v2) X
  = (rot 2 (rmd_line X v1 (group left_steps 1)), rot 2 (rmd_line X v2 (group right_steps 1))).
Proof. rounds_group H1 H2 HX. Qed.

Lemma rounds_3_spec : rounds_3 (rot 2 v1) (rot 2 v2) X
  = (rot 3 (rmd_line X v1 (group left_steps 2)), rot 3 (rmd_line X v2 (group right_steps 2))).
Proof. rounds_group H1 H2 HX. Qed.

Lemma rounds_4_spec : rounds_4 (rot 3 v1) (rot 3 v2) X
  = (rot 4 (rmd_line X v1 (group left_steps 3)), rot 4 (rmd_line X v2 (group right_steps 3))).
Proof. rounds_group H1 H2 HX. Qed.

Lemma rounds_5_spec : rounds_5 (rot 4 v1) (rot 4 v2) X
  = (rot 5 (rmd_line X v1 (group left_steps 4)), rot 5 (rmd_line X v2 (group right_steps 4))).
Proof. rounds_group H1 H2 HX. Qed.
End groups.

Lemma rmd_line_length X st ps : length st = 5%nat -> length (rmd_line X st ps) = 5%nat.
Proof.
  revert st. induction ps as [|[[f K] [r s]] ps IH]; intros st H; [done|].
  destruct (words_inv _ H) as (?&?&?&?&?&->). by apply IH.
Qed.

Lemma rmd_line_app X st ps qs : rmd_line X st (ps ++ qs) = rmd_line X (rmd_line X st ps) qs.
Proof. apply fold_left_app. Qed.

Lemma steps_groups {A} (l : list A) : length l = 80%nat ->
  l = group l 0 ++ group l 1 ++ group l 2 ++ group l 3 ++ group l 4.
Proof.
  intros H. unfold group. change (16 * 0)%nat with 0%nat. rewrite drop_0.
  rewrite <- (take_drop 16 l) at 1. f_equal.
  rewrite <- (take_drop 16 (drop 16 l)) at 1. rewrite drop_drop. f_equal.
  rewrite <- (take_drop 16 (drop 32 l)) at 1. rewrite drop_drop. f_equal.
  rewrite <- (take_drop 16 (drop 48 l)) at 1. rewrite drop_drop. f_equal.
  rewrite firstn_all2; [done|]. rewrite length_drop. simpl. lia.
Qed.

Lemma add_lines_combine s v v' : length s = 5%nat -> length v = 5%nat -> length v' = 5%nat ->
  add_lines s (rot 5 v) (rot 5 v') = rmd_combine s v v'.
Proof.
  intros H1 H2 H3. destruct (words_inv _ H1) as (?&?&?&?&?&->).
  destruct (words_inv _ H2) as (?&?&?&?&?&->). destruct (words_inv _ H3) as (?&?&?&?&?&->).
  cbn [rot Nat.iter tail take app add_lines rmd_combine].
  do 4 (f_equal; [u32_ring|]). f_equal. u32_ring.
Qed.

Lemma Transform_compress_rmd st chunk : length st = 5%nat -> Transform st chunk = compress st chunk.
Proof.
  intros H. unfold Transform, compress.
  change (map _ (seq 0 16)) with (block_words chunk).
  assert (HX : length (block_words chunk) = 16%nat) by done.
  generalize dependent (block_words chunk). intros X HX.
  rewrite (steps_groups left_steps), (steps_groups right_steps), !rmd_line_app by done. cbv zeta.
  pose proof (rounds_1_spec st st X H H HX) as E1. change (rot 0 st) with st in E1. rewrite E1.
  clear E1. set (l1 := rmd_line X st (group left_steps 0)).
  set (r1 := rmd_line X st (group right_steps 0)).
  assert (L1 : length l1 = 5%nat) by by apply rmd_line_length.
  assert (R1 : length r1 = 5%nat) by by apply rmd_line_length.
  clearbody l1 r1.
  rewrite rounds_2_spec, rounds_3_spec, rounds_4_spec, rounds_5_spec
    by (try done; repeat apply rmd_line_length; done).
  apply add_lines_combine; [done|repeat apply rmd_line_length; done..].
Qed.

Lemma compress_length st chunk : length st = 5%nat -> length (compress st chunk) = 5%nat.
Proof.
  intros H. unfold compress.
  set (X := map _ _).
  destruct (words_inv _ (rmd_line_length X st left_steps H)) as (?&?&?&?&?&->).
  destruct (words_inv _ (rmd_line_length X st right_steps H)) as (?&?&?&?&?&->).
  by destruct (words_inv _ H) as (?&?&?&?&?&->).
Qed.

(** The code's compression function and the standard's give the same iteration. *)
Lemma fold_Transform_rmd l st : length st = 5%nat -> fold_left Transform l st = fold_left compress l st.
Proof.
  revert st. induction l as [|x l IH]; intros st H; simpl; [done|].
  rewrite Transform_compress_rmd by done. by apply IH, compress_length.
Qed.

Lemma fold_compress_length l st : length st = 5%nat -> length (fold_left compress l st) = 5%nat.
Proof. revert st. induction l; intros st H; simpl; [done|]. by apply IHl, compress_length. Qed.

(** The hasher after any writes holds their concatenation. *)
Definition ripemd160_holds : list byte -> hasher -> Prop := holds 64 Transform Initialize.

Lemma CRIPEMD160_new_holds buf : length buf = 64%nat -> ripemd160_holds [] (CRIPEMD160_new buf).
Proof. apply holds_init. Qed.

Lemma CRIPEMD160_Reset_holds m h : ripemd160_holds m h -> ripemd160_holds [] (CRIPEMD160_Reset h).
Proof. intros (_ & Hb & _). by apply holds_init. Qed.

Lemma CRIPEMD160_Write_holds m h d : ripemd160_holds m h -> ripemd160_holds (m ++ d) (CRIPEMD160_Write h d).
Proof. apply Write_holds; [lia|apply divide_64]. Qed.

Lemma CRIPEMD160_Writes_holds ds m h :
  ripemd160_holds m h -> ripemd160_holds (m ++ concat ds) (fold_left CRIPEMD160_Write ds h).
Proof.
  revert m h. induction ds as [|d ds IH]; intros m h H; simpl; [by rewrite app_nil_r|].
  rewrite app_assoc. by apply IH, CRIPEMD160_Write_holds.
Qed.

(** The digest of the bytes written; the length field is the 64-bit counter of
    bits, so that this is the standard's digest below [2 ^ 61] bytes. *)
Definition digest (m : list byte) : list byte :=
  concat (map WriteLE32 (compress_padded 64 compress 8 Initialize m
    (WriteLE64 (u64 (Z.shiftl (u64 (Z.of_nat (length m))) 3))))).

Lemma CRIPEMD160_Finalize_digest m h : ripemd160_holds m h -> (CRIPEMD160_Finalize h).2 = digest m.
Proof.
  intros H. pose proof H as (Hn & _). unfold CRIPEMD160_Finalize, digest. cbn [snd].
  rewrite (pad_padding _ _ m h H), Hn. unfold CRIPEMD160_Write.
  rewrite (Finalize_holds 64 Transform) with (lenlen := 8%nat) (s0 := Initialize)
    by first [lia | apply divide_64 | done].
  unfold compress_padded. cbv zeta. by rewrite fold_Transform_rmd by done.
Qed.

Lemma digest_fips_rmd m : Z.of_nat (length m) < 2 ^ 61 -> digest m = rmd160 m.
Proof.
  intros Hm. unfold digest, rmd160, WriteLE64, WriteLE32. do 3 f_equal.
  unfold u64. rewrite (Z.mod_small (Z.of_nat _)), Z.shiftl_mul_pow2, Z.mod_small by lia.
  by rewrite Z.mul_comm.
Qed.

Lemma digest_length_rmd m : length (digest m) = 20%nat.
Proof.
  unfold digest, compress_padded. cbv zeta. set (l := blocks_of _ _ _).
  pose proof (fold_compress_length l Initialize eq_refl) as H.
  destruct (words_inv _ H) as (?&?&?&?&?&->). done.
Qed.

Lemma ripemd160_digest m : ripemd160 m = digest m.
Proof.
  unfold ripemd160. apply CRIPEMD160_Finalize_digest. apply (CRIPEMD160_Write_holds []), CRIPEMD160_new_holds.
  reflexivity.
Qed.

Lemma CRIPEMD160_Finalize_ripemd160 m h : ripemd160_holds m h -> (CRIPEMD160_Finalize h).2 = ripemd160 m.
Proof. intros H. by rewrite ripemd160_digest, CRIPEMD160_Finalize_digest with (m := m). Qed.

Lemma ripemd160_length m : length (ripemd160 m) = 20%nat.
Proof. by rewrite ripemd160_digest, digest_length_rmd. Qed.

(** What [Finalize] leaves behind still is a hasher: [Reset] makes it fresh. *)
Lemma CRIPEMD160_Finalize_Reset m h : ripemd160_holds m h ->
  ripemd160_holds [] (CRIPEMD160_Reset (CRIPEMD160_Finalize h).1).
Proof.
  intros H. unfold CRIPEMD160_Finalize. cbn [fst].
  eapply CRIPEMD160_Reset_holds, CRIPEMD160_Write_holds, CRIPEMD160_Write_holds, H.
Qed.

(** The hasher computes RIPEMD-160 as published. Whatever the content of
    the uninitialised buffer and however the message is cut into calls of [Write],
    [Finalize] returns the 20-byte digest of the padded message under the published
    two-line compression function, which the unrolled [Transform] implements. *)
Theorem ripemd160_streaming (buf : list byte) (ds : list (list byte))
    (Hbuf : length buf = 64%nat) (Hlen : Z.of_nat (length (concat ds)) < 2 ^ 61) :
  (CRIPEMD160_Finalize (fold_left CRIPEMD160_Write ds (CRIPEMD160_new buf))).2
    = rmd160 (concat ds) /\
  length (rmd160 (concat ds)) = OUTPUT_SIZE.
Proof.
  rewrite <- digest_fips_rmd by done. split; [|apply digest_length_rmd]. apply CRIPEMD160_Finalize_digest.
  by apply (CRIPEMD160_Writes_holds ds []), CRIPEMD160_new_holds.
Qed.

Lemma ripemd160_streaming_witness :
  let ds := [map byte.of_Z [0x61]; []; map byte.of_Z [0x62; 0x63]] in
  (CRIPEMD160_Finalize (fold_left CRIPEMD160_Write ds (CRIPEMD160_new (repeat Byte.xff 64)))).2
  = rmd160 (map byte.of_Z [0x61; 0x62; 0x63]).
Proof.
  intros ds. apply (ripemd160_streaming (repeat Byte.xff 64) ds); [reflexivity|].
  vm_compute. reflexivity.
Defined.
