(* ===== verification/Hash.v ===== *)
(** * Hashing ([hash.h], [hash.cpp], [uint256.cpp])

    [CHash256] (SHA-256 twice) and [CHash160] (RIPEMD-160 of SHA-256) over the
    hashers, the [Hash], [Hash160] and [SerializeHash] functions, [MurmurHash3], the
    salted [uint256::GetHash], and the object representation of [base_uint] through
    which digests become integers. *)

From Stdlib Require Import ZArith Lia List Bool.
From stdpp Require Import base list.
From coqutil Require Import Byte Word.LittleEndianList.
From S2P Require Import Prelude Uint256 Serialize MerkleDamgard.
From S2P Require Sha256 Sha1 Ripemd160.

Open Scope Z_scope.
Open Scope btc_scope.

(** ** Digests as integers *)

(** The object representation of [uint32_t pn[WIDTH]]. *)
Definition uint_bytes (pn : base_uint) : list byte := concat (map (le_split 4) pn).
Definition bytes_uint (WIDTH : nat) (b : list byte) : base_uint :=
  map (fun i => le_combine (take 4 (drop (4 * i) b))) (seq 0 WIDTH).

(** [base_uint::Serialize], [Unserialize], [GetSerializeSize] *)
Definition Unserialize_uint (WIDTH : nat) : reader base_uint := fun s =>
  let* (b, s) := read_bytes (4 * WIDTH) s in Ret (bytes_uint WIDTH b, s).

(** [explicit base_uint(const std::vector<unsigned char>& vch)] *)
Definition base_uint_vch (WIDTH : nat) (vch : list byte) : result uint_error base_uint :=
  if negb (length vch =? 4 * WIDTH)%nat then Err WrongSize else Ret (bytes_uint WIDTH vch).

(** ** [CHash256], [CHash160] *)

Definition CHash256_new : hasher := Sha256.CSHA256_new (repeat Byte.x00 64).
Definition CHash256_Write (h : hasher) (data : list byte) : hasher := Sha256.CSHA256_Write h data.
Definition CHash256_Reset (h : hasher) : hasher := Sha256.CSHA256_Reset h.
Definition CHash256_Finalize (sha : hasher) : hasher * list byte :=
  let '(sha, buf) := Sha256.CSHA256_Finalize sha in
  Sha256.CSHA256_Finalize (Sha256.CSHA256_Write (Sha256.CSHA256_Reset sha) buf).

Definition CHash160_Finalize (sha : hasher) : hasher * list byte :=
  let '(sha, buf) := Sha256.CSHA256_Finalize sha in
  (sha, (Ripemd160.CRIPEMD160_Finalize
    (Ripemd160.CRIPEMD160_Write (Ripemd160.CRIPEMD160_new (repeat Byte.x00 64)) buf)).2).

(** ** [Hash], [Hash160] *)

(** The overloads of [Hash] for one to six ranges: one [Write] per range. *)
Definition Hash (parts : list (list byte)) : base_uint :=
  bytes_uint 8 (CHash256_Finalize (fold_left CHash256_Write parts CHash256_new)).2.
Definition Hash160 (vch : list byte) : base_uint :=
  bytes_uint 5 (CHash160_Finalize (CHash256_Write CHash256_new vch)).2.

(** [CHashWriter]: every [write] goes to the hasher. *)
Definition CHashWriter_GetHash (writes : list (list byte)) : base_uint := Hash writes.
Definition SerializeHash {A} `{Serializer A} (obj : A) : base_uint :=
  CHashWriter_GetHash [Serialize obj].

(** ** [MurmurHash3] *)

Definition ROTL32 (x r : Z) : Z := Z.lor (u32 (Z.shiftl x r)) (Z.shiftr x (32 - r)).

Definition murmur_c1 : Z := 0xcc9e2d51.
Definition murmur_c2 : Z := 0x1b873593.

Definition murmur_block (h1 k1 : Z) : Z :=
  let k1 := u32 (k1 * murmur_c1) in
  let k1 := ROTL32 k1 15 in
  let k1 := u32 (k1 * murmur_c2) in
  let h1 := Z.lxor h1 k1 in
  let h1 := ROTL32 h1 13 in
  u32 (h1 * 5 + 0xe6546b64).

(** The fall-through [switch (vDataToHash.size() & 3)]. *)
Definition murmur_tail (h1 : Z) (tail : list byte) : Z :=
  let byte i := byte.unsigned (nth i tail Byte.x00) in
  let n := length tail in
  let k1 := if (3 <=? n)%nat then Z.shiftl (byte 2%nat) 16 else 0 in
  let k1 := if (2 <=? n)%nat then Z.lxor k1 (Z.shiftl (byte 1%nat) 8) else k1 in
  if (1 <=? n)%nat then
    let k1 := Z.lxor k1 (byte 0%nat) in
    let k1 := u32 (k1 * murmur_c1) in
    let k1 := ROTL32 k1 15 in
    let k1 := u32 (k1 * murmur_c2) in
    Z.lxor h1 k1
  else h1.

Definition murmur_finalize (h1 : Z) (size : nat) : Z :=
  let h1 := u32 (Z.lxor h1 (Z.of_nat size)) in
  let h1 := Z.lxor h1 (Z.shiftr h1 16) in
  let h1 := u32 (h1 * 0x85ebca6b) in
  let h1 := Z.lxor h1 (Z.shiftr h1 13) in
  let h1 := u32 (h1 * 0xc2b2ae35) in
  Z.lxor h1 (Z.shiftr h1 16).

Definition MurmurHash3 (nHashSeed : Z) (vDataToHash : list byte) : Z :=
  let nblocks := (length vDataToHash / 4)%nat in
  let blocks := map (fun i => le_combine (take 4 (drop (4 * i) vDataToHash))) (seq 0 nblocks) in
  let h1 := fold_left murmur_block blocks nHashSeed in
  let h1 := murmur_tail h1 (drop (4 * nblocks) vDataToHash) in
  murmur_finalize h1 (length vDataToHash).

(** ** [uint256::GetHash], lookup3 *)

Section lookup3.
Open Scope w32_scope.

Definition HashMix (abc : Z * Z * Z) : Z * Z * Z :=
  let '(a, b, c) := abc in
  let a := a - c in let a := Z.lxor a (Z.lor (c << 4) (c >> 28)) in let c := c + b in
  let b := b - a in let b := Z.lxor b (Z.lor (a << 6) (a >> 26)) in let a := a + c in
  let c := c - b in let c := Z.lxor c (Z.lor (b << 8) (b >> 24)) in let b := b + a in
  let a := a - c in let a := Z.lxor a (Z.lor (c << 16) (c >> 16)) in let c := c + b in
  let b := b - a in let b := Z.lxor b (Z.lor (a << 19) (a >> 13)) in let a := a + c in
  let c := c - b in let c := Z.lxor c (Z.lor (b << 4) (b >> 28)) in let b := b + a in
  (a, b, c).

Definition HashFinal (abc : Z * Z * Z) : Z * Z * Z :=
  let '(a, b, c) := abc in
  let c := Z.lxor c b in let c := c - Z.lor (b << 14) (b >> 18) in
  let a := Z.lxor a c in let a := a - Z.lor (c << 11) (c >> 21) in
  let b := Z.lxor b a in let b := b - Z.lor (a << 25) (a >> 7) in
  let c := Z.lxor c b in let c := c - Z.lor (b << 16) (b >> 16) in
  let a := Z.lxor a c in let a := a - Z.lor (c << 4) (c >> 28) in
  let b := Z.lxor b a in let b := b - Z.lor (a << 14) (a >> 18) in
  let c := Z.lxor c b in let c := c - Z.lor (b << 24) (b >> 8) in
  (a, b, c).

Definition GetHash (pn salt : base_uint) : Z :=
  let init := u32 (Z.add 0xdeadbeef (Z.shiftl 8 2)) in
  let x i := Z.lxor (limb pn i) (limb salt i) in
  let '(a, b, c) := (init + x 0%nat, init + x 1%nat, init + x 2%nat) in
  let '(a, b, c) := HashMix (a, b, c) in
  let '(a, b, c) := HashMix (a + x 3%nat, b + x 4%nat, c + x 5%nat) in
  let '(a, b, c) := HashFinal (a + x 6%nat, b + x 7%nat, c) in
  Z.lor (Z.shiftl b 32) c.
End lookup3.

(** The vectors of [test/hash_tests.cpp]. *)
Example murmur_tests :
  MurmurHash3 0 [] = 0 /\
  MurmurHash3 0xFBA4C795 [] = 0x6a396f08 /\
  MurmurHash3 0xffffffff [] = 0x81f16f39 /\
  map (fun n => MurmurHash3 0 (map byte.of_Z (take n [0; 17; 34; 51; 68; 85; 102; 119; 136])))
      [1; 2; 3; 4; 5; 6; 7; 8; 9]%nat
  = [0x514e28b7; 0x16c6b7ab; 0x8eb51c3d; 0xb4471bf8; 0xe2301fa8; 0xfc2e4a15; 0xb074502c;
     0x8034d2a0; 0xb4698def] /\
  MurmurHash3 0xFBA4C795 [Byte.x00] = 0xea3f0b17 /\ MurmurHash3 0 [Byte.xff] = 0xfd6cf10d.
Proof. repeat split; vm_compute; reflexivity. Qed.

(** ** The object representation *)

Lemma uint_bytes_length pn : length (uint_bytes pn) = (4 * length pn)%nat.
Proof.
  unfold uint_bytes. induction pn as [|x pn IH]; [done|]. cbn [map concat].
  rewrite length_app, IH, length_le_split. simpl. lia.
Qed.

Lemma bytes_uint_length n b : length (bytes_uint n b) = n.
Proof. unfold bytes_uint. by rewrite length_map, length_seq. Qed.

Lemma bytes_uint_S n b :
  bytes_uint (S n) b = le_combine (take 4 b) :: bytes_uint n (drop 4 b).
Proof.
  unfold bytes_uint. cbn [seq map]. rewrite Nat.mul_0_r, drop_0. f_equal.
  rewrite <- seq_shift, map_map. apply map_ext. intros i. rewrite drop_drop.
  do 3 f_equal. lia.
Qed.

Lemma bytes_uint_wf n b : (4 * n <= length b)%nat -> wf n (bytes_uint n b).
Proof.
  split; [apply bytes_uint_length|]. unfold bytes_uint. apply List.Forall_map, Forall_true.
  intros i. pose proof (le_combine_bound (take 4 (drop (4 * i) b))).
  unfold in_u32. split; [lia|]. eapply Z.lt_le_trans; [apply H0|].
  apply Z.pow_le_mono_r; [lia|]. rewrite length_take. lia.
Qed.

Lemma bytes_uint_bytes n pn : wf n pn -> bytes_uint n (uint_bytes pn) = pn.
Proof.
  intros [<- H]. induction H as [|x pn Hx H IH]; [done|].
  cbn [length]. rewrite bytes_uint_S. unfold uint_bytes. cbn [map concat].
  assert (length (le_split 4 x) = 4%nat) as L by apply length_le_split.
  rewrite take_app_length', drop_app_length' by done.
  f_equal; [|exact IH]. rewrite le_combine_split, Z.mod_small; [done|exact Hx].
Qed.

Lemma uint_bytes_uint n b : length b = (4 * n)%nat -> uint_bytes (bytes_uint n b) = b.
Proof.
  revert b. induction n as [|n IH]; intros b H; [by destruct b|].
  rewrite bytes_uint_S. unfold uint_bytes. cbn [map concat].
  change (concat (map (le_split 4) ?x)) with (uint_bytes x).
  rewrite IH by (rewrite length_drop; lia).
  assert (length (take 4 b) = 4%nat) as L by (rewrite length_take; lia).
  rewrite <- L at 1. rewrite split_le_combine. apply take_drop.
Qed.

Lemma Unserialize_uint_app n pn rest : wf n pn ->
  Unserialize_uint n (uint_bytes pn ++ rest) = Ret (pn, rest).
Proof.
  intros H. unfold Unserialize_uint.
  rewrite read_bytes_app by (rewrite uint_bytes_length; destruct H; lia). simpl.
  by rewrite bytes_uint_bytes.
Qed.

(** ** The hash functions *)

Lemma CHash256_new_holds : Sha256.sha256_holds [] CHash256_new.
Proof. by apply Sha256.CSHA256_new_holds. Qed.

Lemma CHash256_Finalize_spec m h : Sha256.sha256_holds m h ->
  (CHash256_Finalize h).2 = Sha256.sha256 (Sha256.sha256 m).
Proof.
  intros H. unfold CHash256_Finalize.
  pose proof (Sha256.CSHA256_Finalize_sha256 _ _ H) as E.
  pose proof (Sha256.CSHA256_Finalize_Reset _ _ H) as R.
  destruct (Sha256.CSHA256_Finalize h) as [h' buf]. cbn [fst snd] in *. subst buf.
  apply Sha256.CSHA256_Finalize_sha256. by apply (Sha256.CSHA256_Write_holds []).
Qed.

Lemma CHash160_Finalize_spec m h : Sha256.sha256_holds m h ->
  (CHash160_Finalize h).2 = Ripemd160.ripemd160 (Sha256.sha256 m).
Proof.
  intros H. unfold CHash160_Finalize.
  pose proof (Sha256.CSHA256_Finalize_sha256 _ _ H) as E.
  destruct (Sha256.CSHA256_Finalize h) as [h' buf]. cbn [fst snd] in *. subst buf.
  apply Ripemd160.CRIPEMD160_Finalize_ripemd160. by apply (Ripemd160.CRIPEMD160_Write_holds []), Ripemd160.CRIPEMD160_new_holds.
Qed.

Lemma Hash_spec parts :
  Hash parts = bytes_uint 8 (Sha256.sha256 (Sha256.sha256 (concat parts))).
Proof.
  unfold Hash. rewrite (CHash256_Finalize_spec (concat parts)); [exact eq_refl|].
  apply (Sha256.CSHA256_Writes_holds parts []), CHash256_new_holds.
Qed.

Lemma Hash_wf parts : wf 8 (Hash parts).
Proof. rewrite Hash_spec. apply bytes_uint_wf. rewrite Sha256.sha256_length. lia. Qed.

(** How the input is cut into ranges does not matter. *)
Lemma Hash_concat parts parts' : concat parts = concat parts' -> Hash parts = Hash parts'.
Proof. intros E. by rewrite !Hash_spec, E. Qed.

Lemma Hash160_spec vch :
  Hash160 vch = bytes_uint 5 (Ripemd160.ripemd160 (Sha256.sha256 vch)).
Proof.
  unfold Hash160. rewrite (CHash160_Finalize_spec vch); [exact eq_refl|].
  apply (Sha256.CSHA256_Write_holds []), CHash256_new_holds.
Qed.

Lemma Hash160_wf vch : wf 5 (Hash160 vch).
Proof. rewrite Hash160_spec. apply bytes_uint_wf. rewrite Ripemd160.ripemd160_length. lia. Qed.

(** The digest read back as bytes: [ToByteVector(Hash160(...))]. *)
Lemma Hash160_bytes vch : uint_bytes (Hash160 vch) = Ripemd160.ripemd160 (Sha256.sha256 vch).
Proof. rewrite Hash160_spec. apply uint_bytes_uint, Ripemd160.ripemd160_length. Qed.
