(* ===== verification/Text.v ===== *)
(** * Text encodings ([utilstrencodings.h], [utilstrencodings.cpp], [uint256.cpp])

    Hexadecimal, base 64 and base 32.  Strings are lists of bytes; a C string ends before its
    first NUL. *)

From Stdlib Require Import ZArith Lia List Bool String.
From stdpp Require Import base option list.
From coqutil Require Import Byte Word.LittleEndianList.
From S2P Require Import Prelude Uint256 Serialize MerkleDamgard Hash.

Open Scope Z_scope.
Open Scope btc_scope.

(** The bytes of a literal. *)
Definition text (s : string) : list byte := list_byte_of_string s.

(** [str.c_str()], read up to its end. *)
Fixpoint c_str (s : list byte) : list byte :=
  match s with [] => [] | b :: s => if byte.unsigned b =? 0 then [] else b :: c_str s end.

(** [isspace] in the C locale. *)
Definition isspace (c : byte) : bool := let c := byte.unsigned c in (c =? 32) || ((9 <=? c) && (c <=? 13)).

Definition char_at (table : list Z) (c : byte) : Z := nth (Z.to_nat (byte.unsigned c)) table (-1).

(** ** Hexadecimal *)

Definition p_util_hexdigit : list Z :=
  [ -1; -1; -1; -1; -1; -1; -1; -1; -1; -1; -1; -1; -1; -1; -1; -1; -1; -1; -1; -1; -1; -1; -1; -1; -1; -1; -1; -1; -1; -1; -1; -1;
    -1; -1; -1; -1; -1; -1; -1; -1; -1; -1; -1; -1; -1; -1; -1; -1; 0; 1; 2; 3; 4; 5; 6; 7; 8; 9; -1; -1; -1; -1; -1; -1;
    -1; 10; 11; 12; 13; 14; 15; -1; -1; -1; -1; -1; -1; -1; -1; -1; -1; -1; -1; -1; -1; -1; -1; -1; -1; -1; -1; -1; -1; -1; -1; -1;
    -1; 10; 11; 12; 13; 14; 15; -1; -1; -1; -1; -1; -1; -1; -1; -1; -1; -1; -1; -1; -1; -1; -1; -1; -1; -1; -1; -1; -1; -1; -1; -1;
    -1; -1; -1; -1; -1; -1; -1; -1; -1; -1; -1; -1; -1; -1; -1; -1; -1; -1; -1; -1; -1; -1; -1; -1; -1; -1; -1; -1; -1; -1; -1; -1;
    -1; -1; -1; -1; -1; -1; -1; -1; -1; -1; -1; -1; -1; -1; -1; -1; -1; -1; -1; -1; -1; -1; -1; -1; -1; -1; -1; -1; -1; -1; -1; -1;
    -1; -1; -1; -1; -1; -1; -1; -1; -1; -1; -1; -1; -1; -1; -1; -1; -1; -1; -1; -1; -1; -1; -1; -1; -1; -1; -1; -1; -1; -1; -1; -1;
    -1; -1; -1; -1; -1; -1; -1; -1; -1; -1; -1; -1; -1; -1; -1; -1; -1; -1; -1; -1; -1; -1; -1; -1; -1; -1; -1; -1; -1; -1; -1; -1 ].

Definition HexDigit (c : byte) : Z := char_at p_util_hexdigit c.

Definition IsHex (str : list byte) : bool :=
  forallb (fun c => 0 <=? HexDigit c) str && (0 <? length str)%nat && Nat.even (length str).

Fixpoint skip_spaces (psz : list byte) : list byte :=
  match psz with c :: rest => if isspace c then skip_spaces rest else psz | [] => [] end.

(** The end of a C string is a NUL, which is no digit. *)
Fixpoint ParseHex_loop (fuel : nat) (psz : list byte) (vch : list byte) : list byte :=
  match fuel with
  | O => vch
  | S fuel =>
      match skip_spaces psz with
      | a :: b :: psz =>
          if (HexDigit a =? -1) || (HexDigit b =? -1) then vch
          else ParseHex_loop fuel psz (vch ++ [byte.of_Z (Z.lor (u8 (Z.shiftl (HexDigit a) 4)) (HexDigit b))])
      | _ => vch
      end
  end.
Definition ParseHex (str : list byte) : list byte := ParseHex_loop (S (length str)) (c_str str) [].

Definition hexmap : list byte := text "0123456789abcdef".
Definition hex_char (n : Z) : byte := nth (Z.to_nat n) hexmap Byte.x00.

Fixpoint HexStr_loop (v : list byte) (fSpaces first : bool) : list byte :=
  match v with
  | [] => []
  | b :: v =>
      let val := byte.unsigned b in
      (if fSpaces && negb first then [Byte.x20] else []) ++ hex_char (Z.shiftr val 4) :: hex_char (Z.land val 15) :: HexStr_loop v fSpaces false
  end.
Definition HexStr (v : list byte) (fSpaces : bool) : list byte := HexStr_loop v fSpaces true.

(** [base_uint::GetHex], [ToString] and [SetHex]. *)
Definition GetHex (pn : base_uint) : list byte := HexStr (rev (uint_bytes pn)) false.

Definition skip_0x (psz : list byte) : list byte :=
  match psz with
  | a :: b :: rest => if (byte.unsigned a =? 48) && ((byte.unsigned b =? 120) || (byte.unsigned b =? 88)) then rest else psz
  | _ => psz
  end.

Fixpoint hex_digits (psz : list byte) : list Z :=
  match psz with
  | c :: psz => if HexDigit c =? -1 then [] else HexDigit c :: hex_digits psz
  | [] => []
  end.

(** The digits from the last one back, two to a byte, up to the width. *)
Fixpoint set_digits (bytes : nat) (digits : list Z) : list byte :=
  match bytes, digits with
  | O, _ => []
  | S n, [] => Byte.x00 :: set_digits n []
  | S n, [d] => byte.of_Z d :: set_digits n []
  | S n, d :: e :: digits => byte.of_Z (Z.lor d (u8 (Z.shiftl e 4))) :: set_digits n digits
  end.
Definition SetHex (WIDTH : nat) (str : list byte) : base_uint :=
  bytes_uint WIDTH (set_digits (4 * WIDTH) (rev (hex_digits (skip_0x (skip_spaces (c_str str)))))).

Definition uint256_hex (s : string) : base_uint := SetHex 8 (text s).

Fixpoint pairs_of (s : list byte) : list (list byte) :=
  match s with a :: b :: s => [a; b] :: pairs_of s | _ => [] end.
(** [substr] throws on an odd length. *)
Definition ReverseEndianString (s : list byte) : option (list byte) :=
  if Nat.even (length s) then Some (List.concat (rev (pairs_of s))) else None.

(** ** Base 64 *)

Definition pbase64 : list byte := text "ABCDEFGHIJKLMNOPQRSTUVWXYZabcdefghijklmnopqrstuvwxyz0123456789+/".
Definition base64_char (n : Z) : byte := nth (Z.to_nat n) pbase64 Byte.x00.

(** The [switch]: the characters, the next mode, the bits left. *)
Definition encode64_step (mode bits enc : Z) : list byte * Z * Z :=
  if mode =? 0 then ([base64_char (Z.shiftr enc 2)], 1, Z.shiftl (Z.land enc 3) 4)
  else if mode =? 1 then ([base64_char (Z.lor bits (Z.shiftr enc 4))], 2, Z.shiftl (Z.land enc 15) 2)
  else ([base64_char (Z.lor bits (Z.shiftr enc 6)); base64_char (Z.land enc 63)], 0, bits).

Fixpoint EncodeBase64_loop (v : list byte) (mode bits : Z) : list byte * Z * Z :=
  match v with
  | [] => ([], mode, bits)
  | b :: v =>
      let '(out, mode, bits) := encode64_step mode bits (byte.unsigned b) in
      let '(rest, mode, bits) := EncodeBase64_loop v mode bits in
      (out ++ rest, mode, bits)
  end.

Definition PAD : byte := Byte.x3d.
Definition EncodeBase64 (v : list byte) : list byte :=
  let '(strRet, mode, bits) := EncodeBase64_loop v 0 0 in
  if mode =? 0 then strRet
  else strRet ++ [base64_char bits; PAD] ++ (if mode =? 1 then [PAD] else []).

Definition decode64_table : list Z :=
  [ -1; -1; -1; -1; -1; -1; -1; -1; -1; -1; -1; -1; -1; -1; -1; -1; -1; -1; -1; -1; -1; -1; -1; -1; -1; -1; -1; -1; -1; -1; -1; -1;
    -1; -1; -1; -1; -1; -1; -1; -1; -1; -1; -1; 62; -1; -1; -1; 63; 52; 53; 54; 55; 56; 57; 58; 59; 60; 61; -1; -1; -1; -1; -1; -1;
    -1; 0; 1; 2; 3; 4; 5; 6; 7; 8; 9; 10; 11; 12; 13; 14; 15; 16; 17; 18; 19; 20; 21; 22; 23; 24; 25; -1; -1; -1; -1; -1;
    -1; 26; 27; 28; 29; 30; 31; 32; 33; 34; 35; 36; 37; 38; 39; 40; 41; 42; 43; 44; 45; 46; 47; 48; 49; 50; 51; -1; -1; -1; -1; -1;
    -1; -1; -1; -1; -1; -1; -1; -1; -1; -1; -1; -1; -1; -1; -1; -1; -1; -1; -1; -1; -1; -1; -1; -1; -1; -1; -1; -1; -1; -1; -1; -1;
    -1; -1; -1; -1; -1; -1; -1; -1; -1; -1; -1; -1; -1; -1; -1; -1; -1; -1; -1; -1; -1; -1; -1; -1; -1; -1; -1; -1; -1; -1; -1; -1;
    -1; -1; -1; -1; -1; -1; -1; -1; -1; -1; -1; -1; -1; -1; -1; -1; -1; -1; -1; -1; -1; -1; -1; -1; -1; -1; -1; -1; -1; -1; -1; -1;
    -1; -1; -1; -1; -1; -1; -1; -1; -1; -1; -1; -1; -1; -1; -1; -1; -1; -1; -1; -1; -1; -1; -1; -1; -1; -1; -1; -1; -1; -1; -1; -1 ].

Definition decode64_step (mode bits dec : Z) : list byte * Z * Z :=
  if mode =? 0 then ([], 1, dec)
  else if mode =? 1 then ([byte.of_Z (u8 (Z.lor (Z.shiftl bits 2) (Z.shiftr dec 4)))], 2, Z.land dec 15)
  else if mode =? 2 then ([byte.of_Z (u8 (Z.lor (Z.shiftl bits 4) (Z.shiftr dec 2)))], 3, Z.land dec 3)
  else ([byte.of_Z (u8 (Z.lor (Z.shiftl bits 6) dec))], 0, bits).

(** The loop: the bytes, the mode, the bits left and the rest of the C string. *)
Fixpoint DecodeBase64_loop (p : list byte) (mode bits : Z) : list byte * Z * Z * list byte :=
  match p with
  | [] => ([], mode, bits, [])
  | c :: p' =>
      let dec := char_at decode64_table c in
      if dec =? -1 then ([], mode, bits, p) else
      let '(out, mode, bits) := decode64_step mode bits dec in
      let '(rest, mode, bits, p) := DecodeBase64_loop p' mode bits in
      (out ++ rest, mode, bits, p)
  end.

(** [p] begins with [n] padding characters and what follows is no digit. *)
Definition padded (table : list Z) (n : nat) (p : list byte) : bool :=
  bool_decide (take n p = repeat PAD n) && (char_at table (nth n p Byte.x00) =? -1).

Definition DecodeBase64 (str : list byte) : list byte * bool :=
  let '(vchRet, mode, bits, p) := DecodeBase64_loop (c_str str) 0 0 in
  (vchRet,
   if mode =? 0 then false
   else if mode =? 1 then true
   else if mode =? 2 then negb (bits =? 0) || negb (padded decode64_table 2 p)
   else negb (bits =? 0) || negb (padded decode64_table 1 p)).

(** ** Base 32 *)

Definition pbase32 : list byte := text "abcdefghijklmnopqrstuvwxyz234567".
Definition base32_char (n : Z) : byte := nth (Z.to_nat n) pbase32 Byte.x00.

Definition encode32_step (mode bits enc : Z) : list byte * Z * Z :=
  if mode =? 0 then ([base32_char (Z.shiftr enc 3)], 1, Z.shiftl (Z.land enc 7) 2)
  else if mode =? 1 then ([base32_char (Z.lor bits (Z.shiftr enc 6)); base32_char (Z.land (Z.shiftr enc 1) 31)], 2, Z.shiftl (Z.land enc 1) 4)
  else if mode =? 2 then ([base32_char (Z.lor bits (Z.shiftr enc 4))], 3, Z.shiftl (Z.land enc 15) 1)
  else if mode =? 3 then ([base32_char (Z.lor bits (Z.shiftr enc 7)); base32_char (Z.land (Z.shiftr enc 2) 31)], 4, Z.shiftl (Z.land enc 3) 3)
  else ([base32_char (Z.lor bits (Z.shiftr enc 5)); base32_char (Z.land enc 31)], 0, bits).

Fixpoint EncodeBase32_loop (v : list byte) (mode bits : Z) : list byte * Z * Z :=
  match v with
  | [] => ([], mode, bits)
  | b :: v =>
      let '(out, mode, bits) := encode32_step mode bits (byte.unsigned b) in
      let '(rest, mode, bits) := EncodeBase32_loop v mode bits in
      (out ++ rest, mode, bits)
  end.

Definition nPadding : list nat := [0; 6; 4; 3; 1]%nat.
Definition EncodeBase32 (v : list byte) : list byte :=
  let '(strRet, mode, bits) := EncodeBase32_loop v 0 0 in
  if mode =? 0 then strRet else strRet ++ base32_char bits :: repeat PAD (nth (Z.to_nat mode) nPadding 0%nat).

Definition decode32_table : list Z :=
  [ -1; -1; -1; -1; -1; -1; -1; -1; -1; -1; -1; -1; -1; -1; -1; -1; -1; -1; -1; -1; -1; -1; -1; -1; -1; -1; -1; -1; -1; -1; -1; -1;
    -1; -1; -1; -1; -1; -1; -1; -1; -1; -1; -1; -1; -1; -1; -1; -1; -1; -1; 26; 27; 28; 29; 30; 31; -1; -1; -1; -1; -1; -1; -1; -1;
    -1; 0; 1; 2; 3; 4; 5; 6; 7; 8; 9; 10; 11; 12; 13; 14; 15; 16; 17; 18; 19; 20; 21; 22; 23; 24; 25; -1; -1; -1; -1; -1;
    -1; 0; 1; 2; 3; 4; 5; 6; 7; 8; 9; 10; 11; 12; 13; 14; 15; 16; 17; 18; 19; 20; 21; 22; 23; 24; 25; -1; -1; -1; -1; -1;
    -1; -1; -1; -1; -1; -1; -1; -1; -1; -1; -1; -1; -1; -1; -1; -1; -1; -1; -1; -1; -1; -1; -1; -1; -1; -1; -1; -1; -1; -1; -1; -1;
    -1; -1; -1; -1; -1; -1; -1; -1; -1; -1; -1; -1; -1; -1; -1; -1; -1; -1; -1; -1; -1; -1; -1; -1; -1; -1; -1; -1; -1; -1; -1; -1;
    -1; -1; -1; -1; -1; -1; -1; -1; -1; -1; -1; -1; -1; -1; -1; -1; -1; -1; -1; -1; -1; -1; -1; -1; -1; -1; -1; -1; -1; -1; -1; -1;
    -1; -1; -1; -1; -1; -1; -1; -1; -1; -1; -1; -1; -1; -1; -1; -1; -1; -1; -1; -1; -1; -1; -1; -1; -1; -1; -1; -1; -1; -1; -1; -1 ].

Definition decode32_step (mode bits dec : Z) : list byte * Z * Z :=
  let push x := [byte.of_Z (u8 x)] in
  if mode =? 0 then ([], 1, dec)
  else if mode =? 1 then (push (Z.lor (Z.shiftl bits 3) (Z.shiftr dec 2)), 2, Z.land dec 3)
  else if mode =? 2 then ([], 3, Z.lor (Z.shiftl bits 5) dec)
  else if mode =? 3 then (push (Z.lor (Z.shiftl bits 1) (Z.shiftr dec 4)), 4, Z.land dec 15)
  else if mode =? 4 then (push (Z.lor (Z.shiftl bits 4) (Z.shiftr dec 1)), 5, Z.land dec 1)
  else if mode =? 5 then ([], 6, Z.lor (Z.shiftl bits 5) dec)
  else if mode =? 6 then (push (Z.lor (Z.shiftl bits 2) (Z.shiftr dec 3)), 7, Z.land dec 7)
  else (push (Z.lor (Z.shiftl bits 5) dec), 0, bits).

Fixpoint DecodeBase32_loop (p : list byte) (mode bits : Z) : list byte * Z * Z * list byte :=
  match p with
  | [] => ([], mode, bits, [])
  | c :: p' =>
      let dec := char_at decode32_table c in
      if dec =? -1 then ([], mode, bits, p) else
      let '(out, mode, bits) := decode32_step mode bits dec in
      let '(rest, mode, bits, p) := DecodeBase32_loop p' mode bits in
      (out ++ rest, mode, bits, p)
  end.

Definition DecodeBase32 (str : list byte) : list byte * bool :=
  let '(vchRet, mode, bits, p) := DecodeBase32_loop (c_str str) 0 0 in
  (vchRet,
   if mode =? 0 then false
   else if (mode =? 1) || (mode =? 3) || (mode =? 6) then true
   else if mode =? 2 then negb (bits =? 0) || negb (padded decode32_table 6 p)
   else if mode =? 4 then negb (bits =? 0) || negb (padded decode32_table 4 p)
   else if mode =? 5 then negb (bits =? 0) || negb (padded decode32_table 3 p)
   else negb (bits =? 0) || negb (padded decode32_table 1 p)).

(** ** Finite checks over bytes *)

Definition all_bytes : list Z := map Z.of_nat (seq 0 256).

Lemma in_all_bytes b : In (byte.unsigned b) all_bytes.
Proof.
  pose proof (byte.unsigned_range b). unfold all_bytes. apply in_map_iff. exists (Z.to_nat (byte.unsigned b)).
  rewrite Z2Nat.id by lia. split; [done|]. apply in_seq. lia.
Qed.

Lemma byte_check (P : Z -> bool) : forallb P all_bytes = true -> forall b, P (byte.unsigned b) = true.
Proof. intros F b. rewrite forallb_forall in F. apply F, in_all_bytes. Qed.

Lemma byte_check2 (P : Z -> Z -> bool) : forallb (fun x => forallb (P x) all_bytes) all_bytes = true ->
  forall b c, P (byte.unsigned b) (byte.unsigned c) = true.
Proof. intros F b. apply byte_check. exact (byte_check _ F b). Qed.

Lemma below_check (P : Z -> bool) (n : nat) : forallb P (map Z.of_nat (seq 0 n)) = true -> forall z, 0 <= z < Z.of_nat n -> P z = true.
Proof.
  intros F z Hz. rewrite forallb_forall in F. apply F, in_map_iff. exists (Z.to_nat z). rewrite Z2Nat.id by lia. split; [done|]. apply in_seq. lia.
Qed.

(** Split a conjunction of checked comparisons. *)
Ltac checked H := repeat (apply andb_true_iff in H; let K := fresh "K" in destruct H as [K H]); bool_prop.

Lemma of_unsigned b z : z = byte.unsigned b -> byte.of_Z z = b.
Proof. intros ->. apply byte.of_Z_unsigned. Qed.

Lemma c_str_id s : Forall (fun c => byte.unsigned c <> 0) s -> c_str s = s.
Proof. induction 1 as [|c s Hc F IH]; [done|]. cbn [c_str]. destruct (Z.eqb_spec (byte.unsigned c) 0); [done|]. by rewrite IH. Qed.

(** ** Hexadecimal round trips *)

Lemma hex_char_spec n : 0 <= n < 16 -> HexDigit (hex_char n) = n /\ isspace (hex_char n) = false /\ byte.unsigned (hex_char n) <> 0.
Proof.
  intros Hn. pose proof (below_check (fun n => (HexDigit (hex_char n) =? n) && negb (isspace (hex_char n)) && negb (byte.unsigned (hex_char n) =? 0)) 16
    ltac:(vm_compute; reflexivity) n Hn) as C. cbv beta in C. apply andb_true_iff in C as [C C3]. apply andb_true_iff in C as [C1 C2]. bool_prop. by split_and!.
Qed.

Lemma nibbles b : let v := byte.unsigned b in
  0 <= Z.shiftr v 4 < 16 /\ 0 <= Z.land v 15 < 16 /\ Z.lor (u8 (Z.shiftl (Z.shiftr v 4) 4)) (Z.land v 15) = v /\
  Z.lor (Z.land v 15) (u8 (Z.shiftl (Z.shiftr v 4) 4)) = v.
Proof.
  intros v. pose proof (byte_check (fun v => (0 <=? Z.shiftr v 4) && (Z.shiftr v 4 <? 16) && (0 <=? Z.land v 15) && (Z.land v 15 <? 16) &&
    (Z.lor (u8 (Z.shiftl (Z.shiftr v 4) 4)) (Z.land v 15) =? v) && (Z.lor (Z.land v 15) (u8 (Z.shiftl (Z.shiftr v 4) 4)) =? v)) ltac:(vm_compute; reflexivity) b) as C.
  cbv beta in C. fold v in C. bool_prop. by split_and!.
Qed.

Lemma HexStr_text v fSpaces first : Forall (fun c => byte.unsigned c <> 0) (HexStr_loop v fSpaces first).
Proof.
  revert first. induction v as [|b v IH]; intros first; cbn [HexStr_loop]; [constructor|].
  destruct (nibbles b) as (H1 & H2 & _). apply Forall_app. split; [destruct (_ && _); by repeat constructor|].
  repeat (constructor; [by apply hex_char_spec|]). apply IH.
Qed.

Lemma ParseHex_HexStr_loop v fSpaces : forall first fuel out, (length v < fuel)%nat ->
  ParseHex_loop fuel (HexStr_loop v fSpaces first) out = out ++ v.
Proof.
  induction v as [|b v IH]; intros first fuel out Hf; (destruct fuel as [|fuel]; [cbn in Hf; lia|]); cbn [ParseHex_loop HexStr_loop]; [by rewrite app_nil_r|].
  destruct (nibbles b) as (H1 & H2 & H3 & _). destruct (hex_char_spec _ H1) as (D1 & S1 & _), (hex_char_spec _ H2) as (D2 & _ & _).
  assert (E : skip_spaces ((if fSpaces && negb first then [Byte.x20] else []) ++
    hex_char (Z.shiftr (byte.unsigned b) 4) :: hex_char (Z.land (byte.unsigned b) 15) :: HexStr_loop v fSpaces false) =
    hex_char (Z.shiftr (byte.unsigned b) 4) :: hex_char (Z.land (byte.unsigned b) 15) :: HexStr_loop v fSpaces false).
  { destruct (_ && _); cbn [app skip_spaces]; [|by rewrite S1]. replace (isspace Byte.x20) with true by done. by rewrite S1. }
  rewrite E, D1, D2, !(proj2 (Z.eqb_neq _ (-1))) by lia. cbn [orb]. rewrite IH by (cbn in Hf; lia).
  rewrite (of_unsigned b) by done. by rewrite <- app_assoc.
Qed.

Lemma hex_digits_HexStr v : hex_digits (HexStr_loop v false true) = v ≫= (fun b => [Z.shiftr (byte.unsigned b) 4; Z.land (byte.unsigned b) 15]).
Proof.
  cut (forall first, hex_digits (HexStr_loop v false first) = v ≫= (fun b => [Z.shiftr (byte.unsigned b) 4; Z.land (byte.unsigned b) 15])); [done|].
  induction v as [|b v IH]; intros first; [done|]. cbn [HexStr_loop andb app hex_digits mbind list_bind].
  destruct (nibbles b) as (H1 & H2 & _). destruct (hex_char_spec _ H1) as (D1 & _), (hex_char_spec _ H2) as (D2 & _).
  rewrite D1, D2, !(proj2 (Z.eqb_neq _ (-1))) by lia. by rewrite IH.
Qed.

Lemma set_digits_bytes v : forall n, length v = n ->
  set_digits n (rev (rev v ≫= (fun b => [Z.shiftr (byte.unsigned b) 4; Z.land (byte.unsigned b) 15]))) = v.
Proof.
  induction v as [|b v IH]; intros n <-; [done|]. cbn [length rev]. rewrite bind_app, rev_app_distr. cbn [mbind list_bind rev app set_digits].
  destruct (nibbles b) as (_ & _ & _ & E). rewrite (of_unsigned b) by done. by rewrite IH.
Qed.

Lemma no_0x v : skip_0x (skip_spaces (HexStr_loop v false true)) = HexStr_loop v false true.
Proof.
  destruct v as [|b v]; [done|]. cbn [HexStr_loop andb app]. destruct (nibbles b) as (H1 & H2 & _).
  destruct (hex_char_spec _ H1) as (_ & S1 & _), (hex_char_spec _ H2) as (D2 & _). cbn [skip_spaces]. rewrite S1. cbn [skip_0x].
  pose proof (below_check (fun n => negb ((byte.unsigned (hex_char n) =? 120) || (byte.unsigned (hex_char n) =? 88))) 16 ltac:(vm_compute; reflexivity) _ H2) as C.
  cbv beta in C. apply negb_true_iff in C. by rewrite C, andb_false_r.
Qed.

Lemma SetHex_GetHex n pn : wf n pn -> SetHex n (GetHex pn) = pn.
Proof.
  intros W. unfold SetHex, GetHex, HexStr. rewrite c_str_id by apply HexStr_text. rewrite no_0x, hex_digits_HexStr, set_digits_bytes.
  - by apply bytes_uint_bytes.
  - by rewrite uint_bytes_length, (proj1 W).
Qed.

(** ** Base 64 and base 32 round trips *)

(** A digit is not NUL nor padding, and decodes to its value. *)
Definition digits_ok (chars : Z -> byte) (table : list Z) (n : nat) : bool :=
  forallb (fun d => (char_at table (chars d) =? d) && negb (byte.unsigned (chars d) =? 0)) (map Z.of_nat (seq 0 n)) &&
  (char_at table PAD =? -1) && (char_at table Byte.x00 =? -1).

Lemma digits64 : digits_ok base64_char decode64_table 64 = true.
Proof. vm_compute. reflexivity. Qed.
Lemma digits32 : digits_ok base32_char decode32_table 32 = true.
Proof. vm_compute. reflexivity. Qed.

Lemma digit_spec chars table n d : digits_ok chars table n = true -> 0 <= d < Z.of_nat n ->
  char_at table (chars d) = d /\ byte.unsigned (chars d) <> 0 /\ (char_at table (chars d) =? -1) = false.
Proof.
  intros D Hd. apply andb_true_iff in D as [D _]. apply andb_true_iff in D as [D _].
  pose proof (below_check _ n D d Hd) as C. cbv beta in C. bool_prop. split_and!; [done|done|]. apply Z.eqb_neq. lia.
Qed.

(** The digits of adjacent bytes, and the bytes they give. *)
Lemma base64_bits b c : let x := byte.unsigned b in let y := byte.unsigned c in
  (0 <= Z.shiftr x 2 < 64 /\ 0 <= Z.lor (Z.shiftl (Z.land x 3) 4) (Z.shiftr y 4) < 64 /\
   0 <= Z.lor (Z.shiftl (Z.land x 15) 2) (Z.shiftr y 6) < 64 /\ 0 <= Z.land y 63 < 64) /\
  u8 (Z.lor (Z.shiftl (Z.shiftr x 2) 2) (Z.shiftr (Z.lor (Z.shiftl (Z.land x 3) 4) (Z.shiftr y 4)) 4)) = x /\
  Z.land (Z.lor (Z.shiftl (Z.land x 3) 4) (Z.shiftr y 4)) 15 = Z.shiftr y 4 /\
  u8 (Z.lor (Z.shiftl (Z.shiftr x 4) 4) (Z.shiftr (Z.lor (Z.shiftl (Z.land x 15) 2) (Z.shiftr y 6)) 2)) = x /\
  Z.land (Z.lor (Z.shiftl (Z.land x 15) 2) (Z.shiftr y 6)) 3 = Z.shiftr y 6 /\
  u8 (Z.lor (Z.shiftl (Z.shiftr y 6) 6) (Z.land y 63)) = y.
Proof.
  intros x y. pose proof (byte_check2 (fun x y =>
    let n1 := Z.lor (Z.shiftl (Z.land x 3) 4) (Z.shiftr y 4) in let n2 := Z.lor (Z.shiftl (Z.land x 15) 2) (Z.shiftr y 6) in
    (0 <=? Z.shiftr x 2) && (Z.shiftr x 2 <? 64) && (0 <=? n1) && (n1 <? 64) && (0 <=? n2) && (n2 <? 64) && (0 <=? Z.land y 63) && (Z.land y 63 <? 64) &&
    (u8 (Z.lor (Z.shiftl (Z.shiftr x 2) 2) (Z.shiftr n1 4)) =? x) && (Z.land n1 15 =? Z.shiftr y 4) &&
    (u8 (Z.lor (Z.shiftl (Z.shiftr x 4) 4) (Z.shiftr n2 2)) =? x) && (Z.land n2 3 =? Z.shiftr y 6) &&
    (u8 (Z.lor (Z.shiftl (Z.shiftr y 6) 6) (Z.land y 63)) =? y)) ltac:(vm_compute; reflexivity) b c) as C.
  cbv beta zeta in C. fold x y in C. bool_prop. by split_and!.
Qed.

Lemma base32_bits b c : let x := byte.unsigned b in let y := byte.unsigned c in
  (0 <= Z.shiftr x 3 < 32 /\ 0 <= Z.lor (Z.shiftl (Z.land x 7) 2) (Z.shiftr y 6) < 32 /\ 0 <= Z.land (Z.shiftr x 1) 31 < 32 /\
   0 <= Z.lor (Z.shiftl (Z.land x 1) 4) (Z.shiftr y 4) < 32 /\ 0 <= Z.lor (Z.shiftl (Z.land x 15) 1) (Z.shiftr y 7) < 32 /\
   0 <= Z.land (Z.shiftr x 2) 31 < 32 /\ 0 <= Z.lor (Z.shiftl (Z.land x 3) 3) (Z.shiftr y 5) < 32 /\ 0 <= Z.land x 31 < 32) /\
  (u8 (Z.lor (Z.shiftl (Z.shiftr x 3) 3) (Z.shiftr (Z.lor (Z.shiftl (Z.land x 7) 2) (Z.shiftr y 6)) 2)) = x /\
   Z.land (Z.lor (Z.shiftl (Z.land x 7) 2) (Z.shiftr y 6)) 3 = Z.shiftr y 6 /\
   Z.lor (Z.shiftl (Z.shiftr x 6) 5) (Z.land (Z.shiftr x 1) 31) = Z.shiftr x 1) /\
  (u8 (Z.lor (Z.shiftl (Z.shiftr x 1) 1) (Z.shiftr (Z.lor (Z.shiftl (Z.land x 1) 4) (Z.shiftr y 4)) 4)) = x /\
   Z.land (Z.lor (Z.shiftl (Z.land x 1) 4) (Z.shiftr y 4)) 15 = Z.shiftr y 4) /\
  (u8 (Z.lor (Z.shiftl (Z.shiftr x 4) 4) (Z.shiftr (Z.lor (Z.shiftl (Z.land x 15) 1) (Z.shiftr y 7)) 1)) = x /\
   Z.land (Z.lor (Z.shiftl (Z.land x 15) 1) (Z.shiftr y 7)) 1 = Z.shiftr y 7 /\
   Z.lor (Z.shiftl (Z.shiftr x 7) 5) (Z.land (Z.shiftr x 2) 31) = Z.shiftr x 2) /\
  (u8 (Z.lor (Z.shiftl (Z.shiftr x 2) 2) (Z.shiftr (Z.lor (Z.shiftl (Z.land x 3) 3) (Z.shiftr y 5)) 3)) = x /\
   Z.land (Z.lor (Z.shiftl (Z.land x 3) 3) (Z.shiftr y 5)) 7 = Z.shiftr y 5) /\
  u8 (Z.lor (Z.shiftl (Z.shiftr x 5) 5) (Z.land x 31)) = x.
Proof.
  intros x y. pose proof (byte_check2 (fun x y =>
    let n1 := Z.lor (Z.shiftl (Z.land x 7) 2) (Z.shiftr y 6) in let n3 := Z.lor (Z.shiftl (Z.land x 1) 4) (Z.shiftr y 4) in
    let n4 := Z.lor (Z.shiftl (Z.land x 15) 1) (Z.shiftr y 7) in let n6 := Z.lor (Z.shiftl (Z.land x 3) 3) (Z.shiftr y 5) in
    let rng n := (0 <=? n) && (n <? 32) in
    (rng (Z.shiftr x 3) && rng n1 && rng (Z.land (Z.shiftr x 1) 31) && rng n3 && rng n4 && rng (Z.land (Z.shiftr x 2) 31) && rng n6 && rng (Z.land x 31)) &&
    ((u8 (Z.lor (Z.shiftl (Z.shiftr x 3) 3) (Z.shiftr n1 2)) =? x) && (Z.land n1 3 =? Z.shiftr y 6) &&
     (Z.lor (Z.shiftl (Z.shiftr x 6) 5) (Z.land (Z.shiftr x 1) 31) =? Z.shiftr x 1)) &&
    ((u8 (Z.lor (Z.shiftl (Z.shiftr x 1) 1) (Z.shiftr n3 4)) =? x) && (Z.land n3 15 =? Z.shiftr y 4)) &&
    ((u8 (Z.lor (Z.shiftl (Z.shiftr x 4) 4) (Z.shiftr n4 1)) =? x) && (Z.land n4 1 =? Z.shiftr y 7) &&
     (Z.lor (Z.shiftl (Z.shiftr x 7) 5) (Z.land (Z.shiftr x 2) 31) =? Z.shiftr x 2)) &&
    ((u8 (Z.lor (Z.shiftl (Z.shiftr x 2) 2) (Z.shiftr n6 3)) =? x) && (Z.land n6 7 =? Z.shiftr y 5)) &&
    (u8 (Z.lor (Z.shiftl (Z.shiftr x 5) 5) (Z.land x 31)) =? x)) ltac:(vm_compute; reflexivity) b c) as C.
  cbv beta zeta in C. fold x y in C. bool_prop. by split_and!.
Qed.

(** What follows the digits. *)
Definition stops (table : list Z) (p : list byte) : Prop := match p with c :: _ => char_at table c = -1 | [] => True end.

Lemma Decode64_stop p m d : stops decode64_table p -> DecodeBase64_loop p m d = ([], m, d, p).
Proof. destruct p as [|c p]; [done|]. cbn [stops DecodeBase64_loop]. by intros ->. Qed.

Lemma Decode32_stop p m d : stops decode32_table p -> DecodeBase32_loop p m d = ([], m, d, p).
Proof. destruct p as [|c p]; [done|]. cbn [stops DecodeBase32_loop]. by intros ->. Qed.

Lemma Decode64_digit d p m l : 0 <= d < 64 -> DecodeBase64_loop (base64_char d :: p) m l =
  let '(out, mode, bits) := decode64_step m l d in let '(rest, mode, bits, q) := DecodeBase64_loop p mode bits in (out ++ rest, mode, bits, q).
Proof. intros Hd. destruct (digit_spec _ _ 64 d digits64 Hd) as (V & _ & N). cbn [DecodeBase64_loop]. by rewrite N, V. Qed.

Lemma Decode32_digit d p m l : 0 <= d < 32 -> DecodeBase32_loop (base32_char d :: p) m l =
  let '(out, mode, bits) := decode32_step m l d in let '(rest, mode, bits, q) := DecodeBase32_loop p mode bits in (out ++ rest, mode, bits, q).
Proof. intros Hd. destruct (digit_spec _ _ 32 d digits32 Hd) as (V & _ & N). cbn [DecodeBase32_loop]. by rewrite N, V. Qed.

(** The digits of a text: those of the loop and, in the middle of a group, the last one. *)
Definition digits_of (chars : Z -> byte) (r : list byte * Z * Z) : list byte :=
  let '(s, mode, bits) := r in if mode =? 0 then s else s ++ [chars bits].

Lemma digits_of_app chars out s m l : digits_of chars (out ++ s, m, l) = out ++ digits_of chars (s, m, l).
Proof. unfold digits_of. destruct (m =? 0); by rewrite <- ?app_assoc. Qed.

(** The groups: three bytes are four digits, five bytes are eight. *)
Lemma Encode64_group a b c v eb : exists l, EncodeBase64_loop (a :: b :: c :: v) 0 eb =
  let x := byte.unsigned a in let y := byte.unsigned b in let z := byte.unsigned c in
  let '(s, m, k) := EncodeBase64_loop v 0 l in
  (map base64_char [Z.shiftr x 2; Z.lor (Z.shiftl (Z.land x 3) 4) (Z.shiftr y 4); Z.lor (Z.shiftl (Z.land y 15) 2) (Z.shiftr z 6); Z.land z 63] ++ s, m, k).
Proof.
  exists (Z.shiftl (Z.land (byte.unsigned b) 15) 2). cbn [EncodeBase64_loop encode64_step Z.eqb Pos.eqb]. cbv beta zeta iota.
  by destruct (EncodeBase64_loop v 0 _) as [[s m] k].
Qed.

Lemma Decode64_group a b c p l : exists k, DecodeBase64_loop (
  let x := byte.unsigned a in let y := byte.unsigned b in let z := byte.unsigned c in
  map base64_char [Z.shiftr x 2; Z.lor (Z.shiftl (Z.land x 3) 4) (Z.shiftr y 4); Z.lor (Z.shiftl (Z.land y 15) 2) (Z.shiftr z 6); Z.land z 63] ++ p) 0 l =
  let '(rest, m, bits, q) := DecodeBase64_loop p 0 k in (a :: b :: c :: rest, m, bits, q).
Proof.
  destruct (base64_bits a b) as ((R1 & R2 & _ & _) & E1 & E2 & _). destruct (base64_bits b c) as ((_ & _ & R3 & R4) & _ & _ & E3 & E4 & E5).
  exists (Z.shiftr (byte.unsigned c) 6). cbn [map app]. do 4 (rewrite Decode64_digit by done; cbn [decode64_step Z.eqb Pos.eqb]). rewrite E2, E4.
  rewrite E1, E3, E5, !byte.of_Z_unsigned. by destruct (DecodeBase64_loop p 0 _) as [[[s m] k] q].
Qed.

Lemma Encode32_group a b c d e v eb : exists l, EncodeBase32_loop (a :: b :: c :: d :: e :: v) 0 eb =
  let x := byte.unsigned a in let y := byte.unsigned b in let z := byte.unsigned c in let u := byte.unsigned d in let w := byte.unsigned e in
  let '(s, m, k) := EncodeBase32_loop v 0 l in
  (map base32_char [Z.shiftr x 3; Z.lor (Z.shiftl (Z.land x 7) 2) (Z.shiftr y 6); Z.land (Z.shiftr y 1) 31; Z.lor (Z.shiftl (Z.land y 1) 4) (Z.shiftr z 4);
     Z.lor (Z.shiftl (Z.land z 15) 1) (Z.shiftr u 7); Z.land (Z.shiftr u 2) 31; Z.lor (Z.shiftl (Z.land u 3) 3) (Z.shiftr w 5); Z.land w 31] ++ s, m, k).
Proof.
  exists (Z.shiftl (Z.land (byte.unsigned d) 3) 3). cbn [EncodeBase32_loop encode32_step Z.eqb Pos.eqb]. cbv beta zeta iota.
  by destruct (EncodeBase32_loop v 0 _) as [[s m] k].
Qed.

Lemma Decode32_group a b c d e p l : exists k, DecodeBase32_loop (
  let x := byte.unsigned a in let y := byte.unsigned b in let z := byte.unsigned c in let u := byte.unsigned d in let w := byte.unsigned e in
  map base32_char [Z.shiftr x 3; Z.lor (Z.shiftl (Z.land x 7) 2) (Z.shiftr y 6); Z.land (Z.shiftr y 1) 31; Z.lor (Z.shiftl (Z.land y 1) 4) (Z.shiftr z 4);
     Z.lor (Z.shiftl (Z.land z 15) 1) (Z.shiftr u 7); Z.land (Z.shiftr u 2) 31; Z.lor (Z.shiftl (Z.land u 3) 3) (Z.shiftr w 5); Z.land w 31] ++ p) 0 l =
  let '(rest, m, bits, q) := DecodeBase32_loop p 0 k in (a :: b :: c :: d :: e :: rest, m, bits, q).
Proof.
  destruct (base32_bits a b) as (Ra & (A1 & A2 & _) & _). destruct (base32_bits b c) as (Rb & (_ & _ & B3) & (B4 & B5) & _).
  destruct (base32_bits c d) as (Rc & _ & _ & (C1 & C2 & _) & _). destruct (base32_bits d e) as (Rd & _ & _ & (_ & _ & D3) & (D4 & D5) & _).
  destruct (base32_bits e e) as (Re & _ & _ & _ & _ & E6).
  exists (Z.shiftr (byte.unsigned e) 5). cbn [map app]. do 8 (rewrite Decode32_digit by tauto; cbn [decode32_step Z.eqb Pos.eqb]).
  rewrite A1, A2, B3, B4, B5, C1, C2, D3, D4, D5, E6, !byte.of_Z_unsigned. by destruct (DecodeBase32_loop p 0 _) as [[[s m] k] q].
Qed.

(** Whatever follows, the decoder takes exactly the digits of the text and has no bits left. *)
Lemma base64_inverse n : forall v eb db p, (length v <= n)%nat -> stops decode64_table p ->
  let r := EncodeBase64_loop v 0 eb in
  exists k, DecodeBase64_loop (digits_of base64_char r ++ p) 0 db = (v, (if r.1.2 =? 0 then 0 else r.1.2 + 1), k, p) /\
    (r.1.2 = 0 \/ (r.1.2 = 1 \/ r.1.2 = 2) /\ k = 0) /\ Forall (fun c => byte.unsigned c <> 0) (digits_of base64_char r).
Proof.
  assert (NZ : forall d, 0 <= d < 64 -> byte.unsigned (base64_char d) <> 0) by (intros d Hd; apply (digit_spec _ _ 64 d digits64); lia).
  induction n as [|n IH]; intros v eb db p Hn Hp; (destruct v as [|a v]; [exists db; cbn; rewrite Decode64_stop by done; by repeat split; [left|]|]); [cbn in Hn; lia|].
  destruct v as [|b [|c v]].
  - destruct (base64_bits a Byte.x00) as ((R1 & R2 & _ & _) & E1 & E2 & _).
    change (byte.unsigned Byte.x00) with 0 in *. rewrite !Z.shiftr_0_l, !Z.lor_0_r in *.
    exists 0. cbn [EncodeBase64_loop encode64_step digits_of Z.eqb Pos.eqb app fst snd]. split; [|split; [right; auto|repeat constructor; auto]].
    do 2 (rewrite Decode64_digit by done; cbn [decode64_step Z.eqb Pos.eqb]). by rewrite Decode64_stop, E1, E2, byte.of_Z_unsigned.
  - destruct (base64_bits a b) as ((R1 & R2 & _ & _) & E1 & E2 & _). destruct (base64_bits b Byte.x00) as ((_ & _ & R3 & _) & _ & _ & E3 & E4 & _).
    change (byte.unsigned Byte.x00) with 0 in *. rewrite !Z.shiftr_0_l, !Z.lor_0_r in *.
    exists 0. cbn [EncodeBase64_loop encode64_step digits_of Z.eqb Pos.eqb app fst snd]. split; [|split; [right; auto|repeat constructor; auto]].
    do 3 (rewrite Decode64_digit by done; cbn [decode64_step Z.eqb Pos.eqb]). by rewrite Decode64_stop, E1, E2, E3, E4, !byte.of_Z_unsigned.
  - destruct (Encode64_group a b c v eb) as (l & E). cbv zeta in E. pose proof (Decode64_group a b c) as D. cbv zeta in D.
    destruct (base64_bits a b) as ((R1 & R2 & _ & _) & _). destruct (base64_bits b c) as ((_ & _ & R3 & R4) & _).
    cbv zeta. rewrite E. specialize (IH v l). destruct (EncodeBase64_loop v 0 l) as [[s m] k]. cbn [fst snd] in *. rewrite digits_of_app, <- app_assoc.
    destruct (D (digits_of base64_char (s, m, k) ++ p) db) as (k' & ->). destruct (IH k' p) as (k2 & -> & K & F); [cbn in Hn; lia|done|].
    exists k2. split; [done|]. split; [done|]. apply Forall_app. split; [|done]. cbn [map]. repeat constructor; auto.
Qed.

Lemma base32_inverse n : forall v eb db p, (length v <= n)%nat -> stops decode32_table p ->
  let r := EncodeBase32_loop v 0 eb in
  exists k, DecodeBase32_loop (digits_of base32_char r ++ p) 0 db = (v, nth (Z.to_nat r.1.2) [0; 2; 4; 5; 7] 0, k, p) /\
    (r.1.2 = 0 \/ 1 <= r.1.2 <= 4 /\ k = 0) /\ Forall (fun c => byte.unsigned c <> 0) (digits_of base32_char r).
Proof.
  assert (NZ : forall d, 0 <= d < 32 -> byte.unsigned (base32_char d) <> 0) by (intros d Hd; apply (digit_spec _ _ 32 d digits32); lia).
  induction n as [|n IH]; intros v eb db p Hn Hp; (destruct v as [|a v]; [exists db; cbn; rewrite Decode32_stop by done; by repeat split; [left|]|]); [cbn in Hn; lia|].
  destruct (base32_bits a a) as ((Ra & _ & Ra3 & _ & _ & Ra6 & _) & _).
  destruct v as [|b [|c [|d [|e v]]]].
  - destruct (base32_bits a Byte.x00) as (R & (A1 & A2 & _) & _). change (byte.unsigned Byte.x00) with 0 in *. rewrite !Z.shiftr_0_l, !Z.lor_0_r in *.
    exists 0. cbn [EncodeBase32_loop encode32_step digits_of Z.eqb Pos.eqb app fst snd]. split; [|split; [right; lia|repeat constructor; apply NZ; tauto]].
    do 2 (rewrite Decode32_digit by tauto; cbn [decode32_step Z.eqb Pos.eqb]). by rewrite Decode32_stop, A1, A2, byte.of_Z_unsigned.
  - destruct (base32_bits a b) as (R & (A1 & A2 & _) & _). destruct (base32_bits b Byte.x00) as (Rb & (_ & _ & B3) & (B4 & B5) & _).
    change (byte.unsigned Byte.x00) with 0 in *. rewrite !Z.shiftr_0_l, !Z.lor_0_r in *.
    exists 0. cbn [EncodeBase32_loop encode32_step digits_of Z.eqb Pos.eqb app fst snd]. split; [|split; [right; lia|repeat constructor; apply NZ; tauto]].
    do 4 (rewrite Decode32_digit by tauto; cbn [decode32_step Z.eqb Pos.eqb]). by rewrite Decode32_stop, A1, A2, B3, B4, B5, !byte.of_Z_unsigned.
  - destruct (base32_bits a b) as (R & (A1 & A2 & _) & _). destruct (base32_bits b c) as (Rb & (_ & _ & B3) & (B4 & B5) & _).
    destruct (base32_bits c Byte.x00) as (Rc & _ & _ & (C1 & C2 & _) & _).
    change (byte.unsigned Byte.x00) with 0 in *. rewrite !Z.shiftr_0_l, !Z.lor_0_r in *.
    exists 0. cbn [EncodeBase32_loop encode32_step digits_of Z.eqb Pos.eqb app fst snd]. split; [|split; [right; lia|repeat constructor; apply NZ; tauto]].
    do 5 (rewrite Decode32_digit by tauto; cbn [decode32_step Z.eqb Pos.eqb]). by rewrite Decode32_stop, A1, A2, B3, B4, B5, C1, C2, !byte.of_Z_unsigned.
  - destruct (base32_bits a b) as (R & (A1 & A2 & _) & _). destruct (base32_bits b c) as (Rb & (_ & _ & B3) & (B4 & B5) & _).
    destruct (base32_bits c d) as (Rc & _ & _ & (C1 & C2 & _) & _). destruct (base32_bits d Byte.x00) as (Rd & _ & _ & (_ & _ & D3) & (D4 & D5) & _).
    change (byte.unsigned Byte.x00) with 0 in *. rewrite !Z.shiftr_0_l, !Z.lor_0_r in *.
    exists 0. cbn [EncodeBase32_loop encode32_step digits_of Z.eqb Pos.eqb app fst snd]. split; [|split; [right; lia|repeat constructor; apply NZ; tauto]].
    do 7 (rewrite Decode32_digit by tauto; cbn [decode32_step Z.eqb Pos.eqb]).
    by rewrite Decode32_stop, A1, A2, B3, B4, B5, C1, C2, D3, D4, D5, !byte.of_Z_unsigned.
  - destruct (Encode32_group a b c d e v eb) as (l & E). cbv zeta in E. pose proof (Decode32_group a b c d e) as D. cbv zeta in D.
    destruct (base32_bits a b) as (R1 & _), (base32_bits b c) as (R2 & _), (base32_bits c d) as (R3 & _), (base32_bits d e) as (R4 & _), (base32_bits e e) as (R5 & _).
    cbv zeta. rewrite E. specialize (IH v l). destruct (EncodeBase32_loop v 0 l) as [[s m] k]. cbn [fst snd] in *. rewrite digits_of_app, <- app_assoc.
    destruct (D (digits_of base32_char (s, m, k) ++ p) db) as (k' & ->). destruct (IH k' p) as (k2 & -> & K & F); [cbn in Hn; lia|done|].
    exists k2. split; [done|]. split; [done|]. apply Forall_app. split; [|done]. cbn [map]. repeat constructor; apply NZ; tauto.
Qed.

Lemma HexStr_length v fSpaces first : (2 * length v <= length (HexStr_loop v fSpaces first))%nat /\
  (fSpaces = false -> length (HexStr_loop v fSpaces first) = 2 * length v)%nat.
Proof.
  revert first. induction v as [|b v IH]; intros first; [done|]. cbn [HexStr_loop]. rewrite length_app. cbn [length]. destruct (IH false) as [I1 I2].
  split; [lia|]. intros ->. rewrite I2 by done. cbn [andb length]. lia.
Qed.

Lemma HexStr_IsHex v : forallb (fun c => 0 <=? HexDigit c) (HexStr v false) = true.
Proof.
  unfold HexStr. generalize true at 1. induction v as [|b v IH]; intros first; [done|]. destruct (nibbles b) as (H1 & H2 & _).
  destruct (hex_char_spec _ H1) as (D1 & _), (hex_char_spec _ H2) as (D2 & _). cbn [HexStr_loop andb app forallb]. rewrite D1, D2, IH.
  by rewrite !(proj2 (Z.leb_le 0 _)) by lia.
Qed.

Lemma Forall_repeat_pad k : Forall (fun c => byte.unsigned c <> 0) (repeat PAD k).
Proof. by induction k; constructor. Qed.

Lemma pads_stop table k : char_at table PAD = -1 -> stops table (repeat PAD k).
Proof. by destruct k. Qed.

(** The text encodings lose nothing: hexadecimal, with or without spaces, base 64 and
    base 32 are decoded to the bytes that were encoded and are not flagged as invalid; a big
    integer is read back from its hexadecimal form, which has two digits for each byte. *)
Theorem text_roundtrip (v : list byte) (fSpaces : bool) (n : nat) (pn : base_uint) :
  ParseHex (HexStr v fSpaces) = v /\ IsHex (HexStr v false) = (0 <? length v)%nat /\
  DecodeBase64 (EncodeBase64 v) = (v, false) /\ DecodeBase32 (EncodeBase32 v) = (v, false) /\
  (wf n pn -> SetHex n (GetHex pn) = pn /\ length (GetHex pn) = (8 * n)%nat).
Proof.
  split; [|split; [|split; [|split]]].
  - unfold ParseHex, HexStr. rewrite c_str_id by apply HexStr_text. apply (ParseHex_HexStr_loop v fSpaces true _ []).
    pose proof (HexStr_length v fSpaces true) as [L _]. lia.
  - unfold IsHex. rewrite HexStr_IsHex. unfold HexStr. rewrite (proj2 (HexStr_length v false true)) by done. cbn [andb].
    rewrite Nat.even_mul. cbn [Nat.even orb]. rewrite andb_true_r. by destruct v.
  - unfold EncodeBase64, DecodeBase64. destruct (base64_inverse (length v) v 0 0 (repeat PAD (if (EncodeBase64_loop v 0 0).1.2 =? 0 then 0 else if (EncodeBase64_loop v 0 0).1.2 =? 1 then 2 else 1))) as (k & D & K & F);
      [done|by apply pads_stop|].
    destruct (EncodeBase64_loop v 0 0) as [[s m] l]. cbn [fst snd digits_of] in *.
    match goal with |- context [c_str ?x] => replace x with (digits_of base64_char (s, m, l) ++ repeat PAD (if m =? 0 then 0%nat else if m =? 1 then 2%nat else 1%nat)) end.
    2: { unfold digits_of. destruct (m =? 0); [by rewrite app_nil_r|]. rewrite <- app_assoc. by destruct (m =? 1). }
    rewrite c_str_id; [|apply Forall_app; split; [exact F|by apply Forall_repeat_pad]]. cbn [digits_of]. rewrite D.
    destruct K as [->|[[->| ->] ->]]; [done| |]; by vm_compute.
  - unfold EncodeBase32, DecodeBase32. destruct (base32_inverse (length v) v 0 0 (repeat PAD (nth (Z.to_nat (EncodeBase32_loop v 0 0).1.2) nPadding 0%nat))) as (k & D & K & F);
      [done|by apply pads_stop|].
    destruct (EncodeBase32_loop v 0 0) as [[s m] l]. cbn [fst snd digits_of] in *.
    match goal with |- context [c_str ?x] => replace x with (digits_of base32_char (s, m, l) ++ repeat PAD (nth (Z.to_nat m) nPadding 0%nat)) end.
    2: { unfold digits_of. destruct (Z.eqb_spec m 0) as [->|]; [by rewrite app_nil_r|]. by rewrite <- app_assoc. }
    rewrite c_str_id; [|apply Forall_app; split; [exact F|by apply Forall_repeat_pad]]. cbn [digits_of]. rewrite D.
    destruct K as [->|[Hm ->]]; [done|]. assert (m = 1 \/ m = 2 \/ m = 3 \/ m = 4) as [->|[->|[->| ->]]] by lia; by vm_compute.
  - intros W. split; [by apply SetHex_GetHex|]. unfold GetHex, HexStr. rewrite (proj2 (HexStr_length _ false true)) by done.
    rewrite length_rev, uint_bytes_length, (proj1 W). lia.
Qed.

Lemma text_roundtrip_witness : SetHex 8 (GetHex (base_uint_u64 8 1)) = base_uint_u64 8 1 /\ length (GetHex (base_uint_u64 8 1)) = 64%nat.
Proof. apply (text_roundtrip [] false 8 (base_uint_u64 8 1)). split; [done|]. repeat constructor; done. Defined.
