(* ===== verification/Script.v ===== *)
(** * Scripts ([script/script.h], [script/script.cpp])

    Opcodes and their names, script numbers ([CScriptNum]), the construction of
    scripts with [<<], the instruction decoder [GetOp2] and the scans built on it.
    A script is its list of bytes; a [const_iterator] into a script is the list of
    the bytes from it to [end()], so that [end() - pc] is its length. *)

From Stdlib Require Import ZArith Lia List Bool String.
From stdpp Require Import base list.
From coqutil Require Import Byte Word.LittleEndianList.
From S2P Require Import Prelude Serialize.

Open Scope list_scope.
Open Scope Z_scope.
Open Scope btc_scope.

Abbreviation valtype := (list byte) (only parsing).
Abbreviation CScript := (list byte) (only parsing).
Abbreviation opcodetype := Z (only parsing).

Definition MAX_SCRIPT_ELEMENT_SIZE : Z := 520.
Definition MAX_SCRIPT_SIZE : Z := 10000.

(** ** Opcodes *)

Definition OP_0 : Z := 0x00.
Definition OP_FALSE : Z := OP_0.
Definition OP_PUSHDATA1 : Z := 0x4c.
Definition OP_PUSHDATA2 : Z := 0x4d.
Definition OP_PUSHDATA4 : Z := 0x4e.
Definition OP_1NEGATE : Z := 0x4f.
Definition OP_RESERVED : Z := 0x50.
Definition OP_1 : Z := 0x51.
Definition OP_TRUE : Z := OP_1.
Definition OP_2 : Z := 0x52.
Definition OP_3 : Z := 0x53.
Definition OP_4 : Z := 0x54.
Definition OP_5 : Z := 0x55.
Definition OP_6 : Z := 0x56.
Definition OP_7 : Z := 0x57.
Definition OP_8 : Z := 0x58.
Definition OP_9 : Z := 0x59.
Definition OP_10 : Z := 0x5a.
Definition OP_11 : Z := 0x5b.
Definition OP_12 : Z := 0x5c.
Definition OP_13 : Z := 0x5d.
Definition OP_14 : Z := 0x5e.
Definition OP_15 : Z := 0x5f.
Definition OP_16 : Z := 0x60.
Definition OP_NOP : Z := 0x61.
Definition OP_VER : Z := 0x62.
Definition OP_IF : Z := 0x63.
Definition OP_NOTIF : Z := 0x64.
Definition OP_VERIF : Z := 0x65.
Definition OP_VERNOTIF : Z := 0x66.
Definition OP_ELSE : Z := 0x67.
Definition OP_ENDIF : Z := 0x68.
Definition OP_VERIFY : Z := 0x69.
Definition OP_RETURN : Z := 0x6a.
Definition OP_TOALTSTACK : Z := 0x6b.
Definition OP_FROMALTSTACK : Z := 0x6c.
Definition OP_2DROP : Z := 0x6d.
Definition OP_2DUP : Z := 0x6e.
Definition OP_3DUP : Z := 0x6f.
Definition OP_2OVER : Z := 0x70.
Definition OP_2ROT : Z := 0x71.
Definition OP_2SWAP : Z := 0x72.
Definition OP_IFDUP : Z := 0x73.
Definition OP_DEPTH : Z := 0x74.
Definition OP_DROP : Z := 0x75.
Definition OP_DUP : Z := 0x76.
Definition OP_NIP : Z := 0x77.
Definition OP_OVER : Z := 0x78.
Definition OP_PICK : Z := 0x79.
Definition OP_ROLL : Z := 0x7a.
Definition OP_ROT : Z := 0x7b.
Definition OP_SWAP : Z := 0x7c.
Definition OP_TUCK : Z := 0x7d.
Definition OP_CAT : Z := 0x7e.
Definition OP_SUBSTR : Z := 0x7f.
Definition OP_LEFT : Z := 0x80.
Definition OP_RIGHT : Z := 0x81.
Definition OP_SIZE : Z := 0x82.
Definition OP_INVERT : Z := 0x83.
Definition OP_AND : Z := 0x84.
Definition OP_OR : Z := 0x85.
Definition OP_XOR : Z := 0x86.
Definition OP_EQUAL : Z := 0x87.
Definition OP_EQUALVERIFY : Z := 0x88.
Definition OP_RESERVED1 : Z := 0x89.
Definition OP_RESERVED2 : Z := 0x8a.
Definition OP_1ADD : Z := 0x8b.
Definition OP_1SUB : Z := 0x8c.
Definition OP_2MUL : Z := 0x8d.
Definition OP_2DIV : Z := 0x8e.
Definition OP_NEGATE : Z := 0x8f.
Definition OP_ABS : Z := 0x90.
Definition OP_NOT : Z := 0x91.
Definition OP_0NOTEQUAL : Z := 0x92.
Definition OP_ADD : Z := 0x93.
Definition OP_SUB : Z := 0x94.
Definition OP_MUL : Z := 0x95.
Definition OP_DIV : Z := 0x96.
Definition OP_MOD : Z := 0x97.
Definition OP_LSHIFT : Z := 0x98.
Definition OP_RSHIFT : Z := 0x99.
Definition OP_BOOLAND : Z := 0x9a.
Definition OP_BOOLOR : Z := 0x9b.
Definition OP_NUMEQUAL : Z := 0x9c.
Definition OP_NUMEQUALVERIFY : Z := 0x9d.
Definition OP_NUMNOTEQUAL : Z := 0x9e.
Definition OP_LESSTHAN : Z := 0x9f.
Definition OP_GREATERTHAN : Z := 0xa0.
Definition OP_LESSTHANOREQUAL : Z := 0xa1.
Definition OP_GREATERTHANOREQUAL : Z := 0xa2.
Definition OP_MIN : Z := 0xa3.
Definition OP_MAX : Z := 0xa4.
Definition OP_WITHIN : Z := 0xa5.
Definition OP_RIPEMD160 : Z := 0xa6.
Definition OP_SHA1 : Z := 0xa7.
Definition OP_SHA256 : Z := 0xa8.
Definition OP_HASH160 : Z := 0xa9.
Definition OP_HASH256 : Z := 0xaa.
Definition OP_CODESEPARATOR : Z := 0xab.
Definition OP_CHECKSIG : Z := 0xac.
Definition OP_CHECKSIGVERIFY : Z := 0xad.
Definition OP_CHECKMULTISIG : Z := 0xae.
Definition OP_CHECKMULTISIGVERIFY : Z := 0xaf.
Definition OP_NOP1 : Z := 0xb0.
Definition OP_NOP2 : Z := 0xb1.
Definition OP_NOP3 : Z := 0xb2.
Definition OP_NOP4 : Z := 0xb3.
Definition OP_NOP5 : Z := 0xb4.
Definition OP_NOP6 : Z := 0xb5.
Definition OP_NOP7 : Z := 0xb6.
Definition OP_NOP8 : Z := 0xb7.
Definition OP_NOP9 : Z := 0xb8.
Definition OP_NOP10 : Z := 0xb9.
Definition OP_ZEROCOINMINT : Z := 0xc1.
Definition OP_ZEROCOINSPEND : Z := 0xc2.
Definition OP_SMALLINTEGER : Z := 0xfa.
Definition OP_PUBKEYS : Z := 0xfb.
Definition OP_PUBKEYHASH : Z := 0xfd.
Definition OP_PUBKEY : Z := 0xfe.
Definition OP_INVALIDOPCODE : Z := 0xff.

Definition GetOpName (opcode : opcodetype) : string :=
  if opcode =? OP_0 then "0"
  else if opcode =? OP_PUSHDATA1 then "OP_PUSHDATA1"
  else if opcode =? OP_PUSHDATA2 then "OP_PUSHDATA2"
  else if opcode =? OP_PUSHDATA4 then "OP_PUSHDATA4"
  else if opcode =? OP_1NEGATE then "-1"
  else if opcode =? OP_RESERVED then "OP_RESERVED"
  else if opcode =? OP_1 then "1"
  else if opcode =? OP_2 then "2"
  else if opcode =? OP_3 then "3"
  else if opcode =? OP_4 then "4"
  else if opcode =? OP_5 then "5"
  else if opcode =? OP_6 then "6"
  else if opcode =? OP_7 then "7"
  else if opcode =? OP_8 then "8"
  else if opcode =? OP_9 then "9"
  else if opcode =? OP_10 then "10"
  else if opcode =? OP_11 then "11"
  else if opcode =? OP_12 then "12"
  else if opcode =? OP_13 then "13"
  else if opcode =? OP_14 then "14"
  else if opcode =? OP_15 then "15"
  else if opcode =? OP_16 then "16"
  else if opcode =? OP_NOP then "OP_NOP"
  else if opcode =? OP_VER then "OP_VER"
  else if opcode =? OP_IF then "OP_IF"
  else if opcode =? OP_NOTIF then "OP_NOTIF"
  else if opcode =? OP_VERIF then "OP_VERIF"
  else if opcode =? OP_VERNOTIF then "OP_VERNOTIF"
  else if opcode =? OP_ELSE then "OP_ELSE"
  else if opcode =? OP_ENDIF then "OP_ENDIF"
  else if opcode =? OP_VERIFY then "OP_VERIFY"
  else if opcode =? OP_RETURN then "OP_RETURN"
  else if opcode =? OP_TOALTSTACK then "OP_TOALTSTACK"
  else if opcode =? OP_FROMALTSTACK then "OP_FROMALTSTACK"
  else if opcode =? OP_2DROP then "OP_2DROP"
  else if opcode =? OP_2DUP then "OP_2DUP"
  else if opcode =? OP_3DUP then "OP_3DUP"
  else if opcode =? OP_2OVER then "OP_2OVER"
  else if opcode =? OP_2ROT then "OP_2ROT"
  else if opcode =? OP_2SWAP then "OP_2SWAP"
  else if opcode =? OP_IFDUP then "OP_IFDUP"
  else if opcode =? OP_DEPTH then "OP_DEPTH"
  else if opcode =? OP_DROP then "OP_DROP"
  else if opcode =? OP_DUP then "OP_DUP"
  else if opcode =? OP_NIP then "OP_NIP"
  else if opcode =? OP_OVER then "OP_OVER"
  else if opcode =? OP_PICK then "OP_PICK"
  else if opcode =? OP_ROLL then "OP_ROLL"
  else if opcode =? OP_ROT then "OP_ROT"
  else if opcode =? OP_SWAP then "OP_SWAP"
  else if opcode =? OP_TUCK then "OP_TUCK"
  else if opcode =? OP_CAT then "OP_CAT"
  else if opcode =? OP_SUBSTR then "OP_SUBSTR"
  else if opcode =? OP_LEFT then "OP_LEFT"
  else if opcode =? OP_RIGHT then "OP_RIGHT"
  else if opcode =? OP_SIZE then "OP_SIZE"
  else if opcode =? OP_INVERT then "OP_INVERT"
  else if opcode =? OP_AND then "OP_AND"
  else if opcode =? OP_OR then "OP_OR"
  else if opcode =? OP_XOR then "OP_XOR"
  else if opcode =? OP_EQUAL then "OP_EQUAL"
  else if opcode =? OP_EQUALVERIFY then "OP_EQUALVERIFY"
  else if opcode =? OP_RESERVED1 then "OP_RESERVED1"
  else if opcode =? OP_RESERVED2 then "OP_RESERVED2"
  else if opcode =? OP_1ADD then "OP_1ADD"
  else if opcode =? OP_1SUB then "OP_1SUB"
  else if opcode =? OP_2MUL then "OP_2MUL"
  else if opcode =? OP_2DIV then "OP_2DIV"
  else if opcode =? OP_NEGATE then "OP_NEGATE"
  else if opcode =? OP_ABS then "OP_ABS"
  else if opcode =? OP_NOT then "OP_NOT"
  else if opcode =? OP_0NOTEQUAL then "OP_0NOTEQUAL"
  else if opcode =? OP_ADD then "OP_ADD"
  else if opcode =? OP_SUB then "OP_SUB"
  else if opcode =? OP_MUL then "OP_MUL"
  else if opcode =? OP_DIV then "OP_DIV"
  else if opcode =? OP_MOD then "OP_MOD"
  else if opcode =? OP_LSHIFT then "OP_LSHIFT"
  else if opcode =? OP_RSHIFT then "OP_RSHIFT"
  else if opcode =? OP_BOOLAND then "OP_BOOLAND"
  else if opcode =? OP_BOOLOR then "OP_BOOLOR"
  else if opcode =? OP_NUMEQUAL then "OP_NUMEQUAL"
  else if opcode =? OP_NUMEQUALVERIFY then "OP_NUMEQUALVERIFY"
  else if opcode =? OP_NUMNOTEQUAL then "OP_NUMNOTEQUAL"
  else if opcode =? OP_LESSTHAN then "OP_LESSTHAN"
  else if opcode =? OP_GREATERTHAN then "OP_GREATERTHAN"
  else if opcode =? OP_LESSTHANOREQUAL then "OP_LESSTHANOREQUAL"
  else if opcode =? OP_GREATERTHANOREQUAL then "OP_GREATERTHANOREQUAL"
  else if opcode =? OP_MIN then "OP_MIN"
  else if opcode =? OP_MAX then "OP_MAX"
  else if opcode =? OP_WITHIN then "OP_WITHIN"
  else if opcode =? OP_RIPEMD160 then "OP_RIPEMD160"
  else if opcode =? OP_SHA1 then "OP_SHA1"
  else if opcode =? OP_SHA256 then "OP_SHA256"
  else if opcode =? OP_HASH160 then "OP_HASH160"
  else if opcode =? OP_HASH256 then "OP_HASH256"
  else if opcode =? OP_CODESEPARATOR then "OP_CODESEPARATOR"
  else if opcode =? OP_CHECKSIG then "OP_CHECKSIG"
  else if opcode =? OP_CHECKSIGVERIFY then "OP_CHECKSIGVERIFY"
  else if opcode =? OP_CHECKMULTISIG then "OP_CHECKMULTISIG"
  else if opcode =? OP_CHECKMULTISIGVERIFY then "OP_CHECKMULTISIGVERIFY"
  else if opcode =? OP_NOP1 then "OP_NOP1"
  else if opcode =? OP_NOP2 then "OP_NOP2"
  else if opcode =? OP_NOP3 then "OP_NOP3"
  else if opcode =? OP_NOP4 then "OP_NOP4"
  else if opcode =? OP_NOP5 then "OP_NOP5"
  else if opcode =? OP_NOP6 then "OP_NOP6"
  else if opcode =? OP_NOP7 then "OP_NOP7"
  else if opcode =? OP_NOP8 then "OP_NOP8"
  else if opcode =? OP_NOP9 then "OP_NOP9"
  else if opcode =? OP_NOP10 then "OP_NOP10"
  else if opcode =? OP_ZEROCOINMINT then "OP_ZEROCOINMINT"
  else if opcode =? OP_ZEROCOINSPEND then "OP_ZEROCOINSPEND"
  else if opcode =? OP_INVALIDOPCODE then "OP_INVALIDOPCODE"
  else "OP_UNKNOWN".

(** ** Script numbers *)

Inductive scriptnum_error : Type :=
| script_number_overflow
| non_minimally_encoded.

(** The value of a [CScriptNum] is its [m_value], an [int64_t]. *)
Definition nMaxNumSize : Z := 4.

Definition back (v : valtype) : Z := byte.unsigned (List.last v Byte.x00).
Definition set_back (v : valtype) (b : byte) : valtype := removelast v ++ [b].

(** [while (absvalue) { result.push_back(absvalue & 0xff); absvalue >>= 8; }]; an
    [uint64_t] is exhausted after eight turns. *)
Fixpoint push_abs (fuel : nat) (absvalue : Z) (result : valtype) : valtype :=
  match fuel with
  | O => result
  | S f => if absvalue =? 0 then result
           else push_abs f (Z.shiftr absvalue 8) (result ++ [byte.of_Z (Z.land absvalue 0xff)])
  end.

(** The values are those with [- 2 ^ 63 < value < 2 ^ 63].  For the one [int64_t] left,
    [- 2 ^ 63], the code negates the value, which overflows; nothing here depends on what
    the definition gives there. *)
Definition serialize (value : Z) : valtype :=
  if value =? 0 then [] else
  let neg := value <? 0 in
  let absvalue := u64 (if neg then - value else value) in
  let result := push_abs 8 absvalue [] in
  if negb (Z.land (back result) 0x80 =? 0) then result ++ [if neg then Byte.x80 else Byte.x00]
  else if neg then set_back result (byte.of_Z (Z.lor (back result) 0x80))
  else result.
Definition getvch (m_value : Z) : valtype := serialize m_value.

(** [result |= static_cast<int64_t>(vch[i]) << 8*i], for at most eight bytes: with a ninth
    the code shifts by 64 bits, which is undefined.  The only caller, the constructor,
    refuses more than [nMaxNumSize] bytes. *)
Fixpoint or_bytes (i : Z) (vch : valtype) (result : Z) : Z :=
  match vch with
  | [] => result
  | b :: vch => or_bytes (i + 1) vch (Z.lor result (Z.shiftl (byte.unsigned b) (8 * i)))
  end.

Definition set_vch (vch : valtype) : Z :=
  match vch with
  | [] => 0
  | _ =>
      let result := or_bytes 0 vch 0 in
      if negb (Z.land (back vch) 0x80 =? 0)
      then - Z.land result (Z.lnot (Z.shiftl 0x80 (8 * (Z.of_nat (length vch) - 1))))
      else result
  end.

(** [explicit CScriptNum(const std::vector<unsigned char>& vch, bool fRequireMinimal)] *)
Definition CScriptNum_vch (vch : valtype) (fRequireMinimal : bool) : result scriptnum_error Z :=
  if Z.of_nat (length vch) >? nMaxNumSize then Err script_number_overflow else
  if fRequireMinimal && (0 <? length vch)%nat && (Z.land (back vch) 0x7f =? 0)
     && ((length vch <=? 1)%nat ||
         (Z.land (byte.unsigned (nth (length vch - 2) vch Byte.x00)) 0x80 =? 0))
  then Err non_minimally_encoded
  else Ret (set_vch vch).

Definition getint (m_value : Z) : Z :=
  if m_value >? 2 ^ 31 - 1 then 2 ^ 31 - 1
  else if m_value <? - 2 ^ 31 then - 2 ^ 31
  else m_value.

(** The operators with their assertions; [None] is an assertion failure. *)
Definition num_neg (x : Z) : option Z := if negb (x =? - 2 ^ 63) then Some (- x) else None.
Definition num_add_assign (x rhs : Z) : option Z :=
  if (rhs =? 0) || ((rhs >? 0) && (x <=? 2 ^ 63 - 1 - rhs)) || ((rhs <? 0) && (x >=? - 2 ^ 63 - rhs))
  then Some (x + rhs) else None.
Definition num_sub_assign (x rhs : Z) : option Z :=
  if (rhs =? 0) || ((rhs >? 0) && (x >=? - 2 ^ 63 + rhs)) || ((rhs <? 0) && (x <=? 2 ^ 63 - 1 + rhs))
  then Some (x - rhs) else None.

(** ** Building scripts *)

(** [operator<<(const std::vector<unsigned char>& b)] *)
Definition push_data (s : CScript) (b : valtype) : CScript :=
  let size := Z.of_nat (length b) in
  (if size <? OP_PUSHDATA1 then s ++ [byte.of_Z size]
   else if size <=? 0xff then s ++ [byte.of_Z OP_PUSHDATA1] ++ [byte.of_Z size]
   else if size <=? 0xffff then s ++ [byte.of_Z OP_PUSHDATA2] ++ le_split 2 size
   else s ++ [byte.of_Z OP_PUSHDATA4] ++ le_split 4 size) ++ b.

(** [operator<<(opcodetype opcode)]; [None] is the [runtime_error]. *)
Definition push_opcode (s : CScript) (opcode : opcodetype) : option CScript :=
  if (opcode <? 0) || (opcode >? 0xff) then None else Some (s ++ [byte.of_Z opcode]).

(** [push_int64], [operator<<(int64_t b)] *)
Definition push_int64 (s : CScript) (n : Z) : CScript :=
  if (n =? -1) || ((n >=? 1) && (n <=? 16)) then s ++ [byte.of_Z (n + (OP_1 - 1))]
  else if n =? 0 then s ++ [byte.of_Z OP_0]
  else push_data s (serialize n).

Definition DecodeOP_N (opcode : opcodetype) : option Z :=
  if opcode =? OP_0 then Some 0
  else if (opcode >=? OP_1) && (opcode <=? OP_16) then Some (opcode - (OP_1 - 1))
  else None.
Definition EncodeOP_N (n : Z) : option opcodetype :=
  if (n >=? 0) && (n <=? 16) then Some (if n =? 0 then OP_0 else OP_1 + n - 1) else None.

(** ** Decoding *)

(** What [GetOp2] leaves: the result, the iterator, the opcode and the pushed data. *)
Record op_result : Type := mk_op {
  op_ok : bool; op_pc : list byte; op_code : opcodetype; op_data : valtype }.

(** The size of the immediate operand: [None] is an early [return false]. *)
Definition GetOp_size (opcode : Z) (pc : list byte) : option Z * list byte :=
  if opcode <? OP_PUSHDATA1 then (Some opcode, pc)
  else if opcode =? OP_PUSHDATA1 then
    match pc with [] => (None, pc) | b :: pc => (Some (byte.unsigned b), pc) end
  else if opcode =? OP_PUSHDATA2 then
    if (length pc <? 2)%nat then (None, pc) else (Some (le_combine (take 2 pc)), drop 2 pc)
  else if (length pc <? 4)%nat then (None, pc) else (Some (le_combine (take 4 pc)), drop 4 pc).

Definition GetOp2 (pc : list byte) : op_result :=
  match pc with
  | [] => mk_op false [] OP_INVALIDOPCODE []
  | b :: pc =>
      let opcode := byte.unsigned b in
      if opcode <=? OP_PUSHDATA4 then
        match GetOp_size opcode pc with
        | (None, pc) => mk_op false pc OP_INVALIDOPCODE []
        | (Some nSize, pc) =>
            if Z.of_nat (length pc) <? nSize then mk_op false pc OP_INVALIDOPCODE []
            else mk_op true (drop (Z.to_nat nSize) pc) opcode (take (Z.to_nat nSize) pc)
        end
      else mk_op true pc opcode []
  end.

(** ** Scans *)

(** The bytes [pc2, pc) when [pc] is reached from [pc2]. *)
Definition range (pc2 pc : list byte) : list byte := take (length pc2 - length pc) pc2.

Fixpoint is_prefix (b s : list byte) : bool :=
  match b, s with
  | [], _ => true
  | x :: b, y :: s => bool_decide (x = y) && is_prefix b s
  | _ :: _, [] => false
  end.

(** The inner [while] of [FindAndDelete]. *)
Fixpoint FindAndDelete_skip (fuel : nat) (b pc : list byte) (nFound : Z) : list byte * Z :=
  match fuel with
  | O => (pc, nFound)
  | S f => if (length b <=? length pc)%nat && is_prefix b pc
           then FindAndDelete_skip f b (drop (length b) pc) (nFound + 1)
           else (pc, nFound)
  end.

(** The [do ... while (GetOp(pc, opcode))] loop: [result], [pc2] and [nFound] at its end. *)
Fixpoint FindAndDelete_loop (fuel : nat) (b result pc2 pc : list byte) (nFound : Z)
    : list byte * list byte * Z :=
  match fuel with
  | O => (result, pc2, nFound)
  | S f =>
      let result := result ++ range pc2 pc in
      let '(pc, nFound) := FindAndDelete_skip (length pc) b pc nFound in
      let pc2 := pc in
      let op := GetOp2 pc in
      if op_ok op then FindAndDelete_loop f b result pc2 (op_pc op) nFound
      else (result, pc2, nFound)
  end.

Definition FindAndDelete (script b : CScript) : CScript * Z :=
  match b with
  | [] => (script, 0)
  | _ =>
      let '(result, pc2, nFound) := FindAndDelete_loop (S (length script)) b [] script script 0 in
      (if nFound >? 0 then result ++ pc2 else script, nFound)
  end.

Fixpoint Find_loop (fuel : nat) (op : opcodetype) (pc : list byte) (nFound : Z) : Z :=
  match fuel, pc with
  | S f, _ :: _ =>
      let r := GetOp2 pc in
      if op_ok r then Find_loop f op (op_pc r) (if op_code r =? op then nFound + 1 else nFound)
      else nFound
  | _, _ => nFound
  end.
Definition Find (script : CScript) (op : opcodetype) : Z := Find_loop (length script) op script 0.

(** The sigops of one instruction. *)
Definition sigops (fAccurate : bool) (lastOpcode opcode : opcodetype) : Z :=
  if (opcode =? OP_CHECKSIG) || (opcode =? OP_CHECKSIGVERIFY) then 1
  else if (opcode =? OP_CHECKMULTISIG) || (opcode =? OP_CHECKMULTISIGVERIFY) then
    if fAccurate && (lastOpcode >=? OP_1) && (lastOpcode <=? OP_16)
    then default 0 (DecodeOP_N lastOpcode) else 20
  else 0.

Fixpoint GetSigOpCount_loop (fuel : nat) (fAccurate : bool) (lastOpcode : opcodetype)
    (pc : list byte) (n : Z) : Z :=
  match fuel, pc with
  | S f, _ :: _ =>
      let r := GetOp2 pc in
      if op_ok r
      then GetSigOpCount_loop f fAccurate (op_code r) (op_pc r) (n + sigops fAccurate lastOpcode (op_code r))
      else n
  | _, _ => n
  end.
Definition GetSigOpCount (script : CScript) (fAccurate : bool) : Z :=
  GetSigOpCount_loop (length script) fAccurate OP_INVALIDOPCODE script 0.

Definition byte_at (s : CScript) (i : nat) : Z := byte.unsigned (nth i s Byte.x00).

Definition IsPayToPublicKeyHash (s : CScript) : bool :=
  (Z.of_nat (length s) =? 25) && (byte_at s 0 =? OP_DUP) && (byte_at s 1 =? OP_HASH160) &&
  (byte_at s 2 =? 0x14) && (byte_at s 23 =? OP_EQUALVERIFY) && (byte_at s 24 =? OP_CHECKSIG).

Definition IsPayToScriptHash (s : CScript) : bool :=
  (Z.of_nat (length s) =? 23) && (byte_at s 0 =? OP_HASH160) && (byte_at s 1 =? 0x14) &&
  (byte_at s 22 =? OP_EQUAL).

Definition IsZerocoinMint (s : CScript) : bool :=
  (0 <? length s)%nat && (byte_at s 0 =? OP_ZEROCOINMINT).
Definition IsZerocoinSpend (s : CScript) : bool :=
  (0 <? length s)%nat && (byte_at s 0 =? OP_ZEROCOINSPEND).

(** The last item pushed by a scriptSig made of pushes; [None] is [return 0]. *)
Fixpoint last_push (fuel : nat) (pc : list byte) (data : valtype) : option valtype :=
  match fuel, pc with
  | S f, _ :: _ =>
      let r := GetOp2 pc in
      if negb (op_ok r) then None else if op_code r >? OP_16 then None
      else last_push f (op_pc r) (op_data r)
  | _, _ => Some data
  end.

(** [GetSigOpCount(const CScript& scriptSig)] *)
Definition GetSigOpCount_P2SH (script scriptSig : CScript) : Z :=
  if negb (IsPayToScriptHash script) then GetSigOpCount script true else
  match last_push (length scriptSig) scriptSig [] with
  | None => 0
  | Some data => GetSigOpCount data true
  end.

Fixpoint IsNormalPaymentScript_loop (fuel : nat) (i : Z) (pc : list byte) : bool :=
  match fuel, pc with
  | S f, _ :: _ =>
      let r := GetOp2 pc in
      let opcode := op_code r in
      if (i =? 0) && negb (opcode =? OP_DUP) then false
      else if (i =? 1) && negb (opcode =? OP_HASH160) then false
      else if (i =? 3) && negb (opcode =? OP_EQUALVERIFY) then false
      else if (i =? 4) && negb (opcode =? OP_CHECKSIG) then false
      else if i =? 5 then false
      else IsNormalPaymentScript_loop f (i + 1) (op_pc r)
  | _, _ => true
  end.
Definition IsNormalPaymentScript (s : CScript) : bool :=
  if negb (Z.of_nat (length s) =? 25) then false
  else IsNormalPaymentScript_loop (length s) 0 s.

Fixpoint IsPushOnly_loop (fuel : nat) (pc : list byte) : bool :=
  match fuel, pc with
  | S f, _ :: _ =>
      let r := GetOp2 pc in
      if negb (op_ok r) then false else if op_code r >? OP_16 then false
      else IsPushOnly_loop f (op_pc r)
  | _, _ => true
  end.
Definition IsPushOnly (s : CScript) : bool := IsPushOnly_loop (length s) s.

Definition IsUnspendable (s : CScript) : bool :=
  ((0 <? length s)%nat && (byte_at s 0 =? OP_RETURN)) || (Z.of_nat (length s) >? MAX_SCRIPT_SIZE).

(** ** Script numbers: encoding and decoding *)

Lemma byte_sign (b : byte) : negb (Z.land (byte.unsigned b) 0x80 =? 0) = (128 <=? byte.unsigned b).
Proof. by destruct b. Qed.

Lemma byte_sign0 (b : byte) : (Z.land (byte.unsigned b) 0x80 =? 0) = (byte.unsigned b <? 128).
Proof. by destruct b. Qed.

Lemma byte_low (b : byte) : Z.land (byte.unsigned b) 0x7f = byte.unsigned b mod 128.
Proof. by destruct b. Qed.

Lemma byte_set_sign (b : byte) : byte.unsigned b < 128 ->
  byte.unsigned (byte.of_Z (Z.lor (byte.unsigned b) 0x80)) = byte.unsigned b + 128.
Proof. destruct b; intros H; first [reflexivity | vm_compute in H; discriminate H]. Qed.

Lemma unsigned_range (b : byte) : 0 <= byte.unsigned b < 256.
Proof. apply byte.unsigned_range. Qed.

Lemma unsigned_of_Z_small z : 0 <= z < 256 -> byte.unsigned (byte.of_Z z) = z.
Proof. intros. rewrite byte.unsigned_of_Z. by apply Z.mod_small. Qed.

Lemma back_snoc l b : back (l ++ [b]) = byte.unsigned b.
Proof. unfold back. by rewrite List.last_last. Qed.

Lemma set_back_snoc l b c : set_back (l ++ [b]) c = l ++ [c].
Proof. unfold set_back. by rewrite removelast_last. Qed.

Lemma le_combine_cons b l : le_combine (b :: l) = byte.unsigned b + 256 * le_combine l.
Proof.
  change (le_combine (b :: l)) with (Z.lor (byte.unsigned b) (Z.shiftl (le_combine l) 8)).
  pose proof (unsigned_range b). rewrite Z.shiftl_mul_pow2, lor_disjoint_add by lia. lia.
Qed.

Lemma le_combine_snoc l b :
  le_combine (l ++ [b]) = le_combine l + 256 ^ Z.of_nat (length l) * byte.unsigned b.
Proof.
  induction l as [|c l IH].
  - rewrite app_nil_l, le_combine_cons. simpl length. change (le_combine []) with 0. lia.
  - rewrite <- app_comm_cons, !le_combine_cons, IH. cbn [length].
    rewrite Nat2Z.inj_succ, Z.pow_succ_r by lia. lia.
Qed.

Lemma le_combine_nonneg l : 0 <= le_combine l.
Proof. apply le_combine_bound. Qed.

Lemma le_combine_lt l : le_combine l < 256 ^ Z.of_nat (length l).
Proof.
  pose proof (le_combine_bound l) as [_ H]. rewrite Z.pow_mul_r in H by lia. exact H.
Qed.

(** Digits without superfluous high zero. *)
Definition canonical (l : list byte) : Prop := l <> [] -> back l <> 0.

Lemma canonical_nil : canonical [].
Proof. by intros ?. Qed.

Lemma canonical_tail b l : canonical (b :: l) -> canonical l.
Proof.
  intros H Hl. specialize (H ltac:(done)). destruct l as [|c l] using rev_ind; [done|].
  rewrite back_snoc. by rewrite app_comm_cons, back_snoc in H.
Qed.

Lemma canonical_pos l : canonical l -> l <> [] -> 0 < le_combine l.
Proof.
  intros H Hl. specialize (H Hl). destruct l as [|c l _] using rev_ind; [done|].
  rewrite back_snoc in H. rewrite le_combine_snoc.
  pose proof (unsigned_range c). pose proof (le_combine_nonneg l).
  pose proof (Z.pow_pos_nonneg 256 (Z.of_nat (length l))). nia.
Qed.

Lemma canonical_unique l1 l2 : canonical l1 -> canonical l2 ->
  le_combine l1 = le_combine l2 -> l1 = l2.
Proof.
  revert l2. induction l1 as [|b1 l1 IH]; intros [|b2 l2] C1 C2 H; [done| | |].
  - pose proof (canonical_pos _ C2 ltac:(done)). change (le_combine []) with 0 in H. lia.
  - pose proof (canonical_pos _ C1 ltac:(done)). change (le_combine []) with 0 in H. lia.
  - rewrite !le_combine_cons in H. pose proof (unsigned_range b1). pose proof (unsigned_range b2).
    assert (byte.unsigned b1 = byte.unsigned b2) as E by lia.
    apply byte.unsigned_inj in E as ->. f_equal. apply IH; [by eapply canonical_tail..|lia].
Qed.

Lemma push_abs_spec f a r : 0 <= a < 256 ^ Z.of_nat f ->
  exists l, push_abs f a r = r ++ l /\ canonical l /\ le_combine l = a.
Proof.
  revert a r. induction f as [|f IH]; intros a r Ha.
  { exists []. simpl in *. rewrite app_nil_r. split; [done|]. split; [apply canonical_nil|].
    rewrite le_combine_nil. lia. }
  cbn -[Z.shiftr Z.land Z.eqb Z.pow byte.of_Z]. destruct (Z.eqb_spec a 0) as [->|Hz].
  { exists []. rewrite app_nil_r. split; [done|]. split; [apply canonical_nil|done]. }
  rewrite Nat2Z.inj_succ, Z.pow_succ_r in Ha by lia.
  rewrite Z.shiftr_div_pow2 by lia. change (2 ^ 8) with 256.
  change 0xff with (2 ^ 8 - 1). rewrite land_ones_mod by lia. change (2 ^ 8) with 256.
  destruct (IH (a / 256) (r ++ [byte.of_Z (a mod 256)])) as (l & -> & C & V).
  { Z.div_mod_to_equations; lia. }
  assert (0 <= a mod 256 < 256) by (apply Z.mod_pos_bound; lia).
  exists (byte.of_Z (a mod 256) :: l). rewrite <- app_assoc. split; [done|].
  rewrite le_combine_cons, unsigned_of_Z_small, V by lia. split; [|Z.div_mod_to_equations; lia].
  intros _. destruct l as [|c l _] using rev_ind.
  - change (le_combine []) with 0 in V. unfold back. simpl. rewrite unsigned_of_Z_small by lia.
    Z.div_mod_to_equations; lia.
  - rewrite app_comm_cons, back_snoc. rewrite <- (back_snoc l c). apply C. by destruct l.
Qed.

(** The sign and magnitude of a byte vector, most significant bit of the last byte
    as the sign. *)
Lemma or_bytes_combine i vch r : 0 <= i -> 0 <= r < 2 ^ (8 * i) ->
  or_bytes i vch r = r + 2 ^ (8 * i) * le_combine vch.
Proof.
  revert i r. induction vch as [|b vch IH]; intros i r Hi Hr; cbn [or_bytes].
  { change (le_combine []) with 0. lia. }
  pose proof (unsigned_range b).
  assert (P : 2 ^ (8 * (i + 1)) = 256 * 2 ^ (8 * i)).
  { replace (8 * (i + 1)) with (8 + 8 * i) by lia. rewrite Z.pow_add_r by lia. done. }
  rewrite Z.shiftl_mul_pow2, lor_disjoint_add by lia.
  rewrite IH, le_combine_cons, P by nia. lia.
Qed.

Lemma testbit_128 j : Z.testbit 128 j = (7 =? j).
Proof. change 128 with (2 ^ 7). by apply Z.pow2_bits_eqb. Qed.

Lemma set_vch_snoc l b :
  set_vch (l ++ [b]) =
    if 128 <=? byte.unsigned b
    then - (le_combine l + 256 ^ Z.of_nat (length l) * (byte.unsigned b - 128))
    else le_combine l + 256 ^ Z.of_nat (length l) * byte.unsigned b.
Proof.
  unfold set_vch. destruct (l ++ [b]) as [|x y] eqn:E; [by destruct l|]. rewrite <- E. clear E x y.
  rewrite back_snoc, byte_sign, or_bytes_combine by lia.
  rewrite Z.mul_0_r, Z.mul_1_l, Z.add_0_l, le_combine_snoc, length_app. cbn [length].
  replace (Z.of_nat (length l + 1) - 1) with (Z.of_nat (length l)) by lia.
  destruct (Z.leb_spec 128 (byte.unsigned b)); [|done]. f_equal.
  pose proof (unsigned_range b). pose proof (le_combine_nonneg l). pose proof (le_combine_lt l) as L.
  set (n := Z.of_nat (length l)) in *.
  assert (P : 256 ^ n = 2 ^ (8 * n)) by (rewrite (Z.pow_mul_r 2) by lia; done).
  rewrite P in *. set (m := le_combine l) in *.
  replace (m + 2 ^ (8 * n) * byte.unsigned b)
    with (Z.lor (m + (byte.unsigned b - 128) * 2 ^ (8 * n)) (1 * 2 ^ (8 * n + 7))).
  - apply Z.bits_inj'. intros i Hi.
    rewrite Z.land_spec, Z.lor_spec, Z.lnot_spec, Z.mul_1_l, Z.shiftl_spec, Z.pow2_bits_eqb by lia.
    rewrite testbit_128.
    destruct (Z.eqb_spec (8 * n + 7) i), (Z.eqb_spec 7 (i - 8 * n)); try lia.
    + rewrite orb_true_r. simpl. symmetry. apply (testbit_high _ (8 * n + 7)); [|lia].
      rewrite Z.pow_add_r by lia. change (2 ^ 7) with 128. nia.
    + by rewrite orb_false_r, andb_true_r, (Z.mul_comm (2 ^ (8 * n))).
  - rewrite lor_disjoint_add by (rewrite ?Z.pow_add_r by lia; change (2 ^ 7) with 128; nia).
    rewrite Z.pow_add_r by lia. change (2 ^ 7) with 128. lia.
Qed.

Lemma serialize_digits D n : canonical D -> le_combine D = Z.abs n -> n <> 0 -> Z.abs n < 2 ^ 64 ->
  serialize n =
    if 128 <=? back D then D ++ [if n <? 0 then Byte.x80 else Byte.x00]
    else if n <? 0 then set_back D (byte.of_Z (Z.lor (back D) 0x80)) else D.
Proof.
  intros C V Hn Hb. unfold serialize. destruct (Z.eqb_spec n 0) as [|_]; [done|].
  assert (A : u64 (if n <? 0 then - n else n) = Z.abs n).
  { rewrite u64_small; [|unfold in_u64]; destruct (Z.ltb_spec n 0); lia. }
  rewrite A. destruct (push_abs_spec 8 (Z.abs n) []) as (l & -> & Cl & Vl); [simpl; lia|].
  rewrite app_nil_l. assert (l = D) as -> by (apply canonical_unique; [done..|lia]).
  unfold back. by rewrite byte_sign.
Qed.

Lemma digits_exist n : 0 < n < 2 ^ 64 ->
  exists l c, canonical (l ++ [c]) /\ le_combine (l ++ [c]) = n /\ 0 < byte.unsigned c.
Proof.
  intros Hn. destruct (push_abs_spec 8 n []) as (D & _ & C & V); [simpl; lia|].
  destruct D as [|c l _] using rev_ind; [rewrite le_combine_nil in V; lia|].
  exists l, c. split; [done|]. split; [done|]. pose proof (unsigned_range c).
  specialize (C ltac:(by destruct l)). rewrite back_snoc in C. lia.
Qed.

(** Decoding what was encoded. *)
Lemma set_vch_serialize n : Z.abs n < 2 ^ 64 -> set_vch (serialize n) = n.
Proof.
  intros Hn. destruct (decide (n = 0)) as [->|Hz]; [done|].
  destruct (digits_exist (Z.abs n)) as (l & c & C & V & Hc); [lia|].
  rewrite (serialize_digits (l ++ [c])) by lia || done.
  rewrite back_snoc. pose proof (unsigned_range c). rewrite le_combine_snoc in V.
  destruct (Z.leb_spec 128 (byte.unsigned c)).
  - rewrite set_vch_snoc, le_combine_snoc. destruct (Z.ltb_spec n 0); simpl byte.unsigned.
    + change (byte.unsigned Byte.x80) with 128. simpl. lia.
    + change (byte.unsigned Byte.x00) with 0. simpl. lia.
  - destruct (Z.ltb_spec n 0).
    + rewrite set_back_snoc, set_vch_snoc, byte_set_sign by lia.
      destruct (Z.leb_spec 128 (byte.unsigned c + 128)); [|lia]. rewrite Z.add_simpl_r. lia.
    + rewrite set_vch_snoc. destruct (Z.leb_spec 128 (byte.unsigned c)); lia.
Qed.

(** The minimality test of the constructor. *)
Definition non_minimal (vch : list byte) : bool :=
  (0 <? length vch)%nat && (Z.land (back vch) 0x7f =? 0) &&
  ((length vch <=? 1)%nat ||
   (Z.land (byte.unsigned (nth (length vch - 2) vch Byte.x00)) 0x80 =? 0)).

Lemma non_minimal_snoc l b :
  non_minimal (l ++ [b]) = (byte.unsigned b mod 128 =? 0) && (back l <? 128).
Proof.
  unfold non_minimal. rewrite back_snoc, byte_low, length_app. cbn [length].
  destruct (Nat.ltb_spec 0 (length l + 1)); [|lia]. rewrite andb_true_l. f_equal.
  destruct l as [|c l _] using rev_ind; [done|].
  rewrite back_snoc, length_app. cbn [length].
  destruct (Nat.leb_spec (length l + 1 + 1) 1); [lia|]. rewrite orb_false_l, byte_sign0.
  replace (length l + 1 + 1 - 2)%nat with (length l) by lia. rewrite <- app_assoc.
  by rewrite app_nth2, Nat.sub_diag by lia.
Qed.

Lemma CScriptNum_vch_spec vch m : CScriptNum_vch vch m =
  if Z.of_nat (length vch) >? nMaxNumSize then Err script_number_overflow
  else if m && non_minimal vch then Err non_minimally_encoded else Ret (set_vch vch).
Proof. unfold CScriptNum_vch, non_minimal. by rewrite !andb_assoc. Qed.

(** Encoding is minimal. *)
Lemma serialize_minimal n : Z.abs n < 2 ^ 64 -> non_minimal (serialize n) = false.
Proof.
  intros Hn. destruct (decide (n = 0)) as [->|Hz]; [done|].
  destruct (digits_exist (Z.abs n)) as (l & c & C & V & Hc); [lia|].
  rewrite (serialize_digits (l ++ [c])) by lia || done.
  rewrite back_snoc. pose proof (unsigned_range c).
  destruct (Z.leb_spec 128 (byte.unsigned c)).
  - rewrite non_minimal_snoc, back_snoc. destruct (Z.ltb_spec (byte.unsigned c) 128); [lia|].
    apply andb_false_r.
  - destruct (Z.ltb_spec n 0).
    + rewrite set_back_snoc, non_minimal_snoc, byte_set_sign by lia.
      destruct (Z.eqb_spec ((byte.unsigned c + 128) mod 128) 0) as [E|]; [|done].
      Z.div_mod_to_equations; lia.
    + rewrite non_minimal_snoc.
      destruct (Z.eqb_spec (byte.unsigned c mod 128) 0) as [E|]; [|done].
      rewrite Z.mod_small in E; lia.
Qed.

(** A minimal encoding is the encoding of its value. *)
Lemma serialize_set_vch vch : (length vch <= 8)%nat -> non_minimal vch = false ->
  serialize (set_vch vch) = vch.
Proof.
  destruct vch as [|b l _] using rev_ind; [done|]. rewrite length_app. cbn [length]. intros Hl Hm.
  rewrite non_minimal_snoc in Hm. rewrite set_vch_snoc.
  pose proof (unsigned_range b). pose proof (le_combine_nonneg l). pose proof (le_combine_lt l) as L.
  assert (P : 0 < 256 ^ Z.of_nat (length l) <= 2 ^ 56).
  { split; [lia|]. change (2 ^ 56) with (256 ^ 7). apply Z.pow_le_mono_r; lia. }
  set (p := 256 ^ Z.of_nat (length l)) in *. set (m := le_combine l) in *.
  destruct (Z.eqb_spec (byte.unsigned b mod 128) 0) as [E|E]; simpl in Hm.
  - apply Z.ltb_ge in Hm. destruct l as [|c l _] using rev_ind; [done|].
    assert (C : canonical (l ++ [c])) by (intros _; lia).
    pose proof (canonical_pos _ C ltac:(by destruct l)).
    assert (byte.unsigned b = 0 \/ byte.unsigned b = 128) as [B|B] by (Z.div_mod_to_equations; lia);
      rewrite B; simpl; rewrite ?Z.mul_0_r, Z.add_0_r.
    + rewrite (serialize_digits (l ++ [c])) by (done || nia).
      destruct (Z.leb_spec 128 (back (l ++ [c]))); [|lia]. destruct (Z.ltb_spec m 0); [lia|].
      do 2 f_equal. symmetry. by apply byte.unsigned_inj.
    + rewrite (serialize_digits (l ++ [c])) by (done || nia).
      destruct (Z.leb_spec 128 (back (l ++ [c]))); [|lia]. destruct (Z.ltb_spec (- m) 0); [|lia].
      do 2 f_equal. symmetry. by apply byte.unsigned_inj.
  - set (d := byte.unsigned b mod 128) in *.
    assert (0 <= d < 128) by (apply Z.mod_pos_bound; lia).
    assert (C : canonical (l ++ [byte.of_Z d])).
    { intros _. rewrite back_snoc, unsigned_of_Z_small; lia. }
    assert (V : le_combine (l ++ [byte.of_Z d]) = m + p * d).
    { by rewrite le_combine_snoc, unsigned_of_Z_small by lia. }
    destruct (Z.leb_spec 128 (byte.unsigned b)).
    + assert (d = byte.unsigned b - 128) as D by (subst d; Z.div_mod_to_equations; lia).
      rewrite <- D. rewrite (serialize_digits (l ++ [byte.of_Z d])) by (done || nia).
      rewrite back_snoc, unsigned_of_Z_small by lia. destruct (Z.leb_spec 128 d); [lia|].
      destruct (Z.ltb_spec (- (m + p * d)) 0); [|nia]. rewrite set_back_snoc. do 2 f_equal.
      apply byte.unsigned_inj. rewrite <- (unsigned_of_Z_small d), byte_set_sign
        by (rewrite ?unsigned_of_Z_small; lia). rewrite unsigned_of_Z_small; lia.
    + assert (d = byte.unsigned b) as D by (subst d; Z.div_mod_to_equations; lia).
      rewrite <- D, (serialize_digits (l ++ [byte.of_Z d])) by (done || nia).
      rewrite back_snoc, unsigned_of_Z_small by lia. destruct (Z.leb_spec 128 d); [lia|].
      destruct (Z.ltb_spec (m + p * d) 0); [nia|]. do 2 f_equal.
      apply byte.unsigned_inj. rewrite unsigned_of_Z_small; lia.
Qed.

(** Four bytes hold exactly the integers of absolute value below [2 ^ 31]. *)
Lemma set_vch_range vch : (length vch <= 4)%nat -> Z.abs (set_vch vch) < 2 ^ 31.
Proof.
  destruct vch as [|b l _] using rev_ind; [done|]. rewrite length_app. cbn [length]. intros Hl.
  rewrite set_vch_snoc. pose proof (unsigned_range b).
  pose proof (le_combine_nonneg l). pose proof (le_combine_lt l) as L.
  assert (P : 0 < 256 ^ Z.of_nat (length l) <= 2 ^ 24).
  { split; [lia|]. change (2 ^ 24) with (256 ^ 3). apply Z.pow_le_mono_r; lia. }
  destruct (Z.leb_spec 128 (byte.unsigned b)); nia.
Qed.

Lemma serialize_length n : Z.abs n < 2 ^ 31 -> (length (serialize n) <= 4)%nat.
Proof.
  intros Hn. destruct (decide (n = 0)) as [->|Hz]; [simpl; lia|].
  destruct (digits_exist (Z.abs n)) as (l & c & C & V & Hc); [lia|].
  rewrite (serialize_digits (l ++ [c])) by lia || done.
  rewrite le_combine_snoc in V. pose proof (unsigned_range c). pose proof (le_combine_nonneg l).
  assert (Z.of_nat (length l) < 4).
  { destruct (Z.ltb_spec (Z.of_nat (length l)) 4); [done|].
    assert (2 ^ 32 <= 256 ^ Z.of_nat (length l)); [|nia].
    change (2 ^ 32) with (256 ^ 4). apply Z.pow_le_mono_r; lia. }
  rewrite back_snoc. destruct (Z.leb_spec 128 (byte.unsigned c)).
  - assert (length l <> 3%nat). { intros E. rewrite E in V. change (256 ^ Z.of_nat 3) with (2 ^ 24) in V. lia. }
    rewrite !length_app. simpl. lia.
  - destruct (n <? 0); rewrite ?set_back_snoc, length_app; simpl; lia.
Qed.

(** Script numbers. Decoding inverts encoding on every [int64_t]; and the
    constructor with [fRequireMinimal] accepts exactly the encodings of the integers
    of absolute value below [2 ^ 31] (so each operand has one accepted encoding),
    failing with the overflow error exactly on vectors longer than four bytes. *)
Theorem scriptnum_bijection (n : Z) (vch : list byte) :
  (in_i64 n -> set_vch (getvch n) = n /\ non_minimal (getvch n) = false) /\
  (CScriptNum_vch vch true = Ret n <-> vch = getvch n /\ Z.abs n < 2 ^ 31) /\
  (forall m, CScriptNum_vch vch m = Err script_number_overflow <-> (4 < length vch)%nat) /\
  (forall m k, CScriptNum_vch vch m = Ret k -> Z.abs k < 2 ^ 31).
Proof.
  unfold getvch, in_i64. split; [|split; [|split]].
  - intros Hn. split; [apply set_vch_serialize|apply serialize_minimal]; lia.
  - rewrite CScriptNum_vch_spec. unfold nMaxNumSize. rewrite andb_true_l, Z.gtb_ltb. split.
    + destruct (Z.ltb_spec 4 (Z.of_nat (length vch))); [done|].
      destruct (non_minimal vch) eqn:E; [done|]. intros [= <-].
      split; [symmetry; apply serialize_set_vch; [lia|done]|apply set_vch_range; lia].
    + intros [-> Hn]. pose proof (serialize_length n Hn).
      destruct (Z.ltb_spec 4 (Z.of_nat (length (serialize n)))); [lia|].
      rewrite serialize_minimal, set_vch_serialize by lia. done.
  - intros m. rewrite CScriptNum_vch_spec. unfold nMaxNumSize. rewrite Z.gtb_ltb.
    destruct (Z.ltb_spec 4 (Z.of_nat (length vch))); [split; [lia|done]|].
    split; [|lia]. by destruct (m && _).
  - intros m k. rewrite CScriptNum_vch_spec. unfold nMaxNumSize. rewrite Z.gtb_ltb.
    destruct (Z.ltb_spec 4 (Z.of_nat (length vch))); [done|].
    destruct (m && _); [done|]. intros [= <-]. apply set_vch_range. lia.
Qed.

(** ** The decoder *)

Lemma GetOp_size_suffix opcode pc : exists used, pc = used ++ (GetOp_size opcode pc).2.
Proof.
  unfold GetOp_size. destruct (opcode <? OP_PUSHDATA1); [by exists []|].
  destruct (opcode =? OP_PUSHDATA1); [destruct pc; [by exists []|by exists [b]]|].
  destruct (opcode =? OP_PUSHDATA2).
  - destruct (length pc <? 2)%nat; [by exists []|]. exists (take 2 pc). simpl. by rewrite take_drop.
  - destruct (length pc <? 4)%nat; [by exists []|]. exists (take 4 pc). simpl. by rewrite take_drop.
Qed.

(** Decoding moves the iterator forward, also when it fails. *)
Lemma GetOp2_suffix pc : exists used, pc = used ++ op_pc (GetOp2 pc) /\ (pc <> [] -> used <> []).
Proof.
  unfold GetOp2. destruct pc as [|b pc]; [by exists []|].
  destruct (byte.unsigned b <=? OP_PUSHDATA4); [|by exists [b]].
  destruct (GetOp_size_suffix (byte.unsigned b) pc) as [u Hu].
  destruct (GetOp_size (byte.unsigned b) pc) as [[n|] pc']; simpl in Hu; subst pc.
  - destruct (Z.of_nat (length pc') <? n); simpl; [by exists (b :: u)|].
    exists (b :: u ++ take (Z.to_nat n) pc'). split; [|done].
    by rewrite <- app_comm_cons, <- app_assoc, take_drop.
  - by exists (b :: u).
Qed.

Lemma GetOp2_length pc : pc <> [] -> (length (op_pc (GetOp2 pc)) < length pc)%nat.
Proof.
  intros H. destruct (GetOp2_suffix pc) as (u & E & Hu). rewrite E at 2. rewrite length_app.
  specialize (Hu H). destruct u; [done|]. simpl. lia.
Qed.

Lemma GetOp2_length_le pc : (length (op_pc (GetOp2 pc)) <= length pc)%nat.
Proof.
  destruct pc; [done|]. apply Nat.lt_le_incl, GetOp2_length. done.
Qed.

Lemma GetOp2_ok_nonempty pc : op_ok (GetOp2 pc) = true -> pc <> [].
Proof. by destruct pc. Qed.

Lemma GetOp2_code_range pc : 0 <= op_code (GetOp2 pc) <= 255.
Proof.
  unfold GetOp2. destruct pc as [|b pc]; [vm_compute; split; discriminate|].
  pose proof (unsigned_range b). destruct (byte.unsigned b <=? OP_PUSHDATA4); [|simpl; lia].
  destruct (GetOp_size _ _) as [[n|] pc']; [|vm_compute; split; discriminate].
  destruct (_ <? n); simpl; [vm_compute; split; discriminate|lia].
Qed.

(** Only the opcodes up to [OP_PUSHDATA4] carry data. *)
Lemma GetOp2_no_data pc : op_code (GetOp2 pc) > OP_PUSHDATA4 -> op_data (GetOp2 pc) = [].
Proof.
  unfold GetOp2. destruct pc as [|b pc]; [done|].
  destruct (Z.leb_spec (byte.unsigned b) OP_PUSHDATA4); [|done].
  destruct (GetOp_size _ _) as [[n|] pc']; [|done].
  destruct (_ <? n); simpl; [done|lia].
Qed.

Lemma take_drop_app {A} (n : nat) (b rest : list A) : length b = n ->
  take n (b ++ rest) = b /\ drop n (b ++ rest) = rest.
Proof. intros <-. by rewrite take_app_length, drop_app_length. Qed.

(** The bytes of a push and its opcode. *)
Definition push_op (b : list byte) : Z :=
  let size := Z.of_nat (length b) in
  if size <? OP_PUSHDATA1 then size else if size <=? 0xff then OP_PUSHDATA1
  else if size <=? 0xffff then OP_PUSHDATA2 else OP_PUSHDATA4.

Lemma push_data_app s b : push_data s b = s ++ push_data [] b.
Proof. unfold push_data. repeat case_match; by rewrite <- ?app_assoc, ?app_nil_l. Qed.

Lemma GetOp2_push_data b rest : Z.of_nat (length b) < 2 ^ 32 ->
  GetOp2 (push_data [] b ++ rest) = mk_op true rest (push_op b) b.
Proof.
  intros Hb. unfold push_data, push_op, OP_PUSHDATA1, OP_PUSHDATA2, OP_PUSHDATA4.
  rewrite !app_nil_l.
  assert (G : (Z.of_nat (length (b ++ rest)) <? Z.of_nat (length b)) = false)
    by (apply Z.ltb_ge; rewrite length_app; lia).
  destruct (take_drop_app (length b) b rest eq_refl) as [T D].
  destruct (Z.ltb_spec (Z.of_nat (length b)) 0x4c) as [H|H];
    [|destruct (Z.leb_spec (Z.of_nat (length b)) 0xff) as [H1|H1];
      [|destruct (Z.leb_spec (Z.of_nat (length b)) 0xffff) as [H2|H2]]];
    rewrite <- ?app_assoc; cbn [app GetOp2];
    rewrite unsigned_of_Z_small by lia; unfold GetOp_size, OP_PUSHDATA1, OP_PUSHDATA2, OP_PUSHDATA4.
  - destruct (Z.leb_spec (Z.of_nat (length b)) 0x4e); [|lia].
    destruct (Z.ltb_spec (Z.of_nat (length b)) 0x4c); [|lia].
    by rewrite G, Nat2Z.id, T, D.
  - cbn [Z.leb Z.compare Z.ltb Z.eqb Pos.compare Pos.compare_cont Pos.eqb].
    by rewrite unsigned_of_Z_small, G, Nat2Z.id, T, D by lia.
  - destruct (take_drop_app 2 (le_split 2 (Z.of_nat (length b))) (b ++ rest)
      (length_le_split _ _)) as [T2 D2].
    cbn [Z.leb Z.compare Z.ltb Z.eqb Pos.compare Pos.compare_cont Pos.eqb].
    rewrite length_app, length_le_split. cbn [Nat.ltb Nat.leb Nat.add].
    rewrite T2, D2, le_combine_split, Z.mod_small by (simpl; lia).
    by rewrite G, Nat2Z.id, T, D.
  - destruct (take_drop_app 4 (le_split 4 (Z.of_nat (length b))) (b ++ rest)
      (length_le_split _ _)) as [T2 D2].
    cbn [Z.leb Z.compare Z.ltb Z.eqb Pos.compare Pos.compare_cont Pos.eqb].
    rewrite length_app, length_le_split. cbn [Nat.ltb Nat.leb Nat.add].
    rewrite T2, D2, le_combine_split, Z.mod_small by (simpl; lia).
    by rewrite G, Nat2Z.id, T, D.
Qed.

(** Pushing data and decoding it. Whatever follows in the script, [GetOp2] at a
    push appended by [<<] returns exactly the data pushed, with the shortest of the
    four push forms, and stops behind it; integers pushed as [CScriptNum] come back
    as the integer. *)
Theorem push_roundtrip (s b rest : list byte) (Hb : Z.of_nat (length b) < 2 ^ 32) :
  push_data s b = s ++ push_data [] b /\
  GetOp2 (push_data [] b ++ rest) = mk_op true rest (push_op b) b /\
  (forall n, in_i64 n ->
     set_vch (op_data (GetOp2 (push_data [] (getvch n) ++ rest))) = n).
Proof.
  split; [apply push_data_app|]. split; [by apply GetOp2_push_data|].
  intros n Hn. rewrite GetOp2_push_data.
  - apply set_vch_serialize. unfold in_i64 in Hn. lia.
  - unfold getvch. destruct (decide (n = 0)) as [->|Hz]; [done|]. unfold in_i64 in Hn.
    destruct (push_abs_spec 8 (Z.abs n) []) as (D & _ & C & V); [simpl; lia|].
    rewrite (serialize_digits D) by (done || lia).
    assert (Z.of_nat (length D) <= 64).
    { destruct D as [|c l _] using rev_ind; [done|]. rewrite le_combine_snoc in V.
      pose proof (le_combine_nonneg l). specialize (C ltac:(by destruct l)). rewrite back_snoc in C.
      pose proof (unsigned_range c). rewrite length_app. simpl.
      destruct (Z.ltb_spec (Z.of_nat (length l)) 63); [lia|].
      assert (256 ^ 63 <= 256 ^ Z.of_nat (length l)) by (apply Z.pow_le_mono_r; lia).
      assert (2 ^ 64 < 256 ^ 63) by done. nia. }
    destruct (128 <=? back D); [rewrite length_app; simpl; lia|].
    destruct (n <? 0); [|lia]. unfold set_back. rewrite length_app. simpl.
    destruct D as [|c l _] using rev_ind; [simpl; lia|]. rewrite removelast_last.
    rewrite length_app in *. lia.
Qed.

Lemma push_roundtrip_witness : Z.of_nat (length (repeat Byte.x2a 300)) < 2 ^ 32 /\
  GetOp2 (push_data [] (repeat Byte.x2a 300) ++ [Byte.xac])
  = mk_op true [Byte.xac] OP_PUSHDATA2 (repeat Byte.x2a 300).
Proof.
  split; [vm_compute; reflexivity|].
  apply (push_roundtrip [] (repeat Byte.x2a 300) [Byte.xac]). vm_compute. reflexivity.
Defined.

(** ** [FindAndDelete] *)

Lemma is_prefix_spec b s : is_prefix b s = true <-> exists t, s = b ++ t.
Proof.
  revert s. induction b as [|x b IH]; intros [|y s]; simpl.
  - split; [by exists []|done].
  - split; [by exists (y :: s)|done].
  - split; [done|by intros [t ?]].
  - rewrite andb_true_iff, bool_decide_eq_true, IH. split.
    + intros [-> [t ->]]. by exists t.
    + intros [t [= -> ->]]. split; [done|by exists t].
Qed.

(** What the scan computes: at every instruction boundary the copies of [b] found
    there are dropped, then one instruction is kept. *)
Fixpoint FindAndDelete_ref (fuel : nat) (b s : list byte) : list byte * Z :=
  match fuel with
  | O => (s, 0)
  | S f =>
      let '(s, n) := FindAndDelete_skip (length s) b s 0 in
      let op := GetOp2 s in
      if op_ok op then
        let '(r, k) := FindAndDelete_ref f b (op_pc op) in (range s (op_pc op) ++ r, n + k)
      else (s, n)
  end.

Lemma FindAndDelete_skip_spec f b pc n :
  exists k, FindAndDelete_skip f b pc n = (drop (k * length b) pc, n + Z.of_nat k) /\
    (length (drop (k * length b) pc) + k * length b = length pc)%nat.
Proof.
  revert pc n. induction f as [|f IH]; intros pc n; cbn [FindAndDelete_skip].
  { exists 0%nat. simpl. rewrite drop_0, Z.add_0_r. split; [done|lia]. }
  destruct (Nat.leb_spec (length b) (length pc)); simpl.
  2:{ exists 0%nat. simpl. rewrite drop_0, Z.add_0_r. split; [done|lia]. }
  destruct (is_prefix b pc).
  - destruct (IH (drop (length b) pc) (n + 1)) as (k & -> & Hk). exists (S k).
    rewrite !length_drop in Hk. rewrite drop_drop, length_drop. cbn [Nat.mul].
    split; [f_equal; lia|lia].
  - exists 0%nat. simpl. rewrite drop_0, Z.add_0_r. split; [done|lia].
Qed.

Lemma FindAndDelete_skip_add f b pc n :
  FindAndDelete_skip f b pc n
  = ((FindAndDelete_skip f b pc 0).1, n + (FindAndDelete_skip f b pc 0).2).
Proof.
  revert pc n. induction f as [|f IH]; intros pc n; cbn [FindAndDelete_skip]; [by rewrite Z.add_0_r|].
  destruct (_ && _); [|by rewrite Z.add_0_r].
  rewrite IH, (IH _ (0 + 1)). simpl. f_equal. lia.
Qed.

Lemma range_app used pc : range (used ++ pc) pc = used.
Proof.
  unfold range. rewrite length_app. replace (length used + length pc - length pc)%nat with (length used) by lia.
  apply take_app_length.
Qed.

Lemma range_eq pc2 used pc : pc2 = used ++ pc -> range pc2 pc = used.
Proof. intros ->. apply range_app. Qed.

Lemma FindAndDelete_loop_ref f b result used pc n :
  (length pc < f)%nat ->
  exists r p, FindAndDelete_loop f b result (used ++ pc) pc n
    = (r, p, n + (FindAndDelete_ref f b pc).2) /\
    r ++ p = result ++ used ++ (FindAndDelete_ref f b pc).1.
Proof.
  revert result used pc n. induction f as [|f IH]; intros result used pc n Hf; [lia|].
  cbn [FindAndDelete_loop FindAndDelete_ref]. rewrite range_app, FindAndDelete_skip_add.
  destruct (FindAndDelete_skip_spec (length pc) b pc 0) as (k & Ek & Lk).
  destruct (FindAndDelete_skip (length pc) b pc 0) as [pc' m]. injection Ek as -> ->. cbn [fst snd].
  set (pc' := drop (k * length b) pc) in *. clearbody pc'.
  destruct (op_ok (GetOp2 pc')) eqn:Ok.
  - destruct (GetOp2_suffix pc') as (u & E & Hu).
    pose proof (GetOp2_length pc' (GetOp2_ok_nonempty _ Ok)) as Hl.
    destruct (IH (result ++ used) u (op_pc (GetOp2 pc')) (n + (0 + Z.of_nat k))) as (r & p & Er & Hr); [lia|].
    rewrite <- E in Er. rewrite Er.
    assert (R : range pc' (op_pc (GetOp2 pc')) = u) by by apply range_eq. rewrite R.
    destruct (FindAndDelete_ref f b _) as [rr kk]. cbn [fst snd] in *.
    exists r, p. split; [f_equal; lia|]. by rewrite Hr, <- !app_assoc.
  - exists (result ++ used), pc'. cbn [fst snd]. split; [f_equal; lia|]. by rewrite <- app_assoc.
Qed.

Lemma FindAndDelete_ref_length f b s :
  0 <= (FindAndDelete_ref f b s).2 /\
  Z.of_nat (length (FindAndDelete_ref f b s).1) + (FindAndDelete_ref f b s).2 * Z.of_nat (length b)
  = Z.of_nat (length s) /\
  ((FindAndDelete_ref f b s).2 = 0 -> (FindAndDelete_ref f b s).1 = s).
Proof.
  revert s. induction f as [|f IH]; intros s; [simpl; auto with lia|]. cbn [FindAndDelete_ref].
  destruct (FindAndDelete_skip_spec (length s) b s 0) as (k & Ek & Lk).
  destruct (FindAndDelete_skip (length s) b s 0) as [s' m]. injection Ek as -> ->.
  set (s' := drop (k * length b) s) in *.
  assert (K : k = 0%nat -> s' = s) by (intros E; subst s'; by rewrite E, drop_0).
  clearbody s'.
  destruct (op_ok (GetOp2 s')).
  - destruct (GetOp2_suffix s') as (u & E & Hu). specialize (IH (op_pc (GetOp2 s'))).
    destruct (FindAndDelete_ref f b _) as [rr kk]. cbn [fst snd] in *. destruct IH as (I0 & I1 & I2).
    rewrite (range_eq _ _ _ E). apply (f_equal length) in E as Ls. rewrite length_app in Ls.
    rewrite length_app. split; [lia|]. split; [nia|].
    intros Z0. rewrite I2 by lia. rewrite <- E. apply K. lia.
  - cbn [fst snd]. split; [lia|]. split; [nia|]. intros ?. apply K. lia.
Qed.

Lemma FindAndDelete_ref_spec script b : b <> [] ->
  FindAndDelete script b = FindAndDelete_ref (S (length script)) b script.
Proof.
  intros Hb. unfold FindAndDelete. destruct b as [|x b]; [done|]. set (b' := x :: b) in *.
  destruct (FindAndDelete_loop_ref (S (length script)) b' [] [] script 0) as (r & p & E & H); [lia|].
  change ([] ++ script) with script in E. rewrite E.
  destruct (FindAndDelete_ref_length (S (length script)) b' script) as (L0 & L1 & L2).
  destruct (FindAndDelete_ref _ b' script) as [rr kk]. cbn [fst snd] in *.
  rewrite H, Z.gtb_ltb, Z.add_0_l. destruct (Z.ltb_spec 0 kk); [done|]. rewrite L2 by lia.
  f_equal.
Qed.

(** [FindAndDelete] removes the copies of [b] that start at an instruction
    boundary and nothing else: its result and its count are those of the recursive
    scan [FindAndDelete_ref], every copy counted is [length b] bytes gone, and a
    script in which none is found (or an empty [b]) is returned unchanged. *)
Theorem FindAndDelete_correct (script b : list byte) :
  (b <> [] -> FindAndDelete script b = FindAndDelete_ref (S (length script)) b script) /\
  Z.of_nat (length (FindAndDelete script b).1)
    + (FindAndDelete script b).2 * Z.of_nat (length b) = Z.of_nat (length script) /\
  0 <= (FindAndDelete script b).2 /\
  ((FindAndDelete script b).2 = 0 -> (FindAndDelete script b).1 = script).
Proof.
  split; [apply FindAndDelete_ref_spec|]. destruct b as [|x b].
  - simpl. split; [lia|]. split; [lia|done].
  - rewrite FindAndDelete_ref_spec by done. destruct (FindAndDelete_ref_length (S (length script)) (x :: b) script) as (L0 & L1 & L2).
    auto.
Qed.

Example FindAndDelete_example :
  FindAndDelete (map byte.of_Z [2; 0xab; 0xac; 0xac; 0xac; 1; 0xac]) [Byte.xac]
  = (map byte.of_Z [2; 0xab; 0xac; 1; 0xac], 2).
Proof. vm_compute. reflexivity. Qed.

(** ** Templates and counts *)

Lemma unsigned_eq (b : byte) (c : byte) : (byte.unsigned b =? byte.unsigned c) = bool_decide (b = c).
Proof.
  destruct (Z.eqb_spec (byte.unsigned b) (byte.unsigned c)) as [E|E].
  - apply byte.unsigned_inj in E. by rewrite bool_decide_true.
  - rewrite bool_decide_false; [done|]. by intros ->.
Qed.

Lemma byte_at_eq (s : list byte) i (c : byte) z : byte.unsigned c = z -> nth i s Byte.x00 = c <-> (byte_at s i =? z) = true.
Proof.
  intros <-. unfold byte_at. rewrite unsigned_eq, bool_decide_eq_true. done.
Qed.

Lemma list_length_split (n : nat) (s : list byte) m : length s = (n + m)%nat ->
  exists a b, s = a ++ b /\ length a = n /\ length b = m.
Proof.
  intros H. exists (take n s), (drop n s). rewrite take_drop, length_take, length_drop. auto with lia.
Qed.

(** The fast tests recognise the templates and nothing else:
    [OP_HASH160 <20 bytes> OP_EQUAL] and
    [OP_DUP OP_HASH160 <20 bytes> OP_EQUALVERIFY OP_CHECKSIG]; a script that passes
    the second also is a normal payment script. *)
Theorem templates_recognised (s : list byte) :
  (IsPayToScriptHash s = true <->
   exists h, length h = 20%nat /\ s = push_data [byte.of_Z OP_HASH160] h ++ [byte.of_Z OP_EQUAL]) /\
  (IsPayToPublicKeyHash s = true <->
   exists h, length h = 20%nat /\
     s = push_data [byte.of_Z OP_DUP; byte.of_Z OP_HASH160] h
         ++ [byte.of_Z OP_EQUALVERIFY; byte.of_Z OP_CHECKSIG]) /\
  (IsPayToPublicKeyHash s = true -> IsNormalPaymentScript s = true).
Proof.
  assert (P : forall p h, length h = 20%nat -> push_data p h = p ++ [Byte.x14] ++ h).
  { intros p h H. unfold push_data. rewrite H.
    change (Z.of_nat 20 <? OP_PUSHDATA1) with true. cbv iota. by rewrite <- app_assoc. }
  assert (S : IsPayToScriptHash s = true <->
    exists h, length h = 20%nat /\ s = push_data [byte.of_Z OP_HASH160] h ++ [byte.of_Z OP_EQUAL]).
  { unfold IsPayToScriptHash. rewrite !andb_true_iff, Z.eqb_eq. split.
    - intros [[[L E0] E1] E22].
      apply (byte_at_eq _ _ Byte.xa9) in E0; [|done]. apply (byte_at_eq _ _ Byte.x14) in E1; [|done].
      apply (byte_at_eq _ _ Byte.x87) in E22; [|done].
      destruct (list_length_split 2 s 21) as (a & b & -> & La & Lb); [lia|].
      destruct (list_length_split 20 b 1) as (h & c & -> & Lh & Lc); [lia|].
      do 3 (destruct a as [|? a]; try discriminate La). do 2 (destruct c as [|? c]; try discriminate Lc).
      exists h. split; [done|]. rewrite P by done. simpl in E0, E1. subst.
      cbn [app nth] in E22. rewrite app_nth2, Lh in E22 by lia. cbn [nth Nat.sub] in E22. by subst.
    - intros (h & Lh & ->). rewrite P by done. unfold byte_at. rewrite !length_app, Lh.
      split; [split; [split|]|]; try done. cbn [app nth]. rewrite app_nth2, Lh by lia. done. }
  assert (K : IsPayToPublicKeyHash s = true <->
    exists h, length h = 20%nat /\ s = push_data [byte.of_Z OP_DUP; byte.of_Z OP_HASH160] h
      ++ [byte.of_Z OP_EQUALVERIFY; byte.of_Z OP_CHECKSIG]).
  { unfold IsPayToPublicKeyHash. rewrite !andb_true_iff, Z.eqb_eq. split.
    - intros [[[[[L E0] E1] E2] E23] E24].
      apply (byte_at_eq _ _ Byte.x76) in E0; [|done]. apply (byte_at_eq _ _ Byte.xa9) in E1; [|done].
      apply (byte_at_eq _ _ Byte.x14) in E2; [|done]. apply (byte_at_eq _ _ Byte.x88) in E23; [|done].
      apply (byte_at_eq _ _ Byte.xac) in E24; [|done].
      destruct (list_length_split 3 s 22) as (a & b & -> & La & Lb); [lia|].
      destruct (list_length_split 20 b 2) as (h & c & -> & Lh & Lc); [lia|].
      do 4 (destruct a as [|? a]; try discriminate La). do 3 (destruct c as [|? c]; try discriminate Lc).
      exists h. split; [done|]. rewrite P by done. simpl in E0, E1, E2. subst.
      cbn [app nth] in E23, E24. rewrite app_nth2, Lh in E23 by lia. rewrite app_nth2, Lh in E24 by lia.
      cbn [nth Nat.sub] in E23, E24. by subst.
    - intros (h & Lh & ->). rewrite P by done. unfold byte_at. rewrite !length_app, Lh.
      repeat split; try done; cbn [app nth]; rewrite app_nth2, Lh by lia; done. }
  split; [exact S|]. split; [exact K|]. rewrite K. intros (h & Lh & ->). clear S K.
  rewrite P by done. unfold IsNormalPaymentScript. rewrite !length_app, Lh. cbn [negb Nat.add length Z.of_nat].
  change ([byte.of_Z OP_DUP; byte.of_Z OP_HASH160]) with [Byte.x76; Byte.xa9].
  change ([byte.of_Z OP_EQUALVERIFY; byte.of_Z OP_CHECKSIG]) with [Byte.x88; Byte.xac].
  cbn [app]. do 21 (destruct h as [|? h]; try discriminate Lh). vm_compute. reflexivity.
Qed.

Lemma sigops_le acc last op : 0 <= sigops acc last op /\ sigops acc last op <= sigops false last op <= 20.
Proof.
  unfold sigops, DecodeOP_N, OP_0, OP_1, OP_16. rewrite !Z.geb_leb.
  destruct (_ || _); [lia|]. destruct (_ || _); [|lia]. destruct acc; [|simpl; lia]. simpl.
  destruct (Z.leb_spec 0x51 last), (Z.leb_spec last 0x60); simpl; try lia.
  destruct (Z.eqb_spec last 0); simpl; lia.
Qed.

Lemma GetSigOpCount_loop_le fuel last pc n m : n <= m ->
  n <= GetSigOpCount_loop fuel true last pc n <= GetSigOpCount_loop fuel false last pc m /\
  GetSigOpCount_loop fuel false last pc m <= m + 20 * Z.of_nat fuel.
Proof.
  revert last pc n m. induction fuel as [|f IH]; intros last pc n m H; [simpl; lia|].
  cbn [GetSigOpCount_loop]. destruct pc as [|b pc]; [lia|]. destruct (op_ok _); [|lia].
  pose proof (sigops_le true last (op_code (GetOp2 (b :: pc)))).
  edestruct (IH (op_code (GetOp2 (b :: pc))) (op_pc (GetOp2 (b :: pc)))
    (n + sigops true last (op_code (GetOp2 (b :: pc))))
    (m + sigops false last (op_code (GetOp2 (b :: pc))))); lia.
Qed.

(** The accurate count never exceeds the legacy count, and neither overflows:
    twenty per byte at most. *)
Lemma GetSigOpCount_le s :
  0 <= GetSigOpCount s true <= GetSigOpCount s false /\
  GetSigOpCount s false <= 20 * Z.of_nat (length s).
Proof. unfold GetSigOpCount. pose proof (GetSigOpCount_loop_le (length s) OP_INVALIDOPCODE s 0 0). lia. Qed.
