(* ===== verification/Interpreter.v ===== *)
(** * The script interpreter ([script/interpreter.cpp], [script/interpreter.h],
    [script/script_error.h], [eccryptoverify.cpp])

    [EvalScript] as a state transformer with the four ways the C++ function can stop:
    [return set_error], a thrown exception (caught and reported as an unknown error),
    a failed assertion and undefined behaviour.  The last two are values of the model
    so that their absence is a theorem.  The stacks are lists whose head is [back()],
    so [stacktop(-i)] is the element of index [i - 1]. *)

From Stdlib Require Import ZArith Lia List Bool.
From stdpp Require Import base option list.
From coqutil Require Import Byte Word.LittleEndianList.
From S2P Require Import Prelude Serialize MerkleDamgard Hash Script.
From S2P Require Sha256 Sha1 Ripemd160.

Open Scope list_scope.
Open Scope Z_scope.

Inductive ScriptError : Type :=
| SCRIPT_ERR_OK
| SCRIPT_ERR_UNKNOWN_ERROR
| SCRIPT_ERR_EVAL_FALSE
| SCRIPT_ERR_OP_RETURN
| SCRIPT_ERR_SCRIPT_SIZE
| SCRIPT_ERR_PUSH_SIZE
| SCRIPT_ERR_OP_COUNT
| SCRIPT_ERR_STACK_SIZE
| SCRIPT_ERR_SIG_COUNT
| SCRIPT_ERR_PUBKEY_COUNT
| SCRIPT_ERR_VERIFY
| SCRIPT_ERR_EQUALVERIFY
| SCRIPT_ERR_CHECKMULTISIGVERIFY
| SCRIPT_ERR_CHECKSIGVERIFY
| SCRIPT_ERR_NUMEQUALVERIFY
| SCRIPT_ERR_BAD_OPCODE
| SCRIPT_ERR_DISABLED_OPCODE
| SCRIPT_ERR_INVALID_STACK_OPERATION
| SCRIPT_ERR_INVALID_ALTSTACK_OPERATION
| SCRIPT_ERR_UNBALANCED_CONDITIONAL
| SCRIPT_ERR_SIG_HASHTYPE
| SCRIPT_ERR_SIG_DER
| SCRIPT_ERR_MINIMALDATA
| SCRIPT_ERR_SIG_PUSHONLY
| SCRIPT_ERR_SIG_HIGH_S
| SCRIPT_ERR_SIG_NULLDUMMY
| SCRIPT_ERR_PUBKEYTYPE
| SCRIPT_ERR_DISCOURAGE_UPGRADABLE_NOPS.

(** ** Flags *)

Definition SIGHASH_ALL : Z := 1.
Definition SIGHASH_NONE : Z := 2.
Definition SIGHASH_SINGLE : Z := 3.
Definition SIGHASH_ANYONECANPAY : Z := 0x80.

Definition SCRIPT_VERIFY_NONE : Z := 0.
Definition SCRIPT_VERIFY_P2SH : Z := Z.shiftl 1 0.
Definition SCRIPT_VERIFY_STRICTENC : Z := Z.shiftl 1 1.
Definition SCRIPT_VERIFY_DERSIG : Z := Z.shiftl 1 2.
Definition SCRIPT_VERIFY_LOW_S : Z := Z.shiftl 1 3.
Definition SCRIPT_VERIFY_NULLDUMMY : Z := Z.shiftl 1 4.
Definition SCRIPT_VERIFY_SIGPUSHONLY : Z := Z.shiftl 1 5.
Definition SCRIPT_VERIFY_MINIMALDATA : Z := Z.shiftl 1 6.
Definition SCRIPT_VERIFY_DISCOURAGE_UPGRADABLE_NOPS : Z := Z.shiftl 1 7.

(** [(flags & f) != 0] *)
Definition has_flag (flags f : Z) : bool := negb (Z.land flags f =? 0).

Fixpoint CastToBool (vch : list byte) : bool :=
  match vch with
  | [] => false
  | b :: rest =>
      if negb (byte.unsigned b =? 0)
      then negb (match rest with [] => true | _ => false end && (byte.unsigned b =? 0x80))
      else CastToBool rest
  end.

(** ** Signature and key encodings *)

(** [sig[i]]; [None] is a read outside the vector. *)
Definition at_ (v : list byte) (i : Z) : option Z :=
  if i <? 0 then None else byte.unsigned <$> v !! Z.to_nat i.

Definition IsCompressedOrUncompressedPubKey (vchPubKey : list byte) : option bool :=
  if Z.of_nat (length vchPubKey) <? 33 then Some false else
  b ← at_ vchPubKey 0;
  if b =? 0x04 then Some (Z.of_nat (length vchPubKey) =? 65)
  else if (b =? 0x02) || (b =? 0x03) then Some (Z.of_nat (length vchPubKey) =? 33)
  else Some false.

Definition IsValidSignatureEncoding (sig : list byte) : option bool :=
  let size := Z.of_nat (length sig) in
  if size <? 9 then Some false else
  if size >? 73 then Some false else
  s0 ← at_ sig 0; if negb (s0 =? 0x30) then Some false else
  s1 ← at_ sig 1; if negb (s1 =? size - 3) then Some false else
  lenR ← at_ sig 3;
  if 5 + lenR >=? size then Some false else
  lenS ← at_ sig (5 + lenR);
  if negb (lenR + lenS + 7 =? size) then Some false else
  s2 ← at_ sig 2; if negb (s2 =? 0x02) then Some false else
  if lenR =? 0 then Some false else
  s4 ← at_ sig 4; if negb (Z.land s4 0x80 =? 0) then Some false else
  s5 ← (if lenR >? 1 then at_ sig 5 else Some 0);
  if (lenR >? 1) && (s4 =? 0x00) && (Z.land s5 0x80 =? 0) then Some false else
  t ← at_ sig (lenR + 4); if negb (t =? 0x02) then Some false else
  if lenS =? 0 then Some false else
  s6 ← at_ sig (lenR + 6); if negb (Z.land s6 0x80 =? 0) then Some false else
  s7 ← (if lenS >? 1 then at_ sig (lenR + 7) else Some 0);
  if (lenS >? 1) && (s6 =? 0x00) && (Z.land s7 0x80 =? 0) then Some false else
  Some true.

(** [CompareBigEndian] on the bytes as numbers 0 to 255. *)
Fixpoint CompareBigEndian_eq (c1 c2 : list Z) : Z :=
  match c1, c2 with
  | x :: c1, y :: c2 => if x >? y then 1 else if y >? x then -1 else CompareBigEndian_eq c1 c2
  | _, _ => 0
  end.
Fixpoint skip_longer (n : nat) (c : list Z) : option (list Z) :=
  match n, c with
  | S n, x :: c => if negb (x =? 0) then None else skip_longer n c
  | _, _ => Some c
  end.
Definition CompareBigEndian (c1 c2 : list Z) : Z :=
  match skip_longer (length c1 - length c2) c1 with
  | None => 1
  | Some c1 =>
      match skip_longer (length c2 - length c1) c2 with
      | None => -1
      | Some c2 => CompareBigEndian_eq c1 c2
      end
  end.

Definition vchMaxModOrder : list Z :=
  [0xFF; 0xFF; 0xFF; 0xFF; 0xFF; 0xFF; 0xFF; 0xFF;
   0xFF; 0xFF; 0xFF; 0xFF; 0xFF; 0xFF; 0xFF; 0xFE;
   0xBA; 0xAE; 0xDC; 0xE6; 0xAF; 0x48; 0xA0; 0x3B;
   0xBF; 0xD2; 0x5E; 0x8C; 0xD0; 0x36; 0x41; 0x40].
Definition vchMaxModHalfOrder : list Z :=
  [0x7F; 0xFF; 0xFF; 0xFF; 0xFF; 0xFF; 0xFF; 0xFF;
   0xFF; 0xFF; 0xFF; 0xFF; 0xFF; 0xFF; 0xFF; 0xFF;
   0x5D; 0x57; 0x6E; 0x73; 0x57; 0xA4; 0x50; 0x1D;
   0xDF; 0xE9; 0x2F; 0x46; 0x68; 0x1B; 0x20; 0xA0].

(** [eccrypto::Check], [eccrypto::CheckSignatureElement] *)
Definition ecc_Check (vch : list Z) : bool :=
  (CompareBigEndian vch [] >? 0) && (CompareBigEndian vch vchMaxModOrder <=? 0).
Definition CheckSignatureElement (vch : list Z) (half : bool) : bool :=
  (CompareBigEndian vch [] >? 0) &&
  (CompareBigEndian vch (if half then vchMaxModHalfOrder else vchMaxModOrder) <=? 0).

(** The ways the interpreter stops before the end of a script. *)
Inductive exn : Type :=
| out_of_range                      (* std::vector::at *)
| popstack_empty                    (* popstack() : stack empty *)
| scriptnum (e : scriptnum_error).
Inductive stop : Type :=
| Error (e : ScriptError)           (* return set_error(serror, e) *)
| Throw (x : exn)
| AssertFails
| Undefined.

(** The checks return [false] with [serror] set, or [true]. *)
Abbreviation check := (result stop unit).
Definition guard (b : bool) (e : ScriptError) : check := if b then Ret tt else Err (Error e).
Definition defined {A} (o : option A) : result stop A :=
  match o with Some a => Ret a | None => Err Undefined end.

Section encodings.
Open Scope btc_scope.

Definition IsLowDERSignature (vchSig : list byte) : check :=
  let* valid := defined (IsValidSignatureEncoding vchSig) in
  let* _ := guard valid SCRIPT_ERR_SIG_DER in
  let* nLenR := defined (at_ vchSig 3) in
  let* nLenS := defined (at_ vchSig (5 + nLenR)) in
  let S := take (Z.to_nat nLenS) (drop (Z.to_nat (6 + nLenR)) vchSig) in
  if Z.of_nat (length S) <? nLenS then Err Undefined else
  guard (CheckSignatureElement (map byte.unsigned S) true) SCRIPT_ERR_SIG_HIGH_S.

Definition IsDefinedHashtypeSignature (vchSig : list byte) : bool :=
  if (length vchSig =? 0)%nat then false else
  let nHashType := Z.land (back vchSig) (u8 (Z.lnot SIGHASH_ANYONECANPAY)) in
  negb ((nHashType <? SIGHASH_ALL) || (nHashType >? SIGHASH_SINGLE)).

Definition CheckSignatureEncoding (vchSig : list byte) (flags : Z) : check :=
  if (length vchSig =? 0)%nat then Ret tt else
  let* valid :=
    if has_flag flags (Z.lor (Z.lor SCRIPT_VERIFY_DERSIG SCRIPT_VERIFY_LOW_S) SCRIPT_VERIFY_STRICTENC)
    then defined (IsValidSignatureEncoding vchSig) else Ret true in
  let* _ := guard valid SCRIPT_ERR_SIG_DER in
  let* _ := if has_flag flags SCRIPT_VERIFY_LOW_S then IsLowDERSignature vchSig else Ret tt in
  guard (negb (has_flag flags SCRIPT_VERIFY_STRICTENC && negb (IsDefinedHashtypeSignature vchSig)))
    SCRIPT_ERR_SIG_HASHTYPE.

Definition CheckPubKeyEncoding (vchSig : list byte) (flags : Z) : check :=
  if has_flag flags SCRIPT_VERIFY_STRICTENC then
    let* ok := defined (IsCompressedOrUncompressedPubKey vchSig) in guard ok SCRIPT_ERR_PUBKEYTYPE
  else Ret tt.
End encodings.

Definition CheckMinimalPush (data : list byte) (opcode : Z) : bool :=
  let size := Z.of_nat (length data) in
  let d0 := byte_at data 0 in
  if size =? 0 then opcode =? OP_0
  else if (size =? 1) && (d0 >=? 1) && (d0 <=? 16) then opcode =? OP_1 + (d0 - 1)
  else if (size =? 1) && (d0 =? 0x81) then opcode =? OP_1NEGATE
  else if size <=? 75 then opcode =? size
  else if size <=? 255 then opcode =? OP_PUSHDATA1
  else if size <=? 65535 then opcode =? OP_PUSHDATA2
  else true.

(** ** The machine *)

(** The local variables of [EvalScript] that live across instructions. *)
Record eval_state : Type := mk_state {
  stack : list (list byte);
  altstack : list (list byte);
  vfExec : list bool;
  pc : list byte;
  pbegincodehash : list byte;
  nOpCount : Z }.

(** Statements: state in, state out, or a way to stop. *)
Definition M (A : Type) : Type := eval_state -> result stop (A * eval_state).
Definition ret {A} (a : A) : M A := fun s => Ret (a, s).
Definition bind {A B} (m : M A) (k : A -> M B) : M B := fun s =>
  match m s with Ret (a, s) => k a s | Err e => Err e end.
Definition fail {A} (x : stop) : M A := fun _ => Err x.
Definition lift {A} (r : result stop A) : M A := fun s =>
  match r with Ret a => Ret (a, s) | Err e => Err e end.
Definition get {A} (f : eval_state -> A) : M A := fun s => Ret (f s, s).

Declare Scope eval_scope.
Delimit Scope eval_scope with eval.
Notation "x <-- m ;; k" := (bind m (fun x => k))
  (at level 100, m at next level, k at level 200, right associativity,
   format "'[v' x  <--  m ;;  '/' k ']'") : eval_scope.
Notation "m ;;; k" := (bind m (fun _ => k))
  (at level 100, k at level 200, right associativity, format "'[v' m ;;;  '/' k ']'") : eval_scope.

(** [return set_error(serror, e)] *)
Definition set_error {A} (e : ScriptError) : M A := fail (Error e).

Definition set_stack (l : list (list byte)) : M unit := fun s =>
  Ret (tt, mk_state l (altstack s) (vfExec s) (pc s) (pbegincodehash s) (nOpCount s)).
Definition set_altstack (l : list (list byte)) : M unit := fun s =>
  Ret (tt, mk_state (stack s) l (vfExec s) (pc s) (pbegincodehash s) (nOpCount s)).
Definition set_vfExec (l : list bool) : M unit := fun s =>
  Ret (tt, mk_state (stack s) (altstack s) l (pc s) (pbegincodehash s) (nOpCount s)).
Definition set_pc (p : list byte) : M unit := fun s =>
  Ret (tt, mk_state (stack s) (altstack s) (vfExec s) p (pbegincodehash s) (nOpCount s)).
Definition set_pbegincodehash (p : list byte) : M unit := fun s =>
  Ret (tt, mk_state (stack s) (altstack s) (vfExec s) (pc s) p (nOpCount s)).
Definition set_nOpCount (n : Z) : M unit := fun s =>
  Ret (tt, mk_state (stack s) (altstack s) (vfExec s) (pc s) (pbegincodehash s) n).

Definition vchFalse : list byte := [].
Definition vchTrue : list byte := [Byte.x01].

(** [stacktop(-i)], [altstacktop(-i)]: [at()] throws when there is no such element. *)
Definition stacktop (i : Z) : M (list byte) := fun s =>
  match (if i <? 1 then None else stack s !! Z.to_nat (i - 1)) with
  | Some v => Ret (v, s)
  | None => Err (Throw out_of_range)
  end.
Definition altstacktop (i : Z) : M (list byte) := fun s =>
  match (if i <? 1 then None else altstack s !! Z.to_nat (i - 1)) with
  | Some v => Ret (v, s)
  | None => Err (Throw out_of_range)
  end.
Definition popstack : M unit := fun s =>
  match stack s with
  | [] => Err (Throw popstack_empty)
  | _ :: l => set_stack l s
  end.
Definition popstack_alt : M unit := fun s =>
  match altstack s with
  | [] => Err (Throw popstack_empty)
  | _ :: l => set_altstack l s
  end.
Definition push_back (v : list byte) : M unit := fun s => set_stack (v :: stack s) s.

Section handlers.
Open Scope eval_scope.

Definition stack_size : M Z := get (fun s => Z.of_nat (length (stack s))).

(** [if (stack.size() < n) return set_error(serror, SCRIPT_ERR_INVALID_STACK_OPERATION);] *)
Definition require (n : Z) : M unit :=
  size <-- stack_size ;;
  if size <? n then set_error SCRIPT_ERR_INVALID_STACK_OPERATION else ret tt.

(** [swap(stacktop(-i), stacktop(-j))] *)
Definition swap (i j : Z) : M unit :=
  x <-- stacktop i ;;
  y <-- stacktop j ;;
  l <-- get stack ;;
  set_stack (<[Z.to_nat (j - 1) := x]> (<[Z.to_nat (i - 1) := y]> l)).

(** [stack.erase(stack.end()-i, stack.end()-j)], [stack.insert(stack.end()-i, v)]:
    undefined outside the vector. *)
Definition erase (i j : Z) : M unit :=
  l <-- get stack ;;
  if (Z.of_nat (length l) <? i) || (i <? j) || (j <? 0) then fail Undefined else
  set_stack (take (Z.to_nat j) l ++ drop (Z.to_nat i) l).
Definition insert_at (i : Z) (v : list byte) : M unit :=
  l <-- get stack ;;
  if (Z.of_nat (length l) <? i) || (i <? 0) then fail Undefined else
  set_stack (take (Z.to_nat i) l ++ v :: drop (Z.to_nat i) l).

(** [CScriptNum(stacktop(-i), fRequireMinimal)] *)
Definition num_at (i : Z) (fRequireMinimal : bool) : M Z :=
  v <-- stacktop i ;;
  match CScriptNum_vch v fRequireMinimal with
  | Ret n => ret n
  | Err e => fail (Throw (scriptnum e))
  end.

(** The assertions of the [CScriptNum] operators. *)
Definition assert_some {A} (o : option A) : M A :=
  match o with Some a => ret a | None => fail AssertFails end.

(** [operator+], [operator-] on [int64_t] operands: signed overflow is undefined. *)
Definition num_arith (z : Z) : M Z :=
  if (- 2 ^ 63 <=? z) && (z <? 2 ^ 63) then ret z else fail Undefined.

(** ** The instructions, one definition per group of [case] labels *)

Definition op_pushnum (opcode : Z) : M unit :=
  push_back (getvch (opcode - (OP_1 - 1))).

Definition op_nop (opcode : Z) : M unit := ret tt.

Definition op_upgradable_nop (flags : Z) (opcode : Z) : M unit :=
  if has_flag flags SCRIPT_VERIFY_DISCOURAGE_UPGRADABLE_NOPS
  then set_error SCRIPT_ERR_DISCOURAGE_UPGRADABLE_NOPS else ret tt.

Definition op_if (fExec : bool) (opcode : Z) : M unit :=
  fValue <--
    (if fExec then
       size <-- stack_size ;;
       if size <? 1 then set_error SCRIPT_ERR_UNBALANCED_CONDITIONAL else
       vch <-- stacktop 1 ;;
       let fValue := CastToBool vch in
       let fValue := if opcode =? OP_NOTIF then negb fValue else fValue in
       popstack ;;; ret fValue
     else ret false) ;;
  l <-- get vfExec ;;
  set_vfExec (fValue :: l).

Definition op_else (opcode : Z) : M unit :=
  l <-- get vfExec ;;
  match l with
  | [] => set_error SCRIPT_ERR_UNBALANCED_CONDITIONAL
  | b :: l => set_vfExec (negb b :: l)
  end.

Definition op_endif (opcode : Z) : M unit :=
  l <-- get vfExec ;;
  match l with
  | [] => set_error SCRIPT_ERR_UNBALANCED_CONDITIONAL
  | _ :: l => set_vfExec l
  end.

Definition op_verify (opcode : Z) : M unit :=
  require 1 ;;;
  v <-- stacktop 1 ;;
  if CastToBool v then popstack else set_error SCRIPT_ERR_VERIFY.

Definition op_return (opcode : Z) : M unit := set_error SCRIPT_ERR_OP_RETURN.

Definition op_toaltstack (opcode : Z) : M unit :=
  require 1 ;;;
  v <-- stacktop 1 ;;
  l <-- get altstack ;;
  set_altstack (v :: l) ;;;
  popstack.

Definition op_fromaltstack (opcode : Z) : M unit :=
  size <-- get (fun s => Z.of_nat (length (altstack s))) ;;
  if size <? 1 then set_error SCRIPT_ERR_INVALID_ALTSTACK_OPERATION else
  v <-- altstacktop 1 ;;
  push_back v ;;;
  popstack_alt.

Definition op_2drop (opcode : Z) : M unit := require 2 ;;; popstack ;;; popstack.

Definition op_2dup (opcode : Z) : M unit :=
  require 2 ;;;
  vch1 <-- stacktop 2 ;; vch2 <-- stacktop 1 ;;
  push_back vch1 ;;; push_back vch2.

Definition op_3dup (opcode : Z) : M unit :=
  require 3 ;;;
  vch1 <-- stacktop 3 ;; vch2 <-- stacktop 2 ;; vch3 <-- stacktop 1 ;;
  push_back vch1 ;;; push_back vch2 ;;; push_back vch3.

Definition op_2over (opcode : Z) : M unit :=
  require 4 ;;;
  vch1 <-- stacktop 4 ;; vch2 <-- stacktop 3 ;;
  push_back vch1 ;;; push_back vch2.

Definition op_2rot (opcode : Z) : M unit :=
  require 6 ;;;
  vch1 <-- stacktop 6 ;; vch2 <-- stacktop 5 ;;
  erase 6 4 ;;;
  push_back vch1 ;;; push_back vch2.

Definition op_2swap (opcode : Z) : M unit := require 4 ;;; swap 4 2 ;;; swap 3 1.

Definition op_ifdup (opcode : Z) : M unit :=
  require 1 ;;;
  vch <-- stacktop 1 ;;
  if CastToBool vch then push_back vch else ret tt.

Definition op_depth (opcode : Z) : M unit :=
  size <-- stack_size ;; push_back (getvch size).

Definition op_drop (opcode : Z) : M unit := require 1 ;;; popstack.

Definition op_dup (opcode : Z) : M unit :=
  require 1 ;;; vch <-- stacktop 1 ;; push_back vch.

Definition op_nip (opcode : Z) : M unit := require 2 ;;; erase 2 1.

Definition op_over (opcode : Z) : M unit :=
  require 2 ;;; vch <-- stacktop 2 ;; push_back vch.

Definition op_pick_roll (fRequireMinimal : bool) (opcode : Z) : M unit :=
  require 2 ;;;
  bn <-- num_at 1 fRequireMinimal ;;
  let n := getint bn in
  popstack ;;;
  size <-- stack_size ;;
  if (n <? 0) || (n >=? size) then set_error SCRIPT_ERR_INVALID_STACK_OPERATION else
  vch <-- stacktop (n + 1) ;;
  (if opcode =? OP_ROLL then erase (n + 1) n else ret tt) ;;;
  push_back vch.

Definition op_rot (opcode : Z) : M unit := require 3 ;;; swap 3 2 ;;; swap 2 1.

Definition op_swap (opcode : Z) : M unit := require 2 ;;; swap 2 1.

Definition op_tuck (opcode : Z) : M unit :=
  require 2 ;;; vch <-- stacktop 1 ;; insert_at 2 vch.

Definition op_size (opcode : Z) : M unit :=
  require 1 ;;; v <-- stacktop 1 ;; push_back (getvch (Z.of_nat (length v))).

Definition op_equal (opcode : Z) : M unit :=
  require 2 ;;;
  vch1 <-- stacktop 2 ;; vch2 <-- stacktop 1 ;;
  let fEqual := bool_decide (vch1 = vch2) in
  popstack ;;; popstack ;;;
  push_back (if fEqual then vchTrue else vchFalse) ;;;
  if opcode =? OP_EQUALVERIFY
  then if fEqual then popstack else set_error SCRIPT_ERR_EQUALVERIFY
  else ret tt.

Definition op_unary (fRequireMinimal : bool) (opcode : Z) : M unit :=
  require 1 ;;;
  bn <-- num_at 1 fRequireMinimal ;;
  bn <--
    (if opcode =? OP_1ADD then assert_some (num_add_assign bn 1)
     else if opcode =? OP_1SUB then assert_some (num_sub_assign bn 1)
     else if opcode =? OP_NEGATE then assert_some (num_neg bn)
     else if opcode =? OP_ABS then (if bn <? 0 then assert_some (num_neg bn) else ret bn)
     else if opcode =? OP_NOT then ret (if bn =? 0 then 1 else 0)
     else if opcode =? OP_0NOTEQUAL then ret (if negb (bn =? 0) then 1 else 0)
     else fail AssertFails) ;;
  popstack ;;;
  push_back (getvch bn).

Definition Zbool (b : bool) : Z := if b then 1 else 0.

Definition op_binary (fRequireMinimal : bool) (opcode : Z) : M unit :=
  require 2 ;;;
  bn1 <-- num_at 2 fRequireMinimal ;;
  bn2 <-- num_at 1 fRequireMinimal ;;
  bn <--
    (if opcode =? OP_ADD then num_arith (bn1 + bn2)
     else if opcode =? OP_SUB then num_arith (bn1 - bn2)
     else if opcode =? OP_BOOLAND then ret (Zbool (negb (bn1 =? 0) && negb (bn2 =? 0)))
     else if opcode =? OP_BOOLOR then ret (Zbool (negb (bn1 =? 0) || negb (bn2 =? 0)))
     else if opcode =? OP_NUMEQUAL then ret (Zbool (bn1 =? bn2))
     else if opcode =? OP_NUMEQUALVERIFY then ret (Zbool (bn1 =? bn2))
     else if opcode =? OP_NUMNOTEQUAL then ret (Zbool (negb (bn1 =? bn2)))
     else if opcode =? OP_LESSTHAN then ret (Zbool (bn1 <? bn2))
     else if opcode =? OP_GREATERTHAN then ret (Zbool (bn1 >? bn2))
     else if opcode =? OP_LESSTHANOREQUAL then ret (Zbool (bn1 <=? bn2))
     else if opcode =? OP_GREATERTHANOREQUAL then ret (Zbool (bn1 >=? bn2))
     else if opcode =? OP_MIN then ret (if bn1 <? bn2 then bn1 else bn2)
     else if opcode =? OP_MAX then ret (if bn1 >? bn2 then bn1 else bn2)
     else fail AssertFails) ;;
  popstack ;;; popstack ;;;
  push_back (getvch bn) ;;;
  if opcode =? OP_NUMEQUALVERIFY then
    v <-- stacktop 1 ;;
    if CastToBool v then popstack else set_error SCRIPT_ERR_NUMEQUALVERIFY
  else ret tt.

Definition op_within (fRequireMinimal : bool) (opcode : Z) : M unit :=
  require 3 ;;;
  bn1 <-- num_at 3 fRequireMinimal ;;
  bn2 <-- num_at 2 fRequireMinimal ;;
  bn3 <-- num_at 1 fRequireMinimal ;;
  let fValue := (bn2 <=? bn1) && (bn1 <? bn3) in
  popstack ;;; popstack ;;; popstack ;;;
  push_back (if fValue then vchTrue else vchFalse).

(** [CHash160().Write(v).Finalize(h)], [CHash256().Write(v).Finalize(h)] *)
Definition hash160_bytes (v : list byte) : list byte :=
  (CHash160_Finalize (CHash256_Write CHash256_new v)).2.
Definition hash256_bytes (v : list byte) : list byte :=
  (CHash256_Finalize (CHash256_Write CHash256_new v)).2.

Definition op_hash (opcode : Z) : M unit :=
  require 1 ;;;
  vch <-- stacktop 1 ;;
  let vchHash :=
    if opcode =? OP_RIPEMD160 then Ripemd160.ripemd160 vch
    else if opcode =? OP_SHA1 then Sha1.sha1 vch
    else if opcode =? OP_SHA256 then Sha256.sha256 vch
    else if opcode =? OP_HASH160 then hash160_bytes vch
    else hash256_bytes vch in
  popstack ;;;
  push_back vchHash.

Definition op_codeseparator (opcode : Z) : M unit :=
  p <-- get pc ;; set_pbegincodehash p.
End handlers.

(** ** Signature instructions *)

(** [BaseSignatureChecker]: what decides whether a signature is valid for a key and
    the script code. *)
Class BaseSignatureChecker : Type := {
  CheckSig : list byte -> list byte -> list byte -> bool
}.

Section signatures.
Context {checker : BaseSignatureChecker} (flags : Z).
Open Scope eval_scope.

(** [CScript(vchSig)]: the script that pushes the signature. *)
Definition drop_signature (scriptCode vchSig : list byte) : list byte :=
  (FindAndDelete scriptCode (push_data [] vchSig)).1.

Definition check_encodings (vchSig vchPubKey : list byte) : M unit :=
  lift (CheckSignatureEncoding vchSig flags) ;;;
  lift (CheckPubKeyEncoding vchPubKey flags).

Definition op_checksig (opcode : Z) : M unit :=
  require 2 ;;;
  vchSig <-- stacktop 2 ;; vchPubKey <-- stacktop 1 ;;
  p <-- get pbegincodehash ;;
  let scriptCode := drop_signature p vchSig in
  check_encodings vchSig vchPubKey ;;;
  let fSuccess := CheckSig vchSig vchPubKey scriptCode in
  popstack ;;; popstack ;;;
  push_back (if fSuccess then vchTrue else vchFalse) ;;;
  if opcode =? OP_CHECKSIGVERIFY
  then if fSuccess then popstack else set_error SCRIPT_ERR_CHECKSIGVERIFY
  else ret tt.

(** [for (int k = 0; k < nSigsCount; k++)]: drop every signature from the script
    code; [n] is [nSigsCount - k]. *)
Fixpoint drop_signatures (n : nat) (i : Z) (scriptCode : list byte) : M (list byte) :=
  match n with
  | O => ret scriptCode
  | S n => vchSig <-- stacktop i ;; drop_signatures n (i + 1) (drop_signature scriptCode vchSig)
  end.

(** [while (fSuccess && nSigsCount > 0)]; every turn uses up a key. *)
Fixpoint multisig_loop (fuel : nat) (scriptCode : list byte) (isig ikey nSigsCount nKeysCount : Z)
    : M bool :=
  if negb (nSigsCount >? 0) then ret true else
  match fuel with
  | O => fail Undefined
  | S f =>
      vchSig <-- stacktop isig ;; vchPubKey <-- stacktop ikey ;;
      check_encodings vchSig vchPubKey ;;;
      let fOk := CheckSig vchSig vchPubKey scriptCode in
      let isig := if fOk then isig + 1 else isig in
      let nSigsCount := if fOk then nSigsCount - 1 else nSigsCount in
      let ikey := ikey + 1 in
      let nKeysCount := nKeysCount - 1 in
      if nSigsCount >? nKeysCount then ret false
      else multisig_loop f scriptCode isig ikey nSigsCount nKeysCount
  end.

(** [while (i-- > 1) popstack(stack);] *)
Fixpoint pop_n (n : nat) : M unit :=
  match n with O => ret tt | S n => popstack ;;; pop_n n end.

Definition op_checkmultisig (fRequireMinimal : bool) (opcode : Z) : M unit :=
  let i := 1 in
  require i ;;;
  bnKeys <-- num_at i fRequireMinimal ;;
  let nKeysCount := getint bnKeys in
  if (nKeysCount <? 0) || (nKeysCount >? 20) then set_error SCRIPT_ERR_PUBKEY_COUNT else
  n <-- get nOpCount ;;
  set_nOpCount (n + nKeysCount) ;;;
  if n + nKeysCount >? 201 then set_error SCRIPT_ERR_OP_COUNT else
  let i := i + 1 in
  let ikey := i in
  let i := i + nKeysCount in
  require i ;;;
  bnSigs <-- num_at i fRequireMinimal ;;
  let nSigsCount := getint bnSigs in
  if (nSigsCount <? 0) || (nSigsCount >? nKeysCount) then set_error SCRIPT_ERR_SIG_COUNT else
  let i := i + 1 in
  let isig := i in
  let i := i + nSigsCount in
  require i ;;;
  p <-- get pbegincodehash ;;
  scriptCode <-- drop_signatures (Z.to_nat nSigsCount) isig p ;;
  fSuccess <-- multisig_loop (Z.to_nat nKeysCount) scriptCode isig ikey nSigsCount nKeysCount ;;
  pop_n (Z.to_nat (i - 1)) ;;;
  require 1 ;;;
  dummy <-- stacktop 1 ;;
  if has_flag flags SCRIPT_VERIFY_NULLDUMMY && negb (length dummy =? 0)%nat
  then set_error SCRIPT_ERR_SIG_NULLDUMMY else
  popstack ;;;
  push_back (if fSuccess then vchTrue else vchFalse) ;;;
  if opcode =? OP_CHECKMULTISIGVERIFY
  then if fSuccess then popstack else set_error SCRIPT_ERR_CHECKMULTISIGVERIFY
  else ret tt.

(** ** The switch *)

Definition fRequireMinimal : bool := has_flag flags SCRIPT_VERIFY_MINIMALDATA.

(** [switch (opcode)]: the labels of every group and its code. *)
Definition op_switch (fExec : bool) : list (list Z * (Z -> M unit)) :=
  [ ([OP_1NEGATE; OP_1; OP_2; OP_3; OP_4; OP_5; OP_6; OP_7; OP_8; OP_9; OP_10; OP_11; OP_12;
      OP_13; OP_14; OP_15; OP_16], op_pushnum);
    ([OP_NOP], op_nop);
    ([OP_NOP1; OP_NOP2; OP_NOP3; OP_NOP4; OP_NOP5; OP_NOP6; OP_NOP7; OP_NOP8; OP_NOP9; OP_NOP10],
     op_upgradable_nop flags);
    ([OP_IF; OP_NOTIF], op_if fExec);
    ([OP_ELSE], op_else);
    ([OP_ENDIF], op_endif);
    ([OP_VERIFY], op_verify);
    ([OP_RETURN], op_return);
    ([OP_TOALTSTACK], op_toaltstack);
    ([OP_FROMALTSTACK], op_fromaltstack);
    ([OP_2DROP], op_2drop);
    ([OP_2DUP], op_2dup);
    ([OP_3DUP], op_3dup);
    ([OP_2OVER], op_2over);
    ([OP_2ROT], op_2rot);
    ([OP_2SWAP], op_2swap);
    ([OP_IFDUP], op_ifdup);
    ([OP_DEPTH], op_depth);
    ([OP_DROP], op_drop);
    ([OP_DUP], op_dup);
    ([OP_NIP], op_nip);
    ([OP_OVER], op_over);
    ([OP_PICK; OP_ROLL], op_pick_roll fRequireMinimal);
    ([OP_ROT], op_rot);
    ([OP_SWAP], op_swap);
    ([OP_TUCK], op_tuck);
    ([OP_SIZE], op_size);
    ([OP_EQUAL; OP_EQUALVERIFY], op_equal);
    ([OP_1ADD; OP_1SUB; OP_NEGATE; OP_ABS; OP_NOT; OP_0NOTEQUAL], op_unary fRequireMinimal);
    ([OP_ADD; OP_SUB; OP_BOOLAND; OP_BOOLOR; OP_NUMEQUAL; OP_NUMEQUALVERIFY; OP_NUMNOTEQUAL;
      OP_LESSTHAN; OP_GREATERTHAN; OP_LESSTHANOREQUAL; OP_GREATERTHANOREQUAL; OP_MIN; OP_MAX],
     op_binary fRequireMinimal);
    ([OP_WITHIN], op_within fRequireMinimal);
    ([OP_RIPEMD160; OP_SHA1; OP_SHA256; OP_HASH160; OP_HASH256], op_hash);
    ([OP_CODESEPARATOR], op_codeseparator);
    ([OP_CHECKSIG; OP_CHECKSIGVERIFY], op_checksig);
    ([OP_CHECKMULTISIG; OP_CHECKMULTISIGVERIFY], op_checkmultisig fRequireMinimal) ].

Fixpoint run_switch (cases : list (list Z * (Z -> M unit))) (opcode : Z) : M unit :=
  match cases with
  | [] => set_error SCRIPT_ERR_BAD_OPCODE
  | (labels, code) :: cases =>
      if existsb (Z.eqb opcode) labels then code opcode else run_switch cases opcode
  end.

Definition disabled (opcode : Z) : bool :=
  existsb (Z.eqb opcode)
    [OP_CAT; OP_SUBSTR; OP_LEFT; OP_RIGHT; OP_INVERT; OP_AND; OP_OR; OP_XOR; OP_2MUL; OP_2DIV;
     OP_MUL; OP_DIV; OP_MOD; OP_LSHIFT; OP_RSHIFT].

(** One turn of [while (pc < pend)]. *)
Definition eval_step : M unit :=
  l <-- get vfExec ;;
  let fExec := forallb id l in
  p <-- get pc ;;
  let op := GetOp2 p in
  let opcode := op_code op in
  let vchPushValue := op_data op in
  if negb (op_ok op) then set_error SCRIPT_ERR_BAD_OPCODE else
  set_pc (op_pc op) ;;;
  if Z.of_nat (length vchPushValue) >? MAX_SCRIPT_ELEMENT_SIZE
  then set_error SCRIPT_ERR_PUSH_SIZE else
  n <-- get nOpCount ;;
  (if opcode >? OP_16 then set_nOpCount (n + 1) else ret tt) ;;;
  if (opcode >? OP_16) && (n + 1 >? 201) then set_error SCRIPT_ERR_OP_COUNT else
  if disabled opcode then set_error SCRIPT_ERR_DISABLED_OPCODE else
  (if fExec && ((0 <=? opcode) && (opcode <=? OP_PUSHDATA4)) then
     if fRequireMinimal && negb (CheckMinimalPush vchPushValue opcode)
     then set_error SCRIPT_ERR_MINIMALDATA
     else push_back vchPushValue
   else if fExec || ((OP_IF <=? opcode) && (opcode <=? OP_ENDIF))
   then run_switch (op_switch fExec) opcode
   else ret tt) ;;;
  size <-- get (fun s => Z.of_nat (length (stack s)) + Z.of_nat (length (altstack s))) ;;
  if size >? 1000 then set_error SCRIPT_ERR_STACK_SIZE else ret tt.

(** The loop; an instruction takes at least a byte, so the script's length is
    enough turns. *)
Fixpoint eval_loop (fuel : nat) : M unit := fun s =>
  match pc s with
  | [] => Ret (tt, s)
  | _ => match fuel with
         | O => Err Undefined
         | S f => bind eval_step (fun _ => eval_loop f) s
         end
  end.

(** [EvalScript]: the stack left by a successful evaluation, or why it failed.
    [catch (...)] turns every exception into [SCRIPT_ERR_UNKNOWN_ERROR]. *)
Definition EvalScript (stk : list (list byte)) (script : list byte)
    : result stop (list (list byte)) :=
  if Z.of_nat (length script) >? MAX_SCRIPT_SIZE then Err (Error SCRIPT_ERR_SCRIPT_SIZE) else
  match eval_loop (length script) (mk_state stk [] [] script script 0) with
  | Err (Throw _) => Err (Error SCRIPT_ERR_UNKNOWN_ERROR)
  | Err e => Err e
  | Ret (_, s) =>
      if negb (length (vfExec s) =? 0)%nat then Err (Error SCRIPT_ERR_UNBALANCED_CONDITIONAL)
      else Ret (stack s)
  end.

Open Scope btc_scope.

Definition VerifyScript (scriptSig scriptPubKey : list byte) : result stop unit :=
  if has_flag flags SCRIPT_VERIFY_SIGPUSHONLY && negb (IsPushOnly scriptSig)
  then Err (Error SCRIPT_ERR_SIG_PUSHONLY) else
  let* stk := EvalScript [] scriptSig in
  let stackCopy := if has_flag flags SCRIPT_VERIFY_P2SH then stk else [] in
  let* stk := EvalScript stk scriptPubKey in
  match stk with
  | [] => Err (Error SCRIPT_ERR_EVAL_FALSE)
  | top :: _ =>
      if negb (CastToBool top) then Err (Error SCRIPT_ERR_EVAL_FALSE) else
      if has_flag flags SCRIPT_VERIFY_P2SH && IsPayToScriptHash scriptPubKey then
        if negb (IsPushOnly scriptSig) then Err (Error SCRIPT_ERR_SIG_PUSHONLY) else
        match stackCopy with
        | [] => Err AssertFails
        | pubKeySerialized :: stackCopy =>
            let* stackCopy := EvalScript stackCopy pubKeySerialized in
            match stackCopy with
            | [] => Err (Error SCRIPT_ERR_EVAL_FALSE)
            | top :: _ => if negb (CastToBool top) then Err (Error SCRIPT_ERR_EVAL_FALSE) else Ret tt
            end
        end
      else Ret tt
  end.
End signatures.

(** ** Strict DER signatures *)

(** A minimal big-endian encoding of a non-negative integer. *)
Definition der_int (r : list byte) : Prop :=
  exists b l, r = b :: l /\ byte.unsigned b < 128 /\
    match l with c :: _ => byte.unsigned b = 0 -> 128 <= byte.unsigned c | [] => True end.

(** [30 <len> 02 <len R> R 02 <len S> S <hashtype>], at most 73 bytes. *)
Definition der_signature (R S : list byte) (ht : byte) : list byte :=
  [byte.of_Z 0x30; byte.of_Z (Z.of_nat (length R + length S + 4)); byte.of_Z 0x02;
   byte.of_Z (Z.of_nat (length R))] ++ R
  ++ [byte.of_Z 0x02; byte.of_Z (Z.of_nat (length S))] ++ S ++ [ht].
Definition der_parts (sig R S : list byte) (ht : byte) : Prop :=
  der_int R /\ der_int S /\ sig = der_signature R S ht /\ (length sig <= 73)%nat.
Definition strict_der (sig : list byte) : Prop := exists R S ht, der_parts sig R S ht.

Lemma at_byte_at v i : 0 <= i < Z.of_nat (length v) -> at_ v i = Some (byte_at v (Z.to_nat i)).
Proof.
  intros Hi. unfold at_, byte_at. destruct (Z.ltb_spec i 0); [lia|].
  destruct (lookup_lt_is_Some_2 v (Z.to_nat i)) as [b Hb]; [lia|].
  rewrite Hb. cbn [fmap option_fmap option_map]. f_equal. f_equal.
  rewrite nth_lookup_total, Hb. done.
Qed.

Lemma byte_at_range v i : 0 <= byte_at v i < 256.
Proof. apply unsigned_range. Qed.

(** The test as a conjunction on the bytes read. *)
Definition valid_encoding (sig : list byte) : bool :=
  let size := Z.of_nat (length sig) in
  let lenR := byte_at sig 3 in
  let lenS := byte_at sig (Z.to_nat (5 + lenR)) in
  (9 <=? size) && (size <=? 73) && (byte_at sig 0 =? 0x30) && (byte_at sig 1 =? size - 3) &&
  (5 + lenR <? size) && (lenR + lenS + 7 =? size) && (byte_at sig 2 =? 0x02) &&
  negb (lenR =? 0) && (Z.land (byte_at sig 4) 0x80 =? 0) &&
  negb ((lenR >? 1) && (byte_at sig 4 =? 0x00) && (Z.land (byte_at sig 5) 0x80 =? 0)) &&
  (byte_at sig (Z.to_nat (lenR + 4)) =? 0x02) && negb (lenS =? 0) &&
  (Z.land (byte_at sig (Z.to_nat (lenR + 6))) 0x80 =? 0) &&
  negb ((lenS >? 1) && (byte_at sig (Z.to_nat (lenR + 6)) =? 0x00) &&
        (Z.land (byte_at sig (Z.to_nat (lenR + 7))) 0x80 =? 0)).

(** Every read of the test is inside the signature. *)
Lemma IsValidSignatureEncoding_total sig :
  IsValidSignatureEncoding sig = Some (valid_encoding sig).
Proof.
  unfold IsValidSignatureEncoding, valid_encoding. cbv zeta.
  rewrite (Z.gtb_ltb (Z.of_nat _) 73).
  destruct (Z.ltb_spec (Z.of_nat (length sig)) 9), (Z.leb_spec 9 (Z.of_nat (length sig))); try lia; [done|].
  destruct (Z.ltb_spec 73 (Z.of_nat (length sig))), (Z.leb_spec (Z.of_nat (length sig)) 73); try lia; [done|].
  rewrite (at_byte_at sig 0), (at_byte_at sig 1), (at_byte_at sig 3), (at_byte_at sig 2),
    (at_byte_at sig 4) by lia. cbn [mbind option_bind]. simpl (true && true).
  change (Z.to_nat 0) with 0%nat. change (Z.to_nat 1) with 1%nat. change (Z.to_nat 2) with 2%nat.
  change (Z.to_nat 3) with 3%nat. change (Z.to_nat 4) with 4%nat. rewrite !andb_true_l.
  destruct (byte_at sig 0 =? 0x30); [|done]. simpl (negb true). cbn iota.
  destruct (byte_at sig 1 =? _); [|done]. simpl (negb true). cbn iota.
  pose proof (byte_at_range sig 3) as R3. set (lenR := byte_at sig 3) in *.
  rewrite Z.geb_leb.
  destruct (Z.leb_spec (Z.of_nat (length sig)) (5 + lenR)),
    (Z.ltb_spec (5 + lenR) (Z.of_nat (length sig))); try lia; [done|].
  rewrite (at_byte_at sig (5 + lenR)) by lia. cbn [mbind option_bind].
  pose proof (byte_at_range sig (Z.to_nat (5 + lenR))) as RS.
  set (lenS := byte_at sig (Z.to_nat (5 + lenR))) in *.
  destruct (Z.eqb_spec (lenR + lenS + 7) (Z.of_nat (length sig))); [|done]. cbn [negb andb].
  destruct (byte_at sig 2 =? 0x02); [|done]. cbn [negb andb].
  destruct (Z.eqb_spec lenR 0); [done|]. cbn [negb andb].
  destruct (Z.land (byte_at sig 4) 0x80 =? 0); [|done]. cbn [negb andb].
  rewrite (at_byte_at sig 5), (at_byte_at sig (lenR + 4)), (at_byte_at sig (lenR + 6)) by lia.
  change (Z.to_nat 5) with 5%nat. rewrite !(Z.gtb_ltb _ 1).
  destruct (Z.ltb_spec 1 lenR); cbn [mbind option_bind andb negb].
  1: destruct ((byte_at sig 4 =? 0) && _); cbn [negb andb]; [done|].
  all: destruct (byte_at sig (Z.to_nat (lenR + 4)) =? 0x02); cbn [negb andb]; [|done].
  all: destruct (Z.eqb_spec lenS 0); cbn [negb andb]; [done|].
  all: destruct (Z.land (byte_at sig (Z.to_nat (lenR + 6))) 0x80 =? 0); cbn [negb andb]; [|done].
  all: destruct (Z.ltb_spec 1 lenS); cbn [mbind option_bind andb negb]; [|done].
  all: rewrite (at_byte_at sig (lenR + 7)) by lia; cbn [mbind option_bind].
  all: by destruct ((byte_at sig (Z.to_nat (lenR + 6)) =? 0) && _).
Qed.

Lemma unsigned_eq_of_Z b z : byte.unsigned b = z -> b = byte.of_Z z.
Proof. intros <-. by rewrite byte.of_Z_unsigned. Qed.

Lemma byte_at_app1 l1 l2 i : (i < length l1)%nat -> byte_at (l1 ++ l2) i = byte_at l1 i.
Proof. intros. unfold byte_at. by rewrite app_nth1. Qed.
Lemma byte_at_app2 l1 l2 i : byte_at (l1 ++ l2) (length l1 + i) = byte_at l2 i.
Proof. unfold byte_at. rewrite app_nth2 by lia. do 2 f_equal. lia. Qed.

Lemma high_bit b : (Z.land (byte.unsigned b) 0x80 =? 0) = (byte.unsigned b <? 128).
Proof. by destruct b. Qed.

(** What the test asks of the bytes of an integer. *)
Definition der_int_test (r : list byte) : bool :=
  (Z.land (byte_at r 0) 0x80 =? 0) &&
  negb ((Z.of_nat (length r) >? 1) && (byte_at r 0 =? 0x00) && (Z.land (byte_at r 1) 0x80 =? 0)).

Lemma der_int_test_spec r : r <> [] -> der_int_test r = true <-> der_int r.
Proof.
  intros Hr. destruct r as [|b l]; [done|]. unfold der_int_test, der_int, byte_at.
  cbn [nth]. rewrite high_bit, Z.gtb_ltb. destruct l as [|c l]; cbn [nth length].
  - rewrite andb_true_r. rewrite Z.ltb_lt. split; [intros; by eexists _, []|].
    by intros (?&?&[= <- <-]&?&?).
  - rewrite high_bit, (proj2 (Z.ltb_lt 1 _)) by lia. rewrite andb_true_l, andb_true_iff, Z.ltb_lt.
    rewrite negb_true_iff, andb_false_iff, Z.eqb_neq, Z.ltb_ge. split.
    + intros [H1 H2]. eexists _, _. split; [done|]. split; [done|]. intros; lia.
    + intros (?&?&[= <- <-]&H1&H2). split; [done|]. lia.
Qed.

Lemma negb_length_0 {A} (l : list A) : negb (Z.of_nat (length l) =? 0) = true <-> l <> [].
Proof. destruct l; [done|]. cbn [length]. rewrite negb_true_iff, Z.eqb_neq. split; [done|lia]. Qed.

(** The layout the test walks over. *)
Definition der_layout (c0 c1 c2 c3 t l ht : byte) (R S : list byte) : list byte :=
  [c0; c1; c2; c3] ++ R ++ [t; l] ++ S ++ [ht].

Lemma valid_layout c0 c1 c2 c3 t l ht R S :
  byte.unsigned c3 = Z.of_nat (length R) ->
  valid_encoding (der_layout c0 c1 c2 c3 t l ht R S) = true <->
  byte.unsigned c0 = 0x30 /\ byte.unsigned c1 = Z.of_nat (length R + length S + 4) /\
  byte.unsigned c2 = 0x02 /\ byte.unsigned t = 0x02 /\
  byte.unsigned l = Z.of_nat (length S) /\ der_int R /\ der_int S /\
  (length R + length S + 7 <= 73)%nat.
Proof.
  intros H3. unfold valid_encoding. cbv zeta.
  set (sig := der_layout _ _ _ _ _ _ _ _ _).
  assert (Hlen : Z.of_nat (length sig) = Z.of_nat (length R) + Z.of_nat (length S) + 7).
  { unfold sig, der_layout. rewrite !length_app. cbn [length]. lia. }
  assert (H4 : forall k, byte_at sig (4 + k) = byte_at (R ++ [t; l] ++ S ++ [ht]) k) by done.
  change (byte_at sig 0) with (byte.unsigned c0). change (byte_at sig 1) with (byte.unsigned c1).
  change (byte_at sig 2) with (byte.unsigned c2). change (byte_at sig 3) with (byte.unsigned c3).
  rewrite H3.
  replace (Z.to_nat (5 + Z.of_nat (length R))) with (4 + (length R + 1))%nat by lia.
  replace (Z.to_nat (Z.of_nat (length R) + 4)) with (4 + (length R + 0))%nat by lia.
  replace (Z.to_nat (Z.of_nat (length R) + 6)) with (4 + (length R + 2))%nat by lia.
  replace (Z.to_nat (Z.of_nat (length R) + 7)) with (4 + (length R + 3))%nat by lia.
  rewrite !H4, !byte_at_app2.
  change (byte_at ([t; l] ++ S ++ [ht]) 1) with (byte.unsigned l).
  change (byte_at ([t; l] ++ S ++ [ht]) 0) with (byte.unsigned t).
  change (byte_at ([t; l] ++ S ++ [ht]) 2) with (byte_at (S ++ [ht]) 0).
  change (byte_at ([t; l] ++ S ++ [ht]) 3) with (byte_at (S ++ [ht]) 1).
  change (byte_at sig 4) with (byte_at (R ++ [t; l] ++ S ++ [ht]) 0).
  change (byte_at sig 5) with (byte_at (R ++ [t; l] ++ S ++ [ht]) 1).
  rewrite Hlen. clear Hlen H4. clearbody sig.
  assert (A : forall r rest, r <> [] ->
    (Z.land (byte_at (r ++ rest) 0) 0x80 = 0 /\
     negb ((Z.of_nat (length r) >? 1) && (byte_at (r ++ rest) 0 =? 0x00) &&
        (Z.land (byte_at (r ++ rest) 1) 0x80 =? 0)) = true) <-> der_int r).
  { intros r rest Hr. rewrite <- der_int_test_spec by done. unfold der_int_test.
    rewrite andb_true_iff, Z.eqb_eq. destruct r as [|x [|y r]]; done. }
  rewrite !andb_true_iff, !negb_length_0, !Z.leb_le, !Z.eqb_eq, Z.ltb_lt.
  rewrite !Nat2Z.inj_add. change (Z.of_nat 4) with 4.
  split.
  - intros H. repeat match goal with H : _ /\ _ |- _ => destruct H end.
    assert (HlS : byte.unsigned l = Z.of_nat (length S)) by lia.
    match goal with H : negb (byte.unsigned l =? 0) = true |- _ => rewrite HlS in H; apply negb_length_0 in H end.
    repeat (split; [first [done | lia]|]).
    rewrite HlS in *.
    split; [by apply (A R ([t; l] ++ S ++ [ht]))|].
    split; [by apply (A S [ht])|]. lia.
  - intros (H0 & H1 & H2 & Ht & Hl & HR & HS & Hlen).
    assert (NR : R <> []) by (destruct HR as (?&?&->&_); done).
    assert (NS : S <> []) by (destruct HS as (?&?&->&_); done).
    pose proof (proj2 (A R ([t; l] ++ S ++ [ht]) NR) HR) as [HR1 HR2].
    pose proof (proj2 (A S [ht] NS) HS) as [HS1 HS2].
    rewrite Hl, !negb_length_0.
    assert (0 < length R)%nat by (destruct R; [done | cbn; lia]).
    assert (0 < length S)%nat by (destruct S; [done | cbn; lia]).
    repeat split; first [done | lia].
Qed.

(** The signature test accepts exactly the strict DER signatures followed by a
    hash type, and never reads outside the signature. *)
Lemma IsValidSignatureEncoding_spec sig :
  (exists b, IsValidSignatureEncoding sig = Some b) /\
  (IsValidSignatureEncoding sig = Some true <-> strict_der sig).
Proof.
  rewrite IsValidSignatureEncoding_total. split; [by eexists|].
  assert (valid_encoding sig = true <-> strict_der sig) as <-; [|split; congruence].
  split.
  - intros Hv.
    assert (Hb : exists c0 c1 c2 c3 t l ht R S, sig = der_layout c0 c1 c2 c3 t l ht R S /\
               byte.unsigned c3 = Z.of_nat (length R)).
    { pose proof Hv as Hv'. unfold valid_encoding in Hv'. bool_prop.
      destruct sig as [|c0 [|c1 [|c2 [|c3 sig]]]]; cbn [length] in *; try lia.
      pose proof (byte_at_range (c0 :: c1 :: c2 :: c3 :: sig) 3) as Hr.
      change (byte_at (c0 :: c1 :: c2 :: c3 :: sig) 3) with (byte.unsigned c3) in *.
      set (lenR := byte.unsigned c3) in *.
      set (lenS := byte_at _ (Z.to_nat (5 + lenR))) in *.
      pose proof (byte_at_range (c0 :: c1 :: c2 :: c3 :: sig) (Z.to_nat (5 + lenR))) as Hs.
      fold lenS in Hs.
      destruct (list_length_split (Z.to_nat lenR) sig (length sig - Z.to_nat lenR)%nat) as (R & rest & -> & HR); [lia|].
      rewrite length_app in *.
      destruct rest as [|t [|l rest]]; cbn [length] in *; try lia.
      destruct (list_length_split (Z.to_nat lenS) rest (length rest - Z.to_nat lenS)%nat) as (S & [|ht rest'] & -> & HS);
        rewrite ?length_app in *; cbn [length] in *; try lia.
      assert (rest' = []) as -> by (destruct rest'; cbn [length] in *; [done|lia]).
      exists c0, c1, c2, c3, t, l, ht, R, S. split; [done|]. lia. }
    destruct Hb as (c0&c1&c2&c3&t&l&ht&R&S&->&H3).
    apply valid_layout in Hv as (H0&H1&H2&Ht&Hl&HR&HS&Hlen); [|done].
    exists R, S, ht. split; [done|]. split; [done|]. unfold der_signature.
    rewrite <- H1, <- H3, <- Hl, !byte.of_Z_unsigned.
    rewrite (unsigned_eq_of_Z c0 _ H0), (unsigned_eq_of_Z c2 _ H2), (unsigned_eq_of_Z t _ Ht).
    split; [done|]. unfold der_layout. rewrite !length_app. cbn [length]. lia.
  - intros (R & S & ht & HR & HS & -> & Hlen). unfold der_signature in *.
    rewrite !length_app in Hlen. cbn [length] in Hlen.
    apply (valid_layout _ _ _ _ _ _ ht R S); [rewrite unsigned_of_Z_small; lia|].
    rewrite !unsigned_of_Z_small by lia.
    repeat (split; [first [done | lia]|]). lia.
Qed.

(** ** Safety: no undefined behaviour, no failed assertion, bounded stacks *)

(** The stops that the code reports: errors, and the exceptions of [CScriptNum]. *)
Definition reported (e : stop) : Prop :=
  match e with Error _ | Throw (scriptnum _) => True | _ => False end.

(** [m] run from [s] ends in a state that satisfies [Q], or with a reported error. *)
Definition wp {A} (m : M A) (Q : A -> eval_state -> Prop) (s : eval_state) : Prop :=
  match m s with Ret (a, s') => Q a s' | Err e => reported e end.

Section wp_rules.
Context {A B : Type}.
Implicit Types (m : M A) (s : eval_state).

Lemma wp_bind m (k : A -> M B) Q s : wp m (fun a => wp (k a) Q) s -> wp (bind m k) Q s.
Proof. unfold wp, bind. by destruct (m s) as [[a s']|e]. Qed.

Lemma wp_ret (a : A) Q s : Q a s -> wp (ret a) Q s.
Proof. done. Qed.

Lemma wp_get (f : eval_state -> A) Q s : Q (f s) s -> wp (get f) Q s.
Proof. done. Qed.

Lemma wp_error e Q s : wp (A := A) (set_error e) Q s.
Proof. done. Qed.

Lemma wp_mono m Q Q' s : wp m Q s -> (forall a s', Q a s' -> Q' a s') -> wp m Q' s.
Proof. unfold wp. destruct (m s) as [[a s']|e]; auto. Qed.

Lemma wp_lift r Q s : (forall e, r = Err e -> reported e) -> (forall a, r = Ret a -> Q a s) ->
  wp (A := A) (lift r) Q s.
Proof. unfold wp, lift. destruct r; auto. Qed.
End wp_rules.

Lemma wp_require n Q s :
  (n <= Z.of_nat (length (stack s)) -> Q tt s) -> wp (require n) Q s.
Proof.
  intros H. apply wp_bind, wp_get. destruct (Z.ltb_spec (Z.of_nat (length (stack s))) n); [done|].
  by apply H.
Qed.

Lemma wp_stacktop i Q s : 1 <= i <= Z.of_nat (length (stack s)) ->
  (forall v, v ∈ stack s -> stack s !! Z.to_nat (i - 1) = Some v -> Q v s) -> wp (stacktop i) Q s.
Proof.
  intros Hi H. unfold wp, stacktop. destruct (Z.ltb_spec i 1); [lia|].
  destruct (lookup_lt_is_Some_2 (stack s) (Z.to_nat (i - 1))) as [v Hv]; [lia|]. rewrite Hv.
  apply H; [|done]. by apply list_elem_of_lookup_2 in Hv.
Qed.

Lemma wp_altstacktop i Q s : 1 <= i <= Z.of_nat (length (altstack s)) ->
  (forall v, v ∈ altstack s -> Q v s) -> wp (altstacktop i) Q s.
Proof.
  intros Hi H. unfold wp, altstacktop. destruct (Z.ltb_spec i 1); [lia|].
  destruct (lookup_lt_is_Some_2 (altstack s) (Z.to_nat (i - 1))) as [v Hv]; [lia|]. rewrite Hv.
  apply H. by apply list_elem_of_lookup_2 in Hv.
Qed.

Lemma wp_popstack Q s : 1 <= Z.of_nat (length (stack s)) ->
  Q tt (mk_state (tail (stack s)) (altstack s) (vfExec s) (pc s) (pbegincodehash s) (nOpCount s)) ->
  wp popstack Q s.
Proof. unfold wp, popstack. destruct (stack s); cbn [length]; [lia | done]. Qed.

Lemma wp_popstack_alt Q s : 1 <= Z.of_nat (length (altstack s)) ->
  Q tt (mk_state (stack s) (tail (altstack s)) (vfExec s) (pc s) (pbegincodehash s) (nOpCount s)) ->
  wp popstack_alt Q s.
Proof. unfold wp, popstack_alt. destruct (altstack s); cbn [length]; [lia | done]. Qed.

Lemma wp_erase i j Q s : 0 <= j <= i -> i <= Z.of_nat (length (stack s)) ->
  Q tt (mk_state (take (Z.to_nat j) (stack s) ++ drop (Z.to_nat i) (stack s))
         (altstack s) (vfExec s) (pc s) (pbegincodehash s) (nOpCount s)) ->
  wp (erase i j) Q s.
Proof.
  intros H1 H2 HQ. apply wp_bind, wp_get. cbn beta.
  destruct (Z.ltb_spec (Z.of_nat (length (stack s))) i), (Z.ltb_spec i j), (Z.ltb_spec j 0);
    try lia. done.
Qed.

Lemma wp_insert_at i v Q s : 0 <= i -> i <= Z.of_nat (length (stack s)) ->
  Q tt (mk_state (take (Z.to_nat i) (stack s) ++ v :: drop (Z.to_nat i) (stack s))
         (altstack s) (vfExec s) (pc s) (pbegincodehash s) (nOpCount s)) ->
  wp (insert_at i v) Q s.
Proof.
  intros H1 H2 HQ. apply wp_bind, wp_get. cbn beta.
  destruct (Z.ltb_spec (Z.of_nat (length (stack s))) i), (Z.ltb_spec i 0); try lia. done.
Qed.

Lemma wp_swap i j Q s :
  1 <= i <= Z.of_nat (length (stack s)) -> 1 <= j <= Z.of_nat (length (stack s)) ->
  (forall x y, x ∈ stack s -> y ∈ stack s ->
   Q tt (mk_state (<[Z.to_nat (j - 1) := x]> (<[Z.to_nat (i - 1) := y]> (stack s)))
         (altstack s) (vfExec s) (pc s) (pbegincodehash s) (nOpCount s))) ->
  wp (swap i j) Q s.
Proof.
  intros Hi Hj H. apply wp_bind, wp_stacktop; [done|]. intros x Hx _.
  apply wp_bind, wp_stacktop; [done|]. intros y Hy _. apply wp_bind, wp_get. by apply H.
Qed.

Lemma wp_num_at i m Q s : 1 <= i <= Z.of_nat (length (stack s)) ->
  (forall n, Z.abs n < 2 ^ 31 -> Q n s) -> wp (num_at i m) Q s.
Proof.
  intros Hi H. apply wp_bind, wp_stacktop; [done|]. intros v _ _. unfold CScriptNum_vch, nMaxNumSize.
  rewrite Z.gtb_ltb.
  destruct (Z.ltb_spec 4 (Z.of_nat (length v))); [done|]. destruct (_ && _); [done|].
  apply H. apply set_vch_range. lia.
Qed.

Lemma wp_assert_some (P : Z -> Prop) o Q s :
  (exists n, o = Some n /\ P n) -> (forall n, P n -> Q n s) -> wp (assert_some o) Q s.
Proof. intros (n & -> & Hn) H. by apply H. Qed.

Lemma getint_small n : Z.abs n < 2 ^ 31 -> getint n = n.
Proof.
  intros H. unfold getint. rewrite Z.gtb_ltb.
  destruct (Z.ltb_spec (2 ^ 31 - 1) n); [lia|]. destruct (Z.ltb_spec n (- 2 ^ 31)); [lia|done].
Qed.

Lemma push_abs_length f a r : (length (push_abs f a r) <= length r + f)%nat.
Proof.
  revert a r; induction f as [|f IH]; intros a r; simpl; [lia|].
  destruct (a =? 0); [lia|]. etrans; [apply IH|]. rewrite length_app. simpl. lia.
Qed.

(** Every number the interpreter pushes takes at most nine bytes. *)
Lemma getvch_small n : (length (getvch n) <= 9)%nat.
Proof.
  unfold getvch, serialize. destruct (n =? 0); [simpl; lia|]. cbv zeta.
  set (a := u64 _). pose proof (push_abs_length 8 a []) as L. cbn [length] in L.
  set (r := push_abs 8 a []) in *. clearbody r.
  destruct (negb _); [rewrite length_app; cbn [length]; lia|]. destruct (n <? 0); [|lia].
  unfold set_back. rewrite length_app, removelast_firstn_len, length_firstn. cbn [length]. lia.
Qed.

(** The assignments. *)
Lemma wp_push_back v Q s : Q tt (mk_state (v :: stack s) (altstack s) (vfExec s) (pc s) (pbegincodehash s) (nOpCount s)) -> wp (push_back v) Q s.
Proof. done. Qed.
Lemma wp_set_altstack v Q s : Q tt (mk_state (stack s) v (vfExec s) (pc s) (pbegincodehash s) (nOpCount s)) -> wp (set_altstack v) Q s.
Proof. done. Qed.
Lemma wp_set_vfExec v Q s : Q tt (mk_state (stack s) (altstack s) v (pc s) (pbegincodehash s) (nOpCount s)) -> wp (set_vfExec v) Q s.
Proof. done. Qed.
Lemma wp_set_pc v Q s : Q tt (mk_state (stack s) (altstack s) (vfExec s) v (pbegincodehash s) (nOpCount s)) -> wp (set_pc v) Q s.
Proof. done. Qed.
Lemma wp_set_pbegincodehash v Q s : Q tt (mk_state (stack s) (altstack s) (vfExec s) (pc s) v (nOpCount s)) -> wp (set_pbegincodehash v) Q s.
Proof. done. Qed.
Lemma wp_set_nOpCount v Q s : Q tt (mk_state (stack s) (altstack s) (vfExec s) (pc s) (pbegincodehash s) v) -> wp (set_nOpCount v) Q s.
Proof. done. Qed.

(** The invariant of the interpreter's loop on the script [script0]. *)
Definition small (v : list byte) : Prop := Z.of_nat (length v) <= MAX_SCRIPT_ELEMENT_SIZE.

Record inv (script0 : list byte) (s : eval_state) : Prop := mk_inv {
  inv_stack : Forall small (stack s);
  inv_altstack : Forall small (altstack s);
  inv_pc : pc s `suffix_of` script0;
  inv_codehash : pbegincodehash s `suffix_of` script0;
  inv_ops : 0 <= nOpCount s <= 201 }.

(** What the code of an instruction guarantees. *)
Definition op_ok_post (script0 : list byte) (s0 : eval_state) : unit -> eval_state -> Prop :=
  fun _ s => inv script0 s /\ pc s = pc s0 /\ nOpCount s0 <= nOpCount s.
Definition op_safe (code : Z -> M unit) : Prop :=
  forall script0 s opcode, inv script0 s -> wp (code opcode) (op_ok_post script0 s) s.

Ltac small_tac :=
  unfold small, MAX_SCRIPT_ELEMENT_SIZE; cbn [length];
  first [ lia
        | match goal with
          | |- context [if ?b then vchTrue else vchFalse] => destruct b; cbn; lia
          | |- context [length (getvch ?n)] => pose proof (getvch_small n); lia
          end ].
Ltac forall_tac :=
  repeat first
    [ done
    | apply Forall_cons_2 | apply Forall_app_2 | apply Forall_tail | apply Forall_take
    | apply Forall_drop | apply Forall_insert
    | match goal with
      | E : ?v ∈ ?l |- small ?v => refine (proj1 (Forall_forall small l) _ v E)
      end
    | small_tac ].
Ltac length_tac :=
  bool_prop; rewrite ?length_tl in *;
  cbn [stack altstack length];
  rewrite ?length_insert, ?length_app, ?length_take, ?length_drop, ?length_tl; cbn [length]; lia.
Ltac op_post :=
  split; [constructor; cbn [stack altstack pc pbegincodehash nOpCount]; first [forall_tac | done | lia]
        | split; [done | cbn [nOpCount]; lia]].
Ltac wp_op :=
  lazymatch goal with
  | |- wp (bind _ _) _ _ => apply wp_bind
  | |- wp (ret _) _ _ => apply wp_ret
  | |- wp (get _) _ _ => apply wp_get
  | |- wp stack_size _ _ => apply wp_get
  | |- wp (set_error _) _ _ => apply wp_error
  | |- wp (fail (Error _)) _ _ => apply wp_error
  | |- wp (require _) _ _ => apply wp_require; cbn [stack]; intros ?
  | |- wp (stacktop _) _ _ => apply wp_stacktop; [length_tac|]; cbn [stack]; intros ? ? _
  | |- wp (altstacktop _) _ _ => apply wp_altstacktop; [length_tac|]; cbn [altstack]; intros ? ?
  | |- wp popstack _ _ => apply wp_popstack; [length_tac|]
  | |- wp popstack_alt _ _ => apply wp_popstack_alt; [length_tac|]
  | |- wp (erase _ _) _ _ => apply wp_erase; [lia | length_tac |]
  | |- wp (insert_at _ _) _ _ => apply wp_insert_at; [lia | length_tac |]
  | |- wp (swap _ _) _ _ => apply wp_swap; [length_tac | length_tac |]; cbn [stack]; intros ? ? ? ?
  | |- wp (num_at _ _) _ _ => apply wp_num_at; [length_tac |]; intros ? ?
  | |- wp (push_back _) _ _ => apply wp_push_back
  | |- wp (set_altstack _) _ _ => apply wp_set_altstack
  | |- wp (set_vfExec _) _ _ => apply wp_set_vfExec
  | |- wp (set_pbegincodehash _) _ _ => apply wp_set_pbegincodehash
  | |- wp (set_nOpCount _) _ _ => apply wp_set_nOpCount
  | |- wp (set_pc _) _ _ => apply wp_set_pc
  | |- wp (match ?b with _ => _ end) _ _ => destruct b eqn:?
  end; cbn beta iota zeta.

(** Run the code of one instruction, then check the invariant. *)
Ltac op_safe_tac :=
  intros script0 s opcode [? ? ? ? ?];
  repeat (wp_op; cbn [stack altstack vfExec pc pbegincodehash nOpCount]);
  try op_post.

Lemma pushnum_safe : op_safe op_pushnum.
Proof. unfold op_pushnum. op_safe_tac. Qed.
Lemma nop_safe : op_safe op_nop.
Proof. unfold op_nop. op_safe_tac. Qed.
Lemma upgradable_nop_safe flags : op_safe (op_upgradable_nop flags).
Proof. unfold op_upgradable_nop. op_safe_tac. Qed.
Lemma if_safe fExec : op_safe (op_if fExec).
Proof. unfold op_if. op_safe_tac. Qed.
Lemma else_safe : op_safe op_else.
Proof. unfold op_else. op_safe_tac. Qed.
Lemma endif_safe : op_safe op_endif.
Proof. unfold op_endif. op_safe_tac. Qed.
Lemma verify_safe : op_safe op_verify.
Proof. unfold op_verify. op_safe_tac. Qed.
Lemma return_safe : op_safe op_return.
Proof. unfold op_return. op_safe_tac. Qed.
Lemma toaltstack_safe : op_safe op_toaltstack.
Proof. unfold op_toaltstack. op_safe_tac.
Qed.
Lemma fromaltstack_safe : op_safe op_fromaltstack.
Proof. unfold op_fromaltstack. op_safe_tac. Qed.
Lemma op_2drop_safe : op_safe op_2drop.
Proof. unfold op_2drop. op_safe_tac. Qed.
Lemma op_2dup_safe : op_safe op_2dup.
Proof. unfold op_2dup. op_safe_tac. Qed.
Lemma op_3dup_safe : op_safe op_3dup.
Proof. unfold op_3dup. op_safe_tac. Qed.
Lemma op_2over_safe : op_safe op_2over.
Proof. unfold op_2over. op_safe_tac. Qed.
Lemma op_2rot_safe : op_safe op_2rot.
Proof. unfold op_2rot. op_safe_tac. Qed.
Lemma op_2swap_safe : op_safe op_2swap.
Proof. unfold op_2swap. op_safe_tac. Qed.
Lemma ifdup_safe : op_safe op_ifdup.
Proof. unfold op_ifdup. op_safe_tac. Qed.
Lemma depth_safe : op_safe op_depth.
Proof. unfold op_depth. op_safe_tac. Qed.
Lemma drop_safe : op_safe op_drop.
Proof. unfold op_drop. op_safe_tac. Qed.
Lemma dup_safe : op_safe op_dup.
Proof. unfold op_dup. op_safe_tac. Qed.
Lemma nip_safe : op_safe op_nip.
Proof. unfold op_nip. op_safe_tac. Qed.
Lemma over_safe : op_safe op_over.
Proof. unfold op_over. op_safe_tac. Qed.
Lemma rot_safe : op_safe op_rot.
Proof. unfold op_rot. op_safe_tac. Qed.
Lemma swap_safe : op_safe op_swap.
Proof. unfold op_swap. op_safe_tac. Qed.
Lemma tuck_safe : op_safe op_tuck.
Proof. unfold op_tuck. op_safe_tac. Qed.
Lemma size_safe : op_safe op_size.
Proof. unfold op_size. op_safe_tac. Qed.
Lemma equal_safe : op_safe op_equal.
Proof. unfold op_equal. op_safe_tac. Qed.
Lemma codeseparator_safe : op_safe op_codeseparator.
Proof. unfold op_codeseparator. op_safe_tac. Qed.

Lemma hash160_bytes_spec v : hash160_bytes v = Ripemd160.ripemd160 (Sha256.sha256 v).
Proof. apply CHash160_Finalize_spec, (Sha256.CSHA256_Write_holds []), CHash256_new_holds. Qed.
Lemma hash256_bytes_spec v : hash256_bytes v = Sha256.sha256 (Sha256.sha256 v).
Proof. apply CHash256_Finalize_spec, (Sha256.CSHA256_Write_holds []), CHash256_new_holds. Qed.

Definition hash_value (opcode : Z) (vch : list byte) : list byte :=
  if opcode =? OP_RIPEMD160 then Ripemd160.ripemd160 vch
  else if opcode =? OP_SHA1 then Sha1.sha1 vch
  else if opcode =? OP_SHA256 then Sha256.sha256 vch
  else if opcode =? OP_HASH160 then hash160_bytes vch
  else hash256_bytes vch.

Lemma hash_value_small opcode vch : small (hash_value opcode vch).
Proof.
  unfold small, hash_value. rewrite hash160_bytes_spec, hash256_bytes_spec.
  repeat (destruct (_ =? _)); rewrite ?Ripemd160.ripemd160_length, ?Sha1.sha1_length, ?Sha256.sha256_length;
    vm_compute; discriminate.
Qed.

Lemma hash_safe : op_safe op_hash.
Proof.
  intros script0 s opcode [? ? ? ? ?]. unfold op_hash.
  do 4 (wp_op; cbn [stack]).
  change (if opcode =? OP_RIPEMD160 then _ else _) with (hash_value opcode v).
  pose proof (hash_value_small opcode v). generalize dependent (hash_value opcode v). intros h ?.
  repeat (wp_op; cbn [stack]). op_post.
Qed.

Lemma pick_roll_safe m : op_safe (op_pick_roll m).
Proof.
  intros script0 s opcode [? ? ? ? ?]. unfold op_pick_roll.
  do 4 (wp_op; cbn [stack]). cbv zeta. rewrite getint_small by done.
  repeat (wp_op; cbn [stack]); op_post.
Qed.

Lemma assert_add x y Q s : Z.abs x < 2 ^ 31 -> Z.abs y <= 1 ->
  Q (x + y) s -> wp (assert_some (num_add_assign x y)) Q s.
Proof.
  intros Hx Hy H. unfold num_add_assign. rewrite !Z.gtb_ltb, Z.geb_leb.
  destruct (Z.eqb_spec y 0), (Z.ltb_spec 0 y), (Z.leb_spec x (2 ^ 63 - 1 - y)), (Z.ltb_spec y 0),
    (Z.leb_spec (- 2 ^ 63 - y) x); try lia; done.
Qed.

Lemma assert_sub x y Q s : Z.abs x < 2 ^ 31 -> Z.abs y <= 1 ->
  Q (x - y) s -> wp (assert_some (num_sub_assign x y)) Q s.
Proof.
  intros Hx Hy H. unfold num_sub_assign. rewrite !Z.gtb_ltb, Z.geb_leb.
  destruct (Z.eqb_spec y 0), (Z.ltb_spec 0 y), (Z.leb_spec (- 2 ^ 63 + y) x), (Z.ltb_spec y 0),
    (Z.leb_spec x (2 ^ 63 - 1 + y)); try lia; done.
Qed.

Lemma assert_neg x Q s : Z.abs x < 2 ^ 31 -> Q (- x) s -> wp (assert_some (num_neg x)) Q s.
Proof.
  intros Hx H. unfold num_neg. destruct (Z.eqb_spec x (- 2 ^ 63)); [lia|done].
Qed.

(** [operator+] and [operator-] on operands of four bytes do not overflow. *)
Lemma wp_num_arith z Q s : Z.abs z < 2 ^ 32 -> Q z s -> wp (num_arith z) Q s.
Proof.
  intros Hz H. unfold num_arith.
  destruct (Z.leb_spec (- 2 ^ 63) z), (Z.ltb_spec z (2 ^ 63)); try lia; done.
Qed.

Ltac wp_num :=
  lazymatch goal with
  | |- wp (assert_some (num_add_assign _ _)) _ _ => apply assert_add; [done | lia |]
  | |- wp (assert_some (num_sub_assign _ _)) _ _ => apply assert_sub; [done | lia |]
  | |- wp (assert_some (num_neg _)) _ _ => apply assert_neg; [done |]
  | |- wp (num_arith _) _ _ => apply wp_num_arith; [lia |]
  | _ => wp_op
  end; cbn [stack].

(** The instructions with one label per operator: the label is one of them. *)
Definition op_safe_in (labels : list Z) (code : Z -> M unit) : Prop :=
  forall script0 s opcode, existsb (Z.eqb opcode) labels = true ->
  inv script0 s -> wp (code opcode) (op_ok_post script0 s) s.

Lemma op_safe_labels labels code : op_safe code -> op_safe_in labels code.
Proof. intros H script0 s opcode _. apply H. Qed.

Ltac no_label :=
  exfalso; repeat match goal with H : (_ =? _) = false |- _ => rewrite H in * |-; clear H end; done.

Lemma unary_safe m :
  op_safe_in [OP_1ADD; OP_1SUB; OP_NEGATE; OP_ABS; OP_NOT; OP_0NOTEQUAL] (op_unary m).
Proof.
  intros script0 s opcode L [? ? ? ? ?]. unfold op_unary. cbn [existsb] in L.
  repeat wp_num; try op_post.
  no_label.
Qed.

Lemma binary_safe m :
  op_safe_in [OP_ADD; OP_SUB; OP_BOOLAND; OP_BOOLOR; OP_NUMEQUAL; OP_NUMEQUALVERIFY;
      OP_NUMNOTEQUAL; OP_LESSTHAN; OP_GREATERTHAN; OP_LESSTHANOREQUAL; OP_GREATERTHANOREQUAL;
      OP_MIN; OP_MAX] (op_binary m).
Proof.
  intros script0 s opcode L [? ? ? ? ?]. unfold op_binary. cbn [existsb] in L.
  do 6 wp_num.
  apply wp_bind, (wp_mono _ (fun _ s' => s' = s)).
  { repeat wp_num; done. }
  intros bn s' ->. clear L. repeat wp_num; op_post.
Qed.

Lemma within_safe m : op_safe (op_within m).
Proof.
  intros script0 s opcode [? ? ? ? ?]. unfold op_within.
  repeat wp_num; op_post.
Qed.

(** The encoding checks only fail with their own errors. *)
Lemma IsLowDERSignature_parts sig R T ht : der_parts sig R T ht ->
  IsLowDERSignature sig = guard (CheckSignatureElement (map byte.unsigned T) true) SCRIPT_ERR_SIG_HIGH_S.
Proof.
  intros D. unfold IsLowDERSignature.
  rewrite (proj2 (proj2 (IsValidSignatureEncoding_spec sig))) by by exists R, T, ht.
  cbn [defined result_bind guard].
  destruct D as (HR & HT & -> & Hlen). unfold der_signature in *.
  rewrite !length_app in Hlen. cbn [length] in Hlen.
  set (pre := [byte.of_Z 48; byte.of_Z (Z.of_nat (length R + length T + 4)); byte.of_Z 2;
     byte.of_Z (Z.of_nat (length R))]).
  set (b := byte.of_Z (Z.of_nat (length T))). set (sig := pre ++ _).
  assert (Ls : length sig = (length R + length T + 7)%nat).
  { unfold sig, pre. rewrite !length_app. cbn [length]. lia. }
  rewrite !at_byte_at by lia.
  change (byte_at sig (Z.to_nat 3)) with (byte.unsigned (byte.of_Z (Z.of_nat (length R)))).
  rewrite unsigned_of_Z_small by lia. cbn [defined result_bind].
  rewrite at_byte_at by lia.
  replace (Z.to_nat (5 + Z.of_nat (length R))) with (length pre + (length R + 1))%nat
    by (cbn [pre length]; lia).
  unfold sig at 1. rewrite !byte_at_app2.
  change (byte_at ([_; b] ++ _) 1) with (byte.unsigned b). unfold b.
  rewrite unsigned_of_Z_small by lia. cbn [defined result_bind]. fold b.
  replace (take _ (drop _ sig)) with T.
  - by rewrite Z.ltb_irrefl.
  - rewrite Nat2Z.id. replace (Z.to_nat (6 + Z.of_nat (length R))) with (length (pre ++ R ++ [byte.of_Z 2; b]))
      by (rewrite !length_app; cbn [pre length]; lia).
    unfold sig. replace (pre ++ R ++ [byte.of_Z 2; b] ++ T ++ [ht])
      with ((pre ++ R ++ [byte.of_Z 2; b]) ++ T ++ [ht]) by by rewrite <- !app_assoc.
    by rewrite drop_app_length, take_app_length.
Qed.

Lemma IsLowDERSignature_reported sig e : IsLowDERSignature sig = Err e -> reported e.
Proof.
  destruct (IsValidSignatureEncoding_spec sig) as [[[] E] S].
  - destruct (proj1 S E) as (R & T & ht & D). rewrite (IsLowDERSignature_parts _ _ _ _ D).
    unfold guard. case_match; [done|]. by intros [= <-].
  - unfold IsLowDERSignature. rewrite E. cbn [defined result_bind guard]. by intros [= <-].
Qed.

Lemma guard_reported b e x : guard b e = Err x -> reported x.
Proof. destruct b; [done|]. by intros [= <-]. Qed.

Lemma CheckSignatureEncoding_reported sig flags e :
  CheckSignatureEncoding sig flags = Err e -> reported e.
Proof.
  unfold CheckSignatureEncoding. destruct (length sig =? 0)%nat; [discriminate|].
  destruct (IsValidSignatureEncoding_spec sig) as [[v ->] _]. cbn [defined].
  assert (forall b : bool, (if b then Ret v else Ret true : result stop bool) = Ret (if b then v else true))
    as -> by by intros [].
  cbn [result_bind]. destruct (if has_flag _ _ then v else true); cbn [guard result_bind];
    [|by intros [= <-]].
  destruct (if has_flag _ _ then _ else Ret tt) eqn:L; cbn [result_bind]; [by apply guard_reported|].
  intros [= <-]. destruct (has_flag flags SCRIPT_VERIFY_LOW_S); [|done].
  by apply IsLowDERSignature_reported in L.
Qed.

Lemma CheckPubKeyEncoding_reported key flags e :
  CheckPubKeyEncoding key flags = Err e -> reported e.
Proof.
  unfold CheckPubKeyEncoding, IsCompressedOrUncompressedPubKey. case_match; [|done].
  destruct (Z.ltb_spec (Z.of_nat (length key)) 33); cbn [defined result_bind]; [by apply guard_reported|].
  rewrite at_byte_at by lia. cbn [mbind option_bind].
  repeat case_match; cbn [defined result_bind]; by apply guard_reported.
Qed.

Section signature_safety.
Context `{BaseSignatureChecker} (flags : Z).

Lemma wp_check_encodings sig key Q s : Q tt s -> wp (check_encodings flags sig key) Q s.
Proof.
  intros HQ. apply wp_bind, wp_lift; [intros e; apply CheckSignatureEncoding_reported|].
  intros _ _. apply wp_lift; [intros e; apply CheckPubKeyEncoding_reported|]. by intros [] _.
Qed.

Lemma checksig_safe : op_safe (op_checksig flags).
Proof.
  intros script0 s opcode [? ? ? ? ?]. unfold op_checksig.
  do 6 wp_op; cbn [stack]. wp_op; wp_op. apply wp_bind, wp_check_encodings.
  repeat (wp_op; cbn [stack]); op_post.
Qed.

Lemma wp_drop_signatures n i code Q s :
  1 <= i -> i + Z.of_nat n - 1 <= Z.of_nat (length (stack s)) ->
  (forall code', Q code' s) -> wp (drop_signatures n i code) Q s.
Proof.
  intros Hi Hn HQ. revert i code Hi Hn. induction n as [|n IH]; intros i code Hi Hn; [apply HQ|].
  apply wp_bind, wp_stacktop; [lia|]. intros v _ _. apply IH; lia.
Qed.

Lemma wp_multisig_loop fuel code isig ikey nSigs nKeys Q s :
  1 <= isig -> 1 <= ikey -> nSigs <= nKeys <= Z.of_nat fuel ->
  isig + nSigs - 1 <= Z.of_nat (length (stack s)) ->
  ikey + nKeys - 1 <= Z.of_nat (length (stack s)) ->
  (forall b, Q b s) -> wp (multisig_loop flags fuel code isig ikey nSigs nKeys) Q s.
Proof.
  intros Hi Hk Hn Hs Hks HQ. revert isig ikey nSigs nKeys Hi Hk Hn Hs Hks.
  induction fuel as [|f IH]; intros; cbn [multisig_loop]; rewrite !Z.gtb_ltb;
    destruct (Z.ltb_spec 0 nSigs); try apply HQ; [lia|].
  apply wp_bind, wp_stacktop; [lia|]. intros sig _ _.
  apply wp_bind, wp_stacktop; [lia|]. intros key _ _.
  apply wp_bind, wp_check_encodings. cbv zeta.
  destruct (CheckSig sig key code); rewrite Z.gtb_ltb;
    match goal with |- wp (if ?a <? ?b then _ else _) _ _ => destruct (Z.ltb_spec a b) end;
    solve [apply HQ | apply IH; lia].
Qed.

Lemma wp_pop_n n Q s : Z.of_nat n <= Z.of_nat (length (stack s)) ->
  Q tt (mk_state (drop n (stack s)) (altstack s) (vfExec s) (pc s) (pbegincodehash s) (nOpCount s)) ->
  wp (pop_n n) Q s.
Proof.
  revert s. induction n as [|n IH]; intros s Hn HQ; [by destruct s|].
  apply wp_bind, wp_popstack; [lia|]. apply IH; [cbn [stack]; rewrite length_tl; lia|].
  cbn [stack altstack vfExec pc pbegincodehash nOpCount]. by destruct (stack s).
Qed.

Lemma checkmultisig_safe m : op_safe (op_checkmultisig flags m).
Proof.
  intros script0 s opcode [? ? ? ? ?]. unfold op_checkmultisig. cbv zeta.
  do 4 (wp_op; cbn [stack]). rewrite getint_small by done.
  repeat (wp_op; cbn [stack nOpCount]).
  rewrite getint_small in * by done. bool_prop.
  apply wp_drop_signatures; cbn [stack]; [lia..|]. intros code. wp_op.
  apply wp_multisig_loop; cbn [stack]; [lia..|]. intros fSuccess. wp_op.
  apply wp_pop_n; cbn [stack]; [lia|].
  repeat (wp_op; cbn [stack]); op_post.
Qed.

(** Every case of the switch. *)
Lemma op_switch_safe fExec :
  Forall (fun c => op_safe_in c.1 c.2) (op_switch flags fExec).
Proof.
  repeat apply Forall_cons_2; try apply Forall_nil_2; cbn [fst snd];
    first [apply unary_safe | apply binary_safe | apply op_safe_labels]; auto using
    pushnum_safe, nop_safe, upgradable_nop_safe, if_safe, else_safe, endif_safe, verify_safe,
    return_safe, toaltstack_safe, fromaltstack_safe, op_2drop_safe, op_2dup_safe, op_3dup_safe,
    op_2over_safe, op_2rot_safe, op_2swap_safe, ifdup_safe, depth_safe, drop_safe, dup_safe,
    nip_safe, over_safe, pick_roll_safe, rot_safe, swap_safe, tuck_safe, size_safe, equal_safe,
    within_safe, hash_safe, codeseparator_safe, checksig_safe, checkmultisig_safe.
Qed.

Lemma run_switch_safe cases script0 s opcode : Forall (fun c => op_safe_in c.1 c.2) cases ->
  inv script0 s -> wp (run_switch cases opcode) (op_ok_post script0 s) s.
Proof.
  intros Hc Hs. induction Hc as [|[labels code] cases Hc _ IH]; [done|]. cbn [run_switch].
  destruct (existsb (Z.eqb opcode) labels) eqn:E; [by apply Hc | apply IH].
Qed.

Definition total_size (s : eval_state) : Z :=
  Z.of_nat (length (stack s)) + Z.of_nat (length (altstack s)).

Lemma suffix_trans_op (script0 p : list byte) :
  p `suffix_of` script0 -> op_pc (GetOp2 p) `suffix_of` script0.
Proof.
  intros [l ->]. destruct (GetOp2_suffix p) as (u & E & _). exists (l ++ u).
  rewrite <- app_assoc. by rewrite <- E.
Qed.

(** What a turn requires of the instruction it reads, executed or not. *)
Definition instruction_ok (op : op_result) : Prop :=
  op_ok op = true /\ small (op_data op) /\ disabled (op_code op) = false.
Definition counted (op : op_result) : Z := if op_code op >? OP_16 then 1 else 0.

(** One turn: the invariant holds again, the stacks have at most 1000 elements and
    the instruction read, which was allowed, has been consumed. *)
Definition turn_post script0 (s s' : eval_state) : Prop :=
  inv script0 s' /\ total_size s' <= 1000 /\
  instruction_ok (GetOp2 (pc s)) /\ pc s' = op_pc (GetOp2 (pc s)) /\
  nOpCount s + counted (GetOp2 (pc s)) <= nOpCount s'.

Lemma eval_step_safe script0 s : inv script0 s ->
  wp (eval_step flags) (fun _ s' => turn_post script0 s s') s.
Proof.
  intros I. unfold eval_step.
  do 4 wp_op. destruct (op_ok (GetOp2 (pc s))) eqn:Ok; cbn [negb]; [|done].
  do 2 wp_op. cbn [stack altstack vfExec pc pbegincodehash nOpCount]. wp_op; [done|]. do 3 wp_op.
  cbn [nOpCount].
  set (n' := nOpCount s + counted (GetOp2 (pc s))).
  set (s1 := mk_state (stack s) (altstack s) (vfExec s) (op_pc (GetOp2 (pc s))) (pbegincodehash s) n').
  apply (wp_mono _ (fun _ s' => s' = s1)).
  { unfold s1, n', counted. destruct (op_code _ >? OP_16); [done|]. by rewrite Z.add_0_r. }
  intros _ _ ->. destruct (_ && (nOpCount s + 1 >? 201)) eqn:Hn; [done|].
  destruct (disabled (op_code (GetOp2 (pc s)))) eqn:Hd; [done|].
  assert (I1 : inv script0 s1).
  { destruct I. constructor; cbn; try done; [by apply suffix_trans_op|].
    unfold n', counted. destruct (op_code _ >? OP_16); [|lia]. rewrite andb_true_l in Hn. bool_prop. lia. }
  assert (Hsm : small (op_data (GetOp2 (pc s)))) by (unfold small; bool_prop; lia).
  apply wp_bind, (wp_mono _ (op_ok_post script0 s1)).
  { destruct (_ && (_ && _)).
    - wp_op; [done|]. apply wp_push_back. destruct I1. op_post.
    - wp_op; [apply run_switch_safe; [apply op_switch_safe | done]|].
      apply wp_ret. split; [done|]. split; [done|lia]. }
  intros _ s' (I' & E & L). wp_op. wp_op. wp_op; [done|]. apply wp_ret. bool_prop.
  split; [done|]. split; [unfold total_size; lia|]. split; [done|]. split; [done|]. exact L.
Qed.

(** The instructions of a script, read one after the other. *)
Fixpoint decode (fuel : nat) (p : list byte) : option (list op_result) :=
  match p, fuel with
  | [], _ => Some []
  | _, O => None
  | _, S f => let op := GetOp2 p in
              if op_ok op then cons op <$> decode f (op_pc op) else None
  end.

Definition count_ops (ops : list op_result) : Z := fold_right (fun op n => counted op + n) 0 ops.

(** Every instruction of the script is allowed and at most [201] are counted. *)
Definition script_ok (script : list byte) (n : Z) : Prop :=
  exists ops, decode (length script) script = Some ops /\ Forall instruction_ok ops /\
    count_ops ops <= n.

Lemma decode_fuel f f' p : (length p <= f <= f')%nat -> decode f' p = decode f p.
Proof.
  revert f' p. induction f as [|f IH]; intros f' p Hf.
  - destruct p; cbn [length] in *; [by destruct f'|lia].
  - destruct f' as [|f']; [lia|]. destruct p as [|b p]; [done|]. cbn [decode].
    destruct (op_ok _); [|done]. f_equal. pose proof (GetOp2_length (b :: p) ltac:(done)).
    cbn [length] in *. apply IH; lia.
Qed.

Lemma script_ok_cons p n : p <> [] -> instruction_ok (GetOp2 p) ->
  script_ok (op_pc (GetOp2 p)) (n - counted (GetOp2 p)) -> script_ok p n.
Proof.
  intros Hp Hi (ops & D & Ho & Hn). exists (GetOp2 p :: ops). pose proof (GetOp2_length p Hp).
  split; [|split; [by constructor | cbn [count_ops fold_right]; unfold count_ops in Hn; lia]].
  destruct p as [|b p]; [done|]. cbn [decode length]. destruct Hi as [-> _]. cbn [length] in *.
  by rewrite (decode_fuel (length (op_pc (GetOp2 (b :: p))))), D by lia.
Qed.

Lemma eval_loop_safe script0 fuel s : inv script0 s -> (length (pc s) <= fuel)%nat ->
  wp (eval_loop flags fuel) (fun _ s' => inv script0 s' /\
    (total_size s <= 1000 -> total_size s' <= 1000) /\
    script_ok (pc s) (nOpCount s' - nOpCount s)) s.
Proof.
  revert s. induction fuel as [|f IH]; intros s I Hf; unfold wp; cbn [eval_loop];
    destruct (pc s) as [|b p] eqn:Hpc; cbn [length] in Hf; try lia.
  1, 2: split; [done|]; split; [done|]; exists []; split; [done|]; split; [done|]; cbn; lia.
  change (wp (bind (eval_step flags) (fun _ => eval_loop flags f)) (fun _ s' => inv script0 s' /\
    (total_size s <= 1000 -> total_size s' <= 1000) /\
    script_ok (b :: p) (nOpCount s' - nOpCount s)) s).
  apply wp_bind. eapply wp_mono; [by apply eval_step_safe|]. unfold turn_post. rewrite Hpc.
  intros _ s' (I' & T & Ok & E & L).
  pose proof (GetOp2_length (b :: p) ltac:(done)). cbn [length] in *.
  eapply wp_mono; [apply (IH s' I'); rewrite E; lia|]. rewrite E.
  intros _ s'' (I'' & T' & (ops & D & Ho & Hn)). split; [done|]. split; [auto|].
  apply script_ok_cons; [done|done|]. exists ops. split; [done|]. split; [done|]. lia.
Qed.

Lemma EvalScript_bounded (stk : list (list byte)) (script : list byte)
    (Hsmall : Forall small stk) (Hlen : Z.of_nat (length stk) <= 1000) :
  match EvalScript flags stk script with
  | Ret stk' => Forall small stk' /\ Z.of_nat (length stk') <= 1000 /\
                Z.of_nat (length script) <= MAX_SCRIPT_SIZE /\ script_ok script 201
  | Err (Error _) => True
  | Err _ => False
  end.
Proof.
  unfold EvalScript. rewrite Z.gtb_ltb.
  destruct (Z.ltb_spec MAX_SCRIPT_SIZE (Z.of_nat (length script))); [done|].
  pose proof (eval_loop_safe script (length script) (mk_state stk [] [] script script 0)) as W.
  unfold wp in W. cbn [pc nOpCount total_size stack altstack length] in W.
  destruct (eval_loop _ _ _) as [[[] s']|e].
  - destruct W as (I & T & (ops & D & Ho & Hn)); [constructor; cbn; auto; lia | done |].
    destruct (length (vfExec s') =? 0)%nat; cbn [negb]; [|done].
    unfold total_size in T. cbn [stack altstack length] in T.
    split; [apply I|]. split; [lia|]. split; [done|].
    exists ops. split; [done|]. split; [done|]. pose proof (inv_ops _ _ I). lia.
  - destruct e as [|[]| |]; try done; apply W; try done; constructor; cbn; auto; lia.
Qed.

(** C7: the interpreter is safe on every script. From a stack of at most 1000
    elements of at most 520 bytes, [EvalScript] ends (the length of the script is
    enough turns) with no read outside a vector, no integer overflow and no failed
    assertion: it succeeds or reports an error of its enumeration. On success the
    stack is bounded the same way, the script has at most 10000 bytes, and all its
    instructions, executed or not, decode, are enabled, push at most 520 bytes, and at
    most 201 of them are not pushes. *)
Theorem EvalScript_safe (stk : list (list byte)) (script : list byte)
    (Hsmall : Forall small stk) (Hlen : Z.of_nat (length stk) <= 1000) :
  match EvalScript flags stk script with
  | Ret stk' => Forall small stk' /\ Z.of_nat (length stk') <= 1000 /\
                Z.of_nat (length script) <= MAX_SCRIPT_SIZE /\ script_ok script 201
  | Err (Error _) => True
  | Err _ => False
  end.
Proof. by apply EvalScript_bounded. Qed.

Definition reports {A} (r : result stop A) : Prop :=
  match r with Ret _ | Err (Error _) => True | Err _ => False end.

(** The template of pay-to-script-hash needs an element on the stack. *)
Lemma P2SH_empty_stack script : IsPayToScriptHash script = true ->
  exists e, EvalScript flags [] script = Err (Error e).
Proof.
  unfold IsPayToScriptHash. intros Ht. bool_prop.
  destruct script as [|b r]; [discriminate|].
  assert (b = byte.of_Z OP_HASH160) as ->.
  { apply unsigned_eq_of_Z. assumption. }
  unfold EvalScript. destruct (_ >? _); [by eexists|]. cbn [length].
  eexists. vm_compute. reflexivity.
Qed.

Lemma VerifyScript_bounded (scriptSig scriptPubKey : list byte) :
  match VerifyScript flags scriptSig scriptPubKey with
  | Ret _ =>
      script_ok scriptSig 201 /\ script_ok scriptPubKey 201 /\
      (has_flag flags SCRIPT_VERIFY_SIGPUSHONLY
         || has_flag flags SCRIPT_VERIFY_P2SH && IsPayToScriptHash scriptPubKey = true ->
       IsPushOnly scriptSig = true) /\
      (has_flag flags SCRIPT_VERIFY_P2SH && IsPayToScriptHash scriptPubKey = true ->
       exists stk script stk', EvalScript flags [] scriptSig = Ret (script :: stk) /\
         EvalScript flags stk script = Ret stk' /\ script_ok script 201)
  | Err (Error _) => True
  | Err _ => False
  end.
Proof.
  unfold VerifyScript.
  destruct (has_flag flags SCRIPT_VERIFY_SIGPUSHONLY && _) eqn:Hpush; [done|].
  pose proof (EvalScript_bounded [] scriptSig ltac:(auto) ltac:(cbn; lia)) as B1.
  destruct (EvalScript flags [] scriptSig) as [stk|[]] eqn:E1; cbn [result_bind]; try done.
  destruct B1 as (S1 & L1 & _ & O1).
  pose proof (EvalScript_bounded stk scriptPubKey S1 L1) as B2.
  destruct (EvalScript flags stk scriptPubKey) as [stk2|[]] eqn:E2; cbn [result_bind]; try done.
  destruct B2 as (S2 & L2 & _ & O2). destruct stk2 as [|top stk2]; [done|].
  destruct (CastToBool top); cbn [negb]; [|done].
  assert (P : has_flag flags SCRIPT_VERIFY_SIGPUSHONLY = true -> IsPushOnly scriptSig = true)
    by (intros F; rewrite F in Hpush; by apply negb_false_iff in Hpush).
  destruct (has_flag flags SCRIPT_VERIFY_P2SH); cbn [andb].
  2: { repeat (split; [done|]). split; [|done]. rewrite orb_false_r. done. }
  destruct (IsPayToScriptHash scriptPubKey) eqn:T; cbn [andb].
  2: { repeat (split; [done|]). split; [|done]. rewrite orb_false_r. done. }
  destruct (IsPushOnly scriptSig) eqn:Po; cbn [negb]; [|done].
  destruct stk as [|script stk].
  { destruct (P2SH_empty_stack scriptPubKey T) as [e E]. congruence. }
  apply Forall_cons in S1 as [_ S1]. cbn [length] in L1.
  pose proof (EvalScript_bounded stk script S1 ltac:(lia)) as B3.
  destruct (EvalScript flags stk script) as [stk3|[]] eqn:E3; cbn [result_bind]; try done.
  destruct stk3 as [|top3 stk3]; [done|]. destruct (CastToBool top3); cbn [negb]; [|done].
  repeat (split; [done|]). intros _. exists stk, script, (top3 :: stk3).
  split; [done|]. split; [done|]. apply B3.
Qed.

(** Every call succeeds or reports an error of the enumeration. *)
Lemma VerifyScript_reports (scriptSig scriptPubKey : list byte) : reports (VerifyScript flags scriptSig scriptPubKey).
Proof.
  pose proof (VerifyScript_bounded scriptSig scriptPubKey) as B. unfold reports.
  by destruct (VerifyScript flags scriptSig scriptPubKey) as [|[]].
Qed.

(** C8: transaction inputs are verified safely. [VerifyScript] ends on every pair of
    scripts and succeeds or reports an error: in particular
    [assert(!stackCopy.empty())] cannot fail. When it succeeds, all three scripts it
    evaluated (the serialized one included, for pay-to-script-hash) are within the
    limits, and the inputs it accepts under [SCRIPT_VERIFY_SIGPUSHONLY] or for a
    pay-to-script-hash output are pushes only. *)
Theorem VerifyScript_safe (scriptSig scriptPubKey : list byte) :
  match VerifyScript flags scriptSig scriptPubKey with
  | Ret _ =>
      script_ok scriptSig 201 /\ script_ok scriptPubKey 201 /\
      (has_flag flags SCRIPT_VERIFY_SIGPUSHONLY
         || has_flag flags SCRIPT_VERIFY_P2SH && IsPayToScriptHash scriptPubKey = true ->
       IsPushOnly scriptSig = true) /\
      (has_flag flags SCRIPT_VERIFY_P2SH && IsPayToScriptHash scriptPubKey = true ->
       exists stk script stk', EvalScript flags [] scriptSig = Ret (script :: stk) /\
         EvalScript flags stk script = Ret stk' /\ script_ok script 201)
  | Err (Error _) => True
  | Err _ => False
  end.
Proof. exact (VerifyScript_bounded scriptSig scriptPubKey). Qed.
End signature_safety.

(** A checker that accepts every signature, for the examples. *)
Definition accept_all : BaseSignatureChecker := {| CheckSig := fun _ _ _ => true |}.

Lemma EvalScript_safe_witness :
  let script := [byte.of_Z OP_2; byte.of_Z OP_DUP; byte.of_Z OP_ADD] in
  @EvalScript accept_all 0 [] script = Ret [[Byte.x04]] /\
  (Forall small [[Byte.x04]] /\ 1 <= 1000 /\ Z.of_nat (length script) <= MAX_SCRIPT_SIZE /\ script_ok script 201).
Proof.
  intros script. split; [vm_compute; reflexivity|].
  exact (@EvalScript_safe accept_all 0 [] script (List.Forall_nil _) ltac:(vm_compute; discriminate)).
Defined.
