(* ===== verification/Spends.v ===== *)
(** * What the interpreter accepts ([script/interpreter.cpp])

    The functional behaviour of the interpreter on the inputs the system is built on:
    scripts of pushes, public-key-hash and script-hash outputs, [OP_CHECKMULTISIG], and
    the meaning of the signature encoding checks. *)

From Stdlib Require Import ZArith Lia List Bool.
From stdpp Require Import base option list.
From coqutil Require Import Byte Word.LittleEndianList.
From S2P Require Import Prelude Serialize MerkleDamgard Hash Script Interpreter.
From S2P Require Sha256 Sha1 Ripemd160.

Open Scope list_scope.
Open Scope Z_scope.

(** ** Standard inputs *)

Section standard_inputs.
Context `{BaseSignatureChecker} (flags : Z).

Definition pushable (b : list byte) : Prop :=
  small b /\ (fRequireMinimal flags = true -> CheckMinimalPush b (push_op b) = true).

(** The script that pushes the elements in order. *)
Definition push_all (l : list (list byte)) : list byte := concat (map (push_data []) l).

Lemma push_op_range b : 0 <= push_op b <= OP_PUSHDATA4.
Proof. unfold push_op, OP_PUSHDATA1, OP_PUSHDATA2, OP_PUSHDATA4. cmp_cases; lia. Qed.

Lemma eval_step_push s b rest : pc s = push_data [] b ++ rest -> forallb id (vfExec s) = true ->
  pushable b -> total_size s < 1000 ->
  eval_step flags s =
    Ret (tt, mk_state (b :: stack s) (altstack s) (vfExec s) rest (pbegincodehash s) (nOpCount s)).
Proof.
  intros Hpc Hf [Hb Hm] Hs. pose proof (push_op_range b) as [R1 R2].
  unfold small, MAX_SCRIPT_ELEMENT_SIZE in Hb.
  unfold eval_step, bind, get. rewrite Hpc, Hf.
  rewrite GetOp2_push_data by lia. cbn [op_ok op_pc op_data op_code negb].
  unfold set_pc. rewrite Z.gtb_ltb. destruct (Z.ltb_spec MAX_SCRIPT_ELEMENT_SIZE (Z.of_nat (length b)));
    [unfold MAX_SCRIPT_ELEMENT_SIZE in *; lia|].
  rewrite Z.gtb_ltb. destruct (Z.ltb_spec OP_16 (push_op b)); [unfold OP_16, OP_PUSHDATA4 in *; lia|].
  unfold ret. cbn [andb].
  assert (disabled (push_op b) = false) as ->.
  { unfold disabled. apply not_true_iff_false. intros (x & Hx & E)%existsb_exists.
    apply Z.eqb_eq in E. subst x. unfold OP_PUSHDATA4 in R2.
    repeat (destruct Hx as [Hx|Hx]; [rewrite <- Hx in R2; vm_compute in R2; by apply R2|]). done. }
  rewrite (proj2 (Z.leb_le 0 _)), (proj2 (Z.leb_le _ OP_PUSHDATA4)) by done. cbn [andb].
  destruct (fRequireMinimal flags); cbn [andb]; [rewrite Hm by done; cbn [negb]|].
  all: unfold push_back, set_stack; cbn [stack altstack vfExec pc pbegincodehash nOpCount length];
    rewrite Z.gtb_ltb; unfold total_size in Hs;
    destruct (Z.ltb_spec 1000 (Z.of_nat (S (length (stack s))) + Z.of_nat (length (altstack s)))); [lia|done].
Qed.

Definition after_op (s' : eval_state) : result stop (unit * eval_state) :=
  if total_size s' >? 1000 then Err (Error SCRIPT_ERR_STACK_SIZE) else Ret (tt, s').

Lemma eval_step_op s c rest : pc s = c :: rest -> forallb id (vfExec s) = true ->
  OP_16 < byte.unsigned c -> disabled (byte.unsigned c) = false -> nOpCount s < 201 ->
  eval_step flags s =
    match run_switch (op_switch flags true) (byte.unsigned c)
            (mk_state (stack s) (altstack s) (vfExec s) rest (pbegincodehash s) (nOpCount s + 1)) with
    | Ret (_, s') => after_op s'
    | Err e => Err e
    end.
Proof.
  intros Hpc Hf Hc Hd Hn. unfold OP_16 in Hc. unfold eval_step, bind, get.
  assert (E : GetOp2 (c :: rest) = mk_op true rest (byte.unsigned c) []).
  { unfold GetOp2. destruct (Z.leb_spec (byte.unsigned c) OP_PUSHDATA4); [unfold OP_PUSHDATA4 in *; lia|done]. }
  rewrite Hpc, Hf, E. cbn [op_ok op_pc op_data op_code negb length].
  change (Z.of_nat 0 >? MAX_SCRIPT_ELEMENT_SIZE) with false. cbn iota. unfold set_pc, set_nOpCount.
  cbn [stack altstack vfExec pc pbegincodehash nOpCount].
  rewrite !Z.gtb_ltb. destruct (Z.ltb_spec OP_16 (byte.unsigned c)); [|unfold OP_16 in *; lia].
  destruct (Z.ltb_spec 201 (nOpCount s + 1)); [lia|]. cbn [andb stack altstack vfExec pc pbegincodehash nOpCount].
  rewrite Hd. destruct (Z.leb_spec (byte.unsigned c) OP_PUSHDATA4); [unfold OP_PUSHDATA4 in *; lia|].
  rewrite andb_false_r. cbn [orb andb]. destruct (run_switch _ _ _) as [[[] s']|e]; [|done].
  unfold after_op, total_size. by destruct (_ >? 1000).
Qed.

Lemma eval_loop_more f s : pc s <> [] ->
  eval_loop flags (S f) s = match eval_step flags s with Ret (_, s') => eval_loop flags f s' | Err e => Err e end.
Proof. intros Hp. cbn [eval_loop]. destruct (pc s); [done|]. unfold bind. by destruct (eval_step flags s) as [[[] ?]|]. Qed.

Lemma eval_loop_fuel script0 f f' s : inv script0 s -> (length (pc s) <= f)%nat -> (length (pc s) <= f')%nat ->
  eval_loop flags f' s = eval_loop flags f s.
Proof.
  revert f' s. induction f as [|f IH]; intros f' s I Hf Hf'.
  - cbn [eval_loop]. destruct (pc s) eqn:E; cbn [length] in *; [|lia]. destruct f'; cbn [eval_loop]; by rewrite E.
  - destruct (pc s) as [|b p] eqn:E; [destruct f'; cbn [eval_loop]; by rewrite E|].
    destruct f' as [|f']; cbn [length] in *; [lia|]. rewrite !eval_loop_more by by rewrite E.
    pose proof (eval_step_safe flags script0 s I) as W. unfold wp in W.
    destruct (eval_step flags s) as [[[] s']|]; [|done]. destruct W as (I' & _ & _ & Ep & _).
    pose proof (GetOp2_length (pc s)) as L. rewrite E in *. cbn [length] in L. specialize (L ltac:(done)).
    apply IH; [done | rewrite Ep; lia..].
Qed.

(** The loop with the turns it needs. *)
Definition eval (s : eval_state) : result stop (unit * eval_state) :=
  eval_loop flags (length (pc s)) s.

Lemma eval_done s : pc s = [] -> eval s = Ret (tt, s).
Proof. intros E. unfold eval. rewrite E. cbn [length eval_loop]. by rewrite E. Qed.

Lemma eval_next script0 s : inv script0 s -> pc s <> [] ->
  eval s = match eval_step flags s with Ret (_, s') => eval s' | Err e => Err e end.
Proof.
  intros I Hp. unfold eval. destruct (length (pc s)) as [|f] eqn:Hf; [by destruct (pc s)|].
  rewrite eval_loop_more by done. pose proof (eval_step_safe flags script0 s I) as W. unfold wp in W.
  destruct (eval_step flags s) as [[[] s']|]; [|done]. destruct W as (I' & _ & _ & Ep & _).
  pose proof (GetOp2_length (pc s) Hp) as L. apply (eval_loop_fuel script0); [done | lia |].
  rewrite Ep. lia.
Qed.

Lemma eval_step_inv script0 s s' : inv script0 s -> eval_step flags s = Ret (tt, s') -> inv script0 s'.
Proof. intros I E. pose proof (eval_step_safe flags script0 s I) as W. unfold wp in W. rewrite E in W. apply W. Qed.

(** A script of pushes leaves its elements on the stack, the last one on top. *)
Lemma eval_pushes script0 l rest s : inv script0 s -> pc s = push_all l ++ rest ->
  forallb id (vfExec s) = true -> Forall pushable l -> total_size s + Z.of_nat (length l) <= 1000 ->
  let s' := mk_state (rev l ++ stack s) (altstack s) (vfExec s) rest (pbegincodehash s) (nOpCount s) in
  inv script0 s' /\ eval s = eval s'.
Proof.
  revert s. induction l as [|b l IH]; intros s I Hpc Hf Hl Hs; cbv zeta.
  - cbn [rev app push_all map concat] in *. destruct s as [? ? ? p ? ?]; cbn [pc] in Hpc. by subst p.
  - cbn [push_all map concat] in Hpc. rewrite <- app_assoc in Hpc.
    apply Forall_cons in Hl as [Hb Hl]. cbn [length] in Hs.
    pose proof (eval_step_push s b _ Hpc Hf Hb ltac:(lia)) as E.
    pose proof (eval_step_inv _ _ _ I E) as I'.
    rewrite (eval_next script0 s I), E by (rewrite Hpc; unfold push_data; repeat case_match; done).
    cbn [rev]. rewrite <- app_assoc.
    match type of I' with inv _ ?s1 => apply (IH s1) end; cbn [pc vfExec]; try done.
    unfold total_size in *. cbn [stack altstack length]. lia.
Qed.

(** [EvalScript] on pushes alone. *)
Lemma EvalScript_pushes l : Forall pushable l -> Z.of_nat (length l) <= 1000 ->
  Z.of_nat (length (push_all l)) <= MAX_SCRIPT_SIZE ->
  EvalScript flags [] (push_all l) = Ret (rev l).
Proof.
  intros Hl Hn Hs. unfold EvalScript. rewrite Z.gtb_ltb.
  destruct (Z.ltb_spec MAX_SCRIPT_SIZE (Z.of_nat (length (push_all l)))); [lia|].
  set (s := mk_state _ _ _ _ _ _). change (length (push_all l)) with (length (pc s)). fold (eval s).
  destruct (eval_pushes (push_all l) l [] s) as [_ ->]; try done.
  all: try by (constructor; cbn; auto; lia).
  - symmetry. apply app_nil_r.
  - rewrite eval_done by done. cbn [vfExec length negb Nat.eqb stack]. by rewrite app_nil_r.
Qed.

(** One executed instruction that is not a push. *)
Lemma eval_op script0 s c rest : inv script0 s -> pc s = c :: rest -> forallb id (vfExec s) = true ->
  OP_16 < byte.unsigned c -> disabled (byte.unsigned c) = false -> nOpCount s < 201 ->
  match run_switch (op_switch flags true) (byte.unsigned c)
          (mk_state (stack s) (altstack s) (vfExec s) rest (pbegincodehash s) (nOpCount s + 1)) with
  | Ret (_, s') => total_size s' <= 1000 -> inv script0 s' /\ eval s = eval s'
  | Err e => eval s = Err e
  end.
Proof.
  intros I Hpc Hf Hc Hd Hn. pose proof (eval_step_op s c rest Hpc Hf Hc Hd Hn) as E.
  pose proof (eval_next script0 s I ltac:(by rewrite Hpc)) as L. rewrite E in L.
  destruct (run_switch _ _ _) as [[[] s']|e]; [|done]. intros T. unfold after_op in *.
  rewrite Z.gtb_ltb in *. destruct (Z.ltb_spec 1000 (total_size s')); [lia|].
  split; [by apply (eval_step_inv _ _ _ I E) | done].
Qed.

Lemma pushable_short b : (2 <= length b <= 75)%nat -> pushable b.
Proof.
  intros Hb. unfold pushable, small, MAX_SCRIPT_ELEMENT_SIZE. split; [lia|]. intros _.
  unfold CheckMinimalPush, push_op, OP_PUSHDATA1. cbv zeta.
  destruct (Z.eqb_spec (Z.of_nat (length b)) 0); [lia|].
  destruct (Z.eqb_spec (Z.of_nat (length b)) 1); [lia|]. cbn [andb].
  destruct (Z.leb_spec (Z.of_nat (length b)) 75); [|lia].
  destruct (Z.ltb_spec (Z.of_nat (length b)) 0x4c); [|lia]. apply Z.eqb_refl.
Qed.

(** [OP_DUP OP_HASH160 <h> OP_EQUALVERIFY OP_CHECKSIG] and [OP_HASH160 <h> OP_EQUAL]. *)
Definition P2PKH_script (h : list byte) : list byte :=
  [byte.of_Z OP_DUP; byte.of_Z OP_HASH160] ++ push_data [] h ++ [byte.of_Z OP_EQUALVERIFY; byte.of_Z OP_CHECKSIG].
Definition P2SH_script (h : list byte) : list byte :=
  [byte.of_Z OP_HASH160] ++ push_data [] h ++ [byte.of_Z OP_EQUAL].

Lemma push_data_20 h : length h = 20%nat -> push_data [] h = Byte.x14 :: h.
Proof. intros Hl. unfold push_data. by rewrite Hl. Qed.

Lemma require_ok {A} n (k : M A) s : n <= Z.of_nat (length (stack s)) ->
  bind (require n) (fun _ => k) s = k s.
Proof.
  intros Hn. unfold require, stack_size, bind, get.
  by destruct (Z.ltb_spec (Z.of_nat (length (stack s))) n); [lia|].
Qed.

(** The instructions of the two templates. *)
Section handlers_run.
Context (v : list byte) (stk alt : list (list byte)) (vf : list bool) (p code : list byte) (n : Z).

Lemma run_DUP : run_switch (op_switch flags true) (byte.unsigned (byte.of_Z OP_DUP))
  (mk_state (v :: stk) alt vf p code n) = Ret (tt, mk_state (v :: v :: stk) alt vf p code n).
Proof.
  change (op_dup OP_DUP (mk_state (v :: stk) alt vf p code n) = Ret (tt, mk_state (v :: v :: stk) alt vf p code n)).
  unfold op_dup. rewrite require_ok by (cbn [stack length]; lia). reflexivity.
Qed.

Lemma run_HASH160 : run_switch (op_switch flags true) (byte.unsigned (byte.of_Z OP_HASH160))
  (mk_state (v :: stk) alt vf p code n) = Ret (tt, mk_state (hash160_bytes v :: stk) alt vf p code n).
Proof.
  change (op_hash OP_HASH160 (mk_state (v :: stk) alt vf p code n) =
    Ret (tt, mk_state (hash160_bytes v :: stk) alt vf p code n)).
  unfold op_hash. rewrite require_ok by (cbn [stack length]; lia). reflexivity.
Qed.

Lemma run_EQUAL w : run_switch (op_switch flags true) (byte.unsigned (byte.of_Z OP_EQUAL))
  (mk_state (v :: w :: stk) alt vf p code n) =
  Ret (tt, mk_state ((if bool_decide (w = v) then vchTrue else vchFalse) :: stk) alt vf p code n).
Proof.
  change (op_equal OP_EQUAL (mk_state (v :: w :: stk) alt vf p code n) =
    Ret (tt, mk_state ((if bool_decide (w = v) then vchTrue else vchFalse) :: stk) alt vf p code n)).
  unfold op_equal. rewrite require_ok by (cbn [stack length]; lia). reflexivity.
Qed.

Lemma run_EQUALVERIFY w : run_switch (op_switch flags true) (byte.unsigned (byte.of_Z OP_EQUALVERIFY))
  (mk_state (v :: w :: stk) alt vf p code n) =
  if bool_decide (w = v) then Ret (tt, mk_state stk alt vf p code n) else Err (Error SCRIPT_ERR_EQUALVERIFY).
Proof.
  change (op_equal OP_EQUALVERIFY (mk_state (v :: w :: stk) alt vf p code n) =
    if bool_decide (w = v) then Ret (tt, mk_state stk alt vf p code n) else Err (Error SCRIPT_ERR_EQUALVERIFY)).
  unfold op_equal. rewrite require_ok by (cbn [stack length]; lia).
  lazy -[bool_decide]. by destruct (bool_decide _).
Qed.

Lemma run_CHECKSIG w : run_switch (op_switch flags true) (byte.unsigned (byte.of_Z OP_CHECKSIG))
  (mk_state (v :: w :: stk) alt vf p code n) =
  match CheckSignatureEncoding w flags with
  | Err e => Err e
  | Ret _ =>
      match CheckPubKeyEncoding v flags with
      | Err e => Err e
      | Ret _ => Ret (tt, mk_state ((if CheckSig w v (drop_signature code w) then vchTrue else vchFalse) :: stk)
                            alt vf p code n)
      end
  end.
Proof.
  change (run_switch (op_switch flags true) (byte.unsigned (byte.of_Z OP_CHECKSIG)))
    with (op_checksig flags OP_CHECKSIG).
  unfold op_checksig. rewrite require_ok by (cbn [stack length]; lia).
  lazy -[CheckSignatureEncoding CheckPubKeyEncoding CheckSig drop_signature].
  destruct (CheckSignatureEncoding w flags) as [[]|]; [|done].
  by destruct (CheckPubKeyEncoding v flags) as [[]|].
Qed.
End handlers_run.

Lemma eval_push script0 b rest stk alt code n :
  inv script0 (mk_state stk alt [] (push_data [] b ++ rest) code n) -> pushable b ->
  Z.of_nat (length stk) + Z.of_nat (length alt) < 1000 ->
  inv script0 (mk_state (b :: stk) alt [] rest code n) /\
  eval (mk_state stk alt [] (push_data [] b ++ rest) code n) = eval (mk_state (b :: stk) alt [] rest code n).
Proof.
  intros I Hb Hl. apply (eval_pushes script0 [b] rest _ I); cbn [pc vfExec]; try done.
  - unfold push_all. cbn [map concat]. by rewrite app_nil_r.
  - by constructor.
  - unfold total_size. cbn [stack altstack length]. lia.
Qed.

(** Execute the next instruction by its equation [R]. *)
Ltac next_op I R :=
  lazymatch type of I with
  | inv ?s0 ?s =>
      let W := fresh "W" in let E := fresh "E" in
      pose proof (eval_op s0 s) as W; cbn [pc vfExec stack altstack pbegincodehash nOpCount] in W;
      specialize (W _ _ I eq_refl eq_refl eq_refl eq_refl ltac:(lia)); rewrite R in W;
      clear I
  end.

Ltac size_tac := unfold total_size; cbn [stack altstack length] in *; lia.

Lemma eval_P2SH script0 code h redeem stk : length h = 20%nat ->
  Z.of_nat (length (redeem :: stk)) < 1000 ->
  inv script0 (mk_state (redeem :: stk) [] [] (P2SH_script h) code 0) ->
  exists s', vfExec s' = [] /\
    stack s' = (if bool_decide (hash160_bytes redeem = h) then vchTrue else vchFalse) :: stk /\
    eval (mk_state (redeem :: stk) [] [] (P2SH_script h) code 0) = Ret (tt, s').
Proof.
  intros Hh Hl I. unfold P2SH_script in *. cbn [app] in *.
  next_op I run_HASH160. destruct W as [I E1]; [size_tac|]. rewrite E1. clear E1.
  destruct (eval_push _ _ _ _ _ _ _ I) as [I' E2];
    [apply pushable_short; lia | cbn [length] in *; lia |]. rewrite E2. clear E2 I.
  next_op I' run_EQUAL. destruct W as [I E3]; [size_tac|]. rewrite E3. clear E3.
  rewrite eval_done by done. eexists. split; [|split; [|done]]; done.
Qed.

(** The checks of a public-key-hash output for a signature and a key. *)
Definition P2PKH_check (code h hk key sig : list byte) : result stop bool :=
  if negb (bool_decide (hk = h)) then Err (Error SCRIPT_ERR_EQUALVERIFY) else
  match CheckSignatureEncoding sig flags with
  | Err e => Err e
  | Ret _ =>
      match CheckPubKeyEncoding key flags with
      | Err e => Err e
      | Ret _ => Ret (CheckSig sig key (drop_signature code sig))
      end
  end.

Lemma eval_P2PKH script0 code h key sig : length h = 20%nat ->
  inv script0 (mk_state [key; sig] [] [] (P2PKH_script h) code 0) ->
  match P2PKH_check code h (hash160_bytes key) key sig with
  | Ret b => exists s', vfExec s' = [] /\ stack s' = [if b then vchTrue else vchFalse] /\
      eval (mk_state [key; sig] [] [] (P2PKH_script h) code 0) = Ret (tt, s')
  | Err e => eval (mk_state [key; sig] [] [] (P2PKH_script h) code 0) = Err e
  end.
Proof.
  intros Hh I. unfold P2PKH_script, P2PKH_check in *. cbn [app] in *.
  next_op I run_DUP. destruct W as [I E1]; [size_tac|]. rewrite E1. clear E1.
  next_op I run_HASH160. destruct W as [I' E2]; [size_tac|]. rewrite E2. clear E2.
  destruct (eval_push _ _ _ _ _ _ _ I') as [I E3];
    [apply pushable_short; lia | cbn [length] in *; lia |]. rewrite E3. clear E3 I'.
  next_op I run_EQUALVERIFY. destruct (bool_decide (hash160_bytes key = h)); cbn [negb]; [|done].
  destruct W as [I' E4]; [size_tac|]. rewrite E4. clear E4.
  next_op I' run_CHECKSIG.
  destruct (CheckSignatureEncoding sig flags) as [[]|]; [|done].
  destruct (CheckPubKeyEncoding key flags) as [[]|]; [|done].
  destruct W as [I E5]; [size_tac|]. rewrite E5. rewrite eval_done by done.
  eexists. split; [|split; [|done]]; done.
Qed.

Lemma P2PKH_check_true code h hk key sig : P2PKH_check code h hk key sig = Ret true <->
  hk = h /\ CheckSignatureEncoding sig flags = Ret tt /\ CheckPubKeyEncoding key flags = Ret tt /\
  CheckSig sig key (drop_signature code sig) = true.
Proof.
  unfold P2PKH_check. destruct (decide (hk = h)) as [E|E];
    [rewrite bool_decide_true by done | rewrite bool_decide_false by done]; cbn [negb].
  2: { split; [discriminate | by intros [? _]]. }
  destruct (CheckSignatureEncoding sig flags) as [[]|]; [|split; [discriminate | by intros (_ & ? & _)]].
  destruct (CheckPubKeyEncoding key flags) as [[]|]; [|split; [discriminate | by intros (_ & _ & ? & _)]].
  split; [intros [= ->]; auto | intros (_ & _ & _ & ->); auto].
Qed.

Lemma EvalScript_of_eval stk script r : Z.of_nat (length script) <= MAX_SCRIPT_SIZE ->
  eval (mk_state stk [] [] script script 0) = r ->
  EvalScript flags stk script =
    match r with
    | Err (Throw _) => Err (Error SCRIPT_ERR_UNKNOWN_ERROR)
    | Err e => Err e
    | Ret (_, s) => if negb (length (vfExec s) =? 0)%nat then Err (Error SCRIPT_ERR_UNBALANCED_CONDITIONAL)
                    else Ret (stack s)
    end.
Proof.
  intros Hl <-. unfold EvalScript. rewrite Z.gtb_ltb.
  by destruct (Z.ltb_spec MAX_SCRIPT_SIZE (Z.of_nat (length script))); [lia|].
Qed.

Lemma IsPushOnly_push_all l : Forall (fun b => Z.of_nat (length b) < 2 ^ 32) l ->
  IsPushOnly (push_all l) = true.
Proof.
  intros Hl. unfold IsPushOnly. assert (G : forall f, IsPushOnly_loop f (push_all l) = true); [|apply G].
  induction Hl as [|b l Hb Hl IH]; intros f; [by destruct f|].
  destruct f as [|f]; [done|].
  assert (exists c p, push_all (b :: l) = c :: p) as (c & p & E).
  { unfold push_all. cbn [map concat]. unfold push_data. repeat case_match; by eexists _, _. }
  cbn [IsPushOnly_loop]. rewrite E, <- E. unfold push_all. cbn [map concat].
  rewrite GetOp2_push_data by done. cbn [op_ok op_code op_pc negb].
  pose proof (push_op_range b) as [_ R]. rewrite Z.gtb_ltb.
  destruct (Z.ltb_spec OP_16 (push_op b)); [unfold OP_16, OP_PUSHDATA4 in *; lia|]. apply IH.
Qed.

Lemma push_all_length l : Forall small l ->
  Z.of_nat (length (push_all l)) <= 523 * Z.of_nat (length l).
Proof.
  unfold push_all. induction 1 as [|b l Hb Hl IH]; [done|]. cbn [map concat length].
  rewrite length_app. unfold small, MAX_SCRIPT_ELEMENT_SIZE in Hb.
  assert (Z.of_nat (length (push_data [] b)) <= 523); [|lia].
  unfold push_data. repeat case_match; cbn [app length]; rewrite ?length_app, ?length_le_split;
    cbn [length]; bool_prop; lia.
Qed.

(** C31: who can spend a public-key-hash output. With any verification flags, the input
    that pushes a signature and a key (each of 2 to 75 bytes) satisfies
    [OP_DUP OP_HASH160 <h> OP_EQUALVERIFY OP_CHECKSIG] exactly when the key hashes to
    [h], the encodings pass the checks the flags ask for and the signature is valid for
    the key and the script. *)
Theorem P2PKH_spend (h key sig : list byte) (Hh : length h = 20%nat)
    (Hsig : (2 <= length sig <= 75)%nat) (Hkey : (2 <= length key <= 75)%nat) :
  VerifyScript flags (push_all [sig; key]) (P2PKH_script h) = Ret tt <->
  hash160_bytes key = h /\
  CheckSignatureEncoding sig flags = Ret tt /\ CheckPubKeyEncoding key flags = Ret tt /\
  CheckSig sig key (drop_signature (P2PKH_script h) sig) = true.
Proof.
  assert (S : Forall small [sig; key]).
  { repeat constructor; unfold small, MAX_SCRIPT_ELEMENT_SIZE; lia. }
  unfold VerifyScript. rewrite IsPushOnly_push_all, andb_false_r by (repeat constructor; lia).
  rewrite EvalScript_pushes;
    [| by repeat constructor; try apply pushable_short | cbn; lia
     | pose proof (push_all_length _ S) as L; cbn [length] in L; unfold MAX_SCRIPT_SIZE; lia].
  cbn [rev app result_bind].
  assert (Hlen : length (P2PKH_script h) = 25%nat).
  { unfold P2PKH_script. rewrite push_data_20 by done. cbn [app length]. rewrite length_app. cbn [length]. lia. }
  set (code := P2PKH_script h) in *.
  pose proof (eval_P2PKH code code h key sig Hh) as W. fold code in W.
  specialize (W ltac:(constructor; cbn; auto; [by repeat constructor; try (apply pushable_short) | lia])).
  assert (T : IsPayToScriptHash code = false) by (unfold IsPayToScriptHash; by rewrite Hlen).
  rewrite T, andb_false_r, <- (P2PKH_check_true code h).
  assert (Hc : Z.of_nat (length code) <= MAX_SCRIPT_SIZE) by (rewrite Hlen; unfold MAX_SCRIPT_SIZE; lia).
  destruct (P2PKH_check code h (hash160_bytes key) key sig) as [b|e].
  - destruct W as (s' & V & S' & W). rewrite (EvalScript_of_eval _ _ _ Hc W), V, S'.
    cbn [length negb Nat.eqb result_bind]. by destruct b.
  - rewrite (EvalScript_of_eval _ _ _ Hc W). split; [by destruct e | discriminate].
Qed.

(** C32: what spends a pay-to-script-hash output. For an input that pushes [args] and
    then a script, the result under [SCRIPT_VERIFY_P2SH] is the result of evaluating
    that script from the arguments, provided it hashes to [h], and a false result
    otherwise. *)
Theorem P2SH_spend (h : list byte) (args : list (list byte)) (redeem : list byte)
    (Hflag : has_flag flags SCRIPT_VERIFY_P2SH = true) (Hh : length h = 20%nat)
    (Hargs : Forall pushable (args ++ [redeem])) (Hn : Z.of_nat (length args) < 999)
    (Hsize : Z.of_nat (length (push_all (args ++ [redeem]))) <= MAX_SCRIPT_SIZE) :
  VerifyScript flags (push_all (args ++ [redeem])) (P2SH_script h) =
    if bool_decide (hash160_bytes redeem = h) then
      match EvalScript flags (rev args) redeem with
      | Ret (top :: _) => if CastToBool top then Ret tt else Err (Error SCRIPT_ERR_EVAL_FALSE)
      | Ret [] => Err (Error SCRIPT_ERR_EVAL_FALSE)
      | Err e => Err e
      end
    else Err (Error SCRIPT_ERR_EVAL_FALSE).
Proof.
  assert (S : Forall small (args ++ [redeem])) by (eapply Forall_impl; [done|]; by intros ? []).
  assert (Po : IsPushOnly (push_all (args ++ [redeem])) = true).
  { apply IsPushOnly_push_all. eapply Forall_impl; [exact S|]. unfold small, MAX_SCRIPT_ELEMENT_SIZE. lia. }
  unfold VerifyScript. rewrite Po, andb_false_r, Hflag.
  rewrite EvalScript_pushes by (rewrite ?length_app; cbn [length]; done || lia).
  rewrite rev_app_distr. cbn [rev app result_bind andb].
  assert (Hlen : length (P2SH_script h) = 23%nat).
  { unfold P2SH_script. rewrite push_data_20 by done. cbn [app length]. rewrite length_app. cbn [length]. lia. }
  assert (Hc : Z.of_nat (length (P2SH_script h)) <= MAX_SCRIPT_SIZE) by (rewrite Hlen; unfold MAX_SCRIPT_SIZE; lia).
  destruct (eval_P2SH (P2SH_script h) (P2SH_script h) h redeem (rev args)) as (s' & V & S' & W); [done|..].
  { cbn [length]. rewrite length_rev. lia. }
  { constructor; cbn; auto; [|lia]. apply Forall_app in S as [S1 S2]. constructor; [by inversion S2|].
    by apply Forall_rev. }
  rewrite (EvalScript_of_eval _ _ _ Hc W), V, S'. cbn [length negb Nat.eqb result_bind].
  assert (T : IsPayToScriptHash (P2SH_script h) = true).
  { unfold IsPayToScriptHash. rewrite Hlen. unfold P2SH_script. rewrite push_data_20 by done.
    cbn [app]. unfold byte_at. change (nth 22 (?a :: ?b :: ?l) ?d) with (nth 20 l d).
    rewrite app_nth2, Hh by lia. done. }
  rewrite T. destruct (bool_decide (hash160_bytes redeem = h)); [|done].
  cbn [CastToBool vchTrue]. change (byte.unsigned Byte.x01) with 1. cbn [Z.eqb negb andb].
  destruct (EvalScript flags (rev args) redeem) as [[|top l]|]; cbn [result_bind]; try done.
  by destruct (CastToBool top).
Qed.
End standard_inputs.

(** ** Which signatures satisfy [OP_CHECKMULTISIG] *)

Section multisig.
Context `{BaseSignatureChecker} (flags : Z).

(** Each signature is valid for one of the keys, in order. *)
Definition matched (code : list byte) (sigs keys : list (list byte)) : Prop :=
  exists ks, ks `sublist_of` keys /\ Forall2 (fun sig key => CheckSig sig key code = true) sigs ks.

Lemma matched_nil code keys : matched code [] keys.
Proof. exists []. split; [apply sublist_nil_l | constructor]. Qed.

Lemma matched_none code sig sigs : ~ matched code (sig :: sigs) [].
Proof. intros (ks & Hs & Hf). apply sublist_nil_r in Hs. subst. inversion Hf. Qed.

Lemma matched_short code sigs keys : (length keys < length sigs)%nat -> ~ matched code sigs keys.
Proof.
  intros Hl (ks & Hs & Hf). apply sublist_length in Hs. apply Forall2_length in Hf. lia.
Qed.

Lemma matched_skip code sigs key keys : matched code sigs keys -> matched code sigs (key :: keys).
Proof. intros (ks & Hs & Hf). exists ks. split; [by apply sublist_cons | done]. Qed.

Lemma matched_tail code sig sigs keys : matched code (sig :: sigs) keys -> matched code sigs keys.
Proof.
  intros (ks & Hs & Hf). apply Forall2_cons_inv_l in Hf as (k & ks' & _ & Hf & ->).
  exists ks'. split; [|done]. etrans; [|exact Hs]. by apply sublist_cons.
Qed.

(** Taking the first key a signature is valid for loses nothing. *)
Lemma matched_greedy code sig sigs key keys :
  matched code (sig :: sigs) (key :: keys) <->
  if CheckSig sig key code then matched code sigs keys else matched code (sig :: sigs) keys.
Proof.
  split.
  - intros (ks & Hs & Hf). apply Forall2_cons_inv_l in Hf as (k & ks' & Hv & Hf & ->).
    apply sublist_cons_r in Hs as [Hs|(l & [= -> ->] & Hs)].
    + assert (M : matched code (sig :: sigs) keys) by (exists (k :: ks'); by auto).
      destruct (CheckSig sig key code); [by apply matched_tail in M | done].
    + rewrite Hv. by exists l.
  - destruct (CheckSig sig key code) eqn:E; [|apply matched_skip].
    intros (ks & Hs & Hf). exists (key :: ks). split; [by apply sublist_skip | by constructor].
Qed.

Lemma stacktop_at {A} (k : list byte -> M A) i s pre v rest :
  stack s = pre ++ v :: rest -> i = Z.of_nat (length pre) + 1 -> bind (stacktop i) k s = k v s.
Proof.
  intros Es ->. unfold bind, stacktop. destruct (Z.ltb_spec (Z.of_nat (length pre) + 1) 1); [lia|].
  replace (Z.to_nat _) with (length pre) by lia. by rewrite Es, list_lookup_middle.
Qed.

Definition encodings_ok (sigs keys : list (list byte)) : Prop :=
  Forall (fun sig => CheckSignatureEncoding sig flags = Ret tt) sigs /\
  Forall (fun key => CheckPubKeyEncoding key flags = Ret tt) keys.

Lemma multisig_loop_spec code fuel s sigs keys pre_s post_s pre_k post_k :
  stack s = pre_s ++ sigs ++ post_s -> stack s = pre_k ++ keys ++ post_k ->
  encodings_ok sigs keys -> (length sigs <= length keys <= fuel)%nat ->
  exists b, multisig_loop flags fuel code (Z.of_nat (length pre_s) + 1) (Z.of_nat (length pre_k) + 1)
              (Z.of_nat (length sigs)) (Z.of_nat (length keys)) s = Ret (b, s) /\
            (b = true <-> matched code sigs keys).
Proof.
  revert fuel sigs pre_s pre_k. induction keys as [|key keys IH]; intros fuel sigs pre_s pre_k Es Ek [Ok1 Ok2] Hl.
  - destruct sigs; cbn [length] in Hl; [|lia]. exists true.
    split; [by destruct fuel | split; [intros _; apply matched_nil | done]].
  - destruct sigs as [|sig sigs].
    { exists true. split; [by destruct fuel | split; [intros _; apply matched_nil | done]]. }
    destruct fuel as [|f]; cbn [length] in Hl; [lia|]. cbn [multisig_loop length]. rewrite Z.gtb_ltb.
    destruct (Z.ltb_spec 0 (Z.of_nat (S (length sigs)))); [|lia]. cbn [negb].
    rewrite (stacktop_at _ _ s pre_s sig (sigs ++ post_s)), (stacktop_at _ _ s pre_k key (keys ++ post_k)) by done.
    inversion Ok1 as [|? ? Ok1s Ok1']; inversion Ok2 as [|? ? Ok2k Ok2']; subst.
    unfold check_encodings at 1, lift, bind at 1 2. rewrite Ok1s, Ok2k. cbv zeta.
    setoid_rewrite matched_greedy.
    replace (Z.of_nat (S (length keys)) - 1) with (Z.of_nat (length keys)) by lia.
    replace (Z.of_nat (length pre_k) + 1 + 1) with (Z.of_nat (length (pre_k ++ [key])) + 1)
      by (rewrite length_app; cbn [length]; lia).
    assert (Ek' : stack s = (pre_k ++ [key]) ++ keys ++ post_k) by by rewrite <- app_assoc.
    destruct (CheckSig sig key code).
    + replace (Z.of_nat (length pre_s) + 1 + 1) with (Z.of_nat (length (pre_s ++ [sig])) + 1)
        by (rewrite length_app; cbn [length]; lia).
      replace (Z.of_nat (S (length sigs)) - 1) with (Z.of_nat (length sigs)) by lia.
      rewrite Z.gtb_ltb. destruct (Z.ltb_spec (Z.of_nat (length keys)) (Z.of_nat (length sigs))); [lia|].
      apply IH; [by rewrite <- app_assoc | done | done | lia].
    + rewrite Z.gtb_ltb.
      destruct (Z.ltb_spec (Z.of_nat (length keys)) (Z.of_nat (S (length sigs)))).
      * exists false. split; [done|]. split; [done|]. intros M. exfalso. revert M. apply matched_short.
        cbn [length]. lia.
      * apply (IH f (sig :: sigs)); [done | done | by split; [constructor|] | cbn [length]; lia].
Qed.

Lemma drop_signatures_spec sigs code s pre post : stack s = pre ++ sigs ++ post ->
  drop_signatures (length sigs) (Z.of_nat (length pre) + 1) code s =
  Ret (fold_left drop_signature sigs code, s).
Proof.
  revert code pre. induction sigs as [|sig sigs IH]; intros code pre Es; [done|].
  cbn [length drop_signatures fold_left]. rewrite (stacktop_at _ _ s pre sig (sigs ++ post)) by done.
  replace (Z.of_nat (length pre) + 1 + 1) with (Z.of_nat (length (pre ++ [sig])) + 1)
    by (rewrite length_app; cbn [length]; lia).
  apply IH. by rewrite <- app_assoc.
Qed.

Lemma pop_n_spec l stk alt vf p code n :
  pop_n (length l) (mk_state (l ++ stk) alt vf p code n) = Ret (tt, mk_state stk alt vf p code n).
Proof. induction l as [|v l IH]; [done|]. cbn [length pop_n app]. unfold bind, popstack. exact IH. Qed.

Lemma num_at_spec {A} (k : Z -> M A) i s pre n rest m : stack s = pre ++ getvch n :: rest ->
  i = Z.of_nat (length pre) + 1 -> 0 <= n <= 20 -> bind (num_at i m) k s = k n s.
Proof.
  intros Es Hi Hn. assert (E : CScriptNum_vch (getvch n) m = Ret n).
  { assert (In n (map Z.of_nat (seq 0 21))) as Hin.
    { apply in_map_iff. exists (Z.to_nat n). split; [lia|]. apply in_seq. lia. }
    repeat (destruct Hin as [<-|Hin]; [by destruct m|]). done. }
  unfold num_at. unfold bind at 1. rewrite (stacktop_at _ _ s pre (getvch n) rest) by done. by rewrite E.
Qed.

Lemma require_length {A} n (k : M A) s : n <= Z.of_nat (length (stack s)) ->
  bind (require n) (fun _ => k) s = k s.
Proof. apply require_ok. Qed.

(** The end of the instruction: drop the operands, check and drop the extra element. *)
Lemma multisig_end (ops : list (list byte)) (dummy : list byte) stk alt vf p code n (b : bool) :
  (has_flag flags SCRIPT_VERIFY_NULLDUMMY = true -> dummy = []) ->
  (pop_n (length ops) ;;;
   require 1 ;;;
   v <-- stacktop 1 ;;
   if has_flag flags SCRIPT_VERIFY_NULLDUMMY && negb (length v =? 0)%nat
   then set_error SCRIPT_ERR_SIG_NULLDUMMY else
   popstack ;;;
   push_back (if b then vchTrue else vchFalse) ;;;
   if OP_CHECKMULTISIG =? OP_CHECKMULTISIGVERIFY
   then if b then popstack else set_error SCRIPT_ERR_CHECKMULTISIGVERIFY
   else ret tt)%eval (mk_state (ops ++ dummy :: stk) alt vf p code n) =
  Ret (tt, mk_state ((if b then vchTrue else vchFalse) :: stk) alt vf p code n).
Proof.
  intros Hd. unfold bind at 1. rewrite pop_n_spec, require_length by (cbn [stack length]; lia).
  rewrite (stacktop_at _ _ _ [] dummy stk) by done.
  destruct (has_flag flags SCRIPT_VERIFY_NULLDUMMY); [rewrite Hd by done|]; done.
Qed.

(** C23: [OP_CHECKMULTISIG] on a stack that holds, from the top, the number of keys, the
    keys, the number of signatures, the signatures and the extra element. It pushes
    true exactly when the signatures can be assigned, in order, to distinct keys they
    are valid for: the greedy loop misses no assignment. It removes its operands, the
    extra element included, and counts the keys as operations. *)
Theorem checkmultisig_correct (keys sigs : list (list byte)) (dummy : list byte)
    (stk alt : list (list byte)) (vf : list bool) (p code : list byte) (n : Z) (m : bool)
    (Hkeys : (length sigs <= length keys <= 20)%nat)
    (Hops : n + Z.of_nat (length keys) <= 201)
    (Hok : encodings_ok sigs keys)
    (Hdummy : has_flag flags SCRIPT_VERIFY_NULLDUMMY = true -> dummy = []) :
  exists b : bool,
    op_checkmultisig flags m OP_CHECKMULTISIG
      (mk_state (getvch (Z.of_nat (length keys)) :: keys ++
                 getvch (Z.of_nat (length sigs)) :: sigs ++ dummy :: stk) alt vf p code n) =
    Ret (tt, mk_state ((if b then vchTrue else vchFalse) :: stk) alt vf p code
               (n + Z.of_nat (length keys))) /\
    (b = true <-> matched (fold_left drop_signature sigs code) sigs keys).
Proof.
  set (nk := Z.of_nat (length keys)) in *. set (ns := Z.of_nat (length sigs)) in *.
  set (l := getvch nk :: keys ++ getvch ns :: sigs ++ dummy :: stk).
  assert (Hl : Z.of_nat (length l) = 3 + nk + ns + Z.of_nat (length stk)).
  { unfold l, nk, ns. cbn [length]. rewrite length_app. cbn [length]. rewrite length_app. cbn [length]. lia. }
  unfold op_checkmultisig. cbv zeta. rewrite require_length by (cbn [stack]; lia).
  rewrite (num_at_spec _ _ _ [] nk (keys ++ getvch ns :: sigs ++ dummy :: stk)) by first [done | lia].
  rewrite getint_small by lia. rewrite Z.gtb_ltb.
  destruct (Z.ltb_spec nk 0), (Z.ltb_spec 20 nk); try lia. cbn [orb].
  unfold bind at 1, get at 1. unfold bind at 1, set_nOpCount at 1. cbn [stack altstack vfExec pc pbegincodehash nOpCount].
  rewrite Z.gtb_ltb. destruct (Z.ltb_spec 201 (n + nk)); [lia|].
  set (s1 := mk_state l alt vf p code (n + nk)).
  rewrite require_length by (cbn [s1 stack]; lia).
  rewrite (num_at_spec _ _ s1 (getvch nk :: keys) ns (sigs ++ dummy :: stk))
    by first [done | lia | unfold nk; cbn [length]; lia].
  rewrite getint_small by lia. rewrite Z.gtb_ltb.
  destruct (Z.ltb_spec ns 0), (Z.ltb_spec nk ns); try lia. cbn [orb].
  rewrite require_length by (cbn [s1 stack]; lia).
  unfold bind at 1, get at 1.
  set (pre_s := getvch nk :: keys ++ [getvch ns]).
  assert (Ls : 1 + 1 + nk + 1 = Z.of_nat (length pre_s) + 1).
  { unfold pre_s, nk. cbn [length]. rewrite length_app. cbn [length]. lia. }
  assert (Es : stack s1 = pre_s ++ sigs ++ dummy :: stk).
  { unfold pre_s. cbn [s1 stack app]. by rewrite <- app_assoc. }
  rewrite Ls. unfold ns at 1. rewrite Nat2Z.id.
  unfold bind at 1. rewrite (drop_signatures_spec sigs _ s1 pre_s _ Es).
  destruct (multisig_loop_spec (fold_left drop_signature sigs (pbegincodehash s1)) (Z.to_nat nk) s1
    sigs keys pre_s (dummy :: stk) [getvch nk] (getvch ns :: sigs ++ dummy :: stk) Es eq_refl Hok)
    as (b & El & Hb); [lia|].
  exists b. split; [|exact Hb].
  change (Z.of_nat (length [getvch nk]) + 1) with (1 + 1) in El.
  unfold bind at 1. fold ns nk in El. rewrite El.
  replace (Z.to_nat _) with (length (pre_s ++ sigs)) by (rewrite length_app; unfold ns; lia).
  unfold s1. cbn [s1 stack] in Es. rewrite Es, app_assoc. by apply multisig_end.
Qed.
End multisig.

(** ** The values of the integers of a signature *)

(** The value of a big-endian byte string. *)
Definition be_value (c : list Z) : Z := fold_left (fun n x => 256 * n + x) c 0.
Definition is_byte (x : Z) : Prop := 0 <= x < 256.

(** The order of the curve. *)
Definition group_order : Z := 0xFFFFFFFFFFFFFFFFFFFFFFFFFFFFFFFEBAAEDCE6AF48A03BBFD25E8CD0364141.

Lemma be_fold c n : fold_left (fun n x => 256 * n + x) c n = n * 256 ^ Z.of_nat (length c) + be_value c.
Proof.
  unfold be_value. revert n. induction c as [|x c IH]; intros n; cbn [fold_left length]; [lia|].
  rewrite IH, (IH (256 * 0 + x)), Nat2Z.inj_succ, Z.pow_succ_r by lia. lia.
Qed.

Lemma be_value_cons x c : be_value (x :: c) = x * 256 ^ Z.of_nat (length c) + be_value c.
Proof. unfold be_value at 1. cbn [fold_left]. rewrite be_fold. lia. Qed.

Lemma be_value_range c : Forall is_byte c -> 0 <= be_value c < 256 ^ Z.of_nat (length c).
Proof.
  induction 1 as [|x c Hx Hc IH]; [cbn; lia|]. unfold is_byte in Hx.
  rewrite be_value_cons. cbn [length]. rewrite Nat2Z.inj_succ, Z.pow_succ_r by lia. nia.
Qed.

Lemma CompareBigEndian_eq_spec c1 c2 : length c1 = length c2 -> Forall is_byte c1 -> Forall is_byte c2 ->
  CompareBigEndian_eq c1 c2 = Z.sgn (be_value c1 - be_value c2).
Proof.
  intros Hl H1. revert c2 Hl. induction H1 as [|x c1 Hx H1 IH]; intros [|y c2] Hl H2; try done.
  inversion H2 as [|? ? Hy H2']; subst. cbn [length] in Hl.
  cbn [CompareBigEndian_eq]. rewrite !be_value_cons.
  replace (length c1) with (length c2) by lia. unfold is_byte in *.
  pose proof (be_value_range c1 H1) as R1. pose proof (be_value_range c2 H2') as R2.
  replace (length c1) with (length c2) in R1 by lia. set (k := 256 ^ Z.of_nat (length c2)) in *.
  rewrite !Z.gtb_ltb. destruct (Z.ltb_spec y x); [symmetry; apply Z.sgn_pos; nia|].
  destruct (Z.ltb_spec x y); [symmetry; apply Z.sgn_neg; nia|].
  rewrite IH by (done || lia). f_equal. nia.
Qed.

Lemma skip_longer_spec n c : (n <= length c)%nat -> Forall is_byte c ->
  match skip_longer n c with
  | None => 256 ^ Z.of_nat (length c - n) <= be_value c
  | Some c' => be_value c' = be_value c /\ length c' = (length c - n)%nat /\ Forall is_byte c'
  end.
Proof.
  intros Hn H. revert n Hn. induction H as [|x c Hx Hc IH]; intros [|n] Hn; cbn [skip_longer length] in *; try lia.
  - done.
  - split; [done|]. split; [done|]. by constructor.
  - unfold is_byte in Hx. rewrite be_value_cons. destruct (Z.eqb_spec x 0); cbn [negb].
    + subst x. specialize (IH n ltac:(lia)). by destruct (skip_longer n c).
    + pose proof (be_value_range c Hc).
      assert (256 ^ Z.of_nat (length c - n) <= 256 ^ Z.of_nat (length c)) by (apply Z.pow_le_mono_r; lia).
      cbn [Nat.sub]. nia.
Qed.

(** [CompareBigEndian] compares the values, whatever the lengths. *)
Lemma CompareBigEndian_spec c1 c2 : Forall is_byte c1 -> Forall is_byte c2 ->
  CompareBigEndian c1 c2 = Z.sgn (be_value c1 - be_value c2).
Proof.
  intros H1 H2. unfold CompareBigEndian.
  pose proof (skip_longer_spec (length c1 - length c2) c1 ltac:(lia) H1) as S1.
  pose proof (skip_longer_spec (length c2 - length c1) c2 ltac:(lia) H2) as S2.
  pose proof (be_value_range c1 H1) as R1. pose proof (be_value_range c2 H2) as R2.
  destruct (skip_longer (length c1 - length c2) c1) as [c1'|] eqn:E1.
  - destruct S1 as (V1 & L1 & B1).
    replace (length c2 - length c1')%nat with (length c2 - length c1)%nat by lia.
    destruct (skip_longer _ c2) as [c2'|] eqn:E2.
    + destruct S2 as (V2 & L2 & B2). rewrite CompareBigEndian_eq_spec by (done || lia). by rewrite V1, V2.
    + symmetry. apply Z.sgn_neg.
      destruct (Nat.le_gt_cases (length c2) (length c1)) as [Hl|Hl].
      { replace (length c2 - length c1)%nat with 0%nat in E2 by lia. by destruct c2. }
      replace (length c2 - (length c2 - length c1))%nat with (length c1) in S2 by lia. lia.
  - symmetry. apply Z.sgn_pos.
    destruct (Nat.le_gt_cases (length c1) (length c2)) as [Hl|Hl].
    { replace (length c1 - length c2)%nat with 0%nat in E1 by lia. by destruct c1. }
    replace (length c1 - (length c1 - length c2))%nat with (length c2) in S1 by lia. lia.
Qed.

Lemma CheckSignatureElement_spec c half : Forall is_byte c ->
  CheckSignatureElement c half = true <->
  1 <= be_value c <= (if half then group_order / 2 else group_order - 1).
Proof.
  intros Hc. unfold CheckSignatureElement. rewrite andb_true_iff, Z.gtb_ltb, Z.ltb_lt, Z.leb_le.
  assert (Hm : forall b, Forall is_byte (if b : bool then vchMaxModHalfOrder else vchMaxModOrder) /\
    be_value (if b then vchMaxModHalfOrder else vchMaxModOrder) =
    (if b then group_order / 2 else group_order - 1)).
  { intros []; (split; [|by vm_compute]); unfold vchMaxModHalfOrder, vchMaxModOrder, is_byte;
      repeat constructor; lia. }
  destruct (Hm half) as [Hb Hv]. rewrite !CompareBigEndian_spec, Hv by (done || constructor).
  change (be_value []) with 0. rewrite Z.sub_0_r.
  assert (S : forall z, (0 < Z.sgn z <-> 0 < z) /\ (Z.sgn z <= 0 <-> z <= 0)) by (intros []; cbn; lia).
  rewrite (proj1 (S _)), (proj2 (S _)). lia.
Qed.

Lemma has_flag_lor flags a b : has_flag flags (Z.lor a b) = has_flag flags a || has_flag flags b.
Proof.
  unfold has_flag. rewrite Z.land_lor_distr_r. rewrite <- negb_andb. f_equal.
  apply eq_iff_eq_true. by rewrite andb_true_iff, !Z.eqb_eq, Z.lor_eq_0_iff.
Qed.

Lemma byte_values (l : list byte) : Forall is_byte (map byte.unsigned l).
Proof. apply Forall_forall. intros x (b & -> & _)%list_elem_of_fmap. apply unsigned_range. Qed.

(** A signature whose [S] is at most half the group order. *)
Definition low_der (sig : list byte) : Prop :=
  exists R S ht, der_parts sig R S ht /\ 1 <= be_value (map byte.unsigned S) <= group_order / 2.

(** Which signatures pass the encoding checks. [CheckSignatureEncoding] accepts the
    empty vector; any other must be a strict DER encoding of two integers (each minimal
    and non-negative) followed by a hash type if one of the three flags is given, have
    an [S] of at most half the group order with [SCRIPT_VERIFY_LOW_S], and a hash type
    among the three known ones, [SIGHASH_ANYONECANPAY] apart, with
    [SCRIPT_VERIFY_STRICTENC]. *)
Theorem signature_encoding_check (flags : Z) (sig : list byte) :
  CheckSignatureEncoding sig flags = Ret tt <->
  sig = [] \/
  ((has_flag flags SCRIPT_VERIFY_DERSIG || has_flag flags SCRIPT_VERIFY_LOW_S
      || has_flag flags SCRIPT_VERIFY_STRICTENC = true -> strict_der sig) /\
   (has_flag flags SCRIPT_VERIFY_LOW_S = true -> low_der sig) /\
   (has_flag flags SCRIPT_VERIFY_STRICTENC = true ->
      SIGHASH_ALL <= Z.land (back sig) 0x7f <= SIGHASH_SINGLE)).
Proof.
  unfold CheckSignatureEncoding. destruct sig as [|c sig']; [by split; auto|].
  remember (c :: sig') as sig eqn:Hs. assert (Hne : sig <> []) by by subst.
  replace (length sig =? 0)%nat with false by by subst. clear c sig' Hs.
  assert (Hh : guard (negb (has_flag flags SCRIPT_VERIFY_STRICTENC && negb (IsDefinedHashtypeSignature sig)))
    SCRIPT_ERR_SIG_HASHTYPE = Ret tt <->
    (has_flag flags SCRIPT_VERIFY_STRICTENC = true -> SIGHASH_ALL <= Z.land (back sig) 0x7f <= SIGHASH_SINGLE)).
  { unfold IsDefinedHashtypeSignature. destruct (length sig =? 0)%nat eqn:E; [by destruct sig|].
    change (u8 (Z.lnot SIGHASH_ANYONECANPAY)) with 0x7f. cbv zeta. rewrite negb_involutive, Z.gtb_ltb.
    destruct (has_flag flags SCRIPT_VERIFY_STRICTENC); cbn [andb]; [|by cbn; split].
    destruct (Z.ltb_spec (Z.land (back sig) 0x7f) SIGHASH_ALL), (Z.ltb_spec SIGHASH_SINGLE (Z.land (back sig) 0x7f));
      cbn [orb negb guard]; split; try done; intros; lia. }
  rewrite !has_flag_lor.
  destruct (IsValidSignatureEncoding_spec sig) as [[v E] S]. rewrite E in *. cbn [defined].
  assert (Hl : v = true -> IsLowDERSignature sig = Ret tt <-> low_der sig).
  { intros ->. destruct (proj1 S eq_refl) as (R & T & ht & D). split.
    - rewrite (IsLowDERSignature_parts _ _ _ _ D). intros G. exists R, T, ht. split; [done|].
      apply (CheckSignatureElement_spec _ true); [apply byte_values|]. by destruct (CheckSignatureElement _ _).
    - intros (R' & T' & ht' & D' & B). rewrite (IsLowDERSignature_parts _ _ _ _ D').
      by rewrite (proj2 (CheckSignatureElement_spec _ true (byte_values T')) B). }
  destruct (has_flag flags SCRIPT_VERIFY_DERSIG || has_flag flags SCRIPT_VERIFY_LOW_S
      || has_flag flags SCRIPT_VERIFY_STRICTENC) eqn:Hf; cbn [result_bind].
  - destruct v; cbn [guard result_bind].
    + destruct (has_flag flags SCRIPT_VERIFY_LOW_S).
      * destruct (IsLowDERSignature sig) as [[]|] eqn:L; cbn [result_bind]; [|].
        { rewrite Hh. split; [intros; right; tauto | intros [?|?]; tauto]. }
        { split; [done|]. intros [?|(_ & W & _)]; [done|]. by apply (Hl eq_refl) in W; [|]. }
      * cbn [result_bind]. rewrite Hh. split; [intros; right; split; [tauto|]; by split|tauto].
    + split; [done|]. intros [?|[W _]]; [done|]. apply S in W; done.
  - apply orb_false_iff in Hf as [Hf F3]. apply orb_false_iff in Hf as [F1 F2].
    rewrite F2, F3 in *. cbn [guard result_bind andb negb]. split; [intros _; by right | done].
Qed.

(** ** Examples *)

Lemma P2PKH_spend_witness :
  let key := repeat Byte.x02 33 in let sig := repeat Byte.x30 71 in
  @VerifyScript accept_all 0 (push_all [sig; key]) (P2PKH_script (hash160_bytes key)) = Ret tt.
Proof.
  intros key sig.
  apply (@P2PKH_spend accept_all 0 (hash160_bytes key) key sig);
    [ rewrite hash160_bytes_spec; apply Ripemd160.ripemd160_length
    | unfold sig; rewrite repeat_length; lia | unfold key; rewrite repeat_length; lia |].
  split; [exact eq_refl|]. split; [exact eq_refl|]. split; exact eq_refl.
Defined.

Lemma P2SH_spend_witness :
  let redeem := [byte.of_Z OP_2; byte.of_Z OP_EQUAL] in
  @VerifyScript accept_all SCRIPT_VERIFY_P2SH (push_all [[Byte.x02]; redeem])
    (P2SH_script (hash160_bytes redeem)) = Ret tt.
Proof.
  intros redeem.
  etransitivity; [apply (@P2SH_spend accept_all SCRIPT_VERIFY_P2SH (hash160_bytes redeem) [[Byte.x02]] redeem)|].
  - reflexivity.
  - rewrite hash160_bytes_spec. apply Ripemd160.ripemd160_length.
  - repeat constructor; cbn; try (unfold small, MAX_SCRIPT_ELEMENT_SIZE; cbn; lia); discriminate.
  - cbn. lia.
  - vm_compute. discriminate.
  - rewrite bool_decide_true by exact eq_refl. vm_compute. reflexivity.
Defined.

Lemma checkmultisig_correct_witness :
  let keys := [[Byte.x02]; [Byte.x03]; [Byte.x04]] in
  let check := {| CheckSig := fun sig key _ => bool_decide (sig = key) |} in
  exists b : bool,
    @op_checkmultisig check 0 false OP_CHECKMULTISIG
      (mk_state (getvch 3 :: keys ++ getvch 2 :: [[Byte.x02]; [Byte.x04]] ++ [] :: []) [] [] [] [] 1) =
    Ret (tt, mk_state ((if b then vchTrue else vchFalse) :: []) [] [] [] [] (1 + 3)) /\
    (b = true <-> @matched check [] [[Byte.x02]; [Byte.x04]] keys).
Proof.
  intros keys check.
  exact (@checkmultisig_correct check 0 keys [[Byte.x02]; [Byte.x04]] [] [] [] [] [] [] 1 false
    ltac:(vm_compute; lia) ltac:(vm_compute; discriminate)
    ltac:(split; repeat constructor) ltac:(discriminate)).
Defined.
