(* ===== verification/PubKey.v ===== *)
(** * Public keys ([pubkey.h])

    The buffer of a [CPubKey] (65 bytes, the length given by the first one), how it is
    set from a byte string, compared and serialized. *)

From Stdlib Require Import ZArith Lia List Bool.
From stdpp Require Import base list.
From coqutil Require Import Byte Word.LittleEndianList.
From S2P Require Import Prelude Uint256 Serialize MerkleDamgard Hash.

Open Scope Z_scope.
Open Scope btc_scope.

Definition GetLen (chHeader : byte) : nat :=
  let h := byte.unsigned chHeader in
  if (h =? 2) || (h =? 3) then 33%nat
  else if (h =? 4) || (h =? 6) || (h =? 7) then 65%nat
  else 0%nat.

(** [unsigned char vch[65]] *)
Record CPubKey : Type := mk_CPubKey { pk_vch : list byte }.

Definition pk_ok (k : CPubKey) : Prop := length (pk_vch k) = 65%nat.

Definition Invalidate (k : CPubKey) : CPubKey := mk_CPubKey (<[0%nat := Byte.xff]> (pk_vch k)).

(** [memcpy(vch, data, len)] *)
Definition overwrite (vch data : list byte) : list byte := data ++ drop (length data) vch.

Definition Set_ (k : CPubKey) (data : list byte) : CPubKey :=
  let len := match data with [] => 0%nat | c :: _ => GetLen c end in
  if negb (len =? 0)%nat && (len =? length data)%nat
  then mk_CPubKey (overwrite (pk_vch k) data)
  else Invalidate k.

(** [CPubKey()], [CPubKey(vch)]: [buf] is the uninitialised storage. *)
Definition CPubKey_new (buf : list byte) : CPubKey := Invalidate (mk_CPubKey buf).
Definition CPubKey_of (buf data : list byte) : CPubKey := Set_ (mk_CPubKey buf) data.

Definition pk_size (k : CPubKey) : nat := GetLen (nth 0 (pk_vch k) Byte.x00).
Definition pk_bytes (k : CPubKey) : list byte := take (pk_size k) (pk_vch k).

Definition pk_eq (a b : CPubKey) : bool :=
  bool_decide (nth 0 (pk_vch a) Byte.x00 = nth 0 (pk_vch b) Byte.x00)
  && bool_decide (take (pk_size a) (pk_vch a) = take (pk_size a) (pk_vch b)).

(** [memcmp(a, b, n) < 0] on byte strings of one length. *)
Fixpoint memcmp_lt (a b : list byte) : bool :=
  match a, b with
  | x :: a, y :: b =>
      (byte.unsigned x <? byte.unsigned y) || (bool_decide (x = y) && memcmp_lt a b)
  | _, _ => false
  end.
Definition pk_lt (a b : CPubKey) : bool :=
  let a0 := nth 0 (pk_vch a) Byte.x00 in let b0 := nth 0 (pk_vch b) Byte.x00 in
  (byte.unsigned a0 <? byte.unsigned b0)
  || (bool_decide (a0 = b0) && memcmp_lt (take (pk_size a) (pk_vch a)) (take (pk_size a) (pk_vch b))).

Definition pk_IsValid (k : CPubKey) : bool := (0 <? pk_size k)%nat.
Definition pk_IsCompressed (k : CPubKey) : bool := (pk_size k =? 33)%nat.
Definition pk_GetID (k : CPubKey) : base_uint := Hash160 (pk_bytes k).
Definition pk_GetHash (k : CPubKey) : base_uint := Hash [pk_bytes k].

Definition pk_GetSerializeSize (k : CPubKey) : Z := Z.of_nat (pk_size k) + 1.
Definition pk_Serialize (k : CPubKey) : bytes :=
  WriteCompactSize (Z.of_nat (pk_size k)) ++ pk_bytes k.

(** Reads into an existing key; a longer string is skipped byte by byte. *)
Definition pk_Unserialize (k : CPubKey) : reader CPubKey := fun s =>
  let* (len, s) := ReadCompactSize s in
  let* (data, s) := read_bytes (Z.to_nat len) s in
  Ret (if len <=? 65 then mk_CPubKey (overwrite (pk_vch k) data) else Invalidate k, s).

(** ** Lemmas *)

Lemma GetLen_cases c : GetLen c = 0%nat \/ GetLen c = 33%nat \/ GetLen c = 65%nat.
Proof. unfold GetLen. repeat case_match; auto. Qed.

Lemma overwrite_length vch data : (length data <= length vch)%nat ->
  length (overwrite vch data) = length vch.
Proof. intros H. unfold overwrite. rewrite length_app, length_drop. lia. Qed.

Lemma Invalidate_size k : pk_ok k -> pk_size (Invalidate k) = 0%nat.
Proof. unfold pk_ok. intros H. by destruct k as [[|c v]]. Qed.

Lemma Invalidate_ok k : pk_ok k -> pk_ok (Invalidate k).
Proof. unfold pk_ok, Invalidate. cbn [pk_vch]. by rewrite length_insert. Qed.

Lemma Set_ok k data : pk_ok k -> pk_ok (Set_ k data).
Proof.
  intros H. unfold Set_. destruct data as [|c data]; [by apply Invalidate_ok|].
  destruct (negb _ && _) eqn:E; [|by apply Invalidate_ok].
  apply andb_true_iff in E as [_ E]. apply Nat.eqb_eq in E. unfold pk_ok in *. cbn [pk_vch].
  rewrite overwrite_length; [done|]. destruct (GetLen_cases c) as [L|[L|L]]; lia.
Qed.

(** A key set from a byte string is valid exactly when the string has the length its
    header announces, and then holds that string. *)
Lemma Set_spec k data : pk_ok k ->
  let valid := match data with [] => false | c :: _ => negb (GetLen c =? 0)%nat && (GetLen c =? length data)%nat end in
  pk_IsValid (Set_ k data) = valid /\ (valid = true -> pk_bytes (Set_ k data) = data).
Proof.
  intros H. destruct data as [|c data]; cbv zeta.
  - unfold Set_. cbn [Nat.eqb negb andb]. unfold pk_IsValid. by rewrite Invalidate_size.
  - unfold Set_. destruct (negb (GetLen c =? 0)%nat && (GetLen c =? length (c :: data))%nat) eqn:E.
    + apply andb_true_iff in E as [E0 E1]. apply negb_true_iff, Nat.eqb_neq in E0. apply Nat.eqb_eq in E1.
      unfold pk_IsValid, pk_bytes, pk_size. cbn [overwrite pk_vch app nth].
      split; [apply Nat.ltb_lt; lia|]. intros _. rewrite E1.
      exact (take_app_length (c :: data) _).
    + unfold pk_IsValid. by rewrite Invalidate_size.
Qed.

(** Public keys. A key set from a byte string is valid exactly when the string is 33
    bytes after a header 2 or 3, or 65 bytes after a header 4, 6 or 7, and its
    serialization is then that string; a valid key read back into any key is equal to
    it, in the sense of [operator==], and of the announced size. *)
Theorem pubkey_roundtrip (k k' : CPubKey) (data rest : bytes) (Hk : pk_ok k) (Hk' : pk_ok k')
    (Hv : pk_IsValid k = true) :
  (pk_IsValid (Set_ k' data) = true <->
     exists c l, data = c :: l /\
       ((length data = 33%nat /\ (byte.unsigned c = 2 \/ byte.unsigned c = 3)) \/
        (length data = 65%nat /\ (byte.unsigned c = 4 \/ byte.unsigned c = 6 \/ byte.unsigned c = 7)))) /\
  Z.of_nat (length (pk_Serialize k)) = pk_GetSerializeSize k /\
  exists k2, pk_Unserialize k' (pk_Serialize k ++ rest) = Ret (k2, rest) /\
    pk_ok k2 /\ pk_eq k2 k = true /\ pk_bytes k2 = pk_bytes k.
Proof.
  split; [|split].
  - rewrite (proj1 (Set_spec k' data Hk')). destruct data as [|c l]; [split; [done | by intros (?&?&?&_)]|].
    rewrite andb_true_iff, negb_true_iff, Nat.eqb_neq, Nat.eqb_eq. unfold GetLen.
    destruct (Z.eqb_spec (byte.unsigned c) 2), (Z.eqb_spec (byte.unsigned c) 3), (Z.eqb_spec (byte.unsigned c) 4),
      (Z.eqb_spec (byte.unsigned c) 6), (Z.eqb_spec (byte.unsigned c) 7); cbn [orb]; try lia;
      (split; [intros [? Hl]; first [done | eexists _, _; split; [done | lia]]
              | intros (? & ? & [= <- <-] & ?); lia]).
  - pose proof Hk as L. unfold pk_ok in L. unfold pk_Serialize, pk_GetSerializeSize, pk_bytes, pk_size in *.
    rewrite length_app, length_take.
    destruct (GetLen_cases (nth 0 (pk_vch k) Byte.x00)) as [E|[E|E]]; rewrite E, L; reflexivity.
  - unfold pk_ok in *. unfold pk_IsValid in Hv. apply Nat.ltb_lt in Hv.
    assert (Hs : (pk_size k <= 65)%nat) by (unfold pk_size; destruct (GetLen_cases (nth 0 (pk_vch k) Byte.x00)); lia).
    assert (Lb : length (pk_bytes k) = pk_size k) by (unfold pk_bytes; rewrite length_take; lia).
    unfold pk_Unserialize, pk_Serialize. rewrite <- app_assoc, ReadCompactSize_app by (unfold MAX_SIZE; lia).
    cbn [result_bind]. rewrite Nat2Z.id, read_bytes_app by done. cbn [result_bind].
    destruct (Z.leb_spec (Z.of_nat (pk_size k)) 65); [|lia].
    eexists. split; [done|].
    assert (H0 : nth 0 (overwrite (pk_vch k') (pk_bytes k)) Byte.x00 = nth 0 (pk_vch k) Byte.x00).
    { unfold overwrite, pk_bytes. destruct (pk_vch k) as [|c v]; [done|]. destruct (pk_size k); [lia|done]. }
    assert (H1 : take (pk_size k) (overwrite (pk_vch k') (pk_bytes k)) = pk_bytes k).
    { unfold overwrite. rewrite <- Lb at 1. apply take_app_length. }
    assert (Es : pk_size (mk_CPubKey (overwrite (pk_vch k') (pk_bytes k))) = pk_size k)
      by (unfold pk_size; cbn [pk_vch]; by rewrite H0).
    split; [cbn [pk_vch]; rewrite overwrite_length; lia|].
    unfold pk_eq. rewrite Es. cbn [pk_vch]. rewrite H0, H1, !bool_decide_true by done. split; [done|].
    unfold pk_bytes at 1. by rewrite Es.
Qed.

Lemma pubkey_roundtrip_witness :
  let k := CPubKey_of (repeat Byte.x00 65) (repeat Byte.x02 33) in
  pk_IsValid k = true /\
  exists k2, pk_Unserialize (mk_CPubKey (repeat Byte.x07 65)) (pk_Serialize k ++ [Byte.x01]) = Ret (k2, [Byte.x01]) /\
    pk_ok k2 /\ pk_eq k2 k = true /\ pk_bytes k2 = pk_bytes k.
Proof.
  intros k. split; [reflexivity|].
  exact (proj2 (proj2 (pubkey_roundtrip k (mk_CPubKey (repeat Byte.x07 65)) [] [Byte.x01] eq_refl eq_refl eq_refl))).
Defined.
