(* ===== verification/Tx.v ===== *)
(** * Transactions ([primitives/transaction.h], [primitives/transaction.cpp], [amount.cpp])

    Out points, inputs, outputs and transactions with the fields of the classes, the
    memory-only ones included; their serialization as instances of [Serializer]; the
    predicates that classify transactions.  [CTransaction] carries the hash it caches. *)

From Stdlib Require Import ZArith Lia List Bool.
From stdpp Require Import base option list.
From coqutil Require Import Byte Word.LittleEndianList.
From S2P Require Import Prelude Uint256 Serialize MerkleDamgard Hash Script.

Open Scope Z_scope.
Open Scope btc_scope.

(** A [uint256] is a [base_uint] of eight limbs. *)
Abbreviation uint256 := base_uint (only parsing).

(** ** Amounts and fees *)

Abbreviation CAmount := Z (only parsing).
Definition COIN : CAmount := 100000000.

Record CFeeRate : Type := mk_CFeeRate { nSatoshisPerK : CAmount }.

(** [nFeePaid * 1000 / nSize]: the product is an [int64_t] (its overflow is undefined,
    [None]); [nSize] is a [size_t], so the division is on 64-bit unsigned operands. *)
Definition CFeeRate_paid (nFeePaid : CAmount) (nSize : Z) : option CFeeRate :=
  if nSize >? 0 then
    if (- 2 ^ 63 <=? nFeePaid * 1000) && (nFeePaid * 1000 <? 2 ^ 63)
    then Some (mk_CFeeRate (i64 (u64 (nFeePaid * 1000) / nSize))) else None
  else Some (mk_CFeeRate 0).

(** [nSatoshisPerK * nSize / 1000] on 64-bit unsigned operands. *)
Definition GetFee (rate : CFeeRate) (nSize : Z) : CAmount :=
  let nFee := i64 (u64 (u64 (nSatoshisPerK rate) * nSize) / 1000) in
  if (nFee =? 0) && (nSatoshisPerK rate >? 0) then nSatoshisPerK rate else nFee.
Definition GetFeePerK (rate : CFeeRate) : CAmount := GetFee rate 1000.

(** ** Out points *)

Record COutPoint : Type := mk_COutPoint { prev_hash : uint256; prev_n : Z }.

#[export] Instance COutPoint_eq_dec : EqDecision COutPoint.
Proof. solve_decision. Defined.

Definition COutPoint_SetNull : COutPoint := mk_COutPoint (base_uint_zero 8) (u32 (-1)).
Definition COutPoint_IsNull (o : COutPoint) : bool :=
  IsNull (prev_hash o) && (prev_n o =? u32 (-1)).
Definition COutPoint_lt (a b : COutPoint) : bool :=
  (CompareTo (prev_hash a) (prev_hash b) <? 0)
  || (bool_decide (prev_hash a = prev_hash b) && (prev_n a <? prev_n b)).
Definition COutPoint_eq (a b : COutPoint) : bool :=
  bool_decide (prev_hash a = prev_hash b) && (prev_n a =? prev_n b).
Definition COutPoint_GetHash (o : COutPoint) : uint256 :=
  Hash [uint_bytes (prev_hash o); le_split 4 (prev_n o)].

(** [FLATDATA( *this)]: the object representation, 36 bytes. *)
#[export] Instance COutPoint_Serializer : Serializer COutPoint := {
  Serialize o := uint_bytes (prev_hash o) ++ ser_writedata 4 (prev_n o);
  Unserialize := fun s =>
    let* (b, s) := read_bytes 36 s in
    Ret (mk_COutPoint (bytes_uint 8 (take 32 b)) (le_combine (drop 32 b)), s);
  GetSerializeSize _ := 36;
  Serializable o := wf 8 (prev_hash o) /\ in_u32 (prev_n o) }.

(** ** Inputs *)

Record CTxIn : Type := mk_CTxIn {
  prevout : COutPoint; scriptSig : CScript; nSequence : Z; prevPubKey : CScript }.

Definition UINT32_MAX : Z := 2 ^ 32 - 1.
Definition CTxIn_new : CTxIn := mk_CTxIn COutPoint_SetNull [] UINT32_MAX [].
Definition CTxIn_make (prevoutIn : COutPoint) (scriptSigIn : CScript) (nSequenceIn : Z) : CTxIn :=
  mk_CTxIn prevoutIn scriptSigIn nSequenceIn [].

Definition CTxIn_IsFinal (txin : CTxIn) : bool := nSequence txin =? UINT32_MAX.
Definition CTxIn_IsZerocoinSpend (txin : CTxIn) : bool :=
  EqualTo (prev_hash (prevout txin)) 0 && IsZerocoinSpend (scriptSig txin).
Definition CTxIn_eq (a b : CTxIn) : bool :=
  COutPoint_eq (prevout a) (prevout b) && bool_decide (scriptSig a = scriptSig b)
  && (nSequence a =? nSequence b).

(** A vector element is default-constructed before it is read. *)
#[export] Instance CTxIn_Serializer : Serializer CTxIn := {
  Serialize i := Serialize (prevout i) ++ Serialize_blob (scriptSig i) ++ ser_writedata 4 (nSequence i);
  Unserialize := fun s =>
    let* (o, s) := Unserialize s in
    let* (sig, s) := Unserialize_blob s in
    let* (n, s) := ser_readdata 4 s in
    Ret (mk_CTxIn o sig n (prevPubKey CTxIn_new), s);
  GetSerializeSize i := GetSerializeSize (prevout i) + GetSerializeSize_blob (scriptSig i) + 4;
  Serializable i := Serializable (prevout i) /\ Z.of_nat (length (scriptSig i)) <= MAX_SIZE /\
    in_u32 (nSequence i) /\ prevPubKey i = prevPubKey CTxIn_new }.

(** ** Outputs *)

Record CTxOut : Type := mk_CTxOut { nValue : CAmount; scriptPubKey : CScript; nRounds : Z }.

Definition CTxOut_SetNull : CTxOut := mk_CTxOut (-1) [] (-10).
Definition CTxOut_make (nValueIn : CAmount) (scriptPubKeyIn : CScript) : CTxOut :=
  mk_CTxOut nValueIn scriptPubKeyIn (-10).
Definition CTxOut_IsNull (o : CTxOut) : bool := nValue o =? -1.
Definition CTxOut_SetEmpty (o : CTxOut) : CTxOut := mk_CTxOut 0 [] (nRounds o).
Definition CTxOut_IsEmpty (o : CTxOut) : bool :=
  (nValue o =? 0) && (length (scriptPubKey o) =? 0)%nat.
Definition CTxOut_IsZerocoinMint (o : CTxOut) : bool := IsZerocoinMint (scriptPubKey o).
Definition CTxOut_GetZerocoinMinted (o : CTxOut) : CAmount :=
  if negb (CTxOut_IsZerocoinMint o) then 0 else nValue o.
Definition CTxOut_eq (a b : CTxOut) : bool :=
  (nValue a =? nValue b) && bool_decide (scriptPubKey a = scriptPubKey b) && (nRounds a =? nRounds b).

#[export] Instance CTxOut_Serializer : Serializer CTxOut := {
  Serialize o := ser_writedata 8 (nValue o) ++ Serialize_blob (scriptPubKey o);
  Unserialize := fun s =>
    let* (v, s) := read_i64 s in
    let* (k, s) := Unserialize_blob s in
    Ret (mk_CTxOut v k (nRounds CTxOut_SetNull), s);
  GetSerializeSize o := 8 + GetSerializeSize_blob (scriptPubKey o);
  Serializable o := in_i64 (nValue o) /\ Z.of_nat (length (scriptPubKey o)) <= MAX_SIZE /\
    nRounds o = nRounds CTxOut_SetNull }.

Definition CTxOut_GetHash (o : CTxOut) : uint256 := SerializeHash o.

(** [nValue < 3*minRelayTxFee.GetFee(nSize)]; [None] is a signed overflow of the product. *)
Definition IsDust (o : CTxOut) (minRelayTxFee : CFeeRate) : option bool :=
  let nSize := GetSerializeSize o + 148 in
  let bound := 3 * GetFee minRelayTxFee nSize in
  if (- 2 ^ 63 <=? bound) && (bound <? 2 ^ 63) then Some (nValue o <? bound) else None.

(** ** Transactions *)

Record CMutableTransaction : Type := mk_CMutableTransaction {
  tx_nVersion : Z; tx_vin : list CTxIn; tx_vout : list CTxOut; tx_nLockTime : Z }.

Definition CURRENT_VERSION : Z := 1.
Definition CMutableTransaction_new : CMutableTransaction := mk_CMutableTransaction CURRENT_VERSION [] [] 0.

(** [5000000 / sizeof(T)], the growth of a vector that is read; the sizes are those of a
    64-bit ABI and, by [Unserialize_vec_spec], do not matter. *)
Definition step_CTxIn : Z := 5000000 / 112.
Definition step_CTxOut : Z := 5000000 / 48.

#[export] Instance CMutableTransaction_Serializer : Serializer CMutableTransaction := {
  Serialize tx := ser_writedata 4 (tx_nVersion tx) ++ Serialize_vec (tx_vin tx)
                  ++ Serialize_vec (tx_vout tx) ++ ser_writedata 4 (tx_nLockTime tx);
  Unserialize := fun s =>
    let* (v, s) := read_i32 s in
    let* (i, s) := Unserialize_vec step_CTxIn s in
    let* (o, s) := Unserialize_vec step_CTxOut s in
    let* (l, s) := ser_readdata 4 s in
    Ret (mk_CMutableTransaction v i o l, s);
  GetSerializeSize tx := 4 + GetSerializeSize_vec (tx_vin tx) + GetSerializeSize_vec (tx_vout tx) + 4;
  Serializable tx := in_i32 (tx_nVersion tx) /\ in_u32 (tx_nLockTime tx) /\
    Z.of_nat (length (tx_vin tx)) <= MAX_SIZE /\ Forall Serializable (tx_vin tx) /\
    Z.of_nat (length (tx_vout tx)) <= MAX_SIZE /\ Forall Serializable (tx_vout tx) }.

Definition CMutableTransaction_GetHash (tx : CMutableTransaction) : uint256 := SerializeHash tx.

(** [CTransaction]: the same data (the base) and the cached [hash]. *)
Record CTransaction : Type := mk_CTransaction { tx_hash : uint256; tx_data :> CMutableTransaction }.

Definition UpdateHash (tx : CMutableTransaction) : CTransaction := mk_CTransaction (SerializeHash tx) tx.
Definition CTransaction_new : CTransaction := mk_CTransaction (base_uint_zero 8) CMutableTransaction_new.
Definition CTransaction_of (tx : CMutableTransaction) : CTransaction := UpdateHash tx.

(** The hash is up to date. *)
Definition tx_ok (tx : CTransaction) : Prop := tx_hash tx = SerializeHash (tx_data tx).

#[export] Instance CTransaction_Serializer : Serializer CTransaction := {
  Serialize tx := Serialize (tx_data tx);
  Unserialize := fun s => let* (d, s) := Unserialize s in Ret (UpdateHash d, s);
  GetSerializeSize tx := GetSerializeSize (tx_data tx);
  Serializable tx := Serializable (tx_data tx) /\ tx_ok tx }.

(** ** Classification and sums *)

Definition CTransaction_IsNull (tx : CMutableTransaction) : bool :=
  (length (tx_vin tx) =? 0)%nat && (length (tx_vout tx) =? 0)%nat.
Definition HasZerocoinSpendInputs (tx : CMutableTransaction) : bool :=
  existsb CTxIn_IsZerocoinSpend (tx_vin tx).
Definition HasZerocoinMintOutputs (tx : CMutableTransaction) : bool :=
  existsb CTxOut_IsZerocoinMint (tx_vout tx).
Definition ContainsZerocoins (tx : CMutableTransaction) : bool :=
  HasZerocoinSpendInputs tx || HasZerocoinMintOutputs tx.

Definition IsCoinBase (tx : CMutableTransaction) : bool :=
  match tx_vin tx with
  | [i] => COutPoint_IsNull (prevout i) && negb (ContainsZerocoins tx)
  | _ => false
  end.

Definition IsCoinStake (tx : CMutableTransaction) : bool :=
  match tx_vin tx with
  | [] => false
  | i :: _ =>
      let fAllowNull := CTxIn_IsZerocoinSpend i in
      if COutPoint_IsNull (prevout i) && negb fAllowNull then false
      else (2 <=? length (tx_vout tx))%nat &&
           match tx_vout tx with o :: _ => CTxOut_IsEmpty o | [] => false end
  end.

(** [COutPoint::IsMasternodeReward]; [None] is a read outside [vout]. *)
Definition IsMasternodeReward (o : COutPoint) (tx : CMutableTransaction) : option bool :=
  if negb (IsCoinStake tx) then Some false else
  if negb (prev_n o =? Z.of_nat (length (tx_vout tx)) - 1) then Some false else
  o1 ← tx_vout tx !! 1%nat;
  on ← tx_vout tx !! Z.to_nat (prev_n o);
  Some (negb (bool_decide (scriptPubKey o1 = scriptPubKey on))).

(** The ways a sum of amounts fails: the exceptions of [GetValueOut], and a signed
    overflow, which is undefined. *)
Inductive value_error : Type := NegativeValue | ValueWraps | ValueOverflow.

(** [(nValueOut + it->nValue) < nValueOut] is evaluated first, on [int64_t]. *)
Fixpoint GetValueOut_loop (vout : list CTxOut) (nValueOut : CAmount) : result value_error CAmount :=
  match vout with
  | [] => Ret nValueOut
  | o :: vout =>
      if nValue o <? 0 then Err NegativeValue else
      if 2 ^ 63 <=? nValueOut + nValue o then Err ValueOverflow else
      if nValueOut + nValue o <? nValueOut then Err ValueWraps else
      GetValueOut_loop vout (nValueOut + nValue o)
  end.
Definition GetValueOut (tx : CMutableTransaction) : result value_error CAmount :=
  GetValueOut_loop (tx_vout tx) 0.

(** [nValueOut += ...] on [int64_t]; [None] is an overflow. *)
Definition add_amount (acc : option CAmount) (v : CAmount) : option CAmount :=
  a ← acc; if (- 2 ^ 63 <=? a + v) && (a + v <? 2 ^ 63) then Some (a + v) else None.

Definition GetZerocoinMinted (tx : CMutableTransaction) : option CAmount :=
  fold_left (fun acc o => add_amount acc (CTxOut_GetZerocoinMinted o)) (tx_vout tx) (Some 0).
Definition GetZerocoinSpent (tx : CMutableTransaction) : option CAmount :=
  fold_left (fun acc i => if negb (CTxIn_IsZerocoinSpend i) then acc
                          else add_amount acc (nSequence i * COIN)) (tx_vin tx) (Some 0).
Definition GetZerocoinMintCount (tx : CMutableTransaction) : Z :=
  fold_left (fun n o => if CTxOut_IsZerocoinMint o then n + 1 else n) (tx_vout tx) 0.

Definition UsesUTXO (tx : CMutableTransaction) (out : COutPoint) : bool :=
  existsb (fun i => COutPoint_eq (prevout i) out) (tx_vin tx).
Definition GetOutPoints (tx : CTransaction) : list COutPoint :=
  map (fun i => mk_COutPoint (tx_hash tx) (Z.of_nat i)) (seq 0 (length (tx_vout tx))).

(** The loop of [CalculateModifiedSize]: sizes are [unsigned int]. *)
Definition modified_size_step (nTxSize : Z) (i : CTxIn) : Z :=
  let offset := 41 + Z.min 110 (Z.of_nat (length (scriptSig i))) in
  if nTxSize >? offset then nTxSize - offset else nTxSize.
Definition CalculateModifiedSize (tx : CMutableTransaction) (nTxSize : Z) : Z :=
  let nTxSize := if nTxSize =? 0 then u32 (GetSerializeSize tx) else nTxSize in
  fold_left modified_size_step (tx_vin tx) nTxSize.

(** ** Serialization laws *)

#[export] Instance COutPoint_SerializerOk : SerializerOk COutPoint.
Proof.
  split; [constructor|].
  - intros [h n] rest [Wh Hn]. cbn [Serialize Unserialize COutPoint_Serializer prev_hash prev_n] in *.
    pose proof (uint_bytes_length h) as L. rewrite (proj1 Wh) in L.
    rewrite read_bytes_app by (rewrite length_app, L; unfold ser_writedata; by rewrite length_le_split).
    cbn [result_bind]. rewrite take_app_length', drop_app_length' by done.
    rewrite bytes_uint_bytes by done.
    unfold ser_writedata. by rewrite le_combine_split, Z.mod_small.
  - intros [h n] [Wh Hn]. cbn [Serialize GetSerializeSize COutPoint_Serializer prev_hash] in *.
    rewrite length_app, uint_bytes_length, (proj1 Wh). done.
  - intros s [h n] rest. cbn [Serialize Unserialize Serializable COutPoint_Serializer prev_hash prev_n].
    intros ((b & s') & E & [= <- <- <-])%result_bind_Ret. apply read_bytes_inv in E as [-> Hb].
    assert (L : length (take 32 b) = 32%nat) by (rewrite length_take; lia).
    assert (L4 : length (drop 32 b) = 4%nat) by (rewrite length_drop; lia).
    rewrite uint_bytes_uint by lia. unfold ser_writedata. rewrite <- L4 at 2.
    rewrite split_le_combine, take_drop. split; [done|]. split; [apply bytes_uint_wf; lia|].
    pose proof (le_combine_bound (drop 32 b)) as B. rewrite L4 in B. unfold in_u32. lia.
Qed.

#[export] Instance CTxIn_SerializerOk : SerializerOk CTxIn.
Proof.
  split; [constructor|].
  - intros [o sig n k] rest (Ho & Hs & Hn & Hk).
    cbn [Serialize Unserialize CTxIn_Serializer prevout scriptSig nSequence prevPubKey] in *. subst k.
    rewrite <- !app_assoc, Unserialize_Serialize by done. cbn [result_bind].
    rewrite Unserialize_blob_app by done. cbn [result_bind].
    by rewrite ser_readdata_app by done.
  - intros [o sig n k] (Ho & Hs & Hn & Hk).
    cbn [Serialize GetSerializeSize CTxIn_Serializer prevout scriptSig nSequence] in *.
    rewrite !length_app, !Nat2Z.inj_add, GetSerializeSize_Serialize, GetSerializeSize_blob_spec by done.
    unfold ser_writedata. rewrite length_le_split. lia.
  - intros s x rest. cbn [Unserialize CTxIn_Serializer].
    intros ((o & s1) & E1 & R1)%result_bind_Ret. apply Unserialize_inv in E1 as [-> Ho].
    apply result_bind_Ret in R1 as ((sig & s2) & E2 & R2). apply Unserialize_blob_inv in E2 as [-> Hs].
    apply result_bind_Ret in R2 as ((n & s3) & E3 & [= <- <-]). apply ser_readdata_inv in E3 as [-> Hn].
    cbn [Serialize Serializable CTxIn_Serializer prevout scriptSig nSequence prevPubKey].
    by rewrite <- !app_assoc.
Qed.

#[export] Instance CTxOut_SerializerOk : SerializerOk CTxOut.
Proof.
  split; [constructor|].
  - intros [v k r] rest (Hv & Hk & Hr).
    cbn [Serialize Unserialize CTxOut_Serializer nValue scriptPubKey nRounds] in *. subst r.
    rewrite <- !app_assoc, read_i64_app by done. cbn [result_bind].
    by rewrite Unserialize_blob_app by done.
  - intros [v k r] (Hv & Hk & Hr).
    cbn [Serialize GetSerializeSize CTxOut_Serializer nValue scriptPubKey] in *.
    rewrite length_app, Nat2Z.inj_add, GetSerializeSize_blob_spec by done.
    unfold ser_writedata. by rewrite length_le_split.
  - intros s x rest. cbn [Unserialize CTxOut_Serializer].
    intros ((v & s1) & E1 & R1)%result_bind_Ret. apply read_i64_inv in E1 as [-> Hv].
    apply result_bind_Ret in R1 as ((k & s2) & E2 & [= <- <-]). apply Unserialize_blob_inv in E2 as [-> Hk].
    cbn [Serialize Serializable CTxOut_Serializer nValue scriptPubKey nRounds].
    by rewrite <- !app_assoc.
Qed.

#[export] Instance CMutableTransaction_SerializerOk : SerializerOk CMutableTransaction.
Proof.
  split; [constructor|].
  - intros [v i o l] rest (Hv & Hl & Hi & Fi & Ho & Fo).
    cbn [Serialize Unserialize CMutableTransaction_Serializer tx_nVersion tx_vin tx_vout tx_nLockTime] in *.
    rewrite <- !app_assoc, read_i32_app by done. cbn [result_bind].
    rewrite Unserialize_vec_app by done. cbn [result_bind].
    rewrite Unserialize_vec_app by done. cbn [result_bind].
    by rewrite ser_readdata_app by done.
  - intros [v i o l] (Hv & Hl & Hi & Fi & Ho & Fo).
    cbn [Serialize GetSerializeSize CMutableTransaction_Serializer tx_nVersion tx_vin tx_vout tx_nLockTime] in *.
    rewrite !length_app, !Nat2Z.inj_add, !GetSerializeSize_vec_spec by done.
    unfold ser_writedata. rewrite !length_le_split. lia.
  - intros s x rest. cbn [Unserialize CMutableTransaction_Serializer].
    intros ((v & s1) & E1 & R1)%result_bind_Ret. apply read_i32_inv in E1 as [-> Hv].
    apply result_bind_Ret in R1 as ((i & s2) & E2 & R2). apply Unserialize_vec_inv in E2 as (-> & Hi & Fi); [|done].
    apply result_bind_Ret in R2 as ((o & s3) & E3 & R3). apply Unserialize_vec_inv in E3 as (-> & Ho & Fo); [|done].
    apply result_bind_Ret in R3 as ((l & s4) & E4 & [= <- <-]). apply ser_readdata_inv in E4 as [-> Hl].
    cbn [Serialize Serializable CMutableTransaction_Serializer tx_nVersion tx_vin tx_vout tx_nLockTime].
    by rewrite <- !app_assoc.
Qed.

#[export] Instance CTransaction_SerializerOk : SerializerOk CTransaction.
Proof.
  split; [constructor|].
  - intros [h d] rest [Hd Hh]. unfold tx_ok in Hh. cbn [tx_hash tx_data] in Hh. subst h.
    cbn [Serialize Unserialize CTransaction_Serializer tx_data].
    by rewrite Unserialize_Serialize by done.
  - intros [h d] [Hd Hh]. exact (GetSerializeSize_Serialize d Hd).
  - intros s x rest. cbn [Unserialize CTransaction_Serializer].
    intros ((d & s1) & E1 & [= <- <-])%result_bind_Ret. apply Unserialize_inv in E1 as [-> Hd].
    split; [done|]. by split.
Qed.

(** ** Theorems *)

(** C37: the transaction format is a bijection. The bytes from which a transaction is read
    are exactly the bytes it is written as, followed by what is left unread; reading
    succeeds on every transaction whose vectors and scripts are within [MAX_SIZE],
    restores it with its hash, and the size announced is the number of bytes written. *)
Theorem transaction_bijection (tx : CTransaction) (s rest : bytes) :
  (Unserialize s = Ret (tx, rest) <-> s = Serialize tx ++ rest /\ Serializable tx) /\
  (Serializable tx -> Z.of_nat (length (Serialize tx)) = GetSerializeSize tx).
Proof.
  split; [split|].
  - apply Unserialize_inv.
  - intros [-> H]. by apply Unserialize_Serialize.
  - apply GetSerializeSize_Serialize.
Qed.

Definition sum_values (vout : list CTxOut) : Z := fold_right (fun o n => nValue o + n) 0 vout.

Lemma sum_values_nonneg vout : Forall (fun o => 0 <= nValue o) vout -> 0 <= sum_values vout.
Proof. induction 1; simpl; lia. Qed.

Lemma GetValueOut_loop_spec vout acc v : 0 <= acc ->
  GetValueOut_loop vout acc = Ret v <->
  Forall (fun o => 0 <= nValue o) vout /\ v = acc + sum_values vout /\ (vout = [] \/ v < 2 ^ 63).
Proof.
  revert acc. induction vout as [|o vout IH]; intros acc Ha; cbn [GetValueOut_loop sum_values fold_right].
  - rewrite Z.add_0_r. split; [intros [= ->]; auto | by intros (_ & -> & _)].
  - change (fold_right _ 0 vout) with (sum_values vout). rewrite Forall_cons.
    destruct (Z.ltb_spec (nValue o) 0); [split; [done | intros ([] & _); lia]|].
    destruct (Z.leb_spec (2 ^ 63) (acc + nValue o)).
    { split; [done|]. intros ([_ F] & -> & [?|?]); [done|]. apply sum_values_nonneg in F. lia. }
    destruct (Z.ltb_spec (acc + nValue o) acc); [lia|]. rewrite IH by lia.
    rewrite Z.add_assoc. split.
    + intros (F & -> & [->|?]); (split; [auto|]; split; [done|]; right); cbn; lia.
    + intros ([_ F] & -> & [?|?]); auto. done.
Qed.

Lemma GetValueOut_loop_wraps vout acc : GetValueOut_loop vout acc <> Err ValueWraps.
Proof.
  revert acc. induction vout as [|o vout IH]; intros acc; cbn [GetValueOut_loop]; [done|].
  destruct (Z.ltb_spec (nValue o) 0); [done|]. destruct (2 ^ 63 <=? _); [done|].
  destruct (Z.ltb_spec (acc + nValue o) acc); [lia|apply IH].
Qed.

(** The total of the outputs. [GetValueOut] returns a value exactly when no output is
    negative and the total is below [2 ^ 63], and the value is then that total. Its test
    for a wrap of the boundary never fires on a defined execution: the sum it compares
    has already overflowed a signed integer. *)
Theorem GetValueOut_total (tx : CMutableTransaction) (v : Z) :
  (GetValueOut tx = Ret v <->
   Forall (fun o => 0 <= nValue o) (tx_vout tx) /\ v = sum_values (tx_vout tx) /\ v < 2 ^ 63) /\
  GetValueOut tx <> Err ValueWraps.
Proof.
  split; [|apply GetValueOut_loop_wraps]. unfold GetValueOut. rewrite GetValueOut_loop_spec by done.
  rewrite Z.add_0_l. split; intros (F & -> & H); (split; [done|]; split; [done|]).
  - destruct H as [->|]; [done|done].
  - by right.
Qed.

(** Coinbase, coinstake and zerocoin transactions. No transaction is both a coinbase
    and a coinstake; a coinbase neither spends nor mints zerocoins; an input that spends
    zerocoins names no output: its hash is null. *)
Theorem coinbase_coinstake_exclusive (tx : CMutableTransaction) :
  (IsCoinBase tx = true -> IsCoinStake tx = false /\ ContainsZerocoins tx = false) /\
  (forall i, CTxIn_IsZerocoinSpend i = true -> EqualTo (prev_hash (prevout i)) 0 = true).
Proof.
  split.
  - unfold IsCoinBase, IsCoinStake. destruct (tx_vin tx) as [|i [|]] eqn:E; try done.
    intros [Hn Hz]%andb_true_iff. apply negb_true_iff in Hz. split; [|done].
    unfold ContainsZerocoins, HasZerocoinSpendInputs in Hz. apply orb_false_iff in Hz as [Hz _].
    rewrite E in Hz. cbn [existsb] in Hz. apply orb_false_iff in Hz as [-> _]. by rewrite Hn.
  - intros i [H _]%andb_true_iff. exact H.
Qed.
