(* ===== verification/SigHash.v ===== *)
(** * Signature hashes ([script/interpreter.cpp], [test/sighash_tests.cpp])

    The serialization of a transaction under a hash type, which [SignatureHash] hashes,
    and the older [SignatureHashOld], kept in the tests, that edits a copy of the
    transaction instead.  They compute the same hash.  [TransactionSignatureChecker] is
    the implementation of the interpreter's [BaseSignatureChecker]. *)

From Stdlib Require Import ZArith Lia List Bool.
From stdpp Require Import base option list.
From coqutil Require Import Byte Word.LittleEndianList.
From S2P Require Import Prelude Uint256 Serialize MerkleDamgard Hash Script Interpreter PubKey Tx.

Open Scope Z_scope.
Open Scope btc_scope.

(** ** [SerializeScriptCode] *)

(** [while (scriptCode.GetOp(it, opcode)) if (opcode == OP_CODESEPARATOR) nCodeSeparators++;] *)
Fixpoint count_codeseparators (fuel : nat) (it : list byte) (nCodeSeparators : Z) : Z :=
  match fuel with
  | O => nCodeSeparators
  | S f =>
      let op := GetOp2 it in
      if op_ok op
      then count_codeseparators f (op_pc op)
             (if op_code op =? OP_CODESEPARATOR then nCodeSeparators + 1 else nCodeSeparators)
      else nCodeSeparators
  end.

(** The second loop: the bytes written, [itBegin] and [it] at its end. *)
Fixpoint write_code (fuel : nat) (it itBegin out : list byte) : list byte * list byte * list byte :=
  match fuel with
  | O => (out, itBegin, it)
  | S f =>
      let op := GetOp2 it in
      if op_ok op then
        if op_code op =? OP_CODESEPARATOR
        then write_code f (op_pc op) (op_pc op)
               (out ++ take (length itBegin - length (op_pc op) - 1) itBegin)
        else write_code f (op_pc op) itBegin out
      else (out, itBegin, op_pc op)
  end.

Definition SerializeScriptCode (scriptCode : CScript) : list byte :=
  let fuel := S (length scriptCode) in
  let nCodeSeparators := count_codeseparators fuel scriptCode 0 in
  let '(out, itBegin, it) := write_code fuel scriptCode scriptCode [] in
  WriteCompactSize (Z.of_nat (length scriptCode) - nCodeSeparators)
  ++ out ++ (if (length itBegin =? 0)%nat then [] else range itBegin it).

(** ** [CTransactionSignatureSerializer] *)

Section serializer.
Context (txTo : CMutableTransaction) (scriptCode : CScript) (nIn : nat) (nHashType : Z).

Definition fAnyoneCanPay : bool := negb (Z.land nHashType SIGHASH_ANYONECANPAY =? 0).
Definition fHashSingle : bool := Z.land nHashType 0x1f =? SIGHASH_SINGLE.
Definition fHashNone : bool := Z.land nHashType 0x1f =? SIGHASH_NONE.

(** [None] is a read outside [vin] or [vout]. *)
Definition SerializeInput (nInput : nat) : option (list byte) :=
  let nInput := if fAnyoneCanPay then nIn else nInput in
  txin ← tx_vin txTo !! nInput;
  Some (Serialize (prevout txin)
        ++ (if negb (nInput =? nIn)%nat then Serialize_blob [] else SerializeScriptCode scriptCode)
        ++ (if negb (nInput =? nIn)%nat && (fHashSingle || fHashNone)
            then ser_writedata 4 0 else ser_writedata 4 (nSequence txin))).

Definition SerializeOutput (nOutput : nat) : option (list byte) :=
  if fHashSingle && negb (nOutput =? nIn)%nat then Some (Serialize CTxOut_SetNull)
  else Serialize <$> tx_vout txTo !! nOutput.

Definition SerializeSigned : option (list byte) :=
  let nInputs := if fAnyoneCanPay then 1%nat else length (tx_vin txTo) in
  ins ← mapM SerializeInput (seq 0 nInputs);
  let nOutputs := if fHashNone then 0%nat
                  else if fHashSingle then (nIn + 1)%nat else length (tx_vout txTo) in
  outs ← mapM SerializeOutput (seq 0 nOutputs);
  Some (ser_writedata 4 (tx_nVersion txTo)
        ++ WriteCompactSize (Z.of_nat nInputs) ++ concat ins
        ++ WriteCompactSize (Z.of_nat nOutputs) ++ concat outs
        ++ ser_writedata 4 (tx_nLockTime txTo)).

(** The constant [1] returned for an index out of range. *)
Definition uint256_one : uint256 := base_uint_u64 8 1.

Definition SignatureHash : option uint256 :=
  if (length (tx_vin txTo) <=? nIn)%nat then Some uint256_one else
  if fHashSingle && (length (tx_vout txTo) <=? nIn)%nat then Some uint256_one else
  b ← SerializeSigned;
  Some (CHashWriter_GetHash [b; ser_writedata 4 nHashType]).

(** ** [SignatureHashOld] *)

Definition set_scriptSig (i : CTxIn) (s : CScript) : CTxIn :=
  mk_CTxIn (prevout i) s (nSequence i) (prevPubKey i).
Definition set_nSequence (i : CTxIn) (n : Z) : CTxIn :=
  mk_CTxIn (prevout i) (scriptSig i) n (prevPubKey i).

(** [for (i = 0; i < vin.size(); i++) if (i != nIn) vin[i].nSequence = 0;] *)
Definition update_others (vin : list CTxIn) : list CTxIn :=
  imap (fun i x => if negb (i =? nIn)%nat then set_nSequence x 0 else x) vin.

Definition SignatureHashOld : option uint256 :=
  if (length (tx_vin txTo) <=? nIn)%nat then Some uint256_one else
  let scriptCode := (FindAndDelete scriptCode [byte.of_Z OP_CODESEPARATOR]).1 in
  let vin := map (fun x => set_scriptSig x []) (tx_vin txTo) in
  vin_nIn ← vin !! nIn;
  let vin := <[nIn := set_scriptSig vin_nIn scriptCode]> vin in
  if fHashSingle && (length (tx_vout txTo) <=? nIn)%nat then Some uint256_one else
  let '(vin, vout) :=
    if fHashNone then (update_others vin, [])
    else if fHashSingle then
      (update_others vin,
       imap (fun i o => if (i <? nIn)%nat then CTxOut_SetNull else o) (take (nIn + 1) (tx_vout txTo)))
    else (vin, tx_vout txTo) in
  vin ← (if fAnyoneCanPay then x ← vin !! nIn; Some [x] else Some vin);
  let txTmp := mk_CMutableTransaction (tx_nVersion txTo) vin vout (tx_nLockTime txTo) in
  Some (CHashWriter_GetHash [Serialize txTmp; ser_writedata 4 nHashType]).
End serializer.

(** ** [TransactionSignatureChecker] *)

(** [CPubKey::Verify] calls the ECDSA library; [buf] is the uninitialised storage of the
    local [CPubKey]. *)
Section checker.
Context (Verify : CPubKey -> uint256 -> list byte -> bool) (buf : list byte).
Context (txTo : CMutableTransaction) (nIn : nat).

(** [TransactionSignatureChecker::CheckSig] *)
Definition CheckSig_tx (vchSigIn vchPubKey : list byte) (scriptCode : CScript) : option bool :=
  let pubkey := CPubKey_of buf vchPubKey in
  if negb (pk_IsValid pubkey) then Some false else
  if (length vchSigIn =? 0)%nat then Some false else
  let nHashType := back vchSigIn in
  let vchSig := removelast vchSigIn in
  sighash ← SignatureHash txTo scriptCode nIn nHashType;
  Some (Verify pubkey sighash vchSig).

Definition TransactionSignatureChecker : BaseSignatureChecker :=
  {| CheckSig := fun sig key code => default false (CheckSig_tx sig key code) |}.
End checker.

(** ** The two hashes agree *)

(** The bytes of a decodable script that are not [OP_CODESEPARATOR] instructions, and how
    many of those there are. *)
Fixpoint strip (fuel : nat) (s : list byte) : option (list byte * nat) :=
  match s, fuel with
  | [], _ => Some ([], 0%nat)
  | _, O => None
  | _, S f =>
      let op := GetOp2 s in
      if op_ok op then
        '(r, n) ← strip f (op_pc op);
        Some (if op_code op =? OP_CODESEPARATOR then (r, S n) else (range s (op_pc op) ++ r, n))
      else None
  end.

(** Every instruction of the script decodes. *)
Definition decodable (s : list byte) : Prop := is_Some (strip (length s) s).

Lemma GetOp2_codeseparator s : GetOp2 (byte.of_Z OP_CODESEPARATOR :: s) = mk_op true s OP_CODESEPARATOR [].
Proof. reflexivity. Qed.

Lemma codeseparator_head s : op_ok (GetOp2 s) = true -> op_code (GetOp2 s) = OP_CODESEPARATOR ->
  exists t, s = byte.of_Z OP_CODESEPARATOR :: t.
Proof.
  unfold GetOp2. destruct s as [|b t]; [done|].
  destruct (Z.leb_spec (byte.unsigned b) OP_PUSHDATA4).
  - destruct (GetOp_size _ t) as [[n|] p]; [|done]. destruct (_ <? n); [done|].
    cbn [op_ok op_code]. intros _ E. rewrite E in *. unfold OP_CODESEPARATOR, OP_PUSHDATA4 in *. lia.
  - intros _ E. exists t. cbn [op_code] in E. f_equal. rewrite <- E. by rewrite byte.of_Z_unsigned.
Qed.

Lemma FindAndDelete_ref_found f s :
  FindAndDelete_ref (S f) [byte.of_Z OP_CODESEPARATOR] (byte.of_Z OP_CODESEPARATOR :: s) =
  ((FindAndDelete_ref (S f) [byte.of_Z OP_CODESEPARATOR] s).1,
   1 + (FindAndDelete_ref (S f) [byte.of_Z OP_CODESEPARATOR] s).2).
Proof.
  set (b := [byte.of_Z OP_CODESEPARATOR]). cbn [FindAndDelete_ref].
  change (FindAndDelete_skip (length (byte.of_Z OP_CODESEPARATOR :: s)) b (byte.of_Z OP_CODESEPARATOR :: s) 0)
    with (FindAndDelete_skip (length s) b s 1).
  rewrite FindAndDelete_skip_add.
  destruct (FindAndDelete_skip (length s) b s 0) as [s' m]. cbn [fst snd].
  destruct (op_ok (GetOp2 s')); [|done].
  destruct (FindAndDelete_ref f b (op_pc (GetOp2 s'))) as [r k]. cbn [fst snd]. f_equal. lia.
Qed.

Lemma FindAndDelete_ref_kept f s : s <> [] -> op_ok (GetOp2 s) = true ->
  op_code (GetOp2 s) <> OP_CODESEPARATOR ->
  FindAndDelete_ref (S f) [byte.of_Z OP_CODESEPARATOR] s =
  (range s (op_pc (GetOp2 s)) ++ (FindAndDelete_ref f [byte.of_Z OP_CODESEPARATOR] (op_pc (GetOp2 s))).1,
   (FindAndDelete_ref f [byte.of_Z OP_CODESEPARATOR] (op_pc (GetOp2 s))).2).
Proof.
  intros Hs Ok Hc. cbn [FindAndDelete_ref].
  assert (E : FindAndDelete_skip (length s) [byte.of_Z OP_CODESEPARATOR] s 0 = (s, 0)).
  { destruct s as [|c t]; [done|]. cbn [length FindAndDelete_skip].
    destruct (is_prefix [byte.of_Z OP_CODESEPARATOR] (c :: t)) eqn:P; [|by rewrite andb_false_r].
    apply is_prefix_spec in P as [u Hu]. cbn [app] in Hu. injection Hu as Hc' _. by rewrite Hc' in Hc. }
  rewrite E, Ok. by destruct (FindAndDelete_ref f _ _).
Qed.

(** On a decodable script, the deletion strips the [OP_CODESEPARATOR] instructions. *)
Lemma FindAndDelete_strip f f' s r n : (length s < f')%nat -> strip f s = Some (r, n) ->
  FindAndDelete_ref f' [byte.of_Z OP_CODESEPARATOR] s = (r, Z.of_nat n).
Proof.
  revert f' s r n. induction f as [|f IH]; intros f' s r n Hf H.
  - destruct s; [|done]. cbn [mbind option_bind] in H. injection H as <- <-. by destruct f'.
  - destruct s as [|c t]; [cbn in H; injection H as <- <-; by destruct f'|].
    destruct f' as [|f']; [lia|]. cbn [strip] in H.
    destruct (op_ok (GetOp2 (c :: t))) eqn:Ok; [|done].
    pose proof (GetOp2_length (c :: t) ltac:(done)) as L.
    destruct (strip f (op_pc (GetOp2 (c :: t)))) as [[r' n']|] eqn:E; [|done]. cbn [mbind option_bind] in H.
    destruct (Z.eqb_spec (op_code (GetOp2 (c :: t))) OP_CODESEPARATOR) as [Ec|Ec];
      injection H as <- <-.
    + destruct (codeseparator_head _ Ok Ec) as [t' Et]. injection Et as -> ->.
      rewrite GetOp2_codeseparator in E, L. cbn [op_pc length] in E, L.
      rewrite FindAndDelete_ref_found, (IH (S f') t' r' n') by (done || cbn [length] in Hf; lia).
      cbn [fst snd]. f_equal. lia.
    + rewrite FindAndDelete_ref_kept by done.
      by rewrite (IH f' _ r' n') by (done || cbn [length] in Hf, L; lia).
Qed.

Lemma Some_pair_inj {A B} (a a' : A) (b b' : B) : Some (a, b) = Some (a', b') -> a = a' /\ b = b'.
Proof. intros H. by simplify_eq. Qed.

Lemma count_codeseparators_strip f f' s k r n : (length s < f')%nat -> strip f s = Some (r, n) ->
  count_codeseparators f' s k = k + Z.of_nat n /\ (length r + n = length s)%nat.
Proof.
  revert f' s k r n. induction f as [|f IH]; intros f' s k r n Hf H;
    (destruct f' as [|f']; [lia|]).
  - destruct s; [|done]. injection H as <- <-. cbn. lia.
  - destruct s as [|c t]; [injection H as <- <-; cbn; lia|]. cbn [strip count_codeseparators] in *.
    destruct (op_ok (GetOp2 (c :: t))) eqn:Ok; [|done].
    pose proof (GetOp2_length (c :: t) ltac:(done)) as L. destruct (GetOp2_suffix (c :: t)) as (u & Eu & _).
    destruct (strip f (op_pc (GetOp2 (c :: t)))) as [[r' n']|] eqn:E; [|done]. cbn [mbind option_bind] in H.
    assert (Hf' : (length (op_pc (GetOp2 (c :: t))) < f')%nat) by (cbn [length] in *; lia).
    destruct (Z.eqb_spec (op_code (GetOp2 (c :: t))) OP_CODESEPARATOR) as [Ec|Ec]; apply Some_pair_inj in H as [<- <-].
    + destruct (IH f' _ (k + 1) r' n' Hf' E) as [-> Lr]. split; [lia|].
      destruct (codeseparator_head _ Ok Ec) as [t' Et]. injection Et as -> ->.
      rewrite GetOp2_codeseparator in Lr. cbn [op_pc length] in *. lia.
    + destruct (IH f' _ k r' n' Hf' E) as [-> Lr]. split; [done|].
      rewrite (range_eq _ _ _ Eu), length_app. apply (f_equal length) in Eu. rewrite length_app in Eu. lia.
Qed.

Lemma write_code_strip f f' s pending out r n : (length s < f')%nat -> strip f s = Some (r, n) ->
  exists o b, write_code f' s (pending ++ s) out = (o, b, []) /\
    o ++ (if (length b =? 0)%nat then [] else range b []) = out ++ pending ++ r.
Proof.
  revert f' s pending out r n. induction f as [|f IH]; intros f' s pending out r n Hf H;
    (destruct f' as [|f']; [lia|]).
  1: destruct s; [|done]. 2: destruct s as [|c t].
  1, 2: cbn [strip] in H; apply Some_pair_inj in H as [<- <-]; rewrite !app_nil_r;
    exists out, pending; split; [done|]; f_equal;
    destruct pending as [|x pending]; [done|]; apply range_eq; by rewrite app_nil_r.
  cbn [strip write_code] in *. destruct (op_ok (GetOp2 (c :: t))) eqn:Ok; [|done].
  pose proof (GetOp2_length (c :: t) ltac:(done)) as L. destruct (GetOp2_suffix (c :: t)) as (u & Eu & _).
  destruct (strip f (op_pc (GetOp2 (c :: t)))) as [[r' n']|] eqn:E; [|done]. cbn [mbind option_bind] in H. cbn [length] in Hf, L.
  destruct (Z.eqb_spec (op_code (GetOp2 (c :: t))) OP_CODESEPARATOR) as [Ec|Ec]; apply Some_pair_inj in H as [<- <-].
  - destruct (codeseparator_head _ Ok Ec) as [t' Et]. injection Et as -> ->.
    rewrite GetOp2_codeseparator in *. cbn [op_pc] in *.
    replace (take _ _) with pending.
    + destruct (IH f' t' [] (out ++ pending) r' n' ltac:(lia) E) as (o & b & W & Ho).
      exists o, b. split; [exact W|]. by rewrite Ho, <- app_assoc.
    + rewrite length_app. cbn [length].
      replace (length pending + S (length t') - length t' - 1)%nat with (length pending) by lia.
      symmetry. apply take_app_length.
  - destruct (IH f' (op_pc (GetOp2 (c :: t))) (pending ++ u) out r' n' ltac:(lia) E) as (o & b & W & Ho).
    exists o, b. rewrite <- app_assoc, <- Eu in W. split; [exact W|].
    by rewrite Ho, (range_eq _ _ _ Eu), <- !app_assoc.
Qed.

(** The serialized script code is the script without its code separators. *)
Lemma SerializeScriptCode_spec s : decodable s ->
  SerializeScriptCode s = Serialize_blob (FindAndDelete s [byte.of_Z OP_CODESEPARATOR]).1.
Proof.
  intros [[r n] H]. unfold SerializeScriptCode, Serialize_blob.
  rewrite FindAndDelete_ref_spec, (FindAndDelete_strip _ _ _ _ _ (Nat.lt_succ_diag_r _) H) by done.
  destruct (count_codeseparators_strip _ _ _ 0 _ _ (Nat.lt_succ_diag_r _) H) as [-> L].
  destruct (write_code_strip _ _ _ [] [] _ _ (Nat.lt_succ_diag_r _) H) as (o & b & W & Ho).
  change ([] ++ s) with s in W. rewrite W. cbn [fst app] in *. rewrite Ho.
  f_equal. f_equal. lia.
Qed.

(** ** The serialized transaction is the edited one *)

Lemma mapM_seq_lookup {A B} (f : nat -> option B) (g : A -> B) (l : list A) k :
  (forall i x, l !! i = Some x -> f (k + i)%nat = Some (g x)) ->
  mapM f (seq k (length l)) = Some (map g l).
Proof.
  revert k. induction l as [|x l IH]; intros k H; [done|]. cbn [length seq map].
  assert (E : f k = Some (g x)) by (specialize (H 0%nat x eq_refl); by rewrite Nat.add_0_r in H).
  cbn [mapM]. rewrite E. cbn [mbind option_bind].
  rewrite IH; [done|]. intros i y Hy. rewrite <- (H (S i) y Hy). f_equal. lia.
Qed.

(** The inputs and the outputs of the edited copy. *)
Definition old_vin (tx : CMutableTransaction) (code : list byte) (nIn : nat) (ht : Z) : list CTxIn :=
  imap (fun i x => mk_CTxIn (prevout x) (if (i =? nIn)%nat then code else [])
                     (if negb (i =? nIn)%nat && (fHashSingle ht || fHashNone ht) then 0 else nSequence x)
                     (prevPubKey x)) (tx_vin tx).

Definition old_vout (tx : CMutableTransaction) (nIn : nat) (ht : Z) : list CTxOut :=
  if fHashNone ht then []
  else if fHashSingle ht
  then imap (fun i o => if (i <? nIn)%nat then CTxOut_SetNull else o) (take (nIn + 1) (tx_vout tx))
  else tx_vout tx.

Lemma old_vin_edit tx code nIn ht v : tx_vin tx !! nIn = Some v ->
  (let vin := <[nIn := set_scriptSig (set_scriptSig v []) code]> (map (fun x => set_scriptSig x []) (tx_vin tx)) in
   if fHashNone ht then update_others nIn vin else if fHashSingle ht then update_others nIn vin else vin) =
  old_vin tx code nIn ht.
Proof.
  intros Hv. cbv zeta. pose proof (lookup_lt_Some _ _ _ Hv) as L. unfold old_vin, update_others.
  apply list_eq. intros i. destruct (fHashNone ht), (fHashSingle ht); cbn [orb];
    rewrite ?list_lookup_imap; cbn [andb];
    (destruct (Nat.eqb_spec i nIn) as [->|Ne];
     [rewrite list_lookup_insert_eq by (by rewrite length_map); rewrite Hv; reflexivity
     |rewrite list_lookup_insert_ne by done; change (map ?f ?l) with (f <$> l);
      rewrite list_lookup_fmap; destruct (tx_vin tx !! i) as [[]|]; reflexivity]).
Qed.

(** One input as the serializer writes it. *)
Lemma SerializeInput_old tx code nIn ht i v : decodable code ->
  tx_vin tx !! i = Some v -> fAnyoneCanPay ht = false ->
  exists w, old_vin tx (FindAndDelete code [byte.of_Z OP_CODESEPARATOR]).1 nIn ht !! i = Some w /\
    SerializeInput tx code nIn ht i = Some (Serialize w).
Proof.
  intros Hd Hv HA. unfold old_vin, SerializeInput. rewrite list_lookup_imap, HA, Hv.
  eexists; split; [reflexivity|]. cbn [mbind option_bind Serialize CTxIn_Serializer prevout scriptSig nSequence].
  rewrite SerializeScriptCode_spec by done. f_equal. f_equal.
  destruct (Nat.eqb_spec i nIn); cbn [negb andb]; [done|]. by destruct (_ || _).
Qed.

Lemma SerializeInput_anyone tx code nIn ht i : fAnyoneCanPay ht = true ->
  SerializeInput tx code nIn ht i = SerializeInput tx code nIn ht nIn.
Proof. intros HA. unfold SerializeInput. by rewrite HA. Qed.

Lemma SerializeInput_nIn tx code nIn ht v : decodable code -> tx_vin tx !! nIn = Some v ->
  exists w, old_vin tx (FindAndDelete code [byte.of_Z OP_CODESEPARATOR]).1 nIn ht !! nIn = Some w /\
    SerializeInput tx code nIn ht nIn = Some (Serialize w).
Proof.
  intros Hd Hv. unfold old_vin, SerializeInput. rewrite list_lookup_imap.
  replace (if fAnyoneCanPay ht then nIn else nIn) with nIn by (by destruct (fAnyoneCanPay ht)).
  rewrite Hv, Nat.eqb_refl. eexists; split; [reflexivity|].
  cbn [mbind option_bind Serialize CTxIn_Serializer prevout scriptSig nSequence negb andb].
  by rewrite SerializeScriptCode_spec.
Qed.

(** The outputs. *)
Lemma old_vout_length tx nIn ht : (nIn < length (tx_vout tx))%nat \/ fHashSingle ht = false ->
  length (old_vout tx nIn ht) =
  (if fHashNone ht then 0 else if fHashSingle ht then nIn + 1 else length (tx_vout tx))%nat.
Proof.
  intros H. unfold old_vout. destruct (fHashNone ht); [done|]. destruct (fHashSingle ht); [|done].
  rewrite length_imap, length_take. destruct H; [lia|done].
Qed.

Lemma SerializeOutput_old tx nIn ht i o : old_vout tx nIn ht !! i = Some o ->
  SerializeOutput tx nIn ht i = Some (Serialize o).
Proof.
  unfold old_vout, SerializeOutput. destruct (fHashNone ht); [by rewrite lookup_nil|].
  destruct (fHashSingle ht); cbn [andb]; [|by intros ->].
  rewrite list_lookup_imap. intros H. destruct (take (nIn + 1) (tx_vout tx) !! i) as [o'|] eqn:E; [|done].
  cbn [fmap option_fmap option_map] in H. apply lookup_take_Some in E as [E Hi].
  destruct (Nat.ltb_spec i nIn); injection H as <-.
  - by rewrite (proj2 (Nat.eqb_neq i nIn)) by lia.
  - rewrite (proj2 (Nat.eqb_eq i nIn)) by lia. cbn [negb]. by rewrite E.
Qed.

(** The whole serialization. *)
Lemma SerializeSigned_old tx code nIn ht v : decodable code ->
  tx_vin tx !! nIn = Some v -> (nIn < length (tx_vout tx))%nat \/ fHashSingle ht = false ->
  exists w, old_vin tx (FindAndDelete code [byte.of_Z OP_CODESEPARATOR]).1 nIn ht !! nIn = Some w /\
  SerializeSigned tx code nIn ht =
  Some (Serialize (mk_CMutableTransaction (tx_nVersion tx)
    (if fAnyoneCanPay ht then [w] else old_vin tx (FindAndDelete code [byte.of_Z OP_CODESEPARATOR]).1 nIn ht)
    (old_vout tx nIn ht) (tx_nLockTime tx))).
Proof.
  intros Hd Hv Ho. destruct (SerializeInput_nIn tx code nIn ht v Hd Hv) as (w & Hw & Sw).
  exists w; split; [done|]. unfold SerializeSigned.
  rewrite <- (old_vout_length tx nIn ht Ho).
  rewrite (mapM_seq_lookup (SerializeOutput tx nIn ht) Serialize) by (intros; by apply SerializeOutput_old).
  set (V := old_vin _ _ _ _) in *.
  destruct (fAnyoneCanPay ht) eqn:HA.
  - cbn [seq mapM]. rewrite (SerializeInput_anyone tx code nIn ht 0 HA), Sw.
    cbn [mret option_ret mbind option_bind concat]. f_equal.
    cbn [Serialize CMutableTransaction_Serializer tx_nVersion tx_vin tx_vout tx_nLockTime].
    unfold Serialize_vec. cbn [length]. rewrite <- !flat_map_concat_map. cbn [flat_map]. by rewrite <- !app_assoc.
  - assert (LV : length (tx_vin tx) = length V) by (unfold V, old_vin; by rewrite length_imap).
    rewrite LV, (mapM_seq_lookup (SerializeInput tx code nIn ht) Serialize).
    + cbn [mbind option_bind]. f_equal.
      cbn [Serialize CMutableTransaction_Serializer tx_nVersion tx_vin tx_vout tx_nLockTime].
      unfold Serialize_vec. rewrite <- !flat_map_concat_map. by rewrite <- !app_assoc.
    + intros i x Hx. change (0 + i)%nat with i. destruct (lookup_lt_is_Some_2 (tx_vin tx) i) as [y Hy].
      { rewrite LV. by apply lookup_lt_Some in Hx. }
      destruct (SerializeInput_old tx code nIn ht i y Hd Hy HA) as (w' & Hw' & ->).
      fold V in Hw'. congruence.
Qed.

(** C24: the hash the interpreter computes, by serializing the transaction in place,
    is the hash of the edited copy that the original code made, for every transaction,
    input index and hash type and every script whose instructions decode; both are
    defined, that is, neither reads outside the inputs or the outputs. *)
Theorem SignatureHash_old tx code nIn ht : decodable code ->
  exists h, SignatureHash tx code nIn ht = Some h /\ SignatureHashOld tx code nIn ht = Some h.
Proof.
  intros Hd. unfold SignatureHash, SignatureHashOld.
  destruct (Nat.leb_spec (length (tx_vin tx)) nIn) as [|Hin]; [by eexists|].
  destruct (lookup_lt_is_Some_2 _ _ Hin) as [v Hv].
  change (map ?f ?l) with (f <$> l). rewrite list_lookup_fmap, Hv. cbn [fmap option_fmap option_map mbind option_bind].
  destruct (fHashSingle ht && (length (tx_vout tx) <=? nIn)%nat) eqn:HS; [by eexists|].
  assert (Ho : (nIn < length (tx_vout tx))%nat \/ fHashSingle ht = false).
  { destruct (fHashSingle ht); [left|by right]. by apply Nat.leb_gt in HS. }
  destruct (SerializeSigned_old tx code nIn ht v Hd Hv Ho) as (w & Hw & E). rewrite E. cbn [mbind option_bind].
  pose proof (old_vin_edit tx (FindAndDelete code [byte.of_Z OP_CODESEPARATOR]).1 nIn ht v Hv) as EV.
  change (map ?f ?l) with (f <$> l) in EV. cbv zeta in EV. revert E Hw EV. unfold old_vout.
  generalize (old_vin tx (FindAndDelete code [byte.of_Z OP_CODESEPARATOR]).1 nIn ht). intros V _ Hw EV.
  eexists; split; [reflexivity|].
  destruct (fHashNone ht), (fHashSingle ht); rewrite EV;
    destruct (fAnyoneCanPay ht); rewrite ?Hw; reflexivity.
Qed.

(** ** Witnesses *)

Definition sample_tx : CMutableTransaction :=
  mk_CMutableTransaction 1 [CTxIn_new; CTxIn_new] [CTxOut_make 5 [byte.of_Z OP_TRUE]] 0.

Lemma SignatureHash_old_witness :
  decodable [byte.of_Z OP_TRUE; byte.of_Z OP_CODESEPARATOR; byte.of_Z OP_CHECKSIG] /\
  exists h, SignatureHash sample_tx [byte.of_Z OP_TRUE; byte.of_Z OP_CODESEPARATOR; byte.of_Z OP_CHECKSIG] 0 SIGHASH_SINGLE = Some h /\
            SignatureHashOld sample_tx [byte.of_Z OP_TRUE; byte.of_Z OP_CODESEPARATOR; byte.of_Z OP_CHECKSIG] 0 SIGHASH_SINGLE = Some h.
Proof.
  assert (D : decodable [byte.of_Z OP_TRUE; byte.of_Z OP_CODESEPARATOR; byte.of_Z OP_CHECKSIG])
    by (vm_compute; by eexists).
  split; [exact D|]. exact (SignatureHash_old sample_tx _ 0%nat SIGHASH_SINGLE D).
Defined.
