(* ===== verification/Compressor.v ===== *)
(** * Compressed scripts and amounts ([compressor.h], [compressor.cpp])

    The format of the outputs of the coin database and of the undo files: payments to a
    key hash, a script hash or a public key take 21 or 33 bytes, other scripts their
    length plus 6 as a VarInt, and amounts drop their trailing zeros. *)

From Stdlib Require Import ZArith Lia List Bool.
From stdpp Require Import base option list.
From coqutil Require Import Byte Word.LittleEndianList.
From S2P Require Import Prelude Uint256 Serialize MerkleDamgard Hash Script PubKey Tx.

Open Scope Z_scope.
Open Scope btc_scope.

(** [VARINT(n)] of a [w]-bit integer; [WriteVarInt] does not fail ([WriteVarInt_spec]). *)
Definition VARINT (w : nat) (n : Z) : bytes := default [] (WriteVarInt w n).

(** ** [CPubKey::IsFullyValid], [CPubKey::Decompress] *)

(** [ec_uncompressed key] is the uncompressed encoding of the point [key] encodes, if it
    does: [o2i_ECPublicKey] and [i2o_ECPublicKey] of the cryptographic library. *)
Section compressor.
Context (ec_uncompressed : list byte -> option (list byte)).

Definition IsFullyValid (k : CPubKey) : bool :=
  pk_IsValid k && bool_decide (is_Some (ec_uncompressed (pk_bytes k))).

Definition pk_Decompress (k : CPubKey) : option CPubKey :=
  if negb (pk_IsValid k) then None else Set_ k <$> ec_uncompressed (pk_bytes k).

(** ** [CScriptCompressor] *)

Definition nSpecialScripts : Z := 6.

(** The hash is copied as 20 bytes. *)
Definition IsToKeyID (script : CScript) : option (list byte) :=
  if (Z.of_nat (length script) =? 25) && (byte_at script 0 =? OP_DUP) && (byte_at script 1 =? OP_HASH160)
     && (byte_at script 2 =? 20) && (byte_at script 23 =? OP_EQUALVERIFY) && (byte_at script 24 =? OP_CHECKSIG)
  then Some (take 20 (drop 3 script)) else None.

Definition IsToScriptID (script : CScript) : option (list byte) :=
  if (Z.of_nat (length script) =? 23) && (byte_at script 0 =? OP_HASH160) && (byte_at script 1 =? 20)
     && (byte_at script 22 =? OP_EQUAL)
  then Some (take 20 (drop 2 script)) else None.

(** [buf] is the storage of the local [CPubKey]. *)
Definition IsToPubKey (buf : list byte) (script : CScript) : option CPubKey :=
  if (Z.of_nat (length script) =? 35) && (byte_at script 0 =? 33) && (byte_at script 34 =? OP_CHECKSIG)
     && ((byte_at script 1 =? 2) || (byte_at script 1 =? 3))
  then Some (Set_ (CPubKey_new buf) (take 33 (drop 1 script)))
  else if (Z.of_nat (length script) =? 67) && (byte_at script 0 =? 65) && (byte_at script 66 =? OP_CHECKSIG)
     && (byte_at script 1 =? 4)
  then let pubkey := Set_ (CPubKey_new buf) (take 65 (drop 1 script)) in
       if IsFullyValid pubkey then Some pubkey else None
  else None.

Definition Compress (buf : list byte) (script : CScript) : option bytes :=
  match IsToKeyID script with
  | Some keyID => Some (Byte.x00 :: keyID)
  | None =>
  match IsToScriptID script with
  | Some scriptID => Some (Byte.x01 :: scriptID)
  | None =>
  match IsToPubKey buf script with
  | Some pubkey =>
      let pk i := nth i (pk_vch pubkey) Byte.x00 in
      let out := take 32 (drop 1 (pk_vch pubkey)) in
      if (byte.unsigned (pk 0%nat) =? 2) || (byte.unsigned (pk 0%nat) =? 3) then Some (pk 0%nat :: out)
      else if byte.unsigned (pk 0%nat) =? 4
      then Some (byte.of_Z (Z.lor 4 (Z.land (byte.unsigned (pk 64%nat)) 1)) :: out)
      else None
  | None => None
  end end end.

Definition GetSpecialSize (nSize : Z) : nat :=
  if (nSize =? 0) || (nSize =? 1) then 20%nat
  else if (nSize =? 2) || (nSize =? 3) || (nSize =? 4) || (nSize =? 5) then 32%nat
  else 0%nat.

(** [None] is [false]: the script is not changed. *)
Definition Decompress (buf : list byte) (nSize : Z) (input : bytes) : option CScript :=
  if nSize =? 0 then
    Some ([byte.of_Z OP_DUP; byte.of_Z OP_HASH160; byte.of_Z 20] ++ take 20 input
          ++ [byte.of_Z OP_EQUALVERIFY; byte.of_Z OP_CHECKSIG])
  else if nSize =? 1 then
    Some ([byte.of_Z OP_HASH160; byte.of_Z 20] ++ take 20 input ++ [byte.of_Z OP_EQUAL])
  else if (nSize =? 2) || (nSize =? 3) then
    Some ([byte.of_Z 33; byte.of_Z nSize] ++ take 32 input ++ [byte.of_Z OP_CHECKSIG])
  else if (nSize =? 4) || (nSize =? 5) then
    pubkey ← pk_Decompress (CPubKey_of buf (byte.of_Z (nSize - 2) :: take 32 input));
    Some ([byte.of_Z 65] ++ take 65 (pk_vch pubkey) ++ [byte.of_Z OP_CHECKSIG])
  else None.

Definition script_GetSerializeSize (buf : list byte) (script : CScript) : Z :=
  match Compress buf script with
  | Some compr => Z.of_nat (length compr)
  | None =>
      let nSize := u32 (Z.of_nat (length script) + nSpecialScripts) in
      Z.of_nat (length script) + default 0 (GetSizeOfVarInt 32 nSize)
  end.

Definition script_Serialize (buf : list byte) (script : CScript) : bytes :=
  match Compress buf script with
  | Some compr => compr
  | None => VARINT 32 (u32 (Z.of_nat (length script) + nSpecialScripts)) ++ script
  end.

(** Reads into [script]. *)
Definition script_Unserialize (buf : list byte) (script : CScript) : reader CScript := fun s =>
  let* (nSize, s) := ReadVarInt u32 s in
  if nSize <? nSpecialScripts then
    let* (vch, s) := read_bytes (GetSpecialSize nSize) s in
    Ret (default script (Decompress buf nSize vch), s)
  else
    let nSize := nSize - nSpecialScripts in
    if nSize >? MAX_SCRIPT_SIZE then
      let* (_, s) := stream_ignore nSize s in Ret (script ++ [byte.of_Z OP_RETURN], s)
    else read_bytes (Z.to_nat nSize) s.
End compressor.

(** ** [CTxOutCompressor] *)

(** [while (((n % 10) == 0) && e < 9) { n /= 10; e++; }]; [fuel] counts the turns left
    before [e] is 9. *)
Fixpoint drop_zeros (fuel : nat) (n e : Z) : Z * Z :=
  match fuel with
  | O => (n, e)
  | S f => if (n mod 10 =? 0) && (e <? 9) then drop_zeros f (n / 10) (e + 1) else (n, e)
  end.

Definition CompressAmount (n : Z) : Z :=
  if n =? 0 then 0 else
  let '(n, e) := drop_zeros 9 n 0 in
  if e <? 9 then
    let d := n mod 10 in
    let n := n / 10 in
    u64 (1 + (n * 9 + d - 1) * 10 + e)
  else u64 (1 + (n - 1) * 10 + 9).

(** [while (e) { n *= 10; e--; }] *)
Fixpoint times10 (e : nat) (n : Z) : Z :=
  match e with O => n | S e => times10 e (u64 (n * 10)) end.

Definition DecompressAmount (x : Z) : Z :=
  if x =? 0 then 0 else
  let x := x - 1 in
  let e := x mod 10 in
  let x := x / 10 in
  let n := if e <? 9 then
             let d := x mod 9 + 1 in
             let x := x / 9 in
             u64 (x * 10 + d)
           else x + 1 in
  times10 (Z.to_nat e) n.

Section txout.
Context (ec_uncompressed : list byte -> option (list byte)) (buf : list byte).

Definition txout_Serialize (o : CTxOut) : bytes :=
  VARINT 64 (CompressAmount (u64 (nValue o))) ++ script_Serialize ec_uncompressed buf (scriptPubKey o).

Definition txout_GetSerializeSize (o : CTxOut) : Z :=
  default 0 (GetSizeOfVarInt 64 (CompressAmount (u64 (nValue o))))
  + script_GetSerializeSize ec_uncompressed buf (scriptPubKey o).

Definition txout_Unserialize (o : CTxOut) : reader CTxOut := fun s =>
  let* (nVal, s) := ReadVarInt u64 s in
  let* (script, s) := script_Unserialize ec_uncompressed buf (scriptPubKey o) s in
  Ret (mk_CTxOut (i64 (DecompressAmount nVal)) script (nRounds o), s).
End txout.

(** ** Amounts *)

(** The amount the code [x] stands for, on unbounded integers. *)
Definition amount_of (x : Z) : Z :=
  if x =? 0 then 0 else
  let e := (x - 1) mod 10 in
  let y := (x - 1) / 10 in
  (if e <? 9 then y / 9 * 10 + y mod 9 + 1 else y + 1) * 10 ^ e.

Lemma drop_zeros_spec fuel n e : 0 < n -> 0 <= e -> e + Z.of_nat fuel = 9 ->
  exists m k, drop_zeros fuel n e = (m, e + k) /\ n = m * 10 ^ k /\ 0 <= k /\ e + k <= 9 /\ 0 < m /\
    (e + k < 9 -> m mod 10 <> 0).
Proof.
  revert n e. induction fuel as [|f IH]; intros n e Hn He Hf; cbn [drop_zeros].
  - exists n, 0. rewrite Z.add_0_r. repeat split; lia.
  - destruct (Z.eqb_spec (n mod 10) 0) as [H0|H0]; cbn [andb].
    + destruct (Z.ltb_spec e 9); [|lia].
      pose proof (Z.div_mod n 10 ltac:(lia)) as En.
      destruct (IH (n / 10) (e + 1)) as (m & k & -> & E & Hk & Hek & Hm & Hr); [lia..|].
      exists m, (k + 1). rewrite Z.pow_add_r by lia.
      split; [f_equal; lia|]. split; [lia|]. repeat split; [lia..|].
      intros. apply Hr. lia.
    + exists n, 0. rewrite Z.add_0_r. repeat split; lia.
Qed.

Lemma times10_spec e n : 0 <= n -> n * 10 ^ Z.of_nat e < 2 ^ 64 -> times10 e n = n * 10 ^ Z.of_nat e.
Proof.
  revert n. induction e as [|e IH]; intros n Hn Hb; [cbn; lia|]. cbn [times10].
  rewrite Nat2Z.inj_succ, Z.pow_succ_r in * by lia.
  assert (0 < 10 ^ Z.of_nat e) by (apply Z.pow_pos_nonneg; lia).
  assert (n * 10 <= n * 10 * 10 ^ Z.of_nat e) by nia.
  rewrite u64_small by (unfold in_u64; lia). rewrite IH; lia.
Qed.

(** Decoding, when the amount fits. *)
Lemma DecompressAmount_spec x : 0 <= x -> amount_of x < 2 ^ 64 -> DecompressAmount x = amount_of x.
Proof.
  intros Hx. unfold DecompressAmount, amount_of. destruct (Z.eqb_spec x 0); [done|].
  pose proof (Z.mod_pos_bound (x - 1) 10 ltac:(lia)) as He. set (e := (x - 1) mod 10) in *.
  assert (Hy : 0 <= (x - 1) / 10) by (apply Z.div_pos; lia). set (y := (x - 1) / 10) in *.
  assert (P : 1 <= 10 ^ e) by (pose proof (Z.pow_pos_nonneg 10 e); lia).
  assert (Hq : 0 <= y / 9) by (apply Z.div_pos; lia). pose proof (Z.mod_pos_bound y 9 ltac:(lia)).
  cbv zeta. intros Hb. destruct (e <? 9).
  - assert (y / 9 * 10 + y mod 9 + 1 <= (y / 9 * 10 + y mod 9 + 1) * 10 ^ e) by (apply Z.le_mul_diag_r; lia).
    rewrite u64_small by (unfold in_u64; lia).
    rewrite times10_spec; rewrite ?Z2Nat.id by lia; [|lia|]; rewrite Z.add_assoc in *; done.
  - rewrite times10_spec; rewrite ?Z2Nat.id by lia; [done|lia|done].
Qed.

(** Encoding a normal form: at most nine zeros were dropped. *)
Lemma CompressAmount_form n m k : 0 < m -> 0 <= k <= 9 -> n = m * 10 ^ k -> (k < 9 -> m mod 10 <> 0) ->
  9 * n + 9 < 2 ^ 64 ->
  CompressAmount n = (if k <? 9 then 1 + (m / 10 * 9 + m mod 10 - 1) * 10 + k else 1 + (m - 1) * 10 + 9).
Proof.
  intros Hm Hk En Hr Hb. assert (P : 1 <= 10 ^ k) by (pose proof (Z.pow_pos_nonneg 10 k); lia).
  assert (Hmn : m <= n) by (rewrite En; apply Z.le_mul_diag_r; lia).
  unfold CompressAmount. destruct (Z.eqb_spec n 0); [lia|].
  destruct (drop_zeros_spec 9 n 0) as (m' & k' & -> & En' & Hk' & Hk9 & Hm' & Hr'); [lia..|].
  rewrite Z.add_0_l in *.
  assert (E : k' = k /\ m' = m).
  { destruct (Z.lt_trichotomy k' k) as [L|[->|L]].
    - exfalso. apply Hr'; [lia|]. replace k with (k' + (1 + (k - k' - 1))) in En by lia.
      rewrite !Z.pow_add_r in En by lia. rewrite En' in En.
      assert (0 < 10 ^ k') by (apply Z.pow_pos_nonneg; lia).
      assert (m' = m * 10 ^ (k - k' - 1) * 10) as -> by nia. apply Z.mod_mul. lia.
    - split; [done|]. assert (0 < 10 ^ k) by (apply Z.pow_pos_nonneg; lia). nia.
    - exfalso. apply Hr; [lia|]. replace k' with (k + (1 + (k' - k - 1))) in En' by lia.
      rewrite !Z.pow_add_r in En' by lia. rewrite En in En'.
      assert (m = m' * 10 ^ (k' - k - 1) * 10) as -> by nia. apply Z.mod_mul. lia. }
  destruct E as [-> ->]. pose proof (Z.mod_pos_bound m 10 ltac:(lia)).
  destruct (Z.ltb_spec k 9).
  - rewrite u64_small; [done|]. specialize (Hr ltac:(lia)). unfold in_u64.
    assert (k = 0 \/ 10 * m <= n).
    { destruct (Z.eq_dec k 0); [by left|right]. rewrite En. replace k with (1 + (k - 1)) by lia.
      rewrite Z.pow_add_r by lia. assert (1 <= 10 ^ (k - 1)) by (pose proof (Z.pow_pos_nonneg 10 (k - 1)); lia). nia. }
    Z.div_mod_to_equations; lia.
  - rewrite u64_small; [done|]. unfold in_u64. assert (k = 9) as -> by lia. change (10 ^ 9) with 1000000000 in En. lia.
Qed.

(** Every positive amount has a normal form. *)
Lemma amount_form n : 0 < n -> exists m k, 0 < m /\ 0 <= k <= 9 /\ n = m * 10 ^ k /\ (k < 9 -> m mod 10 <> 0).
Proof.
  intros Hn. destruct (drop_zeros_spec 9 n 0) as (m & k & _ & En & Hk & Hk9 & Hm & Hr); [lia..|].
  exists m, k. repeat split; try done; lia.
Qed.

Lemma amount_of_code m k : 0 < m -> 0 <= k <= 9 -> (k < 9 -> m mod 10 <> 0) ->
  amount_of (if k <? 9 then 1 + (m / 10 * 9 + m mod 10 - 1) * 10 + k else 1 + (m - 1) * 10 + 9) = m * 10 ^ k.
Proof.
  intros Hm Hk Hr. pose proof (Z.mod_pos_bound m 10 ltac:(lia)) as Hd.
  assert (Hq : 0 <= m / 10) by (apply Z.div_pos; lia). pose proof (Z.div_mod m 10 ltac:(lia)) as Em.
  destruct (Z.ltb_spec k 9) as [L|L].
  - specialize (Hr L). set (y := m / 10 * 9 + m mod 10 - 1). unfold amount_of.
    destruct (Z.eqb_spec (1 + y * 10 + k) 0); [subst y; lia|].
    replace ((1 + y * 10 + k - 1) mod 10) with k by (apply (Z.mod_unique _ _ y); lia).
    replace ((1 + y * 10 + k - 1) / 10) with y by (apply (Z.div_unique _ _ _ k); lia).
    cbv zeta. destruct (Z.ltb_spec k 9); [|lia]. f_equal.
    replace (y / 9) with (m / 10) by (apply (Z.div_unique _ _ _ (m mod 10 - 1)); subst y; lia).
    replace (y mod 9) with (m mod 10 - 1) by (apply (Z.mod_unique _ _ (m / 10)); subst y; lia). lia.
  - assert (k = 9) as -> by lia. unfold amount_of. destruct (Z.eqb_spec (1 + (m - 1) * 10 + 9) 0); [lia|].
    replace ((1 + (m - 1) * 10 + 9 - 1) mod 10) with 9 by (apply (Z.mod_unique _ _ (m - 1)); lia).
    replace ((1 + (m - 1) * 10 + 9 - 1) / 10) with (m - 1) by (apply (Z.div_unique _ _ _ 9); lia).
    cbv zeta. change (9 <? 9) with false. cbv iota. f_equal. lia.
Qed.

Lemma amount_of_form x : 0 < x -> exists m k, 0 < m /\ 0 <= k <= 9 /\ (k < 9 -> m mod 10 <> 0) /\
  x = (if k <? 9 then 1 + (m / 10 * 9 + m mod 10 - 1) * 10 + k else 1 + (m - 1) * 10 + 9).
Proof.
  intros Hx. pose proof (Z.mod_pos_bound (x - 1) 10 ltac:(lia)) as He.
  pose proof (Z.div_mod (x - 1) 10 ltac:(lia)) as Ex. assert (Hy : 0 <= (x - 1) / 10) by (apply Z.div_pos; lia).
  set (y := (x - 1) / 10) in *. set (e := (x - 1) mod 10) in *.
  destruct (Z.ltb_spec e 9) as [L|L].
  - pose proof (Z.mod_pos_bound y 9 ltac:(lia)). pose proof (Z.div_mod y 9 ltac:(lia)).
    assert (0 <= y / 9) by (apply Z.div_pos; lia).
    exists (y / 9 * 10 + (y mod 9 + 1)), e. destruct (Z.ltb_spec e 9); [|lia].
    replace ((y / 9 * 10 + (y mod 9 + 1)) / 10) with (y / 9) by (apply (Z.div_unique _ _ _ (y mod 9 + 1)); lia).
    replace ((y / 9 * 10 + (y mod 9 + 1)) mod 10) with (y mod 9 + 1) by (apply (Z.mod_unique _ _ (y / 9)); lia).
    lia.
  - exists (y + 1), 9. change (9 <? 9) with false. cbv iota. lia.
Qed.

Lemma amount_codec n : 0 <= n -> 9 * n + 9 < 2 ^ 64 ->
  0 <= CompressAmount n < 2 ^ 64 /\ amount_of (CompressAmount n) = n /\ DecompressAmount (CompressAmount n) = n.
Proof.
  intros Hn Hb. destruct (Z.eq_dec n 0) as [->|]; [by vm_compute|].
  destruct (amount_form n ltac:(lia)) as (m & k & Hm & Hk & En & Hr).
  pose proof (CompressAmount_form n m k Hm Hk En Hr Hb) as Ec.
  assert (R : 0 <= CompressAmount n < 2 ^ 64).
  { unfold CompressAmount. destruct (n =? 0); [lia|]. destruct (drop_zeros 9 n 0) as [a b].
    destruct (b <? 9); apply u64_range. }
  assert (A : amount_of (CompressAmount n) = n) by (by rewrite Ec, amount_of_code, En).
  split; [done|]. split; [done|]. rewrite DecompressAmount_spec; [done|lia|]. rewrite A. lia.
Qed.

(** The amount codec is a bijection. Every amount [n] with [9 n + 9 < 2^64], among
    them every amount of money, is compressed without overflow to a code that stands for
    it and is decompressed to it, and a code that stands for such an amount is the one
    the amount is compressed to. *)
Theorem amount_bijection (n x : Z) (Hn : 0 <= n) (Hb : 9 * n + 9 < 2 ^ 64) (Hx : 0 <= x) :
  (CompressAmount n = x <-> amount_of x = n) /\ DecompressAmount (CompressAmount n) = n.
Proof.
  destruct (amount_codec n Hn Hb) as (Hr & A & D). split; [|done]. split; [by intros <-|]. intros E.
  destruct (Z.eq_dec x 0) as [->|]; [by rewrite <- E|].
  destruct (amount_of_form x ltac:(lia)) as (m & k & Hm & Hk & Hr' & ->).
  rewrite amount_of_code in E by done. symmetry in E. by apply CompressAmount_form.
Qed.

Lemma amount_bijection_witness :
  9 * 2100000000000000 + 9 < 2 ^ 64 /\
  DecompressAmount (CompressAmount 2100000000000000) = 2100000000000000.
Proof.
  split; [done|].
  exact (proj2 (amount_bijection 2100000000000000 0 (ltac:(lia)) (ltac:(lia)) (ltac:(lia)))).
Defined.

(** Above the bound the product wraps and the amount is lost. *)
Example amount_overflow : DecompressAmount (CompressAmount (2 ^ 63 - 1)) <> 2 ^ 63 - 1.
Proof. by vm_compute. Qed.

(** ** Scripts *)

Lemma byte_at_inv s i z : byte_at s i = z -> nth i s Byte.x00 = byte.of_Z z.
Proof. intros <-. unfold byte_at. by rewrite byte.of_Z_unsigned. Qed.

(** A list is determined by a prefix, a suffix and what is between them. *)
Lemma list_parts (p q s : list byte) n : length s = (length p + n + length q)%nat ->
  (forall i, (i < length p)%nat -> nth i s Byte.x00 = nth i p Byte.x00) ->
  (forall i, (i < length q)%nat -> nth (length p + n + i) s Byte.x00 = nth i q Byte.x00) ->
  s = p ++ take n (drop (length p) s) ++ q /\ length (take n (drop (length p) s)) = n.
Proof.
  intros L Hp Hq. assert (Ep : take (length p) s = p).
  { apply (List.nth_ext _ _ Byte.x00 Byte.x00); rewrite length_take; [lia|]. intros i Hi.
    rewrite nth_firstn, <- Hp by lia. destruct (Nat.ltb_spec i (length p)); [done|lia]. }
  assert (Eq : drop (length p + n) s = q).
  { apply (List.nth_ext _ _ Byte.x00 Byte.x00); rewrite length_drop; [lia|]. intros i Hi.
    rewrite nth_skipn, <- Hq by lia. f_equal. }
  split; [|rewrite length_take, length_drop; lia].
  rewrite <- Eq, <- drop_drop, take_drop. rewrite <- Ep at 1. by rewrite take_drop.
Qed.

(** [nth] over the first positions, for lists given explicitly. *)
Ltac by_index :=
  let i := fresh "i" in let Hi := fresh "Hi" in
  intros i Hi; cbn [map length] in Hi;
  repeat (destruct i as [|i]; [cbn [map nth length Nat.add]; apply byte_at_inv; by rewrite ?Nat.add_0_r|]); lia.

Lemma IsToKeyID_inv s h : IsToKeyID s = Some h ->
  s = map byte.of_Z [OP_DUP; OP_HASH160; 20] ++ h ++ map byte.of_Z [OP_EQUALVERIFY; OP_CHECKSIG] /\ length h = 20%nat.
Proof.
  unfold IsToKeyID. destruct (_ && _) eqn:E; [|done]. intros [= <-]. bool_prop.
  apply (list_parts (map byte.of_Z [OP_DUP; OP_HASH160; 20]) (map byte.of_Z [OP_EQUALVERIFY; OP_CHECKSIG]) s 20);
    [cbn [map length]; lia| |]; by_index.
Qed.

Lemma IsToScriptID_inv s h : IsToScriptID s = Some h ->
  s = map byte.of_Z [OP_HASH160; 20] ++ h ++ map byte.of_Z [OP_EQUAL] /\ length h = 20%nat.
Proof.
  unfold IsToScriptID. destruct (_ && _) eqn:E; [|done]. intros [= <-]. bool_prop.
  apply (list_parts (map byte.of_Z [OP_HASH160; 20]) (map byte.of_Z [OP_EQUAL]) s 20);
    [cbn [map length]; lia| |]; by_index.
Qed.

(** A one-byte VarInt. *)
Lemma ReadVarInt_byte z s : 0 <= z < 6 -> ReadVarInt u32 (byte.of_Z z :: s) = Ret (z, s).
Proof.
  intros H. assert (E : z = 0 \/ z = 1 \/ z = 2 \/ z = 3 \/ z = 4 \/ z = 5) by lia.
  by destruct E as [->|[->|[->|[->|[-> | ->]]]]].
Qed.

Lemma script_Unserialize_special ec buf script0 z vch rest : 0 <= z < 6 ->
  length vch = GetSpecialSize z ->
  script_Unserialize ec buf script0 (byte.of_Z z :: vch ++ rest) =
  Ret (default script0 (Decompress ec buf z vch), rest).
Proof.
  intros Hz Hl. unfold script_Unserialize. rewrite ReadVarInt_byte by done. cbn [result_bind].
  unfold nSpecialScripts. destruct (Z.ltb_spec z 6); [|lia]. by rewrite read_bytes_app.
Qed.

Lemma Set_header k c v : pk_ok k -> (GetLen c = S (length v))%nat ->
  Set_ k (c :: v) = mk_CPubKey (c :: v ++ drop (S (length v)) (pk_vch k)).
Proof.
  intros Hk L. unfold Set_. cbn [length]. rewrite L, Nat.eqb_refl. done.
Qed.

Lemma GetLen_compressed z : z = 2 \/ z = 3 -> GetLen (byte.of_Z z) = 33%nat.
Proof. by intros [-> | ->]. Qed.

(** The parity of the [y] coordinate, which the header of a compressed key carries. *)
Definition parity (y : list byte) : Z := Z.land (byte.unsigned (nth 31 y Byte.x00)) 1.

Lemma parity_cases y : parity y = 0 \/ parity y = 1.
Proof.
  unfold parity. pose proof (land_ones_mod (byte.unsigned (nth 31 y Byte.x00)) 1 ltac:(lia)) as E.
  change (2 ^ 1 - 1) with 1 in E. rewrite E.
  pose proof (Z.mod_pos_bound (byte.unsigned (nth 31 y Byte.x00)) (2 ^ 1)). lia.
Qed.

Section script_roundtrip.
Context (ec : list byte -> option (list byte)) (buf : list byte).
Context (Hbuf : length buf = 65%nat).

(** The compressed encoding of a valid point stands for the same point. *)
Context (Hec : forall x y, length x = 32%nat -> length y = 32%nat ->
  is_Some (ec (Byte.x04 :: x ++ y)) ->
  ec (byte.of_Z (2 + parity y) :: x) = Some (Byte.x04 :: x ++ y)).

Lemma buf_ok : pk_ok (CPubKey_new buf).
Proof using Hbuf. by apply Invalidate_ok. Qed.

(** The two forms of payments to a key. *)
Lemma IsToPubKey_inv s pubkey : IsToPubKey ec buf s = Some pubkey ->
  (exists z x t, (z = 2 \/ z = 3) /\ length x = 32%nat /\
     s = map byte.of_Z [33; z] ++ x ++ map byte.of_Z [OP_CHECKSIG] /\
     pubkey = mk_CPubKey (byte.of_Z z :: x ++ t)) \/
  (exists x y, length x = 32%nat /\ length y = 32%nat /\ is_Some (ec (Byte.x04 :: x ++ y)) /\
     s = map byte.of_Z [65; 4] ++ (x ++ y) ++ map byte.of_Z [OP_CHECKSIG] /\
     pubkey = mk_CPubKey (Byte.x04 :: x ++ y)).
Proof using Hbuf.
  unfold IsToPubKey. destruct (_ && _) eqn:E; [|clear E; destruct (_ && _) eqn:E; [|done]].
  - intros [= <-]. left. bool_prop.
    set (z := byte_at s 1) in *. assert (Hz : z = 2 \/ z = 3) by (apply orb_true_iff in H0 as [?|?]; bool_prop; lia).
    destruct (list_parts (map byte.of_Z [33; z]) (map byte.of_Z [OP_CHECKSIG]) s 32) as [Es L];
      [cbn [map length]; lia|by_index|by_index|].
    set (x := take 32 _) in *. exists z, x, (drop 33 (pk_vch (CPubKey_new buf))). repeat split; try done.
    rewrite Es at 1. cbn [map app drop].
    change (take 33 (byte.of_Z z :: x ++ [byte.of_Z OP_CHECKSIG])) with (byte.of_Z z :: take 32 (x ++ [byte.of_Z OP_CHECKSIG])).
    rewrite <- L at 1. rewrite take_app_length.
    rewrite Set_header by (try apply buf_ok; rewrite L; by apply GetLen_compressed). by rewrite L.
  - destruct (IsFullyValid _ _) eqn:V; [|done]. intros [= <-]. right. bool_prop.
    destruct (list_parts (map byte.of_Z [65; 4]) (map byte.of_Z [OP_CHECKSIG]) s 64) as [Es L];
      [cbn [map length]; lia|by_index|by_index|].
    set (xy := take 64 _) in *. destruct (list_length_split 32 xy 32 L) as (x & y & Exy & Lx & Ly).
    assert (Ed : take 65 (drop 1 s) = Byte.x04 :: xy).
    { rewrite Es. cbn [map app drop].
      change (take 65 (byte.of_Z 4 :: xy ++ [byte.of_Z OP_CHECKSIG])) with (byte.of_Z 4 :: take 64 (xy ++ [byte.of_Z OP_CHECKSIG])).
      rewrite <- L at 1. by rewrite take_app_length. }
    rewrite Ed in *. rewrite Set_header in * by (try apply buf_ok; by rewrite L).
    rewrite drop_ge in * by (rewrite L; pose proof buf_ok as B; unfold pk_ok in B; lia). rewrite app_nil_r in *.
    exists x, y. rewrite <- Exy. repeat split; try done.
    unfold IsFullyValid in V. apply andb_true_iff in V as [_ V]. apply bool_decide_eq_true in V.
    unfold pk_bytes, pk_size in V. cbn [pk_vch nth] in V.
    change (GetLen Byte.x04) with 65%nat in V. rewrite take_ge in V; [done|]. cbn [length]. lia.
Qed.

(** A compressed script is a special code and its argument, from which it is restored. *)
Lemma Compress_inv s compr : Compress ec buf s = Some compr ->
  exists z vch, 0 <= z < 6 /\ length vch = GetSpecialSize z /\
    compr = byte.of_Z z :: vch /\ Decompress ec buf z vch = Some s.
Proof using Hbuf Hec.
  unfold Compress. destruct (IsToKeyID s) as [h|] eqn:K.
  { apply IsToKeyID_inv in K as [-> L]. intros [= <-]. exists 0, h. repeat split; try done.
    unfold Decompress. cbn [Z.eqb]. rewrite take_ge by lia. done. }
  destruct (IsToScriptID s) as [h|] eqn:S.
  { apply IsToScriptID_inv in S as [-> L]. intros [= <-]. exists 1, h. repeat split; try done.
    unfold Decompress. cbn [Z.eqb]. rewrite take_ge by lia. done. }
  destruct (IsToPubKey ec buf s) as [pubkey|] eqn:P; [|done].
  apply IsToPubKey_inv in P as [(z & x & t & Hz & Lx & -> & ->)|(x & y & Lx & Ly & V & -> & ->)]; cbn [pk_vch nth].
  - assert (Et : take 32 (x ++ t) = x) by (rewrite <- Lx at 1; apply take_app_length).
    change (drop 1 (?c :: ?l)) with l. rewrite Et.
    intros H. exists z, x.
    assert (E : compr = byte.of_Z z :: x) by (destruct Hz as [-> | ->]; by injection H as <-).
    split; [lia|]. split; [by destruct Hz as [-> | ->]|]. split; [done|].
    destruct Hz as [-> | ->]; unfold Decompress; cbn [Z.eqb orb Pos.eqb]; rewrite take_ge by (by rewrite Lx); done.
  - assert (Et : take 32 (x ++ y) = x) by (rewrite <- Lx at 1; apply take_app_length).
    change (drop 1 (?c :: ?l)) with l. rewrite Et.
    change (byte.unsigned Byte.x04) with 4. cbn [Z.eqb orb].
    replace (nth 63 (x ++ y) Byte.x00) with (nth 31 y Byte.x00) by (rewrite app_nth2, Lx by lia; done).
    change (Z.land (byte.unsigned (nth 31 y Byte.x00)) 1) with (parity y). intros [= <-].
    exists (4 + parity y), x. specialize (Hec x y Lx Ly V).
    assert (D : pk_Decompress ec (CPubKey_of buf (byte.of_Z (4 + parity y - 2) :: x)) = Some (mk_CPubKey (Byte.x04 :: x ++ y))).
    { replace (4 + parity y - 2) with (2 + parity y) by lia. unfold pk_Decompress, CPubKey_of.
      assert (Hz : 2 + parity y = 2 \/ 2 + parity y = 3) by (destruct (parity_cases y); lia).
      rewrite Set_header by (try done; rewrite Lx; by apply GetLen_compressed).
      unfold pk_IsValid, pk_bytes, pk_size. cbn [pk_vch nth]. rewrite GetLen_compressed by done. cbn [Nat.ltb Nat.leb negb].
      rewrite (take_app_le 33 (byte.of_Z (2 + parity y) :: x)) || change (byte.of_Z (2 + parity y) :: x ++ ?t) with ((byte.of_Z (2 + parity y) :: x) ++ t).
      rewrite take_app_length' by (cbn [length]; lia). rewrite Hec. cbn [fmap option_fmap option_map].
      rewrite Set_header; [|unfold pk_ok; cbn [pk_vch length]; rewrite length_app, length_drop; cbn [length]; rewrite Lx, Hbuf; lia
                          |rewrite length_app; rewrite Lx, Ly; done].
      f_equal. f_equal. rewrite drop_ge; [by rewrite app_nil_r|].
      cbn [pk_vch app length]. rewrite !length_app, length_drop. cbn [length]. rewrite Lx, Ly, Hbuf. lia. }
    destruct (parity_cases y) as [Ep|Ep]; rewrite Ep in *; (repeat split; try done).
    all: unfold Decompress; rewrite (take_ge x 32) by (by rewrite Lx); rewrite D;
      cbn [mbind option_bind pk_vch];
      rewrite (take_ge (Byte.x04 :: x ++ y) 65) by (cbn [length]; rewrite length_app, Lx, Ly; lia); done.
Qed.
End script_roundtrip.

(** ** The formats round trip *)

Lemma VARINT_spec w n rest : (0 < w)%nat -> 0 <= n < 2 ^ Z.of_nat w ->
  Z.of_nat (length (VARINT w n)) = default 0 (GetSizeOfVarInt w n) /\
  ReadVarInt (fun x => x mod 2 ^ Z.of_nat w) (VARINT w n ++ rest) = Ret (n, rest).
Proof.
  intros Hw Hn.
  destruct (WriteVarInt_spec (fun x => x mod 2 ^ Z.of_nat w) w Hw (fun x => Z.mod_small x _) n rest Hn)
    as (out & E & Es & _ & R).
  unfold VARINT. by rewrite E, Es.
Qed.

Section formats.
Context (ec : list byte -> option (list byte)) (buf : list byte).

Lemma script_Serialize_length s : Z.of_nat (length s) + 6 < 2 ^ 32 ->
  Z.of_nat (length (script_Serialize ec buf s)) = script_GetSerializeSize ec buf s.
Proof.
  intros Hs. unfold script_Serialize, script_GetSerializeSize. destruct (Compress ec buf s); [done|].
  unfold nSpecialScripts. rewrite u32_small by (unfold in_u32; lia). rewrite length_app, Nat2Z.inj_add.
  destruct (VARINT_spec 32 (Z.of_nat (length s) + 6) [] ltac:(lia) ltac:(lia)) as [-> _]. lia.
Qed.

(** The outputs the format restores: an amount of money and a script that can be run. *)
Definition compressible (o : CTxOut) : Prop :=
  0 <= nValue o /\ 9 * nValue o + 9 < 2 ^ 64 /\ Z.of_nat (length (scriptPubKey o)) <= MAX_SCRIPT_SIZE.

Lemma txout_Serialize_length o : compressible o ->
  Z.of_nat (length (txout_Serialize ec buf o)) = txout_GetSerializeSize ec buf o.
Proof.
  intros (Hv & Hb & Hs). unfold txout_Serialize, txout_GetSerializeSize, MAX_SCRIPT_SIZE in *.
  destruct (amount_codec (nValue o) Hv Hb) as (Rc & _ & _).
  rewrite (u64_small (nValue o)) by (unfold in_u64; lia). rewrite length_app, Nat2Z.inj_add.
  destruct (VARINT_spec 64 (CompressAmount (nValue o)) [] ltac:(lia) Rc) as [-> _].
  by rewrite script_Serialize_length by lia.
Qed.

Context (Hbuf : length buf = 65%nat).
Context (Hec : forall x y, length x = 32%nat -> length y = 32%nat ->
  is_Some (ec (Byte.x04 :: x ++ y)) ->
  ec (byte.of_Z (2 + parity y) :: x) = Some (Byte.x04 :: x ++ y)).

(** Reading a compressed script back, into whatever script. *)
Lemma script_Unserialize_Serialize s script0 rest : Z.of_nat (length s) + 6 < 2 ^ 31 ->
  script_Unserialize ec buf script0 (script_Serialize ec buf s ++ rest) =
  Ret (if Z.of_nat (length s) <=? MAX_SCRIPT_SIZE then s else script0 ++ [byte.of_Z OP_RETURN], rest).
Proof using Hbuf Hec.
  intros Hs. unfold script_Serialize. destruct (Compress ec buf s) as [compr|] eqn:C.
  - destruct (Compress_inv ec buf Hbuf Hec s compr C) as (z & vch & Hz & Lv & -> & D).
    rewrite <- app_comm_cons, script_Unserialize_special, D by done. cbn [default].
    destruct (Z.leb_spec (Z.of_nat (length s)) MAX_SCRIPT_SIZE) as [|L]; [done|exfalso].
    unfold Decompress in D. unfold MAX_SCRIPT_SIZE in L.
    repeat (let E := fresh in destruct (_ : bool) eqn:E in D; [apply Some_inj in D; rewrite <- D in L;
      rewrite ?length_app, ?length_take in L; cbn [length] in L; lia|]).
    destruct ((z =? 4) || (z =? 5)); [|done].
    destruct (pk_Decompress _ _) as [pk|]; [|done]. cbn [mbind option_bind] in D. apply Some_inj in D.
    rewrite <- D, !length_app, length_take in L. cbn [length] in L. lia.
  - unfold nSpecialScripts. rewrite u32_small by (unfold in_u32; lia). rewrite <- app_assoc.
    destruct (VARINT_spec 32 (Z.of_nat (length s) + 6) (s ++ rest) ltac:(lia) ltac:(lia)) as [_ R].
    unfold script_Unserialize. change u32 with (fun x => x mod 2 ^ Z.of_nat 32). rewrite R.
    cbn [result_bind]. unfold nSpecialScripts, stream_ignore. destruct (Z.ltb_spec (Z.of_nat (length s) + 6) 6); [lia|].
    replace (Z.of_nat (length s) + 6 - 6) with (Z.of_nat (length s)) by lia.
    rewrite Z.gtb_ltb, Z.leb_antisym. destruct (MAX_SCRIPT_SIZE <? Z.of_nat (length s)); cbn [negb].
    + rewrite i32_small by (unfold in_i32; lia). destruct (Z.ltb_spec (Z.of_nat (length s)) 0); [lia|].
      by rewrite Nat2Z.id, read_bytes_app.
    + by rewrite Nat2Z.id, read_bytes_app.
Qed.

Lemma txout_Unserialize_Serialize o o0 rest : compressible o ->
  txout_Unserialize ec buf o0 (txout_Serialize ec buf o ++ rest) =
  Ret (mk_CTxOut (nValue o) (scriptPubKey o) (nRounds o0), rest).
Proof using Hbuf Hec.
  intros (Hv & Hb & Hs). unfold txout_Serialize, txout_Unserialize, MAX_SCRIPT_SIZE in *.
  destruct (amount_codec (nValue o) Hv Hb) as (Rc & _ & D).
  rewrite (u64_small (nValue o)) by (unfold in_u64; lia). rewrite <- app_assoc.
  destruct (VARINT_spec 64 (CompressAmount (nValue o)) (script_Serialize ec buf (scriptPubKey o) ++ rest) ltac:(lia) Rc) as [_ R].
  change u64 with (fun x => x mod 2 ^ Z.of_nat 64). rewrite R. cbn [result_bind].
  rewrite script_Unserialize_Serialize by lia. cbn [result_bind]. rewrite D, i64_small by (unfold in_i64; lia).
  destruct (Z.leb_spec (Z.of_nat (length (scriptPubKey o))) MAX_SCRIPT_SIZE); [done|].
  unfold MAX_SCRIPT_SIZE in *. lia.
Qed.

(** The compressed format of outputs. A compressed script is read back, over any
    previous script, as it was when it can be run and as an unspendable one when it is
    over the size limit; a compressed output with an amount of money and a script
    within the limit is read back as it was; and the sizes are the announced ones. The
    hypothesis is what the curve library does: the point with a valid key's [x] and the
    parity of its [y] is that key. *)
Theorem compressed_output_roundtrip (s script0 : CScript) (o o0 : CTxOut) (rest : bytes)
    (Hs : Z.of_nat (length s) + 6 < 2 ^ 31) (Ho : compressible o) :
  script_Unserialize ec buf script0 (script_Serialize ec buf s ++ rest) =
    Ret (if Z.of_nat (length s) <=? MAX_SCRIPT_SIZE then s else script0 ++ [byte.of_Z OP_RETURN], rest) /\
  Z.of_nat (length (script_Serialize ec buf s)) = script_GetSerializeSize ec buf s /\
  txout_Unserialize ec buf o0 (txout_Serialize ec buf o ++ rest) =
    Ret (mk_CTxOut (nValue o) (scriptPubKey o) (nRounds o0), rest) /\
  Z.of_nat (length (txout_Serialize ec buf o)) = txout_GetSerializeSize ec buf o.
Proof using Hbuf Hec.
  split; [by apply script_Unserialize_Serialize|]. split; [apply script_Serialize_length; lia|].
  split; [by apply txout_Unserialize_Serialize | by apply txout_Serialize_length].
Qed.
End formats.

(** A toy curve: the points with [y] all zeros or all ones. *)
Definition toy_ec (k : list byte) : option (list byte) :=
  match k with
  | c :: v =>
      if byte.unsigned c =? 2 then Some (Byte.x04 :: v ++ repeat Byte.x00 32)
      else if byte.unsigned c =? 3 then Some (Byte.x04 :: v ++ repeat Byte.x01 32)
      else if bool_decide (drop 32 v = repeat Byte.x00 32 \/ drop 32 v = repeat Byte.x01 32) then Some k else None
  | [] => None
  end.

Lemma compressed_output_roundtrip_witness :
  let s := [Byte.x41; Byte.x04] ++ repeat Byte.x07 32 ++ repeat Byte.x01 32 ++ [byte.of_Z OP_CHECKSIG] in
  let buf := repeat Byte.x00 65 in
  length (script_Serialize toy_ec buf s) = 33%nat /\
  script_Unserialize toy_ec buf [] (script_Serialize toy_ec buf s ++ [Byte.x01]) = Ret (s, [Byte.x01]).
Proof.
  intros s buf. split; [by vm_compute|].
  assert (Hec : forall x y, length x = 32%nat -> length y = 32%nat -> is_Some (toy_ec (Byte.x04 :: x ++ y)) ->
    toy_ec (byte.of_Z (2 + parity y) :: x) = Some (Byte.x04 :: x ++ y)).
  { intros x y Lx Ly [v Hv].
    change (toy_ec (Byte.x04 :: x ++ y)) with (if bool_decide (drop 32 (x ++ y) = repeat Byte.x00 32 \/
      drop 32 (x ++ y) = repeat Byte.x01 32) then Some (Byte.x04 :: x ++ y) else None) in Hv.
    rewrite (drop_app_length' x y 32) in Hv by done. case_bool_decide as B; [|done].
    by destruct B as [-> | ->]. }
  exact (proj1 (compressed_output_roundtrip toy_ec buf eq_refl Hec s [] (CTxOut_make 5 s) CTxOut_SetNull [Byte.x01]
    ltac:(by vm_compute) ltac:(split; [|split]; by vm_compute))).
Defined.
