(* ===== verification/Coins.v ===== *)
(** * Unspent outputs of a transaction and undo data ([coins.h], [coins.cpp], [undo.h])

    [CCoins] keeps the outputs of a transaction that are not spent; its serialization is
    the value of the coin database.  [CTxInUndo] is what a spent output leaves in the undo
    file. *)

From Stdlib Require Import ZArith Lia List Bool.
From stdpp Require Import base option list.
From coqutil Require Import Byte Word.LittleEndianList.
From S2P Require Import Prelude Uint256 Serialize MerkleDamgard Hash Script PubKey Tx Compressor.

Open Scope Z_scope.
Open Scope btc_scope.

Record CCoins : Type := mk_CCoins {
  fCoinBase : bool; fCoinStake : bool; c_vout : list CTxOut; nHeight : Z; c_nVersion : Z }.

Definition CCoins_new : CCoins := mk_CCoins false false [] 0 0.

(** [Clear]: the members of [CCoins()]. *)
Definition CCoins_Clear (c : CCoins) : CCoins := mk_CCoins false false [] 0 0.

Definition with_vout (c : CCoins) (vout : list CTxOut) : CCoins :=
  mk_CCoins (fCoinBase c) (fCoinStake c) vout (nHeight c) (c_nVersion c).

(** [while (vout.size() > 0 && vout.back().IsNull()) vout.pop_back();] *)
Fixpoint pop_nulls (rvout : list CTxOut) : list CTxOut :=
  match rvout with
  | o :: r => if CTxOut_IsNull o then pop_nulls r else rvout
  | [] => []
  end.
Definition Cleanup_vout (vout : list CTxOut) : list CTxOut := rev (pop_nulls (rev vout)).
Definition Cleanup (c : CCoins) : CCoins := with_vout c (Cleanup_vout (c_vout c)).

Definition ClearUnspendable (c : CCoins) : CCoins :=
  Cleanup (with_vout c (map (fun o => if IsUnspendable (scriptPubKey o) then CTxOut_SetNull else o) (c_vout c))).

Definition FromTx (tx : CMutableTransaction) (nHeightIn : Z) : CCoins :=
  ClearUnspendable (mk_CCoins (IsCoinBase tx) (IsCoinStake tx) (tx_vout tx) nHeightIn (tx_nVersion tx)).

Definition IsPruned (c : CCoins) : bool := forallb CTxOut_IsNull (c_vout c).

Definition IsAvailable (c : CCoins) (nPos : nat) : bool :=
  match c_vout c !! nPos with
  | Some o => negb (CTxOut_IsNull o) && negb (CTxOut_IsZerocoinMint o)
  | None => false
  end.

(** [a.vout == b.vout] *)
Fixpoint vout_eq (a b : list CTxOut) : bool :=
  match a, b with
  | [], [] => true
  | x :: a, y :: b => CTxOut_eq x y && vout_eq a b
  | _, _ => false
  end.

Definition CCoins_eq (a b : CCoins) : bool :=
  if IsPruned a && IsPruned b then true else
  Bool.eqb (fCoinBase a) (fCoinBase b) && Bool.eqb (fCoinStake a) (fCoinStake b)
  && (nHeight a =? nHeight b) && (c_nVersion a =? c_nVersion b) && vout_eq (c_vout a) (c_vout b).

(** ** Undo data *)

Record CTxInUndo : Type := mk_CTxInUndo {
  u_txout : CTxOut; u_fCoinBase : bool; u_fCoinStake : bool; u_nHeight : Z; u_nVersion : Z }.
Definition CTxInUndo_new : CTxInUndo := mk_CTxInUndo CTxOut_SetNull false false 0 0.
Definition CTxInUndo_of (txout : CTxOut) : CTxInUndo := mk_CTxInUndo txout false false 0 0.

(** [None] is [false]; [nHeight] is converted to [unsigned int]. *)
Definition Spend (c : CCoins) (n : nat) : option (CCoins * CTxInUndo) :=
  match c_vout c !! n with
  | None => None
  | Some o =>
      if CTxOut_IsNull o then None else
      let c' := Cleanup (with_vout c (<[n := CTxOut_SetNull]> (c_vout c))) in
      if (length (c_vout c') =? 0)%nat
      then Some (c', mk_CTxInUndo o (fCoinBase c') (fCoinStake c') (u32 (nHeight c')) (c_nVersion c'))
      else Some (c', CTxInUndo_of o)
  end.

(** ** The serialization of coins *)

(** [2 + b * 8 + i < vout.size() && !vout[2 + b * 8 + i].IsNull()] *)
Definition unspent_at (vout : list CTxOut) (j : nat) : bool :=
  match vout !! j with Some o => negb (CTxOut_IsNull o) | None => false end.

(** [for (b = 0; 2 + b * 8 < vout.size(); b++)]; [fuel] bounds the bytes. *)
Fixpoint CalcMaskSize_loop (fuel : nat) (vout : list CTxOut) (b : nat) (nLastUsedByte nNonzeroBytes : Z) : Z * Z :=
  match fuel with
  | O => (nLastUsedByte, nNonzeroBytes)
  | S f =>
      if (2 + b * 8 <? length vout)%nat then
        let fZero := negb (existsb (fun i => unspent_at vout (2 + b * 8 + i)) (seq 0 8)) in
        if negb fZero then CalcMaskSize_loop f vout (b + 1) (Z.of_nat b + 1) (nNonzeroBytes + 1)
        else CalcMaskSize_loop f vout (b + 1) nLastUsedByte nNonzeroBytes
      else (nLastUsedByte, nNonzeroBytes)
  end.
Definition CalcMaskSize (vout : list CTxOut) : Z * Z := CalcMaskSize_loop (length vout) vout 0 0 0.

Definition chAvail (vout : list CTxOut) (b : nat) : Z :=
  fold_left (fun ch i => if unspent_at vout (2 + b * 8 + i) then Z.lor ch (Z.shiftl 1 (Z.of_nat i)) else ch)
    (seq 0 8) 0.

Definition bit (b : bool) (n : Z) : Z := if b then n else 0.

(** The header code, with the factor of [nMaskCode]. *)
Definition coins_nCode (factor : Z) (c : CCoins) (nMaskCode : Z) : Z :=
  let fFirst := unspent_at (c_vout c) 0 in
  let fSecond := unspent_at (c_vout c) 1 in
  u32 (factor * u32 (nMaskCode - (if fFirst || fSecond then 0 else 1))
       + bit (fCoinBase c) 1 + bit (fCoinStake c) 2 + bit fFirst 4 + bit fSecond 8).

(** [assert(fFirst || fSecond || nMaskCode)] *)
Definition coins_assert (c : CCoins) (nMaskCode : Z) : bool :=
  unspent_at (c_vout c) 0 || unspent_at (c_vout c) 1 || negb (nMaskCode =? 0).

Section coins.
Context (ec_uncompressed : list byte -> option (list byte)) (buf : list byte).

(** [None] is the failed assertion. *)
Definition coins_GetSerializeSize (c : CCoins) : option Z :=
  let '(nMaskSize, nMaskCode) := CalcMaskSize (c_vout c) in
  if negb (coins_assert c nMaskCode) then None else
  Some (u32 (default 0 (GetSizeOfVarInt 32 (c_nVersion c))
    + default 0 (GetSizeOfVarInt 32 (coins_nCode 8 c nMaskCode))
    + nMaskSize
    + fold_left (fun n o => if negb (CTxOut_IsNull o) then n + txout_GetSerializeSize ec_uncompressed buf o else n)
        (c_vout c) 0
    + default 0 (GetSizeOfVarInt 32 (nHeight c)))).

Definition coins_Serialize (c : CCoins) : option bytes :=
  let '(nMaskSize, nMaskCode) := CalcMaskSize (c_vout c) in
  if negb (coins_assert c nMaskCode) then None else
  Some (VARINT 32 (c_nVersion c)
    ++ VARINT 32 (coins_nCode 16 c nMaskCode)
    ++ map (fun b => byte.of_Z (chAvail (c_vout c) b)) (seq 0 (Z.to_nat nMaskSize))
    ++ flat_map (fun o => if negb (CTxOut_IsNull o) then txout_Serialize ec_uncompressed buf o else []) (c_vout c)
    ++ VARINT 32 (nHeight c)).

(** [while (nMaskCode > 0)]: each turn reads a byte. *)
Fixpoint read_mask (nMaskCode : Z) (vAvail : list bool) (s : bytes) : result ser_error (list bool * bytes) :=
  if 0 <? nMaskCode then
    match s with
    | [] => Err EndOfData
    | ch :: s =>
        let chAvail := byte.unsigned ch in
        let vAvail := vAvail ++ map (fun p => negb (Z.land chAvail (Z.shiftl 1 (Z.of_nat p)) =? 0)) (seq 0 8) in
        read_mask (if negb (chAvail =? 0) then nMaskCode - 1 else nMaskCode) vAvail s
    end
  else Ret (vAvail, s).

(** The loop over [vAvail]; each [vout[i]] is a new [CTxOut] before it is read. *)
Fixpoint read_outs (vAvail : list bool) : reader (list CTxOut) := fun s =>
  match vAvail with
  | [] => Ret ([], s)
  | f :: vAvail =>
      let* (o, s) := if f then txout_Unserialize ec_uncompressed buf CTxOut_SetNull s else Ret (CTxOut_SetNull, s) in
      let* (r, s) := read_outs vAvail s in
      Ret (o :: r, s)
  end.

Definition coins_Unserialize : reader CCoins := fun s =>
  let* (nVersion, s) := ReadVarInt i32 s in
  let* (nCode, s) := ReadVarInt u32 s in
  let has n := negb (Z.land nCode n =? 0) in
  let nMaskCode := nCode / 16 + (if has 12 then 0 else 1) in
  let* (vAvail, s) := read_mask nMaskCode [has 4; has 8] s in
  let* (vout, s) := read_outs vAvail s in
  let* (nHeight, s) := ReadVarInt i32 s in
  Ret (Cleanup (mk_CCoins (has 1) (has 2) vout nHeight nVersion), s).

(** ** The serialization of undo data *)

Definition undo_nCode (u : CTxInUndo) : Z :=
  u32 (u_nHeight u * 4 + bit (u_fCoinBase u) 2 + bit (u_fCoinStake u) 1).

Definition undo_GetSerializeSize (u : CTxInUndo) : Z :=
  default 0 (GetSizeOfVarInt 32 (undo_nCode u))
  + (if 0 <? u_nHeight u then default 0 (GetSizeOfVarInt 32 (u_nVersion u)) else 0)
  + txout_GetSerializeSize ec_uncompressed buf (u_txout u).

Definition undo_Serialize (u : CTxInUndo) : bytes :=
  VARINT 32 (undo_nCode u)
  ++ (if 0 <? u_nHeight u then VARINT 32 (u_nVersion u) else [])
  ++ txout_Serialize ec_uncompressed buf (u_txout u).

(** Reads into [u]. *)
Definition undo_Unserialize (u : CTxInUndo) : reader CTxInUndo := fun s =>
  let* (nCode, s) := ReadVarInt u32 s in
  let nHeight := Z.shiftr nCode 2 in
  let* (nVersion, s) := if 0 <? nHeight then ReadVarInt i32 s else Ret (u_nVersion u, s) in
  let* (txout, s) := txout_Unserialize ec_uncompressed buf (u_txout u) s in
  Ret (mk_CTxInUndo txout (negb (Z.land nCode 2 =? 0)) (negb (Z.land nCode 1 =? 0)) nHeight nVersion, s).

(** Undo data that the format restores into a new object. *)
Definition undo_storable (u : CTxInUndo) : Prop :=
  0 <= u_nHeight u < 2 ^ 30 /\ 0 <= u_nVersion u < 2 ^ 31 /\
  (u_nHeight u = 0 -> u_nVersion u = 0) /\ compressible (u_txout u) /\ nRounds (u_txout u) = -10.

Definition undo_Serializer : Serializer CTxInUndo := {|
  Serialize := undo_Serialize;
  Unserialize := undo_Unserialize CTxInUndo_new;
  GetSerializeSize := undo_GetSerializeSize;
  Serializable := undo_storable |}.

(** [CTxUndo] is its vector [vprevout]; [sizeof(CTxInUndo)] is 64. *)
Record CTxUndo : Type := mk_CTxUndo { vprevout : list CTxInUndo }.

Definition txundo_Serialize (u : CTxUndo) : bytes := @Serialize_vec _ undo_Serializer (vprevout u).
Definition txundo_Unserialize : reader CTxUndo := fun s =>
  let* (v, s) := @Unserialize_vec _ undo_Serializer (5000000 / 64) s in Ret (mk_CTxUndo v, s).
End coins.

(** ** Spentness masks *)

Section mask.
Context (vout : list CTxOut).

(** Whether byte [b] of the mask has a bit set. *)
Definition used (b : nat) : bool := existsb (fun i => unspent_at vout (2 + b * 8 + i)) (seq 0 8).
Definition count_used (bs : list nat) : Z := Z.of_nat (length (List.filter used bs)).

Lemma mask8_spec (f : nat -> bool) :
  let ch := fold_left (fun ch i => if f i then Z.lor ch (Z.shiftl 1 (Z.of_nat i)) else ch) (seq 0 8) 0 in
  0 <= ch < 256 /\
  map (fun p => negb (Z.land ch (Z.shiftl 1 (Z.of_nat p)) =? 0)) (seq 0 8) = map f (seq 0 8) /\
  (ch =? 0) = negb (existsb f (seq 0 8)).
Proof using.
  cbn [seq fold_left map existsb].
  destruct (f 0%nat), (f 1%nat), (f 2%nat), (f 3%nat), (f 4%nat), (f 5%nat), (f 6%nat), (f 7%nat);
    vm_compute; (split; [split; congruence|]); by split.
Qed.

Lemma chAvail_spec b :
  let ch := byte.unsigned (byte.of_Z (chAvail vout b)) in
  map (fun p => negb (Z.land ch (Z.shiftl 1 (Z.of_nat p)) =? 0)) (seq 0 8) =
    map (fun i => unspent_at vout (2 + b * 8 + i)) (seq 0 8) /\
  (ch =? 0) = negb (used b).
Proof using.
  destruct (mask8_spec (fun i => unspent_at vout (2 + b * 8 + i))) as (R & M & Z0).
  fold (chAvail vout b) in R, M, Z0. cbv zeta.
  rewrite byte.unsigned_of_Z. unfold byte.wrap. rewrite Z.mod_small by lia. by split.
Qed.

(** Reading a mask whose last byte is used stops at its end. *)
Lemma read_mask_spec bs acc rest : (forall b, last bs = Some b -> used b = true) ->
  read_mask (count_used bs) acc (map (fun b => byte.of_Z (chAvail vout b)) bs ++ rest) =
  Ret (acc ++ flat_map (fun b => map (fun i => unspent_at vout (2 + b * 8 + i)) (seq 0 8)) bs, rest).
Proof using.
  revert acc. induction bs as [|b bs IH]; intros acc Hl.
  { cbn. rewrite app_nil_r. by destruct rest. }
  assert (Hpos : 0 < count_used (b :: bs)).
  { destruct (last (b :: bs)) as [x|] eqn:E; [|by apply last_None in E].
    unfold count_used. assert (In x (List.filter used (b :: bs))) as Hin.
    { apply filter_In. split; [|by apply Hl]. apply last_Some in E as [l' ->]. apply in_or_app. right. by left. }
    destruct (List.filter used (b :: bs)); [done|cbn [length]; lia]. }
  assert (Hl' : forall x, last bs = Some x -> used x = true).
  { intros x Hx. apply Hl. destruct bs as [|y bs]; [done|]. exact Hx. }
  destruct (chAvail_spec b) as [M Z0]. cbn [map app read_mask flat_map].
  destruct (Z.ltb_spec 0 (count_used (b :: bs))); [|lia]. cbv zeta. rewrite M, Z0.
  replace (if negb (negb (used b)) then count_used (b :: bs) - 1 else count_used (b :: bs)) with (count_used bs).
  - rewrite IH by done. by rewrite <- app_assoc.
  - unfold count_used. cbn [List.filter]. destruct (used b); cbn [negb length]; lia.
Qed.

(** What [CalcMaskSize] computes: the end of the used bytes and their number. *)
Lemma CalcMaskSize_loop_spec fuel b N :
  (N <= b)%nat -> (forall x, last (seq 0 N) = Some x -> used x = true) ->
  (forall x, (N <= x < b)%nat -> used x = false) -> (length vout <= fuel + (2 + b * 8))%nat ->
  exists M, CalcMaskSize_loop fuel vout b (Z.of_nat N) (count_used (seq 0 N)) = (Z.of_nat M, count_used (seq 0 M)) /\
    (forall x, last (seq 0 M) = Some x -> used x = true) /\ (forall x, (M <= x)%nat -> used x = false) /\
    (M <= Nat.max N (length vout))%nat.
Proof using.
  assert (E : forall b', (length vout <= 2 + b' * 8)%nat -> forall x, (b' <= x)%nat -> used x = false).
  { intros b' Hb x Hx. unfold used. apply not_true_iff_false. rewrite existsb_exists. intros (i & _ & U).
    unfold unspent_at in U. rewrite lookup_ge_None_2 in U by lia. done. }
  revert b N. induction fuel as [|f IH]; intros b N HN Hl Hz Hf; cbn [CalcMaskSize_loop].
  - exists N. repeat split; try done; [|lia]. intros x Hx. destruct (decide (x < b)%nat); [apply Hz; lia|].
    apply (E b); lia.
  - destruct (Nat.ltb_spec (2 + b * 8) (length vout)) as [L|L].
    2: { exists N. repeat split; try done; [|lia]. intros x Hx. destruct (decide (x < b)%nat); [apply Hz; lia|].
         apply (E b); lia. }
    fold (used b). destruct (used b) eqn:U; cbn [negb].
    + assert (Ec : count_used (seq 0 N) + 1 = count_used (seq 0 (b + 1))).
      { unfold count_used. replace (seq 0 (b + 1)) with (seq 0 N ++ seq N (b - N) ++ [b]).
        - rewrite !List.filter_app, !length_app. cbn [List.filter]. rewrite U. cbn [length].
          replace (List.filter used (seq N (b - N))) with (@nil nat); [cbn [length]; lia|].
          symmetry. apply list.elem_of_nil_inv. intros x Hx%list_elem_of_In. apply filter_In in Hx as [Hx Ux].
          apply in_seq in Hx. rewrite Hz in Ux by lia. done.
        - rewrite app_assoc, <- seq_app. replace (N + (b - N))%nat with b by lia. by rewrite seq_app. }
      rewrite Ec. replace (Z.of_nat b + 1) with (Z.of_nat (b + 1)) by lia.
      destruct (IH (b + 1)%nat (b + 1)%nat) as (M & -> & HM1 & HM2 & HM3); [lia| | |lia|].
      * intros x Hx. rewrite seq_app in Hx. cbn [seq Nat.add] in Hx. rewrite last_snoc in Hx. by injection Hx as <-.
      * intros x Hx. lia.
      * exists M. repeat split; try done. lia.
    + destruct (IH (b + 1)%nat N) as (M & -> & HM1 & HM2 & HM3); [lia|done| |lia|].
      * intros x Hx. destruct (decide (x = b)) as [->|]; [done|]. apply Hz. lia.
      * exists M. repeat split; try done.
Qed.

Lemma CalcMaskSize_spec : exists M, CalcMaskSize vout = (Z.of_nat M, count_used (seq 0 M)) /\
  (forall x, last (seq 0 M) = Some x -> used x = true) /\ (forall x, (M <= x)%nat -> used x = false) /\
  (M <= length vout)%nat.
Proof using.
  destruct (CalcMaskSize_loop_spec (length vout) 0 0) as (M & E & H1 & H2 & H3); [lia|done|intros; lia|lia|].
  exists M. repeat split; try done; lia.
Qed.

(** The bits of the header and the mask are those of the first outputs. *)
Lemma mask_bits M :
  [unspent_at vout 0; unspent_at vout 1]
  ++ flat_map (fun b => map (fun i => unspent_at vout (2 + b * 8 + i)) (seq 0 8)) (seq 0 M) =
  map (unspent_at vout) (seq 0 (2 + 8 * M)).
Proof using.
  assert (G : flat_map (fun b => map (fun i => unspent_at vout (2 + b * 8 + i)) (seq 0 8)) (seq 0 M) =
              map (unspent_at vout) (seq 2 (8 * M))).
  { induction M as [|M IH]; [done|]. replace (8 * S M)%nat with (8 * M + 8)%nat by lia.
    rewrite (seq_S M 0), flat_map_app, IH, (seq_app (8 * M) 8), map_app. f_equal. cbn [flat_map]. rewrite app_nil_r.
    rewrite <- (map_map (fun i => 2 + (0 + M) * 8 + i)%nat (unspent_at vout)). f_equal.
    cbn [seq map]. repeat (apply (f_equal2 cons); [lia|]). done. }
  rewrite G. cbn [Nat.add seq map app]. done.
Qed.

Lemma used_unspent j : (2 <= j)%nat -> unspent_at vout j = true -> used ((j - 2) / 8) = true.
Proof using.
  intros Hj H. unfold used. apply existsb_exists. exists ((j - 2) mod 8)%nat.
  pose proof (Nat.div_mod_eq (j - 2) 8). pose proof (Nat.mod_upper_bound (j - 2) 8 ltac:(lia)).
  split; [apply in_seq; lia|].
  replace (2 + (j - 2) / 8 * 8 + (j - 2) mod 8)%nat with j by lia. done.
Qed.
End mask.

(** ** Reading the outputs *)

(** No spent output at the end. *)
Definition clean (vout : list CTxOut) : Prop := Cleanup_vout vout = vout.

Lemma pop_nulls_repeat n v : pop_nulls (repeat CTxOut_SetNull n ++ v) = pop_nulls v.
Proof. induction n; [done|]. cbn [repeat app pop_nulls]. exact IHn. Qed.

Lemma rev_repeat' {A} (x : A) n : rev (repeat x n) = repeat x n.
Proof. symmetry. apply repeat_eq_rev || (induction n; [done|]; cbn [repeat rev]; rewrite <- IHn; by rewrite repeat_cons). Qed.

Lemma Cleanup_vout_padded v n : Cleanup_vout (v ++ repeat CTxOut_SetNull n) = Cleanup_vout v.
Proof. unfold Cleanup_vout. by rewrite rev_app_distr, rev_repeat', pop_nulls_repeat. Qed.

Lemma pop_nulls_idem v : pop_nulls (pop_nulls v) = pop_nulls v.
Proof. induction v as [|o v IH]; [done|]. cbn [pop_nulls]. destruct (CTxOut_IsNull o) eqn:E; [done|]. cbn. by rewrite E. Qed.

Lemma Cleanup_clean v : clean (Cleanup_vout v).
Proof. unfold clean, Cleanup_vout. by rewrite rev_involutive, pop_nulls_idem. Qed.

Lemma clean_nil : clean [].
Proof. done. Qed.

(** The last output of a clean vector is unspent. *)
Lemma clean_last v o : clean v -> last v = Some o -> CTxOut_IsNull o = false.
Proof.
  unfold clean, Cleanup_vout. intros H [l ->]%last_Some. rewrite rev_app_distr in H. cbn [rev app] in H.
  cbn [pop_nulls] in H. destruct (CTxOut_IsNull o); [|done]. exfalso.
  assert (L : forall r, (length (pop_nulls r) <= length r)%nat).
  { induction r as [|x r IH]; [done|]. cbn [pop_nulls]. destruct (CTxOut_IsNull x); cbn [length]; lia. }
  apply (f_equal length) in H. rewrite length_rev, length_app in H. specialize (L (rev l)).
  rewrite length_rev in L. cbn [length] in H. lia.
Qed.

(** The elements up to [M], padded with spent outputs. *)
Lemma padded_lookup v M :
  map (fun j => default CTxOut_SetNull (v !! j)) (seq 0 M) = take M v ++ repeat CTxOut_SetNull (M - length v).
Proof.
  revert M. induction v as [|o v IH]; intros M.
  - cbn [take length]. rewrite take_nil, Nat.sub_0_r. cbn [app].
    assert (G : forall k, map (fun j => default CTxOut_SetNull (@nil CTxOut !! j)) (seq k M) = repeat CTxOut_SetNull M).
    { induction M as [|M IHM]; intros k; [done|]. cbn [seq map repeat]. by rewrite IHM. }
    apply G.
  - destruct M as [|M]; [done|]. cbn [seq map take length Nat.sub app]. f_equal.
    rewrite <- IH, <- seq_shift, map_map. done.
Qed.

Lemma unspent_at_padded v j :
  unspent_at v j = negb (CTxOut_IsNull (default CTxOut_SetNull (v !! j))).
Proof. unfold unspent_at. by destruct (v !! j). Qed.

Section coins_roundtrip.
Context (ec : list byte -> option (list byte)) (buf : list byte).

(** An output as the format keeps it: a spent one has no data. *)
Definition storable_out (o : CTxOut) : Prop :=
  if CTxOut_IsNull o then o = CTxOut_SetNull else compressible o /\ nRounds o = -10.

Abbreviation ser_out o := (if negb (CTxOut_IsNull o) then txout_Serialize ec buf o else []).

(** The outputs past the mask are spent, so only those up to it are written. *)
Lemma written_outs v M : (forall j, (M <= j)%nat -> unspent_at v j = false) ->
  flat_map (fun o => ser_out o) v =
  flat_map (fun o => ser_out o) (map (fun j => default CTxOut_SetNull (v !! j)) (seq 0 M)).
Proof.
  intros H. rewrite padded_lookup, flat_map_app.
  assert (R : forall n, flat_map (fun o => ser_out o) (repeat CTxOut_SetNull n) = []) by (induction n; done).
  rewrite R, app_nil_r. rewrite <- (take_drop M v) at 1. rewrite flat_map_app.
  assert (D : flat_map (fun o => ser_out o) (drop M v) = []); [|by rewrite D, app_nil_r].
  assert (Hd : forall j, unspent_at (drop M v) j = false).
  { intros j. unfold unspent_at. rewrite lookup_drop. apply (H (M + j)%nat). lia. }
  revert Hd. generalize (drop M v) as l. clear. induction l as [|o l IH]; intros Hd; [done|].
  cbn [flat_map]. specialize (Hd 0%nat) as H0. unfold unspent_at in H0. cbn in H0. rewrite H0. cbn [app].
  apply IH. intros j. exact (Hd (S j)).
Qed.

(** Coins that the format restores: not fully spent, with the fields in range. *)
Definition storable (c : CCoins) : Prop :=
  clean (c_vout c) /\ Forall storable_out (c_vout c) /\ c_vout c <> [] /\
  Z.of_nat (length (c_vout c)) < 2 ^ 25 /\ 0 <= nHeight c < 2 ^ 31 /\ 0 <= c_nVersion c < 2 ^ 31.

Lemma count_used_bound v bs : 0 <= count_used v bs <= Z.of_nat (length bs).
Proof. unfold count_used. pose proof (List.filter_length_le (used v) bs). lia. Qed.

(** Some output is unspent, so the assertion holds. *)
Lemma storable_assert c : storable c -> forall M, CalcMaskSize (c_vout c) = (Z.of_nat M, count_used (c_vout c) (seq 0 M)) ->
  (forall x, (M <= x)%nat -> used (c_vout c) x = false) -> (forall x, last (seq 0 M) = Some x -> used (c_vout c) x = true) ->
  coins_assert c (count_used (c_vout c) (seq 0 M)) = true /\
  (2 + 8 * M >= length (c_vout c))%nat /\
  (unspent_at (c_vout c) 0 || unspent_at (c_vout c) 1 = false -> 0 < count_used (c_vout c) (seq 0 M)).
Proof.
  intros (Hc & _ & Hn & _) M _ HM Hl. destruct (last (c_vout c)) as [o|] eqn:E; [|by apply last_None in E].
  pose proof (clean_last _ _ Hc E) as Ho. rewrite last_lookup in E. set (j := Nat.pred (length (c_vout c))) in E.
  assert (U : unspent_at (c_vout c) j = true) by (unfold unspent_at; by rewrite E, Ho).
  assert (Lj : (j < length (c_vout c))%nat) by (by apply lookup_lt_Some in E).
  assert (P : unspent_at (c_vout c) 0 || unspent_at (c_vout c) 1 = false -> 0 < count_used (c_vout c) (seq 0 M)).
  { intros F. destruct M as [|M].
    - exfalso. assert (2 <= j)%nat by (destruct j as [|[|j]]; [by rewrite U in F|by rewrite U, orb_true_r in F|lia]).
      pose proof (used_unspent (c_vout c) j ltac:(lia) U) as Us. rewrite HM in Us by lia. done.
    - specialize (Hl M). rewrite seq_S, last_snoc in Hl. specialize (Hl eq_refl). unfold count_used. rewrite seq_S.
      rewrite List.filter_app. cbn [Nat.add List.filter]. rewrite Hl, length_app. cbn [length]. lia. }
  split; [|split; [|exact P]].
  - unfold coins_assert. destruct (_ || _) eqn:F; [done|]. specialize (P eq_refl).
    destruct (Z.eqb_spec (count_used (c_vout c) (seq 0 M)) 0); [lia|done].
  - destruct (decide (2 + 8 * M < length (c_vout c))%nat) as [L|L]; [exfalso|lia].
    assert (2 <= j)%nat by lia. pose proof (used_unspent (c_vout c) j ltac:(lia) U) as Us.
    rewrite HM in Us; [done|]. apply Nat.div_le_lower_bound; lia.
Qed.

Lemma coins_Serialize_Some c : storable c -> exists b, coins_Serialize ec buf c = Some b.
Proof.
  intros Hc. destruct (CalcMaskSize_spec (c_vout c)) as (M & E & Hl & Hu & HM).
  destruct (storable_assert c Hc M E Hu Hl) as (Ha & _). unfold coins_Serialize. rewrite E, Ha. by eexists.
Qed.

(** The header code carries its four flags and the mask code. *)
Lemma nCode_flags k b1 b2 b4 b8 : 0 <= k ->
  let n := 16 * k + bit b1 1 + bit b2 2 + bit b4 4 + bit b8 8 in
  n / 16 = k /\ negb (Z.land n 1 =? 0) = b1 /\ negb (Z.land n 2 =? 0) = b2 /\ negb (Z.land n 4 =? 0) = b4 /\
  negb (Z.land n 8 =? 0) = b8 /\ negb (Z.land n 12 =? 0) = b4 || b8.
Proof.
  intros Hk. set (c := bit b1 1 + bit b2 2 + bit b4 4 + bit b8 8).
  assert (Hc : 0 <= c < 2 ^ 4) by (subst c; unfold bit; destruct b1, b2, b4, b8; lia).
  replace (16 * k + bit b1 1 + bit b2 2 + bit b4 4 + bit b8 8) with (k * 2 ^ 4 + c) by (subst c; change (2 ^ 4) with 16; lia).
  cbv zeta. rewrite !land_low by (lia || done). change (2 ^ 4) with 16 in *.
  split; [symmetry; apply (Z.div_unique _ _ _ c); lia|].
  subst c. by destruct b1, b2, b4, b8.
Qed.

Lemma storable_nCode c M : storable c -> (M <= length (c_vout c))%nat ->
  (unspent_at (c_vout c) 0 || unspent_at (c_vout c) 1 = false -> 0 < count_used (c_vout c) (seq 0 M)) ->
  exists k, 0 <= k < 2 ^ 25 /\
    k + (if unspent_at (c_vout c) 0 || unspent_at (c_vout c) 1 then 0 else 1) = count_used (c_vout c) (seq 0 M) /\
    forall f, 0 <= f <= 16 -> coins_nCode f c (count_used (c_vout c) (seq 0 M)) =
      f * k + bit (fCoinBase c) 1 + bit (fCoinStake c) 2 + bit (unspent_at (c_vout c) 0) 4 + bit (unspent_at (c_vout c) 1) 8.
Proof.
  intros (_ & _ & _ & Hlen & _) HM P. pose proof (count_used_bound (c_vout c) (seq 0 M)) as B. rewrite length_seq in B.
  set (n := count_used _ _) in *. exists (n - (if unspent_at (c_vout c) 0 || unspent_at (c_vout c) 1 then 0 else 1)).
  assert (Hk : 0 <= n - (if unspent_at (c_vout c) 0 || unspent_at (c_vout c) 1 then 0 else 1) < 2 ^ 25).
  { destruct (_ || _); [lia|]. specialize (P eq_refl). lia. }
  split; [done|]. split; [lia|]. intros f Hf. unfold coins_nCode. cbv zeta.
  rewrite (u32_small (n - _)) by (unfold in_u32; lia). apply u32_small. unfold in_u32, bit.
  destruct (fCoinBase c), (fCoinStake c), (unspent_at (c_vout c) 0), (unspent_at (c_vout c) 1); cbn [orb] in *; nia.
Qed.

(** A non-negative [int] is written and read as itself. *)
Lemma VARINT_int n rest : 0 <= n < 2 ^ 31 -> ReadVarInt i32 (VARINT 32 n ++ rest) = Ret (n, rest).
Proof.
  intros Hn. destruct (WriteVarInt_spec i32 31 ltac:(lia) ltac:(intros x Hx; apply i32_small; unfold in_i32; lia)
    n rest ltac:(lia)) as (out & E & _ & _ & R).
  unfold VARINT. change (WriteVarInt 32 n) with (WriteVarInt 31 n). by rewrite E.
Qed.

Context (Hbuf : length buf = 65%nat).
Context (Hec : forall x y, length x = 32%nat -> length y = 32%nat ->
  is_Some (ec (Byte.x04 :: x ++ y)) ->
  ec (byte.of_Z (2 + parity y) :: x) = Some (Byte.x04 :: x ++ y)).

Lemma read_outs_spec l rest : Forall storable_out l ->
  read_outs ec buf (map (fun o => negb (CTxOut_IsNull o)) l) (flat_map (fun o => ser_out o) l ++ rest) = Ret (l, rest).
Proof using Hbuf Hec.
  induction 1 as [|o l Ho Hl IH]; [done|]. cbn [map flat_map read_outs]. unfold storable_out in Ho.
  destruct (CTxOut_IsNull o); cbn [negb app].
  - subst o. cbn [result_bind]. by rewrite IH.
  - destruct Ho as [Hc Hr]. rewrite <- app_assoc, (txout_Unserialize_Serialize ec buf Hbuf Hec) by done.
    cbn [result_bind]. rewrite IH. cbn [result_bind]. do 3 f_equal. destruct o; cbn in *. by subst.
Qed.

Lemma coins_Unserialize_Serialize c rest : storable c ->
  exists b, coins_Serialize ec buf c = Some b /\ coins_Unserialize ec buf (b ++ rest) = Ret (c, rest).
Proof using Hbuf Hec.
  intros Hc. destruct (CalcMaskSize_spec (c_vout c)) as (M & E & Hl & Hu & HM).
  destruct (storable_assert c Hc M E Hu Hl) as (Ha & Hlen & P).
  destruct (storable_nCode c M Hc HM P) as (k & Hk & Ek & Hcode).
  unfold coins_Serialize. rewrite E, Ha. cbn [negb]. eexists; split; [reflexivity|].
  destruct Hc as (Hcl & Hout & Hne & Hvl & Hh & Hv).
  rewrite Hcode by lia. destruct (nCode_flags k (fCoinBase c) (fCoinStake c) (unspent_at (c_vout c) 0)
    (unspent_at (c_vout c) 1) ltac:(lia)) as (F0 & F1 & F2 & F4 & F8 & F12).
  set (n := 16 * k + _ + _ + _ + _) in *.
  assert (Hn : 0 <= n < 2 ^ 32).
  { subst n. unfold bit. destruct (fCoinBase c), (fCoinStake c), (unspent_at (c_vout c) 0), (unspent_at (c_vout c) 1); lia. }
  unfold coins_Unserialize. rewrite <- !app_assoc, VARINT_int by done. cbn [result_bind].
  destruct (VARINT_spec 32 n (map (fun b => byte.of_Z (chAvail (c_vout c) b)) (seq 0 (Z.to_nat (Z.of_nat M))) ++
     flat_map (fun o => ser_out o) (c_vout c) ++ VARINT 32 (nHeight c) ++ rest) ltac:(lia) Hn) as [_ R].
  change u32 with (fun x => x mod 2 ^ Z.of_nat 32). rewrite R. cbn [result_bind]. cbv zeta.
  rewrite F0, F1, F2, F4, F8, F12, Nat2Z.id.
  replace (k + (if unspent_at (c_vout c) 0 || unspent_at (c_vout c) 1 then 0 else 1)) with (count_used (c_vout c) (seq 0 M)) by lia.
  rewrite read_mask_spec by done. cbn [result_bind]. rewrite mask_bits.
  rewrite (written_outs (c_vout c) (2 + 8 * M)).
  - rewrite (map_ext _ _ (unspent_at_padded (c_vout c))), <- (map_map (fun j => default CTxOut_SetNull (c_vout c !! j)) (fun o => negb (CTxOut_IsNull o))).
    rewrite read_outs_spec.
    + cbn [result_bind]. rewrite VARINT_int by done. cbn [result_bind]. do 2 f_equal. unfold Cleanup, with_vout.
      cbn [fCoinBase fCoinStake c_vout nHeight c_nVersion].
      rewrite padded_lookup, take_ge, Cleanup_vout_padded, Hcl by lia. by destruct c.
    + rewrite padded_lookup. apply Forall_app. split; [by apply Forall_take|].
      apply Forall_forall. intros o Ho%list_elem_of_In%repeat_spec. by subst o.
  - intros j Hj. destruct (unspent_at (c_vout c) j) eqn:U; [|done].
    pose proof (used_unspent (c_vout c) j ltac:(lia) U) as Us. rewrite Hu in Us; [done|].
    apply Nat.div_le_lower_bound; lia.
Qed.
End coins_roundtrip.

(** ** The announced size *)

Lemma VARINT_int_length n : 0 <= n < 2 ^ 31 -> Z.of_nat (length (VARINT 32 n)) = default 0 (GetSizeOfVarInt 32 n).
Proof. intros Hn. by destruct (VARINT_spec 32 n [] ltac:(lia) ltac:(lia)) as [-> _]. Qed.

(** One byte holds the codes up to 127. *)
Lemma GetSizeOfVarInt_small n : n <= 127 -> GetSizeOfVarInt 32 n = Some 1.
Proof. intros Hn. unfold GetSizeOfVarInt. cbn. by destruct (Z.leb_spec n 127); [|lia]. Qed.

Section coins_size.
Context (ec : list byte -> option (list byte)) (buf : list byte).

Lemma outs_length v k : Forall storable_out v ->
  fold_left (fun n o => if negb (CTxOut_IsNull o) then n + txout_GetSerializeSize ec buf o else n) v k =
  k + Z.of_nat (length (flat_map (fun o => if negb (CTxOut_IsNull o) then txout_Serialize ec buf o else []) v)).
Proof.
  intros H. revert k. induction H as [|o v Ho Hv IH]; intros k; cbn [fold_left flat_map]; [cbn; lia|].
  rewrite IH, length_app. unfold storable_out in Ho. destruct (CTxOut_IsNull o); cbn [negb length]; [lia|].
  rewrite <- txout_Serialize_length by apply Ho. lia.
Qed.

(** While the mask has at most seven used bytes, both header codes take one byte. *)
Lemma coins_size c b : storable c -> coins_Serialize ec buf c = Some b -> (CalcMaskSize (c_vout c)).2 <= 7 ->
  coins_GetSerializeSize ec buf c = Some (u32 (Z.of_nat (length b))).
Proof.
  intros Hc. destruct (CalcMaskSize_spec (c_vout c)) as (M & E & Hl & Hu & HM).
  destruct (storable_assert c Hc M E Hu Hl) as (Ha & Hlen & P).
  destruct (storable_nCode c M Hc HM P) as (k & Hk & Ek & Hcode).
  unfold coins_Serialize, coins_GetSerializeSize. rewrite E, Ha. cbn [negb snd]. intros [= <-] H7.
  destruct Hc as (Hcl & Hout & Hne & Hvl & Hh & Hv). f_equal. f_equal.
  rewrite !length_app, !Nat2Z.inj_add, !VARINT_int_length by done.
  rewrite length_map, length_seq, Nat2Z.id, outs_length by done.
  assert (B : forall f, 0 <= f <= 16 -> 0 <= coins_nCode f c (count_used (c_vout c) (seq 0 M)) <= 127).
  { intros f Hf. rewrite Hcode by done. assert (k <= 7) by (revert Ek; destruct (_ || _); intros Ek; lia). unfold bit.
    destruct (fCoinBase c), (fCoinStake c), (unspent_at (c_vout c) 0), (unspent_at (c_vout c) 1); nia. }
  pose proof (B 16 ltac:(lia)) as B16. pose proof (B 8 ltac:(lia)) as B8.
  rewrite (VARINT_int_length (nHeight c)), VARINT_int_length by lia. rewrite (GetSizeOfVarInt_small (coins_nCode 16 _ _)) by lia.
  rewrite (GetSizeOfVarInt_small (coins_nCode 8 _ _)) by lia. cbn [default]. lia.
Qed.
End coins_size.

(** ** Undo data *)

Section undo_roundtrip.
Context (ec : list byte -> option (list byte)) (buf : list byte).

Lemma undo_nCode_flags h b2 b1 : 0 <= h < 2 ^ 30 ->
  let n := u32 (h * 4 + bit b2 2 + bit b1 1) in
  0 <= n < 2 ^ 32 /\ Z.shiftr n 2 = h /\ negb (Z.land n 2 =? 0) = b2 /\ negb (Z.land n 1 =? 0) = b1.
Proof.
  intros Hh. set (c := bit b2 2 + bit b1 1). assert (Hc : 0 <= c < 2 ^ 2) by (subst c; unfold bit; destruct b1, b2; lia).
  replace (h * 4 + bit b2 2 + bit b1 1) with (h * 2 ^ 2 + c) by (subst c; change (2 ^ 2) with 4; lia).
  change (2 ^ 2) with 4 in Hc. cbv zeta. rewrite u32_small by (unfold in_u32; lia).
  rewrite !land_low by (lia || done). rewrite Z.shiftr_div_pow2 by lia. change (2 ^ 2) with 4.
  split; [lia|]. split; [symmetry; apply (Z.div_unique _ _ _ c); lia|]. subst c. by destruct b1, b2.
Qed.

Lemma undo_size u : undo_storable u ->
  Z.of_nat (length (undo_Serialize ec buf u)) = undo_GetSerializeSize ec buf u.
Proof.
  intros (Hh & Hv & Hz & Hc & Hr). unfold undo_Serialize, undo_GetSerializeSize, undo_nCode.
  destruct (undo_nCode_flags (u_nHeight u) (u_fCoinBase u) (u_fCoinStake u) Hh) as (Hn & _).
  destruct (VARINT_spec 32 _ [] ltac:(lia) Hn) as [L _].
  rewrite !length_app, !Nat2Z.inj_add, L, txout_Serialize_length by done.
  destruct (0 <? u_nHeight u); [rewrite VARINT_int_length by done; lia|cbn [length]; lia].
Qed.

Context (Hbuf : length buf = 65%nat).
Context (Hec : forall x y, length x = 32%nat -> length y = 32%nat ->
  is_Some (ec (Byte.x04 :: x ++ y)) ->
  ec (byte.of_Z (2 + parity y) :: x) = Some (Byte.x04 :: x ++ y)).

Lemma undo_Unserialize_Serialize u rest : undo_storable u ->
  undo_Unserialize ec buf CTxInUndo_new (undo_Serialize ec buf u ++ rest) = Ret (u, rest).
Proof using Hbuf Hec.
  intros (Hh & Hv & Hz & Hc & Hr). unfold undo_Serialize, undo_Unserialize, undo_nCode. rewrite <- !app_assoc.
  destruct (undo_nCode_flags (u_nHeight u) (u_fCoinBase u) (u_fCoinStake u) Hh) as (Hn & Fh & F2 & F1).
  set (n := u32 _) in *. clearbody n. destruct (VARINT_spec 32 n ((if 0 <? u_nHeight u then VARINT 32 (u_nVersion u) else [])
     ++ txout_Serialize ec buf (u_txout u) ++ rest) ltac:(lia) Hn) as [_ R].
  change u32 with (fun x => x mod 2 ^ Z.of_nat 32). rewrite R. cbn [result_bind]. rewrite Fh, F2, F1.
  destruct (Z.ltb_spec 0 (u_nHeight u)).
  - rewrite VARINT_int by done. cbn [result_bind].
    rewrite (txout_Unserialize_Serialize ec buf Hbuf Hec) by done. cbn [result_bind].
    destruct u as [[? ? ?] ? ? ? ?]; cbn in *. by subst.
  - cbn [result_bind app]. rewrite (txout_Unserialize_Serialize ec buf Hbuf Hec) by done. cbn [result_bind].
    destruct u as [[? ? ?] ? ? ? ?]; cbn in *. do 2 f_equal. f_equal; [by subst|lia].
Qed.

Lemma undo_SerializerRoundTrip : @SerializerRoundTrip _ (undo_Serializer ec buf).
Proof using Hbuf Hec.
  split; [intros; by apply undo_Unserialize_Serialize | intros; by apply undo_size].
Qed.

(** C40: the coin database and the undo files. Coins that are not fully spent are
    restored from what is written for them: the flags, the unspent outputs at their
    positions, the height and the version; the undo data of a transaction likewise.
    The size announced for coins is the number of bytes written as long as at most seven
    bytes of the mask are used. *)
Theorem coins_and_undo_roundtrip (c : CCoins) (u : CTxUndo) (rest : bytes) (Hc : storable c)
    (Hl : Z.of_nat (length (vprevout u)) <= MAX_SIZE) (Hu : Forall undo_storable (vprevout u)) :
  (exists b, coins_Serialize ec buf c = Some b /\
     coins_Unserialize ec buf (b ++ rest) = Ret (c, rest) /\
     ((CalcMaskSize (c_vout c)).2 <= 7 -> coins_GetSerializeSize ec buf c = Some (u32 (Z.of_nat (length b))))) /\
  txundo_Unserialize ec buf (txundo_Serialize ec buf u ++ rest) = Ret (u, rest).
Proof using Hbuf Hec.
  split.
  - destruct (coins_Unserialize_Serialize ec buf Hbuf Hec c rest Hc) as (b & E & R).
    exists b. repeat split; [done|done|]. by apply coins_size.
  - unfold txundo_Unserialize, txundo_Serialize.
    rewrite (@Unserialize_vec_app _ _ undo_SerializerRoundTrip) by done. by destruct u.
Qed.
End undo_roundtrip.

(** The size announced is wrong from the eighth used byte on: the code is scaled by 8
    there and by 16 where it is written. *)
Definition many_outputs : CCoins :=
  mk_CCoins false false (CTxOut_make 1 [] :: CTxOut_SetNull ::
    flat_map (fun _ => repeat CTxOut_SetNull 7 ++ [CTxOut_make 1 []]) (seq 0 8)) 1 1.

Lemma coins_size_mismatch :
  exists b, coins_Serialize (fun _ => None) [] many_outputs = Some b /\
    coins_GetSerializeSize (fun _ => None) [] many_outputs = Some (Z.of_nat (length b) - 1).
Proof. eexists. split; vm_compute; reflexivity. Qed.

Lemma coins_and_undo_roundtrip_witness :
  let buf := repeat Byte.x00 65 in
  let c := mk_CCoins true false [CTxOut_SetNull; CTxOut_make 5 [Byte.x51]] 7 1 in
  let u := mk_CTxUndo [mk_CTxInUndo (CTxOut_make 5 [Byte.x51]) true false 7 1] in
  (exists b, coins_Serialize (fun _ => None) buf c = Some b /\ coins_Unserialize (fun _ => None) buf (b ++ [Byte.x01]) = Ret (c, [Byte.x01])) /\
  txundo_Unserialize (fun _ => None) buf (txundo_Serialize (fun _ => None) buf u ++ [Byte.x01]) = Ret (u, [Byte.x01]).
Proof.
  intros buf c u.
  assert (H5 : compressible (CTxOut_make 5 [Byte.x51])) by (split; [|split]; by vm_compute).
  assert (Hc : storable c).
  { split; [reflexivity|]. split; [constructor; [reflexivity|constructor; [by split|constructor]]|].
    split; [done|]. cbn. lia. }
  assert (Hu : Forall undo_storable (vprevout u)).
  { constructor; [|constructor]. unfold undo_storable. cbn [u_nHeight u_nVersion u_txout]. split; [lia|].
    split; [lia|]. split; [lia|]. by split. }
  destruct (coins_and_undo_roundtrip (fun _ => None) buf eq_refl ltac:(intros x y _ _ [? [=]]) c u [Byte.x01] Hc ltac:(by vm_compute) Hu)
    as [(b & E & R & _) U].
  split; [exists b; by split | exact U].
Defined.
