(* ===== verification/CoinsView.v ===== *)
(** * Views on the unspent outputs ([coins.h], [coins.cpp], [txdb.cpp])

    [CCoinsView] is the interface of the layers: the coin database at the bottom and
    caches stacked on it.  A view stands for a map from transaction hashes to coins that
    are not fully spent; the laws say how each operation acts on that map, and both the
    cache over any lawful view and the database satisfy them. *)

From Stdlib Require Import ZArith Lia List Bool.
From stdpp Require Import base option list gmap.
From coqutil Require Import Byte Word.LittleEndianList.
From S2P Require Import Prelude Uint256 Serialize MerkleDamgard Hash Script PubKey Tx Compressor Coins.

Open Scope Z_scope.
Open Scope btc_scope.

(** ** Cache entries *)

Record CCoinsCacheEntry : Type := mk_entry { coins : CCoins; flags : Z }.
Definition CCoinsCacheEntry_new : CCoinsCacheEntry := mk_entry CCoins_new 0.
Definition DIRTY : Z := 1.
Definition FRESH : Z := 2.
Definition flagged (e : CCoinsCacheEntry) (f : Z) : bool := negb (Z.land (flags e) f =? 0).

Abbreviation CCoinsMap := (gmap uint256 CCoinsCacheEntry).

(** ** The interface *)

(** An assertion fails, or the store throws. *)
Inductive view_error : Type := ViewAssert | StoreError.

(** The virtual functions of [CCoinsView].  The reading ones may fill caches, so they
    return the view. *)
Class CCoinsView (V : Type) : Type := {
  GetCoins : uint256 -> V -> V * option CCoins;
  HaveCoins : uint256 -> V -> V * bool;
  GetBestBlock : V -> V * uint256;
  BatchWrite : CCoinsMap -> uint256 -> V -> result view_error (V * bool);
}.

(** The coins a view offers: [None] when all outputs are spent. *)
Definition unspent (c : CCoins) : option CCoins := if IsPruned c then None else Some c.

(** Coins as the views hold them: without outputs, or such that the database can store
    them. *)
Definition coins_ok (c : CCoins) : Prop := c_vout c = [] \/ storable c.

Definition zero_hash : uint256 := base_uint_zero 8.

(** What an entry of a cache says of the view below, whose coins are [under] and whose
    cached entries are [pulled]. *)
Definition entry_ok (under : uint256 -> option CCoins) (pulled : uint256 -> Prop) (t : uint256) (e : CCoinsCacheEntry) : Prop :=
  wf 8 t /\ coins_ok (coins e) /\
  (flagged e FRESH = true -> under t = None) /\
  (flagged e FRESH = false -> pulled t) /\
  (flagged e DIRTY = false -> unspent (coins e) = under t).

(** Reading a view.  [view v] is the map it stands for, [pulled v] the hashes whose coins a
    cache holds ([True] for a view that is not a cache), [best v] its best block.
    [HaveCoins] may be true of coins that are all spent. *)
Class CCoinsViewOk (V : Type) `{CCoinsView V} : Type := {
  view : V -> uint256 -> option CCoins;
  pulled : V -> uint256 -> Prop;
  best : V -> uint256;
  view_ok : V -> Prop;
  GetCoins_law v t : view_ok v -> wf 8 t ->
    let '(v', r) := GetCoins t v in
    view_ok v' /\ (forall x, view v' x = view v x) /\ (forall x, pulled v x -> pulled v' x) /\ best v' = best v /\
    (r ≫= unspent) = view v t /\
    (forall c, r = Some c -> coins_ok c /\ (IsPruned c = false -> pulled v' t));
  HaveCoins_law v t : view_ok v -> wf 8 t ->
    let '(v', b) := HaveCoins t v in
    view_ok v' /\ (forall x, view v' x = view v x) /\ (forall x, pulled v x -> pulled v' x) /\ best v' = best v /\
    (is_Some (view v t) -> b = true);
  GetBestBlock_law v : view_ok v ->
    let '(v', h) := GetBestBlock v in
    view_ok v' /\ (forall x, view v' x = view v x) /\ (forall x, pulled v x -> pulled v' x) /\ best v' = best v /\
    h = best v /\ wf 8 h;
}.

(** A view that can be written. *)
Class CCoinsViewWrites (V : Type) `{CCoinsViewOk V} : Prop := {
  BatchWrite_law v m h : view_ok v -> wf 8 h -> map_Forall (entry_ok (view v) (pulled v)) m ->
    match BatchWrite m h v with
    | Ret (v', ok) => ok = true ->
        view_ok v' /\
        (forall t, wf 8 t -> view v' t = match m !! t with Some e => unspent (coins e) | None => view v t end) /\
        (h <> zero_hash -> best v' = h)
    | Err e => e = StoreError
    end;
}.

(** ** [CCoinsView] itself: an empty view that cannot be written *)

Inductive NoCoins : Type := no_coins.

#[export] Instance CCoinsView_base : CCoinsView NoCoins := {
  GetCoins _ v := (v, None);
  HaveCoins _ v := (v, false);
  GetBestBlock v := (v, base_uint_zero 8);
  BatchWrite _ _ v := Ret (v, false) }.

#[export] Instance CCoinsView_base_ok : CCoinsViewOk NoCoins.
Proof.
  refine {| view := fun _ _ => None; pulled := fun _ _ => True; best := fun _ => base_uint_zero 8; view_ok := fun _ => True |}; cbn.
  - intros v t _ _. by do 4 (split; [done|]).
  - intros v t _ _. do 4 (split; [done|]). by intros [].
  - intros v _. do 5 (split; [done|]). by repeat constructor.
Defined.

#[export] Instance CCoinsView_base_writes : CCoinsViewWrites NoCoins.
Proof. by constructor. Qed.

(** ** [CCoinsViewCache] *)

Section cache.
Context {V : Type} `{CCoinsView V}.

Record CCoinsViewCache : Type := mk_cache {
  cv_base : V; hasModifier : bool; hashBlock : uint256; cacheCoins : CCoinsMap }.

Definition CCoinsViewCache_new (baseIn : V) : CCoinsViewCache := mk_cache baseIn false (base_uint_zero 8) ∅.

Definition with_base (v : CCoinsViewCache) (b : V) : CCoinsViewCache :=
  mk_cache b (hasModifier v) (hashBlock v) (cacheCoins v).
Definition with_cache (v : CCoinsViewCache) (m : CCoinsMap) : CCoinsViewCache :=
  mk_cache (cv_base v) (hasModifier v) (hashBlock v) m.
Definition with_modifier (v : CCoinsViewCache) (b : bool) : CCoinsViewCache :=
  mk_cache (cv_base v) b (hashBlock v) (cacheCoins v).

(** [None] is [cacheCoins.end()]. *)
Definition FetchCoins (txid : uint256) (v : CCoinsViewCache) : CCoinsViewCache * option CCoinsCacheEntry :=
  match cacheCoins v !! txid with
  | Some e => (v, Some e)
  | None =>
      let '(b, r) := GetCoins txid (cv_base v) in
      let v := with_base v b in
      match r with
      | None => (v, None)
      | Some tmp =>
          let e := mk_entry tmp (if IsPruned tmp then FRESH else flags CCoinsCacheEntry_new) in
          (with_cache v (<[txid := e]> (cacheCoins v)), Some e)
      end
  end.

Definition cache_GetCoins (txid : uint256) (v : CCoinsViewCache) : CCoinsViewCache * option CCoins :=
  let '(v, r) := FetchCoins txid v in (v, coins <$> r).

Definition AccessCoins (txid : uint256) (v : CCoinsViewCache) : CCoinsViewCache * option CCoins :=
  let '(v, r) := FetchCoins txid v in (v, coins <$> r).

Definition cache_HaveCoins (txid : uint256) (v : CCoinsViewCache) : CCoinsViewCache * bool :=
  let '(v, r) := FetchCoins txid v in
  (v, match r with Some e => negb (length (c_vout (coins e)) =? 0)%nat | None => false end).

Definition cache_GetBestBlock (v : CCoinsViewCache) : CCoinsViewCache * uint256 :=
  if bool_decide (hashBlock v = zero_hash) then
    let '(b, h) := GetBestBlock (cv_base v) in
    (mk_cache b (hasModifier v) h (cacheCoins v), h)
  else (v, hashBlock v).

Definition SetBestBlock (h : uint256) (v : CCoinsViewCache) : CCoinsViewCache :=
  mk_cache (cv_base v) (hasModifier v) h (cacheCoins v).

(** [ModifyCoins] up to the construction of the [CCoinsModifier]; [None] is a failed
    assertion. *)
Definition ModifyCoins (txid : uint256) (v : CCoinsViewCache) : option CCoinsViewCache :=
  if hasModifier v then None else
  let '(v, e) :=
    match cacheCoins v !! txid with
    | Some e => (v, e)
    | None =>
        let '(b, r) := GetCoins txid (cv_base v) in
        (with_base v b,
         match r with
         | None => mk_entry (CCoins_Clear CCoins_new) FRESH
         | Some c => if IsPruned c then mk_entry c FRESH else mk_entry c (flags CCoinsCacheEntry_new)
         end)
    end in
  let e := mk_entry (coins e) (Z.lor (flags e) DIRTY) in
  Some (with_modifier (with_cache v (<[txid := e]> (cacheCoins v))) true).

(** [~CCoinsModifier]: the iterator names the entry of [txid]. *)
Definition CCoinsModifier_end (txid : uint256) (v : CCoinsViewCache) : option CCoinsViewCache :=
  if negb (hasModifier v) then None else
  e ← cacheCoins v !! txid;
  let e := mk_entry (Cleanup (coins e)) (flags e) in
  let v := with_modifier v false in
  Some (if flagged e FRESH && IsPruned (coins e)
        then with_cache v (delete txid (cacheCoins v))
        else with_cache v (<[txid := e]> (cacheCoins v))).

(** The life of a modifier that applies [f] to the coins. *)
Definition Modify {A} (txid : uint256) (f : CCoins -> CCoins * A) (v : CCoinsViewCache) : option (CCoinsViewCache * A) :=
  v ← ModifyCoins txid v;
  e ← cacheCoins v !! txid;
  let '(c, a) := f (coins e) in
  v ← CCoinsModifier_end txid (with_cache v (<[txid := mk_entry c (flags e)]> (cacheCoins v)));
  Some (v, a).

(** One turn of the loop of [BatchWrite], for the child's entry [e] of [t]. *)
Definition BatchWrite_step (us : CCoinsMap) (te : uint256 * CCoinsCacheEntry) : option CCoinsMap :=
  let '(t, e) := te in
  if negb (flagged e DIRTY) then Some us else
  match us !! t with
  | None =>
      if negb (IsPruned (coins e)) then
        if flagged e FRESH then Some (<[t := mk_entry (coins e) (Z.lor DIRTY FRESH)]> us) else None
      else Some us
  | Some itUs =>
      if flagged itUs FRESH && IsPruned (coins e) then Some (delete t us)
      else Some (<[t := mk_entry (coins e) (Z.lor (flags itUs) DIRTY)]> us)
  end.

Fixpoint BatchWrite_loop (m : list (uint256 * CCoinsCacheEntry)) (us : CCoinsMap) : option CCoinsMap :=
  match m with
  | [] => Some us
  | te :: m => us ← BatchWrite_step us te; BatchWrite_loop m us
  end.

(** The order of the child's map is that of a hash table; see [BatchWrite_loop_spec]. *)
Definition cache_BatchWrite (m : CCoinsMap) (h : uint256) (v : CCoinsViewCache) : result view_error (CCoinsViewCache * bool) :=
  if hasModifier v then Err ViewAssert else
  match BatchWrite_loop (map_to_list m) (cacheCoins v) with
  | Some us => Ret (mk_cache (cv_base v) (hasModifier v) h us, true)
  | None => Err ViewAssert
  end.

Definition Flush (v : CCoinsViewCache) : result view_error (CCoinsViewCache * bool) :=
  let* (b, fOk) := BatchWrite (cacheCoins v) (hashBlock v) (cv_base v) in
  Ret (mk_cache b (hasModifier v) (hashBlock v) ∅, fOk).

Definition GetCacheSize (v : CCoinsViewCache) : Z := u32 (Z.of_nat (size (cacheCoins v))).

(** [assert(coins && coins->IsAvailable(n))] *)
Definition GetOutputFor (input : CTxIn) (v : CCoinsViewCache) : CCoinsViewCache * option CTxOut :=
  let '(v, r) := AccessCoins (prev_hash (prevout input)) v in
  (v, c ← r; let n := Z.to_nat (prev_n (prevout input)) in
      if IsAvailable c n then c_vout c !! n else None).

(** The sum of the inputs: an assertion may fail, or a signed sum overflow. *)
Inductive value_fault : Type := ValueAssert | SumOverflow.

Fixpoint GetValueIn_loop (vin : list CTxIn) (nResult : Z) (v : CCoinsViewCache) : CCoinsViewCache * result value_fault Z :=
  match vin with
  | [] => (v, Ret nResult)
  | i :: vin =>
      match GetOutputFor i v with
      | (v, Some o) =>
          match add_amount (Some nResult) (nValue o) with
          | Some n => GetValueIn_loop vin n v
          | None => (v, Err SumOverflow)
          end
      | (v, None) => (v, Err ValueAssert)
      end
  end.
Definition GetValueIn (tx : CMutableTransaction) (v : CCoinsViewCache) : CCoinsViewCache * result value_fault Z :=
  if IsCoinBase tx then (v, Ret 0) else
  if HasZerocoinSpendInputs tx then (v, match GetZerocoinSpent tx with Some n => Ret n | None => Err SumOverflow end) else
  GetValueIn_loop (tx_vin tx) 0 v.

Fixpoint HaveInputs_loop (tx : CMutableTransaction) (Hcheck : Z) (vin : list CTxIn) (v : CCoinsViewCache) : CCoinsViewCache * bool :=
  match vin with
  | [] => (v, true)
  | i :: vin =>
      match AccessCoins (prev_hash (prevout i)) v with
      | (v, None) => (v, false)
      | (v, Some c) =>
          if ((nHeight c <? Hcheck) && negb (IsCoinStake tx)) || negb (IsAvailable c (Z.to_nat (prev_n (prevout i))))
          then (v, false) else HaveInputs_loop tx Hcheck vin v
      end
  end.
Definition HaveInputs (tx : CMutableTransaction) (Hcheck : Z) (v : CCoinsViewCache) : CCoinsViewCache * bool :=
  if negb (IsCoinBase tx) && negb (HasZerocoinSpendInputs tx) then HaveInputs_loop tx Hcheck (tx_vin tx) v
  else (v, true).
End cache.
Arguments CCoinsViewCache : clear implicits.

#[export] Instance CCoinsViewCache_view {V} `{CCoinsView V} : CCoinsView (CCoinsViewCache V) := {
  GetCoins := cache_GetCoins;
  HaveCoins := cache_HaveCoins;
  GetBestBlock := cache_GetBestBlock;
  BatchWrite := cache_BatchWrite }.

(** ** Flags *)

Lemma coins_ok_pruned c : coins_ok c -> IsPruned c = true <-> c_vout c = [].
Proof.
  intros [E|(Hc & _ & Hn & _)]; [by unfold IsPruned; rewrite E|]. split; [|by unfold IsPruned; intros ->].
  intros P. exfalso. destruct (last (c_vout c)) as [o|] eqn:E; [|by apply last_None in E].
  pose proof (clean_last _ _ Hc E) as Ho. unfold IsPruned in P. rewrite forallb_forall in P.
  apply last_Some in E as [l E]. rewrite P in Ho; [done|]. rewrite E. apply in_or_app. right. by left.
Qed.

Lemma coins_ok_clean c : coins_ok c -> clean (c_vout c).
Proof. by intros [->|[? _]]. Qed.

Lemma unspent_None c : unspent c = None <-> IsPruned c = true.
Proof. unfold unspent. by destruct (IsPruned c). Qed.

Lemma flagged_FRESH_new c : flagged (mk_entry c FRESH) FRESH = true /\ flagged (mk_entry c FRESH) DIRTY = false.
Proof. done. Qed.

Lemma flagged_none_new c : flagged (mk_entry c 0) FRESH = false /\ flagged (mk_entry c 0) DIRTY = false.
Proof. done. Qed.

Lemma flagged_lor_DIRTY c c' f : flagged (mk_entry c (Z.lor f DIRTY)) DIRTY = true /\
  flagged (mk_entry c (Z.lor f DIRTY)) FRESH = flagged (mk_entry c' f) FRESH.
Proof.
  unfold flagged, DIRTY, FRESH. cbn [flags]. rewrite !Z.land_lor_distr_l. split.
  - change (Z.land 1 1) with 1. destruct (Z.eqb_spec (Z.lor (Z.land f 1) 1) 0) as [E|]; [|done].
    apply Z.lor_eq_0_iff in E. lia.
  - change (Z.land 1 2) with 0. by rewrite Z.lor_0_r.
Qed.

(** The entry for coins just taken from the view below. *)
Lemma fetched_ok (under : uint256 -> option CCoins) (pld : uint256 -> Prop) t c : wf 8 t -> coins_ok c ->
  unspent c = under t -> (IsPruned c = false -> pld t) ->
  entry_ok under pld t (mk_entry c (if IsPruned c then FRESH else flags CCoinsCacheEntry_new)).
Proof.
  intros Ht Hc Hu Hp. unfold entry_ok. cbn [coins]. split; [done|]. split; [done|].
  destruct (IsPruned c) eqn:P.
  - destruct (flagged_FRESH_new c) as [-> ->]. split; [|by split]. intros _. rewrite <- Hu. by apply unspent_None.
  - change (flags CCoinsCacheEntry_new) with 0. destruct (flagged_none_new c) as [-> ->].
    split; [done|]. split; [|done]. intros _. by apply Hp.
Qed.

Lemma entry_ok_mono under under' pld pld' t e : under' t = under t -> (pld t -> pld' t) ->
  entry_ok under pld t e -> entry_ok under' pld' t e.
Proof. intros Hu Hp (W & O & F & P & D). unfold entry_ok. rewrite Hu. split; [done|]. split; [done|]. split; [done|]. split; [auto|done]. Qed.

(** ** The cache over a lawful view is lawful *)

Section cache_laws.
Context {V : Type} `{CCoinsViewOk V}.

Definition cache_view (v : CCoinsViewCache V) (t : uint256) : option CCoins :=
  match cacheCoins v !! t with Some e => unspent (coins e) | None => view (cv_base v) t end.
Definition cache_pulled (v : CCoinsViewCache V) (t : uint256) : Prop := is_Some (cacheCoins v !! t).
Definition cache_best (v : CCoinsViewCache V) : uint256 :=
  if bool_decide (hashBlock v = zero_hash) then best (cv_base v) else hashBlock v.

(** The entries agree with the view below: the well-formedness of a cache. *)
Definition entries_ok (v : CCoinsViewCache V) : Prop :=
  view_ok (cv_base v) /\ wf 8 (hashBlock v) /\
  map_Forall (entry_ok (view (cv_base v)) (pulled (cv_base v))) (cacheCoins v).
Definition cache_ok (v : CCoinsViewCache V) : Prop := hasModifier v = false /\ entries_ok v.

(** Two states of a cache that stand for the same coins. *)
Definition same_view (v v' : CCoinsViewCache V) : Prop :=
  (forall x, cache_view v' x = cache_view v x) /\ (forall x, cache_pulled v x -> cache_pulled v' x) /\
  cache_best v' = cache_best v /\ hasModifier v' = hasModifier v.

Lemma same_view_refl v : same_view v v.
Proof using. done. Qed.

Lemma same_view_trans v1 v2 v3 : same_view v1 v2 -> same_view v2 v3 -> same_view v1 v3.
Proof using.
  intros (A & B & C & D) (A' & B' & C' & D'). split; [intros x; by rewrite A', A|].
  split; [auto|]. split; congruence.
Qed.

(** Reading the view below does not invalidate the entries. *)
Lemma with_base_ok v b : entries_ok v -> view_ok b -> (forall x, view b x = view (cv_base v) x) ->
  (forall x, pulled (cv_base v) x -> pulled b x) -> entries_ok (with_base v b).
Proof using.
  intros (_ & Hw & Hm) Hb Hv Hp. split; [done|]. split; [done|]. intros t e E.
  eapply entry_ok_mono; [apply Hv|apply Hp|by apply Hm].
Qed.

Lemma with_base_same v b : (forall x, view b x = view (cv_base v) x) -> best b = best (cv_base v) ->
  same_view v (with_base v b).
Proof using.
  intros Hv Hb. split; [|split; [done|split; [|done]]].
  - intros x. unfold cache_view, with_base. cbn. destruct (cacheCoins v !! x); [done|apply Hv].
  - unfold cache_best, with_base. cbn. by rewrite Hb.
Qed.

(** [FetchCoins] pulls coins into the cache without changing what it stands for. *)
Lemma FetchCoins_spec v t : entries_ok v -> wf 8 t ->
  let '(v', r) := FetchCoins t v in
  entries_ok v' /\ same_view v v' /\ r = cacheCoins v' !! t /\
  ((coins <$> r) ≫= unspent) = cache_view v t /\ (forall e, r = Some e -> coins_ok (coins e)).
Proof using.
  intros Hok Ht. unfold FetchCoins. destruct (cacheCoins v !! t) as [e|] eqn:E.
  { split; [done|]. split; [apply same_view_refl|]. split; [done|]. unfold cache_view. rewrite E. split; [done|].
    intros ? [= <-]. destruct Hok as (_ & _ & Hm). apply (Hm t e E). }
  pose proof Hok as (Hb & Hw & Hm). pose proof (GetCoins_law (cv_base v) t Hb Ht) as L.
  destruct (GetCoins t (cv_base v)) as [b r]. destruct L as (Lb & Lv & Lp & Lbest & Lr & Lc).
  pose proof (with_base_ok v b Hok Lb Lv Lp) as Hok'. pose proof (with_base_same v b Lv Lbest) as Hs.
  destruct r as [c|].
  - destruct (Lc c eq_refl) as [Hc Hp]. cbn in Lr. rewrite <- Lv in Lr.
    pose proof (fetched_ok (view b) (pulled b) t c Ht Hc Lr Hp) as He. set (e := mk_entry c _) in *.
    split; [|split; [|split; [|split]]].
    + destruct Hok' as (? & ? & Hm'). split; [done|]. split; [done|]. by apply map_Forall_insert_2.
    + eapply same_view_trans; [exact Hs|]. split; [|split; [|done]].
      * intros x. unfold cache_view, with_cache. cbn. destruct (decide (x = t)) as [->|].
        -- by rewrite lookup_insert_eq, E.
        -- by rewrite lookup_insert_ne.
      * intros x. unfold cache_pulled, with_cache. cbn. intros ?. apply lookup_insert_is_Some'. by right.
    + cbn. by rewrite lookup_insert_eq.
    + cbn. unfold cache_view. by rewrite E, <- Lv.
    + by intros ? [= <-].
  - split; [done|]. split; [done|]. split; [done|]. unfold cache_view. by rewrite E.
Qed.

(** A cache read keeps the cache well formed and what it stands for. *)
Definition keeps (v v' : CCoinsViewCache V) : Prop := cache_ok v' /\ same_view v v'.

Lemma keeps_laws v v' : keeps v v' ->
  cache_ok v' /\ (forall x, cache_view v' x = cache_view v x) /\ (forall x, cache_pulled v x -> cache_pulled v' x) /\
  cache_best v' = cache_best v.
Proof using. intros (Hc & Hv & Hp & Hb & _). auto. Qed.

Lemma FetchCoins_keeps v t : cache_ok v -> wf 8 t -> keeps v (FetchCoins t v).1.
Proof using.
  intros [Hm Hok] Ht. pose proof (FetchCoins_spec v t Hok Ht) as S.
  destruct (FetchCoins t v) as [v' r]. destruct S as (Hok' & Hs & _). cbn. split; [|done]. split; [|done].
  destruct Hs as (_ & _ & _ & ->). done.
Qed.

Lemma cache_GetCoins_law v t : cache_ok v -> wf 8 t ->
  let '(v', r) := cache_GetCoins t v in
  cache_ok v' /\ (forall x, cache_view v' x = cache_view v x) /\ (forall x, cache_pulled v x -> cache_pulled v' x) /\
  cache_best v' = cache_best v /\ (r ≫= unspent) = cache_view v t /\
  (forall c, r = Some c -> coins_ok c /\ (IsPruned c = false -> cache_pulled v' t)).
Proof using.
  intros Hc Ht. pose proof (keeps_laws _ _ (FetchCoins_keeps v t Hc Ht)) as K.
  pose proof (FetchCoins_spec v t (proj2 Hc) Ht) as S. unfold cache_GetCoins.
  destruct (FetchCoins t v) as [v' r]. destruct S as (_ & _ & Hr & Hv & Ho). cbn in K.
  destruct K as (K1 & K2 & K3 & K4). repeat (split; [done|]).
  intros c Hrc. destruct r as [e|]; [|done]. injection Hrc as <-. split; [by apply Ho|].
  intros _. unfold cache_pulled. rewrite <- Hr. by eexists.
Qed.

(** The caches' test of [vout.empty()] is exact, since cached coins are clean. *)
Lemma cache_HaveCoins_law v t : cache_ok v -> wf 8 t ->
  let '(v', b) := cache_HaveCoins t v in
  cache_ok v' /\ (forall x, cache_view v' x = cache_view v x) /\ (forall x, cache_pulled v x -> cache_pulled v' x) /\
  cache_best v' = cache_best v /\ b = bool_decide (is_Some (cache_view v t)).
Proof using.
  intros Hc Ht. pose proof (keeps_laws _ _ (FetchCoins_keeps v t Hc Ht)) as K.
  pose proof (FetchCoins_spec v t (proj2 Hc) Ht) as S. unfold cache_HaveCoins.
  destruct (FetchCoins t v) as [v' r]. destruct S as (_ & _ & Hr & Hv & Ho). cbn in K.
  destruct K as (K1 & K2 & K3 & K4). repeat (split; [done|]). rewrite <- Hv. destruct r as [e|]; cbn.
  - pose proof (coins_ok_pruned _ (Ho e eq_refl)) as P. unfold unspent. destruct (IsPruned (coins e)).
    + by rewrite (proj1 P eq_refl).
    + destruct (c_vout (coins e)) as [|o l]; [by specialize (proj2 P eq_refl)|done].
  - done.
Qed.

Lemma cache_HaveCoins_weak v t : cache_ok v -> wf 8 t ->
  let '(v', b) := cache_HaveCoins t v in
  cache_ok v' /\ (forall x, cache_view v' x = cache_view v x) /\ (forall x, cache_pulled v x -> cache_pulled v' x) /\
  cache_best v' = cache_best v /\ (is_Some (cache_view v t) -> b = true).
Proof using.
  intros Hc Ht. pose proof (cache_HaveCoins_law v t Hc Ht) as L. destruct (cache_HaveCoins t v) as [v' b].
  destruct L as (L1 & L2 & L3 & L4 & ->). do 4 (split; [done|]). intros S. by apply bool_decide_true.
Qed.

Lemma cache_GetBestBlock_law v : cache_ok v ->
  let '(v', h) := cache_GetBestBlock v in
  cache_ok v' /\ (forall x, cache_view v' x = cache_view v x) /\ (forall x, cache_pulled v x -> cache_pulled v' x) /\
  cache_best v' = cache_best v /\ h = cache_best v /\ wf 8 h.
Proof using.
  intros [Hmod Hok]. pose proof Hok as (Hb & Hw & Hm). unfold cache_GetBestBlock.
  case_bool_decide as E.
  - pose proof (GetBestBlock_law (cv_base v) Hb) as L. destruct (GetBestBlock (cv_base v)) as [b h].
    destruct L as (Lb & Lv & Lp & Lbest & -> & Wh).
    destruct (with_base_ok v b Hok Lb Lv Lp) as (? & ? & ?). destruct (with_base_same v b Lv Lbest) as (S1 & S2 & _).
    split; [split; [exact Hmod|split; [exact Lb|split; [exact Wh|assumption]]]|]. split; [exact S1|]. split; [exact S2|].
    unfold cache_best. cbn. rewrite (bool_decide_true _ E), Lbest. split; [by case_bool_decide|by split].
  - unfold cache_best. rewrite (bool_decide_false _ E). do 5 (split; [done|]). done.
Qed.

(** What [BatchWrite] makes of its own entry and the child's. *)
Definition merge_entry (us : option CCoinsCacheEntry) (e : CCoinsCacheEntry) : option CCoinsCacheEntry :=
  if negb (flagged e DIRTY) then us else
  match us with
  | None => if IsPruned (coins e) then None else Some (mk_entry (coins e) (Z.lor DIRTY FRESH))
  | Some itUs => if flagged itUs FRESH && IsPruned (coins e) then None
                 else Some (mk_entry (coins e) (Z.lor (flags itUs) DIRTY))
  end.

(** Each entry of the child is merged with this cache's entry, in whatever order the
    child's entries are visited; the assertion holds for fresh entries. *)
Lemma BatchWrite_loop_spec l us : NoDup l.*1 ->
  Forall (fun te => us !! te.1 = None -> flagged te.2 FRESH = true \/ IsPruned (coins te.2) = true \/ flagged te.2 DIRTY = false) l ->
  exists us', BatchWrite_loop l us = Some us' /\
    forall t, us' !! t = match (list_to_map l : CCoinsMap) !! t with Some e => merge_entry (us !! t) e | None => us !! t end.
Proof using.
  revert us. induction l as [|[t e] l IH]; intros us Hd Ha.
  - by exists us.
  - cbn [fmap list_fmap fst] in Hd. apply NoDup_cons in Hd as [Ht Hd]. apply Forall_cons in Ha as [He Ha]. cbn in He.
    assert (S : exists us1, BatchWrite_step us (t, e) = Some us1 /\ us1 !! t = merge_entry (us !! t) e /\
                            forall x, x <> t -> us1 !! x = us !! x).
    { unfold BatchWrite_step, merge_entry. destruct (negb (flagged e DIRTY)) eqn:D; [by exists us|].
      destruct (us !! t) as [itUs|] eqn:E.
      - destruct (flagged itUs FRESH && IsPruned (coins e)); eexists; (split; [done|]).
        + rewrite lookup_delete_eq. split; [done|]. intros x ?. by rewrite lookup_delete_ne.
        + rewrite lookup_insert_eq. split; [done|]. intros x ?. by rewrite lookup_insert_ne.
      - destruct (IsPruned (coins e)) eqn:P; cbn [negb]; [by exists us|].
        destruct (He eq_refl) as [-> | [HP|HD]]; [|congruence|by rewrite HD in D].
        eexists; split; [done|]. rewrite lookup_insert_eq. split; [done|]. intros x ?. by rewrite lookup_insert_ne. }
    destruct S as (us1 & E1 & Et & Ex). destruct (IH us1 Hd) as (us' & E' & Hus').
    { apply Forall_forall. intros [x ex] Hx. rewrite Forall_forall in Ha. specialize (Ha _ Hx). cbn in *.
      rewrite Ex; [done|]. intros ->. apply Ht. apply list_elem_of_fmap. by exists (t, ex). }
    exists us'. cbn [BatchWrite_loop]. rewrite E1. split; [exact E'|]. intros x. rewrite Hus', list_to_map_cons.
    destruct (decide (x = t)) as [->|Nx].
    + rewrite lookup_insert_eq, (not_elem_of_list_to_map_1 l t Ht). exact Et.
    + rewrite lookup_insert_ne by done. by rewrite Ex.
Qed.

(** The merged entry is correct for the view below, and stands for the child's coins. *)
Lemma merge_entry_ok v t e : entries_ok v -> entry_ok (cache_view v) (cache_pulled v) t e ->
  (forall r, merge_entry (cacheCoins v !! t) e = Some r ->
     entry_ok (view (cv_base v)) (pulled (cv_base v)) t r) /\
  match merge_entry (cacheCoins v !! t) e with Some r => unspent (coins r) | None => view (cv_base v) t end =
  unspent (coins e).
Proof using.
  intros (_ & _ & Hm) (Hw & Hc & HF & HnF & HD). unfold merge_entry, cache_view, cache_pulled in *.
  destruct (flagged e DIRTY) eqn:D; cbn [negb].
  2: { specialize (HD eq_refl). destruct (cacheCoins v !! t) as [u|] eqn:E; [|by split].
       split; [|done]. intros r [= <-]. exact (Hm t u E). }
  destruct (cacheCoins v !! t) as [u|] eqn:E.
  - destruct (Hm t u E) as (_ & Ho & UF & UnF & UD).
    destruct (flagged u FRESH) eqn:F; cbn [andb].
    + destruct (IsPruned (coins e)) eqn:P.
      * split; [done|]. rewrite UF by done. symmetry. by apply unspent_None.
      * split; [|done]. intros r [= <-].
        destruct (flagged_lor_DIRTY (coins e) (coins u) (flags u)) as [GD GF]. unfold entry_ok. rewrite GD, GF.
        replace (mk_entry (coins u) (flags u)) with u by (by destruct u). rewrite F.
        split; [done|]. split; [done|]. split; [by intros _; apply UF|done].
    + split; [|done]. intros r [= <-].
      destruct (flagged_lor_DIRTY (coins e) (coins u) (flags u)) as [GD GF]. unfold entry_ok. rewrite GD, GF.
      replace (mk_entry (coins u) (flags u)) with u by (by destruct u). rewrite F. split; [done|]. split; [done|].
      split; [done|]. split; [by intros _; apply UnF|done].
  - assert (F : flagged e FRESH = true).
    { destruct (flagged e FRESH); [done|]. destruct (HnF eq_refl) as [? ?]. done. }
    specialize (HF F). destruct (IsPruned (coins e)) eqn:P.
    + split; [done|]. rewrite HF. symmetry. by apply unspent_None.
    + split; [|done]. intros r [= <-]. do 4 (split; [done|]). done.
Qed.

Lemma cache_BatchWrite_law v m h : cache_ok v -> wf 8 h -> map_Forall (entry_ok (cache_view v) (cache_pulled v)) m ->
  match cache_BatchWrite m h v with
  | Ret (v', ok) => ok = true ->
      cache_ok v' /\
      (forall t, wf 8 t -> cache_view v' t = match m !! t with Some e => unspent (coins e) | None => cache_view v t end) /\
      (h <> zero_hash -> cache_best v' = h)
  | Err e => e = StoreError
  end.
Proof using.
  intros [Hmod Hok] Wh Hm. unfold cache_BatchWrite. rewrite Hmod.
  destruct (BatchWrite_loop_spec (map_to_list m) (cacheCoins v)) as (us & -> & Hus).
  { apply NoDup_fst_map_to_list. }
  { apply Forall_forall. intros [t e] Hin. apply elem_of_map_to_list in Hin. cbn. intros E.
    destruct (Hm t e Hin) as (_ & _ & _ & HnF & _). destruct (flagged e FRESH); [by left|].
    destruct (HnF eq_refl) as [? Ex]. by rewrite E in Ex. }
  intros _. rewrite list_to_map_to_list in Hus.
  split; [|split].
  - split; [done|]. destruct Hok as (Hb & Hw & Hc). split; [done|]. split; [done|]. intros t r E. cbn in E. rewrite Hus in E.
    destruct (m !! t) as [e|] eqn:Em; [|by apply Hc].
    by apply (merge_entry_ok v t e (conj Hb (conj Hw Hc)) (Hm t e Em)).
  - intros t Wt. unfold cache_view at 1. cbn [cacheCoins cv_base]. rewrite Hus.
    destruct (m !! t) as [e|] eqn:Em; [|done]. apply (merge_entry_ok v t e Hok (Hm t e Em)).
  - intros Hz. unfold cache_best. cbn. by rewrite bool_decide_false.
Qed.
End cache_laws.

#[export] Instance CCoinsViewCache_ok {V} `{CCoinsViewOk V} : CCoinsViewOk (CCoinsViewCache V) := {
  view := cache_view;
  pulled := cache_pulled;
  best := cache_best;
  view_ok := cache_ok;
  GetCoins_law := cache_GetCoins_law;
  HaveCoins_law := cache_HaveCoins_weak;
  GetBestBlock_law := cache_GetBestBlock_law }.

#[export] Instance CCoinsViewCache_writes {V} `{CCoinsViewOk V} : CCoinsViewWrites (CCoinsViewCache V) := {
  BatchWrite_law := cache_BatchWrite_law }.

(** ** Modifying and flushing a cache *)

Section cache_ops.
Context {V : Type} `{CCoinsViewOk V}.

(** The entry [ModifyCoins] works on, present or fetched. *)
Lemma ModifyCoins_spec (v : CCoinsViewCache V) t : cache_ok v -> wf 8 t ->
  exists e v1, ModifyCoins t v = Some v1 /\
    hasModifier v1 = true /\ cacheCoins v1 = <[t := e]> (cacheCoins v) /\
    entries_ok (with_cache v1 (cacheCoins v)) /\ same_view v (with_modifier (with_cache v1 (cacheCoins v)) false) /\
    unspent (coins e) = cache_view v t /\ coins_ok (coins e) /\
    flagged e DIRTY = true /\
    (flagged e FRESH = true -> view (cv_base v1) t = None) /\ (flagged e FRESH = false -> pulled (cv_base v1) t).
Proof using.
  intros [Hmod Hok] Ht. unfold ModifyCoins. rewrite Hmod.
  destruct (cacheCoins v !! t) as [e|] eqn:E.
  - destruct Hok as (Hb & Hw & Hm). destruct (Hm t e E) as (_ & Ho & HF & HnF & HD).
    destruct (flagged_lor_DIRTY (coins e) (coins e) (flags e)) as [GD GF].
    replace (mk_entry (coins e) (flags e)) with e in GF by (by destruct e).
    eexists _, _. split; [done|]. cbn. rewrite GD, GF. unfold cache_view. rewrite E.
    split; [done|]. split; [done|]. split; [exact (conj Hb (conj Hw Hm))|].
    split; [destruct v; cbn in *; subst; apply same_view_refl|]. split; [done|]. by split.
  - pose proof Hok as (Hb & Hw & Hm). pose proof (GetCoins_law (cv_base v) t Hb Ht) as L.
    destruct (GetCoins t (cv_base v)) as [b r]. destruct L as (Lb & Lv & Lp & Lbest & Lr & Lc).
    pose proof (with_base_ok v b Hok Lb Lv Lp) as Hok'. pose proof (with_base_same v b Lv Lbest) as Hs.
    set (e0 := match r with Some c => _ | None => _ end).
    assert (G : unspent (coins e0) = view (cv_base v) t /\ coins_ok (coins e0) /\
      (flagged e0 FRESH = true -> view b t = None) /\ (flagged e0 FRESH = false -> pulled b t)).
    { subst e0. rewrite Lv. destruct r as [c|]; cbn in Lr.
      - destruct (Lc c eq_refl) as [Hc Hp]. destruct (IsPruned c) eqn:P; cbn [coins].
        + split; [done|]. split; [done|]. destruct (flagged_FRESH_new c) as [-> _]. split; [|done]. intros _.
          rewrite <- Lr. by apply unspent_None.
        + split; [done|]. split; [done|]. change (flags CCoinsCacheEntry_new) with 0.
          destruct (flagged_none_new c) as [-> _]. split; [done|]. intros _. by apply Hp.
      - cbn. split; [done|]. split; [by left|]. split; [done|]. intros F. done. }
    destruct G as (G1 & G2 & G3 & G4). destruct (flagged_lor_DIRTY (coins e0) (coins e0) (flags e0)) as [GD GF].
    replace (mk_entry (coins e0) (flags e0)) with e0 in GF by (by destruct e0).
    eexists _, _. split; [done|]. cbn. rewrite GD, GF. unfold cache_view at 1. rewrite E.
    split; [done|]. split; [done|]. split; [exact Hok'|]. split; [|split; [done|by split]].
    destruct Hs as (S1 & S2 & S3 & S4). unfold same_view. cbn. repeat (split; [done|]). done.
Qed.

(** A modification acts on the coins of one hash. *)
Lemma Modify_law {A} (v : CCoinsViewCache V) t (f : CCoins -> CCoins * A) : cache_ok v -> wf 8 t ->
  exists c, unspent c = cache_view v t /\ coins_ok c /\
    (coins_ok (Cleanup (f c).1) ->
     exists v', Modify t f v = Some (v', (f c).2) /\ cache_ok v' /\
       (forall x, cache_view v' x = if decide (x = t) then unspent (Cleanup (f c).1) else cache_view v x) /\
       cache_best v' = cache_best v).
Proof using.
  intros Hc Ht. destruct (ModifyCoins_spec v t Hc Ht) as (e & v1 & E1 & Em & Ec & (Hb & Hw & Hm) & (S1 & S2 & S3 & S4) & Eu & Eo & ED & EF & EnF).
  exists (coins e). split; [done|]. split; [done|]. intros Hf. unfold Modify. rewrite E1. cbn [mbind option_bind].
  rewrite Ec, lookup_insert_eq. cbn [mbind option_bind]. destruct (f (coins e)) as [c' a] eqn:Ef. cbn [fst snd] in *.
  unfold CCoinsModifier_end. cbn [hasModifier with_cache cacheCoins]. rewrite Em. cbn [negb].
  rewrite lookup_insert_eq. cbn [mbind option_bind coins flags]. rewrite insert_insert_eq.
  set (e' := mk_entry (Cleanup c') (flags e)).
  assert (Ff : flagged e' FRESH = flagged e FRESH) by done. assert (Fd : flagged e' DIRTY = flagged e DIRTY) by done.
  assert (Hbest : forall m, cache_best (with_cache (with_modifier (with_cache v1 m) false) m) = cache_best v).
  { intros m. rewrite <- S3. done. }
  assert (Hother : forall x, x <> t -> match cacheCoins v !! x with Some e => unspent (coins e) | None => view (cv_base v1) x end = cache_view v x).
  { intros x _. rewrite <- S1. done. }
  eexists. split; [reflexivity|]. destruct (flagged e' FRESH && IsPruned (Cleanup c')) eqn:D.
  - apply andb_true_iff in D as [DF DP].
    split; [split; [done|split; [exact Hb|split; [exact Hw|]]]|split].
    + cbn. intros x ex Hx. apply lookup_delete_Some in Hx as [Hne Hx].
      rewrite lookup_insert_ne in Hx by done. by apply Hm.
    + intros x. unfold cache_view at 1. cbn. destruct (decide (x = t)) as [->|Nx].
      * rewrite lookup_delete_eq. rewrite EF by (by rewrite <- Ff). symmetry. by apply unspent_None.
      * rewrite lookup_delete_ne, lookup_insert_ne by done. by apply Hother.
    + exact (Hbest ∅).
  - split; [split; [done|split; [exact Hb|split; [exact Hw|]]]|split].
    + cbn. rewrite insert_insert_eq. apply map_Forall_insert_2; [|exact Hm].
      split; [done|]. split; [done|]. rewrite Ff, Fd, ED. split; [exact EF|]. by split.
    + intros x. unfold cache_view at 1. cbn. rewrite insert_insert_eq. destruct (decide (x = t)) as [->|Nx].
      * by rewrite lookup_insert_eq.
      * rewrite lookup_insert_ne by done. by apply Hother.
    + exact (Hbest ∅).
Qed.

Lemma SetBestBlock_law (v : CCoinsViewCache V) h : cache_ok v -> wf 8 h -> h <> zero_hash ->
  cache_ok (SetBestBlock h v) /\ (forall x, cache_view (SetBestBlock h v) x = cache_view v x) /\
  cache_best (SetBestBlock h v) = h.
Proof using.
  intros (Hmod & Hb & _ & Hm) Wh Hz. split; [by split|]. split; [done|]. unfold cache_best. cbn. by rewrite bool_decide_false.
Qed.

(** Flushing never fails an assertion; when the write succeeds, the view below stands for
    what the cache stood for. *)
Lemma Flush_law `{!CCoinsViewWrites V} (v : CCoinsViewCache V) : cache_ok v ->
  match Flush v with
  | Ret (v', ok) => ok = true ->
      cache_ok v' /\ cacheCoins v' = ∅ /\
      (forall t, wf 8 t -> view (cv_base v') t = cache_view v t /\ cache_view v' t = cache_view v t) /\
      (hashBlock v <> zero_hash -> best (cv_base v') = hashBlock v)
  | Err e => e = StoreError
  end.
Proof using.
  intros (Hmod & Hb & Hw & Hm). unfold Flush.
  pose proof (BatchWrite_law (cv_base v) (cacheCoins v) (hashBlock v) Hb Hw Hm) as L.
  destruct (BatchWrite (cacheCoins v) (hashBlock v) (cv_base v)) as [[b ok]|e]; [|exact L].
  cbn [result_bind]. intros ->. destruct (L eq_refl) as (Lb & Lv & Lbest).
  split; [split; [done|split; [done|split; [done|apply map_Forall_empty]]]|]. split; [done|]. split; [|done].
  intros t Wt. cbn. rewrite Lv by done. unfold cache_view. cbn. rewrite lookup_empty, Lv by done. by split.
Qed.
End cache_ops.

(** ** A session on a cache against the map it stands for *)

(** What the code does with a view: reads, modifications and moves of the best block. *)
Inductive view_op : Type :=
| OpGetCoins (t : uint256)
| OpHaveCoins (t : uint256)
| OpModify (t : uint256) (f : CCoins -> CCoins * bool)
| OpGetBestBlock
| OpSetBestBlock (h : uint256).

Inductive view_res : Type :=
| RCoins (c : option CCoins)
| RBool (b : bool)
| RHash (h : uint256)
| RUnit.

(** The specification: a finite map to coins, seen through lookups, and a block hash. *)
Record UTXO : Type := mk_UTXO { utxo : uint256 -> option CCoins; tip : uint256 }.

Definition spec_step (op : view_op) (s : UTXO) : UTXO * view_res :=
  match op with
  | OpGetCoins t => (s, RCoins (utxo s t))
  | OpHaveCoins t => (s, RBool (bool_decide (is_Some (utxo s t))))
  | OpModify t f =>
      let '(c, a) := f (default CCoins_new (utxo s t)) in
      (mk_UTXO (fun x => if decide (x = t) then unspent (Cleanup c) else utxo s x) (tip s), RBool a)
  | OpGetBestBlock => (s, RHash (tip s))
  | OpSetBestBlock h => (mk_UTXO (utxo s) h, RUnit)
  end.

Fixpoint spec_run (ops : list view_op) (s : UTXO) : UTXO * list view_res :=
  match ops with
  | [] => (s, [])
  | op :: ops => let '(s, r) := spec_step op s in let '(s, rs) := spec_run ops s in (s, r :: rs)
  end.

(** The code: coins without unspent outputs count as none. *)
Definition cache_step {V} `{CCoinsView V} (op : view_op) (v : CCoinsViewCache V) : option (CCoinsViewCache V * view_res) :=
  match op with
  | OpGetCoins t => let '(v, r) := GetCoins t v in Some (v, RCoins (r ≫= unspent))
  | OpHaveCoins t => let '(v, r) := HaveCoins t v in Some (v, RBool r)
  | OpModify t f => '(v, a) ← Modify t f v; Some (v, RBool a)
  | OpGetBestBlock => let '(v, h) := GetBestBlock v in Some (v, RHash h)
  | OpSetBestBlock h => Some (SetBestBlock h v, RUnit)
  end.

Fixpoint cache_run {V} `{CCoinsView V} (ops : list view_op) (v : CCoinsViewCache V) : option (CCoinsViewCache V * list view_res) :=
  match ops with
  | [] => Some (v, [])
  | op :: ops => '(v, r) ← cache_step op v; '(v, rs) ← cache_run ops v; Some (v, r :: rs)
  end.

(** The operations are used as the code uses them: hashes of 256 bits, a best block that
    is not null, and modifications that do not look into fully spent coins and leave
    coins the database can store. *)
Definition op_ok (op : view_op) : Prop :=
  match op with
  | OpGetCoins t | OpHaveCoins t => wf 8 t
  | OpModify t f => wf 8 t /\
      (forall c, coins_ok c -> coins_ok (Cleanup (f c).1)) /\
      (forall c c', coins_ok c -> coins_ok c' -> unspent c = unspent c' ->
         (f c).2 = (f c').2 /\ unspent (Cleanup (f c).1) = unspent (Cleanup (f c').1))
  | OpGetBestBlock => True
  | OpSetBestBlock h => wf 8 h /\ h <> zero_hash
  end.

Section session.
Context {V : Type} `{CCoinsViewOk V}.

Definition stands_for (v : CCoinsViewCache V) (s : UTXO) : Prop :=
  cache_ok v /\ (forall t, cache_view v t = utxo s t) /\ cache_best v = tip s.

Lemma utxo_default c o : coins_ok c -> unspent c = o -> coins_ok (default CCoins_new o) /\ unspent (default CCoins_new o) = o.
Proof using.
  intros Hc <-. unfold unspent. destruct (IsPruned c) eqn:P; cbn; [split; [by left|done]|by rewrite P].
Qed.

Lemma cache_step_refines v s op : stands_for v s -> op_ok op ->
  exists v', cache_step op v = Some (v', (spec_step op s).2) /\ stands_for v' (spec_step op s).1.
Proof using.
  intros (Hc & Hv & Hb) Hop. destruct op as [t|t|t f| |h]; cbn [cache_step spec_step op_ok] in *.
  - pose proof (GetCoins_law v t Hc Hop) as L. destruct (GetCoins t v) as [v' r].
    destruct L as (L1 & L2 & _ & L4 & L5 & _). exists v'. cbn [fst snd]. rewrite L5. cbn. rewrite Hv. split; [done|].
    split; [done|]. split; [intros x; rewrite <- Hv; apply L2 | by rewrite <- Hb].
  - pose proof (cache_HaveCoins_law v t Hc Hop) as L. change (HaveCoins t v) with (cache_HaveCoins t v). destruct (cache_HaveCoins t v) as [v' r].
    destruct L as (L1 & L2 & _ & L4 & L5). exists v'. cbn [fst snd]. rewrite L5. cbn. rewrite Hv. split; [done|].
    split; [done|]. split; [intros x; rewrite <- Hv; apply L2 | by rewrite <- Hb].
  - destruct Hop as (Ht & Hok & Hproper). destruct (Modify_law v t f Hc Ht) as (c & Ec & Oc & L).
    destruct (L (Hok c Oc)) as (v' & E & Hc' & Hv' & Hb'). rewrite E. cbn [mbind option_bind].
    rewrite Hv in Ec. destruct (utxo_default c _ Oc Ec) as [Od Ed].
    destruct (Hproper c _ Oc Od (eq_trans Ec (eq_sym Ed))) as [Ea Eu].
    destruct (f (default CCoins_new (utxo s t))) as [c' a]. cbn [fst snd] in *. exists v'. rewrite Ea.
    split; [done|]. split; [done|]. cbn [utxo tip]. split; [|by rewrite Hb'].
    intros x. rewrite Hv'. destruct (decide (x = t)); [done|apply Hv].
  - pose proof (GetBestBlock_law v Hc) as L. destruct (GetBestBlock v) as [v' h].
    destruct L as (L1 & L2 & _ & L4 & L5 & _). exists v'. cbn [fst snd]. rewrite L5. cbn. rewrite Hb. split; [done|].
    split; [done|]. split; [intros x; rewrite <- Hv; apply L2 | by rewrite <- Hb].
  - destruct Hop as [Wh Hz]. destruct (SetBestBlock_law v h Hc Wh Hz) as (L1 & L2 & L3).
    exists (SetBestBlock h v). split; [done|]. split; [done|]. split; [|done]. intros x. by rewrite L2.
Qed.

Lemma cache_run_refines v s ops : stands_for v s -> Forall op_ok ops ->
  exists v', cache_run ops v = Some (v', (spec_run ops s).2) /\ stands_for v' (spec_run ops s).1.
Proof using.
  intros Hs Hops. revert v s Hs. induction Hops as [|op ops Hop Hops IH]; intros v s Hs; [by exists v|].
  destruct (cache_step_refines v s op Hs Hop) as (v1 & E1 & S1). cbn [cache_run spec_run].
  rewrite E1. destruct (spec_step op s) as [s1 r]. cbn [fst snd mbind option_bind] in *.
  destruct (IH v1 s1 S1) as (v2 & E2 & S2). rewrite E2. destruct (spec_run ops s1) as [s2 rs]. cbn [fst snd mbind option_bind] in *.
  by exists v2.
Qed.
End session.

Lemma CCoinsViewCache_new_ok {V} `{CCoinsViewOk V} (v : V) : view_ok v ->
  stands_for (CCoinsViewCache_new v) (mk_UTXO (view v) (best v)).
Proof.
  intros Hv. split; [split; [done|split; [done|split; [apply wf_zero|apply map_Forall_empty]]]|]. split.
  - intros t. unfold cache_view. cbn. by rewrite lookup_empty.
  - unfold cache_best. cbn. by rewrite bool_decide_true.
Qed.

(** C6: a cache over any lawful view implements a map. A new cache answers every sequence
    of reads and modifications as the map the view stands for would, without failing an
    assertion; flushing it fails no assertion either and, if the write succeeds, the view
    stands for the updated map and, when the best block was read or set, has it. *)
Theorem cache_session_refines {V} `{CCoinsViewWrites V} (v : V) (ops : list view_op) (Hv : view_ok v)
    (Hops : Forall op_ok ops) :
  let '(s, rs) := spec_run ops (mk_UTXO (view v) (best v)) in
  exists v', cache_run ops (CCoinsViewCache_new v) = Some (v', rs) /\
    match Flush v' with
    | Ret (v'', ok) => ok = true ->
        view_ok (cv_base v'') /\ (forall t, wf 8 t -> view (cv_base v'') t = utxo s t) /\
        (hashBlock v' <> zero_hash -> best (cv_base v'') = tip s)
    | Err e => e = StoreError
    end.
Proof.
  destruct (cache_run_refines _ _ ops (CCoinsViewCache_new_ok v Hv) Hops) as (v' & E & Hc & Hu & Hb).
  destruct (spec_run ops _) as [s rs]. cbn [fst snd] in *. exists v'. split; [exact E|].
  pose proof (Flush_law v' Hc) as L. destruct (Flush v') as [[v'' ok]|e]; [|done].
  intros Hok. destruct (L Hok) as ((_ & Hb' & _) & _ & Hview & Hbest). split; [done|]. split.
  - intros t Wt. by rewrite (proj1 (Hview t Wt)).
  - intros Hz. rewrite Hbest, <- Hb by done. unfold cache_best. by rewrite bool_decide_false.
Qed.
