(* ===== verification/CoinsDB.v ===== *)
(** * The coin database ([txdb.cpp], [dbwrapper.h])

    [CCoinsViewDB], the view at the bottom: a key-value store that maps the serialized
    hash of a transaction to its serialized coins. *)

From Stdlib Require Import ZArith Lia List Bool.
From stdpp Require Import base option list gmap.
From coqutil Require Import Byte Word.LittleEndianList.
From S2P Require Import Prelude Uint256 Serialize MerkleDamgard Hash Script PubKey Tx Compressor Coins CoinsView.

Open Scope Z_scope.
Open Scope btc_scope.

(** A put or a delete queued in a [CDBBatch]. *)
Abbreviation batch_op := (bytes * option bytes)%type.

(** The operations of a batch applied in order to the contents of a store. *)
Definition apply_batch (g : bytes -> option bytes) (batch : list batch_op) : bytes -> option bytes :=
  fold_left (fun g op k => if decide (k = op.1) then op.2 else g k) batch g.

(** The key-value library: [kv_get] returns the value of a key, [kv_write] applies a batch
    atomically, or fails. *)
Class KeyValueStore (KV : Type) : Type := {
  kv_get : KV -> bytes -> option bytes;
  kv_write : KV -> list batch_op -> option KV }.

Class KeyValueStoreOk (KV : Type) `{KeyValueStore KV} : Prop := {
  kv_write_law db batch db' : kv_write db batch = Some db' -> forall k, kv_get db' k = apply_batch (kv_get db) batch k }.

Section db.
Context {KV : Type} `{KeyValueStore KV}.
Context (ec : list byte -> option (list byte)) (buf : list byte).

(** [make_pair(DB_COINS, txid)], [DB_BEST_BLOCK] *)
Definition coins_key (txid : uint256) : bytes := Byte.x63 :: uint_bytes txid.
Definition best_block_key : bytes := [Byte.x42].

Record CCoinsViewDB : Type := mk_db { db : KV }.

(** [CDBWrapper::Read]: a value that cannot be decoded counts as absent. *)
Definition db_Read {A} (r : reader A) (k : bytes) (v : CCoinsViewDB) : option A :=
  b ← kv_get (db v) k;
  match r b with Ret (x, _) => Some x | Err _ => None end.

Definition db_GetCoins (txid : uint256) (v : CCoinsViewDB) : CCoinsViewDB * option CCoins :=
  (v, db_Read (coins_Unserialize ec buf) (coins_key txid) v).

Definition db_HaveCoins (txid : uint256) (v : CCoinsViewDB) : CCoinsViewDB * bool :=
  (v, bool_decide (is_Some (kv_get (db v) (coins_key txid)))).

Definition db_GetBestBlock (v : CCoinsViewDB) : CCoinsViewDB * uint256 :=
  (v, default zero_hash (db_Read (Unserialize_uint 8) best_block_key v)).

(** The loop over the child's entries; [None] is the assertion of [CCoins::Serialize]. *)
Fixpoint db_batch (m : list (uint256 * CCoinsCacheEntry)) : option (list batch_op) :=
  match m with
  | [] => Some []
  | (t, e) :: m =>
      if flagged e DIRTY then
        if IsPruned (coins e) then ops ← db_batch m; Some ((coins_key t, None) :: ops)
        else b ← coins_Serialize ec buf (coins e); ops ← db_batch m; Some ((coins_key t, Some b) :: ops)
      else db_batch m
  end.

Definition db_BatchWrite (m : CCoinsMap) (h : uint256) (v : CCoinsViewDB) : result view_error (CCoinsViewDB * bool) :=
  match db_batch (map_to_list m) with
  | None => Err ViewAssert
  | Some batch =>
      let batch := batch ++ (if bool_decide (h = zero_hash) then [] else [(best_block_key, Some (uint_bytes h))]) in
      match kv_write (db v) batch with
      | Some d => Ret (mk_db d, true)
      | None => Err StoreError
      end
  end.

#[local] Instance CCoinsViewDB_view : CCoinsView CCoinsViewDB := {
  GetCoins := db_GetCoins;
  HaveCoins := db_HaveCoins;
  GetBestBlock := db_GetBestBlock;
  BatchWrite := db_BatchWrite }.

(** ** Laws *)

Definition db_view (v : CCoinsViewDB) (t : uint256) : option CCoins := (db_GetCoins t v).2 ≫= unspent.
Definition db_best (v : CCoinsViewDB) : uint256 := (db_GetBestBlock v).2.

(** Every value under a coin key is the serialization of storable coins, and the best
    block is a hash. *)
Definition db_ok (v : CCoinsViewDB) : Prop :=
  (forall t b, wf 8 t -> kv_get (db v) (coins_key t) = Some b -> exists c, storable c /\ coins_Serialize ec buf c = Some b) /\
  (forall b, kv_get (db v) best_block_key = Some b -> exists h, wf 8 h /\ b = uint_bytes h).

Lemma coins_key_inj t t' : wf 8 t -> wf 8 t' -> coins_key t = coins_key t' -> t = t'.
Proof using.
  intros Ht Ht' [= E]. by rewrite <- (bytes_uint_bytes 8 t Ht), E, bytes_uint_bytes.
Qed.

Lemma apply_batch_app g a b k : apply_batch g (a ++ b) k = apply_batch (apply_batch g a) b k.
Proof using. unfold apply_batch. by rewrite fold_left_app. Qed.

(** A key that the batch does not name keeps its value. *)
Lemma apply_batch_other g batch k : (forall op, op ∈ batch -> op.1 <> k) -> apply_batch g batch k = g k.
Proof using.
  revert g. induction batch as [|op batch IH]; intros g Hk; [done|]. cbn [apply_batch fold_left].
  change (fold_left _ batch ?h k) with (apply_batch h batch k). rewrite IH.
  - case_decide as D; [|done]. exfalso. symmetry in D. revert D. apply Hk. by left.
  - intros x Hx. apply Hk. by right.
Qed.

(** What the batch does to one coin key. *)
Lemma db_batch_spec l : NoDup l.*1 -> Forall (fun te => wf 8 te.1 /\ coins_ok (coins te.2)) l ->
  exists batch, db_batch l = Some batch /\
    (forall op, op ∈ batch -> exists t e, (t, e) ∈ l /\ op.1 = coins_key t) /\
    forall g t, wf 8 t -> apply_batch g batch (coins_key t) =
      match (list_to_map l : CCoinsMap) !! t with
      | Some e => if flagged e DIRTY then (if IsPruned (coins e) then None else coins_Serialize ec buf (coins e))
                  else g (coins_key t)
      | None => g (coins_key t)
      end.
Proof using.
  induction l as [|[t e] l IH]; intros Hd Hl.
  { exists []. split; [done|]. split; [|done]. intros op Hop. by apply elem_of_nil in Hop. }
  cbn [fmap list_fmap fst] in Hd. apply NoDup_cons in Hd as [Ht Hd]. apply Forall_cons in Hl as [[Wt Ho] Hl]. cbn [fst snd] in Wt, Ho.
  destruct (IH Hd Hl) as (batch & E & Hin & Happ). clear IH.
  assert (Hlt : (list_to_map l : CCoinsMap) !! t = None) by (by apply not_elem_of_list_to_map_1).
  assert (S : exists b1, db_batch ((t, e) :: l) = Some (b1 ++ batch) /\ (forall op, op ∈ b1 -> op.1 = coins_key t) /\
    forall g, apply_batch g b1 (coins_key t) = if flagged e DIRTY then (if IsPruned (coins e) then None else coins_Serialize ec buf (coins e))
                  else g (coins_key t)).
  { cbn [db_batch]. destruct (flagged e DIRTY).
    - destruct (IsPruned (coins e)) eqn:P.
      + rewrite E. exists [(coins_key t, None)]. split; [done|]. split.
        * intros op ->%list_elem_of_singleton. done.
        * intros g. cbn. by rewrite decide_True.
      + destruct Ho as [Hn|Hs]; [by unfold IsPruned in P; rewrite Hn in P|].
        destruct (coins_Serialize_Some ec buf (coins e) Hs) as [b Eb]. rewrite Eb, E.
        exists [(coins_key t, Some b)]. split; [done|]. split.
        * intros op ->%list_elem_of_singleton. done.
        * intros g. cbn. by rewrite decide_True.
    - exists []. rewrite E. split; [done|]. split; [|done]. intros op Hop. by apply elem_of_nil in Hop. }
  destruct S as (b1 & E1 & Hb1 & Ha1). exists (b1 ++ batch). split; [done|]. split.
  - intros op [Hop|Hop]%elem_of_app; [exists t, e; split; [by left|by apply Hb1]|].
    destruct (Hin op Hop) as (t' & e' & Hl' & Ek). exists t', e'. split; [by right|done].
  - intros g x Wx. rewrite apply_batch_app, Happ by done. rewrite list_to_map_cons.
    destruct (decide (x = t)) as [->|Nx].
    + rewrite lookup_insert_eq, Hlt. apply Ha1.
    + rewrite lookup_insert_ne by done.
      rewrite (apply_batch_other g b1); [done|]. intros op Hop Ek. rewrite Hb1 in Ek by done.
      apply coins_key_inj in Ek; [|done|done]. congruence.
Qed.

Context (Hbuf : length buf = 65%nat).
Context (Hec : forall x y, length x = 32%nat -> length y = 32%nat ->
  is_Some (ec (Byte.x04 :: x ++ y)) ->
  ec (byte.of_Z (2 + parity y) :: x) = Some (Byte.x04 :: x ++ y)).
Context {Hkv : KeyValueStoreOk KV}.

(** Stored coins are read back. *)
Lemma db_Read_coins v t b c : kv_get (db v) (coins_key t) = Some b -> storable c -> coins_Serialize ec buf c = Some b ->
  db_Read (coins_Unserialize ec buf) (coins_key t) v = Some c.
Proof using Hbuf Hec.
  intros Eb Hc Es. unfold db_Read. rewrite Eb. cbn [mbind option_bind].
  destruct (coins_Unserialize_Serialize ec buf Hbuf Hec c [] Hc) as (b' & E' & R).
  rewrite Es in E'. injection E' as <-. rewrite app_nil_r in R. by rewrite R.
Qed.

(** What is stored under a coin key of a well-formed database. *)
Lemma db_coins v t : db_ok v -> wf 8 t ->
  match kv_get (db v) (coins_key t) with
  | Some b => exists c, storable c /\ IsPruned c = false /\ (db_GetCoins t v).2 = Some c /\ db_view v t = Some c
  | None => (db_GetCoins t v).2 = None /\ db_view v t = None
  end.
Proof using Hbuf Hec.
  intros [Hv _] Wt. destruct (kv_get (db v) (coins_key t)) as [b|] eqn:E.
  - destruct (Hv t b Wt E) as (c & Hc & Es). pose proof (db_Read_coins v t b c E Hc Es) as R. exists c.
    assert (P : IsPruned c = false).
    { destruct (IsPruned c) eqn:P; [|done]. apply coins_ok_pruned in P; [|by right]. by destruct Hc as (_ & _ & ? & _). }
    unfold db_view, db_GetCoins. cbn [snd]. rewrite R. split; [done|]. split; [done|]. split; [done|].
    cbn. unfold unspent. by rewrite P.
  - unfold db_view, db_GetCoins, db_Read. cbn [snd]. by rewrite E.
Qed.

Lemma db_GetCoins_law v t : db_ok v -> wf 8 t ->
  let '(v', r) := db_GetCoins t v in
  db_ok v' /\ (forall x, db_view v' x = db_view v x) /\ (forall x : uint256, True -> True) /\ db_best v' = db_best v /\
  (r ≫= unspent) = db_view v t /\ (forall c, r = Some c -> coins_ok c /\ (IsPruned c = false -> True)).
Proof using Hbuf Hec.
  intros Hv Wt. pose proof (db_coins v t Hv Wt) as D. cbn [db_GetCoins]. do 5 (split; [done|]).
  intros c E. split; [|done]. destruct (kv_get (db v) (coins_key t)).
  - destruct D as (c' & Hc' & _ & E' & _). cbn in E'. rewrite E in E'. injection E' as ->. by right.
  - destruct D as [E' _]. cbn in E'. by rewrite E in E'.
Qed.

Lemma db_HaveCoins_law v t : db_ok v -> wf 8 t ->
  let '(v', b) := db_HaveCoins t v in
  db_ok v' /\ (forall x, db_view v' x = db_view v x) /\ (forall x : uint256, True -> True) /\ db_best v' = db_best v /\
  b = bool_decide (is_Some (db_view v t)).
Proof using Hbuf Hec.
  intros Hv Wt. pose proof (db_coins v t Hv Wt) as D. cbn [db_HaveCoins]. do 4 (split; [done|]).
  apply bool_decide_ext. destruct (kv_get (db v) (coins_key t)).
  - destruct D as (c' & _ & _ & _ & ->). by split; intros _; eexists.
  - destruct D as (_ & ->). done.
Qed.

Lemma db_HaveCoins_weak v t : db_ok v -> wf 8 t ->
  let '(v', b) := db_HaveCoins t v in
  db_ok v' /\ (forall x, db_view v' x = db_view v x) /\ (forall x : uint256, True -> True) /\ db_best v' = db_best v /\
  (is_Some (db_view v t) -> b = true).
Proof using Hbuf Hec.
  intros Hv Wt. pose proof (db_HaveCoins_law v t Hv Wt) as L. destruct (db_HaveCoins t v) as [v' b].
  destruct L as (L1 & L2 & L3 & L4 & ->). do 4 (split; [done|]). intros S. by apply bool_decide_true.
Qed.

Lemma zero_hash_wf : wf 8 zero_hash.
Proof using. apply wf_zero. Qed.

Lemma db_best_spec v : db_ok v -> wf 8 (db_best v) /\
  forall h, kv_get (db v) best_block_key = Some (uint_bytes h) -> wf 8 h -> db_best v = h.
Proof using.
  intros [_ Hb]. assert (R : forall h, kv_get (db v) best_block_key = Some (uint_bytes h) -> wf 8 h -> db_best v = h).
  { intros h E Wh. unfold db_best, db_GetBestBlock, db_Read. cbn [snd]. rewrite E. cbn [mbind option_bind].
    rewrite <- (app_nil_r (uint_bytes h)), Unserialize_uint_app by done. done. }
  split; [|exact R]. destruct (kv_get (db v) best_block_key) as [b|] eqn:E.
  - destruct (Hb b eq_refl) as (h & Wh & ->). by rewrite (R h eq_refl Wh).
  - unfold db_best, db_GetBestBlock, db_Read. cbn [snd]. rewrite E. apply zero_hash_wf.
Qed.

Lemma db_GetBestBlock_law v : db_ok v ->
  let '(v', h) := db_GetBestBlock v in
  db_ok v' /\ (forall x, db_view v' x = db_view v x) /\ (forall x : uint256, True -> True) /\ db_best v' = db_best v /\
  h = db_best v /\ wf 8 h.
Proof using. intros Hv. cbn [db_GetBestBlock]. do 5 (split; [done|]). apply db_best_spec. done. Qed.

Lemma coins_key_not_best t : coins_key t <> best_block_key.
Proof using. done. Qed.

Lemma db_BatchWrite_law v m h : db_ok v -> wf 8 h -> map_Forall (entry_ok (db_view v) (fun _ => True)) m ->
  match db_BatchWrite m h v with
  | Ret (v', ok) => ok = true ->
      db_ok v' /\
      (forall t, wf 8 t -> db_view v' t = match m !! t with Some e => unspent (coins e) | None => db_view v t end) /\
      (h <> zero_hash -> db_best v' = h)
  | Err e => e = StoreError
  end.
Proof using Hbuf Hec Hkv.
  intros Hv Wh Hm. unfold db_BatchWrite.
  destruct (db_batch_spec (map_to_list m)) as (batch & E & Hin & Happ).
  { apply NoDup_fst_map_to_list. }
  { apply Forall_forall. intros [t e] Hte%elem_of_map_to_list. destruct (Hm t e Hte) as (? & ? & _). done. }
  rewrite E. rewrite list_to_map_to_list in Happ. set (b2 := if bool_decide (h = zero_hash) then _ else _).
  destruct (kv_write (db v) (batch ++ b2)) as [d|] eqn:Ew; [|done]. intros _.
  pose proof (kv_write_law _ _ _ Ew) as Hd.
  assert (Hc : forall t, wf 8 t -> kv_get d (coins_key t) =
    match m !! t with
    | Some e => if flagged e DIRTY then (if IsPruned (coins e) then None else coins_Serialize ec buf (coins e))
                else kv_get (db v) (coins_key t)
    | None => kv_get (db v) (coins_key t)
    end).
  { intros t Wt. rewrite Hd, apply_batch_app, apply_batch_other; [by apply Happ|].
    intros op Hop Ek. subst b2. case_bool_decide; [by apply elem_of_nil in Hop|].
    apply list_elem_of_singleton in Hop as ->. done. }
  assert (Hbest : kv_get d best_block_key = if bool_decide (h = zero_hash) then kv_get (db v) best_block_key else Some (uint_bytes h)).
  { rewrite Hd, apply_batch_app. subst b2. case_bool_decide.
    - cbn. apply apply_batch_other. intros op Hop Ek. destruct (Hin op Hop) as (t & e & _ & Ek'). by rewrite Ek' in Ek.
    - cbn. by rewrite decide_True. }
  assert (Hok : db_ok (mk_db d)).
  { split.
    - intros t b Wt. cbn [db]. rewrite (Hc t Wt). destruct (m !! t) as [e|] eqn:Em; [|by apply Hv].
      destruct (flagged e DIRTY); [|by apply Hv]. destruct (IsPruned (coins e)) eqn:P; [done|]. intros Eb.
      destruct (Hm t e Em) as (_ & [Hn|Hs] & _); [by unfold IsPruned in P; rewrite Hn in P|]. by exists (coins e).
    - intros b. cbn [db]. rewrite Hbest. case_bool_decide; [apply Hv|]. intros [= <-]. by exists h. }
  split; [exact Hok|]. split.
  - intros t Wt. pose proof (db_coins _ t Hok Wt) as D'. pose proof (db_coins v t Hv Wt) as D. cbn [db] in D'.
    rewrite (Hc t Wt) in D'. destruct (m !! t) as [e|] eqn:Em.
    + destruct (Hm t e Em) as (_ & Ho & _ & _ & Hnd). destruct (flagged e DIRTY) eqn:Fd.
      * destruct (IsPruned (coins e)) eqn:P; [destruct D' as [_ ->]; symmetry; by apply unspent_None|].
        destruct Ho as [Hn|Hs]; [by unfold IsPruned in P; rewrite Hn in P|].
        destruct (coins_Serialize_Some ec buf (coins e) Hs) as [b Eb]. rewrite Eb in D'.
        destruct D' as (c & _ & _ & Ec & ->). unfold db_GetCoins in Ec. cbn [snd] in Ec.
        rewrite (db_Read_coins (mk_db d) t b (coins e)) in Ec; [|cbn [db]; by rewrite (Hc t Wt), Em, Fd, P|done|done].
        injection Ec as <-. unfold unspent. by rewrite P.
      * rewrite (Hnd eq_refl). unfold db_view, db_GetCoins, db_Read. cbn [db snd]. by rewrite (Hc t Wt), Em, Fd.
    + unfold db_view, db_GetCoins, db_Read. cbn [db snd]. by rewrite (Hc t Wt), Em.
  - intros Hz. apply (proj2 (db_best_spec _ Hok)); [|done]. cbn [db]. rewrite Hbest. by rewrite bool_decide_false.
Qed.

Definition CCoinsViewDB_ok : CCoinsViewOk CCoinsViewDB := {|
  view := db_view;
  pulled := fun _ _ => True;
  best := db_best;
  view_ok := db_ok;
  GetCoins_law := db_GetCoins_law;
  HaveCoins_law := db_HaveCoins_weak;
  GetBestBlock_law := db_GetBestBlock_law |}.

Lemma CCoinsViewDB_writes : @CCoinsViewWrites CCoinsViewDB CCoinsViewDB_view CCoinsViewDB_ok.
Proof using Hkv. constructor. exact db_BatchWrite_law. Qed.
End db.
Arguments CCoinsViewDB : clear implicits.

(** ** A store in memory *)

#[export] Instance memory_store : KeyValueStore (gmap bytes bytes) := {
  kv_get m k := m !! k;
  kv_write m batch := Some (fold_left (fun m op => match op.2 with Some v => <[op.1 := v]> m | None => delete op.1 m end) batch m) }.

#[export] Instance memory_store_ok : KeyValueStoreOk (gmap bytes bytes).
Proof.
  constructor. intros db batch db' [= <-] k. revert db. induction batch as [|[k' o] batch IH]; intros db; [done|].
  cbn [fold_left apply_batch fst snd] in *. rewrite IH. unfold apply_batch. cbn [fold_left].
  assert (G : forall (g g' : bytes -> option bytes), (forall x, g x = g' x) ->
    fold_left (fun g op k => if decide (k = op.1) then op.2 else g k) batch g k =
    fold_left (fun g op k => if decide (k = op.1) then op.2 else g k) batch g' k).
  { clear. induction batch as [|op batch IH]; intros g g' E; [apply E|]. cbn [fold_left]. apply IH.
    intros x. by destruct (decide (x = op.1)). }
  apply G. intros x. cbn. destruct (decide (x = k')) as [->|Ne]; destruct o as [v|].
  - by rewrite lookup_insert_eq.
  - by rewrite lookup_delete_eq.
  - by rewrite lookup_insert_ne.
  - by rewrite lookup_delete_ne.
Qed.

(** A cache on a cache on an empty database in memory: coins are added under a hash and
    spent again. *)
Definition sample_buf : list byte := repeat Byte.x00 65.
Definition sample_db : CCoinsViewDB (gmap bytes bytes) := mk_db ∅.
Definition sample_coins : CCoins := mk_CCoins true false [CTxOut_make 5 [Byte.x51]] 7 1.

Lemma sample_coins_ok : coins_ok sample_coins.
Proof.
  right. split; [reflexivity|]. split; [constructor; [|constructor]|split; [done|cbn; lia]].
  split; [|reflexivity]. split; [|split]; by vm_compute.
Qed.

Lemma cache_session_refines_witness :
  let no_ec := fun _ : list byte => @None (list byte) in
  let Hec := fun x y _ _ (E : is_Some (no_ec (Byte.x04 :: x ++ y))) =>
     match is_Some_None E with end in
  let V := CCoinsViewDB_view no_ec sample_buf in
  let VOk := CCoinsViewDB_ok no_ec sample_buf eq_refl Hec in
  let t := base_uint_u64 8 9 in
  let ops := [OpHaveCoins t; OpModify t (fun _ => (sample_coins, true)); OpHaveCoins t; OpSetBestBlock t; OpGetBestBlock] in
  exists v', @cache_run _ V ops (CCoinsViewCache_new sample_db) = Some (v', [RBool false; RBool true; RBool true; RUnit; RHash t]) /\
    match @Flush _ V v' with
    | Ret (v'', ok) => ok = true -> @view _ _ VOk (cv_base v'') t = Some sample_coins
    | Err e => e = StoreError
    end.
Proof.
  intros no_ec Hec V VOk t ops.
  assert (Wt : wf 8 t) by (split; [done|]; repeat (constructor; [by vm_compute|]); constructor).
  assert (Hops : Forall op_ok ops).
  { constructor; [exact Wt|]. constructor; [|constructor; [exact Wt|constructor; [by split|by repeat constructor]]].
    split; [exact Wt|]. split; [intros _ _; exact sample_coins_ok|]. intros _ _ _ _ _. by split. }
  assert (Hv : @view_ok _ _ VOk sample_db) by (by split).
  destruct (@cache_session_refines _ V VOk (CCoinsViewDB_writes no_ec sample_buf eq_refl Hec) sample_db ops Hv Hops) as (v' & E & F).
  exists v'. split; [exact E|]. destruct (@Flush _ V v') as [[v'' ok]|e]; [|exact F].
  intros Hok. destruct (F Hok) as (_ & G & _). refine (eq_trans (G t Wt) _). reflexivity.
Defined.
