(* ===== verification/Connect.v ===== *)
(** * Connecting and disconnecting the transactions of a block ([main.cpp])

    The part of [ConnectBlock] and [DisconnectBlock] that changes the set of unspent
    outputs.  Connecting spends the inputs and adds the outputs of each transaction, and
    collects the undo data; disconnecting goes backwards over both. *)

From Stdlib Require Import ZArith Lia List Bool.
From stdpp Require Import base option list gmap.
From coqutil Require Import Byte Word.LittleEndianList.
From S2P Require Import Prelude Uint256 Serialize MerkleDamgard Hash Script PubKey Tx Compressor Coins CoinsView CoinsDB.

Open Scope Z_scope.
Open Scope btc_scope.

(** How the functions end other than by their result: a failed assertion, an index outside
    a vector, and [return error(...)]. *)
Inductive block_error : Type := AssertionFailed | OutOfRange | Failed.

Section connect.
Context {V : Type} `{CCoinsView V}.

(** ** [UpdateCoins] *)

(** [inputs.ModifyCoins(hash)->Spend(prevout, undo)] *)
Definition spend_coins (n : nat) (c : CCoins) : CCoins * option CTxInUndo :=
  match Spend c n with Some (c', u) => (c', Some u) | None => (c, None) end.

(** [None] is the failed [assert(ret)]. *)
Fixpoint spend_inputs (vin : list CTxIn) (v : CCoinsViewCache V) : option (CCoinsViewCache V * list CTxInUndo) :=
  match vin with
  | [] => Some (v, [])
  | i :: vin =>
      '(v, ret) ← Modify (prev_hash (prevout i)) (spend_coins (Z.to_nat (prev_n (prevout i)))) v;
      u ← ret;
      '(v, us) ← spend_inputs vin v;
      Some (v, u :: us)
  end.

Definition has_inputs (tx : CMutableTransaction) : bool := negb (IsCoinBase tx) && negb (HasZerocoinSpendInputs tx).

Definition UpdateCoins (tx : CTransaction) (nHeight : Z) (v : CCoinsViewCache V) : option (CCoinsViewCache V * CTxUndo) :=
  '(v, us) ← (if has_inputs tx then spend_inputs (tx_vin tx) v else Some (v, []));
  '(v, _) ← Modify (tx_hash tx) (fun _ => (FromTx tx nHeight, tt)) v;
  Some (v, mk_CTxUndo us).

(** The loop of [ConnectBlock]: the undo data of all transactions but the first. *)
Fixpoint connect_txs (first : bool) (vtx : list CTransaction) (nHeight : Z) (v : CCoinsViewCache V) :
    option (CCoinsViewCache V * list CTxUndo) :=
  match vtx with
  | [] => Some (v, [])
  | tx :: vtx =>
      '(v, u) ← UpdateCoins tx nHeight v;
      '(v, us) ← connect_txs false vtx nHeight v;
      Some (v, if first then us else u :: us)
  end.

(** ** The address index *)

(** The records queued for the indexes: type, hash and position of the address, and the
    amount or the output ([None] erases it); what spent an output, for the spent index. *)
Record CSpentIndexValue : Type := mk_spent { si_txid : uint256; si_inputIndex : nat; si_blockHeight : Z; si_satoshis : Z; si_addressType : Z; si_addressHash : list byte }.
Inductive index_op : Type :=
| AddressIndex (type : Z) (hashBytes : list byte) (nHeight : Z) (i : nat) (hash : uint256) (k : nat) (spending : bool) (amount : Z)
| AddressUnspentIndex (type : Z) (hashBytes : list byte) (hash : uint256) (n : Z) (value : option (Z * CScript * Z))
| SpentIndex (hash : uint256) (n : Z) (value : option CSpentIndexValue).

(** The type and the hash of the standard scripts to an address. *)
Definition script_address (s : CScript) : option (Z * list byte) :=
  if IsPayToScriptHash s then Some (2, take 20 (drop 2 s))
  else if IsPayToPublicKeyHash s then Some (1, take 20 (drop 3 s))
  else None.

(** [for (k = tx.vout.size(); k-- > 0;)]: undo receiving activity. *)
Definition index_outputs (nHeight : Z) (i : nat) (tx : CTransaction) : list index_op :=
  concat (rev (imap (fun k out =>
    match script_address (scriptPubKey out) with
    | Some (ty, h) => [AddressIndex ty h nHeight i (tx_hash tx) k false (nValue out);
                       AddressUnspentIndex ty h (tx_hash tx) (Z.of_nat k) None]
    | None => []
    end) (tx_vout tx))).

(** ** [DisconnectBlock] *)

Section disconnect.
Context (fAddressIndex fSpentIndex : bool) (nHeight : Z).

(** The outputs: compared with those of the transaction, then removed. *)
Definition check_outputs (tx : CTransaction) (outs : CCoins) : CCoins * bool :=
  let outs := ClearUnspendable outs in
  let outsBlock := FromTx tx nHeight in
  let outs := if c_nVersion outsBlock <? 0
              then mk_CCoins (fCoinBase outs) (fCoinStake outs) (c_vout outs) (Coins.nHeight outs) (c_nVersion outsBlock)
              else outs in
  (CCoins_Clear outs, CCoins_eq outs outsBlock).

(** The restoration of one output in the coins of its transaction, and whether the coins
    were in the state the undo data expects.  The code computes [n + 1] in 32 bits; it
    would wrap only for an output of the null index, which no transaction has. *)
Definition restore_output (undo : CTxInUndo) (n : nat) (coins : CCoins) : CCoins * bool :=
  let '(coins, fClean) :=
    if negb (u_nHeight undo =? 0) then
      (mk_CCoins (u_fCoinBase undo) (fCoinStake (CCoins_Clear coins)) (c_vout (CCoins_Clear coins))
         (i32 (u_nHeight undo)) (u_nVersion undo), IsPruned coins)
    else (coins, negb (IsPruned coins)) in
  let fClean := fClean && negb (IsAvailable coins n) in
  let vout := if (length (c_vout coins) <? n + 1)%nat
              then c_vout coins ++ repeat CTxOut_SetNull (n + 1 - length (c_vout coins)) else c_vout coins in
  (with_vout coins (<[n := u_txout undo]> vout), fClean).

(** One input: the modifier is alive during the whole turn, also when [continue] ends it. *)
Definition disconnect_input (i : nat) (hash : uint256) (j : nat) (input : CTxIn) (undo : CTxInUndo) (v : CCoinsViewCache V) :
    result block_error (CCoinsViewCache V * bool * list index_op) :=
  let out := prevout input in
  match ModifyCoins (prev_hash out) v with
  | None => Err AssertionFailed
  | Some v =>
      let ops := if fSpentIndex then [SpentIndex (prev_hash out) (prev_n out) None] else [] in
      let restore (ops : list index_op) (v : CCoinsViewCache V) :=
        match cacheCoins v !! prev_hash out with
        | None => Err AssertionFailed
        | Some e =>
            let '(c, fClean) := restore_output undo (Z.to_nat (prev_n out)) (coins e) in
            match CCoinsModifier_end (prev_hash out) (with_cache v (<[prev_hash out := mk_entry c (flags e)]> (cacheCoins v))) with
            | Some v => Ret (v, fClean, ops)
            | None => Err AssertionFailed
            end
        end in
      if negb fAddressIndex then restore ops v else
      match GetOutputFor input v with
      | (_, None) => Err AssertionFailed
      | (v, Some prev) =>
          match script_address (scriptPubKey prev) with
          | Some (ty, h) =>
              restore (ops ++ [AddressIndex ty h nHeight i hash j true (nValue prev * -1);
                               AddressUnspentIndex ty h (prev_hash out) (prev_n out)
                                 (Some (nValue prev, scriptPubKey prev, u_nHeight undo))]) v
          | None =>
              match CCoinsModifier_end (prev_hash out) v with
              | Some v => Ret (v, true, ops)
              | None => Err AssertionFailed
              end
          end
      end
  end.

(** [for (j = tx.vin.size(); j-- > 0;)]: the list is in that order. *)
Fixpoint disconnect_inputs (i : nat) (hash : uint256) (l : list (nat * (CTxIn * CTxInUndo))) (v : CCoinsViewCache V) :
    result block_error (CCoinsViewCache V * bool * list index_op) :=
  match l with
  | [] => Ret (v, true, [])
  | (j, (input, undo)) :: l =>
      let* r := disconnect_input i hash j input undo v in
      let '(v, fClean, ops) := r in
      let* r := disconnect_inputs i hash l v in
      let '(v, fClean', ops') := r in
      Ret (v, fClean && fClean', ops ++ ops')
  end.

(** [EraseZerocoins] is the removal of the spends and mints of a transaction from the
    zerocoin database: the numbers are read by the zerocoin library. *)
Context (EraseZerocoins : CTransaction -> bool).

(** One transaction, with [blockUndo.vtxundo[i - 1]]. *)
Definition disconnect_tx (i : nat) (tx : CTransaction) (txundo : option CTxUndo) (v : CCoinsViewCache V) :
    result block_error (CCoinsViewCache V * bool * list index_op) :=
  let ops := if fAddressIndex then index_outputs nHeight i tx else [] in
  if ContainsZerocoins tx && negb (EraseZerocoins tx) then Err Failed else
  match Modify (tx_hash tx) (check_outputs tx) v with
  | None => Err AssertionFailed
  | Some (v, fClean) =>
      if has_inputs tx then
        match txundo with
        | None => Err OutOfRange
        | Some txundo =>
            if negb (length (vprevout txundo) =? length (tx_vin tx))%nat then Err Failed else
            let* r := disconnect_inputs i (tx_hash tx)
              (rev (imap pair (zip (tx_vin tx) (vprevout txundo)))) v in
            let '(v, fClean', ops') := r in
            Ret (v, fClean && fClean', ops ++ ops')
        end
      else Ret (v, fClean, ops)
  end.

(** [for (i = block.vtx.size() - 1; i >= 0; i--)], over the transactions in order: the later
    ones are undone first.  [i] is the index of the head and [undo] the data from
    [vtxundo[i - 1]] on. *)
Fixpoint disconnect_txs (i : nat) (vtx : list CTransaction) (undo : list CTxUndo) (v : CCoinsViewCache V) :
    result block_error (CCoinsViewCache V * bool * list index_op) :=
  match vtx with
  | [] => Ret (v, true, [])
  | tx :: vtx =>
      let '(txundo, undo) := match i with O => (None, undo) | S _ => (head undo, tail undo) end in
      let* r := disconnect_txs (S i) vtx undo v in
      let '(v, fClean, ops) := r in
      let* r := disconnect_tx i tx txundo v in
      let '(v, fClean', ops') := r in
      Ret (v, fClean && fClean', ops ++ ops')
  end.

(** [EraseAccumulators] is the removal of the accumulator checkpoint when it changes at
    the block; the result is [fClean] and the queued index records. *)
Context (EraseAccumulators : bool).

Definition DisconnectBlock (blockHash prevHash : uint256) (vtx : list CTransaction) (vtxundo : list CTxUndo) (v : CCoinsViewCache V) :
    result block_error (CCoinsViewCache V * bool * list index_op) :=
  let '(v, bestBlock) := cache_GetBestBlock v in
  if negb (bool_decide (blockHash = bestBlock)) then Err AssertionFailed else
  if negb (length vtxundo + 1 =? length vtx)%nat then Err Failed else
  let* r := disconnect_txs 0 vtx vtxundo v in
  let '(v, fClean, ops) := r in
  let v := SetBestBlock prevHash v in
  if negb EraseAccumulators then Err Failed else
  Ret (v, fClean, ops).
End disconnect.

(** The coins part of [ConnectBlock], and its last step. *)
Definition ConnectBlock_coins (blockHash prevHash : uint256) (vtx : list CTransaction) (nHeight : Z) (v : CCoinsViewCache V) :
    result block_error (CCoinsViewCache V * list CTxUndo) :=
  let '(v, bestBlock) := cache_GetBestBlock v in
  if negb (bool_decide (prevHash = bestBlock)) then Err AssertionFailed else
  match connect_txs true vtx nHeight v with
  | None => Err AssertionFailed
  | Some (v, us) => Ret (SetBestBlock blockHash v, us)
  end.
End connect.

(** ** Spending an output and restoring it *)

(** Outputs as the set holds them: a spent one carries nothing. *)
Definition canonical_out (o : CTxOut) : Prop := CTxOut_IsNull o = true -> o = CTxOut_SetNull.

Lemma storable_out_canonical o : storable_out o -> canonical_out o.
Proof. unfold storable_out, canonical_out. intros H E. by rewrite E in H. Qed.

Lemma pop_nulls_decomp r : Forall canonical_out r -> exists k, r = repeat CTxOut_SetNull k ++ pop_nulls r.
Proof.
  induction 1 as [|o r Ho Hr [k IH]]; [by exists 0%nat|]. cbn [pop_nulls]. destruct (CTxOut_IsNull o) eqn:E.
  - exists (S k). cbn [repeat app]. by rewrite (Ho E), <- IH.
  - by exists 0%nat.
Qed.

Lemma Cleanup_decomp v : Forall canonical_out v -> exists k, v = Cleanup_vout v ++ repeat CTxOut_SetNull k.
Proof.
  intros Hv. destruct (pop_nulls_decomp (rev v)) as [k E]; [by apply Forall_rev|]. exists k.
  unfold Cleanup_vout. rewrite <- (rev_involutive v) at 1. rewrite E at 1. by rewrite rev_app_distr, rev_repeat'.
Qed.

(** Spending drops at most the end of the vector: grown again, it is the vector with a
    spent output. *)
Lemma Cleanup_regrow v n o : clean v -> Forall canonical_out v -> v !! n = Some o -> CTxOut_IsNull o = false ->
  let w := Cleanup_vout (<[n := CTxOut_SetNull]> v) in
  w ++ repeat CTxOut_SetNull (n + 1 - length w) = <[n := CTxOut_SetNull]> v.
Proof.
  intros Hc Hv Hn Ho w. pose proof (lookup_lt_Some _ _ _ Hn) as Ln.
  destruct (Cleanup_decomp (<[n := CTxOut_SetNull]> v)) as [k E]; [by apply Forall_insert|]. fold w in E.
  assert (L : length v = (length w + k)%nat).
  { apply (f_equal length) in E. by rewrite length_insert, length_app, repeat_length in E. }
  destruct k as [|k].
  - replace (n + 1 - length w)%nat with 0%nat by lia. by rewrite E.
  - destruct (decide (S n = length v)) as [En|En].
    { replace (n + 1 - length w)%nat with (S k) by lia. by rewrite E. }
    exfalso. assert (Hl : <[n := CTxOut_SetNull]> v !! Nat.pred (length v) = v !! Nat.pred (length v)).
    { apply list_lookup_insert_ne. lia. }
    destruct (last v) as [x|] eqn:Ex; [|apply last_None in Ex; rewrite Ex in Ln; cbn in Ln; lia]. rewrite last_lookup in Ex.
    rewrite Ex, E in Hl. replace (Nat.pred (length v)) with (length w + k)%nat in Hl by lia.
    rewrite lookup_app_r in Hl by lia. replace (length w + k - length w)%nat with k in Hl by lia.
    assert (R : repeat CTxOut_SetNull (S k) !! k = Some CTxOut_SetNull).
    { clear. induction k as [|k IH]; [done|exact IH]. }
    rewrite R in Hl. injection Hl as <-. rewrite <- last_lookup in Ex. pose proof (clean_last _ _ Hc Ex) as B. discriminate B.
Qed.

Lemma Spend_inv c n c' u : Spend c n = Some (c', u) ->
  exists o, c_vout c !! n = Some o /\ CTxOut_IsNull o = false /\
    c' = Cleanup (with_vout c (<[n := CTxOut_SetNull]> (c_vout c))) /\ u_txout u = o /\
    (IsPruned c' = true -> c_vout c' = [] -> u = mk_CTxInUndo o (fCoinBase c) (fCoinStake c) (u32 (nHeight c)) (c_nVersion c)) /\
    (c_vout c' <> [] -> u = CTxInUndo_of o).
Proof.
  unfold Spend. destruct (c_vout c !! n) as [o|]; [|done]. destruct (CTxOut_IsNull o) eqn:Ho; [done|].
  set (d := Cleanup _). cbv zeta. destruct (Nat.eqb_spec (length (c_vout d)) 0) as [L|L]; intros [= <- <-]; exists o.
  - do 4 (split; [done|]). split; [done|]. intros Hn. by destruct (c_vout d).
  - do 4 (split; [done|]). split; [|done]. intros _ E. by rewrite E in L.
Qed.

Lemma storable_canonical c : storable c -> Forall canonical_out (c_vout c).
Proof. intros (_ & H & _). eapply Forall_impl; [exact H|]. apply storable_out_canonical. Qed.

Lemma Spend_ok c n c' u : coins_ok c -> Spend c n = Some (c', u) ->
  storable c /\ coins_ok c' /\ Cleanup c' = c' /\ nHeight c' = nHeight c.
Proof.
  intros Hc S. apply Spend_inv in S as (o & Hn & Ho & -> & _).
  destruct Hc as [E|Hs]; [by rewrite E in Hn|]. split; [done|].
  pose proof (storable_canonical c Hs) as Hcan. destruct Hs as (Hcl & Hst & Hne & Hlen & Hh & Hv).
  set (d := Cleanup _). assert (Hd : clean (c_vout d)) by apply Cleanup_clean.
  split; [|split; [unfold Cleanup; rewrite Hd; by destruct d|done]].
  destruct (decide (c_vout d = [])) as [E|E]; [by left|right]. split; [done|]. split; [|split; [done|split; [|done]]].
  - assert (Hi : Forall storable_out (<[n := CTxOut_SetNull]> (c_vout c))) by (by apply Forall_insert).
    destruct (Cleanup_decomp (<[n := CTxOut_SetNull]> (c_vout c))) as [k Ek].
    { eapply Forall_impl; [exact Hi|]. apply storable_out_canonical. }
    rewrite Ek in Hi. by apply Forall_app in Hi as [Hi _].
  - destruct (Cleanup_decomp (<[n := CTxOut_SetNull]> (c_vout c))) as [k Ek]; [by apply Forall_insert|].
    apply (f_equal length) in Ek. rewrite length_insert, length_app in Ek. subst d. cbn [c_vout Cleanup with_vout] in *. lia.
Qed.

(** Restoring what was spent, in coins that are as spending left them. *)
Lemma restore_Spend c n c' u d : storable c -> 0 < nHeight c -> Spend c n = Some (c', u) -> u_fCoinStake u = false ->
  coins_ok d -> unspent d = unspent c' -> (IsPruned c' = true -> fCoinStake c = false) ->
  restore_output u n d = (c, true).
Proof.
  intros Hs Hh S Hu Hd Eu Hstake. pose proof (Spend_ok c n c' u (or_intror Hs) S) as (_ & Hc' & _ & _).
  pose proof (storable_canonical c Hs) as Hcan.
  apply Spend_inv in S as (o & Hn & Ho & Ec' & Et & Ep & Eup). destruct Hs as (Hcl & _ & _ & _ & Hht & _).
  pose proof (Cleanup_regrow (c_vout c) n o Hcl Hcan Hn Ho) as G. cbv zeta in G.
  assert (Ev : c_vout c' = Cleanup_vout (<[n := CTxOut_SetNull]> (c_vout c))) by (by rewrite Ec').
  rewrite <- Ev in G. set (w := c_vout c') in *.
  assert (Grow : (if (length w <? n + 1)%nat then w ++ repeat CTxOut_SetNull (n + 1 - length w) else w) = <[n := CTxOut_SetNull]> (c_vout c)).
  { destruct (Nat.ltb_spec (length w) (n + 1)); [exact G|]. rewrite <- G.
    replace (n + 1 - length w)%nat with 0%nat by lia. by rewrite app_nil_r. }
  assert (Back : <[n := o]> (<[n := CTxOut_SetNull]> (c_vout c)) = c_vout c).
  { rewrite list_insert_insert_eq || rewrite list_insert_insert. by apply list_insert_id. }
  unfold restore_output. destruct (IsPruned c') eqn:P.
  - assert (Ew : w = []) by (by apply coins_ok_pruned). specialize (Ep eq_refl Ew). subst u. cbn [u_nHeight u_fCoinBase u_nVersion u_txout u_fCoinStake] in *.
    rewrite u32_small by (unfold in_u32; lia). destruct (Z.eqb_spec (nHeight c) 0); [lia|]. cbn [negb].
    assert (Pd : IsPruned d = true) by (apply unspent_None; rewrite Eu; by apply unspent_None). rewrite Pd.
    rewrite i32_small by (unfold in_i32; lia). cbn [CCoins_Clear c_vout fCoinStake length].
    rewrite Ew in Grow. cbn [length] in Grow. destruct (Nat.ltb_spec 0 (n + 1)); [|lia]. rewrite Grow, Back.
    unfold IsAvailable. cbn [c_vout]. rewrite lookup_nil. cbn [negb andb].
    f_equal. unfold with_vout. cbn. destruct c; cbn in *. by rewrite (Hstake eq_refl).
  - assert (Nw : w <> []). { intros E. rewrite (proj2 (coins_ok_pruned c' Hc') E) in P. done. }
    specialize (Eup Nw). subst u. cbn [CTxInUndo_of u_nHeight u_txout Z.eqb negb].
    assert (Ed : d = c').
    { unfold unspent in Eu. rewrite P in Eu. destruct (IsPruned d); congruence. }
    subst d. rewrite P. fold w. rewrite Grow, Back.
    assert (Av : IsAvailable c' n = false).
    { unfold IsAvailable. fold w. destruct (decide (n < length w)%nat) as [L|L]; [|by rewrite lookup_ge_None_2 by lia].
      assert (E : w !! n = Some CTxOut_SetNull).
      { rewrite <- (lookup_app_l w (repeat CTxOut_SetNull (n + 1 - length w))) by done. rewrite G.
        apply list_lookup_insert_eq. by apply lookup_lt_Some in Hn. }
      by rewrite E. }
    rewrite Av. cbn [negb andb]. f_equal. rewrite Ec'. unfold Cleanup, with_vout. cbn. by destruct c.
Qed.

(** ** Removing the outputs of a transaction *)

Lemma CTxOut_eq_refl o : CTxOut_eq o o = true.
Proof. unfold CTxOut_eq. by rewrite !Z.eqb_refl, bool_decide_true. Qed.

Lemma CCoins_eq_refl c : CCoins_eq c c = true.
Proof.
  unfold CCoins_eq. destruct (_ && _); [done|]. rewrite !eqb_reflx, !Z.eqb_refl. cbn [andb].
  induction (c_vout c); [done|]. cbn [vout_eq]. by rewrite CTxOut_eq_refl.
Qed.

Lemma ClearUnspendable_FromTx tx h : ClearUnspendable (FromTx tx h) = FromTx tx h.
Proof.
  unfold FromTx, ClearUnspendable, Cleanup, with_vout. cbn [fCoinBase fCoinStake c_vout nHeight c_nVersion]. f_equal.
  set (f := fun o => if IsUnspendable (scriptPubKey o) then CTxOut_SetNull else o).
  set (v := map f (tx_vout tx)).
  assert (Hf : forall r, Forall (fun o => f o = o) r -> Forall (fun o => f o = o) (pop_nulls r)).
  { induction 1 as [|o r Ho Hr IH]; [done|]. cbn [pop_nulls]. destruct (CTxOut_IsNull o); [done|]. by constructor. }
  assert (Hv : Forall (fun o => f o = o) v).
  { apply Forall_forall. intros o [x [-> _]]%list_elem_of_fmap. subst f. cbn.
    destruct (IsUnspendable (scriptPubKey x)) eqn:E; [done|by rewrite E]. }
  replace (map f (Cleanup_vout v)) with (Cleanup_vout v); [apply Cleanup_clean|].
  assert (Hc : Forall (fun o => f o = o) (Cleanup_vout v)) by (apply Forall_rev, Hf, Forall_rev, Hv).
  induction Hc as [|o l Ho Hl IH]; [done|]. cbn [map]. by rewrite Ho, <- IH.
Qed.

Lemma check_outputs_FromTx (tx : CTransaction) h d : coins_ok d -> unspent d = unspent (FromTx tx h) ->
  check_outputs h tx d = (CCoins_new, true).
Proof.
  intros Hd E. unfold check_outputs. cbv zeta. f_equal. unfold unspent in E. destruct (IsPruned (FromTx tx h)) eqn:P.
  - destruct (IsPruned d) eqn:Pd; [|done]. apply coins_ok_pruned in Pd; [|done].
    assert (Ev : c_vout (ClearUnspendable d) = []) by (unfold ClearUnspendable, Cleanup, with_vout; cbn; by rewrite Pd).
    unfold CCoins_eq. rewrite P.
    destruct (c_nVersion (FromTx tx h) <? 0); unfold IsPruned at 1; cbn [c_vout]; by rewrite Ev.
  - destruct (IsPruned d); [done|]. injection E as ->. rewrite ClearUnspendable_FromTx.
    destruct (c_nVersion (FromTx tx h) <? 0); [|apply CCoins_eq_refl].
    destruct (FromTx tx h). apply CCoins_eq_refl.
Qed.

(** ** Going back over a transaction *)

Section inverse.
Context {V : Type} `{CCoinsViewOk V}.

(** Caches that stand for the same coins. *)
Definition agree (v w : CCoinsViewCache V) : Prop := forall t, cache_view w t = cache_view v t.

(** Every coin has a positive height: those of the genesis block are not in the set. *)
Definition heights_positive (v : CCoinsViewCache V) : Prop := forall t c, cache_view v t = Some c -> 0 < nHeight c.

Lemma unspent_Some c d : unspent c = Some d -> c = d.
Proof using. unfold unspent. destruct (IsPruned c); congruence. Qed.

(** One input spent, seen on the map. *)
Lemma Modify_spend (v : CCoinsViewCache V) t n : cache_ok v -> wf 8 t ->
  match Modify t (spend_coins n) v with
  | Some (v', Some u) =>
      exists c c', cache_view v t = Some c /\ coins_ok c /\ Spend c n = Some (c', u) /\ cache_ok v' /\
        (forall x, cache_view v' x = if decide (x = t) then unspent c' else cache_view v x) /\ cache_best v' = cache_best v
  | _ => True
  end.
Proof using.
  intros Hc Ht. destruct (Modify_law v t (spend_coins n) Hc Ht) as (c & Eu & Ho & L). unfold spend_coins in L.
  destruct (Spend c n) as [[c' u]|] eqn:S; cbn [fst snd] in L.
  - destruct (Spend_ok c n c' u Ho S) as (Hs & Hc' & Ecl & _). rewrite Ecl in L.
    destruct (L Hc') as (v' & E & Hv' & Hview & Hbest).
    change (Modify t (spend_coins n) v = Some (v', Some u)) in E. rewrite E.
    exists c, c'. split; [|split; [done|]; split; [done|]; split; [done|]; by split]. rewrite <- Eu. unfold unspent.
    destruct (IsPruned c) eqn:P; [|done]. apply coins_ok_pruned in P; [|done]. unfold Spend in S. by rewrite P in S.
  - assert (Ecl : Cleanup c = c).
    { unfold Cleanup. rewrite (coins_ok_clean c Ho). by destruct c. }
    rewrite Ecl in L. destruct (L Ho) as (v' & E & _).
    change (Modify t (spend_coins n) v = Some (v', None)) in E. by rewrite E.
Qed.

Lemma disconnect_input_off (fSpentIndex : bool) h i hash j input u (v : CCoinsViewCache V) :
  disconnect_input false fSpentIndex h i hash j input u v =
  match Modify (prev_hash (prevout input)) (restore_output u (Z.to_nat (prev_n (prevout input)))) v with
  | Some (v, b) => Ret (v, b, if fSpentIndex then [SpentIndex (prev_hash (prevout input)) (prev_n (prevout input)) None] else [])
  | None => Err AssertionFailed
  end.
Proof using.
  unfold disconnect_input, Modify. destruct (ModifyCoins _ v) as [v1|]; [|done]. cbn [mbind option_bind negb].
  destruct (cacheCoins v1 !! _) as [e|]; [|done]. cbn [mbind option_bind].
  destruct (restore_output _ _ _) as [c b]. by destruct (CCoinsModifier_end _ _).
Qed.

Lemma disconnect_inputs_app fA fS h i hash l1 l2 (v : CCoinsViewCache V) :
  disconnect_inputs fA fS h i hash (l1 ++ l2) v =
  let* r := disconnect_inputs fA fS h i hash l1 v in let '(v, b, ops) := r in
  let* r := disconnect_inputs fA fS h i hash l2 v in let '(v, b', ops') := r in
  Ret (v, b && b', ops ++ ops').
Proof using.
  revert v. induction l1 as [|[j [input u]] l1 IH]; intros v; cbn [app disconnect_inputs result_bind].
  - by destruct (disconnect_inputs _ _ _ _ _ l2 v) as [[[w b] ops]|].
  - destruct (disconnect_input _ _ _ _ _ _ _ _ _) as [[[w b] ops]|]; [|done]. cbn [result_bind]. rewrite IH.
    destruct (disconnect_inputs _ _ _ _ _ l1 w) as [[[w1 b1] ops1]|]; [|done]. cbn [result_bind].
    destruct (disconnect_inputs _ _ _ _ _ l2 w1) as [[[w2 b2] ops2]|]; [|done]. cbn [result_bind].
    by rewrite andb_assoc, app_assoc.
Qed.

(** The undo data of the inputs restores what they spent. *)
Lemma spend_inputs_inverse vin (v v' : CCoinsViewCache V) us fS h i hash :
  cache_ok v -> heights_positive v -> Forall (fun x => wf 8 (prev_hash (prevout x))) vin ->
  spend_inputs vin v = Some (v', us) -> Forall (fun u => u_fCoinStake u = false) us ->
  cache_ok v' /\ heights_positive v' /\ cache_best v' = cache_best v /\ length us = length vin /\
  (forall t, cache_view v t = None -> cache_view v' t = None) /\
  forall js w, length js = length vin -> cache_ok w -> agree v' w ->
    exists w' ops, disconnect_inputs false fS h i hash (rev (zip js (zip vin us))) w = Ret (w', true, ops) /\
      cache_ok w' /\ agree v w' /\ cache_best w' = cache_best w.
Proof using.
  revert v v' us. induction vin as [|x vin IH]; intros v v' us Hc Hh Hw E Hu; cbn [spend_inputs] in E.
  { injection E as <- <-. do 5 (split; [done|]). intros [|] w Hjs Hcw Ha; [|done]. exists w, []. done. }
  apply Forall_cons in Hw as [Wx Hw]. pose proof (Modify_spend v (prev_hash (prevout x)) (Z.to_nat (prev_n (prevout x))) Hc Wx) as M.
  destruct (Modify _ _ v) as [[v1 [u|]]|]; [|done|done]. cbn [mbind option_bind] in E.
  destruct M as (c & c' & Ev & Hok & S & Hc1 & Hv1 & Hb1). set (t := prev_hash (prevout x)) in *. set (n := Z.to_nat _) in *.
  destruct (spend_inputs vin v1) as [[v2 us']|] eqn:E2; [|done]. cbn [mbind option_bind] in E. injection E as <- <-.
  apply Forall_cons in Hu as [Hux Hu].
  destruct (Spend_ok c n c' u Hok S) as (Hs & Hc' & Ecl & Ehh).
  assert (Hh1 : heights_positive v1).
  { intros y d Hy. rewrite Hv1 in Hy. destruct (decide (y = t)); [|by apply (Hh y)].
    apply unspent_Some in Hy as <-. rewrite Ehh. by apply (Hh t). }
  destruct (IH v1 v2 us' Hc1 Hh1 Hw E2 Hu) as (I1 & I2 & I3 & I4 & I5 & I6).
  split; [done|]. split; [done|]. split; [congruence|]. split; [cbn [length]; lia|]. split.
  { intros y Hy. apply I5. rewrite Hv1. destruct (decide (y = t)) as [->|]; [congruence|done]. }
  intros [|j js] w Hjs Hcw Ha; [done|]. cbn [zip zip_with rev]. rewrite disconnect_inputs_app.
  destruct (I6 js w ltac:(cbn [length] in Hjs; lia) Hcw Ha) as (w1 & ops1 & E1 & Hcw1 & Ha1 & Hbw1). rewrite E1. cbn [result_bind disconnect_inputs].
  rewrite disconnect_input_off. fold t n.
  destruct (Modify_law w1 t (restore_output u n) Hcw1 Wx) as (d & Eud & Hd & L).
  assert (Hst : IsPruned c' = true -> fCoinStake c = false).
  { intros P. apply Spend_inv in S as (o & _ & _ & _ & _ & Ep & _).
    rewrite Ep in Hux; [exact Hux|done|by apply coins_ok_pruned]. }
  rewrite (restore_Spend c n c' u d Hs (Hh t c Ev) S Hux Hd) in L; [|rewrite Eud, Ha1, Hv1; by rewrite decide_True|done].
  cbn [fst snd] in L. assert (Ec : Cleanup c = c) by (unfold Cleanup; rewrite (proj1 Hs); by destruct c).
  rewrite Ec in L. destruct (L Hok) as (w2 & E3 & Hcw2 & Hvw2 & Hbw2). rewrite E3. cbn [result_bind].
  eexists w2, _. split; [reflexivity|]. split; [done|]. split; [|congruence].
  intros y. rewrite Hvw2. destruct (decide (y = t)) as [->|Ne].
  - rewrite Ev. unfold unspent. destruct (IsPruned c) eqn:P; [exfalso|done].
    apply coins_ok_pruned in P; [|done]. by destruct Hs as (_ & _ & ? & _).
  - rewrite Ha1, Hv1. by rewrite decide_False.
Qed.
(** The loops of [ConnectBlock] and [DisconnectBlock], seen from the coins. *)
Lemma Cleanup_ok c : coins_ok c -> Cleanup c = c.
Proof using. intros Hc. unfold Cleanup. rewrite (coins_ok_clean c Hc). by destruct c. Qed.

Lemma imap_pair_zip {A} (l : list A) : imap pair l = zip (seq 0 (length l)) l.
Proof using.
  assert (G : forall k, imap (fun i => pair (k + i)%nat) l = zip (seq k (length l)) l).
  { induction l as [|x l IH]; intros k; [done|]. cbn [imap length seq zip zip_with]. f_equal; [by rewrite Nat.add_0_r|].
    rewrite <- IH. apply imap_ext. intros i y _. cbn. f_equal. lia. }
  apply (G 0%nat).
Qed.

(** What connecting a block asks of a transaction: its outputs can be stored, and its
    hash is not yet in the set (BIP30). *)
Definition connectable (h : Z) (tx : CTransaction) : Prop :=
  wf 8 (tx_hash tx) /\ Forall (fun x => wf 8 (prev_hash (prevout x))) (tx_vin tx) /\ coins_ok (FromTx tx h).

Lemma UpdateCoins_inverse (tx : CTransaction) h (v v' : CCoinsViewCache V) u fS (Erase : CTransaction -> bool) :
  cache_ok v -> heights_positive v -> connectable h tx -> 0 < h -> cache_view v (tx_hash tx) = None ->
  UpdateCoins tx h v = Some (v', u) -> Forall (fun u => u_fCoinStake u = false) (vprevout u) ->
  (ContainsZerocoins tx = true -> Erase tx = true) ->
  cache_ok v' /\ heights_positive v' /\ cache_best v' = cache_best v /\
  (forall t, t <> tx_hash tx -> cache_view v t = None -> cache_view v' t = None) /\
  forall i txundo w, has_inputs tx = false \/ txundo = Some u -> cache_ok w -> agree v' w ->
    exists w' ops, disconnect_tx false fS h Erase i tx txundo w = Ret (w', true, ops) /\
      cache_ok w' /\ agree v w' /\ cache_best w' = cache_best w.
Proof using.
  intros Hc Hh (Wt & Wi & Ho) Hpos Hn E Hu Hz. unfold UpdateCoins in E.
  assert (S : exists v1 us, (if has_inputs tx then spend_inputs (tx_vin tx) v else Some (v, [])) = Some (v1, us) /\
    u = mk_CTxUndo us /\ (x ← Modify (tx_hash tx) (fun _ => (FromTx tx h, tt)) v1; let '(v, _) := x in Some v) = Some v').
  { destruct (if has_inputs tx then _ else _) as [[v1 us]|]; [|done]. cbn [mbind option_bind] in E. exists v1, us.
    destruct (Modify _ _ v1) as [[v2 []]|]; [|done]. cbn [mbind option_bind] in *. by injection E as <- <-. }
  clear E. destruct S as (v1 & us & E1 & -> & E2). cbn [vprevout] in *.
  assert (S : cache_ok v1 /\ heights_positive v1 /\ cache_best v1 = cache_best v /\
    (forall t, cache_view v t = None -> cache_view v1 t = None) /\
    forall i w, cache_ok w -> agree v1 w ->
      if has_inputs tx then length us = length (tx_vin tx) /\ exists w' ops,
        disconnect_inputs false fS h i (tx_hash tx) (rev (imap pair (zip (tx_vin tx) us))) w = Ret (w', true, ops) /\
        cache_ok w' /\ agree v w' /\ cache_best w' = cache_best w
      else agree v w).
  { destruct (has_inputs tx); [|injection E1 as <- <-; by repeat (split; [done|])].
    destruct (spend_inputs_inverse (tx_vin tx) v v1 us fS h 0 (tx_hash tx) Hc Hh Wi E1 Hu) as (A1 & A2 & A3 & A4 & A5 & _).
    do 4 (split; [done|]). intros i w Hw Ha. split; [done|]. rewrite imap_pair_zip.
    destruct (spend_inputs_inverse (tx_vin tx) v v1 us fS h i (tx_hash tx) Hc Hh Wi E1 Hu) as (_ & _ & _ & _ & _ & A6).
    apply A6; [|done|done]. rewrite length_seq, length_zip_with. lia. }
  destruct S as (Hc1 & Hh1 & Hb1 & Hv1 & Back).
  destruct (Modify_law v1 (tx_hash tx) (fun _ => (FromTx tx h, tt)) Hc1 Wt) as (c & _ & _ & L). cbn [fst snd] in L.
  rewrite (Cleanup_ok _ Ho) in L. destruct (L Ho) as (v2 & E3 & Hc2 & Hv2 & Hb2). rewrite E3 in E2. injection E2 as <-.
  split; [done|]. split; [|split; [congruence|split]].
  - intros t d Hd. rewrite Hv2 in Hd. destruct (decide _); [|by apply (Hh1 t)]. by apply unspent_Some in Hd as <-.
  - intros t Nt Ht. rewrite Hv2, decide_False by done. by apply Hv1.
  - intros i txundo w Hi Hw Ha. unfold disconnect_tx.
    replace (ContainsZerocoins tx && negb (Erase tx)) with false by (destruct (ContainsZerocoins tx); [by rewrite Hz|done]).
    destruct (Modify_law w (tx_hash tx) (check_outputs h tx) Hw Wt) as (d & Ed & Hd & Lw).
    rewrite (check_outputs_FromTx tx h d Hd) in Lw by (by rewrite Ed, Ha, Hv2, decide_True). cbn [fst snd] in Lw.
    destruct Lw as (w1 & -> & Hw1 & Hvw1 & Hbw1); [by left|].
    assert (Ha1 : agree v1 w1).
    { intros t. rewrite Hvw1. destruct (decide _) as [->|Nt]; [by rewrite Hv1|]. by rewrite Ha, Hv2, decide_False. }
    specialize (Back i w1 Hw1 Ha1). destruct (has_inputs tx).
    + destruct Hi as [?| -> ]; [done|]. destruct Back as (Lus & w' & ops & EB & Hw' & Ha' & Hb'). cbn [vprevout].
      rewrite Lus, Nat.eqb_refl. cbn [negb]. rewrite EB. cbn [result_bind andb]. eexists w', _.
      split; [reflexivity|]. split; [done|]. split; [done|]. congruence.
    + eexists w1, _. split; [reflexivity|]. by split.
Qed.

(** The transactions of a block, between which the cache may be read; the undo data is that
    of all of them but the first. *)
Inductive connects (h : Z) : bool -> list CTransaction -> CCoinsViewCache V -> CCoinsViewCache V -> list CTxUndo -> Prop :=
| connects_nil first v : connects h first [] v v []
| connects_cons first (tx : CTransaction) vtx v v0 v1 v' u us :
    (cache_ok v -> cache_ok v0) -> (forall t, cache_view v0 t = cache_view v t) -> cache_best v0 = cache_best v ->
    UpdateCoins tx h v0 = Some (v1, u) -> connects h false vtx v1 v' us ->
    connects h first (tx :: vtx) v v' (if first then us else u :: us).

(** The whole block, first transaction apart. *)
Lemma connect_txs_inverse vtx h (v v' : CCoinsViewCache V) us fS (Erase : CTransaction -> bool) first :
  cache_ok v -> heights_positive v -> Forall (connectable h) vtx -> 0 < h ->
  Forall (fun tx => cache_view v (tx_hash tx) = None) vtx -> NoDup (map tx_hash vtx) ->
  (first = true -> Forall (fun tx : CTransaction => has_inputs tx = false) (take 1 vtx)) ->
  connects h first vtx v v' us -> Forall (fun u => Forall (fun u => u_fCoinStake u = false) (vprevout u)) us ->
  Forall (fun tx : CTransaction => ContainsZerocoins tx = true -> Erase tx = true) vtx ->
  cache_ok v' /\ cache_best v' = cache_best v /\ length us = (length vtx - (if first then 1 else 0))%nat /\
  forall i w, first = (i =? 0)%nat -> cache_ok w -> agree v' w ->
    exists w' ops, disconnect_txs false fS h Erase i vtx us w = Ret (w', true, ops) /\
      cache_ok w' /\ agree v w' /\ cache_best w' = cache_best w.
Proof using.
  revert v v' us first. induction vtx as [|tx vtx IH]; intros v v' us first Hc Hh Hk Hpos Hn ND Hf E Hu Hz.
  { inversion E; subst. do 3 (split; [done|]). intros i w _ Hw Ha. by exists w, []. }
  apply Forall_cons in Hk as [Kt Hk]. apply Forall_cons in Hn as [Nt Hn]. apply Forall_cons in Hz as [Zt Hz]. cbn [map] in ND. apply NoDup_cons in ND as [Nin ND].
  inversion E as [|? ? ? ? v0 v1 ? u us2 Hc0 Hv0 Hb0 E1 E2 X1 X2 X3 X4]; subst. clear E. specialize (Hc0 Hc).
  assert (Hu1 : Forall (fun u => u_fCoinStake u = false) (vprevout u)).
  { destruct first; [|by apply Forall_cons in Hu as [? _]]. unfold UpdateCoins in E1.
    specialize (Hf eq_refl). cbn [take] in Hf. apply Forall_cons in Hf as [Hf _]. rewrite Hf in E1. cbn [mbind option_bind] in E1.
    destruct (Modify _ _ v0) as [[? []]|]; [|done]. cbn [mbind option_bind] in E1. injection E1 as _ <-. by constructor. }
  assert (Hu2 : Forall (fun u => Forall (fun u => u_fCoinStake u = false) (vprevout u)) us2).
  { destruct first; [done|]. by apply Forall_cons in Hu as [_ ?]. }
  assert (Hh0 : heights_positive v0) by (intros t c Et; rewrite Hv0 in Et; by apply (Hh t)). rewrite <- Hv0 in Nt.
  destruct (UpdateCoins_inverse tx h v0 v1 u fS Erase Hc0 Hh0 Kt Hpos Nt E1 Hu1 Zt) as (Hc1 & Hh1 & Hb1 & Hn1 & Back).
  destruct (IH v1 v' us2 false Hc1 Hh1 Hk Hpos) as (Hc2 & Hb2 & Lus & Back2); [|done|done|done|done|done|].
  { apply Forall_forall. intros y Hy. apply Hn1; [|rewrite Hv0; by apply (proj1 (Forall_forall _ _) Hn)].
    intros Ey. apply Nin. rewrite <- Ey. by apply list_elem_of_fmap_2. }
  split; [done|]. split; [congruence|]. split; [destruct first; cbn [length]; lia|].
  intros i w Hi Hw Ha. cbn [disconnect_txs].
  assert (Hs : (match i with O => (None, if first then us2 else u :: us2)
    | S _ => (head (if first then us2 else u :: us2), tail (if first then us2 else u :: us2)) end) =
    (if first then None else Some u, us2)) by (destruct i, first; done).
  rewrite Hs. destruct (Back2 (S i) w eq_refl Hw Ha) as (w1 & ops1 & -> & Hw1 & Ha1 & Hbw1). cbn [result_bind].
  destruct (Back i (if first then None else Some u) w1) as (w2 & ops2 & -> & Hw2 & Ha2 & Hbw2); [|done|done|].
  { destruct first; [left|by right]. specialize (Hf eq_refl). cbn [take] in Hf. by apply Forall_cons in Hf as [Hf _]. }
  cbn [result_bind andb]. eexists w2, _. split; [reflexivity|]. split; [done|]. split; [|congruence].
  intros t. by rewrite Ha2, Hv0.
Qed.

(** The coins part alone reads nothing else. *)
Lemma connect_txs_connects vtx h : forall first (v v' : CCoinsViewCache V) us, connect_txs first vtx h v = Some (v', us) -> connects h first vtx v v' us.
Proof using.
  induction vtx as [|tx vtx IH]; intros first v v' us E; cbn [connect_txs] in E; [injection E as <- <-; constructor|].
  destruct (UpdateCoins tx h v) as [[v1 u]|] eqn:E1; [|done]. cbn [mbind option_bind] in E.
  destruct (connect_txs false vtx h v1) as [[v2 us2]|] eqn:E2; [|done]. cbn [mbind option_bind] in E.
  assert (Ev : v2 = v' /\ us = if first then us2 else u :: us2) by (by injection E as <- <-). destruct Ev as [-> ->].
  apply (connects_cons h first tx vtx v v v1 v' u us2); [done|done|done|exact E1|by apply IH].
Qed.

(** ** A block connected and disconnected *)

(** Disconnecting goes back over whatever connected the block. *)
Lemma disconnect_connects (v v1 v' : CCoinsViewCache V) blockHash prevHash vtx h us fSpentIndex (Erase : CTransaction -> bool) :
  cache_ok v -> heights_positive v -> 0 < h -> wf 8 prevHash -> prevHash <> zero_hash ->
  (exists (cb : CTransaction) rest, vtx = cb :: rest /\ has_inputs cb = false) ->
  Forall (connectable h) vtx -> Forall (fun tx => cache_view v (tx_hash tx) = None) vtx -> NoDup (map tx_hash vtx) ->
  Forall (fun tx : CTransaction => ContainsZerocoins tx = true -> Erase tx = true) vtx ->
  connects h true vtx v v1 us -> Forall (fun u => Forall (fun u => u_fCoinStake u = false) (vprevout u)) us ->
  cache_ok v' -> agree v1 v' -> cache_best v' = blockHash ->
  exists w ops, DisconnectBlock false fSpentIndex h Erase true blockHash prevHash vtx us v' = Ret (w, true, ops) /\
    cache_ok w /\ agree v w /\ cache_best w = prevHash.
Proof using.
  intros Hok Hpos Hh Wp Np Hfirst Hvtx Hfresh Hdup Herase E Hstake Hok' Ha Hb.
  destruct (connect_txs_inverse vtx h v v1 us fSpentIndex Erase true Hok) as (_ & _ & Lus & Back); try done.
  { intros _. destruct Hfirst as (cb & rest & -> & Hcb). by constructor. }
  unfold DisconnectBlock. pose proof (cache_GetBestBlock_law _ Hok') as B.
  destruct (cache_GetBestBlock v') as [w0 hw]. destruct B as (Hw0 & Hvw0 & _ & _ & -> & _).
  rewrite bool_decide_true by done. cbn [negb].
  replace (length us + 1 =? length vtx)%nat with true
    by (symmetry; apply Nat.eqb_eq; destruct Hfirst as (cb & rest & -> & _); rewrite Lus; cbn [length]; lia).
  cbn [negb]. destruct (Back 0%nat w0 eq_refl Hw0) as (w1 & ops & -> & Hw1 & Ha1 & _).
  { intros t. by rewrite Hvw0, Ha. }
  cbn [result_bind negb]. destruct (SetBestBlock_law w1 prevHash Hw1 Wp Np) as (Hok2 & Hv2 & Hb2).
  eexists _, ops. split; [reflexivity|]. split; [done|]. split; [|exact Hb2].
  intros t. by rewrite Hv2, Ha1.
Qed.

(** Disconnecting a block that was just connected restores the set of unspent outputs
    and the best block, and reports that the set was clean: for every view below the cache,
    and every block whose first transaction has no inputs, whose transactions have hashes
    of their own that are not in the set, and none of whose undo data comes from a
    coinstake, without the address index. *)
Theorem connect_disconnect (v : CCoinsViewCache V) blockHash prevHash vtx h v' us fSpentIndex (Erase : CTransaction -> bool)
    (Hok : cache_ok v) (Hpos : heights_positive v) (Hh : 0 < h)
    (Hwf : wf 8 blockHash /\ wf 8 prevHash /\ blockHash <> zero_hash /\ prevHash <> zero_hash)
    (Hfirst : exists (cb : CTransaction) rest, vtx = cb :: rest /\ has_inputs cb = false)
    (Hvtx : Forall (connectable h) vtx) (Hfresh : Forall (fun tx => cache_view v (tx_hash tx) = None) vtx)
    (Hdup : NoDup (map tx_hash vtx))
    (Herase : Forall (fun tx : CTransaction => ContainsZerocoins tx = true -> Erase tx = true) vtx)
    (Hconnect : ConnectBlock_coins blockHash prevHash vtx h v = Ret (v', us))
    (Hstake : Forall (fun u => Forall (fun u => u_fCoinStake u = false) (vprevout u)) us) :
  cache_ok v' /\ cache_best v' = blockHash /\
  exists w ops, DisconnectBlock false fSpentIndex h Erase true blockHash prevHash vtx us v' = Ret (w, true, ops) /\
    cache_ok w /\ agree v w /\ cache_best w = cache_best v.
Proof using.
  destruct Hwf as (Wb & Wp & Nb & Np). unfold ConnectBlock_coins in Hconnect.
  pose proof (cache_GetBestBlock_law v Hok) as B. destruct (cache_GetBestBlock v) as [v0 hb].
  destruct B as (Hok0 & Hv0 & _ & Hb0 & -> & _). case_bool_decide as Ep; [cbn [negb] in Hconnect|done].
  destruct (connect_txs true vtx h v0) as [[v1 us1]|] eqn:E; [|done]. injection Hconnect as <- ->.
  apply connect_txs_connects in E. assert (Hpos0 : heights_positive v0) by (intros t c Hc; rewrite Hv0 in Hc; by apply (Hpos t)).
  assert (Hfresh0 : Forall (fun tx => cache_view v0 (tx_hash tx) = None) vtx) by (eapply Forall_impl; [exact Hfresh|]; intros tx Ht; cbn; by rewrite Hv0).
  destruct (connect_txs_inverse vtx h v0 v1 us fSpentIndex Erase true Hok0) as (Hok1 & _); try done.
  { intros _. destruct Hfirst as (cb & rest & -> & Hcb). by constructor. }
  destruct (SetBestBlock_law v1 blockHash Hok1 Wb Nb) as (Hok' & Hv' & Hb'). split; [done|]. split; [done|].
  destruct (disconnect_connects v0 v1 (SetBestBlock blockHash v1) blockHash prevHash vtx h us fSpentIndex Erase) as (w & ops & D & Hw & Ha & Hb); try done.
  exists w, ops. split; [exact D|]. split; [exact Hw|]. split; [intros t; by rewrite Ha, Hv0|]. by rewrite Hb.
Qed.
End inverse.

(** ** A block of two transactions over an empty database *)

Definition sample_coinbase : CTransaction :=
  mk_CTransaction (base_uint_u64 8 1) (mk_CMutableTransaction 1 [CTxIn_new] [CTxOut_make 5 [Byte.x51]] 0).
Definition sample_spend : CTransaction :=
  mk_CTransaction (base_uint_u64 8 2) (mk_CMutableTransaction 1
    [CTxIn_make (mk_COutPoint (base_uint_u64 8 1) 0) [] UINT32_MAX] [CTxOut_make 4 [Byte.x51]] 0).

Section sample.
Let no_ec := fun _ : list byte => @None (list byte).
Let DB := CCoinsViewDB (gmap bytes bytes).
Let DBV : CCoinsView DB := CCoinsViewDB_view no_ec sample_buf.
Local Existing Instance DBV.

Definition sample_cache : CCoinsViewCache DB := SetBestBlock (base_uint_u64 8 10) (CCoinsViewCache_new sample_db).
Definition sample_connected := ConnectBlock_coins (base_uint_u64 8 11) (base_uint_u64 8 10) [sample_coinbase; sample_spend] 7 sample_cache.

(** With the address index, the same block cannot be disconnected: the index reads the
    output before it is restored, and the assertion of [GetOutputFor] fails. *)
Lemma disconnect_address_index_asserts :
  match sample_connected with
  | Ret (v, us) => DisconnectBlock true false 7 (fun _ => true) true (base_uint_u64 8 11) (base_uint_u64 8 10)
                     [sample_coinbase; sample_spend] us v = Err AssertionFailed
  | Err _ => False
  end.
Proof. vm_compute. reflexivity. Qed.
End sample.

(** The undo data records that the last output spent was of a coinstake, but the
    restoration leaves the flag clear: the outputs come back without it. *)
Lemma restore_forgets_coinstake :
  let c := mk_CCoins false true [CTxOut_SetNull; CTxOut_make 5 [Byte.x51]] 7 1 in
  match Spend c 1 with
  | Some (c', u) => u_fCoinStake u = true /\ restore_output u 1 c' = (mk_CCoins false false (c_vout c) 7 1, true)
  | None => False
  end.
Proof. by vm_compute. Qed.

Lemma one_output_ok b n h : 0 <= n < 2 ^ 40 -> 0 <= h < 2 ^ 30 -> coins_ok (mk_CCoins b false [CTxOut_make n [Byte.x51]] h 1).
Proof.
  intros Hn Hh. right. unfold storable. cbn [c_vout nHeight c_nVersion].
  assert (E : CTxOut_IsNull (CTxOut_make n [Byte.x51]) = false) by (unfold CTxOut_IsNull, CTxOut_make; cbn; lia).
  split; [unfold clean, Cleanup_vout; cbn [rev app pop_nulls]; by rewrite E|].
  split; [constructor; [|constructor]|split; [done|cbn; lia]]. unfold storable_out. rewrite E.
  split; [|reflexivity]. unfold compressible, CTxOut_make, MAX_SCRIPT_SIZE. cbn [nValue scriptPubKey length]. lia.
Qed.

Lemma sample_output_ok (tx : CTransaction) b n : FromTx tx 7 = mk_CCoins b false [CTxOut_make n [Byte.x51]] 7 1 -> 0 <= n < 10 -> coins_ok (FromTx tx 7).
Proof. intros -> Hn. apply one_output_ok; lia. Qed.

Lemma connect_disconnect_witness :
  let no_ec := fun _ : list byte => @None (list byte) in
  let Hec := fun x y _ _ (E : is_Some (no_ec (Byte.x04 :: x ++ y))) =>
     match is_Some_None E with end in
  let V := CCoinsViewDB_view no_ec sample_buf in
  let VOk := CCoinsViewDB_ok no_ec sample_buf eq_refl Hec in
  let vtx := [sample_coinbase; sample_spend] in
  match sample_connected with
  | Ret (v', us) => exists w ops,
      @DisconnectBlock _ V false true 7 (fun _ => false) true (base_uint_u64 8 11) (base_uint_u64 8 10) vtx us v' = Ret (w, true, ops) /\
      @agree _ V VOk sample_cache w
  | Err _ => False
  end.
Proof.
  intros no_ec Hec V VOk vtx. 
  assert (X : match sample_connected with Ret _ => True | Err _ => False end) by (vm_compute; exact I).
  destruct sample_connected as [[v' us]|e] eqn:E; [clear X|destruct X].
  assert (Hu : bool_decide (map (fun u => map u_fCoinStake (vprevout u)) us = [[false]]) = true).
  { assert (X : match sample_connected with
      | Ret (_, us) => bool_decide (map (fun u => map u_fCoinStake (vprevout u)) us = [[false]]) | Err _ => true end = true)
      by (vm_compute; reflexivity). by rewrite E in X. }
  apply bool_decide_eq_true in Hu.
  assert (W : Forall (wf 8) (base_uint_zero 8 :: map (base_uint_u64 8) [1; 2; 10; 11]))
    by (repeat constructor; by vm_compute).
  repeat apply Forall_cons in W as [? W].
  destruct (@connect_disconnect _ V VOk sample_cache (base_uint_u64 8 11) (base_uint_u64 8 10) vtx 7 v' us true (fun _ => false))
    as (_ & _ & w & ops & E' & _ & Ha & _).
  - split; [done|]. split; [by split|]. split; [assumption|]. exact (map_Forall_empty _).
  - intros t c Hc. discriminate Hc.
  - done.
  - split; [assumption|]. split; [assumption|]. by split.
  - exists sample_coinbase, [sample_spend]. split; [reflexivity|vm_compute; reflexivity].
  - constructor; [|constructor; [|constructor]]; (split; [assumption|]; split; [constructor; [assumption|constructor]|]).
    + apply (sample_output_ok sample_coinbase true 5); [by vm_compute|lia].
    + apply (sample_output_ok sample_spend false 4); [by vm_compute|lia].
  - by constructor; [|constructor].
  - apply (bool_decide_unpack (NoDup (map tx_hash vtx))). vm_compute. exact I.
  - constructor; [by vm_compute|constructor; [by vm_compute|constructor]].
  - exact E.
  - destruct us as [|[[|u []]] []]; try discriminate Hu. injection Hu as Hu. constructor; [|constructor]. constructor; [exact Hu|constructor].
  - exists w, ops. split; [exact E'|exact Ha].
Defined.
