(* ===== verification/Params.v ===== *)
(** * The parameters of the networks ([chainparams.h], [chainparams.cpp], [amount.h],
    [version.h])

    The values that the rules of the chain read, for the three networks. *)

From Stdlib Require Import ZArith Lia List Bool.
From stdpp Require Import base list.
From S2P Require Import Prelude Uint256 Tx.

Open Scope Z_scope.

Definition COIN : Z := 100000000.
Definition CENT : Z := 1000000.
Definition REWARDFORK_BLOCK : Z := 1141660.

Inductive Network : Type := MAIN | TESTNET | REGTEST.

Record CChainParams : Type := mk_CChainParams {
  networkID : Network;
  bnProofOfWorkLimit : uint256;
  nEnforceBlockUpgradeMajority : Z; nRejectBlockOutdatedMajority : Z; nToCheckBlockUpgradeMajority : Z;
  nTargetTimespan : Z; nTargetSpacing : Z;
  nLastPOWBlock : Z; nMaturity : Z; nMaxMoneyOut : Z; nModifierUpdateBlock : Z;
  fSkipProofOfWorkCheck : bool; fAllowMinDifficultyBlocks : bool; fRequireStandard : bool;
  PUBKEY_ADDRESS : Z; SCRIPT_ADDRESS : Z; SECRET_KEY : Z;
  nMaxZerocoinSpendsPerTransaction : Z; nMinZerocoinMintFee : Z;
  nZerocoinStartHeight : Z; nZerocoinStartTime : Z }.

(** [~uint256(0) >> 1]. *)
Definition pow_limit : uint256 := bshr (bnot (base_uint_zero 8)) 1.

Definition CMainParams : CChainParams :=
  mk_CChainParams MAIN pow_limit 750 950 1000 60 60 1390 100 (21000000 * COIN) 1391 false false true 0 5 128 17 100000 1391 1519330596.
Definition CTestNetParams : CChainParams :=
  mk_CChainParams TESTNET pow_limit 51 75 100 60 60 200 15 (21000000 * COIN) 1391 false true false 111 196 239 17 100000 1391 1519330596.
Definition CRegTestParams : CChainParams :=
  mk_CChainParams REGTEST pow_limit 750 950 1000 (24 * 60 * 60) 60 200 15 (21000000 * COIN) 1391 false true false 111 196 239 17 100000 1391 1519330596.

(** What the proofs need of the parameters; the three networks have it. *)
Record params_ok (p : CChainParams) : Prop := {
  limit_wf : wf 8 (bnProofOfWorkLimit p);
  limit_val : val (bnProofOfWorkLimit p) = 2 ^ 255 - 1;
  last_pow_pos : 0 < nLastPOWBlock p < 6000;
  money_range : 0 < nMaxMoneyOut p <= 21000000 * COIN;
  spends_few : 0 <= nMaxZerocoinSpendsPerTransaction p <= 1000 }.

Lemma networks_ok : Forall params_ok [CMainParams; CTestNetParams; CRegTestParams].
Proof.
  assert (W : wf 8 pow_limit) by (apply bshr_spec; [apply bnot_spec, wf_zero|lia]).
  repeat (apply Forall_cons; split; [constructor; [exact W|vm_compute; reflexivity|cbn; lia|cbn; unfold COIN; lia|cbn; lia]|]). constructor.
Qed.
