(* ===== verification/BlockIndex.v ===== *)
(** * The tree of block headers ([chain.h], [main.cpp])

    [CBlockIndex] entries point at each other, so they live in an explicit store.  The
    file holds the entry, the walk over the skip list, and the functions that follow
    [pprev]. *)

From Stdlib Require Import ZArith Lia List Bool.
From stdpp Require Import base option list sorting gmap.
From S2P Require Import Prelude Uint256 Serialize MerkleDamgard Hash Script Tx.

Open Scope Z_scope.
Open Scope btc_scope.

(** ** The entries *)

Definition BLOCK_VALID_TREE : Z := 2.
Definition BLOCK_VALID_SCRIPTS : Z := 5.
Definition BLOCK_VALID_MASK : Z := Z.lor (Z.lor (Z.lor (Z.lor 1 2) 3) 4) 5.
Definition BLOCK_HAVE_DATA : Z := 8.
Definition BLOCK_HAVE_UNDO : Z := 16.
Definition BLOCK_FAILED_VALID : Z := 32.
Definition BLOCK_FAILED_CHILD : Z := 64.
Definition BLOCK_FAILED_MASK : Z := Z.lor BLOCK_FAILED_VALID BLOCK_FAILED_CHILD.

Definition BLOCK_PROOF_OF_STAKE : Z := Z.shiftl 1 0.
Definition BLOCK_STAKE_ENTROPY : Z := Z.shiftl 1 1.
Definition BLOCK_STAKE_MODIFIER : Z := Z.shiftl 1 2.

(** Addresses of entries; [NULL] is [None]. *)
Abbreviation ptr := positive.

(** The fields that are copied from the header of the block. *)
Record index_header : Type := mk_header {
  ih_nVersion : Z; ih_hashMerkleRoot : uint256; ih_nTime : Z; ih_nBits : Z; ih_nNonce : Z; ih_nAccumulatorCheckpoint : uint256 }.

(** The entry, less the zerocoin supply. *)
Record CBlockIndex : Type := mk_CBlockIndex {
  blockHash : uint256;
  pprev : option ptr; pnext : option ptr; pskip : option ptr;
  nHeight : Z; nFile : Z; nDataPos : Z; nUndoPos : Z; nChainWork : uint256; nTx : Z; nChainTx : Z; nStatus : Z; nFlags : Z;
  nStakeModifier : Z; nStakeModifierV2 : uint256; nMint : Z; nMoneySupply : Z;
  header : index_header; nSequenceId : Z }.

Abbreviation heap := (gmap ptr CBlockIndex).

(** What a function over pointers can end with, other than its result. *)
Inductive ptr_error : Type := NullDeref | OutOfFuel | IntOverflow | AssertionFailed.

Definition deref (H : heap) (p : option ptr) : result ptr_error CBlockIndex :=
  match p ≫= (H !!.) with Some b => Ret b | None => Err NullDeref end.

Definition GetBlockTime (b : CBlockIndex) : Z := ih_nTime (header b).
Definition IsProofOfStake (b : CBlockIndex) : bool := negb (Z.land (nFlags b) BLOCK_PROOF_OF_STAKE =? 0).
Definition IsProofOfWork (b : CBlockIndex) : bool := Z.land (nFlags b) BLOCK_PROOF_OF_STAKE =? 0.
Definition GeneratedStakeModifier (b : CBlockIndex) : bool := negb (Z.land (nFlags b) BLOCK_STAKE_MODIFIER =? 0).

Definition with_flags (b : CBlockIndex) (f : Z) : CBlockIndex :=
  mk_CBlockIndex (blockHash b) (pprev b) (pnext b) (pskip b) (nHeight b) (nFile b) (nDataPos b) (nUndoPos b) (nChainWork b) (nTx b) (nChainTx b) (nStatus b) f (nStakeModifier b) (nStakeModifierV2 b) (nMint b) (nMoneySupply b) (header b) (nSequenceId b).
Definition with_status (b : CBlockIndex) (s : Z) : CBlockIndex :=
  mk_CBlockIndex (blockHash b) (pprev b) (pnext b) (pskip b) (nHeight b) (nFile b) (nDataPos b) (nUndoPos b) (nChainWork b) (nTx b) (nChainTx b) s (nFlags b) (nStakeModifier b) (nStakeModifierV2 b) (nMint b) (nMoneySupply b) (header b) (nSequenceId b).
Definition with_links (b : CBlockIndex) (prev next skip : option ptr) (h : Z) : CBlockIndex :=
  mk_CBlockIndex (blockHash b) prev next skip h (nFile b) (nDataPos b) (nUndoPos b) (nChainWork b) (nTx b) (nChainTx b) (nStatus b) (nFlags b) (nStakeModifier b) (nStakeModifierV2 b) (nMint b) (nMoneySupply b) (header b) (nSequenceId b).
Definition with_work (b : CBlockIndex) (w : uint256) : CBlockIndex :=
  mk_CBlockIndex (blockHash b) (pprev b) (pnext b) (pskip b) (nHeight b) (nFile b) (nDataPos b) (nUndoPos b) w (nTx b) (nChainTx b) (nStatus b) (nFlags b) (nStakeModifier b) (nStakeModifierV2 b) (nMint b) (nMoneySupply b) (header b) (nSequenceId b).
Definition with_modifiers (b : CBlockIndex) (m : Z) (v2 : uint256) : CBlockIndex :=
  mk_CBlockIndex (blockHash b) (pprev b) (pnext b) (pskip b) (nHeight b) (nFile b) (nDataPos b) (nUndoPos b) (nChainWork b) (nTx b) (nChainTx b) (nStatus b) (nFlags b) m v2 (nMint b) (nMoneySupply b) (header b) (nSequenceId b).
Definition with_supply (b : CBlockIndex) (mint supply : Z) : CBlockIndex :=
  mk_CBlockIndex (blockHash b) (pprev b) (pnext b) (pskip b) (nHeight b) (nFile b) (nDataPos b) (nUndoPos b) (nChainWork b) (nTx b) (nChainTx b) (nStatus b) (nFlags b) (nStakeModifier b) (nStakeModifierV2 b) mint supply (header b) (nSequenceId b).
Definition with_undo (b : CBlockIndex) (pos : Z) : CBlockIndex :=
  mk_CBlockIndex (blockHash b) (pprev b) (pnext b) (pskip b) (nHeight b) (nFile b) (nDataPos b) pos (nChainWork b) (nTx b) (nChainTx b) (nStatus b) (nFlags b) (nStakeModifier b) (nStakeModifierV2 b) (nMint b) (nMoneySupply b) (header b) (nSequenceId b).

(** [CDiskBlockPos]: file and position; null with file -1. *)
Definition CDiskBlockPos : Type := Z * Z.
Definition GetBlockPos (b : CBlockIndex) : CDiskBlockPos :=
  if negb (Z.land (nStatus b) BLOCK_HAVE_DATA =? 0) then (nFile b, nDataPos b) else (-1, 0).
Definition GetUndoPos (b : CBlockIndex) : CDiskBlockPos :=
  if negb (Z.land (nStatus b) BLOCK_HAVE_UNDO =? 0) then (nFile b, nUndoPos b) else (-1, 0).
Definition CDiskBlockPos_IsNull (pos : CDiskBlockPos) : bool := pos.1 =? -1.

(** [SetProofOfStake], [SetStakeEntropyBit] ([None] is [return false]), [SetStakeModifier]. *)
Definition SetProofOfStake (b : CBlockIndex) : CBlockIndex := with_flags b (Z.lor (nFlags b) BLOCK_PROOF_OF_STAKE).
Definition SetStakeEntropyBit (nEntropyBit : Z) (b : CBlockIndex) : option CBlockIndex :=
  if nEntropyBit >? 1 then None
  else Some (with_flags b (Z.lor (nFlags b) (if negb (nEntropyBit =? 0) then BLOCK_STAKE_ENTROPY else 0))).
Definition SetStakeModifier (nModifier : Z) (fGenerated : bool) (b : CBlockIndex) : CBlockIndex :=
  let b := with_modifiers b nModifier (nStakeModifierV2 b) in
  if fGenerated then with_flags b (Z.lor (nFlags b) BLOCK_STAKE_MODIFIER) else b.
Definition GetStakeEntropyBit (b : CBlockIndex) : Z := Z.land (Get64 (blockHash b) 0) 1.

(** [IsValid] and [RaiseValidity]; [None] is the failed assertion. *)
Definition IsValid (nUpTo : Z) (b : CBlockIndex) : option bool :=
  if negb (Z.land nUpTo (Z.lnot BLOCK_VALID_MASK) =? 0) then None else
  if negb (Z.land (nStatus b) BLOCK_FAILED_MASK =? 0) then Some false
  else Some (nUpTo <=? Z.land (nStatus b) BLOCK_VALID_MASK).
Definition RaiseValidity (nUpTo : Z) (b : CBlockIndex) : option (CBlockIndex * bool) :=
  if negb (Z.land nUpTo (Z.lnot BLOCK_VALID_MASK) =? 0) then None else
  if negb (Z.land (nStatus b) BLOCK_FAILED_MASK =? 0) then Some (b, false)
  else if Z.land (nStatus b) BLOCK_VALID_MASK <? nUpTo
    then Some (with_status b (Z.lor (Z.land (nStatus b) (Z.lnot BLOCK_VALID_MASK)) nUpTo), true)
    else Some (b, false).

(** ** Walks *)

Section walk.
Context (H : heap).

(** [GetMedianTimePast]: the times of at most [nMedianTimeSpan] entries, sorted; the
    middle one. *)
Definition nMedianTimeSpan : nat := 11.

Fixpoint median_times (n : nat) (p : option ptr) : list Z :=
  match n, p ≫= (H !!.) with
  | S n, Some b => GetBlockTime b :: median_times n (pprev b)
  | _, _ => []
  end.

Definition GetMedianTimePast (p : ptr) : option Z :=
  let times := merge_sort Z.le (median_times nMedianTimeSpan (Some p)) in
  times !! Nat.div2 (length times).

(** [IsSuperMajority]. *)
Fixpoint IsSuperMajority_loop (n : nat) (minVersion : Z) (p : option ptr) (nFound nRequired : Z) : Z :=
  match n with
  | O => nFound
  | S n =>
      if nFound <? nRequired then
        match p ≫= (H !!.) with
        | Some b => IsSuperMajority_loop n minVersion (pprev b) (if minVersion <=? ih_nVersion (header b) then nFound + 1 else nFound) nRequired
        | None => nFound
        end
      else nFound
  end.
Definition IsSuperMajority (nToCheck : nat) (minVersion : Z) (p : option ptr) (nRequired : Z) : bool :=
  nRequired <=? IsSuperMajority_loop nToCheck minVersion p 0 nRequired.

(** ** The skip list *)

Definition InvertLowestOne (n : Z) : Z := Z.land n (n - 1).

Definition GetSkipHeight (height : Z) : Z :=
  if height <? 2 then 0
  else if negb (Z.land height 1 =? 0) then InvertLowestOne (InvertLowestOne (height - 1)) + 1
  else InvertLowestOne height.

(** [while (heightWalk > height)]; every turn goes down, so [nHeight - height] turns are
    enough. *)
Fixpoint GetAncestor_loop (fuel : nat) (height : Z) (pindexWalk : option ptr) (heightWalk : Z) : result ptr_error (option ptr) :=
  if heightWalk >? height then
    match fuel with
    | O => Err OutOfFuel
    | S fuel =>
        let heightSkip := GetSkipHeight heightWalk in
        let heightSkipPrev := GetSkipHeight (heightWalk - 1) in
        let* b := deref H pindexWalk in
        if (heightSkip =? height) ||
           ((heightSkip >? height) && negb ((heightSkipPrev <? heightSkip - 2) && (heightSkipPrev >=? height)))
        then GetAncestor_loop fuel height (pskip b) heightSkip
        else GetAncestor_loop fuel height (pprev b) (heightWalk - 1)
    end
  else Ret pindexWalk.

Definition GetAncestor (p : ptr) (height : Z) : result ptr_error (option ptr) :=
  let* b := deref H (Some p) in
  if (height >? nHeight b) || (height <? 0) then Ret None
  else GetAncestor_loop (Z.to_nat (nHeight b - height)) height (Some p) (nHeight b).

(** ** The reference: the ancestors are what [pprev] leads to *)

Fixpoint ancestor (n : nat) (p : ptr) : option ptr :=
  match n with
  | O => Some p
  | S n => b ← H !! p; q ← pprev b; ancestor n q
  end.

(** The well-formedness of the index: heights count the ancestors, and skip pointers lead
    to the ancestor at the height the walk expects. *)
Definition entry_ok (p : ptr) (b : CBlockIndex) : Prop :=
  0 <= nHeight b < 2 ^ 31 /\
  match pprev b with
  | None => nHeight b = 0
  | Some q => (exists c, H !! q = Some c /\ nHeight b = nHeight c + 1) /\
      (exists s, pskip b = Some s /\ ancestor (Z.to_nat (nHeight b - GetSkipHeight (nHeight b))) p = Some s)
  end.
Definition index_ok : Prop := map_Forall entry_ok H.

Lemma ancestor_add m n p : ancestor (m + n) p = q ← ancestor m p; ancestor n q.
Proof.
  revert p. induction m as [|m IH]; intros p; [done|]. cbn [Nat.add ancestor].
  destruct (H !! p) as [b|]; [|done]. cbn [mbind option_bind]. destruct (pprev b); [apply IH|done].
Qed.

Lemma land_pred n : 0 < n -> 0 <= InvertLowestOne n < n.
Proof.
  intros Hn. unfold InvertLowestOne. split; [apply Z.land_nonneg; lia|].
  pose proof (Z.sub_nocarry_ldiff (n - 1) (Z.land (n - 1) n)) as E.
  rewrite Z.land_comm. enough (Z.land (n - 1) n <= n - 1) by lia.
  assert (D : Z.ldiff (Z.land (n - 1) n) (n - 1) = 0).
  { apply Z.bits_inj'. intros i _. rewrite Z.ldiff_spec, Z.land_spec, Z.bits_0. by destruct (Z.testbit (n - 1) i), (Z.testbit n i). }
  specialize (E D). assert (0 <= Z.ldiff (n - 1) (Z.land (n - 1) n)) by (apply Z.ldiff_nonneg; lia). lia.
Qed.

(** Skipping goes strictly down. *)
Lemma GetSkipHeight_range h : 1 <= h -> 0 <= GetSkipHeight h < h.
Proof.
  intros Hh. unfold GetSkipHeight. destruct (Z.ltb_spec h 2); [lia|]. destruct (Z.land h 1 =? 0); cbn [negb].
  - by apply land_pred; lia.
  - pose proof (land_pred (h - 1) ltac:(lia)) as B. destruct (decide (InvertLowestOne (h - 1) = 0)) as [->|]; [change (InvertLowestOne 0) with 0; lia|].
    pose proof (land_pred (InvertLowestOne (h - 1)) ltac:(lia)). lia.
Qed.

Section ok.
Context (Hok : index_ok).

Lemma ancestor_height k p b : H !! p = Some b -> Z.of_nat k <= nHeight b ->
  exists q c, ancestor k p = Some q /\ H !! q = Some c /\ nHeight c = nHeight b - Z.of_nat k.
Proof using Hok.
  revert p b. induction k as [|k IH]; intros p b Hp Hk; [exists p, b; split; [done|]; split; [done|lia]|].
  cbn [ancestor]. rewrite Hp. cbn [mbind option_bind]. destruct (Hok p b Hp) as [Hr Hb].
  destruct (pprev b) as [q|]; [|lia]. destruct Hb as [(c & Hq & Eh) _]. cbn [mbind option_bind].
  destruct (IH q c Hq ltac:(lia)) as (r & d & E1 & E2 & E3). exists r, d. split; [done|]. split; [done|lia].
Qed.

Lemma GetAncestor_loop_spec fuel height p b : H !! p = Some b -> 0 <= height <= nHeight b ->
  (Z.to_nat (nHeight b - height) <= fuel)%nat ->
  GetAncestor_loop fuel height (Some p) (nHeight b) = Ret (ancestor (Z.to_nat (nHeight b - height)) p).
Proof using Hok.
  revert p b. induction fuel as [|fuel IH]; intros p b Hp Hh Hf; cbn [GetAncestor_loop]; rewrite Z.gtb_ltb.
  - destruct (Z.ltb_spec height (nHeight b)); [lia|]. by replace (nHeight b - height) with 0 by lia.
  - destruct (Z.ltb_spec height (nHeight b)) as [Lt|]; [|by replace (nHeight b - height) with 0 by lia].
    unfold deref. cbn [mbind option_bind]. rewrite Hp. cbn [result_bind].
    destruct (Hok p b Hp) as [Hr Hb]. destruct (pprev b) as [q|] eqn:Eq; [|lia].
    destruct Hb as [(c & Hq & Eh) (s & Es & Ea)]. pose proof (GetSkipHeight_range (nHeight b) ltac:(lia)) as Hs.
    destruct (orb _ _) eqn:C.
    + assert (Ge : height <= GetSkipHeight (nHeight b)).
      { apply orb_true_iff in C as [C|C]; bool_prop; lia. }
      destruct (ancestor_height _ _ _ Hp (ltac:(lia) : Z.of_nat (Z.to_nat (nHeight b - GetSkipHeight (nHeight b))) <= nHeight b))
        as (s' & d & E1 & E2 & E3). rewrite Ea in E1. injection E1 as <-. rewrite Es.
      replace (GetSkipHeight (nHeight b)) with (nHeight d) by lia. rewrite (IH s d E2) by lia. f_equal.
      replace (Z.to_nat (nHeight b - height)) with
        (Z.to_nat (nHeight b - GetSkipHeight (nHeight b)) + Z.to_nat (nHeight d - height))%nat by lia.
      rewrite ancestor_add, Ea. done.
    + replace (nHeight b - 1) with (nHeight c) by lia. rewrite (IH q c Hq) by lia. f_equal.
      replace (Z.to_nat (nHeight b - height)) with (S (Z.to_nat (nHeight c - height))) by lia.
      cbn [ancestor]. by rewrite Hp; cbn [mbind option_bind]; rewrite Eq.
Qed.

Lemma GetAncestor_spec p b height : H !! p = Some b ->
  GetAncestor p height = Ret (if (0 <=? height) && (height <=? nHeight b) then ancestor (Z.to_nat (nHeight b - height)) p else None).
Proof using Hok.
  intros Hp. unfold GetAncestor, deref. cbn [mbind option_bind]. rewrite Hp. cbn [result_bind].
  rewrite Z.gtb_ltb. destruct (Z.leb_spec 0 height), (Z.leb_spec height (nHeight b)), (Z.ltb_spec (nHeight b) height), (Z.ltb_spec height 0);
    try lia; cbn [andb orb]; try done.
  by apply GetAncestor_loop_spec.
Qed.
End ok.
End walk.
