(* ===== verification/Checkpoints.v ===== *)
(** * Checkpoints ([checkpoints.cpp], [chainparams.cpp])

    Blocks that are known to be part of the chain. *)

From Stdlib Require Import ZArith Lia List Bool String.
From stdpp Require Import base option list gmap.
From S2P Require Import Prelude Uint256 Hash Text Script Tx Params BlockIndex.

Open Scope Z_scope.

(** [std::map<int, uint256>], in the order of its keys. *)
Definition MapCheckpoints : Type := list (Z * uint256).

Definition mapCheckpoints : MapCheckpoints :=
  [(0, uint256_hex "3ee1620fa1706966da5e5182a664220691491bdfd9289a73cadf6244fa5dccb5");
   (102, uint256_hex "60d4d5d791b05a8ffd1505a1dd46af08d406296a84aad7f1fd4e45da113039ab");
   (202, uint256_hex "054f47c07d6b324ce27c510a85353acf9369c8b8b787739afb69328692a20441");
   (500, uint256_hex "674f8e65e01ac23efa66e9d03f98fc795a4fd78f5495ce0e40a4d93fc4596249");
   (1000, uint256_hex "5a389fb75660ba5203927aff0e91b24193d187adca415c8c5415cdd5c6b88eb3");
   (1190, uint256_hex "c935255f9be0cfa15350ebfa2f3c07aa00e356e3767d373fbf7c65790fcd343");
   (1390, uint256_hex "318e54323519a7d35f8d5b6c1a515b03722f9464f3bcacc819b6124a59ba0b21");
   (2244, uint256_hex "9889988d627880d89d61b635b7bc47f1807586926cdd72ef440f887d4f4d81a6");
   (6436, uint256_hex "8bb42ae275c6b7de44e38a94dc4c674e94773f6cdf567b3315ce0934c850d101");
   (129786, uint256_hex "d7e8ec1d12c7e945b4f8bb682197177640f436309eabd6b4559ed44afb73a83f");
   (554450, uint256_hex "4f059f53ec53736e47620b0ef1f36956e0d4a9050d7d1fc125571726ed8992a6");
   (625053, uint256_hex "16167d70bd11524560179b7bd474e85d50124930e7b27e4e107c6048c915ea32");
   (628729, uint256_hex "6cba37f16a00e0b9d853dc220c2b88ab5b53217fcc268aabe79d9c18c4b62093");
   (654956, uint256_hex "c8ea8f9dc68a81bec35c07d29143f8e2355e7c175e747360b39890429fce0f62");
   (654957, uint256_hex "6ca8a0d29864b7a5bc8c86c50ba0e2888b5464c0ea66285fab7c5e5cd4b0906f");
   (657352, uint256_hex "9e073ca8980355b4480fb068380c71be9b91f8352151bdddfa73532ae3127838");
   (856863, uint256_hex "a660d7ea02004af6d4691f6da86f844fc7139267ce4b8b6f524a1e4590ec92ed");
   (1016009, uint256_hex "1c71373d1e224406db1e8b3bf6dd59b6eda67d9b67ffb442b143888709680da6");
   (1122976, uint256_hex "49d4f44ce66ed7232a3a98c94145b653b2f3c0c2b4c4adab3a15df9dd91ea309")].
Definition mapCheckpointsTestnet : MapCheckpoints := [(0, uint256_hex "3ee1620fa1706966da5e5182a664220691491bdfd9289a73cadf6244fa5dccb5")].
Definition mapCheckpointsRegtest : MapCheckpoints := [(0, uint256_hex "3ee1620fa1706966da5e5182a664220691491bdfd9289a73cadf6244fa5dccb5")].

Definition Checkpoints (network : Network) : MapCheckpoints :=
  match network with MAIN => mapCheckpoints | TESTNET => mapCheckpointsTestnet | REGTEST => mapCheckpointsRegtest end.

Section checkpoints.
Context (fEnabled : bool) (checkpoints : MapCheckpoints).

Fixpoint find_checkpoint (m : MapCheckpoints) (nHeight : Z) : option uint256 :=
  match m with [] => None | (h, hash) :: m => if h =? nHeight then Some hash else find_checkpoint m nHeight end.

Definition Checkpoints_CheckBlock (nHeight : Z) (hash : uint256) (fMatchesCheckpoint : bool) : bool :=
  if negb fEnabled then true else
  match find_checkpoint checkpoints nHeight with
  | None => negb fMatchesCheckpoint
  | Some h => bool_decide (hash = h)
  end.

(** [None]: the last entry of an empty map. *)
Definition GetTotalBlocksEstimate : option Z := if negb fEnabled then Some 0 else fst <$> last checkpoints.

Definition GetLastCheckpoint (mapBlockIndex : gmap uint256 ptr) : option ptr :=
  if negb fEnabled then None else head (omap (fun i : Z * uint256 => mapBlockIndex !! i.2) (rev checkpoints)).
End checkpoints.

Lemma find_checkpoint_in m h hash : NoDup m.*1 -> find_checkpoint m h = Some hash <-> (h, hash) ∈ m.
Proof.
  induction m as [|[h' x] m IH]; intros N; cbn [find_checkpoint]; [by split; [|intros ?%not_elem_of_nil]|].
  apply NoDup_cons in N as [N1 N2]. cbn in N1. rewrite elem_of_cons. destruct (Z.eqb_spec h' h) as [->|Ne].
  - split; [intros [= ->]; by left|]. intros [[= ->]|K]; [done|]. destruct N1. by apply (list_elem_of_fmap_2 fst) in K.
  - rewrite IH by done. split; [by right|]. intros [[= -> ->]|K]; [done|exact K].
Qed.

(** The tables are sorted and start at the genesis block. *)
Lemma checkpoints_sorted n : NoDup (Checkpoints n).*1 /\ head (Checkpoints n) = Some (0, uint256_hex "3ee1620fa1706966da5e5182a664220691491bdfd9289a73cadf6244fa5dccb5").
Proof. split; [|by destruct n]. apply (bool_decide_eq_true_1 _). destruct n; vm_compute; reflexivity. Qed.

(** The entry [p] is that of a checkpoint, and the index knows no later checkpoint. *)
Definition last_known (cps : MapCheckpoints) (map : gmap uint256 ptr) (p : ptr) : Prop :=
  exists l h hash l', cps = l ++ (h, hash) :: l' /\ map !! hash = Some p /\ Forall (fun i : Z * uint256 => map !! i.2 = None) l'.

Lemma GetLastCheckpoint_spec fEnabled cps map p :
  GetLastCheckpoint fEnabled cps map = Some p <-> fEnabled = true /\ last_known cps map p.
Proof.
  unfold GetLastCheckpoint. destruct fEnabled; cbn [negb]; [|by split; [|intros [? _]]].
  transitivity (last_known cps map p); [|by split; [|intros [_ ?]]].
  split.
  - induction cps as [|[h x] cps IH] using rev_ind; [done|].
    rewrite rev_app_distr. simpl. destruct (map !! x) as [q|] eqn:E.
    + cbn [head]. intros [= <-]. exists cps, h, x, []. by repeat split.
    + intros K. destruct (IH K) as (l & h' & y & l' & -> & Ey & F). exists l, h', y, (l' ++ [(h, x)]). rewrite <- app_assoc. split; [done|]. split; [done|].
      apply Forall_app. split; [done|]. by constructor.
  - intros (l & h & hash & l' & -> & E & F). rewrite rev_app_distr. simpl. rewrite <- app_assoc, omap_app. simpl. rewrite E.
    replace (omap _ (rev l')) with (@nil ptr); [done|]. symmetry.
    apply Forall_rev in F. induction F as [|x xs Ex _ IH]; [done|]. cbn. rewrite Ex. exact IH.
Qed.
