(* ===== verification/Pow.v ===== *)
(** * Proof of work and the next target ([pow.cpp])

    [GetNextWorkRequired] with its three retargeting rules, [CheckProofOfWork], and the work
    of a block. *)

From Stdlib Require Import ZArith Lia List Bool.
From stdpp Require Import base option list gmap.
From S2P Require Import Prelude Uint256 Compact Serialize MerkleDamgard Hash Script Tx Params BlockIndex.

Open Scope Z_scope.
Open Scope btc_scope.

Section pow.
Context (params : CChainParams).

(** The range check logs an error but does not stop the function. *)
Definition CheckProofOfWork (hash : uint256) (nBits : Z) : bool :=
  if fSkipProofOfWorkCheck params then true else
  let '(bnTarget, _, _) := SetCompact nBits in
  negb (CompareTo hash bnTarget >? 0).

Definition GetBlockProof (nBits : Z) : result uint_error uint256 :=
  let '(bnTarget, fNegative, fOverflow) := SetCompact nBits in
  if fNegative || fOverflow || EqualTo bnTarget 0 then Ret (base_uint_u64 8 0)
  else
    let* q := bdiv (bnot bnTarget) (badd bnTarget (base_uint_u64 8 1)) in
    Ret (badd q (base_uint_u64 8 1)).

(** ** [GetNextWorkRequired] *)

Context (H : heap) (SPORK_13_STAKING_PROTOCOL_2 : Z).

Definition lift_compact (c : option Z) : result ptr_error Z :=
  match c with Some c => Ret c | None => Err AssertionFailed end.
Definition lift_div (q : result uint_error uint256) : result ptr_error uint256 :=
  match q with Ret q => Ret q | Err _ => Err AssertionFailed end.

Definition target_spacing : Z := 60.
Definition limit : uint256 := bnProofOfWorkLimit params.
Definition above_limit (bn : uint256) : bool := CompareTo bn limit >? 0.

(** [if (x < lo) x = lo; else if (x > hi) x = hi;]: [lo'] is what replaces a value below [lo]. *)
Definition clamp (lo lo' hi x : Z) : Z := if x <? lo then lo' else if x >? hi then hi else x.

(** The rule since the reward fork: every block, from the time of the last one. *)
Definition retarget_every_block (last : CBlockIndex) : result ptr_error Z :=
  let nTimespan := 30 * 60 in
  let* nActualTimespan :=
    if nHeight last + 1 =? REWARDFORK_BLOCK then Ret 300
    else let* prev := deref H (pprev last) in
         Ret (clamp 0 1 (target_spacing * 10) (GetBlockTime last - GetBlockTime prev)) in
  let '(bnNew, _, _) := SetCompact (ih_nBits (header last)) in
  if bool_decide (bnNew = limit) && (nActualTimespan >=? target_spacing) then lift_compact (GetCompact bnNew false)
  else
    let nInterval := nTimespan / target_spacing in
    let bnNew := bmul32 bnNew (u32 ((nInterval - 1) * target_spacing + nActualTimespan + nActualTimespan)) in
    let* bnNew := lift_div (bdiv bnNew (base_uint_u64 8 ((nInterval + 1) * target_spacing))) in
    let bnNew := if EqualTo bnNew 0 || above_limit bnNew then limit else bnNew in
    lift_compact (GetCompact bnNew false).

(** The rule of the first 6538 blocks. *)
Definition old_pow_limit : uint256 := [0xffffffff; 0xffffffff; 0xffffffff; 0xffffffff; 0xffffffff; 0xffffffff; 0xffffffff; 0].
Definition retarget_old (last : CBlockIndex) : result ptr_error Z :=
  let* prev := deref H (pprev last) in
  let nActualTimespan := clamp 30 30 120 (GetBlockTime last - GetBlockTime prev) in
  let '(bnNew, _, _) := SetCompact (ih_nBits (header last)) in
  let bnNew := bmul32 bnNew (u32 nActualTimespan) in
  let* bnNew := lift_div (bdiv bnNew (base_uint_u64 8 target_spacing)) in
  let bnNew := if CompareTo bnNew old_pow_limit >? 0 then old_pow_limit else bnNew in
  if nHeight last <? nLastPOWBlock params + 2 then
    let* c := lift_compact (GetCompact bnNew false) in
    let bnNew := if c >? 469827583 then (SetCompact 469827583).1.1 else bnNew in
    lift_compact (GetCompact bnNew false)
  else lift_compact (GetCompact bnNew false).

(** [while (pindexFirst->nHeight > nHeightFirst)]. *)
Fixpoint walk_back (fuel : nat) (nHeightFirst : Z) (p : option ptr) : result ptr_error CBlockIndex :=
  let* b := deref H p in
  if nHeight b >? nHeightFirst then
    match fuel with O => Err OutOfFuel | S fuel => walk_back fuel nHeightFirst (pprev b) end
  else Ret b.

(** The rule in between: the target moves every tenth block. *)
Definition retarget_with (last : CBlockIndex) (nActualTimespan : Z) : result ptr_error Z :=
  let '(bnNew, _, _) := SetCompact (ih_nBits (header last)) in
  if bool_decide (bnNew = limit) && (nActualTimespan >=? target_spacing) then lift_compact (GetCompact bnNew false)
  else
    let* bnNew := lift_div (bdiv bnNew (base_uint_u64 8 target_spacing)) in
    let bnNew := bmul32 bnNew (u32 nActualTimespan) in
    let bnNew := if above_limit bnNew then limit else bnNew in
    lift_compact (GetCompact bnNew false).

Definition retarget_tenth (last : CBlockIndex) : result ptr_error Z :=
  if nHeight last + 1 =? SPORK_13_STAKING_PROTOCOL_2 then retarget_with last 2000
  else if negb (Z.rem (nHeight last) 10 =? 1) then Ret (ih_nBits (header last))
  else
    let* first := walk_back 10 (nHeight last - 10) (pprev last) in
    retarget_with last (clamp 30 30 120 (Z.quot (GetBlockTime last - GetBlockTime first) 10)).

Definition GetNextWorkRequired (pindexLast : option ptr) : result ptr_error Z :=
  match pindexLast with
  | None => lift_compact (GetCompact limit false)
  | Some _ =>
      let* last := deref H pindexLast in
      if nHeight last <=? nLastPOWBlock params then lift_compact (GetCompact limit false)
      else if nHeight last + 1 >=? REWARDFORK_BLOCK then retarget_every_block last
      else if nHeight last <? 6538 then retarget_old last
      else retarget_tenth last
  end.
End pow.

(** ** Lemmas on targets *)

Lemma SetCompact_below c : in_u32 c -> val (SetCompact c).1.1 < 2 ^ 256 - 1.
Proof.
  intros Hc. unfold in_u32 in Hc. set (lo := c mod 2 ^ 24).
  assert (Hlo : 0 <= lo < 2 ^ 24) by (apply Z.mod_pos_bound; lia).
  assert (Hs : 0 <= c / 2 ^ 24 < 256) by (split; [apply Z.div_pos; lia|apply Z.div_lt_upper_bound; lia]).
  pose proof (Z.div_mod c (2 ^ 24) ltac:(lia)) as D. fold lo in D.
  assert (V : forall m s, 0 <= m < 2 ^ 23 -> 0 <= s -> compact_value m s mod 2 ^ 256 < 2 ^ 256 - 1).
  { intros m s Hm Hs'. unfold compact_value. destruct (Z.leb_spec s 3).
    - assert (0 < 2 ^ (8 * (3 - s))) by (apply Z.pow_pos_nonneg; lia).
      assert (0 <= m / 2 ^ (8 * (3 - s)) <= m).
      { split; [apply Z.div_pos; lia|]. apply Z.div_le_upper_bound; [lia|nia]. }
      rewrite Z.mod_small by lia. lia.
    - replace (8 * (s - 3)) with (1 + (8 * (s - 3) - 1)) by lia. rewrite Z.pow_add_r by lia.
      replace (m * (2 ^ 1 * 2 ^ (8 * (s - 3) - 1))) with (2 * (m * 2 ^ (8 * (s - 3) - 1))) by lia.
      replace (2 ^ 256) with (2 * 2 ^ 255) by lia. rewrite Z.mul_mod_distr_l by lia.
      pose proof (Z.mod_pos_bound (m * 2 ^ (8 * (s - 3) - 1)) (2 ^ 255) ltac:(lia)). lia. }
  destruct (Z.ltb_spec lo (2 ^ 23)) as [L|L].
  - destruct (SetCompact_spec lo false (c / 2 ^ 24)) as (v & E & _ & Ev); [lia..|].
    replace (lo + 0 + c / 2 ^ 24 * 2 ^ 24) with c in E by lia. rewrite E. cbn [fst]. rewrite Ev. apply V; lia.
  - destruct (SetCompact_spec (lo - 2 ^ 23) true (c / 2 ^ 24)) as (v & E & _ & Ev); [lia..|].
    replace (lo - 2 ^ 23 + 2 ^ 23 + c / 2 ^ 24 * 2 ^ 24) with c in E by lia. rewrite E. cbn [fst]. rewrite Ev. apply V; lia.
Qed.

Lemma div_const a k : wf 8 a -> 0 < k < 2 ^ 64 ->
  exists q, bdiv a (base_uint_u64 8 k) = Ret q /\ wf 8 q /\ val q = val a / k.
Proof.
  intros Ha Hk. destruct (base_uint_u64_spec 8 k) as [W V]; [lia..|].
  destruct (bdiv_spec 8 a _ Ha W) as [_ D]. rewrite V in D. by apply D; lia.
Qed.

(** The compact number [c] stands for the target [n]. *)
Definition encodes (c n : Z) : Prop :=
  exists v, SetCompact c = (v, false, false) /\ wf 8 v /\ val v = compact_trunc n.

Lemma lift_GetCompact a : wf 8 a -> exists c, lift_compact (GetCompact a false) = Ret c /\ encodes c (val a).
Proof. intros Ha. destruct (compact_codec a Ha) as (c & v & -> & E & W & V). exists c. split; [done|]. by exists v. Qed.

Section targets.
Context (params : CChainParams) (Hp : params_ok params).

Lemma above_limit_spec a : wf 8 a -> above_limit params a = (val (limit params) <? val a).
Proof using Hp.
  intros Ha. unfold above_limit. rewrite (CompareTo_spec 8) by (done || apply (limit_wf _ Hp)).
  rewrite Z.gtb_ltb. destruct (Z.ltb_spec 0 (Z.sgn (val a - val (limit params)))), (Z.ltb_spec (val (limit params)) (val a)); lia.
Qed.

Lemma capped a : wf 8 a -> exists c, lift_compact (GetCompact (if above_limit params a then limit params else a) false) = Ret c /\
  encodes c (Z.min (val (limit params)) (val a)).
Proof using Hp.
  intros Ha. rewrite above_limit_spec by done. destruct (Z.ltb_spec (val (limit params)) (val a)).
  - rewrite Z.min_l by lia. apply lift_GetCompact, Hp.
  - rewrite Z.min_r by lia. by apply lift_GetCompact.
Qed.

Lemma limit_is a : wf 8 a -> bool_decide (a = limit params) = (val a =? val (limit params)).
Proof using Hp.
  intros Ha. case_bool_decide as E; [by rewrite E, Z.eqb_refl|]. symmetry. apply Z.eqb_neq. intros V. apply E.
  by apply (val_inj 8); [|apply Hp|].
Qed.
End targets.

(** ** The work of a block *)

(** The expected number of hashes of a block; zero for a compact number that is negative,
    overflows or denotes zero. *)
Definition expected_hashes (nBits : Z) : Z :=
  let '(t, neg, ov) := SetCompact nBits in
  if neg || ov || (val t =? 0) then 0 else 2 ^ 256 / (val t + 1).

(** [GetBlockProof] computes it: the division never fails, and the addition of one never
    wraps. *)
Lemma GetBlockProof_spec nBits : in_u32 nBits ->
  exists w, GetBlockProof nBits = Ret w /\ wf 8 w /\ val w = expected_hashes nBits.
Proof.
  intros Hb.  pose proof (SetCompact_wf nBits Hb) as W. pose proof (SetCompact_below nBits Hb) as Lt. unfold GetBlockProof, expected_hashes.
  destruct (SetCompact nBits) as [[t neg] ov]. cbn [fst] in W, Lt.
  pose proof (val_range _ _ W) as R. change (BITS 8) with 256 in R.
  rewrite (EqualTo_spec 8) by (done || lia || by unfold in_u64; lia).
  destruct (neg || ov || (val t =? 0)) eqn:C.
  { destruct (base_uint_u64_spec 8 0) as [W0 V0]; [lia..|]. by eexists. }
  assert (0 < val t) by (apply orb_false_iff in C as [_ C]; apply Z.eqb_neq in C; lia).
  destruct (base_uint_u64_spec 8 1) as [W1 V1]; [lia..|].
  destruct (bnot_spec 8 t W) as [Wn Vn]. destruct (badd_spec 8 t _ W W1) as [Wa Va]. change (BITS 8) with 256 in *.
  rewrite V1, Z.mod_small in Va by lia.
  destruct (bdiv_spec 8 _ _ Wn Wa) as [_ D]. destruct D as (q & -> & Wq & Vq); [lia|]. cbn [result_bind].
  destruct (badd_spec 8 q _ Wq W1) as [Wr Vr]. change (BITS 8) with 256 in Vr. eexists. split; [reflexivity|]. split; [exact Wr|].
  rewrite Vr, V1, Vq, Vn, Va.
  assert (E : (2 ^ 256 - 1 - val t) / (val t + 1) + 1 = 2 ^ 256 / (val t + 1)).
  { rewrite <- Z.div_add by lia. f_equal. lia. }
  rewrite E. apply Z.mod_small. split; [apply Z.div_pos; lia|]. apply Z.div_lt; lia.
Qed.

Example genesis_work : GetBlockProof 0x1d00ffff = Ret (base_uint_u64 8 0x100010001).
Proof. vm_compute. reflexivity. Qed.

(** A hash passes the check when it is at most the target, whatever the range check finds:
    for a number of bits that overflows, the function still accepts. *)
Lemma CheckProofOfWork_spec params hash nBits : wf 8 hash -> in_u32 nBits -> fSkipProofOfWorkCheck params = false ->
  CheckProofOfWork params hash nBits = (val hash <=? val (SetCompact nBits).1.1).
Proof.
  intros Hh Hb Hs. unfold CheckProofOfWork. rewrite Hs. pose proof (SetCompact_wf nBits Hb) as W.
  destruct (SetCompact nBits) as [[t neg] ov]. cbn [fst] in *. rewrite (CompareTo_spec 8), Z.gtb_ltb by done.
  destruct (Z.ltb_spec 0 (Z.sgn (val hash - val t))), (Z.leb_spec (val hash) (val t)); cbn [negb]; lia.
Qed.

Lemma CheckProofOfWork_out_of_range :
  (SetCompact 0x227fffff).2 = true /\ CheckProofOfWork CMainParams (base_uint_u64 8 1) 0x227fffff = true.
Proof. by vm_compute. Qed.

(** ** The next target *)

Section next_work.
Context (params : CChainParams) (Hp : params_ok params) (H : heap) (Hok : index_ok H).

(** The times and compact numbers of the entries are 32-bit. *)
Definition headers_ok : Prop := map_Forall (fun _ b => in_u32 (ih_nTime (header b)) /\ in_u32 (ih_nBits (header b))) H.
Context (Hh : headers_ok).

Lemma parent_of p b : H !! p = Some b -> 0 < nHeight b ->
  exists q c, pprev b = Some q /\ H !! q = Some c /\ nHeight b = nHeight c + 1 /\ deref H (pprev b) = Ret c.
Proof using Hok.
  intros Hpb Hpos. destruct (Hok p b Hpb) as [_ Hb]. destruct (pprev b) as [q|]; [|lia]. destruct Hb as [(c & Hq & E) _].
  exists q, c. split; [done|]. split; [done|]. split; [done|]. unfold deref. cbn [mbind option_bind]. by rewrite Hq.
Qed.

Lemma walk_back_spec fuel h p b : H !! p = Some b -> 0 <= h -> (Z.to_nat (nHeight b - h) <= fuel)%nat ->
  exists q c, walk_back H fuel h (Some p) = Ret c /\ H !! q = Some c /\ nHeight c = Z.min (nHeight b) h.
Proof using Hok.
  revert p b. induction fuel as [|fuel IH]; intros p b Hpb Hz Hf; cbn [walk_back]; unfold deref; cbn [mbind option_bind];
    rewrite Hpb; cbn [result_bind]; rewrite Z.gtb_ltb; destruct (Z.ltb_spec h (nHeight b)) as [L|L]; try lia;
    try (exists p, b; split; [done|]; split; [done|lia]).
  destruct (parent_of p b Hpb) as (q & c & Eq & Hq & E & _); [lia|]. rewrite Eq.
  destruct (IH q c Hq Hz) as (r & d & E1 & E2 & E3); [lia|]. exists r, d. split; [done|]. split; [done|lia].
Qed.

Lemma target_wf p b : H !! p = Some b -> wf 8 (SetCompact (ih_nBits (header b))).1.1.
Proof using Hh. intros Hpb. apply SetCompact_wf, (Hh p b Hpb). Qed.

(** The outcome of the branches that compute a target. *)
Definition new_target (r : result ptr_error Z) (n : Z) : Prop := exists c, r = Ret c /\ encodes c n /\ 0 <= n <= val (limit params).

Lemma capped_target a : wf 8 a ->
  new_target (lift_compact (GetCompact (if above_limit params a then limit params else a) false)) (Z.min (val (limit params)) (val a)).
Proof using Hp.
  intros Ha. destruct (capped params Hp a Ha) as (c & E & Ec). exists c. split; [done|]. split; [done|].
  pose proof (val_range _ _ Ha). pose proof (val_range _ _ (limit_wf _ Hp)). unfold limit. lia.
Qed.

Lemma kept_target a : wf 8 a -> val a = val (limit params) -> new_target (lift_compact (GetCompact a false)) (val (limit params)).
Proof using Hp.
  intros Ha E. destruct (lift_GetCompact a Ha) as (c & -> & Ec). rewrite E in Ec. exists c. split; [done|]. split; [done|].
  pose proof (val_range _ _ (limit_wf _ Hp)). unfold limit. lia.
Qed.

Lemma retarget_with_spec p b a : H !! p = Some b -> 0 <= a < 2 ^ 32 -> exists n, new_target (retarget_with params b a) n.
Proof using Hp Hh.
  intros Hpb Ha. pose proof (target_wf p b Hpb) as W. unfold retarget_with.
  destruct (SetCompact _) as [[t neg] ov]. cbn [fst] in W. rewrite (limit_is params Hp) by done.
  destruct (_ && _) eqn:C.
  { apply andb_true_iff in C as [C _]. apply Z.eqb_eq in C. eexists. by apply kept_target. }
  destruct (div_const t target_spacing W) as (q & -> & Wq & _); [unfold target_spacing; lia|]. cbn [lift_div result_bind].
  destruct (bmul32_spec 8 q (u32 a) Wq (u32_range a)) as [Wm _]. eexists. by apply capped_target.
Qed.

Lemma retarget_tenth_spec p b spork : H !! p = Some b -> 6538 <= nHeight b ->
  retarget_tenth params H spork b = Ret (ih_nBits (header b)) \/ exists n, new_target (retarget_tenth params H spork b) n.
Proof using Hp Hok Hh.
  intros Hpb Hn. unfold retarget_tenth. destruct (_ =? _); [right; apply (retarget_with_spec p); [done|lia]|].
  destruct (negb _); [by left|]. right. destruct (parent_of p b Hpb) as (q & c & Eq & Hq & E & _); [lia|]. rewrite Eq.
  destruct (walk_back_spec 10 (nHeight b - 10) q c Hq) as (r & d & -> & _ & _); [lia|lia|]. cbn [result_bind].
  apply (retarget_with_spec p); [done|]. unfold clamp. rewrite Z.gtb_ltb. cmp_cases; lia.
Qed.

Lemma retarget_old_spec p b : H !! p = Some b -> 0 < nHeight b -> exists n, new_target (retarget_old params H b) n.
Proof using Hp Hok Hh.
  intros Hpb Hn. unfold retarget_old. destruct (parent_of p b Hpb Hn) as (q & c & _ & _ & _ & ->). cbn [result_bind].
  set (a := clamp _ _ _ _). pose proof (target_wf p b Hpb) as W. destruct (SetCompact _) as [[t neg] ov]. cbn [fst] in W.
  destruct (bmul32_spec 8 t (u32 a) W (u32_range a)) as [Wm _].
  destruct (div_const _ target_spacing Wm) as (d & -> & Wd & _); [unfold target_spacing; lia|]. cbn [lift_div result_bind].
  assert (Wo : wf 8 old_pow_limit) by solve_wf. assert (Vo : val old_pow_limit = 2 ^ 224 - 1) by reflexivity.
  set (e := if CompareTo d old_pow_limit >? 0 then old_pow_limit else d).
  assert (We : wf 8 e /\ 0 <= val e <= val (limit params)).
  { unfold limit. rewrite (limit_val _ Hp). pose proof (val_range _ _ Wd). subst e. rewrite (CompareTo_spec 8), Z.gtb_ltb by done.
    destruct (Z.ltb_spec 0 (Z.sgn (val d - val old_pow_limit))); (split; [done|lia]). }
  destruct We as [We Ve]. assert (Fin : forall x, wf 8 x -> 0 <= val x <= val (limit params) -> exists n, new_target (lift_compact (GetCompact x false)) n).
  { intros x Wx Vx. destruct (lift_GetCompact x Wx) as (k & E & Ek). exists (val x), k. done. }
  destruct (_ <? _); [|by apply Fin]. destruct (lift_GetCompact e We) as (k & -> & _). cbn [result_bind].
  apply Fin; destruct (k >? 469827583); try done; [apply SetCompact_wf; unfold in_u32; lia|].
  unfold limit. rewrite (limit_val _ Hp). by vm_compute.
Qed.

(** Since the fork: the time since the parent, as the rule bounds it. *)
Definition actual_timespan (b c : CBlockIndex) : Z :=
  if nHeight b + 1 =? REWARDFORK_BLOCK then 300 else clamp 0 1 600 (GetBlockTime b - GetBlockTime c).

(** The target that follows the target [t] when the time since the parent is [a]: the
    limit is kept after a minute; else the product is taken modulo [2^256], and a quotient
    of zero gives the limit. *)
Definition scaled_target (t a : Z) : Z :=
  if (t =? val (limit params)) && (a >=? 60) then val (limit params) else
  let s := t * (1740 + 2 * a) mod 2 ^ 256 / 1860 in
  if s =? 0 then val (limit params) else Z.min (val (limit params)) s.

Lemma scaled_target_range t a : 0 < scaled_target t a <= val (limit params).
Proof using Hp.
  pose proof (limit_val _ Hp) as L. unfold scaled_target, limit. rewrite L.
  destruct (_ && _); [lia|].
  pose proof (Z.mod_pos_bound (t * (1740 + 2 * a)) (2 ^ 256) ltac:(lia)) as R.
  assert (0 <= t * (1740 + 2 * a) mod 2 ^ 256 / 1860) by (apply Z.div_pos; lia).
  destruct (Z.eqb_spec (t * (1740 + 2 * a) mod 2 ^ 256 / 1860) 0); lia.
Qed.

(** While the product does not wrap. *)
Lemma scaled_target_exact t a : 1 < t -> 0 <= a <= 600 -> t * 2940 < 2 ^ 256 ->
  scaled_target t a = Z.min (val (limit params)) (t * (1740 + 2 * a) / 1860).
Proof using Hp.
  intros T1 Ha T2. pose proof (limit_val _ Hp) as L. unfold scaled_target, limit. rewrite L, Z.mod_small by nia.
  destruct (Z.eqb_spec t (2 ^ 255 - 1)) as [->|_]; [lia|]. cbn [andb].
  destruct (Z.eqb_spec (t * (1740 + 2 * a) / 1860) 0) as [E|]; [|done].
  apply Z.div_small_iff in E; [|lia]. nia.
Qed.

Lemma retarget_every_block_spec p b : H !! p = Some b -> 0 < nHeight b ->
  exists q c, pprev b = Some q /\ H !! q = Some c /\
    let a := actual_timespan b c in
    0 <= a <= 600 /\ new_target (retarget_every_block params H b) (scaled_target (val (SetCompact (ih_nBits (header b))).1.1) a).
Proof using Hp Hok Hh.
  intros Hpb Hn. destruct (parent_of p b Hpb Hn) as (q & c & Eq & Hq & _ & Ed). cbv zeta.
  assert (Ea : (if nHeight b + 1 =? REWARDFORK_BLOCK then Ret 300
    else let* prev := deref H (pprev b) in Ret (clamp 0 1 (target_spacing * 10) (GetBlockTime b - GetBlockTime prev))) =
    Ret (E := ptr_error) (actual_timespan b c)).
  { unfold actual_timespan. destruct (_ =? _); [done|]. by rewrite Ed. }
  assert (Ha : 0 <= actual_timespan b c <= 600).
  { unfold actual_timespan, clamp. rewrite Z.gtb_ltb. cmp_cases; lia. }
  exists q, c. split; [done|]. split; [done|]. split; [done|].
  unfold retarget_every_block. rewrite Ea. cbn [result_bind]. set (a := actual_timespan b c) in *.
  pose proof (target_wf p b Hpb) as W. destruct (SetCompact _) as [[t neg] ov]. cbn [fst] in *.
  pose proof (val_range _ _ W) as Rt. change (BITS 8) with 256 in Rt. rewrite (limit_is params Hp) by done.
  unfold scaled_target. destruct ((val t =? val (limit params)) && _) eqn:C.
  { apply andb_true_iff in C as [C _]. apply Z.eqb_eq in C. by apply kept_target. }
  change ((30 * 60 / target_spacing - 1) * target_spacing) with 1740. change ((30 * 60 / target_spacing + 1) * target_spacing) with 1860.
  rewrite (u32_small (1740 + a + a)) by (unfold in_u32; lia).
  destruct (bmul32_spec 8 t (1740 + a + a) W) as [Wm Vm]; [unfold in_u32; lia|]. change (BITS 8) with 256 in Vm.
  destruct (div_const _ 1860 Wm) as (d & -> & Wd & Vd); [lia|]. cbn [lift_div result_bind].
  rewrite (EqualTo_spec 8) by (done || lia || by unfold in_u64; lia).
  replace (1740 + 2 * a) with (1740 + a + a) by lia. rewrite <- Vm, <- Vd.
  destruct (Z.eqb_spec (val d) 0) as [E|E]; cbn [orb]; [apply kept_target; [apply Hp|done]|by apply capped_target].
Qed.

(** The number [c] stands for a target between zero and the limit. *)
Definition target_in_limit (c : Z) : Prop := exists n, encodes c n /\ 0 <= n <= val (limit params).

(** C16: [GetNextWorkRequired] never fails: no null pointer is followed, no assertion or
    division fails and the walk back ends.  Its result stands for a target between zero
    and the limit of proof of work, or is the compact number of the last block, which
    happens only before the reward fork; so the targets of a chain stay within the limit
    once the last one is.  Since the fork the target is positive, and it is the last
    target [t] times [(1740 + 2a) / 1860], where [a] is the time since the parent kept
    between 0 and 600 seconds, cut to the limit ([scaled_target]): the limit is kept when
    [a] is at least 60, the product is taken modulo [2^256] and a quotient of zero gives the
    limit; none of this matters for [1 < t < 2^256 / 2940].  The entries of the index are
    consistent ([index_ok]) and have 32-bit times and numbers. *)
Theorem GetNextWorkRequired_spec (spork : Z) (p : ptr) (b : CBlockIndex) (Hpb : H !! p = Some b) :
  exists c, GetNextWorkRequired params H spork (Some p) = Ret c /\
  (target_in_limit c \/ (c = ih_nBits (header b) /\ nHeight b + 1 < REWARDFORK_BLOCK)) /\
  (target_in_limit (ih_nBits (header b)) -> target_in_limit c) /\
  (REWARDFORK_BLOCK <= nHeight b + 1 -> exists q d,
     pprev b = Some q /\ H !! q = Some d /\
     let t := val (SetCompact (ih_nBits (header b))).1.1 in
     let a := actual_timespan b d in
     0 <= a <= 600 /\ encodes c (scaled_target t a) /\ 0 < scaled_target t a /\
     (1 < t -> t * 2940 < 2 ^ 256 -> encodes c (Z.min (val (limit params)) (t * (1740 + 2 * a) / 1860)))).
Proof using Hp Hok Hh.
  pose proof (last_pow_pos _ Hp) as Lp. pose proof (limit_wf _ Hp) as Lw.
  assert (Old : forall r, nHeight b + 1 < REWARDFORK_BLOCK -> (exists n, new_target r n) ->
    exists c, r = Ret c /\
    (target_in_limit c \/ (c = ih_nBits (header b) /\ nHeight b + 1 < REWARDFORK_BLOCK)) /\
    (target_in_limit (ih_nBits (header b)) -> target_in_limit c) /\ ~ REWARDFORK_BLOCK <= nHeight b + 1).
  { intros r L (n & c & E & Ec & R). assert (T : target_in_limit c) by by exists n.
    exists c. split; [done|]. split; [by left|]. split; [done|lia]. }
  unfold GetNextWorkRequired, deref. cbn [mbind option_bind]. rewrite Hpb. cbn [result_bind].
  rewrite Z.geb_leb. destruct (Z.leb_spec (nHeight b) (nLastPOWBlock params)) as [B1|B1].
  { destruct (Old (lift_compact (GetCompact (limit params) false))) as (c & E & T1 & T2 & T3);
      [unfold REWARDFORK_BLOCK; lia|eexists; by apply kept_target|]. exists c. by split_and!. }
  destruct (Z.leb_spec REWARDFORK_BLOCK (nHeight b + 1)) as [B2|B2].
  { destruct (retarget_every_block_spec p b Hpb) as (q & d & Eq & Ed & Ha & c & E & Ec & R); [lia|].
    pose proof (scaled_target_range (val (SetCompact (ih_nBits (header b))).1.1) (actual_timespan b d)) as Pos.
    assert (T : target_in_limit c) by by eexists. exists c. split; [done|]. split; [by left|]. split; [done|].
    intros _. exists q, d. split_and!; [done..|lia|lia|exact Ec|lia|]. intros T1 T2. by rewrite <- scaled_target_exact. }
  destruct (Z.ltb_spec (nHeight b) 6538) as [B3|B3].
  { destruct (Old _ B2 (retarget_old_spec p b Hpb ltac:(lia))) as (c & E & T1 & T2 & T3). exists c. by split_and!. }
  destruct (retarget_tenth_spec p b spork Hpb B3) as [E|N].
  - eexists. split; [exact E|]. split; [by right|]. split; [done|lia].
  - destruct (Old _ B2 N) as (c & E & T1 & T2 & T3). exists c. by split_and!.
Qed.
End next_work.

Definition sample_entry (h : Z) (prev skip : option ptr) (time nBits : Z) : CBlockIndex :=
  mk_CBlockIndex (base_uint_u64 8 h) prev None skip h 0 0 0 (base_uint_u64 8 0) 0 0 0 0 0 (base_uint_u64 8 0) 0 0
    (mk_header 4 (base_uint_u64 8 0) time nBits 0 (base_uint_u64 8 0)) 0.

Lemma GetNextWorkRequired_spec_witness :
  let H : heap := {[ 1%positive := sample_entry 0 None None 1000 0x207fffff; 2%positive := sample_entry 1 (Some 1%positive) (Some 1%positive) 1060 0x207fffff ]} in
  exists c, GetNextWorkRequired CMainParams H 0 (Some 2%positive) = Ret c.
Proof.
  intros H. assert (Hp : params_ok CMainParams) by (by pose proof networks_ok as N; apply Forall_cons in N as [? _]).
  assert (Hok : index_ok H).
  { intros p b Hb. unfold H in Hb. apply lookup_insert_Some in Hb as [[<- <-]|[Ne Hb]]; [split; [cbn; lia|reflexivity]|].
    apply lookup_singleton_Some in Hb as [<- <-]. split; [cbn; lia|]. split; [eexists; by split|]. by eexists. }
  assert (Hh : headers_ok H).
  { intros p b Hb. unfold H in Hb. apply lookup_insert_Some in Hb as [[<- <-]|[Ne Hb]]; [split; cbn; unfold in_u32; lia|].
    apply lookup_singleton_Some in Hb as [<- <-]. split; cbn; unfold in_u32; lia. }
  destruct (GetNextWorkRequired_spec CMainParams Hp H Hok Hh 0 2 (sample_entry 1 (Some 1%positive) (Some 1%positive) 1060 0x207fffff))
    as (c & E & _); [reflexivity|]. exists c. exact E.
Defined.

(** The product of the every-block rule does wrap when the target is above [2^256 / 2940]:
    after ten minutes without a block, an easy target becomes several times harder
    instead of easier. *)
Lemma retarget_wraps :
  let H : heap := {[ 1%positive := sample_entry 1141700 None None 1000 0x20100000 ]} in
  let last := sample_entry 1141701 (Some 1%positive) None 1600 0x20100000 in
  match retarget_every_block CMainParams H last with
  | Ret c => 5 * val (SetCompact c).1.1 < val (SetCompact 0x20100000).1.1 < val (limit CMainParams)
  | Err _ => False
  end.
Proof. vm_compute. by split. Qed.
