(* ===== verification/Chain.v ===== *)
(** * The block index and the active chain ([chain.h], [chain.cpp], [main.cpp])

    Adding a header to the index, the active chain as a vector of entries, the locator
    and the search for forks. *)

From Stdlib Require Import ZArith Lia List Bool.
From stdpp Require Import base option list gmap.
From S2P Require Import Prelude Uint256 Compact Serialize MerkleDamgard Hash Script Tx Params BlockIndex Pow.

Open Scope Z_scope.
Open Scope btc_scope.

(** ** [AddToBlockIndex] *)

(** [mapBlockIndex], the store its entries live in, the best header and the entries to be
    written. *)
Record block_index : Type := mk_index {
  entries : heap; mapBlockIndex : gmap uint256 ptr; pindexBestHeader : option ptr; setDirtyBlockIndex : list ptr }.

(** What [AddToBlockIndex] reads of a block; the kernel is [vtx[1].vin[0].prevout.hash], [None]
    when the block has no second transaction with an input. *)
Record block_header : Type := mk_block_header {
  bh_hash : uint256; bh_hashPrevBlock : uint256; bh_header : index_header; bh_IsProofOfStake : bool; bh_kernel : option uint256 }.

(** The constructor from a block. *)
Definition CBlockIndex_of (blk : block_header) : CBlockIndex :=
  let h := bh_header blk in
  let b := mk_CBlockIndex (bh_hash blk) None None None 0 0 0 0 (base_uint_zero 8) 0 0 0 0 0 (base_uint_zero 8) 0 0
    (mk_header (ih_nVersion h) (ih_hashMerkleRoot h) (ih_nTime h) (ih_nBits h) (ih_nNonce h)
       (if ih_nVersion h >? 3 then ih_nAccumulatorCheckpoint h else base_uint_zero 8)) 0 in
  if bh_IsProofOfStake blk then SetProofOfStake b else b.

Section add.
(** The stake modifiers of a block on top of its parent, which [kernel.cpp] computes. *)
Context (ComputeNextStakeModifier : ptr -> Z * bool) (ComputeStakeModifierV2 : ptr -> uint256 -> uint256) (StakingProtocol2Height : Z).

(** [BuildSkip] *)
Definition BuildSkip (H : heap) (b : CBlockIndex) : result ptr_error (option ptr) :=
  match pprev b with
  | None => Ret (pskip b)
  | Some q => GetAncestor H q (GetSkipHeight (nHeight b))
  end.

Definition set_pnext (next : ptr) (b : CBlockIndex) : CBlockIndex := with_links b (pprev b) (Some next) (pskip b) (nHeight b).

(** The part of the body under [if (miPrev != mapBlockIndex.end())]: the new entry [b] at
    [p], its parent at [q]. *)
Definition link_to_parent (H : heap) (blk : block_header) (p q : ptr) (b : CBlockIndex) : result ptr_error (heap * CBlockIndex) :=
  let* parent := deref H (Some q) in
  if nHeight parent + 1 >=? 2 ^ 31 then Err IntOverflow else
  let b := with_links b (Some q) (pnext b) (pskip b) (nHeight parent + 1) in
  let* skip := BuildSkip H b in
  let b := with_links b (Some q) (pnext b) skip (nHeight b) in
  let H := <[q := set_pnext p parent]> H in
  let b := default b (SetStakeEntropyBit (GetStakeEntropyBit b) b) in
  let* b := (if nHeight b <? StakingProtocol2Height
             then let '(m, g) := ComputeNextStakeModifier q in Ret (SetStakeModifier m g b)
             else match bh_kernel blk with
                  | Some kernel => Ret (with_modifiers b (nStakeModifier b) (ComputeStakeModifierV2 q kernel))
                  | None => Err NullDeref
                  end) in
  Ret (H, b).

Definition AddToBlockIndex (blk : block_header) (s : block_index) : result ptr_error (block_index * ptr) :=
  match mapBlockIndex s !! bh_hash blk with
  | Some p => Ret (s, p)
  | None =>
      let p := fresh (dom (entries s)) in
      let b := CBlockIndex_of blk in
      let map := <[bh_hash blk := p]> (mapBlockIndex s) in
      let* r := match map !! bh_hashPrevBlock blk with
                | Some q => link_to_parent (<[p := b]> (entries s)) blk p q b
                | None => Ret (entries s, b)
                end in
      let '(H, b) := r in
      let* proof := match GetBlockProof (ih_nBits (header b)) with Ret w => Ret w | Err _ => Err AssertionFailed end in
      let* below := match pprev b with
                    | Some q => let* parent := deref H (Some q) in Ret (nChainWork parent)
                    | None => Ret (base_uint_u64 8 0)
                    end in
      let b := with_work b (badd below proof) in
      match RaiseValidity BLOCK_VALID_TREE b with
      | None => Err AssertionFailed
      | Some (b, _) =>
          let H := <[p := b]> H in
          let* best := match pindexBestHeader s with
                       | None => Ret (Some p)
                       | Some best => let* e := deref H (Some best) in
                           Ret (if CompareTo (nChainWork e) (nChainWork b) <? 0 then Some p else Some best)
                       end in
          let* H := if negb (nHeight b =? 0)
                    then match pprev b with
                         | Some q => let* parent := deref H (Some q) in Ret (<[q := set_pnext p parent]> H)
                         | None => Err NullDeref
                         end
                    else Ret H in
          Ret (mk_index H map best (p :: setDirtyBlockIndex s), p)
      end
  end.
End add.

(** ** [CChain] *)

(** [vChain]. *)
Abbreviation CChain := (list (option ptr)).

Definition Genesis (c : CChain) : option ptr := mjoin (c !! 0%nat).
Definition Tip (c : CChain) : option ptr := mjoin (last c).
(** [operator[]] *)
Definition at_height (c : CChain) (h : Z) : option ptr :=
  if (h <? 0) || (h >=? Z.of_nat (length c)) then None else mjoin (c !! Z.to_nat h).
Definition Height (c : CChain) : Z := Z.of_nat (length c) - 1.

Section chain.
Context (H : heap).

Definition Contains (c : CChain) (p : ptr) : result ptr_error bool :=
  let* b := deref H (Some p) in Ret (bool_decide (at_height c (nHeight b) = Some p)).

Definition Next (c : CChain) (p : ptr) : result ptr_error (option ptr) :=
  let* b := deref H (Some p) in
  let* x := Contains c p in
  Ret (if x then at_height c (nHeight b + 1) else None).

(** [while (pindex && vChain[pindex->nHeight] != pindex)]: goes down by one each turn. *)
Fixpoint SetTip_loop (fuel : nat) (p : option ptr) (c : CChain) : result ptr_error CChain :=
  match p with
  | None => Ret c
  | Some q =>
      let* b := deref H p in
      match c !! Z.to_nat (nHeight b) with
      | None => Err AssertionFailed
      | Some e =>
          if bool_decide (e = p) then Ret c else
          match fuel with
          | O => Err OutOfFuel
          | S fuel => SetTip_loop fuel (pprev b) (<[Z.to_nat (nHeight b) := p]> c)
          end
      end
  end.

Definition SetTip (p : option ptr) (c : CChain) : result ptr_error CChain :=
  match p with
  | None => Ret []
  | Some _ =>
      let* b := deref H p in
      let n := Z.to_nat (nHeight b + 1) in
      SetTip_loop n p (resize n None c)
  end.

(** [while (pindex && !Contains(pindex))] *)
Fixpoint FindFork_loop (fuel : nat) (c : CChain) (p : option ptr) : result ptr_error (option ptr) :=
  match p with
  | None => Ret None
  | Some q =>
      let* x := Contains c q in
      if x then Ret (Some q) else
      match fuel with
      | O => Err OutOfFuel
      | S fuel => let* b := deref H (Some q) in FindFork_loop fuel c (pprev b)
      end
  end.

Definition FindFork (c : CChain) (p : option ptr) : result ptr_error (option ptr) :=
  match p with
  | None => Ret None
  | Some q =>
      let* b := deref H p in
      let* p := if nHeight b >? Height c then GetAncestor H q (Height c) else Ret p in
      FindFork_loop (Z.to_nat (nHeight b + 1)) c p
  end.

(** [LastCommonAncestor]: [while (pa != pb && pa && pb)]. *)
Fixpoint LastCommonAncestor_loop (fuel : nat) (pa pb : option ptr) : result ptr_error (option ptr) :=
  if bool_decide (pa = pb) then Ret pa else
  match pa, pb with
  | Some _, Some _ =>
      match fuel with
      | O => Err OutOfFuel
      | S fuel =>
          let* a := deref H pa in let* b := deref H pb in
          LastCommonAncestor_loop fuel (pprev a) (pprev b)
      end
  | _, _ => Err AssertionFailed
  end.

Definition LastCommonAncestor (pa pb : ptr) : result ptr_error (option ptr) :=
  let* a := deref H (Some pa) in
  let* b := deref H (Some pb) in
  let* pa' := if nHeight a >? nHeight b then GetAncestor H pa (nHeight b) else Ret (Some pa) in
  let* pb' := if nHeight b >? nHeight a then GetAncestor H pb (nHeight a) else Ret (Some pb) in
  LastCommonAncestor_loop (Z.to_nat (Z.min (nHeight a) (nHeight b) + 1)) pa' pb'.

(** ** Locators *)

(** The body of [GetLocator]: [n] entries are in [vHave] before the turn. *)
Fixpoint GetLocator_loop (fuel : nat) (c : CChain) (p : option ptr) (nStep : Z) (n : nat) : result ptr_error (list uint256) :=
  match p with
  | None => Ret []
  | Some q =>
      let* b := deref H p in
      if nHeight b =? 0 then Ret [blockHash b] else
      match fuel with
      | O => Err OutOfFuel
      | S fuel =>
          let nHeight' := Z.max (nHeight b - nStep) 0 in
          let* x := Contains c q in
          let* p := if x then Ret (at_height c nHeight') else GetAncestor H q nHeight' in
          let n := S n in
          let* nStep := if (10 <? n)%nat then if nStep * 2 <? 2 ^ 31 then Ret (nStep * 2) else Err IntOverflow else Ret nStep in
          let* rest := GetLocator_loop fuel c p nStep n in
          Ret (blockHash b :: rest)
      end
  end.

(** [NULL] stands for the tip; the height of the entry bounds the turns. *)
Definition GetLocator (c : CChain) (p : option ptr) : result ptr_error (list uint256) :=
  let p := match p with None => Tip c | Some _ => p end in
  match p with
  | None => Ret []
  | Some _ => let* b := deref H p in GetLocator_loop (Z.to_nat (nHeight b)) c p 1 0
  end.

Fixpoint FindForkInGlobalIndex_loop (map : gmap uint256 ptr) (c : CChain) (vHave : list uint256) : result ptr_error (option ptr) :=
  match vHave with
  | [] => Ret (Genesis c)
  | hash :: vHave =>
      match map !! hash with
      | None => FindForkInGlobalIndex_loop map c vHave
      | Some p => let* x := Contains c p in if x then Ret (Some p) else FindForkInGlobalIndex_loop map c vHave
      end
  end.
Definition FindForkInGlobalIndex := FindForkInGlobalIndex_loop.
End chain.

(** ** Ancestors *)

Section ancestors.
Context (H : heap) (Hok : index_ok H).

Definition is_ancestor (q p : ptr) : Prop := exists k, ancestor H k p = Some q.

Lemma deref_Some p b : H !! p = Some b -> deref H (Some p) = Ret b.
Proof using. intros E. unfold deref. cbn [mbind option_bind]. by rewrite E. Qed.

Lemma ancestor_step p b k : H !! p = Some b -> ancestor H (S k) p = pprev b ≫= ancestor H k.
Proof using. intros E. cbn [ancestor]. rewrite E. done. Qed.

(** Past the root there is nothing. *)
Lemma ancestor_below k p b : H !! p = Some b -> nHeight b < Z.of_nat k -> ancestor H k p = None.
Proof using Hok.
  revert p b. induction k as [|k IH]; intros p b Hp Hk; [destruct (Hok p b Hp); lia|]. rewrite (ancestor_step p b) by done.
  destruct (Hok p b Hp) as [Hr Hb]. destruct (pprev b) as [q|]; [|done]. destruct Hb as [(c & Hq & E) _]. cbn [mbind option_bind].
  apply (IH q c Hq). lia.
Qed.

(** The height of an ancestor tells how far it is. *)
Lemma is_ancestor_height q p b : H !! p = Some b -> is_ancestor q p <->
  exists c, H !! q = Some c /\ nHeight c <= nHeight b /\ ancestor H (Z.to_nat (nHeight b - nHeight c)) p = Some q.
Proof using Hok.
  intros Hp. split.
  - intros [k E]. destruct (decide (Z.of_nat k <= nHeight b)) as [L|L]; [|rewrite (ancestor_below k p b) in E by (done || lia); done].
    destruct (ancestor_height H Hok k p b Hp L) as (q' & c & E1 & E2 & E3). rewrite E in E1. injection E1 as <-.
    exists c. split; [done|]. split; [lia|]. by replace (Z.to_nat (nHeight b - nHeight c)) with k by lia.
  - intros (c & _ & _ & E). by eexists.
Qed.

Lemma is_ancestor_refl p : is_ancestor p p.
Proof using. by exists 0%nat. Qed.

Lemma is_ancestor_trans r q p : is_ancestor r q -> is_ancestor q p -> is_ancestor r p.
Proof using. intros [m Em] [n En]. exists (n + m)%nat. rewrite ancestor_add, En. done. Qed.

Lemma is_ancestor_antisym q p : is_Some (H !! p) -> is_ancestor q p -> is_ancestor p q -> p = q.
Proof using Hok.
  intros [b Hp] A B. apply (is_ancestor_height q p b Hp) in A as (c & Hq & L & E).
  apply (is_ancestor_height p q c Hq) in B as (b' & Hp' & L' & E'). rewrite Hp in Hp'. injection Hp' as <-.
  replace (nHeight b - nHeight c) with 0 in E by lia. by injection E.
Qed.

(** Two ancestors of an entry are ancestors of each other, the lower of the higher. *)
Lemma ancestors_linear x y p b cx cy : H !! p = Some b -> is_ancestor x p -> is_ancestor y p ->
  H !! x = Some cx -> H !! y = Some cy -> nHeight cx <= nHeight cy -> is_ancestor x y.
Proof using Hok.
  intros Hp Ax Ay Hx Hy L. apply (is_ancestor_height x p b Hp) in Ax as (c & Hx' & Lx & Ex). rewrite Hx in Hx'. injection Hx' as <-.
  apply (is_ancestor_height y p b Hp) in Ay as (c & Hy' & Ly & Ey). rewrite Hy in Hy'. injection Hy' as <-.
  exists (Z.to_nat (nHeight cy - nHeight cx)).
  replace (Z.to_nat (nHeight b - nHeight cx)) with (Z.to_nat (nHeight b - nHeight cy) + Z.to_nat (nHeight cy - nHeight cx))%nat in Ex by lia.
  rewrite ancestor_add, Ey in Ex. done.
Qed.

Lemma parent_is_ancestor p b q : H !! p = Some b -> pprev b = Some q -> is_ancestor q p.
Proof using. intros Hp Eq. exists 1%nat. rewrite (ancestor_step p b), Eq by done. done. Qed.

(** An ancestor is the entry or an ancestor of its parent. *)
Lemma is_ancestor_inv x p b : H !! p = Some b -> is_ancestor x p -> x = p \/ exists q, pprev b = Some q /\ is_ancestor x q.
Proof using.
  intros Hp [[|k] E]; [left; by injection E|right]. rewrite (ancestor_step p b) in E by done.
  destruct (pprev b) as [q|]; [|done]. exists q. split; [done|]. by exists k.
Qed.

(** ** The active chain is the path to its tip *)

Definition chain_of (p : ptr) : CChain :=
  match H !! p with
  | Some b => map (fun i => ancestor H (Z.to_nat (nHeight b) - i) p) (seq 0 (S (Z.to_nat (nHeight b))))
  | None => []
  end.

Lemma chain_of_length p b : H !! p = Some b -> length (chain_of p) = S (Z.to_nat (nHeight b)).
Proof using. intros Hp. unfold chain_of. by rewrite Hp, length_map, length_seq. Qed.

Lemma chain_of_lookup p b i : H !! p = Some b -> (i <= Z.to_nat (nHeight b))%nat ->
  chain_of p !! i = Some (ancestor H (Z.to_nat (nHeight b) - i) p).
Proof using.
  intros Hp Hi. unfold chain_of. rewrite Hp. change (map ?f ?l) with (f <$> l). rewrite list_lookup_fmap, lookup_seq_lt by lia. done.
Qed.

Lemma at_height_chain_of p b h : H !! p = Some b -> 0 <= h <= nHeight b ->
  at_height (chain_of p) h = ancestor H (Z.to_nat (nHeight b - h)) p.
Proof using.
  intros Hp Hh. unfold at_height. rewrite (chain_of_length p b) by done.
  destruct (Z.ltb_spec h 0); [lia|]. rewrite Z.geb_leb. destruct (Z.leb_spec (Z.of_nat (S (Z.to_nat (nHeight b)))) h); [lia|].
  cbn [orb]. rewrite (chain_of_lookup p b) by (done || lia). cbn. f_equal. lia.
Qed.

Lemma at_height_above p b h : H !! p = Some b -> 0 <= nHeight b < h -> at_height (chain_of p) h = None.
Proof using.
  intros Hp Hh. unfold at_height. rewrite (chain_of_length p b) by done. rewrite Z.geb_leb.
  destruct (Z.leb_spec (Z.of_nat (S (Z.to_nat (nHeight b)))) h); [|lia]. by rewrite orb_true_r.
Qed.

Lemma Contains_spec t p : is_Some (H !! t) -> is_Some (H !! p) ->
  exists x, Contains H (chain_of t) p = Ret x /\ (x = true <-> is_ancestor p t).
Proof using Hok.
  intros [bt Ht] [b Hp]. unfold Contains. rewrite (deref_Some p b Hp). cbn [result_bind]. eexists. split; [reflexivity|].
  rewrite bool_decide_eq_true. destruct (Hok p b Hp) as [Hr _]. destruct (Hok t bt Ht) as [Hrt _].
  destruct (decide (nHeight b <= nHeight bt)) as [L|L].
  - rewrite (at_height_chain_of t bt) by (done || lia). rewrite (is_ancestor_height p t bt Ht). split; [intros E; by exists b|].
    intros (c & Hp' & _ & E). rewrite Hp in Hp'. by injection Hp' as <-.
  - rewrite (at_height_above t bt) by (done || lia). split; [done|]. intros A.
    apply (is_ancestor_height p t bt Ht) in A as (c & Hp' & L' & _). rewrite Hp in Hp'. injection Hp' as <-. lia.
Qed.

(** ** [SetTip] *)

(** Below an entry that is set, the chain is the path to it. *)
Definition downward (c : CChain) (n : nat) : Prop := forall i q, (i <= n)%nat -> c !! i = Some (Some q) ->
  (exists b, H !! q = Some b /\ nHeight b = Z.of_nat i) /\ forall j, (j <= i)%nat -> c !! j = Some (ancestor H (i - j) q).

Lemma SetTip_loop_spec fuel p b c : H !! p = Some b -> (Z.to_nat (nHeight b) < length c)%nat ->
  (Z.to_nat (nHeight b) < fuel)%nat -> downward c (Z.to_nat (nHeight b)) ->
  exists c', SetTip_loop H fuel (Some p) c = Ret c' /\ length c' = length c /\
    (forall j, (j <= Z.to_nat (nHeight b))%nat -> c' !! j = Some (ancestor H (Z.to_nat (nHeight b) - j) p)) /\
    (forall j, (Z.to_nat (nHeight b) < j)%nat -> c' !! j = c !! j).
Proof using Hok.
  revert p b c. induction fuel as [|fuel IH]; intros p b c Hp Lc Lf D; [lia|]. cbn [SetTip_loop]. rewrite (deref_Some p b Hp).
  cbn [result_bind]. set (n := Z.to_nat (nHeight b)) in *. destruct (lookup_lt_is_Some_2 c n Lc) as [e Ee]. rewrite Ee.
  case_bool_decide as Ep.
  { subst e. destruct (D n p (le_n n) Ee) as [_ Dj]. exists c. split; [done|]. split; [done|]. by split. }
  destruct (Hok p b Hp) as [Hr Hb]. destruct (pprev b) as [q|] eqn:Eq.
  - destruct Hb as [(d & Hq & Eh) _]. destruct (Hok q d Hq) as [Hrd _].
    destruct (IH q d (<[n := Some p]> c) Hq) as (c' & E & L & J1 & J2).
    { rewrite length_insert. lia. }
    { lia. }
    { intros i r Hi Er. rewrite list_lookup_insert_ne in Er by lia. destruct (D i r ltac:(lia) Er) as [D1 D2].
      split; [done|]. intros j Hj. rewrite list_lookup_insert_ne by lia. by apply D2. }
    exists c'. split; [done|]. split; [by rewrite L, length_insert|]. split.
    + intros j Hj. destruct (decide (j = n)) as [->|Nj].
      * rewrite J2 by lia. rewrite list_lookup_insert_eq by done. by rewrite Nat.sub_diag.
      * rewrite J1 by lia. replace (n - j)%nat with (S (Z.to_nat (nHeight d) - j)) by lia.
        rewrite (ancestor_step p b), Eq by done. done.
    + intros j Hj. rewrite J2 by lia. by rewrite list_lookup_insert_ne by lia.
  - exists (<[n := Some p]> c). assert (En : n = 0%nat) by lia. split; [by destruct fuel|]. split; [by rewrite length_insert|].
    rewrite En in *. split; intros j Hj.
    + replace j with 0%nat by lia. by rewrite list_lookup_insert_eq.
    + by rewrite list_lookup_insert_ne by lia.
Qed.

Lemma chain_of_downward t n : is_Some (H !! t) -> downward (chain_of t) n.
Proof using Hok.
  intros [b Ht] i q _ E. pose proof (lookup_lt_Some _ _ _ E) as L. rewrite (chain_of_length t b Ht) in L.
  rewrite (chain_of_lookup t b) in E by (done || lia). injection E as E.
  destruct (Hok t b Ht) as [Hr _].
  destruct (ancestor_height H Hok _ t b Ht (ltac:(lia) : Z.of_nat (Z.to_nat (nHeight b) - i) <= nHeight b)) as (q' & c & E1 & E2 & E3).
  rewrite E in E1. injection E1 as <-. split; [exists c; split; [done|lia]|].
  intros j Hj. rewrite (chain_of_lookup t b) by (done || lia). f_equal.
  replace (Z.to_nat (nHeight b) - j)%nat with (Z.to_nat (nHeight b) - i + (i - j))%nat by lia. rewrite ancestor_add, E. done.
Qed.

(** The chains that [SetTip] makes. *)
Definition chain_ok (c : CChain) : Prop := c = [] \/ exists t, is_Some (H !! t) /\ c = chain_of t.

Lemma SetTip_spec c p : chain_ok c -> is_Some (H !! p) -> SetTip H (Some p) c = Ret (chain_of p).
Proof using Hok.
  intros Hc [b Hp]. unfold SetTip. rewrite (deref_Some p b Hp). cbn [result_bind]. destruct (Hok p b Hp) as [Hr _].
  set (n := Z.to_nat (nHeight b + 1)).
  assert (D : downward (resize n None c) (Z.to_nat (nHeight b))).
  { intros i q Hi E. assert (Li : (i < length c)%nat).
    { destruct (decide (i < length c)%nat); [done|]. rewrite lookup_resize_new in E by lia. done. }
    rewrite lookup_resize in E by lia.
    destruct Hc as [->|(t & Ht & ->)]; [done|]. destruct (chain_of_downward t (Z.to_nat (nHeight b)) Ht i q Hi E) as [D1 D2].
    split; [done|]. intros j Hj. rewrite lookup_resize by lia. by apply D2. }
  destruct (SetTip_loop_spec n p b (resize n None c) Hp) as (c' & E & L & J1 & _); [rewrite length_resize; lia|lia|done|].
  rewrite E. f_equal. rewrite length_resize in L. apply list_eq. intros j. destruct (decide (j <= Z.to_nat (nHeight b))%nat) as [Lj|Lj].
  - rewrite J1 by done. by rewrite (chain_of_lookup p b).
  - rewrite !lookup_ge_None_2; [done| |]; [rewrite (chain_of_length p b) by done|rewrite L]; lia.
Qed.
(** ** Forks *)

(** [r] is the last common ancestor of [p] and [t]; [None] when they have none. *)
Definition last_common (p t : ptr) (r : option ptr) : Prop :=
  match r with
  | Some q => is_ancestor q p /\ is_ancestor q t /\ forall z, is_ancestor z p -> is_ancestor z t -> is_ancestor z q
  | None => forall z, is_ancestor z p -> is_ancestor z t -> False
  end.

Lemma ancestor_Some q p : is_Some (H !! p) -> is_ancestor q p -> is_Some (H !! q).
Proof using Hok. intros [b Hp] A. apply (is_ancestor_height q p b Hp) in A as (c & ? & _). by exists c. Qed.

Lemma last_common_unique p t r r' : is_Some (H !! p) -> last_common p t r -> last_common p t r' -> r = r'.
Proof using Hok.
  intros Hp. destruct r as [q|], r' as [q'|]; cbn; [|intros (A & B & _) N|intros N (A & B & _)|done].
  - intros (A & B & C) (A' & B' & C'). f_equal. apply is_ancestor_antisym; [by apply (ancestor_Some q p)| |]; eauto.
  - destruct (N q A B).
  - destruct (N q' A B).
Qed.

Lemma last_common_sym p t r : last_common p t r -> last_common t p r.
Proof using. destruct r; cbn; [intros (A & B & C); split; [done|]; split; [done|]; eauto|eauto]. Qed.

(** The search may start from an ancestor that has all the common ones. *)
Lemma last_common_lift p p' t r : is_ancestor p' p -> (forall z, is_ancestor z p -> is_ancestor z t -> is_ancestor z p') ->
  last_common p' t r -> last_common p t r.
Proof using.
  intros A B. destruct r as [q|]; cbn; [|by eauto]. intros (C & D & E).
  split; [by apply (is_ancestor_trans q p')|]. split; [done|]. eauto.
Qed.

(** Going up to the ancestor at the height of the other entry loses nothing. *)
Lemma GetAncestor_common p b t bt : H !! p = Some b -> H !! t = Some bt -> nHeight bt < nHeight b ->
  exists p' b', GetAncestor H p (nHeight bt) = Ret (Some p') /\ H !! p' = Some b' /\ nHeight b' = nHeight bt /\
    forall r, last_common p' t r -> last_common p t r.
Proof using Hok.
  intros Hp Ht L. destruct (Hok t bt Ht) as [Hrt _].
  destruct (ancestor_height H Hok (Z.to_nat (nHeight b - nHeight bt)) p b Hp ltac:(lia)) as (p' & b' & E & Hp' & Eh).
  exists p', b'. rewrite (GetAncestor_spec H Hok p b (nHeight bt)) by done.
  destruct (Z.leb_spec 0 (nHeight bt)), (Z.leb_spec (nHeight bt) (nHeight b)); try lia. cbn [andb]. rewrite E.
  split; [done|]. split; [done|]. split; [lia|]. intros r. assert (A : is_ancestor p' p) by by eexists.
  apply last_common_lift; [done|]. intros z Az At.
  destruct (ancestor_Some z p ltac:(by exists b) Az) as [cz Hz].
  apply (is_ancestor_height z t bt Ht) in At as (cz' & Hz' & Lz & _). rewrite Hz in Hz'. injection Hz' as <-.
  apply (ancestors_linear z p' p b cz b'); try done. lia.
Qed.

Lemma FindFork_loop_spec fuel t p b : is_Some (H !! t) -> H !! p = Some b -> nHeight b < Z.of_nat fuel ->
  exists r, FindFork_loop H fuel (chain_of t) (Some p) = Ret r /\ last_common p t r.
Proof using Hok.
  intros Ht. revert p b. induction fuel as [|fuel IH]; intros p b Hp Lf; [destruct (Hok p b Hp); lia|].
  cbn [FindFork_loop]. destruct (Contains_spec t p Ht) as (x & -> & Ex); [by exists b|]. cbn [result_bind].
  destruct x.
  { exists (Some p). split; [done|]. split; [apply is_ancestor_refl|]. split; [by apply Ex|]. done. }
  rewrite (deref_Some p b Hp). cbn [result_bind].
  assert (Np : ~ is_ancestor p t) by (intros A; by apply Ex in A). destruct (Hok p b Hp) as [_ Hb].
  destruct (pprev b) as [q|] eqn:Eq.
  - destruct Hb as [(d & Hq & Eh) _]. destruct (IH q d Hq) as (r & E & C); [lia|]. exists r. split; [done|].
    apply (last_common_lift p q); [by apply (parent_is_ancestor p b)| |done]. intros z Az At.
    destruct (is_ancestor_inv z p b Hp Az) as [->|(q' & Eq' & Az')]; [done|]. rewrite Eq in Eq'. by injection Eq' as <-.
  - exists None. split; [by destruct fuel|]. intros z Az At.
    destruct (is_ancestor_inv z p b Hp Az) as [->|(q' & Eq' & Az')]; [done|]. by rewrite Eq in Eq'.
Qed.

Lemma FindFork_spec t p : is_Some (H !! t) -> is_Some (H !! p) ->
  exists r, FindFork H (chain_of t) (Some p) = Ret r /\ last_common p t r.
Proof using Hok.
  intros [bt Ht] [b Hp]. unfold FindFork. rewrite (deref_Some p b Hp). cbn [result_bind]. unfold Height.
  rewrite (chain_of_length t bt Ht). destruct (Hok t bt Ht) as [Hrt _]. destruct (Hok p b Hp) as [Hr _].
  replace (Z.of_nat (S (Z.to_nat (nHeight bt))) - 1) with (nHeight bt) by lia. rewrite Z.gtb_ltb.
  destruct (Z.ltb_spec (nHeight bt) (nHeight b)) as [L|L].
  - destruct (GetAncestor_common p b t bt Hp Ht L) as (p' & b' & -> & Hp' & Eh & Lift). cbn [result_bind].
    destruct (FindFork_loop_spec (Z.to_nat (nHeight b + 1)) t p' b') as (r & E & C); [by exists bt|done|lia|].
    exists r. split; [done|]. by apply Lift.
  - cbn [result_bind]. apply (FindFork_loop_spec _ t p b); [by exists bt|done|lia].
Qed.

Lemma LastCommonAncestor_loop_spec fuel p q b c : H !! p = Some b -> H !! q = Some c -> nHeight b = nHeight c ->
  nHeight b < Z.of_nat fuel -> exists r, LastCommonAncestor_loop H fuel (Some p) (Some q) = Ret r /\ last_common p q r.
Proof using Hok.
  revert p q b c. induction fuel as [|fuel IH]; intros p q b c Hp Hq Eh Lf; [destruct (Hok p b Hp); lia|].
  cbn [LastCommonAncestor_loop]. case_bool_decide as Epq.
  { injection Epq as <-. exists (Some p). split; [done|]. split; [apply is_ancestor_refl|]. split; [apply is_ancestor_refl|done]. }
  rewrite (deref_Some p b Hp), (deref_Some q c Hq). cbn [result_bind].
  assert (Np : forall z, is_ancestor z p -> is_ancestor z q -> exists p' q', pprev b = Some p' /\ pprev c = Some q' /\ is_ancestor z p' /\ is_ancestor z q').
  { intros z Az Bz. destruct (is_ancestor_inv z p b Hp Az) as [->|(p' & Ep' & Az')].
    - exfalso. apply Epq. f_equal. apply (is_ancestor_height p q c Hq) in Bz as (b' & Hp' & _ & E). rewrite Hp in Hp'. injection Hp' as <-.
      replace (nHeight c - nHeight b) with 0 in E by lia. by injection E.
    - destruct (is_ancestor_inv z q c Hq Bz) as [->|(q' & Eq' & Bz')]; [|by exists p', q'].
      exfalso. apply Epq. f_equal. apply (is_ancestor_height q p b Hp) in Az as (c' & Hq' & _ & E). rewrite Hq in Hq'. injection Hq' as <-.
      replace (nHeight b - nHeight c) with 0 in E by lia. symmetry. by injection E. }
  destruct (Hok p b Hp) as [Hrp Hb]. destruct (Hok q c Hq) as [Hrq Hc].
  destruct (pprev b) as [p'|] eqn:Ep, (pprev c) as [q'|] eqn:Eq.
  - destruct Hb as [(b' & Hp' & Eb) _], Hc as [(c' & Hq' & Ec) _].
    destruct (IH p' q' b' c' Hp' Hq') as (r & E & C); [lia|lia|]. exists r. split; [done|].
    pose proof (parent_is_ancestor p b p' Hp Ep) as Ap. pose proof (parent_is_ancestor q c q' Hq Eq) as Aq.
    apply (last_common_lift p p'); [done| |].
    { intros z Az Bz. by destruct (Np z Az Bz) as (p2 & q2 & [= <-] & [= <-] & ? & ?). }
    apply last_common_sym. apply (last_common_lift q q'); [done| |by apply last_common_sym].
    intros z Bz Az'. destruct (Np z (is_ancestor_trans z p' p Az' Ap) Bz) as (p2 & q2 & [= <-] & [= <-] & ? & ?). done.
  - destruct Hb as [(b' & Hp' & Eb) _]. destruct (Hok p' b' Hp'). lia.
  - destruct Hc as [(c' & Hq' & Ec) _]. destruct (Hok q' c' Hq'). lia.
  - exists None. split; [by destruct fuel|]. intros z Az Bz. by destruct (Np z Az Bz) as (p2 & q2 & [=] & _).
Qed.

Lemma LastCommonAncestor_spec p q : is_Some (H !! p) -> is_Some (H !! q) ->
  exists r, LastCommonAncestor H p q = Ret r /\ last_common p q r.
Proof using Hok.
  intros [b Hp] [c Hq]. unfold LastCommonAncestor. rewrite (deref_Some p b Hp), (deref_Some q c Hq). cbn [result_bind].
  rewrite !Z.gtb_ltb. destruct (Hok p b Hp) as [Hrp _]. destruct (Hok q c Hq) as [Hrq _].
  destruct (Z.ltb_spec (nHeight c) (nHeight b)) as [L|L], (Z.ltb_spec (nHeight b) (nHeight c)) as [M|M]; try lia.
  - destruct (GetAncestor_common p b q c Hp Hq L) as (p' & b' & -> & Hp' & Eh & Lift). cbn [result_bind].
    destruct (LastCommonAncestor_loop_spec (Z.to_nat (Z.min (nHeight b) (nHeight c) + 1)) p' q b' c Hp' Hq) as (r & E & C); [lia|lia|].
    exists r. split; [done|]. by apply Lift.
  - destruct (GetAncestor_common q c p b Hq Hp M) as (q' & c' & -> & Hq' & Eh & Lift). cbn [result_bind].
    destruct (LastCommonAncestor_loop_spec (Z.to_nat (Z.min (nHeight b) (nHeight c) + 1)) p q' b c' Hp Hq') as (r & E & C); [lia|lia|].
    exists r. split; [done|]. apply last_common_sym, Lift, last_common_sym, C.
  - cbn [result_bind]. apply (LastCommonAncestor_loop_spec _ p q b c); try done; lia.
Qed.
End ancestors.

(** ** The index grows *)

Section grow.

(** Linking a successor changes nothing else. *)
Definition relinked (b b' : CBlockIndex) : Prop := b' = b \/ exists x, b' = set_pnext x b.

Definition extends (H H' : heap) : Prop := forall q b, H !! q = Some b -> exists b', H' !! q = Some b' /\ relinked b b'.

Lemma relinked_fields b b' : relinked b b' ->
  blockHash b' = blockHash b /\ pprev b' = pprev b /\ pskip b' = pskip b /\ nHeight b' = nHeight b /\
  nChainWork b' = nChainWork b /\ header b' = header b.
Proof. by intros [->|[x ->]]. Qed.

Lemma relinked_trans b b' x : relinked b b' -> relinked b (set_pnext x b').
Proof. intros [->|[y ->]]; right; by exists x. Qed.

Lemma ancestor_extends H H' n p : index_ok H -> extends H H' -> is_Some (H !! p) -> ancestor H' n p = ancestor H n p.
Proof.
  intros Hok He. revert p. induction n as [|n IH]; intros p [b Hp]; [done|]. destruct (He p b Hp) as (b' & Hp' & R).
  apply relinked_fields in R as (_ & Epv & _). rewrite (ancestor_step H' p b'), (ancestor_step H p b), Epv by done.
  destruct (Hok p b Hp) as [_ Hb]. destruct (pprev b) as [q|]; [|done]. destruct Hb as [(c & Hq & _) _].
  cbn [mbind option_bind]. apply IH. by exists c.
Qed.

Lemma chain_of_extends H H' p : index_ok H -> extends H H' -> is_Some (H !! p) -> chain_of H' p = chain_of H p.
Proof.
  intros Hok He [b Hp]. destruct (He p b Hp) as (b' & Hp' & R). apply relinked_fields in R as (_ & _ & _ & Eh & _).
  unfold chain_of. rewrite Hp, Hp', Eh. apply map_ext. intros i. apply ancestor_extends; [done|done|by exists b].
Qed.

Lemma chain_ok_extends H H' c : index_ok H -> extends H H' -> chain_ok H c -> chain_ok H' c.
Proof.
  intros Hok He [->|(t & [b Ht] & ->)]; [by left|right]. exists t. destruct (He t b Ht) as (b' & Ht' & _).
  split; [by exists b'|]. symmetry. apply chain_of_extends; [done|done|by exists b].
Qed.

(** The new entry and where it points. *)
Definition new_entry (H : heap) (b : CBlockIndex) : Prop :=
  0 <= nHeight b < 2 ^ 31 /\
  match pprev b with
  | None => nHeight b = 0
  | Some q => exists c, H !! q = Some c /\ nHeight b = nHeight c + 1 /\
      exists s, pskip b = Some s /\ ancestor H (Z.to_nat (nHeight c - GetSkipHeight (nHeight b))) q = Some s
  end.

Lemma index_ok_add H H' p b : index_ok H -> H !! p = None -> extends H H' -> H' !! p = Some b ->
  (forall x, is_Some (H' !! x) -> x = p \/ is_Some (H !! x)) -> new_entry H b -> index_ok H'.
Proof.
  intros Hok Hp He Hp' Hd Hn x e Hx. destruct (Hd x) as [->|[e0 Hx0]]; [by exists e| |].
  - rewrite Hp' in Hx. injection Hx as <-. destruct Hn as [Hr Hn]. split; [done|]. destruct (pprev b) as [q|] eqn:Eq; [|done].
    destruct Hn as (c & Hq & Eh & s & Es & Ea). destruct (He q c Hq) as (c' & Hq' & R).
    apply relinked_fields in R as (_ & _ & _ & Ec & _). split; [exists c'; split; [done|lia]|]. exists s. split; [done|].
    destruct (Hok q c Hq) as [Hrq _]. pose proof (GetSkipHeight_range (nHeight b) ltac:(lia)).
    replace (Z.to_nat (nHeight b - GetSkipHeight (nHeight b))) with (S (Z.to_nat (nHeight c - GetSkipHeight (nHeight b)))) by lia.
    rewrite (ancestor_step H' p b), Eq by done. cbn [mbind option_bind]. rewrite (ancestor_extends H H'); [done|done|done|by exists c].
  - destruct (He x e0 Hx0) as (e' & Hx' & R). rewrite Hx in Hx'. injection Hx' as <-.
    apply relinked_fields in R as (_ & Epv & Esk & Eh & _). destruct (Hok x e0 Hx0) as [Hr He0].
    unfold entry_ok. rewrite Epv, Esk, Eh. split; [done|]. destruct (pprev e0) as [q|]; [|done].
    destruct He0 as [(c & Hq & Ec) (s & Es & Ea)]. destruct (He q c Hq) as (c' & Hq' & R).
    apply relinked_fields in R as (_ & _ & _ & Ec' & _). split; [exists c'; split; [done|lia]|]. exists s. split; [done|].
    rewrite (ancestor_extends H H'); [done|done|done|by exists e0].
Qed.

(** The chain work of an entry: the work of its block on top of the work below it. *)
Definition below_work (H : heap) (b : CBlockIndex) : Z :=
  match pprev b ≫= (H !!.) with Some c => val (nChainWork c) | None => 0 end.
Definition entry_work (H : heap) (b : CBlockIndex) : Prop :=
  wf 8 (nChainWork b) /\ val (nChainWork b) = (below_work H b + expected_hashes (ih_nBits (header b))) mod 2 ^ 256.
Definition work_ok (H : heap) : Prop := map_Forall (fun _ b => entry_work H b) H.

Lemma below_work_extends H H' b b' : extends H H' -> pprev b' = pprev b ->
  (forall q, pprev b = Some q -> is_Some (H !! q)) -> below_work H' b' = below_work H b.
Proof.
  intros He Ep Hq. unfold below_work. rewrite Ep. destruct (pprev b) as [q|]; [|done]. cbn [mbind option_bind].
  destruct (Hq q eq_refl) as [c Hc]. destruct (He q c Hc) as (c' & Hc' & R). apply relinked_fields in R as (_ & _ & _ & _ & Ew & _).
  by rewrite Hc, Hc', Ew.
Qed.

Lemma parent_known H p b q : index_ok H -> H !! p = Some b -> pprev b = Some q -> is_Some (H !! q).
Proof. intros Hok Hp Eq. destruct (Hok p b Hp) as [_ Hb]. rewrite Eq in Hb. destruct Hb as [(c & ? & _) _]. by exists c. Qed.

Lemma work_ok_add H H' p b : index_ok H -> work_ok H -> extends H H' -> H' !! p = Some b ->
  (forall x, is_Some (H' !! x) -> x = p \/ is_Some (H !! x)) -> (forall q, pprev b = Some q -> is_Some (H !! q)) ->
  entry_work H b -> work_ok H'.
Proof.
  intros Hok Hw He Hp' Hd Hq Hn x e Hx. destruct (Hd x) as [->|[e0 Hx0]]; [by exists e| |].
  - rewrite Hp' in Hx. injection Hx as <-. destruct Hn as (W & V). split; [done|]. by rewrite (below_work_extends H H' b b).
  - destruct (He x e0 Hx0) as (e' & Hx' & R). rewrite Hx in Hx'. injection Hx' as <-.
    apply relinked_fields in R as (_ & Epv & _ & _ & Ew & Eh). destruct (Hw x e0 Hx0) as (W & V).
    split; [by rewrite Ew|]. rewrite Eh, Ew. rewrite (below_work_extends H H' e0 e); [done|done|done|]. intros q Eq. by apply (parent_known H x e0).
Qed.

(** ** The invariant of the index *)

Definition map_ok (H : heap) (map : gmap uint256 ptr) : Prop :=
  forall h p, map !! h = Some p <-> exists b, H !! p = Some b /\ blockHash b = h.

(** The best header is one of those with the most work. *)
Definition best_ok (H : heap) (best : option ptr) : Prop :=
  match best with
  | None => H = ∅
  | Some p => exists b, H !! p = Some b /\ forall q c, H !! q = Some c -> val (nChainWork c) <= val (nChainWork b)
  end.

Definition block_index_ok (s : block_index) : Prop :=
  index_ok (entries s) /\ work_ok (entries s) /\ map_ok (entries s) (mapBlockIndex s) /\ best_ok (entries s) (pindexBestHeader s).

Lemma best_ok_extends H H' p b best : extends H H' -> H' !! p = Some b -> wf 8 (nChainWork b) -> work_ok H ->
  (forall x, is_Some (H' !! x) -> x = p \/ is_Some (H !! x)) -> best_ok H best ->
  best_ok H' (match best with
    | None => Some p
    | Some q => match H !! q with Some e => if CompareTo (nChainWork e) (nChainWork b) <? 0 then Some p else Some q | None => None end
    end).
Proof.
  intros He Hp Wb Hw Hd Hb.
  assert (Old : forall x e, x <> p -> H' !! x = Some e -> exists e0, H !! x = Some e0 /\ nChainWork e = nChainWork e0).
  { intros x e Nx Hx. destruct (Hd x) as [->|[e0 H0]]; [by exists e|done|]. exists e0. split; [done|].
    destruct (He x e0 H0) as (e' & Hx' & R). rewrite Hx in Hx'. injection Hx' as <-. by apply relinked_fields in R as (_ & _ & _ & _ & ? & _). }
  destruct best as [q|]; cbn [best_ok] in Hb.
  - destruct Hb as (e & Hq & Max). rewrite Hq. rewrite (CompareTo_spec 8) by (done || apply (Hw q e Hq)).
    destruct (Z.ltb_spec (Z.sgn (val (nChainWork e) - val (nChainWork b))) 0) as [L|L]; cbn [best_ok].
    + exists b. split; [done|]. intros x c Hx. destruct (decide (x = p)) as [->|Nx]; [rewrite Hp in Hx; injection Hx as <-; lia|].
      destruct (Old x c Nx Hx) as (e0 & H0 & ->). pose proof (Max x e0 H0). lia.
    + destruct (He q e Hq) as (e' & Hq' & R). apply relinked_fields in R as (_ & _ & _ & _ & Ew & _).
      exists e'. split; [done|]. rewrite Ew. intros x c Hx. destruct (decide (x = p)) as [->|Nx]; [rewrite Hp in Hx; injection Hx as <-; lia|].
      destruct (Old x c Nx Hx) as (e0 & H0 & ->). by apply (Max x).
  - exists b. split; [done|]. intros x c Hx. destruct (decide (x = p)) as [->|Nx]; [rewrite Hp in Hx; by injection Hx as <-|].
    destruct (Old x c Nx Hx) as (e0 & H0 & _). by rewrite Hb, lookup_empty in H0.
Qed.

Lemma map_ok_add H H' map p b : map_ok H map -> extends H H' -> H' !! p = Some b ->
  (forall x, is_Some (H' !! x) -> x = p \/ is_Some (H !! x)) -> map !! blockHash b = None ->
  map_ok H' (<[blockHash b := p]> map).
Proof.
  intros Hm He Hp Hd Hnew h x.
  assert (Back : forall e, x <> p -> H' !! x = Some e -> exists e0, H !! x = Some e0 /\ blockHash e = blockHash e0).
  { intros e Nx Hx. destruct (Hd x) as [->|[e0 Hx0]]; [by exists e|done|]. exists e0. split; [done|].
    destruct (He x e0 Hx0) as (e' & Hx' & R). rewrite Hx in Hx'. injection Hx' as <-. by apply relinked_fields in R as (? & _). }
  destruct (decide (h = blockHash b)) as [->|Nh].
  - rewrite lookup_insert_eq. split; [intros [= <-]; by exists b|]. intros (e & Hx & Eh).
    destruct (decide (x = p)) as [->|Nx]; [done|]. exfalso. destruct (Back e Nx Hx) as (e0 & Hx0 & E).
    assert (X : map !! blockHash b = Some x) by (apply Hm; exists e0; split; [done|congruence]). congruence.
  - rewrite lookup_insert_ne by done. rewrite (Hm h x). split; intros (e & Hx & Eh).
    + destruct (He x e Hx) as (e' & Hx' & R). apply relinked_fields in R as (E & _). exists e'. split; [done|congruence].
    + destruct (decide (x = p)) as [->|Nx]; [rewrite Hp in Hx; injection Hx as <-; by destruct Nh|].
      destruct (Back e Nx Hx) as (e0 & Hx0 & E). exists e0. split; [done|congruence].
Qed.

(** ** [AddToBlockIndex] *)

Section add_ok.
Context (ComputeNextStakeModifier : ptr -> Z * bool) (ComputeStakeModifierV2 : ptr -> uint256 -> uint256) (StakingProtocol2Height : Z).
Abbreviation Add := (AddToBlockIndex ComputeNextStakeModifier ComputeStakeModifierV2 StakingProtocol2Height).

Lemma link_to_parent_spec H blk p q b parent : index_ok H -> H !! q = Some parent -> pprev b = None ->
  nHeight parent + 1 < 2 ^ 31 -> (nHeight parent + 1 < StakingProtocol2Height \/ is_Some (bh_kernel blk)) ->
  exists s b', link_to_parent ComputeNextStakeModifier ComputeStakeModifierV2 StakingProtocol2Height H blk p q b =
      Ret (<[q := set_pnext p parent]> H, b') /\
    ancestor H (Z.to_nat (nHeight parent - GetSkipHeight (nHeight b'))) q = Some s /\
    pprev b' = Some q /\ pskip b' = Some s /\ nHeight b' = nHeight parent + 1 /\ blockHash b' = blockHash b /\
    header b' = header b /\ nStatus b' = nStatus b /\ nTx b' = nTx b /\ nChainTx b' = nChainTx b.
Proof.
  intros Hok Hq Hb Hh Hk. unfold link_to_parent. rewrite (deref_Some H q parent Hq). cbn [result_bind].
  rewrite Z.geb_leb. destruct (Z.leb_spec (2 ^ 31) (nHeight parent + 1)); [lia|]. unfold BuildSkip. cbn [pprev nHeight with_links].
  destruct (Hok q parent Hq) as [Hr _]. pose proof (GetSkipHeight_range (nHeight parent + 1) ltac:(lia)) as R.
  rewrite (GetAncestor_spec H Hok q parent) by done.
  destruct (Z.leb_spec 0 (GetSkipHeight (nHeight parent + 1))), (Z.leb_spec (GetSkipHeight (nHeight parent + 1)) (nHeight parent)); try lia.
  cbn [andb result_bind].
  destruct (ancestor_height H Hok (Z.to_nat (nHeight parent - GetSkipHeight (nHeight parent + 1))) q parent Hq ltac:(lia)) as (s & c & E & _).
  rewrite E. cbn [result_bind]. cbv zeta.
  match goal with |- context [default ?x (SetStakeEntropyBit ?e ?x)] => set (b0 := x) end.
  assert (F : pprev (default b0 (SetStakeEntropyBit (GetStakeEntropyBit b0) b0)) = Some q /\
    pskip (default b0 (SetStakeEntropyBit (GetStakeEntropyBit b0) b0)) = Some s /\
    nHeight (default b0 (SetStakeEntropyBit (GetStakeEntropyBit b0) b0)) = nHeight parent + 1 /\
    blockHash (default b0 (SetStakeEntropyBit (GetStakeEntropyBit b0) b0)) = blockHash b /\
    header (default b0 (SetStakeEntropyBit (GetStakeEntropyBit b0) b0)) = header b /\
    nStatus (default b0 (SetStakeEntropyBit (GetStakeEntropyBit b0) b0)) = nStatus b /\
    nTx (default b0 (SetStakeEntropyBit (GetStakeEntropyBit b0) b0)) = nTx b /\
    nChainTx (default b0 (SetStakeEntropyBit (GetStakeEntropyBit b0) b0)) = nChainTx b).
  { unfold SetStakeEntropyBit. by destruct (_ >? 1). }
  revert F. generalize (default b0 (SetStakeEntropyBit (GetStakeEntropyBit b0) b0)). intros b1 (F1 & F2 & F3 & F4 & F5 & F6 & F7 & F8).
  rewrite F3. destruct (Z.ltb_spec (nHeight parent + 1) StakingProtocol2Height).
  - destruct (ComputeNextStakeModifier q) as [m g]. cbn [result_bind]. eexists s, _. split; [reflexivity|]. unfold SetStakeModifier.
    destruct g; cbn [with_flags with_modifiers nHeight pprev pskip blockHash header nStatus nTx nChainTx]; rewrite F3; by split_and!.
  - destruct Hk as [Hk|[k ->]]; [lia|]. cbn [result_bind]. eexists s, _. split; [reflexivity|].
    cbn [with_modifiers nHeight pprev pskip blockHash header nStatus nTx nChainTx]. rewrite F3. by split_and!.
Qed.
(** A header that can be added: its hash is its own, the number of bits is 32-bit, and the
    height of its parent can be counted up; from the second staking protocol on the block has
    a kernel. *)
Definition addable (s : block_index) (blk : block_header) : Prop :=
  bh_hashPrevBlock blk <> bh_hash blk /\ in_u32 (ih_nBits (bh_header blk)) /\
  forall q c, mapBlockIndex s !! bh_hashPrevBlock blk = Some q -> entries s !! q = Some c ->
    nHeight c + 1 < 2 ^ 31 /\ (nHeight c + 1 < StakingProtocol2Height \/ is_Some (bh_kernel blk)).

Lemma CBlockIndex_of_fields blk : let b := CBlockIndex_of blk in
  pprev b = None /\ nHeight b = 0 /\ blockHash b = bh_hash blk /\ ih_nBits (header b) = ih_nBits (bh_header blk) /\ nStatus b = 0 /\
  nTx b = 0 /\ nChainTx b = 0.
Proof. unfold CBlockIndex_of. by destruct (bh_IsProofOfStake blk). Qed.

(** The entry and the store when [with_work] and [RaiseValidity] are reached. *)
Lemma linked_entry s blk p : block_index_ok s -> addable s blk -> entries s !! p = None ->
  exists H b, match mapBlockIndex s !! bh_hashPrevBlock blk with
    | Some q => link_to_parent ComputeNextStakeModifier ComputeStakeModifierV2 StakingProtocol2Height
                  (<[p := CBlockIndex_of blk]> (entries s)) blk p q (CBlockIndex_of blk)
    | None => Ret (entries s, CBlockIndex_of blk)
    end = Ret (H, b) /\
    pprev b = mapBlockIndex s !! bh_hashPrevBlock blk /\ blockHash b = bh_hash blk /\
    header b = header (CBlockIndex_of blk) /\ (nStatus b = 0 /\ nTx b = 0 /\ nChainTx b = 0) /\ new_entry (entries s) b /\
    extends (entries s) H /\ forall x, is_Some (H !! x) -> x = p \/ is_Some (entries s !! x).
Proof.
  intros (Hok & Hw & Hm & Hb) (Np & Hu & Hh) Hp. destruct (CBlockIndex_of_fields blk) as (F1 & F2 & F3 & F4 & F5 & F6 & F7).
  set (b0 := CBlockIndex_of blk) in *. destruct (mapBlockIndex s !! bh_hashPrevBlock blk) as [q|] eqn:Eq.
  - pose proof Eq as Eq'. apply Hm in Eq' as (c & Hq & _). destruct (Hh q c eq_refl Hq) as [Hh1 Hk].
    assert (Npq : p <> q) by (intros ->; congruence).
    assert (E1 : extends (entries s) (<[p := b0]> (entries s))).
    { intros x e Hx. exists e. split; [rewrite lookup_insert_ne; [done|congruence]|by left]. }
    assert (Hok1 : index_ok (<[p := b0]> (entries s))).
    { apply (index_ok_add (entries s) _ p b0); try done; [by rewrite lookup_insert_eq| |].
      - intros x [e Hx]. apply lookup_insert_Some in Hx as [[<- _]|[_ Hx]]; [by left|right; by exists e].
      - split; [lia|]. by rewrite F1. }
    destruct (link_to_parent_spec (<[p := b0]> (entries s)) blk p q b0 c Hok1) as (sk & b' & -> & Ea & G1 & G2 & G3 & G4 & G5 & G6 & G7 & G8);
      [by rewrite lookup_insert_ne|done|lia|done|].
    rewrite (ancestor_extends (entries s)) in Ea by (done || by exists c).
    eexists _, b'. split; [reflexivity|]. split; [done|]. split; [by rewrite G4|]. split; [exact G5|]. split; [by rewrite G6, G7, G8|]. split.
    { destruct (Hok q c Hq) as [Hr _]. split; [lia|]. rewrite G1. exists c. split; [done|]. split; [done|]. by exists sk. }
    split.
    + intros x e Hx. destruct (decide (x = q)) as [->|Nx].
      * rewrite Hx in Hq. injection Hq as <-. rewrite lookup_insert_eq. eexists. split; [reflexivity|]. right. by exists p.
      * exists e. rewrite lookup_insert_ne by done. rewrite lookup_insert_ne by congruence. split; [done|by left].
    + intros x [e Hx]. apply lookup_insert_Some in Hx as [[<- _]|[_ Hx]]; [right; by exists c|].
      apply lookup_insert_Some in Hx as [[<- _]|[_ Hx]]; [by left|right; by exists e].
  - eexists (entries s), b0. split; [done|]. do 4 (split; [done|]). split; [split; [lia|by rewrite F1]|].
    split; [intros x e Hx; exists e; split; [done|by left]|]. intros x Hx. by right.
Qed.

(** The last step: the parent is linked to the new entry, once more. *)
Lemma relink_parent H H' p b : extends H H' -> H' !! p = Some b -> H !! p = None -> new_entry H b ->
  (forall x, is_Some (H' !! x) -> x = p \/ is_Some (H !! x)) ->
  exists H'', (if negb (nHeight b =? 0) then match pprev b with
      | Some q => let* parent := deref H' (Some q) in Ret (<[q := set_pnext p parent]> H')
      | None => Err NullDeref end else Ret H') = Ret (E := ptr_error) H'' /\
    extends H H'' /\ H'' !! p = Some b /\ forall x, is_Some (H'' !! x) -> x = p \/ is_Some (H !! x).
Proof.
  intros He Hp Hn [_ Hb] Hd. destruct (Z.eqb_spec (nHeight b) 0) as [Z0|N0]; cbn [negb]; [by exists H'|].
  destruct (pprev b) as [q|]; [|by destruct (N0 Hb)]. destruct Hb as (c & Hq & _). assert (Nq : q <> p) by congruence.
  destruct (He q c Hq) as (c' & Hq' & R). rewrite (deref_Some H' q c' Hq'). cbn [result_bind].
  eexists. split; [reflexivity|]. split; [|split].
  - intros x e Hx. destruct (decide (x = q)) as [->|Nx].
    + rewrite Hq in Hx. injection Hx as <-. rewrite lookup_insert_eq. eexists. split; [reflexivity|]. by apply relinked_trans.
    + rewrite lookup_insert_ne by done. by apply He.
  - by rewrite lookup_insert_ne.
  - intros x [e Hx]. apply lookup_insert_Some in Hx as [[<- _]|[_ Hx]]; [right; by exists c|]. apply Hd. by exists e.
Qed.

(** A header is added: the index stays well formed, keeps every entry, and gets one for the
    header, on top of its parent. *)
Lemma AddToBlockIndex_new s blk : block_index_ok s -> addable s blk -> mapBlockIndex s !! bh_hash blk = None ->
  exists s' p b, Add blk s = Ret (s', p) /\ block_index_ok s' /\ extends (entries s) (entries s') /\
    entries s !! p = None /\ entries s' !! p = Some b /\ blockHash b = bh_hash blk /\ pprev b = mapBlockIndex s !! bh_hashPrevBlock blk /\
    header b = header (CBlockIndex_of blk) /\ (nStatus b = BLOCK_VALID_TREE /\ nTx b = 0 /\ nChainTx b = 0) /\
    forall x, is_Some (entries s' !! x) -> x = p \/ is_Some (entries s !! x).
Proof.
  intros Hs Ha Hnew. unfold AddToBlockIndex. rewrite Hnew. set (p := fresh (dom (entries s))).
  assert (Hp : entries s !! p = None) by (apply not_elem_of_dom, is_fresh). pose proof Hs as (Hok & Hw & Hm & Hb).
  pose proof Ha as (Np & Hu & _). rewrite lookup_insert_ne by congruence.
  destruct (linked_entry s blk p Hs Ha Hp) as (H & b & -> & G1 & G2 & G3' & (G4 & G5 & G6) & Hne & He & Hd). cbn [result_bind].
  assert (G3 : ih_nBits (header b) = ih_nBits (bh_header blk)) by (rewrite G3'; apply CBlockIndex_of_fields).
  rewrite G3. destruct (GetBlockProof_spec _ Hu) as (w & -> & Ww & Vw). cbn [result_bind].
  assert (Hpar : forall q, pprev b = Some q -> exists c, entries s !! q = Some c /\ q <> p).
  { intros q Eq. destruct Hne as [_ Hne]. rewrite Eq in Hne. destruct Hne as (c & Hq & _). exists c. split; [done|congruence]. }
  assert (B : exists below, match pprev b with
      | Some q => let* parent := deref H (Some q) in Ret (nChainWork parent)
      | None => Ret (base_uint_u64 8 0) end = Ret (E := ptr_error) below /\ wf 8 below /\ val below = below_work (entries s) b).
  { unfold below_work. destruct (pprev b) as [q|] eqn:Eq; cbn [mbind option_bind].
    - destruct (Hpar q eq_refl) as (c & Hq & _). rewrite Hq. destruct (He q c Hq) as (c' & Hq' & R).
      apply relinked_fields in R as (_ & _ & _ & _ & Ew & _). rewrite (deref_Some H q c' Hq'). cbn [result_bind]. rewrite Ew.
      eexists. split; [reflexivity|]. split; [apply (Hw q c Hq)|done].
    - destruct (base_uint_u64_spec 8 0) as [W0 V0]; [lia..|]. by eexists. }
  destruct B as (below & -> & Wb & Vb). cbn [result_bind]. destruct (badd_spec 8 below w Wb Ww) as [Wsum Vsum]. change (BITS 8) with 256 in Vsum.
  set (b2 := with_work b (badd below w)).
  assert (ER : RaiseValidity BLOCK_VALID_TREE b2 = Some (with_status b2 2, true)).
  { unfold RaiseValidity. subst b2. cbn [nStatus with_work]. by rewrite G4. }
  rewrite ER. set (b3 := with_status b2 2). set (H2 := <[p := b3]> H).
  assert (He2 : extends (entries s) H2).
  { intros x e Hx. destruct (He x e Hx) as (e' & Hx' & R). exists e'. split; [|done]. unfold H2. rewrite lookup_insert_ne; [done|congruence]. }
  assert (Hd2 : forall x, is_Some (H2 !! x) -> x = p \/ is_Some (entries s !! x)).
  { intros x [e Hx]. unfold H2 in Hx. apply lookup_insert_Some in Hx as [[<- _]|[_ Hx]]; [by left|]. apply Hd. by exists e. }
  assert (EB : (match pindexBestHeader s with
     | Some best => let* e := deref H2 (Some best) in Ret (if CompareTo (nChainWork e) (nChainWork b3) <? 0 then Some p else Some best)
     | None => Ret (Some p) end) =
     Ret (E := ptr_error) (match pindexBestHeader s with
    | None => Some p
    | Some q => match entries s !! q with Some e => if CompareTo (nChainWork e) (nChainWork b3) <? 0 then Some p else Some q | None => None end
    end)).
  { destruct (pindexBestHeader s) as [q|]; [|done]. destruct Hb as (e & Hq & _). destruct (He2 q e Hq) as (e' & Hq' & R).
    apply relinked_fields in R as (_ & _ & _ & _ & Ew & _). rewrite (deref_Some H2 q e' Hq'). cbn [result_bind]. by rewrite Hq, Ew. }
  rewrite EB. cbn [result_bind].
  destruct (relink_parent (entries s) H2 p b3) as (H3 & -> & He3 & Hp3 & Hd3); try done; [by unfold H2; rewrite lookup_insert_eq|].
  cbn [result_bind].
  eexists _, p, b3. split; [reflexivity|]. cbn [entries mapBlockIndex pindexBestHeader].
  split; [|split; [done|]; split; [done|]; split; [done|]; split; [exact G2|]; split; [exact G1|]; split; [exact G3'|]; split; [done|exact Hd3]].
  split; [|split; [|split]].
  - apply (index_ok_add (entries s) H3 p b3); try done.
  - apply (work_ok_add (entries s) H3 p b3); try done.
    + intros q Eq. destruct (Hpar q Eq) as (c & ? & _). by exists c.
    + split; [exact Wsum|]. change (header b3) with (header b). rewrite G3. change (nChainWork b3) with (badd below w).
      by rewrite Vsum, Vb, Vw.
  - cbn [mapBlockIndex entries]. replace (bh_hash blk) with (blockHash b3) by exact G2. apply (map_ok_add (entries s)); try done.
    change (blockHash b3) with (blockHash b). by rewrite G2.
  - apply (best_ok_extends (entries s) H3 p b3); try done.
Qed.

(** Without a kernel there is nothing to compute the second modifier from. *)
Lemma AddToBlockIndex_no_kernel s blk q c : block_index_ok s -> mapBlockIndex s !! bh_hash blk = None -> bh_hashPrevBlock blk <> bh_hash blk ->
  mapBlockIndex s !! bh_hashPrevBlock blk = Some q -> entries s !! q = Some c -> nHeight c + 1 < 2 ^ 31 ->
  StakingProtocol2Height <= nHeight c + 1 -> bh_kernel blk = None -> Add blk s = Err NullDeref.
Proof.
  intros (Hok & _) Hnew Np Hq Hc Hi Hs Hk. unfold AddToBlockIndex. rewrite Hnew, lookup_insert_ne, Hq by congruence.
  set (p := fresh (dom (entries s))). assert (Npq : p <> q).
  { intros E. pose proof (is_fresh (dom (entries s))) as F. apply F. fold p. rewrite E. by apply elem_of_dom_2 in Hc. }
  unfold link_to_parent. rewrite (deref_Some _ q c) by (by rewrite lookup_insert_ne). cbn [result_bind].
  rewrite Z.geb_leb. destruct (Z.leb_spec (2 ^ 31) (nHeight c + 1)); [lia|]. unfold BuildSkip. cbn [pprev nHeight with_links].
  assert (E1 : extends (entries s) (<[p := CBlockIndex_of blk]> (entries s))).
  { intros x e Hx. exists e. split; [|by left]. rewrite lookup_insert_ne; [done|]. intros <-. pose proof (is_fresh (dom (entries s))) as F. apply F. by apply elem_of_dom_2 in Hx. }
  assert (Hok1 : index_ok (<[p := CBlockIndex_of blk]> (entries s))).
  { destruct (CBlockIndex_of_fields blk) as (F1 & F2 & _). apply (index_ok_add (entries s) _ p (CBlockIndex_of blk)); try done;
      [apply not_elem_of_dom, is_fresh|by rewrite lookup_insert_eq| |].
    - intros x [e Hx]. apply lookup_insert_Some in Hx as [[<- _]|[_ Hx]]; [by left|right; by exists e].
    - split; [lia|]. by rewrite F1. }
  rewrite (GetAncestor_spec _ Hok1 q c) by (by rewrite lookup_insert_ne). cbn [result_bind].
  match goal with |- context [default ?x (SetStakeEntropyBit ?e ?x)] => assert (F : nHeight (default x (SetStakeEntropyBit e x)) = nHeight c + 1) end.
  { unfold SetStakeEntropyBit. by destruct (_ >? 1). }
  cbv zeta. rewrite F. destruct (Z.ltb_spec (nHeight c + 1) StakingProtocol2Height); [lia|]. by rewrite Hk.
Qed.
End add_ok.
End grow.

(** ** Locators *)

(** The heights of the entries of a locator. *)
Fixpoint locator_heights (fuel : nat) (h nStep : Z) (n : nat) : list Z :=
  if h =? 0 then [0] else
  match fuel with
  | O => []
  | S fuel => h :: locator_heights fuel (Z.max (h - nStep) 0) (if (10 <? S n)%nat then nStep * 2 else nStep) (S n)
  end.

(** The steps double once ten entries are in. *)
Definition step_at (n : nat) : Z := 2 ^ Z.of_nat (n - 10).

Lemma step_at_S n : (if (10 <? S n)%nat then step_at n * 2 else step_at n) = step_at (S n).
Proof.
  unfold step_at. destruct (Nat.ltb_spec 10 (S n)).
  - replace (S n - 10)%nat with (S (n - 10)) by lia. rewrite Nat2Z.inj_succ, Z.pow_succ_r; lia.
  - by replace (S n - 10)%nat with (n - 10)%nat by lia.
Qed.

Lemma step_at_pos n : 1 <= step_at n.
Proof. unfold step_at. pose proof (Z.pow_pos_nonneg 2 (Z.of_nat (n - 10))). lia. Qed.

(** A step is never longer than the way made so far, plus one. *)
Lemma step_next P h n : step_at n <= 1 + (P - h) -> 0 < h ->
  step_at (S n) <= 1 + (P - Z.max (h - step_at n) 0) \/ Z.max (h - step_at n) 0 = 0.
Proof.
  intros Hs Hh. destruct (decide (h - step_at n <= 0)); [right; lia|left].
  rewrite <- step_at_S. pose proof (step_at_pos n). destruct (10 <? S n)%nat; lia.
Qed.

Lemma locator_heights_length fuel P h n : 0 <= h <= P -> Z.of_nat n <= 11 + Z.log2 P -> (Z.to_nat h <= fuel)%nat ->
  h = 0 \/ step_at n <= 1 + (P - h) ->
  Z.of_nat (n + length (locator_heights fuel h (step_at n) n)) <= 12 + Z.log2 P.
Proof.
  revert h n. induction fuel as [|fuel IH]; intros h n Hh Hn Hf Hs; cbn [locator_heights].
  - destruct (Z.eqb_spec h 0); cbn [length]; lia.
  - destruct (Z.eqb_spec h 0) as [|N0]; [cbn [length]; lia|]. destruct Hs as [|Hs]; [done|]. cbn [length]. rewrite step_at_S.
    pose proof (step_at_pos n). assert (Hn' : Z.of_nat (S n) <= 11 + Z.log2 P).
    { destruct (decide (n <= 10)%nat); [pose proof (Z.log2_nonneg P); lia|].
      assert (Z.of_nat (n - 10) <= Z.log2 P); [|lia]. apply Z.log2_le_pow2; [lia|]. unfold step_at in Hs. lia. }
    replace (n + S (length (locator_heights fuel (Z.max (h - step_at n) 0) (step_at (S n)) (S n))))%nat
      with (S n + length (locator_heights fuel (Z.max (h - step_at n) 0) (step_at (S n)) (S n)))%nat by lia.
    apply IH; [lia|done|lia|]. destruct (step_next P h n Hs); [lia|by right|by left].
Qed.

Lemma locator_heights_cons fuel h s n : 0 <= h -> (Z.to_nat h <= fuel)%nat -> exists l, locator_heights fuel h s n = h :: l.
Proof.
  intros Hh Hf. destruct fuel as [|fuel]; cbn [locator_heights].
  - assert (h = 0) as -> by lia. by eexists.
  - destruct (Z.eqb_spec h 0) as [->|]; by eexists.
Qed.

Lemma locator_heights_le fuel h s n y : 0 <= h -> 1 <= s -> In y (locator_heights fuel h s n) -> y <= h.
Proof.
  revert h s n. induction fuel as [|fuel IH]; intros h s n Hh Hs; cbn [locator_heights];
    (destruct (Z.eqb_spec h 0) as [->|]; [intros [<-|[]]; lia|]); [intros []|]. intros [<-|Hy]; [lia|].
  apply IH in Hy; [lia|lia|]. destruct (10 <? S n)%nat; lia.
Qed.

(** Around every height [f], the locator has an entry at most as far below [f] as [f] is
    below the start, and the entries before it are above [f]. *)
Lemma locator_heights_near fuel P f h n : 0 <= f <= h -> h <= P -> (Z.to_nat h <= fuel)%nat ->
  h = 0 \/ step_at n <= 1 + (P - h) ->
  exists l1 x l2, locator_heights fuel h (step_at n) n = l1 ++ x :: l2 /\
    Forall (fun y => f < y <= P) l1 /\ 0 <= x <= f /\ f - x <= P - f.
Proof.
  revert h n. induction fuel as [|fuel IH]; intros h n Hf Hh Hfuel Hs; cbn [locator_heights].
  - assert (h = 0) as -> by lia. exists [], 0, []. split; [done|]. split; [constructor|lia].
  - destruct (Z.eqb_spec h 0) as [->|N0]; [exists [], 0, []; split; [done|]; split; [constructor|lia]|].
    destruct Hs as [|Hs]; [done|]. rewrite step_at_S. pose proof (step_at_pos n).
    destruct (decide (h = f)) as [->|Nf]; [exists [], f; eexists; split; [reflexivity|]; split; [constructor|lia]|].
    set (h' := Z.max (h - step_at n) 0). destruct (decide (f <= h')) as [L|L].
    + destruct (IH h' (S n)) as (l1 & x & l2 & E & F1 & F2 & F3); [lia|lia|lia| |].
      { destruct (step_next P h n Hs); [lia|by right|by left]. }
      exists (h :: l1), x, l2. split; [by rewrite E|]. split; [constructor; [lia|done]|done].
    + destruct (locator_heights_cons fuel h' (step_at (S n)) (S n)) as [l E]; [lia|lia|].
      exists [h], h', l. split; [by rewrite E|]. split; [constructor; [lia|constructor]|lia].
Qed.

Section locator.
Context (H : heap) (Hok : index_ok H).

(** The hash of the ancestor at a height. *)
Definition hash_at (p : ptr) (b : CBlockIndex) (h : Z) : uint256 :=
  match ancestor H (Z.to_nat (nHeight b - h)) p ≫= (H !!.) with Some e => blockHash e | None => base_uint_zero 8 end.

Lemma hash_at_self p b : H !! p = Some b -> hash_at p b (nHeight b) = blockHash b.
Proof using. intros Hp. unfold hash_at. rewrite Z.sub_diag. change (ancestor H (Z.to_nat 0) p) with (Some p). cbn [mbind option_bind]. by rewrite Hp. Qed.

Lemma hash_at_ancestor p b q c h : H !! p = Some b -> H !! q = Some c -> ancestor H (Z.to_nat (nHeight b - nHeight c)) p = Some q ->
  h <= nHeight c <= nHeight b -> hash_at q c h = hash_at p b h.
Proof using.
  intros Hp Hq E Hh. unfold hash_at.
  replace (Z.to_nat (nHeight b - h)) with (Z.to_nat (nHeight b - nHeight c) + Z.to_nat (nHeight c - h))%nat by lia.
  by rewrite ancestor_add, E.
Qed.

(** The next entry, by the vector of the chain or by the skip list, is the same ancestor. *)
Lemma locator_next c p b h : chain_ok H c -> H !! p = Some b -> 0 <= h <= nHeight b ->
  (let* x := Contains H c p in if x then Ret (at_height c h) else GetAncestor H p h) = Ret (ancestor H (Z.to_nat (nHeight b - h)) p).
Proof using Hok.
  intros Hc Hp Hh.
  assert (GA : GetAncestor H p h = Ret (ancestor H (Z.to_nat (nHeight b - h)) p)).
  { rewrite (GetAncestor_spec H Hok p b h Hp). destruct (Z.leb_spec 0 h), (Z.leb_spec h (nHeight b)); try lia. done. }
  destruct Hc as [->|(t & [bt Ht] & ->)].
  - unfold Contains. rewrite (deref_Some H p b Hp). cbn [result_bind]. rewrite bool_decide_false; [done|].
    unfold at_height. cbn [length]. rewrite Z.geb_leb. destruct (Z.leb_spec (Z.of_nat 0) (nHeight b)); [by rewrite orb_true_r|lia].
  - destruct (Contains_spec H Hok t p) as (x & -> & Ex); [by exists bt|by exists b|]. cbn [result_bind]. destruct x; [|done].
    destruct ((proj1 (is_ancestor_height H Hok p t bt Ht)) (proj1 Ex eq_refl)) as (b' & Hp' & L & E).
    rewrite Hp in Hp'. injection Hp' as <-. rewrite (at_height_chain_of H t bt) by (done || lia). f_equal.
    replace (Z.to_nat (nHeight bt - h)) with (Z.to_nat (nHeight bt - nHeight b) + Z.to_nat (nHeight b - h))%nat by lia.
    by rewrite ancestor_add, E.
Qed.

Lemma GetLocator_loop_spec fuel P c p b n : chain_ok H c -> H !! p = Some b -> nHeight b <= P < 2 ^ 30 ->
  (Z.to_nat (nHeight b) <= fuel)%nat -> nHeight b = 0 \/ step_at n <= 1 + (P - nHeight b) ->
  GetLocator_loop H fuel c (Some p) (step_at n) n = Ret (map (hash_at p b) (locator_heights fuel (nHeight b) (step_at n) n)).
Proof using Hok.
  intros Hc. revert p b n. induction fuel as [|fuel IH]; intros p b n Hp HP Hf Hs; cbn [GetLocator_loop locator_heights];
    rewrite (deref_Some H p b Hp); cbn [result_bind]; destruct (Hok p b Hp) as [Hr _].
  - destruct (Z.eqb_spec (nHeight b) 0) as [E|]; [|lia]. cbn [map]. rewrite <- E. by rewrite hash_at_self.
  - destruct (Z.eqb_spec (nHeight b) 0) as [E|N0]; [cbn [map]; rewrite <- E; by rewrite hash_at_self|].
    destruct Hs as [|Hs]; [done|]. pose proof (step_at_pos n). set (h' := Z.max (nHeight b - step_at n) 0).
    pose proof (locator_next c p b h' Hc Hp ltac:(lia)) as Nx.
    destruct (Contains H c p) as [x|]; [|done]. cbn [result_bind] in *. rewrite Nx. cbn [result_bind].
    assert (Es : (if (10 <? S n)%nat then if step_at n * 2 <? 2 ^ 31 then Ret (step_at n * 2) else Err IntOverflow else Ret (step_at n))
      = Ret (step_at (S n))).
    { rewrite <- step_at_S. destruct (10 <? S n)%nat; [|done]. destruct (Z.ltb_spec (step_at n * 2) (2 ^ 31)); [done|lia]. }
    rewrite Es. cbn [result_bind]. rewrite step_at_S.
    destruct (ancestor_height H Hok (Z.to_nat (nHeight b - h')) p b Hp ltac:(lia)) as (q & d & E & Hq & Eh). rewrite E.
    assert (Ed : h' = nHeight d) by lia. rewrite Ed. rewrite (IH q d (S n) Hq) by (first [lia | destruct (step_next P (nHeight b) n Hs); [lia|right; lia|left; lia]]).
    cbn [result_bind map]. f_equal. rewrite hash_at_self by done. f_equal. apply map_ext_in.
    intros y Hy. apply (hash_at_ancestor p b q d y); [done|done|by rewrite <- Ed|].
    apply locator_heights_le in Hy; [lia|lia|apply step_at_pos].
Qed.

(** ** A locator meets another chain near the fork *)

Lemma FindForkInGlobalIndex_at map_ t p b l1 x l2 f e : map_ok H map_ -> is_Some (H !! t) -> H !! p = Some b ->
  H !! f = Some e -> last_common H p t (Some f) -> Forall (fun y => nHeight e < y <= nHeight b) l1 -> 0 <= x <= nHeight e ->
  exists q c, FindForkInGlobalIndex H map_ (chain_of H t) (map (hash_at p b) (l1 ++ x :: l2)) = Ret (Some q) /\
    H !! q = Some c /\ nHeight c = x /\ is_ancestor H q f.
Proof using Hok.
  intros Hm Ht Hp Hfe (Afp & Aft & Max) Hl Hx. pose proof (proj1 (is_ancestor_height H Hok f p b Hp) Afp) as (e' & He' & Le & _).
  rewrite Hfe in He'. injection He' as <-. destruct (Hok f e Hfe) as [Hre _].
  assert (Known : forall y, 0 <= y <= nHeight b -> exists z d, map_ !! hash_at p b y = Some z /\ H !! z = Some d /\ nHeight d = y /\ is_ancestor H z p).
  { intros y Hy. destruct (ancestor_height H Hok (Z.to_nat (nHeight b - y)) p b Hp ltac:(lia)) as (z & d & E & Hz & Eh).
    exists z, d. unfold hash_at. rewrite E. cbn [mbind option_bind]. rewrite Hz. split; [apply Hm; by exists d|]. split; [done|].
    split; [lia|]. by eexists. }
  induction l1 as [|y l1 IH]; cbn [app map]; unfold FindForkInGlobalIndex in *; cbn [FindForkInGlobalIndex_loop].
  - destruct (Known x ltac:(lia)) as (z & d & -> & Hz & Ed & Az). destruct (Contains_spec H Hok t z Ht) as (r & -> & Er); [by exists d|].
    assert (Azf : is_ancestor H z f) by (apply (ancestors_linear H Hok z f p b d e); try done; lia).
    cbn [result_bind]. rewrite (proj2 Er) by (by apply (is_ancestor_trans H z f)). by exists z, d.
  - apply Forall_cons in Hl as [Hy Hl]. destruct (Known y ltac:(lia)) as (z & d & -> & Hz & Ed & Az).
    destruct (Contains_spec H Hok t z Ht) as (r & -> & Er); [by exists d|]. cbn [result_bind]. destruct r; [|by apply IH].
    exfalso. pose proof (Max z Az (proj1 Er eq_refl)) as Azf. apply (is_ancestor_height H Hok z f e Hfe) in Azf as (d' & Hd' & L & _).
    rewrite Hz in Hd'. injection Hd' as <-. lia.
Qed.
End locator.

(** ** The states of a node *)

Section states.
Context (ComputeNextStakeModifier : ptr -> Z * bool) (ComputeStakeModifierV2 : ptr -> uint256 -> uint256) (StakingProtocol2Height : Z).
Abbreviation Add := (AddToBlockIndex ComputeNextStakeModifier ComputeStakeModifierV2 StakingProtocol2Height).

(** Headers are added in any order, and the active chain is moved to any entry. *)
Inductive reachable : block_index -> CChain -> Prop :=
| reach_empty : reachable (mk_index ∅ ∅ None []) []
| reach_add s c blk s' p : reachable s c -> addable StakingProtocol2Height s blk -> Add blk s = Ret (s', p) -> reachable s' c
| reach_tip s c p c' : reachable s c -> is_Some (entries s !! p) -> SetTip (entries s) (Some p) c = Ret c' -> reachable s c'
| reach_clear s c c' : reachable s c -> SetTip (entries s) None c = Ret c' -> reachable s c'.

Lemma empty_index_ok : block_index_ok (mk_index ∅ ∅ None []).
Proof.
  split; [apply map_Forall_empty|]. split; [apply map_Forall_empty|]. split; [|done].
  intros h p. cbn [mapBlockIndex entries]. rewrite lookup_empty. split; [done|]. intros (b & Hb & _). by rewrite lookup_empty in Hb.
Qed.

Lemma reachable_ok s c : reachable s c -> block_index_ok s /\ chain_ok (entries s) c.
Proof.
  induction 1 as [|s c blk s' p _ [Hs Hc] Ha E|s c p c' _ [Hs Hc] Hp E|s c c' _ [Hs Hc] E].
  - split; [apply empty_index_ok|by left].
  - destruct (mapBlockIndex s !! bh_hash blk) as [q|] eqn:Eq.
    + unfold AddToBlockIndex in E. rewrite Eq in E. by injection E as <- <-.
    + destruct (AddToBlockIndex_new ComputeNextStakeModifier ComputeStakeModifierV2 StakingProtocol2Height s blk Hs Ha Eq)
        as (s2 & p2 & b & E2 & Hs2 & He & _). rewrite E in E2. injection E2 as <- <-. split; [done|].
      apply (chain_ok_extends (entries s)); [apply Hs|done|done].
  - split; [done|]. rewrite (SetTip_spec (entries s) (proj1 Hs) c p Hc Hp) in E. injection E as <-. right. by exists p.
  - split; [done|]. injection E as <-. by left.
Qed.

(** C9: in every state that additions and tip changes reach, the index is well formed --
    the height of an entry counts its ancestors, its skip pointer leads to the ancestor
    that the search expects, its chain work is the expected number of hashes summed over
    its ancestors modulo [2^256], the map finds each entry by its hash, the best header has
    the most work -- the active chain is the path from the root to its tip, and the next
    addition or tip change succeeds: the addition of any header that is not its own parent,
    has 32-bit bits, whose height fits an [int] and which, from the second staking protocol
    on, comes with the second transaction that is read ([addable]). *)
Theorem block_index_invariant (s : block_index) (c : CChain) (Hreach : reachable s c) :
  block_index_ok s /\ chain_ok (entries s) c /\
  (forall blk, addable StakingProtocol2Height s blk -> exists s' p, Add blk s = Ret (s', p) /\ is_Some (entries s' !! p) /\ extends (entries s) (entries s')) /\
  (forall p, is_Some (entries s !! p) -> SetTip (entries s) (Some p) c = Ret (chain_of (entries s) p)).
Proof.
  destruct (reachable_ok s c Hreach) as [Hs Hc]. split; [done|]. split; [done|]. split.
  - intros blk Ha. destruct (mapBlockIndex s !! bh_hash blk) as [q|] eqn:Eq.
    + exists s, q. unfold AddToBlockIndex. rewrite Eq. split; [done|]. split.
      * destruct Hs as (_ & _ & Hm & _). apply Hm in Eq as (b & ? & _). by exists b.
      * intros x b Hx. exists b. split; [done|by left].
    + destruct (AddToBlockIndex_new ComputeNextStakeModifier ComputeStakeModifierV2 StakingProtocol2Height s blk Hs Ha Eq)
        as (s' & p & b & E & _ & He & _ & Hp & _). exists s', p. split; [done|]. split; [by exists b|done].
  - intros p Hp. by apply SetTip_spec; [apply Hs| |].
Qed.

(** C38: the searches end and are right: [GetAncestor], which jumps along the skip list,
    finds what following [pprev] finds, within as many turns as there are blocks in
    between; [FindFork] and [LastCommonAncestor] find the last common ancestor, or nothing
    when the roots differ, and agree. *)
Theorem ancestor_search (s : block_index) (c : CChain) (Hreach : reachable s c) (p t : ptr) (b : CBlockIndex) (h : Z)
    (Hp : entries s !! p = Some b) (Ht : is_Some (entries s !! t)) :
  GetAncestor (entries s) p h =
    Ret (if (0 <=? h) && (h <=? nHeight b) then ancestor (entries s) (Z.to_nat (nHeight b - h)) p else None) /\
  exists r, last_common (entries s) p t r /\ LastCommonAncestor (entries s) p t = Ret r /\
    FindFork (entries s) (chain_of (entries s) t) (Some p) = Ret r.
Proof.
  destruct (reachable_ok s c Hreach) as [(Hok & _) _]. assert (Hp' : is_Some (entries s !! p)) by by exists b.
  split; [by apply GetAncestor_spec|].
  destruct (LastCommonAncestor_spec (entries s) Hok p t Hp' Ht) as (r & E & C). exists r. split; [done|]. split; [done|].
  destruct (FindFork_spec (entries s) Hok t p Ht Hp') as (r' & E' & C').
  by rewrite (last_common_unique (entries s) Hok p t r r' Hp' C C').
Qed.

(** C39: a locator is short, and finds a block near the fork: the locator of an entry
    [p] of height [n] has at most [12 + log2 n] hashes, and on any other chain of the
    index [FindForkInGlobalIndex] answers a block of both chains that is at most as far
    below the last common one as that is below [p]. *)
Theorem locator_finds_fork (s : block_index) (c : CChain) (Hreach : reachable s c) (p t f : ptr) (b e : CBlockIndex)
    (Hp : entries s !! p = Some b) (Hheight : nHeight b < 2 ^ 30) (Ht : is_Some (entries s !! t)) (Hf : entries s !! f = Some e)
    (Hfork : last_common (entries s) p t (Some f)) :
  exists l q d, GetLocator (entries s) c (Some p) = Ret l /\ Z.of_nat (length l) <= 12 + Z.log2 (nHeight b) /\
    FindForkInGlobalIndex (entries s) (mapBlockIndex s) (chain_of (entries s) t) l = Ret (Some q) /\
    entries s !! q = Some d /\ is_ancestor (entries s) q f /\ nHeight e - nHeight d <= nHeight b - nHeight e.
Proof.
  destruct (reachable_ok s c Hreach) as [(Hok & _ & Hm & _) Hc]. destruct (Hok p b Hp) as [Hr _]. destruct (Hok f e Hf) as [Hrf _].
  assert (Lf : nHeight e <= nHeight b).
  { destruct Hfork as (Af & _). apply (is_ancestor_height (entries s) Hok f p b Hp) in Af as (e' & Hf' & L & _). congruence. }
  unfold GetLocator. rewrite (deref_Some (entries s) p b Hp). cbn [result_bind]. change 1 with (step_at 0).
  rewrite (GetLocator_loop_spec (entries s) Hok (Z.to_nat (nHeight b)) (nHeight b) c p b 0) by (done || lia || (right; change (step_at 0) with 1; lia)).
  set (l := locator_heights _ _ _ _).
  assert (Ll : Z.of_nat (0 + length l) <= 12 + Z.log2 (nHeight b)).
  { pose proof (Z.log2_nonneg (nHeight b)). apply locator_heights_length; [lia|lia|lia|right; change (step_at 0) with 1; lia]. }
  destruct (locator_heights_near (Z.to_nat (nHeight b)) (nHeight b) (nHeight e) (nHeight b) 0) as (l1 & x & l2 & El & F1 & F2 & F3);
    [lia|lia|lia|right; change (step_at 0) with 1; lia|]. fold l in El.
  destruct (FindForkInGlobalIndex_at (entries s) Hok (mapBlockIndex s) t p b l1 x l2 f e Hm Ht Hp Hf Hfork F1 F2) as (q & d & E & Hq & Ed & A).
  exists (map (hash_at (entries s) p b) l), q, d. split; [done|]. split; [by rewrite length_map|]. rewrite El. split; [done|]. split; [done|].
  split; [done|lia].
Qed.
End states.

(** ** A genesis block with two blocks on top *)

Definition sample_header (hash prev : Z) : block_header :=
  mk_block_header (base_uint_u64 8 hash) (base_uint_u64 8 prev) (mk_header 4 (base_uint_zero 8) 1000 0x207fffff 0 (base_uint_zero 8))
    false None.
Abbreviation sample_Add := (AddToBlockIndex (fun _ => (0, false)) (fun _ _ => base_uint_zero 8) 100).
Definition sample_add (blk : block_header) (s : block_index) : block_index :=
  match sample_Add blk s with Ret (s', _) => s' | Err _ => s end.
Definition sample_index : block_index :=
  sample_add (sample_header 3 1) (sample_add (sample_header 2 1) (sample_add (sample_header 1 0) (mk_index ∅ ∅ None []))).

Lemma sample_reachable : reachable (fun _ => (0, false)) (fun _ _ => base_uint_zero 8) 100 sample_index [].
Proof.
  assert (Step : forall s blk, reachable (fun _ => (0, false)) (fun _ _ => base_uint_zero 8) 100 s [] -> addable 100 s blk ->
    (if sample_Add blk s is Ret _ then true else false) = true -> reachable (fun _ => (0, false)) (fun _ _ => base_uint_zero 8) 100 (sample_add blk s) []).
  { intros s blk R A E. unfold sample_add. destruct (sample_Add blk s) as [[s' p]|] eqn:E'; [|done]. by apply (reach_add _ _ _ s [] blk s' p). }
  unfold sample_index. repeat (apply Step; [| |vm_compute; reflexivity]); [apply reach_empty| | |];
    (split; [done|]; split; [unfold in_u32; cbn; lia|]; intros q c E1 E2; vm_compute in E1; try discriminate E1;
     injection E1 as <-; vm_compute in E2; injection E2 as <-; split; cbn; first [lia|left; lia]).
Qed.

Lemma block_index_invariant_witness : block_index_ok sample_index /\
  exists s' p, sample_Add (sample_header 4 3) sample_index = Ret (s', p).
Proof.
  destruct (block_index_invariant _ _ _ sample_index [] sample_reachable) as (A & _ & B & _). split; [exact A|].
  destruct (B (sample_header 4 3)) as (s' & p & E & _); [|exists s', p; exact E].
  split; [done|]. split; [unfold in_u32; cbn; lia|]. intros q c E1 E2. vm_compute in E1. injection E1 as <-.
  vm_compute in E2. injection E2 as <-. split; [cbn; lia|left; cbn; lia].
Defined.

Definition sample_entry_at (p : ptr) : CBlockIndex := default (CBlockIndex_of (sample_header 0 0)) (entries sample_index !! p).

Lemma ancestor_search_witness :
  LastCommonAncestor (entries sample_index) 2 3 = Ret (Some 1%positive) /\
  exists r, last_common (entries sample_index) 2 3 r.
Proof.
  split; [vm_compute; reflexivity|].
  destruct (ancestor_search _ _ _ sample_index [] sample_reachable 2 3 (sample_entry_at 2) 0) as (_ & r & C & _);
    [vm_compute; reflexivity|eexists; vm_compute; reflexivity|by exists r].
Defined.

Lemma locator_finds_fork_witness :
  exists l q, GetLocator (entries sample_index) [] (Some 2%positive) = Ret l /\
    FindForkInGlobalIndex (entries sample_index) (mapBlockIndex sample_index) (chain_of (entries sample_index) 3) l = Ret (Some q).
Proof.
  destruct (LastCommonAncestor_spec (entries sample_index) (proj1 (proj1 (reachable_ok _ _ _ _ _ sample_reachable))) 2 3) as (r & E & C);
    [eexists; vm_compute; reflexivity|eexists; vm_compute; reflexivity|].
  assert (Er : r = Some 1%positive).
  { assert (X : LastCommonAncestor (entries sample_index) 2 3 = Ret (Some 1%positive)) by (vm_compute; reflexivity).
    rewrite X in E. injection E as <-. reflexivity. }
  rewrite Er in C.
  destruct (locator_finds_fork _ _ _ sample_index [] sample_reachable 2 3 1 (sample_entry_at 2) (sample_entry_at 1)) as (l & q & d & A & _ & B & _);
    [vm_compute; reflexivity|vm_compute; reflexivity|eexists; vm_compute; reflexivity|vm_compute; reflexivity|exact C|].
  exists l, q. split; [exact A|exact B].
Defined.
