(* ===== verification/CheckQueue.v ===== *)
(** * The queue of script checks ([checkqueue.h])

    A master thread adds batches of checks and joins its workers until all are done.  The
    threads interleave between their critical sections: every section under the mutex is
    one step, and so is every check that runs outside it. *)

From Stdlib Require Import ZArith Lia List Bool.
From stdpp Require Import base option list.
From S2P Require Import Prelude.

Open Scope Z_scope.

Section check_queue.
Context {T : Type} (check : T -> bool) (nBatchSize : Z).

(** ** The state *)

(** The members of [CCheckQueue] that the mutex protects. *)
Record CCheckQueue : Type := mk_queue {
  queue : list T; nIdle : Z; nTotal : Z; fAllOk : bool; nTodo : Z; fQuit : bool }.

(** Where a thread is in [Loop]: before the first section, in [cond.wait] with or without a
    notification, running its batch ([vChecks], [fOk], [nNow]), or returned. *)
Inductive thread : Type :=
| Begin
| Waiting
| Woken
| Working (vChecks : list T) (fOk : bool) (nNow : Z)
| Returned (fRet : bool).

(** ** [Loop] *)

Definition batch_size (q : CCheckQueue) : Z :=
  Z.max 1 (Z.min nBatchSize (Z.of_nat (length (queue q)) / u32 (nTotal q + nIdle q + 1))).

(** The rest of a section after the clean-up: return, wait, or take a batch from the back. *)
Definition section_rest (fMaster : bool) (q : CCheckQueue) : CCheckQueue * thread :=
  match queue q with
  | [] =>
      if (fMaster || fQuit q) && (nTodo q =? 0)
      then (mk_queue [] (nIdle q) (nTotal q - 1) (if fMaster then true else fAllOk q) (nTodo q) (fQuit q), Returned (fAllOk q))
      else (mk_queue [] (nIdle q + 1) (nTotal q) (fAllOk q) (nTodo q) (fQuit q), Waiting)
  | _ =>
      let nNow := batch_size q in
      let k := (length (queue q) - Z.to_nat nNow)%nat in
      (mk_queue (take k (queue q)) (nIdle q) (nTotal q) (fAllOk q) (nTodo q) (fQuit q),
       Working (rev (drop k (queue q))) (fAllOk q) nNow)
  end.

(** A section: the clean-up of the last batch, or the entry, or the return from [wait]; the
    last component is the notification of the master.  [None]: the thread does not ask for
    the mutex. *)
Definition enter (fMaster : bool) (q : CCheckQueue) (t : thread) : option (CCheckQueue * thread * bool) :=
  match t with
  | Begin => Some (section_rest fMaster (mk_queue (queue q) (nIdle q) (nTotal q + 1) (fAllOk q) (nTodo q) (fQuit q)), false)
  | Woken => Some (section_rest fMaster (mk_queue (queue q) (nIdle q - 1) (nTotal q) (fAllOk q) (nTodo q) (fQuit q)), false)
  | Working [] fOk nNow =>
      let q := mk_queue (queue q) (nIdle q) (nTotal q) (fAllOk q && fOk) (u32 (nTodo q - nNow)) (fQuit q) in
      Some (section_rest fMaster q, (nTodo q =? 0) && negb fMaster)
  | _ => None
  end.

(** One turn of the loop over [vChecks]. *)
Definition run_check (t : thread) : option thread :=
  match t with
  | Working (c :: vChecks) fOk nNow => Some (Working vChecks (if fOk then check c else fOk) nNow)
  | _ => None
  end.

Definition Add (vChecks : list T) (q : CCheckQueue) : CCheckQueue :=
  mk_queue (queue q ++ vChecks) (nIdle q) (nTotal q) (fAllOk q) (u32 (nTodo q + Z.of_nat (length vChecks))) (fQuit q).

Definition IsIdle (q : CCheckQueue) : bool := (nTotal q =? nIdle q) && (nTodo q =? 0) && eqb (fAllOk q) true.

Definition CCheckQueue_new : CCheckQueue := mk_queue [] 0 0 true 0 false.

(** ** Condition variables *)

Definition wake (t : thread) : thread := match t with Waiting => Woken | _ => t end.

(** [notify_one] wakes some waiting thread, if there is one. *)
Inductive notify_one : list thread -> list thread -> Prop :=
| notify_some l1 l2 : notify_one (l1 ++ Waiting :: l2) (l1 ++ Woken :: l2)
| notify_none ws : Waiting ∉ ws -> notify_one ws ws.

Definition notify_all (ws : list thread) : list thread := map wake ws.

(** ** The system *)

(** The master goes through sessions, each a list of batches: it makes a
    [CCheckQueueControl], adds the batches and waits. *)
Inductive master_state : Type :=
| Between (sessions : list (list (list T)))
| Adding (batches : list (list T)) (sessions : list (list (list T)))
| InWait (t : thread) (sessions : list (list (list T)))
| Aborted.

(** [jobs] are the checks added in the current session, [results] the results of the past
    ones; neither is in the program. *)
Record system : Type := mk_system {
  shared : CCheckQueue; master : master_state; workers : list thread; jobs : list T; results : list bool }.

Definition wake_master (b : bool) (m : master_state) : master_state :=
  match m with InWait t s => InWait (if b then wake t else t) s | _ => m end.

Inductive step : system -> system -> Prop :=
| step_control q bs ss ws js rs :
    step (mk_system q (Between (bs :: ss)) ws js rs) (mk_system q (if IsIdle q then Adding bs ss else Aborted) ws [] rs)
| step_add q b bs ss ws ws' js rs :
    match length b with O => ws' = ws | 1%nat => notify_one ws ws' | _ => ws' = notify_all ws end ->
    step (mk_system q (Adding (b :: bs) ss) ws js rs) (mk_system (Add b q) (Adding bs ss) ws' (js ++ b) rs)
| step_wait q ss ws js rs : step (mk_system q (Adding [] ss) ws js rs) (mk_system q (InWait Begin ss) ws js rs)
| step_master_enter q t ss ws js rs q' t' n : enter true q t = Some (q', t', n) ->
    step (mk_system q (InWait t ss) ws js rs) (mk_system q' (InWait t' ss) ws js rs)
| step_master_check q t ss ws js rs t' : run_check t = Some t' ->
    step (mk_system q (InWait t ss) ws js rs) (mk_system q (InWait t' ss) ws js rs)
| step_master_return q r ss ws js rs :
    step (mk_system q (InWait (Returned r) ss) ws js rs) (mk_system q (Between ss) ws js (rs ++ [r]))
| step_worker_enter q m l1 t l2 js rs q' t' n : enter false q t = Some (q', t', n) ->
    step (mk_system q m (l1 ++ t :: l2) js rs) (mk_system q' (wake_master n m) (l1 ++ t' :: l2) js rs)
| step_worker_check q m l1 t l2 js rs t' : run_check t = Some t' ->
    step (mk_system q m (l1 ++ t :: l2) js rs) (mk_system q m (l1 ++ t' :: l2) js rs).

(** A thread may also leave [wait] without a notification. *)
Inductive spurious : system -> system -> Prop :=
| spurious_worker q m l1 l2 js rs : spurious (mk_system q m (l1 ++ Waiting :: l2) js rs) (mk_system q m (l1 ++ Woken :: l2) js rs)
| spurious_master q ss ws js rs : spurious (mk_system q (InWait Waiting ss) ws js rs) (mk_system q (InWait Woken ss) ws js rs).

Definition initial (n : nat) (sessions : list (list (list T))) : system :=
  mk_system CCheckQueue_new (Between sessions) (repeat Begin n) [] [].

Inductive reachable (s0 : system) : system -> Prop :=
| reach_refl : reachable s0 s0
| reach_step s s' : reachable s0 s -> step s s' -> reachable s0 s'
| reach_spurious s s' : reachable s0 s -> spurious s s' -> reachable s0 s'.
End check_queue.

(** ** Counting the threads *)

Section proofs.
Context {T : Type} (check : T -> bool) (nBatchSize : Z).
Abbreviation thread := (@thread T).
Abbreviation system := (@system T).
Abbreviation step := (step check nBatchSize).

(** The checks a thread holds, whether it waits, and whether it has entered. *)
Definition held (t : thread) : Z := match t with Working _ _ n => n | _ => 0 end.
Definition idle (t : thread) : Z := match t with Waiting | Woken => 1 | _ => 0 end.
Definition entered (t : thread) : Z := match t with Begin | Returned _ => 0 | _ => 1 end.
Definition sum (f : thread -> Z) (ws : list thread) : Z := foldr (fun t z => f t + z) 0 ws.

(** What a thread's batch will add to [fAllOk]. *)
Definition verdict (t : thread) : bool := match t with Working l ok _ => ok && forallb check l | _ => true end.
Definition holds_batch (t : thread) : Prop :=
  match t with Working l _ n => 1 <= n /\ Z.of_nat (length l) <= n | _ => True end.
Definition not_returned (t : thread) : Prop := match t with Returned _ => False | _ => True end.

(** The master as one more thread. *)
Definition master_thread (m : @master_state T) : thread := match m with InWait t _ => t | _ => Begin end.
Definition threads (s : system) : list thread := master_thread (master s) :: workers s.

Lemma sum_cons f t ws : sum f (t :: ws) = f t + sum f ws.
Proof using. done. Qed.

Lemma sum_app f l1 l2 : sum f (l1 ++ l2) = sum f l1 + sum f l2.
Proof using. induction l1 as [|t l1 IH]; [done|]. cbn [app]. rewrite !sum_cons, IH. lia. Qed.

Lemma sum_nonneg f ws : Forall (fun t => 0 <= f t) ws -> 0 <= sum f ws.
Proof using. induction 1; rewrite ?sum_cons; [done|lia]. Qed.

Lemma sum_zero f ws : Forall (fun t => 0 <= f t) ws -> sum f ws = 0 -> Forall (fun t => f t = 0) ws.
Proof using.
  induction 1 as [|t ws Ht Hw IH]; [done|]. rewrite sum_cons. intros E. pose proof (sum_nonneg f ws Hw).
  constructor; [lia|]. apply IH. lia.
Qed.

(** Notifications change no count but the weight of those woken. *)
Definition woken_of (t t' : thread) : Prop := t' = t \/ t = Waiting /\ t' = Woken.

Lemma notify_all_woken ws : Forall2 woken_of ws (notify_all ws).
Proof using. unfold notify_all. induction ws as [|t ws IH]; constructor; [|done]. destruct t; (by left) || by right. Qed.

Lemma notify_one_woken ws ws' : notify_one ws ws' -> Forall2 woken_of ws ws'.
Proof using.
  assert (R : forall l, Forall2 woken_of l l) by (intros l; induction l; constructor; [by left|done]).
  intros [l1 l2|]; [|done]. apply Forall2_app; [done|]. constructor; [by right|done].
Qed.

Lemma woken_sum f ws ws' : (forall t t', woken_of t t' -> f t' = f t) -> Forall2 woken_of ws ws' -> sum f ws' = sum f ws.
Proof using. intros Hf. induction 1 as [|t t' ws ws' Ht _ IH]; [done|]. by rewrite !sum_cons, (Hf t t' Ht), IH. Qed.

Lemma woken_counts ws ws' : Forall2 woken_of ws ws' ->
  sum held ws' = sum held ws /\ sum idle ws' = sum idle ws /\ sum entered ws' = sum entered ws /\
  forallb verdict ws' = forallb verdict ws /\ (Forall holds_batch ws -> Forall holds_batch ws') /\
  (Forall not_returned ws -> Forall not_returned ws').
Proof using.
  intros F. split; [|split; [|split]]; try (apply woken_sum; [|done]; by intros t t' [->|[-> ->]]).
  induction F as [|t t' ws ws' Ht _ (IH1 & IH2 & IH3)]; [done|]. cbn [forallb]. rewrite IH1.
  split; [by destruct Ht as [->|[-> ->]]|]. split; intros G; apply Forall_cons in G as [G1 G2]; constructor; eauto;
    destruct Ht as [->|[-> ->]]; done.
Qed.

(** ** The invariant *)

Definition total_jobs (ss : list (list (list T))) : Z := foldr (fun bs z => foldr (fun b z => Z.of_nat (length b) + z) 0 bs + z) 0 ss.
Definition pending (m : @master_state T) : Z :=
  match m with Between ss => total_jobs ss | Adding bs ss => total_jobs (bs :: ss) | InWait _ ss => total_jobs ss | Aborted => 0 end.
Definition clean (m : @master_state T) : Prop := match m with Between _ => True | InWait (Returned _) _ => True | _ => False end.

(** The results that are due. *)
Definition session_result (bs : list (list T)) : bool := forallb check (concat bs).
Definition expected (s : system) : list bool :=
  match master s with
  | Between ss => results s ++ map session_result ss
  | Adding bs ss => results s ++ forallb check (jobs s ++ concat bs) :: map session_result ss
  | InWait (Returned r) ss => results s ++ r :: map session_result ss
  | InWait _ ss => results s ++ forallb check (jobs s) :: map session_result ss
  | Aborted => []
  end.

Record inv (s : system) : Prop := {
  inv_quit : fQuit (shared s) = false;
  inv_todo : nTodo (shared s) = Z.of_nat (length (queue (shared s))) + sum held (threads s);
  inv_idle : nIdle (shared s) = sum idle (threads s);
  inv_total : nTotal (shared s) = sum entered (threads s);
  inv_batch : Forall holds_batch (threads s);
  inv_workers : Forall not_returned (workers s);
  inv_bound : nTodo (shared s) + pending (master s) < 2 ^ 32;
  (** Between sessions nothing is left; in a session, the verdict of the checks added is
      that of the results in, the batches and the queue. *)
  inv_clean : clean (master s) -> queue (shared s) = [] /\ nTodo (shared s) = 0 /\ fAllOk (shared s) = true;
  inv_verdict : ~ clean (master s) ->
    forallb check (jobs s) = fAllOk (shared s) && forallb verdict (threads s) && forallb check (queue (shared s));
  (** The master waits only for the batches of the workers. *)
  inv_master : master_thread (master s) = Waiting -> queue (shared s) = [] /\ nTodo (shared s) <> 0;
  inv_alive : master s <> Aborted }.

Lemma held_working t : holds_batch t -> held t = 0 -> verdict t = true.
Proof using. destruct t; cbn; try done. lia. Qed.

Lemma held_nonneg t : holds_batch t -> 0 <= held t.
Proof using. destruct t; cbn; lia. Qed.

Lemma forallb_rev (l : list T) : forallb check (rev l) = forallb check l.
Proof using. induction l as [|c l IH]; [done|]. cbn [rev forallb]. rewrite forallb_app, IH. cbn [forallb]. by rewrite andb_true_r, andb_comm. Qed.

(** What a critical section does to the counters, whoever runs it. *)
Lemma section_rest_spec fMaster q q' t' : fQuit q = false -> section_rest nBatchSize fMaster q = (q', t') ->
  fQuit q' = false /\ nTodo q' = nTodo q /\ Z.of_nat (length (queue q')) + held t' = Z.of_nat (length (queue q)) /\
  nIdle q' = nIdle q + idle t' /\ nTotal q' = nTotal q - 1 + entered t' /\ holds_batch t' /\
  (fMaster = false -> not_returned t') /\
  (forall r, t' = Returned r -> queue q = [] /\ nTodo q = 0 /\ fAllOk q' = true /\ r = fAllOk q) /\
  (not_returned t' -> fAllOk q && forallb check (queue q) = fAllOk q' && verdict t' && forallb check (queue q')) /\
  (t' = Waiting -> queue q' = [] /\ (fMaster = true -> nTodo q <> 0)).
Proof using.
  intros Hq. unfold section_rest. destruct (queue q) as [|c l] eqn:El.
  - rewrite Hq, orb_false_r. destruct fMaster; cbn [andb]; [destruct (Z.eqb_spec (nTodo q) 0)|]; intros [= <- <-];
      cbn [fQuit nTodo queue nIdle nTotal fAllOk held idle entered holds_batch not_returned verdict length forallb];
      split_and!; try done; try lia; try (intros r [= <-]; done); by rewrite ?andb_true_r.
  - rewrite <- El. set (n := batch_size nBatchSize q). set (k := (length (queue q) - Z.to_nat n)%nat). intros [= <- <-].
    assert (Hn : 1 <= n <= Z.of_nat (length (queue q))).
    { subst n. unfold batch_size. pose proof (u32_range (nTotal q + nIdle q + 1)) as R. unfold in_u32 in R.
      assert (1 <= Z.of_nat (length (queue q))) by (rewrite El; cbn [length]; lia).
      assert (Z.of_nat (length (queue q)) / u32 (nTotal q + nIdle q + 1) <= Z.of_nat (length (queue q))).
      { destruct (decide (u32 (nTotal q + nIdle q + 1) = 0)) as [->|]; [rewrite Z.div_0_r; lia|].
        apply Z.div_le_upper_bound; [lia|nia]. }
      lia. }
    cbn [fQuit nTodo queue nIdle nTotal fAllOk held idle entered holds_batch not_returned verdict].
    rewrite !length_take, ?length_rev, ?length_drop. split_and!; try done; try lia.
    intros _. rewrite <- (take_drop k (queue q)) at 1. rewrite forallb_app, forallb_rev.
    destruct (fAllOk q), (forallb check (take k (queue q))), (forallb check (drop k (queue q))); done.
Qed.

Lemma enter_spec fMaster q t q' t' n : fQuit q = false -> holds_batch t -> held t <= nTodo q < 2 ^ 32 ->
  enter nBatchSize fMaster q t = Some (q', t', n) ->
  fQuit q' = false /\ nTodo q' = nTodo q - held t /\ Z.of_nat (length (queue q')) + held t' = Z.of_nat (length (queue q)) /\
  nIdle q' = nIdle q - idle t + idle t' /\ nTotal q' = nTotal q - entered t + entered t' /\ holds_batch t' /\
  (fMaster = false -> not_returned t') /\
  (forall r, t' = Returned r -> queue q = [] /\ nTodo q' = 0 /\ fAllOk q' = true /\ r = fAllOk q && verdict t) /\
  (not_returned t' -> fAllOk q && verdict t && forallb check (queue q) = fAllOk q' && verdict t' && forallb check (queue q')) /\
  (t' = Waiting -> queue q' = [] /\ (fMaster = true -> nTodo q' <> 0)) /\
  (fMaster = false -> held t <> 0 -> nTodo q' = 0 -> n = true) /\ not_returned t /\ t <> Waiting.
Proof using.
  intros Hq Hb Ht E. unfold enter in E. destruct t as [| | |[|c l] ok m|r]; try done;
    destruct (section_rest nBatchSize fMaster _) as [q2 t2] eqn:S; injection E as -> -> <-;
    apply section_rest_spec in S; try done;
    cbn [queue nIdle nTotal fAllOk nTodo fQuit held idle entered verdict forallb] in *;
    destruct S as (S1 & S2 & S3 & S4 & S5 & S6 & S7 & S8 & S9 & S10);
    rewrite ?andb_true_r in *.
  1,2: split_and!; try done; try lia; try (by rewrite S2); intros r Er; destruct (S8 r Er) as (A & B & C & D); split_and!; try done; lia.
  cbn [holds_batch] in Hb. rewrite u32_small in S2, S8, S10 by (unfold in_u32; lia).
  split_and!; try done; try lia.
  - intros r Er. destruct (S8 r Er) as (A & B & C & D). split_and!; try done; lia.
  - intros Ew. destruct (S10 Ew) as [A B]. split; [done|]. intros Em. specialize (B Em). lia.
  - intros -> _ E0. rewrite u32_small by (unfold in_u32; lia). rewrite <- S2, E0. done.
Qed.

(** ** Every step keeps the invariant *)

Lemma run_check_spec t t' : run_check check t = Some t' -> holds_batch t ->
  held t' = held t /\ idle t' = idle t /\ entered t' = entered t /\ verdict t' = verdict t /\ holds_batch t' /\
  not_returned t' /\ not_returned t /\ t <> Waiting /\ t' <> Waiting.
Proof using.
  destruct t as [| | |[|c l] ok n|]; try done. intros [= <-] [H1 H2]. cbn [held idle entered verdict holds_batch not_returned length forallb] in *.
  split_and!; try done; try lia. by destruct ok, (check c).
Qed.

Lemma sums_nonneg ws : Forall holds_batch ws -> Forall (fun t => 0 <= held t) ws.
Proof using. intros F. eapply Forall_impl; [exact F|]. apply held_nonneg. Qed.

Lemma drained ws : Forall holds_batch ws -> sum held ws = 0 -> forallb verdict ws = true.
Proof using.
  intros F E. pose proof (sum_zero held ws (sums_nonneg ws F) E) as Z. clear E.
  induction F as [|t ws Ht F IH]; [done|]. apply Forall_cons in Z as [Z1 Z2]. cbn [forallb].
  rewrite (held_working t Ht Z1). by apply IH.
Qed.

Lemma total_jobs_nonneg (ss : list (list (list T))) : 0 <= total_jobs ss.
Proof using.
  assert (Pb : forall bs : list (list T), 0 <= foldr (fun b z => Z.of_nat (length b) + z) 0 bs) by (intros bs; induction bs; cbn; lia).
  unfold total_jobs. induction ss as [|bs ss IH]; cbn [foldr]; [lia|]. pose proof (Pb bs). lia.
Qed.

Lemma pending_nonneg (m : @master_state T) : 0 <= pending m.
Proof using. destruct m; cbn [pending]; try apply total_jobs_nonneg. lia. Qed.

(** The master's section. *)
Lemma inv_master_step q t ss ws js rs q' t' n : inv (mk_system q (InWait t ss) ws js rs) ->
  enter nBatchSize true q t = Some (q', t', n) ->
  inv (mk_system q' (InWait t' ss) ws js rs) /\
  expected (mk_system q' (InWait t' ss) ws js rs) = expected (mk_system q (InWait t ss) ws js rs).
Proof using.
  intros [I1 I2 I3 I4 I5 I6 I7 I8 I9 I10 I11] E. unfold threads in *. cbn [shared master workers jobs results master_thread] in *.
  rewrite sum_cons in I2, I3, I4. apply Forall_cons in I5 as [I5 I5'].
  pose proof (sum_nonneg held ws (sums_nonneg ws I5')) as Nn. pose proof (held_nonneg t I5).
  pose proof (pending_nonneg (@InWait T t ss)).
  destruct (enter_spec true q t q' t' n I1 I5 ltac:(lia) E) as (S1 & S2 & S3 & S4 & S5 & S6 & _ & S8 & S9 & S10 & _ & S12 & S13).
  assert (Nc : ~ clean (@InWait T t ss)) by (destruct t; cbn in *; tauto). specialize (I9 Nc). cbn [forallb] in I9.
  assert (V : forall r, t' = Returned r -> r = forallb check js).
  { intros r Er. destruct (S8 r Er) as (A & B & C & D). rewrite D, I9, A. cbn [forallb]. rewrite (drained ws I5').
    - by rewrite !andb_true_r.
    - rewrite A in S3, I2. subst t'. cbn [held length] in *. lia. }
  split.
  - constructor; cbn [shared master workers jobs results master_thread]; unfold threads; cbn [master_thread master workers].
    + done.
    + rewrite sum_cons. lia.
    + rewrite sum_cons. lia.
    + rewrite sum_cons. lia.
    + by constructor.
    + done.
    + cbn [pending] in *. lia.
    + intros Hc. destruct t' as [| | | |r]; try done. destruct (S8 r eq_refl) as (A & B & C & D). split; [|done].
      rewrite A in S3. cbn [held length] in S3. destruct (queue q'); [done|cbn [length] in S3; lia].
    + intros Hc. cbn [forallb]. assert (Nr : not_returned t') by (destruct t'; done). specialize (S9 Nr).
      rewrite I9. revert S9. generalize (forallb verdict ws) as w. clear.
      destruct (fAllOk q), (verdict t), (forallb check (queue q)), (fAllOk q'), (verdict t'), (forallb check (queue q')), w; done.
    + intros Ew. destruct (S10 Ew) as [A B]. split; [done|]. by apply B.
    + done.
  - unfold expected. cbn [master results jobs]. destruct t, t'; try done; by rewrite (V fRet eq_refl).
Qed.

(** A worker's section, from the point of view of the others. *)
Lemma inv_worker_step q m l1 t l2 js rs q' t' n : inv (mk_system q m (l1 ++ t :: l2) js rs) ->
  enter nBatchSize false q t = Some (q', t', n) ->
  inv (mk_system q' (wake_master n m) (l1 ++ t' :: l2) js rs) /\
  expected (mk_system q' (wake_master n m) (l1 ++ t' :: l2) js rs) = expected (mk_system q m (l1 ++ t :: l2) js rs).
Proof using.
  intros [I1 I2 I3 I4 I5 I6 I7 I8 I9 I10 I11] E. unfold threads in *. cbn [shared master workers jobs results] in *.
  rewrite !sum_cons, !sum_app, !sum_cons in I2, I3, I4. apply Forall_cons in I5 as [I5m I5w].
  apply Forall_app in I5w as [F1 F2]. apply Forall_cons in F2 as [Ft F2]. apply Forall_app in I6 as [G1 G2]. apply Forall_cons in G2 as [Gt G2].
  pose proof (sum_nonneg held l1 (sums_nonneg l1 F1)). pose proof (sum_nonneg held l2 (sums_nonneg l2 F2)).
  pose proof (held_nonneg t Ft). pose proof (held_nonneg (master_thread m) I5m).
  pose proof (pending_nonneg m).
  destruct (enter_spec false q t q' t' n I1 Ft ltac:(lia) E) as (S1 & S2 & S3 & S4 & S5 & S6 & S7 & _ & S9 & S10 & S11 & _ & _).
  specialize (S7 eq_refl). specialize (S9 S7).
  assert (Mt : master_thread (wake_master n m) = if n then wake (master_thread m) else master_thread m).
  { destruct m; cbn; try done; by destruct n. }
  assert (Mc : held (master_thread (wake_master n m)) = held (master_thread m) /\ idle (master_thread (wake_master n m)) = idle (master_thread m) /\
    entered (master_thread (wake_master n m)) = entered (master_thread m) /\ verdict (master_thread (wake_master n m)) = verdict (master_thread m) /\
    (holds_batch (master_thread (wake_master n m)))).
  { rewrite Mt. destruct n; [|done]. by destruct (master_thread m). }
  destruct Mc as (M1 & M2 & M3 & M4 & M5).
  assert (Cl : clean (wake_master n m) -> clean m) by (destruct m as [| |[]|]; cbn; destruct n; tauto).
  assert (Pe : pending (wake_master n m) = pending m) by (by destruct m).
  split.
  - constructor; cbn [shared master workers jobs results]; unfold threads; cbn [master workers]; rewrite ?Pe.
    + done.
    + rewrite sum_cons, sum_app, sum_cons, M1. lia.
    + rewrite sum_cons, sum_app, sum_cons, M2. lia.
    + rewrite sum_cons, sum_app, sum_cons, M3. lia.
    + constructor; [done|]. apply Forall_app. split; [done|]. by constructor.
    + apply Forall_app. split; [done|]. by constructor.
    + lia.
    + intros Hc. destruct (I8 (Cl Hc)) as (A & B & C). rewrite A, B in *. cbn [length forallb] in *.
      assert (Hz : held t = 0) by lia. rewrite (held_working t Ft Hz), C in S9. cbn [andb] in S9. symmetry in S9.
      apply andb_true_iff in S9 as [S9 _]. apply andb_true_iff in S9 as [S9 _].
      pose proof (held_nonneg t' S6). split; [destruct (queue q'); [done|cbn [length] in S3; lia]|]. split; [lia|done].
    + intros Hc. assert (Nc : ~ clean m) by (intros X; apply Hc; destruct m as [| |[]|]; cbn in *; destruct n; tauto).
      specialize (I9 Nc). cbn [forallb] in *. rewrite M4, I9, !forallb_app. cbn [forallb]. revert S9.
      generalize (forallb verdict l1) as w1, (forallb verdict l2) as w2, (verdict (master_thread m)) as wm. clear.
      destruct (fAllOk q), (verdict t), (forallb check (queue q)), (fAllOk q'), (verdict t'), (forallb check (queue q')); intros [|] [|] [|]; done.
    + rewrite Mt. intros Ew. destruct n; [by destruct (master_thread m)|]. destruct (I10 Ew) as [A B]. rewrite A in S3. cbn [length] in S3.
      pose proof (held_nonneg t' S6). split; [destruct (queue q'); [done|cbn [length] in S3; lia]|].
      intros E0. assert (X : false = true); [|done]. apply S11; try done. lia.
    + by destruct m.
  - unfold expected. cbn [master results jobs]. destruct m as [| |[]|]; cbn; by destruct n.
Qed.

(** Threads that change place without touching the queue. *)
Lemma inv_threads q m m' ws ws' js rs rs' : inv (mk_system q m ws js rs) ->
  held (master_thread m') + sum held ws' = held (master_thread m) + sum held ws ->
  idle (master_thread m') + sum idle ws' = idle (master_thread m) + sum idle ws ->
  entered (master_thread m') + sum entered ws' = entered (master_thread m) + sum entered ws ->
  verdict (master_thread m') && forallb verdict ws' = verdict (master_thread m) && forallb verdict ws ->
  Forall holds_batch (master_thread m' :: ws') -> Forall not_returned ws' -> pending m' = pending m ->
  (clean m' <-> clean m) -> (master_thread m' = Waiting -> master_thread m = Waiting) -> (m = m' \/ m' <> Aborted) ->
  inv (mk_system q m' ws' js rs').
Proof using.
  intros [I1 I2 I3 I4 I5 I6 I7 I8 I9 I10 I11] H1 H2 H3 H4 H5 H6 H7 H8 H9 H10. unfold threads in *.
  cbn [shared master workers jobs results] in *. rewrite sum_cons in I2, I3, I4.
  constructor; unfold threads; cbn [shared master workers jobs results]; rewrite ?sum_cons; try done; try lia.
  - intros C. apply I8. tauto.
  - intros C. cbn [forallb] in *. rewrite H4. apply I9. tauto.
  - eauto.
  - destruct H10 as [<-|]; done.
Qed.

Ltac same_threads Hi := try done; try exact Hi; try exact (inv_workers _ Hi); try (by left); try (by right); try (by cbn; tauto).

Lemma inv_control q bs ss ws js rs : inv (mk_system q (Between (bs :: ss)) ws js rs) ->
  IsIdle q = true /\ inv (mk_system q (Adding bs ss) ws [] rs).
Proof using.
  intros [I1 I2 I3 I4 I5 I6 I7 I8 I9 I10 I11]. unfold threads in *. cbn [shared master workers jobs results master_thread] in *.
  destruct (I8 I) as (A & B & C). rewrite !sum_cons in *. cbn [held idle entered] in *. rewrite A in I2. cbn [length] in I2.
  apply Forall_cons in I5 as [_ I5]. assert (Z : sum held ws = 0) by lia.
  assert (E : sum entered ws = sum idle ws).
  { pose proof (sum_zero held ws (sums_nonneg ws I5) Z) as Zw. clear -I5 I6 Zw.
    induction I5 as [|t ws Ht F IH]; [done|]. apply Forall_cons in Zw as [Z1 Z2]. apply Forall_cons in I6 as [G1 G2].
    rewrite !sum_cons, IH by done. destruct t; cbn in *; try done; lia. }
  split.
  - unfold IsIdle. rewrite B, C. replace (nTotal q) with (nIdle q) by lia. by rewrite Z.eqb_refl.
  - constructor; unfold threads; cbn [shared master workers jobs results master_thread]; rewrite ?sum_cons; cbn [held idle entered];
      try done; try lia.
    + rewrite A. cbn [length]. lia.
    + by constructor.
    + intros _. rewrite A, C. cbn [forallb]. by rewrite (drained ws I5 Z).
Qed.

Lemma inv_add q b bs ss ws ws' js rs : inv (mk_system q (Adding (b :: bs) ss) ws js rs) -> Forall2 woken_of ws ws' ->
  inv (mk_system (Add b q) (Adding bs ss) ws' (js ++ b) rs).
Proof using.
  intros [I1 I2 I3 I4 I5 I6 I7 I8 I9 I10 I11] F. unfold threads in *. cbn [shared master workers jobs results master_thread] in *.
  destruct (woken_counts ws ws' F) as (W1 & W2 & W3 & W4 & W5 & W6). rewrite !sum_cons in *. cbn [held idle entered] in *.
  apply Forall_cons in I5 as [_ I5]. pose proof (sum_nonneg held ws (sums_nonneg ws I5)).
  pose proof (pending_nonneg (Adding bs ss)) as P. cbn [pending] in *. unfold total_jobs in *. cbn [foldr] in *.
  constructor; unfold threads; cbn [shared master workers jobs results master_thread Add queue nIdle nTotal fAllOk nTodo fQuit pending];
    unfold total_jobs; cbn [foldr]; rewrite ?sum_cons; cbn [held idle entered]; try done; try lia.
  - rewrite u32_small by (unfold in_u32; lia). rewrite length_app, W1. lia.
  - constructor; [done|]. by apply W5.
  - by apply W6.
  - rewrite u32_small by (unfold in_u32; lia). lia.
  - intros _. specialize (I9 (fun x => x)). rewrite !forallb_app. cbn [forallb] in *. rewrite W4, I9. by rewrite !andb_assoc.
Qed.

Lemma step_inv s s' : inv s -> step s s' -> inv s' /\ expected s' = expected s.
Proof using.
  intros Hi St. destruct St as [q bs ss ws js rs|q b bs ss ws ws' js rs Hn|q ss ws js rs|q t ss ws js rs q' t' n E|q t ss ws js rs t' E|
    q r ss ws js rs|q m l1 t l2 js rs q' t' n E|q m l1 t l2 js rs t' E].
  - destruct (inv_control q bs ss ws js rs Hi) as [-> Hi']. by split.
  - assert (F : Forall2 woken_of ws ws').
    { destruct (length b) as [|[|k]]; [subst; clear; induction ws; constructor; [by left|done]|by apply notify_one_woken|
        subst; apply notify_all_woken]. }
    split; [by apply (inv_add q b bs ss ws)|]. unfold expected. cbn [master results jobs concat]. by rewrite app_assoc.
  - split; [|unfold expected; cbn [master results jobs concat]; by rewrite app_nil_r].
    apply (inv_threads q (Adding [] ss) _ ws _ js rs); same_threads Hi. apply (inv_batch _ Hi).
  - by apply inv_master_step with (n := n).
  - destruct (run_check_spec t t' E) as (R1 & R2 & R3 & R4 & R5 & R6 & R7 & R8 & R9); [by destruct Hi as [_ _ _ _ F%Forall_cons _ _ _ _ _ _]; destruct F|].
    split; [|unfold expected; cbn [master results jobs]; by destruct t, t'].
    apply (inv_threads q (InWait t ss) _ ws _ js rs); same_threads Hi; cbn [master_thread]; try congruence.
    + constructor; [done|]. pose proof (inv_batch _ Hi) as F. by apply Forall_cons in F as [_ F].
    + by destruct t, t'.
  - split; [|unfold expected; cbn [master results jobs]; by rewrite <- app_assoc].
    apply (inv_threads q (InWait (Returned r) ss) _ ws _ js rs); same_threads Hi.
    constructor; [done|]. pose proof (inv_batch _ Hi) as F. by apply Forall_cons in F as [_ F].
  - by apply inv_worker_step with (n := n).
  - pose proof (inv_batch _ Hi) as F. pose proof (inv_workers _ Hi) as G. cbn [threads master workers] in F, G.
    apply Forall_cons in F as [Fm F]. apply Forall_app in F as [F1 F2]. apply Forall_cons in F2 as [Ft F2].
    apply Forall_app in G as [G1 G2]. apply Forall_cons in G2 as [Gt G2].
    destruct (run_check_spec t t' E Ft) as (R1 & R2 & R3 & R4 & R5 & R6 & _). split; [|done].
    apply (inv_threads q m m (l1 ++ t :: l2) _ js rs); rewrite ?sum_app, ?sum_cons, ?forallb_app; cbn [forallb]; same_threads Hi; try congruence.
    + constructor; [done|]. apply Forall_app. split; [done|]. by constructor.
    + apply Forall_app. split; [done|]. by constructor.
Qed.

Lemma spurious_inv s s' : inv s -> spurious s s' -> inv s' /\ expected s' = expected s.
Proof using.
  intros Hi St. destruct St as [q m l1 l2 js rs|q ss ws js rs]; (split; [|done]).
  - pose proof (inv_batch _ Hi) as F. pose proof (inv_workers _ Hi) as G. cbn [threads master workers] in F, G.
    apply Forall_cons in F as [Fm F]. apply Forall_app in F as [F1 F2]. apply Forall_cons in F2 as [Ft F2].
    apply Forall_app in G as [G1 G2]. apply Forall_cons in G2 as [Gt G2].
    apply (inv_threads q m m (l1 ++ Waiting :: l2) _ js rs); rewrite ?sum_app, ?sum_cons, ?forallb_app; cbn [forallb]; same_threads Hi.
    + constructor; [done|]. apply Forall_app. split; [done|]. by constructor.
    + apply Forall_app. split; [done|]. by constructor.
  - apply (inv_threads q (InWait Waiting ss) _ ws _ js rs); same_threads Hi.
    constructor; [done|]. pose proof (inv_batch _ Hi) as F. by apply Forall_cons in F as [_ F].
Qed.

Lemma initial_inv n sessions : total_jobs sessions < 2 ^ 32 -> inv (initial n sessions).
Proof using.
  intros Hb. assert (Sum : forall f, f Begin = 0 -> sum f (repeat Begin n) = 0).
  { intros f Hf. induction n as [|k IH]; [done|]. cbn [repeat]. rewrite sum_cons, IH. lia. }
  assert (All : forall P : thread -> Prop, P Begin -> Forall P (repeat Begin n)).
  { clear Sum Hb. intros P HP. induction n; [constructor|]. by constructor. }
  constructor; unfold threads; cbn [initial shared master workers jobs results master_thread CCheckQueue_new queue nIdle nTotal fAllOk nTodo fQuit];
    rewrite ?sum_cons, ?Sum by done; try done.
  - constructor; [done|]. by apply All.
  - by apply All.
Qed.

Lemma reachable_inv n sessions s : total_jobs sessions < 2 ^ 32 -> reachable check nBatchSize (initial n sessions) s ->
  inv s /\ expected s = map session_result sessions.
Proof using.
  intros Hb. induction 1 as [|s s' _ [IH E] St|s s' _ [IH E] St].
  - split; [by apply initial_inv|done].
  - destruct (step_inv s s' IH St) as [I' E']. split; [done|congruence].
  - destruct (spurious_inv s s' IH St) as [I' E']. split; [done|congruence].
Qed.

(** ** Progress *)

(** A weight that every step lowers: what is left to add, to take and to run, and the
    sections still due. *)
Definition weight (t : thread) : nat :=
  match t with Begin | Woken => 1 | Waiting | Returned _ => 0 | Working l _ _ => 3 + length l end.
Definition batches_weight (n : nat) (bs : list (list T)) : nat := foldr (fun b k => (1 + 6 * length b + n + k)%nat) O bs.
Definition sessions_weight (n : nat) (ss : list (list (list T))) : nat := foldr (fun bs k => (4 + batches_weight n bs + k)%nat) O ss.
Definition master_weight (n : nat) (m : @master_state T) : nat :=
  match m with
  | Between ss => sessions_weight n ss
  | Adding bs ss => 3 + batches_weight n bs + sessions_weight n ss
  | InWait t ss => 1 + weight t + sessions_weight n ss
  | Aborted => 0
  end.
Definition workers_weight (ws : list thread) : nat := foldr (fun t k => (weight t + k)%nat) O ws.
Definition measure (s : system) : nat :=
  (6 * length (queue (shared s)) + workers_weight (workers s) + master_weight (length (workers s)) (master s))%nat.

Lemma workers_weight_app l1 t l2 : workers_weight (l1 ++ t :: l2) = (workers_weight l1 + weight t + workers_weight l2)%nat.
Proof using. unfold workers_weight. induction l1 as [|x l1 IH]; [done|]. cbn [foldr app]. rewrite IH. lia. Qed.

Lemma woken_weight ws ws' : Forall2 woken_of ws ws' -> length ws' = length ws /\ (workers_weight ws' <= workers_weight ws + length ws)%nat.
Proof using.
  unfold workers_weight. induction 1 as [|t t' ws ws' Ht _ [IH1 IH2]]; [by split|]. cbn [foldr length].
  split; [lia|]. destruct Ht as [->|[-> ->]]; cbn [weight]; lia.
Qed.

Lemma section_rest_weight fMaster q q' t' : section_rest nBatchSize fMaster q = (q', t') ->
  (6 * length (queue q') + weight t' <= 6 * length (queue q))%nat \/ queue q <> [] /\ (6 * length (queue q') + weight t' + 2 <= 6 * length (queue q))%nat.
Proof using.
  unfold section_rest. destruct (queue q) as [|c l] eqn:El.
  - left. destruct (_ && _); injection H as <- <-; cbn; lia.
  - right. injection H as <- <-. split; [done|]. cbn [queue weight]. rewrite length_rev, length_take, length_drop, <- El.
    assert (1 <= batch_size nBatchSize q) by (unfold batch_size; lia).
    assert (length (queue q) = S (length l)) by (by rewrite El). cbn [length]. lia.
Qed.

Lemma enter_weight fMaster q t q' t' n : enter nBatchSize fMaster q t = Some (q', t', n) ->
  (6 * length (queue q') + weight t' + (if n then 1 else 0) < 6 * length (queue q) + weight t)%nat.
Proof using.
  unfold enter. destruct t as [| | |[|c l] ok m|r]; try done;
    destruct (section_rest nBatchSize fMaster _) as [q2 t2] eqn:S; intros [= <- <- <-];
    apply section_rest_weight in S; cbn [queue weight length] in *; destruct (_ && _) || idtac; lia.
Qed.

Lemma run_check_weight t t' : run_check check t = Some t' -> (weight t' < weight t)%nat.
Proof using. destruct t as [| | |[|c l] ok m|r]; try done. intros [= <-]. cbn. lia. Qed.

Ltac weigh := cbn [master_weight]; unfold sessions_weight, batches_weight; cbn [foldr weight length]; lia.

Lemma step_decreases s s' : inv s -> step s s' -> (measure s' < measure s)%nat.
Proof using.
  intros Hi St. destruct St as [q bs ss ws js rs|q b bs ss ws ws' js rs Hn|q ss ws js rs|q t ss ws js rs q' t' n E|q t ss ws js rs t' E|
    q r ss ws js rs|q m l1 t l2 js rs q' t' n E|q m l1 t l2 js rs t' E]; unfold measure; cbn [shared workers master].
  - destruct (inv_control q bs ss ws js rs Hi) as [-> _]. weigh.
  - assert (F : Forall2 woken_of ws ws').
    { destruct (length b) as [|[|k]]; [subst; clear; induction ws; constructor; [by left|done]|by apply notify_one_woken|
        subst; apply notify_all_woken]. }
    destruct (woken_weight ws ws' F) as [-> W]. cbn [Add queue]. rewrite length_app. weigh.
  - weigh.
  - apply enter_weight in E. weigh.
  - apply run_check_weight in E. weigh.
  - weigh.
  - apply enter_weight in E. rewrite !workers_weight_app, !length_app. cbn [length].
    assert (W : (master_weight (length l1 + S (length l2)) (wake_master n m) <= master_weight (length l1 + S (length l2)) m + (if n then 1 else 0))%nat).
    { destruct m as [| |t0|]; cbn [wake_master master_weight]; try lia. destruct n; [|lia]. destruct t0; cbn; lia. }
    lia.
  - apply run_check_weight in E. rewrite !workers_weight_app, !length_app. cbn [length]. lia.
Qed.

Lemma enter_enabled fMaster q t : t <> Waiting -> (forall r, t <> Returned r) -> run_check check t = None ->
  exists r, enter nBatchSize fMaster q t = Some r.
Proof using. destruct t as [| | |[|c l] ok n|r]; intros A B C; try done; [by eexists|by eexists|by eexists|by destruct (B r)]. Qed.

Lemma some_working ws : Forall holds_batch ws -> sum held ws <> 0 -> exists l1 t l2, ws = l1 ++ t :: l2 /\ held t <> 0.
Proof using.
  induction 1 as [|t ws Ht F IH]; [done|]. rewrite sum_cons. intros N. destruct (decide (held t = 0)) as [E|E].
  - destruct IH as (l1 & x & l2 & -> & Hx); [lia|]. by exists (t :: l1), x, l2.
  - by exists [], t, ws.
Qed.

(** Nobody waits for ever: while there are sessions left, some thread can move. *)
Lemma no_deadlock s : inv s -> master s = Between [] \/ exists s', step s s'.
Proof using.
  intros Hi. destruct s as [q m ws js rs]. destruct m as [[|bs ss]|[|b bs] ss|t ss|]; [by left|right..].
  - eexists. by constructor.
  - eexists. by constructor.
  - assert (W : exists ws', match length b with O => ws' = ws | 1%nat => notify_one ws ws' | _ => ws' = notify_all ws end).
    { destruct (length b) as [|[|k]]; [by eexists| |by eexists]. assert (D : Waiting ∈ ws \/ Waiting ∉ ws).
      { clear. induction ws as [|x ws IH]; [right; apply not_elem_of_nil|]. destruct x; try (left; by left);
          (destruct IH as [IH|IH]; [left; by right|right; intros X; apply elem_of_cons in X as [|]; done]). }
      destruct D as [D|D]; [|exists ws; by constructor]. apply list_elem_of_split in D as (l1 & l2 & ->). eexists. constructor. }
    destruct W as [ws' W]. eexists. by constructor.
  - destruct (run_check check t) as [t'|] eqn:R; [eexists; by apply step_master_check|].
    assert (D : t = Waiting \/ t <> Waiting) by (destruct t; (by left) || by right). destruct D as [->|Nw].
    + destruct (inv_master _ Hi eq_refl) as [Eq Nt]. pose proof (inv_todo _ Hi) as Et. pose proof (inv_batch _ Hi) as F.
      unfold threads in Et, F. cbn [shared master workers master_thread] in *. rewrite Eq, sum_cons in Et. cbn [length held] in Et.
      apply Forall_cons in F as [_ F]. destruct (some_working ws F) as (l1 & x & l2 & -> & Hx); [lia|].
      destruct (run_check check x) as [x'|] eqn:Rx; [eexists; by apply step_worker_check|].
      destruct (enter_enabled false q x) as [[[q' x'] n] E]; [by intros ->|by intros r ->|done|]. eexists. by apply step_worker_enter with (n := n) (q' := q') (t' := x').
    + assert (D : (exists r, t = Returned r) \/ forall r, t <> Returned r) by (destruct t; (by right) || (left; by eexists)).
      destruct D as [[r ->]|Nr]; [eexists; by apply step_master_return|].
      destruct (enter_enabled true q t Nw Nr R) as [[[q' t'] n] E]. eexists. by apply step_master_enter with (n := n) (q' := q') (t' := t').
  - by destruct (inv_alive _ Hi).
Qed.

(** Any number of steps. *)
Inductive runs : nat -> system -> system -> Prop :=
| runs_O s : runs 0 s s
| runs_S k s s' s'' : step s s' -> runs k s' s'' -> runs (S k) s s''.

(** C26: whatever the interleaving of the threads and the notifications, spurious ones
    included, the sessions of checks end with the right results.  In every reachable state
    the results so far and those still due are, session by session, whether all its checks
    hold; a new session always finds the queue idle; there is a step to make until the
    master has finished, and without spurious wake-ups at most [measure s] of them. *)
Theorem check_queue_live (n : nat) (sessions : list (list (list T))) (s : system)
    (Hbound : total_jobs sessions < 2 ^ 32) (Hreach : reachable check nBatchSize (initial n sessions) s) :
  master s <> Aborted /\
  (exists due, map (fun bs => forallb check (concat bs)) sessions = results s ++ due /\ (master s = Between [] -> due = [])) /\
  (master s = Between [] \/ exists s', step s s') /\
  (forall k s', runs k s s' -> (k <= measure s)%nat).
Proof using.
  destruct (reachable_inv n sessions s Hbound Hreach) as [Hi E]. split; [apply Hi|]. split; [|split; [by apply no_deadlock|]].
  - pose proof (inv_alive s Hi) as Al. unfold expected in E. change (fun bs => forallb check (concat bs)) with session_result. rewrite <- E.
    destruct (master s) as [[|bs ss]|bs ss|[] ss|]; try done; eexists; (split; [reflexivity|]); done.
  - intros k s' R. clear -Hi R. induction R as [s|k s s' s'' St R IH]; [lia|].
    destruct (step_inv s s' Hi St) as [Hi' _]. pose proof (step_decreases s s' Hi St). specialize (IH Hi'). lia.
Qed.
End proofs.

Lemma check_queue_live_witness :
  let s := initial 1 [[[1; 2]; [3]]] in
  master s <> Aborted /\ forall k s', runs (Z.ltb 1) 128 k s s' -> (k <= 27)%nat.
Proof.
  intros s. destruct (check_queue_live (Z.ltb 1) 128 1 [[[1; 2]; [3]]] s) as (A & _ & _ & B); [cbn; lia|apply reach_refl|].
  split; [exact A|]. intros k s' R. exact (B k s' R).
Defined.
