(* ===== verification/Merkle.v ===== *)
(** * Merkle trees ([primitives/block.cpp])

    The tree over the transaction hashes of a block and its branches. *)

From Stdlib Require Import ZArith Lia List Bool.
From stdpp Require Import base option list.
From coqutil Require Import Byte Word.LittleEndianList.
From S2P Require Import Prelude Uint256 Serialize MerkleDamgard Hash Script Tx.

Open Scope Z_scope.
Open Scope btc_scope.

(** [Hash(BEGIN(left), END(left), BEGIN(right), END(right))] *)
Definition hash2 (left right : uint256) : uint256 := Hash [uint_bytes left; uint_bytes right].

(** ** [CBlock::BuildMerkleTree] *)

(** [for (i = 0; i < nSize; i += 2)]: [vMerkleTree] is [v]; [None] is an index outside it. *)
Fixpoint BuildMerkleTree_level (fuel j nSize i : nat) (v : list uint256) (mutated : bool) : option (list uint256 * bool) :=
  if (i <? nSize)%nat then
    match fuel with
    | O => None
    | S fuel =>
        let i2 := Nat.min (i + 1) (nSize - 1) in
        a ← v !! (j + i)%nat;
        b ← v !! (j + i2)%nat;
        let mutated := if (i2 =? i + 1)%nat && (i2 + 1 =? nSize)%nat && bool_decide (a = b) then true else mutated in
        BuildMerkleTree_level fuel j nSize (i + 2) (v ++ [hash2 a b]) mutated
    end
  else Some (v, mutated).

(** [for (nSize = vtx.size(); nSize > 1; nSize = (nSize + 1) / 2)] *)
Fixpoint BuildMerkleTree_loop (fuel j nSize : nat) (v : list uint256) (mutated : bool) : option (list uint256 * bool) :=
  if (1 <? nSize)%nat then
    match fuel with
    | O => None
    | S fuel =>
        '(v, mutated) ← BuildMerkleTree_level nSize j nSize 0 v mutated;
        BuildMerkleTree_loop fuel (j + nSize) ((nSize + 1) / 2) v mutated
    end
  else Some (v, mutated).

(** The tree, the flag and the root. *)
Definition BuildMerkleTree (txids : list uint256) : option (list uint256 * bool * uint256) :=
  '(v, mutated) ← BuildMerkleTree_loop (length txids) 0 (length txids) txids false;
  Some (v, mutated, default (base_uint_zero 8) (last v)).

(** ** Branches *)

Fixpoint GetMerkleBranch_loop (fuel j nSize nIndex : nat) (v : list uint256) : option (list uint256) :=
  if (1 <? nSize)%nat then
    match fuel with
    | O => None
    | S fuel =>
        let i := Nat.min (Nat.lxor nIndex 1) (nSize - 1) in
        h ← v !! (j + i)%nat;
        rest ← GetMerkleBranch_loop fuel (j + nSize) ((nSize + 1) / 2) (Nat.div2 nIndex) v;
        Some (h :: rest)
    end
  else Some [].

(** [vMerkleTree] is built when it is empty. *)
Definition GetMerkleBranch (txids vMerkleTree : list uint256) (nIndex : nat) : option (list uint256) :=
  v ← (match vMerkleTree with [] => '(v, _, _) ← BuildMerkleTree txids; Some v | _ => Some vMerkleTree end);
  GetMerkleBranch_loop (length txids) 0 (length txids) nIndex v.

Fixpoint CheckMerkleBranch_loop (hash : uint256) (vMerkleBranch : list uint256) (nIndex : Z) : uint256 :=
  match vMerkleBranch with
  | [] => hash
  | h :: rest =>
      CheckMerkleBranch_loop (if negb (Z.land nIndex 1 =? 0) then hash2 h hash else hash2 hash h) rest (Z.shiftr nIndex 1)
  end.
Definition CheckMerkleBranch (hash : uint256) (vMerkleBranch : list uint256) (nIndex : Z) : uint256 :=
  if nIndex =? -1 then base_uint_zero 8 else CheckMerkleBranch_loop hash vMerkleBranch nIndex.

(** ** The reference: levels of hashes *)

Lemma hash2_concat a b : hash2 a b = Hash [uint_bytes a ++ uint_bytes b].
Proof. apply Hash_concat. cbn [concat]. by rewrite !app_nil_r. Qed.

Lemma hash2_wf a b : wf 8 (hash2 a b).
Proof. apply Hash_wf. Qed.

#[local] Opaque hash2.

(** One level up: pairs are hashed, an odd last one with itself. *)
Fixpoint pairs (l : list uint256) : list uint256 :=
  match l with
  | a :: b :: l => hash2 a b :: pairs l
  | [a] => [hash2 a a]
  | [] => []
  end.

Fixpoint levels (fuel : nat) (l : list uint256) : list (list uint256) :=
  match fuel, l with
  | S fuel, _ :: _ :: _ => l :: levels fuel (pairs l)
  | _, _ => [l]
  end.

(** The level at a height, and the root. *)
Definition level_at (h : nat) (l : list uint256) : list uint256 := Nat.iter h pairs l.
Definition merkle_root (l : list uint256) : uint256 :=
  default (base_uint_zero 8) (last (default [] (last (levels (length l) l)))).

(** Two equal hashes at the end of a level of even length. *)
Fixpoint dup_end (l : list uint256) : bool :=
  match l with
  | [a; b] => bool_decide (a = b)
  | _ :: _ :: l => dup_end l
  | _ => false
  end.
Definition mutated_levels (ls : list (list uint256)) : bool := existsb dup_end (removelast ls).

(** Induction two by two. *)
Lemma pair_ind {A} (P : list A -> Prop) : P [] -> (forall a, P [a]) -> (forall a b l, P l -> P (a :: b :: l)) -> forall l, P l.
Proof.
  intros H0 H1 H2. assert (G : forall l, P l /\ forall a, P (a :: l)).
  { induction l as [|b l [IH1 IH2]]; split; auto. }
  intros l. apply G.
Qed.

Lemma pairs_length l : length (pairs l) = ((length l + 1) / 2)%nat.
Proof.
  induction l as [|a|a b l IH] using pair_ind; [done|done|]. cbn [pairs length]. rewrite IH.
  replace (S (S (length l)) + 1)%nat with (length l + 1 + 1 * 2)%nat by lia. rewrite Nat.div_add by lia. lia.
Qed.

Lemma half_lt n : (2 <= n)%nat -> ((n + 1) / 2 < n)%nat /\ (1 <= (n + 1) / 2)%nat.
Proof. intros Hn. split; [apply Nat.Div0.div_lt_upper_bound; lia|apply Nat.div_le_lower_bound; lia]. Qed.

(** A hash one level up, from its place. *)
Lemma pairs_lookup l k a : l !! (2 * k)%nat = Some a -> pairs l !! k = Some (hash2 a (default a (l !! (2 * k + 1)%nat))).
Proof.
  revert k. induction l as [|x|x y l IH] using pair_ind; intros k; [done| |].
  - destruct k as [|k]; [by intros [= ->]|]. by replace (2 * S k)%nat with (S (S (2 * k))) by lia.
  - destruct k as [|k]; [by intros [= ->]|]. cbn [pairs].
    replace (2 * S k)%nat with (S (S (2 * k))) by lia. replace (S (S (2 * k)) + 1)%nat with (S (S (2 * k + 1))) by lia. apply IH.
Qed.

Lemma pairs_wf l : Forall (wf 8) (pairs l).
Proof. induction l as [|a|a b l IH] using pair_ind; constructor; try done; apply hash2_wf. Qed.

Lemma levels_S fuel l : (2 <= length l)%nat -> levels (S fuel) l = l :: levels fuel (pairs l).
Proof. destruct l as [|a [|b l]]; cbn [length]; [lia|lia|done]. Qed.

Lemma levels_short fuel l : (length l <= 1)%nat -> levels fuel l = [l].
Proof. destruct l as [|a [|b l]], fuel; cbn [length]; try done; lia. Qed.

Lemma levels_head fuel l : exists ls, levels fuel l = l :: ls.
Proof. destruct fuel, l as [|a [|b l]]; by eexists. Qed.

(** ** [BuildMerkleTree] computes the levels *)

Lemma BuildMerkleTree_level_spec l pre : forall s fuel p d m, l = p ++ s -> (exists k, length p = (2 * k)%nat) -> (length s <= fuel)%nat ->
  BuildMerkleTree_level fuel (length pre) (length l) (length p) (pre ++ l ++ d) m =
  Some (pre ++ l ++ d ++ pairs s, m || dup_end s).
Proof.
  induction s as [|a|a b s IH] using pair_ind; intros fuel p d m El [k Hk] Hf.
  - rewrite app_nil_r in El. subst p. destruct fuel; cbn [BuildMerkleTree_level]; rewrite Nat.ltb_irrefl; cbn [pairs dup_end];
      by rewrite app_nil_r, orb_false_r.
  - destruct fuel as [|fuel]; [cbn in Hf; lia|]. cbn [BuildMerkleTree_level].
    assert (Ll : length l = S (length p)) by (rewrite El, length_app; cbn; lia). rewrite Ll.
    replace (length p <? S (length p))%nat with true by (symmetry; apply Nat.ltb_lt; lia).
    replace (Nat.min (length p + 1) (S (length p) - 1)) with (length p) by lia.
    assert (E : (pre ++ l ++ d) !! (length pre + length p)%nat = Some a).
    { rewrite lookup_app_r by lia. replace (length pre + length p - length pre)%nat with (length p) by lia.
      rewrite El, <- app_assoc. cbn [app]. by rewrite list_lookup_middle. }
    rewrite E. cbn [mbind option_bind]. replace (length p =? length p + 1)%nat with false by (symmetry; apply Nat.eqb_neq; lia). cbn [andb].
    destruct fuel; cbn [BuildMerkleTree_level]; (replace (length p + 2 <? S (length p))%nat with false by (symmetry; apply Nat.ltb_ge; lia));
      rewrite <- !app_assoc; cbn [pairs dup_end]; by rewrite orb_false_r.
  - destruct fuel as [|fuel]; [cbn in Hf; lia|]. cbn [BuildMerkleTree_level].
    assert (Ll : length l = (length p + 2 + length s)%nat) by (rewrite El, length_app; cbn; lia).
    replace (length p <? length l)%nat with true by (symmetry; apply Nat.ltb_lt; lia).
    replace (Nat.min (length p + 1) (length l - 1)) with (length p + 1)%nat by lia.
    assert (E : (pre ++ l ++ d) !! (length pre + length p)%nat = Some a /\ (pre ++ l ++ d) !! (length pre + (length p + 1))%nat = Some b).
    { assert (X : forall i, (p ++ a :: b :: s ++ d) !! (length p + i)%nat = (a :: b :: s ++ d) !! i).
      { intros i. rewrite lookup_app_r by lia. f_equal. lia. }
      rewrite El, <- app_assoc. cbn [app]. rewrite !(lookup_app_r pre) by lia. split.
      - rewrite <- (Nat.add_0_r (length p)). replace (length pre + (length p + 0) - length pre)%nat with (length p + 0)%nat by lia. apply X.
      - etrans; [|exact (X 1%nat)]. f_equal. lia. }
    destruct E as [-> ->]. cbn [mbind option_bind]. rewrite Nat.eqb_refl. cbn [andb].
    replace (length p + 2)%nat with (length (p ++ [a; b])) by (rewrite length_app; cbn; lia).
    rewrite <- !app_assoc. rewrite (IH fuel (p ++ [a; b])); [|by rewrite <- app_assoc|exists (S k); rewrite length_app; cbn; lia|cbn in Hf; lia].
    rewrite <- app_assoc. cbn [pairs app]. do 2 f_equal. cbn [dup_end].
    destruct (Nat.eqb_spec (length p + 1 + 1) (length l)) as [Q|Q]; cbn [andb].
    + destruct s; [|cbn in Ll; lia]. cbn [dup_end]. case_bool_decide; by destruct m.
    + by destruct s as [|x s]; [cbn in Ll; lia|].
Qed.

Lemma BuildMerkleTree_loop_spec fuel : forall l pre m, (length l <= fuel)%nat ->
  BuildMerkleTree_loop fuel (length pre) (length l) (pre ++ l) m =
  Some (pre ++ concat (levels fuel l), m || mutated_levels (levels fuel l)).
Proof.
  induction fuel as [|fuel IH]; intros l pre m Hf; cbn [BuildMerkleTree_loop].
  - destruct l; [|cbn in Hf; lia]. cbn. by rewrite orb_false_r.
  - destruct (Nat.ltb_spec 1 (length l)) as [L|L].
    + pose proof (BuildMerkleTree_level_spec l pre l (length l) [] [] m eq_refl ltac:(by exists 0%nat) (le_n _)) as B.
      cbn [app length] in B. rewrite app_nil_r in B. rewrite B. cbn [mbind option_bind].
      rewrite <- length_app, app_assoc, <- pairs_length. destruct (half_lt (length l)) as [H1 H2]; [lia|].
      rewrite IH by (rewrite pairs_length; lia). rewrite levels_S by lia. unfold mutated_levels. cbn [concat].
      destruct (levels_head fuel (pairs l)) as [ls El]. rewrite El. cbn [removelast existsb]. by rewrite <- app_assoc, orb_assoc.
    + rewrite levels_short by done. cbn. by rewrite app_nil_r, orb_false_r.
Qed.

Lemma levels_last_length fuel l : (length l <= fuel)%nat -> l <> [] -> exists r, last (levels fuel l) = Some [r].
Proof.
  revert l. induction fuel as [|fuel IH]; intros l Hf Hn; [destruct l; [done|cbn in Hf; lia]|].
  destruct (decide (2 <= length l)%nat) as [L|L].
  - rewrite levels_S by done. destruct (half_lt (length l) L) as [H1 H2].
    destruct (IH (pairs l)) as [r Er]; [rewrite pairs_length; lia|intros E; rewrite <- pairs_length, E in H2; cbn in H2; lia|].
    exists r. destruct (levels_head fuel (pairs l)) as [ls El]. rewrite El in *. by rewrite last_cons_cons.
  - rewrite levels_short by lia. destruct l as [|a [|b l]]; [done|by exists a|cbn in L; lia].
Qed.

Lemma last_concat {A} (ls : list (list A)) r : last ls = Some [r] -> last (concat ls) = Some r.
Proof.
  intros E. apply last_Some in E as [l' ->]. rewrite concat_app. cbn. by rewrite last_snoc.
Qed.

Lemma BuildMerkleTree_spec l :
  BuildMerkleTree l = Some (concat (levels (length l) l), mutated_levels (levels (length l) l), merkle_root l).
Proof.
  unfold BuildMerkleTree. pose proof (BuildMerkleTree_loop_spec (length l) l [] false (le_n _)) as E. cbn [app length orb] in E.
  rewrite E. cbn [mbind option_bind].
  do 2 f_equal. unfold merkle_root. destruct (decide (l = [])) as [->|N]; [done|].
  destruct (levels_last_length (length l) l (le_n _) N) as [r Er]. by rewrite (last_concat _ r), Er.
Qed.

(** ** Branches *)

Definition root_of (ls : list (list uint256)) : uint256 := default (base_uint_zero 8) (last (default [] (last ls))).

Lemma root_of_cons l ls : ls <> [] -> root_of (l :: ls) = root_of ls.
Proof. intros N. unfold root_of. destruct ls as [|x ls]; [done|]. by rewrite last_cons_cons. Qed.

Lemma lxor_1 m : Nat.lxor (2 * m) 1 = (2 * m + 1)%nat /\ Nat.lxor (2 * m + 1) 1 = (2 * m)%nat.
Proof.
  split; apply Nat.bits_inj; intros i; rewrite Nat.lxor_spec; destruct i as [|i];
    rewrite ?Nat.testbit_even_0, ?Nat.testbit_odd_0, ?Nat.testbit_even_succ, ?Nat.testbit_odd_succ by lia; try done;
    change 1%nat with (2 * 0 + 1)%nat; rewrite ?Nat.testbit_odd_0, ?Nat.testbit_odd_succ by lia; rewrite ?Nat.bits_0; by rewrite ?xorb_false_r.
Qed.

Lemma even_or_odd k : exists m, k = (2 * m)%nat \/ k = (2 * m + 1)%nat.
Proof. exists (Nat.div2 k). pose proof (Nat.div2_odd k). destruct (Nat.odd k); cbn [Nat.b2n] in *; lia. Qed.

Lemma index_low k : Z.land (Z.of_nat k) 1 = Z.of_nat k mod 2 /\ Z.shiftr (Z.of_nat k) 1 = Z.of_nat k / 2.
Proof. split; [exact (land_ones_mod (Z.of_nat k) 1 ltac:(lia))|by rewrite Z.shiftr_div_pow2 by lia]. Qed.

Lemma index_even m : negb (Z.land (Z.of_nat (2 * m)) 1 =? 0) = false /\ Z.shiftr (Z.of_nat (2 * m)) 1 = Z.of_nat m /\ Nat.div2 (2 * m) = m.
Proof.
  destruct (index_low (2 * m)) as [-> ->]. split; [|split; [Z.div_mod_to_equations; lia|apply Nat.div2_double]].
  replace (Z.of_nat (2 * m) mod 2) with 0; [done|]. Z.div_mod_to_equations. lia.
Qed.

Lemma index_odd m : negb (Z.land (Z.of_nat (2 * m + 1)) 1 =? 0) = true /\ Z.shiftr (Z.of_nat (2 * m + 1)) 1 = Z.of_nat m /\ Nat.div2 (2 * m + 1) = m.
Proof.
  destruct (index_low (2 * m + 1)) as [-> ->]. split; [|split; [Z.div_mod_to_equations; lia|rewrite Nat.add_1_r; apply Nat.div2_succ_double]].
  replace (Z.of_nat (2 * m + 1) mod 2) with 1; [done|]. Z.div_mod_to_equations. lia.
Qed.

(** The branch of a hash leads from it to the root. *)
Lemma GetMerkleBranch_loop_spec fuel : forall l pre k x, (length l <= fuel)%nat -> l !! k = Some x ->
  exists br, GetMerkleBranch_loop fuel (length pre) (length l) k (pre ++ concat (levels fuel l)) = Some br /\
    CheckMerkleBranch_loop x br (Z.of_nat k) = root_of (levels fuel l).
Proof.
  induction fuel as [|fuel IH]; intros l pre k x Hf Hk; [destruct l; [done|cbn in Hf; lia]|]. cbn [GetMerkleBranch_loop].
  pose proof (lookup_lt_Some _ _ _ Hk) as Lk. destruct (Nat.ltb_spec 1 (length l)) as [L|L].
  - rewrite levels_S by lia. cbn [concat]. rewrite app_assoc, <- length_app, <- pairs_length.
    destruct (half_lt (length l)) as [H1 H2]; [lia|].
    assert (Get : forall i s, l !! i = Some s -> ((pre ++ l) ++ concat (levels fuel (pairs l))) !! (length pre + i)%nat = Some s).
    { intros i s Hs. pose proof (lookup_lt_Some _ _ _ Hs). rewrite lookup_app_l by (rewrite length_app; lia).
      rewrite lookup_app_r by lia. by replace (length pre + i - length pre)%nat with i by lia. }
    destruct (even_or_odd k) as [m [->| ->]].
    + destruct (lxor_1 m) as [-> _]. destruct (index_even m) as (I1 & I2 & I3).
      assert (S : exists s, l !! Nat.min (2 * m + 1) (length l - 1) = Some s /\ default x (l !! (2 * m + 1)%nat) = s).
      { destruct (decide (2 * m + 1 < length l)%nat) as [B|B].
        - destruct (lookup_lt_is_Some_2 l (2 * m + 1)%nat B) as [s Es]. exists s. rewrite Nat.min_l by lia. by rewrite Es.
        - exists x. rewrite Nat.min_r by lia. replace (length l - 1)%nat with (2 * m)%nat by lia. split; [done|].
          by rewrite (lookup_ge_None_2 l (2 * m + 1)) by lia. }
      destruct S as (s & Es & Ed). rewrite (Get _ _ Es). cbn [mbind option_bind]. pose proof (pairs_lookup l m x Hk) as Hp. rewrite Ed in Hp.
      rewrite I3. destruct (IH (pairs l) (pre ++ l) m _ ltac:(rewrite pairs_length; lia) Hp) as (br & -> & E). cbn [mbind option_bind].
      eexists. split; [reflexivity|]. cbn [CheckMerkleBranch_loop]. rewrite I1, I2, E.
      symmetry. apply root_of_cons. by destruct (levels_head fuel (pairs l)) as [ls ->].
    + destruct (lxor_1 m) as [_ ->]. destruct (index_odd m) as (I1 & I2 & I3).
      destruct (lookup_lt_is_Some_2 l (2 * m)%nat ltac:(lia)) as [a Ea]. rewrite Nat.min_l by lia. rewrite (Get _ _ Ea). cbn [mbind option_bind].
      pose proof (pairs_lookup l m a Ea) as Hp. rewrite Hk in Hp. change (default a (Some x)) with x in Hp. rewrite I3.
      destruct (IH (pairs l) (pre ++ l) m _ ltac:(rewrite pairs_length; lia) Hp) as (br & -> & E). cbn [mbind option_bind].
      eexists. split; [reflexivity|]. cbn [CheckMerkleBranch_loop]. rewrite I1, I2, E.
      symmetry. apply root_of_cons. by destruct (levels_head fuel (pairs l)) as [ls ->].
  - rewrite levels_short by done. exists []. split; [done|]. cbn. destruct l as [|a [|b l]]; [done| |cbn in L; lia].
    destruct k as [|k]; [|done]. by injection Hk as ->.
Qed.

(** The tree of a block and its branches.  [BuildMerkleTree] stores the levels of the
    reference from the leaves to the root, never reads outside the vector, and its flag is
    set exactly when a level of even length ends with two equal hashes; the branch of every
    transaction, from the stored tree or from scratch, checks to the root. *)
Theorem merkle_branch_roundtrip (txids : list uint256) (k : nat) (h : uint256) (Hk : txids !! k = Some h) :
  exists tree, BuildMerkleTree txids = Some (tree, mutated_levels (levels (length txids) txids), merkle_root txids) /\
    tree = concat (levels (length txids) txids) /\
    exists br, GetMerkleBranch txids tree k = Some br /\ GetMerkleBranch txids [] k = Some br /\
      CheckMerkleBranch h br (Z.of_nat k) = merkle_root txids.
Proof.
  eexists. split; [apply BuildMerkleTree_spec|]. split; [done|].
  destruct (GetMerkleBranch_loop_spec (length txids) txids [] k h (le_n _) Hk) as (br & E & C). cbn [app length] in E.
  exists br. unfold GetMerkleBranch, CheckMerkleBranch. rewrite BuildMerkleTree_spec. cbn [mbind option_bind].
  destruct (Z.eqb_spec (Z.of_nat k) (-1)); [lia|]. split; [|split; [exact E|exact C]].
  destruct (concat (levels (length txids) txids)) as [|x t] eqn:Et; [|exact E].
  destruct (levels_head (length txids) txids) as [ls El]. rewrite El in Et. cbn in Et. by destruct txids.
Qed.

Lemma merkle_branch_roundtrip_witness :
  let txids := map (base_uint_u64 8) [1; 2; 3] in
  exists br, GetMerkleBranch txids [] 2 = Some br /\ CheckMerkleBranch (base_uint_u64 8 3) br 2 = merkle_root txids.
Proof.
  intros txids. destruct (merkle_branch_roundtrip txids 2 (base_uint_u64 8 3) eq_refl) as (tree & _ & _ & br & _ & E & C).
  exists br. split; [exact E|exact C].
Defined.

(** ** What a root binds *)

(** Two different strings of 64 bytes with the same double SHA-256. *)
Definition collision : Prop := exists x y : list byte, length x = 64%nat /\ length y = 64%nat /\ x <> y /\ Hash [x] = Hash [y].

Lemma hash2_inj a b c d : wf 8 a -> wf 8 b -> wf 8 c -> wf 8 d -> hash2 a b = hash2 c d -> (a = c /\ b = d) \/ collision.
Proof.
  intros Ha Hb Hc Hd E. assert (Len : forall x, wf 8 x -> length (uint_bytes x) = 32%nat).
  { intros x [L _]. by rewrite uint_bytes_length, L. }
  assert (Inj : forall x y, wf 8 x -> wf 8 y -> uint_bytes x = uint_bytes y -> x = y).
  { intros x y Hx Hy Exy. rewrite <- (bytes_uint_bytes 8 x), <- (bytes_uint_bytes 8 y) by done. by rewrite Exy. }
  destruct (decide (uint_bytes a ++ uint_bytes b = uint_bytes c ++ uint_bytes d)) as [Eb|N].
  - left. apply app_inj_1 in Eb as [E1 E2]; [|by rewrite !Len]. split; by apply Inj.
  - right. exists (uint_bytes a ++ uint_bytes b), (uint_bytes c ++ uint_bytes d). rewrite !length_app, !Len by done.
    do 2 (split; [done|]). split; [done|]. by rewrite <- !hash2_concat.
Qed.

Lemma cons_inv {A} (a b : A) l m : a :: l = b :: m -> a = b /\ l = m.
Proof. by intros [= -> ->]. Qed.

(** Levels of different lengths; [discriminate] would look into the hashes. *)
Ltac lengths_differ E := exfalso; apply (f_equal length) in E; cbn [pairs length] in E; discriminate E.

Lemma pairs_inj l1 : forall l2, Forall (wf 8) l1 -> Forall (wf 8) l2 -> dup_end l1 = false -> dup_end l2 = false ->
  pairs l1 = pairs l2 -> l1 = l2 \/ collision.
Proof.
  assert (Nil : forall l, pairs l = [] -> l = []).
  { intros [|x [|y l]] E; [reflexivity|lengths_differ E|lengths_differ E]. }
  induction l1 as [|a|a b l1 IH] using pair_ind; intros l2 W1 W2 D1 D2 E.
  - left. symmetry. apply Nil. symmetry. exact E.
  - apply Forall_cons in W1 as [Wa _]. destruct l2 as [|c [|d l2]]; [lengths_differ E| |]; apply cons_inv in E as [E E']; apply Forall_cons in W2 as [Wc W2].
    + apply (hash2_inj a a c c Wa Wa Wc Wc) in E as [[-> _]|C]; [by left|by right].
    + apply Forall_cons in W2 as [Wd _]. symmetry in E'. apply Nil in E' as ->.
      apply (hash2_inj a a c d Wa Wa Wc Wd) in E as [[-> ->]|C]; [|by right]. cbn [dup_end] in D2. by rewrite bool_decide_true in D2.
  - apply Forall_cons in W1 as [Wa W1]. apply Forall_cons in W1 as [Wb W1].
    destruct l2 as [|c [|d l2]]; [lengths_differ E| |]; apply cons_inv in E as [E E']; apply Forall_cons in W2 as [Wc W2].
    + apply Nil in E' as ->.
      apply (hash2_inj a b c c Wa Wb Wc Wc) in E as [[-> ->]|C]; [|by right]. cbn [dup_end] in D1. by rewrite bool_decide_true in D1.
    + apply Forall_cons in W2 as [Wd W2]. apply (hash2_inj a b c d Wa Wb Wc Wd) in E as [[-> ->]|C]; [|by right].
      assert (D : forall x y l, dup_end (x :: y :: l) = false -> dup_end l = false) by (intros x y [|? [|? ?]] F; [reflexivity|reflexivity|exact F]).
      destruct (IH l2 W1 W2 (D _ _ _ D1) (D _ _ _ D2) E') as [->|C]; [by left|by right].
Qed.

Lemma mutated_levels_cons l ls : ls <> [] -> mutated_levels (l :: ls) = dup_end l || mutated_levels ls.
Proof. by destruct ls. Qed.

Lemma levels_inj f1 : forall f2 l1 l2, (length l1 <= f1)%nat -> (length l2 <= f2)%nat -> l1 <> [] -> l2 <> [] ->
  Forall (wf 8) l1 -> Forall (wf 8) l2 -> length (levels f1 l1) = length (levels f2 l2) ->
  mutated_levels (levels f1 l1) = false -> mutated_levels (levels f2 l2) = false ->
  root_of (levels f1 l1) = root_of (levels f2 l2) -> l1 = l2 \/ collision.
Proof.
  assert (Short : forall f l, (length l <= f)%nat -> length (levels f l) = 1%nat -> (length l <= 1)%nat).
  { intros [|f] l Hf E; [lia|]. destruct (decide (2 <= length l)%nat) as [L|]; [|lia]. rewrite levels_S in E by done.
    destruct (levels_head f (pairs l)) as [ls El]. rewrite El in E. by cbn in E. }
  induction f1 as [|f1 IH]; intros f2 l1 l2 F1 F2 N1 N2 W1 W2 L M1 M2 R; [destruct l1; [done|cbn in F1; lia]|].
  destruct (decide (2 <= length l1)%nat) as [B|B].
  - rewrite levels_S in * by done. destruct (half_lt (length l1) B) as [H1 H2].
    destruct (levels_head f1 (pairs l1)) as [ls1 E1].
    destruct f2 as [|f2]; [destruct l2; [done|cbn in F2; lia]|]. destruct (decide (2 <= length l2)%nat) as [B2|B2].
    + rewrite levels_S in * by done. destruct (half_lt (length l2) B2) as [H3 H4]. destruct (levels_head f2 (pairs l2)) as [ls2 E2].
      rewrite root_of_cons in R by (by rewrite E1). rewrite root_of_cons in R by (by rewrite E2).
      rewrite mutated_levels_cons in M1 by (by rewrite E1). rewrite mutated_levels_cons in M2 by (by rewrite E2).
      apply orb_false_iff in M1 as [M1 M1']. apply orb_false_iff in M2 as [M2 M2']. cbn [length] in L. destruct (IH f2 (pairs l1) (pairs l2)) as [E|]; try done.
      * rewrite pairs_length. lia.
      * rewrite pairs_length. lia.
      * intros E. rewrite <- pairs_length, E in H2. cbn in H2. lia.
      * intros E. rewrite <- pairs_length, E in H4. cbn in H4. lia.
      * apply pairs_wf.
      * apply pairs_wf.
      * lia.
      * by apply pairs_inj.
      * by right.
    + rewrite (levels_short (S f2) l2) in L by lia. rewrite E1 in L. by cbn in L.
  - rewrite (levels_short (S f1) l1) in * by lia. symmetry in L. apply Short in L; [|done]. rewrite (levels_short f2 l2) in R by done.
    destruct l1 as [|a [|? ?]], l2 as [|b [|? ?]]; cbn in *; try done; try lia. left. by f_equal.
Qed.

(** When the trees have different heights, the first leaf of the lower one is an inner node
    of the other. *)
Lemma levels_inj_lower f2 : forall f1 l1 l2, (length l1 <= f1)%nat -> (length l2 <= f2)%nat -> l1 <> [] -> l2 <> [] ->
  Forall (wf 8) l1 -> Forall (wf 8) l2 -> (length (levels f1 l1) < length (levels f2 l2))%nat ->
  mutated_levels (levels f1 l1) = false -> mutated_levels (levels f2 l2) = false ->
  root_of (levels f1 l1) = root_of (levels f2 l2) ->
  (exists a b l, wf 8 a /\ wf 8 b /\ l1 = hash2 a b :: l) \/ collision.
Proof.
  induction f2 as [|f2 IH]; intros f1 l1 l2 F1 F2 N1 N2 W1 W2 L M1 M2 R; [destruct l2; [done|cbn in F2; lia]|].
  destruct (decide (2 <= length l2)%nat) as [B|B].
  - rewrite levels_S in * by done. destruct (half_lt (length l2) B) as [H1 H2]. destruct (levels_head f2 (pairs l2)) as [ls E].
    rewrite (root_of_cons l2) in R by (by rewrite E). rewrite (mutated_levels_cons l2) in M2 by (by rewrite E).
    apply orb_false_iff in M2 as [_ M2]. cbn [length] in L.
    assert (Hf : (length (pairs l2) <= f2)%nat) by (rewrite pairs_length; lia).
    assert (Nn : pairs l2 <> []) by (intros K; rewrite <- pairs_length, K in H2; cbn in H2; lia).
    destruct (decide (length (levels f1 l1) = length (levels f2 (pairs l2)))) as [Q|Q].
    + destruct (levels_inj f1 f2 l1 (pairs l2)) as [->|C]; try done; [apply pairs_wf| |by right].
      left. destruct l2 as [|a [|b l2]]; [done|cbn in B; lia|]. apply Forall_cons in W2 as [Wa W2]. apply Forall_cons in W2 as [Wb _].
      by exists a, b, (pairs l2).
    + apply (IH f1 l1 (pairs l2)); try done; [apply pairs_wf|lia].
  - exfalso. rewrite (levels_short (S f2) l2) in L by lia. cbn in L. destruct (levels_head f1 l1) as [ls E]. rewrite E in L. cbn in L. lia.
Qed.


