(* ===== verification/PartialMerkle.v ===== *)
(** * Partial Merkle trees ([merkleblock.h], [merkleblock.cpp])

    The partial trees that prove which transactions of a block a filter matched. *)

From Stdlib Require Import ZArith Lia List Bool.
From stdpp Require Import base option list.
From coqutil Require Import Byte Word.LittleEndianList.
From S2P Require Import Prelude Uint256 Serialize MerkleDamgard Hash Script Tx Merkle.

Open Scope Z_scope.
Open Scope btc_scope.

(** ** [CPartialMerkleTree] *)

Record CPartialMerkleTree : Type := mk_partial {
  nTransactions : Z; vBits : list bool; vHash : list uint256; fBad : bool }.

Section partial.
Context (nTransactions : Z).

(** [unsigned int] arithmetic. *)
Definition CalcTreeWidth (height : nat) : Z :=
  Z.shiftr (u32 (u32 (nTransactions + 2 ^ Z.of_nat height) - 1)) (Z.of_nat height).

(** [while (CalcTreeWidth(nHeight) > 1) nHeight++;]: a width of 32 bits is used up after
    32 turns. *)
Fixpoint tree_height (fuel nHeight : nat) : nat :=
  match fuel with
  | O => nHeight
  | S fuel => if CalcTreeWidth nHeight >? 1 then tree_height fuel (S nHeight) else nHeight
  end.

Definition has_right (height pos : nat) : bool := Z.of_nat pos * 2 + 1 <? CalcTreeWidth height.

Fixpoint CalcHash (height pos : nat) (vTxid : list uint256) : option uint256 :=
  match height with
  | O => vTxid !! pos
  | S height =>
      left ← CalcHash height (pos * 2) vTxid;
      right ← (if has_right height pos then CalcHash height (pos * 2 + 1) vTxid else Some left);
      Some (hash2 left right)
  end.

(** [for (p = pos << height; p < (pos + 1) << height && p < nTransactions; p++)]: [None]
    is an index outside [vMatch]. *)
Definition parent_of_match (height pos : nat) (vMatch : list bool) : option bool :=
  let here := take (2 ^ height) (drop (pos * 2 ^ height) (take (Z.to_nat nTransactions) vMatch)) in
  if (length here <? Nat.min (2 ^ height) (Z.to_nat nTransactions - pos * 2 ^ height))%nat then None
  else Some (existsb (fun b => b) here).

Fixpoint TraverseAndBuild (height pos : nat) (vTxid : list uint256) (vMatch : list bool) (out : list bool * list uint256) :
    option (list bool * list uint256) :=
  fParentOfMatch ← parent_of_match height pos vMatch;
  let '(vBits, vHash) := out in
  let vBits := vBits ++ [fParentOfMatch] in
  match height with
  | O => h ← CalcHash height pos vTxid; Some (vBits, vHash ++ [h])
  | S height' =>
      if negb fParentOfMatch then h ← CalcHash height pos vTxid; Some (vBits, vHash ++ [h])
      else
        out ← TraverseAndBuild height' (pos * 2) vTxid vMatch (vBits, vHash);
        if has_right height' pos then TraverseAndBuild height' (pos * 2 + 1) vTxid vMatch out else Some out
  end.

(** The counters, the matches and [fBad], which [TraverseAndExtract] changes. *)
Record extraction : Type := mk_extraction { nBitsUsed : nat; nHashUsed : nat; matched : list uint256; bad : bool }.

Fixpoint TraverseAndExtract (vBits : list bool) (vHash : list uint256) (height pos : nat) (st : extraction) : uint256 * extraction :=
  match vBits !! nBitsUsed st with
  | None => (base_uint_zero 8, mk_extraction (nBitsUsed st) (nHashUsed st) (matched st) true)
  | Some fParentOfMatch =>
      let st := mk_extraction (S (nBitsUsed st)) (nHashUsed st) (matched st) (bad st) in
      let leaf (top : bool) :=
        match vHash !! nHashUsed st with
        | None => (base_uint_zero 8, mk_extraction (nBitsUsed st) (nHashUsed st) (matched st) true)
        | Some hash =>
            (hash, mk_extraction (nBitsUsed st) (S (nHashUsed st))
               (if top && fParentOfMatch then matched st ++ [hash] else matched st) (bad st))
        end in
      match height with
      | O => leaf true
      | S height =>
          if negb fParentOfMatch then leaf false
          else
            let '(hl, st) := TraverseAndExtract vBits vHash height (pos * 2) st in
            let '(hr, st) := if has_right height pos then TraverseAndExtract vBits vHash height (pos * 2 + 1) st else (hl, st) in
            (hash2 hl hr, st)
      end
  end.
End partial.

(** The constructors. *)
Definition CPartialMerkleTree_null : CPartialMerkleTree := mk_partial 0 [] [] true.
Definition CPartialMerkleTree_new (vTxid : list uint256) (vMatch : list bool) : option CPartialMerkleTree :=
  let n := u32 (Z.of_nat (length vTxid)) in
  '(bits, hashes) ← TraverseAndBuild n (tree_height n 32 0) 0 vTxid vMatch ([], []);
  Some (mk_partial n bits hashes false).

Definition MAX_BLOCK_SIZE_CURRENT : Z := 4194304.

(** The root, zero on failure, the matched hashes, and the object with its [fBad]. *)
Definition ExtractMatches (t : CPartialMerkleTree) : uint256 * list uint256 * CPartialMerkleTree :=
  let n := nTransactions t in
  let zero := base_uint_zero 8 in
  if n =? 0 then (zero, [], t) else
  if n >? MAX_BLOCK_SIZE_CURRENT / 60 then (zero, [], t) else
  if Z.of_nat (length (vHash t)) >? n then (zero, [], t) else
  if (length (vBits t) <? length (vHash t))%nat then (zero, [], t) else
  let '(root, st) := TraverseAndExtract n (vBits t) (vHash t) (tree_height n 32 0) 0 (mk_extraction 0 0 [] (fBad t)) in
  let t := mk_partial n (vBits t) (vHash t) (bad st) in
  if bad st then (zero, matched st, t) else
  if negb ((nBitsUsed st + 7) / 8 =? (length (vBits t) + 7) / 8)%nat then (zero, matched st, t) else
  if negb (nHashUsed st =? length (vHash t))%nat then (zero, matched st, t) else
  (root, matched st, t).

(** ** Serialization *)

(** [vBytes[p / 8] |= vBits[p] << (p % 8)]: eight bits to a byte, the lowest first. *)
Definition pack_byte (bits : list bool) : byte :=
  byte.of_Z (fold_right (fun b z => (if b : bool then 1 else 0) + 2 * z) 0 bits).
Fixpoint pack_bits (fuel : nat) (bits : list bool) : list byte :=
  match fuel, bits with
  | S fuel, _ :: _ => pack_byte (take 8 bits) :: pack_bits fuel (drop 8 bits)
  | _, _ => []
  end.
Definition unpack_bits (vBytes : list byte) : list bool :=
  concat (map (fun b => map (fun i => negb (Z.land (byte.unsigned b) (2 ^ Z.of_nat i) =? 0)) (seq 0 8)) vBytes).

#[local] Instance uint256_Serializer : Serializer uint256 := {
  Serialize := uint_bytes;
  Unserialize := Unserialize_uint 8;
  GetSerializeSize _ := 32;
  Serializable := wf 8 }.

Definition CPartialMerkleTree_Serialize (t : CPartialMerkleTree) : bytes :=
  ser_writedata 4 (nTransactions t) ++ Serialize_vec (vHash t) ++ Serialize_blob (pack_bits (length (vBits t)) (vBits t)).
Definition CPartialMerkleTree_Unserialize : reader CPartialMerkleTree := fun s =>
  let* (n, s) := ser_readdata 4 s in
  let* (hashes, s) := Unserialize_vec (A:=uint256) (5000000 / 32) s in
  let* (vBytes, s) := Unserialize_blob s in
  Ret (mk_partial n (unpack_bits vBytes) hashes false, s).

#[local] Instance uint256_SerializerRoundTrip : SerializerRoundTrip uint256.
Proof.
  split; [intros x rest; apply Unserialize_uint_app|]. intros x [Lx _]. cbn [Serialize GetSerializeSize uint256_Serializer]. by rewrite uint_bytes_length, Lx.
Qed.

(** ** Widths *)

#[local] Opaque hash2.

(** Nodes at a height above [n] leaves. *)
Definition width (n h : nat) : nat := ((n + 2 ^ h - 1) / 2 ^ h)%nat.

Lemma pow2_pos h : (1 <= 2 ^ h)%nat.
Proof. pose proof (Nat.pow_nonzero 2 h). lia. Qed.

Lemma width_0 n : width n 0 = n.
Proof. unfold width. cbn [Nat.pow]. rewrite Nat.div_1_r. lia. Qed.

Lemma width_S n h : width n (S h) = ((width n h + 1) / 2)%nat.
Proof.
  unfold width. pose proof (pow2_pos h) as P. rewrite Nat.pow_succ_r', (Nat.mul_comm 2), <- Nat.Div0.div_div.
  f_equal. replace (n + 2 ^ h * 2 - 1)%nat with (n + 2 ^ h - 1 + 1 * 2 ^ h)%nat by lia. rewrite Nat.div_add by lia. done.
Qed.

(** A node covers leaves exactly when it is inside its level. *)
Lemma width_lt n h pos : (pos < width n h <-> pos * 2 ^ h < n)%nat.
Proof.
  unfold width. pose proof (pow2_pos h) as P. pose proof (Nat.div_mod_eq (n + 2 ^ h - 1) (2 ^ h)) as E.
  pose proof (Nat.mod_upper_bound (n + 2 ^ h - 1) (2 ^ h)). split; intros Q; nia.
Qed.

Lemma level_at_length h l : length (level_at h l) = width (length l) h.
Proof.
  induction h as [|h IH]; [by rewrite width_0|]. rewrite width_S, <- IH. unfold level_at. cbn [Nat.iter]. apply pairs_length.
Qed.

(** The transactions a tree can speak about. *)
Definition max_transactions : nat := Z.to_nat 69905.

Section bounded.
Context (n : nat) (Hn : (n <= max_transactions)%nat).

Lemma CalcTreeWidth_spec h : (h <= 17)%nat -> CalcTreeWidth (Z.of_nat n) h = Z.of_nat (width n h).
Proof.
  intros Hh. unfold CalcTreeWidth, width, max_transactions in *. pose proof (pow2_pos h) as P.
  assert (B : 2 ^ Z.of_nat h <= 2 ^ 17) by (apply Z.pow_le_mono_r; lia). assert (B0 : 0 < 2 ^ Z.of_nat h) by lia.
  rewrite (u32_small (_ + _)) by (unfold in_u32; lia). rewrite u32_small by (unfold in_u32; lia). rewrite Z.shiftr_div_pow2 by lia.
  rewrite Nat2Z.inj_div, Nat2Z.inj_sub, Nat2Z.inj_add, !Nat2Z.inj_pow by lia. done.
Qed.

Lemma has_right_spec h pos : (h <= 17)%nat -> has_right (Z.of_nat n) h pos = (pos * 2 + 1 <? width n h)%nat.
Proof.
  intros Hh. unfold has_right. rewrite CalcTreeWidth_spec by done.
  destruct (Nat.ltb_spec (pos * 2 + 1) (width n h)); [apply Z.ltb_lt|apply Z.ltb_ge]; lia.
Qed.

Lemma width_17 : (width n 17 <= 1)%nat.
Proof.
  assert (~ (1 < width n 17)%nat); [|lia]. rewrite width_lt. unfold max_transactions in *.
  assert (E : Z.of_nat (2 ^ 17) = 2 ^ 17) by (rewrite Nat2Z.inj_pow; reflexivity). lia.
Qed.

(** The height is the least one with a single node. *)
Lemma tree_height_spec fuel h : (h <= 17)%nat -> (18 <= h + fuel)%nat ->
  let H := tree_height (Z.of_nat n) fuel h in
  (h <= H <= 17)%nat /\ (width n H <= 1)%nat /\ forall j, (h <= j < H)%nat -> (1 < width n j)%nat.
Proof.
  revert h. induction fuel as [|fuel IH]; intros h Hh Hf H; [lia|]. subst H. cbn [tree_height].
  rewrite CalcTreeWidth_spec by done. destruct (Z.of_nat (width n h) >? 1) eqn:E.
  - apply Z.gtb_lt in E. assert (h <> 17%nat) by (intros ->; pose proof width_17; lia).
    destruct (IH (S h)) as (A & B & C); [lia|lia|]. split; [lia|]. split; [done|]. intros j Hj.
    destruct (decide (j = h)) as [->|]; [lia|]. apply C. lia.
  - rewrite Z.gtb_ltb in E. apply Z.ltb_ge in E. split; [lia|]. split; [lia|]. lia.
Qed.
End bounded.

(** The level with a single node holds the root. *)
Lemma level_at_S h l : level_at (S h) l = level_at h (pairs l).
Proof. apply Nat.iter_succ_r. Qed.

Lemma level_root fuel : forall l, (length l <= fuel)%nat -> l <> [] ->
  exists H, level_at H l = [root_of (levels fuel l)] /\ forall j, (j < H)%nat -> (1 < length (level_at j l))%nat.
Proof.
  induction fuel as [|fuel IH]; intros l Hf N; [destruct l; [done|cbn in Hf; lia]|].
  destruct (decide (2 <= length l)%nat) as [L|L].
  - rewrite levels_S by done. destruct (half_lt (length l) L) as [H1 H2].
    destruct (IH (pairs l)) as (H & E & M); [rewrite pairs_length; lia|intros E; rewrite <- pairs_length, E in H2; cbn in H2; lia|].
    exists (S H). rewrite level_at_S, root_of_cons; [|destruct (levels_head fuel (pairs l)) as [ls ->]; done]. split; [done|].
    intros [|j] Hj; [cbn; lia|]. rewrite level_at_S. apply M. lia.
  - rewrite levels_short by lia. exists 0%nat. destruct l as [|a [|b l]]; [done| |cbn in L; lia]. split; [done|]. lia.
Qed.

Lemma tree_root l : (1 <= length l <= max_transactions)%nat ->
  let H := tree_height (Z.of_nat (length l)) 32 0 in (H <= 17)%nat /\ level_at H l = [merkle_root l].
Proof.
  intros [N Hn] H. destruct (tree_height_spec (length l) Hn 32 0) as (A & B & C); [lia|lia|]. fold H in A, B, C.
  destruct (level_root (length l) l (le_n _)) as (K & E & M); [by intros ->; cbn in N; lia|]. split; [lia|].
  assert (H = K) as ->; [|exact E].
  assert (WK : width (length l) K = 1%nat) by (rewrite <- level_at_length, E; done).
  destruct (Nat.lt_trichotomy H K) as [G|[G|G]]; [|done|].
  - specialize (M H G). rewrite level_at_length in M. lia.
  - specialize (C K). lia.
Qed.

(** ** Ranges of leaves *)

Section range.
Context {A : Type}.

(** The leaves below a node. *)
Definition range (h pos : nat) (xs : list A) : list A := take (2 ^ h) (drop (pos * 2 ^ h) xs).

Lemma range_split h pos xs : range (S h) pos xs = range h (pos * 2) xs ++ range h (pos * 2 + 1) xs.
Proof.
  unfold range. rewrite Nat.pow_succ_r'. replace (2 * 2 ^ h)%nat with (2 ^ h + 2 ^ h)%nat by lia.
  rewrite <- take_take_drop, drop_drop. do 2 f_equal; f_equal; lia.
Qed.

Lemma range_empty h pos xs : (length xs <= pos * 2 ^ h)%nat -> range h pos xs = [].
Proof. intros L. unfold range. rewrite drop_ge by done. apply take_nil. Qed.

Lemma range_length h pos xs : length (range h pos xs) = Nat.min (2 ^ h) (length xs - pos * 2 ^ h).
Proof. unfold range. by rewrite length_take, length_drop. Qed.

Lemma range_0 pos xs x : xs !! pos = Some x -> range 0 pos xs = [x].
Proof.
  intros E. unfold range. cbn [Nat.pow]. rewrite Nat.mul_1_r, (drop_S xs x pos) by done. done.
Qed.

Lemma range_all h xs : (length xs <= 2 ^ h)%nat -> range h 0 xs = xs.
Proof. intros L. unfold range. cbn [Nat.mul]. rewrite drop_0. by rewrite take_ge. Qed.
End range.

(** The marked elements, in order. *)
Definition picks (zl : list (uint256 * bool)) : list uint256 := omap (fun p : uint256 * bool => if p.2 then Some p.1 else None) zl.

Lemma picks_app a b : picks (a ++ b) = picks a ++ picks b.
Proof. apply omap_app. Qed.

Lemma picks_none (zl : list (uint256 * bool)) : existsb (fun b => b) (snd <$> zl) = false -> picks zl = [].
Proof. induction zl as [|[x []] zl IH]; cbn; [done|done|exact IH]. Qed.

Lemma parent_of_match_spec l vMatch h pos : length vMatch = length l ->
  parent_of_match (Z.of_nat (length l)) h pos vMatch = Some (existsb (fun b => b) (map (@snd uint256 bool) (range h pos (zip l vMatch)))).
Proof.
  intros L. unfold parent_of_match. rewrite Nat2Z.id, (take_ge vMatch) by lia. fold (range h pos vMatch).
  rewrite range_length, L, Nat.ltb_irrefl. unfold range. do 2 f_equal.
  rewrite <- (snd_zip l vMatch) at 1 by lia. by rewrite fmap_take, fmap_drop.
Qed.

(** ** Building and extracting *)

Section tree.
Context (l : list uint256) (Hl : (length l <= max_transactions)%nat).
Let n : Z := Z.of_nat (length l).

(** Where the children of a node are. *)
Lemma children h pos x : (S h <= 17)%nat -> level_at (S h) l !! pos = Some x ->
  exists a b, level_at h l !! (pos * 2)%nat = Some a /\ x = hash2 a b /\
    ((has_right n h pos = true /\ level_at h l !! (pos * 2 + 1)%nat = Some b) \/
     (has_right n h pos = false /\ b = a /\ (length l <= (pos * 2 + 1) * 2 ^ h)%nat)).
Proof.
  intros Hh E. pose proof (lookup_lt_Some _ _ _ E) as L. rewrite level_at_length, width_S in L.
  change (pairs (level_at h l) !! pos = Some x) in E.
  destruct (lookup_lt_is_Some_2 (level_at h l) (pos * 2)) as [a Ea].
  { rewrite level_at_length. pose proof (Nat.div_mod_eq (width (length l) h + 1) 2). pose proof (Nat.mod_upper_bound (width (length l) h + 1) 2). lia. }
  rewrite (pairs_lookup _ pos a) in E by (by rewrite Nat.mul_comm). apply Some_inj in E. replace (2 * pos + 1)%nat with (pos * 2 + 1)%nat in E by lia.
  subst x. unfold n. rewrite has_right_spec by (try done; lia). destruct (Nat.ltb_spec (pos * 2 + 1) (width (length l) h)) as [W|W].
  - destruct (lookup_lt_is_Some_2 (level_at h l) (pos * 2 + 1)) as [b Eb]; [by rewrite level_at_length|]. rewrite Eb. exists a, b. auto.
  - exists a, a. split; [done|]. rewrite (lookup_ge_None_2 _ (pos * 2 + 1)) by (by rewrite level_at_length). split; [done|].
    right. split; [done|]. split; [done|]. pose proof (width_lt (length l) h (pos * 2 + 1)). lia.
Qed.

Lemma CalcHash_spec h : forall pos x, (h <= 17)%nat -> level_at h l !! pos = Some x -> CalcHash n h pos l = Some x.
Proof.
  induction h as [|h IH]; intros pos x Hh E; [exact E|]. cbn [CalcHash].
  destruct (children h pos x Hh E) as (a & b & Ea & -> & R). rewrite (IH (pos * 2)%nat a) by (exact Ea || lia). cbn [mbind option_bind].
  destruct R as [[-> Eb]|[-> [-> _]]]; [|done]. rewrite (IH (pos * 2 + 1)%nat b) by (exact Eb || lia). done.
Qed.

Context (Wl : Forall (wf 8) l).

Lemma level_wf h pos x : level_at h l !! pos = Some x -> wf 8 x.
Proof.
  intros E. assert (W : Forall (wf 8) (level_at h l)) by (destruct h; [exact Wl|apply pairs_wf]).
  rewrite Forall_lookup in W. by apply (W pos).
Qed.

Context (vMatch : list bool) (Hm : length vMatch = length l).
Let leaves (h pos : nat) := range h pos (zip l vMatch).

Lemma leaves_length h pos : length (leaves h pos) = Nat.min (2 ^ h) (length l - pos * 2 ^ h).
Proof. unfold leaves. by rewrite range_length, length_zip_with_l_eq. Qed.

(** What building a node writes, and that extraction reads it back wherever it stands. *)
Definition node_ok (h pos : nat) (x : uint256) (bits : list bool) (hashes : list uint256) : Prop :=
  (forall out, TraverseAndBuild n h pos l vMatch out = Some (out.1 ++ bits, out.2 ++ hashes)) /\
  (forall pb sb ph sh ms bd,
    TraverseAndExtract n (pb ++ bits ++ sb) (ph ++ hashes ++ sh) h pos (mk_extraction (length pb) (length ph) ms bd) =
    (x, mk_extraction (length (pb ++ bits)) (length (ph ++ hashes)) (ms ++ picks (leaves h pos)) bd)) /\
  (length hashes <= length (leaves h pos))%nat /\ (length hashes <= length bits)%nat /\
  (length bits < 2 ^ S h)%nat /\ Forall (wf 8) hashes.

(** One bit and one hash: a leaf, or a node without matches. *)
Lemma node_ok_stop h pos x p : (h <= 17)%nat -> level_at h l !! pos = Some x ->
  parent_of_match n h pos vMatch = Some p -> h = 0%nat \/ p = false ->
  picks (leaves h pos) = (if p then [x] else []) -> node_ok h pos x [p] [x].
Proof.
  intros Hh E Ep Stop Pk. assert (Lv : (1 <= length (leaves h pos))%nat).
  { apply lookup_lt_Some in E. rewrite level_at_length in E. apply width_lt in E. pose proof (pow2_pos h). rewrite leaves_length. lia. }
  assert (Get : forall {A} (u v : list A) a, (u ++ [a] ++ v) !! length u = Some a) by (intros; by apply list_lookup_middle).
  assert (Sz : (1 < 2 ^ S h)%nat) by (pose proof (pow2_pos h); rewrite Nat.pow_succ_r'; lia).
  split; [|split; [|split; [exact Lv|split; [done|split; [exact Sz|]]]]].
  - intros [bs hs]. destruct h as [|h]; cbn [TraverseAndBuild]; rewrite Ep; cbn [mbind option_bind].
    + rewrite (CalcHash_spec 0 pos x) by done. done.
    + destruct Stop as [?| ->]; [done|]. cbn [negb]. rewrite (CalcHash_spec (S h) pos x) by done. done.
  - intros. destruct h as [|h]; cbn [TraverseAndExtract nBitsUsed nHashUsed matched bad]; rewrite Get; cbn [nBitsUsed nHashUsed matched bad].
    + rewrite Get, Pk, !length_app. cbn [length andb]. rewrite !Nat.add_1_r. destruct p; [done|]. by rewrite app_nil_r.
    + destruct Stop as [?| ->]; [done|]. cbn [negb]. rewrite Get, Pk, !length_app. cbn [length andb]. by rewrite !Nat.add_1_r, app_nil_r.
  - repeat constructor; by apply (level_wf h pos).
Qed.

(** A node with two children, or with one. *)
Lemma node_ok_two h pos a b b1 h1 b2 h2 : parent_of_match n (S h) pos vMatch = Some true -> has_right n h pos = true ->
  node_ok h (pos * 2) a b1 h1 -> node_ok h (pos * 2 + 1) b b2 h2 -> node_ok (S h) pos (hash2 a b) (true :: b1 ++ b2) (h1 ++ h2).
Proof.
  intros Ep R (B1 & X1 & L1 & M1 & S1 & W1) (B2 & X2 & L2 & M2 & S2 & W2). unfold node_ok, leaves. rewrite range_split. split; [|split; [|split; [|split; [|split]]]].
  - intros [bs hs]. cbn [TraverseAndBuild]. rewrite Ep. cbn [mbind option_bind negb]. rewrite B1. cbn [mbind option_bind fst snd].
    rewrite R, B2. cbn [fst snd]. by rewrite <- !app_assoc.
  - intros. cbn [TraverseAndExtract nBitsUsed]. cbn [app]. rewrite list_lookup_middle by done. cbn [negb nHashUsed matched bad].
    specialize (X1 (pb ++ [true]) (b2 ++ sb) ph (h2 ++ sh) ms bd). specialize (X2 (pb ++ true :: b1) sb (ph ++ h1) sh (ms ++ picks (leaves h (pos * 2))) bd).
    rewrite length_app, Nat.add_1_r in X1. repeat rewrite <- ?app_assoc, <- ?app_comm_cons in X1, X2 |- *. cbn [app] in *.
    rewrite X1, R, X2. rewrite picks_app, <- !app_assoc, <- app_comm_cons. reflexivity.
  - rewrite !length_app. unfold leaves in *. lia.
  - cbn [length]. rewrite !length_app. lia.
  - cbn [length]. rewrite length_app, Nat.pow_succ_r'. lia.
  - by apply Forall_app.
Qed.

Lemma node_ok_one h pos a b1 h1 : parent_of_match n (S h) pos vMatch = Some true -> has_right n h pos = false ->
  (length l <= (pos * 2 + 1) * 2 ^ h)%nat -> node_ok h (pos * 2) a b1 h1 -> node_ok (S h) pos (hash2 a a) (true :: b1) h1.
Proof.
  intros Ep R E (B1 & X1 & L1 & M1 & S1 & W1). unfold node_ok, leaves.
  rewrite range_split, (range_empty h (pos * 2 + 1)), app_nil_r by (by rewrite length_zip_with_l_eq). split; [|split; [|split; [|split; [|split]]]].
  - intros [bs hs]. cbn [TraverseAndBuild]. rewrite Ep. cbn [mbind option_bind negb]. rewrite B1. cbn [mbind option_bind fst snd].
    rewrite R. by rewrite <- !app_assoc.
  - intros. cbn [TraverseAndExtract nBitsUsed]. cbn [app]. rewrite list_lookup_middle by done. cbn [negb nHashUsed matched bad].
    specialize (X1 (pb ++ [true]) sb ph sh ms bd). rewrite length_app, Nat.add_1_r in X1. rewrite <- !app_assoc in *. cbn [app] in *. by rewrite X1, R.
  - exact L1.
  - cbn [length]. lia.
  - cbn [length]. rewrite Nat.pow_succ_r'. lia.
  - exact W1.
Qed.

Lemma node_built h : forall pos x, (h <= 17)%nat -> level_at h l !! pos = Some x -> exists bits hashes, node_ok h pos x bits hashes.
Proof.
  induction h as [|h IH]; intros pos x Hh E.
  - change (l !! pos = Some x) in E. destruct (lookup_lt_is_Some_2 vMatch pos) as [m Em]; [rewrite Hm; by apply lookup_lt_Some in E|].
    assert (El : leaves 0 pos = [(x, m)]) by (apply range_0; by rewrite lookup_zip_with, E, Em).
    exists [m], [x]. apply node_ok_stop; [done|done| |by left|by rewrite El; destruct m].
    unfold n. rewrite parent_of_match_spec by done. fold (leaves 0 pos). rewrite El. by destruct m.
  - destruct (parent_of_match n (S h) pos vMatch) as [p|] eqn:Ep; [|unfold n in Ep; by rewrite parent_of_match_spec in Ep].
    destruct p.
    + destruct (children h pos x Hh E) as (a & b & Ea & -> & R). destruct (IH (pos * 2)%nat a) as (b1 & h1 & N1); [lia|done|].
      destruct R as [[R Eb]|[R [-> B]]].
      * destruct (IH (pos * 2 + 1)%nat b) as (b2 & h2 & N2); [lia|done|]. eexists _, _. by apply node_ok_two.
      * eexists _, _. by apply node_ok_one.
    + exists [false], [x]. apply node_ok_stop; [done|done|done|by right|].
      unfold n in Ep. rewrite parent_of_match_spec in Ep by done. apply picks_none. by apply Some_inj in Ep.
Qed.
End tree.

(** ** Flag bits *)

Lemma pack_byte_bits bits : (length bits <= 8)%nat ->
  map (fun i => negb (Z.land (byte.unsigned (pack_byte bits)) (2 ^ Z.of_nat i) =? 0)) (seq 0 8) = bits ++ repeat false (8 - length bits).
Proof.
  intros L. do 8 (destruct bits as [|[] bits]; [reflexivity| |]); destruct bits as [|b bits]; try reflexivity; cbn in L; lia.
Qed.

(** Unpacking gives the bits back, padded to a whole number of bytes. *)
Lemma unpack_pack fuel : forall bits, (length bits <= fuel)%nat ->
  exists k, (k < 8)%nat /\ unpack_bits (pack_bits fuel bits) = bits ++ repeat false k /\
    (length bits + k = 8 * length (pack_bits fuel bits))%nat.
Proof.
  induction fuel as [|fuel IH]; intros bits L; [destruct bits; [|cbn in L; lia]; exists 0%nat; cbn; repeat split; lia|].
  destruct (decide (bits = [])) as [->|N]; [exists 0%nat; cbn; repeat split; lia|].
  assert (E : pack_bits (S fuel) bits = pack_byte (take 8 bits) :: pack_bits fuel (drop 8 bits)) by by destruct bits.
  rewrite E. unfold unpack_bits. cbn [map concat]. fold (unpack_bits (pack_bits fuel (drop 8 bits))).
  rewrite pack_byte_bits by (rewrite length_take; lia). cbn [length]. destruct (decide (length bits <= 8)%nat) as [S|S].
  - exists (8 - length bits)%nat. rewrite take_ge, drop_ge by done. destruct bits; [done|]. destruct fuel; cbn [length pack_bits]; rewrite app_nil_r; cbn [length] in *; (split; [lia|]; split; [done|lia]).
  - destruct (IH (drop 8 bits)) as (k & K & -> & Lk); [rewrite length_drop; lia|]. exists k. split; [done|].
    rewrite length_take, Nat.min_l by lia. cbn [repeat Nat.sub]. rewrite app_nil_r, app_assoc, take_drop. split; [done|].
    rewrite length_drop in Lk. lia.
Qed.

(** ** What a client learns *)

Lemma ExtractMatches_built l vMatch bits hashes k bd :
  (1 <= length l <= max_transactions)%nat -> length vMatch = length l -> Forall (wf 8) l -> (k < 8)%nat ->
  (k = 0%nat \/ exists q, (length bits + k = 8 * q)%nat) ->
  node_ok l vMatch (tree_height (Z.of_nat (length l)) 32 0) 0 (merkle_root l) bits hashes ->
  bd = false ->
  let t := mk_partial (Z.of_nat (length l)) (bits ++ repeat false k) hashes bd in
  ExtractMatches t = (merkle_root l, picks (zip l vMatch), t).
Proof.
  intros L Hm W K Pad (_ & X & Lh & Lb & _) -> t. destruct (tree_root l L) as [Hh E].
  specialize (X [] (repeat false k) [] [] [] false). cbn [app length] in X. rewrite app_nil_r in X.
  assert (Size : (length l <= 2 ^ tree_height (Z.of_nat (length l)) 32 0)%nat).
  { apply (f_equal length) in E. rewrite level_at_length in E. cbn [length] in E. pose proof (width_lt (length l) (tree_height (Z.of_nat (length l)) 32 0) 1). lia. }
  assert (Zl : length (zip l vMatch) = length l) by (rewrite length_zip_with_l_eq; done).
  rewrite range_all in X, Lh by lia. unfold ExtractMatches. subst t. cbn [nTransactions vBits vHash fBad].
  rewrite X. cbn [bad nBitsUsed nHashUsed matched]. unfold max_transactions, MAX_BLOCK_SIZE_CURRENT in *. rewrite length_app, repeat_length.
  rewrite (proj2 (Z.eqb_neq (Z.of_nat (length l)) 0)) by lia. change (4194304 / 60) with 69905.
  destruct (Z.gtb_spec (Z.of_nat (length l)) 69905); [lia|]. destruct (Z.gtb_spec (Z.of_nat (length hashes)) (Z.of_nat (length l))); [lia|].
  destruct (Nat.ltb_spec (length bits + k) (length hashes)); [lia|]. rewrite Nat.eqb_refl.
  replace ((length bits + 7) / 8 =? (length bits + k + 7) / 8)%nat with true; [done|]. symmetry. apply Nat.eqb_eq.
  destruct Pad as [->|[q Eq]]; [by rewrite Nat.add_0_r|].
  apply Nat2Z.inj. rewrite !Nat2Z.inj_div, !Nat2Z.inj_add. Z.div_mod_to_equations. lia.
Qed.

(** The constructor builds a tree that passes. *)
Lemma partial_tree_built (vTxid : list uint256) (vMatch : list bool) : (1 <= length vTxid <= max_transactions)%nat -> length vMatch = length vTxid ->
  Forall (wf 8) vTxid -> exists bits hashes,
    CPartialMerkleTree_new vTxid vMatch = Some (mk_partial (Z.of_nat (length vTxid)) bits hashes false) /\
    node_ok vTxid vMatch (tree_height (Z.of_nat (length vTxid)) 32 0) 0 (merkle_root vTxid) bits hashes.
Proof.
  intros L Hm W. destruct (tree_root vTxid L) as [Hh Run]. set (H := tree_height (Z.of_nat (length vTxid)) 32 0) in *.
  destruct (node_built vTxid (proj2 L) W vMatch Hm H 0 (merkle_root vTxid)) as (bits & hashes & N); [done|by rewrite Run|].
  exists bits, hashes. split; [|exact N]. destruct N as (B & _). unfold CPartialMerkleTree_new.
  rewrite u32_small by (unfold in_u32, max_transactions in *; lia). fold H. by rewrite B.
Qed.

Lemma partial_tree_extracts (vTxid : list uint256) (vMatch : list bool) : (1 <= length vTxid <= max_transactions)%nat -> length vMatch = length vTxid ->
  Forall (wf 8) vTxid -> exists t, CPartialMerkleTree_new vTxid vMatch = Some t /\ ExtractMatches t = (merkle_root vTxid, picks (zip vTxid vMatch), t).
Proof.
  intros L Hm W. destruct (partial_tree_built vTxid vMatch L Hm W) as (bits & hashes & En & N). eexists. split; [exact En|].
  pose proof (ExtractMatches_built vTxid vMatch bits hashes 0 false L Hm W ltac:(lia) (or_introl eq_refl) N eq_refl) as X.
  cbn [repeat] in X. by rewrite app_nil_r in X.
Qed.

(** What a partial tree carries.  For every block of at most 69,905 transactions and
    every choice of them, the constructor builds a tree; the tree, and what a peer reads
    from its serialization (the flag bits padded to whole bytes), is accepted by
    [ExtractMatches], which gives the Merkle root of the block and exactly the chosen
    hashes, in order. *)
Theorem partial_merkle_roundtrip (vTxid : list uint256) (vMatch : list bool) (rest : bytes)
    (L : (1 <= length vTxid <= max_transactions)%nat) (Hm : length vMatch = length vTxid) (W : Forall (wf 8) vTxid) :
  exists t t', CPartialMerkleTree_new vTxid vMatch = Some t /\
    CPartialMerkleTree_Unserialize (CPartialMerkleTree_Serialize t ++ rest) = Ret (t', rest) /\
    nTransactions t' = nTransactions t /\ vHash t' = vHash t /\ (exists k, (k < 8)%nat /\ vBits t' = vBits t ++ repeat false k) /\
    ExtractMatches t = (merkle_root vTxid, picks (zip vTxid vMatch), t) /\
    ExtractMatches t' = (merkle_root vTxid, picks (zip vTxid vMatch), t').
Proof.
  destruct (partial_tree_built vTxid vMatch L Hm W) as (bits & hashes & En & N). set (H := tree_height (Z.of_nat (length vTxid)) 32 0) in *.
  pose proof N as (B & _ & Lh & Lb & Sz & Wh). pose proof (proj1 (tree_root vTxid L)) as Hh. fold H in Hh.
  destruct (unpack_pack (length bits) bits (le_n _)) as (k & K & U & Lk).
  exists (mk_partial (Z.of_nat (length vTxid)) bits hashes false), (mk_partial (Z.of_nat (length vTxid)) (bits ++ repeat false k) hashes false).
  split; [|split; [|split; [done|split; [done|split; [by exists k|split]]]]].
  - exact En.
  - assert (Cnt : (length hashes <= length vTxid)%nat) by (rewrite range_length, length_zip_with_l_eq in Lh by done; lia).
    assert (Bb : (length bits < 2 ^ 18)%nat) by (eapply Nat.lt_le_trans; [exact Sz|apply Nat.pow_le_mono_r; lia]).
    assert (B18 : Z.of_nat (2 ^ 18) = 2 ^ 18) by (rewrite Nat2Z.inj_pow; reflexivity).
    unfold CPartialMerkleTree_Unserialize, CPartialMerkleTree_Serialize. cbn [nTransactions vBits vHash]. rewrite <- !app_assoc.
    rewrite ser_readdata_app by (unfold max_transactions in *; lia). cbn [result_bind].
    rewrite Unserialize_vec_app; [|reflexivity|unfold max_transactions, MAX_SIZE in *; lia|exact Wh]. cbn [result_bind].
    rewrite Unserialize_blob_app by (unfold MAX_SIZE; lia). cbn [result_bind]. by rewrite U.
  - pose proof (ExtractMatches_built vTxid vMatch bits hashes 0 false L Hm W ltac:(lia) (or_introl eq_refl) N eq_refl) as X.
    cbn [repeat] in X. by rewrite app_nil_r in X.
  - apply ExtractMatches_built; try done. right. by eexists.
Qed.

Lemma partial_merkle_roundtrip_witness :
  let txids := map (base_uint_u64 8) [1; 2; 3] in
  exists t, CPartialMerkleTree_new txids [false; false; true] = Some t /\
    (ExtractMatches t).1 = (merkle_root txids, [base_uint_u64 8 3]).
Proof.
  intros txids. assert (W : Forall (wf 8) txids) by (repeat constructor; by vm_compute).
  destruct (partial_merkle_roundtrip txids [false; false; true] []) as (t & t' & E & _ & _ & _ & _ & X & _);
    [unfold max_transactions; cbn [length map txids]; lia|reflexivity|exact W|].
  exists t. split; [exact E|]. rewrite X. cbn [fst].
  assert (P : picks (zip txids [false; false; true]) = [base_uint_u64 8 3]) by reflexivity. by rewrite P.
Defined.

Section sound.
Context (l : list uint256) (Hl : (length l <= max_transactions)%nat) (Wl : Forall (wf 8) l).
Context (bits : list bool) (hashes : list uint256) (Wh : Forall (wf 8) hashes).
Let n : Z := Z.of_nat (length l).

(** A failure is never undone, and the result has 256 bits. *)
Lemma extract_bad h : forall pos st x st', TraverseAndExtract n bits hashes h pos st = (x, st') ->
  (bad st = true -> bad st' = true) /\ wf 8 x.
Proof.
  assert (Leaf : forall (st : extraction) top x st', match hashes !! nHashUsed st with
      | None => (base_uint_zero 8, mk_extraction (nBitsUsed st) (nHashUsed st) (matched st) true)
      | Some hash => (hash, mk_extraction (nBitsUsed st) (S (nHashUsed st)) (if top : bool then matched st ++ [hash] else matched st) (bad st)) end
      = (x, st') -> (bad st = true -> bad st' = true) /\ wf 8 x).
  { intros st top x st' E. destruct (hashes !! nHashUsed st) as [hh|] eqn:G; injection E as <- <-; [|split; [done|exact (wf_zero 8)]].
    split; [done|]. rewrite Forall_lookup in Wh. by apply (Wh (nHashUsed st)). }
  induction h as [|h IH]; intros pos st x st' E; cbn [TraverseAndExtract] in E; (destruct (bits !! nBitsUsed st) as [p|]; [|injection E as <- <-; split; [done|exact (wf_zero 8)]]).
  - by apply Leaf in E.
  - destruct p; cbn [negb] in E; [|by apply (Leaf _ false) in E].
    destruct (TraverseAndExtract n bits hashes h (pos * 2) _) as [hl s1] eqn:E1. apply IH in E1 as [M1 _]. cbn [bad] in M1.
    destruct (has_right n h pos).
    + destruct (TraverseAndExtract n bits hashes h (pos * 2 + 1) s1) as [hr s2] eqn:E2. apply IH in E2 as [M2 _].
      apply pair_equal_spec in E as [<- <-]. split; [auto|apply hash2_wf].
    + apply pair_equal_spec in E as [<- <-]. split; [auto|apply hash2_wf].
Qed.

(** A node with the right hash has matched leaves below it only. *)
Lemma extract_sound h : forall pos st x st', (h <= 17)%nat -> TraverseAndExtract n bits hashes h pos st = (x, st') ->
  level_at h l !! pos = Some x -> bad st' = false ->
  (exists ms, matched st' = matched st ++ ms /\ sublist ms (range h pos l)) \/ collision.
Proof.
  induction h as [|h IH]; intros pos st x st' Hh E Ex Hb; cbn [TraverseAndExtract] in E;
    (destruct (bits !! nBitsUsed st) as [p|]; [|apply pair_equal_spec in E as [_ <-]; discriminate Hb]).
  - cbn [nHashUsed matched bad] in E. destruct (hashes !! nHashUsed st) as [hh|]; apply pair_equal_spec in E as [<- <-]; [|discriminate Hb].
    change (l !! pos = Some hh) in Ex. rewrite (range_0 _ _ hh Ex). left. cbn [matched andb]. destruct p; [by exists [hh]|exists []]. rewrite app_nil_r. split; [done|apply sublist_nil_l].
  - destruct p; cbn [negb nHashUsed matched bad andb] in E.
    2: { destruct (hashes !! nHashUsed st) as [hh|]; apply pair_equal_spec in E as [_ <-]; [|discriminate Hb].
         left. exists []. cbn [matched]. rewrite app_nil_r. split; [done|apply sublist_nil_l]. }
    destruct (children l Hl h pos x Hh Ex) as (a & b & Ea & -> & R).
    destruct (TraverseAndExtract n bits hashes h (pos * 2) _) as [hl s1] eqn:E1. pose proof (extract_bad _ _ _ _ _ E1) as [_ W1].
    assert (Wa : wf 8 a) by (by apply (level_wf l Wl h (pos * 2))). rewrite range_split. destruct R as [[R Eb]|(R & -> & Le)].
    + change (Z.of_nat (length l)) with n in R. rewrite R in E. destruct (TraverseAndExtract n bits hashes h (pos * 2 + 1) s1) as [hr s2] eqn:E2.
      pose proof (extract_bad _ _ _ _ _ E2) as [M2 W2]. apply pair_equal_spec in E as [E <-].
      apply hash2_inj in E as [[-> ->]|C]; [|by right|done|done|done|by apply (level_wf l Wl h (pos * 2 + 1))].
      assert (B1 : bad s1 = false) by (destruct (bad s1); [by rewrite M2 in Hb|done]).
      apply IH in E1 as [(m1 & Em1 & S1)|C]; [|by right|lia|exact Ea|exact B1].
      apply IH in E2 as [(m2 & Em & S2)|C]; [|by right|lia|exact Eb|exact Hb].
      left. exists (m1 ++ m2). rewrite Em, Em1. cbn [matched]. rewrite app_assoc. split; [done|by apply sublist_app].
    + change (Z.of_nat (length l)) with n in R. rewrite R in E. apply pair_equal_spec in E as [E <-].
      apply hash2_inj in E as [[-> _]|C]; [|by right|done..].
      apply IH in E1 as [(m1 & Em1 & S1)|C]; [|by right|lia|exact Ea|exact Hb].
      left. exists m1. split; [exact Em1|]. by apply sublist_inserts_r.
Qed.
End sound.


