(* ===== verification/Block.v ===== *)
(** * Blocks ([primitives/block.h], [primitives/block.cpp])

    Headers and blocks with the fields of the classes, their serialization, the hash of a
    header, and the two kinds of blocks. *)

From Stdlib Require Import ZArith Lia List Bool.
From stdpp Require Import base option list.
From coqutil Require Import Byte Word.LittleEndianList.
From S2P Require Import Prelude Uint256 Serialize MerkleDamgard Hash Script Tx Merkle.

Open Scope Z_scope.
Open Scope btc_scope.

(** ** Headers *)

Record CBlockHeader : Type := mk_CBlockHeader {
  b_nVersion : Z; hashPrevBlock : uint256; hashMerkleRoot : uint256; b_nTime : Z; b_nBits : Z; b_nNonce : Z;
  nAccumulatorCheckpoint : uint256 }.

Definition HEADER_VERSION : Z := 4.
Definition CBlockHeader_SetNull : CBlockHeader :=
  mk_CBlockHeader HEADER_VERSION (base_uint_zero 8) (base_uint_zero 8) 0 0 0 (base_uint_u64 8 0).
Definition CBlockHeader_IsNull (h : CBlockHeader) : bool := b_nBits h =? 0.

(** The fields before [nAccumulatorCheckpoint], as they lie in memory. *)
Definition header_words (h : CBlockHeader) : bytes :=
  ser_writedata 4 (b_nVersion h) ++ uint_bytes (hashPrevBlock h) ++ uint_bytes (hashMerkleRoot h)
  ++ ser_writedata 4 (b_nTime h) ++ ser_writedata 4 (b_nBits h) ++ ser_writedata 4 (b_nNonce h).

#[export] Instance CBlockHeader_Serializer : Serializer CBlockHeader := {
  Serialize h := header_words h ++ (if b_nVersion h >? 3 then uint_bytes (nAccumulatorCheckpoint h) else []);
  Unserialize := fun s =>
    let* (v, s) := read_i32 s in
    let* (prev, s) := Unserialize_uint 8 s in
    let* (root, s) := Unserialize_uint 8 s in
    let* (t, s) := ser_readdata 4 s in
    let* (b, s) := ser_readdata 4 s in
    let* (n, s) := ser_readdata 4 s in
    let* (acc, s) := (if v >? 3 then Unserialize_uint 8 s else Ret (nAccumulatorCheckpoint CBlockHeader_SetNull, s)) in
    Ret (mk_CBlockHeader v prev root t b n acc, s);
  GetSerializeSize h := 4 + 32 + 32 + 4 + 4 + 4 + (if b_nVersion h >? 3 then 32 else 0);
  Serializable h := in_i32 (b_nVersion h) /\ wf 8 (hashPrevBlock h) /\ wf 8 (hashMerkleRoot h) /\
    in_u32 (b_nTime h) /\ in_u32 (b_nBits h) /\ in_u32 (b_nNonce h) /\
    (if b_nVersion h >? 3 then wf 8 (nAccumulatorCheckpoint h) else nAccumulatorCheckpoint h = base_uint_u64 8 0) }.

(** [HashQuark] chains six third-party hash functions. *)
Section header_hash.
Context (HashQuark : bytes -> uint256).

Definition CBlockHeader_GetHash (h : CBlockHeader) : uint256 :=
  if b_nVersion h <? 4 then HashQuark (header_words h)
  else Hash [header_words h ++ uint_bytes (nAccumulatorCheckpoint h)].
End header_hash.

Definition CBlockHeader_GetBlockTime (h : CBlockHeader) : Z := b_nTime h.

(** ** Blocks *)

(** [vMerkleTree] and [payee] are in memory only. *)
Record CBlock : Type := mk_CBlock {
  b_header :> CBlockHeader; vtx : list CTransaction; vchBlockSig : bytes; payee : CScript; vMerkleTree : list uint256 }.

Definition CBlock_SetNull : CBlock := mk_CBlock CBlockHeader_SetNull [] [] [] [].
Definition CBlock_of (header : CBlockHeader) : CBlock := mk_CBlock header [] [] [] [].
Definition GetBlockHeader (b : CBlock) : CBlockHeader :=
  mk_CBlockHeader (b_nVersion b) (hashPrevBlock b) (hashMerkleRoot b) (b_nTime b) (b_nBits b) (b_nNonce b) (nAccumulatorCheckpoint b).

(** [vtx.size() > 1 && vtx[1].IsCoinStake()] *)
Definition has_coinstake (vtx : list CTransaction) : bool :=
  match vtx with _ :: tx :: _ => IsCoinStake tx | _ => false end.
Definition CBlock_IsProofOfStake (b : CBlock) : bool := has_coinstake (vtx b).
Definition CBlock_IsProofOfWork (b : CBlock) : bool := negb (CBlock_IsProofOfStake b).

(** [None]: [vtx[1].vin[0]] does not exist. *)
Definition GetProofOfStake (b : CBlock) : option (COutPoint * Z) :=
  if CBlock_IsProofOfStake b then
    match vtx b with _ :: tx :: _ => (fun i => (prevout i, b_nTime b)) <$> head (tx_vin tx) | _ => None end
  else Some (COutPoint_SetNull, 0).

Definition step_CTransaction : Z := 5000000 / 112.

#[export] Instance CBlock_Serializer : Serializer CBlock := {
  Serialize b := Serialize (b_header b) ++ Serialize_vec (vtx b)
                 ++ (if has_coinstake (vtx b) then Serialize_blob (vchBlockSig b) else []);
  Unserialize := fun s =>
    let* (h, s) := Unserialize s in
    let* (v, s) := Unserialize_vec step_CTransaction s in
    let* (sig, s) := (if has_coinstake v then Unserialize_blob s else Ret (vchBlockSig CBlock_SetNull, s)) in
    Ret (mk_CBlock h v sig (payee CBlock_SetNull) (vMerkleTree CBlock_SetNull), s);
  GetSerializeSize b := GetSerializeSize (b_header b) + GetSerializeSize_vec (vtx b)
                        + (if has_coinstake (vtx b) then GetSerializeSize_blob (vchBlockSig b) else 0);
  Serializable b := Serializable (b_header b) /\ Z.of_nat (length (vtx b)) <= MAX_SIZE /\ Forall Serializable (vtx b) /\
    (if has_coinstake (vtx b) then Z.of_nat (length (vchBlockSig b)) <= MAX_SIZE else vchBlockSig b = []) /\
    payee b = [] /\ vMerkleTree b = [] }.

(** The hashes the Merkle tree is built over. *)
Definition txids (b : CBlock) : list uint256 := map tx_hash (vtx b).

(** ** Serialization laws *)

Lemma Unserialize_uint_inv n s x rest : Unserialize_uint n s = Ret (x, rest) -> s = uint_bytes x ++ rest /\ wf n x.
Proof.
  unfold Unserialize_uint. intros ((b & s') & E & [= <- <-])%result_bind_Ret. apply read_bytes_inv in E as [-> Lb].
  rewrite uint_bytes_uint by done. split; [done|]. apply bytes_uint_wf. lia.
Qed.

Lemma header_words_length h : wf 8 (hashPrevBlock h) -> wf 8 (hashMerkleRoot h) -> length (header_words h) = 80%nat.
Proof.
  intros [Lp _] [Lm _]. unfold header_words, ser_writedata. rewrite !length_app, !uint_bytes_length, !length_le_split, Lp, Lm. done.
Qed.

(** The hash of a header of version 4 is the hash of its serialization. *)
Lemma GetHash_serialized HashQuark (h : CBlockHeader) : 4 <= b_nVersion h ->
  CBlockHeader_GetHash HashQuark h = Hash [Serialize h].
Proof.
  intros V. unfold CBlockHeader_GetHash. cbn [Serialize CBlockHeader_Serializer].
  destruct (Z.ltb_spec (b_nVersion h) 4); [lia|]. by replace (b_nVersion h >? 3) with true by (symmetry; apply Z.gtb_lt; lia).
Qed.

#[export] Instance CBlockHeader_SerializerOk : SerializerOk CBlockHeader.
Proof.
  split; [constructor|].
  - intros [v p m t b n a] rest (Hv & Hp & Hm & Ht & Hb & Hn & Ha).
    cbn [Serialize Unserialize CBlockHeader_Serializer b_nVersion hashPrevBlock hashMerkleRoot b_nTime b_nBits b_nNonce nAccumulatorCheckpoint] in *.
    unfold header_words. cbn [b_nVersion hashPrevBlock hashMerkleRoot b_nTime b_nBits b_nNonce].
    rewrite <- !app_assoc, read_i32_app by done. cbn [result_bind].
    rewrite Unserialize_uint_app by done. cbn [result_bind]. rewrite Unserialize_uint_app by done. cbn [result_bind].
    do 3 (rewrite ser_readdata_app by done; cbn [result_bind]).
    destruct (v >? 3); [rewrite Unserialize_uint_app by done; reflexivity|]. by subst a.
  - intros h (Hv & Hp & Hm & _ & _ & _ & Ha). cbn [Serialize GetSerializeSize CBlockHeader_Serializer].
    rewrite length_app, header_words_length by done. destruct (b_nVersion h >? 3); [|done].
    by rewrite uint_bytes_length, (proj1 Ha).
  - intros s x rest. cbn [Unserialize CBlockHeader_Serializer].
    intros ((v & s1) & E1 & R1)%result_bind_Ret. apply read_i32_inv in E1 as [-> Hv].
    apply result_bind_Ret in R1 as ((p & s2) & E2 & R2). apply Unserialize_uint_inv in E2 as [-> Hp].
    apply result_bind_Ret in R2 as ((m & s3) & E3 & R3). apply Unserialize_uint_inv in E3 as [-> Hm].
    apply result_bind_Ret in R3 as ((t & s4) & E4 & R4). apply ser_readdata_inv in E4 as [-> Ht].
    apply result_bind_Ret in R4 as ((b & s5) & E5 & R5). apply ser_readdata_inv in E5 as [-> Hb].
    apply result_bind_Ret in R5 as ((n & s6) & E6 & R6). apply ser_readdata_inv in E6 as [-> Hn].
    apply result_bind_Ret in R6 as ((a & s7) & E7 & [= <- <-]).
    cbn [Serialize Serializable CBlockHeader_Serializer b_nVersion hashPrevBlock hashMerkleRoot b_nTime b_nBits b_nNonce nAccumulatorCheckpoint].
    unfold header_words. cbn [b_nVersion hashPrevBlock hashMerkleRoot b_nTime b_nBits b_nNonce]. rewrite <- !app_assoc.
    destruct (v >? 3).
    + apply Unserialize_uint_inv in E7 as [-> Ha]. repeat (split; [done|]). done.
    + injection E7 as <- <-. repeat (split; [done|]). done.
Qed.

#[export] Instance CBlock_SerializerOk : SerializerOk CBlock.
Proof.
  split; [constructor|].
  - intros [h v sig pay tree] rest (Hh & Hl & Fv & Hs & Hp & Ht). cbn [b_header vtx vchBlockSig payee vMerkleTree] in *. subst pay tree.
    cbn [Serialize Unserialize CBlock_Serializer b_header vtx vchBlockSig]. rewrite <- !app_assoc.
    rewrite Unserialize_Serialize by done. cbn [result_bind]. rewrite Unserialize_vec_app by done. cbn [result_bind].
    destruct (has_coinstake v); [by rewrite Unserialize_blob_app|]. by subst sig.
  - intros [h v sig pay tree] (Hh & Hl & Fv & Hs & _). cbn [Serialize GetSerializeSize CBlock_Serializer b_header vtx vchBlockSig] in *.
    rewrite !length_app, !Nat2Z.inj_add, GetSerializeSize_Serialize, GetSerializeSize_vec_spec by done.
    destruct (has_coinstake v); [rewrite GetSerializeSize_blob_spec by done|cbn [length]]; lia.
  - intros s x rest. cbn [Unserialize CBlock_Serializer].
    intros ((h & s1) & E1 & R1)%result_bind_Ret. apply Unserialize_inv in E1 as [-> Hh].
    apply result_bind_Ret in R1 as ((v & s2) & E2 & R2). apply Unserialize_vec_inv in E2 as (-> & Hl & Fv); [|done].
    apply result_bind_Ret in R2 as ((sig & s3) & E3 & [= <- <-]).
    cbn [Serialize Serializable CBlock_Serializer b_header vtx vchBlockSig payee vMerkleTree]. rewrite <- !app_assoc.
    destruct (has_coinstake v).
    + apply Unserialize_blob_inv in E3 as [-> Hs]. by repeat (split; [done|]).
    + injection E3 as <- <-. by repeat (split; [done|]).
Qed.

(** The block format is a bijection: the bytes from which a block is read are exactly
    those it is written as, and the announced size is right.  The hash that the chain links
    by covers the whole header: two headers of version 4 and more with the same hash are
    equal, or two strings of 112 bytes with the same double SHA-256 have been found. *)
Theorem block_bijection (b : CBlock) (s rest : bytes) :
  (Unserialize s = Ret (b, rest) <-> s = Serialize b ++ rest /\ Serializable b) /\
  (Serializable b -> Z.of_nat (length (Serialize b)) = GetSerializeSize b) /\
  (forall HashQuark (h1 h2 : CBlockHeader), Serializable h1 -> Serializable h2 -> 4 <= b_nVersion h1 -> 4 <= b_nVersion h2 ->
    CBlockHeader_GetHash HashQuark h1 = CBlockHeader_GetHash HashQuark h2 ->
    h1 = h2 \/ exists x y : bytes, length x = 112%nat /\ length y = 112%nat /\ x <> y /\ Hash [x] = Hash [y]).
Proof.
  split; [split; [apply Unserialize_inv|intros [-> H]; by apply Unserialize_Serialize]|].
  split; [apply GetSerializeSize_Serialize|].
  intros HashQuark h1 h2 S1 S2 V1 V2 E. rewrite !GetHash_serialized in E by done.
  assert (L : forall h : CBlockHeader, Serializable h -> 4 <= b_nVersion h -> length (Serialize h) = 112%nat).
  { intros h S V. apply Nat2Z.inj. rewrite GetSerializeSize_Serialize by done. cbn [GetSerializeSize CBlockHeader_Serializer].
    by replace (b_nVersion h >? 3) with true by (symmetry; apply Z.gtb_lt; lia). }
  destruct (decide (Serialize h1 = Serialize h2)) as [Es|Ns]; [left|right; exists (Serialize h1), (Serialize h2); auto].
  pose proof (Unserialize_Serialize h1 [] S1) as U1. pose proof (Unserialize_Serialize h2 [] S2) as U2. rewrite Es in U1. congruence.
Qed.
