(* ===== verification/TxCheck.v ===== *)
(** * Checks of a single transaction ([main.cpp], [main.h])

    [CValidationState], the range of amounts, finality, the counts of signature operations,
    and [CheckTransaction], the checks that need no context. *)

From Stdlib Require Import ZArith Lia List Bool String.
From stdpp Require Import base option list.
From coqutil Require Import Byte Word.LittleEndianList.
From S2P Require Import Prelude Effects Uint256 Serialize MerkleDamgard Hash Script Tx Params.

Open Scope Z_scope.
Open Scope btc_scope.

(** ** [CValidationState] *)

Inductive mode_state : Type := MODE_VALID | MODE_INVALID | MODE_ERROR.

Record CValidationState : Type := mk_validation {
  mode : mode_state; nDoS : Z; strRejectReason : string; chRejectCode : Z; corruptionPossible : bool }.

Definition CValidationState_new : CValidationState := mk_validation MODE_VALID 0 "" 0 false.
Definition DoS (level code : Z) (reason : string) (corruption : bool) (state : CValidationState) : CValidationState :=
  match mode state with
  | MODE_ERROR => mk_validation MODE_ERROR (nDoS state) reason code corruption
  | _ => mk_validation MODE_INVALID (nDoS state + level) reason code corruption
  end.
Definition Invalid (code : Z) (reason : string) (state : CValidationState) : CValidationState := DoS 0 code reason false state.
Definition StateError (reason : string) (state : CValidationState) : CValidationState :=
  mk_validation MODE_ERROR (nDoS state)
    (match mode state with MODE_VALID => reason | _ => strRejectReason state end) (chRejectCode state) (corruptionPossible state).
Definition State_IsValid (state : CValidationState) : bool := match mode state with MODE_VALID => true | _ => false end.
Definition IsInvalid (state : CValidationState) : bool := match mode state with MODE_INVALID => true | _ => false end.
Definition IsError (state : CValidationState) : bool := match mode state with MODE_ERROR => true | _ => false end.

Definition REJECT_INVALID : Z := 0x10.
Definition REJECT_NONSTANDARD : Z := 0x40.

(** How a check ends when it does not [return true]: [return state.DoS(...)] and the like
    leave a state; an exception escapes; an assertion fails; the behaviour is undefined. *)
Inductive failure : Type := Rejected (state : CValidationState) | Throws | Asserts | Undefined.

Definition reject {A} (level code : Z) (reason : string) (state : CValidationState) : result failure A :=
  Err (Rejected (DoS level code reason false state)).

(** With [corruptionIn]. *)
Definition reject_corrupt {A} (level code : Z) (reason : string) (state : CValidationState) : result failure A :=
  Err (Rejected (DoS level code reason true state)).

(** [if (!check) return state.DoS(...)] *)
Definition or_reject {A} (r : result failure A) (f : CValidationState -> result failure A) : result failure A :=
  match r with Err (Rejected state) => f state | _ => r end.

(** The failures of [GetValueOut]: two exceptions and an overflow. *)
Definition of_value {A} (r : result value_error A) : result failure A :=
  match r with Ret a => Ret a | Err ValueOverflow => Err Undefined | Err _ => Err Throws end.

(** ** Zerocoins *)

Definition SCRIPT_OFFSET : nat := 6.
Definition BIGNUM_SIZE : nat := 4.

(** A denomination is its number of cents. *)
Definition ZQ_ERROR : Z := 0.
Definition zerocoinDenomList : list Z := [5; 20; 100; 500; 2000; 10000; 50000; 200000].
Definition IntToZerocoinDenomination (amount : Z) : Z := if bool_decide (amount ∈ zerocoinDenomList) then amount else ZQ_ERROR.
Definition ZerocoinDenominationToInt (denomination : Z) : Z := if bool_decide (denomination ∈ zerocoinDenomList) then denomination else 0.
Definition AmountToZerocoinDenomination (amount : CAmount) : Z := IntToZerocoinDenomination (Z.quot amount CENT).
Definition ZerocoinDenominationToAmount (denomination : Z) : CAmount := CENT * ZerocoinDenominationToInt denomination.

Record PublicCoin : Type := mk_PublicCoin { pc_value : Z; pc_denomination : Z }.

(** What the checks take from the zerocoin library, whose numbers are OpenSSL's, and from its
    database: the number in a vector of bytes, the spend in a stream ([None]: the constructor
    throws) with its fields, its proofs against the value of an accumulator, the validation
    of a public coin, the accumulators known, and whether a mint can be recorded.  The
    database answers for a coin and a transaction what it answered before: it records the
    coin for the first transaction that asks, and refuses the others; so its answers in one
    run are those of a function. *)
Class Zerocoin : Type := {
  setvch : list byte -> Z;
  CoinSpend : Type;
  read_CoinSpend : list byte -> option CoinSpend;
  getDenomination : CoinSpend -> Z;
  getTxOutHash : CoinSpend -> uint256;
  getAccumulatorChecksum : CoinSpend -> Z;
  getCoinSerialNumber : CoinSpend -> Z;
  spend_Verify : CoinSpend -> Z -> Z -> bool;
  coin_validate : PublicCoin -> bool;
  ReadAccumulatorValue : Z -> option Z;
  RecordMintToDB : PublicCoin -> uint256 -> bool }.

Section zerocoin.
Context {Zc : Zerocoin}.

(** [scriptPubKey.begin() + SCRIPT_OFFSET] must not pass the end. *)
Definition TxOutToPublicCoin (txout : CTxOut) (state : CValidationState) : result failure PublicCoin :=
  if (length (scriptPubKey txout) <? SCRIPT_OFFSET)%nat then Err Undefined else
  let publicZerocoin := setvch (drop SCRIPT_OFFSET (scriptPubKey txout)) in
  let denomination := AmountToZerocoinDenomination (nValue txout) in
  if denomination =? ZQ_ERROR then reject 100 0 "" state else Ret (mk_PublicCoin publicZerocoin denomination).

Definition CheckZerocoinMint (txHash : uint256) (txout : CTxOut) (state : CValidationState) (fCheckOnly : bool) : result failure unit :=
  match TxOutToPublicCoin txout state with
  | Ret pubCoin =>
      if negb (coin_validate pubCoin) then reject 100 0 "" state else
      if negb fCheckOnly && negb (RecordMintToDB pubCoin txHash) then reject 100 0 "" state else Ret tt
  | Err (Rejected state) => reject 100 0 "" state
  | Err e => Err e
  end.

(** [scriptSig.begin() + BIGNUM_SIZE] must not pass the end. *)
Definition TxInToZerocoinSpend (txin : CTxIn) : result failure CoinSpend :=
  if (length (scriptSig txin) <? BIGNUM_SIZE)%nat then Err Undefined else
  match read_CoinSpend (drop BIGNUM_SIZE (scriptSig txin)) with Some spend => Ret spend | None => Err Throws end.

(** The loop of [CheckZerocoinSpend]: [nTotalRedeemed] and [fValidated] at its end. *)
Fixpoint check_spends (hashTxOut : uint256) (fVerifySignature : bool) (vin : list CTxIn) (serials : list Z) (nTotalRedeemed : CAmount)
    (fValidated : bool) (state : CValidationState) : result failure (CAmount * bool) :=
  match vin with
  | [] => Ret (nTotalRedeemed, fValidated)
  | txin :: vin =>
      if negb (IsZerocoinSpend (scriptSig txin)) then check_spends hashTxOut fVerifySignature vin serials nTotalRedeemed fValidated state else
      let* newSpend := TxInToZerocoinSpend txin in
      if getDenomination newSpend =? ZQ_ERROR then reject 100 0 "" state else
      if negb (getDenomination newSpend =? nSequence txin) then reject 100 0 "" state else
      if negb (bool_decide (getTxOutHash newSpend = hashTxOut)) then reject 100 0 "" state else
      if fVerifySignature && negb (match ReadAccumulatorValue (getAccumulatorChecksum newSpend) with
                                   | None => false
                                   | Some bnAccumulatorValue => spend_Verify newSpend (getDenomination newSpend) bnAccumulatorValue
                                   end) then reject 100 0 "" state else
      if bool_decide (getCoinSerialNumber newSpend ∈ serials) then reject 100 0 "" state else
      match add_amount (Some nTotalRedeemed) (ZerocoinDenominationToAmount (getDenomination newSpend)) with
      | None => Err Undefined
      | Some nTotalRedeemed => check_spends hashTxOut fVerifySignature vin (getCoinSerialNumber newSpend :: serials) nTotalRedeemed true state
      end
  end.

(** [txTemp.GetHash()]: the outputs in a transaction of their own. *)
Definition hash_of_outputs (vout : list CTxOut) : uint256 :=
  SerializeHash (mk_CMutableTransaction (tx_nVersion CMutableTransaction_new) (tx_vin CMutableTransaction_new) vout (tx_nLockTime CMutableTransaction_new)).

(** The notice to the wallet at the end, which changes no result, is left out. *)
Definition CheckZerocoinSpend (tx : CTransaction) (fVerifySignature : bool) (state : CValidationState) : result failure unit :=
  if (2 <? length (tx_vout tx))%nat && (2 <? length (List.filter (fun o => negb (CTxOut_IsZerocoinMint o)) (tx_vout tx)))%nat
  then reject 100 0 "" state else
  let* (nTotalRedeemed, fValidated) := check_spends (hash_of_outputs (tx_vout tx)) fVerifySignature (tx_vin tx) [] 0 false state in
  let* nValueOut := of_value (GetValueOut tx) in
  if nTotalRedeemed <? nValueOut then reject 100 0 "" state else
  if fValidated then Ret tt else Err (Rejected state).
End zerocoin.

(** ** Amounts, finality, signature operations *)

Section check.
Context (params : CChainParams).

Definition MoneyRange (nValueOut : CAmount) : bool := (nValueOut >=? 0) && (nValueOut <=? nMaxMoneyOut params).

Definition LOCKTIME_THRESHOLD : Z := 500000000.
Definition LOCKTIME_MEDIAN_TIME_PAST : Z := 2.

(** The height of the active chain and the adjusted time stand for the two globals that are
    read when an argument is zero. *)
Definition IsFinalTx (tx : CMutableTransaction) (chainHeight adjustedTime nBlockHeight nBlockTime : Z) : bool :=
  if tx_nLockTime tx =? 0 then true else
  let nBlockHeight := if nBlockHeight =? 0 then chainHeight else nBlockHeight in
  let nBlockTime := if nBlockTime =? 0 then adjustedTime else nBlockTime in
  if tx_nLockTime tx <? (if tx_nLockTime tx <? LOCKTIME_THRESHOLD then nBlockHeight else nBlockTime) then true
  else forallb CTxIn_IsFinal (tx_vin tx).

Definition CheckFinalTx (tx : CMutableTransaction) (flags chainHeight medianTimePast adjustedTime : Z) : bool :=
  let flags := Z.max flags 0 in
  let nBlockHeight := chainHeight + 1 in
  let nBlockTime := if negb (Z.land flags LOCKTIME_MEDIAN_TIME_PAST =? 0) then medianTimePast else adjustedTime in
  IsFinalTx tx chainHeight adjustedTime nBlockHeight nBlockTime.

Definition GetLegacySigOpCount (tx : CMutableTransaction) : Z :=
  let nSigOps := fold_left (fun n i => u32 (n + GetSigOpCount (scriptSig i) false)) (tx_vin tx) 0 in
  fold_left (fun n o => u32 (n + GetSigOpCount (scriptPubKey o) false)) (tx_vout tx) nSigOps.

(** ** [CheckTransaction] *)

Definition MAX_STANDARD_TX_SIZE : Z := 1000000.
Definition MAX_ZEROCOIN_TX_SIZE : Z := MAX_STANDARD_TX_SIZE.

Context {Zc : Zerocoin}.

(** Whether signatures of zerocoin spends are verified: not in the initial download, nor
    when the tip is older than a day.  The tip is read in the second case only; [None]: there
    is no tip. *)
Context (InitialBlockDownload : bool) (now : Z) (tipTime : option Z).
Definition fVerifySignature : option bool :=
  if InitialBlockDownload then Some false else (fun t => now - t <? 60 * 60 * 24) <$> tipTime.

(** The loop over the outputs. *)
Fixpoint check_vout (tx : CTransaction) (fZerocoinActive : bool) (vout : list CTxOut) (nValueOut : CAmount) (state : CValidationState) :
    result failure CAmount :=
  match vout with
  | [] => Ret nValueOut
  | txout :: vout =>
      if CTxOut_IsEmpty txout && negb (IsCoinBase tx) && negb (IsCoinStake tx) then reject 100 0 "" state else
      if nValue txout <? 0 then reject 100 REJECT_INVALID "bad-txns-vout-negative" state else
      if nValue txout >? nMaxMoneyOut params then reject 100 REJECT_INVALID "bad-txns-vout-toolarge" state else
      match add_amount (Some nValueOut) (nValue txout) with
      | None => Err Undefined
      | Some nValueOut =>
          if negb (MoneyRange nValueOut) then reject 100 REJECT_INVALID "bad-txns-txouttotal-toolarge" state else
          let* _ := (if fZerocoinActive && CTxOut_IsZerocoinMint txout
                     then or_reject (CheckZerocoinMint (tx_hash tx) txout state false) (reject 100 0 "") else Ret tt) in
          check_vout tx fZerocoinActive vout nValueOut state
      end
  end.

(** The loop over the inputs: the set of out points, and the number of zerocoin spends. *)
Fixpoint check_vin (vin : list CTxIn) (vInOutPoints : list COutPoint) (nZCSpendCount : Z) (state : CValidationState) : result failure Z :=
  match vin with
  | [] => Ret nZCSpendCount
  | txin :: vin =>
      if bool_decide (prevout txin ∈ vInOutPoints) then reject 100 REJECT_INVALID "bad-txns-inputs-duplicate" state else
      if negb (CTxIn_IsZerocoinSpend txin) then check_vin vin (prevout txin :: vInOutPoints) nZCSpendCount state
      else check_vin vin vInOutPoints (nZCSpendCount + 1) state
  end.

(** The block under [if (fZerocoinActive)]. *)
Definition check_zerocoin (tx : CTransaction) (nZCSpendCount : Z) (state : CValidationState) : result failure unit :=
  if nZCSpendCount >? nMaxZerocoinSpendsPerTransaction params then reject 100 0 "" state else
  if HasZerocoinSpendInputs tx then
    if negb (forallb CTxIn_IsZerocoinSpend (tx_vin tx)) then reject 100 0 "" state else
    match fVerifySignature with
    | None => Err Undefined
    | Some fVerifySignature =>
        or_reject (CheckZerocoinSpend tx fVerifySignature state) (reject 100 0 "")
    end
  else Ret tt.

(** [7efe9ca02792f6aa2019b410563bc629949999166c3d4073817e157270fb3290]: the code compares
    the hexadecimal text of the hash. *)
Definition bad_prevout_hash : uint256 :=
  [0x70fb3290; 0x817e1572; 0x6c3d4073; 0x94999916; 0x563bc629; 0x2019b410; 0x2792f6aa; 0x7efe9ca0].

Fixpoint check_prevouts (fZerocoinActive : bool) (vin : list CTxIn) (state : CValidationState) : result failure unit :=
  match vin with
  | [] => Ret tt
  | txin :: vin =>
      if COutPoint_IsNull (prevout txin) && (fZerocoinActive && negb (CTxIn_IsZerocoinSpend txin))
      then reject 10 REJECT_INVALID "bad-txns-prevout-null" state else
      if (prev_n (prevout txin) =? 0) && bool_decide (prev_hash (prevout txin) = bad_prevout_hash)
      then reject 1 REJECT_INVALID "bad-prevout" state else check_prevouts fZerocoinActive vin state
  end.

(** The last part, by kind of transaction. *)
Definition check_kind (tx : CTransaction) (fZerocoinActive : bool) (state : CValidationState) : result failure unit :=
  if IsCoinBase tx then
    match tx_vin tx with
    | [] => Err Undefined
    | i :: _ =>
        let size := Z.of_nat (length (scriptSig i)) in
        if (size <? 2) || (size >? 150) then reject 100 REJECT_INVALID "bad-cb-length" state else Ret tt
    end
  else if fZerocoinActive && HasZerocoinSpendInputs tx then
    let size := Z.of_nat (length (tx_vin tx)) in
    if (size <? 1) || (size >? nMaxZerocoinSpendsPerTransaction params) then reject 10 REJECT_INVALID "bad-zerocoinspend" state else Ret tt
  else
    let* _ := check_prevouts fZerocoinActive (tx_vin tx) state in
    if IsCoinStake tx && (Z.of_nat (length (tx_vout tx)) >? 10) then reject 100 REJECT_INVALID "bad-stake-length" state else Ret tt.

Definition CheckTransaction (tx : CTransaction) (fZerocoinActive : bool) (state : CValidationState) : result failure unit :=
  if (length (tx_vin tx) =? 0)%nat then reject 10 REJECT_INVALID "bad-txns-vin-empty" state else
  if (length (tx_vout tx) =? 0)%nat then reject 10 REJECT_INVALID "bad-txns-vout-empty" state else
  if GetSerializeSize tx >? MAX_ZEROCOIN_TX_SIZE then reject 100 REJECT_INVALID "bad-txns-oversize" state else
  let* _ := check_vout tx fZerocoinActive (tx_vout tx) 0 state in
  let* nZCSpendCount := check_vin (tx_vin tx) [] 0 state in
  let* _ := (if fZerocoinActive then check_zerocoin tx nZCSpendCount state else Ret tt) in
  check_kind tx fZerocoinActive state.
End check.

(** ** What is accepted *)

(** A failure that is reported to the caller, not an accident. *)
Definition reported (e : failure) : Prop := exists state, e = Rejected state.

(** [r] succeeds exactly under [P], and otherwise reports or has one of the accidents [X]. *)
Definition decides (X : failure -> Prop) {A} (r : result failure A) (P : Prop) (Q : A -> Prop) : Prop :=
  match r with Ret a => P /\ Q a | Err e => ~ P /\ (reported e \/ X e) end.
Definition no_accident (e : failure) : Prop := False.

#[export] Instance decides_proper X {A} : Proper (eq ==> iff ==> pointwise_relation A iff ==> iff) (@decides X A).
Proof. intros r ? <- P P' HP Q Q' HQ. destruct r; cbn [decides]; [by rewrite HP, (HQ a)|by rewrite HP]. Qed.

Section decides.
Context {X : failure -> Prop}.

Lemma decides_reject {A} level code reason st (P : Prop) (Q : A -> Prop) : ~ P -> decides X (reject level code reason st) P Q.
Proof. intros N. split; [exact N|left; by eexists]. Qed.

Lemma decides_bind {A B} (r : result failure A) (f : A -> result failure B) P Q P' R :
  decides X r P Q -> (forall a, P -> Q a -> decides X (f a) P' R) -> (P' -> P) -> decides X (result_bind r f) P' R.
Proof.
  intros D K I. destruct r as [a|e]; cbn [decides result_bind] in *; [apply K; apply D|]. destruct D as [N Re]. auto.
Qed.

(** The same for code that changes a state. *)
Lemma decides_ebind {S A B} (m : eff S failure A) (f : A -> eff S failure B) s P Q P' R :
  decides X (m s).1 P Q -> (forall a s', P -> Q a -> decides X (f a s').1 P' R) -> (P' -> P) -> decides X (ebind m f s).1 P' R.
Proof.
  unfold ebind. intros D K I. destruct (m s) as [[a|e] s']; cbn [decides fst] in *; [apply K; apply D|]. destruct D as [N Re]. auto.
Qed.

Lemma decides_corrupt {A} level code reason st (P : Prop) (Q : A -> Prop) : ~ P -> decides X (reject_corrupt level code reason st) P Q.
Proof. intros N. split; [exact N|left; by eexists]. Qed.

(** A test that rejects when [b] holds. *)
Lemma decides_test {A} (b : bool) level code reason st (r : result failure A) (P P' : Prop) (Q : A -> Prop) :
  (b = false <-> P) -> (P' -> P) -> (P -> decides X r P' Q) -> decides X (if b then reject level code reason st else r) P' Q.
Proof.
  intros Hb I D. destruct b; [apply decides_reject; intros K; apply I, Hb in K; done|]. by apply D, Hb.
Qed.

Lemma decides_weaken {A} (Y : failure -> Prop) (r : result failure A) (P P' : Prop) (Q Q' : A -> Prop) :
  decides X r P Q -> (P' <-> P) -> (forall a, Q a -> Q' a) -> (forall e, X e -> Y e) -> decides Y r P' Q'.
Proof.
  intros D I W XY. destruct r; cbn [decides] in *; rewrite I; [split; [apply D|apply W, D]|]. split; [apply D|].
  destruct D as [_ [D|D]]; auto.
Qed.
End decides.

(** A later block and a later time keep a transaction final. *)
Lemma IsFinalTx_monotone tx ch ch' at_ at' h h' t t' : 0 < h <= h' -> 0 < t <= t' ->
  IsFinalTx tx ch at_ h t = true -> IsFinalTx tx ch' at' h' t' = true.
Proof.
  intros Hh Ht. unfold IsFinalTx. destruct (tx_nLockTime tx =? 0); [done|].
  rewrite !(proj2 (Z.eqb_neq _ 0)) by lia. destruct (tx_nLockTime tx <? LOCKTIME_THRESHOLD).
  - destruct (Z.ltb_spec (tx_nLockTime tx) h), (Z.ltb_spec (tx_nLockTime tx) h'); try done; lia.
  - destruct (Z.ltb_spec (tx_nLockTime tx) t), (Z.ltb_spec (tx_nLockTime tx) t'); try done; lia.
Qed.

Section accept.
Context (params : CChainParams) (Hp : params_ok params) {Zc : Zerocoin}.
Context (InitialBlockDownload : bool) (now : Z) (tipTime : option Z) (Htip : InitialBlockDownload = false -> is_Some tipTime).
Context (tx : CTransaction) (fZerocoinActive : bool) (state : CValidationState).

(** A mint: a coin of a denomination, that is valid and not recorded for another
    transaction. *)
Definition public_coin (o : CTxOut) : PublicCoin :=
  mk_PublicCoin (setvch (drop SCRIPT_OFFSET (scriptPubKey o))) (AmountToZerocoinDenomination (nValue o)).
Definition mint_ok (o : CTxOut) : Prop :=
  (SCRIPT_OFFSET <= length (scriptPubKey o))%nat /\ AmountToZerocoinDenomination (nValue o) <> ZQ_ERROR /\
  coin_validate (public_coin o) = true /\ RecordMintToDB (public_coin o) (tx_hash tx) = true.

(** An output of the transaction. *)
Definition vout_ok (o : CTxOut) : Prop :=
  (CTxOut_IsEmpty o = true -> IsCoinBase tx = true \/ IsCoinStake tx = true) /\
  0 <= nValue o <= nMaxMoneyOut params /\
  (fZerocoinActive = true -> CTxOut_IsZerocoinMint o = true -> mint_ok o).

(** The spend that an input holds, of the denomination it announces, made for the outputs and,
    when this is looked at, proved against a known accumulator. *)
Definition spend_ok (hashTxOut : uint256) (fVerify : bool) (i : CTxIn) (spend : CoinSpend) : Prop :=
  TxInToZerocoinSpend i = Ret spend /\ getDenomination spend <> ZQ_ERROR /\ getDenomination spend = nSequence i /\
  getTxOutHash spend = hashTxOut /\
  (fVerify = true -> exists acc, ReadAccumulatorValue (getAccumulatorChecksum spend) = Some acc /\
     spend_Verify spend (getDenomination spend) acc = true).
Definition redeemed (spends : list CoinSpend) : Z := foldr (fun s n => ZerocoinDenominationToAmount (getDenomination s) + n) 0 spends.

(** The accidents: a mint or a spend whose script is too short makes an iterator pass the
    end; a spend that cannot be read throws. *)
Definition short_mint (o : CTxOut) : Prop := CTxOut_IsZerocoinMint o = true /\ (length (scriptPubKey o) < SCRIPT_OFFSET)%nat.
Definition bad_spend (e : failure) (i : CTxIn) : Prop := CTxIn_IsZerocoinSpend i = true /\ TxInToZerocoinSpend i = Err e.
Definition zerocoin_accident (e : failure) : Prop :=
  fZerocoinActive = true /\ (e = Undefined /\ Exists short_mint (tx_vout tx) \/ Exists (bad_spend e) (tx_vin tx)).

(** No out point after the same one of an ordinary input. *)
Definition distinct_prevouts (vin : list CTxIn) : Prop :=
  forall i j a b, vin !! i = Some a -> vin !! j = Some b -> (i < j)%nat -> CTxIn_IsZerocoinSpend a = false -> prevout a <> prevout b.
Definition spend_count (vin : list CTxIn) : Z := Z.of_nat (length (List.filter CTxIn_IsZerocoinSpend vin)).

Definition zerocoin_ok : Prop :=
  spend_count (tx_vin tx) <= nMaxZerocoinSpendsPerTransaction params /\
  (HasZerocoinSpendInputs tx = true -> forallb CTxIn_IsZerocoinSpend (tx_vin tx) = true /\
    (length (List.filter (fun o => negb (CTxOut_IsZerocoinMint o)) (tx_vout tx)) <= 2)%nat /\
    exists fVerify spends, fVerifySignature InitialBlockDownload now tipTime = Some fVerify /\
      Forall2 (spend_ok (hash_of_outputs (tx_vout tx)) fVerify) (tx_vin tx) spends /\
      NoDup (map getCoinSerialNumber spends) /\ sum_values (tx_vout tx) <= redeemed spends).

Definition prevout_ok (i : CTxIn) : Prop :=
  (fZerocoinActive = true -> COutPoint_IsNull (prevout i) = true -> CTxIn_IsZerocoinSpend i = true) /\
  ~ (prev_n (prevout i) = 0 /\ prev_hash (prevout i) = bad_prevout_hash).

Definition kind_ok : Prop :=
  if IsCoinBase tx then exists i vin, tx_vin tx = i :: vin /\ (2 <= length (scriptSig i) <= 150)%nat
  else if fZerocoinActive && HasZerocoinSpendInputs tx
    then 1 <= Z.of_nat (length (tx_vin tx)) <= nMaxZerocoinSpendsPerTransaction params
  else Forall prevout_ok (tx_vin tx) /\ (IsCoinStake tx = true -> (length (tx_vout tx) <= 10)%nat).

Definition transaction_ok : Prop :=
  tx_vin tx <> [] /\ tx_vout tx <> [] /\ GetSerializeSize tx <= MAX_ZEROCOIN_TX_SIZE /\
  Forall vout_ok (tx_vout tx) /\ sum_values (tx_vout tx) <= nMaxMoneyOut params /\
  distinct_prevouts (tx_vin tx) /\ (fZerocoinActive = true -> zerocoin_ok) /\ kind_ok.

Lemma CheckZerocoinMint_spec o :
  decides (fun e => e = Undefined /\ (length (scriptPubKey o) < SCRIPT_OFFSET)%nat)
    (or_reject (CheckZerocoinMint (tx_hash tx) o state false) (reject 100 0 "")) (mint_ok o) (fun _ => True).
Proof using.
  unfold CheckZerocoinMint, TxOutToPublicCoin, mint_ok. destruct (Nat.ltb_spec (length (scriptPubKey o)) SCRIPT_OFFSET) as [L|L].
  { split; [lia|]. right. by split. }
  cbv zeta. fold (public_coin o). destruct (Z.eqb_spec (AmountToZerocoinDenomination (nValue o)) ZQ_ERROR) as [E|E]; [by apply decides_reject; intros (_ & N & _)|].
  destruct (coin_validate (public_coin o)) eqn:V; cbn [negb]; [|by apply decides_reject; intros (_ & _ & N & _)].
  destruct (RecordMintToDB (public_coin o) (tx_hash tx)) eqn:R; cbn [negb andb]; [by repeat split|by apply decides_reject; intros (_ & _ & _ & N)].
Qed.

Lemma check_vout_spec vout n : 0 <= n <= nMaxMoneyOut params ->
  decides (fun e => fZerocoinActive = true /\ e = Undefined /\ Exists short_mint vout) (check_vout params tx fZerocoinActive vout n state)
    (Forall vout_ok vout /\ n + sum_values vout <= nMaxMoneyOut params) (fun m => m = n + sum_values vout).
Proof using Hp.
  revert n. induction vout as [|o vout IH]; intros n Hn; cbn [check_vout sum_values fold_right]; [split; [split; [constructor|lia]|lia]|].
  fold (sum_values vout). pose proof (money_range params Hp) as M. unfold Params.COIN in M.
  destruct (CTxOut_IsEmpty o && negb (IsCoinBase tx) && negb (IsCoinStake tx)) eqn:Em.
  { apply decides_reject. intros [F _]. apply Forall_cons in F as [[F _] _]. destruct (CTxOut_IsEmpty o), (IsCoinBase tx), (IsCoinStake tx); try done. by destruct (F eq_refl). }
  destruct (Z.ltb_spec (nValue o) 0); [apply decides_reject; intros [F _]; apply Forall_cons in F as [(_ & F & _) _]; lia|].
  destruct (Z.gtb_spec (nValue o) (nMaxMoneyOut params)); [apply decides_reject; intros [F _]; apply Forall_cons in F as [(_ & F & _) _]; lia|].
  unfold add_amount. cbn [mbind option_bind].
  replace ((- 2 ^ 63 <=? n + nValue o) && (n + nValue o <? 2 ^ 63)) with true
    by (symmetry; apply andb_true_intro; split; [apply Z.leb_le|apply Z.ltb_lt]; lia).
  destruct (MoneyRange params (n + nValue o)) eqn:R; unfold MoneyRange in R; rewrite Z.geb_leb in R; cbn [negb].
  2: { apply decides_reject. intros [F T]. apply andb_false_iff in R as [R|R]; apply Z.leb_gt in R; [lia|].
       apply Forall_cons in F as [_ F]. assert (0 <= sum_values vout); [|lia].
       apply sum_values_nonneg. eapply Forall_impl; [exact F|]. intros x (_ & X & _). lia. }
  apply andb_true_iff in R as [_ R]. apply Z.leb_le in R.
  assert (Hc : vout_ok o <-> (fZerocoinActive = true -> CTxOut_IsZerocoinMint o = true -> mint_ok o)).
  { unfold vout_ok. split; [tauto|]. intros F. split; [destruct (CTxOut_IsEmpty o), (IsCoinBase tx), (IsCoinStake tx); auto|]. split; [lia|done]. }
  eapply (decides_bind _ _ (fZerocoinActive = true -> CTxOut_IsZerocoinMint o = true -> mint_ok o) (fun _ => True)).
  - destruct fZerocoinActive eqn:Fz, (CTxOut_IsZerocoinMint o) eqn:Zm; cbn [andb]; try by split.
    eapply decides_weaken; [apply CheckZerocoinMint_spec|tauto|done|]. intros e [-> L]. split; [done|]. split; [done|]. by apply Exists_cons_hd.
  - intros _ Hm _. specialize (IH (n + nValue o) ltac:(lia)). destruct (check_vout _ _ _ _ _ _); cbn [decides] in *; rewrite Forall_cons.
    + destruct IH as [[F T] ->]. split; [|lia]. split; [|lia]. split; [by apply Hc|done].
    + destruct IH as [N Re]. split; [intros [[_ F] T]; apply N; split; [done|lia]|]. destruct Re as [Re|(A & B & C)]; [by left|right].
      split; [done|]. split; [done|]. by apply Exists_cons_tl.
  - intros [F _]. apply Forall_cons in F as [F _]. exact (proj1 Hc F).
Qed.

Lemma distinct_cons i vin : distinct_prevouts (i :: vin) <->
  distinct_prevouts vin /\ (CTxIn_IsZerocoinSpend i = false -> Forall (fun x => prevout x <> prevout i) vin).
Proof using.
  split.
  - intros D. split.
    + intros a b x y Hx Hy L. apply (D (S a) (S b)); [done|done|lia].
    + intros Z. apply Forall_lookup. intros b y Hy E. by apply (D 0%nat (S b) i y eq_refl Hy ltac:(lia)).
  - intros [D F] [|a] [|b] x y Hx Hy L; try lia.
    + injection Hx as ->. intros Z E. specialize (F Z). rewrite Forall_lookup in F. by apply (F b y Hy).
    + apply (D a b); [done|done|lia].
Qed.

Lemma check_vin_spec vin S k :
  decides no_accident (check_vin vin S k state) (distinct_prevouts vin /\ Forall (fun x => prevout x ∉ S) vin) (fun m => m = k + spend_count vin).
Proof using.
  revert S k. induction vin as [|i vin IH]; intros S k; cbn [check_vin].
  { split; [split; [by intros ? ? ? ? Hx|constructor]|]. unfold spend_count. cbn. lia. }
  rewrite distinct_cons. case_bool_decide as E.
  { apply decides_reject. intros [_ F]. by apply Forall_cons in F as [F _]. }
  unfold spend_count in *. cbn [List.filter]. destruct (CTxIn_IsZerocoinSpend i) eqn:Z; cbn [negb].
  - specialize (IH S (k + 1)). destruct (check_vin _ _ _ _); cbn [decides length] in *.
    + destruct IH as [[D F] ->]. split; [|lia]. rewrite Forall_cons. by repeat (split; [done|]).
    + destruct IH as [N R]. split; [|done]. intros [[D _] F]. apply N. by apply Forall_cons in F as [_ F].
  - specialize (IH (prevout i :: S) k). destruct (check_vin _ _ _ _); cbn [decides] in *.
    + destruct IH as [[D F] ->]. split; [|done]. rewrite Forall_cons. split; [split; [done|intros _]|split; [done|]];
        (eapply Forall_impl; [exact F|]; intros x; cbn; rewrite not_elem_of_cons; by intros []).
    + destruct IH as [N R]. split; [|done]. intros [[D F1] F2]. apply N. split; [done|]. apply Forall_cons in F2 as [_ F2]. specialize (F1 eq_refl).
      apply Forall_forall. intros x Hx. rewrite not_elem_of_cons. rewrite Forall_forall in F1, F2. auto.
Qed.

Lemma ZerocoinDenominationToAmount_range d : 0 <= ZerocoinDenominationToAmount d <= 200000 * CENT.
Proof using.
  unfold ZerocoinDenominationToAmount, ZerocoinDenominationToInt, CENT. case_bool_decide as E; [|lia].
  unfold zerocoinDenomList in E. rewrite !elem_of_cons, elem_of_nil in E. lia.
Qed.

Lemma check_spends_spec (h : uint256) (fv : bool) vin : forall seen n b, Forall (fun i => IsZerocoinSpend (scriptSig i) = true) vin ->
  0 <= n -> n + 200000 * CENT * Z.of_nat (length vin) < 2 ^ 63 ->
  decides (fun e => Exists (fun i => TxInToZerocoinSpend i = Err e) vin) (check_spends h fv vin seen n b state)
    (exists l, Forall2 (spend_ok h fv) vin l /\ NoDup (map getCoinSerialNumber l) /\ Forall (fun s => getCoinSerialNumber s ∉ seen) l)
    (fun r => exists l, Forall2 (spend_ok h fv) vin l /\ r = (n + redeemed l, b || negb (length vin =? 0)%nat)).
Proof using.
  induction vin as [|i vin IH]; intros seen n b Fz Hn Hb; cbn [check_spends].
  { split; exists []; [by repeat constructor|]. split; [constructor|]. cbn. by rewrite Z.add_0_r, orb_false_r. }
  apply Forall_cons in Fz as [Ez Fz]. rewrite Ez. cbn [negb length] in *.
  destruct (TxInToZerocoinSpend i) as [s|e] eqn:Es; cbn [result_bind].
  2: { split; [|right; by apply Exists_cons_hd]. intros (l & F & _). inversion F as [|? ? ? ? K]; subst. destruct K as [K _]. congruence. }
  assert (Inv : forall l, Forall2 (spend_ok h fv) (i :: vin) l -> exists l', l = s :: l' /\ spend_ok h fv i s /\ Forall2 (spend_ok h fv) vin l').
  { intros l F. inversion F as [|? s' ? l' K F']; subst. assert (s' = s) as -> by (destruct K as [K _]; congruence). by exists l'. }
  destruct (Z.eqb_spec (getDenomination s) ZQ_ERROR); [apply decides_reject; intros (l & F & _); by apply Inv in F as (? & _ & (_ & ? & _) & _)|].
  destruct (Z.eqb_spec (getDenomination s) (nSequence i)); cbn [negb]; [|apply decides_reject; intros (l & F & _); by apply Inv in F as (? & _ & (_ & _ & ? & _) & _)].
  case_bool_decide; cbn [negb]; [|apply decides_reject; intros (l & F & _); by apply Inv in F as (? & _ & (_ & _ & _ & ? & _) & _)].
  set (acc := match ReadAccumulatorValue _ with Some _ => _ | None => _ end).
  assert (Hacc : acc = true <-> exists a, ReadAccumulatorValue (getAccumulatorChecksum s) = Some a /\ spend_Verify s (getDenomination s) a = true).
  { unfold acc. destruct (ReadAccumulatorValue _) as [a|]; [split; [by exists a|by intros (? & [= <-] & ?)]|split; [done|by intros (? & ? & _)]]. }
  destruct (fv && negb acc) eqn:Ev.
  { apply decides_reject. intros (l & F & _). apply Inv in F as (? & _ & (_ & _ & _ & _ & K) & _). apply andb_true_iff in Ev as [-> Ev].
    apply negb_true_iff in Ev. rewrite (proj2 Hacc (K eq_refl)) in Ev. done. }
  assert (Ok : spend_ok h fv i s) by (do 4 (split; [done|]); intros ->; apply Hacc; by destruct acc).
  case_bool_decide as Eseen.
  { apply decides_reject. intros (l & F & _ & Fs). apply Inv in F as (l' & -> & _). by apply Forall_cons in Fs as [Fs _]. }
  pose proof (ZerocoinDenominationToAmount_range (getDenomination s)) as R. unfold CENT in *.
  unfold add_amount. cbn [mbind option_bind]. replace ((_ <=? _) && (_ <? _)) with true
    by (symmetry; apply andb_true_intro; split; [apply Z.leb_le|apply Z.ltb_lt]; lia).
  eapply decides_weaken; [apply (IH (getCoinSerialNumber s :: seen)); [done|lia|lia]| | |].
  - split.
    + intros (l & F & N & Fs). apply Inv in F as (l' & -> & _ & F). exists l'. apply Forall_cons in Fs as [_ Fs].
      cbn [map] in N. apply NoDup_cons in N as [Ni N]. split; [done|]. split; [done|]. rewrite Forall_forall in Fs |- *. intros x Hx [E|K]%elem_of_cons; [|by apply (Fs x)].
      apply Ni. rewrite <- E. apply list_elem_of_fmap. by exists x.
    + intros (l & F & N & Fs). exists (s :: l). split; [by constructor|]. split; cbn [map].
      * apply NoDup_cons. split; [|done]. intros (x & E & Hx)%list_elem_of_fmap. rewrite Forall_forall in Fs. apply (Fs x Hx). rewrite <- E. apply list_elem_of_here.
      * constructor; [done|]. eapply Forall_impl; [exact Fs|]. intros x Hx K. apply Hx. by apply list_elem_of_further.
  - intros r (l & F & ->). exists (s :: l). split; [by constructor|]. cbn [redeemed foldr]. fold (redeemed l). cbn [Nat.eqb negb]. rewrite orb_true_r. f_equal. lia.
  - intros x K. by apply Exists_cons_tl.
Qed.

Lemma CheckZerocoinSpend_spec fv : forallb CTxIn_IsZerocoinSpend (tx_vin tx) = true -> tx_vin tx <> [] ->
  Z.of_nat (length (tx_vin tx)) <= 1000 -> GetValueOut tx = Ret (sum_values (tx_vout tx)) ->
  decides (fun e => Exists (bad_spend e) (tx_vin tx)) (or_reject (CheckZerocoinSpend tx fv state) (reject 100 0 ""))
    ((length (List.filter (fun o => negb (CTxOut_IsZerocoinMint o)) (tx_vout tx)) <= 2)%nat /\
     exists spends, Forall2 (spend_ok (hash_of_outputs (tx_vout tx)) fv) (tx_vin tx) spends /\
      NoDup (map getCoinSerialNumber spends) /\ sum_values (tx_vout tx) <= redeemed spends) (fun _ => True).
Proof using.
  intros All Ne L Ev. unfold CheckZerocoinSpend. set (outs := List.filter _ _).
  assert (Lo : (2 <? length (tx_vout tx))%nat && (2 <? length outs)%nat = false <-> (length outs <= 2)%nat).
  { pose proof (List.filter_length_le (fun o => negb (CTxOut_IsZerocoinMint o)) (tx_vout tx)) as K. fold outs in K.
    destruct (Nat.ltb_spec 2 (length (tx_vout tx))), (Nat.ltb_spec 2 (length outs)); cbn [andb]; split; try done; lia. }
  destruct (_ && _); [apply decides_reject; intros [K _]; by apply Lo in K|]. pose proof (proj1 Lo eq_refl) as Lo'. clear Lo.
  rewrite forallb_forall in All.
  assert (Fz : Forall (fun i => IsZerocoinSpend (scriptSig i) = true) (tx_vin tx)).
  { apply Forall_forall. intros i Hi%list_elem_of_In. specialize (All i Hi). unfold CTxIn_IsZerocoinSpend in All. by apply andb_true_iff in All as [_ All]. }
  pose proof (check_spends_spec (hash_of_outputs (tx_vout tx)) fv (tx_vin tx) [] 0 false Fz ltac:(lia) ltac:(unfold CENT; lia)) as D.
  destruct (check_spends _ _ _ _ _ _ _) as [[n b]|e]; cbn [decides result_bind] in *.
  - destruct D as [(l & F & N & _) (l' & F' & [= -> ->])].
    assert (l' = l) as ->. { clear -F F'. revert l' F'. induction F as [|i s vin l K F IH]; intros l' F'; inversion F' as [|? ? ? ? K' F1]; subst; [done|].
      f_equal; [destruct K as [K _], K' as [K' _]; congruence|by apply IH]. }
    rewrite Ev. cbn [of_value result_bind]. rewrite Z.add_0_l. destruct (tx_vin tx) as [|i0 vin0]; [done|]. cbn [orb negb length Nat.eqb].
    destruct (Z.ltb_spec (redeemed l) (sum_values (tx_vout tx))).
    + apply decides_reject. intros [_ (l1 & F1 & _ & T)]. assert (l1 = l) as ->; [|lia].
      clear -F F1. revert l1 F1. induction F as [|i s vin l K F IH]; intros l1 F1; inversion F1 as [|? ? ? ? K' F2]; subst; [done|].
      f_equal; [destruct K as [K _], K' as [K' _]; congruence|by apply IH].
    + split; [|done]. split; [done|]. by exists l.
  - destruct D as [Nd D]. assert (No : ~ ((length outs <= 2)%nat /\ exists spends, Forall2 (spend_ok (hash_of_outputs (tx_vout tx)) fv) (tx_vin tx) spends /\
      NoDup (map getCoinSerialNumber spends) /\ sum_values (tx_vout tx) <= redeemed spends)).
    { intros [_ (l & F & N & _)]. apply Nd. exists l. split; [done|]. split; [done|]. apply Forall_forall. by intros x _ ?%not_elem_of_nil. }
    destruct D as [[st ->]|X]; cbn [or_reject]; [by apply decides_reject|].
    assert (X' : Exists (bad_spend e) (tx_vin tx)).
    { apply Exists_exists in X as (i & Hi & X). apply Exists_exists. exists i. split; [done|]. split; [|done]. apply All. by apply list_elem_of_In. }
    destruct e; [by apply decides_reject|..]; (split; [exact No|by right]).
Qed.

Lemma all_spends_count vin : forallb CTxIn_IsZerocoinSpend vin = true -> spend_count vin = Z.of_nat (length vin).
Proof using.
  unfold spend_count. intros F. f_equal. f_equal. induction vin as [|i vin IH]; [done|]. cbn [forallb List.filter] in *.
  apply andb_true_iff in F as [-> F]. by rewrite IH.
Qed.

Lemma check_zerocoin_spec : GetValueOut tx = Ret (sum_values (tx_vout tx)) ->
  decides (fun e => Exists (bad_spend e) (tx_vin tx)) (check_zerocoin params InitialBlockDownload now tipTime tx (spend_count (tx_vin tx)) state) zerocoin_ok (fun _ => True).
Proof using Hp Htip.
  intros Ev. unfold check_zerocoin, zerocoin_ok. destruct (Z.gtb_spec (spend_count (tx_vin tx)) (nMaxZerocoinSpendsPerTransaction params)); [apply decides_reject; lia|].
  destruct (HasZerocoinSpendInputs tx) eqn:Hz; [|by repeat split].
  destruct (forallb _ _) eqn:All; cbn [negb]; [|apply decides_reject; by intros [_ F]; destruct (F eq_refl)].
  destruct (fVerifySignature InitialBlockDownload now tipTime) as [fv|] eqn:V.
  2: { unfold fVerifySignature in V. destruct InitialBlockDownload; [done|]. by destruct (Htip eq_refl) as [t ->]. }
  pose proof (spends_few params Hp) as Few. rewrite (all_spends_count _ All) in *.
  eapply decides_weaken; [apply (CheckZerocoinSpend_spec fv All); [intros E; unfold HasZerocoinSpendInputs in Hz; by rewrite E in Hz|lia|done]| |done|done].
  split.
  - intros [_ K]. destruct (K eq_refl) as (_ & L & x & l & [= <-] & F & N & T). split; [done|]. by exists l.
  - intros [L (l & F & N & T)]. split; [lia|]. intros _. split; [done|]. split; [done|]. by exists fv, l.
Qed.

Lemma check_prevouts_spec vin : decides no_accident (check_prevouts fZerocoinActive vin state) (Forall prevout_ok vin) (fun _ => True).
Proof using.
  induction vin as [|i vin IH]; cbn [check_prevouts]; [by split; [constructor|]|].
  destruct (COutPoint_IsNull (prevout i) && (fZerocoinActive && negb (CTxIn_IsZerocoinSpend i))) eqn:E.
  { apply decides_reject. intros F. apply Forall_cons in F as [[F _] _].
    apply andb_true_iff in E as [E1 E2]. apply andb_true_iff in E2 as [E2 E3]. by rewrite F in E3. }
  destruct ((prev_n (prevout i) =? 0) && bool_decide (prev_hash (prevout i) = bad_prevout_hash)) eqn:B.
  { apply decides_reject. intros F. apply Forall_cons in F as [[_ F] _]. apply andb_true_iff in B as [B1 B2]. apply Z.eqb_eq in B1.
    apply bool_decide_eq_true in B2. auto. }
  assert (P : prevout_ok i).
  { split.
    - intros -> N. rewrite N in E. by destruct (CTxIn_IsZerocoinSpend i).
    - intros [B1 B2]. apply andb_false_iff in B as [B|B]; [by apply Z.eqb_neq in B|by apply bool_decide_eq_false in B]. }
  destruct (check_prevouts _ _ _); cbn [decides] in *; rewrite Forall_cons; [by destruct IH|]. destruct IH as [N R]. split; [by intros [_ F]|done].
Qed.

Lemma check_kind_spec : tx_vin tx <> [] -> decides no_accident (check_kind params tx fZerocoinActive state) kind_ok (fun _ => True).
Proof using.
  intros Nv. unfold check_kind, kind_ok. destruct (IsCoinBase tx).
  - destruct (tx_vin tx) as [|i vin]; [done|].
    destruct ((Z.of_nat (length (scriptSig i)) <? 2) || (Z.of_nat (length (scriptSig i)) >? 150)) eqn:E.
    + apply decides_reject. intros (j & v & [= <- <-] & L). apply orb_true_iff in E as [E|E]; [apply Z.ltb_lt in E|apply Z.gtb_lt in E]; lia.
    + apply orb_false_iff in E as [E1 E2]. apply Z.ltb_ge in E1. rewrite Z.gtb_ltb in E2. apply Z.ltb_ge in E2.
      split; [|done]. exists i, vin. split; [done|lia].
  - destruct (fZerocoinActive && HasZerocoinSpendInputs tx).
    + destruct ((_ <? 1) || (_ >? nMaxZerocoinSpendsPerTransaction params)) eqn:E.
      * apply decides_reject. intros L. apply orb_true_iff in E as [E|E]; [apply Z.ltb_lt in E|apply Z.gtb_lt in E]; lia.
      * apply orb_false_iff in E as [E1 E2]. apply Z.ltb_ge in E1. rewrite Z.gtb_ltb in E2. apply Z.ltb_ge in E2. by split; [lia|].
    + eapply decides_bind; [apply check_prevouts_spec|intros [] F _|by intros [F _]].
      destruct (IsCoinStake tx && (Z.of_nat (length (tx_vout tx)) >? 10)) eqn:E.
      * apply decides_reject. intros [_ L]. apply andb_true_iff in E as [E1 E2]. apply Z.gtb_lt in E2. specialize (L E1). lia.
      * split; [|done]. split; [done|]. intros S. rewrite S in E. cbn in E. rewrite Z.gtb_ltb in E. apply Z.ltb_ge in E. lia.
Qed.

Lemma accepted_value : Forall vout_ok (tx_vout tx) -> sum_values (tx_vout tx) <= nMaxMoneyOut params -> GetValueOut tx = Ret (sum_values (tx_vout tx)).
Proof using Hp.
  intros F T. pose proof (money_range params Hp) as M. unfold Params.COIN in M. unfold GetValueOut. apply GetValueOut_loop_spec; [lia|].
  split; [|split; [done|right; lia]]. eapply Forall_impl; [exact F|]. intros o (_ & R & _). lia.
Qed.

Lemma CheckTransaction_decides :
  decides zerocoin_accident (CheckTransaction params InitialBlockDownload now tipTime tx fZerocoinActive state) transaction_ok (fun _ => True).
Proof using Hp Htip.
  unfold CheckTransaction, transaction_ok. pose proof (money_range params Hp) as M.
  destruct (Nat.eqb_spec (length (tx_vin tx)) 0) as [L|L]; [apply decides_reject; intros (N & _); by apply length_zero_iff_nil in L|].
  destruct (Nat.eqb_spec (length (tx_vout tx)) 0) as [L'|L']; [apply decides_reject; intros (_ & N & _); by apply length_zero_iff_nil in L'|].
  destruct (Z.gtb_spec (GetSerializeSize tx) MAX_ZEROCOIN_TX_SIZE); [apply decides_reject; lia|].
  assert (Nv : tx_vin tx <> []) by (by intros E; rewrite E in L). assert (No : tx_vout tx <> []) by (by intros E; rewrite E in L').
  eapply (decides_bind _ _ (Forall vout_ok (tx_vout tx) /\ sum_values (tx_vout tx) <= nMaxMoneyOut params) (fun m => m = 0 + sum_values (tx_vout tx))); [|intros m [F T] _|intros (_ & _ & _ & F & T & _); split; [exact F|exact T]].
  { eapply decides_weaken; [apply (check_vout_spec (tx_vout tx) 0); lia|by rewrite Z.add_0_l|intros m K; exact K|].
    intros e (A & -> & B). split; [done|]. by left. }
  eapply (decides_bind _ _ (distinct_prevouts (tx_vin tx) /\ Forall (fun x => prevout x ∉ []) (tx_vin tx)) (fun k => k = 0 + spend_count (tx_vin tx))); [|intros k [D _] ->|intros (_ & _ & _ & _ & _ & D & _); split; [exact D|apply Forall_forall; by intros x _ ?%not_elem_of_nil]].
  { eapply decides_weaken; [apply (check_vin_spec (tx_vin tx) [] 0)|reflexivity|intros k K; exact K|intros e []]. }
  rewrite Z.add_0_l. eapply (decides_bind _ _ (fZerocoinActive = true -> zerocoin_ok) (fun _ => True)).
  - destruct fZerocoinActive eqn:Fz; [|by split]. eapply decides_weaken; [apply check_zerocoin_spec, (accepted_value F T)|tauto|done|].
    intros e K. split; [done|]. by right.
  - intros _ Zk _. eapply decides_weaken; [apply (check_kind_spec Nv)| |done|intros e []].
    split; [by intros (_ & _ & _ & _ & _ & _ & _ & C)|]. intros C. repeat (split; [done || lia|]). done.
  - by intros (_ & _ & _ & _ & _ & _ & Zk & _).
Qed.
End accept.

Lemma accident_kind {Zc : Zerocoin} (tx : CTransaction) fz e : zerocoin_accident tx fz e -> e = Undefined \/ e = Throws.
Proof.
  intros [_ [[-> _]|K]]; [by left|]. apply Exists_exists in K as (i & _ & _ & K). unfold TxInToZerocoinSpend in K.
  destruct (_ <? _)%nat; [injection K as <-; by left|]. destruct (read_CoinSpend _); [done|]. injection K as <-. by right.
Qed.


(** A zerocoin library whose coins are all valid and whose spends are numbers. *)
Definition toy_zerocoin : Zerocoin := {|
  setvch := fun b => Z.of_nat (length b); CoinSpend := Z; read_CoinSpend := fun b => byte.unsigned <$> head b;
  getDenomination := id; getTxOutHash := fun _ => base_uint_zero 8; getAccumulatorChecksum := id; getCoinSerialNumber := id;
  spend_Verify := fun _ _ _ => true; coin_validate := fun _ => true; ReadAccumulatorValue := Some; RecordMintToDB := fun _ _ => true |}.

(** An ordinary transaction with a mint of one coin, accepted. *)
Definition sample_payment : CTransaction :=
  CTransaction_of (mk_CMutableTransaction 1 [CTxIn_make (mk_COutPoint (base_uint_u64 8 1) 0) [] UINT32_MAX]
    [CTxOut_make 50 []; CTxOut_make COIN (byte.of_Z OP_ZEROCOINMINT :: repeat Byte.x01 6)] 0).

