(* ===== verification/CheckBlock.v ===== *)
(** * Checks of a block ([main.cpp])

    [CheckBlockHeader] and [CheckBlock], the checks that need no more context than the
    clocks and the tip of the active chain; what they accept, and that the header of an
    accepted block binds its transactions. *)

From Stdlib Require Import ZArith Lia List Bool String.
From stdpp Require Import base option list gmap.
From coqutil Require Import Byte Word.LittleEndianList.
From S2P Require Import Prelude Effects Uint256 Compact Serialize MerkleDamgard Hash Script Tx Params BlockIndex Pow Chain Merkle Block TxCheck.

Open Scope Z_scope.
Open Scope btc_scope.

Definition MAX_BLOCK_SIZE_CURRENT : Z := 4194304.
Definition MAX_BLOCK_SIZE_LEGACY : Z := 4194304.
Definition MAX_BLOCK_SIGOPS_CURRENT : Z := MAX_BLOCK_SIZE_CURRENT / 50.
Definition MAX_BLOCK_SIGOPS_LEGACY : Z := MAX_BLOCK_SIZE_LEGACY / 50.

Definition StakingProtocol2Height : Z := 654929.
Definition nStakeInterval : Z := 15.
Definition nMaxStakingFutureDrift : Z := 40.
Definition nMaxStakingFutureDriftv3 : Z := 25.

(** What a check may change: the tree of the block, which is [mutable], and the table of the
    blocks that the masternode layer rejected. *)
Record check_state : Type := mk_check_state { cs_vMerkleTree : list uint256; mapRejectedBlocks : gmap uint256 Z }.

(** [mapRejectedBlocks.insert(make_pair(hash, time))] keeps an old entry. *)
Definition reject_block (hash : uint256) (time : Z) (s : check_state) : check_state :=
  mk_check_state (cs_vMerkleTree s)
    (match mapRejectedBlocks s !! hash with Some _ => mapRejectedBlocks s | None => <[hash := time]> (mapRejectedBlocks s) end).

(** A bad pointer is undefined behaviour. *)
Definition of_ptr {A} (r : result ptr_error A) : result failure A :=
  match r with Ret a => Ret a | Err AssertionFailed => Err Asserts | Err _ => Err Undefined end.

(** [n + 1] on [int] *)
Definition int_succ (n : Z) : result failure Z := if n + 1 >=? 2 ^ 31 then Err Undefined else Ret (n + 1).

Section check_block.
Context (params : CChainParams) (HashQuark : bytes -> uint256).

Definition CheckBlockHeader (block : CBlockHeader) (state : CValidationState) (fCheckPOW : bool) : result failure unit :=
  if (b_nNonce block >? 1000000100) && (b_nTime block >? 1599070879) then reject 50 REJECT_INVALID "too high nNonce" state else
  if fCheckPOW && negb (CheckProofOfWork params (CBlockHeader_GetHash HashQuark block) (b_nBits block))
  then reject 50 REJECT_INVALID "high-hash" state else Ret tt.

Context {Zc : Zerocoin}.
(** The clocks; the masternode layer: the spork, the locked inputs, the payees. *)
Context (GetTime GetAdjustedTime : Z) (InitialBlockDownload SPORK_3 : bool)
        (mapLockedInputs : COutPoint -> option uint256) (IsBlockPayeeValid : CBlock -> Z -> bool).
(** The block index and the active chain. *)
Context (H : heap) (mapBlockIndex : gmap uint256 ptr) (chainActive : CChain).

Definition BiggerTime : Z := if GetTime >? GetAdjustedTime then GetTime else GetAdjustedTime.

Definition check_merkle_root (block : CBlock) (state : CValidationState) : eff check_state failure unit :=
  match BuildMerkleTree (txids block) with
  | None => throw Undefined
  | Some (tree, mutated, hashMerkleRoot2) =>
      do* _ := update (fun s => mk_check_state tree (mapRejectedBlocks s)) in
      lift (if negb (bool_decide (hashMerkleRoot block = hashMerkleRoot2)) then reject_corrupt 100 REJECT_INVALID "bad-txnmrklroot" state else
            if mutated then reject_corrupt 100 REJECT_INVALID "bad-txns-duplicate" state else Ret tt)
  end.

(** Size, coinbase and coinstake. *)
Definition check_layout (block : CBlock) (state : CValidationState) : result failure unit :=
  let size := Z.of_nat (length (vtx block)) in
  if (size =? 0) || (size >? MAX_BLOCK_SIZE_CURRENT) || (GetSerializeSize block >? MAX_BLOCK_SIZE_CURRENT)
  then reject 100 REJECT_INVALID "bad-blk-length" state else
  if negb (match vtx block with tx :: _ => IsCoinBase tx | [] => false end) then reject 100 REJECT_INVALID "bad-cb-missing" state else
  if existsb (fun tx : CTransaction => IsCoinBase tx) (drop 1 (vtx block)) then reject 100 REJECT_INVALID "bad-cb-multiple" state else
  if CBlock_IsProofOfStake block then
    match vtx block with
    | coinbase :: coinstake :: rest =>
        if negb (match tx_vout coinbase with [o] => CTxOut_IsEmpty o | _ => false end) then reject 100 0 "" state else
        if negb (IsCoinStake coinstake) then reject 100 0 "" state else
        if existsb (fun tx : CTransaction => IsCoinStake tx) rest then reject 100 0 "" state else Ret tt
    | _ => Err Undefined
    end
  else Ret tt.

(** Whether an input of the transaction is locked by another one. *)
Definition conflicts (tx : CTransaction) : bool :=
  negb (IsCoinBase tx) &&
  existsb (fun i => match mapLockedInputs (prevout i) with Some h => negb (bool_decide (h = tx_hash tx)) | None => false end) (tx_vin tx).

(** The height of a proof-of-stake block, 0 when its parent is not known; [None] without a
    tip. *)
Definition stake_height (block : CBlock) : result failure (option Z) :=
  match Tip chainActive with
  | None => Ret None
  | Some p =>
      let* tip := of_ptr (deref H (Some p)) in
      let* nHeight :=
        (if bool_decide (blockHash tip = hashPrevBlock block) then int_succ (nHeight tip) else
         match mapBlockIndex !! hashPrevBlock block with
         | Some q => let* prev := of_ptr (deref H (Some q)) in int_succ (nHeight prev)
         | None => Ret 0
         end) in
      Ret (Some nHeight)
  end.

Definition check_stake (block : CBlock) (state : CValidationState) : eff check_state failure unit :=
  do* h := lift (stake_height block) in
  match h with
  | None => eret tt
  | Some nHeight =>
      if (nHeight >=? StakingProtocol2Height) && negb (Z.rem (CBlockHeader_GetBlockTime block) nStakeInterval =? 0)
      then lift (reject 100 REJECT_INVALID "time-invalid" state) else
      if (nHeight >=? REWARDFORK_BLOCK) && (CBlockHeader_GetBlockTime block >? BiggerTime + nMaxStakingFutureDriftv3)
      then lift (reject 10 REJECT_INVALID "time-too-new" state) else
      if (nHeight >? 1300) && negb InitialBlockDownload && negb (IsBlockPayeeValid block nHeight) then
        do* _ := update (reject_block (CBlockHeader_GetHash HashQuark block) GetTime) in
        lift (reject 0 REJECT_INVALID "bad-cb-payee" state)
      else eret tt
  end.

Definition fZerocoinActive (block : CBlock) : bool := CBlockHeader_GetBlockTime block >? nZerocoinStartTime params.

(** The serials of a transaction against those seen. *)
Fixpoint check_serials (vin : list CTxIn) (vBlockSerials : list Z) (state : CValidationState) : result failure (list Z) :=
  match vin with
  | [] => Ret vBlockSerials
  | txIn :: vin =>
      if CTxIn_IsZerocoinSpend txIn then
        let* spend := TxInToZerocoinSpend txIn in
        if bool_decide (getCoinSerialNumber spend ∈ vBlockSerials) then reject 100 0 "" state
        else check_serials vin (vBlockSerials ++ [getCoinSerialNumber spend]) state
      else check_serials vin vBlockSerials state
  end.

Definition tip_time : option Z := match deref H (Tip chainActive) with Ret tip => Some (GetBlockTime tip) | Err _ => None end.

Fixpoint check_txs (fZerocoinActive : bool) (txs : list CTransaction) (vBlockSerials : list Z) (state : CValidationState) : result failure unit :=
  match txs with
  | [] => Ret tt
  | tx :: txs =>
      let* _ := CheckTransaction params InitialBlockDownload GetTime tip_time tx fZerocoinActive state in
      let* vBlockSerials := (if HasZerocoinSpendInputs tx then check_serials (tx_vin tx) vBlockSerials state else Ret vBlockSerials) in
      check_txs fZerocoinActive txs vBlockSerials state
  end.

Definition block_sigops (block : CBlock) : Z := fold_left (fun n (tx : CTransaction) => u32 (n + GetLegacySigOpCount tx)) (vtx block) 0.

Definition CheckBlock (block : CBlock) (state : CValidationState) (fCheckPOW fCheckMerkleRoot fCheckSig : bool) : eff check_state failure unit :=
  do* _ := lift (or_reject (CheckBlockHeader block state (CBlock_IsProofOfWork block))
                   (reject_corrupt 100 REJECT_INVALID "bad-header")) in
  if CBlockHeader_GetBlockTime block >? BiggerTime + (if CBlock_IsProofOfStake block then nMaxStakingFutureDrift else 7200)
  then lift (reject 10 REJECT_INVALID "ime-too-new" state) else
  do* _ := (if fCheckMerkleRoot then check_merkle_root block state else eret tt) in
  do* _ := lift (check_layout block state) in
  if SPORK_3 && existsb conflicts (vtx block) then
    do* _ := update (reject_block (CBlockHeader_GetHash HashQuark block) GetTime) in
    lift (reject 0 REJECT_INVALID "conflicting-tx-ix" state)
  else
  do* _ := (if CBlock_IsProofOfStake block then check_stake block state else eret tt) in
  do* _ := lift (check_txs (fZerocoinActive block) (vtx block) [] state) in
  if block_sigops block >? (if fZerocoinActive block then MAX_BLOCK_SIGOPS_CURRENT else MAX_BLOCK_SIGOPS_LEGACY)
  then lift (reject_corrupt 100 REJECT_INVALID "bad-blk-sigops" state) else eret tt.
End check_block.

(** ** What is accepted *)

(** The signature operations of a transaction, over [Z]. *)
Definition legacy_sigops (tx : CTransaction) : Z :=
  foldr (fun i n => GetSigOpCount (scriptSig i) false + n) 0 (tx_vin tx) +
  foldr (fun o n => GetSigOpCount (scriptPubKey o) false + n) 0 (tx_vout tx).
Definition total_sigops (txs : list CTransaction) : Z := foldr (fun tx n => legacy_sigops tx + n) 0 txs.

(** The zerocoin spends of a list of transactions. *)
Definition zerocoin_spends (txs : list CTransaction) : list CTxIn :=
  List.concat (map (fun tx : CTransaction => List.filter CTxIn_IsZerocoinSpend (tx_vin tx)) txs).

Lemma fold_u32 {A} (f : A -> Z) l : forall n, in_u32 n -> fold_left (fun n x => u32 (n + f x)) l n = u32 (n + foldr (fun x n => f x + n) 0 l).
Proof.
  induction l as [|x l IH]; intros n Hn; cbn [fold_left foldr]; [by rewrite Z.add_0_r, u32_small|].
  rewrite IH by apply u32_range. by rewrite u32_add_l, Z.add_assoc.
Qed.

Lemma vec_size_ge {A} `{Serializer A} (l : list A) : foldr (fun x n => GetSerializeSize x + n) 0 l <= GetSerializeSize_vec l.
Proof.
  unfold GetSerializeSize_vec. assert (P : 0 <= GetSizeOfCompactSize (Z.of_nat (length l))) by (unfold GetSizeOfCompactSize; cmp_cases; lia).
  revert P. generalize (GetSizeOfCompactSize (Z.of_nat (length l))) as k. induction l as [|x l IH]; intros k Hk; cbn [foldr fold_left]; [done|].
  assert (S : forall l k, fold_left (fun n (x : A) => n + GetSerializeSize x) l k = k + foldr (fun x n => GetSerializeSize x + n) 0 l).
  { clear. induction l as [|x l IH]; intros k; cbn [fold_left foldr]; [lia|]. rewrite IH. lia. }
  rewrite S. lia.
Qed.

Lemma blob_size_ge (v : bytes) : Z.of_nat (length v) <= GetSerializeSize_blob v.
Proof. unfold GetSerializeSize_blob, GetSizeOfCompactSize. cmp_cases; lia. Qed.

Lemma legacy_sigops_bound (tx : CTransaction) : 0 <= legacy_sigops tx <= 20 * GetSerializeSize tx.
Proof.
  unfold legacy_sigops. change (GetSerializeSize tx) with (4 + GetSerializeSize_vec (tx_vin tx) + GetSerializeSize_vec (tx_vout tx) + 4).
  pose proof (vec_size_ge (tx_vin tx)) as Vi. pose proof (vec_size_ge (tx_vout tx)) as Vo.
  assert (0 <= foldr (fun i n => GetSigOpCount (scriptSig i) false + n) 0 (tx_vin tx) <= 20 * foldr (fun i n => GetSerializeSize i + n) 0 (tx_vin tx)).
  { clear. induction (tx_vin tx) as [|i l IH]; cbn [foldr]; [lia|]. pose proof (GetSigOpCount_le (scriptSig i)). pose proof (blob_size_ge (scriptSig i)).
    assert (GetSerializeSize_blob (scriptSig i) <= GetSerializeSize i) by (cbn [GetSerializeSize CTxIn_Serializer COutPoint_Serializer]; lia). lia. }
  assert (0 <= foldr (fun o n => GetSigOpCount (scriptPubKey o) false + n) 0 (tx_vout tx) <= 20 * foldr (fun o n => GetSerializeSize o + n) 0 (tx_vout tx)).
  { clear. induction (tx_vout tx) as [|o l IH]; cbn [foldr]; [lia|]. pose proof (GetSigOpCount_le (scriptPubKey o)). pose proof (blob_size_ge (scriptPubKey o)).
    assert (GetSerializeSize_blob (scriptPubKey o) <= GetSerializeSize o) by (cbn [GetSerializeSize CTxOut_Serializer]; lia). lia. }
  lia.
Qed.

(** The counter of a transaction is the sum, modulo the width. *)
Lemma GetLegacySigOpCount_sum (tx : CTransaction) : GetLegacySigOpCount tx = u32 (legacy_sigops tx).
Proof.
  unfold GetLegacySigOpCount, legacy_sigops. rewrite !(fold_u32 (fun i => GetSigOpCount (scriptSig i) false)) by done.
  rewrite (fold_u32 (fun o => GetSigOpCount (scriptPubKey o) false)) by apply u32_range. by rewrite u32_add_l.
Qed.

(** In a block that is not too large, the counter does not wrap. *)
Lemma block_sigops_sum (b : CBlock) : GetSerializeSize b <= MAX_BLOCK_SIZE_CURRENT -> block_sigops b = total_sigops (vtx b).
Proof.
  intros L. unfold block_sigops. rewrite (fold_u32 (fun tx : CTransaction => GetLegacySigOpCount tx)) by done.
  assert (E : forall l : list CTransaction, u32 (foldr (fun (tx : CTransaction) n => GetLegacySigOpCount tx + n) 0 l) = u32 (total_sigops l)).
  { induction l as [|tx l IH]; [done|]. cbn [foldr total_sigops]. fold (total_sigops l).
    by rewrite <- u32_add_r, IH, u32_add_r, GetLegacySigOpCount_sum, u32_add_l. }
  rewrite Z.add_0_l, E. apply u32_small.
  assert (B : 0 <= total_sigops (vtx b) <= 20 * foldr (fun (tx : CTransaction) n => GetSerializeSize tx + n) 0 (vtx b)).
  { clear. induction (vtx b) as [|tx l IH]; cbn [foldr total_sigops]; [lia|]. fold (total_sigops l). pose proof (legacy_sigops_bound tx). lia. }
  pose proof (vec_size_ge (vtx b)) as V.
  assert (GetSerializeSize_vec (vtx b) <= GetSerializeSize b).
  { cbn [GetSerializeSize CBlock_Serializer CBlockHeader_Serializer]. pose proof (blob_size_ge (vchBlockSig b)). destruct (b_nVersion b >? 3), (has_coinstake (vtx b)); lia. }
  unfold MAX_BLOCK_SIZE_CURRENT, in_u32 in *. lia.
Qed.

Lemma mapM_app_option {A B} (f : A -> option B) l k :
  mapM f (l ++ k) = match mapM f l, mapM f k with Some a, Some b => Some (a ++ b) | _, _ => None end.
Proof.
  induction l as [|x l IH]; cbn [mapM app]; [by destruct (mapM f k)|]. destruct (f x); [|done]. cbn [mbind option_bind].
  rewrite IH. by destruct (mapM f l), (mapM f k).
Qed.

Section accept.
Context (params : CChainParams) (Hp : params_ok params) (HashQuark : bytes -> uint256) {Zc : Zerocoin}.
Context (GetTime GetAdjustedTime : Z) (InitialBlockDownload SPORK_3 : bool)
        (mapLockedInputs : COutPoint -> option uint256) (IsBlockPayeeValid : CBlock -> Z -> bool).
Context (H : heap) (mapBlockIndex : gmap uint256 ptr) (chainActive : CChain).

(** The index holds what its pointers name, at heights an [int] can follow. *)
Record index_readable : Prop := {
  tip_known : forall p, Tip chainActive = Some p -> is_Some (H !! p);
  map_known : forall h p, mapBlockIndex !! h = Some p -> is_Some (H !! p);
  heights_int : forall p b, H !! p = Some b -> 0 <= nHeight b < 2 ^ 31 - 1;
  download_tip : InitialBlockDownload = false -> is_Some (Tip chainActive) }.
Context (Hindex : index_readable).

Definition header_ok (h : CBlockHeader) (fCheckPOW : bool) : Prop :=
  ~ (b_nNonce h > 1000000100 /\ b_nTime h > 1599070879) /\
  (fCheckPOW = true -> CheckProofOfWork params (CBlockHeader_GetHash HashQuark h) (b_nBits h) = true).

Definition time_ok (b : CBlock) : Prop :=
  b_nTime b <= Z.max GetTime GetAdjustedTime + (if CBlock_IsProofOfStake b then 40 else 7200).

(** The root is that of the reference tree, with no duplicated end on any level. *)
Definition root_ok (b : CBlock) : Prop :=
  hashMerkleRoot b = merkle_root (txids b) /\ mutated_levels (levels (length (txids b)) (txids b)) = false.

Definition layout_ok (b : CBlock) : Prop :=
  Z.of_nat (length (vtx b)) <= MAX_BLOCK_SIZE_CURRENT /\ GetSerializeSize b <= MAX_BLOCK_SIZE_CURRENT /\
  exists coinbase txs, vtx b = coinbase :: txs /\ IsCoinBase coinbase = true /\
    Forall (fun tx : CTransaction => IsCoinBase tx = false) txs /\
    (CBlock_IsProofOfStake b = true ->
     exists coinstake rest o, txs = coinstake :: rest /\ tx_vout coinbase = [o] /\ CTxOut_IsEmpty o = true /\
       IsCoinStake coinstake = true /\ Forall (fun tx : CTransaction => IsCoinStake tx = false) rest).

Definition locks_ok (b : CBlock) : Prop :=
  SPORK_3 = true -> forall (tx : CTransaction) i h, tx ∈ vtx b -> IsCoinBase tx = false -> i ∈ tx_vin tx ->
    mapLockedInputs (prevout i) = Some h -> h = tx_hash tx.

(** The height that the tip or the index gives to a block on top of [prev]. *)
Definition known_height (prev : uint256) (h : Z) : Prop :=
  exists tip, deref H (Tip chainActive) = Ret tip /\
    if bool_decide (blockHash tip = prev) then h = nHeight tip + 1 else
    match mapBlockIndex !! prev with
    | Some q => exists e, H !! q = Some e /\ h = nHeight e + 1
    | None => h = 0
    end.

Definition stake_ok (b : CBlock) : Prop :=
  forall h, known_height (hashPrevBlock b) h ->
    (StakingProtocol2Height <= h -> Z.rem (b_nTime b) 15 = 0) /\
    (REWARDFORK_BLOCK <= h -> b_nTime b <= Z.max GetTime GetAdjustedTime + 25) /\
    (1300 < h -> InitialBlockDownload = false -> IsBlockPayeeValid b h = true).

(** The serial number of a spend that can be read. *)
Definition ZerocoinSerial (i : CTxIn) : option Z :=
  match TxInToZerocoinSpend i with Ret spend => Some (getCoinSerialNumber spend) | Err _ => None end.
Definition serials_ok (b : CBlock) : Prop :=
  exists serials, mapM ZerocoinSerial (zerocoin_spends (vtx b)) = Some serials /\ NoDup serials.

Definition block_ok (b : CBlock) (fCheckMerkleRoot : bool) : Prop :=
  header_ok b (CBlock_IsProofOfWork b) /\ time_ok b /\ (fCheckMerkleRoot = true -> root_ok b) /\ layout_ok b /\ locks_ok b /\
  (CBlock_IsProofOfStake b = true -> stake_ok b) /\
  Forall (fun tx => transaction_ok params InitialBlockDownload GetTime (tip_time H chainActive)
            tx (fZerocoinActive params b)) (vtx b) /\
  serials_ok b /\ total_sigops (vtx b) <= MAX_BLOCK_SIGOPS_CURRENT.

(** The accidents of the zerocoins of a list of transactions: a spend that cannot be read and,
    when they are active, a mint whose script is too short. *)
Definition txs_accident (fz : bool) (txs : list CTransaction) (e : failure) : Prop :=
  Exists (fun i => TxInToZerocoinSpend i = Err e) (zerocoin_spends txs) \/
  (fz = true /\ e = Undefined /\ Exists (fun tx : CTransaction => Exists short_mint (tx_vout tx)) txs).
Definition unreadable (b : CBlock) (e : failure) : Prop := txs_accident (fZerocoinActive params b) (vtx b) e.

Lemma BiggerTime_max : BiggerTime GetTime GetAdjustedTime = Z.max GetTime GetAdjustedTime.
Proof using. unfold BiggerTime. destruct (Z.gtb_spec GetTime GetAdjustedTime); lia. Qed.

Lemma CheckBlockHeader_spec X (h : CBlockHeader) state fCheckPOW :
  decides X (CheckBlockHeader params HashQuark h state fCheckPOW) (header_ok h fCheckPOW) (fun _ => True).
Proof using.
  unfold CheckBlockHeader, header_ok. apply decides_test with (P := ~ (b_nNonce h > 1000000100 /\ b_nTime h > 1599070879)); [|tauto|intros N].
  { rewrite andb_false_iff, !Z.gtb_ltb, !Z.ltb_ge. lia. }
  apply decides_test with (P := fCheckPOW = true -> CheckProofOfWork params (CBlockHeader_GetHash HashQuark h) (b_nBits h) = true); [|tauto|].
  { destruct fCheckPOW, (CheckProofOfWork _ _ _); cbn; split; auto. intros K. by rewrite K. }
  intros P. split; [by split|done].
Qed.

Lemma or_reject_spec X {A} (r : result failure A) level code reason P Q :
  decides X r P Q -> decides X (or_reject r (reject_corrupt level code reason)) P Q.
Proof using.
  destruct r as [a|[st| | |]]; cbn [or_reject]; try done. intros [N _]. by apply decides_corrupt.
Qed.

Lemma check_merkle_root_spec X (b : CBlock) state s :
  decides X (check_merkle_root b state s).1 (root_ok b) (fun _ => True).
Proof using.
  unfold check_merkle_root, root_ok. rewrite BuildMerkleTree_spec. unfold ebind, update, lift. cbn [fst].
  case_bool_decide as E; cbn [negb].
  - destruct (mutated_levels _); [apply decides_corrupt; by intros [_ ?]|]. by split.
  - apply decides_corrupt. by intros [? _].
Qed.

Lemma existsb_false {A} (f : A -> bool) l : existsb f l = false <-> Forall (fun x => f x = false) l.
Proof using.
  induction l as [|x l IH]; cbn [existsb]; [by split|]. by rewrite orb_false_iff, Forall_cons, IH.
Qed.

Lemma check_layout_spec X (b : CBlock) state : decides X (check_layout b state) (layout_ok b) (fun _ => True).
Proof using.
  unfold check_layout, layout_ok.
  apply decides_test with (P := vtx b <> [] /\ Z.of_nat (length (vtx b)) <= MAX_BLOCK_SIZE_CURRENT /\ GetSerializeSize b <= MAX_BLOCK_SIZE_CURRENT).
  { rewrite !orb_false_iff, Z.eqb_neq, !Z.gtb_ltb, !Z.ltb_ge. destruct (vtx b); cbn [length]; [split; [lia|by intros [? _]]|]. split; [intros [[_ A] B]; by repeat split|lia]. }
  { intros (L & S & cb & txs & E & _). by rewrite E in *. }
  intros (Nv & L & S). unfold CBlock_IsProofOfStake. destruct (vtx b) as [|cb txs] eqn:Ev; [done|].
  apply decides_test with (P := IsCoinBase cb = true); [by rewrite negb_false_iff| |intros Cb].
  { by intros (_ & _ & c & t & [= <- <-] & C & _). }
  cbn [drop]. apply decides_test with (P := Forall (fun tx : CTransaction => IsCoinBase tx = false) txs); [apply existsb_false| |intros Ct].
  { by intros (_ & _ & c & t & [= <- <-] & _ & C & _). }
  destruct txs as [|cs rest]; cbn [has_coinstake].
  { split; [|done]. split; [done|]. split; [done|]. exists cb, []. repeat split; done. }
  destruct (IsCoinStake cs) eqn:Cs; cbn [negb].
  2: { split; [|done]. split; [done|]. split; [done|]. exists cb, (cs :: rest). repeat split; done. }
  apply decides_test with (P := exists o, tx_vout cb = [o] /\ CTxOut_IsEmpty o = true).
  { rewrite negb_false_iff. destruct (tx_vout cb) as [|o [|o' l]]; [split; [done|by intros (? & ? & _)]|split; [by exists o|by intros (? & [= <-] & ?)]|split; [done|by intros (? & ? & _)]]. }
  { intros (_ & _ & c & t & [= <- <-] & _ & _ & C). destruct (C eq_refl) as (? & ? & o & _ & Eo & Em & _). by exists o. }
  intros (o & Eo & Em). apply decides_test with (P := Forall (fun tx : CTransaction => IsCoinStake tx = false) rest); [apply existsb_false| |intros Cr].
  { intros (_ & _ & c & t & [= <- <-] & _ & _ & C). by destruct (C eq_refl) as (? & ? & _ & [= <- <-] & _ & _ & _ & F). }
  split; [|done]. split; [done|]. split; [done|]. exists cb, (cs :: rest). do 3 (split; [done|]). intros _. by exists cs, rest, o.
Qed.

Lemma conflicts_spec (b : CBlock) : SPORK_3 && existsb (conflicts mapLockedInputs) (vtx b) = false <-> locks_ok b.
Proof using.
  unfold locks_ok. destruct SPORK_3; cbn [andb]; [|by split]. rewrite (existsb_false (conflicts mapLockedInputs) (vtx b)), Forall_forall. unfold conflicts. split.
  - intros F _ tx i h Htx Hc Hi Hl. specialize (F tx Htx). rewrite Hc in F. cbn [negb andb] in F.
    apply existsb_false in F. rewrite Forall_forall in F. specialize (F i Hi). rewrite Hl in F. by apply negb_false_iff, bool_decide_eq_true in F.
  - intros F tx Htx. destruct (IsCoinBase tx) eqn:Hc; [done|]. cbn [negb andb]. apply existsb_false, Forall_forall.
    intros i Hi. destruct (mapLockedInputs (prevout i)) as [h|] eqn:Hl; [|done].
    by rewrite negb_false_iff, bool_decide_eq_true, (F eq_refl tx i h).
Qed.

Lemma stake_height_spec (b : CBlock) :
  (Tip chainActive = None /\ stake_height H mapBlockIndex chainActive b = Ret None) \/
  exists h, stake_height H mapBlockIndex chainActive b = Ret (Some h) /\ forall h', known_height (hashPrevBlock b) h' <-> h' = h.
Proof using Hindex.
  unfold stake_height, known_height. destruct (Tip chainActive) as [p|] eqn:Et; [right|by left].
  destruct (tip_known Hindex p Et) as [t Ht]. unfold deref. cbn [mbind option_bind]. rewrite Ht. cbn [of_ptr result_bind].
  assert (Su : forall q e, H !! q = Some e -> int_succ (nHeight e) = Ret (nHeight e + 1)).
  { intros q e He. pose proof (heights_int Hindex q e He) as B. unfold int_succ. rewrite Z.geb_leb. destruct (Z.leb_spec (2 ^ 31) (nHeight e + 1)); [lia|done]. }
  assert (D : forall (Q : CBlockIndex -> Prop), (exists tip, Ret t = @Ret ptr_error _ tip /\ Q tip) <-> Q t).
  { intros Q. split; [by intros (? & [= <-] & ?)|by exists t]. }
  setoid_rewrite D. case_bool_decide as E; [rewrite (Su p t Ht); cbn [result_bind]; by eexists|].
  destruct (mapBlockIndex !! hashPrevBlock b) as [q|] eqn:Em; [|by eexists].
  destruct (map_known Hindex _ q Em) as [e He]. rewrite He. cbn [of_ptr result_bind]. rewrite (Su q e He). cbn [result_bind].
  eexists. split; [reflexivity|]. intros h'. split; [by intros (? & [= <-] & ->)|intros ->; by exists e].
Qed.

Lemma check_stake_spec X (b : CBlock) state s :
  decides X (check_stake HashQuark GetTime GetAdjustedTime InitialBlockDownload IsBlockPayeeValid H mapBlockIndex chainActive b state s).1
    (stake_ok b) (fun _ => True).
Proof using Hindex.
  unfold check_stake, stake_ok, ebind, lift. destruct (stake_height_spec b) as [[Et ->]|(h & -> & Hh)]; cbn [fst].
  { split; [|done]. intros h (t & Dt & _). by rewrite Et in Dt. }
  assert (K : known_height (hashPrevBlock b) h) by (by apply Hh).
  destruct (_ && negb (Z.rem _ _ =? 0)) eqn:E1.
  { apply decides_reject. intros S. destruct (S h K) as (S1 & _). bool_prop. unfold nStakeInterval, CBlockHeader_GetBlockTime in *. specialize (S1 ltac:(lia)). lia. }
  destruct (_ && (_ >? BiggerTime _ _ + _)) eqn:E2.
  { apply decides_reject. intros S. destruct (S h K) as (_ & S2 & _). rewrite BiggerTime_max in E2. bool_prop.
    unfold nMaxStakingFutureDriftv3, CBlockHeader_GetBlockTime in *. lia. }
  destruct ((h >? 1300) && negb InitialBlockDownload && negb (IsBlockPayeeValid b h)) eqn:E3.
  { cbn [fst]. apply decides_reject. intros S. destruct (S h K) as (_ & _ & S3). bool_prop. rewrite S3 in *; [done|lia|done]. }
  split; [|done]. intros h' ->%Hh. unfold nStakeInterval, nMaxStakingFutureDriftv3, CBlockHeader_GetBlockTime in *. rewrite BiggerTime_max in E2. split; [|split].
  - intros L. destruct (Z.rem (b_nTime b) 15 =? 0) eqn:R; [by apply Z.eqb_eq in R|]. cbn in E1. rewrite andb_true_r in E1. bool_prop. lia.
  - intros L. apply andb_false_iff in E2 as [E2|E2]; bool_prop; [lia|]. apply Z.ltb_ge in E2. lia.
  - intros L Dl. rewrite Dl in E3. destruct (IsBlockPayeeValid b h); [done|]. cbn in E3. rewrite !andb_true_r in E3. bool_prop. apply Z.ltb_ge in E3. lia.
Qed.

Lemma check_serials_spec (X : failure -> Prop) vin seen state :
  NoDup seen -> (forall e, Exists (fun i => TxInToZerocoinSpend i = Err e) (List.filter CTxIn_IsZerocoinSpend vin) -> X e) ->
  decides X (check_serials vin seen state)
    (exists l, mapM ZerocoinSerial (List.filter CTxIn_IsZerocoinSpend vin) = Some l /\ NoDup (seen ++ l))
    (fun r => exists l, mapM ZerocoinSerial (List.filter CTxIn_IsZerocoinSpend vin) = Some l /\ r = seen ++ l).
Proof using.
  revert seen. induction vin as [|i vin IH]; intros seen N HX; cbn [check_serials List.filter].
  { split; exists []; by rewrite ?app_nil_r. }
  cbn [List.filter] in HX. destruct (CTxIn_IsZerocoinSpend i); [|by apply IH]. cbn [mapM].
  change (ZerocoinSerial i) with (match TxInToZerocoinSpend i with Ret spend => Some (getCoinSerialNumber spend) | Err _ => None end).
  destruct (TxInToZerocoinSpend i) as [sp|e] eqn:E; cbn [mbind option_bind result_bind].
  2: { split; [by intros (? & ? & _)|]. right. apply HX. by apply Exists_cons_hd. }
  set (n := getCoinSerialNumber sp).
  case_bool_decide as Em.
  - apply decides_reject. intros (l & El & Nl). destruct (mapM ZerocoinSerial (List.filter _ vin)) as [l'|]; [|done]. injection El as <-.
    rewrite NoDup_app in Nl. destruct Nl as (_ & D & _). by apply (D n Em), list_elem_of_here.
  - assert (N' : NoDup (seen ++ [n])).
    { apply NoDup_app. split; [done|]. split; [|apply NoDup_singleton]. intros x Hx Hy%list_elem_of_singleton. by subst x. }
    assert (HX' : forall e, Exists (fun i => TxInToZerocoinSpend i = Err e) (List.filter CTxIn_IsZerocoinSpend vin) -> X e) by (intros e K; apply HX; by apply Exists_cons_tl).
    specialize (IH (seen ++ [n]) N' HX').
    destruct (mapM ZerocoinSerial (List.filter _ vin)) as [l|]; cbn [mbind option_bind mret option_ret].
    + eapply decides_weaken; [exact IH| | |auto].
      * split; intros (l' & [= <-] & K); eexists; (split; [reflexivity|]); [by rewrite <- app_assoc|by rewrite <- app_assoc in K].
      * intros a (l' & [= <-] & ->). eexists. split; [reflexivity|]. by rewrite <- app_assoc.
    + eapply decides_weaken; [exact IH| | |auto]; [split; by intros (? & ? & _)|by intros ? (? & ? & _)].
Qed.

Lemma no_spends (tx : CTransaction) : HasZerocoinSpendInputs tx = false -> List.filter CTxIn_IsZerocoinSpend (tx_vin tx) = [].
Proof using.
  unfold HasZerocoinSpendInputs. intros F. apply existsb_false in F. induction F as [|i l Hi F IH]; [done|]. cbn [List.filter]. by rewrite Hi.
Qed.

Lemma tip_time_known : InitialBlockDownload = false -> is_Some (tip_time H chainActive).
Proof using Hindex.
  intros D. destruct (download_tip Hindex D) as [p Ep]. destruct (tip_known Hindex p Ep) as [b Hb].
  unfold tip_time, deref. rewrite Ep. cbn [mbind option_bind]. rewrite Hb. by eexists.
Qed.

Abbreviation tx_ok fz := (fun tx => transaction_ok params InitialBlockDownload GetTime (tip_time H chainActive) tx fz).

Lemma check_txs_spec (X : failure -> Prop) fz state (txs : list CTransaction) : forall seen, NoDup seen ->
  (forall e, txs_accident fz txs e -> X e) ->
  decides X (check_txs params GetTime InitialBlockDownload H chainActive fz txs seen state)
    (Forall (tx_ok fz) txs /\ exists l, mapM ZerocoinSerial (zerocoin_spends txs) = Some l /\ NoDup (seen ++ l)) (fun _ => True).
Proof using Hp Hindex.
  induction txs as [|tx txs IH]; intros seen N HX; cbn [check_txs].
  { split; [|done]. split; [constructor|]. exists []. by rewrite app_nil_r. }
  assert (HXs : forall e, Exists (fun i => TxInToZerocoinSpend i = Err e) (List.filter CTxIn_IsZerocoinSpend (tx_vin tx)) -> X e).
  { intros e K. apply HX. left. unfold zerocoin_spends. cbn [map List.concat]. apply Exists_app. by left. }
  assert (HXt : forall e, txs_accident fz txs e -> X e).
  { intros e [K|(A & B & K)]; apply HX; [left; unfold zerocoin_spends; cbn [map List.concat]; apply Exists_app; by right|right].
    split; [done|]. split; [done|]. by apply Exists_cons_tl. }
  unfold zerocoin_spends in *. cbn [map List.concat] in *.
  apply (decides_bind _ _ (tx_ok fz tx) (fun _ => True)).
  { eapply decides_weaken; [apply (CheckTransaction_decides params Hp _ _ _ tip_time_known)|reflexivity|auto|].
    intros e [Fz [[-> K]|K]]; [apply HX; right; split; [done|]; split; [done|]; by apply Exists_cons_hd|].
    apply HXs. apply Exists_exists in K as (i & Hi & Z & K). apply Exists_exists. exists i. split; [|done].
    apply list_elem_of_In, List.filter_In. split; [by apply list_elem_of_In|done]. }
  2: { intros [F _]. by apply Forall_cons in F as [F _]. }
  intros _ Htx _. set (own := List.filter CTxIn_IsZerocoinSpend (tx_vin tx)) in *.
  apply (decides_bind _ _ (exists l, mapM ZerocoinSerial own = Some l /\ NoDup (seen ++ l))
    (fun r => exists l, mapM ZerocoinSerial own = Some l /\ r = seen ++ l)).
  - unfold own. destruct (HasZerocoinSpendInputs tx) eqn:Hz; [by apply check_serials_spec|].
    rewrite (no_spends tx Hz). split; exists []; by rewrite app_nil_r.
  - intros r (l & El & Nl) (l' & El' & ->). rewrite El in El'. injection El' as <-.
    eapply decides_weaken; [exact (IH (seen ++ l) Nl HXt)| |auto|auto].
    rewrite Forall_cons, mapM_app_option. fold own. rewrite El.
    split; intros [F (k & Ek & Nk)].
    + split; [apply F|]. destruct (mapM ZerocoinSerial _) as [k'|]; [|done]. injection Ek as <-. exists k'. by rewrite <- app_assoc.
    + split; [by split|]. rewrite Ek. exists (l ++ k). by rewrite app_assoc.
  - intros [_ (k & Ek & Nk)]. rewrite mapM_app_option in Ek. fold own in Ek. destruct (mapM ZerocoinSerial own) as [l|]; [|done]. exists l. split; [done|].
    destruct (mapM ZerocoinSerial _) as [k'|]; [|done]. injection Ek as <-. rewrite app_assoc in Nk. by apply NoDup_app in Nk as [Nk _].
Qed.

(** The whole check. *)
Lemma CheckBlock_decides (b : CBlock) (state : CValidationState) (fCheckPOW fCheckMerkleRoot fCheckSig : bool) (s : check_state) :
  decides (unreadable b)
    (CheckBlock params HashQuark GetTime GetAdjustedTime InitialBlockDownload SPORK_3
       mapLockedInputs IsBlockPayeeValid H mapBlockIndex chainActive b state fCheckPOW fCheckMerkleRoot fCheckSig s).1
    (block_ok b fCheckMerkleRoot) (fun _ => True).
Proof using Hp Hindex.
  unfold CheckBlock, block_ok.
  eapply decides_ebind; [unfold lift; cbn [fst]; apply or_reject_spec, CheckBlockHeader_spec|intros _ s1 Hh _|tauto].
  destruct (_ >? _) eqn:Et.
  { apply decides_reject. intros (_ & T & _). unfold time_ok in T. rewrite BiggerTime_max in Et. unfold nMaxStakingFutureDrift, CBlockHeader_GetBlockTime in Et. bool_prop. lia. }
  assert (Ht : time_ok b).
  { unfold time_ok. rewrite BiggerTime_max in Et. unfold nMaxStakingFutureDrift, CBlockHeader_GetBlockTime in Et. rewrite Z.gtb_ltb in Et. by apply Z.ltb_ge in Et. }
  eapply (decides_ebind _ _ _ (fCheckMerkleRoot = true -> root_ok b) (fun _ => True)); [|intros _ s2 Hr _|tauto].
  { destruct fCheckMerkleRoot; [|by split]. eapply decides_weaken; [apply check_merkle_root_spec|split; auto|auto|intros e; exact id]. }
  eapply decides_ebind; [unfold lift; cbn [fst]; apply check_layout_spec|intros _ s3 Hl _|tauto].
  destruct (SPORK_3 && _) eqn:Ec.
  { cbn [ebind update lift fst]. apply decides_reject. intros (_ & _ & _ & _ & C & _). apply conflicts_spec in C. congruence. }
  apply conflicts_spec in Ec.
  eapply (decides_ebind _ _ _ (CBlock_IsProofOfStake b = true -> stake_ok b) (fun _ => True)); [|intros _ s4 Hs _|tauto].
  { destruct (CBlock_IsProofOfStake b); [|by split]. eapply decides_weaken; [apply check_stake_spec|split; auto|auto|intros e; exact id]. }
  eapply decides_ebind; [unfold lift; cbn [fst]; apply check_txs_spec; [constructor|intros e K; exact K]|intros _ s5 [Htx Hser] _|].
  2: { intros (_ & _ & _ & _ & _ & _ & F & S & _). by split. }
  rewrite block_sigops_sum by apply Hl. replace (if fZerocoinActive params b then _ else _) with MAX_BLOCK_SIGOPS_CURRENT by (by destruct (fZerocoinActive _ _)).
  destruct (Z.gtb_spec (total_sigops (vtx b)) MAX_BLOCK_SIGOPS_CURRENT); [apply decides_corrupt; lia|].
  split; [|done]. repeat (split; [done|]). lia.
Qed.

Abbreviation Check b state fCheckPOW fCheckMerkleRoot fCheckSig :=
  (CheckBlock params HashQuark GetTime GetAdjustedTime InitialBlockDownload SPORK_3
     mapLockedInputs IsBlockPayeeValid H mapBlockIndex chainActive b state fCheckPOW fCheckMerkleRoot fCheckSig).

(** Only the two checks of the masternode layer touch the table, and then they reject
    without a penalty. *)
Definition table_kept (b : CBlock) (m : gmap uint256 Z) (e : failure) (s : check_state) : Prop :=
  mapRejectedBlocks s = m \/
  mapRejectedBlocks s = mapRejectedBlocks (reject_block (CBlockHeader_GetHash HashQuark b) GetTime (mk_check_state [] m)) /\
  exists state reason, e = Rejected (DoS 0 REJECT_INVALID reason false state).

Lemma kept_lift {A} (b : CBlock) m (I : check_state -> Prop) (r : result failure A) : (forall s, I s -> mapRejectedBlocks s = m) ->
  triple I (lift r) (fun _ => I) (table_kept b m).
Proof using. intros K. apply triple_lift; [done|]. intros s e _ Hs. left. auto. Qed.

Lemma kept_reject {A} (b : CBlock) m (I : check_state -> Prop) reason state (Q : A -> check_state -> Prop) : (forall s, I s -> mapRejectedBlocks s = m) ->
  triple I (do* _ := update (reject_block (CBlockHeader_GetHash HashQuark b) GetTime) in lift (reject 0 REJECT_INVALID reason state)) Q (table_kept b m).
Proof using.
  intros K s Hs. right. cbn [ebind update lift reject]. unfold reject_block. cbn [mapRejectedBlocks]. rewrite (K s Hs). split; [done|]. by exists state, reason.
Qed.

Lemma CheckBlock_table (b : CBlock) state fCheckPOW fCheckMerkleRoot fCheckSig m :
  triple (fun s => mapRejectedBlocks s = m) (Check b state fCheckPOW fCheckMerkleRoot fCheckSig)
    (fun _ s => mapRejectedBlocks s = m /\ (fCheckMerkleRoot = true -> cs_vMerkleTree s = List.concat (levels (length (txids b)) (txids b))))
    (table_kept b m).
Proof using.
  set (I := fun s => mapRejectedBlocks s = m).
  set (J := fun s => I s /\ (fCheckMerkleRoot = true -> cs_vMerkleTree s = List.concat (levels (length (txids b)) (txids b)))).
  assert (JI : forall s, J s -> mapRejectedBlocks s = m) by (by intros s []).
  unfold CheckBlock. eapply triple_bind; [by apply (kept_lift b m I)|intros ?; cbv beta].
  destruct (_ >? _); [intros s Hs; by left|].
  apply triple_bind with (R := fun _ => J); [|intros ?; cbv beta].
  { destruct fCheckMerkleRoot; [|apply triple_ret; by split]. unfold check_merkle_root. rewrite BuildMerkleTree_spec.
    apply triple_bind with (R := fun _ => J); [by apply triple_update|intros ?; cbv beta]. by apply (kept_lift b m J). }
  eapply triple_bind; [by apply (kept_lift b m J)|intros ?; cbv beta].
  destruct (SPORK_3 && _); [by apply kept_reject|].
  apply triple_bind with (R := fun _ => J); [|intros ?; cbv beta].
  { destruct (CBlock_IsProofOfStake b); [|by apply triple_ret]. unfold check_stake.
    eapply triple_bind; [by apply (kept_lift b m J)|intros [h|]; cbv beta; [|by apply triple_ret]].
    destruct (_ && _); [by apply (kept_lift b m J)|]. destruct (_ && (_ >? BiggerTime _ _ + _)); [by apply (kept_lift b m J)|].
    destruct (_ && _); [by apply kept_reject|by apply triple_ret]. }
  eapply triple_bind; [by apply (kept_lift b m J)|intros ?; cbv beta].
  destruct (_ >? _); [by apply (kept_lift b m J)|by apply triple_ret].
Qed.

End accept.

(** A coinbase of a block with a version 4 header, that pays nothing. *)
Definition sample_coinbase_tx : CTransaction :=
  CTransaction_of (mk_CMutableTransaction 1 [CTxIn_make COutPoint_SetNull [Byte.x51; Byte.x51] UINT32_MAX] [CTxOut_make 0 []] 0).
Definition sample_block : CBlock :=
  mk_CBlock (mk_CBlockHeader 4 (base_uint_zero 8) (tx_hash sample_coinbase_tx) 1000 0x207fffff 1 (base_uint_zero 8)) [sample_coinbase_tx] [] [] [].


(** ** What the header of an accepted block binds *)

(** Some call of [CheckBlock] that checks the root accepts the block. *)
Definition accepted (params : CChainParams) (HashQuark : bytes -> uint256) (b : CBlock) : Prop :=
  exists (Zc : Zerocoin) GetTime GetAdjustedTime download spork locked payee H map chain state fCheckPOW fCheckSig s,
    (CheckBlock params HashQuark GetTime GetAdjustedTime download spork locked payee H map chain
       b state fCheckPOW true fCheckSig s).1 = Ret tt.

Lemma ebind_Ret {S E A B} (m : eff S E A) (k : A -> eff S E B) s b :
  (ebind m k s).1 = Ret b -> exists a s', m s = (Ret a, s') /\ (k a s').1 = Ret b.
Proof. unfold ebind. destruct (m s) as [[a|e] s']; [intros K; by exists a, s'|done]. Qed.

Lemma accepted_root params HashQuark b : accepted params HashQuark b -> root_ok b /\ layout_ok b.
Proof.
  intros (Zc & now & adj & dl & sp & lk & py & H & map & chain & st & pow & sig & s & E). unfold CheckBlock in E.
  apply ebind_Ret in E as (_ & s1 & _ & E). destruct (_ >? _); [done|].
  apply ebind_Ret in E as ([] & s2 & Er & E). apply ebind_Ret in E as ([] & s3 & El & _).
  pose proof (check_merkle_root_spec no_accident b st s1) as R. rewrite Er in R.
  pose proof (check_layout_spec no_accident b st) as L. unfold lift in El. apply pair_equal_spec in El as [El _]. rewrite El in L.
  split; [apply R|apply L].
Qed.

(** Two different strings with the same double SHA-256. *)
Definition hash_collision : Prop := exists x y : bytes, x <> y /\ Hash [x] = Hash [y].

Lemma Hash_inj x y : Hash [x] = Hash [y] -> x = y \/ hash_collision.
Proof. destruct (decide (x = y)); [by left|]. right. by exists x, y. Qed.

Lemma txid_inj (t1 t2 : CTransaction) : Serializable t1 -> Serializable t2 -> tx_hash t1 = tx_hash t2 -> t1 = t2 \/ hash_collision.
Proof.
  intros S1 S2 E. pose proof (proj2 S1) as H1. pose proof (proj2 S2) as H2. unfold tx_ok in *. rewrite H1, H2 in E. unfold SerializeHash in E.
  apply Hash_inj in E as [E|C]; [left|by right].
  pose proof (Unserialize_Serialize t1 [] S1) as U1. pose proof (Unserialize_Serialize t2 [] S2) as U2.
  cbn [Serialize CTransaction_Serializer] in U1, U2. rewrite E in U1. congruence.
Qed.

Lemma txids_inj (l1 l2 : list CTransaction) : Forall Serializable l1 -> Forall Serializable l2 -> map tx_hash l1 = map tx_hash l2 -> l1 = l2 \/ hash_collision.
Proof.
  intros F1. revert l2. induction F1 as [|t1 l1 S1 F1 IH]; intros [|t2 l2] F2 E; try done; [by left|].
  apply Forall_cons in F2 as [S2 F2]. cbn [map] in E. apply cons_inv in E as [E1 E2].
  destruct (txid_inj t1 t2 S1 S2 E1) as [->|C]; [|by right]. destruct (IH l2 F2 E2) as [->|C]; [by left|by right].
Qed.

Lemma collision_any : collision -> hash_collision.
Proof. intros (x & y & _ & _ & N & E). by exists x, y. Qed.

Definition short_coinbase (b : CBlock) : Prop := exists tx txs, vtx b = tx :: txs /\ length (Serialize tx) = 64%nat.

Lemma txids_wf (b : CBlock) : Serializable b -> Forall (wf 8) (txids b).
Proof.
  intros (_ & _ & F & _). apply Forall_map. eapply Forall_impl; [exact F|]. intros tx [_ T]. unfold tx_ok in T. rewrite T. apply Hash_wf.
Qed.

Lemma first_leaf_inner (b : CBlock) x y l : Serializable b -> wf 8 x -> wf 8 y -> txids b = hash2 x y :: l -> short_coinbase b \/ hash_collision.
Proof.
  intros (_ & _ & F & _) [Lx _] [Ly _] E. unfold txids in E. destruct (vtx b) as [|tx txs] eqn:Ev; [done|]. cbn [map] in E. apply cons_inv in E as [E _].
  apply Forall_cons in F as [[_ T] _]. unfold tx_ok in T. rewrite T, hash2_concat in E. unfold SerializeHash in E.
  apply Hash_inj in E as [E|C]; [left|by right]. exists tx, txs. split; [done|]. cbn [Serialize CTransaction_Serializer]. rewrite E.
  by rewrite length_app, !uint_bytes_length, Lx, Ly.
Qed.

Lemma roots_bind (b1 b2 : CBlock) : Serializable b1 -> Serializable b2 -> vtx b1 <> [] -> vtx b2 <> [] -> root_ok b1 -> root_ok b2 ->
  hashMerkleRoot b1 = hashMerkleRoot b2 -> vtx b1 = vtx b2 \/ hash_collision \/ short_coinbase b1 \/ short_coinbase b2.
Proof.
  intros S1 S2 N1 N2 [R1 M1] [R2 M2] E. rewrite R1, R2 in E.
  assert (NE : forall b, vtx b <> [] -> txids b <> []) by (intros b N K; apply N; unfold txids in K; by destruct (vtx b)).
  pose proof (txids_wf b1 S1) as W1. pose proof (txids_wf b2 S2) as W2. pose proof (NE b1 N1) as E1. pose proof (NE b2 N2) as E2.
  destruct (lt_eq_lt_dec (length (levels (length (txids b1)) (txids b1))) (length (levels (length (txids b2)) (txids b2)))) as [[L|L]|L].
  - destruct (levels_inj_lower _ _ _ _ (le_n _) (le_n _) E1 E2 W1 W2 L M1 M2 E) as [(x & y & l & Wx & Wy & Q)|C]; [|right; left; by apply collision_any].
    destruct (first_leaf_inner b1 x y l S1 Wx Wy Q); auto.
  - destruct (levels_inj _ _ _ _ (le_n _) (le_n _) E1 E2 W1 W2 L M1 M2 E) as [Q|C]; [|right; left; by apply collision_any].
    destruct S1 as (_ & _ & F1 & _), S2 as (_ & _ & F2 & _). destruct (txids_inj _ _ F1 F2 Q); auto.
  - destruct (levels_inj_lower _ _ _ _ (le_n _) (le_n _) E2 E1 W2 W1 L M2 M1 (eq_sym E)) as [(x & y & l & Wx & Wy & Q)|C]; [|right; left; by apply collision_any].
    destruct (first_leaf_inner b2 x y l S2 Wx Wy Q); auto.
Qed.

(** The same for the function that hashes the headers of older versions, alone or against the
    other one. *)
Definition quark_collision (HashQuark : bytes -> uint256) : Prop :=
  exists x y : bytes, x <> y /\ (HashQuark x = HashQuark y \/ HashQuark x = Hash [y]).

Lemma GetHash_of_bytes HashQuark (h : CBlockHeader) :
  CBlockHeader_GetHash HashQuark h = if b_nVersion h <? 4 then HashQuark (Serialize h) else Hash [Serialize h].
Proof.
  destruct (Z.ltb_spec (b_nVersion h) 4); [|by apply GetHash_serialized].
  unfold CBlockHeader_GetHash. cbn [Serialize CBlockHeader_Serializer]. rewrite (proj2 (Z.ltb_lt (b_nVersion h) 4)) by lia.
  replace (b_nVersion h >? 3) with false by (symmetry; rewrite Z.gtb_ltb; apply Z.ltb_ge; lia). by rewrite app_nil_r.
Qed.

Lemma header_inj HashQuark (h1 h2 : CBlockHeader) : Serializable h1 -> Serializable h2 ->
  CBlockHeader_GetHash HashQuark h1 = CBlockHeader_GetHash HashQuark h2 -> h1 = h2 \/ hash_collision \/ quark_collision HashQuark.
Proof.
  intros S1 S2 E. destruct (decide (Serialize h1 = Serialize h2)) as [Es|Ns].
  { left. pose proof (Unserialize_Serialize h1 [] S1) as U1. pose proof (Unserialize_Serialize h2 [] S2) as U2. rewrite Es in U1. congruence. }
  right. rewrite !GetHash_of_bytes in E. destruct (b_nVersion h1 <? 4), (b_nVersion h2 <? 4).
  - right. exists (Serialize h1), (Serialize h2). auto.
  - right. exists (Serialize h1), (Serialize h2). auto.
  - right. exists (Serialize h2), (Serialize h1). auto.
  - left. exists (Serialize h1), (Serialize h2). auto.
Qed.


(** A stake block that two signatures are given to. *)
Definition sample_stake_coinbase : CTransaction :=
  CTransaction_of (mk_CMutableTransaction 1 [CTxIn_make COutPoint_SetNull [Byte.x51; Byte.x51] UINT32_MAX] [CTxOut_make 0 []] 0).
Definition sample_coinstake : CTransaction :=
  CTransaction_of (mk_CMutableTransaction 1 [CTxIn_make (mk_COutPoint (base_uint_u64 8 1) 0) [] UINT32_MAX] [CTxOut_make 0 []; CTxOut_make 50 [Byte.x51]] 0).
Definition sample_stake_block (sig : bytes) : CBlock :=
  mk_CBlock (mk_CBlockHeader 4 (base_uint_zero 8) (Merkle.merkle_root [tx_hash sample_stake_coinbase; tx_hash sample_coinstake]) 1005 0x207fffff 1 (base_uint_zero 8))
    [sample_stake_coinbase; sample_coinstake] sig [] [].

Lemma sample_accepted sig : (length sig <= 2)%nat -> accepted CMainParams (fun _ => base_uint_zero 8) (sample_stake_block sig).
Proof.
  intros L. exists toy_zerocoin, 1005, 0, true, true, (fun _ => None), (fun _ _ => true),
    ∅, ∅, [], CValidationState_new, true, true, (mk_check_state [] ∅). destruct sig as [|x [|y [|]]]; cbn in L; try lia; by vm_compute.
Qed.

