(* ===== verification/Accept.v ===== *)
(** * Acceptance of headers and of blocks in context ([main.cpp])

    [ContextualCheckBlockHeader], [ContextualCheckBlock] and [AcceptBlockHeader]: the checks
    against the parent in the block index, and the entry that an accepted header gets. *)

From Stdlib Require Import ZArith Lia List Bool String.
From stdpp Require Import base option list sorting gmap.
From coqutil Require Import Byte Word.LittleEndianList.
From S2P Require Import Prelude Effects Uint256 Compact Serialize MerkleDamgard Hash Text Script Tx Params BlockIndex Checkpoints Pow Chain Block TxCheck CheckBlock.

Open Scope Z_scope.
Open Scope btc_scope.

Definition REJECT_CHECKPOINT : Z := 0x43.

(** [state.Invalid(...)] *)
Definition invalid {A} (code : Z) (reason : string) (state : CValidationState) : result failure A := Err (Rejected (Invalid code reason state)).

(** What [AddToBlockIndex] takes from a block. *)
Definition kernel_of (b : CBlock) : option uint256 :=
  match vtx b with _ :: tx :: _ => (fun i => prev_hash (prevout i)) <$> head (tx_vin tx) | _ => None end.
Definition header_of (HashQuark : bytes -> uint256) (b : CBlock) : block_header :=
  mk_block_header (CBlockHeader_GetHash HashQuark b) (hashPrevBlock b)
    (mk_header (b_nVersion b) (hashMerkleRoot b) (b_nTime b) (b_nBits b) (b_nNonce b) (nAccumulatorCheckpoint b))
    (CBlock_IsProofOfStake b) (kernel_of b).

Section accept_header.
Context (params : CChainParams) (HashQuark : bytes -> uint256).
(** [Params().HashGenesisBlock()], [-maxreorg], [Checkpoints::fEnabled] and the table. *)
Context (HashGenesisBlock : uint256) (nMaxReorgDepth : Z) (fEnabled : bool) (checkpoints : MapCheckpoints).
Context (GetTime GetAdjustedTime : Z) (chainActive : CChain).
Context (ComputeNextStakeModifier : ptr -> Z * bool) (ComputeStakeModifierV2 : ptr -> uint256 -> uint256).

Section contextual.
Context (H : heap) (mapBlockIndex : gmap uint256 ptr).

(** The loop over three entries: [TooManyBlocksWithSameTimeStamp]. *)
Fixpoint same_stamp (n : nat) (p : option ptr) (nTime : Z) : result failure bool :=
  match n with
  | O => Ret true
  | S n =>
      let* b := of_ptr (deref H p) in
      if GetBlockTime b <? nTime then Ret false else
      match pprev b with None => Ret true | Some _ => same_stamp n (pprev b) nTime end
  end.

(** The tests of the time stamp. *)
Definition check_stamp (nTime nHeight : Z) (p : ptr) (prev : CBlockIndex) (state : CValidationState) : result failure unit :=
  if nHeight >=? REWARDFORK_BLOCK then
    if negb (Z.rem nTime nStakeInterval =? 0) then reject 100 REJECT_INVALID "time-invalid" state else
    if nTime >? BiggerTime GetTime GetAdjustedTime + nMaxStakingFutureDriftv3 then reject 10 REJECT_INVALID "time-too-new" state else
    if nTime <? GetBlockTime prev then invalid REJECT_INVALID "time-too-old" state else
    let* TooManyBlocksWithSameTimeStamp := same_stamp 3 (Some p) nTime in
    if TooManyBlocksWithSameTimeStamp then invalid REJECT_INVALID "time-too-used" state else Ret tt
  else
    match GetMedianTimePast H p with
    | None => Err Undefined
    | Some m => if nTime <=? m then invalid REJECT_INVALID "time-too-old" state else Ret tt
    end.

Definition ContextualCheckBlockHeader (block : CBlockHeader) (state : CValidationState) (pindexPrev : option ptr) : result failure unit :=
  let hash := CBlockHeader_GetHash HashQuark block in
  if bool_decide (hash = HashGenesisBlock) then Ret tt else
  match pindexPrev with
  | None => Err Asserts
  | Some p =>
      let* prev := of_ptr (deref H (Some p)) in
      let* nHeight := int_succ (nHeight prev) in
      if Height chainActive - nHeight >=? nMaxReorgDepth then reject 10 0 "" state else
      let* _ := check_stamp (CBlockHeader_GetBlockTime block) nHeight p prev state in
      if negb (Checkpoints_CheckBlock fEnabled checkpoints nHeight hash false) then reject 100 REJECT_CHECKPOINT "checkpoint mismatch" state else
      match GetLastCheckpoint fEnabled checkpoints mapBlockIndex with
      | None => Ret tt
      | Some q =>
          let* pcheckpoint := of_ptr (deref H (Some q)) in
          if nHeight <? BlockIndex.nHeight pcheckpoint then reject 1 0 "" state else Ret tt
      end
  end.

(** [std::equal] over the shorter range, after the test of the sizes. *)
Definition starts_with (expect s : list byte) : bool := (length expect <=? length s)%nat && bool_decide (take (length expect) s = expect).

Definition ContextualCheckBlock (block : CBlock) (state : CValidationState) (pindexPrev : option ptr) : result failure unit :=
  let* nHeight := match pindexPrev with None => Ret 0 | Some p => let* prev := of_ptr (deref H (Some p)) in int_succ (nHeight prev) end in
  if negb (forallb (fun tx : CTransaction => IsFinalTx tx (Height chainActive) GetAdjustedTime nHeight (CBlockHeader_GetBlockTime block)) (vtx block))
  then reject 10 REJECT_INVALID "bad-txns-nonfinal" state else
  match vtx block with
  | tx :: _ =>
      match tx_vin tx with
      | i :: _ =>
          if negb (starts_with (push_int64 [] nHeight) (scriptSig i)) then reject 100 REJECT_INVALID "bad-cb-height" state else Ret tt
      | [] => Err Undefined
      end
  | [] => Err Undefined
  end.
End contextual.

Definition failed (b : CBlockIndex) : bool := negb (Z.land (nStatus b) BLOCK_FAILED_MASK =? 0).

(** The parent of a new header, [None] for the genesis block. *)
Definition find_prev (block : CBlock) (state : CValidationState) (s : block_index) : result failure (option ptr) :=
  if bool_decide (CBlockHeader_GetHash HashQuark block = HashGenesisBlock) then Ret None else
  match mapBlockIndex s !! hashPrevBlock block with
  | None => reject 0 0 "bad-prevblk" state
  | Some q =>
      let* e := of_ptr (deref (entries s) (Some q)) in
      if failed e then reject 100 REJECT_INVALID "bad-prevblk" state else Ret (Some q)
  end.

(** The entry the header has or gets ([*ppindex]). *)
Definition AcceptBlockHeader (block : CBlock) (state : CValidationState) : eff block_index failure ptr := fun s =>
  match mapBlockIndex s !! CBlockHeader_GetHash HashQuark block with
  | Some p =>
      (let* e := of_ptr (deref (entries s) (Some p)) in if failed e then invalid 0 "duplicate" state else Ret p, s)
  | None =>
      (do* _ := lift (CheckBlockHeader params HashQuark block state false) in
       do* pindexPrev := lift (find_prev block state s) in
       do* _ := lift (ContextualCheckBlockHeader (entries s) (mapBlockIndex s) block state pindexPrev) in
       fun s => match of_ptr (AddToBlockIndex ComputeNextStakeModifier ComputeStakeModifierV2 StakingProtocol2Height (header_of HashQuark block) s) with
                | Ret (s', p) => (Ret p, s')
                | Err e => (Err e, s)
                end) s
  end.
End accept_header.

(** ** The rules of the chain of headers *)

Section rules.
Context (HashGenesisBlock : uint256) (fEnabled : bool) (checkpoints : MapCheckpoints).

(** From the reward fork on the times are multiples of fifteen, never decrease, and one of
    the three previous blocks is earlier; before, the time is after the median of the last
    eleven blocks. *)
Definition stamp_rule (H : heap) (nTime nHeight : Z) (q : ptr) (e : CBlockIndex) : Prop :=
  (REWARDFORK_BLOCK <= nHeight -> Z.rem nTime 15 = 0 /\ GetBlockTime e <= nTime /\ Exists (fun t => t < nTime) (median_times H 3 (Some q))) /\
  (nHeight < REWARDFORK_BLOCK -> exists m, GetMedianTimePast H q = Some m /\ m < nTime).

(** The block at the height of a checkpoint is that of the checkpoint. *)
Definition checkpoint_rule (nHeight : Z) (hash : uint256) : Prop :=
  fEnabled = true -> forall h, find_checkpoint checkpoints nHeight = Some h -> hash = h.

Definition entry_rules (H : heap) (b : CBlockIndex) : Prop :=
  blockHash b = HashGenesisBlock \/
  exists q e, pprev b = Some q /\ H !! q = Some e /\ stamp_rule H (GetBlockTime b) (nHeight b) q e /\ checkpoint_rule (nHeight b) (blockHash b).

Definition rules_ok (H : heap) : Prop := map_Forall (fun _ b => entry_rules H b) H.

Lemma median_times_extends H H' n p : index_ok H -> extends H H' -> is_Some (H !! p) -> median_times H' n (Some p) = median_times H n (Some p).
Proof using.
  intros Hok He. revert p. induction n as [|n IH]; intros p [b Hp]; [done|]. destruct (He p b Hp) as (b' & Hp' & R).
  apply relinked_fields in R as (_ & Epv & _ & _ & _ & Eh). cbn [median_times mbind option_bind]. rewrite Hp, Hp'.
  unfold GetBlockTime. rewrite Epv, Eh. f_equal. destruct (Hok p b Hp) as [_ Hb].
  destruct (pprev b) as [q|]; [|by destruct n]. destruct Hb as [(c & Hq & _) _]. apply IH. by exists c.
Qed.

Lemma stamp_rule_extends H H' t h q e e' : index_ok H -> extends H H' -> H !! q = Some e -> relinked e e' ->
  stamp_rule H t h q e -> stamp_rule H' t h q e'.
Proof using.
  intros Hok He Hq R [S1 S2]. apply relinked_fields in R as (_ & _ & _ & _ & _ & Eh).
  assert (E : forall n, median_times H' n (Some q) = median_times H n (Some q)) by (intros n; apply median_times_extends; [done|done|by exists e]).
  split.
  - intros L. rewrite E. unfold GetBlockTime in *. rewrite Eh. by apply S1.
  - intros L. unfold GetMedianTimePast in *. rewrite E. by apply S2.
Qed.

Lemma entry_rules_extends H H' b b' : index_ok H -> extends H H' -> relinked b b' -> entry_rules H b -> entry_rules H' b'.
Proof using.
  intros Hok He R [G|(q & e & Ep & Hq & S & C)]; apply relinked_fields in R as (E1 & E2 & _ & E4 & _ & E6); [left; congruence|right].
  destruct (He q e Hq) as (e' & Hq' & Re). exists q, e'. rewrite E1, E2, E4. split; [done|]. split; [done|]. split; [|done].
  unfold GetBlockTime. rewrite E6. by apply (stamp_rule_extends H H' _ _ q e e').
Qed.

(** The loop over three entries looks for an earlier one. *)
Lemma same_stamp_spec H n p t : index_ok H -> is_Some (H !! p) ->
  exists r, same_stamp H n (Some p) t = Ret r /\ (r = false <-> Exists (fun t' => t' < t) (median_times H n (Some p))).
Proof using.
  intros Hok. revert p. induction n as [|n IH]; intros p [b Hp]; [exists true; split; [done|]; split; [done|by intros ?%Exists_nil]|].
  cbn [same_stamp median_times mbind option_bind]. rewrite (deref_Some H p b Hp), Hp. cbn [of_ptr result_bind].
  destruct (Z.ltb_spec (GetBlockTime b) t); [exists false; split; [done|]; split; [by left|done]|].
  destruct (Hok p b Hp) as [_ Hb]. destruct (pprev b) as [q|].
  - destruct Hb as [(c & Hq & _) _]. destruct (IH q) as (r & -> & I); [by exists c|]. exists r. split; [done|]. rewrite I.
    split; [by right|]. intros K. apply Exists_cons in K as [K|K]; [lia|done].
  - exists true. split; [done|]. split; [done|]. intros K. apply Exists_cons in K as [K|K]; [lia|]. destruct n; by apply Exists_nil in K.
Qed.

Lemma GetMedianTimePast_Some H p b : H !! p = Some b -> is_Some (GetMedianTimePast H p).
Proof using.
  intros Hp. unfold GetMedianTimePast. apply lookup_lt_is_Some. rewrite merge_sort_Permutation.
  cbn [median_times nMedianTimeSpan mbind option_bind]. rewrite Hp. apply Nat.lt_div2. cbn. lia.
Qed.
End rules.

(** ** What [AcceptBlockHeader] accepts *)

Section accepts.
Context (params : CChainParams) (HashQuark : bytes -> uint256).
Context (HashGenesisBlock : uint256) (nMaxReorgDepth : Z) (fEnabled : bool) (checkpoints : MapCheckpoints).
Context (GetTime GetAdjustedTime : Z) (chainActive : CChain).

(** The heights of the index can be counted up. *)
Definition heights_below (H : heap) : Prop := forall p b, H !! p = Some b -> nHeight b < 2 ^ 31 - 1.

Definition stamp_ok (H : heap) (nTime h : Z) (q : ptr) (e : CBlockIndex) : Prop :=
  stamp_rule H nTime h q e /\ (REWARDFORK_BLOCK <= h -> nTime <= Z.max GetTime GetAdjustedTime + 25).

(** The checks on top of a parent. *)
Definition fits (H : heap) (map : gmap uint256 ptr) (block : CBlockHeader) (q : ptr) (e : CBlockIndex) : Prop :=
  Height chainActive - (nHeight e + 1) < nMaxReorgDepth /\ stamp_ok H (b_nTime block) (nHeight e + 1) q e /\
  checkpoint_rule fEnabled checkpoints (nHeight e + 1) (CBlockHeader_GetHash HashQuark block) /\
  (fEnabled = true -> forall c d, last_known checkpoints map c -> H !! c = Some d -> nHeight d <= nHeight e + 1).

(** A header that is new is accepted, and can be added. *)
Definition acceptable (s : block_index) (b : CBlock) : Prop :=
  ~ (b_nNonce b > 1000000100 /\ b_nTime b > 1599070879) /\
  (CBlockHeader_GetHash HashQuark b = HashGenesisBlock \/
   exists q e, mapBlockIndex s !! hashPrevBlock b = Some q /\ entries s !! q = Some e /\ failed e = false /\ fits (entries s) (mapBlockIndex s) b q e).
Definition has_kernel (s : block_index) (b : CBlock) : Prop :=
  forall q e, mapBlockIndex s !! hashPrevBlock b = Some q -> entries s !! q = Some e -> nHeight e + 1 < StakingProtocol2Height \/ is_Some (kernel_of b).

Definition header_accepted (s : block_index) (b : CBlock) : Prop :=
  match mapBlockIndex s !! CBlockHeader_GetHash HashQuark b with
  | Some p => exists e, entries s !! p = Some e /\ failed e = false
  | None => acceptable s b /\ has_kernel s b
  end.

(** The accident: the second transaction is read and does not exist. *)
Definition no_kernel (s : block_index) (b : CBlock) (e : failure) : Prop := e = Undefined /\ ~ has_kernel s b.

Lemma decides_invalid {X A} code reason st (P : Prop) (Q : A -> Prop) : ~ P -> decides X (invalid code reason st) P Q.
Proof using. intros N. split; [exact N|left; by eexists]. Qed.

Lemma int_succ_small n : n < 2 ^ 31 - 1 -> int_succ n = Ret (n + 1).
Proof using. intros L. unfold int_succ. rewrite Z.geb_leb. destruct (Z.leb_spec (2 ^ 31) (n + 1)); [lia|done]. Qed.

Lemma check_stamp_spec X H nTime h q e state : index_ok H -> H !! q = Some e ->
  decides X (check_stamp GetTime GetAdjustedTime H nTime h q e state) (stamp_ok H nTime h q e) (fun _ => True).
Proof using.
  intros Hok Hq. unfold check_stamp, stamp_ok, stamp_rule. rewrite BiggerTime_max, Z.geb_leb. unfold nStakeInterval, nMaxStakingFutureDriftv3.
  destruct (Z.leb_spec REWARDFORK_BLOCK h) as [L|L].
  - destruct (Z.eqb_spec (Z.rem nTime 15) 0) as [R|R]; cbn [negb]; [|apply decides_reject; intros [[S _] _]; by destruct (S L)].
    destruct (Z.gtb_spec nTime (Z.max GetTime GetAdjustedTime + 25)); [apply decides_reject; intros [_ S]; specialize (S L); lia|].
    destruct (Z.ltb_spec nTime (GetBlockTime e)); [apply decides_invalid; intros [[S _] _]; destruct (S L) as (_ & S2 & _); lia|].
    destruct (same_stamp_spec H 3 q nTime Hok) as (r & -> & I); [by exists e|]. cbn [result_bind]. destruct r.
    + apply decides_invalid. intros [[S _] _]. destruct (S L) as (_ & _ & S3). by apply I in S3.
    + split; [|done]. split; [|intros _; lia]. split; [|lia]. intros _. split; [done|]. split; [done|]. by apply I.
  - destruct (GetMedianTimePast_Some H q e Hq) as [m Em]. rewrite Em. destruct (Z.leb_spec nTime m).
    + apply decides_invalid. intros [[_ S] _]. destruct (S L) as (m' & [= <-] & Lm). lia.
    + split; [|done]. split; [|lia]. split; [lia|]. intros _. by exists m.
Qed.

Lemma Contextual_spec X (b : CBlock) s q e state : block_index_ok s -> heights_below (entries s) ->
  CBlockHeader_GetHash HashQuark b <> HashGenesisBlock -> entries s !! q = Some e ->
  decides X (ContextualCheckBlockHeader HashQuark HashGenesisBlock nMaxReorgDepth fEnabled checkpoints GetTime GetAdjustedTime chainActive
    (entries s) (mapBlockIndex s) b state (Some q)) (fits (entries s) (mapBlockIndex s) b q e) (fun _ => True).
Proof using.
  intros (Hok & _ & Hm & _) Hb Ng Hq. unfold ContextualCheckBlockHeader, fits. rewrite bool_decide_false by done.
  rewrite (deref_Some _ q e Hq). cbn [of_ptr result_bind]. rewrite int_succ_small by (by apply (Hb q)). cbn [result_bind].
  rewrite Z.geb_leb. destruct (Z.leb_spec nMaxReorgDepth (Height chainActive - (nHeight e + 1))); [apply decides_reject; lia|].
  eapply decides_bind; [by apply check_stamp_spec|intros _ S _|by intros (_ & S & _)].
  apply decides_test with (P := checkpoint_rule fEnabled checkpoints (nHeight e + 1) (CBlockHeader_GetHash HashQuark b)); [|tauto|intros C].
  { unfold checkpoint_rule, Checkpoints_CheckBlock. rewrite negb_false_iff. destruct fEnabled; cbn [negb]; [|by split].
    destruct (find_checkpoint _ _) as [h|]; [|by split]. rewrite bool_decide_eq_true. split; [by intros -> _ ? [= <-]|intros K; by apply K]. }
  pose proof (fun c => GetLastCheckpoint_spec fEnabled checkpoints (mapBlockIndex s) c) as G.
  destruct (GetLastCheckpoint _ _ _) as [c|] eqn:Ec.
  2: { split; [|done]. repeat (split; [done|]). intros F c d K. by apply (conj F), G in K. }
  destruct (proj1 (G c) eq_refl) as [Fe Lk].
  assert (is_Some (entries s !! c)) as [d Hd].
  { destruct Lk as (l & h & x & l' & _ & Ei & _). apply Hm in Ei as (d & Hd & _). by exists d. }
  rewrite (deref_Some _ c d Hd). cbn [of_ptr result_bind]. destruct (Z.ltb_spec (nHeight e + 1) (nHeight d)).
  - apply decides_reject. intros (_ & _ & _ & K). specialize (K Fe c d Lk Hd). lia.
  - split; [|done]. repeat (split; [done|]). intros _ c' d' K' Hd'. apply (conj Fe), G in K' as [= <-].
    rewrite Hd in Hd'. injection Hd' as <-. lia.
Qed.

Context (ComputeNextStakeModifier : ptr -> Z * bool) (ComputeStakeModifierV2 : ptr -> uint256 -> uint256).
Abbreviation Accept := (AcceptBlockHeader params HashQuark HashGenesisBlock nMaxReorgDepth fEnabled checkpoints GetTime GetAdjustedTime chainActive
  ComputeNextStakeModifier ComputeStakeModifierV2).

Lemma addable_header (s : block_index) (b : CBlock) : block_index_ok s -> heights_below (entries s) -> in_u32 (b_nBits b) ->
  hashPrevBlock b <> CBlockHeader_GetHash HashQuark b -> has_kernel s b -> addable StakingProtocol2Height s (header_of HashQuark b).
Proof using.
  intros _ Hb Hn Np K. split; [done|]. split; [done|]. intros q c Eq Hq. split; [pose proof (Hb q c Hq); lia|]. by apply (K q c).
Qed.

(** The entry of a header: the one it has, or a new one on top of its parent. *)
Definition entered (s : block_index) (b : CBlock) (s' : block_index) (p : ptr) : Prop :=
  (s' = s /\ mapBlockIndex s !! CBlockHeader_GetHash HashQuark b = Some p) \/
  (exists e, block_index_ok s' /\ extends (entries s) (entries s') /\ entries s !! p = None /\ entries s' !! p = Some e /\
    blockHash e = CBlockHeader_GetHash HashQuark b /\ pprev e = mapBlockIndex s !! hashPrevBlock b /\
    GetBlockTime e = b_nTime b /\ (forall x, is_Some (entries s' !! x) -> x = p \/ is_Some (entries s !! x)) /\
    ih_nBits (header e) = b_nBits b /\ nStatus e = BLOCK_VALID_TREE /\ nTx e = 0 /\ nChainTx e = 0).

(** The addition itself fails only for want of a kernel. *)
Lemma add_header (b : CBlock) (s : block_index) : block_index_ok s -> heights_below (entries s) -> in_u32 (b_nBits b) ->
  hashPrevBlock b <> CBlockHeader_GetHash HashQuark b -> mapBlockIndex s !! CBlockHeader_GetHash HashQuark b = None ->
  (exists s' p, AddToBlockIndex ComputeNextStakeModifier ComputeStakeModifierV2 StakingProtocol2Height (header_of HashQuark b) s = Ret (s', p) /\
    has_kernel s b /\ entered s b s' p) \/
  (AddToBlockIndex ComputeNextStakeModifier ComputeStakeModifierV2 StakingProtocol2Height (header_of HashQuark b) s = Err NullDeref /\ ~ has_kernel s b).
Proof using.
  intros Hs Hb Hn Np Em. pose proof Hs as (_ & _ & Hm & _).
  assert (D : has_kernel s b \/ exists q e, mapBlockIndex s !! hashPrevBlock b = Some q /\ entries s !! q = Some e /\
    StakingProtocol2Height <= nHeight e + 1 /\ kernel_of b = None).
  { unfold has_kernel. destruct (mapBlockIndex s !! hashPrevBlock b) as [q|] eqn:Eq; [|by left]. pose proof Eq as Eq'. apply Hm in Eq' as (e & Hq & _).
    destruct (decide (nHeight e + 1 < StakingProtocol2Height)) as [L|L].
    - left. intros q' e' [= <-] Hq'. rewrite Hq in Hq'. injection Hq' as <-. by left.
    - destruct (kernel_of b); [left; intros; right; by eexists|right]. exists q, e. repeat split; try done. lia. }
  destruct D as [K|(q & e & Eq & Hq & L & Ek)]; [left|right].
  - destruct (AddToBlockIndex_new ComputeNextStakeModifier ComputeStakeModifierV2 StakingProtocol2Height s (header_of HashQuark b) Hs) as
      (s' & p & e & E & Hs' & He & Hp & Hp' & Eh & Epv & Ehd & Ez & Hd); [by apply addable_header|done|].
    exists s', p. split; [exact E|]. split; [exact K|]. right. exists e. repeat (split; [done|]). rewrite Ehd.
    split; [unfold GetBlockTime; rewrite Ehd; unfold CBlockIndex_of; by destruct (bh_IsProofOfStake _)|]. split; [done|]. split; [|done].
    by rewrite (proj1 (proj2 (proj2 (proj2 (CBlockIndex_of_fields (header_of HashQuark b)))))).
  - split.
    + apply (AddToBlockIndex_no_kernel ComputeNextStakeModifier ComputeStakeModifierV2 StakingProtocol2Height s (header_of HashQuark b) q e); try done.
      pose proof (Hb q e Hq). lia.
    + intros K. destruct (K q e Eq Hq) as [|[k Ek']]; [lia|congruence].
Qed.

Lemma AcceptBlockHeader_decides (b : CBlock) (state : CValidationState) (s : block_index) : block_index_ok s -> heights_below (entries s) ->
  in_u32 (b_nBits b) -> hashPrevBlock b <> CBlockHeader_GetHash HashQuark b ->
  decides (no_kernel s b) (Accept b state s).1 (header_accepted s b) (fun p => entered s b (Accept b state s).2 p) /\
  (forall e, (Accept b state s).1 = Err e -> (Accept b state s).2 = s).
Proof using.
  intros Hs Hb Hn Np. pose proof Hs as (Hok & _ & Hm & _). unfold AcceptBlockHeader, header_accepted.
  destruct (mapBlockIndex s !! CBlockHeader_GetHash HashQuark b) as [p|] eqn:Em.
  { pose proof Em as Em'. apply Hm in Em' as (e & Hp & _). rewrite (deref_Some _ p e Hp). cbn [of_ptr result_bind]. destruct (failed e) eqn:F; cbn [fst snd].
    - split; [|done]. apply decides_invalid. intros (e' & Hp' & F'). congruence.
    - split; [|done]. split; [by exists e|]. left. by split. }
  set (add := fun s : block_index => match of_ptr _ with Ret (s', p) => (Ret p, s') | Err e => (Err e, s) end).
  assert (Hadd : acceptable s b -> decides (no_kernel s b) (add s).1 (acceptable s b /\ has_kernel s b) (fun p => entered s b (add s).2 p) /\
    (forall e, (add s).1 = Err e -> (add s).2 = s)).
  { intros A. unfold add. destruct (add_header b s Hs Hb Hn Np Em) as [(s' & p & -> & K & En)|[-> N]]; cbn [of_ptr fst snd]; [split; [split; [by split|exact En]|done]|].
    split; [|done]. split; [by intros [_ K]|]. right. by split. }
  assert (Stop : forall e, ~ acceptable s b -> reported e \/ no_kernel s b e ->
    decides (no_kernel s b) (Err e) (acceptable s b /\ has_kernel s b) (fun p => entered s b s p) /\ (forall e', @Err failure ptr e = Err e' -> s = s)).
  { intros e N R. split; [|done]. split; [by intros [A _]|exact R]. }
  unfold ebind, lift. pose proof (CheckBlockHeader_spec params HashQuark (no_kernel s b) b state false) as C.
  destruct (CheckBlockHeader _ _ _ _ _) as [[]|e]; cbn [decides fst snd] in *.
  2: { destruct C as [N R]. apply Stop; [|exact R]. intros [A _]. apply N. by split. }
  destruct C as [[A _] _]. unfold find_prev. case_bool_decide as G.
  { unfold ContextualCheckBlockHeader. rewrite bool_decide_true by done. apply Hadd. split; [done|by left]. }
  destruct (mapBlockIndex s !! hashPrevBlock b) as [q|] eqn:Eq.
  2: { apply Stop; [|left; by eexists]. intros [_ [?|(q & e & Eq' & _)]]; [done|congruence]. }
  pose proof Eq as Eq'. apply Hm in Eq' as (e & Hq & _). rewrite (deref_Some _ q e Hq). cbn [of_ptr result_bind]. destruct (failed e) eqn:F.
  { apply Stop; [|left; by eexists]. intros [_ [?|(q' & e' & Eq' & Hq' & F' & _)]]; [done|]. assert (q' = q) as -> by congruence. congruence. }
  pose proof (Contextual_spec (no_kernel s b) b s q e state Hs Hb G Hq) as C.
  destruct (ContextualCheckBlockHeader _ _ _ _ _ _ _ _ _ _ _ _ _) as [[]|e']; cbn [decides] in C.
  - apply Hadd. split; [done|right]. exists q, e. repeat (split; [done|]). apply C.
  - destruct C as [N R]. apply Stop; [|exact R]. intros [_ [?|(q' & e2 & Eq' & Hq' & _ & Ft)]]; [done|].
    assert (q' = q) as -> by congruence. assert (e2 = e) as -> by congruence. by apply N.
Qed.

(** The rules hold for what is accepted. *)
Lemma entered_rules (b : CBlock) (s s' : block_index) (p : ptr) : block_index_ok s -> rules_ok HashGenesisBlock fEnabled checkpoints (entries s) ->
  header_accepted s b -> entered s b s' p -> block_index_ok s' /\ rules_ok HashGenesisBlock fEnabled checkpoints (entries s').
Proof using.
  intros Hs Hr A [[-> _]|(e & Hs' & He & Hp & Hp' & Eh & Epv & Et & Hd & _)]; [done|]. split; [done|].
  assert (N : mapBlockIndex s !! CBlockHeader_GetHash HashQuark b = None).
  { destruct (mapBlockIndex s !! CBlockHeader_GetHash HashQuark b) as [q|] eqn:Eq; [|done]. exfalso.
    destruct Hs as (_ & _ & Hm & _). apply Hm in Eq as (c & Hq & Ec). destruct (He q c Hq) as (c' & Hq' & R). apply relinked_fields in R as (E1 & _).
    destruct Hs' as (_ & _ & Hm' & _). assert (Q : mapBlockIndex s' !! blockHash e = Some q) by (apply Hm'; exists c'; split; [done|congruence]).
    assert (P : mapBlockIndex s' !! blockHash e = Some p) by (apply Hm'; by exists e). assert (p = q) as -> by congruence. congruence. }
  unfold header_accepted in A. rewrite N in A. destruct A as [[_ A] _].
  intros x c Hx. destruct (decide (x = p)) as [->|Nx].
  - assert (c = e) as -> by congruence. destruct A as [G|(q & d & Eq & Hq & _ & _ & S & C & _)]; [left; congruence|right].
    destruct (He q d Hq) as (d' & Hq' & R). exists q, d'. split; [congruence|]. split; [done|].
    destruct Hs' as (Hok' & _). destruct (Hok' p e Hp') as [_ Hh]. rewrite Epv, Eq in Hh. destruct Hh as [(d2 & Hq2 & Eht) _].
    assert (d2 = d') as -> by congruence. pose proof R as R'. apply relinked_fields in R' as (_ & _ & _ & Ehd & _).
    rewrite Eht, Ehd, Eh, Et. split; [|exact C]. apply (stamp_rule_extends (entries s) (entries s') _ _ q d d'); [apply Hs|done|done|done|apply S].
  - destruct (Hd x) as [?|[c0 Hx0]]; [by exists c|done|]. destruct (He x c0 Hx0) as (c' & Hx' & R). assert (c' = c) as -> by congruence.
    apply (entry_rules_extends _ _ _ (entries s) (entries s') c0 c); [apply Hs|done|done|]. by apply (Hr x).
Qed.
End accepts.

(** ** Every state of the index that headers from the network lead to *)

Section network.
Context (params : CChainParams) (HashQuark : bytes -> uint256).
Context (HashGenesisBlock : uint256) (nMaxReorgDepth : Z) (fEnabled : bool) (checkpoints : MapCheckpoints).
Context (ComputeNextStakeModifier : ptr -> Z * bool) (ComputeStakeModifierV2 : ptr -> uint256 -> uint256).
Abbreviation Accept now adjusted chain := (AcceptBlockHeader params HashQuark HashGenesisBlock nMaxReorgDepth fEnabled checkpoints now adjusted chain
  ComputeNextStakeModifier ComputeStakeModifierV2).

(** A header off the wire: its bits have 32 bits, and it is not its own parent. *)
Definition off_wire (b : CBlock) : Prop := in_u32 (b_nBits b) /\ hashPrevBlock b <> CBlockHeader_GetHash HashQuark b.

(** Headers arrive in any order, at any time and whatever the active chain is. *)
Inductive received : block_index -> Prop :=
| received_none : received (mk_index ∅ ∅ None [])
| received_header s b state now adjusted chain r s' : received s -> heights_below (entries s) -> off_wire b ->
    Accept now adjusted chain b state s = (r, s') -> received s'.

Lemma received_ok s : received s -> block_index_ok s /\ rules_ok HashGenesisBlock fEnabled checkpoints (entries s).
Proof using.
  induction 1 as [|s b state now adj chain r s' _ [Hs Hr] Hb [Hn Np] E]; [split; [apply empty_index_ok|apply map_Forall_empty]|].
  destruct (AcceptBlockHeader_decides params HashQuark HashGenesisBlock nMaxReorgDepth fEnabled checkpoints now adj chain
    ComputeNextStakeModifier ComputeStakeModifierV2 b state s Hs Hb Hn Np) as [D K]. rewrite E in D, K. cbn [fst snd] in *.
  destruct r as [p|e]; [|by rewrite (K e)]. destruct D as [A En]. by eapply entered_rules.
Qed.

(** C10: whatever headers a node receives, in whatever order and at whatever time, the block
    index stays well formed and every header in it but the genesis block follows the rules
    of its place: before the reward fork its time is after the median of the eleven blocks
    below; from the fork on it is a multiple of fifteen seconds, not before its parent, and
    at most three blocks in a row share a time; at the height of a checkpoint it is the block
    of the checkpoint.  The next header is accepted exactly when it is known and not marked
    as failed, or passes these checks and those of the clock, the nonce and the reorganization
    depth; a refusal is reported and changes nothing -- except that a header without a second
    transaction, accepted from the second staking protocol on, makes the node read outside
    the block. *)
Theorem header_rules (s : block_index) (Hs : received s) (Hb : heights_below (entries s)) (now adjusted : Z) (chain : CChain)
    (b : CBlock) (Hw : off_wire b) (state : CValidationState) :
  block_index_ok s /\ rules_ok HashGenesisBlock fEnabled checkpoints (entries s) /\
  let r := Accept now adjusted chain b state s in
  let ok := header_accepted HashQuark HashGenesisBlock nMaxReorgDepth fEnabled checkpoints now adjusted chain s b in
  ((exists p, r.1 = Ret p) <-> ok) /\
  (forall e, r.1 = Err e -> r.2 = s /\ (reported e \/ no_kernel s b e)) /\
  (forall p, r.1 = Ret p -> mapBlockIndex r.2 !! CBlockHeader_GetHash HashQuark b = Some p /\ extends (entries s) (entries r.2)).
Proof using.
  destruct (received_ok s Hs) as [Ok Rules]. split; [done|]. split; [done|]. intros r ok. destruct Hw as [Hn Np].
  destruct (AcceptBlockHeader_decides params HashQuark HashGenesisBlock nMaxReorgDepth fEnabled checkpoints now adjusted chain
    ComputeNextStakeModifier ComputeStakeModifierV2 b state s Ok Hb Hn Np) as [D K]. fold r ok in D, K.
  clearbody r. destruct r as [[p|e] s']; cbn [decides fst snd] in *.
  - destruct D as [A En]. split; [split; [done|by exists p]|]. split; [done|]. intros p' [= <-].
    destruct En as [[-> Em]|(e & Hs' & He & _ & Hp' & Eh & _)]; [split; [done|intros q c Hq; exists c; by split; [|left]]|]. split; [|done].
    destruct Hs' as (_ & _ & Hm & _). apply Hm. by exists e.
  - split; [split; [by intros [? ?]|intros A; by destruct D]|]. split; [|done]. intros e' [= <-]. split; [by apply (K e)|apply D].
Qed.
End network.

(** A genesis header and one on top of it. *)
Definition sample_genesis : CBlock := CBlock_of (mk_CBlockHeader 4 (base_uint_zero 8) (base_uint_zero 8) 1000 0x207fffff 0 (base_uint_zero 8)).
Definition sample_genesis_hash : uint256 := CBlockHeader_GetHash (fun _ => base_uint_zero 8) sample_genesis.
Definition sample_next : CBlock := CBlock_of (mk_CBlockHeader 4 sample_genesis_hash (base_uint_zero 8) 1060 0x207fffff 0 (base_uint_zero 8)).
Abbreviation sample_accept := (AcceptBlockHeader CMainParams (fun _ => base_uint_zero 8) sample_genesis_hash 50 true
  [(0, sample_genesis_hash)] 2000 2000 [] (fun _ => (0, false)) (fun _ _ => base_uint_zero 8)).
Definition sample_tree : block_index := (sample_accept sample_genesis CValidationState_new (mk_index ∅ ∅ None [])).2.

Lemma sample_off_wire : off_wire (fun _ => base_uint_zero 8) sample_genesis /\ off_wire (fun _ => base_uint_zero 8) sample_next.
Proof. split; (split; [split; done|]; apply (bool_decide_eq_false_1 (_ = _)); vm_compute; reflexivity). Qed.

Lemma sample_received : received CMainParams (fun _ => base_uint_zero 8) sample_genesis_hash 50 true [(0, sample_genesis_hash)]
  (fun _ => (0, false)) (fun _ _ => base_uint_zero 8) sample_tree.
Proof.
  eapply (received_header _ _ _ _ _ _ _ _ (mk_index ∅ ∅ None []) sample_genesis CValidationState_new 2000 2000 []);
    [constructor|by intros p b Hb|apply sample_off_wire|apply surjective_pairing].
Qed.

Lemma header_rules_witness :
  (exists p, (sample_accept sample_next CValidationState_new sample_tree).1 = Ret p) /\
  header_accepted (fun _ => base_uint_zero 8) sample_genesis_hash 50 true [(0, sample_genesis_hash)] 2000 2000 [] sample_tree sample_next.
Proof.
  assert (Hb : heights_below (entries sample_tree)).
  { change (map_Forall (fun _ b => nHeight b < 2 ^ 31 - 1) (entries sample_tree)). apply (bool_decide_eq_true_1 _). vm_compute. reflexivity. }
  destruct (header_rules CMainParams (fun _ => base_uint_zero 8) sample_genesis_hash 50 true [(0, sample_genesis_hash)] (fun _ => (0, false))
    (fun _ _ => base_uint_zero 8) sample_tree sample_received Hb 2000 2000 [] sample_next (proj2 sample_off_wire) CValidationState_new) as (_ & _ & A & _).
  assert (E : exists p, (sample_accept sample_next CValidationState_new sample_tree).1 = Ret p) by (eexists; vm_compute; reflexivity).
  split; [exact E|exact (proj1 A E)].
Defined.
