(* ===== verification/Candidates.v ===== *)
(** * The candidates for the best chain ([main.cpp])

    The entries whose blocks have all been received and that are at least as good as the
    tip, in the order of [CBlockIndexWorkComparator]; the data of a block that arrives; the
    candidate with the most work.  A block that was received before its ancestors waits in
    [mapBlocksUnlinked]. *)

From Stdlib Require Import ZArith Lia List Bool.
From stdpp Require Import base option list gmap.
From S2P Require Import Prelude Uint256 Compact Serialize MerkleDamgard Hash Script Interpreter Effects Tx Params BlockIndex Pow Chain Block TxCheck CheckBlock Accept.

Open Scope Z_scope.
Open Scope btc_scope.

(** ** The state *)

(** [pindexBestForkTip] and the other globals of the warnings about forks. *)
Record fork_state : Type := mk_fork_state {
  pindexBestForkTip : option ptr; pindexBestForkBase : option ptr;
  fLargeWorkForkFound : bool; fLargeWorkInvalidChainFound : bool }.

(** The globals of [main.cpp] about the tree of blocks; [cs_world] is everything else: the
    coins, the block files, the memory pool, the wallet, the peers. *)
Record chain_state (W : Type) : Type := mk_chain_state {
  cs_index : block_index;
  cs_active : CChain;
  setBlockIndexCandidates : gset ptr;
  mapBlocksUnlinked : list (option ptr * ptr);
  nBlockSequenceId : Z;
  pindexBestInvalid : option ptr;
  cs_forks : fork_state;
  cs_world : W }.
Arguments mk_chain_state {_}. Arguments cs_index {_}. Arguments cs_active {_}. Arguments setBlockIndexCandidates {_}.
Arguments mapBlocksUnlinked {_}. Arguments nBlockSequenceId {_}. Arguments pindexBestInvalid {_}. Arguments cs_forks {_}. Arguments cs_world {_}.

Definition BLOCK_VALID_TRANSACTIONS : Z := 3.

Definition with_sequence (b : CBlockIndex) (nChainTx' seq : Z) : CBlockIndex :=
  mk_CBlockIndex (blockHash b) (pprev b) (pnext b) (pskip b) (nHeight b) (nFile b) (nDataPos b) (nUndoPos b) (nChainWork b) (nTx b) nChainTx' (nStatus b) (nFlags b) (nStakeModifier b) (nStakeModifierV2 b) (nMint b) (nMoneySupply b) (header b) seq.
Definition with_data (b : CBlockIndex) (nTx' : Z) (pos : CDiskBlockPos) : CBlockIndex :=
  mk_CBlockIndex (blockHash b) (pprev b) (pnext b) (pskip b) (nHeight b) pos.1 pos.2 0 (nChainWork b) nTx' 0 (nStatus b) (nFlags b) (nStakeModifier b) (nStakeModifierV2 b) (nMint b) (nMoneySupply b) (header b) (nSequenceId b).

Definition have_data (b : CBlockIndex) : bool := negb (Z.land (nStatus b) BLOCK_HAVE_DATA =? 0).

(** ** The order of the candidates *)

(** [CBlockIndexWorkComparator]: less work, or the same work received later, or the greater
    address. *)
Definition comparator (pa : ptr) (a : CBlockIndex) (pb : ptr) (b : CBlockIndex) : bool :=
  if CompareTo (nChainWork a) (nChainWork b) >? 0 then false else
  if CompareTo (nChainWork a) (nChainWork b) <? 0 then true else
  if nSequenceId a <? nSequenceId b then false else
  if nSequenceId a >? nSequenceId b then true else
  if (pa <? pb)%positive then false else
  if (pb <? pa)%positive then true else false.

Definition worse (H : heap) (pa pb : ptr) : bool :=
  match H !! pa, H !! pb with Some a, Some b => comparator pa a pb b | _, _ => false end.

(** [rbegin()] and [begin()] of the set. *)
Definition better_of (H : heap) (p : ptr) (m : option ptr) : option ptr :=
  match m with None => Some p | Some q => if worse H q p then Some p else Some q end.
Definition worse_of (H : heap) (p : ptr) (m : option ptr) : option ptr :=
  match m with None => Some p | Some q => if worse H p q then Some p else Some q end.
Definition last_candidate (H : heap) (X : gset ptr) : option ptr := foldr (better_of H) None (elements X).
Definition first_candidate (H : heap) (X : gset ptr) : option ptr := foldr (worse_of H) None (elements X).

Section state.
Context {W : Type}.
Abbreviation act := (eff (chain_state W) failure).

(** ** Access to the state *)

Definition cs_heap (s : chain_state W) : heap := entries (cs_index s).

Definition set_index (I : block_index) (s : chain_state W) : chain_state W :=
  mk_chain_state I (cs_active s) (setBlockIndexCandidates s) (mapBlocksUnlinked s) (nBlockSequenceId s) (pindexBestInvalid s) (cs_forks s) (cs_world s).
Definition set_active (c : CChain) (s : chain_state W) : chain_state W :=
  mk_chain_state (cs_index s) c (setBlockIndexCandidates s) (mapBlocksUnlinked s) (nBlockSequenceId s) (pindexBestInvalid s) (cs_forks s) (cs_world s).
Definition set_candidates (X : gset ptr) (s : chain_state W) : chain_state W :=
  mk_chain_state (cs_index s) (cs_active s) X (mapBlocksUnlinked s) (nBlockSequenceId s) (pindexBestInvalid s) (cs_forks s) (cs_world s).
Definition set_unlinked (l : list (option ptr * ptr)) (s : chain_state W) : chain_state W :=
  mk_chain_state (cs_index s) (cs_active s) (setBlockIndexCandidates s) l (nBlockSequenceId s) (pindexBestInvalid s) (cs_forks s) (cs_world s).
Definition set_sequence (n : Z) (s : chain_state W) : chain_state W :=
  mk_chain_state (cs_index s) (cs_active s) (setBlockIndexCandidates s) (mapBlocksUnlinked s) n (pindexBestInvalid s) (cs_forks s) (cs_world s).
Definition set_best_invalid (p : option ptr) (s : chain_state W) : chain_state W :=
  mk_chain_state (cs_index s) (cs_active s) (setBlockIndexCandidates s) (mapBlocksUnlinked s) (nBlockSequenceId s) p (cs_forks s) (cs_world s).
Definition set_forks (f : fork_state) (s : chain_state W) : chain_state W :=
  mk_chain_state (cs_index s) (cs_active s) (setBlockIndexCandidates s) (mapBlocksUnlinked s) (nBlockSequenceId s) (pindexBestInvalid s) f (cs_world s).
Definition set_world (w : W) (s : chain_state W) : chain_state W :=
  mk_chain_state (cs_index s) (cs_active s) (setBlockIndexCandidates s) (mapBlocksUnlinked s) (nBlockSequenceId s) (pindexBestInvalid s) (cs_forks s) w.

(** Writing an entry through its pointer; [setDirtyBlockIndex.insert]. *)
Definition put (p : ptr) (b : CBlockIndex) (s : chain_state W) : chain_state W :=
  let I := cs_index s in set_index (mk_index (<[p := b]> (entries I)) (mapBlockIndex I) (pindexBestHeader I) (setDirtyBlockIndex I)) s.
Definition mark_dirty (p : ptr) (s : chain_state W) : chain_state W :=
  let I := cs_index s in set_index (mk_index (entries I) (mapBlockIndex I) (pindexBestHeader I) (p :: setDirtyBlockIndex I)) s.
Definition erase (p : ptr) (s : chain_state W) : chain_state W := set_candidates (setBlockIndexCandidates s ∖ {[ p ]}) s.

(** Reading through a pointer. *)
Definition load (p : option ptr) : act CBlockIndex := fun s => (of_ptr (deref (cs_heap s) p), s).
Definition get : act (chain_state W) := fun s => (Ret s, s).
Definition gets {A} (f : chain_state W -> A) : act A := fun s => (Ret (f s), s).

(** ** [ReceivedBlockTransactions] *)

(** The turns of the loop over the queue: an entry whose ancestors are all there gets its
    number of transactions and its place in the order of arrival, and the entries that
    waited for it follow.  Every turn but the first takes an entry out of
    [mapBlocksUnlinked], whose length bounds them. *)
Fixpoint link_queue (fuel : nat) (queue : list ptr) : act unit :=
  match queue with
  | [] => eret tt
  | p :: queue =>
      match fuel with
      | O => throw Undefined
      | S fuel =>
          do* b := load (Some p) in
          do* below := match pprev b with None => eret 0 | Some q => do* e := load (Some q) in eret (nChainTx e) end in
          do* seq := gets nBlockSequenceId in
          do* _ := update (put p (with_sequence b (u32 (below + nTx b)) seq)) in
          do* _ := update (set_sequence (u32 (seq + 1))) in
          do* s := get in
          do* _ := update (if match Tip (cs_active s) with None => true | Some t => negb (worse (cs_heap s) p t) end
                           then set_candidates (setBlockIndexCandidates s ∪ {[ p ]}) else id) in
          do* _ := update (set_unlinked (List.filter (fun e => negb (bool_decide (e.1 = Some p))) (mapBlocksUnlinked s))) in
          link_queue fuel (queue ++ map snd (List.filter (fun e => bool_decide (e.1 = Some p)) (mapBlocksUnlinked s)))
      end
  end.

Definition ReceivedBlockTransactions (block : CBlock) (p : ptr) (pos : CDiskBlockPos) : act unit :=
  do* b := load (Some p) in
  let b := if CBlock_IsProofOfStake block then SetProofOfStake b else b in
  let b := with_data b (u32 (Z.of_nat (length (vtx block)))) pos in
  let b := with_status b (Z.lor (nStatus b) BLOCK_HAVE_DATA) in
  match RaiseValidity BLOCK_VALID_TRANSACTIONS b with
  | None => throw Asserts
  | Some (b, _) =>
      do* _ := update (put p b) in
      do* _ := update (mark_dirty p) in
      do* n := gets (fun s => length (mapBlocksUnlinked s)) in
      match pprev b with
      | None => link_queue (S n) [p]
      | Some q =>
          do* e := load (Some q) in
          if negb (nChainTx e =? 0) then link_queue (S n) [p] else
          match IsValid BLOCK_VALID_TREE e with
          | None => throw Asserts
          | Some x => update (fun s => if x then set_unlinked (mapBlocksUnlinked s ++ [(Some q, p)]) s else s)
          end
      end
  end.

(** ** [FindMostWorkChain] *)

(** The walk from the candidate down to the active chain; [Some] is the first entry that
    failed or whose data is missing.  The height of the candidate bounds the turns. *)
Fixpoint test_path (fuel : nat) (H : heap) (c : CChain) (pindexTest : option ptr) : result failure (option (ptr * bool)) :=
  match pindexTest with
  | None => Ret None
  | Some p =>
      let* x := of_ptr (Contains H c p) in
      if x then Ret None else
      let* b := of_ptr (deref H (Some p)) in
      if (nChainTx b =? 0) && negb (nHeight b =? 0) then Err Asserts else
      if failed b || negb (have_data b) then Ret (Some (p, failed b)) else
      match fuel with O => Err Undefined | S fuel => test_path fuel H c (pprev b) end
  end.

(** [while (pindexTest != pindexFailed)] *)
Fixpoint remove_path (fuel : nat) (fFailedChain : bool) (pindexTest : ptr) (pindexFailed : option ptr) : act unit :=
  if bool_decide (pindexFailed = Some pindexTest) then update (erase pindexTest) else
  match fuel, pindexFailed with
  | S fuel, Some p =>
      do* b := load pindexFailed in
      do* _ := update (if fFailedChain then put p (with_status b (Z.lor (nStatus b) BLOCK_FAILED_CHILD))
                       else fun s => set_unlinked (mapBlocksUnlinked s ++ [(pprev b, p)]) s) in
      do* _ := update (erase p) in
      remove_path fuel fFailedChain pindexTest (pprev b)
  | _, _ => throw Undefined
  end.

(** More work than [pindexBestInvalid]. *)
Definition more_invalid (p : ptr) : act bool := 
  do* b := load (Some p) in
  do* best := gets pindexBestInvalid in
  match best with
  | None => eret true
  | Some q => do* e := load (Some q) in eret (CompareTo (nChainWork b) (nChainWork e) >? 0)
  end.

(** [do ... while (true)]: every turn that does not return takes its candidate out of the
    set. *)
Fixpoint FindMostWorkChain_loop (fuel : nat) : act (option ptr) :=
  do* s := get in
  match last_candidate (cs_heap s) (setBlockIndexCandidates s) with
  | None => eret None
  | Some p =>
      do* b := load (Some p) in
      let n := S (Z.to_nat (nHeight b)) in
      do* bad := lift (test_path n (cs_heap s) (cs_active s) (Some p)) in
      match bad with
      | None => eret (Some p)
      | Some (pindexTest, fFailedChain) =>
          do* x := (if fFailedChain then more_invalid p else eret false) in
          do* _ := update (if x then set_best_invalid (Some p) else id) in
          do* _ := remove_path n fFailedChain pindexTest (Some p) in
          match fuel with O => throw Undefined | S fuel => FindMostWorkChain_loop fuel end
      end
  end.

Definition FindMostWorkChain : act (option ptr) :=
  do* n := gets (fun s => size (setBlockIndexCandidates s)) in FindMostWorkChain_loop n.

(** ** [PruneBlockIndexCandidates] *)

Fixpoint prune_loop (fuel : nat) (H : heap) (tip : ptr) (X : gset ptr) : gset ptr :=
  match fuel, first_candidate H X with
  | S fuel, Some p => if worse H p tip then prune_loop fuel H tip (X ∖ {[ p ]}) else X
  | _, _ => X
  end.

Definition PruneBlockIndexCandidates : act unit :=
  do* s := get in
  if bool_decide (setBlockIndexCandidates s = ∅) then throw Asserts else
  match Tip (cs_active s) with
  | None => throw Undefined
  | Some t =>
      let X := prune_loop (size (setBlockIndexCandidates s)) (cs_heap s) t (setBlockIndexCandidates s) in
      do* _ := update (set_candidates X) in
      if bool_decide (X = ∅) then throw Asserts else eret tt
  end.
End state.

(** ** The order is total *)

(** What the order reads of an entry. *)
Definition rank (p : ptr) (b : CBlockIndex) : Z * Z * Z := (val (nChainWork b), nSequenceId b, Z.pos p).
Definition rank_lt (x y : Z * Z * Z) : Prop :=
  let '(w, n, a) := x in let '(w', n', a') := y in w < w' \/ w = w' /\ (n' < n \/ n = n' /\ a' < a).

Lemma comparator_spec pa a pb b : wf 8 (nChainWork a) -> wf 8 (nChainWork b) ->
  comparator pa a pb b = true <-> rank_lt (rank pa a) (rank pb b).
Proof.
  intros Wa Wb. unfold comparator, rank, rank_lt. rewrite !(CompareTo_spec 8), !Z.gtb_ltb by done.
  destruct (Z.ltb_spec 0 (Z.sgn (val (nChainWork a) - val (nChainWork b)))); [split; [done|lia]|].
  destruct (Z.ltb_spec (Z.sgn (val (nChainWork a) - val (nChainWork b))) 0); [split; [lia|done]|].
  destruct (Z.ltb_spec (nSequenceId a) (nSequenceId b)); [split; [done|lia]|].
  destruct (Z.ltb_spec (nSequenceId b) (nSequenceId a)); [split; [lia|done]|].
  destruct (Pos.ltb_spec pa pb); [split; [done|lia]|]. destruct (Pos.ltb_spec pb pa); (split; [lia|]); [done|lia].
Qed.

Definition works_wf (H : heap) : Prop := map_Forall (fun _ b => wf 8 (nChainWork b)) H.

Section order.
Context (H : heap) (HW : works_wf H).

Lemma worse_spec p q : worse H p q = true <->
  exists a b, H !! p = Some a /\ H !! q = Some b /\ rank_lt (rank p a) (rank q b).
Proof using HW.
  unfold worse. split.
  - destruct (H !! p) as [a|] eqn:Ea; [|done]. destruct (H !! q) as [b|] eqn:Eb; [|done]. intros E.
    exists a, b. split; [done|]. split; [done|]. apply comparator_spec in E; [done|by apply (HW p)|by apply (HW q)].
  - intros (a & b & Ea & Eb & R). rewrite Ea, Eb. apply comparator_spec; [by apply (HW p)|by apply (HW q)|done].
Qed.

Lemma worse_irrefl p : worse H p p = false.
Proof using HW.
  apply not_true_iff_false. intros (a & b & Ea & Eb & R)%worse_spec. rewrite Ea in Eb. injection Eb as <-. unfold rank, rank_lt in R. lia.
Qed.

Lemma worse_trans p q r : worse H p q = true -> worse H q r = true -> worse H p r = true.
Proof using HW.
  intros (a & b & Ea & Eb & R1)%worse_spec (b' & c & Eb' & Ec & R2)%worse_spec. rewrite Eb in Eb'. injection Eb' as <-.
  apply worse_spec. exists a, c. split; [done|]. split; [done|]. unfold rank, rank_lt in *. lia.
Qed.

Lemma worse_total p q : is_Some (H !! p) -> is_Some (H !! q) -> p <> q -> worse H p q = false -> worse H q p = true.
Proof using HW.
  intros [a Ea] [b Eb] N F. apply worse_spec. exists b, a. split; [done|]. split; [done|].
  apply not_true_iff_false in F. rewrite worse_spec in F.
  assert (F' : ~ rank_lt (rank p a) (rank q b)) by (intros R; apply F; by exists a, b).
  assert (Z.pos p <> Z.pos q) by congruence. unfold rank, rank_lt in *. lia.
Qed.

(** Not being worse is transitive. *)
Lemma not_worse_trans p q r : is_Some (H !! p) -> is_Some (H !! q) -> is_Some (H !! r) ->
  worse H p q = false -> worse H q r = false -> worse H p r = false.
Proof using HW.
  intros Hp Hq Hr F G. destruct (worse H p r) eqn:E; [|done]. destruct (decide (p = q)) as [->|N]; [congruence|].
  apply worse_total in F; [|done|done|done]. rewrite (worse_trans q p r) in G by done. done.
Qed.

(** ** The best and the worst candidate *)

Definition known (X : gset ptr) : Prop := forall p, p ∈ X -> is_Some (H !! p).

Lemma foldr_best l : (forall p, p ∈ l -> is_Some (H !! p)) ->
  match foldr (better_of H) None l with
  | None => l = []
  | Some m => m ∈ l /\ forall p, p ∈ l -> worse H m p = false
  end.
Proof using HW.
  induction l as [|x l IH]; intros K; [done|]. cbn [foldr]. specialize (IH (fun p Hp => K p (list_elem_of_further p x l Hp))).
  pose proof (K x (list_elem_of_here x l)) as Kx. destruct (foldr _ None l) as [m|]; cbn [better_of].
  - destruct IH as [Im Max]. pose proof (K m (list_elem_of_further m x l Im)) as Km. destruct (worse H m x) eqn:E.
    + split; [apply list_elem_of_here|]. intros p Hp. apply elem_of_cons in Hp as [->|Hp]; [apply worse_irrefl|].
      destruct (worse H x p) eqn:E'; [|done]. pose proof (Max p Hp). by rewrite (worse_trans m x p) in H0.
    + split; [by right|]. intros p Hp. apply elem_of_cons in Hp as [->|Hp]; [done|by apply Max].
  - subst l. split; [by left|]. intros p ->%list_elem_of_singleton. apply worse_irrefl.
Qed.

Lemma foldr_worst l : (forall p, p ∈ l -> is_Some (H !! p)) ->
  match foldr (worse_of H) None l with
  | None => l = []
  | Some m => m ∈ l /\ forall p, p ∈ l -> worse H p m = false
  end.
Proof using HW.
  induction l as [|x l IH]; intros K; [done|]. cbn [foldr]. specialize (IH (fun p Hp => K p (list_elem_of_further p x l Hp))).
  pose proof (K x (list_elem_of_here x l)) as Kx. destruct (foldr _ None l) as [m|]; cbn [worse_of].
  - destruct IH as [Im Max]. destruct (worse H x m) eqn:E.
    + split; [apply list_elem_of_here|]. intros p Hp. apply elem_of_cons in Hp as [->|Hp]; [apply worse_irrefl|].
      destruct (worse H p x) eqn:E'; [|done]. pose proof (Max p Hp). by rewrite (worse_trans p x m) in H0.
    + split; [by right|]. intros p Hp. apply elem_of_cons in Hp as [->|Hp]; [done|by apply Max].
  - subst l. split; [by left|]. intros p ->%list_elem_of_singleton. apply worse_irrefl.
Qed.

Lemma last_candidate_spec X : known X ->
  match last_candidate H X with
  | None => X = ∅
  | Some m => m ∈ X /\ forall p, p ∈ X -> worse H m p = false
  end.
Proof using HW.
  intros K. pose proof (foldr_best (elements X)) as B. unfold last_candidate. destruct (foldr _ None _) as [m|].
  - destruct B as [I M]; [intros p Hp; apply K; set_solver|]. split; [set_solver|]. intros p Hp. apply M. set_solver.
  - specialize (B ltac:(intros p Hp; apply K; set_solver)). apply leibniz_equiv. by apply elements_empty_inv.
Qed.

Lemma first_candidate_spec X : known X ->
  match first_candidate H X with
  | None => X = ∅
  | Some m => m ∈ X /\ forall p, p ∈ X -> worse H p m = false
  end.
Proof using HW.
  intros K. pose proof (foldr_worst (elements X)) as B. unfold first_candidate. destruct (foldr _ None _) as [m|].
  - destruct B as [I M]; [intros p Hp; apply K; set_solver|]. split; [set_solver|]. intros p Hp. apply M. set_solver.
  - specialize (B ltac:(intros p Hp; apply K; set_solver)). apply leibniz_equiv. by apply elements_empty_inv.
Qed.

(** Pruning takes out exactly the candidates that are worse than the tip. *)
Lemma prune_loop_spec fuel t X : known X -> is_Some (H !! t) -> (size X <= fuel)%nat ->
  forall p, p ∈ prune_loop fuel H t X <-> p ∈ X /\ worse H p t = false.
Proof using HW.
  revert X. induction fuel as [|fuel IH]; intros X K Ht L p; cbn [prune_loop].
  - assert (X = ∅) as -> by (apply leibniz_equiv, size_empty_inv; lia). set_solver.
  - pose proof (first_candidate_spec X K) as F. destruct (first_candidate H X) as [m|]; [|set_solver]. destruct F as [Im Min].
    destruct (worse H m t) eqn:E.
    + rewrite IH; [|intros q Hq; apply K; set_solver|done|rewrite size_difference, size_singleton by set_solver; lia].
      split; [set_solver|]. intros [Hp F]. split; [|done]. apply elem_of_difference. split; [done|]. intros ->%elem_of_singleton. congruence.
    + split; [|by intros [? _]]. intros Hp. split; [done|]. apply (not_worse_trans p m t); auto.
Qed.
End order.
