(* ===== verification/Linking.v ===== *)
(** * The invariant of the tree of blocks ([main.cpp])

    What holds of the candidates, of the blocks that wait for an ancestor and of the flags of
    the entries, in the terms of the assertions of [CheckBlockIndex]; that it is kept when a
    header arrives, when the data of a block arrives ([ReceivedBlockTransactions]), and when
    the flags of entries change. *)

From Stdlib Require Import ZArith Lia List Bool.
From stdpp Require Import base option list gmap.
From S2P Require Import Prelude Uint256 Compact Serialize MerkleDamgard Hash Script Interpreter Effects Tx Params BlockIndex Pow Chain Block TxCheck CheckBlock Accept Candidates.

Open Scope Z_scope.
Open Scope btc_scope.

(** ** Writes that keep the tree *)

(** What an entry is given when its header is added. *)
Definition node_of (b : CBlockIndex) : uint256 * option ptr * option ptr * Z * uint256 * index_header :=
  (blockHash b, pprev b, pskip b, nHeight b, nChainWork b, header b).
Definition same_tree (H H' : heap) : Prop := node_of <$> H = node_of <$> H'.

Section same_tree.
Context (H H' : heap) (HS : same_tree H H').

Lemma same_tree_lookup p b : H !! p = Some b -> exists b', H' !! p = Some b' /\ node_of b' = node_of b.
Proof using HS.
  intros Hp. assert (E : (node_of <$> H') !! p = Some (node_of b)) by (rewrite <- HS, lookup_fmap, Hp; done).
  rewrite lookup_fmap in E. destruct (H' !! p) as [b'|]; [|done]. injection E as E1 E2 E3 E4 E5 E6.
  exists b'. split; [done|]. unfold node_of. congruence.
Qed.

Lemma same_tree_back p b' : H' !! p = Some b' -> exists b, H !! p = Some b /\ node_of b' = node_of b.
Proof using HS.
  intros Hp. assert (E : (node_of <$> H) !! p = Some (node_of b')) by (rewrite HS, lookup_fmap, Hp; done).
  rewrite lookup_fmap in E. destruct (H !! p) as [b|]; [|done]. injection E as E1 E2 E3 E4 E5 E6.
  exists b. split; [done|]. unfold node_of. congruence.
Qed.

Lemma node_fields b b' : node_of b' = node_of b ->
  blockHash b' = blockHash b /\ pprev b' = pprev b /\ pskip b' = pskip b /\ nHeight b' = nHeight b /\
  nChainWork b' = nChainWork b /\ header b' = header b.
Proof using. by intros [= -> -> -> -> -> ->]. Qed.

Lemma ancestor_same n p : ancestor H' n p = ancestor H n p.
Proof using HS.
  revert p. induction n as [|n IH]; intros p; [done|]. cbn [ancestor].
  destruct (H !! p) as [b|] eqn:Hp; cbn [mbind option_bind].
  - destruct (same_tree_lookup p b Hp) as (b' & -> & (_ & E & _)%node_fields). cbn [mbind option_bind]. rewrite E.
    destruct (pprev b); [apply IH|done].
  - destruct (H' !! p) as [b'|] eqn:Hp'; [|done]. destruct (same_tree_back p b' Hp') as (b & Hb & _). congruence.
Qed.

Lemma is_ancestor_same q p : is_ancestor H' q p <-> is_ancestor H q p.
Proof using HS. unfold is_ancestor. by setoid_rewrite ancestor_same. Qed.

Lemma known_same p : is_Some (H' !! p) <-> is_Some (H !! p).
Proof using HS.
  split; intros [b Hb]; [destruct (same_tree_back p b Hb) as (? & ? & _)|destruct (same_tree_lookup p b Hb) as (? & ? & _)]; by eexists.
Qed.

Lemma chain_of_same p : chain_of H' p = chain_of H p.
Proof using HS.
  unfold chain_of. destruct (H !! p) as [b|] eqn:Hp.
  - destruct (same_tree_lookup p b Hp) as (b' & -> & (_ & _ & _ & -> & _)%node_fields). apply map_ext. intros i. apply ancestor_same.
  - destruct (H' !! p) as [b'|] eqn:Hp'; [|done]. destruct (same_tree_back p b' Hp') as (b & Hb & _). congruence.
Qed.

Lemma chain_ok_same c : chain_ok H c -> chain_ok H' c.
Proof using HS.
  intros [->|(t & Ht & ->)]; [by left|right]. exists t. split; [by apply known_same|]. by rewrite chain_of_same.
Qed.

Lemma index_ok_same : index_ok H -> index_ok H'.
Proof using HS.
  intros Hok p b' Hp. destruct (same_tree_back p b' Hp) as (b & Hb & (_ & E1 & E2 & E3 & _)%node_fields).
  destruct (Hok p b Hb) as [Hr He]. unfold entry_ok. rewrite E1, E2, E3. split; [done|]. destruct (pprev b) as [q|]; [|done].
  destruct He as [(c & Hq & Eh) (x & Ex & Ea)]. split.
  - destruct (same_tree_lookup q c Hq) as (c' & Hq' & (_ & _ & _ & E & _)%node_fields). exists c'. split; [done|congruence].
  - exists x. by rewrite ancestor_same.
Qed.

Lemma below_work_same b b' : pprev b' = pprev b -> below_work H' b' = below_work H b.
Proof using HS.
  intros E. unfold below_work. rewrite E. destruct (pprev b) as [q|]; [|done]. cbn [mbind option_bind].
  destruct (H !! q) as [c|] eqn:Hq.
  - destruct (same_tree_lookup q c Hq) as (c' & -> & (_ & _ & _ & _ & -> & _)%node_fields). done.
  - destruct (H' !! q) as [c'|] eqn:Hq'; [|done]. destruct (same_tree_back q c' Hq') as (c & Hc & _). congruence.
Qed.

Lemma work_ok_same : work_ok H -> work_ok H'.
Proof using HS.
  intros Hw p b' Hp. destruct (same_tree_back p b' Hp) as (b & Hb & (_ & E1 & _ & _ & E2 & E3)%node_fields).
  unfold entry_work. rewrite E2, E3, (below_work_same b b') by done. apply (Hw p b Hb).
Qed.

Lemma map_ok_same m : map_ok H m -> map_ok H' m.
Proof using HS.
  intros Hm h p. rewrite (Hm h p). split; intros (b & Hb & E).
  - destruct (same_tree_lookup p b Hb) as (b' & Hb' & (E' & _)%node_fields). exists b'. split; [done|congruence].
  - destruct (same_tree_back p b Hb) as (b' & Hb' & (E' & _)%node_fields). exists b'. split; [done|congruence].
Qed.

Lemma best_ok_same best : best_ok H best -> best_ok H' best.
Proof using HS.
  destruct best as [p|]; cbn [best_ok].
  - intros (b & Hb & Max). destruct (same_tree_lookup p b Hb) as (b' & Hb' & (_ & _ & _ & _ & E & _)%node_fields).
    exists b'. split; [done|]. rewrite E. intros q c Hq. destruct (same_tree_back q c Hq) as (c' & Hc' & (_ & _ & _ & _ & -> & _)%node_fields). by apply (Max q).
  - intros E. apply map_eq. intros p. rewrite lookup_empty. destruct (H' !! p) as [b'|] eqn:Hp'; [|done].
    destruct (same_tree_back p b' Hp') as (b & Hb & _). by rewrite E, lookup_empty in Hb.
Qed.
End same_tree.

Lemma same_tree_put (H : heap) p b b' : H !! p = Some b -> node_of b' = node_of b -> same_tree H (<[p := b']> H).
Proof.
  intros Hp E. unfold same_tree. rewrite fmap_insert, E. symmetry. apply insert_id. by rewrite lookup_fmap, Hp.
Qed.

Lemma same_tree_refl (H : heap) : same_tree H H.
Proof. done. Qed.
Lemma same_tree_trans (H1 H2 H3 : heap) : same_tree H1 H2 -> same_tree H2 H3 -> same_tree H1 H3.
Proof. unfold same_tree. congruence. Qed.

(** ** The invariant *)

Section invariant.
(** Which blocks, by their hashes, the rules accept on top of their ancestors. *)
Context (accepts : uint256 -> Prop).

(** All transactions up to the block are there: [nChainTx] is set. *)
Definition linked (H : heap) (p : ptr) : Prop := exists b, H !! p = Some b /\ nChainTx b <> 0.
(** The block and all its ancestors are accepted. *)
Definition sound (H : heap) (p : ptr) : Prop := forall q c, is_ancestor H q p -> H !! q = Some c -> accepts (blockHash c).

Definition parent_linked (H : heap) (b : CBlockIndex) : Prop := match pprev b with None => True | Some q => linked H q end.
Definition parent_failed (H : heap) (b : CBlockIndex) : Prop := exists q c, pprev b = Some q /\ H !! q = Some c /\ failed c = true.
Definition below_tx (H : heap) (b : CBlockIndex) : Z := match pprev b ≫= (H !!.) with Some c => nChainTx c | None => 0 end.

(** [nChainTx] counts the transactions up to the block; a block marked as failed has an
    ancestor that the rules refuse. *)
Record entry_inv (H : heap) (p : ptr) (b : CBlockIndex) : Prop := {
  ei_have : nChainTx b <> 0 -> have_data b = true;
  ei_sum : nChainTx b <> 0 -> parent_linked H b /\ nChainTx b = nTx b + below_tx H b;
  ei_range : 0 <= nChainTx b;
  ei_tx : have_data b = true -> 0 < nTx b;
  ei_notx : have_data b = false -> nTx b = 0;
  ei_tree : BLOCK_VALID_TREE <= Z.land (nStatus b) BLOCK_VALID_MASK;
  ei_flag : failed b = true -> ~ sound H p;
  ei_root : pprev b = None -> accepts (blockHash b) }.

Record heap_inv (H : heap) : Prop := {
  hi_index : index_ok H;
  hi_work : work_ok H;
  hi_one_root : forall p q b c, H !! p = Some b -> H !! q = Some c -> pprev b = None -> pprev c = None -> p = q;
  hi_rising : forall p b q c, H !! p = Some b -> pprev b = Some q -> H !! q = Some c -> val (nChainWork c) < val (nChainWork b);
  hi_bits : forall p b, H !! p = Some b -> in_u32 (ih_nBits (header b));
  hi_entries : map_Forall (entry_inv H) H }.

(** The blocks that wait for an ancestor; [Q] are those about to be linked. *)
Definition waits (H : heap) (k : option ptr) (p : ptr) : Prop :=
  exists b q c, H !! p = Some b /\ pprev b = Some q /\ k = Some q /\ have_data b = true /\ nChainTx b = 0 /\
    H !! q = Some c /\ nChainTx c = 0.
Record wait_inv (Q : list ptr) (H : heap) (l : list (option ptr * ptr)) : Prop := {
  wi_waits : forall k p, (k, p) ∈ l -> waits H k p;
  wi_all : forall p b, H !! p = Some b -> have_data b = true -> nChainTx b = 0 -> p ∈ Q \/ (pprev b, p) ∈ l \/ parent_failed H b;
  wi_nodup : NoDup (map snd l ++ Q);
  wi_queue : forall p, p ∈ Q -> exists b, H !! p = Some b /\ have_data b = true /\ nChainTx b = 0 /\ parent_linked H b }.

(** The candidates: [floor] is the least entry from which on all sound ones are there. *)
Record cand_inv (floor : option ptr) (H : heap) (c : CChain) (X : gset ptr) : Prop := {
  ci_linked : forall p, p ∈ X -> linked H p;
  ci_low : forall t p, Tip c = Some t -> p ∈ X -> worse H p t = false;
  ci_all : match floor with
           | None => Tip c = None /\ forall p, linked H p -> sound H p -> p ∈ X
           | Some r => r ∈ X /\ sound H r /\ forall p, linked H p -> sound H p -> worse H p r = false -> p ∈ X
           end }.

Definition tip_inv (H : heap) (c : CChain) : Prop := chain_ok H c /\ forall t, Tip c = Some t -> linked H t /\ sound H t.

(** The pointers of the warnings. *)
Definition known_opt (H : heap) (p : option ptr) : Prop := match p with None => True | Some q => is_Some (H !! q) end.
Definition fork_inv (H : heap) (best : option ptr) (f : fork_state) : Prop :=
  known_opt H best /\ known_opt H (pindexBestForkTip f) /\ known_opt H (pindexBestForkBase f).

Record chain_inv {W} (floor : option ptr) (Q : list ptr) (s : chain_state W) : Prop := {
  ch_map : map_ok (cs_heap s) (mapBlockIndex (cs_index s));
  ch_best : best_ok (cs_heap s) (pindexBestHeader (cs_index s));
  ch_heap : heap_inv (cs_heap s);
  ch_wait : wait_inv Q (cs_heap s) (mapBlocksUnlinked s);
  ch_cand : cand_inv floor (cs_heap s) (cs_active s) (setBlockIndexCandidates s);
  ch_tip : tip_inv (cs_heap s) (cs_active s);
  ch_forks : fork_inv (cs_heap s) (pindexBestInvalid s) (cs_forks s) }.

(** ** Consequences *)

Lemma heap_works H : heap_inv H -> works_wf H.
Proof using. intros Hi p b Hp. apply (hi_work H Hi p b Hp). Qed.

Lemma linked_known H p : linked H p -> is_Some (H !! p).
Proof using. intros (b & ? & _). by exists b. Qed.

Lemma linked_up H p b q : heap_inv H -> linked H p -> H !! p = Some b -> pprev b = Some q -> linked H q.
Proof using.
  intros Hi (b' & Hp & N) Hp' E. rewrite Hp in Hp'. injection Hp' as ->. destruct (ei_sum _ _ _ (hi_entries H Hi p b Hp) N) as [P _].
  unfold parent_linked in P. by rewrite E in P.
Qed.

Lemma linked_ancestor H p q : heap_inv H -> linked H p -> is_ancestor H q p -> linked H q.
Proof using.
  intros Hi L [n E]. revert p L E. induction n as [|n IH]; intros p L E; [by injection E as ->|]. destruct L as (b & Hp & N).
  rewrite (ancestor_step H p b) in E by done. destruct (pprev b) as [r|] eqn:Er; [|done]. cbn [mbind option_bind] in E.
  apply (IH r); [|done]. apply (linked_up H p b); [done|by exists b|done|done].
Qed.

Lemma sound_ancestor H p q : index_ok H -> sound H p -> is_ancestor H q p -> sound H q.
Proof using. intros Hok S A r c Hr. apply S. by apply (is_ancestor_trans H r q p). Qed.

(** An ancestor has less work. *)
Lemma ancestor_less H p q b c : heap_inv H -> H !! p = Some b -> H !! q = Some c -> is_ancestor H q p -> q <> p ->
  val (nChainWork c) < val (nChainWork b).
Proof using.
  intros Hi Hp Hq [n E]. revert p b Hp E. induction n as [|n IH]; intros p b Hp E N; [by injection E as ->|].
  rewrite (ancestor_step H p b) in E by done. destruct (pprev b) as [r|] eqn:Er; [|done]. cbn [mbind option_bind] in E.
  destruct (parent_known H p b r (hi_index H Hi) Hp Er) as [e Hr]. pose proof (hi_rising H Hi p b r e Hp Er Hr) as L.
  destruct (decide (q = r)) as [->|N']; [rewrite Hr in Hq; by injection Hq as <-|]. pose proof (IH r e Hr E N'). lia.
Qed.

Lemma ancestor_worse H p q : heap_inv H -> is_Some (H !! p) -> is_ancestor H q p -> q <> p -> worse H q p = true.
Proof using.
  intros Hi [b Hp] A N. destruct (ancestor_Some H (hi_index H Hi) q p (ex_intro _ b Hp) A) as [c Hq].
  apply worse_spec; [by apply heap_works|]. exists c, b. split; [done|]. split; [done|].
  pose proof (ancestor_less H p q b c Hi Hp Hq A N). unfold rank, rank_lt. lia.
Qed.

(** The root is below every entry. *)
Lemma root_of H p : index_ok H -> is_Some (H !! p) -> exists r b, is_ancestor H r p /\ H !! r = Some b /\ pprev b = None.
Proof using.
  intros Hok [b Hp]. destruct (Hok p b Hp) as [R _]. destruct (ancestor_height H Hok (Z.to_nat (nHeight b)) p b Hp) as (r & c & E & Hr & Eh); [lia|].
  exists r, c. split; [by exists (Z.to_nat (nHeight b))|]. split; [done|]. destruct (Hok r c Hr) as [_ Hc].
  destruct (pprev c) as [q|]; [|done]. destruct Hc as [(d & Hd & E') _]. destruct (Hok q d Hd) as [? _]. lia.
Qed.

Lemma common_root H p q : heap_inv H -> is_Some (H !! p) -> is_Some (H !! q) -> exists r, is_ancestor H r p /\ is_ancestor H r q.
Proof using.
  intros Hi Hp Hq. destruct (root_of H p (hi_index H Hi) Hp) as (r & b & A & Hr & E).
  destruct (root_of H q (hi_index H Hi) Hq) as (r' & b' & A' & Hr' & E'). exists r. split; [done|].
  by rewrite (hi_one_root H Hi r r' b b').
Qed.
End invariant.

(** ** Linking *)

Lemma worse_ext (H H' : heap) p q : H' !! p = H !! p -> H' !! q = H !! q -> worse H' p q = worse H p q.
Proof. unfold worse. by intros -> ->. Qed.

Lemma Tip_chain_of (H : heap) t : is_Some (H !! t) -> Tip (chain_of H t) = Some t.
Proof.
  intros [b Ht]. unfold Tip. rewrite last_lookup, (chain_of_length H t b) by done. cbn [Nat.pred].
  rewrite (chain_of_lookup H t b) by (done || lia). rewrite Nat.sub_diag. done.
Qed.

Lemma chain_ok_Tip (H : heap) c : chain_ok H c -> match Tip c with None => c = [] | Some t => is_Some (H !! t) /\ c = chain_of H t end.
Proof. intros [->|(t & Ht & ->)]; [done|]. by rewrite (Tip_chain_of H t Ht). Qed.

(** The transactions along [pprev], [n] entries at most. *)
Fixpoint chain_tx (H : heap) (n : nat) (p : ptr) : Z :=
  match n, H !! p with
  | S n, Some b => nTx b + match pprev b with Some q => chain_tx H n q | None => 0 end
  | _, _ => 0
  end.
(** No chain has [2 ^ 32] transactions. *)
Definition counts_below (H : heap) (m : Z) : Prop := forall n p, chain_tx H n p < m.
Definition counts_fit (H : heap) : Prop := counts_below H (2 ^ 32).

Lemma chain_tx_ext (H H' : heap) n : (fun b => (pprev b, nTx b)) <$> H = (fun b => (pprev b, nTx b)) <$> H' ->
  forall p, chain_tx H' n p = chain_tx H n p.
Proof.
  intros E. induction n as [|n IH]; intros p; [done|]. cbn [chain_tx].
  assert (Ep : (fun b => (pprev b, nTx b)) <$> H !! p = (fun b => (pprev b, nTx b)) <$> H' !! p) by (by rewrite <- !lookup_fmap, E).
  destruct (H !! p) as [b|], (H' !! p) as [b'|]; cbn in Ep; try done. injection Ep as E1 E2. rewrite E1, E2. destruct (pprev b'); [by rewrite IH|done].
Qed.

Section linking.
Context (accepts : uint256 -> Prop).

(** [nChainTx] is the number of transactions of the chain. *)
Lemma linked_count H p b : heap_inv accepts H -> H !! p = Some b -> nChainTx b <> 0 -> exists n, nChainTx b = chain_tx H n p.
Proof using.
  intros Hi. remember (Z.to_nat (nHeight b)) as h eqn:Eh. revert p b Eh. induction h as [|h IH]; intros p b Eh Hp N.
  all: destruct (ei_sum _ _ _ _ (hi_entries _ H Hi p b Hp) N) as [L E]; destruct (hi_index _ H Hi p b Hp) as [Hr Hb].
  all: unfold below_tx in E; unfold parent_linked in L; destruct (pprev b) as [q|] eqn:Eq.
  all: try (exists 1%nat; cbn [chain_tx]; rewrite Hp, Eq; cbn in E; lia).
  - destruct Hb as [(c & Hq & Ec) _]. destruct (hi_index _ H Hi q c Hq). lia.
  - destruct Hb as [(c & Hq & Ec) _]. cbn [mbind option_bind] in E. rewrite Hq in E. destruct L as (c' & Hq' & Nc). rewrite Hq in Hq'. injection Hq' as <-.
    destruct (hi_index _ H Hi q c Hq) as [? _]. destruct (IH q c) as [n En]; [lia|done|done|].
    exists (S n). cbn [chain_tx]. rewrite Hp, Eq. lia.
Qed.

Lemma new_count H p b : heap_inv accepts H -> counts_fit H -> H !! p = Some b -> parent_linked H b -> 0 < nTx b -> 0 < below_tx H b + nTx b < 2 ^ 32.
Proof using.
  intros Hi F Hp L N. unfold below_tx. unfold parent_linked in L. destruct (pprev b) as [q|] eqn:Eq; cbn [mbind option_bind].
  - destruct L as (c & Hq & Nc). rewrite Hq. pose proof (ei_range _ _ _ _ (hi_entries _ H Hi q c Hq)).
    destruct (linked_count H q c Hi Hq Nc) as [n En]. pose proof (F (S n) p) as B. cbn [chain_tx] in B. rewrite Hp, Eq in B. lia.
  - pose proof (F 1%nat p) as B. cbn [chain_tx] in B. rewrite Hp, Eq in B. lia.
Qed.

Lemma sound_same H H' p : same_tree H H' -> sound accepts H' p <-> sound accepts H p.
Proof using.
  intros HS. unfold sound. split; intros S q c A Hq.
  - destruct (same_tree_lookup H H' HS q c Hq) as (c' & Hc' & (<- & _)%node_fields). by apply (S q c'); [apply (is_ancestor_same H H' HS)|].
  - destruct (same_tree_back H H' HS q c Hq) as (c' & Hc' & (-> & _)%node_fields). by apply (S q c'); [apply (is_ancestor_same H H' HS)|].
Qed.

Section turn.
Context {W : Type} (s : chain_state W) (p : ptr) (b : CBlockIndex) (Q : list ptr).

Definition linked_entry' : CBlockIndex := with_sequence b (u32 (below_tx (cs_heap s) b + nTx b)) (nBlockSequenceId s).
(** The turn of the loop for [p]. *)
Definition link_one : chain_state W :=
  let s' := set_sequence (u32 (nBlockSequenceId s + 1)) (put p linked_entry' s) in
  let add := match Tip (cs_active s) with None => true | Some t => negb (worse (cs_heap s') p t) end in
  set_unlinked (List.filter (fun e => negb (bool_decide (e.1 = Some p))) (mapBlocksUnlinked s))
    (if add then set_candidates (setBlockIndexCandidates s ∪ {[ p ]}) s' else s').
Definition followers : list ptr := map snd (List.filter (fun e => bool_decide (e.1 = Some p)) (mapBlocksUnlinked s)).

Lemma link_queue_cons fuel : cs_heap s !! p = Some b -> (forall q, pprev b = Some q -> is_Some (cs_heap s !! q)) ->
  link_queue (S fuel) (p :: Q) s = link_queue fuel (Q ++ followers) link_one.
Proof using.
  intros Hp Hq. cbn [link_queue]. unfold ebind, load, get, gets, update. rewrite (deref_Some _ p b Hp). cbn [of_ptr].
  unfold link_one, linked_entry', followers, below_tx. destruct (pprev b) as [q|] eqn:Eq; cbn [mbind option_bind].
  - destruct (Hq q eq_refl) as [c Hc]. rewrite (deref_Some _ q c Hc), Hc. cbn. unfold Tip.
    by destruct (mjoin (last (cs_active s))) as [t|]; [destruct (worse _ p t)|].
  - cbn. unfold Tip. by destruct (mjoin (last (cs_active s))) as [t|]; [destruct (worse _ p t)|].
Qed.
End turn.

(** The entry after the turn, and what the turn keeps. *)
Section turned.
Context (H : heap) (p : ptr) (b : CBlockIndex) (n seq : Z).
Context (Hi : heap_inv accepts H) (Hp : H !! p = Some b) (Hd : have_data b = true) (H0 : nChainTx b = 0) (Hl : parent_linked H b).
Context (Hn : n = nTx b + below_tx H b) (Hpos : 0 < n).
Abbreviation H' := (<[p := with_sequence b n seq]> H).

Lemma turned_tree : same_tree H H'.
Proof using Hp. by apply (same_tree_put H p b). Qed.

Lemma turned_linked q : linked H q -> linked H' q.
Proof using Hpos.
  intros (c & Hq & N). destruct (decide (q = p)) as [->|Nq].
  - exists (with_sequence b n seq). rewrite lookup_insert_eq. split; [done|]. cbn. lia.
  - exists c. by rewrite lookup_insert_ne.
Qed.

Lemma turned_other q : linked H' q -> q <> p -> linked H q.
Proof using. intros (c & Hq & N) Nq. rewrite lookup_insert_ne in Hq by done. by exists c. Qed.

Lemma turned_below x c : H !! x = Some c -> (nChainTx c <> 0 \/ x = p) -> below_tx H' c = below_tx H c.
Proof using Hi Hp H0 Hl.
  intros Hx L. assert (P : parent_linked H c).
  { destruct L as [L| ->]; [by apply (ei_sum _ _ _ _ (hi_entries _ H Hi x c Hx))|]. rewrite Hp in Hx. by injection Hx as <-. }
  unfold below_tx, parent_linked in *. destruct (pprev c) as [q|]; [|done]. cbn [mbind option_bind].
  rewrite lookup_insert_ne; [done|]. intros ->. destruct P as (e & He & N). rewrite Hp in He. injection He as <-. done.
Qed.

Lemma turned_inv : heap_inv accepts H'.
Proof using All.
  pose proof turned_tree as HS. destruct Hi as [Hx Hw Hr Hg Hu He]. split.
  - by apply (index_ok_same H).
  - by apply (work_ok_same H).
  - intros x y c d Hc Hd' E1 E2. destruct (same_tree_back H H' HS x c Hc) as (c' & Hc' & (_ & F1 & _)%node_fields).
    destruct (same_tree_back H H' HS y d Hd') as (d' & Hd'' & (_ & F2 & _)%node_fields). apply (Hr x y c' d'); congruence.
  - intros x c y d Hc E Hy. destruct (same_tree_back H H' HS x c Hc) as (c' & Hc' & (_ & F1 & _ & _ & F2 & _)%node_fields).
    destruct (same_tree_back H H' HS y d Hy) as (d' & Hy' & (_ & _ & _ & _ & F3 & _)%node_fields). rewrite F2, F3. apply (Hg x c' y d'); congruence.
  - intros x c Hc. destruct (same_tree_back H H' HS x c Hc) as (c' & Hc' & (_ & _ & _ & _ & _ & ->)%node_fields). by apply (Hu x).
  - assert (Pl : forall c, parent_linked H c -> parent_linked H' c).
    { intros c. unfold parent_linked. destruct (pprev c); [apply turned_linked|done]. }
    intros x c Hc. destruct (decide (x = p)) as [->|Nx].
    + rewrite lookup_insert_eq in Hc. injection Hc as <-. destruct (He p b Hp) as [I1 I2 I3 I4 I4' I5 I6 I7]. split; try done.
      * intros _. split; [by apply Pl|]. change (n = nTx b + below_tx H' b). rewrite (turned_below p b) by auto. done.
      * cbn. lia.
      * intros F S. apply (I6 F). by apply (sound_same H H').
    + rewrite lookup_insert_ne in Hc by done. destruct (He x c Hc) as [I1 I2 I3 I4 I4' I5 I6 I7]. split; try done.
      * intros N. destruct (I2 N) as [L E]. split; [by apply Pl|]. rewrite (turned_below x c) by auto. done.
      * intros F S. apply (I6 F). by apply (sound_same H H').
Qed.

Lemma turned_wait Q l : wait_inv (p :: Q) H l ->
  wait_inv (Q ++ map snd (List.filter (fun e => bool_decide (e.1 = Some p)) l)) H'
    (List.filter (fun e => negb (bool_decide (e.1 = Some p))) l).
Proof using All.
  intros [W1 W2 W3 W4].
  assert (Pm : map snd l ++ p :: Q ≡ₚ p :: map snd (List.filter (fun e => negb (bool_decide (e.1 = Some p))) l) ++
      Q ++ map snd (List.filter (fun e => bool_decide (e.1 = Some p)) l)).
  { rewrite <- Permutation_middle. constructor. etransitivity; [|apply Permutation_app_head, Permutation_app_comm].
    rewrite app_assoc. apply Permutation_app_tail. rewrite <- map_app.
    apply Permutation_map. clear. induction l as [|e l IH]; [done|]. cbn [List.filter]. destruct (bool_decide (e.1 = Some p)); cbn [negb app].
    - rewrite <- Permutation_middle. by constructor.
    - by constructor. }
  rewrite Pm in W3. apply NoDup_cons in W3 as [Np W3]. rewrite elem_of_app, elem_of_app in Np.
  assert (In1 : forall e, e ∈ List.filter (fun e => bool_decide (e.1 = Some p)) l <-> e ∈ l /\ e.1 = Some p).
  { intros e. rewrite !list_elem_of_In, filter_In, bool_decide_eq_true. done. }
  assert (In2 : forall e, e ∈ List.filter (fun e => negb (bool_decide (e.1 = Some p))) l <-> e ∈ l /\ e.1 <> Some p).
  { intros e. rewrite !list_elem_of_In, filter_In, negb_true_iff, bool_decide_eq_false. done. }
  assert (InS : forall x (L : list (option ptr * ptr)), x ∈ map snd L <-> exists k, (k, x) ∈ L).
  { intros x L. rewrite list_elem_of_fmap. split; [intros ([k y] & -> & Hy); by exists k|intros [k Hk]; by exists (k, x)]. }
  assert (Nx : forall k x, (k, x) ∈ l -> x <> p).
  { intros k x Hx ->. apply Np. destruct (decide (k = Some p)) as [E|E].
    - right. right. apply InS. exists k. by apply In1.
    - left. apply InS. exists k. by apply In2. }
  split.
  - intros k x [Hx Nk]%In2. destruct (W1 k x Hx) as (c & q & d & Hc & E & Ek & Dc & Zc & Hq & Zd). exists c, q, d. pose proof (Nx k x Hx).
    cbn in Nk. assert (q <> p) by congruence. by rewrite !lookup_insert_ne by congruence.
  - intros x c Hc D Zc. destruct (decide (x = p)) as [->|Nxp]; [rewrite lookup_insert_eq in Hc; injection Hc as <-; cbn in Zc; lia|].
    rewrite lookup_insert_ne in Hc by done. destruct (W2 x c Hc D Zc) as [I|[I|(q & d & E & Hq & F)]].
    + apply elem_of_cons in I as [?|I]; [done|]. left. apply elem_of_app. by left.
    + destruct (decide (pprev c = Some p)) as [E|E].
      * left. apply elem_of_app. right. apply InS. exists (pprev c). by apply In1.
      * right. left. by apply In2.
    + right. right. destruct (decide (q = p)) as [->|Nq].
      * exists p, (with_sequence b n seq). rewrite lookup_insert_eq. rewrite Hp in Hq. injection Hq as <-. done.
      * exists q, d. by rewrite lookup_insert_ne.
  - done.
  - intros x [Hx|Hx]%elem_of_app.
    + destruct (W4 x ltac:(by right)) as (c & Hc & D & Zc & L). assert (x <> p) by (intros ->; apply Np; right; by left).
      exists c. rewrite lookup_insert_ne by done. split; [done|]. split; [done|]. split; [done|]. unfold parent_linked in *.
      destruct (pprev c); [by apply turned_linked|done].
    + apply InS in Hx as [k Hx]. apply In1 in Hx as [Hx Ek]. destruct (W1 k x Hx) as (c & q & d & Hc & E & Ek' & Dc & Zc & Hq & Zd).
      pose proof (Nx k x Hx). exists c. rewrite lookup_insert_ne by done. split; [done|]. split; [done|]. split; [done|].
      unfold parent_linked. rewrite E. cbn in Ek. assert (q = p) as -> by congruence. exists (with_sequence b n seq). rewrite lookup_insert_eq.
      split; [done|]. cbn. lia.
Qed.

Lemma turned_cand floor c X : tip_inv accepts H c -> cand_inv accepts floor H c X ->
  cand_inv accepts floor H' c (if match Tip c with None => true | Some t => negb (worse H' p t) end then X ∪ {[ p ]} else X).
Proof using All.
  intros [Hc Ht] [C1 C2 C3]. pose proof turned_tree as HS.
  assert (Np : ~ linked H p) by (intros (e & He & N); rewrite Hp in He; injection He as <-; done).
  assert (Nt : forall t, linked H t -> t <> p) by (intros t L ->; done).
  set (add := match Tip c with None => true | Some t => negb (worse H' p t) end).
  assert (InX : forall x, x ∈ (if add then X ∪ {[ p ]} else X) <-> x ∈ X \/ x = p /\ add = true) by (intros x; destruct add; set_solver).
  assert (Wo : forall x t, linked H x -> linked H t -> worse H' x t = worse H x t).
  { intros x t Hx Hy. apply worse_ext; apply lookup_insert_ne; apply not_eq_sym; by apply Nt. }
  split.
  - intros x [Hx|[-> _]]%InX; [by apply turned_linked, C1|]. exists (with_sequence b n seq). rewrite lookup_insert_eq. split; [done|]. cbn. lia.
  - intros t x Et [Hx|[-> A]]%InX; [rewrite Wo; [by apply C2|by apply C1|by apply Ht]|]. unfold add in A. rewrite Et in A. by apply negb_true_iff in A.
  - destruct floor as [r|].
    + destruct C3 as (Ir & Sr & All). split; [apply InX; by left|]. split; [by apply (sound_same H)|]. intros x L S N.
      destruct (decide (x = p)) as [->|Nx].
      * apply InX. right. split; [done|]. unfold add. destruct (Tip c) as [t|] eqn:Et; [|done]. apply negb_true_iff.
        apply (not_worse_trans H' (heap_works _ _ turned_inv) p r t); [by exists (with_sequence b n seq); rewrite lookup_insert_eq| | |done|].
        -- by apply linked_known, turned_linked, C1.
        -- by apply linked_known, turned_linked, Ht.
        -- rewrite Wo; [by apply (C2 t)|by apply C1|by apply Ht].
      * apply InX. left. apply All; [by apply turned_other|by apply (sound_same H H')|]. rewrite <- N. symmetry. apply Wo; [by apply turned_other|by apply C1].
    + destruct C3 as [E All]. split; [done|]. intros x L S. destruct (decide (x = p)) as [->|Nx].
      * apply InX. right. split; [done|]. unfold add. by rewrite E.
      * apply InX. left. apply All; [by apply turned_other|by apply (sound_same H H')].
Qed.

Lemma turned_tip c : tip_inv accepts H c -> tip_inv accepts H' c.
Proof using All.
  intros [Hc Ht]. pose proof turned_tree as HS. split; [by apply (chain_ok_same H)|]. intros t Et. destruct (Ht t Et).
  split; [by apply turned_linked|by apply (sound_same H)].
Qed.
End turned.

Lemma fork_inv_same H H' best f : same_tree H H' -> fork_inv H best f -> fork_inv H' best f.
Proof using.
  intros HS. assert (K : forall p, known_opt H p -> known_opt H' p) by (intros [p|]; [apply (known_same H H' HS)|done]).
  intros (K1 & K2 & K3). split; [by apply K|]. split; by apply K.
Qed.

(** What linking keeps: all but the counts, the order of arrival and the candidates. *)
Definition kept_of (b : CBlockIndex) : option ptr * Z * Z := (pprev b, nTx b, nStatus b).
Definition linking_keeps {W} (s s' : chain_state W) : Prop :=
  same_tree (cs_heap s) (cs_heap s') /\ kept_of <$> cs_heap s = kept_of <$> cs_heap s' /\
  cs_active s' = cs_active s /\ cs_world s' = cs_world s.

Lemma counts_fit_same (H H' : heap) : kept_of <$> H = kept_of <$> H' -> counts_fit H -> counts_fit H'.
Proof using.
  intros E F n x. rewrite (chain_tx_ext H H'); [apply F|]. set (f := fun k : option ptr * Z * Z => (k.1.1, k.1.2)).
  change ((f ∘ kept_of) <$> H = (f ∘ kept_of) <$> H'). by rewrite !map_fmap_compose, E.
Qed.

Lemma link_one_inv {W} floor (s : chain_state W) p b Q : chain_inv accepts floor (p :: Q) s -> counts_fit (cs_heap s) ->
  cs_heap s !! p = Some b -> chain_inv accepts floor (Q ++ followers s p) (link_one s p b) /\ linking_keeps s (link_one s p b).
Proof using.
  intros [M B Hi Hw Hc Ht Hf] F Hp. destruct (wi_queue _ _ _ Hw p ltac:(by left)) as (b' & Hp' & D & Z0 & L). rewrite Hp in Hp'. injection Hp' as <-.
  pose proof (ei_tx _ _ _ _ (hi_entries _ _ Hi p b Hp) D) as Npos. pose proof (new_count (cs_heap s) p b Hi F Hp L Npos) as R.
  set (n := nTx b + below_tx (cs_heap s) b). assert (En : u32 (below_tx (cs_heap s) b + nTx b) = n) by (rewrite u32_small by (unfold in_u32; lia); unfold n; lia).
  assert (Hn : 0 < n) by (unfold n; lia). assert (HS : same_tree (cs_heap s) (<[p := with_sequence b n (nBlockSequenceId s)]> (cs_heap s))) by by apply turned_tree.
  assert (Eh : cs_heap (link_one s p b) = <[p := with_sequence b n (nBlockSequenceId s)]> (cs_heap s)).
  { rewrite <- En. unfold link_one, linked_entry', cs_heap, put. by destruct (Tip (cs_active s)) as [t|]; cbn; [destruct (worse _ p t)|]. }
  assert (Ec : setBlockIndexCandidates (link_one s p b) =
      if match Tip (cs_active s) with None => true | Some t => negb (worse (<[p := with_sequence b n (nBlockSequenceId s)]> (cs_heap s)) p t) end
      then setBlockIndexCandidates s ∪ {[ p ]} else setBlockIndexCandidates s).
  { rewrite <- En. unfold link_one. destruct (Tip (cs_active s)) as [t|]; [|done]. cbn zeta.
    change (cs_heap (set_sequence _ (put p (linked_entry' s b) s))) with
      (<[p := with_sequence b (u32 (below_tx (cs_heap s) b + nTx b)) (nBlockSequenceId s)]> (cs_heap s)).
    by destruct (worse _ p t). }
  assert (Eu : mapBlocksUnlinked (link_one s p b) = List.filter (fun e => negb (bool_decide (e.1 = Some p))) (mapBlocksUnlinked s)) by done.
  assert (Er : cs_active (link_one s p b) = cs_active s /\ cs_world (link_one s p b) = cs_world s /\ cs_forks (link_one s p b) = cs_forks s /\
    pindexBestInvalid (link_one s p b) = pindexBestInvalid s /\ mapBlockIndex (cs_index (link_one s p b)) = mapBlockIndex (cs_index s) /\
    pindexBestHeader (cs_index (link_one s p b)) = pindexBestHeader (cs_index s)).
  { unfold link_one, put. match goal with |- context [if ?x then _ else _] => destruct x end; repeat split. }
  destruct Er as (Ea & Ew & Ef & Ei & Em & Eb). split.
  - split; rewrite ?Ea, ?Ef, ?Ei, ?Em, ?Eb, ?Eu, ?Ec, ?Eh; [by apply (map_ok_same (cs_heap s))|by apply (best_ok_same (cs_heap s))|..|by apply (fork_inv_same (cs_heap s))].
    + by apply turned_inv.
    + by apply turned_wait.
    + by apply turned_cand.
    + by apply turned_tip.
  - split; [by rewrite Eh|]. split; [|done]. rewrite Eh, fmap_insert. symmetry. apply insert_id. by rewrite lookup_fmap, Hp.
Qed.

Lemma linking_keeps_trans {W} (s1 s2 s3 : chain_state W) : linking_keeps s1 s2 -> linking_keeps s2 s3 -> linking_keeps s1 s3.
Proof using. intros (A1 & A2 & A3 & A4) (B1 & B2 & B3 & B4). repeat split; [by apply (same_tree_trans _ (cs_heap s2))|congruence..]. Qed.

Lemma link_queue_spec {W} floor fuel : forall (s : chain_state W) Q, chain_inv accepts floor Q s -> counts_fit (cs_heap s) ->
  (length Q + length (mapBlocksUnlinked s) <= fuel)%nat ->
  exists s', link_queue fuel Q s = (Ret tt, s') /\ chain_inv accepts floor [] s' /\ linking_keeps s s'.
Proof using.
  induction fuel as [|fuel IH]; intros s [|p Q] Hs F L; cbn [length] in L; try lia.
  1, 2: by exists s.
  destruct (wi_queue _ _ _ (ch_wait _ _ _ _ Hs) p ltac:(by left)) as (b & Hp & D & Z0 & P).
  destruct (link_one_inv floor s p b Q Hs F Hp) as [Hs' K]. assert (Ea : cs_active (link_one s p b) = cs_active s) by apply K.
  destruct (IH (link_one s p b) (Q ++ followers s p)) as (s' & E & Hs'' & K').
  - done.
  - apply (counts_fit_same (cs_heap s)); [apply K|done].
  - unfold followers. change (mapBlocksUnlinked (link_one s p b)) with (List.filter (fun e => negb (bool_decide (e.1 = Some p))) (mapBlocksUnlinked s)).
    rewrite length_app, length_map. enough (length (List.filter (fun e : option ptr * ptr => bool_decide (e.1 = Some p)) (mapBlocksUnlinked s)) +
      length (List.filter (fun e => negb (bool_decide (e.1 = Some p))) (mapBlocksUnlinked s)) = length (mapBlocksUnlinked s))%nat by lia.
    apply List.filter_length.
  - exists s'. rewrite (link_queue_cons s p b Q fuel Hp).
    + split; [done|]. split; [done|]. by apply (linking_keeps_trans _ (link_one s p b)).
    + intros q Eq. unfold parent_linked in P. rewrite Eq in P. by apply linked_known in P.
Qed.

(** ** The data of a block arrives *)

(** [RaiseValidity] leaves the flags. *)
Lemma RaiseValidity_spec n b : Z.land n (Z.lnot BLOCK_VALID_MASK) = 0 ->
  exists b' x, RaiseValidity n b = Some (b', x) /\ b' = with_status b (nStatus b') /\
    (forall m, Z.land (Z.lnot BLOCK_VALID_MASK) m = m -> Z.land (nStatus b') m = Z.land (nStatus b) m) /\
    Z.land (nStatus b) BLOCK_VALID_MASK <= Z.land (nStatus b') BLOCK_VALID_MASK.
Proof using.
  intros E. unfold RaiseValidity. rewrite E. cbn [Z.eqb negb].
  assert (Same : exists b' x, Some (b, false) = Some (b', x) /\ b' = with_status b (nStatus b') /\
    (forall m, Z.land (Z.lnot BLOCK_VALID_MASK) m = m -> Z.land (nStatus b') m = Z.land (nStatus b) m) /\
    Z.land (nStatus b) BLOCK_VALID_MASK <= Z.land (nStatus b') BLOCK_VALID_MASK) by (exists b, false; by destruct b).
  destruct (negb _); [done|]. destruct (Z.ltb_spec (Z.land (nStatus b) BLOCK_VALID_MASK) n) as [L|L]; [|done].
  eexists _, true. split; [done|]. split; [done|]. cbn [nStatus with_status]. split.
  - intros m Em. rewrite Z.land_lor_distr_l, <- Z.land_assoc, Em.
    assert (Z.land n m = 0) as ->; [|apply Z.lor_0_r]. rewrite <- Em, Z.land_assoc, E. apply Z.land_0_l.
  - rewrite Z.land_lor_distr_l, <- Z.land_assoc. change (Z.land (Z.lnot BLOCK_VALID_MASK) BLOCK_VALID_MASK) with 0. rewrite Z.land_0_r, Z.lor_0_l.
    enough (Z.land n BLOCK_VALID_MASK = n) by lia. rewrite <- (Z.lor_ldiff_and n BLOCK_VALID_MASK) at 2.
    rewrite Z.ldiff_land, E, Z.lor_0_l. done.
Qed.

Lemma kept_flags b b' : (forall m, Z.land (Z.lnot BLOCK_VALID_MASK) m = m -> Z.land (nStatus b') m = Z.land (nStatus b) m) ->
  failed b' = failed b /\ have_data b' = have_data b.
Proof using. intros K. unfold failed, have_data. by rewrite !K. Qed.

(** The entry with the data of its block. *)
Definition received_entry (block : CBlock) (pos : CDiskBlockPos) (b : CBlockIndex) : CBlockIndex :=
  let b := if CBlock_IsProofOfStake block then SetProofOfStake b else b in
  let b := with_data b (u32 (Z.of_nat (length (vtx block)))) pos in
  match RaiseValidity BLOCK_VALID_TRANSACTIONS (with_status b (Z.lor (nStatus b) BLOCK_HAVE_DATA)) with Some (b, _) => b | None => b end.

Lemma received_entry_spec block pos b : 0 < Z.of_nat (length (vtx block)) < 2 ^ 32 ->
  let b' := received_entry block pos b in
  node_of b' = node_of b /\ nTx b' = Z.of_nat (length (vtx block)) /\ nChainTx b' = 0 /\ have_data b' = true /\ failed b' = failed b /\
  Z.land (nStatus b) BLOCK_VALID_MASK <= Z.land (nStatus b') BLOCK_VALID_MASK.
Proof using.
  intros L. unfold received_entry. set (b1 := if CBlock_IsProofOfStake block then SetProofOfStake b else b).
  assert (E1 : node_of b1 = node_of b /\ nStatus b1 = nStatus b) by (unfold b1; by destruct (CBlock_IsProofOfStake block)). destruct E1 as [E1 E2].
  set (b2 := with_status _ _). assert (F : failed b2 = failed b /\ have_data b2 = true /\ Z.land (nStatus b2) BLOCK_VALID_MASK = Z.land (nStatus b) BLOCK_VALID_MASK).
  { unfold failed, have_data, b2. cbn [nStatus with_status with_data]. rewrite E2, !Z.land_lor_distr_l.
    change (Z.land BLOCK_HAVE_DATA BLOCK_FAILED_MASK) with 0. change (Z.land BLOCK_HAVE_DATA BLOCK_VALID_MASK) with 0.
    change (Z.land BLOCK_HAVE_DATA BLOCK_HAVE_DATA) with 8. rewrite !Z.lor_0_r. split; [done|]. split; [|done].
    destruct (Z.eqb_spec (Z.lor (Z.land (nStatus b) BLOCK_HAVE_DATA) 8) 0) as [E|]; [|done]. apply Z.lor_eq_0_iff in E. lia. }
  destruct (RaiseValidity_spec BLOCK_VALID_TRANSACTIONS b2 eq_refl) as (b3 & x & -> & E3 & K & Le). destruct F as (F1 & F2 & F3).
  destruct (kept_flags b2 b3 K) as [G1 G2]. cbn zeta. rewrite G1, G2, F1, F2. rewrite E3 at 1 2 3. split; [exact E1|].
  split; [unfold b2; cbn; by rewrite u32_small by (unfold in_u32; lia)|]. split; [done|]. split; [done|]. split; [done|]. lia.
Qed.

Section arrived.
Context (H : heap) (p : ptr) (b b' : CBlockIndex) (Hi : heap_inv accepts H) (Hp : H !! p = Some b) (Hd : have_data b = false).
Context (En : node_of b' = node_of b) (Ht : 0 < nTx b') (Hz : nChainTx b' = 0) (Hd' : have_data b' = true) (Hf : failed b' = failed b)
        (Hv : Z.land (nStatus b) BLOCK_VALID_MASK <= Z.land (nStatus b') BLOCK_VALID_MASK).
Abbreviation H' := (<[p := b']> H).

Lemma arrived_tree : same_tree H H'.
Proof using Hp En. by apply (same_tree_put H p b). Qed.

Lemma arrived_zero : nChainTx b = 0.
Proof using Hi Hp Hd.
  destruct (decide (nChainTx b = 0)) as [|N]; [done|]. pose proof (ei_have _ _ _ _ (hi_entries _ H Hi p b Hp) N) as E. by rewrite Hd in E.
Qed.

Lemma arrived_linked q : linked H' q <-> linked H q.
Proof using Hi Hp Hd Hz.
  destruct (decide (q = p)) as [->|N].
  - pose proof arrived_zero. split; intros (c & Hc & Nc); [rewrite lookup_insert_eq in Hc|rewrite Hp in Hc]; injection Hc as <-; done.
  - unfold linked. by rewrite lookup_insert_ne.
Qed.

Lemma arrived_parent c : parent_linked H' c <-> parent_linked H c.
Proof using Hi Hp Hd Hz. unfold parent_linked. destruct (pprev c); [apply arrived_linked|done]. Qed.

Lemma arrived_below c : below_tx H' c = below_tx H c.
Proof using Hi Hp Hd Hz.
  unfold below_tx. destruct (pprev c) as [q|]; [|done]. cbn [mbind option_bind]. destruct (decide (q = p)) as [->|N].
  - by rewrite lookup_insert_eq, Hp, arrived_zero.
  - by rewrite lookup_insert_ne.
Qed.

Lemma arrived_inv : heap_inv accepts H'.
Proof using All.
  pose proof arrived_tree as HS. destruct (node_fields b b' En) as (_ & Ep & _). destruct Hi as [Hx Hw Hr Hg Hu He]. split.
  - by apply (index_ok_same H).
  - by apply (work_ok_same H).
  - intros x y c d Hc Hy E1 E2. destruct (same_tree_back H H' HS x c Hc) as (c' & Hc' & (_ & F1 & _)%node_fields).
    destruct (same_tree_back H H' HS y d Hy) as (d' & Hd'' & (_ & F2 & _)%node_fields). apply (Hr x y c' d'); congruence.
  - intros x c y d Hc E Hy. destruct (same_tree_back H H' HS x c Hc) as (c' & Hc' & (_ & F1 & _ & _ & F2 & _)%node_fields).
    destruct (same_tree_back H H' HS y d Hy) as (d' & Hy' & (_ & _ & _ & _ & F3 & _)%node_fields). rewrite F2, F3. apply (Hg x c' y d'); congruence.
  - intros x c Hc. destruct (same_tree_back H H' HS x c Hc) as (c' & Hc' & (_ & _ & _ & _ & _ & ->)%node_fields). by apply (Hu x).
  - intros x c Hc. destruct (decide (x = p)) as [->|Nx].
    + rewrite lookup_insert_eq in Hc. injection Hc as <-. destruct (He p b Hp) as [I1 I2 I3 I4 I4' I5 I6 I7]. split; try done; try lia.
      * congruence.
      * intros F S. rewrite Hf in F. apply (I6 F). by apply (sound_same H H').
      * destruct (node_fields b b' En) as (-> & _). intros E. apply I7. congruence.
    + rewrite lookup_insert_ne in Hc by done. destruct (He x c Hc) as [I1 I2 I3 I4 I4' I5 I6 I7]. split; try done.
      * intros N. rewrite arrived_parent, arrived_below. by apply I2.
      * intros F S. apply (I6 F). by apply (sound_same H H').
Qed.

Lemma arrived_wait Q l : wait_inv [] H l -> (Q = [p] /\ parent_linked H b \/ Q = [] /\ parent_failed H b) -> wait_inv Q H' l.
Proof using All.
  intros [W1 W2 W3 W4] HQ. destruct (node_fields b b' En) as (_ & Ep & _).
  assert (Np : p ∉ map snd l).
  { intros ([k y] & Ey & Hy)%list_elem_of_fmap. cbn in Ey. subst y. destruct (W1 k p Hy) as (c & q & d & Hc & _ & _ & D & _). rewrite Hp in Hc. injection Hc as <-. congruence. }
  assert (Pf : forall c, parent_failed H c -> parent_failed H' c).
  { intros c (q & d & E & Hq & F). destruct (decide (q = p)) as [->|Nq].
    - exists p, b'. rewrite lookup_insert_eq. rewrite Hp in Hq. injection Hq as <-. by rewrite Hf.
    - exists q, d. by rewrite lookup_insert_ne. }
  split.
  - intros k x Hx. destruct (W1 k x Hx) as (c & q & d & Hc & E & Ek & Dc & Zc & Hq & Zd).
    assert (x <> p) by (intros ->; apply Np; apply list_elem_of_fmap; by exists (k, p)). exists c, q.
    destruct (decide (q = p)) as [->|Nq]; [exists b'|exists d]; rewrite ?lookup_insert_eq, ?(lookup_insert_ne _ p) by done; done.
  - intros x c Hc D Zc. destruct (decide (x = p)) as [->|Nx].
    + rewrite lookup_insert_eq in Hc. injection Hc as <-. destruct HQ as [[-> _]|[_ F]]; [left; by left|]. right. right.
      destruct (Pf b F) as (q & d & E & Hq). exists q, d. by rewrite Ep.
    + rewrite lookup_insert_ne in Hc by done. destruct (W2 x c Hc D Zc) as [I|[I|I]]; [by apply elem_of_nil in I|right; by left|right; right; by apply Pf].
  - rewrite app_nil_r in W3. destruct HQ as [[-> _]|[-> _]]; [|by rewrite app_nil_r]. apply NoDup_app. split; [done|]. split; [|apply NoDup_singleton].
    intros x Hx ->%list_elem_of_singleton. done.
  - intros x Hx. destruct HQ as [[-> L]|[-> _]]; [|by apply elem_of_nil in Hx]. apply list_elem_of_singleton in Hx as ->.
    exists b'. rewrite lookup_insert_eq. split; [done|]. split; [done|]. split; [done|]. unfold parent_linked. rewrite Ep. by apply arrived_parent.
Qed.

(** A block whose parent is not linked waits for it. *)
Lemma arrived_waits l q c : wait_inv [] H l -> pprev b = Some q -> H !! q = Some c -> nChainTx c = 0 -> wait_inv [] H' (l ++ [(Some q, p)]).
Proof using All.
  intros [W1 W2 W3 W4] Eq Hq Zc. destruct (node_fields b b' En) as (_ & Ep & _).
  assert (Np : p ∉ map snd l).
  { intros ([k y] & Ey & Hy)%list_elem_of_fmap. cbn in Ey. subst y. destruct (W1 k p Hy) as (e & x & d & Hc & _ & _ & D & _). rewrite Hp in Hc. injection Hc as <-. congruence. }
  assert (Z' : forall x e, H !! x = Some e -> nChainTx e = 0 -> exists e', H' !! x = Some e' /\ nChainTx e' = 0).
  { intros x e He Ze. destruct (decide (x = p)) as [->|N]; [exists b'; by rewrite lookup_insert_eq|exists e; by rewrite lookup_insert_ne]. }
  split.
  - intros k x [Hx|Hx]%elem_of_app.
    + destruct (W1 k x Hx) as (e & y & d & Hc & E & Ek & Dc & Zc' & Hy & Zd).
      assert (x <> p) by (intros ->; apply Np; apply list_elem_of_fmap; by exists (k, p)). destruct (Z' y d Hy Zd) as (d' & ? & ?).
      exists e, y, d'. by rewrite lookup_insert_ne.
    + apply list_elem_of_singleton in Hx. injection Hx as -> ->. destruct (Z' q c Hq Zc) as (c' & ? & ?).
      exists b', q, c'. rewrite lookup_insert_eq, Ep. done.
  - intros x e He D Ze. right. destruct (decide (x = p)) as [->|Nx].
    + left. rewrite lookup_insert_eq in He. injection He as <-. rewrite Ep, Eq. apply elem_of_app. right. by left.
    + rewrite lookup_insert_ne in He by done. destruct (W2 x e He D Ze) as [I|[I|(y & d & E & Hy & F)]]; [by apply elem_of_nil in I|left; apply elem_of_app; by left|].
      right. destruct (decide (y = p)) as [->|Ny].
      * exists p, b'. rewrite lookup_insert_eq. rewrite Hp in Hy. injection Hy as <-. by rewrite Hf.
      * exists y, d. by rewrite lookup_insert_ne.
  - rewrite app_nil_r in *. rewrite map_app. apply NoDup_app. split; [done|]. split; [|apply NoDup_singleton].
    intros x Hx ->%list_elem_of_singleton. done.
  - intros x Hx. by apply elem_of_nil in Hx.
Qed.

Lemma arrived_cand floor c X : cand_inv accepts floor H c X -> tip_inv accepts H c -> (forall r, floor = Some r -> linked H r) -> cand_inv accepts floor H' c X.
Proof using All.
  intros [C1 C2 C3] [Hc Htp] Hfl. pose proof arrived_tree as HS.
  assert (Np : forall x, linked H x -> x <> p) by (intros x (e & He & N) ->; rewrite Hp in He; injection He as <-; by destruct (N arrived_zero)).
  assert (Wo : forall x t, linked H x -> linked H t -> worse H' x t = worse H x t).
  { intros x t Hx Hy. apply worse_ext; apply lookup_insert_ne; apply not_eq_sym; by apply Np. }
  split.
  - intros x Hx. by apply arrived_linked, C1.
  - intros t x Et Hx. rewrite Wo; [by apply C2|by apply C1|by apply Htp].
  - destruct floor as [r|].
    + destruct C3 as (I & S & All). split; [done|]. split; [by apply (sound_same H)|]. intros x L S' N. apply arrived_linked in L.
      apply All; [done|by apply (sound_same H H')|]. rewrite <- N. symmetry. apply Wo; [done|by apply Hfl].
    + destruct C3 as [E All]. split; [done|]. intros x L S. apply All; [by apply arrived_linked|by apply (sound_same H H')].
Qed.

Lemma arrived_tip c : tip_inv accepts H c -> tip_inv accepts H' c.
Proof using All.
  intros [Hc Htp]. pose proof arrived_tree as HS. split; [by apply (chain_ok_same H)|]. intros t Et. destruct (Htp t Et).
  split; [by apply arrived_linked|by apply (sound_same H)].
Qed.
End arrived.

(** A block adds its transactions to the counts. *)
Lemma received_counts (H : heap) p b b' m : heap_inv accepts H -> H !! p = Some b -> have_data b = false -> node_of b' = node_of b ->
  counts_below H (m - nTx b') -> 0 <= nTx b' -> counts_below (<[p := b']> H) m.
Proof using.
  intros Hi Hp Hd En C P. destruct (node_fields b b' En) as (_ & Ep & _). pose proof (hi_index _ _ Hi) as Hok.
  assert (Low : forall n x c, H !! x = Some c -> nHeight c < nHeight b -> chain_tx (<[p := b']> H) n x = chain_tx H n x).
  { induction n as [|n IH]; intros x c Hx L; [done|]. assert (x <> p) by (intros ->; replace c with b in L by congruence; lia).
    cbn [chain_tx]. rewrite lookup_insert_ne, Hx by done. destruct (Hok x c Hx) as [_ Hh]. destruct (pprev c) as [q|]; [|done].
    destruct Hh as [(d & Hq & Eh) _]. rewrite (IH q d); [done|done|lia]. }
  assert (B : forall n x, chain_tx (<[p := b']> H) n x <= chain_tx H n x + nTx b').
  { induction n as [|n IH]; intros x; [cbn; lia|]. cbn [chain_tx]. destruct (decide (x = p)) as [->|N].
    - rewrite lookup_insert_eq, Hp, Ep, (ei_notx _ _ _ _ (hi_entries _ _ Hi p b Hp) Hd). destruct (Hok p b Hp) as [_ Hh]. destruct (pprev b) as [q|]; [|lia].
      destruct Hh as [(d & Hq & Eh) _]. rewrite (Low n q d); [lia|done|lia].
    - rewrite lookup_insert_ne by done. destruct (H !! x) as [c|]; [|lia]. destruct (pprev c) as [q|]; [|lia]. specialize (IH q). lia. }
  intros n x. specialize (B n x). specialize (C n x). lia.
Qed.

Lemma linking_keeps_refl {W} (s : chain_state W) : linking_keeps s s.
Proof using. done. Qed.

(** What the function does, with its calls computed. *)
Lemma ReceivedBlockTransactions_run {W} (s : chain_state W) block p pos b : cs_heap s !! p = Some b ->
  0 < Z.of_nat (length (vtx block)) < 2 ^ 32 ->
  let s1 := mark_dirty p (put p (received_entry block pos b) s) in
  ReceivedBlockTransactions block p pos s =
    match pprev b with
    | None => link_queue (S (length (mapBlocksUnlinked s))) [p] s1
    | Some q => match cs_heap s1 !! q with
        | Some e => if negb (nChainTx e =? 0) then link_queue (S (length (mapBlocksUnlinked s))) [p] s1
                    else match IsValid BLOCK_VALID_TREE e with
                         | None => (Err Asserts, s1)
                         | Some x => (Ret tt, if x then set_unlinked (mapBlocksUnlinked s1 ++ [(Some q, p)]) s1 else s1)
                         end
        | None => (Err Undefined, s1)
        end
    end.
Proof using.
  intros Hp L s1. destruct (received_entry_spec block pos b L) as (En & _). destruct (node_fields _ _ En) as (_ & Ep & _).
  unfold ReceivedBlockTransactions, ebind, load. rewrite (deref_Some _ p b Hp). cbn [of_ptr].
  set (b2 := with_status _ _). destruct (RaiseValidity_spec BLOCK_VALID_TRANSACTIONS b2 eq_refl) as (b3 & x & E3 & _).
  assert (Eb : b3 = received_entry block pos b) by (unfold received_entry; fold b2; by rewrite E3). rewrite E3, Eb. unfold update, gets, deref.
  change (mark_dirty p (put p (received_entry block pos b) s)) with s1. cbn [mbind option_bind]. rewrite Ep. destruct (pprev b) as [q|]; [|done].
  cbn [mbind option_bind]. destruct (cs_heap s1 !! q) as [e|]; [|done]. cbn [of_ptr]. destruct (negb (nChainTx e =? 0)); [done|].
  by destruct (IsValid BLOCK_VALID_TREE e) as [[]|].
Qed.

(** The block arrives at an entry that has no data and has not failed. *)
Lemma ReceivedBlockTransactions_spec {W} floor (s : chain_state W) block p pos b : chain_inv accepts floor [] s ->
  cs_heap s !! p = Some b -> have_data b = false -> 0 < Z.of_nat (length (vtx block)) < 2 ^ 32 ->
  counts_fit (<[p := received_entry block pos b]> (cs_heap s)) ->
  exists s', ReceivedBlockTransactions block p pos s = (Ret tt, s') /\ chain_inv accepts floor [] s' /\
    cs_active s' = cs_active s /\ cs_world s' = cs_world s /\
    linking_keeps (put p (received_entry block pos b) s) s'.
Proof using.
  intros Hs Hp Hd L F. set (b' := received_entry block pos b) in *.
  destruct (received_entry_spec block pos b L) as (En & Et & Ez & Ed & Ef & Ev). fold b' in En, Et, Ez, Ed, Ef, Ev.
  set (s1 := mark_dirty p (put p b' s)). assert (E1 : cs_heap s1 = <[p := b']> (cs_heap s)) by done.
  destruct Hs as [M B Hi Hw Hc Htp Hk]. assert (Htx : 0 < nTx b') by lia. destruct (node_fields b b' En) as (_ & Ep & _).
  assert (HS : same_tree (cs_heap s) (cs_heap s1)) by (by apply (same_tree_put (cs_heap s) p b)).
  assert (Base : forall Q l, wait_inv Q (cs_heap s1) l -> chain_inv accepts floor Q (set_unlinked l s1)).
  { intros Q l HW. split; cbn -[cs_heap]; [by apply (map_ok_same (cs_heap s))|by apply (best_ok_same (cs_heap s))|by apply (arrived_inv (cs_heap s) p b b')|done| | |by apply (fork_inv_same (cs_heap s))].
    - apply (arrived_cand (cs_heap s) p b b'); try done. intros r ->. apply (ci_linked _ _ _ _ _ Hc). by destruct (ci_all _ _ _ _ _ Hc).
    - by apply (arrived_tip (cs_heap s) p b b'). }
  pose proof (ReceivedBlockTransactions_run s block p pos b Hp L) as Run. cbv zeta in Run. fold b' s1 in Run. rewrite Run. clear Run.
  assert (Link : parent_linked (cs_heap s) b -> exists s', link_queue (S (length (mapBlocksUnlinked s))) [p] s1 = (Ret tt, s') /\
    chain_inv accepts floor [] s' /\ cs_active s' = cs_active s /\ cs_world s' = cs_world s /\ linking_keeps (put p b' s) s').
  { intros P. assert (HW : wait_inv [p] (cs_heap s1) (mapBlocksUnlinked s)) by (apply (arrived_wait (cs_heap s) p b b'); by try left).
    destruct (link_queue_spec floor (S (length (mapBlocksUnlinked s))) s1 [p]) as (s' & E & Hs' & K); [by apply (Base [p] (mapBlocksUnlinked s))|done|done|].
    destruct K as (K1 & K2 & K3 & K4). exists s'. done. }
  destruct (pprev b) as [q|] eqn:Eq; [|by apply Link; unfold parent_linked; rewrite Eq].
  destruct (parent_known _ p b q (hi_index _ _ Hi) Hp Eq) as [e He].
  destruct (same_tree_lookup _ _ HS q e He) as (e' & He' & _). rewrite He'.
  assert (Zq : nChainTx e' = 0 <-> nChainTx e = 0).
  { pose proof (arrived_linked (cs_heap s) p b b' Hi Hp Hd Ez q) as Lq. unfold linked in Lq. rewrite He, E1 in *. rewrite He' in Lq.
    split; intros Z0; apply dec_stable; intros N; [destruct (proj2 Lq) as (x & Ex & Nx)|destruct (proj1 Lq) as (x & Ex & Nx)]; eauto; congruence. }
  destruct (Z.eqb_spec (nChainTx e') 0) as [Z'|Z']; cbn [negb].
  - assert (Fe : failed e' = failed e).
    { destruct (decide (q = p)) as [->|Nq]; [|rewrite E1, lookup_insert_ne in He' by done; congruence].
      rewrite E1, lookup_insert_eq in He'. injection He' as <-. rewrite Hp in He. by injection He as <-. }
    assert (Te : BLOCK_VALID_TREE <= Z.land (nStatus e') BLOCK_VALID_MASK).
    { pose proof (arrived_inv (cs_heap s) p b b' Hi Hp Hd En Htx Ez Ed Ef Ev) as Hi'. by apply (ei_tree _ _ _ _ (hi_entries _ _ Hi' q e' He')). }
    unfold IsValid. change (Z.land BLOCK_VALID_TREE (Z.lnot BLOCK_VALID_MASK) =? 0) with true. cbn [negb].
    fold (failed e'). rewrite Fe. destruct (failed e) eqn:Ff.
    + exists s1. split; [done|]. split; [|done]. apply (Base [] (mapBlocksUnlinked s)). apply (arrived_wait (cs_heap s) p b b'); try done.
      right. split; [done|]. by exists q, e.
    + rewrite (proj2 (Z.leb_le _ _) Te). eexists. split; [done|]. split; [|done].
      apply Base. apply (arrived_waits (cs_heap s) p b b' Hi Hp Hd En Htx Ez Ed Ef Ev _ q e); [done|done|done|by apply Zq].
  - apply Link. unfold parent_linked. rewrite Eq. exists e. split; [done|]. intros Z0. by apply Z', Zq.
Qed.
End linking.

(** ** A header arrives *)

Section header.
Context (accepts : uint256 -> Prop) (H H' : heap) (p : ptr) (b : CBlockIndex).
Context (Hi : heap_inv accepts H) (Hok' : index_ok H') (Hw' : work_ok H') (He : extends H H') (Hn : H !! p = None) (Hp : H' !! p = Some b).
Context (Hd : forall x, is_Some (H' !! x) -> x = p \/ is_Some (H !! x)).
Context (Hb : nStatus b = BLOCK_VALID_TREE /\ nTx b = 0 /\ nChainTx b = 0).
Context (Hrise : forall q c, pprev b = Some q -> H !! q = Some c -> val (nChainWork c) < val (nChainWork b)).
Context (Hroot : pprev b = None -> H = ∅ /\ accepts (blockHash b)) (Hbits : in_u32 (ih_nBits (header b))).

(** An old entry, before and after. *)
Lemma grown_lookup x c : H !! x = Some c -> exists c', H' !! x = Some c' /\ node_of c' = node_of c /\ kept_of c' = kept_of c /\
  nChainTx c' = nChainTx c /\ nSequenceId c' = nSequenceId c.
Proof using He. intros Hx. destruct (He x c Hx) as (c' & Hx' & [->|[y ->]]); by eexists. Qed.

Lemma grown_back x c' : H' !! x = Some c' -> x <> p -> exists c, H !! x = Some c /\ node_of c' = node_of c /\ kept_of c' = kept_of c /\
  nChainTx c' = nChainTx c /\ nSequenceId c' = nSequenceId c.
Proof using He Hd.
  intros Hx N. destruct (Hd x) as [?|[c Hc]]; [by exists c'|done|]. destruct (grown_lookup x c Hc) as (c2 & Hc2 & E). rewrite Hx in Hc2. injection Hc2 as <-. by exists c.
Qed.

Lemma kept_fields c c' : kept_of c' = kept_of c -> nTx c' = nTx c /\ failed c' = failed c /\ have_data c' = have_data c /\ nStatus c' = nStatus c.
Proof using. unfold kept_of, failed, have_data. by intros [= _ -> ->]. Qed.

Lemma grown_ancestor q x : is_Some (H !! x) -> is_ancestor H' q x <-> is_ancestor H q x.
Proof using Hi He.
  intros Kx. unfold is_ancestor. setoid_rewrite (ancestor_extends H H' _ x (hi_index _ _ Hi) He Kx). done.
Qed.

Lemma grown_sound x : is_Some (H !! x) -> sound accepts H' x <-> sound accepts H x.
Proof using Hi He.
  intros Kx. unfold sound. split; intros S q c A Hq.
  - destruct (grown_lookup q c Hq) as (c' & Hc' & (<- & _)%node_fields & _). by apply (S q c'); [apply grown_ancestor|].
  - apply grown_ancestor in A; [|done]. destruct (ancestor_Some H (hi_index _ _ Hi) q x Kx A) as [c0 Hq0].
    destruct (grown_lookup q c0 Hq0) as (c' & Hc' & (E & _)%node_fields & _). replace c with c' by congruence. rewrite E. by apply (S q c0).
Qed.

Lemma grown_linked x : linked H' x <-> linked H x.
Proof using He Hd Hp Hb.
  split; intros (c & Hc & Nc).
  - destruct (decide (x = p)) as [->|N]; [rewrite Hp in Hc; injection Hc as <-; by destruct Hb as (_ & _ & ?)|].
    destruct (grown_back x c Hc N) as (c0 & ? & _ & _ & E & _). exists c0. split; [done|congruence].
  - destruct (grown_lookup x c Hc) as (c' & ? & _ & _ & E & _). exists c'. split; [done|congruence].
Qed.

Lemma grown_worse x y : is_Some (H !! x) -> is_Some (H !! y) -> worse H' x y = worse H x y.
Proof using He.
  intros [c Hx] [d Hy]. destruct (grown_lookup x c Hx) as (c' & Hx' & (_ & _ & _ & _ & E1 & _)%node_fields & _ & _ & E2).
  destruct (grown_lookup y d Hy) as (d' & Hy' & (_ & _ & _ & _ & E3 & _)%node_fields & _ & _ & E4).
  unfold worse, comparator. by rewrite Hx, Hy, Hx', Hy', E1, E2, E3, E4.
Qed.

Lemma grown_heap : heap_inv accepts H'.
Proof using All.
  destruct Hi as [Hx Hw Hr Hg Hu Hen]. split; [done|done|..].
  - assert (Old : forall x c, H' !! x = Some c -> pprev c = None -> x = p /\ H = ∅ \/ exists c0, H !! x = Some c0 /\ pprev c0 = None).
    { intros x c Hc E. destruct (decide (x = p)) as [->|N]; [left; split; [done|]; rewrite Hp in Hc; injection Hc as <-; by apply Hroot|].
      right. destruct (grown_back x c Hc N) as (c0 & Hc0 & (_ & Ep & _)%node_fields & _). exists c0. split; [done|congruence]. }
    intros x y c d Hc Hy E1 E2. destruct (Old x c Hc E1) as [[-> Z1]|(c0 & K1 & F1)], (Old y d Hy E2) as [[-> Z2]|(d0 & K2 & F2)]; [done| | |by apply (Hr x y c0 d0)].
    + by rewrite Z1, lookup_empty in K2.
    + by rewrite Z2, lookup_empty in K1.
  - intros x c q d Hc E Hq. destruct (decide (x = p)) as [->|N].
    + rewrite Hp in Hc. injection Hc as <-. destruct (Hok' p b Hp) as [_ Hh]. rewrite E in Hh. destruct Hh as [(d' & Hq' & Eh) _].
      destruct (decide (q = p)) as [->|Nq]; [rewrite Hp in Hq'; injection Hq' as <-; lia|].
      destruct (grown_back q d Hq Nq) as (d0 & Hq0 & (_ & _ & _ & _ & E5 & _)%node_fields & _). rewrite E5. by apply (Hrise q).
    + destruct (grown_back x c Hc N) as (c0 & Hc0 & (_ & Ep & _ & _ & Ew & _)%node_fields & _).
      assert (Kq : is_Some (H !! q)) by (apply (parent_known H x c0); [done|done|congruence]). destruct Kq as [d0 Hq0].
      destruct (grown_lookup q d0 Hq0) as (d' & Hq' & (_ & _ & _ & _ & E5 & _)%node_fields & _). assert (d' = d) as -> by congruence.
      rewrite Ew, E5. apply (Hg x c0 q d0); congruence.
  - intros x c Hc. destruct (decide (x = p)) as [->|N]; [rewrite Hp in Hc; by injection Hc as <-|].
    destruct (grown_back x c Hc N) as (c0 & Hc0 & (_ & _ & _ & _ & _ & ->)%node_fields & _). by apply (Hu x).
  - intros x c Hc. destruct (decide (x = p)) as [->|N].
    + rewrite Hp in Hc. injection Hc as <-. destruct Hb as (B1 & B2 & B3). split; rewrite ?B3; try done.
      * unfold have_data. by rewrite B1.
      * by rewrite B1.
      * unfold failed. by rewrite B1.
      * intros E. by apply Hroot.
    + destruct (grown_back x c Hc N) as (c0 & Hc0 & (Eh & Ep & _)%node_fields & (E1 & E2 & E3 & E4)%kept_fields & E5 & _).
      destruct (Hen x c0 Hc0) as [I1 I2 I3 I4 I4' I5 I6 I7]. split; rewrite ?E1, ?E2, ?E3, ?E4, ?E5, ?Ep, ?Eh; try done.
      * intros Nz. destruct (I2 Nz) as [L S]. assert (Kq : forall q, pprev c0 = Some q -> is_Some (H !! q)) by (intros q Eq; by apply (parent_known H x c0)).
        unfold parent_linked, below_tx in *. rewrite Ep. destruct (pprev c0) as [q|]; [|done]. split; [by apply grown_linked|]. cbn [mbind option_bind] in *.
        destruct (Kq q eq_refl) as [d Hq]. destruct (grown_lookup q d Hq) as (d' & -> & _ & _ & -> & _). by rewrite Hq in S.
      * intros F S. apply (I6 F). apply grown_sound; [by exists c0|done].
Qed.

Lemma grown_wait l : wait_inv [] H l -> wait_inv [] H' l.
Proof using All.
  intros [W1 W2 W3 W4]. split; [| |done|by intros x Hx%elem_of_nil].
  - intros k x Hx. destruct (W1 k x Hx) as (c & q & d & Hc & E & Ek & D & Z0 & Hq & Zd).
    destruct (grown_lookup x c Hc) as (c' & Hc' & (_ & Ep & _)%node_fields & (_ & _ & E3 & _)%kept_fields & E4 & _).
    destruct (grown_lookup q d Hq) as (d' & Hq' & _ & _ & E5 & _). exists c', q, d'. by rewrite Ep, E3, E4, E5.
  - intros x c Hc D Z0. destruct (decide (x = p)) as [->|N].
    { rewrite Hp in Hc. injection Hc as <-. destruct Hb as (B1 & _). unfold have_data in D. by rewrite B1 in D. }
    destruct (grown_back x c Hc N) as (c0 & Hc0 & (_ & Ep & _)%node_fields & (_ & _ & E3 & _)%kept_fields & E4 & _).
    destruct (W2 x c0 Hc0 ltac:(congruence) ltac:(congruence)) as [I|[I|(q & d & Eq & Hq & F)]]; [by apply elem_of_nil in I|rewrite Ep; right; by left|].
    right. right. destruct (grown_lookup q d Hq) as (d' & Hq' & _ & (_ & E2 & _)%kept_fields & _). exists q, d'. by rewrite Ep, E2.
Qed.

Lemma grown_cand floor c X : cand_inv accepts floor H c X -> tip_inv accepts H c -> cand_inv accepts floor H' c X.
Proof using All.
  intros [C1 C2 C3] [_ Ht]. split.
  - intros x Hx. by apply grown_linked, C1.
  - intros t x Et Hx. rewrite grown_worse; [by apply C2|by apply linked_known, C1|by apply linked_known, Ht].
  - assert (S' : forall x, linked H x -> sound accepts H' x <-> sound accepts H x) by (intros x L; by apply grown_sound, linked_known).
    destruct floor as [r|].
    + destruct C3 as (I & Sr & All). split; [done|]. split; [by apply S'; [apply C1|]|]. intros x L%grown_linked Sx N. apply All; [done|by apply S'|].
      rewrite <- N. symmetry. apply grown_worse; apply linked_known; [done|by apply C1].
    + destruct C3 as [E All]. split; [done|]. intros x L%grown_linked Sx. apply All; [done|by apply S'].
Qed.

Lemma grown_tip c : tip_inv accepts H c -> tip_inv accepts H' c.
Proof using All.
  intros [Hc Ht]. split; [by apply (chain_ok_extends H); [apply Hi| |]|]. intros t Et. destruct (Ht t Et) as [L S].
  split; [by apply grown_linked|]. apply grown_sound; [by apply linked_known|done].
Qed.

Lemma grown_forks best f : fork_inv H best f -> fork_inv H' best f.
Proof using He.
  assert (K : forall x, known_opt H x -> known_opt H' x).
  { intros [x|]; [|done]. intros [c Hx]. destruct (grown_lookup x c Hx) as (c' & ? & _). by exists c'. }
  intros (K1 & K2 & K3). split; [by apply K|]. split; by apply K.
Qed.
(** The counts of the chains stay. *)
Lemma grown_count n : forall x, is_Some (H !! x) -> chain_tx H' n x = chain_tx H n x.
Proof using Hi He.
  induction n as [|n IH]; intros x [c Hx]; [done|]. cbn [chain_tx]. rewrite Hx.
  destruct (grown_lookup x c Hx) as (c' & -> & (_ & Ep & _)%node_fields & (E & _)%kept_fields & _). rewrite E, Ep.
  destruct (pprev c) as [q|] eqn:Eq; [|done]. by rewrite (IH q (parent_known H x c q (hi_index _ _ Hi) Hx Eq)).
Qed.

Lemma grown_counts m : 0 < m -> counts_below H m -> counts_below H' m.
Proof using All.
  intros Hm C n x. destruct (decide (x = p)) as [->|N].
  - destruct n as [|n]; [done|]. cbn [chain_tx]. rewrite Hp. destruct Hb as (_ & -> & _). destruct (pprev b) as [q|] eqn:Eq; [|done].
    destruct (parent_known H' p b q Hok' Hp Eq) as [d Hq]. destruct (Hok' p b Hp) as [_ Hh]. rewrite Eq in Hh. destruct Hh as [(d' & Hq' & Eh) _].
    assert (Nq : q <> p) by (intros ->; replace d' with b in Eh by congruence; lia).
    destruct (Hd q) as [?|Kq]; [by exists d|done|]. rewrite Z.add_0_l, grown_count by done. apply C.
  - destruct (decide (is_Some (H' !! x))) as [K|K].
    + destruct (Hd x K) as [?|Kx]; [done|]. rewrite grown_count by done. apply C.
    + destruct n as [|n]; [done|]. cbn [chain_tx]. destruct (H' !! x) eqn:E; [by destruct K|done].
Qed.
End header.

(** ** Flags change *)

(** All that the invariant reads of an entry but the flags of failure. *)
Definition key_of (b : CBlockIndex) := (node_of b, nSequenceId b, nTx b, nChainTx b, have_data b).

Record kept (H H' : heap) : Prop := {
  k_keys : key_of <$> H = key_of <$> H';
  k_failed : forall p b b', H !! p = Some b -> H' !! p = Some b' -> failed b = true -> failed b' = true;
  k_tree : forall p b b', H !! p = Some b -> H' !! p = Some b' ->
    BLOCK_VALID_TREE <= Z.land (nStatus b) BLOCK_VALID_MASK -> BLOCK_VALID_TREE <= Z.land (nStatus b') BLOCK_VALID_MASK }.

Lemma kept_refl H : kept H H.
Proof. split; [done|congruence..]. Qed.

Lemma key_fields b b' : key_of b' = key_of b ->
  node_of b' = node_of b /\ nSequenceId b' = nSequenceId b /\ nTx b' = nTx b /\ nChainTx b' = nChainTx b /\ have_data b' = have_data b.
Proof. unfold key_of. intros E. injection E. intros. unfold node_of. repeat split; congruence. Qed.

Lemma kept_put (H : heap) p b b' : H !! p = Some b -> key_of b' = key_of b -> (failed b = true -> failed b' = true) ->
  (BLOCK_VALID_TREE <= Z.land (nStatus b) BLOCK_VALID_MASK -> BLOCK_VALID_TREE <= Z.land (nStatus b') BLOCK_VALID_MASK) -> kept H (<[p := b']> H).
Proof.
  intros Hp E F T. assert (L : forall x c c', H !! x = Some c -> <[p := b']> H !! x = Some c' -> x = p /\ c = b /\ c' = b' \/ c' = c).
  { intros x c c' Hc Hc'. destruct (decide (x = p)) as [->|N]; [rewrite lookup_insert_eq in Hc'|rewrite lookup_insert_ne in Hc' by done]; [left|right]; split_and?; congruence. }
  split.
  - rewrite fmap_insert, E. symmetry. apply insert_id. by rewrite lookup_fmap, Hp.
  - intros x c c' Hc Hc'. destruct (L x c c' Hc Hc') as [(-> & -> & ->)| ->]; auto.
  - intros x c c' Hc Hc'. destruct (L x c c' Hc Hc') as [(-> & -> & ->)| ->]; auto.
Qed.

Section kept.
Context (accepts : uint256 -> Prop) (H H' : heap) (HK : kept H H').

Lemma kept_tree : same_tree H H'.
Proof using HK.
  unfold same_tree. set (f := fun k : uint256 * option ptr * option ptr * Z * uint256 * index_header * Z * Z * Z * bool => k.1.1.1.1).
  change ((f ∘ key_of) <$> H = (f ∘ key_of) <$> H'). by rewrite !map_fmap_compose, (k_keys _ _ HK).
Qed.

Lemma kept_lookup p b : H !! p = Some b -> exists b', H' !! p = Some b' /\ key_of b' = key_of b.
Proof using HK.
  intros Hp. assert (E : (key_of <$> H') !! p = Some (key_of b)) by (rewrite <- (k_keys _ _ HK), lookup_fmap, Hp; done).
  rewrite lookup_fmap in E. destruct (H' !! p) as [b'|]; [|done]. injection E as E1 E2 E3 E4 E5 E6 E7 E8 E9 E10. exists b'. split; [done|].
  unfold key_of, node_of. congruence.
Qed.

Lemma kept_back p b' : H' !! p = Some b' -> exists b, H !! p = Some b /\ key_of b' = key_of b.
Proof using HK.
  intros Hp. assert (K : is_Some (H !! p)) by (apply (known_same H H' kept_tree); by exists b'). destruct K as [b Hb].
  destruct (kept_lookup p b Hb) as (b2 & Hb2 & E). exists b. split; [done|]. congruence.
Qed.

Lemma kept_linked p : linked H' p <-> linked H p.
Proof using HK.
  split; intros (b & Hb & N).
  - destruct (kept_back p b Hb) as (b' & Hb' & (_ & _ & _ & E & _)%key_fields). exists b'. split; [done|congruence].
  - destruct (kept_lookup p b Hb) as (b' & Hb' & (_ & _ & _ & E & _)%key_fields). exists b'. split; [done|congruence].
Qed.

Lemma kept_worse p q : worse H' p q = worse H p q.
Proof using HK.
  unfold worse, comparator. destruct (H !! p) as [a|] eqn:Ea.
  - destruct (kept_lookup p a Ea) as (a' & -> & ((_ & _ & _ & _ & E1 & _)%node_fields & E2 & _)%key_fields). destruct (H !! q) as [b|] eqn:Eb.
    + destruct (kept_lookup q b Eb) as (b' & -> & ((_ & _ & _ & _ & E3 & _)%node_fields & E4 & _)%key_fields). by rewrite E1, E2, E3, E4.
    + destruct (H' !! q) as [b'|] eqn:Eb'; [|done]. destruct (kept_back q b' Eb') as (b & Hb & _). congruence.
  - destruct (H' !! p) as [a'|] eqn:Ea'; [|done]. destruct (kept_back p a' Ea') as (a & Ha & _). congruence.
Qed.

Lemma kept_sound p : sound accepts H' p <-> sound accepts H p.
Proof using HK. apply sound_same, kept_tree. Qed.

Lemma kept_heap : heap_inv accepts H -> (forall p b', H' !! p = Some b' -> failed b' = true -> ~ sound accepts H p) -> heap_inv accepts H'.
Proof using HK.
  intros [Hx Hw Hr Hg Hu Hen] HF. pose proof kept_tree as HS. split.
  - by apply (index_ok_same H).
  - by apply (work_ok_same H).
  - intros x y c d Hc Hy E1 E2. destruct (same_tree_back H H' HS x c Hc) as (c' & Hc' & (_ & F1 & _)%node_fields).
    destruct (same_tree_back H H' HS y d Hy) as (d' & Hd'' & (_ & F2 & _)%node_fields). apply (Hr x y c' d'); congruence.
  - intros x c y d Hc E Hy. destruct (same_tree_back H H' HS x c Hc) as (c' & Hc' & (_ & F1 & _ & _ & F2 & _)%node_fields).
    destruct (same_tree_back H H' HS y d Hy) as (d' & Hy' & (_ & _ & _ & _ & F3 & _)%node_fields). rewrite F2, F3. apply (Hg x c' y d'); congruence.
  - intros x c Hc. destruct (same_tree_back H H' HS x c Hc) as (c' & Hc' & (_ & _ & _ & _ & _ & ->)%node_fields). by apply (Hu x).
  - intros x c Hc. destruct (kept_back x c Hc) as (c0 & Hc0 & ((Eh & Ep & _)%node_fields & _ & E2 & E3 & E4)%key_fields).
    destruct (Hen x c0 Hc0) as [I1 I2 I3 I4 I4' I5 I6 I7]. split; rewrite ?E2, ?E3, ?E4, ?Ep, ?Eh; try done.
    + intros Nz. destruct (I2 Nz) as [L S0]. unfold parent_linked, below_tx in *. rewrite Ep. destruct (pprev c0) as [q|] eqn:Eq; [|done].
      split; [by apply kept_linked|]. cbn [mbind option_bind] in *. destruct (parent_known H x c0 q Hx Hc0 Eq) as [d Hq].
      destruct (kept_lookup q d Hq) as (d' & -> & (_ & _ & _ & -> & _)%key_fields). by rewrite Hq in S0.
    + by apply (k_tree _ _ HK x c0).
    + intros F S0. by apply (HF x c Hc F), kept_sound.
Qed.

Lemma kept_wait l : wait_inv [] H l -> wait_inv [] H' l.
Proof using HK.
  intros [W1 W2 W3 W4]. split; [| |done|by intros x Hx%elem_of_nil].
  - intros k x Hx. destruct (W1 k x Hx) as (c & q & d & Hc & E & Ek & D & Z0 & Hq & Zd).
    destruct (kept_lookup x c Hc) as (c' & Hc' & ((_ & Ep & _)%node_fields & _ & _ & E3 & E4)%key_fields).
    destruct (kept_lookup q d Hq) as (d' & Hq' & (_ & _ & _ & E5 & _)%key_fields). exists c', q, d'. by rewrite Ep, E3, E4, E5.
  - intros x c Hc D Z0. destruct (kept_back x c Hc) as (c0 & Hc0 & ((_ & Ep & _)%node_fields & _ & _ & E3 & E4)%key_fields).
    destruct (W2 x c0 Hc0 ltac:(congruence) ltac:(congruence)) as [I|[I|(q & d & Eq & Hq & F)]]; [by apply elem_of_nil in I|rewrite Ep; right; by left|].
    right. right. destruct (kept_lookup q d Hq) as (d' & Hq' & _). exists q, d'. rewrite Ep. split; [done|]. split; [done|]. by apply (k_failed _ _ HK q d).
Qed.

Lemma kept_cand floor c X : cand_inv accepts floor H c X -> cand_inv accepts floor H' c X.
Proof using HK.
  intros [C1 C2 C3]. split.
  - intros x Hx. by apply kept_linked, C1.
  - intros t x. rewrite kept_worse. apply C2.
  - destruct floor as [r|]; setoid_rewrite kept_linked; setoid_rewrite kept_sound; [setoid_rewrite kept_worse|]; done.
Qed.

Lemma kept_tip c : tip_inv accepts H c -> tip_inv accepts H' c.
Proof using HK.
  intros [Hc Ht]. split; [apply (chain_ok_same H); [apply kept_tree|done]|]. intros t Et. rewrite kept_linked, kept_sound. by apply Ht.
Qed.
End kept.

Lemma kept_trans H1 H2 H3 : kept H1 H2 -> kept H2 H3 -> kept H1 H3.
Proof.
  intros K1 K2. split.
  - by rewrite (k_keys _ _ K1), (k_keys _ _ K2).
  - intros p b b' Hb Hb' F. destruct (kept_lookup _ _ K1 p b Hb) as (c & Hc & _). apply (k_failed _ _ K2 p c b' Hc Hb'). by apply (k_failed _ _ K1 p b).
  - intros p b b' Hb Hb' T. destruct (kept_lookup _ _ K1 p b Hb) as (c & Hc & _). apply (k_tree _ _ K2 p c b' Hc Hb'). by apply (k_tree _ _ K1 p b).
Qed.

(** A candidate that is not sound can go. *)
Lemma cand_erase accepts floor H c X p : cand_inv accepts floor H c X -> ~ sound accepts H p -> cand_inv accepts floor H c (X ∖ {[ p ]}).
Proof.
  intros [C1 C2 C3] Np. split.
  - intros x [Hx _]%elem_of_difference. by apply C1.
  - intros t x Et [Hx _]%elem_of_difference. by apply C2.
  - assert (D : forall x, sound accepts H x -> x ∈ X -> x ∈ X ∖ {[ p ]}).
    { intros x Sx Hx. apply elem_of_difference. split; [done|]. intros ->%elem_of_singleton. done. }
    destruct floor as [r|].
    + destruct C3 as (I & Sr & All). split; [by apply D|]. split; [done|]. intros x L Sx N. apply D; [done|by apply All].
    + destruct C3 as [E All]. split; [done|]. intros x L Sx. apply D; [done|by apply All].
Qed.
