(* ===== verification/BestChain.v ===== *)
(** * The best chain ([main.cpp])

    [ActivateBestChain] disconnects the blocks that are not on the best chain and connects
    those that are, in steps, and marks the blocks that [ConnectBlock] refuses.  The coins,
    the files, the memory pool and the wallet are behind the interface [Node].  The theorems
    say that the tip is the best of the entries whose chains are complete and acceptable. *)

From Stdlib Require Import ZArith Lia List Bool String.
From stdpp Require Import base option list gmap.
From S2P Require Import Prelude Uint256 Compact Serialize MerkleDamgard Hash Script Interpreter Effects Tx Params BlockIndex Pow Chain Block TxCheck CheckBlock Accept Candidates Linking.

Open Scope Z_scope.
Open Scope btc_scope.

Inductive FlushStateMode : Type := FLUSH_STATE_IF_NEEDED | FLUSH_STATE_PERIODIC | FLUSH_STATE_ALWAYS.

(** What the functions ask of the rest of the node. *)
Class Node (W : Type) : Type := {
  (** The block of an entry, with the right hash; [None] when it cannot be read. *)
  ReadBlockFromDisk : CBlockIndex -> W -> option CBlock;
  (** [CCoinsViewCache view(pcoinsTip)], [ConnectBlock] on it, [assert(view.Flush())]; the
      entry as [ConnectBlock] leaves it and whether it is to be written. *)
  ConnectView : CBlock -> CValidationState -> bool -> block_index -> CChain -> ptr -> W -> result failure unit * (CBlockIndex * bool) * W;
  (** The same with [DisconnectBlock]. *)
  DisconnectView : CBlock -> CValidationState -> block_index -> CChain -> ptr -> W -> result failure unit * W;
  (** With the entries to be written; those that are left. *)
  FlushStateToDisk : CValidationState -> FlushStateMode -> block_index -> CChain -> W -> result failure (list ptr) * W;
  (** [mempool.check(pcoinsTip)]; [mempool.removeForBlock]; [AcceptToMemoryPool] of the
      transactions of a block that is disconnected, [mempool.removeCoinbaseSpends]. *)
  mempool_check : W -> result failure unit;
  removeForBlock : CBlock -> Z -> W -> W;
  resurrect : CBlock -> Z -> block_index -> CChain -> W -> W;
  (** The rest of [UpdateTip]; [SyncWithWallets]; the notifications of the tip. *)
  tip_updated : block_index -> CChain -> W -> W;
  SyncWithWallets : CBlock -> bool -> W -> W;
  NotifyBlockTip : uint256 -> W -> W;
  (** The peer that sent an invalid block; [mapBlockSource.erase]. *)
  report_invalid : uint256 -> CValidationState -> W -> W;
  forget_source : uint256 -> W -> W;
  IsInitialBlockDownload : block_index -> CChain -> W -> bool }.

Section best_chain.
Context {W : Type} {N : Node W}.
Context (HashQuark : bytes -> uint256).
Abbreviation act := (eff (chain_state W) failure).

Definition on_world (f : W -> W) : act unit := update (fun s => set_world (f (cs_world s)) s).

(** ** Warnings about forks *)

Definition proof_of (b : CBlockIndex) : result failure uint256 :=
  match GetBlockProof (ih_nBits (header b)) with Ret w => Ret w | Err _ => Err Throws end.

Definition CheckForkWarningConditions : act unit :=
  do* s := get in
  if IsInitialBlockDownload (cs_index s) (cs_active s) (cs_world s) then eret tt else
  let f := cs_forks s in
  do* far := match pindexBestForkTip f with
             | None => eret false
             | Some p => do* b := load (Some p) in eret (Height (cs_active s) - nHeight b >=? 72)
             end in
  let forkTip := if far then None else pindexBestForkTip f in
  do* invalid := match forkTip, pindexBestInvalid s with
                 | None, Some p =>
                     do* b := load (Some p) in
                     do* t := load (Tip (cs_active s)) in
                     do* w := lift (proof_of t) in
                     eret (CompareTo (nChainWork b) (badd (nChainWork t) (bmul32 w 6)) >? 0)
                 | _, _ => eret false
                 end in
  update (set_forks (
    match forkTip, invalid with
    | None, false => mk_fork_state forkTip (pindexBestForkBase f) false false
    | Some _, _ => match pindexBestForkBase f with
                   | Some _ => mk_fork_state forkTip (pindexBestForkBase f) true (fLargeWorkInvalidChainFound f)
                   | None => mk_fork_state forkTip (pindexBestForkBase f) (fLargeWorkForkFound f) true
                   end
    | None, true => mk_fork_state forkTip (pindexBestForkBase f) (fLargeWorkForkFound f) true
    end)).

(** The loop that looks for the fork: [plonger] goes down to the height of [pfork], then
    [pfork] goes down by one. *)
Fixpoint lower (fuel : nat) (H : heap) (plonger : option ptr) (height : Z) : result failure (option ptr) :=
  match plonger with
  | None => Ret None
  | Some _ =>
      let* b := of_ptr (deref H plonger) in
      if nHeight b >? height
      then match fuel with O => Err Undefined | S fuel => lower fuel H (pprev b) height end
      else Ret plonger
  end.
Fixpoint find_fork (fuel : nat) (H : heap) (pfork plonger : option ptr) : result failure (option ptr) :=
  if bool_decide (pfork = None \/ pfork = plonger) then Ret pfork else
  match fuel with
  | O => Err Undefined
  | S fuel =>
      let* b := of_ptr (deref H pfork) in
      let* plonger := match plonger with None => Ret None | Some _ => let* e := of_ptr (deref H plonger) in lower (Z.to_nat (nHeight e)) H plonger (nHeight b) end in
      if bool_decide (pfork = plonger) then Ret pfork else find_fork fuel H (pprev b) plonger
  end.

Definition CheckForkWarningConditionsOnNewFork (pindexNewForkTip : ptr) : act unit :=
  do* s := get in
  do* b := load (Some pindexNewForkTip) in
  do* pfork := lift (find_fork (Z.to_nat (nHeight b + 1)) (cs_heap s) (Some pindexNewForkTip) (Tip (cs_active s))) in
  do* large := match pfork with
               | None => eret false
               | Some p =>
                   do* e := load (Some p) in
                   do* higher := match pindexBestForkTip (cs_forks s) with
                                 | None => eret true
                                 | Some q => do* t := load (Some q) in eret (nHeight b >? nHeight t)
                                 end in
                   if negb higher then eret false else
                   do* w := lift (proof_of e) in
                   eret ((CompareTo (bsub (nChainWork b) (nChainWork e)) (bmul32 w 7) >? 0) && (Height (cs_active s) - nHeight b <? 72))
               end in
  do* _ := update (if large then set_forks (mk_fork_state (Some pindexNewForkTip) pfork (fLargeWorkForkFound (cs_forks s)) (fLargeWorkInvalidChainFound (cs_forks s))) else id) in
  CheckForkWarningConditions.

(** [InvalidChainFound] writes the tip to the log. *)
Definition InvalidChainFound (p : ptr) : act unit :=
  do* x := more_invalid p in
  do* _ := update (if x then set_best_invalid (Some p) else id) in
  do* s := get in
  do* _ := load (Tip (cs_active s)) in
  CheckForkWarningConditions.

Definition InvalidBlockFound (p : ptr) (state : CValidationState) : act unit :=
  do* b := load (Some p) in
  do* _ := (if IsInvalid state then on_world (report_invalid (blockHash b) state) else eret tt) in
  if corruptionPossible state then eret tt else
  do* _ := update (put p (with_status b (Z.lor (nStatus b) BLOCK_FAILED_VALID))) in
  do* _ := update (mark_dirty p) in
  do* _ := update (erase p) in
  InvalidChainFound p.

(** ** Moving the tip by one block *)

Definition UpdateTip (p : option ptr) : act unit :=
  do* s := get in
  do* c := lift (of_ptr (SetTip (cs_heap s) p (cs_active s))) in
  do* _ := update (set_active c) in
  do* _ := on_world (tip_updated (cs_index s) c) in
  do* _ := load (Tip c) in
  eret tt.

Definition check_mempool : act unit := fun s => (mempool_check (cs_world s), s).

Definition flush (state : CValidationState) (mode : FlushStateMode) : act unit := fun s =>
  let I := cs_index s in
  match FlushStateToDisk state mode I (cs_active s) (cs_world s) with
  | (Ret dirty, w) => (Ret tt, set_world w (set_index (mk_index (entries I) (mapBlockIndex I) (pindexBestHeader I) dirty) s))
  | (Err e, w) => (Err e, set_world w s)
  end.

Definition read_block (p : ptr) (state : CValidationState) : act CBlock :=
  do* b := load (Some p) in
  do* s := get in
  match ReadBlockFromDisk b (cs_world s) with
  | Some block => eret block
  | None => throw (Rejected (StateError "Failed to read block" state))
  end.

Definition DisconnectTip (state : CValidationState) : act unit :=
  do* s := get in
  match Tip (cs_active s) with
  | None => throw Asserts
  | Some p =>
      do* _ := check_mempool in
      do* block := read_block p state in
      do* _ := (fun s => let '(r, w) := DisconnectView block state (cs_index s) (cs_active s) p (cs_world s) in (r, set_world w s)) in
      do* _ := flush state FLUSH_STATE_ALWAYS in
      do* b := load (Some p) in
      do* s := get in
      do* _ := on_world (resurrect block (nHeight b) (cs_index s) (cs_active s)) in
      do* _ := check_mempool in
      do* _ := UpdateTip (pprev b) in
      on_world (SyncWithWallets block false)
  end.

(** [ConnectBlock] and what it does to the entry; its verdict is a value. *)
Definition connect_view (block : CBlock) (state : CValidationState) (fAlreadyChecked : bool) (p : ptr) : act (result failure unit) := fun s =>
  let '(r, (b, dirty), w) := ConnectView block state fAlreadyChecked (cs_index s) (cs_active s) p (cs_world s) in
  let s := set_world w (put p b s) in
  (Ret r, if dirty then mark_dirty p s else s).

Definition ConnectTip (state : CValidationState) (p : ptr) (pblock : option CBlock) (fAlreadyChecked : bool) : act unit :=
  do* b := load (Some p) in
  do* s := get in
  if negb (bool_decide (pprev b = Tip (cs_active s))) then throw Asserts else
  do* _ := check_mempool in
  do* block := match pblock with Some block => eret block | None => read_block p state end in
  do* r := connect_view block state (match pblock with Some _ => fAlreadyChecked | None => false end) p in
  match r with
  | Err (Rejected state) => do* _ := (if IsInvalid state then InvalidBlockFound p state else eret tt) in throw (Rejected state)
  | Err e => throw e
  | Ret _ =>
      do* _ := on_world (forget_source (blockHash b)) in
      do* b := load (Some p) in
      do* mode := match pprev b with
                  | None => eret FLUSH_STATE_IF_NEEDED
                  | Some q => do* e := load (Some q) in
                      eret (if bool_decide ((GetBlockPos b).1 = (GetBlockPos e).1) then FLUSH_STATE_IF_NEEDED else FLUSH_STATE_ALWAYS)
                  end in
      do* _ := flush state mode in
      do* _ := on_world (removeForBlock block (nHeight b)) in
      do* _ := check_mempool in
      do* _ := UpdateTip (Some p) in
      on_world (SyncWithWallets block true)
  end.

(** ** [ActivateBestChainStep] *)

(** [while (chainActive.Tip() && chainActive.Tip() != pindexFork)]: the chain gets shorter
    each turn. *)
Fixpoint disconnect_to (fuel : nat) (pindexFork : option ptr) (state : CValidationState) : act unit :=
  do* s := get in
  if bool_decide (Tip (cs_active s) = None \/ Tip (cs_active s) = pindexFork) then eret tt else
  match fuel with
  | O => throw Undefined
  | S fuel => do* _ := DisconnectTip state in disconnect_to fuel pindexFork state
  end.

(** [vpindexToConnect]: from the entry down to above [nHeight]. *)
Fixpoint to_connect (fuel : nat) (H : heap) (pindexIter : option ptr) (height : Z) : result failure (list ptr) :=
  match pindexIter with
  | None => Ret []
  | Some p =>
      let* b := of_ptr (deref H pindexIter) in
      if nHeight b =? height then Ret [] else
      match fuel with
      | O => Err Undefined
      | S fuel => let* l := to_connect fuel H (pprev b) height in Ret (p :: l)
      end
  end.

(** How the loop over a batch ends: with the next batch, because the tip is better than it
    was, or at a block that is invalid. *)
Inductive progress : Type := More | Better | Invalid_found.

(** The batch in the order of connection; [pfront] is the head of [vpindexToConnect]. *)
Fixpoint connect_batch (l : list ptr) (pfront mostWork : ptr) (pblock : option CBlock) (fAlreadyChecked : bool) (oldTip : option ptr)
    (state : CValidationState) : act progress :=
  match l with
  | [] => eret More
  | p :: l => fun s =>
      match ConnectTip state p (if bool_decide (p = mostWork) then pblock else None) fAlreadyChecked s with
      | (Err (Rejected state), s) =>
          if IsInvalid state then
            (do* _ := (if negb (corruptionPossible state) then InvalidChainFound pfront else eret tt) in eret Invalid_found) s
          else (Err (Rejected state), s)
      | (Err e, s) => (Err e, s)
      | (Ret _, s) =>
          (do* _ := PruneBlockIndexCandidates in
           do* better := match oldTip with
                         | None => eret true
                         | Some q =>
                             do* s := get in
                             do* t := load (Tip (cs_active s)) in
                             do* o := load (Some q) in
                             eret (CompareTo (nChainWork t) (nChainWork o) >? 0)
                         end in
           if better then eret Better else connect_batch l pfront mostWork pblock fAlreadyChecked oldTip state) s
      end
  end.

(** The batches of at most 32 blocks; the result says whether a block was invalid, and which
    is the lowest of the last batch.  A batch brings [nHeight] closer to the height of
    [mostWork], which bounds the turns. *)
Fixpoint connect_batches (fuel : nat) (height : Z) (mostWork : ptr) (pblock : option CBlock) (fAlreadyChecked : bool) (oldTip : option ptr)
    (state : CValidationState) : act (option ptr) :=
  do* m := load (Some mostWork) in
  if height =? nHeight m then eret None else
  match fuel with
  | O => throw Undefined
  | S fuel =>
      let nTargetHeight := Z.min (height + 32) (nHeight m) in
      do* s := get in
      do* pindexIter := lift (of_ptr (GetAncestor (cs_heap s) mostWork nTargetHeight)) in
      do* l := lift (to_connect 32 (cs_heap s) pindexIter height) in
      do* r := match l with
               | [] => eret More
               | pfront :: _ => connect_batch (rev l) pfront mostWork pblock fAlreadyChecked oldTip state
               end in
      match r with
      | More => connect_batches fuel nTargetHeight mostWork pblock fAlreadyChecked oldTip state
      | Better => eret None
      | Invalid_found => eret (last l)
      end
  end.

(** [fInvalidFound]; the state given is reset when it is set. *)
Definition ActivateBestChainStep (state : CValidationState) (mostWork : ptr) (pblock : option CBlock) (fAlreadyChecked : bool) : act bool :=
  do* s := get in
  let oldTip := Tip (cs_active s) in
  do* pindexFork := lift (of_ptr (FindFork (cs_heap s) (cs_active s) (Some mostWork))) in
  do* _ := disconnect_to (length (cs_active s)) pindexFork state in
  do* nHeight0 := match pindexFork with None => eret (-1) | Some p => do* b := load (Some p) in eret (nHeight b) end in
  do* m := load (Some mostWork) in
  do* found := connect_batches (Z.to_nat (nHeight m - nHeight0)) nHeight0 mostWork pblock fAlreadyChecked oldTip state in
  match found with
  | Some p => do* _ := CheckForkWarningConditionsOnNewFork p in eret true
  | None => do* _ := CheckForkWarningConditions in eret false
  end.

(** ** [ActivateBestChain] *)

(** [do ... while (pindexMostWork != pindexNewTip)]. *)
Fixpoint ActivateBestChain_loop (fuel : nat) (state : CValidationState) (pblock : option CBlock) (fAlreadyChecked : bool) : act unit :=
  match fuel with
  | O => throw Undefined
  | S fuel =>
      do* oldTip := gets (fun s => Tip (cs_active s)) in
      do* most := FindMostWorkChain in
      match most with
      | None => eret tt
      | Some m =>
          if bool_decide (oldTip = Some m) then eret tt else
          do* e := load (Some m) in
          let blk := match pblock with
                     | Some b => if bool_decide (CBlockHeader_GetHash HashQuark b = blockHash e) then Some b else None
                     | None => None
                     end in
          do* fInvalidFound := ActivateBestChainStep state m blk fAlreadyChecked in
          do* s := get in
          do* t := load (Tip (cs_active s)) in
          do* pindexFork := (if nHeight t <? 1 then eret None else lift (of_ptr (FindFork (cs_heap s) (cs_active s) oldTip))) in
          do* _ := (if negb (bool_decide (pindexFork = Tip (cs_active s))) then on_world (NotifyBlockTip (blockHash t)) else eret tt) in
          if negb fInvalidFound && bool_decide (Tip (cs_active s) = Some m)
          then flush state FLUSH_STATE_PERIODIC
          else ActivateBestChain_loop fuel (if fInvalidFound then CValidationState_new else state) pblock fAlreadyChecked
      end
  end.

(** Each turn either marks an entry as failed or gives the tip more work. *)
Definition ActivateBestChain (state : CValidationState) (pblock : option CBlock) (fAlreadyChecked : bool) : act unit :=
  do* n := gets (fun s => size (cs_heap s)) in
  ActivateBestChain_loop (S n * S n) state pblock fAlreadyChecked.
End best_chain.

(** ** What the rest of the node does *)

(** The entries from [t] down are the same in both stores. *)
Definition agrees (H H' : heap) (t : option ptr) : Prop :=
  forall p q b, t = Some p -> is_ancestor H q p -> H !! q = Some b -> exists b', H' !! q = Some b' /\ node_of b' = node_of b.

(** The laws of the interface, for blocks that are known by their hashes: [at_tip] says that the coins are those of the chain that ends
    at an entry.  [ConnectBlock] on a block that belongs to its entry ([genuine]) succeeds or
    calls the block invalid according to [accepts], and never for a corrupted copy; no other call
    calls a block invalid.  [X] are the accidents that the calls may end with, and [stopped]
    the states they leave when they fail for another reason: a file cannot be read or
    written, the disk is full. *)
Class NodeOk (W : Type) {N : Node W} (accepts : uint256 -> Prop) (genuine : uint256 -> CBlock -> Prop) (X : failure -> Prop) : Type := {
  at_tip : heap -> option ptr -> W -> Prop;
  stopped : CValidationState -> bool;
  stopped_valid st : stopped st = true -> IsInvalid st = false;
  at_tip_agrees H H' t w : agrees H H' t -> at_tip H t w -> at_tip H' t w;
  read_genuine I p b w block : entries I !! p = Some b -> ReadBlockFromDisk b w = Some block -> genuine (blockHash b) block;
  read_fails b w st : ReadBlockFromDisk b w = None -> IsInvalid st = false -> stopped (StateError "Failed to read block" st) = true;
  connect_ok I c p b w block st checked r b' dirty w' : entries I !! p = Some b -> genuine (blockHash b) block -> Tip c = pprev b ->
    at_tip (entries I) (pprev b) w -> IsInvalid st = false -> ConnectView block st checked I c p w = (r, (b', dirty), w') ->
    key_of b' = key_of b /\ failed b' = failed b /\
    (BLOCK_VALID_TREE <= Z.land (nStatus b) BLOCK_VALID_MASK -> BLOCK_VALID_TREE <= Z.land (nStatus b') BLOCK_VALID_MASK) /\
    match r with
    | Ret _ => accepts (blockHash b) /\ at_tip (entries I) (Some p) w'
    | Err (Rejected st') => at_tip (entries I) (pprev b) w' /\ (IsInvalid st' = true -> ~ accepts (blockHash b) /\ corruptionPossible st' = false) /\
        (IsInvalid st' = false -> stopped st' = true)
    | Err e => X e
    end;
  disconnect_ok I c p b w block st r w' : entries I !! p = Some b -> genuine (blockHash b) block -> Tip c = Some p ->
    at_tip (entries I) (Some p) w -> IsInvalid st = false -> DisconnectView block st I c p w = (r, w') ->
    match r with
    | Ret _ => at_tip (entries I) (pprev b) w'
    | Err (Rejected st') => IsInvalid st' = false /\ stopped st' = true
    | Err e => X e
    end;
  flush_ok st mode I c w r w' : IsInvalid st = false -> FlushStateToDisk st mode I c w = (r, w') ->
    match r with
    | Ret _ => forall H t, at_tip H t w -> at_tip H t w'
    | Err (Rejected st') => IsInvalid st' = false /\ stopped st' = true
    | Err e => X e
    end;
  mempool_ok w e : mempool_check w = Err e -> X e;
  accident st : ~ X (Rejected st);
  aside_ok H t w : at_tip H t w ->
    (forall block h, at_tip H t (removeForBlock block h w)) /\ (forall block h I c, at_tip H t (resurrect block h I c w)) /\
    (forall I c, at_tip H t (tip_updated I c w)) /\ (forall block x, at_tip H t (SyncWithWallets block x w)) /\
    (forall h, at_tip H t (NotifyBlockTip h w)) /\ (forall h st, at_tip H t (report_invalid h st w)) /\
    (forall h, at_tip H t (forget_source h w)) }.

Section proofs.
Context {W : Type} {N : Node W} (HashQuark : bytes -> uint256) (accepts : uint256 -> Prop) (genuine : uint256 -> CBlock -> Prop) (X : failure -> Prop).
Context {NOk : NodeOk W accepts genuine X}.

(** A call fails by an accident of the node, or with the state that a call to the node left,
    which does not call a block invalid. *)
Definition stops (e : failure) (_ : chain_state W) : Prop := X e \/ exists st, e = Rejected st /\ IsInvalid st = false /\ stopped st = true.

Abbreviation Inv floor s := (chain_inv accepts floor [] s).
Abbreviation at_own_tip s := (at_tip (cs_heap s) (Tip (cs_active s)) (cs_world s)).

Lemma at_tip_same H H' t w : same_tree H H' -> at_tip H t w -> at_tip H' t w.
Proof using. intros HS. apply at_tip_agrees. intros p q b _ _ Hq. by apply (same_tree_lookup H H' HS). Qed.

Lemma load_run (s : chain_state W) p b : cs_heap s !! p = Some b -> load (Some p) s = (Ret b, s).
Proof using. intros Hp. unfold load. by rewrite (deref_Some _ p b Hp). Qed.

(** ** The warnings change nothing else *)

Lemma proof_of_ok H p b : heap_inv accepts H -> H !! p = Some b -> exists w, proof_of b = Ret w.
Proof using.
  intros Hi Hp. destruct (GetBlockProof_spec _ (hi_bits _ _ Hi p b Hp)) as (w & E & _). exists w. unfold proof_of. by rewrite E.
Qed.

(** After a call that only warns. *)
Definition warned (s s' : chain_state W) : Prop :=
  exists f, s' = set_forks f s /\ fork_inv (cs_heap s) (pindexBestInvalid s) f.

Lemma CheckForkWarningConditions_ok floor s t : Inv floor s -> Tip (cs_active s) = Some t ->
  runs stops CheckForkWarningConditions s (fun _ s' => warned s s').
Proof using.
  intros Hs Et. pose proof (ch_forks _ _ _ _ Hs) as HF. pose proof HF as (K1 & K2 & K3).
  assert (Same : warned s s) by (exists (cs_forks s); split; [by destruct s|done]).
  unfold CheckForkWarningConditions. eapply runs_step; [done|]. cbv beta.
  destruct (IsInitialBlockDownload _ _ _); [exact Same|].
  assert (Far : exists far : bool, (match pindexBestForkTip (cs_forks s) with None => eret false
      | Some p => do* b := load (Some p) in eret (Height (cs_active s) - nHeight b >=? 72) end : eff (chain_state W) failure bool) s = (Ret far, s)).
  { destruct (pindexBestForkTip (cs_forks s)) as [p|]; [|by exists false]. destruct K2 as [b Hb]. unfold ebind. rewrite (load_run s p b Hb). by eexists. }
  destruct Far as [far Far]. eapply runs_step; [exact Far|]. cbv beta zeta. set (forkTip := if far then None else pindexBestForkTip (cs_forks s)).
  assert (K2' : known_opt (cs_heap s) forkTip) by (unfold forkTip; by destruct far).
  assert (Inval : exists x : bool, (match forkTip, pindexBestInvalid s with
      | None, Some p => do* b := load (Some p) in do* t := load (Tip (cs_active s)) in do* w := lift (proof_of t) in
          eret (CompareTo (nChainWork b) (badd (nChainWork t) (bmul32 w 6)) >? 0)
      | _, _ => eret false end : eff (chain_state W) failure bool) s = (Ret x, s)).
  { destruct forkTip; [by exists false|]. destruct (pindexBestInvalid s) as [p|]; [|by exists false]. destruct K1 as [b Hb].
    destruct (ch_tip _ _ _ _ Hs) as [_ Ht]. destruct (Ht t Et) as [(bt & Hbt & _) _].
    destruct (proof_of_ok (cs_heap s) t bt (ch_heap _ _ _ _ Hs) Hbt) as [w Ew]. rewrite Et. unfold ebind, lift.
    rewrite (load_run s p b Hb), (load_run s t bt Hbt), Ew. by eexists. }
  destruct Inval as [x Inval]. eapply runs_step; [exact Inval|]. cbv beta. apply runs_update. eexists. split; [reflexivity|]. split; [done|].
  revert K3. destruct forkTip; [destruct (pindexBestForkBase (cs_forks s))|destruct x]; cbn; intros K3; by split.
Qed.
Lemma lower_ok H fuel p b h : index_ok H -> H !! p = Some b -> nHeight b - h <= Z.of_nat fuel -> 0 <= h -> 
  exists r, lower fuel H (Some p) h = Ret r /\ known_opt H r.
Proof using.
  intros Hok. revert p b. induction fuel as [|fuel IH]; intros p b Hp L Hh; cbn [lower]; rewrite (deref_Some H p b Hp); cbn [of_ptr result_bind];
    rewrite Z.gtb_ltb; (destruct (Z.ltb_spec h (nHeight b)); [|exists (Some p); split; [done|by exists b]]); [lia|].
  destruct (Hok p b Hp) as [Hr Hb]. destruct (pprev b) as [q|]; [|exists None; by destruct fuel].
  destruct Hb as [(c & Hq & Eh) _]. apply (IH q c); [done|lia|done].
Qed.

Lemma find_fork_ok H fuel p b pl : index_ok H -> H !! p = Some b -> known_opt H pl -> nHeight b < Z.of_nat fuel ->
  exists r, find_fork fuel H (Some p) pl = Ret r /\ known_opt H r.
Proof using.
  intros Hok. revert p b pl. induction fuel as [|fuel IH]; intros p b pl Hp Kp L; [destruct (Hok p b Hp); lia|]. cbn [find_fork].
  case_bool_decide as D; [exists (Some p); split; [done|by exists b]|]. rewrite (deref_Some H p b Hp). cbn [of_ptr result_bind].
  destruct (Hok p b Hp) as [Hr Hb].
  assert (Lo : exists r, (match pl with None => Ret None | Some _ => let* e := of_ptr (deref H pl) in lower (Z.to_nat (nHeight e)) H pl (nHeight b) end) = Ret r /\ known_opt H r).
  { destruct pl as [q|]; [|by exists None]. destruct Kp as [e He]. rewrite (deref_Some H q e He). cbn [of_ptr result_bind].
    destruct (Hok q e He). apply (lower_ok H _ q e); [done|done|lia|lia]. }
  destruct Lo as (r & -> & Kr). cbn [result_bind]. case_bool_decide; [exists (Some p); split; [done|by exists b]|].
  destruct (pprev b) as [q|]; [|exists None; by destruct fuel]. destruct Hb as [(c & Hq & Eh) _]. apply (IH q c); [done|done|lia].
Qed.

Lemma chain_inv_forks floor (s : chain_state W) best f : Inv floor s -> fork_inv (cs_heap s) best f -> Inv floor (set_forks f (set_best_invalid best s)).
Proof using. by intros [M B Hi Hw Hc Ht _] HF. Qed.

Lemma warned_inv floor s s' : Inv floor s -> warned s s' -> Inv floor s'.
Proof using. intros [M B Hi Hw Hc Ht _] (f & -> & HF). done. Qed.

Lemma InvalidChainFound_ok floor s p t : Inv floor s -> is_Some (cs_heap s !! p) -> Tip (cs_active s) = Some t ->
  runs stops (InvalidChainFound p) s (fun _ s' => exists best f, s' = set_forks f (set_best_invalid best s) /\ fork_inv (cs_heap s) best f).
Proof using.
  intros Hs [b Hp] Et. destruct (ch_forks _ _ _ _ Hs) as (K1 & K2 & K3). destruct (ch_tip _ _ _ _ Hs) as [_ Ht]. destruct (Ht t Et) as [(bt & Hbt & _) _].
  assert (M : exists x : bool, more_invalid p s = (Ret x, s)).
  { unfold more_invalid, ebind, gets. rewrite (load_run s p b Hp). destruct (pindexBestInvalid s) as [q|]; [|by exists true].
    destruct K1 as [e He]. rewrite (load_run s q e He). by eexists. }
  destruct M as [x M]. unfold InvalidChainFound. eapply runs_step; [exact M|]. eapply runs_step; [done|]. cbv beta.
  set (best := if x then Some p else pindexBestInvalid s).
  set (s1 := (if x then set_best_invalid (Some p) else id) s).
  assert (E1 : s1 = set_best_invalid best s) by (unfold s1, best; destruct x; [done|by destruct s]).
  assert (HF : fork_inv (cs_heap s) best (cs_forks s)) by (unfold best; destruct x; repeat split; try done; by exists b).
  rewrite E1. eapply runs_step; [done|]. cbv beta. eapply runs_step; [change (cs_active (set_best_invalid best s)) with (cs_active s); rewrite Et; by apply (load_run _ t bt)|]. cbv beta.
  assert (Hs1 : Inv floor (set_best_invalid best s)) by (destruct Hs; done).
  eapply runs_conseq; [by apply (CheckForkWarningConditions_ok floor _ t)|]. intros _ s' (f & -> & HF'). by exists best, f.
Qed.

Lemma CheckForkWarningConditionsOnNewFork_ok floor s p t : Inv floor s -> is_Some (cs_heap s !! p) -> Tip (cs_active s) = Some t ->
  runs stops (CheckForkWarningConditionsOnNewFork p) s (fun _ s' => warned s s').
Proof using.
  intros Hs [b Hp] Et. destruct (ch_forks _ _ _ _ Hs) as (K1 & K2 & K3). pose proof (hi_index _ _ (ch_heap _ _ _ _ Hs)) as Hok.
  destruct (ch_tip _ _ _ _ Hs) as [_ Ht]. destruct (Ht t Et) as [(bt & Hbt & _) _]. destruct (Hok p b Hp) as [Hr _].
  unfold CheckForkWarningConditionsOnNewFork. eapply runs_step; [done|]. cbv beta. eapply runs_step; [by apply load_run|]. cbv beta.
  destruct (find_fork_ok (cs_heap s) (Z.to_nat (nHeight b + 1)) p b (Tip (cs_active s)) Hok Hp) as (r & Er & Kr); [rewrite Et; by exists bt|lia|].
  eapply runs_step; [unfold lift; by rewrite Er|]. cbv beta.
  match goal with |- runs _ (ebind ?m _) _ _ => assert (L : exists x : bool, m s = (Ret x, s) /\ (x = true -> is_Some r)) end.
  { destruct r as [q|]; [|by exists false]. destruct Kr as [e He]. unfold ebind. rewrite (load_run s q e He).
    destruct (proof_of_ok (cs_heap s) q e (ch_heap _ _ _ _ Hs) He) as [w Ew].
    destruct (pindexBestForkTip (cs_forks s)) as [y|]; [destruct K2 as [c Hc]; rewrite (load_run s y c Hc)|]; cbn [eret].
    - unfold eret. destruct (negb _); [by exists false|]. unfold lift. rewrite Ew. by eexists.
    - unfold eret, lift. cbn [negb]. rewrite Ew. by eexists. }
  destruct L as (x & L & Rx). eapply runs_step; [exact L|]. eapply runs_step; [done|]. cbv beta.
  assert (E : exists f, (if x then set_forks (mk_fork_state (Some p) r (fLargeWorkForkFound (cs_forks s)) (fLargeWorkInvalidChainFound (cs_forks s))) else id) s = set_forks f s /\
    fork_inv (cs_heap s) (pindexBestInvalid s) f).
  { destruct x; [eexists; split; [reflexivity|]; repeat split; [done|by exists b|done]|]. exists (cs_forks s). by destruct s. }
  destruct E as (f & -> & HF). assert (Hs1 : Inv floor (set_forks f s)) by (destruct Hs; done).
  eapply runs_conseq; [by apply (CheckForkWarningConditions_ok floor _ t)|]. intros _ s' (f' & -> & HF'). by exists f'.
Qed.

(** ** An entry is marked as failed *)

Lemma fail_entry flag b : flag = BLOCK_FAILED_VALID \/ flag = BLOCK_FAILED_CHILD -> let b' := with_status b (Z.lor (nStatus b) flag) in
  key_of b' = key_of b /\ failed b' = true /\ Z.land (nStatus b') BLOCK_VALID_MASK = Z.land (nStatus b) BLOCK_VALID_MASK.
Proof using.
  intros HF b'. assert (F0 : Z.land flag BLOCK_HAVE_DATA = 0 /\ Z.land flag BLOCK_VALID_MASK = 0 /\ 0 < Z.land flag BLOCK_FAILED_MASK) by (by destruct HF as [->| ->]).
  destruct F0 as (F1 & F2 & F3). unfold b', key_of, have_data, failed. cbn [with_status nStatus nTx nChainTx nSequenceId].
  rewrite !Z.land_lor_distr_l, F1, F2, !Z.lor_0_r. split; [done|]. split; [|done].
  destruct (Z.eqb_spec (Z.lor (Z.land (nStatus b) BLOCK_FAILED_MASK) (Z.land flag BLOCK_FAILED_MASK)) 0) as [E|]; [|done].
  apply Z.lor_eq_0_iff in E. lia.
Qed.

Lemma mark_failed floor (s : chain_state W) flag p b : Inv floor s -> cs_heap s !! p = Some b -> ~ sound accepts (cs_heap s) p ->
  flag = BLOCK_FAILED_VALID \/ flag = BLOCK_FAILED_CHILD -> let s' := put p (with_status b (Z.lor (nStatus b) flag)) s in
  Inv floor s' /\ kept (cs_heap s) (cs_heap s').
Proof using.
  intros [M B Hi Hw Hc Ht Hf] Hp Np HF s'. destruct (fail_entry flag b HF) as (E1 & E2 & E3).
  assert (K : kept (cs_heap s) (cs_heap s')) by (apply (kept_put _ p b); [done|done|done|by rewrite E3]).
  split; [|done]. pose proof (kept_tree _ _ K) as HS. split.
  - by apply (map_ok_same (cs_heap s)).
  - by apply (best_ok_same (cs_heap s)).
  - apply (kept_heap _ (cs_heap s)); [done|done|]. intros x b' Hx F. destruct (decide (x = p)) as [->|Nx]; [done|].
    change (<[p := with_status b (Z.lor (nStatus b) flag)]> (cs_heap s) !! x = Some b') in Hx. rewrite lookup_insert_ne in Hx by done.
    by apply (ei_flag _ _ _ _ (hi_entries _ _ Hi x b' Hx)).
  - by apply (kept_wait (cs_heap s)).
  - by apply (kept_cand _ (cs_heap s)).
  - by apply (kept_tip _ (cs_heap s)).
  - by apply (fork_inv_same (cs_heap s)).
Qed.

(** After a call that leaves the tip where it is. *)
Record steady (floor : option ptr) (s s' : chain_state W) : Prop := {
  st_inv : Inv floor s';
  st_kept : kept (cs_heap s) (cs_heap s');
  st_active : cs_active s' = cs_active s;
  st_tip : at_own_tip s';
  st_cand : setBlockIndexCandidates s' ⊆ setBlockIndexCandidates s }.

Lemma steady_refl floor s : Inv floor s -> at_own_tip s -> steady floor s s.
Proof using. intros Hs Ht. split; [done|apply kept_refl|done|done|done]. Qed.

Lemma steady_trans floor s1 s2 s3 : steady floor s1 s2 -> steady floor s2 s3 -> steady floor s1 s3.
Proof using.
  intros [A1 A2 A3 A4 A5] [B1 B2 B3 B4 B5]. split; [done|by apply (kept_trans _ (cs_heap s2))|congruence|done|set_solver].
Qed.

Lemma chain_inv_erase floor (s : chain_state W) p : Inv floor s -> ~ sound accepts (cs_heap s) p -> Inv floor (erase p s).
Proof using. intros [M B Hi Hw Hc Ht Hf] Np. split; try done. by apply cand_erase. Qed.

Definition failed_at (s : chain_state W) (p : ptr) : Prop := exists b, cs_heap s !! p = Some b /\ failed b = true.

Lemma InvalidBlockFound_ok floor s p b t st : Inv floor s -> at_own_tip s -> cs_heap s !! p = Some b -> ~ accepts (blockHash b) -> Tip (cs_active s) = Some t ->
  corruptionPossible st = false -> runs stops (InvalidBlockFound p st) s (fun _ s' => steady floor s s' /\ failed_at s' p).
Proof using.
  intros Hs Hw Hp Np Et Ec. unfold InvalidBlockFound. eapply runs_step; [by apply load_run|]. cbv beta.
  set (s1 := if IsInvalid st then set_world (report_invalid (blockHash b) st (cs_world s)) s else s).
  eapply (runs_step _ _ _ _ tt s1); [unfold s1; by destruct (IsInvalid st)|]. rewrite Ec.
  assert (E1 : cs_heap s1 = cs_heap s /\ cs_active s1 = cs_active s /\ setBlockIndexCandidates s1 = setBlockIndexCandidates s /\ Inv floor s1 /\ at_own_tip s1).
  { unfold s1. destruct (IsInvalid st); [|done]. do 3 (split; [done|]). split; [by destruct Hs|]. by apply aside_ok. }
  destruct E1 as (Eh & Ea & Ecand & Hs1 & Hw1).
  eapply runs_step; [done|]. eapply runs_step; [done|]. eapply runs_step; [done|].
  set (s2 := erase p _). assert (Ns : ~ sound accepts (cs_heap s) p) by (intros H; apply Np, (H p b); [apply is_ancestor_refl|done]).
  destruct (mark_failed floor s1 BLOCK_FAILED_VALID p b Hs1) as [Hs2 K]; [by rewrite Eh|by rewrite Eh|by left|].
  assert (HS : same_tree (cs_heap s1) (cs_heap s2)) by apply (kept_tree _ _ K).
  assert (Hs2' : Inv floor s2).
  { unfold s2. apply chain_inv_erase; [by destruct Hs2|]. intros H. apply Ns. rewrite <- Eh. by apply (sound_same accepts (cs_heap s1) (cs_heap s2)). }
  assert (Fp : cs_heap s2 !! p = Some (with_status b (Z.lor (nStatus b) BLOCK_FAILED_VALID))) by (apply lookup_insert_eq).
  eapply runs_conseq; [apply (InvalidChainFound_ok floor s2 p t); [done|by eexists|by rewrite <- Et, <- Ea]|].
  intros _ s' (best & f & -> & HF). split.
  - split.
    + by apply chain_inv_forks.
    + change (kept (cs_heap s) (cs_heap s2)). by rewrite <- Eh.
    + exact Ea.
    + change (at_tip (cs_heap s2) (Tip (cs_active s1)) (cs_world s1)). by apply (at_tip_same (cs_heap s1)).
    + change (setBlockIndexCandidates s1 ∖ {[ p ]} ⊆ setBlockIndexCandidates s). rewrite Ecand. set_solver.
  - eexists. split; [exact Fp|]. by apply fail_entry; left.
Qed.

(** ** [FindMostWorkChain] *)

Definition in_active (H : heap) (c : CChain) (q : ptr) : Prop := exists t, Tip c = Some t /\ is_ancestor H q t.

Lemma Contains_ok H c p : index_ok H -> chain_ok H c -> is_Some (H !! p) -> exists x, Contains H c p = Ret x /\ (x = true <-> in_active H c p).
Proof using.
  intros Hok Hc Hp. apply chain_ok_Tip in Hc as Ht. unfold in_active. destruct (Tip c) as [t|].
  - destruct Ht as [Kt ->]. destruct (Contains_spec H Hok t p Kt Hp) as (x & E & I). exists x. split; [done|]. rewrite I.
    split; [intros A; by exists t|by intros (? & [= <-] & A)].
  - subst c. destruct Hp as [b Hp]. exists false. unfold Contains. rewrite (deref_Some H p b Hp). cbn [result_bind].
    unfold at_height. rewrite Z.geb_leb. split; [|split; [done|by intros (? & ? & _)]].
    destruct (Hok p b Hp) as [Hr _]. destruct (Z.ltb_spec (nHeight b) 0); [lia|]. by destruct (Z.leb_spec (Z.of_nat (length (@nil (option ptr)))) (nHeight b)); [|cbn in *; lia].
Qed.

Definition entry_failed (H : heap) (q : ptr) : Prop := exists b, H !! q = Some b /\ failed b = true.

Lemma test_path_ok H c fuel p b : heap_inv accepts H -> chain_ok H c -> linked H p -> H !! p = Some b -> nHeight b < Z.of_nat fuel ->
  (test_path fuel H c (Some p) = Ret None /\ forall q, is_ancestor H q p -> ~ in_active H c q -> ~ entry_failed H q) \/
  (exists q, test_path fuel H c (Some p) = Ret (Some (q, true)) /\ is_ancestor H q p /\ entry_failed H q).
Proof using.
  intros Hi Hc. revert p b. pose proof (hi_index _ _ Hi) as Hok. induction fuel as [|fuel IH]; intros p b L Hp Hf; [destruct (Hok p b Hp); lia|].
  cbn [test_path]. destruct (Contains_ok H c p Hok Hc ltac:(by exists b)) as (x & -> & Hx). cbn [of_ptr result_bind]. destruct x.
  { left. split; [done|]. intros q A Nq. exfalso. apply Nq. destruct (proj1 Hx eq_refl) as (t & Et & At). exists t. split; [done|]. by apply (is_ancestor_trans H q p t). }
  rewrite (deref_Some H p b Hp). cbn [of_ptr result_bind].
  assert (Nb : nChainTx b <> 0) by (destruct L as (b' & Hb' & ?); congruence).
  rewrite (proj2 (Z.eqb_neq _ _) Nb). cbn [andb]. pose proof (hi_entries _ _ Hi p b Hp) as Ep. rewrite (ei_have _ _ _ _ Ep Nb). rewrite orb_false_r.
  destruct (failed b) eqn:Fb; [right; exists p; split; [done|]; split; [apply is_ancestor_refl|by exists b]|].
  destruct (Hok p b Hp) as [_ Hb]. destruct (pprev b) as [q|] eqn:Eq.
  - destruct Hb as [(c0 & Hq & Eh) _]. assert (Lq : linked H q) by (by apply (linked_up accepts H p b)).
    destruct (IH q c0 Lq Hq ltac:(lia)) as [[-> A]|(r & -> & A & F)].
    + left. split; [done|]. intros z Az Nz (bz & Hz & Fz). destruct (is_ancestor_inv H z p b Hp Az) as [->|(q' & E & Az')]; [congruence|].
      assert (q' = q) as -> by congruence. apply (A z Az' Nz). by exists bz.
    + right. exists r. split; [done|]. split; [|done]. apply (is_ancestor_trans H r q p A). by apply (parent_is_ancestor H p b).
  - left. split; [by destruct fuel|]. intros z Az Nz (bz & Hz & Fz). destruct (is_ancestor_inv H z p b Hp Az) as [->|(q' & E & _)]; congruence.
Qed.

Lemma failed_unsound H q : heap_inv accepts H -> entry_failed H q -> ~ sound accepts H q.
Proof using. intros Hi (b & Hq & F). by apply (ei_flag _ _ _ _ (hi_entries _ _ Hi q b Hq)). Qed.

(** Writing an entry and taking it out of the candidates. *)
Lemma mark_erase floor (s : chain_state W) p b : Inv floor s -> at_own_tip s -> cs_heap s !! p = Some b -> ~ sound accepts (cs_heap s) p ->
  let s' := erase p (put p (with_status b (Z.lor (nStatus b) BLOCK_FAILED_CHILD)) s) in
  steady floor s s' /\ p ∉ setBlockIndexCandidates s'.
Proof using.
  intros Hs Hw Hp Np s'. destruct (mark_failed floor s BLOCK_FAILED_CHILD p b Hs Hp Np (or_intror eq_refl)) as [Hs' K].
  assert (E : setBlockIndexCandidates s' = setBlockIndexCandidates s ∖ {[ p ]}) by done. split; [|rewrite E; set_solver]. split.
  - apply chain_inv_erase; [done|]. intros S0. apply Np. by apply (sound_same accepts _ _ p (kept_tree _ _ K)).
  - exact K.
  - done.
  - apply (at_tip_same (cs_heap s)); [apply (kept_tree _ _ K)|done].
  - rewrite E. set_solver.
Qed.

Lemma remove_path_ok floor fuel : forall (s : chain_state W) q p b, Inv floor s -> at_own_tip s -> cs_heap s !! p = Some b ->
  is_ancestor (cs_heap s) q p -> ~ sound accepts (cs_heap s) q -> nHeight b < Z.of_nat fuel ->
  runs stops (remove_path fuel true q (Some p)) s (fun _ s' => steady floor s s' /\ p ∉ setBlockIndexCandidates s').
Proof using.
  induction fuel as [|fuel IH]; intros s q p b Hs Hw Hp A Nq L; pose proof (hi_index _ _ (ch_heap _ _ _ _ Hs)) as Hok; [destruct (Hok p b Hp); lia|].
  assert (Np : ~ sound accepts (cs_heap s) p) by (intros S0; by apply Nq, (sound_ancestor accepts _ p q)).
  cbn [remove_path]. case_bool_decide as D.
  - injection D as ->. apply runs_update. split; [|cbn; set_solver]. split; [by apply chain_inv_erase|apply kept_refl|done|exact Hw|cbn; set_solver].
  - eapply runs_step; [by apply load_run|]. eapply runs_step; [done|]. eapply runs_step; [done|].
    destruct (mark_erase floor s p b Hs Hw Hp Np) as [St Np']. set (s1 := erase p _) in *. cbv beta.
    destruct (is_ancestor_inv _ q p b Hp A) as [->|(r & Er & Ar)]; [done|]. rewrite Er.
    destruct (parent_known _ p b r Hok Hp Er) as [c Hr]. destruct (Hok p b Hp) as [_ Hb]. rewrite Er in Hb. destruct Hb as [(c' & Hr' & Eh) _].
    assert (c' = c) as -> by congruence. pose proof (kept_tree _ _ (st_kept _ _ _ St)) as HS. destruct (same_tree_lookup _ _ HS r c Hr) as (c1 & Hc1 & (_ & _ & _ & Ec & _)%node_fields).
    eapply runs_conseq; [apply (IH s1 q r c1)|].
    + apply St.
    + apply St.
    + done.
    + by apply (is_ancestor_same _ _ HS).
    + intros S0. by apply Nq, (sound_same accepts _ _ q HS).
    + lia.
    + intros _ s' [St' _]. split; [by apply (steady_trans _ _ s1)|]. intros I. by apply Np', (st_cand _ _ _ St').
Qed.

(** The candidate that is chosen. *)
Definition most_work (H : heap) (c : CChain) (Y : gset ptr) (m : ptr) : Prop :=
  m ∈ Y /\ (forall x, x ∈ Y -> worse H m x = false) /\ forall q, is_ancestor H q m -> ~ in_active H c q -> ~ entry_failed H q.

Lemma FindMostWorkChain_loop_ok floor fuel : forall s : chain_state W, Inv floor s -> at_own_tip s -> (size (setBlockIndexCandidates s) <= fuel)%nat ->
  runs stops (FindMostWorkChain_loop fuel) s (fun r s' => steady floor s s' /\
    match r with None => setBlockIndexCandidates s' = ∅ | Some m => most_work (cs_heap s') (cs_active s') (setBlockIndexCandidates s') m end).
Proof using.
  induction fuel as [|fuel IH]; intros s Hs Hw L.
  all: cbn [FindMostWorkChain_loop]; eapply runs_step; [done|]; cbv beta; pose proof (ch_heap _ _ _ _ Hs) as Hi; pose proof (ch_cand _ _ _ _ Hs) as Hc.
  all: assert (K : known (cs_heap s) (setBlockIndexCandidates s)) by (intros x Hx; by apply linked_known, (ci_linked _ _ _ _ _ Hc)).
  all: pose proof (last_candidate_spec (cs_heap s) (heap_works _ _ Hi) _ K) as B.
  all: destruct (last_candidate _ _) as [p|]; [|split; [by apply steady_refl|done]]; destruct B as [Ip Max].
  1: { assert (setBlockIndexCandidates s = ∅) as E0 by (apply leibniz_equiv, size_empty_inv; lia). set_solver. }
  pose proof (ci_linked _ _ _ _ _ Hc p Ip) as Lp. destruct (K p Ip) as [b Hp]. destruct (hi_index _ _ Hi p b Hp) as [Hr _].
  eapply runs_step; [by apply load_run|]. cbv beta zeta.
  destruct (test_path_ok (cs_heap s) (cs_active s) (S (Z.to_nat (nHeight b))) p b Hi (proj1 (ch_tip _ _ _ _ Hs)) Lp Hp) as [[E A]|(q & E & A & F)]; [lia|..].
  - eapply runs_step; [unfold lift; by rewrite E|]. cbv beta. split; [by apply steady_refl|]. done.
  - eapply runs_step; [unfold lift; by rewrite E|]. cbv beta.
    assert (M : exists x : bool, more_invalid p s = (Ret x, s)).
    { unfold more_invalid, ebind, gets. rewrite (load_run s p b Hp). destruct (ch_forks _ _ _ _ Hs) as (K1 & _).
      destruct (pindexBestInvalid s) as [r|]; [destruct K1 as [e He]; rewrite (load_run s r e He); by eexists|by exists true]. }
    destruct M as [x M]. eapply runs_step; [exact M|]. eapply runs_step; [done|]. set (s1 := (if x then _ else _) s). cbv beta.
    assert (St1 : steady floor s s1 /\ cs_heap s1 = cs_heap s).
    { unfold s1. destruct x; [|split; [by apply steady_refl|done]]. split; [|done]. split; [|apply kept_refl|done|exact Hw|done].
      destruct Hs as [M1 M2 M3 M4 M5 M6 (K1 & K2 & K3)]. split; try done. split; [by exists b|done]. }
    destruct St1 as [St1 Eh].
    eapply runs_bind; [apply (remove_path_ok floor (S (Z.to_nat (nHeight b))) s1 q p b); [apply St1|apply St1|by rewrite Eh|by rewrite Eh|rewrite Eh; by apply failed_unsound|lia]|].
    intros _ s2 [St2 Np]. pose proof (steady_trans _ _ _ _ St1 St2) as St. eapply runs_conseq; [apply (IH s2); [apply St|apply St|]|].
    + enough (size (setBlockIndexCandidates s2) < size (setBlockIndexCandidates s))%nat by lia. apply subset_size. split; [apply St|set_solver].
    + intros r s' [St' R]. split; [by apply (steady_trans _ _ s2)|done].
Qed.

Lemma FindMostWorkChain_ok floor (s : chain_state W) : Inv floor s -> at_own_tip s ->
  runs stops FindMostWorkChain s (fun r s' => steady floor s s' /\
    match r with None => setBlockIndexCandidates s' = ∅ | Some m => most_work (cs_heap s') (cs_active s') (setBlockIndexCandidates s') m end).
Proof using. intros Hs Hw. unfold FindMostWorkChain. eapply runs_step; [done|]. by apply FindMostWorkChain_loop_ok. Qed.

(** ** The tip moves by one block *)

(** Nothing but the world and the entries to be written changes. *)
Definition quiet floor (s s' : chain_state W) : Prop :=
  Inv floor s' /\ cs_heap s' = cs_heap s /\ cs_active s' = cs_active s /\ setBlockIndexCandidates s' = setBlockIndexCandidates s.

Lemma quiet_world floor (s : chain_state W) w : Inv floor s -> quiet floor s (set_world w s).
Proof using. intros Hs. split; [by destruct Hs|done]. Qed.

Lemma quiet_trans floor s1 s2 s3 : quiet floor s1 s2 -> quiet floor s2 s3 -> quiet floor s1 s3.
Proof using. intros (A1 & A2 & A3 & A4) (B1 & B2 & B3 & B4). split; [done|]. split_and!; congruence. Qed.

Lemma check_mempool_ok (s : chain_state W) : runs stops check_mempool s (fun _ s' => s' = s).
Proof using accepts genuine NOk.
  unfold runs, check_mempool. destruct (mempool_check (cs_world s)) as [[]|e] eqn:E; [done|]. left. by apply (mempool_ok (cs_world s)).
Qed.

Lemma flush_quiet floor (s : chain_state W) st mode H t : Inv floor s -> at_tip H t (cs_world s) -> IsInvalid st = false ->
  runs stops (flush st mode) s (fun _ s' => quiet floor s s' /\ at_tip H t (cs_world s')).
Proof using.
  intros Hs Ht Hst. unfold runs, flush. destruct (FlushStateToDisk _ _ _ _ _) as [r w'] eqn:E. apply flush_ok in E; [|done].
  destruct r as [dirty|e]; [split; [split; [by destruct Hs|done]|by apply E]|]. destruct e; [right; by eexists|by left..].
Qed.

Lemma read_block_ok (s : chain_state W) p b st : cs_heap s !! p = Some b -> IsInvalid st = false ->
  runs stops (read_block p st) s (fun block s' => s' = s /\ genuine (blockHash b) block).
Proof using X accepts NOk.
  intros Hp Hst. unfold read_block. eapply runs_step; [by apply load_run|]. eapply runs_step; [done|]. cbv beta.
  destruct (ReadBlockFromDisk b (cs_world s)) as [block|] eqn:E; [|apply runs_throw; right; eexists; split; [done|]; split; [by destruct st as [[]]|by eapply read_fails]].
  split; [done|]. by apply (read_genuine (cs_index s) p b (cs_world s)).
Qed.

(** After the tip has moved to [p]. *)
Record moved (s s' : chain_state W) (p : ptr) : Prop := {
  mv_kept : kept (cs_heap s) (cs_heap s');
  mv_active : cs_active s' = chain_of (cs_heap s') p;
  mv_tip : at_tip (cs_heap s') (Some p) (cs_world s');
  mv_cand : setBlockIndexCandidates s' = setBlockIndexCandidates s }.

Lemma moved_Tip s s' p : is_Some (cs_heap s !! p) -> moved s s' p -> Tip (cs_active s') = Some p.
Proof using.
  intros K M. rewrite (mv_active _ _ _ M). apply Tip_chain_of. apply (known_same _ _ (kept_tree _ _ (mv_kept _ _ _ M))). done.
Qed.

Lemma UpdateTip_ok floor (s : chain_state W) p : Inv floor s -> is_Some (cs_heap s !! p) -> at_tip (cs_heap s) (Some p) (cs_world s) ->
  runs stops (UpdateTip (Some p)) s (fun _ s' => exists w, s' = set_world w (set_active (chain_of (cs_heap s) p) s) /\ at_tip (cs_heap s) (Some p) w).
Proof using.
  intros Hs [b Hp] Hw. unfold UpdateTip. eapply runs_step; [done|]. cbv beta.
  eapply runs_step; [unfold lift; by rewrite (SetTip_spec _ (hi_index _ _ (ch_heap _ _ _ _ Hs)) _ p (proj1 (ch_tip _ _ _ _ Hs)) (ex_intro _ b Hp))|]. cbv beta.
  eapply runs_step; [done|]. eapply runs_step; [done|]. cbv beta.
  eapply runs_step; [rewrite (Tip_chain_of _ p (ex_intro _ b Hp)); by apply (load_run _ p b)|]. cbv beta.
  eexists. split; [reflexivity|]. by apply aside_ok.
Qed.

(** A lower tip leaves the candidates as they are. *)
Lemma lower_tip floor (s : chain_state W) t q : Inv floor s -> Tip (cs_active s) = Some t -> is_ancestor (cs_heap s) q t -> forall w,
  Inv floor (set_world w (set_active (chain_of (cs_heap s) q) s)).
Proof using.
  intros [M B Hi Hw [C1 C2 C3] [Hc Ht] Hf] Et A w. destruct (Ht t Et) as [L S0].
  assert (Kq : is_Some (cs_heap s !! q)) by (by apply (ancestor_Some _ (hi_index _ _ Hi) q t), A; apply linked_known).
  pose proof (Tip_chain_of (cs_heap s) q Kq) as Eq. split; try done; cbn -[cs_heap chain_of].
  - split; [done| |].
    + intros t' x. change (cs_heap _) with (cs_heap s). rewrite Eq. intros [= <-] Hx. destruct (decide (q = t)) as [->|Nq]; [by apply C2|].
      destruct (worse (cs_heap s) x q) eqn:E; [|done]. pose proof (ancestor_worse accepts _ t q Hi (linked_known _ _ L) A Nq) as E'.
      rewrite <- (C2 t x Et Hx). symmetry. by apply (worse_trans _ (heap_works _ _ Hi) x q t).
    + destruct floor as [r|]; [done|]. destruct C3. congruence.
  - split; [right; by exists q|]. intros t'. change (cs_heap _) with (cs_heap s). rewrite Eq. intros [= <-].
    split; [by apply (linked_ancestor accepts _ t)|by apply (sound_ancestor accepts _ t q (hi_index _ _ Hi))].
Qed.

Lemma DisconnectTip_ok floor s t bt q st : Inv floor s -> at_own_tip s -> Tip (cs_active s) = Some t -> cs_heap s !! t = Some bt ->
  pprev bt = Some q -> IsInvalid st = false ->
  runs stops (DisconnectTip st) s (fun _ s' => Inv floor s' /\ cs_heap s' = cs_heap s /\ moved s s' q).
Proof using.
  intros Hs Hw Et Ht Eq Hst. rewrite Et in Hw. unfold DisconnectTip. eapply runs_step; [done|]. cbv beta. rewrite Et.
  eapply runs_bind; [apply check_mempool_ok|]. intros _ ? ->. eapply runs_bind; [by apply (read_block_ok s t bt)|]. intros block ? [-> G]. cbv beta.
  destruct (DisconnectView block st (cs_index s) (cs_active s) t (cs_world s)) as [r w] eqn:E.
  pose proof (disconnect_ok (cs_index s) _ t bt _ _ _ _ _ Ht G Et Hw Hst E) as D.
  destruct r as [[]|e]; [|eapply runs_fail; [cbv beta; by rewrite E|]; destruct e; [right; by eexists|by left..]].
  eapply runs_step; [cbv beta; by rewrite E|]. cbv beta. rewrite Eq in D.
  eapply (runs_bind _ _ _ (set_world w s)); [apply (flush_quiet floor _ st FLUSH_STATE_ALWAYS (cs_heap s) (Some q)); [by destruct Hs|done|done]|].
  intros _ s1 [(Hs1 & Eh & Ea & Ec) Hw1]. change (cs_heap (set_world w s)) with (cs_heap s) in Eh.
  eapply runs_step; [apply (load_run s1 t bt); by rewrite Eh|]. cbv beta. eapply runs_step; [done|]. eapply runs_step; [done|]. cbv beta.
  eapply runs_bind; [apply check_mempool_ok|]. intros _ ? ->. set (s2 := set_world _ s1).
  assert (Hs2 : Inv floor s2 /\ cs_heap s2 = cs_heap s /\ at_tip (cs_heap s) (Some q) (cs_world s2)) by (split; [by destruct Hs1|]; split; [done|]; by apply aside_ok).
  destruct Hs2 as (Hs2 & Eh2 & Hw2). pose proof (hi_index _ _ (ch_heap _ _ _ _ Hs)) as Hok. pose proof (parent_known _ t bt q Hok Ht Eq) as Kq.
  rewrite Eq. eapply runs_bind; [apply (UpdateTip_ok floor s2 q Hs2); [by rewrite Eh2|by rewrite Eh2]|].
  intros _ ? (w2 & -> & Hw3). rewrite Eh2 in Hw3. apply runs_update.
  assert (A : is_ancestor (cs_heap s2) q t) by (rewrite Eh2; by apply (parent_is_ancestor _ t bt)).
  assert (Et2 : Tip (cs_active s2) = Some t) by (change (Tip (cs_active s1) = Some t); rewrite Ea; exact Et).
  split; [by apply (lower_tip floor s2 t q)|]. split; [exact Eh2|]. split.
  - change (kept (cs_heap s) (cs_heap s2)). rewrite Eh2. apply kept_refl.
  - done.
  - change (at_tip (cs_heap s2) (Some q) (SyncWithWallets block false w2)). rewrite Eh2. by apply aside_ok.
  - exact Ec.
Qed.

Lemma put_kept floor (s : chain_state W) p b b' : Inv floor s -> cs_heap s !! p = Some b -> key_of b' = key_of b -> failed b' = failed b ->
  (BLOCK_VALID_TREE <= Z.land (nStatus b) BLOCK_VALID_MASK -> BLOCK_VALID_TREE <= Z.land (nStatus b') BLOCK_VALID_MASK) ->
  Inv floor (put p b' s) /\ kept (cs_heap s) (cs_heap (put p b' s)).
Proof using.
  intros [M B Hi Hw Hc Ht Hf] Hp E F T. assert (K : kept (cs_heap s) (cs_heap (put p b' s))) by (apply (kept_put _ p b); [done|done|congruence|done]).
  split; [|done]. pose proof (kept_tree _ _ K) as HS. split.
  - by apply (map_ok_same (cs_heap s)).
  - by apply (best_ok_same (cs_heap s)).
  - apply (kept_heap _ (cs_heap s)); [done|done|]. intros x c Hx Fx. change (<[p := b']> (cs_heap s) !! x = Some c) in Hx.
    destruct (decide (x = p)) as [->|Nx]; [rewrite lookup_insert_eq in Hx|rewrite lookup_insert_ne in Hx by done].
    + injection Hx as <-. rewrite F in Fx. by apply (ei_flag _ _ _ _ (hi_entries _ _ Hi p b Hp)).
    + by apply (ei_flag _ _ _ _ (hi_entries _ _ Hi x c Hx)).
  - by apply (kept_wait (cs_heap s)).
  - by apply (kept_cand _ (cs_heap s)).
  - by apply (kept_tip _ (cs_heap s)).
  - by apply (fork_inv_same (cs_heap s)).
Qed.

(** The block of [p] is accepted. *)
Definition accepted_at (s : chain_state W) (p : ptr) : Prop := exists b, cs_heap s !! p = Some b /\ accepts (blockHash b).

(** [ConnectTip] fails because the block is invalid; the entry is marked. *)
Definition refused floor (s : chain_state W) (p : ptr) (e : failure) (s' : chain_state W) : Prop :=
  exists st, e = Rejected st /\ IsInvalid st = true /\ corruptionPossible st = false /\ steady floor s s' /\ ~ accepted_at s p /\ failed_at s' p.

(** The tip is [p], the rest as it was. *)
Definition connected floor (s s' : chain_state W) (p : ptr) : Prop :=
  accepted_at s p /\ moved s s' p /\ Inv floor (set_active (cs_active s) s').

Lemma connect_view_ok floor (s : chain_state W) p b block st checked : Inv floor s -> at_own_tip s -> cs_heap s !! p = Some b ->
  pprev b = Tip (cs_active s) -> genuine (blockHash b) block -> IsInvalid st = false ->
  runs stops (connect_view block st checked p) s (fun r s' => Inv floor s' /\ kept (cs_heap s) (cs_heap s') /\ cs_active s' = cs_active s /\
    setBlockIndexCandidates s' = setBlockIndexCandidates s /\
    match r with
    | Ret _ => accepts (blockHash b) /\ at_tip (cs_heap s') (Some p) (cs_world s')
    | Err (Rejected st') => at_own_tip s' /\ (IsInvalid st' = true -> ~ accepts (blockHash b) /\ corruptionPossible st' = false) /\
        (IsInvalid st' = false -> stopped st' = true)
    | Err e => X e
    end).
Proof using.
  intros Hs Hw Hp Et G Hst. unfold runs, connect_view.
  destruct (ConnectView block st checked (cs_index s) (cs_active s) p (cs_world s)) as [[r [b' dirty]] w] eqn:E.
  apply (connect_ok (cs_index s) _ p b) in E as (E1 & E2 & E3 & E4); [|done|done|by symmetry|by rewrite Et|done].
  destruct (put_kept floor s p b b' Hs Hp E1 E2 E3) as [Hs1 K]. pose proof (kept_tree _ _ K) as HS.
  set (s1 := if dirty then _ else _). assert (F : Inv floor s1 /\ cs_heap s1 = cs_heap (put p b' s) /\ cs_active s1 = cs_active s /\ setBlockIndexCandidates s1 = setBlockIndexCandidates s /\ cs_world s1 = w).
  { unfold s1. by destruct dirty; (split; [destruct Hs1|]). }
  destruct F as (F1 & F2 & F3 & F4 & F5). rewrite F2, F3, F4, F5. do 4 (split; [done|]).
  destruct r as [[]|e]; [destruct E4 as [A T]; split; [done|]; by apply (at_tip_same (cs_heap s))|]. destruct e; try done.
  rewrite Et in E4. destruct E4 as [T V]. split; [|done]. by apply (at_tip_same (cs_heap s)).
Qed.

Lemma ConnectTip_ok floor s p b pblock checked st : Inv floor s -> at_own_tip s -> cs_heap s !! p = Some b ->
  pprev b = Tip (cs_active s) -> (forall block, pblock = Some block -> genuine (blockHash b) block) -> IsInvalid st = false ->
  runs (fun e s' => stops e s' \/ refused floor s p e s') (ConnectTip st p pblock checked) s (fun _ s' => connected floor s s' p).
Proof using.
  intros Hs Hw Hp Et G Hst.
  unfold ConnectTip. eapply runs_step; [by apply load_run|]. eapply runs_step; [done|]. cbv beta. rewrite (bool_decide_true _ Et). cbn [negb].
  eapply runs_bind; [apply (runs_weaken _ _ _ _ _ (check_mempool_ok s)); by left|]. intros _ ? ->.
  eapply (runs_bind _ _ _ s (fun block s' => s' = s /\ genuine (blockHash b) block)).
  { destruct pblock as [block|]; [split; [done|by apply G]|]. apply (runs_weaken stops); [by apply (read_block_ok s p b)|by left]. }
  intros block ? [-> Gb]. cbv beta.
  eapply runs_bind; [eapply runs_weaken; [by apply (connect_view_ok floor s p b)|by left]|]. intros r s1 (Hs1 & K & Ea & Ec & R).
  destruct (kept_lookup _ _ K p b Hp) as (b1 & Hb1 & ((Eh1 & Ep1 & _)%node_fields & _)%key_fields). destruct r as [[]|e].
  - destruct R as [Ap T1]. eapply runs_step; [done|]. cbv beta. set (s2 := set_world _ s1).
    eapply (runs_step _ _ _ s2); [by apply (load_run s2 p b1)|]. cbv beta.
    eassert (Mode : exists mode, _ s2 = (Ret mode, s2)); [|destruct Mode as [mode Mode]; eapply runs_step; [exact Mode|]].
    { destruct (pprev b1) as [q|] eqn:Eq; [|by eexists]. destruct (parent_known _ p b1 q (hi_index _ _ (ch_heap _ _ _ _ Hs1)) Hb1 Eq) as [e He].
      eexists. unfold ebind. by rewrite (load_run s2 q e He). }
    cbv beta. assert (T2 : at_tip (cs_heap s1) (Some p) (cs_world s2)) by (by apply aside_ok).
    eapply runs_bind; [apply (runs_weaken stops); [apply (flush_quiet floor s2 st mode (cs_heap s1) (Some p)); [by destruct Hs1|done|done]|by left]|].
    intros _ s3 [(Hs3 & Eh3 & Ea3 & Ec3) T3]. eapply runs_step; [done|]. cbv beta. set (s4 := set_world _ s3).
    eapply runs_bind; [apply (runs_weaken _ _ _ _ _ (check_mempool_ok s4)); by left|]. intros _ ? ->.
    assert (Eh4 : cs_heap s4 = cs_heap s1) by exact Eh3. assert (Hs4 : Inv floor s4) by (by destruct Hs3).
    assert (T4 : at_tip (cs_heap s1) (Some p) (cs_world s4)) by (by apply aside_ok).
    eapply runs_bind; [apply (runs_weaken stops); [apply (UpdateTip_ok floor s4 p Hs4); rewrite Eh4; [by exists b1|done]|by left]|].
    intros _ ? (w & -> & T5). apply runs_update. rewrite Eh4 in T5. split; [by exists b|]. split.
    + split.
      * change (kept (cs_heap s) (cs_heap s4)). by rewrite Eh4.
      * done.
      * change (at_tip (cs_heap s4) (Some p) (SyncWithWallets block true w)). rewrite Eh4. by apply aside_ok.
      * change (setBlockIndexCandidates s3 = setBlockIndexCandidates s). rewrite Ec3. exact Ec.
    + assert (E4 : cs_active s = cs_active s4) by (change (cs_active s = cs_active s3); rewrite Ea3; by rewrite <- Ea).
      rewrite E4. by destruct Hs4.
  - destruct e as [st'| | |]; try (apply runs_throw; left; by left). destruct R as (T1 & V & Sp).
    assert (St : steady floor s s1) by (split; [done|done|done|done|by rewrite Ec]).
    destruct (IsInvalid st') eqn:I; [|eapply runs_step; [done|]; apply runs_throw; left; right; eexists; split; [done|]; split; [done|by apply Sp]].
    destruct (V eq_refl) as [Na Nc]. destruct (Tip (cs_active s1)) as [t|] eqn:Et1.
    2: { exfalso. apply Na. apply (ei_root _ _ _ _ (hi_entries _ _ (ch_heap _ _ _ _ Hs) p b Hp)). by rewrite Et, <- Ea. }
    eapply runs_bind; [apply (runs_weaken stops); [apply (InvalidBlockFound_ok floor s1 p b1 t st'); by rewrite ?Et1, ?Eh1|by left]|].
    intros _ s2 [St2 F2]. apply runs_throw. right. exists st'. do 3 (split; [done|]). split; [by apply (steady_trans _ _ s1)|]. split; [|done].
    intros (b' & Hp' & A). apply Na. by replace b with b' by congruence.
Qed.

(** ** A batch *)

(** Pruning after [p] has become the tip, on the way to [m]. *)
Lemma pruned_inv floor (s0 s : chain_state W) p b (Y : gset ptr) : connected floor s0 s p -> Inv floor s0 -> cs_heap s !! p = Some b ->
  pprev b = Tip (cs_active s0) -> linked (cs_heap s) p ->
  (forall x, x ∈ Y <-> x ∈ setBlockIndexCandidates s /\ worse (cs_heap s) x p = false) ->
  exists floor', Inv floor' (set_candidates Y s).
Proof using.
  intros (Ap & Mv & [M B Hi Hw [C1 C2 C3] _ Hf]) Hs0 Hp Ep Lp HY. set (H := cs_heap s) in *. change (cs_heap (set_active _ s)) with H in *.
  pose proof (mv_active _ _ _ Mv) as Ea. change (cs_heap s) with H in Ea. assert (Kp : is_Some (H !! p)) by (by exists b).
  pose proof (Tip_chain_of H p Kp) as Et. pose proof (heap_works _ _ Hi) as HW. change (setBlockIndexCandidates (set_active _ s)) with (setBlockIndexCandidates s) in *.
  assert (Sp : sound accepts H p).
  { pose proof (kept_tree _ _ (mv_kept _ _ _ Mv)) as HS. intros q c A Hq. destruct (same_tree_back _ _ HS q c Hq) as (c0 & Hq0 & (Eh & _)%node_fields).
    rewrite Eh. destruct (is_ancestor_inv H q p b Hp A) as [->|(r & Er & Ar)]; [destruct Ap as (b0 & ? & ?); by replace c0 with b0 by congruence|].
    rewrite Ep in Er. destruct (proj2 (ch_tip _ _ _ _ Hs0) r Er) as [_ S0]. apply (S0 q c0); [|done]. by apply (is_ancestor_same _ _ HS). }
  assert (Kn : forall x, linked H x -> is_Some (H !! x)) by (intros x; apply linked_known).
  assert (Cand : exists floor', cand_inv accepts floor' H (chain_of H p) Y).
  { assert (Low : forall f, match f with None => Tip (chain_of H p) = None /\ forall x, linked H x -> sound accepts H x -> x ∈ Y
        | Some r => r ∈ Y /\ sound accepts H r /\ forall x, linked H x -> sound accepts H x -> worse H x r = false -> x ∈ Y end -> cand_inv accepts f H (chain_of H p) Y).
    { intros f A. split; [intros x [Hx _]%HY; by apply C1| |exact A]. intros t x. rewrite Et. intros [= <-] [_ Hx]%HY. done. }
    destruct floor as [r|].
    - destruct C3 as (Ir & Sr & All). destruct (worse H r p) eqn:E.
      + exists (Some p). apply Low. assert (Pr : worse H p r = false).
        { destruct (worse H p r) eqn:E'; [|done]. pose proof (worse_trans H HW p r p E' E) as F. by rewrite (worse_irrefl H HW) in F. }
        split; [apply HY; split; [by apply All|by apply worse_irrefl]|]. split; [done|]. intros x Lx Sx Nx. apply HY. split; [|done].
        apply All; [done|done|]. apply (not_worse_trans H HW x p r); auto.
      + exists (Some r). apply Low. split; [by apply HY|]. split; [done|]. intros x Lx Sx Nx. apply HY. split; [by apply All|].
        apply (not_worse_trans H HW x r p); auto.
    - destruct C3 as [_ All]. exists (Some p). apply Low. split; [apply HY; split; [by apply All|by apply worse_irrefl]|]. split; [done|].
      intros x Lx Sx Nx. apply HY. split; [by apply All|done]. }
  destruct Cand as [floor' HC]. exists floor'. split; try done.
  - change (cand_inv accepts floor' H (cs_active s) Y). by rewrite Ea.
  - change (tip_inv accepts H (cs_active s)). rewrite Ea. split; [right; by exists p|]. intros t. rewrite Et. by intros [= <-].
Qed.

Lemma prune_ok floor (s0 s : chain_state W) p b m : connected floor s0 s p -> Inv floor s0 -> cs_heap s !! p = Some b ->
  pprev b = Tip (cs_active s0) -> linked (cs_heap s) p -> m ∈ setBlockIndexCandidates s -> is_ancestor (cs_heap s) p m ->
  runs stops PruneBlockIndexCandidates s (fun _ s' => exists Y floor', s' = set_candidates Y s /\ Inv floor' s' /\
    Y ⊆ setBlockIndexCandidates s /\ m ∈ Y).
Proof using.
  intros Hc Hs0 Hp Ep Lp Im A. pose proof Hc as (Ap & Mv & Hs). assert (Kp : is_Some (cs_heap s !! p)) by (by exists b).
  assert (Et : Tip (cs_active s) = Some p) by (rewrite (mv_active _ _ _ Mv); by apply Tip_chain_of).
  pose proof (ch_heap _ _ _ _ Hs) as Hi. change (cs_heap (set_active _ s)) with (cs_heap s) in Hi.
  assert (K : known (cs_heap s) (setBlockIndexCandidates s)) by (intros x Hx; by apply linked_known, (ci_linked _ _ _ _ _ (ch_cand _ _ _ _ Hs))).
  unfold PruneBlockIndexCandidates. eapply runs_step; [done|]. cbv beta. rewrite bool_decide_false by set_solver. rewrite Et.
  set (Y := prune_loop _ _ _ _). pose proof (prune_loop_spec (cs_heap s) (heap_works _ _ Hi) _ p _ K Kp (le_n _)) as HY. fold Y in HY.
  assert (ImY : m ∈ Y).
  { apply HY. split; [done|]. destruct (decide (p = m)) as [->|Nm]; [by apply worse_irrefl, (heap_works accepts)|].
    pose proof (ancestor_worse accepts _ m p Hi (K m Im) A Nm) as E. destruct (worse (cs_heap s) m p) eqn:E'; [|done].
    pose proof (worse_trans _ (heap_works _ _ Hi) m p m E' E) as F. by rewrite (worse_irrefl _ (heap_works _ _ Hi)) in F. }
  eapply runs_step; [done|]. cbv beta. rewrite bool_decide_false by set_solver. apply runs_ret.
  destruct (pruned_inv floor s0 s p b Y Hc Hs0 Hp Ep Lp HY) as [floor' HI]. exists Y, floor'. split; [done|]. split; [done|]. split; [|done].
  intros x [Hx _]%HY. done.
Qed.

Definition good (s : chain_state W) : Prop := (exists floor, Inv floor s) /\ at_own_tip s.

(** After a part of [ActivateBestChainStep]. *)
Record stepped (s s' : chain_state W) : Prop := {
  sp_good : good s';
  sp_kept : kept (cs_heap s) (cs_heap s');
  sp_cand : setBlockIndexCandidates s' ⊆ setBlockIndexCandidates s }.

Lemma stepped_refl s : good s -> stepped s s.
Proof using. intros G. split; [done|apply kept_refl|done]. Qed.

Lemma stepped_trans s1 s2 s3 : stepped s1 s2 -> stepped s2 s3 -> stepped s1 s3.
Proof using. intros [A1 A2 A3] [B1 B2 B3]. split; [done|by apply (kept_trans _ (cs_heap s2))|set_solver]. Qed.

Lemma steady_stepped floor s s' : steady floor s s' -> stepped s s'.
Proof using. intros [A1 A2 A3 A4 A5]. split; [split; [by exists floor|done]|done|done]. Qed.

(** A run of entries, each on top of the one before. *)
Fixpoint path_up (H : heap) (from : option ptr) (l : list ptr) : Prop :=
  match l with [] => True | p :: l => (exists b, H !! p = Some b /\ pprev b = from) /\ path_up H (Some p) l end.

Lemma path_up_same H H' l : same_tree H H' -> forall from, path_up H from l -> path_up H' from l.
Proof using.
  intros HS. induction l as [|p l IH]; intros from; [done|]. cbn [path_up]. intros [(b & Hp & E) P]. split; [|by apply IH].
  destruct (same_tree_lookup H H' HS p b Hp) as (b' & Hp' & (_ & E' & _)%node_fields). exists b'. split; [done|congruence].
Qed.

Definition more_work (s : chain_state W) (old : option ptr) : Prop :=
  exists t b, Tip (cs_active s) = Some t /\ cs_heap s !! t = Some b /\
    forall q c, old = Some q -> cs_heap s !! q = Some c -> val (nChainWork c) < val (nChainWork b).

(** How a batch may end. *)
Definition batch_end (m : ptr) (old from : option ptr) (l : list ptr) (r : progress) (s' : chain_state W) : Prop :=
  match r with
  | More => m ∈ setBlockIndexCandidates s' /\ Tip (cs_active s') = match last l with Some p => Some p | None => from end
  | Better => more_work s' old
  | Invalid_found => is_Some (Tip (cs_active s')) /\ exists p, p ∈ l /\ failed_at s' p
  end.

Lemma better_ok (s : chain_state W) t b old : works_wf (cs_heap s) -> Tip (cs_active s) = Some t -> cs_heap s !! t = Some b ->
  (forall q, old = Some q -> is_Some (cs_heap s !! q)) ->
  exists x : bool, (match old with
    | None => eret true
    | Some q => do* s := get in do* t := load (Tip (cs_active s)) in do* o := load (Some q) in eret (CompareTo (nChainWork t) (nChainWork o) >? 0)
    end : eff (chain_state W) failure bool) s = (Ret x, s) /\ (x = true -> more_work s old).
Proof using.
  intros HW Et Ht Kq. destruct old as [q|].
  - destruct (Kq q eq_refl) as [c Hc]. unfold ebind, get. rewrite Et, (load_run s t b Ht), (load_run s q c Hc). eexists. split; [reflexivity|].
    rewrite (CompareTo_spec 8) by (apply (HW t b Ht) || apply (HW q c Hc)). rewrite Z.gtb_ltb, Z.ltb_lt. intros L. exists t, b. split; [done|]. split; [done|].
    intros q' c' [= <-] Hc'. assert (c' = c) as -> by congruence. lia.
  - exists true. split; [done|]. intros _. exists t, b. done.
Qed.

(** The block that comes along belongs to its entry. *)
Definition brings (H : heap) (m : ptr) (pblock : option CBlock) : Prop :=
  forall block b, pblock = Some block -> H !! m = Some b -> genuine (blockHash b) block.

Lemma brings_same H H' m pblock : same_tree H H' -> brings H m pblock -> brings H' m pblock.
Proof using.
  intros HS G block b' Eb Hm. destruct (same_tree_back H H' HS m b' Hm) as (b & Hb & (-> & _)%node_fields). by apply G.
Qed.

Lemma connect_batch_ok l pfront m pblock checked old st : IsInvalid st = false ->
  forall (s : chain_state W) from, brings (cs_heap s) m pblock -> good s -> Tip (cs_active s) = from -> path_up (cs_heap s) from l -> (forall p, p ∈ l -> is_ancestor (cs_heap s) p m) ->
  m ∈ setBlockIndexCandidates s -> is_Some (cs_heap s !! pfront) -> (forall q, old = Some q -> is_Some (cs_heap s !! q)) ->
  runs stops (connect_batch l pfront m pblock checked old st) s (fun r s' => stepped s s' /\ batch_end m old from l r s').
Proof using.
  intros Hst. induction l as [|p l IH]; intros s from G Gs Et P A Im Kf Ko; [split; [by apply stepped_refl|done]|].
  destruct P as [(b & Hp & Ep) P]. pose proof Gs as [[floor Hs] Hw]. unfold runs. cbn [connect_batch].
  pose proof (ConnectTip_ok floor s p b (if bool_decide (p = m) then pblock else None) checked st Hs Hw Hp ltac:(congruence)) as R.
  assert (Gp : forall block, (if bool_decide (p = m) then pblock else None) = Some block -> genuine (blockHash b) block) by (intros block; case_bool_decide as D; [subst p; intros Eb; by apply G|done]).
  specialize (R Gp Hst). unfold runs in R. destruct (ConnectTip _ _ _ _ s) as [[[]|e] s1].
  - pose proof R as (Ap & Mv & Hs1). pose proof (kept_tree _ _ (mv_kept _ _ _ Mv)) as HS.
    assert (Lp : linked (cs_heap s1) p).
    { apply (kept_linked _ _ (mv_kept _ _ _ Mv)). apply (linked_ancestor accepts _ m); [apply Hs|by apply (ci_linked _ _ _ _ _ (ch_cand _ _ _ _ Hs))|apply A; by left]. }
    destruct (same_tree_lookup _ _ HS p b Hp) as (b1 & Hp1 & (_ & Ep1 & _)%node_fields).
    assert (Et1 : Tip (cs_active s1) = Some p) by (by apply (moved_Tip s); [exists b|]).
    match goal with |- context [ebind ?k ?f s1] => change (runs stops (ebind k f) s1 (fun r s' => stepped s s' /\ batch_end m old from (p :: l) r s')) end.
    eapply runs_bind; [apply (prune_ok floor s s1 p b1 m R Hs Hp1); [congruence|done|by rewrite (mv_cand _ _ _ Mv)|apply (is_ancestor_same _ _ HS), A; by left]|].
    intros _ s2 (Y & floor' & E2 & Hs2 & Sub & ImY). assert (Eh : cs_heap s2 = cs_heap s1) by (by rewrite E2).
    assert (Et2 : Tip (cs_active s2) = Some p) by (by rewrite E2).
    assert (St : stepped s s2).
    { split; [split; [by exists floor'|]|rewrite Eh; apply Mv|rewrite E2; cbn; by rewrite <- (mv_cand _ _ _ Mv)]. rewrite Et2, Eh, E2. apply Mv. }
    destruct (better_ok s2 p b1 old) as (x & Ex & Bx); [by apply (heap_works accepts), Hs2|done|by rewrite Eh|intros q Eq; rewrite Eh; by apply (known_same _ _ HS), Ko|].
    eapply runs_step; [exact Ex|]. cbv beta. destruct x; [split; [done|by apply Bx]|].
    eapply runs_conseq; [apply (IH s2 (Some p)); rewrite ?Eh|].
    + by apply (brings_same (cs_heap s)).
    + apply St.
    + done.
    + by apply (path_up_same (cs_heap s)).
    + intros q Hq. apply (is_ancestor_same _ _ HS), A. by right.
    + by rewrite E2.
    + by apply (known_same _ _ HS).
    + intros q Eq. by apply (known_same _ _ HS), Ko.
    + intros r s' [St' B]. split; [by apply (stepped_trans _ s2)|]. destruct r; cbn [batch_end] in *; [|done|].
      * destruct B as [I ->]. split; [done|]. rewrite last_cons. by destruct (last l).
      * destruct B as [Ks (q & Hq & F)]. split; [done|]. exists q. split; [by right|done].
  - destruct R as [[Xe|(st' & -> & I & Sp)]|(st' & -> & I & C & St & Na & F)].
    + destruct e as [st'| | |]; try (by left). by destruct (accident st').
    + rewrite I. right. by exists st'.
    + rewrite I, C. cbn [negb]. assert (Kt : exists t, Tip (cs_active s1) = Some t).
      { rewrite (st_active _ _ _ St), Et. destruct from as [t|]; [by exists t|]. exfalso. apply Na. exists b. split; [done|]. by apply (ei_root _ _ _ _ (hi_entries _ _ (ch_heap _ _ _ _ Hs) p b Hp)). }
      destruct Kt as [t Et1]. match goal with |- context [ebind ?k ?f s1] => change (runs stops (ebind k f) s1 (fun r s' => stepped s s' /\ batch_end m old from (p :: l) r s')) end.
      eapply runs_bind; [apply (InvalidChainFound_ok floor s1 pfront t); [apply St|by apply (known_same _ _ (kept_tree _ _ (st_kept _ _ _ St)))|done]|].
      intros _ s2 (best & f & -> & HF). apply runs_ret. split.
      * split; [|apply St|apply St]. split; [exists floor; apply chain_inv_forks; [apply St|done]|apply St].
      * split; [by exists t|]. exists p. split; [by left|exact F].
Qed.

(** ** The batches *)

Lemma elem_of_rev {A} (x : A) l : x ∈ rev l <-> x ∈ l.
Proof using. rewrite !list_elem_of_In. symmetry. apply in_rev. Qed.

Lemma path_up_snoc H l p : forall from, path_up H from l -> (exists b, H !! p = Some b /\ pprev b = match last l with Some q => Some q | None => from end) ->
  path_up H from (l ++ [p]).
Proof using.
  induction l as [|x l IH]; intros from; [by intros _ B|]. cbn [path_up app]. intros [B P] C. split; [done|]. apply IH; [done|].
  rewrite last_cons in C. by destruct (last l).
Qed.

(** The entry at height [h] on the way to [p]. *)
Definition stands_at (H : heap) (from : option ptr) (h : Z) (p : ptr) : Prop :=
  match from with Some f => is_ancestor H f p /\ exists c, H !! f = Some c /\ nHeight c = h | None => h = -1 end.

Lemma same_height H q r p b c d : index_ok H -> H !! p = Some b -> is_ancestor H q p -> is_ancestor H r p -> H !! q = Some c -> H !! r = Some d ->
  nHeight c = nHeight d -> q = r.
Proof using.
  intros Hok Hp A1 A2 Hq Hr E. apply (is_ancestor_height H Hok q p b Hp) in A1 as (c' & Hq' & _ & E1).
  apply (is_ancestor_height H Hok r p b Hp) in A2 as (d' & Hr' & _ & E2). assert (c' = c) as -> by congruence. assert (d' = d) as -> by congruence.
  rewrite E in E1. congruence.
Qed.

Lemma to_connect_ok H h from fuel : index_ok H -> forall p b, H !! p = Some b -> h < nHeight b -> nHeight b - h <= Z.of_nat fuel -> stands_at H from h p ->
  exists l, to_connect fuel H (Some p) h = Ret (p :: l) /\ path_up H from (rev (p :: l)) /\
    forall q, q ∈ p :: l -> is_ancestor H q p /\ exists c, H !! q = Some c /\ h < nHeight c.
Proof using.
  intros Hok. induction fuel as [|fuel IH]; intros p b Hp L Lf F; [lia|]. cbn [to_connect]. rewrite (deref_Some H p b Hp). cbn [of_ptr result_bind].
  rewrite (proj2 (Z.eqb_neq _ _)) by lia. destruct (Hok p b Hp) as [Hr Hb].
  assert (One : pprev b = from -> path_up H from (rev [p]) /\ forall q, q ∈ [p] -> is_ancestor H q p /\ exists c, H !! q = Some c /\ h < nHeight c).
  { intros E. split; [split; [by exists b|done]|]. intros q ->%list_elem_of_singleton. split; [apply is_ancestor_refl|by exists b]. }
  destruct (pprev b) as [q|] eqn:Eq.
  - destruct Hb as [(c & Hq & Eh) _]. pose proof (parent_is_ancestor H p b q Hp Eq) as Aq. destruct (decide (nHeight c = h)) as [E|Ne].
    + assert (E1 : to_connect fuel H (Some q) h = Ret []).
      { destruct fuel; cbn [to_connect]; rewrite (deref_Some H q c Hq); cbn [of_ptr result_bind]; by rewrite (proj2 (Z.eqb_eq _ _) E). }
      rewrite E1. cbn [result_bind]. exists []. split; [done|]. apply One. destruct from as [f|].
      * destruct F as [Af (d & Hf & Eh')]. f_equal. apply (same_height H q f p b c d); try done. lia.
      * cbn in F. destruct (Hok q c Hq). lia.
    + assert (Lc : h < nHeight c) by lia.
      assert (F' : stands_at H from h q).
      { destruct from as [f|]; [|done]. destruct F as [Af (d & Hf & Eh')]. split; [|by exists d].
        destruct (is_ancestor_inv H f p b Hp Af) as [->|(q' & Eq' & Af')]; [assert (d = b) as -> by congruence; lia|congruence]. }
      destruct (IH q c Hq Lc ltac:(lia) F') as (l & -> & P & A). cbn [result_bind]. exists (q :: l). split; [done|]. split.
      * change (rev (p :: q :: l)) with (rev (q :: l) ++ [p]). apply path_up_snoc; [done|]. exists b. split; [done|].
        cbn [rev]. rewrite last_snoc. done.
      * intros x [->|Hx]%elem_of_cons; [split; [apply is_ancestor_refl|by exists b]|]. destruct (A x Hx) as [Ax K]. split; [|done]. by apply (is_ancestor_trans H x q p).
  - exists []. assert (E1 : to_connect fuel H None h = Ret []) by (by destruct fuel). rewrite E1. split; [done|]. apply One. destruct from as [f|]; [|done].
    destruct F as [Af (d & Hf & Eh')]. destruct (Hok f d Hf). lia.
Qed.

(** How the loop over the batches ends. *)
Definition batches_end (s : chain_state W) (m : ptr) (old : option ptr) (h : Z) (r : option ptr) (s' : chain_state W) : Prop :=
  match r with
  | None => Tip (cs_active s') = Some m \/ more_work s' old
  | Some p => is_Some (cs_heap s' !! p) /\ is_Some (Tip (cs_active s')) /\
      exists q c, is_ancestor (cs_heap s) q m /\ cs_heap s !! q = Some c /\ h < nHeight c /\ failed_at s' q
  end.

Lemma connect_batches_ok m pblock checked old st : IsInvalid st = false ->
  forall fuel h (s : chain_state W) b, brings (cs_heap s) m pblock -> good s -> cs_heap s !! m = Some b -> stands_at (cs_heap s) (Tip (cs_active s)) h m -> h <= nHeight b ->
  nHeight b - h <= Z.of_nat fuel -> m ∈ setBlockIndexCandidates s -> (forall q, old = Some q -> is_Some (cs_heap s !! q)) ->
  runs stops (connect_batches fuel h m pblock checked old st) s (fun r s' => stepped s s' /\ batches_end s m old h r s').
Proof using.
  intros Hst. induction fuel as [|fuel IH]; intros h s b G Gs Hm F L Lf Im Ko; pose proof Gs as [[floor Hs] Hw];
    pose proof (hi_index _ _ (ch_heap _ _ _ _ Hs)) as Hok; destruct (Hok m b Hm) as [Hr _]; cbn [connect_batches];
    (eapply runs_step; [by apply load_run|]); cbv beta;
    (destruct (Z.eqb_spec h (nHeight b)) as [E|Ne];
      [apply runs_ret; split; [by apply stepped_refl|]; left; destruct (Tip (cs_active s)) as [f|];
        [destruct F as [Af (c & Hf & Eh)]; f_equal; apply (same_height (cs_heap s) f m m b c b); try done; [apply is_ancestor_refl|lia]|cbn in F; lia]|]); [lia|].
  set (T := Z.min (h + 32) (nHeight b)). eapply runs_step; [done|]. cbv beta.
  assert (Lh : -1 <= h) by (destruct (Tip (cs_active s)) as [f|]; [destruct F as [_ (c & Hf & Eh)]; destruct (Hok f c Hf); lia|cbn in F; lia]).
  destruct (ancestor_height _ Hok (Z.to_nat (nHeight b - T)) m b Hm) as (p & c & Ep & Hp & Eh); [lia|].
  assert (Ap : is_ancestor (cs_heap s) p m) by (by eexists).
  eapply runs_step; [unfold lift; rewrite (GetAncestor_spec _ Hok m b T Hm), (proj2 (Z.leb_le 0 T)), (proj2 (Z.leb_le T (nHeight b))) by lia; cbn [andb]; by rewrite Ep|].
  cbv beta. assert (F' : stands_at (cs_heap s) (Tip (cs_active s)) h p).
  { destruct (Tip (cs_active s)) as [f|]; [|done]. destruct F as [Af (d & Hf & Eh')]. split; [|by exists d].
    apply (ancestors_linear _ Hok f p m b d c); try done. lia. }
  destruct (to_connect_ok (cs_heap s) h (Tip (cs_active s)) 32 Hok p c Hp ltac:(lia) ltac:(lia) F') as (l & El & P & A).
  eapply runs_step; [unfold lift; by rewrite El|]. cbv beta.
  eapply runs_bind; [apply (connect_batch_ok (rev (p :: l)) p m pblock checked old st Hst s (Tip (cs_active s)) G Gs eq_refl P)|].
  - intros q Hq. apply (is_ancestor_trans _ q p m); [|done]. apply A. by apply elem_of_rev.
  - done.
  - by exists c.
  - done.
  - intros r s1 [St B]. destruct r; cbn [batch_end] in B.
    + destruct B as [Im1 Et1]. cbn [rev] in Et1. rewrite last_snoc in Et1. pose proof (kept_tree _ _ (sp_kept _ _ St)) as HS.
      destruct (same_tree_lookup _ _ HS m b Hm) as (b1 & Hm1 & (_ & _ & _ & Eb1 & _)%node_fields).
      destruct (same_tree_lookup _ _ HS p c Hp) as (c1 & Hp1 & (_ & _ & _ & Ec1 & _)%node_fields).
      eapply runs_conseq; [apply (IH T s1 b1); [by apply (brings_same (cs_heap s))|apply St|done| |lia|lia|done|]|].
      * rewrite Et1. split; [by apply (is_ancestor_same _ _ HS)|]. exists c1. split; [done|lia].
      * intros q Eq. by apply (known_same _ _ HS), Ko.
      * intros r s2 [St2 B]. split; [by apply (stepped_trans _ s1)|]. destruct r as [x|]; [|done]. destruct B as (B1 & B2 & q & d & Aq & Hq & Ld & Fq).
        split; [done|]. split; [done|]. destruct (same_tree_back _ _ HS q d Hq) as (d0 & Hd0 & (_ & _ & _ & Ed & _)%node_fields).
        exists q, d0. split; [by apply (is_ancestor_same _ _ HS)|]. split; [done|]. split; [lia|done].
    + apply runs_ret. split; [done|]. by right.
    + apply runs_ret. split; [done|]. destruct B as (Kt & q & Hq & Fq). assert (Hq' : q ∈ p :: l) by (by apply elem_of_rev).
      destruct (last (p :: l)) as [y|] eqn:Ey; [|by apply last_None in Ey]. split; [|split; [done|]].
      * apply (known_same _ _ (kept_tree _ _ (sp_kept _ _ St))). destruct (A y (last_Some_elem_of _ _ Ey)) as [_ (d & ? & _)]. by exists d.
      * destruct (A q Hq') as [Aq (d & Hd & Ld)]. exists q, d. split; [by apply (is_ancestor_trans _ q p m)|done].
Qed.

(** ** A step *)

Lemma disconnect_to_ok floor f st : IsInvalid st = false -> forall fuel (s : chain_state W) t bt c, Inv floor s -> at_own_tip s ->
  Tip (cs_active s) = Some t -> cs_heap s !! t = Some bt -> is_ancestor (cs_heap s) f t -> cs_heap s !! f = Some c ->
  nHeight bt - nHeight c <= Z.of_nat fuel ->
  runs stops (disconnect_to fuel (Some f) st) s (fun _ s' => Inv floor s' /\ at_own_tip s' /\ cs_heap s' = cs_heap s /\
    Tip (cs_active s') = Some f /\ setBlockIndexCandidates s' = setBlockIndexCandidates s).
Proof using.
  intros Hst. induction fuel as [|fuel IH]; intros s t bt c Hs Hw Et Ht A Hf L; pose proof (hi_index _ _ (ch_heap _ _ _ _ Hs)) as Hok;
    cbn [disconnect_to]; (eapply runs_step; [done|]); cbv beta; rewrite Et;
    (destruct (decide (t = f)) as [->|Nt]; [rewrite bool_decide_true by (by right); by apply runs_ret|rewrite bool_decide_false by (by intros [|[= ?]])]).
  all: pose proof (is_ancestor_height _ Hok f t bt Ht) as [HA _]; destruct (HA A) as (c' & Hf' & Lc & _); assert (c' = c) as -> by congruence.
  all: destruct (is_ancestor_inv _ f t bt Ht A) as [->|(q & Eq & Aq)]; [done|]; destruct (Hok t bt Ht) as [_ Hb]; rewrite Eq in Hb; destruct Hb as [(d & Hq & Eh) _].
  { destruct (proj1 (is_ancestor_height _ Hok f q d Hq) Aq) as (c' & Hf2 & Lc2 & _). assert (c' = c) as -> by congruence. lia. }
  eapply runs_bind; [by apply (DisconnectTip_ok floor s t bt q st)|]. intros _ s1 (Hs1 & Eh1 & Mv).
  assert (Et1 : Tip (cs_active s1) = Some q) by (apply (moved_Tip s); [by exists d|done]).
  eapply runs_conseq; [apply (IH s1 q d c Hs1); rewrite ?Eh1; try done; [|lia]|].
  - pose proof (mv_tip _ _ _ Mv) as T. rewrite Eh1 in T. by rewrite Et1.
  - intros _ s2 (B1 & B2 & B3 & B4 & B5). do 2 (split; [done|]). split; [congruence|]. split; [done|]. rewrite B5. apply Mv.
Qed.

Lemma FindFork_empty H m b : index_ok H -> H !! m = Some b -> FindFork H [] (Some m) = Ret None.
Proof using.
  intros Hok Hm. unfold FindFork. rewrite (deref_Some H m b Hm). cbn [result_bind]. destruct (Hok m b Hm) as [Hr _].
  change (Height []) with (-1). rewrite Z.gtb_ltb, (proj2 (Z.ltb_lt _ _)) by lia.
  rewrite (GetAncestor_spec H Hok m b (-1) Hm). cbn [Z.leb Z.compare andb result_bind]. by destruct (Z.to_nat (nHeight b + 1)).
Qed.

(** The chain is brought down to where it leaves that of [m]. *)
Lemma to_fork_ok floor (s : chain_state W) m b st : Inv floor s -> at_own_tip s -> cs_heap s !! m = Some b -> IsInvalid st = false ->
  exists r, FindFork (cs_heap s) (cs_active s) (Some m) = Ret r /\
  (forall q, is_ancestor (cs_heap s) q m -> in_active (cs_heap s) (cs_active s) q -> exists f, r = Some f /\ is_ancestor (cs_heap s) q f) /\
  (forall f, r = Some f -> is_Some (cs_heap s !! f)) /\
  runs stops (disconnect_to (length (cs_active s)) r st) s (fun _ s' => good s' /\ cs_heap s' = cs_heap s /\
    setBlockIndexCandidates s' = setBlockIndexCandidates s /\ Tip (cs_active s') = r /\
    stands_at (cs_heap s) r (match r with None => -1 | Some f => match cs_heap s !! f with Some c => nHeight c | None => -1 end end) m).
Proof using.
  intros Hs Hw Hm Hst. pose proof (hi_index _ _ (ch_heap _ _ _ _ Hs)) as Hok. pose proof (ch_tip _ _ _ _ Hs) as [Hc Ht].
  pose proof (chain_ok_Tip _ _ Hc) as Hch. destruct (Tip (cs_active s)) as [t|] eqn:Et.
  - destruct Hch as [Kt Ea]. destruct (FindFork_spec _ Hok t m Kt ltac:(by exists b)) as (r & E & Cm). rewrite Ea, E. exists r. split; [done|].
    destruct (common_root accepts _ m t (ch_heap _ _ _ _ Hs) ltac:(by exists b) Kt) as (z & Z1 & Z2).
    destruct r as [f|]; [|by destruct (Cm z)]. destruct Cm as (A1 & A2 & A3). destruct (ancestor_Some _ Hok f m ltac:(by exists b) A1) as [c Hf].
    split; [intros q Aq (t' & Et' & At'); exists f; split; [done|]; apply A3; [done|]; rewrite <- Ea, Et in Et'; by injection Et' as <-|].
    split; [intros f' [= <-]; by exists c|].
    destruct Kt as [bt Hbt]. destruct (Hok t bt Hbt) as [Hr _]. destruct (Hok f c Hf).
    eapply runs_conseq; [apply (disconnect_to_ok floor f st Hst _ s t bt c); try done; [by rewrite Et|rewrite (chain_of_length _ t bt) by done; lia]|].
    intros _ s' (B1 & B2 & B3 & B4 & B5). split; [split; [by exists floor|done]|]. do 3 (split; [done|]). split; [done|]. exists c. by rewrite Hf.
  - rewrite Hch. exists None. split; [by apply (FindFork_empty _ m b)|]. split; [intros q _ (t' & Et' & _); done|]. split; [done|].
    cbn [disconnect_to length]. eapply runs_step; [done|]. cbv beta. rewrite Et. rewrite bool_decide_true by (by left). apply runs_ret.
    split; [split; [by exists floor|by rewrite Et]|]. done.
Qed.

Lemma ActivateBestChainStep_ok (s : chain_state W) m pblock checked st : good s -> IsInvalid st = false ->
  brings (cs_heap s) m pblock -> most_work (cs_heap s) (cs_active s) (setBlockIndexCandidates s) m ->
  runs stops (ActivateBestChainStep st m pblock checked) s (fun found s' => stepped s s' /\ is_Some (Tip (cs_active s')) /\
    if found then exists q, failed_at s' q /\ ~ failed_at s q else Tip (cs_active s') = Some m \/ more_work s' (Tip (cs_active s))).
Proof using.
  intros [[floor Hs] Hw] Hst G (Im & Max & Live). pose proof (hi_index _ _ (ch_heap _ _ _ _ Hs)) as Hok.
  pose proof (ci_linked _ _ _ _ _ (ch_cand _ _ _ _ Hs) m Im) as Lm. destruct (linked_known _ _ Lm) as [b Hm]. destruct (Hok m b Hm) as [Hr _].
  destruct (to_fork_ok floor s m b st Hs Hw Hm Hst) as (r & E & Above & Kr & D).
  unfold ActivateBestChainStep. eapply runs_step; [done|]. cbv beta zeta. eapply runs_step; [unfold lift; by rewrite E|]. cbv beta.
  eapply runs_bind; [exact D|]. intros _ s1 (G1 & Eh & Ec & Et1 & F). set (h0 := match r with None => -1 | Some f => _ end) in F. cbv beta.
  eapply (runs_step _ _ _ _ h0 s1).
  { destruct r as [f|]; [|done]. destruct (Kr f eq_refl) as [c Hf]. unfold ebind. rewrite (load_run s1 f c) by (by rewrite Eh). unfold h0. by rewrite Hf. }
  cbv beta. eapply runs_step; [apply load_run; by rewrite Eh|]. cbv beta.
  assert (Lh : h0 <= nHeight b).
  { unfold h0. destruct r as [f|]; [|lia]. destruct F as [Af _]. destruct (Kr f eq_refl) as [c Hf]. rewrite Hf.
    destruct (proj1 (is_ancestor_height _ Hok f m b Hm) Af) as (c' & Hf' & ? & _). assert (c' = c) as -> by congruence. lia. }
  eapply runs_bind; [apply (connect_batches_ok m pblock checked (Tip (cs_active s)) st Hst _ h0 s1 b); rewrite ?Eh, ?Et1, ?Ec; try done; [lia|]|].
  { intros q Eq. by apply linked_known, (ch_tip _ _ _ _ Hs). }
  intros found s2 [St B]. assert (St' : stepped s s2).
  { split; [apply St|rewrite <- Eh; apply St|rewrite <- Ec; apply St]. }
  destruct (sp_good _ _ St) as [[floor2 Hs2] Hw2].
  assert (Fin : forall (x : bool) s3, warned s2 s3 -> is_Some (Tip (cs_active s2)) -> (if x then exists q, failed_at s2 q /\ ~ failed_at s q else
      Tip (cs_active s2) = Some m \/ more_work s2 (Tip (cs_active s))) -> stepped s s3 /\ is_Some (Tip (cs_active s3)) /\
    if x then exists q, failed_at s3 q /\ ~ failed_at s q else Tip (cs_active s3) = Some m \/ more_work s3 (Tip (cs_active s))).
  { intros x s3 Hwn Kt HB. split; [|by destruct Hwn as (fk & -> & _)]. destruct Hwn as (fk & -> & HF).
    split; [split; [exists floor2; by apply (warned_inv floor2 s2); [|by exists fk]|exact Hw2]|apply St'|apply St']. }
  destruct found as [p|]; cbn [batches_end] in B.
  - destruct B as (Kp & [t Et] & q & c & Aq & Hq & Lq & Fq). rewrite Eh in Aq, Hq.
    eapply runs_bind; [by apply (CheckForkWarningConditionsOnNewFork_ok floor2 s2 p t)|]. intros ? s3 Wn. apply runs_ret.
    apply (Fin true s3); [done|by exists t|]. exists q. split; [done|]. apply Live; [done|]. intros Act.
    destruct (Above q Aq Act) as (f & -> & Af). destruct (Kr f eq_refl) as [cf Hf]. destruct (proj1 (is_ancestor_height _ Hok q f cf Hf) Af) as (c' & Hq' & Lc & _).
    replace c' with c in Lc by congruence. unfold h0 in Lq. rewrite Hf in Lq. lia.
  - assert (Kt : is_Some (Tip (cs_active s2))) by (destruct B as [->|(t & ? & -> & _)]; by eexists). destruct Kt as [t Et].
    eapply runs_bind; [by apply (CheckForkWarningConditions_ok floor2 s2 t)|]. intros ? s3 Wn. apply runs_ret.
    apply (Fin false s3); [done|by exists t|done].
Qed.

End proofs.
