(* ===== verification/Activation.v ===== *)
(** * Activation of the best chain ([main.cpp])

    [ActivateBestChain] ends, and leaves the tip at the best of the entries whose chains are
    complete and accepted; the invariant of the tree of blocks holds in every state that
    headers, blocks and activations lead to. *)

From Stdlib Require Import ZArith Lia List Bool.
From stdpp Require Import base option list gmap fin_map_dom.
From S2P Require Import Prelude Uint256 Compact Serialize MerkleDamgard Hash Script Interpreter Effects Tx Params BlockIndex Pow Chain Block TxCheck CheckBlock Accept Candidates Linking BestChain.

Open Scope Z_scope.
Open Scope btc_scope.

(** ** The turns get fewer *)

Definition entries_where (f : CBlockIndex -> bool) (H : heap) : gset ptr := dom (filter (fun e => f e.2 = true) H).

Lemma entries_where_spec f H p : p ∈ entries_where f H <-> exists b, H !! p = Some b /\ f b = true.
Proof.
  unfold entries_where. rewrite elem_of_dom. split.
  - intros [b Hb]. apply map_lookup_filter_Some in Hb. by exists b.
  - intros (b & Hb & F). exists b. by apply map_lookup_filter_Some.
Qed.

Lemma entries_where_size f H : (size (entries_where f H) <= size H)%nat.
Proof.
  rewrite <- (size_dom (D := gset ptr) H). apply subseteq_size. intros p (b & Hb & _)%entries_where_spec. apply elem_of_dom. by exists b.
Qed.

(** The entries that have not failed, and those with more work than the tip. *)
Definition unfailed (H : heap) : gset ptr := entries_where (fun b => negb (failed b)) H.
Definition above (H : heap) (t : option ptr) : gset ptr :=
  entries_where (fun b => match t ≫= (H !!.) with Some c => val (nChainWork c) <? val (nChainWork b) | None => true end) H.
Definition turns_left (H : heap) (t : option ptr) : nat := size (unfailed H) * S (size H) + size (above H t).

Lemma turns_left_bound H t : (turns_left H t < S (size H) * S (size H))%nat.
Proof. unfold turns_left. pose proof (entries_where_size (fun b => negb (failed b)) H) as A. fold (unfailed H) in A. pose proof (entries_where_size _ H : (size (above H t) <= _)%nat). nia. Qed.

Lemma kept_size H H' : kept H H' -> size H' = size H.
Proof. intros K. rewrite <- (map_size_fmap key_of H), <- (map_size_fmap key_of H'). by rewrite (k_keys _ _ K). Qed.

Lemma unfailed_kept H H' : kept H H' -> unfailed H' ⊆ unfailed H.
Proof.
  intros K p (b' & Hb' & F)%entries_where_spec. destruct (kept_back H H' K p b' Hb') as (b & Hb & _). apply entries_where_spec. exists b. split; [done|].
  destruct (failed b) eqn:E; [|done]. by rewrite (k_failed _ _ K p b b' Hb Hb' E) in F.
Qed.

Lemma unfailed_drops H H' q b b' : kept H H' -> H !! q = Some b -> failed b = false -> H' !! q = Some b' -> failed b' = true ->
  (size (unfailed H') < size (unfailed H))%nat.
Proof.
  intros K Hq F Hq' F'. apply subset_size. split; [by apply unfailed_kept|]. intros S. assert (I : q ∈ unfailed H) by (apply entries_where_spec; exists b; by rewrite F).
  apply S in I. apply entries_where_spec in I as (c & Hc & E). replace c with b' in E by congruence. by rewrite F' in E.
Qed.

Lemma above_same H H' t : kept H H' -> above H' t = above H t.
Proof.
  intros K. apply set_eq. intros p. unfold above. rewrite !entries_where_spec.
  assert (Et : (fun c => val (nChainWork c)) <$> (t ≫= (H' !!.)) = (fun c => val (nChainWork c)) <$> (t ≫= (H !!.))).
  { destruct t as [q|]; [|done]. cbn [mbind option_bind]. destruct (H !! q) as [c|] eqn:Hq.
    - destruct (kept_lookup H H' K q c Hq) as (c' & -> & ((_ & _ & _ & _ & E & _)%node_fields & _)%key_fields). cbn. by rewrite E.
    - destruct (H' !! q) as [c'|] eqn:Hq'; [|done]. destruct (kept_back H H' K q c' Hq') as (c & Hc & _). congruence. }
  assert (Ew : forall b, match t ≫= (H' !!.) with Some c => val (nChainWork c) <? val (nChainWork b) | None => true end =
                         match t ≫= (H !!.) with Some c => val (nChainWork c) <? val (nChainWork b) | None => true end).
  { intros b. destruct (t ≫= (H' !!.)), (t ≫= (H !!.)); cbn in Et; try done. injection Et as Et. by rewrite Et. }
  split; intros (b & Hb & E).
  - destruct (kept_back H H' K p b Hb) as (c & Hc & ((_ & _ & _ & _ & Eb & _)%node_fields & _)%key_fields). exists c. split; [done|]. by rewrite <- Ew, <- Eb.
  - destruct (kept_lookup H H' K p b Hb) as (c & Hc & ((_ & _ & _ & _ & Eb & _)%node_fields & _)%key_fields). exists c. split; [done|]. by rewrite Ew, Eb.
Qed.

Lemma turns_left_kept H H' t : kept H H' -> (turns_left H' t <= turns_left H t)%nat.
Proof.
  intros K. unfold turns_left. rewrite (kept_size _ _ K), (above_same H H' t K). pose proof (subseteq_size _ _ (unfailed_kept _ _ K)). nia.
Qed.

Lemma above_drops H old t b : (forall q, old = Some q -> is_Some (H !! q)) -> H !! t = Some b ->
  (forall q c, old = Some q -> H !! q = Some c -> val (nChainWork c) < val (nChainWork b)) ->
  (size (above H (Some t)) < size (above H old))%nat.
Proof.
  intros K Ht L. apply subset_size. unfold above. cbn [mbind option_bind]. rewrite Ht. split.
  - intros p (c & Hc & E%Z.ltb_lt)%entries_where_spec. apply entries_where_spec. exists c. split; [done|]. destruct old as [q|]; [|done].
    cbn [mbind option_bind]. destruct (H !! q) as [d|] eqn:Hq; [|done]. apply Z.ltb_lt. specialize (L q d eq_refl Hq). lia.
  - intros S. assert (I : t ∈ entries_where (fun b0 => match old ≫= (H !!.) with Some c => val (nChainWork c) <? val (nChainWork b0) | None => true end) H).
    { apply entries_where_spec. exists b. split; [done|]. destruct old as [q|]; [|done]. cbn [mbind option_bind]. destruct (K q eq_refl) as [d Hq]. rewrite Hq.
      apply Z.ltb_lt. by apply (L q). }
    apply S in I. apply entries_where_spec in I as (c & Hc & E%Z.ltb_lt). replace c with b in E by congruence. lia.
Qed.

Section proofs.
Context {W : Type} {N : Node W} (HashQuark : bytes -> uint256) (accepts : uint256 -> Prop) (genuine : uint256 -> CBlock -> Prop) (X : failure -> Prop).
Context {NOk : NodeOk W accepts genuine X}.
Abbreviation good := (good accepts genuine X).
Abbreviation stops := (stops accepts genuine X).

(** The tip is the best of the entries whose chains are complete and accepted. *)
Definition best_tip (s : chain_state W) : Prop :=
  match Tip (cs_active s) with
  | Some t => linked (cs_heap s) t /\ sound accepts (cs_heap s) t /\
      forall x, linked (cs_heap s) x -> sound accepts (cs_heap s) x -> worse (cs_heap s) t x = false
  | None => forall x, linked (cs_heap s) x -> ~ sound accepts (cs_heap s) x
  end.

(** No candidate is better than [m], which is one, and the tip. *)
Lemma best_candidate floor (s : chain_state W) m : chain_inv accepts floor [] s -> Tip (cs_active s) = Some m ->
  (forall x, x ∈ setBlockIndexCandidates s -> worse (cs_heap s) m x = false) -> best_tip s.
Proof using.
  intros Hs Et Max. destruct (ch_tip _ _ _ _ Hs) as [_ Ht]. destruct (Ht m Et) as [L S]. unfold best_tip. rewrite Et. split; [done|]. split; [done|].
  intros x Lx Sx. pose proof (heap_works _ _ (ch_heap _ _ _ _ Hs)) as HW. destruct (ch_cand _ _ _ _ Hs) as [_ _ C3]. destruct floor as [r|]; [|destruct C3; congruence].
  destruct C3 as (Ir & _ & All). destruct (worse (cs_heap s) x r) eqn:E; [|by apply Max, All].
  destruct (worse (cs_heap s) m x) eqn:E'; [|done]. pose proof (worse_trans _ HW m x r E' E) as F. by rewrite (Max r Ir) in F.
Qed.

Lemma best_none floor (s : chain_state W) : chain_inv accepts floor [] s -> setBlockIndexCandidates s = ∅ -> best_tip s.
Proof using.
  intros Hs E. destruct (ch_cand _ _ _ _ Hs) as [_ _ C3]. rewrite E in C3. destruct floor as [r|]; [by destruct C3 as [?%elem_of_empty _]|].
  destruct C3 as [Et All]. unfold best_tip. rewrite Et. intros x L S. by apply (elem_of_empty x (C := gset ptr)), All.
Qed.

(** The block that the caller brings is the one its hash says. *)
Definition known_block (pblock : option CBlock) : Prop := forall block, pblock = Some block -> genuine (CBlockHeader_GetHash HashQuark block) block.

Lemma FindFork_total H c old : heap_inv accepts H -> chain_ok H c -> known_opt H old -> exists r, FindFork H c old = Ret r.
Proof using.
  intros Hi [->|(t & Kt & ->)] K; (destruct old as [p|]; [|by exists None]).
  - destruct K as [b Hp]. exists None. apply (FindFork_empty H p b); [apply Hi|done].
  - destruct (FindFork_spec H (hi_index _ _ Hi) t p Kt K) as (r & E & _). by exists r.
Qed.

(** The step and the notification: a turn that finds something to do. *)
Lemma turn_measure (s s1 : chain_state W) m (found : bool) : good s -> stepped accepts genuine X s s1 -> is_Some (Tip (cs_active s1)) ->
  (if found then exists q, failed_at s1 q /\ ~ failed_at s q else Tip (cs_active s1) = Some m \/ more_work s1 (Tip (cs_active s))) ->
  (found = false /\ Tip (cs_active s1) = Some m) \/ (turns_left (cs_heap s1) (Tip (cs_active s1)) < turns_left (cs_heap s) (Tip (cs_active s)))%nat.
Proof using.
  intros [[floor Hs] _] St Kt B. pose proof (sp_kept _ _ _ _ _ St) as K. unfold turns_left. rewrite (kept_size _ _ K). set (n := size (cs_heap s)).
  pose proof (subseteq_size _ _ (unfailed_kept _ _ K)) as LU. destruct found.
  - right. destruct B as (q & (b & Hq & F) & Nf). destruct (kept_back _ _ K q b Hq) as (c & Hc & _).
    assert (Fc : failed c = false) by (destruct (failed c) eqn:E; [by destruct Nf; exists c|done]).
    pose proof (unfailed_drops _ _ q c b K Hc Fc Hq F). pose proof (entries_where_size _ (cs_heap s1) : (size (above (cs_heap s1) (Tip (cs_active s1))) <= _)%nat) as LA.
    rewrite (kept_size _ _ K) in LA. fold n in LA. nia.
  - destruct B as [E|(t & b & Et & Ht & L)]; [by left|]. right. rewrite Et, (above_same (cs_heap s) (cs_heap s1) (Some t) K).
    destruct (kept_back _ _ K t b Ht) as (c & Hc & ((_ & _ & _ & _ & Ew & _)%node_fields & _)%key_fields).
    enough (size (above (cs_heap s) (Some t)) < size (above (cs_heap s) (Tip (cs_active s))))%nat by nia.
    apply (above_drops _ _ t c); [|done|].
    + intros q Eq. by apply linked_known, (ch_tip _ _ _ _ Hs).
    + intros q d Eq Hd. destruct (kept_lookup _ _ K q d Hd) as (d' & Hd' & ((_ & _ & _ & _ & Ew' & _)%node_fields & _)%key_fields).
      rewrite <- Ew, <- Ew'. by apply (L q).
Qed.

Lemma ActivateBestChain_loop_ok fuel : forall (s : chain_state W) st pblock checked, good s -> IsInvalid st = false -> known_block pblock ->
  (turns_left (cs_heap s) (Tip (cs_active s)) < fuel)%nat ->
  runs stops (ActivateBestChain_loop HashQuark fuel st pblock checked) s (fun _ s' => good s' /\ kept (cs_heap s) (cs_heap s') /\ best_tip s').
Proof using.
  induction fuel as [|fuel IH]; intros s st pblock checked G Hst Gb L; [lia|]. cbn [ActivateBestChain_loop]. pose proof G as [[floor Hs] Hw].
  eapply runs_step; [done|]. cbv beta. eapply runs_bind; [by apply (FindMostWorkChain_ok accepts genuine X floor s)|]. intros most s1 [St R]. cbv beta.
  destruct most as [m|]; [|apply runs_ret; split; [|split; [apply St|]]].
  2: { split; [exists floor|]; apply St. }
  2: { apply (best_none floor); [apply St|done]. }
  pose proof (st_kept _ _ _ _ _ _ St) as K1. pose proof (st_active _ _ _ _ _ _ St) as Ea. rewrite <- Ea.
  case_bool_decide as D.
  { apply runs_ret. split; [split; [exists floor|]; apply St|]. split; [done|]. apply (best_candidate floor _ m); [apply St|done|apply R]. }
  assert (G1 : good s1) by (split; [exists floor|]; apply St).
  destruct R as (Im & Max & Live). pose proof (st_inv _ _ _ _ _ _ St) as Hs1.
  destruct (linked_known _ _ (ci_linked _ _ _ _ _ (ch_cand _ _ _ _ Hs1) m Im)) as [e He].
  eapply runs_step; [by apply load_run|]. cbv beta. set (blk := match pblock with Some b => _ | None => None end).
  assert (Br : brings genuine (cs_heap s1) m blk).
  { intros block e' Eb He'. replace e' with e by congruence. unfold blk in Eb. destruct pblock as [b|]; [|done]. case_bool_decide as Eh; [|done].
    injection Eb as <-. rewrite <- Eh. by apply Gb. }
  eapply runs_bind; [by apply (ActivateBestChainStep_ok accepts genuine X s1 m blk checked st)|]. intros found s2 (St2 & Kt & B).
  destruct Kt as [t Et]. destruct (sp_good _ _ _ _ _ St2) as [[floor2 Hs2] Hw2]. pose proof (kept_tree _ _ (sp_kept _ _ _ _ _ St2)) as HS2.
  destruct (linked_known _ _ (proj1 (proj2 (ch_tip _ _ _ _ Hs2) t Et))) as [bt Hbt].
  eapply runs_step; [done|]. cbv beta. rewrite Et. eapply runs_step; [by apply load_run|]. cbv beta.
  destruct (FindFork_total (cs_heap s2) (cs_active s2) (Tip (cs_active s1))) as [f Ef]; [apply Hs2|apply Hs2| |].
  { destruct (Tip (cs_active s1)) as [q|] eqn:Eq; [|done]. apply (known_same _ _ HS2). by apply linked_known, (ch_tip _ _ _ _ Hs1). }
  eapply (runs_step _ _ _ _ (if nHeight bt <? 1 then None else f)); [destruct (nHeight bt <? 1); [done|by unfold lift; rewrite Ef]|]. cbv beta.
  set (x := negb _). set (s3 := if x then set_world (NotifyBlockTip (blockHash bt) (cs_world s2)) s2 else s2).
  eapply (runs_step _ _ _ _ tt s3); [unfold s3; by destruct x|]. cbv beta.
  assert (F3 : (forall fl, chain_inv accepts fl [] s2 -> chain_inv accepts fl [] s3) /\ cs_heap s3 = cs_heap s2 /\ cs_active s3 = cs_active s2 /\
    setBlockIndexCandidates s3 = setBlockIndexCandidates s2 /\ at_tip (cs_heap s3) (Tip (cs_active s3)) (cs_world s3)).
  { unfold s3. destruct x; [|done]. split; [by intros fl []|]. do 3 (split; [done|]). by apply aside_ok. }
  destruct F3 as (F3 & Eh3 & Ea3 & Ec3 & Hw3). assert (G3 : good s3) by (split; [exists floor2; by apply F3|done]).
  assert (K3 : kept (cs_heap s) (cs_heap s3)) by (rewrite Eh3; apply (kept_trans _ (cs_heap s1)); [done|apply St2]).
  assert (Again : (turns_left (cs_heap s2) (Some t) < turns_left (cs_heap s1) (Tip (cs_active s1)))%nat ->
    runs stops (ActivateBestChain_loop HashQuark fuel (if found then CValidationState_new else st) pblock checked) s3
      (fun _ s' => good s' /\ kept (cs_heap s) (cs_heap s') /\ best_tip s')).
  { intros D2. eapply runs_conseq; [apply IH; [done|by destruct found|done|]|].
    - rewrite Eh3, Ea3, Et. pose proof (turns_left_kept _ _ (Tip (cs_active s)) K1). rewrite Ea in D2. lia.
    - intros _ s' (G' & K' & B'). split; [done|]. split; [by apply (kept_trans _ (cs_heap s3))|done]. }
  assert (Turn := turn_measure s1 s2 m found G1 St2 (ex_intro _ t Et) B). rewrite Et in Turn.
  destruct found; cbn [negb andb]; [destruct Turn as [[? _]|Turn]; [done|by apply Again]|].
  case_bool_decide as Dm; [|destruct Turn as [[_ ?]|Turn]; [done|by apply Again]].
  eapply runs_conseq; [apply (flush_quiet accepts genuine X floor2 s3 st FLUSH_STATE_PERIODIC (cs_heap s3) (Tip (cs_active s3))); [by apply F3|done|done]|].
  intros _ s4 [(Hs4 & Eh4 & Ea4 & Ec4) Hw4]. split; [split; [by exists floor2|by rewrite Eh4, Ea4]|]. rewrite Eh4. split; [done|].
  apply (best_candidate floor2 s4 m Hs4); [by rewrite Ea4, Ea3, Et|]. rewrite Ec4, Ec3, Eh4, Eh3. intros y Hy.
  rewrite (kept_worse _ _ (sp_kept _ _ _ _ _ St2)). by apply Max, (sp_cand _ _ _ _ _ St2).
Qed.

Lemma ActivateBestChain_ok (s : chain_state W) st pblock checked : good s -> IsInvalid st = false -> known_block pblock ->
  runs stops (ActivateBestChain HashQuark st pblock checked) s (fun _ s' => good s' /\ kept (cs_heap s) (cs_heap s') /\ best_tip s').
Proof using.
  intros G Hst Gb. unfold ActivateBestChain. eapply runs_step; [done|]. apply ActivateBestChain_loop_ok; [done|done|done|]. apply turns_left_bound.
Qed.
End proofs.
