(* ===== verification/Arrival.v ===== *)
(** * Arrival of blocks ([main.cpp])

    [ProcessNewBlock] checks a block that comes from a peer, from the miner or from a file,
    [AcceptBlock] gives it an entry, checks it on top of its parent and stores it, and the
    best chain is activated.  What the rest of the node does on the way is behind the
    interface [Arrival]. *)

From Stdlib Require Import ZArith Lia List Bool String.
From stdpp Require Import base option list gmap.
From S2P Require Import Prelude Uint256 Compact Serialize MerkleDamgard Hash Script Interpreter Effects Tx Coins Params BlockIndex Checkpoints Pow Chain Block TxCheck CheckBlock Accept Candidates Linking BestChain Activation.

Open Scope Z_scope.
Open Scope btc_scope.

Definition nMaxPastTimeSecs : Z := 100.

(** What the functions ask of the rest of the node, besides [Node]. *)
Class Arrival (W : Type) : Type := {
  GetTime : W -> Z;
  GetAdjustedTime : W -> Z;
  (** [CheckBlock] with the tables of the node; [CheckWork] and [CheckBlockSignature], which
      rest on the kernel of proof of stake and on the standard scripts. *)
  CheckBlock_here : CBlock -> CValidationState -> W -> result failure unit * W;
  CheckWork : CBlock -> option ptr -> block_index -> W -> result failure bool;
  CheckBlockSignature : CBlock -> result failure bool;
  (** [CCoinsViewCache(pcoinsTip).AccessCoins]. *)
  AccessCoins : uint256 -> W -> option CCoins;
  (** [FindBlockPos] and [WriteBlockToDisk], for a block at a height; the position. *)
  StoreBlock : CBlock -> CValidationState -> option CDiskBlockPos -> Z -> W -> result failure CDiskBlockPos * W;
  (** Messages to a peer and what is kept about it. *)
  push_getblocks : Z -> list uint256 -> W -> W;
  MarkBlockAsReceived : uint256 -> W -> W;
  set_source : uint256 -> Z -> W -> W;
  block_spam : Z -> Z -> CValidationState -> W -> CValidationState * W;
  (** Masternodes and wallet after a block that is accepted. *)
  block_connected : W -> W }.

Section arrival.
Context {W : Type} {N : Node W} {A : Arrival W}.
Context (params : CChainParams) (HashQuark : bytes -> uint256).
Context (HashGenesisBlock : uint256) (nMaxReorgDepth COINBASE_MATURITY : Z) (fEnabled : bool) (checkpoints : MapCheckpoints).
Context (ComputeNextStakeModifier : ptr -> Z * bool) (ComputeStakeModifierV2 : ptr -> uint256 -> uint256).
Abbreviation act := (eff (chain_state W) failure).

(** ** [AcceptBlock] *)

(** The verdict as a value: [return false] with a state. *)
Definition attempt {T} (m : act T) : act (result CValidationState T) := fun s =>
  match m s with
  | (Ret a, s) => (Ret (Ret a), s)
  | (Err (Rejected state), s) => (Ret (Err state), s)
  | (Err e, s) => (Err e, s)
  end.

Definition check_work (block : CBlock) (pindexPrev : option ptr) (state : CValidationState) : act unit :=
  if bool_decide (CBlockHeader_GetHash HashQuark block = HashGenesisBlock) then eret tt else
  do* s := get in
  do* ok := lift (CheckWork block pindexPrev (cs_index s) (cs_world s)) in
  if ok then eret tt else lift (reject 100 0 "" state).

(** [AcceptBlockHeader] on the index of the node. *)
Definition accept_header (block : CBlock) (state : CValidationState) : act ptr := fun s =>
  let '(r, index) := AcceptBlockHeader params HashQuark HashGenesisBlock nMaxReorgDepth fEnabled checkpoints (GetTime (cs_world s)) (GetAdjustedTime (cs_world s))
    (cs_active s) ComputeNextStakeModifier ComputeStakeModifierV2 block state (cs_index s) in (r, set_index index s).

Definition check_block (block : CBlock) (state : CValidationState) : act unit := fun s =>
  let '(r, w) := CheckBlock_here block state (cs_world s) in (r, set_world w s).

(** The checks of the contents; an entry whose block is invalid is marked. *)
Definition check_contents (block : CBlock) (state : CValidationState) (fAlreadyCheckedBlock : bool) (p : ptr) : act unit :=
  do* r := attempt (do* _ := (if fAlreadyCheckedBlock then eret tt else check_block block state) in
                    do* b := load (Some p) in
                    do* s := get in
                    lift (ContextualCheckBlock (GetAdjustedTime (cs_world s)) (cs_active s) (cs_heap s) block state (pprev b))) in
  match r with
  | Err state =>
      do* _ := (if IsInvalid state && negb (corruptionPossible state) then
                  do* b := load (Some p) in
                  do* _ := update (put p (with_status b (Z.lor (nStatus b) BLOCK_FAILED_VALID))) in
                  update (mark_dirty p)
                else eret tt) in
      throw (Rejected state)
  | Ret _ => eret tt
  end.

Definition spends_any (inputs : list CTxIn) (tx : CTransaction) : bool :=
  existsb (fun i => existsb (fun stakeIn => bool_decide (prevout stakeIn = prevout i)) inputs) (tx_vin tx).

(** [while (!chainActive.Contains(prev))]: the blocks of the fork from [prev] down; [bl] is
    that of [prev].  The count reaches the limit or the chain its end, and the height of the
    first entry bounds the turns.  At the end of the chain the message of the error reads
    through the null pointer. *)
Fixpoint check_fork (fuel : nat) (inputs : list CTxIn) (state : CValidationState) (prev : option ptr) (bl : CBlock) (readBlock : Z) : act unit :=
  do* s := get in
  match prev with
  | None => throw Undefined
  | Some p =>
      do* x := lift (of_ptr (Contains (cs_heap s) (cs_active s) p)) in
      if x then eret tt else
      if readBlock + 1 =? nMaxReorgDepth then throw (Rejected state) else
      if existsb (spends_any inputs) (vtx bl) then lift (reject 100 0 "" state) else
      do* b := load (Some p) in
      match pprev b with
      | None => throw Undefined
      | Some q =>
          do* e := load (Some q) in
          match ReadBlockFromDisk e (cs_world s) with
          | None => throw (Rejected state)
          | Some bl => match fuel with O => throw Undefined | S fuel => check_fork fuel inputs state (Some q) bl (readBlock + 1) end
          end
      end
  end.

Definition check_main_chain (nHeight : Z) (inputs : list CTxIn) (state : CValidationState) : act unit :=
  do* s := get in
  if forallb (fun i => match AccessCoins (prev_hash (prevout i)) (cs_world s) with
                       | None => false
                       | Some coin => IsAvailable coin (Z.to_nat (prev_n (prevout i))) &&
                           negb ((nHeight >=? StakingProtocol2Height) && (nHeight - Coins.nHeight coin <? COINBASE_MATURITY))
                       end) inputs
  then eret tt else throw (Rejected state).

(** The checks of a block with a coin stake. *)
Definition check_coin_stake (block : CBlock) (stakeTxIn : CTransaction) (state : CValidationState) (p : ptr) (pindexPrev : option ptr) : act unit :=
  do* s := get in
  let isBlockFromFork := bool_decide (pindexPrev <> None /\ Tip (cs_active s) <> pindexPrev) in
  let inputs := tx_vin stakeTxIn in
  if bool_decide (inputs = []) then throw (Rejected state) else
  if existsb (fun tx : CTransaction => negb (IsCoinStake tx) && spends_any inputs tx) (vtx block) then throw (Rejected state) else
  do* b := load (Some p) in
  do* late := (if nHeight b >=? StakingProtocol2Height then
                 if negb (Z.rem (CBlockHeader_GetBlockTime block) nStakeInterval =? 0) then eret true else
                 do* e := load pindexPrev in eret (GetBlockTime e >? CBlockHeader_GetBlockTime block + nMaxPastTimeSecs)
               else eret false) in
  if late then throw (Rejected state) else
  if isBlockFromFork then
    do* e := load pindexPrev in
    match ReadBlockFromDisk e (cs_world s) with
    | None => throw (Rejected state)
    | Some bl => check_fork (Z.to_nat (nHeight e)) inputs state pindexPrev bl 0
    end
  else check_main_chain (nHeight b) inputs state.

Definition store_block (block : CBlock) (state : CValidationState) (dbp : option CDiskBlockPos) (p : ptr) : act CDiskBlockPos :=
  do* b := load (Some p) in
  fun s => let '(r, w) := StoreBlock block state dbp (nHeight b) (cs_world s) in (r, set_world w s).

(** What follows the header. *)
Definition accept_data (block : CBlock) (state : CValidationState) (dbp : option CDiskBlockPos) (fAlreadyCheckedBlock : bool) (pindexPrev : option ptr) (p : ptr) : act unit :=
  do* b := load (Some p) in
  if have_data b then eret tt else
  do* _ := check_contents block state fAlreadyCheckedBlock p in
  do* _ := (if CBlock_IsProofOfStake block then
              match vtx block with
              | _ :: stakeTxIn :: _ => check_coin_stake block stakeTxIn state p pindexPrev
              | _ => throw Undefined
              end
            else eret tt) in
  do* pos := store_block block state dbp p in
  ReceivedBlockTransactions block p pos.

(** The entry ([*ppindex]) and the verdict. *)
Definition AcceptBlock (block : CBlock) (state : CValidationState) (dbp : option CDiskBlockPos) (fAlreadyCheckedBlock : bool) : act (option ptr * result CValidationState unit) :=
  do* r := attempt (do* s := get in
                    do* pindexPrev := lift (find_prev HashQuark HashGenesisBlock block state (cs_index s)) in
                    do* _ := check_work block pindexPrev state in
                    eret pindexPrev) in
  match r with
  | Err state => eret (None, Err state)
  | Ret pindexPrev =>
      do* r := attempt (accept_header block state) in
      match r with
      | Err state => do* s := get in eret (mapBlockIndex (cs_index s) !! CBlockHeader_GetHash HashQuark block, Err state)
      | Ret p => do* r := attempt (accept_data block state dbp fAlreadyCheckedBlock pindexPrev p) in eret (Some p, r)
      end
  end.

(** ** [ProcessNewBlock] *)

(** A block of a peer whose parent is unknown is not looked at; the tip is logged. *)
Definition known_parent (block : CBlock) (pfrom : option Z) : act bool :=
  do* s := get in
  match pfrom, mapBlockIndex (cs_index s) !! hashPrevBlock block with
  | Some peer, None =>
      if bool_decide (CBlockHeader_GetHash HashQuark block = HashGenesisBlock) then eret true else
      do* locator := lift (of_ptr (GetLocator (cs_heap s) (cs_active s) None)) in
      do* _ := on_world (push_getblocks peer locator) in
      do* _ := load (Tip (cs_active s)) in
      eret false
  | _, _ => eret true
  end.

Definition ProcessNewBlock (state : CValidationState) (pfrom : option Z) (pblock : CBlock) (dbp : option CDiskBlockPos) : act unit :=
  do* known := known_parent pblock pfrom in
  if negb known then throw (Rejected state) else
  do* checked := attempt (check_block pblock state) in
  let state := match checked with Err state => state | Ret _ => state end in
  do* signed := lift (CheckBlockSignature pblock) in
  if negb signed then throw (Rejected state) else
  do* _ := on_world (MarkBlockAsReceived (CBlockHeader_GetHash HashQuark pblock)) in
  match checked with
  | Err _ => throw (Rejected state)
  | Ret _ =>
      do* (pindex, ret) := AcceptBlock pblock state dbp true in
      do* height := match pindex, pfrom with
                    | Some p, Some peer =>
                        do* b := load (Some p) in
                        do* _ := on_world (set_source (blockHash b) peer) in
                        eret (Some (nHeight b, peer))
                    | _, _ => eret None
                    end in
      match ret with
      | Err state =>
          match height with
          | Some (h, peer) => fun s => let '(state, w) := block_spam peer h state (cs_world s) in (Err (Rejected state), set_world w s)
          | None => throw (Rejected state)
          end
      | Ret _ =>
          do* _ := ActivateBestChain HashQuark state (Some pblock) true in
          on_world block_connected
      end
  end.
End arrival.

(** ** What the rest of the node does *)

(** Entries stand at the heights of their blocks, and a root is the genesis block. *)
Definition placed (height_of : uint256 -> Z) (HashGenesisBlock : uint256) (H : heap) : Prop :=
  forall p b, H !! p = Some b -> nHeight b = height_of (blockHash b) /\ (pprev b = None -> blockHash b = HashGenesisBlock).

(** The laws of [Arrival], where a hash determines the height of its block ([height_of]): a block that passes [CheckBlock] is the one its hash says, a block
    that [ContextualCheckBlock] refuses is not accepted, and no call moves the coins. *)
Class ArrivalOk (W : Type) {N : Node W} {A : Arrival W} (HashQuark : bytes -> uint256) (HashGenesisBlock : uint256)
    (height_of : uint256 -> Z) (accepts : uint256 -> Prop) (genuine : uint256 -> CBlock -> Prop) (X : failure -> Prop) {NOk : NodeOk W accepts genuine X} : Type := {
  genesis_accepted : accepts HashGenesisBlock;
  genuine_shape h block : genuine h block -> exists tx txs i l, vtx block = tx :: txs /\ tx_vin tx = i :: l /\ Z.of_nat (length (vtx block)) < 2 ^ 32;
  check_ok block st w r w' : CheckBlock_here block st w = (r, w') -> (forall H t, at_tip H t w -> at_tip H t w') /\
    match r with Ret _ => genuine (CBlockHeader_GetHash HashQuark block) block | Err (Rejected _) => True | Err e => X e end;
  contextual_refuses H p b block now c st st' : index_ok H -> H !! p = Some b -> nHeight b = height_of (blockHash b) ->
    genuine (blockHash b) block -> ContextualCheckBlock now c H block st (pprev b) = Err (Rejected st') -> ~ accepts (blockHash b);
  checkwork_ok block q J w e : CheckWork block q J w = Err e -> X e;
  signature_ok block e : CheckBlockSignature block = Err e -> X e;
  store_ok block st dbp h w r w' : StoreBlock block st dbp h w = (r, w') -> (forall H t, at_tip H t w -> at_tip H t w') /\
    match r with Ret _ | Err (Rejected _) => True | Err e => X e end;
  beside_ok H t w : at_tip H t w ->
    (forall peer l, at_tip H t (push_getblocks peer l w)) /\ (forall h, at_tip H t (MarkBlockAsReceived h w)) /\
    (forall h peer, at_tip H t (set_source h peer w)) /\ (forall peer h st, at_tip H t (block_spam peer h st w).2) /\
    at_tip H t (block_connected w) }.

Section proofs.
Context {W : Type} {N : Node W} {A : Arrival W}.
Context (params : CChainParams) (HashQuark : bytes -> uint256).
Context (HashGenesisBlock : uint256) (nMaxReorgDepth COINBASE_MATURITY : Z) (fEnabled : bool) (checkpoints : MapCheckpoints).
Context (ComputeNextStakeModifier : ptr -> Z * bool) (ComputeStakeModifierV2 : ptr -> uint256 -> uint256).
Context (height_of : uint256 -> Z) (accepts : uint256 -> Prop) (genuine : uint256 -> CBlock -> Prop) (X : failure -> Prop).
Context {NOk : NodeOk W accepts genuine X} {AOk : ArrivalOk W HashQuark HashGenesisBlock height_of accepts genuine X}.
Abbreviation placed := (placed height_of HashGenesisBlock).
Abbreviation Inv floor s := (chain_inv accepts floor [] s).
Abbreviation at_own_tip s := (at_tip (cs_heap s) (Tip (cs_active s)) (cs_world s)).
Abbreviation good := (good accepts genuine X).
Abbreviation GetHash := (CBlockHeader_GetHash HashQuark).

Lemma runs_attempt {T} (Y : failure -> chain_state W -> Prop) (m : eff (chain_state W) failure T) s (Q : result CValidationState T -> chain_state W -> Prop) :
  runs (fun e s' => match e with Rejected st => Q (Err st) s' | _ => Y e s' end) m s (fun a s' => Q (Ret a) s') -> runs Y (attempt m) s Q.
Proof using. unfold runs, attempt. by destruct (m s) as [[a|[st| | |]] s']. Qed.

Lemma placed_same H H' : same_tree H H' -> placed H -> placed H'.
Proof using.
  intros HS C p b' Hp. destruct (same_tree_back H H' HS p b' Hp) as (b & Hb & (-> & -> & _ & -> & _)%node_fields). by apply (C p).
Qed.

(** The state of a node that keeps its promises. *)
Definition node_ok (s : chain_state W) : Prop := good s /\ placed (cs_heap s).

(** The header has some work, that of the chain does not wrap around, and the height is
    that of the hash. *)
Record climbs (index : block_index) (b : CBlockHeader) : Prop := {
  cl_work : 0 < expected_hashes (b_nBits b);
  cl_sum q c : mapBlockIndex index !! hashPrevBlock b = Some q -> entries index !! q = Some c -> val (nChainWork c) + expected_hashes (b_nBits b) < 2 ^ 256;
  cl_height : height_of (GetHash b) = match mapBlockIndex index !! hashPrevBlock b ≫= (entries index !!.) with Some c => nHeight c + 1 | None => 0 end }.

(** ** A header *)

Lemma inv_index floor (s : chain_state W) : Inv floor s -> block_index_ok (cs_index s).
Proof using. intros [M B Hi _ _ _ _]. split; [apply Hi|]. split; [apply Hi|]. done. Qed.

(** A header without a parent in the index is the first. *)
Lemma first_header floor (s : chain_state W) block : Inv floor s -> placed (cs_heap s) ->
  mapBlockIndex (cs_index s) !! GetHash block = None -> GetHash block = HashGenesisBlock -> cs_heap s = ∅.
Proof using.
  intros Hs C En Eg. apply map_eq. intros p. rewrite lookup_empty. destruct (cs_heap s !! p) as [b|] eqn:Hp; [|done]. exfalso.
  destruct (root_of (cs_heap s) p (hi_index _ _ (ch_heap _ _ _ _ Hs))) as (r & c & _ & Hr & E); [by exists b|].
  destruct (C r c Hr) as [_ Par]. specialize (Par E). assert (K : mapBlockIndex (cs_index s) !! GetHash block = Some r).
  { apply (ch_map _ _ _ _ Hs). exists c. split; [done|congruence]. }
  congruence.
Qed.

Lemma entered_ok (s : chain_state W) (block : CBlock) index p : node_ok s -> in_u32 (b_nBits block) -> climbs (cs_index s) block ->
  heights_below (cs_heap s) -> entered HashQuark (cs_index s) block index p ->
  (mapBlockIndex (cs_index s) !! GetHash block = None /\ (GetHash block = HashGenesisBlock \/ is_Some (mapBlockIndex (cs_index s) !! hashPrevBlock block))) \/
    index = cs_index s ->
  node_ok (set_index index s) /\ (exists b, entries index !! p = Some b /\ blockHash b = GetHash block /\
    forall q c, pprev b = Some q -> entries index !! q = Some c -> nHeight c < 2 ^ 31 - 1) /\
  forall m, 0 < m -> counts_below (cs_heap s) m -> counts_below (entries index) m.
Proof using AOk.
  intros [[[floor Hs] Hw] C] Hn [Pos Climb Ht0] Hh En New.
  destruct En as [[-> Em]|(b & Hi' & He & Hp & Hp' & Eh & Epv & _ & Hd & Eb & Est & Etx & Ect)].
  { replace (set_index (cs_index s) s) with s by (by destruct s). split; [split; [split; [by exists floor|done]|done]|]. split; [|done].
    apply (ch_map _ _ _ _ Hs) in Em as (b & Hb & E). exists b. split; [done|]. split; [done|]. intros q c _ Hq. by apply (Hh q). }
  destruct New as [[New Par]|E0]; [|by rewrite E0 in Hp'; congruence].
  pose proof Hi' as (Hok' & Hw' & Hm' & Hb'). pose proof (ch_heap _ _ _ _ Hs) as Hi. destruct (inv_index floor s Hs) as (Hok & Hwk & Hm & _).
  assert (Hb : nStatus b = BLOCK_VALID_TREE /\ nTx b = 0 /\ nChainTx b = 0) by done.
  assert (Hrise : forall q c, pprev b = Some q -> cs_heap s !! q = Some c -> val (nChainWork c) < val (nChainWork b)).
  { intros q c Eq Hq. rewrite Epv in Eq. destruct (He q c Hq) as (c' & Hq' & R). destruct (relinked_fields _ _ R) as (_ & _ & _ & _ & Ew & _).
    destruct (Hw' p b Hp') as [_ V]. unfold below_work in V. rewrite Epv, Eq in V. cbn [mbind option_bind] in V. rewrite Hq', Eb, Ew in V.
    pose proof (Climb q c Eq Hq). destruct (Hwk q c Hq) as [Wc _]. pose proof (val_range _ _ Wc). rewrite Z.mod_small in V by lia. lia. }
  assert (Hroot : pprev b = None -> cs_heap s = ∅ /\ accepts (blockHash b)).
  { intros E. rewrite Epv in E. destruct Par as [G|[q Eq]]; [|congruence]. split; [by apply (first_header floor s block)|]. rewrite Eh, G. apply genesis_accepted. }
  assert (Hbits : in_u32 (ih_nBits (header b))) by (by rewrite Eb).
  assert (Hs' : Inv floor (set_index index s)).
  { destruct Hs as [M B _ Hwait Hc Ht Hf]. split; [done|done|..].
    - by apply (grown_heap accepts (cs_heap s) _ p b).
    - by apply (grown_wait accepts (cs_heap s) _ p b).
    - by apply (grown_cand accepts (cs_heap s) _ p b).
    - by apply (grown_tip accepts (cs_heap s) _ p b).
    - by apply (grown_forks (cs_heap s)). }
  split; [split; [split; [by exists floor|]|]|split; [|intros m Hm0; by apply (grown_counts accepts (cs_heap s) _ p b)]].
  - apply (at_tip_agrees (cs_heap s)); [|exact Hw]. intros t q c _ _ Hq. destruct (He q c Hq) as (c' & Hq' & [->|[y ->]]); by eexists.
  - intros x c Hx. change (entries index !! x = Some c) in Hx. destruct (decide (x = p)) as [->|Nx].
    + replace c with b by congruence. rewrite Eh. split.
      * rewrite Ht0, <- Epv. destruct (Hok' p b Hp') as [_ Hb2]. destruct (pprev b) as [q|] eqn:Eq; [|done]. destruct Hb2 as [(c' & Hq' & ->) _]. cbn [mbind option_bind].
        symmetry in Epv. apply Hm in Epv as (d & Hq & _). rewrite Hq. destruct (He q d Hq) as (d' & Hd' & R). replace c' with d' by congruence.
        by destruct (relinked_fields _ _ R) as (_ & _ & _ & -> & _).
      * rewrite Epv. intros E. destruct Par as [G|[q Eq]]; [done|congruence].
    + destruct (Hd x) as [?|[c0 Hx0]]; [by exists c|done|]. destruct (He x c0 Hx0) as (c' & Hx' & R). replace c with c' by congruence.
      destruct (relinked_fields _ _ R) as (-> & -> & _ & -> & _). by apply (C x).
  - exists b. split; [done|]. split; [done|]. intros q c Eq Hq. destruct (Hok' p b Hp') as [_ Hx]. rewrite Eq in Hx. destruct Hx as [(c' & Hq' & Ec) _].
    destruct (decide (q = p)) as [->|Nq]; [replace c' with b in Ec by congruence; lia|]. destruct (Hd q) as [?|[c0 Hq0]]; [by exists c|done|].
    destruct (He q c0 Hq0) as (c1 & Hq1 & R). replace c with c1 by congruence. destruct (relinked_fields _ _ R) as (_ & _ & _ & -> & _). by apply (Hh q).
Qed.

Abbreviation crash s block e := (no_kernel (cs_index s) block e).

Lemma accept_header_ok (s : chain_state W) (block : CBlock) st : node_ok s -> heights_below (cs_heap s) -> off_wire HashQuark block ->
  climbs (cs_index s) block ->
  runs (fun e s' => s' = s /\ (reported e \/ crash s block e))
    (accept_header params HashQuark HashGenesisBlock nMaxReorgDepth fEnabled checkpoints ComputeNextStakeModifier ComputeStakeModifierV2 block st) s
    (fun p s' => node_ok s' /\ cs_active s' = cs_active s /\ (exists b, cs_heap s' !! p = Some b /\ blockHash b = GetHash block /\
      forall q c, pprev b = Some q -> cs_heap s' !! q = Some c -> nHeight c < 2 ^ 31 - 1) /\
      (forall m, 0 < m -> counts_below (cs_heap s) m -> counts_below (cs_heap s') m) /\
      forall q, is_Some (cs_heap s !! q) -> is_Some (cs_heap s' !! q)).
Proof using AOk.
  intros Hs Hh [Hn Np] Cl. pose proof Hs as [[[floor Hi] _] _]. unfold runs, accept_header.
  destruct (AcceptBlockHeader_decides params HashQuark HashGenesisBlock nMaxReorgDepth fEnabled checkpoints (GetTime (cs_world s)) (GetAdjustedTime (cs_world s))
    (cs_active s) ComputeNextStakeModifier ComputeStakeModifierV2 block st (cs_index s) (inv_index floor s Hi) Hh Hn Np) as [D K].
  destruct (AcceptBlockHeader _ _ _ _ _ _ _ _ _ _ _ _ _ _) as [[p|e] index] eqn:E; cbn [decides fst snd] in D, K.
  - destruct D as [Ac En]. assert (New : (mapBlockIndex (cs_index s) !! GetHash block = None /\
        (GetHash block = HashGenesisBlock \/ is_Some (mapBlockIndex (cs_index s) !! hashPrevBlock block))) \/ index = cs_index s).
    { destruct En as [[-> _]|(b & Hi' & He & Hp & Hp' & Eh & _)]; [by right|left]. unfold header_accepted in Ac.
      destruct (mapBlockIndex (cs_index s) !! GetHash block) as [q|] eqn:Eq.
      - exfalso. apply (ch_map _ _ _ _ Hi) in Eq as (c & Hq & Ec). destruct (He q c Hq) as (c' & Hq' & R). destruct Hi' as (_ & _ & Hm' & _).
        assert (P : mapBlockIndex index !! GetHash block = Some p) by (apply Hm'; by exists b).
        assert (Q : mapBlockIndex index !! GetHash block = Some q) by (apply Hm'; exists c'; split; [done|]; by rewrite (proj1 (relinked_fields _ _ R))).
        assert (p = q) as -> by congruence. change (entries (cs_index s) !! q = Some c) in Hq. congruence.
      - split; [done|]. destruct Ac as [[_ [G|(q & _ & Eq' & _)]] _]; [by left|right; by exists q]. }
    destruct (entered_ok s block index p Hs Hn Cl Hh En New) as (R1 & R2 & R3). split; [done|]. split; [done|]. split; [done|]. split; [done|].
    intros q Kq. destruct En as [[-> _]|(b & _ & He & _)]; [done|]. destruct Kq as [c Hq]. destruct (He q c Hq) as (c' & Hq' & _). by exists c'.
  - rewrite (K e eq_refl). split; [by destruct s|]. by destruct D.
Qed.

(** ** The checks *)

Lemma contextual_total now c (H : heap) p b (block : CBlock) st : genuine (blockHash b) block -> index_ok H -> H !! p = Some b ->
  (forall q e, pprev b = Some q -> H !! q = Some e -> nHeight e < 2 ^ 31 - 1) ->
  match ContextualCheckBlock now c H block st (pprev b) with Ret _ | Err (Rejected _) => True | Err _ => False end.
Proof using AOk.
  intros G Hok Hp Hh. destruct (genuine_shape _ _ G) as (tx & txs & i & l & Ev & Ei & _). unfold ContextualCheckBlock.
  destruct (pprev b) as [q|] eqn:Eq; [destruct (parent_known H p b q Hok Hp Eq) as [e He]; rewrite (deref_Some H q e He); cbn [of_ptr result_bind];
    rewrite int_succ_small by (by apply (Hh q))|]; cbn [result_bind]; (destruct (negb (forallb _ _)); [done|]); rewrite Ev, Ei; by destruct (negb (starts_with _ _)).
Qed.

(** Marking an entry as failed. *)
Lemma mark_ok (s : chain_state W) p b : node_ok s -> cs_heap s !! p = Some b -> ~ accepts (blockHash b) ->
  node_ok (mark_dirty p (put p (with_status b (Z.lor (nStatus b) BLOCK_FAILED_VALID)) s)).
Proof using.
  intros [[[floor Hs] Hw] C] Hp Na. destruct (mark_failed accepts floor s BLOCK_FAILED_VALID p b Hs Hp) as [Hs' K]; [|by left|].
  { intros S. apply Na. apply (S p b); [apply is_ancestor_refl|done]. }
  pose proof (kept_tree _ _ K) as HS. split; [|by apply (placed_same (cs_heap s))]. split; [exists floor; by destruct Hs'|].
  by apply (at_tip_same accepts genuine X (cs_heap s)).
Qed.

Lemma check_contents_ok (s : chain_state W) p b (block : CBlock) st : node_ok s -> cs_heap s !! p = Some b -> genuine (blockHash b) block ->
  (forall q e, pprev b = Some q -> cs_heap s !! q = Some e -> nHeight e < 2 ^ 31 - 1) ->
  runs (fun e s' => reported e /\ node_ok s' /\ cs_active s' = cs_active s /\ forall x, is_Some (cs_heap s !! x) -> is_Some (cs_heap s' !! x)) (check_contents block st true p) s (fun _ s' => s' = s).
Proof using AOk.
  intros Hs Hp G Hh. pose proof Hs as [[[floor Hi] Hw] C]. pose proof (hi_index _ _ (ch_heap _ _ _ _ Hi)) as Hok. unfold check_contents.
  set (v := ContextualCheckBlock (GetAdjustedTime (cs_world s)) (cs_active s) (cs_heap s) block st (pprev b)).
  pose proof (contextual_total (GetAdjustedTime (cs_world s)) (cs_active s) (cs_heap s) p b block st G Hok Hp Hh) as T. fold v in T.
  eapply (runs_bind _ _ _ _ (fun r s' => s' = s /\ match r with Ret _ => True | Err st' => v = Err (Rejected st') end)).
  { apply runs_attempt. eapply runs_step; [done|]. eapply runs_step; [by apply load_run|]. eapply runs_step; [done|]. cbv beta. fold v. unfold runs, lift.
    by destruct v as [[]|[st'| | |]]. }
  intros [[]|st'] s' [-> Ev]; [done|]. cbv beta iota. destruct (IsInvalid st' && negb (corruptionPossible st')).
  - unfold runs, ebind, update, throw. rewrite (load_run s p b Hp). split; [by eexists|]. split; [|split; [done|]].
    + apply mark_ok; [done|done|]. unfold v in Ev. eapply contextual_refuses; [done|done|by apply (C p b)|done|exact Ev].
    + intros x Kx. change (is_Some (<[p := with_status b (Z.lor (nStatus b) BLOCK_FAILED_VALID)]> (cs_heap s) !! x)).
      destruct (decide (x = p)) as [->|Nx]; [rewrite lookup_insert_eq; by eexists|by rewrite lookup_insert_ne].
  - split; [by eexists|]. done.
Qed.

Definition without_tip (s : chain_state W) (e : failure) : Prop := e = Undefined /\ Tip (cs_active s) = None.

Lemma check_fork_ok floor (s : chain_state W) inputs st : Inv floor s -> forall fuel p b bl n, cs_heap s !! p = Some b -> nHeight b <= Z.of_nat fuel ->
  runs (fun e s' => s' = s /\ (reported e \/ without_tip s e)) (check_fork nMaxReorgDepth fuel inputs st (Some p) bl n) s (fun _ s' => s' = s).
Proof using.
  intros Hs. pose proof (ch_heap _ _ _ _ Hs) as Hi. pose proof (hi_index _ _ Hi) as Hok. induction fuel as [|fuel IH]; intros p b bl n Hp L.
  all: cbn [check_fork]; (eapply runs_step; [done|]); cbv beta;
    destruct (Contains_ok (cs_heap s) (cs_active s) p Hok (proj1 (ch_tip _ _ _ _ Hs)) ltac:(by exists b)) as (x & Ex & Hx);
    (eapply runs_step; [unfold lift; by rewrite Ex|]); cbv beta; (destruct x; [done|]);
    (destruct (_ =? nMaxReorgDepth); [split; [done|]; left; by eexists|]);
    (destruct (existsb _ _); [split; [done|]; left; by eexists|]); (eapply runs_step; [by apply load_run|]); cbv beta;
    destruct (Hok p b Hp) as [Hr Hb]; (destruct (pprev b) as [q|] eqn:Eq;
      [destruct Hb as [(e & He & Eh) _]; (eapply runs_step; [by apply load_run|]); cbv beta;
        (destruct (ReadBlockFromDisk e (cs_world s)) as [bl'|]; [|split; [done|]; left; by eexists])|
       split; [done|]; right; split; [done|]; destruct (Tip (cs_active s)) as [t|] eqn:Et; [exfalso|done]]).
  all: try (destruct (common_root accepts (cs_heap s) p t Hi) as (r & R1 & R2); [by exists b|by apply linked_known, (ch_tip _ _ _ _ Hs)|];
    assert (r = p) as -> by (destruct (is_ancestor_inv _ r p b Hp R1) as [->|(q & ? & _)]; congruence);
    by assert (false = true) by (apply Hx; by exists t)).
  - destruct (Hok q e He). lia.
  - apply (IH q e); [done|lia].
Qed.

Lemma check_coin_stake_ok floor (s : chain_state W) (block : CBlock) tx st p b q : Inv floor s -> cs_heap s !! p = Some b ->
  match q with Some r => is_Some (cs_heap s !! r) | None => pprev b = None end ->
  runs (fun e s' => s' = s /\ (reported e \/ without_tip s e)) (check_coin_stake nMaxReorgDepth COINBASE_MATURITY block tx st p q) s (fun _ s' => s' = s).
Proof using.
  intros Hs Hp Kq. pose proof (hi_index _ _ (ch_heap _ _ _ _ Hs)) as Hok. unfold check_coin_stake. eapply runs_step; [done|]. cbv beta zeta.
  assert (Rej : forall T (Q : T -> chain_state W -> Prop), runs (fun e s' => s' = s /\ (reported e \/ without_tip s e)) (throw (Rejected st)) s Q).
  { intros T Q. split; [done|]. left. by eexists. }
  destruct (bool_decide (tx_vin tx = [])); [apply Rej|]. destruct (existsb _ _); [apply Rej|].
  eapply runs_step; [by apply load_run|]. cbv beta.
  assert (Late : exists late : bool, (if nHeight b >=? StakingProtocol2Height then
      if negb (Z.rem (CBlockHeader_GetBlockTime block) nStakeInterval =? 0) then eret true else
      do* e := load q in eret (GetBlockTime e >? CBlockHeader_GetBlockTime block + nMaxPastTimeSecs) else eret false : eff (chain_state W) failure bool) s = (Ret late, s)).
  { destruct (Z.geb_spec (nHeight b) StakingProtocol2Height) as [L|L]; [|by exists false]. destruct (negb _); [by exists true|].
    destruct q as [r|]; [destruct Kq as [c Hc]; unfold ebind; rewrite (load_run s r c Hc); by eexists|].
    destruct (Hok p b Hp) as [_ Hb]. rewrite Kq in Hb. rewrite Hb in L. done. }
  destruct Late as [late Late]. eapply runs_step; [exact Late|]. cbv beta. destruct late; [apply Rej|]. case_bool_decide as F.
  - destruct q as [r|]; [|by destruct F]. destruct Kq as [c Hc]. eapply runs_step; [by apply load_run|]. cbv beta.
    destruct (ReadBlockFromDisk c (cs_world s)); [|apply Rej]. destruct (Hok r c Hc). apply (check_fork_ok floor s _ _ Hs _ r c); [done|lia].
  - unfold check_main_chain. eapply runs_step; [done|]. cbv beta. destruct (forallb _ _); [done|apply Rej].
Qed.

(** ** [AcceptBlock] *)

Lemma data_received_ok (s : chain_state W) (block : CBlock) p b pos : node_ok s -> cs_heap s !! p = Some b -> have_data b = false ->
  genuine (blockHash b) block -> counts_below (cs_heap s) (2 ^ 32 - Z.of_nat (length (vtx block))) ->
  exists s', ReceivedBlockTransactions block p pos s = (Ret tt, s') /\ node_ok s' /\ cs_active s' = cs_active s /\
    exists b', cs_heap s' !! p = Some b' /\ blockHash b' = blockHash b /\ have_data b' = true.
Proof using AOk.
  intros [[[floor Hs] Hw] C] Hp Hd G Cn. destruct (genuine_shape _ _ G) as (tx & txs & i & l & Ev & _ & Lv).
  assert (L : 0 < Z.of_nat (length (vtx block)) < 2 ^ 32) by (split; [rewrite Ev; cbn [length]; lia|done]).
  destruct (received_entry_spec block pos b L) as (En & Et & _ & Ed & _).
  destruct (ReceivedBlockTransactions_spec accepts floor s block p pos b Hs Hp Hd L) as (s' & E & Hs' & Ea & Ew & K1 & K2 & _).
  { apply (received_counts accepts (cs_heap s) p b); [apply Hs|done|done|done|by rewrite Et|lia]. }
  assert (HS : same_tree (cs_heap s) (cs_heap s')).
  { apply (same_tree_trans _ (cs_heap (put p (received_entry block pos b) s))); [|done]. by apply (same_tree_put (cs_heap s) p b). }
  exists s'. split; [done|]. split; [|split; [done|]].
  - split; [|by apply (placed_same (cs_heap s))]. split; [by exists floor|]. rewrite Ea, Ew. by apply (at_tip_same accepts genuine X (cs_heap s)).
  - destruct (same_tree_lookup _ _ HS p b Hp) as (b' & Hp' & (Eh & _)%node_fields). exists b'. split; [done|]. split; [done|].
    assert (E2 : kept_of <$> cs_heap s' !! p = kept_of <$> Some (received_entry block pos b)).
    { rewrite <- lookup_fmap, <- K2, lookup_fmap. change (cs_heap (put p _ s)) with (<[p := received_entry block pos b]> (cs_heap s)). by rewrite lookup_insert_eq. }
    rewrite Hp' in E2. injection E2 as _ _ E2. unfold have_data. rewrite E2. exact Ed.
Qed.

(** How [AcceptBlock] and its parts fail. *)
Definition lost (s : chain_state W) (block : CBlock) (e : failure) : Prop := X e \/ no_kernel (cs_index s) block e \/ without_tip s e.
Definition declined (s0 : chain_state W) (p : ptr) (block : CBlock) (e : failure) (s' : chain_state W) : Prop :=
  lost s0 block e \/ (reported e /\ node_ok s' /\ cs_active s' = cs_active s0 /\ is_Some (cs_heap s' !! p)).

Lemma accept_data_ok (s0 s : chain_state W) (block : CBlock) st dbp p b q : node_ok s -> cs_active s = cs_active s0 ->
  cs_heap s !! p = Some b -> genuine (blockHash b) block ->
  (forall r e, pprev b = Some r -> cs_heap s !! r = Some e -> nHeight e < 2 ^ 31 - 1) ->
  match q with Some r => is_Some (cs_heap s !! r) | None => pprev b = None end ->
  counts_below (cs_heap s) (2 ^ 32 - Z.of_nat (length (vtx block))) ->
  runs (declined s0 p block) (accept_data nMaxReorgDepth COINBASE_MATURITY block st dbp true q p) s
    (fun _ s' => node_ok s' /\ cs_active s' = cs_active s0 /\ exists b', cs_heap s' !! p = Some b' /\ blockHash b' = blockHash b /\ have_data b' = true).
Proof using AOk.
  intros Hs E0 Hp G Hh Kq Cn. pose proof Hs as [[[floor Hi] Hw] C]. unfold accept_data. eapply runs_step; [by apply load_run|]. cbv beta.
  destruct (have_data b) eqn:Hd; [apply runs_ret; split; [done|]; split; [done|]; by exists b|].
  eapply runs_bind; [eapply runs_weaken; [by apply (check_contents_ok s p b)|]|].
  { intros e s' (R & K & Ea & Kn). right. split; [done|]. split; [done|]. split; [congruence|]. by apply Kn; exists b. }
  intros _ s' ->. eapply (runs_bind _ _ _ s (fun _ s' => s' = s)).
  { destruct (CBlock_IsProofOfStake block) eqn:Ps; [|done]. unfold CBlock_IsProofOfStake in Ps. destruct (vtx block) as [|tx0 [|tx1 txs]]; [done|done|].
    eapply runs_weaken; [by apply (check_coin_stake_ok floor s block tx1 st p b q)|]. intros e s' (-> & [R|[-> T]]).
    - right. split; [done|]. split; [done|]. split; [done|by exists b].
    - left. right. right. split; [done|congruence]. }
  intros _ s' ->. unfold store_block. destruct (StoreBlock block st dbp (nHeight b) (cs_world s)) as [r w] eqn:E. pose proof (store_ok _ _ _ _ _ _ _ E) as [T V].
  set (s1 := set_world w s). assert (Hs1 : node_ok s1) by (split; [split; [exists floor; by destruct Hi|by apply T]|done]).
  eapply (runs_bind _ _ _ s (fun _ s' => s' = s1)).
  { eapply runs_step; [by apply load_run|]. unfold runs. cbv beta. rewrite E. destruct r as [pos|[st'| | |]]; [done|right|by left; left..].
    split; [by eexists|]. split; [done|]. split; [done|by exists b]. }
  intros pos s' ->. unfold runs. destruct (data_received_ok s1 block p b pos Hs1 Hp Hd G Cn) as (s' & -> & K & Ea & D). split; [done|]. split; [|done]. rewrite Ea. exact E0.
Qed.

(** The genesis block has no parent. *)
Lemma genesis_root (s : chain_state W) p b : node_ok s -> cs_heap s !! p = Some b -> blockHash b = HashGenesisBlock -> pprev b = None.
Proof using.
  intros [[[floor Hs] _] C] Hp Eg. destruct (root_of (cs_heap s) p (hi_index _ _ (ch_heap _ _ _ _ Hs))) as (r & c & _ & Hr & E); [by exists b|].
  destruct (C r c Hr) as [_ Par]. specialize (Par E).
  assert (M : forall x d, cs_heap s !! x = Some d -> blockHash d = HashGenesisBlock -> mapBlockIndex (cs_index s) !! HashGenesisBlock = Some x).
  { intros x d Hx Ed. apply (ch_map _ _ _ _ Hs). by exists d. }
  assert (p = r) as -> by (pose proof (M p b Hp Eg); pose proof (M r c Hr Par); congruence). congruence.
Qed.

(** The verdict on a block. *)
Definition verdict_ok (s : chain_state W) (block : CBlock) (v : option ptr * result CValidationState unit) (s' : chain_state W) : Prop :=
  node_ok s' /\ cs_active s' = cs_active s /\
  match v with
  | (pindex, Ret _) => exists p b, pindex = Some p /\ cs_heap s' !! p = Some b /\ blockHash b = GetHash block /\ have_data b = true
  | (pindex, Err _) => match pindex with Some p => is_Some (cs_heap s' !! p) | None => True end
  end.

(** A refusal is a value, an accident is not. *)
Lemma lost_not_refused s block st : ~ lost s block (Rejected st).
Proof using NOk. intros [K|[[K _]|[K _]]]; [by eapply accident|done|done]. Qed.

Lemma declined_attempt {T} (s0 : chain_state W) block (m : eff (chain_state W) failure T) s (P : chain_state W -> Prop) (Q : T -> chain_state W -> Prop) :
  runs (fun e s' => lost s0 block e \/ (reported e /\ P s')) m s Q ->
  runs (fun e _ => lost s0 block e) (attempt m) s (fun r s' => match r with Ret a => Q a s' | Err _ => P s' end).
Proof using NOk.
  intros R. apply runs_attempt. eapply runs_weaken; [exact R|]. intros e s' [L|[[st ->] K]]; [|done].
  destruct e; [by apply lost_not_refused in L|done..].
Qed.

Abbreviation Accept := (AcceptBlock params HashQuark HashGenesisBlock nMaxReorgDepth COINBASE_MATURITY fEnabled checkpoints ComputeNextStakeModifier ComputeStakeModifierV2).

Lemma AcceptBlock_ok (s : chain_state W) (block : CBlock) st dbp : node_ok s -> heights_below (cs_heap s) -> off_wire HashQuark block ->
  climbs (cs_index s) block -> genuine (GetHash block) block -> counts_below (cs_heap s) (2 ^ 32 - Z.of_nat (length (vtx block))) ->
  runs (fun e _ => lost s block e) (Accept block st dbp true) s (verdict_ok s block).
Proof using AOk.
  intros Hs Hh Hw Cl G Cn. pose proof Hs as [[[floor Hi] _] _].
  unfold AcceptBlock. eapply runs_bind.
  { apply (declined_attempt s block _ s (fun s' => s' = s) (fun q s' => s' = s /\ match q with Some r => is_Some (cs_heap s !! r) | None => GetHash block = HashGenesisBlock end)).
    unfold runs, ebind, get, lift, find_prev, check_work. case_bool_decide as Eg; [done|].
    destruct (mapBlockIndex (cs_index s) !! hashPrevBlock block) as [r|] eqn:Er; [|right; split; [by eexists|done]].
    apply (ch_map _ _ _ _ Hi) in Er as (e & He & _). rewrite (deref_Some (entries (cs_index s)) r e He). cbn [of_ptr result_bind].
    destruct (failed e); [right; split; [by eexists|done]|]. unfold ebind, lift, get.
    match goal with |- context [CheckWork ?a ?b ?c ?d] => destruct (CheckWork a b c d) as [[]|f] eqn:Ew end; cbn.
    - split; [done|]. by exists e.
    - right. split; [by eexists|done].
    - left. left. by eapply checkwork_ok. }
  intros [q|st1] s1 K; cbv beta iota in K; [destruct K as [-> Par]|subst s1; done].
  eapply runs_bind.
  { apply (declined_attempt s block _ s (fun s' => s' = s)). eapply runs_weaken; [by apply (accept_header_ok s block st)|].
    intros e s' [-> [R|L]]; [by right|left; right; by left]. }
  intros [p|st1] s1 K; cbv beta iota in K.
  2: { subst s1. eapply runs_step; [done|]. split; [done|]. split; [done|].
    destruct (mapBlockIndex (cs_index s) !! GetHash block) as [r|] eqn:Er; [|done]. apply (ch_map _ _ _ _ Hi) in Er as (c & Hc & _). by exists c. }
  destruct K as (Hs1 & Ea & (b & Hp & Eh & Hhp) & Cn1 & Known). destruct (genuine_shape _ _ G) as (tx & txs & i & l & Ev & _ & Lv).
  eapply runs_bind.
  { apply (declined_attempt s block _ s1 (fun s' => node_ok s' /\ cs_active s' = cs_active s /\ is_Some (cs_heap s' !! p))).
    apply (accept_data_ok s s1 block st dbp p b q); [done|done|done|by rewrite Eh|done| |by apply Cn1; [lia|]].
    destruct q as [r|]; [by apply Known|]. apply (genesis_root s1 p); [done|done|congruence]. }
  intros [[]|st1] s2 K; apply runs_ret; cbv beta iota in K.
  - destruct K as (K1 & K2 & b' & K3 & K4 & K5). split; [done|]. split; [done|]. exists p, b'. split; [done|]. split; [done|]. split; [congruence|done].
  - done.
Qed.

(** ** [ProcessNewBlock] *)

Lemma locator_total floor (s : chain_state W) t : Inv floor s -> Tip (cs_active s) = Some t -> (forall p b, cs_heap s !! p = Some b -> nHeight b < 2 ^ 30) ->
  exists l, GetLocator (cs_heap s) (cs_active s) None = Ret l.
Proof using.
  intros Hs Et Hh. destruct (ch_tip _ _ _ _ Hs) as [Hc Ht]. destruct (Ht t Et) as [(b & Hb & _) _]. pose proof (hi_index _ _ (ch_heap _ _ _ _ Hs)) as Hok.
  unfold GetLocator. rewrite Et, (deref_Some _ t b Hb). cbn [result_bind]. destruct (Hok t b Hb) as [Hr _]. pose proof (Hh t b Hb). change 1 with (step_at 0).
  eexists. apply (GetLocator_loop_spec (cs_heap s) Hok _ (nHeight b)); [done|done|lia|lia|right; change (step_at 0) with 1; lia].
Qed.

(** The world changes and the coins stay. *)
Lemma node_ok_world (s : chain_state W) w : node_ok s -> (forall H t, at_tip H t (cs_world s) -> at_tip H t w) -> node_ok (set_world w s).
Proof using. intros [[[floor Hs] Hw] C] T. split; [|done]. split; [exists floor; by destruct Hs|by apply T]. Qed.

(** How [ProcessNewBlock] fails: by an accident, because the block is declined, or in the
    middle of the activation when a call to the node stops it. *)
Definition not_processed (s : chain_state W) (block : CBlock) (e : failure) (s' : chain_state W) : Prop :=
  lost s block e \/ exists st, e = Rejected st /\ ((IsInvalid st = false /\ stopped st = true) \/ (node_ok s' /\ cs_active s' = cs_active s)).

Lemma known_parent_ok (s : chain_state W) (block : CBlock) pfrom t : node_ok s -> Tip (cs_active s) = Some t ->
  (forall p b, cs_heap s !! p = Some b -> nHeight b < 2 ^ 30) ->
  exists (x : bool) w, known_parent HashQuark HashGenesisBlock block pfrom s = (Ret x, set_world w s) /\ node_ok (set_world w s).
Proof using AOk.
  intros Hs Et Hh. pose proof Hs as [[[floor Hi] Hw] _].
  assert (Same : forall x : bool, exists (y : bool) w, (Ret x, s) = (Ret (E := failure) y, set_world w s) /\ node_ok (set_world w s)).
  { intros x. exists x, (cs_world s). replace (set_world (cs_world s) s) with s by (by destruct s). done. }
  unfold known_parent, ebind, get. destruct pfrom as [peer|]; [|apply Same]. destruct (mapBlockIndex (cs_index s) !! hashPrevBlock block); [apply Same|].
  case_bool_decide; [apply Same|]. destruct (locator_total floor s t Hi Et Hh) as [l El]. unfold lift. rewrite El. cbn [of_ptr]. unfold on_world, update.
  destruct (ch_tip _ _ _ _ Hi) as [_ Ht]. destruct (Ht t Et) as [(b & Hb & _) _]. rewrite Et. 
  rewrite (load_run (set_world (push_getblocks peer l (cs_world s)) s) t b Hb). exists false, (push_getblocks peer l (cs_world s)). split; [done|].
  apply node_ok_world; [done|]. intros K t' T. by apply beside_ok.
Qed.

(** After the entry has been noted: the source of the block. *)
Lemma noted_ok (s : chain_state W) pindex pfrom : node_ok s -> match pindex with Some p => is_Some (cs_heap s !! p) | None => True end ->
  exists height w, (match pindex, pfrom with
    | Some p, Some peer => do* b := load (Some p) in do* _ := on_world (set_source (blockHash b) peer) in eret (Some (nHeight b, peer))
    | _, _ => eret None
    end : eff (chain_state W) failure (option (Z * Z))) s = (Ret height, set_world w s) /\ node_ok (set_world w s).
Proof using AOk.
  intros Hs Kp. assert (Same : set_world (cs_world s) s = s) by (by destruct s).
  destruct pindex as [p|], pfrom as [peer|]; try (eexists; exists (cs_world s); rewrite Same; split; [reflexivity|done]).
  destruct Kp as [b Hp]. unfold ebind. rewrite (load_run s p b Hp). eexists _, _. split; [reflexivity|]. apply node_ok_world; [done|].
  intros K t' T. by apply beside_ok.
Qed.

Abbreviation Process := (ProcessNewBlock params HashQuark HashGenesisBlock nMaxReorgDepth COINBASE_MATURITY fEnabled checkpoints ComputeNextStakeModifier ComputeStakeModifierV2).

Lemma ProcessNewBlock_ok (s : chain_state W) (block : CBlock) st pfrom dbp t : node_ok s -> IsInvalid st = false -> Tip (cs_active s) = Some t ->
  (forall p b, cs_heap s !! p = Some b -> nHeight b < 2 ^ 30) -> off_wire HashQuark block -> climbs (cs_index s) block ->
  counts_below (cs_heap s) (2 ^ 32 - Z.of_nat (length (vtx block))) ->
  runs (not_processed s block) (Process st pfrom block dbp) s (fun _ s' => node_ok s' /\ best_tip accepts s' /\
    exists p b, cs_heap s' !! p = Some b /\ blockHash b = GetHash block /\ have_data b = true).
Proof using AOk.
  intros Hs Hst Et Hh Hw Cl Cn. unfold ProcessNewBlock. destruct (known_parent_ok s block pfrom t Hs Et Hh) as (x & w & Ek & Hs1).
  eapply runs_step; [exact Ek|]. cbv beta. set (s1 := set_world w s) in *. destruct x; cbn [negb]; [|right; exists st; split; [done|]; by right].
  assert (Declined : forall T (Q : T -> chain_state W -> Prop) st' w', node_ok (set_world w' s) -> runs (not_processed s block) (throw (Rejected st')) (set_world w' s) Q).
  { intros T Q st' w' K. right. exists st'. split; [done|]. by right. }
  eapply (runs_bind _ _ _ _ (fun r s' => exists w', s' = set_world w' s /\ node_ok s' /\ match r with Ret _ => genuine (GetHash block) block | Err _ => True end)).
  { apply runs_attempt. unfold runs, check_block. destruct (CheckBlock_here block st (cs_world s1)) as [r w1] eqn:Ec.
    pose proof (check_ok _ _ _ _ _ Ec) as [T V]. assert (K : node_ok (set_world w1 s)) by (apply (node_ok_world s1); done).
    destruct r as [[]|[st'| | |]]; [by exists w1|by exists w1|by left; left..]. }
  intros checked s2 (w2 & -> & Hs2 & Gb). cbv beta zeta. set (st2 := match checked with Err state => state | Ret _ => st end).
  destruct (CheckBlockSignature block) as [signed|e] eqn:Es; [|eapply runs_fail; [done|left; left; by eapply signature_ok]].
  eapply runs_step; [done|]. cbv beta. destruct signed; cbn [negb]; [|by apply Declined].
  eapply runs_step; [done|]. cbv beta. set (w3 := MarkBlockAsReceived _ _). change (set_world w3 (set_world w2 s)) with (set_world w3 s).
  assert (Hs3 : node_ok (set_world w3 s)) by (apply (node_ok_world (set_world w2 s)); [done|]; intros K t' T; by apply beside_ok).
  destruct checked as [[]|st']; [|by apply Declined].
  eapply runs_bind; [eapply runs_weaken; [apply (AcceptBlock_ok (set_world w3 s) block st dbp); try done; intros p b Hb; pose proof (Hh p b Hb); lia|]|].
  { intros e s' L. by left. }
  intros [pindex ret] s4 (Hs4 & Ea & R). cbv beta iota. destruct (noted_ok s4 pindex pfrom Hs4) as (height & w5 & E5 & Hs5).
  { destruct ret; [|done]. destruct R as (p & b & -> & Hp & _). by exists b. }
  eapply runs_step; [exact E5|]. cbv beta. destruct ret as [[]|st'].
  - destruct R as (p & b & -> & Hp & Eh & Hd).
    eapply runs_bind; [eapply runs_weaken; [apply (ActivateBestChain_ok HashQuark accepts genuine X (set_world w5 s4) st (Some block) true); [apply Hs5|done|]|]|].
    + by intros b' [= <-].
    + intros e s' [Xe|(st' & -> & I0)]; [left; by left|right; exists st'; split; [done|by left]].
    + intros _ s6 (G6 & K6 & B6). apply runs_update. pose proof (kept_tree _ _ K6) as HS6.
      assert (Hs6 : node_ok s6) by (split; [done|]; apply (placed_same (cs_heap s4)); [done|apply Hs5]).
      split; [apply node_ok_world; [done|]; intros K t' T; by apply beside_ok|]. split; [exact B6|].
      destruct (kept_lookup _ _ K6 p b Hp) as (b' & Hp' & ((Eh' & _)%node_fields & _ & _ & _ & Ed')%key_fields). exists p, b'. split; [done|]. split; congruence.
  - destruct height as [[h peer]|]; [|right; exists st'; split; [done|by right]].
    unfold runs. cbn [set_world cs_world]. destruct (block_spam peer h st' w5) as [st6 w6] eqn:E6.
    right. exists st6. split; [done|]. right. split; [|done]. apply (node_ok_world (set_world w5 s4)); [done|]. intros K t' T.
    replace w6 with (block_spam peer h st' w5).2 by (by rewrite E6). by apply beside_ok.
Qed.
End proofs.
