(* ===== verification/NodeRun.v ===== *)
(** * The node over time

    The states that headers, blocks and activations lead to, from an empty tree on; the
    invariant that holds in them, and what the choice of the best chain comes to: from any
    such state it ends, with the coins at the best block whose chain is there and accepted. *)

From Stdlib Require Import ZArith Lia List Bool.
From stdpp Require Import base option list gmap.
From S2P Require Import Prelude Uint256 Compact Serialize MerkleDamgard Hash Script Interpreter Effects Tx Coins Params BlockIndex Checkpoints Pow Chain Block TxCheck CheckBlock Accept Candidates Linking BestChain Activation Arrival.

Open Scope Z_scope.
Open Scope btc_scope.

(** [main] before the genesis block is loaded. *)
Definition start {W} (w : W) : chain_state W :=
  mk_chain_state (mk_index ∅ ∅ None []) [] ∅ [] 1 None (mk_fork_state None None false false) w.

Section run.
Context {W : Type} {N : Node W} {A : Arrival W}.
Context (params : CChainParams) (HashQuark : bytes -> uint256).
Context (HashGenesisBlock : uint256) (nMaxReorgDepth COINBASE_MATURITY : Z) (fEnabled : bool) (checkpoints : MapCheckpoints).
Context (ComputeNextStakeModifier : ptr -> Z * bool) (ComputeStakeModifierV2 : ptr -> uint256 -> uint256).
Context (height_of : uint256 -> Z) (accepts : uint256 -> Prop) (genuine : uint256 -> CBlock -> Prop) (X : failure -> Prop).
Context {NOk : NodeOk W accepts genuine X} {AOk : ArrivalOk W HashQuark HashGenesisBlock height_of accepts genuine X}.
Abbreviation header := (accept_header params HashQuark HashGenesisBlock nMaxReorgDepth fEnabled checkpoints ComputeNextStakeModifier ComputeStakeModifierV2).
Abbreviation accept := (AcceptBlock params HashQuark HashGenesisBlock nMaxReorgDepth COINBASE_MATURITY fEnabled checkpoints ComputeNextStakeModifier ComputeStakeModifierV2).
Abbreviation process := (ProcessNewBlock params HashQuark HashGenesisBlock nMaxReorgDepth COINBASE_MATURITY fEnabled checkpoints ComputeNextStakeModifier ComputeStakeModifierV2).
Abbreviation activate := (ActivateBestChain HashQuark).
Abbreviation GetHash := (CBlockHeader_GetHash HashQuark).
Abbreviation node_ok := (node_ok HashGenesisBlock height_of accepts genuine X).

(** There is room for the block: no height, no count and no sum of work overflows. *)
Record room (s : chain_state W) (b : CBlock) : Prop := {
  room_heights p c : cs_heap s !! p = Some c -> nHeight c < 2 ^ 30;
  room_counts : counts_below (cs_heap s) (2 ^ 32 - Z.of_nat (length (vtx b)));
  room_wire : off_wire HashQuark b;
  room_work : climbs HashQuark height_of (cs_index s) b }.

(** What a node does; after a failure it goes on unless a call has stopped it. *)
Inductive node_at : chain_state W -> Prop :=
| at_start w : at_tip ∅ None w -> node_at (start w)
| at_header s b st r s' : node_at s -> room s b -> header b st s = (r, s') -> node_at s'
| at_block s b st dbp v s' : node_at s -> room s b -> genuine (GetHash b) b -> accept b st dbp true s = (Ret v, s') -> node_at s'
| at_best s st pblock checked s' : node_at s -> IsInvalid st = false -> known_block HashQuark genuine pblock ->
    activate st pblock checked s = (Ret tt, s') -> node_at s'
| at_new s b st pfrom dbp s' : node_at s -> room s b -> IsInvalid st = false -> is_Some (Tip (cs_active s)) ->
    process st pfrom b dbp s = (Ret tt, s') -> node_at s'
| at_declined s b st pfrom dbp st' s' : node_at s -> room s b -> IsInvalid st = false -> is_Some (Tip (cs_active s)) ->
    process st pfrom b dbp s = (Err (Rejected st'), s') -> stopped st' = false -> node_at s'.

Lemma start_ok w : at_tip ∅ None w -> node_ok (start w).
Proof using.
  intros Hw. assert (E : forall p b, cs_heap (start w) !! p = Some b -> False) by (intros p b; unfold cs_heap, start; cbn [cs_index entries]; by rewrite lookup_empty).
  assert (L : forall p, linked (cs_heap (start w)) p -> False) by (intros p (b & Hb & _); by apply (E p b)).
  split; [|intros p b Hp; by destruct (E p b)]. split; [|done]. exists None. destruct empty_index_ok as (K1 & K2 & K3 & K4).
  split; [done|done|..|done].
  - split; [done|done|..]; try (intros p q b c Hp; by destruct (E p b)); [intros p b q c Hp; by destruct (E p b)|intros p b Hp; by destruct (E p b)|apply map_Forall_empty].
  - split; [by intros k p Hp%elem_of_nil|intros p b Hp; by destruct (E p b)|apply NoDup_nil_2|by intros p Hp%elem_of_nil].
  - split; [by intros p Hp%elem_of_empty|done|]. split; [done|]. intros p Lp. by destruct (L p).
  - split; [by left|done].
Qed.

Lemma room_below s b : room s b -> heights_below (cs_heap s).
Proof using. intros R p c Hp. pose proof (room_heights s b R p c Hp). lia. Qed.

Lemma node_at_ok s : node_at s -> node_ok s.
Proof using AOk.
  induction 1 as [w Hw|s b st r s' _ Hs R E|s b st dbp v s' _ Hs R G E|s st pblock checked s' _ Hs Hst Gb E|
    s b st pfrom dbp s' _ Hs R Hst [t Et] E|s b st pfrom dbp st' s' _ Hs R Hst [t Et] E I].
  - by apply start_ok.
  - pose proof (accept_header_ok params HashQuark HashGenesisBlock nMaxReorgDepth fEnabled checkpoints ComputeNextStakeModifier ComputeStakeModifierV2
      height_of accepts genuine X s b st Hs (room_below s b R) (room_wire s b R) (room_work s b R)) as K. unfold runs in K. rewrite E in K.
    destruct r as [p|e]; [apply K|by destruct K as [-> _]].
  - pose proof (AcceptBlock_ok params HashQuark HashGenesisBlock nMaxReorgDepth COINBASE_MATURITY fEnabled checkpoints ComputeNextStakeModifier ComputeStakeModifierV2
      height_of accepts genuine X s b st dbp Hs (room_below s b R) (room_wire s b R) (room_work s b R) G (room_counts s b R)) as K. unfold runs in K. rewrite E in K. apply K.
  - destruct Hs as [G C]. pose proof (ActivateBestChain_ok HashQuark accepts genuine X s st pblock checked G Hst Gb) as K. unfold runs in K. rewrite E in K.
    destruct K as (G' & K & _). split; [done|]. by apply (placed_same _ _ (cs_heap s)); [apply kept_tree|].
  - pose proof (ProcessNewBlock_ok params HashQuark HashGenesisBlock nMaxReorgDepth COINBASE_MATURITY fEnabled checkpoints ComputeNextStakeModifier ComputeStakeModifierV2
      height_of accepts genuine X s b st pfrom dbp t Hs Hst Et (room_heights s b R) (room_wire s b R) (room_work s b R) (room_counts s b R)) as K.
    unfold runs in K. rewrite E in K. apply K.
  - pose proof (ProcessNewBlock_ok params HashQuark HashGenesisBlock nMaxReorgDepth COINBASE_MATURITY fEnabled checkpoints ComputeNextStakeModifier ComputeStakeModifierV2
      height_of accepts genuine X s b st pfrom dbp t Hs Hst Et (room_heights s b R) (room_wire s b R) (room_work s b R) (room_counts s b R)) as K.
    unfold runs in K. rewrite E in K. destruct K as [L|(st2 & [= <-] & [[_ I0]|[K _]])]; [exfalso; eapply (lost_not_refused accepts genuine X); exact L|congruence|done].
Qed.

(** ** What the choice comes to *)

(** The blocks of the chain are there and accepted. *)
Definition accepted_chain (H : heap) (x : ptr) : Prop :=
  is_Some (H !! x) /\ forall q b, is_ancestor H q x -> H !! q = Some b -> have_data b = true /\ accepts (blockHash b).

(** The coins are those of the best of these chains. *)
Definition at_best_chain (s : chain_state W) : Prop :=
  at_tip (cs_heap s) (Tip (cs_active s)) (cs_world s) /\
  match Tip (cs_active s) with
  | Some t => cs_active s = chain_of (cs_heap s) t /\ accepted_chain (cs_heap s) t /\
      forall x, accepted_chain (cs_heap s) x -> worse (cs_heap s) t x = false
  | None => forall x, ~ accepted_chain (cs_heap s) x
  end.

Lemma complete_linked floor (s : chain_state W) : chain_inv accepts floor [] s -> forall n x b, cs_heap s !! x = Some b -> nHeight b <= Z.of_nat n ->
  accepted_chain (cs_heap s) x -> linked (cs_heap s) x.
Proof using.
  intros Hs. pose proof (ch_heap _ _ _ _ Hs) as Hi. pose proof (hi_index _ _ Hi) as Hok. destruct (ch_wait _ _ _ _ Hs) as [W1 W2 _ _].
  induction n as [|n IH]; intros x b Hx L [Kx All]; exists b; (split; [done|]); intros Z0;
    destruct (All x b (is_ancestor_refl _ x) Hx) as [D _]; destruct (Hok x b Hx) as [Hr Hb];
    (destruct (W2 x b Hx D Z0) as [I|[I|(q & c & Eq & Hq & F)]]; [by apply elem_of_nil in I| |]).
  - destruct (W1 _ _ I) as (b' & q & c & Hx' & Eq & _). replace b' with b in Eq by congruence. rewrite Eq in Hb. destruct Hb as [(d & Hd & Eh) _]. destruct (Hok q d Hd). lia.
  - rewrite Eq in Hb. destruct Hb as [(d & Hd & Eh) _]. destruct (Hok q d Hd). lia.
  - destruct (W1 _ _ I) as (b' & q & c & Hx' & Eq & Ek & _ & _ & Hq & Zc). replace b' with b in Eq by congruence. rewrite Eq in Hb. destruct Hb as [(d & Hd & Eh) _].
    destruct (IH q d Hd ltac:(lia)) as (c' & Hc' & Nc); [|congruence]. split; [by exists d|]. intros r e Ar. apply All.
    apply (is_ancestor_trans _ r q x); [done|]. by apply (parent_is_ancestor _ x b).
  - apply (ei_flag _ _ _ _ (hi_entries _ _ Hi q c Hq) F). intros r e Ar Hre. apply (All r e); [|done].
    apply (is_ancestor_trans _ r q x); [done|]. by apply (parent_is_ancestor _ x b).
Qed.

Lemma accepted_iff floor (s : chain_state W) x : chain_inv accepts floor [] s -> accepted_chain (cs_heap s) x <-> linked (cs_heap s) x /\ sound accepts (cs_heap s) x.
Proof using.
  intros Hs. pose proof (ch_heap _ _ _ _ Hs) as Hi. split.
  - intros Ac. pose proof Ac as [[b Hx] All]. destruct (hi_index _ _ Hi x b Hx). split; [apply (complete_linked floor s Hs (Z.to_nat (nHeight b)) x b); [done|lia|done]|].
    intros q c Aq Hq. by apply (All q c).
  - intros [L S]. split; [by apply linked_known|]. intros q c Aq Hq. split; [|by apply (S q c)].
    destruct (linked_ancestor accepts _ x q Hi L Aq) as (c' & Hc' & Nz). replace c' with c in Nz by congruence.
    by apply (ei_have _ _ _ _ (hi_entries _ _ Hi q c Hq)).
Qed.

Lemma best_chain_of (s : chain_state W) : node_ok s -> best_tip accepts s -> at_best_chain s.
Proof using.
  intros [[[floor Hs] Hw] _] B. split; [done|]. unfold best_tip in B. pose proof (chain_ok_Tip _ _ (proj1 (ch_tip _ _ _ _ Hs))) as Hc.
  destruct (Tip (cs_active s)) as [t|].
  - destruct B as (L & S & Max). split; [apply Hc|]. split; [by apply (accepted_iff floor)|]. intros x [Lx Sx]%(accepted_iff floor); [|done]. by apply Max.
  - intros x [Lx Sx]%(accepted_iff floor); [|done]. by apply (B x).
Qed.

Lemma stops_reported e (s : chain_state W) : stops accepts genuine X e s -> match e with Rejected st => IsInvalid st = false /\ stopped st = true | _ => X e end.
Proof using NOk. intros [Xe|(st & -> & I)]; [|done]. destruct e; try done. by apply accident in Xe. Qed.



(** ** A check for concrete states *)

Definition room_check (s : chain_state W) (b : CBlock) : bool :=
  bool_decide (map_Forall (fun _ c => nHeight c < 2 ^ 10 /\ 0 <= nTx c /\ nTx c <= 2 ^ 10) (cs_heap s)) && (Z.of_nat (length (vtx b)) <=? 2 ^ 10) &&
  (0 <=? b_nBits b) && (b_nBits b <? 2 ^ 32) && negb (bool_decide (hashPrevBlock b = GetHash b)) && (0 <? expected_hashes (b_nBits b)) &&
  match mapBlockIndex (cs_index s) !! hashPrevBlock b ≫= (cs_heap s !!.) with
  | Some c => (val (nChainWork c) + expected_hashes (b_nBits b) <? 2 ^ 256) && (height_of (GetHash b) =? nHeight c + 1)
  | None => height_of (GetHash b) =? 0
  end.

Lemma counts_bounded H k m : index_ok H -> 0 <= k -> 0 <= m -> (forall p c, H !! p = Some c -> nHeight c < m /\ nTx c <= k) ->
  counts_below H (k * (m + 1) + 1).
Proof using.
  intros Hok Pk Pm B. assert (L : forall n p c, H !! p = Some c -> chain_tx H n p <= k * (nHeight c + 1)).
  { induction n as [|n IH]; intros p c Hp; destruct (Hok p c Hp) as [Hr Hc]; [cbn; nia|]. cbn [chain_tx]. rewrite Hp. destruct (B p c Hp) as [_ Bt].
    destruct (pprev c) as [q|]; [|nia]. destruct Hc as [(d & Hq & E) _]. pose proof (IH q d Hq). rewrite E. destruct (Hok q d Hq). nia. }
  intros n p. destruct (H !! p) as [c|] eqn:Hp.
  - pose proof (L n p c Hp). destruct (B p c Hp). destruct (Hok p c Hp). nia.
  - destruct n; cbn [chain_tx]; [|rewrite Hp]; nia.
Qed.

Lemma room_checked s b : node_at s -> room_check s b = true -> room s b.
Proof using AOk.
  intros Hs E. destruct (node_at_ok s Hs) as [[[floor Hi] _] _]. pose proof (hi_index _ _ (ch_heap _ _ _ _ Hi)) as Hok. unfold room_check in E.
  rewrite !andb_true_iff, bool_decide_eq_true, negb_true_iff, bool_decide_eq_false, !Z.leb_le, !Z.ltb_lt in E.
  destruct E as ((((((M & L) & N1) & N2) & Np) & Pw) & Par). split.
  - intros p c Hp. destruct (M p c Hp). lia.
  - assert (C : counts_below (cs_heap s) (2 ^ 10 * (2 ^ 10 + 1) + 1)).
    { apply counts_bounded; [done|lia|lia|]. intros p c Hp. destruct (M p c Hp) as (? & ? & ?). done. }
    intros n p. pose proof (C n p). lia.
  - split; [by split|done].
  - assert (E : forall q c, mapBlockIndex (cs_index s) !! hashPrevBlock b = Some q -> cs_heap s !! q = Some c ->
      mapBlockIndex (cs_index s) !! hashPrevBlock b ≫= (cs_heap s !!.) = Some c) by (intros q c ->; done).
    split; [done|..].
    + intros q c Eq Hq. rewrite (E q c Eq Hq) in Par. apply andb_prop in Par as [Par _]. by apply Z.ltb_lt.
    + change (entries (cs_index s)) with (cs_heap s). destruct (_ ≫= _) as [c|]; [by apply andb_prop in Par as [_ ?%Z.eqb_eq]|by apply Z.eqb_eq].
Qed.
End run.
