(* ===== verification/SampleNode.v ===== *)
(** * A small node

    An instance of the interfaces with three blocks, the genesis block and two on top of it,
    one of which is not accepted, and its run: the laws can hold, and the theorems about the
    best chain apply to it. *)

From Stdlib Require Import ZArith Lia List Bool String.
From stdpp Require Import base option list gmap.
From coqutil Require Import Byte Word.LittleEndianList.
From S2P Require Import Prelude Uint256 Compact Serialize MerkleDamgard Hash Script Interpreter Effects Tx Coins Params BlockIndex Checkpoints Pow Chain Block TxCheck CheckBlock Accept Candidates Linking BestChain Activation Arrival NodeRun.

Open Scope Z_scope.
Open Scope btc_scope.

(** The hash of a header is the number of its time. *)
Definition small_quark : bytes -> uint256 := fun b => base_uint_u64 8 (le_combine (take 4 (drop 68 b))).
Abbreviation small_hash := (CBlockHeader_GetHash small_quark).

Definition small_coinbase (s : CScript) : CTransaction := CTransaction_of (mk_CMutableTransaction 1 [CTxIn_make COutPoint_SetNull s UINT32_MAX] [CTxOut_make 0 []] 0).
Definition small_block (prev : uint256) (height nTime : Z) : CBlock :=
  mk_CBlock (mk_CBlockHeader 3 prev (base_uint_zero 8) nTime 0x207fffff 0 (base_uint_zero 8)) [small_coinbase (push_int64 [] height)] [] [] [].
Definition block_0 : CBlock := small_block (base_uint_zero 8) 0 1000.
Definition hash_0 : uint256 := Eval vm_compute in small_hash block_0.
Definition block_bad : CBlock := small_block hash_0 1 1060.
Definition hash_bad : uint256 := Eval vm_compute in small_hash block_bad.
Definition block_good : CBlock := small_block hash_0 1 1120.
Definition hash_good : uint256 := Eval vm_compute in small_hash block_good.

Definition small_height (h : uint256) : Z := if bool_decide (h = hash_0) then 0 else 1.
Definition small_accepts (h : uint256) : Prop := h <> hash_bad.
Definition small_ok (height : Z) (b : CBlock) : bool :=
  match vtx b with
  | [tx] => (tx_nLockTime tx =? 0) && match tx_vin tx with i :: _ => starts_with (push_int64 [] height) (scriptSig i) | [] => false end
  | _ => false
  end.
Definition small_genuine (h : uint256) (b : CBlock) : Prop := small_hash b = h /\ small_ok (small_height h) b = true.

Definition small_entry : CBlockIndex := Eval vm_compute in CBlockIndex_of (header_of small_quark block_0).

(** ** The rest of the node: the hashes of the blocks that are connected *)

Definition small_disk (b : CBlockIndex) : option CBlock :=
  find (fun k : CBlock => bool_decide (small_hash k = blockHash b) && small_ok (small_height (blockHash b)) k) [block_0; block_bad; block_good].

#[export] Instance small_Node : Node (list uint256) := {
  ReadBlockFromDisk b _ := small_disk b;
  ConnectView _ _ _ I _ p w :=
    match entries I !! p with
    | Some b => if bool_decide (blockHash b = hash_bad) then (Err (Rejected (DoS 100 REJECT_INVALID "bad" false CValidationState_new)), (b, false), w)
                else (Ret tt, (match RaiseValidity BLOCK_VALID_SCRIPTS b with Some (b, _) => b | None => b end, true), blockHash b :: w)
    | None => (Err Undefined, (small_entry, false), w)
    end;
  DisconnectView _ _ _ _ _ w := (Ret tt, tail w);
  FlushStateToDisk _ _ _ _ w := (Ret [], w);
  mempool_check _ := Ret tt;
  removeForBlock _ _ w := w;
  resurrect _ _ _ _ w := w;
  tip_updated _ _ w := w;
  SyncWithWallets _ _ w := w;
  NotifyBlockTip _ w := w;
  report_invalid _ _ w := w;
  forget_source _ w := w;
  IsInitialBlockDownload _ _ _ := false }.

#[export] Instance small_Arrival : Arrival (list uint256) := {
  GetTime _ := 2000;
  GetAdjustedTime _ := 2000;
  CheckBlock_here b st w := (if small_ok (small_height (small_hash b)) b then Ret tt else reject 100 REJECT_INVALID "bad" st, w);
  CheckWork _ _ _ _ := Ret true;
  CheckBlockSignature _ := Ret true;
  AccessCoins _ _ := None;
  StoreBlock _ _ _ _ w := (Ret (0, 8), w);
  push_getblocks _ _ w := w;
  MarkBlockAsReceived _ w := w;
  set_source _ _ w := w;
  block_spam _ _ st w := (st, w);
  block_connected w := w }.

(** The hashes of the entries from [t] down. *)
Inductive hashes_at (H : heap) : option ptr -> list uint256 -> Prop :=
| hashes_none : hashes_at H None []
| hashes_entry p b l : H !! p = Some b -> hashes_at H (pprev b) l -> hashes_at H (Some p) (blockHash b :: l).

Lemma hashes_agree H H' t w : agrees H H' t -> hashes_at H t w -> hashes_at H' t w.
Proof.
  intros Ag K. induction K as [|p b l Hp K IH]; [constructor|].
  destruct (Ag p p b eq_refl (is_ancestor_refl H p) Hp) as (b' & Hp' & (<- & E & _)%node_fields). constructor; [done|]. rewrite E. apply IH.
  intros q r c Eq A Hr. apply (Ag p r c eq_refl); [|done]. apply (is_ancestor_trans H r q p A). by apply (parent_is_ancestor H p b).
Qed.

#[export] Instance small_NodeOk : NodeOk (list uint256) small_accepts small_genuine (fun _ => False).
Proof.
  refine {| at_tip := hashes_at; stopped := IsError |}.
  - by intros [[]].
  - exact hashes_agree.
  - intros I p b w block _ E. apply find_some in E as [_ [E1%bool_decide_eq_true_1 E2]%andb_prop]. by split.
  - by intros b w [[]] _.
  - intros I c p b w block st checked r b' dirty w' Hp _ Et K Hst. cbn. rewrite Hp. case_bool_decide as D; intros [= <- <- <- <-].
    + do 3 (split; [done|]). split; [done|]. split; [split; [intros []|]|]; done.
    + destruct (RaiseValidity_spec BLOCK_VALID_SCRIPTS b eq_refl) as (b1 & x & -> & E & F & L). destruct (kept_flags b b1 F) as [F1 F2].
      split; [unfold key_of; rewrite F2; by rewrite E|]. split; [done|]. split; [lia|]. split; [done|]. by constructor.
  - intros I c p b w block st r w' Hp _ Et K Hst [= <- <-]. inversion K as [|p' b' l Hp' K' E1 E2]; subst. by replace b with b' by congruence.
  - by intros st m I c w r w' Hst [= <- <-].
  - done.
  - by intros st [].
  - intros H t w K. done.
Defined.

#[export] Instance small_ArrivalOk : ArrivalOk (list uint256) small_quark hash_0 small_height small_accepts small_genuine (fun _ => False).
Proof.
  refine {| genesis_accepted := _ |}.
  - apply (bool_decide_eq_true_1 (~ _)). vm_compute. reflexivity.
  - intros h b [_ Ok]. unfold small_ok in Ok. destruct (vtx b) as [|tx [|]]; [done| |done]. apply andb_prop in Ok as [_ Ok]. destruct (tx_vin tx) as [|i l] eqn:E; [done|].
    by exists tx, [], i, l.
  - intros b st w r w' [= <- <-]. split; [done|]. destruct (small_ok _ b) eqn:E; done.
  - intros H p b block now c st st' Hok Hp Eh [_ Ok] E. exfalso. revert E. unfold ContextualCheckBlock, small_ok in *. rewrite <- Eh in Ok.
    destruct (vtx block) as [|tx [|]]; [done| |done]. apply andb_prop in Ok as [E1%Z.eqb_eq Ok]. destruct (tx_vin tx) as [|i l]; [done|].
    destruct (Hok p b Hp) as [Hr Hb].
    assert (Hn : (let* nHeight := match pprev b with None => Ret 0 | Some q => let* prev := of_ptr (deref H (Some q)) in int_succ (nHeight prev) end in Ret nHeight) = Ret (E := failure) (nHeight b)).
    { destruct (pprev b) as [q|]; [|by rewrite Hb]. destruct Hb as [(d & Hq & E) _]. rewrite (deref_Some H q d Hq). cbn [of_ptr result_bind].
      rewrite int_succ_small; [by rewrite E|]. unfold small_height in Eh. destruct (bool_decide _); lia. }
    destruct (match pprev b with None => _ | Some q => _ end) as [n|]; [injection Hn as ->|done]. cbn [result_bind forallb]. unfold IsFinalTx. rewrite E1. cbn. by rewrite Ok.
  - by intros.
  - by intros.
  - by intros b st dbp h w r w' [= <- <-].
  - by intros.
Qed.

(** ** Its run *)

Abbreviation small_accept := (AcceptBlock CMainParams small_quark hash_0 50 100 true [(0, hash_0)] (fun _ => (0, false)) (fun _ _ => base_uint_zero 8)).
Abbreviation small_activate := (ActivateBestChain small_quark).
Definition small_1 : chain_state (list uint256) := Eval vm_compute in (small_accept block_0 CValidationState_new None true (start [])).2.
Definition small_2 : chain_state (list uint256) := Eval vm_compute in (small_activate CValidationState_new (Some block_0) true small_1).2.
Definition small_3 : chain_state (list uint256) := Eval vm_compute in (small_accept block_bad CValidationState_new None true small_2).2.
Definition small_4 : chain_state (list uint256) := Eval vm_compute in (small_accept block_good CValidationState_new None true small_3).2.
Definition small_5 : chain_state (list uint256) := Eval vm_compute in (small_activate CValidationState_new None false small_4).2.

Abbreviation small_at := (node_at CMainParams small_quark hash_0 50 100 true [(0, hash_0)] (fun _ => (0, false)) (fun _ _ => base_uint_zero 8)
  small_height small_accepts small_genuine (fun _ => False)).

Lemma small_known (b : CBlock) : small_ok (small_height (small_hash b)) b = true -> known_block small_quark small_genuine (Some b).
Proof. by intros E c [= <-]. Qed.

Abbreviation small_rooms := (room small_quark small_height).
Lemma small_room s (b : CBlock) : small_at s -> room_check small_quark small_height s b = true -> small_rooms s b.
Proof. eapply room_checked. exact small_ArrivalOk. Qed.

Lemma small_run : small_at small_2 /\ small_at small_4.
Proof.
  assert (R0 : small_at (start [])) by (constructor; constructor).
  assert (R1 : small_at small_1).
  { eapply (at_block _ _ _ _ _ _ _ _ _ _ _ _ _ (start []) block_0 CValidationState_new None); [exact R0|apply small_room; [exact R0|]|split|]; vm_compute; reflexivity. }
  assert (R2 : small_at small_2).
  { eapply (at_best _ _ _ _ _ _ _ _ _ _ _ _ _ small_1 CValidationState_new (Some block_0) true); [exact R1|reflexivity|apply small_known|]; vm_compute; reflexivity. }
  split; [exact R2|]. assert (R3 : small_at small_3).
  { eapply (at_block _ _ _ _ _ _ _ _ _ _ _ _ _ small_2 block_bad CValidationState_new None); [exact R2|apply small_room; [exact R2|]|split|]; vm_compute; reflexivity. }
  eapply (at_block _ _ _ _ _ _ _ _ _ _ _ _ _ small_3 block_good CValidationState_new None); [exact R3|apply small_room; [exact R3|]|split|]; vm_compute; reflexivity.
Qed.

Abbreviation small_best := (at_best_chain small_accepts small_genuine (fun _ => False)).
Abbreviation small_process := (ProcessNewBlock CMainParams small_quark hash_0 50 100 true [(0, hash_0)] (fun _ => (0, false)) (fun _ _ => base_uint_zero 8)).


