(* ===== verification/CheckInputs.v ===== *)
(** * Checks of the inputs of a transaction ([main.cpp], [main.h], [coins.h])

    [CScriptCheck], [CheckInputs] and [GetP2SHSigOpCount]: what a transaction that spends
    outputs of a view has to satisfy, and that these checks accept exactly that. *)

From Stdlib Require Import ZArith Lia List Bool String.
From stdpp Require Import base option list gmap.
From coqutil Require Import Byte Word.LittleEndianList.
From S2P Require Import Prelude Uint256 Serialize MerkleDamgard Hash Script Interpreter Effects PubKey Tx SigHash Compressor Coins CoinsView CoinsDB Connect Params BlockIndex Chain TxCheck CheckBlock.

Open Scope Z_scope.
Open Scope btc_scope.

Definition MANDATORY_SCRIPT_VERIFY_FLAGS : Z := SCRIPT_VERIFY_P2SH.
Definition STANDARD_SCRIPT_VERIFY_FLAGS : Z :=
  Z.lor (Z.lor (Z.lor (Z.lor (Z.lor MANDATORY_SCRIPT_VERIFY_FLAGS SCRIPT_VERIFY_DERSIG) SCRIPT_VERIFY_STRICTENC)
    SCRIPT_VERIFY_MINIMALDATA) SCRIPT_VERIFY_NULLDUMMY) SCRIPT_VERIFY_DISCOURAGE_UPGRADABLE_NOPS.
Definition STANDARD_NOT_MANDATORY_VERIFY_FLAGS : Z := Z.ldiff STANDARD_SCRIPT_VERIFY_FLAGS MANDATORY_SCRIPT_VERIFY_FLAGS.

(** The result of an operation on [int], [int64_t]. *)
Definition as_int (n : Z) : result failure Z := if (- 2 ^ 31 <=? n) && (n <? 2 ^ 31) then Ret n else Err Undefined.
Definition as_int64 (n : Z) : result failure Z := if (- 2 ^ 63 <=? n) && (n <? 2 ^ 63) then Ret n else Err Undefined.

Lemma as_int64_Ret n m : as_int64 n = Ret m -> m = n.
Proof. unfold as_int64. destruct (_ && _); [by intros [= ->]|done]. Qed.
Lemma as_int_Ret n m : as_int n = Ret m -> m = n.
Proof. unfold as_int. destruct (_ && _); [by intros [= ->]|done]. Qed.

(** ** [CScriptCheck] *)

(** The output spent, the transaction, the input and the flags. *)
Record CScriptCheck : Type := mk_CScriptCheck { sc_scriptPubKey : CScript; sc_tx : CTransaction; sc_nIn : nat; sc_nFlags : Z }.

(** The constructor; [None]: an index is outside its vector. *)
Definition CScriptCheck_of (txFrom : CCoins) (tx : CTransaction) (nIn : nat) (flags : Z) : option CScriptCheck :=
  i ← tx_vin tx !! nIn;
  o ← c_vout txFrom !! Z.to_nat (prev_n (prevout i));
  Some (mk_CScriptCheck (scriptPubKey o) tx nIn flags).

Section checks.
Context {V : Type} `{CV : CCoinsView V}.
Context (params : CChainParams) (Verify : CPubKey -> uint256 -> list byte -> bool) (buf : list byte).
Context (H : heap) (mapBlockIndex : gmap uint256 ptr).

(** [operator()].  The checker's cache of signatures is not consulted here: it answers what
    [Verify] answered before. *)
Definition CScriptCheck_run (c : CScriptCheck) : result failure bool :=
  match tx_vin (sc_tx c) !! sc_nIn c with
  | None => Err Undefined
  | Some i =>
      match @VerifyScript (TransactionSignatureChecker Verify buf (sc_tx c) (sc_nIn c)) (sc_nFlags c) (scriptSig i) (sc_scriptPubKey c) with
      | Ret _ => Ret true
      | Err (Error _) => Ret false
      | Err (Throw _) => Err Throws
      | Err AssertFails => Err Asserts
      | Err Interpreter.Undefined => Err TxCheck.Undefined
      end
  end.

(** ** [CheckInputs] *)

(** The first loop: maturity and amounts. *)
Fixpoint check_values (nSpendHeight : Z) (vin : list CTxIn) (nValueIn : CAmount) (state : CValidationState) : eff (CCoinsViewCache V) failure CAmount :=
  match vin with
  | [] => eret nValueIn
  | i :: vin =>
      do* coins := reads (AccessCoins (prev_hash (prevout i))) in
      match coins with
      | None => throw Asserts
      | Some coins =>
          do* depth := (if fCoinBase coins || fCoinStake coins then lift (as_int (nSpendHeight - Coins.nHeight coins)) else eret (nMaturity params)) in
          if depth <? nMaturity params
          then throw (Rejected (Invalid REJECT_INVALID "bad-txns-premature-spend-of-coinbase" state)) else
          match c_vout coins !! Z.to_nat (prev_n (prevout i)) with
          | None => throw Undefined
          | Some o =>
              do* nValueIn := lift (as_int64 (nValueIn + nValue o)) in
              if negb (MoneyRange params (nValue o)) || negb (MoneyRange params nValueIn)
              then lift (reject 100 REJECT_INVALID "bad-txns-inputvalues-outofrange" state)
              else check_values nSpendHeight vin nValueIn state
          end
      end
  end.

(** The fee, of a transaction that is not a coinstake. *)
Definition check_fee (tx : CTransaction) (nValueIn : CAmount) (state : CValidationState) : result failure unit :=
  let* nValueOut := of_value (GetValueOut tx) in
  if nValueIn <? nValueOut then reject 100 REJECT_INVALID "bad-txns-in-belowout" state else
  let* nTxFee := as_int64 (nValueIn - nValueOut) in
  if nTxFee <? 0 then reject 100 REJECT_INVALID "bad-txns-fee-negative" state else
  if negb (MoneyRange params nTxFee) then reject 100 REJECT_INVALID "bad-txns-fee-outofrange" state else Ret tt.

(** One script check that is run at once; a failure that the flags beyond the mandatory ones
    may have caused is tried again without them.  The text of the reason, which holds the
    script error, is shortened. *)
Definition run_check (coins : CCoins) (check : CScriptCheck) (state : CValidationState) : result failure unit :=
  let* ok := CScriptCheck_run check in
  if ok : bool then Ret tt else
  let mandatory := reject 100 REJECT_INVALID "mandatory-script-verify-flag-failed" state in
  if negb (Z.land (sc_nFlags check) STANDARD_NOT_MANDATORY_VERIFY_FLAGS =? 0) then
    match CScriptCheck_of coins (sc_tx check) (sc_nIn check) (Z.ldiff (sc_nFlags check) STANDARD_NOT_MANDATORY_VERIFY_FLAGS) with
    | None => Err Undefined
    | Some check =>
        let* ok := CScriptCheck_run check in
        if ok : bool then Err (Rejected (Invalid REJECT_NONSTANDARD "non-mandatory-script-verify-flag" state)) else mandatory
    end
  else mandatory.

(** The second loop, over the inputs [vin] from number [i] on: the checks are queued when
    [pvChecks] is given, else run. *)
Fixpoint check_scripts (tx : CTransaction) (flags : Z) (pvChecks : bool) (i : nat) (vin : list CTxIn) (state : CValidationState) :
    eff (CCoinsViewCache V) failure (list CScriptCheck) :=
  match vin with
  | [] => eret []
  | x :: vin =>
      do* coins := reads (AccessCoins (prev_hash (prevout x))) in
      match coins with
      | None => throw Asserts
      | Some coins =>
          match CScriptCheck_of coins tx i flags with
          | None => throw Undefined
          | Some check =>
              do* _ := (if pvChecks then eret tt else lift (run_check coins check state)) in
              do* checks := check_scripts tx flags pvChecks (S i) vin state in
              eret (if pvChecks then check :: checks else checks)
          end
      end
  end.

(** The height at which the inputs are spent: above the best block of the view. *)
Definition spend_height (best : uint256) : result failure Z :=
  match mapBlockIndex !! best with
  | None => Err Undefined
  | Some p => let* prev := of_ptr (deref H (Some p)) in int_succ (nHeight prev)
  end.

(** The result is what [pvChecks] receives. *)
Definition CheckInputs (tx : CTransaction) (state : CValidationState) (fScriptChecks : bool) (flags : Z) (pvChecks : bool) (Hcheck : Z) :
    eff (CCoinsViewCache V) failure (list CScriptCheck) :=
  if negb (has_inputs tx) then eret [] else
  do* have := reads (HaveInputs tx Hcheck) in
  if negb have then throw (Rejected (Invalid 0 "" state)) else
  do* best := reads cache_GetBestBlock in
  do* nSpendHeight := lift (spend_height best) in
  do* nValueIn := check_values nSpendHeight (tx_vin tx) 0 state in
  do* _ := (if negb (IsCoinStake tx) then lift (check_fee tx nValueIn state) else eret tt) in
  if fScriptChecks then check_scripts tx flags pvChecks 0 (tx_vin tx) state else eret [].

(** ** [GetP2SHSigOpCount] *)

Fixpoint GetP2SHSigOpCount_loop (vin : list CTxIn) (nSigOps : Z) : eff (CCoinsViewCache V) failure Z :=
  match vin with
  | [] => eret nSigOps
  | i :: vin =>
      do* prevout := reads (GetOutputFor i) in
      match prevout with
      | None => throw Asserts
      | Some o =>
          GetP2SHSigOpCount_loop vin
            (if IsPayToScriptHash (scriptPubKey o) then u32 (nSigOps + GetSigOpCount_P2SH (scriptPubKey o) (scriptSig i)) else nSigOps)
      end
  end.
Definition GetP2SHSigOpCount (tx : CTransaction) : eff (CCoinsViewCache V) failure Z :=
  if negb (has_inputs tx) then eret 0 else GetP2SHSigOpCount_loop (tx_vin tx) 0.
End checks.

(** ** The set of unspent outputs *)

Abbreviation ledger := (uint256 -> option CCoins).

(** The coins and the output at an out point. *)
Definition coin_at (L : ledger) (o : COutPoint) : option (CCoins * CTxOut) :=
  c ← L (prev_hash o); out ← c_vout c !! Z.to_nat (prev_n o); if CTxOut_IsNull out then None else Some (c, out).

Definition value_at (L : ledger) (o : COutPoint) : Z := match coin_at L o with Some (_, out) => nValue out | None => 0 end.
Definition value_in (L : ledger) (vin : list CTxIn) : Z := foldr (fun i n => value_at L (prevout i) + n) 0 vin.

Definition coins_at (r : option CCoins) (n : nat) : option (CCoins * CTxOut) :=
  c ← r; out ← c_vout c !! n; if CTxOut_IsNull out then None else Some (c, out).

(** Coins that a view returns, against the ledger it stands for. *)
Lemma coin_at_read (L : ledger) r o : (r ≫= unspent) = L (prev_hash o) -> (forall c, r = Some c -> coins_ok c) ->
  coin_at L o = coins_at r (Z.to_nat (prev_n o)).
Proof.
  intros Hr Ho. unfold coin_at, coins_at. rewrite <- Hr. destruct r as [c|]; [|done]. cbn [mbind option_bind].
  unfold unspent. destruct (IsPruned c) eqn:P; [|done]. apply coins_ok_pruned in P; [|by apply Ho]. by rewrite P, lookup_nil.
Qed.

Lemma IsAvailable_at c n : IsAvailable c n = match coins_at (Some c) n with Some (_, o) => negb (CTxOut_IsZerocoinMint o) | None => false end.
Proof.
  unfold IsAvailable, coins_at. cbn [mbind option_bind]. destruct (c_vout c !! n) as [o|]; [|done]. cbn [mbind option_bind].
  by destruct (CTxOut_IsNull o).
Qed.

Section reads.
Context {V : Type} `{CCoinsViewOk V}.

(** Reading coins. *)
Lemma AccessCoins_spec (v : CCoinsViewCache V) t : cache_ok v -> wf 8 t ->
  exists v' r, AccessCoins t v = (v', r) /\ keeps v v' /\ (r ≫= unspent) = cache_view v t /\ (forall c, r = Some c -> coins_ok c).
Proof using.
  intros Hc Ht. pose proof (FetchCoins_keeps v t Hc Ht) as K. pose proof (FetchCoins_spec v t (proj2 Hc) Ht) as S.
  unfold AccessCoins. destruct (FetchCoins t v) as [v' r]. destruct S as (_ & _ & _ & E & O). eexists _, _. split; [reflexivity|].
  split; [exact K|]. split; [exact E|]. intros c. destruct r as [e|]; [|done]. intros [= <-]. by apply O.
Qed.

Lemma keeps_trans (v v' v'' : CCoinsViewCache V) : keeps v v' -> keeps v' v'' -> keeps v v''.
Proof using. intros [_ S] [K S']. split; [exact K|]. by eapply same_view_trans. Qed.
Lemma keeps_refl (v : CCoinsViewCache V) : cache_ok v -> keeps v v.
Proof using. intros K. split; [exact K|apply same_view_refl]. Qed.
Lemma keeps_view (v v' : CCoinsViewCache V) : keeps v v' -> forall x, cache_view v' x = cache_view v x.
Proof using. by intros [_ [E _]]. Qed.

(** Code that only reads the view [v]: it keeps what the view stands for, and accepts under [P]. *)
Definition judges (X : failure -> Prop) {A} (m : eff (CCoinsViewCache V) failure A) (v : CCoinsViewCache V) (P : Prop) (Q : A -> Prop) : Prop :=
  keeps v (m v).2 /\ decides X (m v).1 P Q.

#[export] Instance judges_proper X {A} :
  Proper (eq ==> eq ==> iff ==> pointwise_relation A iff ==> iff) (@judges X A).
Proof using. intros m ? <- v ? <- P P' HP Q Q' HQ. unfold judges. by rewrite HP, HQ. Qed.

Lemma judges_lift {X A} (r : result failure A) v P Q : cache_ok v -> decides X r P Q -> judges X (Effects.lift r) v P Q.
Proof using. intros K D. split; [by apply keeps_refl|exact D]. Qed.

Lemma judges_ret {X A} (a : A) v (P : Prop) (Q : A -> Prop) : cache_ok v -> P -> Q a -> judges X (eret a) v P Q.
Proof using. intros K HP HQ. split; [by apply keeps_refl|by split]. Qed.

Lemma judges_reject {X A} state v (P : Prop) (Q : A -> Prop) : cache_ok v -> ~ P -> judges X (throw (Rejected state)) v P Q.
Proof using. intros K N. split; [by apply keeps_refl|]. split; [exact N|left; by eexists]. Qed.

Lemma judges_bind {X A B} (m : eff (CCoinsViewCache V) failure A) (k : A -> eff (CCoinsViewCache V) failure B) v P Q P' R :
  judges X m v P Q -> (forall a v', keeps v v' -> P -> Q a -> judges X (k a) v' P' R) -> (P' -> P) -> judges X (ebind m k) v P' R.
Proof using.
  unfold judges, ebind. intros [K D] Hk I. destruct (m v) as [[a|e] v']; cbn [fst snd decides] in *.
  - destruct D as [HP HQ]. destruct (Hk a v' K HP HQ) as [K' D']. split; [|exact D']. by eapply keeps_trans.
  - split; [exact K|]. split; [|apply D]. intros HP'. by apply D, I.
Qed.

Lemma judges_weaken {X Y A} (m : eff (CCoinsViewCache V) failure A) v (P P' : Prop) (Q Q' : A -> Prop) :
  judges X m v P Q -> (P' <-> P) -> (forall a, Q a -> Q' a) -> (forall e, X e -> Y e) -> judges Y m v P' Q'.
Proof using. intros [K D] I W XY. split; [exact K|]. by eapply decides_weaken. Qed.

Lemma judges_access {X A} t (k : option CCoins -> eff (CCoinsViewCache V) failure A) v P Q : cache_ok v -> wf 8 t ->
  (forall r v', keeps v v' -> (r ≫= unspent) = cache_view v t -> (forall c, r = Some c -> coins_ok c) -> judges X (k r) v' P Q) ->
  judges X (ebind (reads (AccessCoins t)) k) v P Q.
Proof using.
  intros Hc Ht Hk. destruct (AccessCoins_spec v t Hc Ht) as (v' & r & E & K & Er & Ho).
  destruct (Hk r v' K Er Ho) as [K' D]. unfold judges, ebind, reads. rewrite E. cbn [fst snd]. split; [|exact D]. by eapply keeps_trans.
Qed.
End reads.

(** ** What is accepted *)

Section accept.
Context {V : Type} {CV : CCoinsView V} {VOk : CCoinsViewOk V}.

Definition stands (v : CCoinsViewCache V) (L : ledger) : Prop := cache_ok v /\ forall x, cache_view v x = L x.

Lemma stands_keeps v v' L : stands v L -> keeps v v' -> stands v' L.
Proof using. intros [_ E] K. split; [apply K|]. intros x. by rewrite (keeps_view _ _ K). Qed.

Definition hash_wf (i : CTxIn) : Prop := wf 8 (prev_hash (prevout i)).

Lemma access_at {X A} o (k : option CCoins -> eff (CCoinsViewCache V) failure A) v L P Q : stands v L -> wf 8 (prev_hash o) ->
  (forall r v', stands v' L -> coin_at L o = coins_at r (Z.to_nat (prev_n o)) -> (forall c, r = Some c -> coins_ok c) -> judges X (k r) v' P Q) ->
  judges X (ebind (reads (AccessCoins (prev_hash o))) k) v P Q.
Proof using.
  intros S Ho Hk. apply judges_access; [apply S|exact Ho|]. intros r v' K Er Hok.
  apply Hk; [by eapply stands_keeps| |exact Hok]. apply coin_at_read; [|exact Hok]. rewrite Er. apply S.
Qed.

(** Coins of a ledger are within the ranges of the format. *)
Lemma coins_at_range c n c' o : coins_ok c -> coins_at (Some c) n = Some (c', o) ->
  c' = c /\ c_vout c !! n = Some o /\ CTxOut_IsNull o = false /\ 0 <= nValue o < 2 ^ 61 /\ 0 <= Coins.nHeight c < 2 ^ 31.
Proof using.
  intros Hc E. unfold coins_at in E. cbn [mbind option_bind] in E. destruct (c_vout c !! n) as [out|] eqn:En; [|done].
  cbn [mbind option_bind] in E. destruct (CTxOut_IsNull out) eqn:Nu; [done|]. injection E as <- <-.
  destruct Hc as [E|(_ & F & _ & _ & Hh & _)]; [by rewrite E in En|].
  assert (So : storable_out out) by (eapply Forall_lookup_1; [exact F|exact En]).
  unfold storable_out in So. rewrite Nu in So. destruct So as [(? & ? & _) _]. repeat (split; [done|]). split; [lia|exact Hh].
Qed.

Lemma value_at_range v L o : stands v L -> wf 8 (prev_hash o) -> 0 <= value_at L o < 2 ^ 61.
Proof using.
  intros S Ho. destruct (AccessCoins_spec v _ (proj1 S) Ho) as (v' & r & _ & _ & Er & Hok). unfold value_at.
  rewrite (coin_at_read L r o); [|by rewrite Er; apply S|exact Hok].
  destruct (coins_at r _) as [[c out]|] eqn:E; [|lia]. destruct r as [c0|]; [|done].
  apply coins_at_range in E as (_ & _ & _ & E & _); [exact E|by apply Hok].
Qed.

Lemma value_in_nonneg v L vin : stands v L -> Forall hash_wf vin -> 0 <= value_in L vin.
Proof using.
  intros S. induction 1 as [|i vin Hi Hvin IH]; [done|]. change (0 <= value_at L (prevout i) + value_in L vin).
  pose proof (value_at_range v L (prevout i) S Hi). lia.
Qed.

Lemma GetBestBlock_keeps (v : CCoinsViewCache V) : cache_ok v ->
  keeps v (cache_GetBestBlock v).1 /\ (cache_GetBestBlock v).2 = cache_best v.
Proof using.
  intros Hc. pose proof (cache_GetBestBlock_law v Hc) as B. destruct (cache_GetBestBlock v) as [v' b].
  destruct B as (B1 & B2 & B3 & B4 & -> & _). cbn [fst snd]. split; [|done]. split; [exact B1|]. do 3 (split; [done|]).
  destruct B1 as [-> _], Hc as [-> _]. done.
Qed.

(** [HaveInputs] *)
Definition available (L : ledger) (Hcheck : Z) (stake : bool) (i : CTxIn) : bool :=
  match coin_at L (prevout i) with
  | Some (c, o) => negb (CTxOut_IsZerocoinMint o) && negb ((Coins.nHeight c <? Hcheck) && negb stake)
  | None => false
  end.

Lemma HaveInputs_loop_spec (tx : CMutableTransaction) Hcheck L vin : forall v, stands v L -> Forall hash_wf vin ->
  stands (HaveInputs_loop tx Hcheck vin v).1 L /\ keeps v (HaveInputs_loop tx Hcheck vin v).1 /\
  (HaveInputs_loop tx Hcheck vin v).2 = forallb (available L Hcheck (IsCoinStake tx)) vin.
Proof using.
  induction vin as [|i vin IH]; intros v S Hw; cbn [HaveInputs_loop forallb]; [by split; [|split; [apply keeps_refl, S|]]|].
  apply Forall_cons in Hw as [Hi Hw]. destruct (AccessCoins_spec v _ (proj1 S) Hi) as (v' & r & -> & K & Er & Hok).
  pose proof (stands_keeps _ _ _ S K) as S'. unfold available at 1. rewrite (coin_at_read L r (prevout i)); [|by rewrite Er; apply S|exact Hok].
  destruct r as [c|]; [|by cbn]. rewrite IsAvailable_at. destruct (coins_at (Some c) _) as [[c' o]|] eqn:E.
  2: { rewrite orb_true_r. by cbn. }
  apply coins_at_range in E as (-> & _); [|by apply Hok].
  destruct (CTxOut_IsZerocoinMint o), (_ && _); cbn [orb negb andb]; try (by cbn).
  destruct (IH v' S' Hw) as (S2 & K2 & E2). split; [exact S2|]. split; [by eapply keeps_trans|exact E2].
Qed.


Section values.
Context (params : CChainParams) (Hp : params_ok params).

(** A coinbase or coinstake output has to be old enough. *)
Definition mature (hs : Z) (c : CCoins) : Prop := fCoinBase c || fCoinStake c = true -> nMaturity params <= hs - Coins.nHeight c.

Definition spendable (L : ledger) (hs : Z) (i : CTxIn) : Prop :=
  exists c o, coin_at L (prevout i) = Some (c, o) /\ mature hs c /\ nValue o <= nMaxMoneyOut params.

Lemma as_int_small n : - 2 ^ 31 <= n < 2 ^ 31 -> as_int n = Ret n.
Proof using. intros Hn. unfold as_int. by rewrite (proj2 (Z.leb_le _ _)), (proj2 (Z.ltb_lt _ _)) by lia. Qed.
Lemma as_int64_small n : - 2 ^ 63 <= n < 2 ^ 63 -> as_int64 n = Ret n.
Proof using. intros Hn. unfold as_int64. by rewrite (proj2 (Z.leb_le _ _)), (proj2 (Z.ltb_lt _ _)) by lia. Qed.

Lemma MoneyRange_spec n : 0 <= n -> MoneyRange params n = (n <=? nMaxMoneyOut params).
Proof using. intros Hn. unfold MoneyRange. by rewrite Z.geb_leb, (proj2 (Z.leb_le _ _)) by lia. Qed.

(** The test of maturity computes a difference of [int]s that cannot overflow. *)
Lemma depth_spec {A} hs c (k : Z -> eff (CCoinsViewCache V) failure A) (r : result failure A) v :
  0 <= hs < 2 ^ 31 -> 0 <= Coins.nHeight c < 2 ^ 31 ->
  ebind (if fCoinBase c || fCoinStake c then lift (as_int (hs - Coins.nHeight c)) else eret (nMaturity params))
    (fun depth => if depth <? nMaturity params then lift r else k depth) v =
  (if fCoinBase c || fCoinStake c then if hs - Coins.nHeight c <? nMaturity params then lift r else k (hs - Coins.nHeight c)
   else k (nMaturity params)) v.
Proof using.
  intros Hh Hc. destruct (_ || _).
  - rewrite as_int_small by lia. unfold ebind, lift. by destruct (_ <? _).
  - unfold ebind, eret. by rewrite Z.ltb_irrefl.
Qed.

Lemma check_values_spec X L hs vin state : 0 <= hs < 2 ^ 31 -> forall n v, stands v L -> Forall hash_wf vin ->
  Forall (fun i => is_Some (coin_at L (prevout i))) vin -> 0 <= n <= nMaxMoneyOut params ->
  judges X (check_values params hs vin n state) v (Forall (spendable L hs) vin /\ n + value_in L vin <= nMaxMoneyOut params)
    (fun m => m = n + value_in L vin).
Proof using Hp.
  intros Hh. pose proof (money_range params Hp) as M. unfold Params.COIN in M.
  induction vin as [|i vin IH]; intros n v S Hw Ha Hn; cbn [check_values].
  { apply judges_ret; [apply S| |]; cbn; [split; [constructor|lia]|lia]. }
  apply Forall_cons in Hw as [Hi Hw]. apply Forall_cons in Ha as [[[c o] Ec] Ha].
  pose proof (value_in_nonneg v L vin S Hw) as Nn.
  assert (Ev : value_in L (i :: vin) = nValue o + value_in L vin) by (cbn [value_in foldr]; unfold value_at; by rewrite Ec).
  apply (access_at (prevout i) _ _ L); [exact S|exact Hi|]. intros r v' S' Er Hok. rewrite Ec in Er.
  destruct r as [c0|]; [|done]. destruct (coins_at_range c0 _ c o (Hok _ eq_refl) (eq_sym Er)) as (-> & En & _ & Vo & Hc). rewrite En.
  assert (Sp : spendable L hs i <-> mature hs c0 /\ nValue o <= nMaxMoneyOut params).
  { split; [intros (c' & o' & E & K)|intros K; by exists c0, o]. rewrite Ec in E. by injection E as <- <-. }
  rewrite Ev, Forall_cons, Sp. clear Sp. rewrite MoneyRange_spec by lia.
  assert (K : judges X (do* nValueIn := lift (as_int64 (n + nValue o)) in
      if negb (nValue o <=? nMaxMoneyOut params) || negb (MoneyRange params nValueIn)
      then lift (reject 100 REJECT_INVALID "bad-txns-inputvalues-outofrange" state)
      else check_values params hs vin nValueIn state) v'
    ((nValue o <= nMaxMoneyOut params /\ Forall (spendable L hs) vin) /\ n + (nValue o + value_in L vin) <= nMaxMoneyOut params)
    (fun m => m = n + (nValue o + value_in L vin))).
  { rewrite as_int64_small by lia. eapply (judges_bind _ _ _ True (fun m => m = n + nValue o)); [by apply judges_ret; [apply S'| |]| |done].
    intros m v2 K2 _ ->. pose proof (stands_keeps _ _ _ S' K2) as S2. rewrite MoneyRange_spec by lia.
    destruct (Z.leb_spec (nValue o) (nMaxMoneyOut params)), (Z.leb_spec (n + nValue o) (nMaxMoneyOut params)); cbn [negb orb];
      try (apply judges_lift; [apply S2|apply decides_reject; intros ?; lia]).
    eapply judges_weaken; [apply IH; [exact S2|exact Hw|exact Ha|lia]| | |by intros e]; [|intros m ->; lia].
    rewrite Z.add_assoc. tauto. }
  unfold judges in *. change (throw (Rejected (Invalid REJECT_INVALID "bad-txns-premature-spend-of-coinbase" state)))
    with (@lift (CCoinsViewCache V) failure Z (reject 0 REJECT_INVALID "bad-txns-premature-spend-of-coinbase" state)).
  rewrite depth_spec by lia. unfold mature. destruct (_ || _); [destruct (Z.ltb_spec (hs - Coins.nHeight c0) (nMaturity params))|].
  - apply judges_lift; [apply S'|]. apply decides_reject. intros (((Mt & _) & _) & _). specialize (Mt eq_refl). lia.
  - assert (true = true -> nMaturity params <= hs - Coins.nHeight c0) by done. eapply judges_weaken; [exact K| | |by intros e]; [tauto|done].
  - assert (false = true -> nMaturity params <= hs - Coins.nHeight c0) by done. eapply judges_weaken; [exact K| | |by intros e]; [tauto|done].
Qed.

(** The fee: the outputs are not worth more than the inputs. *)
Lemma check_fee_spec X (tx : CTransaction) n vo state : 0 <= n <= nMaxMoneyOut params -> GetValueOut tx = Ret vo -> 0 <= vo ->
  decides X (check_fee params tx n state) (vo <= n) (fun _ => True).
Proof using Hp.
  intros Hn E Hv. pose proof (money_range params Hp) as M. unfold Params.COIN in M. unfold check_fee. rewrite E. cbn [of_value result_bind].
  destruct (Z.ltb_spec n vo); [apply decides_reject; lia|]. rewrite as_int64_small by lia. cbn [result_bind].
  destruct (Z.ltb_spec (n - vo) 0); [lia|]. rewrite MoneyRange_spec, (proj2 (Z.leb_le _ _)) by lia. by split.
Qed.
End values.

(** The scripts. *)
Section scripts.
Context (Verify : CPubKey -> uint256 -> list byte -> bool) (buf : list byte).

Definition script_at (L : ledger) (o : COutPoint) : CScript := match coin_at L o with Some (_, out) => scriptPubKey out | None => [] end.

(** The checks of the inputs [vin], from number [i] on. *)
Fixpoint input_checks (L : ledger) (tx : CTransaction) (flags : Z) (i : nat) (vin : list CTxIn) : list CScriptCheck :=
  match vin with
  | [] => []
  | x :: vin => mk_CScriptCheck (script_at L (prevout x)) tx i flags :: input_checks L tx flags (S i) vin
  end.

Definition passes (c : CScriptCheck) : Prop := CScriptCheck_run Verify buf c = Ret true.

Lemma CScriptCheck_run_total c : is_Some (tx_vin (sc_tx c) !! sc_nIn c) -> exists b, CScriptCheck_run Verify buf c = Ret b.
Proof using.
  intros [i E]. unfold CScriptCheck_run. rewrite E.
  pose proof (@VerifyScript_reports (TransactionSignatureChecker Verify buf (sc_tx c) (sc_nIn c)) (sc_nFlags c) (scriptSig i) (sc_scriptPubKey c)) as R.
  destruct (VerifyScript _ _ _) as [|[]]; [by exists true|by exists false|done..].
Qed.

Lemma CScriptCheck_of_Some coins (tx : CTransaction) i flags c : CScriptCheck_of coins tx i flags = Some c ->
  is_Some (tx_vin tx !! i) /\ sc_tx c = tx /\ sc_nIn c = i /\ sc_nFlags c = flags /\
  forall flags', CScriptCheck_of coins tx i flags' = Some (mk_CScriptCheck (sc_scriptPubKey c) tx i flags').
Proof using.
  unfold CScriptCheck_of. destruct (tx_vin tx !! i) as [x|] eqn:E; [|done]. cbn [mbind option_bind].
  destruct (c_vout coins !! _) as [o|]; [|done]. cbn [mbind option_bind]. intros [= <-]. by repeat split.
Qed.

Lemma script_check_run_spec X coins tx i flags c state : CScriptCheck_of coins tx i flags = Some c ->
  decides X (run_check Verify buf coins c state) (passes c) (fun _ => True).
Proof using.
  intros E. apply CScriptCheck_of_Some in E as (Hi & Et & En & Ef & Ev). unfold run_check, passes.
  destruct (CScriptCheck_run_total c) as [b Eb]; [by rewrite Et, En|]. rewrite Eb. cbn [result_bind].
  destruct b; [by split|]. destruct (negb _); [|by apply decides_reject]. rewrite Et, En, Ev.
  destruct (CScriptCheck_run_total (mk_CScriptCheck (sc_scriptPubKey c) tx i (Z.ldiff (sc_nFlags c) STANDARD_NOT_MANDATORY_VERIFY_FLAGS))) as [b' Eb']; [exact Hi|].
  rewrite Eb'. cbn [result_bind]. destruct b'; [|by apply decides_reject]. split; [done|]. left. by eexists.
Qed.

Lemma check_scripts_spec X L (tx : CTransaction) flags pv state vin : forall i v, stands v L -> Forall hash_wf vin ->
  Forall (fun i => is_Some (coin_at L (prevout i))) vin -> (forall k, vin !! k = tx_vin tx !! (i + k)%nat) ->
  judges X (check_scripts Verify buf tx flags pv i vin state) v (pv = false -> Forall passes (input_checks L tx flags i vin))
    (fun checks => checks = if pv then input_checks L tx flags i vin else []).
Proof using.
  induction vin as [|x vin IH]; intros i v St Hw Ha Hv; cbn [check_scripts input_checks].
  { apply judges_ret; [apply St|by constructor|by destruct pv]. }
  apply Forall_cons in Hw as [Hx Hw]. apply Forall_cons in Ha as [[[c o] Ec] Ha].
  assert (Ex : tx_vin tx !! i = Some x) by (rewrite <- (Nat.add_0_r i), <- Hv; done).
  apply (access_at (prevout x) _ _ L); [exact St|exact Hx|]. intros r v1 S1 Er Hok. unfold script_at. rewrite Ec in *.
  destruct r as [c0|]; [|done]. destruct (coins_at_range c0 _ c o (Hok _ eq_refl) (eq_sym Er)) as (-> & En & _).
  assert (E : CScriptCheck_of c0 tx i flags = Some (mk_CScriptCheck (scriptPubKey o) tx i flags)).
  { unfold CScriptCheck_of. rewrite Ex. cbn [mbind option_bind]. by rewrite En. }
  rewrite E. set (c := mk_CScriptCheck _ _ _ _) in *.
  eapply (judges_bind _ _ _ (pv = false -> passes c) (fun _ => True)).
  { destruct pv; [by apply judges_ret; [apply S1| |]|]. apply judges_lift; [apply S1|].
    eapply decides_weaken; [by eapply script_check_run_spec|tauto|done|by intros e]. }
  2: { intros P Epv. specialize (P Epv). by apply Forall_cons in P as [P _]. }
  intros _ v2 K2 Hc _. pose proof (stands_keeps _ _ _ S1 K2) as S2.
  assert (Hv' : forall k, vin !! k = tx_vin tx !! (S i + k)%nat).
  { intros k. change (vin !! k) with ((x :: vin) !! S k). rewrite Hv. f_equal. lia. }
  eapply judges_bind; [exact (IH (S i) v2 S2 Hw Ha Hv')| |].
  2: { intros P Epv. specialize (P Epv). by apply Forall_cons in P as [_ P]. }
  intros checks v3 K3 P ->. apply judges_ret; [apply K3| |by destruct pv].
  intros Epv. apply Forall_cons. auto.
Qed.
End scripts.

(** The sums over the inputs that [ConnectBlock] takes: the value, and the signature
    operations of the serialized scripts. *)
Lemma GetOutputFor_spec v L i : stands v L -> hash_wf i ->
  exists v', keeps v v' /\ GetOutputFor i v = (v', match coin_at L (prevout i) with
    | Some (_, o) => if CTxOut_IsZerocoinMint o then None else Some o | None => None end).
Proof using.
  intros St Hi. destruct (AccessCoins_spec v _ (proj1 St) Hi) as (v' & r & E & K & Er & Hok). exists v'. split; [exact K|].
  unfold GetOutputFor. rewrite E. f_equal. rewrite (coin_at_read L r (prevout i)); [|by rewrite Er; apply St|exact Hok].
  destruct r as [c|]; [|done]. cbn [mbind option_bind]. rewrite IsAvailable_at. unfold coins_at. cbn [mbind option_bind].
  destruct (c_vout c !! _) as [o|] eqn:Eo; [|done]. cbn [mbind option_bind]. destruct (CTxOut_IsNull o); [done|].
  destruct (CTxOut_IsZerocoinMint o); cbn [negb]; done.
Qed.

(** A read that finds its output. *)
Lemma GetOutputFor_available v L i h stake : stands v L -> hash_wf i -> available L h stake i = true ->
  exists v' o, keeps v v' /\ GetOutputFor i v = (v', Some o) /\ value_at L (prevout i) = nValue o /\ script_at L (prevout i) = scriptPubKey o.
Proof using.
  intros St Hi Ha. destruct (GetOutputFor_spec v L i St Hi) as (v' & K & E). unfold available in Ha. unfold value_at, script_at.
  destruct (coin_at L (prevout i)) as [[c o]|]; [|done]. destruct (CTxOut_IsZerocoinMint o); [done|]. by exists v', o.
Qed.

(** Amounts that are not negative: their sums grow. *)
Lemma GetValueIn_loop_spec L h stake vin : forall n v, stands v L -> Forall hash_wf vin -> 0 <= n < 2 ^ 63 ->
  Forall (fun i => available L h stake i = true) vin ->
  keeps v (GetValueIn_loop vin n v).1 /\
  (GetValueIn_loop vin n v).2 = if n + value_in L vin <? 2 ^ 63 then Ret (n + value_in L vin) else Err SumOverflow.
Proof using.
  induction vin as [|i vin IH]; intros n v St Hw Hn Ha; cbn [GetValueIn_loop].
  { split; [apply keeps_refl, St|]. cbn. by rewrite Z.add_0_r, (proj2 (Z.ltb_lt _ _)) by lia. }
  apply Forall_cons in Hw as [Hi Hw]. apply Forall_cons in Ha as [Ai Ha].
  destruct (GetOutputFor_available v L i h stake St Hi Ai) as (v1 & o & K & -> & Ev & _).
  pose proof (value_at_range v L _ St Hi) as R. pose proof (value_in_nonneg v L vin St Hw) as Nn.
  change (value_in L (i :: vin)) with (value_at L (prevout i) + value_in L vin). rewrite <- Ev, Z.add_assoc.
  unfold add_amount. cbn [mbind option_bind]. rewrite (proj2 (Z.leb_le (- 2 ^ 63) _)) by lia. cbn [andb].
  destruct (Z.ltb_spec (n + value_at L (prevout i)) (2 ^ 63)).
  - destruct (IH (n + value_at L (prevout i)) v1) as [K2 E2]; [by eapply stands_keeps|done|lia|done|]. split; [by eapply keeps_trans|exact E2].
  - cbn [fst snd]. split; [exact K|]. by rewrite (proj2 (Z.ltb_ge _ _)) by lia.
Qed.

Definition p2sh_sigops (L : ledger) (i : CTxIn) : Z :=
  if IsPayToScriptHash (script_at L (prevout i)) then GetSigOpCount_P2SH (script_at L (prevout i)) (scriptSig i) else 0.

Lemma GetP2SHSigOpCount_loop_spec X L h stake vin : forall n v, stands v L -> Forall hash_wf vin -> in_u32 n ->
  Forall (fun i => available L h stake i = true) vin ->
  judges X (GetP2SHSigOpCount_loop vin n) v True (fun m => m = u32 (n + foldr (fun i n => p2sh_sigops L i + n) 0 vin)).
Proof using.
  induction vin as [|i vin IH]; intros n v St Hw Hn Ha; cbn [GetP2SHSigOpCount_loop].
  { apply judges_ret; [apply St|done|]. cbn. by rewrite Z.add_0_r, u32_small. }
  apply Forall_cons in Hw as [Hi Hw]. apply Forall_cons in Ha as [Ai Ha].
  destruct (GetOutputFor_available v L i h stake St Hi Ai) as (v1 & o & K & E & _ & Es).
  unfold ebind, reads, judges. rewrite E. cbn [fst snd].
  assert (In : in_u32 (if IsPayToScriptHash (scriptPubKey o) then u32 (n + GetSigOpCount_P2SH (scriptPubKey o) (scriptSig i)) else n)).
  { destruct (IsPayToScriptHash _); [apply u32_range|exact Hn]. }
  destruct (IH _ v1 (stands_keeps _ _ _ St K) Hw In Ha) as [K2 D]. split; [by eapply keeps_trans|].
  eapply decides_weaken; [exact D|done| |by intros e]. intros m ->. cbn [foldr]. unfold p2sh_sigops at 2. rewrite Es.
  destruct (IsPayToScriptHash _); [|done]. rewrite u32_add_l. f_equal. lia.
Qed.

(** A transaction that may spend its inputs at height [hs]. *)
Definition inputs_ok (params : CChainParams) (L : ledger) (hs Hcheck : Z) (tx : CTransaction) : Prop :=
  Forall (fun i => available L Hcheck (IsCoinStake tx) i = true /\ spendable params L hs i) (tx_vin tx) /\
  value_in L (tx_vin tx) <= nMaxMoneyOut params /\
  (IsCoinStake tx = false -> sum_values (tx_vout tx) <= value_in L (tx_vin tx)).

Section transaction.
Context (params : CChainParams) (Hp : params_ok params).
Context (Verify : CPubKey -> uint256 -> list byte -> bool) (buf : list byte).
Context (H : heap) (mapBlockIndex : gmap uint256 ptr).

Lemma GetValueOut_Ret (tx : CMutableTransaction) vo : GetValueOut tx = Ret vo -> vo = sum_values (tx_vout tx) /\ 0 <= vo.
Proof using.
  unfold GetValueOut. intros E. apply GetValueOut_loop_spec in E as (F & -> & _); [|lia].
  pose proof (sum_values_nonneg _ F). split; lia.
Qed.

Lemma available_is_Some L h stake i : available L h stake i = true -> is_Some (coin_at L (prevout i)).
Proof using. unfold available. destruct (coin_at L (prevout i)) as [[c o]|]; [by eexists|done]. Qed.

Lemma CheckInputs_judged (v : CCoinsViewCache V) L (tx : CTransaction) state fScriptChecks flags pvChecks Hcheck p prev vo :
  stands v L -> Forall hash_wf (tx_vin tx) -> GetValueOut tx = Ret vo -> has_inputs tx = true ->
  mapBlockIndex !! cache_best v = Some p -> H !! p = Some prev -> 0 <= nHeight prev < 2 ^ 31 - 1 ->
  judges no_accident (CheckInputs params Verify buf H mapBlockIndex tx state fScriptChecks flags pvChecks Hcheck) v
    (inputs_ok params L (nHeight prev + 1) Hcheck tx /\
     (fScriptChecks = true -> pvChecks = false -> Forall (passes Verify buf) (input_checks L tx flags 0 (tx_vin tx))))
    (fun checks => checks = if fScriptChecks && pvChecks then input_checks L tx flags 0 (tx_vin tx) else []).
Proof using Hp.
  intros St Hw Eo Hi Ep Eprev Hh. unfold CheckInputs. rewrite Hi. cbn [negb].
  pose proof (HaveInputs_loop_spec tx Hcheck L (tx_vin tx) v St Hw) as (S1 & K1 & E1).
  unfold inputs_ok. set (ok := forallb (available L Hcheck (IsCoinStake tx)) (tx_vin tx)) in *.
  eapply (judges_bind _ _ _ True (fun have => have = ok)); [|intros have v1 Kv _ ->|done].
  { unfold judges, reads, HaveInputs. unfold has_inputs in Hi. rewrite Hi. destruct (HaveInputs_loop _ _ _ _). by split. }
  assert (Eok : ok = true <-> Forall (fun i => available L Hcheck (IsCoinStake tx) i = true) (tx_vin tx)).
  { unfold ok. rewrite forallb_forall, Forall_forall. split; intros F i Hin; apply F; by apply list_elem_of_In. }
  destruct ok; cbn [negb].
  2: { apply judges_reject; [apply Kv|]. intros ((F & _) & _). assert (false = true); [|done]. apply Eok. eapply Forall_impl; [exact F|by intros i []]. }
  pose proof (proj1 Eok eq_refl) as Ha.
  assert (Has : Forall (fun i => is_Some (coin_at L (prevout i))) (tx_vin tx)) by (eapply Forall_impl; [exact Ha|intros i; apply available_is_Some]).
  eapply (judges_bind _ _ _ True (fun best => best = cache_best v)); [|intros best v2 K2 _ ->|done].
  { unfold judges, reads. destruct (GetBestBlock_keeps v1 (proj1 Kv)) as [B E]. destruct Kv as (_ & _ & _ & Eb & _).
    rewrite <- Eb, <- E. destruct (cache_GetBestBlock v1). by split. }
  eapply (judges_bind _ _ _ True (fun hs => hs = nHeight prev + 1)); [|intros hs v3 K3 _ ->|done].
  { apply judges_lift; [apply K2|]. unfold spend_height, deref, int_succ. rewrite Ep. cbn [mbind option_bind]. rewrite Eprev. cbn [of_ptr result_bind].
    rewrite Z.geb_leb, (proj2 (Z.leb_gt _ _)) by lia. by split. }
  assert (K : keeps v v3) by (eapply keeps_trans; [exact Kv|]; by eapply keeps_trans). pose proof (stands_keeps _ _ _ St K) as S3.
  pose proof (money_range params Hp) as M.
  eapply judges_bind; [apply (check_values_spec params Hp no_accident L); [lia|exact S3|exact Hw|exact Has|lia]| |].
  2: { rewrite Z.add_0_l. intros ((F & B & _) & _). split; [|exact B]. eapply Forall_impl; [exact F|by intros i []]. }
  intros n v4 K4 [Sp B] ->. rewrite Z.add_0_l in *. pose proof (stands_keeps _ _ _ S3 K4) as S4.
  destruct (GetValueOut_Ret tx vo Eo) as [Evo Nvo]. pose proof (value_in_nonneg _ _ _ St Hw) as Nn.
  eapply (judges_bind _ _ _ (IsCoinStake tx = false -> vo <= value_in L (tx_vin tx)) (fun _ => True)); [| |rewrite Evo; by intros ((_ & _ & F) & _)].
  { destruct (IsCoinStake tx); cbn [negb]; [by apply judges_ret; [apply S4| |]|]. apply judges_lift; [apply S4|].
    eapply decides_weaken; [apply (check_fee_spec params Hp _ tx _ vo); [lia|exact Eo|exact Nvo]|tauto|done|by intros e]. }
  intros _ v5 K5 Fee _. pose proof (stands_keeps _ _ _ S4 K5) as S5. rewrite Evo in Fee.
  assert (F : Forall (fun i => available L Hcheck (IsCoinStake tx) i = true /\ spendable params L (nHeight prev + 1) i) (tx_vin tx))
    by (apply Forall_and; by split).
  destruct fScriptChecks; cbn [andb]; [|by apply judges_ret; [apply S5| |]].
  eapply judges_weaken; [by apply (check_scripts_spec Verify buf no_accident L)| |done|done]. tauto.
Qed.
End transaction.

(** C21: [CheckInputs] accepts a transaction that spends outputs exactly when every input
    names an output that is there, is not a zerocoin mint, and is old enough where it comes
    from a coinbase or a coinstake; when the inputs are within the money supply and, but for
    a coinstake, worth at least the outputs; and, when the scripts are checked and not
    queued, every script accepts.  It queues exactly the checks of the inputs otherwise,
    refuses with a report, never by accident, and leaves the view as it stands. *)
Theorem CheckInputs_accepts (params : CChainParams) (Hp : params_ok params)
    (Verify : CPubKey -> uint256 -> list byte -> bool) (buf : list byte) (H : heap) (mapBlockIndex : gmap uint256 ptr)
    (v : CCoinsViewCache V) (tx : CTransaction) (state : CValidationState) (fScriptChecks pvChecks : bool) (flags Hcheck : Z) p prev vo
    (Hv : cache_ok v) (Hw : Forall hash_wf (tx_vin tx)) (Hout : GetValueOut tx = Ret vo) (Hi : has_inputs tx = true)
    (Hbest : mapBlockIndex !! cache_best v = Some p) (Hprev : H !! p = Some prev) (Hh : 0 <= nHeight prev < 2 ^ 31 - 1) :
  let r := CheckInputs params Verify buf H mapBlockIndex tx state fScriptChecks flags pvChecks Hcheck v in
  let L := cache_view v in
  let checks := input_checks L tx flags 0 (tx_vin tx) in
  (r.1 = Ret (if fScriptChecks && pvChecks then checks else []) <->
   inputs_ok params L (nHeight prev + 1) Hcheck tx /\ (fScriptChecks = true -> pvChecks = false -> Forall (passes Verify buf) checks)) /\
  (forall q, r.1 = Ret q -> q = if fScriptChecks && pvChecks then checks else []) /\
  (forall e, r.1 = Err e -> reported e) /\
  cache_ok r.2 /\ (forall t, cache_view r.2 t = L t) /\ cache_best r.2 = cache_best v.
Proof using VOk.
  intros r L checks.
  destruct (CheckInputs_judged params Hp Verify buf H mapBlockIndex v L tx state fScriptChecks flags pvChecks Hcheck p prev vo) as [K D]; try done.
  fold r L checks in K, D. destruct K as [Kc (Kv & _ & Kb & _)].
  split; [|split; [|split; [|by split]]].
  - destruct r.1 as [q|e]; cbn [decides] in D; [destruct D as [P ->]; by split|]. destruct D as [N _]. by split.
  - intros q E. rewrite E in D. by destruct D as [_ ->].
  - intros e E. rewrite E in D. by destruct D as [_ [?|[]]].
Qed.
End accept.

(** A cache of one output of 5, and a transaction that spends it. *)
Definition sample_view : CCoinsViewCache NoCoins :=
  mk_cache no_coins false (base_uint_u64 8 10) {[ base_uint_u64 8 1 := mk_entry (mk_CCoins false false [CTxOut_make 5 [Byte.x51]] 5 1) (Z.lor DIRTY FRESH) ]}.
Definition sample_entry (height : Z) : CBlockIndex :=
  mk_CBlockIndex (base_uint_u64 8 10) None None None height 0 0 0 (base_uint_zero 8) 0 0 0 0 0 (base_uint_zero 8) 0 0
    (mk_header 4 (base_uint_zero 8) 0 0 0 (base_uint_zero 8)) 0.

Lemma sample_hashes_wf : Forall (wf 8) (map (base_uint_u64 8) [1; 10; 11]).
Proof. by repeat constructor. Qed.

Lemma sample_view_ok : cache_ok sample_view.
Proof.
  pose proof sample_hashes_wf as W. repeat apply Forall_cons in W as [? W].
  split; [done|]. split; [done|]. split; [done|].
  apply map_Forall_singleton. split; [done|]. split; [by apply one_output_ok|by split].
Qed.

Lemma CheckInputs_accepts_witness :
  let index := {[ base_uint_u64 8 10 := 1%positive ]} in
  let r := CheckInputs CMainParams (fun _ _ _ => false) sample_buf {[ 1%positive := sample_entry 6 ]} index
    sample_spend CValidationState_new true SCRIPT_VERIFY_P2SH false 0 sample_view in
  r.1 = Ret [] /\
  inputs_ok CMainParams (cache_view sample_view) 7 0 sample_spend /\ (forall t, cache_view r.2 t = cache_view sample_view t).
Proof.
  intros index r. assert (Hp : params_ok CMainParams) by (pose proof networks_ok as N; by apply Forall_cons in N as [N _]).
  assert (E : r.1 = Ret []) by (vm_compute; reflexivity).
  assert (Hw : Forall hash_wf (tx_vin sample_spend)).
  { constructor; [|constructor]. pose proof sample_hashes_wf as W. by apply Forall_cons in W as [W _]. }
  assert (Eo : GetValueOut sample_spend = Ret 4) by reflexivity.
  assert (Hi : has_inputs sample_spend = true) by (vm_compute; reflexivity).
  assert (Eb : index !! cache_best sample_view = Some 1%positive) by (vm_compute; reflexivity).
  assert (Ee : ({[ 1%positive := sample_entry 6 ]} : heap) !! 1%positive = Some (sample_entry 6)) by (vm_compute; reflexivity).
  destruct (CheckInputs_accepts CMainParams Hp (fun _ _ _ => false) sample_buf {[ 1%positive := sample_entry 6 ]} index
    sample_view sample_spend CValidationState_new true false SCRIPT_VERIFY_P2SH 0 1%positive (sample_entry 6) 4
    sample_view_ok Hw Eo Hi Eb Ee ltac:(split; [discriminate|reflexivity])) as (A & _ & _ & _ & B & _).
  split; [exact E|]. split; [exact (proj1 (proj1 A E))|exact B].
Defined.
