(* ===== verification/Ledger.v ===== *)
(** * The set of unspent outputs as a ledger

    The specification of [UpdateCoins]: what a transaction makes of the set it is applied
    to, as a function on ledgers, and the money that is in a ledger.  The caches implement
    it, and a transaction adds no more than its outputs are worth beyond its inputs. *)

From Stdlib Require Import ZArith Lia List Bool.
From stdpp Require Import base option list gmap.
From coqutil Require Import Byte Word.LittleEndianList.
From S2P Require Import Prelude Uint256 Serialize MerkleDamgard Hash Script PubKey Tx Compressor Coins CoinsView CoinsDB Connect CheckInputs.

Open Scope Z_scope.
Open Scope btc_scope.

(** ** The transition *)

(** One input: the out point has to name an output that is not spent. *)
Definition spend_out (o : COutPoint) (L : ledger) : option ledger :=
  c ← L (prev_hash o);
  '(c', _) ← Spend c (Z.to_nat (prev_n o));
  Some (fun t => if decide (t = prev_hash o) then unspent c' else L t).

Fixpoint spend_outs (vin : list CTxIn) (L : ledger) : option ledger :=
  match vin with [] => Some L | i :: vin => L ← spend_out (prevout i) L; spend_outs vin L end.

(** The transaction: its inputs disappear, its outputs take the place of what its hash named. *)
Definition apply_tx (h : Z) (tx : CTransaction) (L : ledger) : option ledger :=
  L ← (if has_inputs tx then spend_outs (tx_vin tx) L else Some L);
  Some (fun t => if decide (t = tx_hash tx) then unspent (FromTx tx h) else L t).

Fixpoint apply_block (h : Z) (vtx : list CTransaction) (L : ledger) : option ledger :=
  match vtx with [] => Some L | tx :: vtx => L ← apply_tx h tx L; apply_block h vtx L end.

(** A property of every transaction at the ledger it is applied to. *)
Fixpoint along (P : ledger -> CTransaction -> Prop) (h : Z) (vtx : list CTransaction) (L : ledger) : Prop :=
  match vtx with
  | [] => True
  | tx :: vtx => P L tx /\ match apply_tx h tx L with Some L => along P h vtx L | None => False end
  end.

(** ** The money *)

Definition out_value (o : CTxOut) : Z := if CTxOut_IsNull o then 0 else nValue o.
Definition outs_value (vout : list CTxOut) : Z := foldr (fun o n => out_value o + n) 0 vout.
Definition coins_value (c : option CCoins) : Z := match c with Some c => outs_value (c_vout c) | None => 0 end.

(** What the outputs of the transactions [ts] are worth. *)
Definition total (ts : list uint256) (L : ledger) : Z := foldr (fun t n => coins_value (L t) + n) 0 ts.

Lemma total_update ts L t c : NoDup ts -> t ∈ ts ->
  total ts (fun x => if decide (x = t) then c else L x) = total ts L - coins_value (L t) + coins_value c.
Proof.
  induction 1 as [|x ts Nx Hn IH]; [by intros ?%not_elem_of_nil|]. intros Ht. unfold total in *. cbn [foldr].
  destruct (decide (x = t)) as [->|Ne].
  - assert (E : forall l, t ∉ l -> foldr (fun x n => coins_value (if decide (x = t) then c else L x) + n) 0 l =
      foldr (fun x n => coins_value (L x) + n) 0 l); [|rewrite E by done; lia].
    induction l as [|y l IHl]; intros Nl; [done|]. cbn [foldr]. apply not_elem_of_cons in Nl as [Ny Nl]. rewrite decide_False by done. by rewrite IHl.
  - apply elem_of_cons in Ht as [->|Ht]; [done|]. rewrite IH by done. lia.
Qed.

Lemma total_outside ts L t c : t ∉ ts -> total ts (fun x => if decide (x = t) then c else L x) = total ts L.
Proof.
  unfold total. induction ts as [|x ts IH]; [done|]. intros N. cbn [foldr]. apply not_elem_of_cons in N as [Ne N].
  rewrite decide_False by done. by rewrite IH.
Qed.

Lemma total_ext ts L L' : (forall t, L t = L' t) -> total ts L = total ts L'.
Proof. intros E. unfold total. induction ts as [|t ts IH]; [done|]. cbn [foldr]. by rewrite E, IH. Qed.

Lemma outs_value_app a b : outs_value (a ++ b) = outs_value a + outs_value b.
Proof. unfold outs_value. induction a as [|o a IH]; [done|]. cbn [app foldr]. rewrite IH. lia. Qed.

Lemma outs_value_null k : outs_value (repeat CTxOut_SetNull k) = 0.
Proof. induction k as [|k IH]; [done|]. cbn [repeat]. exact IH. Qed.

Lemma outs_value_insert vout n o x : vout !! n = Some o -> outs_value (<[n := x]> vout) = outs_value vout - out_value o + out_value x.
Proof.
  revert n. induction vout as [|y vout IH]; intros n E; [done|]. destruct n as [|n].
  - injection E as ->. change (out_value x + outs_value vout = out_value o + outs_value vout - out_value o + out_value x). lia.
  - change (out_value y + outs_value (<[n := x]> vout) = out_value y + outs_value vout - out_value o + out_value x). rewrite (IH n E). lia.
Qed.

(** Dropping the spent end of the vector loses nothing. *)
Lemma outs_value_Cleanup vout : Forall canonical_out vout -> outs_value (Cleanup_vout vout) = outs_value vout.
Proof.
  intros H. destruct (Cleanup_decomp vout H) as [k E]. rewrite E at 2. by rewrite outs_value_app, outs_value_null, Z.add_0_r.
Qed.

Lemma outs_value_nonneg c : coins_ok c -> 0 <= outs_value (c_vout c).
Proof.
  intros [->|(_ & F & _)]; [done|]. induction F as [|o vout Ho F IH]; [done|]. change (0 <= out_value o + outs_value vout).
  unfold out_value, storable_out in *. destruct (CTxOut_IsNull o); [done|]. destruct Ho as [[? _] _]. lia.
Qed.

Lemma unspent_value c : coins_ok c -> coins_value (unspent c) = outs_value (c_vout c).
Proof.
  intros Hc. unfold unspent. destruct (IsPruned c) eqn:P; [|done]. apply coins_ok_pruned in P; [|done]. by rewrite P.
Qed.

(** New coins are worth at most the outputs: the unspendable ones are dropped. *)
Lemma FromTx_value (tx : CMutableTransaction) h : Forall (fun o => 0 <= nValue o) (tx_vout tx) -> outs_value (c_vout (FromTx tx h)) <= sum_values (tx_vout tx).
Proof.
  intros F. unfold FromTx, ClearUnspendable, Cleanup, with_vout. cbn [c_vout].
  set (f := fun o => if IsUnspendable (scriptPubKey o) then CTxOut_SetNull else o).
  assert (D : forall r, Forall (fun o => 0 <= out_value o) r -> outs_value (rev (pop_nulls (rev r))) <= outs_value r).
  { intros r Hr. rewrite <- (rev_involutive r) at 2. apply Forall_rev in Hr. induction Hr as [|o l Ho Hl IH]; [done|]. cbn [pop_nulls].
    destruct (CTxOut_IsNull o); [|done]. cbn [rev]. rewrite outs_value_app. change (outs_value [o]) with (out_value o + 0). lia. }
  assert (V : Forall (fun o => 0 <= out_value o) (map f (tx_vout tx))).
  { apply Forall_map. eapply Forall_impl; [exact F|]. intros o Ho. cbn. unfold f. destruct (IsUnspendable _); [done|].
    unfold out_value. destruct (CTxOut_IsNull o); [done|exact Ho]. }
  specialize (D _ V). unfold Cleanup_vout. etransitivity; [exact D|]. clear D V.
  induction F as [|o l Ho F IH]; [done|]. cbn [map]. change (out_value (f o) + outs_value (map f l) <= nValue o + sum_values l).
  assert (out_value (f o) <= nValue o); [|lia]. unfold f. destruct (IsUnspendable _); [done|]. unfold out_value. destruct (CTxOut_IsNull o); [done|lia].
Qed.

(** Spending takes the value of the output, and what is left was there before. *)
Lemma Spend_value c n c' u : coins_ok c -> Spend c n = Some (c', u) ->
  exists o, coins_at (Some c) n = Some (c, o) /\ coins_ok c' /\ outs_value (c_vout c') = outs_value (c_vout c) - nValue o /\
    forall m x, coins_at (Some c') m = Some (c', x) -> coins_at (Some c) m = Some (c, x).
Proof.
  intros Hc S. destruct (Spend_ok c n c' u Hc S) as (Hs & Hc' & _ & _). apply Spend_inv in S as (o & Hn & Ho & -> & _).
  exists o. unfold coins_at. cbn [mbind option_bind]. rewrite Hn. cbn [mbind option_bind]. rewrite Ho. split; [done|]. split; [exact Hc'|].
  assert (Hcan : Forall canonical_out (<[n := CTxOut_SetNull]> (c_vout c))) by (apply Forall_insert; [by apply storable_canonical|done]).
  unfold Cleanup, with_vout. cbn [c_vout]. split.
  - rewrite outs_value_Cleanup by done. rewrite (outs_value_insert _ _ o) by done. unfold out_value. rewrite Ho. cbn. lia.
  - intros m x E. destruct (Cleanup_vout _ !! m) as [y|] eqn:Ey; [|done]. cbn [mbind option_bind] in E.
    destruct (CTxOut_IsNull y) eqn:Ny; [done|]. injection E as ->. destruct (Cleanup_decomp _ Hcan) as [k Ek].
    assert (El : <[n := CTxOut_SetNull]> (c_vout c) !! m = Some x) by (rewrite Ek; by apply lookup_app_l_Some).
    destruct (decide (m = n)) as [->|Ne].
    + rewrite list_lookup_insert_eq in El by (by eapply lookup_lt_Some). by injection El as <-.
    + rewrite list_lookup_insert_ne in El by done. rewrite El. cbn [mbind option_bind]. by rewrite Ny.
Qed.

Section refinement.
Context {V : Type} {CV : CCoinsView V} {VOk : CCoinsViewOk V}.

(** One input spent in a cache, on the ledger. *)
Lemma spend_refines (v : CCoinsViewCache V) L (o : COutPoint) v' u : stands v L -> wf 8 (prev_hash o) ->
  Modify (prev_hash o) (spend_coins (Z.to_nat (prev_n o))) v = Some (v', Some u) ->
  exists L', spend_out o L = Some L' /\ stands v' L' /\ cache_best v' = cache_best v /\ is_Some (coin_at L o) /\
    (forall ts, NoDup ts -> prev_hash o ∈ ts -> total ts L' = total ts L - value_at L o) /\
    forall x, is_Some (coin_at L' x) -> is_Some (coin_at L x) /\ value_at L' x = value_at L x.
Proof using VOk.
  intros [Hc Hv] Ho E. pose proof (Modify_spend v (prev_hash o) (Z.to_nat (prev_n o)) Hc Ho) as M. rewrite E in M.
  destruct M as (c & c' & Ec & Hok & S & Hc' & Hv' & Hb). rewrite Hv in Ec.
  destruct (Spend_value c _ c' u Hok S) as (out & Eo & Hok' & Ev & Keep).
  assert (Co : coin_at L o = Some (c, out)) by (unfold coin_at; rewrite Ec; exact Eo).
  unfold spend_out. rewrite Ec. cbn [mbind option_bind]. rewrite S. cbn [mbind option_bind]. eexists. split; [reflexivity|].
  split; [split; [exact Hc'|]|split; [exact Hb|split; [by rewrite Co|split]]].
  - intros x. rewrite Hv'. by case_decide.
  - intros ts Hn Hin. rewrite total_update by done. rewrite Ec, unspent_value by done. unfold value_at. rewrite Co. cbn [coins_value]. lia.
  - intros x [[cx ox] Hx]. unfold value_at. rewrite Hx. unfold coin_at in Hx |- *. destruct (decide (prev_hash x = prev_hash o)) as [Ex|Nx].
    + rewrite Ex, Ec. unfold unspent in Hx. destruct (IsPruned c'); [done|].
      assert (Ecx : cx = c').
      { cbn [mbind option_bind] in Hx. destruct (c_vout c' !! _) as [y|]; [|done]. cbn [mbind option_bind] in Hx. destruct (CTxOut_IsNull y); [done|]. by injection Hx as <- _. }
      subst cx. pose proof (Keep _ _ Hx) as K. unfold coins_at in K. rewrite K. split; [by eexists|done].
    + rewrite Hx. split; [by eexists|done].
Qed.

Lemma spend_inputs_refines vin : forall (v : CCoinsViewCache V) L v' us, stands v L -> Forall hash_wf vin ->
  spend_inputs vin v = Some (v', us) ->
  exists L', spend_outs vin L = Some L' /\ stands v' L' /\ cache_best v' = cache_best v /\ Forall (fun i => is_Some (coin_at L (prevout i))) vin /\
    (forall ts, NoDup ts -> Forall (fun i => prev_hash (prevout i) ∈ ts) vin -> total ts L' = total ts L - value_in L vin).
Proof using VOk.
  induction vin as [|i vin IH]; intros v L v' us St Hw E; cbn [spend_inputs spend_outs] in *.
  { injection E as <- <-. exists L. do 3 (split; [done|]). split; [constructor|]. intros ts _ _. cbn. lia. }
  apply Forall_cons in Hw as [Hi Hw]. destruct (Modify _ _ v) as [[v1 [u|]]|] eqn:E1; [|done|done]. cbn [mbind option_bind] in E.
  destruct (spend_inputs vin v1) as [[v2 us']|] eqn:E2; [|done]. cbn [mbind option_bind] in E. injection E as <- <-.
  destruct (spend_refines v L (prevout i) v1 u St Hi E1) as (L1 & S1 & St1 & B1 & Ex1 & T1 & Keep).
  destruct (IH v1 L1 v2 us' St1 Hw E2) as (L2 & S2 & St2 & B2 & Ex2 & T2). rewrite S1. cbn [mbind option_bind]. exists L2.
  split; [exact S2|]. split; [exact St2|]. split; [congruence|].
  assert (G : Forall (fun i => is_Some (coin_at L (prevout i)) /\ value_at L1 (prevout i) = value_at L (prevout i)) vin)
    by (eapply Forall_impl; [exact Ex2|]; intros x; apply Keep).
  split; [constructor; [exact Ex1|]; eapply Forall_impl; [exact G|by intros x []]|].
  intros ts Hn Hts. apply Forall_cons in Hts as [Ht Hts]. rewrite (T2 ts Hn Hts), (T1 ts Hn Ht).
  assert (Ev : value_in L1 vin = value_in L vin).
  { clear -G. induction G as [|x l [_ Hx] G IH]; [done|]. cbn [value_in foldr]. unfold value_in in IH. by rewrite Hx, IH. }
  change (value_in L (i :: vin)) with (value_at L (prevout i) + value_in L vin). lia.
Qed.

(** [UpdateCoins] implements the transition, and adds to the money no more than the outputs
    are worth beyond the inputs. *)
Lemma UpdateCoins_refines (v : CCoinsViewCache V) L (tx : CTransaction) h v' u : stands v L -> connectable h tx ->
  Forall (fun o => 0 <= nValue o) (tx_vout tx) -> UpdateCoins tx h v = Some (v', u) ->
  exists L', apply_tx h tx L = Some L' /\ stands v' L' /\ cache_best v' = cache_best v /\
    forall ts, NoDup ts -> Forall (fun i => prev_hash (prevout i) ∈ ts) (tx_vin tx) ->
      total ts L' <= total ts L + sum_values (tx_vout tx) - (if has_inputs tx then value_in L (tx_vin tx) else 0).
Proof using VOk.
  intros St (Wt & Wi & Ho) Hout E. unfold UpdateCoins in E.
  destruct (if has_inputs tx then spend_inputs (tx_vin tx) v else Some (v, [])) as [[v1 us]|] eqn:E1; [|done]. cbn [mbind option_bind] in E.
  destruct (Modify (tx_hash tx) _ v1) as [[v2 []]|] eqn:E2; [|done]. cbn [mbind option_bind] in E. injection E as <- _.
  assert (S : exists L1, (if has_inputs tx then spend_outs (tx_vin tx) L else Some L) = Some L1 /\ stands v1 L1 /\ cache_best v1 = cache_best v /\
    forall ts, NoDup ts -> Forall (fun i => prev_hash (prevout i) ∈ ts) (tx_vin tx) ->
      total ts L1 = total ts L - (if has_inputs tx then value_in L (tx_vin tx) else 0)).
  { destruct (has_inputs tx).
    - destruct (spend_inputs_refines (tx_vin tx) v L v1 us St Wi E1) as (L1 & A & B & C & _ & D). by exists L1.
    - injection E1 as <- <-. exists L. do 3 (split; [done|]). intros. lia. }
  destruct S as (L1 & S1 & St1 & B1 & T1). unfold apply_tx. rewrite S1. cbn [mbind option_bind].
  destruct (Modify_law v1 (tx_hash tx) (fun _ => (FromTx tx h, tt)) (proj1 St1) Wt) as (c & Ec & Hc & M). cbn [fst snd] in M.
  rewrite (Cleanup_ok _ Ho) in M. destruct (M Ho) as (v3 & E3 & Hc3 & Hv3 & Hb3). rewrite E3 in E2. injection E2 as <-.
  eexists. split; [reflexivity|]. split; [split; [exact Hc3|]|split; [congruence|]].
  - intros t. rewrite Hv3. case_decide; [done|]. apply St1.
  - intros ts Hn Hts. specialize (T1 ts Hn Hts). destruct (decide (tx_hash tx ∈ ts)) as [Hin|Nin].
    + rewrite total_update by done. rewrite unspent_value by done. pose proof (FromTx_value tx h Hout).
      assert (0 <= coins_value (L1 (tx_hash tx))); [|lia]. rewrite <- (proj2 St1), <- Ec, unspent_value by done. by apply outs_value_nonneg.
    + rewrite total_outside by done. pose proof (sum_values_nonneg _ Hout). lia.
Qed.
End refinement.
