(* ===== verification/ConnectBlock.v ===== *)
(** * Connecting a block ([main.cpp])

    [ConnectBlock]: the checks that need the set of unspent outputs, the new set, the money
    supply, and what is written to the stores.  The zerocoin library and the stores are
    parameters; the queue of script checks is the conjunction of its checks, which is what
    [CheckQueue] shows of it. *)

From Stdlib Require Import ZArith Lia List Bool String.
From stdpp Require Import base option list gmap.
From coqutil Require Import Byte Word.LittleEndianList.
From S2P Require Import Prelude Uint256 Serialize MerkleDamgard Hash Script Interpreter Effects PubKey Tx SigHash Compressor Coins CoinsView CoinsDB Connect Params BlockIndex Checkpoints Chain Block TxCheck CheckBlock Subsidy CheckInputs Ledger.

Open Scope Z_scope.
Open Scope btc_scope.

(** [CDiskTxPos]: where a transaction is in the block files. *)
Record CDiskTxPos : Type := mk_CDiskTxPos { tp_block : CDiskBlockPos; nTxOffset : Z }.

(** The writes of [ConnectBlock], in their order. *)
Inductive disk_op (CoinSpend : Type) : Type :=
| WriteUndo (nPos : Z) (blockundo : list CTxUndo) (hashPrev : uint256)
| WriteCoinSpend (spend : CoinSpend) (txid : uint256)
| DatabaseChecksums
| WriteTxIndex (vPos : list (uint256 * CDiskTxPos))
| WriteAddressIndex (ops : list index_op)
| UpdateAddressUnspentIndex (ops : list index_op)
| UpdateSpentIndex (ops : list index_op)
| WriteTimestampIndex (nTime : Z) (hash : uint256).
Arguments WriteUndo {_}. Arguments WriteCoinSpend {_}. Arguments DatabaseChecksums {_}. Arguments WriteTxIndex {_}.
Arguments WriteAddressIndex {_}. Arguments UpdateAddressUnspentIndex {_}. Arguments UpdateSpentIndex {_}. Arguments WriteTimestampIndex {_}.

Definition is_address (op : index_op) : bool := match op with AddressIndex _ _ _ _ _ _ _ _ => true | _ => false end.
Definition is_unspent (op : index_op) : bool := match op with AddressUnspentIndex _ _ _ _ _ => true | _ => false end.
Definition is_spent (op : index_op) : bool := match op with SpentIndex _ _ _ => true | _ => false end.

(** The running totals of the loop over the transactions. *)
Record totals (CoinSpend : Type) : Type := mk_totals {
  t_nFees : Z; t_nSigOps : Z; t_nValueIn : Z; t_nValueOut : Z;
  t_checks : list CScriptCheck; t_undo : list CTxUndo; t_vSpends : list (CoinSpend * uint256);
  t_vPos : list (uint256 * CDiskTxPos); t_pos : CDiskTxPos; t_index : list index_op }.
Arguments mk_totals {_}. Arguments t_nFees {_}. Arguments t_nSigOps {_}. Arguments t_nValueIn {_}. Arguments t_nValueOut {_}.
Arguments t_checks {_}. Arguments t_undo {_}. Arguments t_vSpends {_}. Arguments t_vPos {_}. Arguments t_pos {_}. Arguments t_index {_}.

Section connect_block.
Context {V : Type} {CV : CCoinsView V}.
Context (params : CChainParams) (Verify : CPubKey -> uint256 -> list byte -> bool) (buf : list byte).
Context (H : heap) (mapBlockIndex : gmap uint256 ptr) (chainActive : CChain).

(** The zerocoin layer: the spend of an input ([None]: an exception), its denomination, the
    checks against the chain; whether and where a transaction is in the chain; the sporks. *)
Context {Zc : Zerocoin} (ContextualCheckCoinSpend : CoinSpend -> uint256 -> bool) (IsTransactionInChain : uint256 -> option Z)
        (SPORK_16 : Z) (InitialBlockDownload fVerifyingBlocks : bool).
Context (fAddressIndex fSpentIndex nScriptCheckThreads : bool).

Abbreviation act := (eff (CCoinsViewCache V) failure).
Abbreviation sums := (totals CoinSpend).

(** ** One transaction *)

Section transaction.
Context (nHeight nTime : Z) (fScriptChecks : bool).

(** The inputs of a zerocoin spend. *)
Fixpoint zerocoin_inputs (txid : uint256) (vin : list CTxIn) (nValueIn : Z) (vSpends : list (CoinSpend * uint256)) (state : CValidationState) :
    result failure (Z * list (CoinSpend * uint256)) :=
  match vin with
  | [] => Ret (nValueIn, vSpends)
  | txIn :: vin =>
      if negb (CTxIn_IsZerocoinSpend txIn) then zerocoin_inputs txid vin nValueIn vSpends state else
      let* spend := TxInToZerocoinSpend txIn in
      let* value := as_int64 (getDenomination spend * CENT) in
      let* nValueIn := as_int64 (nValueIn + value) in
      if negb (ContextualCheckCoinSpend spend txid) then reject 100 0 "" state
      else zerocoin_inputs txid vin nValueIn (vSpends ++ [(spend, txid)]) state
  end.

(** A transaction that is in the chain already is let through only while blocks are
    verified, at or below the height it has there. *)
Definition check_in_chain (txid : uint256) (state : CValidationState) : result failure unit :=
  match IsTransactionInChain txid with
  | Some nHeightTx =>
      if negb fVerifyingBlocks || (nHeight >? nHeightTx)
      then reject 100 REJECT_INVALID "bad-txns-inputs-missingorspent" state else Ret tt
  | None => Ret tt
  end.

(** The first look at the inputs of the others; the second fork restricts the age. *)
Fixpoint staking2_inputs (tx : CTransaction) (vin : list CTxIn) (state : CValidationState) : act unit :=
  match vin with
  | [] => eret tt
  | i :: vin =>
      do* coins := reads (AccessCoins (prev_hash (prevout i))) in
      match coins with
      | None => lift (reject 100 REJECT_INVALID "bad-inputs" state)
      | Some coins =>
          do* young := (if IsCoinStake tx then lift (let* d := as_int (nHeight - Coins.nHeight coins) in Ret (d <? nMaturity params)) else eret false) in
          if young || ((Coins.nHeight coins <? nZerocoinStartHeight params) && negb (IsCoinStake tx))
             || negb (IsAvailable coins (Z.to_nat (prev_n (prevout i))))
          then lift (reject 100 REJECT_INVALID "bad-inputs" state)
          else staking2_inputs tx vin state
      end
  end.

Definition first_look (tx : CTransaction) (state : CValidationState) : act unit :=
  if nHeight >=? StakingProtocol2Height then staking2_inputs tx (tx_vin tx) state
  else
    do* have := reads (HaveInputs tx 0) in
    if have : bool then eret tt else lift (reject 100 REJECT_INVALID "bad-txns-inputs-missingorspent" state).

(** The records of the spent outputs. *)
Fixpoint index_inputs (i : nat) (txhash : uint256) (j : nat) (vin : list CTxIn) : act (list index_op) :=
  match vin with
  | [] => eret []
  | input :: vin =>
      do* prev := reads (GetOutputFor input) in
      match prev with
      | None => throw Asserts
      | Some prev =>
          let out := prevout input in
          let '(ty, h) := default (0, repeat Byte.x00 20) (script_address (scriptPubKey prev)) in
          let ops := (if fAddressIndex && (ty >? 0) then
              [AddressIndex ty h nHeight i txhash j true (nValue prev * -1); AddressUnspentIndex ty h (prev_hash out) (prev_n out) None] else [])
            ++ (if fSpentIndex then [SpentIndex (prev_hash out) (prev_n out) (Some (mk_spent txhash j nHeight (nValue prev) ty h))] else []) in
          do* rest := index_inputs i txhash (S j) vin in
          eret (ops ++ rest)
      end
  end.

(** The records of the outputs. *)
Definition index_receipts (i : nat) (tx : CTransaction) : list index_op :=
  List.concat (imap (fun k out =>
    match script_address (scriptPubKey out) with
    | Some (ty, h) => [AddressIndex ty h nHeight i (tx_hash tx) k false (nValue out);
                       AddressUnspentIndex ty h (tx_hash tx) (Z.of_nat k) (Some (nValue out, scriptPubKey out, nHeight))]
    | None => []
    end) (tx_vout tx)).

(** [view.GetValueIn(tx)] *)
Definition value_of_inputs (tx : CTransaction) : act Z := fun v =>
  match GetValueIn tx v with
  | (v, Ret n) => (Ret n, v)
  | (v, Err ValueAssert) => (Err Asserts, v)
  | (v, Err SumOverflow) => (Err Undefined, v)
  end.

(** [if (!tx.IsCoinStake()) nFees += view.GetValueIn(tx) - tx.GetValueOut()] *)
Definition add_fee (tx : CTransaction) (nFees : Z) : act Z :=
  if IsCoinStake tx then eret nFees else
  do* nIn := value_of_inputs tx in
  do* nOut := lift (of_value (GetValueOut tx)) in
  do* fee := lift (as_int64 (nIn - nOut)) in
  lift (as_int64 (nFees + fee)).

Definition connect_flags : Z := Z.lor SCRIPT_VERIFY_P2SH SCRIPT_VERIFY_DERSIG.

(** A transaction that is neither a zerocoin spend nor a coinbase. *)
Definition connect_inputs (i : nat) (tx : CTransaction) (t : sums) (state : CValidationState) : act sums :=
  do* _ := first_look tx state in
  do* ops := (if fAddressIndex || fSpentIndex then index_inputs i (tx_hash tx) 0 (tx_vin tx) else eret []) in
  do* n := GetP2SHSigOpCount tx in
  let nSigOps := u32 (t_nSigOps t + n) in
  if nSigOps >? MAX_BLOCK_SIGOPS_CURRENT then lift (reject 100 REJECT_INVALID "bad-blk-sigops" state) else
  do* nFees := add_fee tx (t_nFees t) in
  do* nIn := value_of_inputs tx in
  do* nValueIn := lift (as_int64 (t_nValueIn t + nIn)) in
  do* vChecks := CheckInputs params Verify buf H mapBlockIndex tx state fScriptChecks connect_flags nScriptCheckThreads 0 in
  eret (mk_totals nFees nSigOps nValueIn (t_nValueOut t) (t_checks t ++ vChecks) (t_undo t) (t_vSpends t) (t_vPos t) (t_pos t) (t_index t ++ ops)).

(** One turn of the loop, for transaction number [i]. *)
Definition connect_tx (i : nat) (tx : CTransaction) (t : sums) (state : CValidationState) : act sums :=
  let nSigOps := u32 (t_nSigOps t + GetLegacySigOpCount tx) in
  if nSigOps >? MAX_BLOCK_SIGOPS_CURRENT then lift (reject 100 REJECT_INVALID "bad-blk-sigops" state) else
  if (nTime >? SPORK_16) && negb InitialBlockDownload && ContainsZerocoins tx then lift (reject 100 0 "" state) else
  let t := mk_totals (t_nFees t) nSigOps (t_nValueIn t) (t_nValueOut t) (t_checks t) (t_undo t) (t_vSpends t) (t_vPos t) (t_pos t) (t_index t) in
  do* t := (if HasZerocoinSpendInputs tx then
      do* _ := lift (check_in_chain (tx_hash tx) state) in
      do* r := lift (zerocoin_inputs (tx_hash tx) (tx_vin tx) (t_nValueIn t) (t_vSpends t) state) in
      eret (mk_totals (t_nFees t) (t_nSigOps t) r.1 (t_nValueOut t) (t_checks t) (t_undo t) r.2 (t_vPos t) (t_pos t) (t_index t))
    else if negb (IsCoinBase tx) then connect_inputs i tx t state else eret t) in
  let ops := if fAddressIndex then index_receipts i tx else [] in
  do* nOut := lift (of_value (GetValueOut tx)) in
  do* nValueOut := lift (as_int64 (t_nValueOut t + nOut)) in
  do* u := (fun v => match UpdateCoins tx nHeight v with Some (v, u) => (Ret u, v) | None => (Err Asserts, v) end) in
  eret (mk_totals (t_nFees t) (t_nSigOps t) (t_nValueIn t) nValueOut (t_checks t)
    (match i with O => t_undo t | S _ => t_undo t ++ [u] end) (t_vSpends t) (t_vPos t ++ [(tx_hash tx, t_pos t)])
    (mk_CDiskTxPos (tp_block (t_pos t)) (u32 (nTxOffset (t_pos t) + GetSerializeSize tx))) (t_index t ++ ops)).

Fixpoint connect_all (i : nat) (vtx : list CTransaction) (t : sums) (state : CValidationState) : act sums :=
  match vtx with
  | [] => eret t
  | tx :: vtx => do* t := connect_tx i tx t state in connect_all (S i) vtx t state
  end.
End transaction.
End connect_block.

(** ** The block *)

(** What [ConnectBlock] changes: what [CheckBlock] changes, the view, the entry of the block
    and whether it has to be written, and the stores, as the list of the writes made. *)
Record node (V CoinSpend : Type) : Type := mk_node {
  n_check : check_state; n_view : CCoinsViewCache V; n_pindex : CBlockIndex; n_dirty : bool; n_disk : list (disk_op CoinSpend) }.
Arguments mk_node {_ _}. Arguments n_check {_ _}. Arguments n_view {_ _}. Arguments n_pindex {_ _}. Arguments n_dirty {_ _}. Arguments n_disk {_ _}.

Section block.
Context {V : Type} {CV : CCoinsView V}.
Context (params : CChainParams) (HashQuark : bytes -> uint256) (Verify : CPubKey -> uint256 -> list byte -> bool) (buf : list byte).
Context {Zc : Zerocoin} (GetTime GetAdjustedTime : Z) (InitialBlockDownload SPORK_3 : bool)
        (mapLockedInputs : COutPoint -> option uint256) (IsBlockPayeeValid : CBlock -> Z -> bool).
Context (H : heap) (mapBlockIndex : gmap uint256 ptr) (chainActive : CChain).
Context (HashGenesisBlock : uint256) (fEnabled : bool) (checkpoints : MapCheckpoints).
Context (ContextualCheckCoinSpend : CoinSpend -> uint256 -> bool) (IsTransactionInChain : uint256 -> option Z)
        (SPORK_16 : Z) (fVerifyingBlocks : bool).
Context (fAddressIndex fSpentIndex fTxIndex fTimestampIndex nScriptCheckThreads : bool).
(** The accumulators of the zerocoin library; a shutdown that was asked for. *)
Context (UpdateZBTC2Supply ValidateAccumulatorCheckpoint : CBlock -> bool) (ShutdownRequested : bool).
(** The block files: the place of the undo data, [None] when the disk is full; whether a
    store accepts a write, after those made. *)
Context (FindUndoPos : Z -> list CTxUndo -> option Z) (disk_ok : list (disk_op CoinSpend) -> disk_op CoinSpend -> bool).

Abbreviation act := (eff (node V CoinSpend) failure).

(** Code on the view, and on the state of [CheckBlock]. *)
Definition on_view {A} (m : eff (CCoinsViewCache V) failure A) : act A := fun s =>
  let '(r, v) := m (n_view s) in (r, mk_node (n_check s) v (n_pindex s) (n_dirty s) (n_disk s)).
Definition on_check {A} (m : eff check_state failure A) : act A := fun s =>
  let '(r, c) := m (n_check s) in (r, mk_node c (n_view s) (n_pindex s) (n_dirty s) (n_disk s)).
Definition set_pindex (f : CBlockIndex -> CBlockIndex) : act unit :=
  update (fun s => mk_node (n_check s) (n_view s) (f (n_pindex s)) (n_dirty s) (n_disk s)).
Definition pindex : act CBlockIndex := reads (fun s => (s, n_pindex s)).

(** A write, and what is returned when it fails. *)
Definition write (op : disk_op CoinSpend) (state : CValidationState) : act unit := fun s =>
  if disk_ok (n_disk s) op
  then (Ret tt, mk_node (n_check s) (n_view s) (n_pindex s) (n_dirty s) (n_disk s ++ [op]))
  else (Err (Rejected state), s).
Definition when (b : bool) (m : act unit) : act unit := if b then m else eret tt.

(** BIP 30: no transaction may overwrite one that is not spent. *)
Fixpoint check_overwrite (vtx : list CTransaction) (state : CValidationState) : eff (CCoinsViewCache V) failure unit :=
  match vtx with
  | [] => eret tt
  | tx :: vtx =>
      do* coins := reads (AccessCoins (tx_hash tx)) in
      if match coins with Some coins => negb (IsPruned coins) | None => false end
      then lift (reject 100 REJECT_INVALID "bad-txns-BIP30" state) else check_overwrite vtx state
  end.

(** [control.Wait()] *)
Fixpoint Wait (checks : list CScriptCheck) : result failure bool :=
  match checks with
  | [] => Ret true
  | c :: checks =>
      let* ok := CScriptCheck_run Verify buf c in
      let* rest := Wait checks in Ret (ok && rest)
  end.

(** [nMint] and [nMoneySupply] of the entry. *)
Definition money_supply (b : CBlockIndex) (nValueOut nValueIn : Z) : result failure (Z * Z) :=
  let* nMoneySupplyPrev := (match pprev b with Some q => let* prev := of_ptr (deref H (Some q)) in Ret (nMoneySupply prev) | None => Ret 0 end) in
  let* supply := as_int64 (nMoneySupplyPrev + nValueOut) in
  let* supply := as_int64 (supply - nValueIn) in
  let* mint := as_int64 (supply - nMoneySupplyPrev) in
  Ret (mint, supply).

Definition expected_mint (block : CBlock) (nHeight nFees : Z) : result failure Z :=
  let* nExpectedMint := of_ptr (GetBlockValue params H chainActive nHeight) in
  if CBlock_IsProofOfWork block then as_int64 (nExpectedMint + nFees) else Ret nExpectedMint.

(** The undo data and the status of the entry. *)
Definition write_undo (blockundo : list CTxUndo) (state : CValidationState) : act unit :=
  do* b := pindex in
  let null := CDiskBlockPos_IsNull (GetUndoPos b) in
  do* valid := lift (match IsValid BLOCK_VALID_SCRIPTS b with Some valid => Ret valid | None => Err Asserts end) in
  when (null || negb valid) (
    do* _ := when null (
      match FindUndoPos (nFile b) blockundo with
      | None => throw (Rejected (StateError "out of disk space" state))
      | Some pos =>
          do* prev := lift (of_ptr (deref H (pprev b))) in
          do* _ := write (WriteUndo pos blockundo (blockHash prev)) (StateError "Failed to write undo data" state) in
          set_pindex (fun b => with_status (with_undo b pos) (Z.lor (nStatus b) BLOCK_HAVE_UNDO))
      end) in
    do* _ := set_pindex (fun b => match RaiseValidity BLOCK_VALID_SCRIPTS b with Some (b, _) => b | None => b end) in
    update (fun s => mk_node (n_check s) (n_view s) (n_pindex s) true (n_disk s))).

Fixpoint write_spends (vSpends : list (CoinSpend * uint256)) (state : CValidationState) : act unit :=
  match vSpends with
  | [] => eret tt
  | (spend, txid) :: vSpends =>
      do* _ := write (WriteCoinSpend spend txid) (StateError "Failed to record coin serial to database" state) in
      write_spends vSpends state
  end.

(** The indexes; the transaction index is written twice. *)
Definition write_indexes (t : totals CoinSpend) (b : CBlockIndex) (state : CValidationState) : act unit :=
  do* _ := update (fun s => mk_node (n_check s) (n_view s) (n_pindex s) (n_dirty s) (n_disk s ++ [DatabaseChecksums])) in
  do* _ := when fTxIndex (write (WriteTxIndex (t_vPos t)) (StateError "Failed to write transaction index" state)) in
  do* _ := when fTxIndex (write (WriteTxIndex (t_vPos t)) state) in
  do* _ := when fAddressIndex (
    do* _ := write (WriteAddressIndex (List.filter is_address (t_index t))) state in
    write (UpdateAddressUnspentIndex (List.filter is_unspent (t_index t))) state) in
  do* _ := when fSpentIndex (write (UpdateSpentIndex (List.filter is_spent (t_index t))) state) in
  when fTimestampIndex (write (WriteTimestampIndex (GetBlockTime b) (blockHash b)) state).

(** The loop over the transactions, and the totals it starts from. *)
Definition first_totals (block : CBlock) (b : CBlockIndex) : totals CoinSpend :=
  mk_totals 0 0 0 0 [] [] [] [] (mk_CDiskTxPos (GetBlockPos b) (GetSizeOfCompactSize (Z.of_nat (length (vtx block))))) [].
Definition connect_transactions (block : CBlock) (b : CBlockIndex) (fScriptChecks : bool) (state : CValidationState) :
    eff (CCoinsViewCache V) failure (totals CoinSpend) :=
  connect_all params Verify buf H mapBlockIndex ContextualCheckCoinSpend IsTransactionInChain
    SPORK_16 InitialBlockDownload fVerifyingBlocks fAddressIndex fSpentIndex nScriptCheckThreads (nHeight b) (b_nTime block) fScriptChecks
    0 (vtx block) (first_totals block b) state.

(** From the transactions to the last check. *)
Definition check_connected (block : CBlock) (b : CBlockIndex) (t : totals CoinSpend) (state : CValidationState) : act unit :=
  if negb (UpdateZBTC2Supply block) then lift (reject 100 REJECT_INVALID "" state) else
  do* (mint, supply) := lift (money_supply b (t_nValueOut t) (t_nValueIn t)) in
  do* _ := set_pindex (fun b => with_supply b mint supply) in
  do* nExpectedMint := lift (expected_mint block (nHeight b) (t_nFees t)) in
  if mint >? nExpectedMint then lift (reject 100 REJECT_INVALID "bad-cb-amount" state) else
  if negb (ValidateAccumulatorCheckpoint block)
  then if negb ShutdownRequested then lift (reject 100 REJECT_INVALID "bad-acc-checkpoint" state) else throw (Rejected state) else
  do* ok := lift (Wait (t_checks t)) in
  if negb ok then lift (reject 100 0 "" state) else eret tt.

(** What is kept of the block: from [blockundo.WriteToDisk] to the new best block. *)
Definition finish (t : totals CoinSpend) (state : CValidationState) : act unit :=
  do* _ := write_undo (t_undo t) state in
  do* _ := write_spends (t_vSpends t) state in
  do* b := pindex in
  do* _ := write_indexes t b state in
  on_view (update (SetBestBlock (blockHash b))).

Definition ConnectBlock (block : CBlock) (state : CValidationState) (fJustCheck fAlreadyChecked : bool) : act unit :=
  do* _ := (if fAlreadyChecked then eret tt else
    on_check (CheckBlock params HashQuark GetTime GetAdjustedTime InitialBlockDownload SPORK_3
      mapLockedInputs IsBlockPayeeValid H mapBlockIndex chainActive block state (negb fJustCheck) (negb fJustCheck) true)) in
  do* b := pindex in
  do* hashPrevBlock := lift (match pprev b with None => Ret (base_uint_zero 8) | Some q => let* prev := of_ptr (deref H (Some q)) in Ret (blockHash prev) end) in
  do* best := on_view (reads cache_GetBestBlock) in
  if negb (bool_decide (hashPrevBlock = best)) then throw Asserts else
  if bool_decide (CBlockHeader_GetHash HashQuark block = HashGenesisBlock) then on_view (update (SetBestBlock (blockHash b))) else
  if (nHeight b <=? nLastPOWBlock params) && CBlock_IsProofOfStake block then lift (reject 100 REJECT_INVALID "PoS-early" state) else
  if (nHeight b >? nLastPOWBlock params) && CBlock_IsProofOfWork block then lift (reject 100 REJECT_INVALID "PoW-ended" state) else
  do* estimate := lift (match GetTotalBlocksEstimate fEnabled checkpoints with Some n => Ret n | None => Err Undefined end) in
  let fScriptChecks := nHeight b >=? estimate in
  do* _ := on_view (check_overwrite (vtx block) state) in
  do* t := on_view (connect_transactions block b fScriptChecks state) in
  do* _ := check_connected block b t state in
  if fJustCheck then eret tt else finish t state.
End block.

(** ** What a run that returns has checked *)

Section runs.
Context {V : Type} {CV : CCoinsView V} {VOk : CCoinsViewOk V}.
Context (params : CChainParams) (Hp : params_ok params) (Verify : CPubKey -> uint256 -> list byte -> bool) (buf : list byte).
Context (H : heap) (mapBlockIndex : gmap uint256 ptr).
Context {Zc : Zerocoin} (ContextualCheckCoinSpend : CoinSpend -> uint256 -> bool) (IsTransactionInChain : uint256 -> option Z)
        (SPORK_16 : Z) (InitialBlockDownload fVerifyingBlocks : bool).
Context (fAddressIndex fSpentIndex nScriptCheckThreads : bool).
Context (h nTime : Z) (fScriptChecks : bool).

(** The age that the second fork asks for. *)
Definition staking2_ok (L : ledger) (stake : bool) (i : CTxIn) : Prop :=
  exists c o, coin_at L (prevout i) = Some (c, o) /\
    if stake then nMaturity params <= h - Coins.nHeight c else nZerocoinStartHeight params <= Coins.nHeight c.

Lemma staking2_inputs_inv (tx : CTransaction) state L vin : forall (v : CCoinsViewCache V) v', stands v L -> Forall hash_wf vin ->
  staking2_inputs params h tx vin state v = (Ret tt, v') ->
  keeps v v' /\ Forall (fun i => available L 0 (IsCoinStake tx) i = true) vin /\ Forall (staking2_ok L (IsCoinStake tx)) vin.
Proof using VOk.
  induction vin as [|i vin IH]; intros v v' St Hw E; cbn [staking2_inputs] in E.
  { apply eret_inv in E as [_ ->]. split; [apply keeps_refl, St|by split]. }
  apply Forall_cons in Hw as [Hi Hw]. run_step E r v1 E1. apply reads_inv in E1.
  destruct (AccessCoins_spec v _ (proj1 St) Hi) as (v1' & r' & E1' & K & Er & Hok). rewrite E1' in E1. injection E1 as -> ->.
  assert (Co : coin_at L (prevout i) = coins_at r (Z.to_nat (prev_n (prevout i)))).
  { apply coin_at_read; [|exact Hok]. rewrite Er. apply St. }
  destruct r as [c|]; [|done]. run_step E young v2 E2.
  assert (Y : v2 = v1 /\ (IsCoinStake tx = true -> young = (h - Coins.nHeight c <? nMaturity params))).
  { destruct (IsCoinStake tx); [apply lift_inv in E2 as [E2 ->]|by apply eret_inv in E2 as [_ ->]]. split; [done|]. intros _.
    apply result_bind_Ret in E2 as (d & Ed & E2). apply as_int_Ret in Ed as ->. by injection E2 as <-. }
  destruct Y as [-> Y]. destruct (_ || _) eqn:T; [done|]. apply orb_false_iff in T as [T Av]. apply orb_false_iff in T as [T1 T2].
  apply negb_false_iff in Av. rewrite IsAvailable_at in Av. destruct (coins_at (Some c) _) as [[c' o]|] eqn:Ec; [|done].
  destruct (coins_at_range c _ c' o (Hok _ eq_refl) Ec) as (-> & _ & _ & _ & Hc).
  destruct (IH v1 v' (stands_keeps _ _ _ St K) Hw E) as (K2 & A & B). split; [by eapply keeps_trans|]. split; constructor; [|exact A| |exact B].
  - unfold available. rewrite Co, Av. cbn [andb]. by rewrite (proj2 (Z.ltb_ge _ _)) by lia.
  - exists c, o. split; [exact Co|]. destruct (IsCoinStake tx); [|rewrite andb_true_r in T2; by apply Z.ltb_ge in T2].
    specialize (Y eq_refl). rewrite T1 in Y. symmetry in Y. by apply Z.ltb_ge in Y.
Qed.

Lemma has_inputs_split (tx : CMutableTransaction) : has_inputs tx = true -> IsCoinBase tx = false /\ HasZerocoinSpendInputs tx = false.
Proof using. unfold has_inputs. destruct (IsCoinBase tx), (HasZerocoinSpendInputs tx); done. Qed.

Lemma first_look_inv (tx : CTransaction) state L (v v' : CCoinsViewCache V) : stands v L -> Forall hash_wf (tx_vin tx) -> has_inputs tx = true ->
  first_look params h tx state v = (Ret tt, v') ->
  keeps v v' /\ Forall (fun i => available L 0 (IsCoinStake tx) i = true) (tx_vin tx) /\
  (StakingProtocol2Height <= h -> Forall (staking2_ok L (IsCoinStake tx)) (tx_vin tx)).
Proof using VOk.
  intros St Hw Hi E. unfold first_look in E. rewrite Z.geb_leb in E. destruct (Z.leb_spec StakingProtocol2Height h).
  - destruct (staking2_inputs_inv tx state L _ v v' St Hw E) as (K & A & B). by split.
  - run_step E b v1 E1. apply reads_inv in E1. unfold HaveInputs in E1. destruct (has_inputs_split _ Hi) as [Cb Zcf]. rewrite Cb, Zcf in E1. cbn [negb andb] in E1.
    destruct (HaveInputs_loop_spec tx 0 L (tx_vin tx) v St Hw) as (_ & K & Eb). rewrite E1 in K, Eb. cbn [fst snd] in *.
    destruct b; [|done]. apply eret_inv in E as [_ ->]. split; [exact K|]. split; [|lia]. symmetry in Eb. rewrite forallb_forall in Eb.
    apply Forall_forall. intros i Hin. by apply Eb, list_elem_of_In.
Qed.

Lemma index_inputs_keeps i txhash vin : forall j (v v' : CCoinsViewCache V) ops, cache_ok v -> Forall hash_wf vin ->
  index_inputs fAddressIndex fSpentIndex h i txhash j vin v = (Ret ops, v') -> keeps v v'.
Proof using VOk.
  induction vin as [|x vin IH]; intros j v v' ops Hc Hw E; cbn [index_inputs] in E.
  { apply eret_inv in E as [_ ->]. by apply keeps_refl. }
  apply Forall_cons in Hw as [Hx Hw]. run_step E prev v1 E1. apply reads_inv in E1.
  destruct (GetOutputFor_spec v (cache_view v) x (conj Hc (fun _ => eq_refl)) Hx) as (v1' & K & E1'). rewrite E1' in E1. injection E1 as -> _.
  destruct prev as [prev|]; [|done]. destruct (default _ _) as [ty a]. run_step E rest v2 E2. apply eret_inv in E as [_ ->].
  eapply keeps_trans; [exact K|]. by eapply IH; [apply K|exact Hw|exact E2].
Qed.

(** The value of inputs that are there. *)
Lemma value_of_inputs_inv (tx : CTransaction) L stake (v v' : CCoinsViewCache V) n : stands v L -> Forall hash_wf (tx_vin tx) -> has_inputs tx = true ->
  Forall (fun i => available L 0 stake i = true) (tx_vin tx) -> value_of_inputs tx v = (Ret n, v') -> keeps v v' /\ n = value_in L (tx_vin tx).
Proof using VOk.
  intros St Hw Hi Ha E. unfold value_of_inputs, GetValueIn in E. destruct (has_inputs_split _ Hi) as [Cb Zcf]. rewrite Cb, Zcf in E.
  destruct (GetValueIn_loop_spec L 0 stake (tx_vin tx) 0 v St Hw) as [K Ev]; [lia|exact Ha|].
  destruct (GetValueIn_loop (tx_vin tx) 0 v) as [v1 r]. cbn [fst snd] in *. subst r.
  destruct (_ <? _); [|done]. injection E as <- <-. by split.
Qed.

(** The fee of a transaction at a ledger. *)
Definition tx_fee (L : ledger) (tx : CTransaction) : Z :=
  if has_inputs tx && negb (IsCoinStake tx) then value_in L (tx_vin tx) - sum_values (tx_vout tx) else 0.

Lemma add_fee_inv (tx : CTransaction) L (v v' : CCoinsViewCache V) nFees f : stands v L -> Forall hash_wf (tx_vin tx) -> has_inputs tx = true ->
  Forall (fun i => available L 0 (IsCoinStake tx) i = true) (tx_vin tx) -> add_fee tx nFees v = (Ret f, v') ->
  keeps v v' /\ f = nFees + tx_fee L tx.
Proof using VOk.
  intros St Hw Hi Ha E. unfold add_fee, tx_fee in *. rewrite Hi. cbn [andb]. destruct (IsCoinStake tx) eqn:Stk; cbn [negb].
  { apply eret_inv in E as [<- ->]. split; [apply keeps_refl, St|lia]. }
  run_step E n v1 E1. destruct (value_of_inputs_inv tx L false v v1 n St Hw Hi Ha E1) as [K ->].
  run_step E m v2 E2. apply lift_inv in E2 as [E2 ->]. run_step E d v3 E3. apply lift_inv in E3 as [E3 ->]. apply lift_inv in E as [E ->].
  apply as_int64_Ret in E as ->. apply as_int64_Ret in E3 as ->. split; [exact K|].
  destruct (GetValueOut tx) as [vo|[]] eqn:Eo; try done. injection E2 as ->. by destruct (GetValueOut_Ret tx m Eo) as [-> _].
Qed.

(** What every transaction that spends outputs has to satisfy in a block at height [h]. *)
Definition tx_rule (L : ledger) (tx : CTransaction) : Prop :=
  has_inputs tx = true ->
  inputs_ok params L h 0 tx /\
  (fScriptChecks = true -> Forall (passes Verify buf) (input_checks L tx connect_flags 0 (tx_vin tx))) /\
  (StakingProtocol2Height <= h -> Forall (staking2_ok L (IsCoinStake tx)) (tx_vin tx)).

Definition spends_value (l : list (CoinSpend * uint256)) : Z := foldr (fun s n => getDenomination s.1 * CENT + n) 0 l.

Lemma spends_value_app a b : spends_value (a ++ b) = spends_value a + spends_value b.
Proof using. unfold spends_value. induction a as [|s a IH]; [done|]. cbn [app foldr]. rewrite IH. lia. Qed.

(** The totals before and after a transaction: what the inputs add, but for zerocoins. *)
Definition balance (t : totals CoinSpend) : Z := t_nValueOut t - t_nValueIn t + spends_value (t_vSpends t).

(** What the zerocoin spends among the inputs are worth. *)
Definition zerocoin_value (i : CTxIn) : Z :=
  if CTxIn_IsZerocoinSpend i then match TxInToZerocoinSpend i with Ret s => getDenomination s * CENT | Err _ => 0 end else 0.
Definition zerocoins (vin : list CTxIn) : Z := foldr (fun i n => zerocoin_value i + n) 0 vin.
Definition block_zerocoins (vtx : list CTransaction) : Z := foldr (fun (tx : CTransaction) n => zerocoins (tx_vin tx) + n) 0 vtx.

Lemma no_zerocoins (tx : CTransaction) : HasZerocoinSpendInputs tx = false -> zerocoins (tx_vin tx) = 0.
Proof using.
  unfold HasZerocoinSpendInputs, zerocoins, zerocoin_value. induction (tx_vin tx) as [|i vin IH]; [done|]. cbn [existsb foldr].
  intros E. apply orb_false_iff in E as [-> E]. by rewrite IH.
Qed.

Lemma zerocoin_inputs_inv txid vin state : forall n l n' l',
  zerocoin_inputs ContextualCheckCoinSpend txid vin n l state = Ret (n', l') ->
  n' = n + zerocoins vin /\ spends_value l' = spends_value l + zerocoins vin.
Proof using.
  induction vin as [|i vin IH]; intros n l n' l' E; cbn [zerocoin_inputs] in E; [injection E as <- <-; cbn; lia|].
  change (zerocoins (i :: vin)) with (zerocoin_value i + zerocoins vin). unfold zerocoin_value.
  destruct (CTxIn_IsZerocoinSpend i); cbn [negb] in E; [|by apply IH]. destruct (TxInToZerocoinSpend i) as [s|]; [cbn [result_bind] in E|done].
  apply result_bind_Ret in E as (a & Ea & E). apply as_int64_Ret in Ea as ->. apply result_bind_Ret in E as (b & Eb & E). apply as_int64_Ret in Eb as ->.
  destruct (negb _); [done|]. apply IH in E as [-> E]. rewrite spends_value_app in E. cbn [spends_value foldr fst] in E. lia.
Qed.

(** The best block of the view is the parent of the block that is connected. *)
Definition on_tip (v : CCoinsViewCache V) : Prop :=
  exists p prev, mapBlockIndex !! cache_best v = Some p /\ H !! p = Some prev /\ nHeight prev + 1 = h /\ 0 <= nHeight prev < 2 ^ 31 - 1.

Lemma on_tip_best (v v' : CCoinsViewCache V) : on_tip v -> cache_best v' = cache_best v -> on_tip v'.
Proof using. unfold on_tip. by intros T ->. Qed.

Abbreviation run_inputs := (connect_inputs params Verify buf H mapBlockIndex fAddressIndex fSpentIndex nScriptCheckThreads h fScriptChecks).
Abbreviation run_tx := (connect_tx params Verify buf H mapBlockIndex ContextualCheckCoinSpend IsTransactionInChain
  SPORK_16 InitialBlockDownload fVerifyingBlocks fAddressIndex fSpentIndex nScriptCheckThreads h nTime fScriptChecks).
Abbreviation run_all := (connect_all params Verify buf H mapBlockIndex ContextualCheckCoinSpend IsTransactionInChain
  SPORK_16 InitialBlockDownload fVerifyingBlocks fAddressIndex fSpentIndex nScriptCheckThreads h nTime fScriptChecks).

Lemma connect_inputs_inv i (tx : CTransaction) t t' state L (v v' : CCoinsViewCache V) vo : stands v L -> on_tip v -> Forall hash_wf (tx_vin tx) ->
  has_inputs tx = true -> GetValueOut tx = Ret vo -> run_inputs i tx t state v = (Ret t', v') ->
  keeps v v' /\ t_nFees t' = t_nFees t + tx_fee L tx /\ t_nValueIn t' = t_nValueIn t + value_in L (tx_vin tx) /\
  t_nValueOut t' = t_nValueOut t /\ t_undo t' = t_undo t /\ t_vSpends t' = t_vSpends t /\
  (Forall (passes Verify buf) (t_checks t') -> Forall (passes Verify buf) (t_checks t) /\ tx_rule L tx).
Proof using Hp VOk.
  intros St T Hw Hi Eo E. unfold connect_inputs in E. run_step E u v1 E1.
  assert (E1' : first_look params h tx state v = (Ret tt, v1)) by (destruct u; exact E1).
  destruct (first_look_inv tx state L v v1 St Hw Hi E1') as (K1 & Ha & H2). pose proof (stands_keeps _ _ _ St K1) as S1.
  run_step E ops v2 E2. assert (K2 : keeps v1 v2).
  { destruct (_ || _); [by eapply index_inputs_keeps; [apply S1|exact Hw|exact E2]|]. apply eret_inv in E2 as [_ ->]. apply keeps_refl, S1. }
  pose proof (stands_keeps _ _ _ S1 K2) as S2. run_step E n v3 E3. assert (K3 : keeps v2 v3).
  { unfold GetP2SHSigOpCount in E3. rewrite Hi in E3. cbn [negb] in E3.
    destruct (GetP2SHSigOpCount_loop_spec no_accident L 0 (IsCoinStake tx) (tx_vin tx) 0 v2 S2 Hw) as [K3 _]; [by vm_compute|exact Ha|].
    by rewrite E3 in K3. }
  pose proof (stands_keeps _ _ _ S2 K3) as S3. destruct (_ >? _); [done|].
  run_step E f v4 E4. destruct (add_fee_inv tx L v3 v4 _ f S3 Hw Hi Ha E4) as [K4 ->]. pose proof (stands_keeps _ _ _ S3 K4) as S4.
  run_step E m v5 E5. destruct (value_of_inputs_inv tx L _ v4 v5 m S4 Hw Hi Ha E5) as [K5 ->]. pose proof (stands_keeps _ _ _ S4 K5) as S5.
  run_step E z v6 E6. apply lift_inv in E6 as [E6 ->]. apply as_int64_Ret in E6 as ->. run_step E checks v7 E7. apply eret_inv in E as [<- ->].
  assert (K : keeps v v5) by (do 3 (eapply keeps_trans; [|eassumption]); eapply keeps_trans; eassumption).
  destruct (on_tip_best v v5 T (proj1 (proj2 (proj2 (proj2 K))))) as (p & prev & Ep & Eprev & Eh & Bh).
  destruct (CheckInputs_judged params Hp Verify buf H mapBlockIndex v5 L tx state fScriptChecks connect_flags nScriptCheckThreads 0 p prev vo) as [K7 D];
    [exact S5|exact Hw|exact Eo|exact Hi|exact Ep|exact Eprev|exact Bh|].
  rewrite E7 in K7, D. cbn [fst snd decides] in K7, D. destruct D as [[Ok Sc] Ec]. rewrite Eh in Ok.
  cbn [t_nFees t_nValueIn t_nValueOut t_undo t_vSpends t_checks].
  split; [eapply keeps_trans; eassumption|]. do 5 (split; [done|]). intros F. apply Forall_app in F as [F1 F2]. split; [exact F1|]. intros _.
  split; [exact Ok|]. split; [|exact H2]. intros Fs. destruct nScriptCheckThreads; [|by apply Sc]. rewrite Fs in Ec. cbn [andb] in Ec. by rewrite <- Ec.
Qed.

(** One turn of the loop: what it reads keeps the view, then [UpdateCoins] moves it on. *)
Lemma connect_tx_inv i (tx : CTransaction) t t' state L (v v' : CCoinsViewCache V) : stands v L -> on_tip v -> connectable h tx ->
  run_tx i tx t state v = (Ret t', v') ->
  exists v0 u L', keeps v v0 /\ UpdateCoins tx h v0 = Some (v', u) /\ t_undo t' = (match i with O => t_undo t | S _ => t_undo t ++ [u] end) /\
    apply_tx h tx L = Some L' /\ stands v' L' /\ cache_best v' = cache_best v /\ t_nFees t' = t_nFees t + tx_fee L tx /\
    spends_value (t_vSpends t') = spends_value (t_vSpends t) + zerocoins (tx_vin tx) /\
    (Forall (passes Verify buf) (t_checks t') -> Forall (passes Verify buf) (t_checks t) /\ tx_rule L tx) /\
    (forall ts, NoDup ts -> Forall (fun i => prev_hash (prevout i) ∈ ts) (tx_vin tx) -> total ts L' - balance t' <= total ts L - balance t).
Proof using Hp VOk.
  intros St T Hcon E. pose proof Hcon as (_ & Wi & _). unfold connect_tx in E. destruct (_ >? _); [done|]. destruct (_ && _ && _); [done|].
  set (t0 := mk_totals _ _ _ _ _ _ _ _ _ _) in E. run_step E t1 v1 E1. run_step E vo v2 E2. apply lift_inv in E2 as [E2 ->].
  assert (Eo : GetValueOut tx = Ret vo) by (destruct (GetValueOut tx) as [|[]]; try done; by injection E2 as ->).
  destruct (GetValueOut_Ret tx vo Eo) as [Evo _].
  assert (Fo : Forall (fun o => 0 <= nValue o) (tx_vout tx)) by (apply GetValueOut_loop_spec in Eo as (F & _); [exact F|lia]).
  run_step E out v3 E3. apply lift_inv in E3 as [E3 ->]. apply as_int64_Ret in E3 as ->. run_step E u v4 E4. apply eret_inv in E as [<- ->].
  assert (Eu : UpdateCoins tx h v1 = Some (v4, u)) by (destruct (UpdateCoins tx h v1) as [[]|]; [by injection E4 as -> ->|done]). clear E4.
  assert (P : keeps v v1 /\ t_nFees t1 = t_nFees t + tx_fee L tx /\ t_nValueOut t1 = t_nValueOut t /\ t_undo t1 = t_undo t /\
    spends_value (t_vSpends t1) = spends_value (t_vSpends t) + zerocoins (tx_vin tx) /\
    t_nValueIn t1 - spends_value (t_vSpends t1) = t_nValueIn t - spends_value (t_vSpends t) + (if has_inputs tx then value_in L (tx_vin tx) else 0) /\
    (Forall (passes Verify buf) (t_checks t1) -> Forall (passes Verify buf) (t_checks t) /\ tx_rule L tx)).
  { destruct (has_inputs tx) eqn:Hi.
    - destruct (has_inputs_split _ Hi) as [Cb Zcf]. rewrite Cb, Zcf in E1. cbn [negb] in E1.
      destruct (connect_inputs_inv i tx t0 t1 state L v v1 vo St T Wi Hi Eo E1) as (K & A & B & C & D & F & G).
      subst t0. cbn [t_nFees t_nValueOut t_undo t_checks t_nValueIn t_vSpends] in *. rewrite A, B, C, D, F, (no_zerocoins _ Zcf). do 4 (split; [done|]). split; [lia|]. split; [lia|exact G].
    - assert (R : tx_rule L tx) by (intros X; congruence). assert (F0 : tx_fee L tx = 0) by (unfold tx_fee; by rewrite Hi).
      destruct (HasZerocoinSpendInputs tx) eqn:Zcf.
      + run_step E1 z v5 E4. apply lift_inv in E4 as [_ ->]. run_step E1 r v6 E5. apply lift_inv in E5 as [E5 ->]. apply eret_inv in E1 as [<- ->].
        destruct r as [n l]. apply zerocoin_inputs_inv in E5 as [-> E5]. subst t0. cbn [fst snd t_nFees t_nValueOut t_undo t_checks t_nValueIn t_vSpends] in *.
        split; [apply keeps_refl, St|]. split; [lia|]. do 2 (split; [done|]). split; [lia|]. split; [lia|done].
      + unfold has_inputs in Hi. rewrite Zcf in Hi. destruct (IsCoinBase tx); [|done]. cbn [negb] in E1. apply eret_inv in E1 as [<- ->].
        subst t0. cbn [t_nFees t_nValueOut t_undo t_checks t_nValueIn t_vSpends]. rewrite (no_zerocoins _ Zcf). split; [apply keeps_refl, St|]. split; [lia|]. do 2 (split; [done|]). split; [lia|]. split; [lia|done]. }
  destruct P as (K & A & B & C & Z & D & G). pose proof (stands_keeps _ _ _ St K) as S1.
  destruct (UpdateCoins_refines v1 L tx h v4 u S1 Hcon Fo Eu) as (L' & EL & S4 & Eb & M). exists v1, u, L'.
  cbn [t_undo t_nFees t_checks t_vSpends]. rewrite A, C. split; [exact K|]. split; [exact Eu|]. split; [done|]. split; [exact EL|]. split; [exact S4|].
  split; [rewrite Eb; apply K|]. do 2 (split; [done|]). split; [exact G|].
  intros ts Hn Hts. specialize (M ts Hn Hts). unfold balance. cbn [t_nValueOut t_nValueIn t_vSpends]. lia.
Qed.

Fixpoint block_fees (vtx : list CTransaction) (L : ledger) : Z :=
  match vtx with
  | [] => 0
  | tx :: vtx => tx_fee L tx + match apply_tx h tx L with Some L => block_fees vtx L | None => 0 end
  end.

(** The out points of a block are in [ts]. *)
Definition covers (ts : list uint256) (vtx : list CTransaction) : Prop :=
  Forall (fun tx : CTransaction => Forall (fun i => prev_hash (prevout i) ∈ ts) (tx_vin tx)) vtx.

(** The whole loop implements the transition of the block. *)
Lemma connect_all_inv state vtx : forall i t t' L (v v' : CCoinsViewCache V), stands v L -> on_tip v -> Forall (connectable h) vtx ->
  run_all i vtx t state v = (Ret t', v') ->
  exists L', apply_block h vtx L = Some L' /\ stands v' L' /\ cache_best v' = cache_best v /\ t_nFees t' = t_nFees t + block_fees vtx L /\
    (exists us, t_undo t' = t_undo t ++ us /\ connects h (i =? 0)%nat vtx v v' us) /\
    spends_value (t_vSpends t') = spends_value (t_vSpends t) + block_zerocoins vtx /\
    (Forall (passes Verify buf) (t_checks t') -> Forall (passes Verify buf) (t_checks t) /\ along tx_rule h vtx L) /\
    (forall ts, NoDup ts -> covers ts vtx -> total ts L' - balance t' <= total ts L - balance t).
Proof using Hp VOk.
  induction vtx as [|tx vtx IH]; intros i t t' L v v' St T Hc E; cbn [connect_all] in E.
  { apply eret_inv in E as [<- ->]. exists L. cbn. do 3 (split; [done|]). split; [lia|]. split; [exists []; by rewrite app_nil_r; split; [|constructor]|].
    split; [lia|]. split; [done|]. intros; lia. }
  apply Forall_cons in Hc as [Ht Hc]. run_step E t1 v1 E1.
  destruct (connect_tx_inv i tx t t1 state L v v1 St T Ht E1) as (v0 & u & L1 & K1 & U1 & T1 & A1 & S1 & B1 & F1 & Z1 & C1 & M1).
  destruct (IH (S i) t1 t' L1 v1 v' S1 (on_tip_best _ _ T B1) Hc E) as (L2 & A2 & S2 & B2 & F2 & (us & T2 & N2) & Z2 & C2 & M2). exists L2.
  cbn [apply_block block_fees along]. rewrite A1. cbn [mbind option_bind]. split; [exact A2|]. split; [exact S2|]. split; [congruence|].
  change (block_zerocoins (tx :: vtx)) with (zerocoins (tx_vin tx) + block_zerocoins vtx). split; [lia|].
  split.
  { exists (if (i =? 0)%nat then us else u :: us). split; [rewrite T2, T1; destruct i; [done|by rewrite <- app_assoc]|].
    apply (connects_cons h _ tx vtx v v0 v1); [intros _; apply K1|apply keeps_view, K1|apply K1|exact U1|exact N2]. }
  split; [lia|]. split; [intros F; destruct (C2 F) as [F' R]; by destruct (C1 F') as [? ?]|].
  intros ts Hn Hts. apply Forall_cons in Hts as [H1 H2]. specialize (M1 ts Hn H1). specialize (M2 ts Hn H2). lia.
Qed.
End runs.

(** Writes that do not touch the view. *)
Create HintDb aside.

Section accepted.
Context {V : Type} {CV : CCoinsView V} {VOk : CCoinsViewOk V}.
Context (params : CChainParams) (Hp : params_ok params) (HashQuark : bytes -> uint256) (Verify : CPubKey -> uint256 -> list byte -> bool) (buf : list byte).
Context {Zc : Zerocoin} (GetTime GetAdjustedTime : Z) (InitialBlockDownload SPORK_3 : bool)
        (mapLockedInputs : COutPoint -> option uint256) (IsBlockPayeeValid : CBlock -> Z -> bool).
Context (H : heap) (mapBlockIndex : gmap uint256 ptr) (chainActive : CChain).
Context (HashGenesisBlock : uint256) (fEnabled : bool) (checkpoints : MapCheckpoints).
Context (ContextualCheckCoinSpend : CoinSpend -> uint256 -> bool) (IsTransactionInChain : uint256 -> option Z)
        (SPORK_16 : Z) (fVerifyingBlocks : bool).
Context (fAddressIndex fSpentIndex fTxIndex fTimestampIndex nScriptCheckThreads : bool).
Context (UpdateZBTC2Supply ValidateAccumulatorCheckpoint : CBlock -> bool) (ShutdownRequested : bool).
Context (FindUndoPos : Z -> list CTxUndo -> option Z) (disk_ok : list (disk_op CoinSpend) -> disk_op CoinSpend -> bool).

Abbreviation state_of := (node V CoinSpend).

Lemma on_view_inv {A} (m : eff (CCoinsViewCache V) failure A) (s s' : state_of) a : on_view m s = (Ret a, s') ->
  m (n_view s) = (Ret a, n_view s') /\ n_pindex s' = n_pindex s.
Proof using. unfold on_view. destruct (m (n_view s)) as [r v]. intros [= -> <-]. by split. Qed.

(** The writes leave the view alone, and of the entry the name and the money; they only add
    to the stores. *)
Definition entry_key (b : CBlockIndex) : uint256 * Z * Z := (blockHash b, nMint b, nMoneySupply b).
Definition aside {A} (m : eff state_of failure A) : Prop :=
  forall v hash d, triple (fun s => n_view s = v /\ entry_key (n_pindex s) = hash /\ d ⊆ n_disk s) m
    (fun _ s => n_view s = v /\ entry_key (n_pindex s) = hash /\ d ⊆ n_disk s) (fun _ _ => True).

Lemma aside_bind {A B} (m : eff state_of failure A) (k : A -> eff state_of failure B) : aside m -> (forall a, aside (k a)) -> aside (ebind m k).
Proof using. intros Hm Hk v hash d. eapply triple_bind; [apply Hm|]. intros a. apply Hk. Qed.
Lemma aside_ret {A} (a : A) : aside (eret a).
Proof using. intros v hash d. by apply triple_ret. Qed.
Lemma aside_lift {A} (r : result failure A) : aside (lift r).
Proof using. intros v hash d. by apply triple_lift. Qed.
Lemma aside_throw {A} e : aside (throw e : eff state_of failure A).
Proof using. intros v hash d. by apply triple_throw. Qed.
Lemma aside_when b (m : eff state_of failure unit) : aside m -> aside (when b m).
Proof using. destruct b; [done|]. intros _. apply aside_ret. Qed.
Lemma aside_write op st : aside (write disk_ok op st).
Proof using.
  intros v hash d s (A & B & C). unfold write. destruct (disk_ok _ _); [|done]. split; [exact A|]. split; [exact B|].
  cbn. intros x Hx. apply elem_of_app. left. by apply C.
Qed.
Lemma aside_pindex : aside (pindex).
Proof using. intros v hash d. by apply triple_reads. Qed.
Lemma aside_set_pindex f : (forall b, entry_key (f b) = entry_key b) -> aside (set_pindex f).
Proof using. intros Hf v hash d s [E1 E2]. cbn. by rewrite Hf. Qed.
#[local] Hint Resolve aside_ret aside_lift aside_throw aside_write aside_pindex : aside.

Lemma write_undo_aside undo st : aside (write_undo H FindUndoPos disk_ok undo st).
Proof using.
  unfold write_undo. apply aside_bind; [auto with aside|intros b; cbv beta zeta]. apply aside_bind; [auto with aside|intros valid].
  apply aside_when, aside_bind.
  - apply aside_when. destruct (FindUndoPos _ _) as [pos|]; [|auto with aside].
    apply aside_bind; [auto with aside|intros prev]. apply aside_bind; [auto with aside|intros []]. by apply aside_set_pindex.
  - intros []. apply aside_bind; [|intros []; by intros v hash d s Hs].
    apply aside_set_pindex. intros b'. unfold RaiseValidity. destruct (negb _); [done|]. destruct (negb _); [done|]. by destruct (_ <? _).
Qed.

Lemma write_spends_aside l st : aside (write_spends disk_ok l st).
Proof using. induction l as [|[s t] l IH]; cbn [write_spends]; [apply aside_ret|]. apply aside_bind; [auto with aside|intros []; exact IH]. Qed.

Lemma write_indexes_aside t b st : aside (write_indexes fAddressIndex fSpentIndex fTxIndex fTimestampIndex disk_ok t b st).
Proof using.
  unfold write_indexes. apply aside_bind; [|intros []].
  { intros v hash d s (A & B & C). cbn. split; [exact A|]. split; [exact B|]. intros x Hx. apply elem_of_app. left. by apply C. }
  do 4 (apply aside_bind; [apply aside_when; auto using aside_bind with aside|intros []]). apply aside_when. auto with aside.
Qed.

Lemma aside_inv {A} (m : eff state_of failure A) s a s' : aside m -> m s = (Ret a, s') ->
  n_view s' = n_view s /\ entry_key (n_pindex s') = entry_key (n_pindex s) /\ n_disk s ⊆ n_disk s'.
Proof using. intros Hm E. specialize (Hm _ _ _ s (conj eq_refl (conj eq_refl (reflexivity _)))). by rewrite E in Hm. Qed.

Lemma check_overwrite_inv vtx st L : forall (v v' : CCoinsViewCache V), stands v L -> Forall (fun tx : CTransaction => wf 8 (tx_hash tx)) vtx ->
  check_overwrite vtx st v = (Ret tt, v') -> keeps v v' /\ Forall (fun tx : CTransaction => L (tx_hash tx) = None) vtx.
Proof using VOk.
  induction vtx as [|tx vtx IH]; intros v v' St Hw E; cbn [check_overwrite] in E.
  { apply eret_inv in E as [_ ->]. split; [apply keeps_refl, St|constructor]. }
  apply Forall_cons in Hw as [Ht Hw]. run_step E r v1 E1. apply reads_inv in E1.
  destruct (AccessCoins_spec v _ (proj1 St) Ht) as (v1' & r' & E1' & K & Er & _). rewrite E1' in E1. injection E1 as -> ->.
  destruct (match r with Some c => negb (IsPruned c) | None => false end) eqn:P; [done|].
  destruct (IH v1 v' (stands_keeps _ _ _ St K) Hw E) as [K2 F]. split; [by eapply keeps_trans|]. constructor; [|exact F].
  rewrite <- (proj2 St), <- Er. destruct r as [c|]; [|done]. apply negb_false_iff in P. cbn. by apply unspent_None.
Qed.

Lemma Wait_passes checks : Wait Verify buf checks = Ret true -> Forall (passes Verify buf) checks.
Proof using.
  induction checks as [|c checks IH]; cbn [Wait]; [constructor|]. intros E. apply result_bind_Ret in E as (ok & E1 & E).
  apply result_bind_Ret in E as (rest & E2 & E). injection E as E. apply andb_true_iff in E as [-> ->]. constructor; [exact E1|by apply IH].
Qed.

Abbreviation Connect := (ConnectBlock params HashQuark Verify buf GetTime GetAdjustedTime
  InitialBlockDownload SPORK_3 mapLockedInputs IsBlockPayeeValid H mapBlockIndex chainActive HashGenesisBlock fEnabled checkpoints
  ContextualCheckCoinSpend IsTransactionInChain SPORK_16 fVerifyingBlocks fAddressIndex fSpentIndex fTxIndex
  fTimestampIndex nScriptCheckThreads UpdateZBTC2Supply ValidateAccumulatorCheckpoint ShutdownRequested FindUndoPos disk_ok).

(** The entry of the block is the child of the entry [prev], which the index knows. *)
Record child_of (b prev : CBlockIndex) : Prop := {
  child_ptr : exists q, pprev b = Some q /\ H !! q = Some prev /\ mapBlockIndex !! blockHash prev = Some q;
  child_height : nHeight prev + 1 = nHeight b /\ 0 <= nHeight prev < 2 ^ 31 - 1;
  child_hash : wf 8 (blockHash b) /\ blockHash b <> zero_hash }.

Definition scripts_checked (b : CBlockIndex) : bool :=
  match GetTotalBlocksEstimate fEnabled checkpoints with Some n => nHeight b >=? n | None => false end.

(** The checks that follow the transactions. *)
Lemma check_connected_inv (block : CBlock) b t st prev (s s' : state_of) : child_of b prev ->
  check_connected params Verify buf H chainActive UpdateZBTC2Supply ValidateAccumulatorCheckpoint ShutdownRequested block b t st s = (Ret tt, s') ->
  let mint := t_nValueOut t - t_nValueIn t in
  n_view s' = n_view s /\ n_pindex s' = with_supply (n_pindex s) mint (nMoneySupply prev + mint) /\ Forall (passes Verify buf) (t_checks t) /\
  exists limit, expected_mint params H chainActive block (nHeight b) (t_nFees t) = Ret limit /\ mint <= limit.
Proof using.
  intros [(q & Eq & Eprev & _) _ _] E mint. unfold check_connected in E. destruct (negb _); [done|].
  run_step E m s1 E1. destruct m as [m supply]. apply lift_inv in E1 as [E1 ->]. unfold money_supply in E1. rewrite Eq in E1.
  unfold deref in E1. cbn [mbind option_bind] in E1. rewrite Eprev in E1. cbn [of_ptr result_bind] in E1.
  apply result_bind_Ret in E1 as (x & X1 & E1). apply as_int64_Ret in X1 as ->. apply result_bind_Ret in E1 as (x & X1 & E1). apply as_int64_Ret in X1 as ->.
  apply result_bind_Ret in E1 as (x & X1 & E1). apply as_int64_Ret in X1 as ->. injection E1 as Em Es.
  run_step E u s2 E2. run_step E limit s3 E3. apply lift_inv in E3 as [E3 ->]. destruct (Z.gtb_spec m limit); [done|].
  destruct (negb _); [by destruct (negb _)|]. run_step E ok s4 E4. apply lift_inv in E4 as [E4 ->]. destruct ok; [|done]. cbn [negb] in E. apply eret_inv in E as [_ ->].
  assert (E2' : s2 = mk_node (n_check s) (n_view s) (with_supply (n_pindex s) m supply) (n_dirty s) (n_disk s)) by (by injection E2 as _ <-). subst s2.
  assert (Hm : m = mint) by (unfold mint; lia). split; [done|]. split; [cbn; rewrite <- Es, Hm; f_equal; unfold mint; lia|].
  split; [by apply Wait_passes|]. exists limit. split; [exact E3|lia].
Qed.

Lemma write_undo_logs undo st prev (s s' : state_of) : (exists q, pprev (n_pindex s) = Some q /\ H !! q = Some prev) ->
  CDiskBlockPos_IsNull (GetUndoPos (n_pindex s)) = true -> write_undo H FindUndoPos disk_ok undo st s = (Ret tt, s') ->
  exists pos, WriteUndo pos undo (blockHash prev) ∈ n_disk s'.
Proof using.
  intros (q & Eq & Eprev) Nu E. unfold write_undo in E. run_step E b s1 E1. unfold pindex in E1. apply reads_inv in E1. injection E1 as <- <-.
  run_step E ok s1 E1. apply lift_inv in E1 as [_ ->]. rewrite Nu in E. cbn [orb when] in E. run_step E u s1 E1.
  destruct (FindUndoPos _ _) as [pos|]; [|done]. run_step E1 pv s2 E2. apply lift_inv in E2 as [E2 ->].
  rewrite Eq in E2. unfold deref in E2. cbn [mbind option_bind] in E2. rewrite Eprev in E2. injection E2 as <-.
  run_step E1 u2 s2 E2. unfold write in E2. destruct (disk_ok _ _); [|done]. injection E2 as _ <-.
  unfold set_pindex, update in E1. injection E1 as _ <-. unfold ebind, set_pindex, update in E. injection E as <-. cbn [n_disk].
  exists pos. apply elem_of_app. right. by left.
Qed.

Lemma finish_inv t st prev (s s' : state_of) L : stands (n_view s) L -> wf 8 (blockHash (n_pindex s)) -> blockHash (n_pindex s) <> zero_hash ->
  finish H fAddressIndex fSpentIndex fTxIndex fTimestampIndex FindUndoPos disk_ok t st s = (Ret tt, s') ->
  stands (n_view s') L /\ cache_best (n_view s') = blockHash (n_pindex s) /\ entry_key (n_pindex s') = entry_key (n_pindex s) /\
  ((exists q, pprev (n_pindex s) = Some q /\ H !! q = Some prev) -> CDiskBlockPos_IsNull (GetUndoPos (n_pindex s)) = true ->
   exists pos, WriteUndo pos (t_undo t) (blockHash prev) ∈ n_disk s').
Proof using VOk.
  intros St Wb Nb E. unfold finish in E.
  run_step E u6 s6 E6. destruct (aside_inv _ _ _ _ (write_undo_aside _ _) E6) as (V6 & P6 & D6).
  run_step E u7 s7 E7. destruct (aside_inv _ _ _ _ (write_spends_aside _ _) E7) as (V7 & P7 & D7).
  run_step E b8 s8 E8. unfold pindex in E8. apply reads_inv in E8. injection E8 as <- <-.
  run_step E u9 s9 E9. destruct (aside_inv _ _ _ _ (write_indexes_aside _ _ _) E9) as (V9 & P9 & D9).
  assert (D10 : n_disk s' = n_disk s9) by (unfold on_view in E; by injection E as <-).
  apply on_view_inv in E as [E P10]. injection E as E. rewrite <- E, P10.
  assert (Bk : blockHash (n_pindex s7) = blockHash (n_pindex s)) by (unfold entry_key in *; congruence). rewrite Bk.
  assert (S9 : stands (n_view s9) L) by (by rewrite V9, V7, V6).
  destruct (SetBestBlock_law (n_view s9) _ (proj1 S9) Wb Nb) as (G1 & G2 & G3).
  split; [split; [exact G1|intros x; rewrite G2; apply S9]|]. split; [exact G3|]. split; [congruence|].
  intros Hq Nu. destruct u6. destruct (write_undo_logs _ _ _ _ _ Hq Nu E6) as [pos Hpos]. exists pos. rewrite D10. by apply D9, D7.
Qed.

Lemma ConnectBlock_run (block : CBlock) st fJustCheck fAlreadyChecked prev (s s' : state_of) :
  let b := n_pindex s in let h := nHeight b in let L := cache_view (n_view s) in
  cache_ok (n_view s) -> Forall (connectable h) (vtx block) -> child_of b prev -> CBlockHeader_GetHash HashQuark block <> HashGenesisBlock ->
  Connect block st fJustCheck fAlreadyChecked s = (Ret tt, s') ->
  exists L' limit mint,
    Forall (fun tx : CTransaction => L (tx_hash tx) = None) (vtx block) /\
    apply_block h (vtx block) L = Some L' /\ along (tx_rule params Verify buf h (scripts_checked b)) h (vtx block) L /\
    cache_best (n_view s) = blockHash prev /\ stands (n_view s') L' /\ cache_best (n_view s') = (if fJustCheck then blockHash prev else blockHash b) /\
    CBlock_IsProofOfStake block = (nLastPOWBlock params <? h) /\
    entry_key (n_pindex s') = (blockHash b, mint, nMoneySupply prev + mint) /\
    expected_mint params H chainActive block h (block_fees h (vtx block) L) = Ret limit /\ mint <= limit /\
    (forall ts, NoDup ts -> covers ts (vtx block) ->
      total ts L' <= total ts L + mint + block_zerocoins (vtx block)) /\
    exists v3 v4 us, keeps (n_view s) v3 /\ connects h true (vtx block) v3 v4 us /\ agree v4 (n_view s') /\
      (fJustCheck = false -> CDiskBlockPos_IsNull (GetUndoPos b) = true -> exists pos, WriteUndo pos us (blockHash prev) ∈ n_disk s').
Proof using Hp VOk.
  intros b h L Hc Hcon Hch Hgen E. pose proof Hch as [(q & Eq & Eprev & Emap) (Eh & Bh) (Wb & Nb)]. unfold ConnectBlock in E.
  run_step E u0 s0 E0. assert (V0 : n_view s0 = n_view s /\ n_pindex s0 = n_pindex s).
  { destruct fAlreadyChecked; [by apply eret_inv in E0 as [_ ->]|]. unfold on_check in E0. destruct (CheckBlock _ _ _ _ _ _ _ _ _ _ _ _ _ _ _ _ _). by injection E0 as _ <-. }
  clear E0. destruct V0 as [V0 P0]. run_step E b' s1 E1. unfold pindex in E1. apply reads_inv in E1. assert (b' = b /\ s1 = s0) as [-> ->] by (rewrite P0 in E1; by injection E1 as <- <-). clear E1.
  run_step E hp s1 E1. apply lift_inv in E1 as [E1 ->]. rewrite Eq in E1. unfold deref in E1. cbn [mbind option_bind] in E1. rewrite Eprev in E1. injection E1 as <-.
  run_step E hb s1 E1. apply on_view_inv in E1 as [E1 P1]. apply reads_inv in E1. rewrite V0 in E1.
  destruct (GetBestBlock_keeps (n_view s) Hc) as [K1 B1]. rewrite E1 in K1, B1. cbn [fst snd] in K1, B1. subst hb.
  destruct (bool_decide_reflect (blockHash prev = cache_best (n_view s))) as [Ebest|]; [|done]. cbn [negb] in E.
  rewrite bool_decide_false in E by exact Hgen. destruct (_ && _) eqn:Early; [done|]. destruct (_ && CBlock_IsProofOfWork block) eqn:Late; [done|].
  run_step E est s2 E2. apply lift_inv in E2 as [E2 ->]. run_step E u3 s3 E3. apply on_view_inv in E3 as [E3 P3].
  assert (St : stands (n_view s) L) by (by split). pose proof (stands_keeps _ _ _ St K1) as S1.
  assert (Wt : Forall (fun tx : CTransaction => wf 8 (tx_hash tx)) (vtx block)) by (eapply Forall_impl; [exact Hcon|by intros tx []]).
  destruct u3. destruct (check_overwrite_inv (vtx block) st L _ _ S1 Wt E3) as [K3 Fresh]. pose proof (stands_keeps _ _ _ S1 K3) as S3.
  assert (K : keeps (n_view s) (n_view s3)) by (by eapply keeps_trans).
  run_step E t s4 E4. apply on_view_inv in E4 as [E4 P4].
  assert (T : on_tip H mapBlockIndex h (n_view s3)).
  { eapply on_tip_best; [|apply K]. exists q, prev. rewrite <- Ebest. split; [exact Emap|]. split; [exact Eprev|]. by split. }
  unfold connect_transactions in E4.
  destruct (connect_all_inv params Hp Verify buf H mapBlockIndex _ _ _ _ _ _ _ _ h (b_nTime block) _ st (vtx block) 0 _ t L _ _ S3 T Hcon E4)
    as (L' & A & S4 & B4 & F4 & (us & U4 & N4) & Z4 & C4 & M4).
  run_step E u5 s5 E5. destruct u5. destruct (check_connected_inv block b t st prev s4 s5 Hch E5) as (V5 & P5 & C5 & limit & El & Ml).
  exists L', limit, (t_nValueOut t - t_nValueIn t). destruct (C4 C5) as [_ R].
  assert (Es : (nHeight b >=? est) = scripts_checked b) by (unfold scripts_checked; destruct (GetTotalBlocksEstimate _ _); [by injection E2 as ->|done]).
  rewrite Es in R. cbn [first_totals t_nFees] in F4. rewrite Z.add_0_l in F4. rewrite F4 in El.
  rewrite P4, P3, P1, P0 in P5. fold b in P5.
  do 3 (split; [assumption|]). split; [by symmetry|].
  assert (Tail : stands (n_view s') L' /\ cache_best (n_view s') = (if fJustCheck then blockHash prev else blockHash b) /\
    entry_key (n_pindex s') = entry_key (n_pindex s5) /\
    (fJustCheck = false -> CDiskBlockPos_IsNull (GetUndoPos b) = true -> exists pos, WriteUndo pos (t_undo t) (blockHash prev) ∈ n_disk s')).
  { assert (Bp : cache_best (n_view s4) = blockHash prev) by (rewrite B4, Ebest; apply K).
    destruct fJustCheck; [apply eret_inv in E as [_ ->]; rewrite V5; by split; [exact S4|split; [|split]]|].
    destruct (finish_inv t st prev s5 s' L') as (T1 & T2 & T3 & T4); [by rewrite V5|by rewrite P5|by rewrite P5|exact E|].
    split; [exact T1|]. split; [rewrite T2, P5; done|]. split; [exact T3|]. intros _ Nu. apply T4; [|by rewrite P5]. exists q. by rewrite P5. }
  destruct Tail as (T1 & T2 & T3 & T4). split; [exact T1|]. split; [exact T2|]. split.
  { unfold CBlock_IsProofOfWork in Late. rewrite Z.gtb_ltb in Late. fold h in Early, Late. destruct (CBlock_IsProofOfStake block).
    - rewrite andb_true_r in Early. apply Z.leb_gt in Early. symmetry. by apply Z.ltb_lt.
    - by rewrite andb_true_r in Late. }
  split; [by rewrite T3, P5|]. split; [exact El|]. split; [exact Ml|]. split.
  2: { exists (n_view s3), (n_view s4), us. cbn [first_totals t_undo app] in U4. rewrite U4 in T4. split; [exact K|]. split; [exact N4|].
       split; [|exact T4]. intros x. by rewrite (proj2 T1), (proj2 S4). }
  intros ts Hn Hts. specialize (M4 ts Hn Hts). unfold balance in M4.
  cbn [first_totals t_nValueOut t_nValueIn t_vSpends spends_value foldr] in *. rewrite Z4 in M4. lia.
Qed.

(** C5: a block that [ConnectBlock] accepts follows the rules of the ledger, and makes of it
    exactly what the block says.  No transaction overwrites one that is not spent.  Each
    transaction that spends outputs is checked at the ledger that the transactions before it
    left: every input names an unspent output of the right age, no input is spent twice, the
    inputs are worth at least the outputs (but for a coinstake), and above the last
    checkpoint every script accepts.  The view then stands for the ledger after the block,
    its best block is the block, unless only a check was asked for, and the block is of the
    kind its height asks for. *)
Theorem ConnectBlock_follows_rules (block : CBlock) st fJustCheck fAlreadyChecked prev (s s' : state_of)
    (Hv : cache_ok (n_view s)) (Hcon : Forall (connectable (nHeight (n_pindex s))) (vtx block)) (Hch : child_of (n_pindex s) prev)
    (Hgen : CBlockHeader_GetHash HashQuark block <> HashGenesisBlock)
    (Hrun : Connect block st fJustCheck fAlreadyChecked s = (Ret tt, s')) :
  let b := n_pindex s in let h := nHeight b in let L := cache_view (n_view s) in
  Forall (fun tx : CTransaction => L (tx_hash tx) = None) (vtx block) /\
  along (tx_rule params Verify buf h (scripts_checked b)) h (vtx block) L /\
  cache_best (n_view s) = blockHash prev /\
  CBlock_IsProofOfStake block = (nLastPOWBlock params <? h) /\
  exists L', apply_block h (vtx block) L = Some L' /\ cache_ok (n_view s') /\ (forall t, cache_view (n_view s') t = L' t) /\
    cache_best (n_view s') = (if fJustCheck then blockHash prev else blockHash b).
Proof using Hp.
  intros b h L. destruct (ConnectBlock_run block st fJustCheck fAlreadyChecked prev s s' Hv Hcon Hch Hgen Hrun)
    as (L' & limit & mint & Fr & A & R & Bp & [S1 S2] & B & K & _). do 4 (split; [assumption|]). by exists L'.
Qed.

(** C4: a block that [ConnectBlock] accepts creates no more money than it may.  However the
    transactions are counted, the unspent outputs are worth at most what they were, plus the
    zerocoins spent, plus the reward of the height, plus, for a proof-of-work block, the fees
    of its transactions: those are what the inputs are worth beyond the outputs, and they
    have been collected by the block as well.  The entry of the block records the difference
    of outputs and inputs, and the supply it leads to. *)
Theorem ConnectBlock_money (block : CBlock) st fJustCheck fAlreadyChecked prev (s s' : state_of) (ts : list uint256)
    (Hv : cache_ok (n_view s)) (Hcon : Forall (connectable (nHeight (n_pindex s))) (vtx block)) (Hch : child_of (n_pindex s) prev)
    (Hgen : CBlockHeader_GetHash HashQuark block <> HashGenesisBlock)
    (Hrun : Connect block st fJustCheck fAlreadyChecked s = (Ret tt, s'))
    (Hts : NoDup ts) (Hcover : covers ts (vtx block)) :
  let h := nHeight (n_pindex s) in let L := cache_view (n_view s) in let b' := n_pindex s' in
  exists reward, GetBlockValue params H chainActive h = Ret reward /\
    nMint b' <= reward + (if CBlock_IsProofOfWork block then block_fees h (vtx block) L else 0) /\
    nMoneySupply b' = nMoneySupply prev + nMint b' /\
    total ts (cache_view (n_view s')) <= total ts L + nMint b' + block_zerocoins (vtx block).
Proof using Hp VOk.
  intros h L b'. destruct (ConnectBlock_run block st fJustCheck fAlreadyChecked prev s s' Hv Hcon Hch Hgen Hrun)
    as (L' & limit & mint & _ & _ & _ & _ & [_ S] & _ & _ & K & El & Ml & M & _).
  unfold expected_mint in El. apply result_bind_Ret in El as (r & Er & El). exists r.
  assert (E : GetBlockValue params H chainActive h = Ret r) by (destruct (GetBlockValue _ _ _ _) as [|[]]; try done; by injection Er as ->).
  assert (Ek : nMint b' = mint /\ nMoneySupply b' = nMoneySupply prev + mint) by (unfold entry_key in K; injection K as _ K1 K2; by split).
  destruct Ek as [-> ->]. split; [exact E|]. split; [|split; [done|]].
  - destruct (CBlock_IsProofOfWork block); [apply as_int64_Ret in El as ->; exact Ml|injection El as ->; lia].
  - rewrite (total_ext ts (cache_view (n_view s')) L') by exact S. by apply M.
Qed.

(** C3: [DisconnectBlock] undoes [ConnectBlock].  When a block is connected, the undo data
    that is written for it takes the set of unspent outputs and its best block back to what
    they were, and reports that the set was clean: for every view below the cache, every
    block whose first transaction has no inputs and whose transactions have different
    hashes, unless the undo data comes from a coinstake.  The address index is off when the
    block is disconnected. *)
Theorem ConnectBlock_undone (block : CBlock) st fAlreadyChecked prev (s s' : state_of) (Erase : CTransaction -> bool)
    (Hv : cache_ok (n_view s)) (Hcon : Forall (connectable (nHeight (n_pindex s))) (vtx block)) (Hch : child_of (n_pindex s) prev)
    (Hgen : CBlockHeader_GetHash HashQuark block <> HashGenesisBlock)
    (Hpos : heights_positive (n_view s)) (Hwf : wf 8 (blockHash prev) /\ blockHash prev <> zero_hash)
    (Hfirst : exists (cb : CTransaction) rest, vtx block = cb :: rest /\ has_inputs cb = false) (Hdup : NoDup (map tx_hash (vtx block)))
    (Herase : Forall (fun tx : CTransaction => ContainsZerocoins tx = true -> Erase tx = true) (vtx block))
    (Hundo : CDiskBlockPos_IsNull (GetUndoPos (n_pindex s)) = true)
    (Hrun : Connect block st false fAlreadyChecked s = (Ret tt, s')) :
  let b := n_pindex s in
  exists pos us, WriteUndo pos us (blockHash prev) ∈ n_disk s' /\
    (Forall (fun u => Forall (fun u => u_fCoinStake u = false) (vprevout u)) us ->
     exists w ops, DisconnectBlock false fSpentIndex (nHeight b) Erase true (blockHash b) (blockHash prev) (vtx block) us (n_view s') = Ret (w, true, ops) /\
       cache_ok w /\ (forall t, cache_view w t = cache_view (n_view s) t) /\ cache_best w = cache_best (n_view s)).
Proof using Hp.
  intros b. destruct (ConnectBlock_run block st false fAlreadyChecked prev s s' Hv Hcon Hch Hgen Hrun)
    as (L' & limit & mint & Fr & _ & _ & Bp & [S1 _] & B & _ & _ & _ & _ & _ & v3 & v4 & us & K & N & A & W).
  destruct (W eq_refl Hundo) as [pos Hw]. exists pos, us. split; [exact Hw|]. intros Stk.
  pose proof (keeps_view _ _ K) as Kv. destruct (child_height _ _ Hch) as [Eh Bh].
  destruct (disconnect_connects v3 v4 (n_view s') (blockHash b) (blockHash prev) (vtx block) (nHeight b) us fSpentIndex Erase) as (w & ops & D & Cw & Aw & Bw);
    try done; [apply K| |unfold b; lia|apply Hwf|apply Hwf| |].
  - intros t c Et. rewrite Kv in Et. by apply (Hpos t).
  - eapply Forall_impl; [exact Fr|]. intros tx Et. cbn. by rewrite Kv.
  - exists w, ops. split; [exact D|]. split; [exact Cw|]. split; [intros t; by rewrite Aw, Kv|]. by rewrite Bw, Bp.
Qed.
End accepted.

(** ** A block of two transactions *)

(** A coinbase that takes the reward and twice the fee of the other transaction. *)
#[local] Existing Instance toy_zerocoin.

Definition greedy_coinbase : CTransaction :=
  mk_CTransaction (base_uint_u64 8 3) (mk_CMutableTransaction 1 [CTxIn_new] [CTxOut_make (Params.COIN + 2) [Byte.x51]] 0).
Definition greedy_block : CBlock :=
  mk_CBlock (mk_CBlockHeader 4 (base_uint_u64 8 10) (base_uint_zero 8) 1000 0x207fffff 1 (base_uint_zero 8)) [greedy_coinbase; sample_spend] [] [] [].
Definition greedy_entry : CBlockIndex :=
  mk_CBlockIndex (base_uint_u64 8 11) (Some 1%positive) None None 7 0 0 0 (base_uint_zero 8) 0 0 0 0 0 (base_uint_zero 8) 0 0
    (mk_header 4 (base_uint_zero 8) 0 0 0 (base_uint_zero 8)) 0.
Definition greedy_node : node NoCoins (@CoinSpend toy_zerocoin) := mk_node (mk_check_state [] ∅) sample_view greedy_entry false [].

(** [ConnectBlock] without zerocoins, with one script thread, no checkpoints and all indexes. *)
Definition connect_sample (block : CBlock) : eff (node NoCoins (@CoinSpend toy_zerocoin)) failure unit :=
  ConnectBlock CMainParams (fun _ => base_uint_zero 8) (fun _ _ _ => false) sample_buf 0 0 true false (fun _ => None) (fun _ _ => true) {[ 1%positive := sample_entry 6 ]} {[ base_uint_u64 8 10 := 1%positive ]} []
    (base_uint_zero 8) false [] (fun _ _ => false) (fun _ => None) 0 false true true true true true
    (fun _ => true) (fun _ => true) false (fun _ _ => Some 0) (fun _ _ => true) block CValidationState_new false true.

Lemma greedy_child : child_of {[ 1%positive := sample_entry 6 ]} {[ base_uint_u64 8 10 := 1%positive ]} greedy_entry (sample_entry 6).
Proof.
  pose proof sample_hashes_wf as W. repeat apply Forall_cons in W as [? W].
  split; [exists 1%positive; by split; [|split; vm_compute]|cbn; lia|by split].
Qed.

Lemma greedy_connectable : Forall (connectable 7) (vtx greedy_block).
Proof.
  assert (W : Forall (wf 8) (base_uint_zero 8 :: map (base_uint_u64 8) [1; 2; 3])) by (by repeat constructor).
  repeat apply Forall_cons in W as [? W].
  constructor; [|constructor; [|constructor]]; (split; [assumption|]; split; [constructor; [assumption|constructor]|]).
  - assert (E : FromTx greedy_coinbase 7 = mk_CCoins true false [CTxOut_make (Params.COIN + 2) [Byte.x51]] 7 1) by (by vm_compute).
    rewrite E. apply one_output_ok; unfold Params.COIN; lia.
  - apply (sample_output_ok sample_spend false 4); [by vm_compute|lia].
Qed.

Lemma greedy_not_genesis : CBlockHeader_GetHash (fun _ => base_uint_zero 8) greedy_block <> base_uint_zero 8.
Proof. apply (bool_decide_eq_false_1 _). vm_compute. reflexivity. Qed.

Lemma ConnectBlock_follows_rules_witness :
  match connect_sample greedy_block greedy_node with
  | (Ret _, s') => exists L', apply_block 7 (vtx greedy_block) (cache_view sample_view) = Some L' /\ (forall t, cache_view (n_view s') t = L' t)
  | (Err _, _) => False
  end.
Proof.
  assert (X : match connect_sample greedy_block greedy_node with (Ret _, _) => True | (Err _, _) => False end) by (vm_compute; exact I).
  destruct (connect_sample greedy_block greedy_node) as [[[]|e] s'] eqn:E; [clear X|destruct X].
  unfold connect_sample in E. assert (Hp : params_ok CMainParams) by (pose proof networks_ok as N; by apply Forall_cons in N as [N _]).
  destruct (ConnectBlock_follows_rules CMainParams Hp _ _ _ _ _ _ _ _ _ _ _ _ _ _ _ _ _ _ _ _ _ _ _ _ _ _ _ _ _
    greedy_block CValidationState_new false true (sample_entry 6) greedy_node s' sample_view_ok greedy_connectable greedy_child greedy_not_genesis E)
    as (_ & _ & _ & _ & L' & A & _ & S & _).
  exists L'. split; [exact A|exact S].
Defined.

Lemma ConnectBlock_undone_witness :
  match connect_sample greedy_block greedy_node with
  | (Ret _, s') => exists w ops, DisconnectBlock false true 7 (fun _ => false) true (base_uint_u64 8 11) (base_uint_u64 8 10) (vtx greedy_block)
      [mk_CTxUndo [mk_CTxInUndo (CTxOut_make 5 [Byte.x51]) false false 5 1]] (n_view s') = Ret (w, true, ops) /\
      (forall t, cache_view w t = cache_view sample_view t)
  | (Err _, _) => False
  end.
Proof.
  assert (X : match connect_sample greedy_block greedy_node with
    | (Ret _, s) => match n_disk s with WriteUndo _ us _ :: ops => us = [mk_CTxUndo [mk_CTxInUndo (CTxOut_make 5 [Byte.x51]) false false 5 1]] /\
        forallb (fun op => match op with WriteUndo _ _ _ => false | _ => true end) ops = true | _ => False end
    | (Err _, _) => False end) by (vm_compute; split; reflexivity).
  destruct (connect_sample greedy_block greedy_node) as [[[]|e] s'] eqn:E; [|destruct X].
  unfold connect_sample in E. assert (Hp : params_ok CMainParams) by (pose proof networks_ok as N; by apply Forall_cons in N as [N _]).
  pose proof sample_hashes_wf as W. repeat apply Forall_cons in W as [? W].
  assert (Hpos : heights_positive (n_view greedy_node)).
  { intros t c Et. unfold cache_view in Et. destruct (cacheCoins (n_view greedy_node) !! t) as [e|] eqn:El; [|discriminate Et].
    change (cacheCoins (n_view greedy_node)) with (cacheCoins sample_view) in El. unfold sample_view in El. cbn [cacheCoins] in El.
    apply lookup_singleton_Some in El as [_ <-]. injection Et as <-. reflexivity. }
  assert (Hfirst : exists (cb : CTransaction) rest, vtx greedy_block = cb :: rest /\ has_inputs cb = false)
    by (exists greedy_coinbase, [sample_spend]; split; [reflexivity|vm_compute; reflexivity]).
  assert (Hdup : NoDup (map tx_hash (vtx greedy_block))) by (apply (bool_decide_unpack (NoDup (map tx_hash (vtx greedy_block)))); vm_compute; exact I).
  assert (Herase : Forall (fun tx : CTransaction => ContainsZerocoins tx = true -> false = true) (vtx greedy_block)).
  { constructor; [by vm_compute|constructor; [by vm_compute|constructor]]. }
  assert (Hwf : wf 8 (blockHash (sample_entry 6)) /\ blockHash (sample_entry 6) <> zero_hash) by (by split).
  destruct (ConnectBlock_undone CMainParams Hp _ _ _ _ _ _ _ _ _ _ _ _ _ _ _ _ _ _ _ _ _ _ _ _ _ _ _ _ _
    greedy_block CValidationState_new true (sample_entry 6) greedy_node s' (fun _ => false) sample_view_ok greedy_connectable greedy_child greedy_not_genesis Hpos
    Hwf Hfirst Hdup Herase eq_refl E) as (pos & us & Hin & D).
  assert (Eu : us = [mk_CTxUndo [mk_CTxInUndo (CTxOut_make 5 [Byte.x51]) false false 5 1]]).
  { destruct (n_disk s') as [|[] ops]; try destruct X as [X Y]; try destruct X.
    apply elem_of_cons in Hin as [Hin|Hin]; [congruence|]. rewrite forallb_forall in Y. apply list_elem_of_In in Hin. by specialize (Y _ Hin). }
  destruct D as (w & ops & D & _ & A & _); [rewrite Eu; by repeat constructor|]. rewrite Eu in D. exists w, ops. split; [exact D|exact A].
Defined.

(** The coinbase is accepted, and the money grows by the reward and the fee. *)
Lemma ConnectBlock_money_witness :
  match connect_sample greedy_block greedy_node with
  | (Ret _, s') => nMint (n_pindex s') = Params.COIN + 1 /\
      total [base_uint_u64 8 1; base_uint_u64 8 2; base_uint_u64 8 3; base_uint_zero 8] (cache_view (n_view s')) <= 5 + (Params.COIN + 1)
  | (Err _, _) => False
  end.
Proof.
  assert (X : match connect_sample greedy_block greedy_node with (Ret _, s) => nMint (n_pindex s) = Params.COIN + 1 | (Err _, _) => False end)
    by (vm_compute; reflexivity).
  destruct (connect_sample greedy_block greedy_node) as [[[]|e] s'] eqn:E; [|destruct X]. split; [exact X|].
  unfold connect_sample in E. assert (Hp : params_ok CMainParams) by (pose proof networks_ok as N; by apply Forall_cons in N as [N _]).
  set (ts := [base_uint_u64 8 1; base_uint_u64 8 2; base_uint_u64 8 3; base_uint_zero 8]).
  assert (Hn : NoDup ts) by (apply (bool_decide_unpack (NoDup ts)); vm_compute; exact I).
  assert (Hc : covers ts (vtx greedy_block)).
  { constructor; [|constructor; [|constructor]]; (constructor; [|constructor]); apply (bool_decide_unpack (_ ∈ ts)); vm_compute; exact I. }
  destruct (ConnectBlock_money CMainParams Hp _ _ _ _ _ _ _ _ _ _ _ _ _ _ _ _ _ _ _ _ _ _ _ _ _ _ _ _ _
    greedy_block CValidationState_new false true (sample_entry 6) greedy_node s' ts sample_view_ok greedy_connectable greedy_child greedy_not_genesis E Hn Hc)
    as (r & _ & _ & _ & M). rewrite X in M. exact M.
Defined.
