(* ===== verification/Standard.v ===== *)
(** * Standard scripts ([script/standard.h], [script/standard.cpp])

    [Solver] sorts output scripts into the standard kinds and takes the keys, hashes and
    numbers out of them by matching templates; destinations and scripts are made from each
    other.  [Solver] is shown to accept exactly the scripts that read as one of the kinds. *)

From Stdlib Require Import ZArith Lia List Bool.
From stdpp Require Import base option list.
From coqutil Require Import Byte Word.LittleEndianList.
From S2P Require Import Prelude Uint256 Serialize MerkleDamgard Hash Script PubKey.

Open Scope Z_scope.
Open Scope btc_scope.

(** ** Data *)

Inductive txnouttype : Type :=
| TX_NONSTANDARD | TX_PUBKEY | TX_PUBKEYHASH | TX_SCRIPTHASH | TX_MULTISIG | TX_NULL_DATA | TX_ZEROCOINMINT.

#[export] Instance txnouttype_eq_dec : EqDecision txnouttype.
Proof. solve_decision. Defined.

Definition MAX_OP_RETURN_RELAY : Z := 83.

(** [CKeyID] and [CScriptID] are 160-bit hashes. *)
Inductive CTxDestination : Type := CNoDestination | CKeyID (hash : base_uint) | CScriptID (hash : base_uint).
Definition CScriptID_of (script : CScript) : base_uint := Hash160 script.

(** [CScript() << op1 << op2 ...], for opcodes in range. *)
Definition ops (l : list Z) : CScript := map byte.of_Z l.

(** The templates, in the order of the map: the opcodes from [OP_SMALLINTEGER] on stand for
    an instruction of their kind. *)
Definition mTemplates : list (txnouttype * CScript) := [
  (TX_PUBKEY, ops [OP_PUBKEY; OP_CHECKSIG]);
  (TX_PUBKEYHASH, ops [OP_DUP; OP_HASH160; OP_PUBKEYHASH; OP_EQUALVERIFY; OP_CHECKSIG]);
  (TX_MULTISIG, ops [OP_SMALLINTEGER; OP_PUBKEYS; OP_SMALLINTEGER; OP_CHECKMULTISIG])].

(** ** [Solver] *)

Definition key_size (vch : list byte) : bool := (33 <=? length vch)%nat && (length vch <=? 65)%nat.

(** The inner loop of [OP_PUBKEYS]: the instruction read last and the solutions. *)
Fixpoint match_pubkeys (fuel : nat) (op1 : op_result) (vSolutions : list (list byte)) : op_result * list (list byte) :=
  if negb (key_size (op_data op1)) then (op1, vSolutions) else
  let vSolutions := vSolutions ++ [op_data op1] in
  let next := GetOp2 (op_pc op1) in
  match fuel with
  | S fuel => if op_ok next then match_pubkeys fuel next vSolutions else (next, vSolutions)
  | O => (next, vSolutions)
  end.

(** The comparison of a script with a template; [None] leaves the loop without a match.
    Every turn reads an instruction of the template. *)
Fixpoint match_template (fuel : nat) (pc1 pc2 : list byte) (vSolutions : list (list byte)) : option (list (list byte)) :=
  match pc1, pc2 with
  | [], [] => Some vSolutions
  | _, _ =>
      let op1 := GetOp2 pc1 in
      let op2 := GetOp2 pc2 in
      match fuel with
      | O => None
      | S fuel =>
          if negb (op_ok op1) then None else if negb (op_ok op2) then None else
          let '(op1, vSolutions, op2) :=
            if op_code op2 =? OP_PUBKEYS
            then let '(op1, vSolutions) := match_pubkeys (length pc1) op1 vSolutions in (op1, vSolutions, GetOp2 (op_pc op2))
            else (op1, vSolutions, op2) in
          if negb (op_ok op2) then None else
          if op_code op2 =? OP_PUBKEY then
            if key_size (op_data op1) then match_template fuel (op_pc op1) (op_pc op2) (vSolutions ++ [op_data op1]) else None
          else if op_code op2 =? OP_PUBKEYHASH then
            if (length (op_data op1) =? 20)%nat then match_template fuel (op_pc op1) (op_pc op2) (vSolutions ++ [op_data op1]) else None
          else if op_code op2 =? OP_SMALLINTEGER then
            match DecodeOP_N (op_code op1) with
            | Some n => match_template fuel (op_pc op1) (op_pc op2) (vSolutions ++ [[byte.of_Z n]])
            | None => None
            end
          else if negb (op_code op1 =? op_code op2) || negb (bool_decide (op_data op1 = op_data op2)) then None
          else match_template fuel (op_pc op1) (op_pc op2) vSolutions
      end
  end.

(** [vSolutionsRet.front()[0]], [vSolutionsRet.back()[0]] *)
Definition first_byte (v : option (list byte)) : Z := match v with Some (b :: _) => byte.unsigned b | _ => 0 end.

(** The answer, the kind and the solutions, the last two also when the answer is no. *)
Definition solver_result : Type := bool * txnouttype * list (list byte).

Fixpoint scan_templates (templates : list (txnouttype * CScript)) (script1 : CScript) : solver_result :=
  match templates with
  | [] => (false, TX_NONSTANDARD, [])
  | (kind, script2) :: templates =>
      match match_template (S (length script2)) script1 script2 [] with
      | None => scan_templates templates script1
      | Some vSolutions =>
          if bool_decide (kind = TX_MULTISIG) then
            let m := first_byte (head vSolutions) in
            let n := first_byte (last vSolutions) in
            (negb ((m <? 1) || (n <? 1) || (m >? n) || negb (Z.of_nat (length vSolutions) - 2 =? n)), kind, vSolutions)
          else (true, kind, vSolutions)
      end
  end.

(** [None]: the vector from [begin() + 2] to [end()] is made of a single byte. *)
Definition Solver (script : CScript) : option solver_result :=
  if IsPayToScriptHash script then Some (true, TX_SCRIPTHASH, [take 20 (drop 2 script)]) else
  if IsZerocoinMint script then
    if (150 <? length script)%nat then Some (false, TX_ZEROCOINMINT, []) else
    if (length script <? 2)%nat then None else Some (true, TX_ZEROCOINMINT, [drop 2 script])
  else
  if (1 <=? length script)%nat && (byte_at script 0 =? OP_RETURN) && IsPushOnly (drop 1 script) then Some (true, TX_NULL_DATA, []) else
  Some (scan_templates mTemplates script).

Definition ScriptSigArgsExpected (t : txnouttype) (vSolutions : list (list byte)) : Z :=
  match t with
  | TX_NONSTANDARD | TX_NULL_DATA | TX_ZEROCOINMINT => -1
  | TX_PUBKEY => 1
  | TX_PUBKEYHASH => 2
  | TX_MULTISIG => match vSolutions with (b :: _) :: _ => byte.unsigned b + 1 | _ => -1 end
  | TX_SCRIPTHASH => 1
  end.

(** The arguments are the settings [-datacarrier] and [-datacarriersize]. *)
Definition IsStandard (datacarrier : bool) (nMaxDatacarrierBytes : Z) (scriptPubKey : CScript) : option (bool * txnouttype) :=
  '(ok, whichType, vSolutions) ← Solver scriptPubKey;
  if negb ok then Some (false, whichType) else
  Some (match whichType with
   | TX_MULTISIG =>
       let m := first_byte (head vSolutions) in
       let n := first_byte (last vSolutions) in
       negb ((n <? 1) || (n >? 3)) && negb ((m <? 1) || (m >? n))
   | TX_NULL_DATA => negb (negb datacarrier || (Z.of_nat (length scriptPubKey) >? nMaxDatacarrierBytes))
   | TX_NONSTANDARD => false
   | _ => true
   end, whichType).

(** ** Destinations *)

Section destinations.
(** The uninitialised storage of a [CPubKey]. *)
Context (buf : list byte).

(** [vSolutions[0]]: the kinds asked for have one.  The outer [None] is the exception of
    [Solver], the inner one [false]. *)
Definition ExtractDestination (scriptPubKey : CScript) : option (option CTxDestination) :=
  '(ok, whichType, vSolutions) ← Solver scriptPubKey;
  Some (if negb ok then None else
  match whichType, vSolutions with
  | TX_PUBKEY, s :: _ => let pubKey := CPubKey_of buf s in if pk_IsValid pubKey then Some (CKeyID (pk_GetID pubKey)) else None
  | TX_PUBKEYHASH, s :: _ => Some (CKeyID (bytes_uint 5 s))
  | TX_SCRIPTHASH, s :: _ => Some (CScriptID (bytes_uint 5 s))
  | _, _ => None
  end).

(** The kind, the destinations and the number of signatures. *)
Definition ExtractDestinations (scriptPubKey : CScript) : option (option (txnouttype * list CTxDestination * Z)) :=
  '(ok, typeRet, vSolutions) ← Solver scriptPubKey;
  if negb ok then Some None else
  match typeRet with
  | TX_NULL_DATA => Some None
  | TX_MULTISIG =>
      let addressRet := omap (fun s => let pubKey := CPubKey_of buf s in if pk_IsValid pubKey then Some (CKeyID (pk_GetID pubKey)) else None)
        (removelast (drop 1 vSolutions)) in
      Some (match addressRet with [] => None | _ => Some (typeRet, addressRet, first_byte (head vSolutions)) end)
  | _ => address ← ExtractDestination scriptPubKey; Some (address ← address; Some (typeRet, [address], 1))
  end.

(** [CScriptVisitor]. *)
Definition GetScriptForDestination (dest : CTxDestination) : CScript :=
  match dest with
  | CNoDestination => []
  | CKeyID keyID => push_data (ops [OP_DUP; OP_HASH160]) (uint_bytes keyID) ++ ops [OP_EQUALVERIFY; OP_CHECKSIG]
  | CScriptID scriptID => push_data (ops [OP_HASH160]) (uint_bytes scriptID) ++ ops [OP_EQUAL]
  end.

(** [None] is the failed assertion of [EncodeOP_N]. *)
Definition GetScriptForMultisig (nRequired : Z) (keys : list CPubKey) : option CScript :=
  m ← EncodeOP_N nRequired;
  n ← EncodeOP_N (Z.of_nat (length keys));
  Some (foldl (fun script key => push_data script (pk_bytes key)) (ops [m]) keys ++ ops [n; OP_CHECKMULTISIG]).
End destinations.

(** ** What [Solver] accepts *)

(** The instructions a script reads as. *)
Inductive reads_as : list byte -> list (Z * list byte) -> Prop :=
| reads_nil : reads_as [] []
| reads_cons pc l : op_ok (GetOp2 pc) = true -> reads_as (op_pc (GetOp2 pc)) l -> reads_as pc ((op_code (GetOp2 pc), op_data (GetOp2 pc)) :: l).

(** The standard kinds, with the parts that [Solver] returns. *)
Inductive standard (s : CScript) : txnouttype -> list (list byte) -> Prop :=
| standard_scripthash h : length h = 20%nat -> s = push_data (ops [OP_HASH160]) h ++ ops [OP_EQUAL] -> standard s TX_SCRIPTHASH [h]
| standard_mint : IsZerocoinMint s = true -> (2 <= length s <= 150)%nat -> standard s TX_ZEROCOINMINT [drop 2 s]
| standard_data rest : s = ops [OP_RETURN] ++ rest -> IsPushOnly rest = true -> standard s TX_NULL_DATA []
| standard_pubkey o key : reads_as s [(o, key); (OP_CHECKSIG, [])] -> key_size key = true -> standard s TX_PUBKEY [key]
| standard_pubkeyhash o h : reads_as s [(OP_DUP, []); (OP_HASH160, []); (o, h); (OP_EQUALVERIFY, []); (OP_CHECKSIG, [])] ->
    length h = 20%nat -> standard s TX_PUBKEYHASH [h]
| standard_multisig om m keys on n :
    reads_as s ((om, []) :: keys ++ [(on, []); (OP_CHECKMULTISIG, [])]) -> DecodeOP_N om = Some m -> DecodeOP_N on = Some n ->
    Forall (fun k => key_size k.2 = true) keys -> 1 <= m <= n -> n = Z.of_nat (length keys) ->
    standard s TX_MULTISIG ([byte.of_Z m] :: keys.*2 ++ [[byte.of_Z n]]).

Lemma reads_as_nil pc : reads_as pc [] <-> pc = [].
Proof. split; [by inversion 1|intros ->; constructor]. Qed.

Lemma reads_as_cons pc o d l : reads_as pc ((o, d) :: l) <->
  op_ok (GetOp2 pc) = true /\ op_code (GetOp2 pc) = o /\ op_data (GetOp2 pc) = d /\ reads_as (op_pc (GetOp2 pc)) l.
Proof. split; [by inversion 1|intros (K & <- & <- & L); by constructor]. Qed.

(** A script reads in one way. *)
Lemma reads_as_unique pc l l' : reads_as pc l -> reads_as pc l' -> l = l'.
Proof.
  intros R. revert l'. induction R as [|pc l K R IH]; intros l' R'; inversion R'; subst; try done.
  f_equal. by apply IH.
Qed.

Lemma GetOp2_opcode b rest : OP_PUSHDATA4 < byte.unsigned b -> GetOp2 (b :: rest) = mk_op true rest (byte.unsigned b) [].
Proof. intros Hb. unfold GetOp2. by rewrite (proj2 (Z.leb_gt _ _)) by done. Qed.

(** Turns of the loop, by the instruction of the template. *)
Section turns.
Context (f : nat) (pc1 pc2 : list byte) (sols r : list (list byte)).

Lemma turn_end : match_template f pc1 [] sols = Some r <-> pc1 = [] /\ r = sols.
Proof using.
  destruct pc1 as [|b pc]; [destruct f; cbn; split; [by intros [= ->]|by intros [_ ->]|by intros [= ->]|by intros [_ ->]]|].
  split; [|by intros []]. destruct f; cbn [match_template]; [done|]. by destruct (negb _).
Qed.

Lemma turn_pubkey : match_template (S f) pc1 (byte.of_Z OP_PUBKEY :: pc2) sols = Some r <->
  op_ok (GetOp2 pc1) = true /\ key_size (op_data (GetOp2 pc1)) = true /\
  match_template f (op_pc (GetOp2 pc1)) pc2 (sols ++ [op_data (GetOp2 pc1)]) = Some r.
Proof using.
  cbn [match_template]. assert (E : match pc1 with [] => GetOp2 pc1 | _ => GetOp2 pc1 end = GetOp2 pc1) by by destruct pc1.
  rewrite (GetOp2_opcode (byte.of_Z OP_PUBKEY) pc2) by done. cbn [op_ok op_code op_pc negb].
  destruct pc1 as [|b pc]; destruct (op_ok _); cbn [negb]; try (split; [done|by intros (? & _)]);
    change (byte.unsigned (byte.of_Z OP_PUBKEY) =? OP_PUBKEYS) with false; change (byte.unsigned (byte.of_Z OP_PUBKEY) =? OP_PUBKEY) with true; cbn iota;
    (destruct (key_size _); [tauto|split; [done|by intros (_ & ? & _)]]).
Qed.

Lemma turn_pubkeyhash : match_template (S f) pc1 (byte.of_Z OP_PUBKEYHASH :: pc2) sols = Some r <->
  op_ok (GetOp2 pc1) = true /\ length (op_data (GetOp2 pc1)) = 20%nat /\
  match_template f (op_pc (GetOp2 pc1)) pc2 (sols ++ [op_data (GetOp2 pc1)]) = Some r.
Proof using.
  cbn [match_template]. rewrite (GetOp2_opcode (byte.of_Z OP_PUBKEYHASH) pc2) by done. cbn [op_ok op_code op_pc negb].
  destruct pc1 as [|b pc]; destruct (op_ok _); cbn [negb]; try (split; [done|by intros (? & _)]);
    change (byte.unsigned (byte.of_Z OP_PUBKEYHASH) =? OP_PUBKEYS) with false; change (byte.unsigned (byte.of_Z OP_PUBKEYHASH) =? OP_PUBKEY) with false;
    change (byte.unsigned (byte.of_Z OP_PUBKEYHASH) =? OP_PUBKEYHASH) with true; cbn iota;
    (destruct (length _ =? 20)%nat eqn:L; [apply Nat.eqb_eq in L; tauto|apply Nat.eqb_neq in L; split; [done|by intros (_ & ? & _)]]).
Qed.

Lemma turn_small : match_template (S f) pc1 (byte.of_Z OP_SMALLINTEGER :: pc2) sols = Some r <->
  op_ok (GetOp2 pc1) = true /\ exists n, DecodeOP_N (op_code (GetOp2 pc1)) = Some n /\
  match_template f (op_pc (GetOp2 pc1)) pc2 (sols ++ [[byte.of_Z n]]) = Some r.
Proof using.
  cbn [match_template]. rewrite (GetOp2_opcode (byte.of_Z OP_SMALLINTEGER) pc2) by done. cbn [op_ok op_code op_pc negb].
  destruct pc1 as [|b pc]; destruct (op_ok _); cbn [negb]; try (split; [done|by intros (? & _)]);
    change (byte.unsigned (byte.of_Z OP_SMALLINTEGER) =? OP_PUBKEYS) with false; change (byte.unsigned (byte.of_Z OP_SMALLINTEGER) =? OP_PUBKEY) with false;
    change (byte.unsigned (byte.of_Z OP_SMALLINTEGER) =? OP_PUBKEYHASH) with false; change (byte.unsigned (byte.of_Z OP_SMALLINTEGER) =? OP_SMALLINTEGER) with true; cbn iota;
    (destruct (DecodeOP_N _) as [n|]; [split; [intros K; split; [done|by exists n]|intros (_ & n' & [= <-] & K); exact K]|split; [done|by intros (_ & n & ? & _)]]).
Qed.

Lemma turn_opcode c : OP_PUSHDATA4 < byte.unsigned c < OP_SMALLINTEGER -> match_template (S f) pc1 (c :: pc2) sols = Some r <->
  op_ok (GetOp2 pc1) = true /\ op_code (GetOp2 pc1) = byte.unsigned c /\ op_data (GetOp2 pc1) = [] /\
  match_template f (op_pc (GetOp2 pc1)) pc2 sols = Some r.
Proof using.
  intros [Hc Hc']. unfold OP_SMALLINTEGER in Hc'. cbn [match_template]. rewrite (GetOp2_opcode c pc2) by done. cbn [op_ok op_code op_pc op_data negb].
  rewrite (proj2 (Z.eqb_neq (byte.unsigned c) OP_PUBKEYS)) by (unfold OP_PUBKEYS; lia). cbn iota beta. cbn [op_ok op_code op_pc op_data negb].
  rewrite (proj2 (Z.eqb_neq (byte.unsigned c) OP_PUBKEY)),
    (proj2 (Z.eqb_neq (byte.unsigned c) OP_PUBKEYHASH)), (proj2 (Z.eqb_neq (byte.unsigned c) OP_SMALLINTEGER))
    by (unfold OP_PUBKEY, OP_PUBKEYHASH, OP_SMALLINTEGER; lia).
  destruct pc1 as [|b pc]; destruct (op_ok _); cbn [negb]; try (split; [done|by intros (? & _)]);
    (destruct (op_code _ =? byte.unsigned c) eqn:L; [apply Z.eqb_eq in L|apply Z.eqb_neq in L; split; [done|by intros (_ & ? & _)]]);
    cbn [negb orb]; (case_bool_decide; cbn [negb]; [tauto|split; [done|by intros (_ & _ & ? & _)]]).
Qed.
End turns.

(** The inner loop takes all the keys that come next. *)
Lemma match_pubkeys_all keys : forall fuel pc sols o d l, reads_as pc (keys ++ (o, d) :: l) -> (length keys <= fuel)%nat ->
  Forall (fun k => key_size k.2 = true) keys -> key_size d = false ->
  exists pc', match_pubkeys fuel (GetOp2 pc) sols = (GetOp2 pc', sols ++ keys.*2) /\ reads_as pc' ((o, d) :: l).
Proof.
  induction keys as [|[ok k] keys IH]; intros fuel pc sols o d l R Hf Hk Hd.
  - exists pc. cbn [app] in R. split; [|done]. apply reads_as_cons in R as (_ & _ & <- & _). destruct fuel; cbn [match_pubkeys]; rewrite Hd; cbn; by rewrite app_nil_r.
  - cbn [app] in R. apply reads_as_cons in R as (_ & _ & <- & R). apply Forall_cons in Hk as [Hk1 Hk]. cbn [snd length] in *.
    destruct fuel as [|fuel]; [lia|]. destruct (IH fuel (op_pc (GetOp2 pc)) (sols ++ [op_data (GetOp2 pc)]) o d l R) as (pc' & E & R'); [lia|done|done|].
    exists pc'. split; [|done]. cbn [match_pubkeys]. rewrite Hk1. cbn [negb fmap list_fmap snd].
    assert (op_ok (GetOp2 (op_pc (GetOp2 pc))) = true) as -> by (destruct keys as [|[] ?]; by apply reads_as_cons in R as (? & _)).
    rewrite E. by rewrite <- app_assoc.
Qed.

Lemma match_pubkeys_some fuel : forall pc sols op sols', op_ok (GetOp2 pc) = true -> (length pc <= fuel)%nat ->
  match_pubkeys fuel (GetOp2 pc) sols = (op, sols') -> exists keys pc', op = GetOp2 pc' /\ sols' = sols ++ keys.*2 /\
    Forall (fun k => key_size k.2 = true) keys /\ forall l, reads_as pc' l -> reads_as pc (keys ++ l).
Proof.
  induction fuel as [|fuel IH]; intros pc sols op sols' Ok L E.
  { destruct pc; [done|cbn in L; lia]. }
  cbn [match_pubkeys] in E. destruct (key_size (op_data (GetOp2 pc))) eqn:Hk; cbn [negb] in E.
  2: { injection E as <- <-. exists [], pc. by rewrite app_nil_r. }
  destruct (op_ok (GetOp2 (op_pc (GetOp2 pc)))) eqn:Ok'.
  - pose proof (GetOp2_length pc (GetOp2_ok_nonempty pc Ok)). destruct (IH _ _ _ _ Ok' ltac:(lia) E) as (keys & pc' & -> & -> & Hks & R).
    exists ((op_code (GetOp2 pc), op_data (GetOp2 pc)) :: keys), pc'. rewrite <- app_assoc. do 2 (split; [done|]). split; [by constructor|].
    intros l Rl. cbn [app]. constructor; [done|by apply R].
  - injection E as <- <-. exists [(op_code (GetOp2 pc), op_data (GetOp2 pc))], (op_pc (GetOp2 pc)). do 2 (split; [done|]). split; [by repeat constructor|].
    intros l Rl. cbn [app]. by constructor.
Qed.

Lemma turn_pubkeys f pc1 pc2 sols r : match_template (S f) pc1 (byte.of_Z OP_PUBKEYS :: byte.of_Z OP_SMALLINTEGER :: pc2) sols = Some r <->
  op_ok (GetOp2 pc1) = true /\ exists op sols' n, match_pubkeys (length pc1) (GetOp2 pc1) sols = (op, sols') /\ DecodeOP_N (op_code op) = Some n /\
  match_template f (op_pc op) pc2 (sols' ++ [[byte.of_Z n]]) = Some r.
Proof.
  cbn [match_template]. rewrite (GetOp2_opcode (byte.of_Z OP_PUBKEYS)) by done. cbn [op_ok op_code op_pc negb].
  change (byte.unsigned (byte.of_Z OP_PUBKEYS) =? OP_PUBKEYS) with true. cbn iota. rewrite (GetOp2_opcode (byte.of_Z OP_SMALLINTEGER)) by done.
  destruct pc1 as [|b pc]; destruct (op_ok (GetOp2 _)) eqn:Ok; cbn [negb]; try (split; [done|by intros (? & _)]).
  destruct (match_pubkeys _ _ _) as [op sols'] eqn:E. cbn [op_ok op_code op_pc negb].
  change (byte.unsigned (byte.of_Z OP_SMALLINTEGER) =? OP_PUBKEY) with false. change (byte.unsigned (byte.of_Z OP_SMALLINTEGER) =? OP_PUBKEYHASH) with false.
  change (byte.unsigned (byte.of_Z OP_SMALLINTEGER) =? OP_SMALLINTEGER) with true. cbn iota. destruct (DecodeOP_N (op_code op)) as [n|] eqn:Dn.
  - split; [intros K; split; [done|by exists op, sols', n]|]. intros (_ & op' & sols'' & n' & [= <- <-] & En & K). rewrite Dn in En. by injection En as <-.
  - split; [done|]. intros (_ & op' & sols'' & n' & [= <- <-] & En & K). congruence.
Qed.

(** ** The three templates *)

Lemma match_pubkey s r : match_template 3 s (ops [OP_PUBKEY; OP_CHECKSIG]) [] = Some r <->
  exists o key, reads_as s [(o, key); (OP_CHECKSIG, [])] /\ key_size key = true /\ r = [key].
Proof.
  cbn [ops map]. rewrite turn_pubkey, turn_opcode, turn_end by done. split.
  - intros (A & B & C & D & G & F & ->). eexists _, _. split; [|by split]. apply reads_as_cons. do 3 (split; [done|]). apply reads_as_cons. by rewrite F, C, D, reads_as_nil.
  - intros (o & key & R & K & ->). apply reads_as_cons in R as (A & _ & <- & R). apply reads_as_cons in R as (C & D & G & R). by apply reads_as_nil in R.
Qed.

Lemma match_pubkeyhash s r : match_template 6 s (ops [OP_DUP; OP_HASH160; OP_PUBKEYHASH; OP_EQUALVERIFY; OP_CHECKSIG]) [] = Some r <->
  exists o h, reads_as s [(OP_DUP, []); (OP_HASH160, []); (o, h); (OP_EQUALVERIFY, []); (OP_CHECKSIG, [])] /\ length h = 20%nat /\ r = [h].
Proof.
  cbn [ops map]. rewrite !turn_opcode, turn_pubkeyhash, !turn_opcode, turn_end by done. split.
  - intros (A1 & A2 & A3 & B1 & B2 & B3 & C1 & C2 & D1 & D2 & D3 & F1 & F2 & F3 & G & ->). eexists _, _. split; [|by split].
    do 5 (apply reads_as_cons; do 3 (split; [done|])). by apply reads_as_nil.
  - intros (o & h & R & K & ->). apply reads_as_cons in R as (A1 & A2 & A3 & R). apply reads_as_cons in R as (B1 & B2 & B3 & R).
    apply reads_as_cons in R as (C1 & _ & <- & R). apply reads_as_cons in R as (D1 & D2 & D3 & R). apply reads_as_cons in R as (F1 & F2 & F3 & R).
    apply reads_as_nil in R. done.
Qed.

Lemma DecodeOP_N_range o n : DecodeOP_N o = Some n -> 0 <= n <= 16 /\ (o = 0 /\ n = 0 \/ o = n + 80 /\ 81 <= o <= 96).
Proof. unfold DecodeOP_N, OP_0, OP_1, OP_16. repeat case_match; [intros [= <-]; lia|intros [= <-]; lia|done]. Qed.

Lemma small_data pc n : op_ok (GetOp2 pc) = true -> DecodeOP_N (op_code (GetOp2 pc)) = Some n -> op_data (GetOp2 pc) = [].
Proof.
  intros Ok D. apply DecodeOP_N_range in D as [_ [[D _]|[_ D]]]; [|apply GetOp2_no_data; unfold OP_PUSHDATA4; lia].
  revert Ok D. unfold GetOp2. destruct pc as [|b pc]; [done|]. destruct (byte.unsigned b <=? OP_PUSHDATA4) eqn:L; [|done].
  unfold GetOp_size. repeat (case_match; cbn [op_ok op_code op_data]; try done). all: intros _ E0; subst; simplify_eq; try done; try (by rewrite E0 in *).
Qed.

Lemma match_multisig s r : match_template 5 s (ops [OP_SMALLINTEGER; OP_PUBKEYS; OP_SMALLINTEGER; OP_CHECKMULTISIG]) [] = Some r <->
  exists om m keys on n, reads_as s ((om, []) :: keys ++ [(on, []); (OP_CHECKMULTISIG, [])]) /\ DecodeOP_N om = Some m /\ DecodeOP_N on = Some n /\
    Forall (fun k => key_size k.2 = true) keys /\ r = [byte.of_Z m] :: keys.*2 ++ [[byte.of_Z n]].
Proof.
  cbn [ops map]. rewrite turn_small. split.
  - intros (A & m & Dm & K). apply turn_pubkeys in K as (B & op & sols' & n & E & Dn & K).
    apply turn_opcode in K as (C1 & C2 & C3 & K); [|done]. apply turn_end in K as [G ->].
    destruct (match_pubkeys_some _ _ _ _ _ B ltac:(done) E) as (keys & pc' & -> & -> & Hk & R).
    exists (op_code (GetOp2 s)), m, keys, (op_code (GetOp2 pc')), n. split; [|by rewrite <- app_assoc].
    apply reads_as_cons. split; [done|]. split; [done|]. split; [by eapply small_data|]. apply R.
    assert (O : op_ok (GetOp2 pc') = true).
    { destruct (op_ok (GetOp2 pc')) eqn:O; [done|]. unfold GetOp2 in O, Dn. destruct pc' as [|b pc']; [done|].
      destruct (byte.unsigned b <=? OP_PUSHDATA4); [|done]. destruct (GetOp_size _ _) as [[z|] ?]; [destruct (_ <? z)|]; done. }
    apply reads_as_cons. split; [done|]. split; [done|]. split; [by eapply small_data|]. apply reads_as_cons. by rewrite C2, C3, G, reads_as_nil.
  - intros (om & m & keys & on & n & R & Dm & Dn & Hk & ->). apply reads_as_cons in R as (A & <- & _ & R). split; [done|]. exists m. split; [done|].
    set (pc := op_pc (GetOp2 s)) in *. apply turn_pubkeys.
    assert (L : (length keys <= length pc)%nat).
    { clear -R. revert R. generalize pc. induction keys as [|[o k] keys IH]; intros q R; [cbn; lia|]. cbn [app] in R.
      apply reads_as_cons in R as (O & _ & _ & R). apply IH in R. pose proof (GetOp2_length q (GetOp2_ok_nonempty q O)). cbn [length]. lia. }
    destruct (match_pubkeys_all keys (length pc) pc ([] ++ [[byte.of_Z m]]) on [] [(OP_CHECKMULTISIG, [])] R L Hk eq_refl) as (pc' & E & R').
    split; [destruct keys as [|[] ?]; by apply reads_as_cons in R as (? & _)|]. apply reads_as_cons in R' as (O & <- & _ & R').
    eexists _, _, n. split; [exact E|]. split; [done|]. apply turn_opcode; [done|]. apply reads_as_cons in R' as (C1 & C2 & C3 & R').
    apply reads_as_nil in R'. do 3 (split; [done|]). apply turn_end. split; [done|]. by rewrite <- app_assoc.
Qed.

(** ** [Solver] *)

Lemma standard_multisig_inv s sols : standard s TX_MULTISIG sols -> exists om m keys on n,
  reads_as s ((om, []) :: keys ++ [(on, []); (OP_CHECKMULTISIG, [])]) /\ DecodeOP_N om = Some m /\ DecodeOP_N on = Some n /\
  1 <= m <= n /\ n = Z.of_nat (length keys).
Proof. inversion 1 as [| | | | |om m keys on n R Dm Dn Hk Hn Ln]; subst. by exists om, m, keys, on, (Z.of_nat (length keys)). Qed.

Lemma multisig_reading s om keys on om' keys' on' :
  reads_as s ((om, []) :: keys ++ [(on, []); (OP_CHECKMULTISIG, [])]) ->
  reads_as s ((om', []) :: keys' ++ [(on', []); (OP_CHECKMULTISIG, [])]) -> om = om' /\ keys = keys' /\ on = on'.
Proof.
  intros R R'. pose proof (reads_as_unique _ _ _ R R') as Eq. injection Eq as <- Eq. apply app_inj_2 in Eq as [<- Eq]; [|done]. by injection Eq as <-.
Qed.

(** The first instruction of a script that starts with an opcode. *)
Lemma reads_as_first s b rest o d l : s = b :: rest -> OP_PUSHDATA4 < byte.unsigned b -> reads_as s ((o, d) :: l) -> o = byte.unsigned b.
Proof. intros -> Hb R. apply reads_as_cons in R as (_ & <- & _). by rewrite GetOp2_opcode. Qed.

Lemma scan_templates_spec s : match scan_templates mTemplates s with
  | (true, kind, sols) => standard s kind sols /\ (kind = TX_PUBKEY \/ kind = TX_PUBKEYHASH \/ kind = TX_MULTISIG)
  | (false, _, _) => forall kind sols, standard s kind sols -> kind = TX_SCRIPTHASH \/ kind = TX_ZEROCOINMINT \/ kind = TX_NULL_DATA
  end.
Proof.
  unfold mTemplates. cbn [scan_templates]. change (S (length (ops [OP_PUBKEY; OP_CHECKSIG]))) with 3%nat.
  change (S (length (ops [OP_DUP; OP_HASH160; OP_PUBKEYHASH; OP_EQUALVERIFY; OP_CHECKSIG]))) with 6%nat.
  change (S (length (ops [OP_SMALLINTEGER; OP_PUBKEYS; OP_SMALLINTEGER; OP_CHECKMULTISIG]))) with 5%nat.
  rewrite (bool_decide_false (TX_PUBKEY = _)), (bool_decide_false (TX_PUBKEYHASH = _)), (bool_decide_true (TX_MULTISIG = _)) by done.
  destruct (match_template 3 s _ []) as [r|] eqn:E1.
  { apply match_pubkey in E1 as (o & key & R & K & ->). split; [by econstructor|by left]. }
  destruct (match_template 6 s _ []) as [r|] eqn:E2.
  { apply match_pubkeyhash in E2 as (o & h & R & K & ->). split; [by econstructor|by right; left]. }
  assert (N : forall kind sols, standard s kind sols -> kind = TX_MULTISIG \/ kind = TX_SCRIPTHASH \/ kind = TX_ZEROCOINMINT \/ kind = TX_NULL_DATA).
  { intros kind sols [h Hh Es|Hm Hl|rest Es Hp|o key R K|o h R K|om m keys on n R Dm Dn Hk Hn Ln]; auto.
    - rewrite (proj2 (match_pubkey s [key])) in E1; [done|]. by exists o, key.
    - rewrite (proj2 (match_pubkeyhash s [h])) in E2; [done|]. by exists o, h. }
  destruct (match_template 5 s _ []) as [r|] eqn:E3.
  - apply match_multisig in E3 as (om & m & keys & on & n & R & Dm & Dn & Hk & ->).
    pose proof (DecodeOP_N_range _ _ Dm) as [Rm _]. pose proof (DecodeOP_N_range _ _ Dn) as [Rn _].
    assert (El : last ([byte.of_Z m] :: keys.*2 ++ [[byte.of_Z n]]) = Some [byte.of_Z n]) by (rewrite app_comm_cons; apply last_snoc).
    rewrite El. cbn [head first_byte]. rewrite !unsigned_of_Z_small by lia. cbn [length]. rewrite length_app, length_fmap. cbn [length].
    replace (Z.of_nat (S (length keys + 1)) - 2) with (Z.of_nat (length keys)) by lia. rewrite Z.gtb_ltb.
    destruct (Z.ltb_spec m 1), (Z.ltb_spec n 1), (Z.ltb_spec n m), (Z.eqb_spec (Z.of_nat (length keys)) n); cbn [orb negb].
    all: try (split; [|by right; right]; by econstructor).
    all: intros kind sols St; destruct (N kind sols St) as [->|]; [|done]; exfalso;
      apply standard_multisig_inv in St as (om' & m' & keys' & on' & n' & R' & Dm' & Dn' & Hm & Hn);
      destruct (multisig_reading _ _ _ _ _ _ _ R R') as (-> & -> & ->); simplify_eq; lia.
  - intros kind sols St. destruct (N kind sols St) as [->|]; [|done]. inversion St as [| | | | |om m keys on n R Dm Dn Hk Hn Ln]; subst.
    rewrite (proj2 (match_multisig s ([byte.of_Z m] :: keys.*2 ++ [[byte.of_Z (Z.of_nat (length keys))]]))) in E3; [done|]. by eexists _, _, _, _, _.
Qed.

(** A script that starts with an opcode that neither pushes nor is that of a key hash. *)
Lemma standard_first b rest kind sols : OP_16 < byte.unsigned b -> byte.unsigned b <> OP_DUP -> standard (b :: rest) kind sols ->
  kind = TX_SCRIPTHASH \/ kind = TX_ZEROCOINMINT \/ kind = TX_NULL_DATA.
Proof.
  unfold OP_16. intros Hb Nb St. assert (E : GetOp2 (b :: rest) = mk_op true rest (byte.unsigned b) []) by (apply GetOp2_opcode; unfold OP_PUSHDATA4; lia).
  inversion St as [h Hh Es|Hm Hl|rest' Es Hp|o key R K|o h R K|om m keys on n R Dm Dn Hk Hn Ln]; subst; auto; exfalso;
    apply reads_as_cons in R as (_ & Ro & Rd & _); rewrite E in Ro, Rd; cbn [op_code op_data] in Ro, Rd.
  - by subst key.
  - done.
  - apply DecodeOP_N_range in Dm. lia.
Qed.

(** [Solver] accepts the standard scripts, and nothing else. *)
Lemma Solver_standard s : s <> ops [OP_ZEROCOINMINT] -> exists ok kind sols, Solver s = Some (ok, kind, sols) /\
  (ok = true -> standard s kind sols) /\ (ok = false -> forall kind' sols', ~ standard s kind' sols').
Proof.
  intros Ns. unfold Solver. pose proof (proj1 (templates_recognised s)) as P2SH.
  destruct (IsPayToScriptHash s) eqn:Es.
  { destruct (proj1 P2SH eq_refl) as (h & Hh & Eq). eexists _, _, _. split; [done|]. split; [|done]. intros _.
    assert (take 20 (drop 2 s) = h) as ->; [|by econstructor]. rewrite Eq, push_data_app. unfold push_data. rewrite Hh. cbn [length app].
    change (Z.of_nat 20 <? OP_PUSHDATA1) with true. cbn [ops map app drop]. by apply take_app_length'. }
  assert (N1 : forall h sols, ~ standard s TX_SCRIPTHASH (h :: sols)).
  { intros h sols St. inversion St as [h' Hh Eq| | | | |]; subst. assert (false = true); [|done]. apply P2SH. by exists h. }
  assert (N1' : ~ exists sols, standard s TX_SCRIPTHASH sols) by (intros [sols St]; inversion St; subst; by eapply N1).
  destruct (IsZerocoinMint s) eqn:Em.
  { assert (First : exists rest, s = byte.of_Z OP_ZEROCOINMINT :: rest).
    { unfold IsZerocoinMint in Em. destruct s as [|b rest]; [done|]. exists rest. f_equal. apply andb_true_iff in Em as [_ Em].
      by apply (byte_at_eq (b :: rest) 0 (byte.of_Z OP_ZEROCOINMINT)) in Em. }
    destruct First as [rest ->]. destruct (Nat.ltb_spec 150 (length (byte.of_Z OP_ZEROCOINMINT :: rest))).
    - eexists _, _, _. split; [done|]. split; [done|]. intros _ kind sols St.
      destruct (standard_first (byte.of_Z OP_ZEROCOINMINT) rest kind sols ltac:(done) ltac:(done) St) as [->|[->| ->]]; [by apply N1'; eexists| |];
        inversion St as [|? Hl|rest' Eq| | |]; subst; [lia|done].
    - destruct (Nat.ltb_spec (length (byte.of_Z OP_ZEROCOINMINT :: rest)) 2).
      + destruct rest; [done|cbn [length] in *; lia].
      + eexists _, _, _. split; [done|]. split; [|done]. intros _. by constructor. }
  destruct ((1 <=? length s)%nat && (byte_at s 0 =? OP_RETURN) && IsPushOnly (drop 1 s)) eqn:Er.
  { apply andb_true_iff in Er as [Er Hp]. apply andb_true_iff in Er as [El Er]. destruct s as [|b rest]; [done|].
    apply (byte_at_eq (b :: rest) 0 (byte.of_Z OP_RETURN)) in Er; [|done]. cbn in Er. subst b. eexists _, _, _. split; [done|]. split; [|done].
    intros _. by apply (standard_data _ rest). }
  pose proof (scan_templates_spec s) as S. destruct (scan_templates mTemplates s) as [[[] kind] sols].
  - exists true, kind, sols. split; [done|]. split; [intros _; apply S|done].
  - exists false, kind, sols. split; [done|]. split; [done|]. intros _ kind' sols' St.
    destruct (S kind' sols' St) as [->|[->| ->]]; [by apply N1'; eexists| |]; inversion St as [|Hm Hl|rest Eq Hp| | |]; subst; [congruence|].
    assert (K : (1 <=? length (ops [OP_RETURN] ++ rest))%nat && (byte_at (ops [OP_RETURN] ++ rest) 0 =? OP_RETURN) && IsPushOnly rest = true) by (by rewrite Hp).
    change rest with (drop 1 (ops [OP_RETURN] ++ rest)) in K at 3. by rewrite Er in K.
Qed.

Lemma first_of (b : byte) rest i : byte_at (b :: rest) 0 = i -> byte.unsigned b = i.
Proof. done. Qed.

(** Every standard script is accepted, with its parts. *)
Lemma Solver_complete s kind sols : standard s kind sols -> Solver s = Some (true, kind, sols).
Proof.
  intros St. assert (Ns : s <> ops [OP_ZEROCOINMINT]).
  { intros ->. inversion St as [h Hh Es|Hm Hl|rest Es Hp| | |]; subst.
    - rewrite push_data_app in Es. cbn in Es. by injection Es.
    - cbn in Hl. lia.
    - done.
    - by apply (standard_first (byte.of_Z OP_ZEROCOINMINT) []) in St as [|[|]].
    - by apply (standard_first (byte.of_Z OP_ZEROCOINMINT) []) in St as [|[|]].
    - by apply (standard_first (byte.of_Z OP_ZEROCOINMINT) []) in St as [|[|]]. }
  destruct (Solver_standard s Ns) as (ok & kind' & sols' & E & Hok & Hno).
  destruct ok; [|by destruct (Hno eq_refl kind sols)]. specialize (Hok eq_refl). rewrite E.
  enough (kind' = kind /\ sols' = sols) as [-> ->] by done. clear E Hno Ns.
  revert kind sols kind' sols' St Hok. assert (F : forall b rest k sl, s = b :: rest -> OP_16 < byte.unsigned b -> byte.unsigned b <> OP_DUP ->
    standard s k sl -> (k = TX_SCRIPTHASH /\ b = byte.of_Z OP_HASH160) \/ (k = TX_ZEROCOINMINT /\ b = byte.of_Z OP_ZEROCOINMINT) \/ (k = TX_NULL_DATA /\ b = byte.of_Z OP_RETURN)).
  { intros b rest k sl -> Hb Nb St. pose proof (standard_first b rest k sl Hb Nb St) as K. destruct K as [->|[->| ->]]; inversion St as [h Hh Es|Hm Hl|r Es Hp| | |]; subst.
    - left. split; [done|]. rewrite push_data_app in Es. cbn in Es. by injection Es.
    - right. left. split; [done|]. unfold IsZerocoinMint in Hm. apply andb_true_iff in Hm as [_ Hm].
      by apply (byte_at_eq (b :: rest) 0 (byte.of_Z OP_ZEROCOINMINT)) in Hm.
    - right. right. split; [done|]. cbn in Es. by injection Es. }
  assert (G : forall k sl k' sl', standard s k sl -> standard s k' sl' -> (k = TX_SCRIPTHASH \/ k = TX_ZEROCOINMINT \/ k = TX_NULL_DATA) -> k' = k /\ sl' = sl).
  { intros k sl k' sl' St St' Hk.
    assert (B : exists b rest, s = b :: rest /\ OP_16 < byte.unsigned b /\ byte.unsigned b <> OP_DUP).
    { inversion St as [h Hh Es|Hm Hl|r Es Hp| | |]; subst; try by destruct Hk as [|[|]].
      - exists (byte.of_Z OP_HASH160), (push_data [] h ++ ops [OP_EQUAL]). by rewrite push_data_app.
      - unfold IsZerocoinMint in Hm. destruct s as [|b rest]; [done|]. exists b, rest. apply andb_true_iff in Hm as [_ Hm]. apply Z.eqb_eq in Hm.
        change (byte.unsigned b = OP_ZEROCOINMINT) in Hm. by rewrite Hm.
      - by exists (byte.of_Z OP_RETURN), r. }
    destruct B as (b & rest & Eq & Hb & Nb). pose proof (F b rest k sl Eq Hb Nb St) as K. pose proof (F b rest k' sl' Eq Hb Nb St') as K'.
    assert (k' = k) as ->.
    { destruct K as [[-> ->]|[[-> ->]|[-> ->]]], K' as [[-> ?]|[[-> ?]|[-> ?]]]; done. }
    split; [done|]. inversion St as [h Hh Es|Hm Hl|r Es Hp| | |]; subst; inversion St' as [h' Hh' Es'|Hm' Hl'|r' Es' Hp'| | |]; subst; try done; try by destruct Hk as [|[|]].
    f_equal. rewrite Es in Es'. rewrite !(push_data_app (ops _)) in Es'. rewrite <- !app_assoc in Es'. apply app_inv_head in Es'.
    unfold push_data in Es'. rewrite Hh, Hh' in Es'. change (Z.of_nat 20 <? OP_PUSHDATA1) with true in Es'. cbn in Es'. injection Es' as Es'.
    apply app_inj_2 in Es' as [? _]; [done|done]. }
  intros kind sols kind' sols' St St'. destruct kind eqn:Ek; try (apply (G _ _ _ _ St St'); auto; fail); [by inversion St| | |];
    (destruct kind' eqn:Ek'; try (destruct (G _ _ _ _ St' St) as [? _]; [auto|done]); [by inversion St'| | |]);
    inversion St as [| | |o key R K|o h R K|om m keys on n R Dm Dn Hk Hn Ln]; inversion St' as [| | |o' key' R' K'|o' h' R' K'|om' m' keys' on' n' R' Dm' Dn' Hk' Hn' Ln']; subst;
    pose proof (reads_as_unique _ _ _ R R') as Eq; try (by simplify_eq).
  destruct (multisig_reading _ _ _ _ _ _ _ R R') as (-> & -> & ->). by simplify_eq.
Qed.

(** The one script that [Solver] builds an impossible vector for. *)
Lemma Solver_throws s : Solver s = None <-> s = ops [OP_ZEROCOINMINT].
Proof.
  split; [|by intros ->]. intros N. destruct (decide (s = ops [OP_ZEROCOINMINT])) as [|Ne]; [done|].
  destruct (Solver_standard s Ne) as (ok & kind & sols & E & _). congruence.
Qed.

(** C33: [Solver] fails on the script of a single [OP_ZEROCOINMINT] only, where it builds a
    vector from a place past the end, and recognises exactly the standard scripts: those that read, instruction by instruction, as one of the
    kinds; what it returns are the keys, hashes and numbers in them. *)
Theorem Solver_accepts (s : CScript) :
  (Solver s = None <-> s = ops [OP_ZEROCOINMINT]) /\
  forall kind sols, Solver s = Some (true, kind, sols) <-> standard s kind sols.
Proof.
  split.
  - apply Solver_throws.
  - intros kind sols. split; [|apply Solver_complete]. intros E.
    assert (Ne : s <> ops [OP_ZEROCOINMINT]) by by intros ->.
    destruct (Solver_standard s Ne) as (ok & kind' & sols' & E' & Hok & _). rewrite E in E'. injection E' as <- <- <-. by apply Hok.
Qed.

(** ** Destinations and scripts *)

Definition dest_ok (dest : CTxDestination) : Prop :=
  match dest with CNoDestination => False | CKeyID h | CScriptID h => wf 5 h end.

Lemma reads_push b rest l : Z.of_nat (length b) < 2 ^ 32 -> reads_as rest l -> reads_as (push_data [] b ++ rest) ((push_op b, b) :: l).
Proof. intros Hb R. apply reads_as_cons. by rewrite GetOp2_push_data. Qed.

Lemma reads_opcode c rest l : OP_PUSHDATA4 < byte.unsigned c -> reads_as rest l -> reads_as (c :: rest) ((byte.unsigned c, []) :: l).
Proof. intros Hc R. apply reads_as_cons. by rewrite GetOp2_opcode. Qed.

Lemma ExtractDestination_script buf dest : dest_ok dest -> ExtractDestination buf (GetScriptForDestination dest) = Some (Some dest).
Proof.
  destruct dest as [|h|h]; [done| |]; intros Wh; cbn [dest_ok] in Wh; unfold ExtractDestination, GetScriptForDestination;
    (assert (L : length (uint_bytes h) = 20%nat) by (rewrite uint_bytes_length; destruct Wh as [-> _]; done)).
  - rewrite (Solver_complete _ TX_PUBKEYHASH [uint_bytes h]).
    + cbn [mbind option_bind negb]. by rewrite bytes_uint_bytes.
    + apply (standard_pubkeyhash _ (push_op (uint_bytes h))); [|done]. rewrite push_data_app, <- app_assoc. cbn [ops map app].
      apply (reads_opcode (byte.of_Z OP_DUP)); [done|]. apply (reads_opcode (byte.of_Z OP_HASH160)); [done|]. apply reads_push; [by rewrite L|].
      apply (reads_opcode (byte.of_Z OP_EQUALVERIFY)); [done|]. apply (reads_opcode (byte.of_Z OP_CHECKSIG)); [done|]. constructor.
  - rewrite (Solver_complete _ TX_SCRIPTHASH [uint_bytes h]).
    + cbn [mbind option_bind negb]. by rewrite bytes_uint_bytes.
    + by apply standard_scripthash.
Qed.

(** A key that is valid fills its announced length. *)
Lemma valid_key_length k : pk_ok k -> pk_IsValid k = true -> length (pk_bytes k) = 33%nat \/ length (pk_bytes k) = 65%nat.
Proof.
  unfold pk_ok, pk_IsValid, pk_bytes. intros Ok V. apply Nat.ltb_lt in V. rewrite length_take, Ok. unfold pk_size in *.
  destruct (GetLen_cases (nth 0 (pk_vch k) Byte.x00)) as [E|[E|E]]; lia.
Qed.

Lemma valid_key_again buf k : length buf = 65%nat -> pk_ok k -> pk_IsValid k = true ->
  pk_IsValid (CPubKey_of buf (pk_bytes k)) = true /\ pk_bytes (CPubKey_of buf (pk_bytes k)) = pk_bytes k.
Proof.
  intros Hb Ok V. pose proof (valid_key_length k Ok V) as L. destruct (Set_spec (mk_CPubKey buf) (pk_bytes k) Hb) as [Ev Eb].
  unfold CPubKey_of. rewrite Ev.
  assert (K : match pk_bytes k with [] => false | c :: _ => negb (GetLen c =? 0)%nat && (GetLen c =? length (pk_bytes k))%nat end = true).
  { unfold pk_IsValid, pk_bytes, pk_size in *. apply Nat.ltb_lt in V. unfold pk_ok in Ok. destruct (pk_vch k) as [|c v]; [done|].
    cbn [nth] in *. destruct (GetLen c) eqn:E; [lia|]. cbn [take]. rewrite E. cbn [Nat.eqb negb andb length]. apply Nat.eqb_eq.
    rewrite length_take. cbn [length] in Ok. destruct (GetLen_cases c) as [E'|[E'|E']]; rewrite E in E'; lia. }
  rewrite K in *. split; [done|by apply Eb].
Qed.

Lemma multisig_push_keys keys : forall s, foldl (fun script key => push_data script (pk_bytes key)) s keys =
  s ++ concat (map (fun key => push_data [] (pk_bytes key)) keys).
Proof.
  induction keys as [|k keys IH]; intros s; cbn [foldl map concat]; [by rewrite app_nil_r|]. rewrite IH, push_data_app. by rewrite <- app_assoc.
Qed.

Lemma EncodeOP_N_spec n : 1 <= n <= 16 -> EncodeOP_N n = Some (n + 80) /\ DecodeOP_N (n + 80) = Some n.
Proof.
  intros Hn. unfold EncodeOP_N, DecodeOP_N, OP_0, OP_1, OP_16. rewrite !Z.geb_leb.
  rewrite (proj2 (Z.leb_le 0 n)), (proj2 (Z.leb_le n 16)), (proj2 (Z.eqb_neq n 0)), (proj2 (Z.eqb_neq (n + 80) 0)), (proj2 (Z.leb_le 81 (n + 80))),
    (proj2 (Z.leb_le (n + 80) 96)) by lia. cbn [andb]. split; f_equal; lia.
Qed.

Lemma Solver_multisig nRequired keys : 1 <= nRequired <= Z.of_nat (length keys) -> Z.of_nat (length keys) <= 16 ->
  Forall (fun k => pk_ok k /\ pk_IsValid k = true) keys -> exists s, GetScriptForMultisig nRequired keys = Some s /\
  Solver s = Some (true, TX_MULTISIG, [byte.of_Z nRequired] :: map pk_bytes keys ++ [[byte.of_Z (Z.of_nat (length keys))]]).
Proof.
  intros Hm Hn Hk. unfold GetScriptForMultisig. destruct (EncodeOP_N_spec nRequired ltac:(lia)) as [-> Dm].
  destruct (EncodeOP_N_spec (Z.of_nat (length keys)) ltac:(lia)) as [-> Dn]. cbn [mbind option_bind]. eexists. split; [reflexivity|].
  apply Solver_complete. rewrite multisig_push_keys.
  assert (Ek : map pk_bytes keys = (map (fun k => (push_op (pk_bytes k), pk_bytes k)) keys).*2) by (clear; induction keys as [|k keys IH]; cbn; [done|]; by f_equal).
  rewrite Ek. apply (standard_multisig _ (nRequired + 80) nRequired _ (Z.of_nat (length keys) + 80)); [|done|done| |done|by rewrite length_map].
  - rewrite <- app_assoc. cbn [ops map app].
    assert (U : forall n, 1 <= n <= 16 -> byte.unsigned (byte.of_Z (n + 80)) = n + 80) by (intros n ?; apply unsigned_of_Z_small; lia).
    rewrite <- (U nRequired) by lia. rewrite <- (U (Z.of_nat (length keys))) by lia. rewrite !byte.of_Z_unsigned.
    apply reads_opcode; [rewrite U by lia; unfold OP_PUSHDATA4; lia|].
    assert (R : reads_as [byte.of_Z (Z.of_nat (length keys) + 80); byte.of_Z OP_CHECKMULTISIG]
      [(byte.unsigned (byte.of_Z (Z.of_nat (length keys) + 80)), []); (OP_CHECKMULTISIG, [])]).
    { apply reads_opcode; [rewrite U by lia; unfold OP_PUSHDATA4; lia|]. by apply (reads_opcode (byte.of_Z OP_CHECKMULTISIG)); [|constructor]. }
    revert R. generalize (byte.of_Z (Z.of_nat (length keys) + 80)). intros c R. clear -R Hk. induction Hk as [|k keys [Ok V] Hk IH]; cbn [map concat app]; [done|].
    rewrite <- app_assoc. apply reads_push; [|done]. destruct (valid_key_length k Ok V); lia.
  - apply Forall_map. eapply Forall_impl; [exact Hk|]. intros k [Ok V]. cbn. unfold key_size. by destruct (valid_key_length k Ok V) as [->| ->].
Qed.

(** C34: a destination is read back from its script, and the keys and the number of
    signatures from a script of several keys. *)
Theorem destinations_roundtrip (buf : list byte) (Hbuf : length buf = 65%nat) :
  (forall dest, dest_ok dest -> ExtractDestination buf (GetScriptForDestination dest) = Some (Some dest)) /\
  (forall nRequired keys, 1 <= nRequired <= Z.of_nat (length keys) -> Z.of_nat (length keys) <= 16 ->
     Forall (fun k => pk_ok k /\ pk_IsValid k = true) keys ->
     exists s, GetScriptForMultisig nRequired keys = Some s /\
       ExtractDestinations buf s = Some (Some (TX_MULTISIG, map (fun k => CKeyID (pk_GetID k)) keys, nRequired))).
Proof.
  split; [apply ExtractDestination_script|]. intros nRequired keys Hm Hn Hk.
  destruct (Solver_multisig nRequired keys Hm Hn Hk) as (s & Es & Sol). exists s. split; [done|]. unfold ExtractDestinations. rewrite Sol. cbn [mbind option_bind negb].
  cbn [head first_byte]. rewrite skipn_cons, skipn_O. rewrite unsigned_of_Z_small by lia. rewrite removelast_last.
  assert (Eo : omap (fun s => if pk_IsValid (CPubKey_of buf s) then Some (CKeyID (pk_GetID (CPubKey_of buf s))) else None) (map pk_bytes keys) =
    map (fun k => CKeyID (pk_GetID k)) keys).
  { clear -Hk Hbuf. induction Hk as [|k keys [Ok V] Hk IH]; [done|]. cbn [map omap list_omap].
    destruct (valid_key_again buf k Hbuf Ok V) as [-> Eb]. unfold pk_GetID at 1. rewrite Eb. by f_equal. }
  rewrite Eo. destruct keys as [|k keys]; [cbn in Hm; lia|done].
Qed.

Lemma destinations_roundtrip_witness :
  let buf := repeat Byte.x00 65 in
  let key c := CPubKey_of buf (repeat c 33) in
  ExtractDestination buf (GetScriptForDestination (CKeyID (base_uint_u64 5 7))) = Some (Some (CKeyID (base_uint_u64 5 7))) /\
  exists s, GetScriptForMultisig 1 [key Byte.x02; key Byte.x03] = Some s /\
    ExtractDestinations buf s = Some (Some (TX_MULTISIG, map (fun k => CKeyID (pk_GetID k)) [key Byte.x02; key Byte.x03], 1)).
Proof.
  intros buf key. destruct (destinations_roundtrip buf eq_refl) as [A B]. split.
  - apply A. split; [done|]. repeat (constructor; [by vm_compute|]). constructor.
  - apply B; [cbn; lia|cbn; lia|]. repeat (constructor; [by split|]). constructor.
Defined.
