(* ===== verification/MemPool.v ===== *)
(** * The memory pool ([txmempool.h], [txmempool.cpp])

    [CTxMemPool]: the transactions that wait for a block, and the map from the outputs they
    spend to the inputs that spend them.  The nodes of [mapTx] are kept in a store of their
    own, since [mapNextTx] points into them: reading a node that was erased is an error
    value.  Removal of a transaction with its descendants is shown to end, to remove exactly
    these, and to leave no pointer to an erased node. *)

From Stdlib Require Import ZArith Lia List Bool.
From stdpp Require Import base option list sorting gmap fin_maps.
From coqutil Require Import Byte Word.LittleEndianList.
From S2P Require Import Prelude Effects Uint256 Serialize MerkleDamgard Hash Script Tx Compressor Coins CoinsView Connect Params TxCheck.

Open Scope Z_scope.
Open Scope btc_scope.

(** ** The data *)

(** [MEMPOOL_HEIGHT]: the height of coins that are in the pool only. *)
Definition MEMPOOL_HEIGHT : Z := 0x7FFFFFFF.
Definition PROTOCOL_SIZE (tx : CTransaction) : Z := GetSerializeSize tx.

(** Keys of the maps in their order. *)
Definition hash_le (a b : uint256) : Prop := CompareTo a b <= 0.
#[export] Instance hash_le_dec : RelDecision hash_le.
Proof. intros a b. unfold hash_le. apply _. Defined.
Definition outpoint_le (a b : COutPoint) : Prop := COutPoint_lt b a = false.
#[export] Instance outpoint_le_dec : RelDecision outpoint_le.
Proof. intros a b. unfold outpoint_le. apply _. Defined.

#[export] Instance COutPoint_countable : Countable COutPoint.
Proof.
  refine (inj_countable' (fun o => (prev_hash o, prev_n o)) (fun p => mk_COutPoint p.1 p.2) _). by intros [].
Defined.

(** The address of a node of [mapTx]. *)
Abbreviation node := positive.

(** [CInPoint]: a transaction of the pool and a position in its [vin]. *)
Record CInPoint : Type := mk_CInPoint { in_ptx : node; in_n : nat }.

(** Rows of the address index and of the spent index. *)
Record CMempoolAddressDeltaKey : Type := mk_delta_key {
  dk_type : Z; dk_addressBytes : list byte; dk_txhash : uint256; dk_index : nat; dk_spending : bool }.
Record CMempoolAddressDelta : Type := mk_delta {
  ad_time : Z; ad_amount : CAmount; ad_prevhash : uint256; ad_prevout : Z }.

#[export] Instance delta_key_eq_dec : EqDecision CMempoolAddressDeltaKey.
Proof. solve_decision. Defined.
#[export] Instance delta_key_countable : Countable CMempoolAddressDeltaKey.
Proof.
  refine (inj_countable' (fun k => (dk_type k, dk_addressBytes k, dk_txhash k, dk_index k, dk_spending k))
    (fun p => let '(t, b, h, i, s) := p in mk_delta_key t b h i s) _). by intros [].
Defined.

Section data.
(** Priorities are [double]s, of which only the sum and zero matter here; [E] is the fee
    estimator. *)
Context {D E : Type}.

Record CTxMemPoolEntry : Type := mk_pool_entry {
  e_tx : CTransaction; e_nFee : CAmount; e_nTxSize : Z; e_nModSize : Z; e_nTime : Z; e_dPriority : D; e_nHeight : Z }.

(** The constructor: the sizes are computed. *)
Definition CTxMemPoolEntry_of (tx : CTransaction) (nFee nTime : Z) (dPriority : D) (nHeight : Z) : CTxMemPoolEntry :=
  let nTxSize := PROTOCOL_SIZE tx in
  mk_pool_entry tx nFee nTxSize (CalculateModifiedSize tx nTxSize) nTime dPriority nHeight.

Record CTxMemPool : Type := mk_pool {
  fSanityCheck : bool; nTransactionsUpdated : Z; minerPolicyEstimator : E; minRelayFee : CFeeRate; totalTxSize : Z;
  mp_nodes : gmap node CTxMemPoolEntry; mapTx : gmap uint256 node; mapNextTx : gmap COutPoint CInPoint;
  mapDeltas : gmap uint256 (D * CAmount);
  mapAddress : gmap CMempoolAddressDeltaKey CMempoolAddressDelta; mapAddressInserted : gmap uint256 (list CMempoolAddressDeltaKey);
  mapSpent : gmap COutPoint CSpentIndexValue; mapSpentInserted : gmap uint256 (list COutPoint) }.

(** What is in the maps [mapTx] and [mapNextTx], and the counters. *)
Definition set_pool (p : CTxMemPool) (upd size : Z) (nodes : gmap node CTxMemPoolEntry) (txs : gmap uint256 node) (next : gmap COutPoint CInPoint) : CTxMemPool :=
  mk_pool (fSanityCheck p) upd (minerPolicyEstimator p) (minRelayFee p) size nodes txs next (mapDeltas p)
    (mapAddress p) (mapAddressInserted p) (mapSpent p) (mapSpentInserted p).
Definition set_estimator (p : CTxMemPool) (e : E) (deltas : gmap uint256 (D * CAmount)) : CTxMemPool :=
  mk_pool (fSanityCheck p) (nTransactionsUpdated p) e (minRelayFee p) (totalTxSize p) (mp_nodes p) (mapTx p) (mapNextTx p) deltas
    (mapAddress p) (mapAddressInserted p) (mapSpent p) (mapSpentInserted p).
Definition set_indexes (p : CTxMemPool) (a : gmap CMempoolAddressDeltaKey CMempoolAddressDelta) (ai : gmap uint256 (list CMempoolAddressDeltaKey))
    (s : gmap COutPoint CSpentIndexValue) (si : gmap uint256 (list COutPoint)) : CTxMemPool :=
  mk_pool (fSanityCheck p) (nTransactionsUpdated p) (minerPolicyEstimator p) (minRelayFee p) (totalTxSize p)
    (mp_nodes p) (mapTx p) (mapNextTx p) (mapDeltas p) a ai s si.

(** The constructor. *)
Definition CTxMemPool_new (est : E) (minRelay : CFeeRate) : CTxMemPool := mk_pool false 0 est minRelay 0 ∅ ∅ ∅ ∅ ∅ ∅ ∅ ∅.

(** [mapTx.find(hash)->second]. *)
Definition entry_at (p : CTxMemPool) (hash : uint256) : option CTxMemPoolEntry := n ← mapTx p !! hash; mp_nodes p !! n.
Definition pool_tx (p : CTxMemPool) (hash : uint256) : option CTransaction := e_tx <$> entry_at p hash.

(** The hashes of [mapTx] and the keys of [mapNextTx], in the order of the maps. *)
Definition mapTx_keys (p : CTxMemPool) : list uint256 := merge_sort hash_le (map_to_list (mapTx p)).*1.
Definition mapNextTx_keys (p : CTxMemPool) : list COutPoint := merge_sort outpoint_le (map_to_list (mapNextTx p)).*1.
End data.
Arguments CTxMemPoolEntry : clear implicits.
Arguments CTxMemPool : clear implicits.

(** ** The operations *)

Section operations.
Context {D E : Type} (dplus : D -> D -> D) (d0 : D).
Context (seenBlock : E -> list (CTxMemPoolEntry D) -> Z -> CFeeRate -> E).

Abbreviation pool := (CTxMemPool D E).
Abbreviation act := (eff pool failure).

Definition exists_tx (hash : uint256) (p : pool) : bool := bool_decide (is_Some (mapTx p !! hash)).
Definition lookup_tx (hash : uint256) (p : pool) : option CTransaction := pool_tx p hash.
Definition pool_size (p : pool) : nat := size (mapTx p).
Definition queryHashes (p : pool) : list uint256 := mapTx_keys p.

(** [it->second.ptx->GetHash()]: the node has to be there still. *)
Definition tx_of (c : CInPoint) (p : pool) : result failure CTransaction :=
  match mp_nodes p !! in_ptx c with Some e => Ret (e_tx e) | None => Err Undefined end.

(** The inputs of a transaction, entered in [mapNextTx]. *)
Fixpoint enter_inputs (n : node) (i : nat) (vin : list CTxIn) (next : gmap COutPoint CInPoint) : gmap COutPoint CInPoint :=
  match vin with
  | [] => next
  | txin :: vin => enter_inputs n (S i) vin (<[prevout txin := mk_CInPoint n i]> next)
  end.

(** [mapTx[hash] = entry] reuses the node of [hash], or makes one. *)
Definition addUnchecked (hash : uint256) (entry : CTxMemPoolEntry D) (p : pool) : pool :=
  let n := default (fresh (dom (mp_nodes p))) (mapTx p !! hash) in
  let tx := e_tx entry in
  set_pool p (u32 (nTransactionsUpdated p + 1)) (u64 (totalTxSize p + e_nTxSize entry))
    (<[n := entry]> (mp_nodes p)) (<[hash := n]> (mapTx p))
    (if negb (HasZerocoinSpendInputs tx) then enter_inputs n 0 (tx_vin tx) (mapNextTx p) else mapNextTx p).

(** The transactions that spend outputs [i], [i + 1], ... of [hash], [k] of them. *)
Fixpoint spenders (hash : uint256) (i k : nat) (p : pool) : result failure (list uint256) :=
  match k with
  | O => Ret []
  | S k =>
      match mapNextTx p !! mk_COutPoint hash (Z.of_nat i) with
      | None => spenders hash (S i) k p
      | Some it => let* tx := tx_of it p in let* rest := spenders hash (S i) k p in Ret (tx_hash tx :: rest)
      end
  end.

(** The entry [e] of [hash] leaves the pool. *)
Definition erase_tx (hash : uint256) (n : node) (e : CTxMemPoolEntry D) (p : pool) : pool :=
  set_pool p (u32 (nTransactionsUpdated p + 1)) (u64 (totalTxSize p - e_nTxSize e))
    (delete n (mp_nodes p)) (delete hash (mapTx p))
    (foldl (fun next txin => delete (prevout txin) next) (mapNextTx p) (tx_vin (e_tx e))).

(** The loop over the queue; [removed] is the list of the transactions removed. *)
Fixpoint remove_loop (fuel : nat) (fRecursive : bool) (txToRemove : list uint256) (removed : list CTransaction) : act (list CTransaction) :=
  match txToRemove with
  | [] => eret removed
  | hash :: txToRemove =>
      match fuel with
      | O => throw Undefined
      | S fuel => fun p =>
          match mapTx p !! hash with
          | None => remove_loop fuel fRecursive txToRemove removed p
          | Some n =>
              match mp_nodes p !! n with
              | None => (Err Undefined, p)
              | Some e =>
                  let tx := e_tx e in
                  match (if fRecursive then spenders hash 0 (length (tx_vout tx)) p else Ret []) with
                  | Err x => (Err x, p)
                  | Ret more => remove_loop fuel fRecursive (txToRemove ++ more) (removed ++ [tx]) (erase_tx hash n e p)
                  end
              end
          end
      end
  end.

(** Turns of the loop: the hashes queued, and those that the outputs of the transactions in
    the pool can add. *)
Definition remove_fuel (p : pool) (q : list uint256) : nat :=
  length q + map_fold (fun _ e n => length (tx_vout (e_tx e)) + n)%nat 0%nat (mp_nodes p).

Definition remove (origTx : CTransaction) (removed : list CTransaction) (fRecursive : bool) : act (list CTransaction) := fun p =>
  let hash := tx_hash origTx in
  match (if fRecursive && negb (exists_tx hash p) then spenders hash 0 (length (tx_vout origTx)) p else Ret []) with
  | Err x => (Err x, p)
  | Ret more => remove_loop (remove_fuel p (hash :: more)) fRecursive (hash :: more) removed p
  end.

(** The conflicts of the inputs [vin] of [tx]. *)
Fixpoint removeConflicts_loop (tx : CTransaction) (vin : list CTxIn) (removed : list CTransaction) : act (list CTransaction) :=
  match vin with
  | [] => eret removed
  | txin :: vin => fun p =>
      match mapNextTx p !! prevout txin with
      | None => removeConflicts_loop tx vin removed p
      | Some it =>
          (do* txConflict := lift (tx_of it p) in
           do* removed := (if negb (bool_decide (tx_hash txConflict = tx_hash tx)) then remove txConflict removed true else eret removed) in
           removeConflicts_loop tx vin removed) p
      end
  end.
Definition removeConflicts (tx : CTransaction) (removed : list CTransaction) : act (list CTransaction) :=
  removeConflicts_loop tx (tx_vin tx) removed.

Definition ClearPrioritisation (hash : uint256) (p : pool) : pool :=
  set_estimator p (minerPolicyEstimator p) (delete hash (mapDeltas p)).

(** The entries of the transactions of a block that are in the pool. *)
Fixpoint block_entries (vtx : list CTransaction) (p : pool) : result failure (list (CTxMemPoolEntry D)) :=
  match vtx with
  | [] => Ret []
  | tx :: vtx =>
      match mapTx p !! tx_hash tx with
      | None => block_entries vtx p
      | Some n => match mp_nodes p !! n with
                  | None => Err Undefined
                  | Some e => let* rest := block_entries vtx p in Ret (e :: rest)
                  end
      end
  end.

(** One transaction of a block. *)
Definition remove_mined (conflicts : list CTransaction) (tx : CTransaction) : act (list CTransaction) :=
  do* _ := remove tx [] false in
  do* conflicts := removeConflicts tx conflicts in
  do* _ := update (ClearPrioritisation (tx_hash tx)) in
  eret conflicts.

Definition removeForBlock (vtx : list CTransaction) (nBlockHeight : Z) (conflicts : list CTransaction) : act (list CTransaction) :=
  do* entries := (fun p => (block_entries vtx p, p)) in
  do* _ := update (fun p => set_estimator p (seenBlock (minerPolicyEstimator p) entries nBlockHeight (minRelayFee p)) (mapDeltas p)) in
  efold remove_mined vtx conflicts.

Definition clear (p : pool) : pool := set_pool p (u32 (nTransactionsUpdated p + 1)) 0 ∅ ∅ ∅.

Definition GetTransactionsUpdated (p : pool) : Z := nTransactionsUpdated p.
Definition AddTransactionsUpdated (n : Z) (p : pool) : pool :=
  set_pool p (u32 (nTransactionsUpdated p + n)) (totalTxSize p) (mp_nodes p) (mapTx p) (mapNextTx p).

(** Priorities; the sums of fees are [int64_t]. *)
Definition PrioritiseTransaction (hash : uint256) (dPriorityDelta : D) (nFeeDelta : CAmount) : act unit := fun p =>
  let deltas := default (d0, 0) (mapDeltas p !! hash) in
  let fee := deltas.2 + nFeeDelta in
  if (- 2 ^ 63 <=? fee) && (fee <? 2 ^ 63)
  then (Ret tt, set_estimator p (minerPolicyEstimator p) (<[hash := (dplus deltas.1 dPriorityDelta, fee)]> (mapDeltas p)))
  else (Err Undefined, p).
Definition ApplyDeltas (hash : uint256) (dPriorityDelta : D) (nFeeDelta : CAmount) (p : pool) : result failure (D * CAmount) :=
  match mapDeltas p !! hash with
  | None => Ret (dPriorityDelta, nFeeDelta)
  | Some deltas =>
      let fee := nFeeDelta + deltas.2 in
      if (- 2 ^ 63 <=? fee) && (fee <? 2 ^ 63) then Ret (dplus dPriorityDelta deltas.1, fee) else Err Undefined
  end.

(** The outputs of [hashTx] that the pool spends are taken from [coins]; the keys of
    [mapNextTx] with this hash are neighbours. *)
Definition pruneSpent (hashTx : uint256) (coins : CCoins) (p : pool) : CCoins :=
  foldl (fun c o => if bool_decide (prev_hash o = hashTx) then match Spend c (Z.to_nat (prev_n o)) with Some (c', _) => c' | None => c end else c)
    coins (mapNextTx_keys p).

Definition removeAddressIndex (txhash : uint256) (p : pool) : pool :=
  match mapAddressInserted p !! txhash with
  | None => p
  | Some keys => set_indexes p (foldl (fun m k => delete k m) (mapAddress p) keys) (delete txhash (mapAddressInserted p)) (mapSpent p) (mapSpentInserted p)
  end.
Definition removeSpentIndex (txhash : uint256) (p : pool) : pool :=
  match mapSpentInserted p !! txhash with
  | None => p
  | Some keys => set_indexes p (mapAddress p) (mapAddressInserted p) (foldl (fun m k => delete k m) (mapSpent p) keys) (delete txhash (mapSpentInserted p))
  end.
Definition getSpentIndex (key : COutPoint) (p : pool) : option CSpentIndexValue := mapSpent p !! key.
End operations.

(** ** Well-formed pools *)

Lemma foldl_delete_lookup {K A B} `{Countable K} (f : B -> K) (l : list B) (m : gmap K A) (k : K) :
  foldl (fun m x => delete (f x) m) m l !! k = if decide (k ∈ f <$> l) then None else m !! k.
Proof.
  revert m. induction l as [|x l IH]; intros m; cbn [foldl].
  - rewrite decide_False; [done|]. by intros ?%elem_of_nil.
  - rewrite IH, fmap_cons. destruct (decide (k ∈ f <$> l)) as [Hl|Nl]; [by rewrite decide_True by (apply elem_of_cons; auto)|].
    destruct (decide (k = f x)) as [->|Ne]; [rewrite lookup_delete_eq, decide_True by apply list_elem_of_here; done|].
    rewrite lookup_delete_ne by done. rewrite decide_False; [done|]. by intros [?|?]%elem_of_cons.
Qed.

Lemma map_sum_delete {A} (f : A -> Z) (m : gmap positive A) n x : m !! n = Some x ->
  map_fold (fun _ a s => f a + s) 0 m = f x + map_fold (fun _ a s => f a + s) 0 (delete n m).
Proof. intros E. apply (map_fold_delete_L (fun _ a s => f a + s)); [intros; lia|done]. Qed.

Lemma map_sum_nat_delete {A} (f : A -> nat) (m : gmap positive A) n x : m !! n = Some x ->
  map_fold (fun _ a s => f a + s)%nat 0%nat m = (f x + map_fold (fun _ a s => f a + s)%nat 0%nat (delete n m))%nat.
Proof. intros E. apply (map_fold_delete_L (fun _ a s => f a + s)%nat); [intros; lia|done]. Qed.

Section pool_invariant.
Context {D E : Type}.
Abbreviation pool := (CTxMemPool D E).

(** [c] is the input of a transaction of the pool that spends [o]. *)
Definition spends_at (p : pool) (o : COutPoint) (c : CInPoint) : Prop :=
  exists e i, mp_nodes p !! in_ptx c = Some e /\ tx_vin (e_tx e) !! in_n c = Some i /\ prevout i = o.

Definition pool_bytes (p : pool) : Z := map_fold (fun _ e s => e_nTxSize e + s) 0 (mp_nodes p).

(** The maps of a pool agree with each other: nodes are stored under the hash of their
    transaction, [mapNextTx] holds the inputs of all of them and nothing else, no output is
    spent twice, and the size is the sum of the sizes.  Zerocoin spends, whose inputs are not
    entered, are left out. *)
Record pool_wf (p : pool) : Prop := {
  pw_tx (h : uint256) (n : node) : mapTx p !! h = Some n -> exists e, mp_nodes p !! n = Some e /\ tx_hash (e_tx e) = h;
  pw_node (n : node) e : mp_nodes p !! n = Some e -> mapTx p !! tx_hash (e_tx e) = Some n;
  pw_next (o : COutPoint) c : mapNextTx p !! o = Some c <-> spends_at p o c;
  pw_plain (n : node) e : mp_nodes p !! n = Some e -> HasZerocoinSpendInputs (e_tx e) = false;
  pw_size : totalTxSize p = u64 (pool_bytes p) }.

(** The pool [p'] is [p] without the transactions in [R]. *)
Record without (R : gset uint256) (p p' : pool) : Prop := {
  wo_tx (h : uint256) : mapTx p' !! h = if decide (h ∈ R) then None else mapTx p !! h;
  wo_node (n : node) : mp_nodes p' !! n = e ← mp_nodes p !! n; if decide (tx_hash (e_tx e) ∈ R) then None else Some e;
  wo_wf : pool_wf p';
  wo_check : fSanityCheck p' = fSanityCheck p }.

Lemma pool_tx_node p h t : pool_wf p -> pool_tx p h = Some t <-> exists n e, mp_nodes p !! n = Some e /\ e_tx e = t /\ tx_hash t = h.
Proof using.
  intros Wf. unfold pool_tx, entry_at. split.
  - destruct (mapTx p !! h) as [n|] eqn:Ex; [|done]. cbn [mbind option_bind]. destruct (pw_tx p Wf h n Ex) as (e & En & Eh).
    rewrite En. intros [= <-]. by exists n, e.
  - intros (n & e & En & <- & <-). rewrite (pw_node p Wf n e En). cbn [mbind option_bind]. by rewrite En.
Qed.

Lemma without_refl p : pool_wf p -> without ∅ p p.
Proof using.
  intros Wf. split; [intros h; by rewrite decide_False by set_solver| |done|done].
  intros n. destruct (mp_nodes p !! n) as [e|]; [|done]. cbn [mbind option_bind]. by rewrite decide_False by set_solver.
Qed.

Lemma without_trans R R' p p1 p2 : without R p p1 -> without R' p1 p2 -> without (R ∪ R') p p2.
Proof using.
  intros [A1 B1 C1 D1] [A2 B2 C2 D2]. split; [| |done|congruence].
  - intros h. rewrite A2, A1. repeat case_decide; set_solver.
  - intros n. rewrite B2, B1. destruct (mp_nodes p !! n) as [e|]; [|done]. cbn [mbind option_bind].
    case_decide; cbn [mbind option_bind]; repeat case_decide; set_solver.
Qed.

(** What is left of it. *)
Lemma without_pool_tx R p p' h : without R p p' -> pool_tx p' h = if decide (h ∈ R) then None else pool_tx p h.
Proof using.
  intros [A B C _]. unfold pool_tx, entry_at. rewrite A. case_decide as Hh; [done|].
  destruct (mapTx p !! h) as [n|] eqn:En; [|done]. cbn [mbind option_bind]. rewrite B.
  destruct (mp_nodes p !! n) as [e|] eqn:Ee; [|done]. cbn [mbind option_bind].
  assert (En' : mapTx p' !! h = Some n) by (rewrite A, decide_False by done; done).
  destruct (pw_tx p' C h n En') as (e' & Ee' & Eh). rewrite B, Ee in Ee'. cbn [mbind option_bind] in Ee'.
  case_decide as Hr; [done|]. done.
Qed.

Lemma erase_next (p : pool) (n : node) e (o : COutPoint) : pool_wf p -> mp_nodes p !! n = Some e ->
  foldl (fun next txin => delete (prevout txin) next) (mapNextTx p) (tx_vin (e_tx e)) !! o =
  c ← mapNextTx p !! o; if decide (in_ptx c = n) then None else Some c.
Proof using.
  intros Wf En. rewrite (foldl_delete_lookup prevout). case_decide as Ho.
  - apply list_elem_of_fmap in Ho as (i & -> & Hi). apply list_elem_of_lookup in Hi as [k Hk].
    assert (S : mapNextTx p !! prevout i = Some (mk_CInPoint n k)) by (apply (pw_next p Wf); by exists e, i).
    rewrite S. cbn [mbind option_bind in_ptx]. by rewrite decide_True.
  - destruct (mapNextTx p !! o) as [c|] eqn:Ec; [|done]. cbn [mbind option_bind]. case_decide as Hn; [|done].
    apply (pw_next p Wf) in Ec as (e' & i & Ee' & Hi & <-). rewrite Hn, En in Ee'. injection Ee' as <-.
    destruct Ho. apply list_elem_of_fmap. exists i. split; [done|]. by apply list_elem_of_lookup_2 in Hi.
Qed.

(** One transaction leaves. *)
Lemma erase_tx_ok (p : pool) (h : uint256) (n : node) e : pool_wf p -> mapTx p !! h = Some n -> mp_nodes p !! n = Some e -> without {[h]} p (erase_tx h n e p).
Proof using.
  intros Wf Eh En. assert (Hh : tx_hash (e_tx e) = h) by (destruct (pw_tx p Wf h n Eh) as (e' & E1 & E2); rewrite En in E1; by injection E1 as <-).
  assert (Hn : forall n' e', mp_nodes p !! n' = Some e' -> tx_hash (e_tx e') = h -> n' = n).
  { intros n' e' E1 E2. apply (pw_node p Wf) in E1. rewrite E2, Eh in E1. by injection E1. }
  assert (A : forall k, delete h (mapTx p) !! k = if decide (k ∈ ({[h]} : gset uint256)) then None else mapTx p !! k).
  { intros k. case_decide as Hk; [apply elem_of_singleton in Hk as ->; by rewrite lookup_delete_eq|]. rewrite lookup_delete_ne; [done|]. set_solver. }
  assert (B : forall k, delete n (mp_nodes p) !! k = e' ← mp_nodes p !! k; if decide (tx_hash (e_tx e') ∈ ({[h]} : gset uint256)) then None else Some e').
  { intros k. destruct (decide (k = n)) as [->|Nk].
    - rewrite lookup_delete_eq, En. cbn [mbind option_bind]. by rewrite decide_True by set_solver.
    - rewrite lookup_delete_ne by done. destruct (mp_nodes p !! k) as [e'|] eqn:E'; [|done]. cbn [mbind option_bind].
      rewrite decide_False; [done|]. intros Hk%elem_of_singleton. by apply Nk, (Hn k e'). }
  split; [exact A|exact B| |done]. constructor; cbn [erase_tx set_pool mapTx mp_nodes mapNextTx totalTxSize].
  - intros k m Hk. apply lookup_delete_Some in Hk as [Nk Hk]. destruct (pw_tx p Wf k m Hk) as (e' & E1 & E2). exists e'. split; [|done].
    rewrite lookup_delete_ne; [done|]. intros ->. rewrite En in E1. injection E1 as <-. congruence.
  - intros m e' Hm. apply lookup_delete_Some in Hm as [Nm Hm]. rewrite lookup_delete_ne; [by apply (pw_node p Wf)|].
    intros E'. by apply Nm, eq_sym, (Hn m e').
  - intros o c. unfold spends_at. cbn [erase_tx set_pool mp_nodes]. rewrite (erase_next p n e o Wf En).
    destruct (decide (in_ptx c = n)) as [Ec|Nc].
    + split; [|intros (e' & i & E1 & _); by rewrite Ec, lookup_delete_eq in E1].
      destruct (mapNextTx p !! o) as [c'|]; [|done]. cbn [mbind option_bind]. case_decide; [done|]. intros [= ->]. done.
    + rewrite lookup_delete_ne by done. destruct (mapNextTx p !! o) as [c'|] eqn:Ec'; cbn [mbind option_bind].
      * case_decide as Hc.
        -- split; [done|]. intros S. apply (pw_next p Wf o c) in S. congruence.
        -- rewrite <- Ec'. apply (pw_next p Wf).
      * rewrite <- Ec'. apply (pw_next p Wf).
  - intros m e' Hm. apply lookup_delete_Some in Hm as [_ Hm]. by apply (pw_plain p Wf m).
  - rewrite (pw_size p Wf). unfold pool_bytes. cbn [erase_tx set_pool mp_nodes].
    rewrite (map_sum_delete e_nTxSize _ _ _ En). set (s := map_fold _ _ _). unfold u64. rewrite Zminus_mod_idemp_l. f_equal. lia.
Qed.
End pool_invariant.

(** ** Removal *)

Section removal.
Context {D E : Type}.
Abbreviation pool := (CTxMemPool D E).

(** The transaction [h'] of the pool spends an output of the transaction [h]. *)
Definition spends_output (p : pool) (t : CTransaction) (h' : uint256) : Prop :=
  exists t' x i, pool_tx p h' = Some t' /\ x ∈ tx_vin t' /\ prevout x = mk_COutPoint (tx_hash t) (Z.of_nat i) /\ (i < length (tx_vout t))%nat.
Definition child (p : pool) (h h' : uint256) : Prop := exists t, pool_tx p h = Some t /\ spends_output p t h'.

Lemma spends_output_next (p : pool) t h' : pool_wf p ->
  spends_output p t h' <-> exists i c e, (i < length (tx_vout t))%nat /\ mapNextTx p !! mk_COutPoint (tx_hash t) (Z.of_nat i) = Some c /\
    mp_nodes p !! in_ptx c = Some e /\ tx_hash (e_tx e) = h'.
Proof using.
  intros Wf. split.
  - intros (t' & x & i & Et & Hx & Ex & Hi). apply (pool_tx_node p h' t' Wf) in Et as (n & e & En & <- & <-).
    apply list_elem_of_lookup in Hx as [k Hk]. exists i, (mk_CInPoint n k), e. split; [done|]. split; [|done].
    apply (pw_next p Wf). by exists e, x.
  - intros (i & c & e & Hi & Ec & Ee & <-). apply (pw_next p Wf) in Ec as (e' & x & Ee' & Hx & Ex). rewrite Ee in Ee'. injection Ee' as <-.
    exists (e_tx e), x, i. split; [apply (pool_tx_node p _ _ Wf); by exists (in_ptx c), e|]. split; [by apply list_elem_of_lookup_2 in Hx|done].
Qed.

Lemma spenders_spec (p : pool) (h : uint256) : pool_wf p -> forall k i, exists l, spenders h i k p = Ret l /\ (length l <= k)%nat /\
  forall h', h' ∈ l <-> exists j c e, (i <= j < i + k)%nat /\ mapNextTx p !! mk_COutPoint h (Z.of_nat j) = Some c /\
    mp_nodes p !! in_ptx c = Some e /\ tx_hash (e_tx e) = h'.
Proof using.
  intros Wf. induction k as [|k IH]; intros i; cbn [spenders].
  { exists []. split; [done|]. split; [cbn; lia|]. intros h'. split; [by intros ?%elem_of_nil|intros (j & c & e & Hj & _); lia]. }
  destruct (IH (S i)) as (l & El & Ll & Hl). destruct (mapNextTx p !! mk_COutPoint h (Z.of_nat i)) as [c|] eqn:Ec.
  - pose proof (proj1 (pw_next p Wf _ _) Ec) as (e & x & Ee & _ & _). unfold tx_of. rewrite Ee. cbn [result_bind]. rewrite El. cbn [result_bind].
    exists (tx_hash (e_tx e) :: l). split; [done|]. split; [cbn; lia|]. intros h'. rewrite elem_of_cons, Hl. split.
    + intros [->|(j & c' & e' & Hj & K)]; [exists i, c, e; repeat split; [lia|lia|done|done]|exists j, c', e'; split; [lia|done]].
    + intros (j & c' & e' & Hj & E1 & E2 & E3). destruct (decide (j = i)) as [->|]; [left; congruence|]. right. exists j, c', e'. split; [lia|done].
  - exists l. split; [done|]. split; [lia|]. intros h'. rewrite Hl. split; intros (j & c' & e' & Hj & K).
    + exists j, c', e'. split; [lia|done].
    + exists j, c', e'. split; [|done]. destruct (decide (j = i)) as [->|]; [|lia]. destruct K as [K _]. by rewrite Ec in K.
Qed.

Lemma spenders_of (p : pool) t : pool_wf p ->
  exists l, spenders (tx_hash t) 0 (length (tx_vout t)) p = Ret l /\ (length l <= length (tx_vout t))%nat /\ forall h', h' ∈ l <-> spends_output p t h'.
Proof using.
  intros Wf. destruct (spenders_spec p (tx_hash t) Wf (length (tx_vout t)) 0) as (l & El & Ll & Hl). exists l. split; [done|]. split; [done|].
  intros h'. rewrite Hl, spends_output_next by done. split; intros (j & c & e & Hj & K); exists j, c, e; (split; [lia|done]).
Qed.

(** The turns of the loop that are left at most. *)
Definition loop_measure (p : pool) (q : list uint256) : nat :=
  (length q + map_fold (fun _ e n => length (tx_vout (e_tx e)) + n) 0 (mp_nodes p))%nat.

(** What the loop does from the pool [p], of which [p0] has lost the transactions in [R]
    already. *)
Record removes (p0 : pool) (rec : bool) (q : list uint256) (R : gset uint256) (removed : list CTransaction)
    (p' : pool) (removed' : list CTransaction) (R' : gset uint256) : Prop := {
  rm_without : without R' p0 p';
  rm_more : R ⊆ R';
  rm_queued h : h ∈ q -> is_Some (pool_tx p0 h) -> h ∈ R';
  rm_closed h h' : rec = true -> h ∈ R' -> h ∉ R -> child p0 h h' -> h' ∈ R';
  rm_only h : h ∈ R' -> h ∉ R -> is_Some (pool_tx p0 h) /\ exists h0, h0 ∈ q /\ (if rec then rtc (child p0) h0 h else h = h0);
  rm_listed : exists l, removed' = removed ++ l /\ NoDup (tx_hash <$> l) /\ forall t, t ∈ l <-> pool_tx p0 (tx_hash t) = Some t /\ tx_hash t ∈ R' ∖ R }.

Lemma remove_loop_spec (p0 : pool) rec : pool_wf p0 -> forall fuel q removed p R, without R p0 p -> (loop_measure p q <= fuel)%nat ->
  exists p' removed' R', remove_loop fuel rec q removed p = (Ret removed', p') /\ removes p0 rec q R removed p' removed' R'.
Proof using.
  intros Wf0. induction fuel as [|fuel IH]; intros q removed p R W M.
  { destruct q as [|h q]; [|unfold loop_measure in M; cbn [length] in M; lia]. exists p, removed, R. split; [done|].
    split; [done|done|by intros h ?%elem_of_nil|done|done|]. exists []. split; [by rewrite app_nil_r|]. split; [apply NoDup_nil_2|].
    intros t. split; [by intros ?%elem_of_nil|set_solver]. }
  destruct q as [|h q]; cbn [remove_loop].
  { exists p, removed, R. split; [done|]. split; [done|done|by intros h ?%elem_of_nil|done|done|]. exists []. split; [by rewrite app_nil_r|].
    split; [apply NoDup_nil_2|]. intros t. split; [by intros ?%elem_of_nil|set_solver]. }
  pose proof (wo_wf _ _ _ W) as Wf. destruct (mapTx p !! h) as [n|] eqn:En.
  2: { destruct (IH q removed p R W) as (p' & removed' & R' & Run & [A B C C' C'' L]).
       { unfold loop_measure in *. cbn [length] in M. lia. }
       exists p', removed', R'. split; [done|]. split; [done|done| |done| |done].
       - intros k [->|Hk]%elem_of_cons Hp; [|by apply C]. apply B. destruct (decide (h ∈ R)) as [|Nh]; [done|].
         pose proof (without_pool_tx R p0 p h W) as K. rewrite decide_False in K by done. unfold pool_tx at 1, entry_at in K.
         rewrite En in K. cbn in K. rewrite <- K in Hp. by destruct Hp.
       - intros k Hk Nk. destruct (C'' k Hk Nk) as (S & h0 & H0 & K). split; [done|]. exists h0. split; [by apply list_elem_of_further|done]. }
  destruct (pw_tx p Wf h n En) as (e & Ee & Eh). rewrite Ee.
  assert (Pt : pool_tx p h = Some (e_tx e)) by (apply (pool_tx_node p h _ Wf); by exists n, e).
  pose proof (without_pool_tx R p0 p h W) as Pt0. rewrite Pt in Pt0. case_decide as Hh; [done|]. symmetry in Pt0.
  pose proof (erase_tx_ok p h n e Wf En Ee) as W1. pose proof (without_trans _ _ _ _ _ W W1) as W2.
  assert (exists more, (if rec then spenders h 0 (length (tx_vout (e_tx e))) p else Ret []) = Ret more /\
    (length more <= length (tx_vout (e_tx e)))%nat /\ forall h', h' ∈ more -> rec = true /\ spends_output p (e_tx e) h') as (more & Em & Lm & Hm).
  { destruct rec; [|exists []; split; [done|]; split; [cbn; lia|by intros h' ?%elem_of_nil]].
    destruct (spenders_of p (e_tx e) Wf) as (l & El & Ll & Hl). rewrite Eh in El. exists l. split; [done|]. split; [done|].
    intros h' H'. split; [done|by apply Hl]. }
  assert (Hmore : rec = true -> forall h', spends_output p (e_tx e) h' -> h' ∈ more).
  { intros ->. destruct (spenders_of p (e_tx e) Wf) as (l & El & _ & Hl). rewrite Eh, Em in El. injection El as <-. apply Hl. }
  rewrite Em. destruct (IH (q ++ more) (removed ++ [e_tx e]) _ _ W2) as (p' & removed' & R' & Run & [A B C C' C'' L]).
  { unfold loop_measure in *. cbn [erase_tx set_pool mp_nodes length] in *. rewrite length_app.
    rewrite (map_sum_nat_delete (fun e => length (tx_vout (e_tx e))) _ _ _ Ee) in M. lia. }
  assert (HR' : h ∈ R') by set_solver.
  (* the children that are left *)
  assert (Ch : forall t h', spends_output p0 t h' -> h' ∉ R -> spends_output p t h').
  { intros t h' (t' & x & i & Et' & K) Nh'. exists t', x, i. rewrite (without_pool_tx R p0 p h' W), decide_False by done. done. }
  assert (Cp : forall t h', spends_output p t h' -> spends_output p0 t h').
  { intros t h' (t' & x & i & Et' & K). exists t', x, i. rewrite (without_pool_tx R p0 p h' W) in Et'. by case_decide. }
  exists p', removed', R'. split; [done|]. split; [done|set_solver| | | |].
  - intros k [->|Hk]%elem_of_cons Hp; [done|]. apply C; [|done]. apply elem_of_app. by left.
  - intros k k' Hrec Hk Nk Hc. destruct (decide (k = h)) as [->|Nkh]; [|apply (C' k k' Hrec Hk); [set_solver|done]].
    destruct Hc as (t & Et & Hs). rewrite Pt0 in Et. injection Et as <-. destruct (decide (k' ∈ R)) as [Hr|Nr]; [set_solver|].
    apply C; [apply elem_of_app; right; apply Hmore; [done|by apply Ch]|]. destruct Hs as (t' & x & i & Et' & _). by rewrite Et'.
  - intros k Hk Nk. destruct (decide (k = h)) as [->|Nkh].
    { split; [by rewrite Pt0|]. exists h. split; [apply list_elem_of_here|]. by destruct rec. }
    destruct (C'' k Hk) as (S & h0 & [H0|H0]%elem_of_app & K); [set_solver| |].
    + split; [done|]. exists h0. split; [by apply list_elem_of_further|done].
    + destruct (Hm h0 H0) as [-> Hs]. split; [done|]. exists h. split; [apply list_elem_of_here|]. eapply rtc_l; [|exact K].
      exists (e_tx e). split; [done|by apply Cp].
  - destruct L as (l & -> & Nd & Hl). exists (e_tx e :: l). rewrite <- app_assoc. split; [done|].
    rewrite fmap_cons. split; [apply NoDup_cons; split; [|done]|].
    + rewrite Eh. intros (t & Et & Ht)%list_elem_of_fmap. apply Hl in Ht as [_ Ht]. rewrite <- Et in Ht. set_solver.
    + intros t. rewrite elem_of_cons, Hl. split.
      * intros [->|[Ht Hr]]; [rewrite Eh; split; [done|set_solver]|split; [done|set_solver]].
      * intros [Ht Hr]. destruct (decide (tx_hash t = h)) as [Eq|Nq]; [left; rewrite Eq, Pt0 in Ht; by injection Ht|right; split; [done|set_solver]].
Qed.
End removal.

Section remove.
Context {D E : Type}.
Abbreviation pool := (CTxMemPool D E).

(** The hashes [remove] starts from. *)
Definition origin (p : pool) (tx : CTransaction) (h0 : uint256) : Prop :=
  (is_Some (pool_tx p (tx_hash tx)) /\ h0 = tx_hash tx) \/ (pool_tx p (tx_hash tx) = None /\ spends_output p tx h0).

(** The transactions of the pool that leave with [tx]: itself and, if asked for, those that
    depend on it. *)
Definition affected (p : pool) (tx : CTransaction) (fRecursive : bool) (h : uint256) : Prop :=
  is_Some (pool_tx p h) /\ (if fRecursive then exists h0, origin p tx h0 /\ rtc (child p) h0 h else h = tx_hash tx).

Definition lists (p : pool) (R : gset uint256) (l : list CTransaction) : Prop :=
  NoDup (tx_hash <$> l) /\ forall t, t ∈ l <-> pool_tx p (tx_hash t) = Some t /\ tx_hash t ∈ R.

Lemma exists_tx_spec (p : pool) h : pool_wf p -> exists_tx h p = bool_decide (is_Some (pool_tx p h)).
Proof using.
  intros Wf. unfold exists_tx, pool_tx, entry_at. apply bool_decide_ext. destruct (mapTx p !! h) as [n|] eqn:En; [|by cbn].
  destruct (pw_tx p Wf h n En) as (e & Ee & _). cbn [mbind option_bind]. rewrite Ee. cbn. split; by eexists.
Qed.

Lemma spends_output_in (p : pool) t h : spends_output p t h -> is_Some (pool_tx p h).
Proof using. intros (t' & x & i & Et & _). by eexists. Qed.

Lemma child_in (p : pool) h h' : child p h h' -> is_Some (pool_tx p h').
Proof using. intros (t & _ & S). by eapply spends_output_in. Qed.

Lemma remove_spec (p : pool) (tx : CTransaction) removed rec : pool_wf p ->
  exists p' l R, remove tx removed rec p = (Ret (removed ++ l), p') /\ without R p p' /\ (forall h, h ∈ R <-> affected p tx rec h) /\ lists p R l.
Proof using.
  intros Wf. set (h := tx_hash tx).
  assert (exists more, (if rec && negb (exists_tx h p) then spenders h 0 (length (tx_vout tx)) p else Ret []) = Ret more /\
    forall h0, h0 ∈ more <-> rec = true /\ pool_tx p h = None /\ spends_output p tx h0) as (more & Em & Hm).
  { rewrite (exists_tx_spec p h Wf). destruct rec; cbn [andb]; [|exists []; split; [done|intros h0; split; [by intros ?%elem_of_nil|by intros []]]].
    destruct (pool_tx p h) as [t|] eqn:Et.
    - rewrite bool_decide_true by by eexists. exists []. split; [done|]. intros h0. split; [by intros ?%elem_of_nil|by intros (_ & ? & _)].
    - rewrite bool_decide_false by by intros []. cbn [negb]. destruct (spenders_of p tx Wf) as (l & El & _ & Hl). exists l. split; [done|].
      intros h0. rewrite Hl. tauto. }
  unfold remove. fold h. rewrite Em.
  destruct (remove_loop_spec p rec Wf (remove_fuel p (h :: more)) (h :: more) removed p ∅ (without_refl p Wf)) as (p' & removed' & R & Run & [A _ C C' C'' L]).
  { unfold loop_measure, remove_fuel. lia. }
  destruct L as (l & -> & Nd & Hl). exists p', l, R. split; [done|]. split; [done|].
  split; [|split; [done|intros t; rewrite Hl; set_solver]]. intros k. split.
  - intros Hk. destruct (C'' k Hk) as (S & h0 & H0 & K); [set_solver|]. split; [done|]. destruct rec.
    + exists h0. split; [|done]. apply elem_of_cons in H0 as [->|H0].
      * left. split; [|done]. apply rtc_inv in K as [<-|(y & (t & Et & _) & _)]; [done|by exists t].
      * apply Hm in H0 as (_ & N & S0). by right.
    + subst h0. apply elem_of_cons in H0 as [->|H0]; [done|]. by apply Hm in H0 as (? & _).
  - intros [S K]. destruct rec.
    + destruct K as (h0 & O & K). assert (H0 : h0 ∈ R).
      { destruct O as [[S0 ->]|[N S0]]; apply C; [apply list_elem_of_here|done| |by eapply spends_output_in].
        apply elem_of_cons. right. by apply Hm. }
      clear O S. induction K as [|a b c Hc K IH]; [done|]. apply IH. apply (C' a b eq_refl H0); [set_solver|done].
    + subst k. apply C; [apply list_elem_of_here|done].
Qed.

Lemma affected_closed (p : pool) tx h h' : affected p tx true h -> child p h h' -> affected p tx true h'.
Proof using. intros [S (h0 & O & K)] Hc. split; [by eapply child_in|]. exists h0. split; [done|]. by eapply rtc_r. Qed.

(** Paths that end outside a closed set stay outside. *)
Lemma rtc_without (R : gset uint256) (p p' : pool) h0 h : without R p p' -> (forall a b, a ∈ R -> child p a b -> b ∈ R) ->
  rtc (child p) h0 h -> h ∉ R -> h0 ∉ R /\ rtc (child p') h0 h.
Proof using.
  intros W Cl K Nh. induction K as [|a b c Hc K IH]; [done|]. destruct (IH Nh) as [Nb Kb].
  assert (Na : a ∉ R) by (intros Ha; by apply Nb, (Cl a)). split; [done|]. eapply rtc_l; [|exact Kb].
  destruct Hc as (t & Et & t' & x & i & Et' & Q). exists t. split; [by rewrite (without_pool_tx R p p' a W), decide_False|].
  exists t', x, i. split; [by rewrite (without_pool_tx R p p' b W), decide_False|done].
Qed.

Lemma child_without (R : gset uint256) (p p' : pool) a b : without R p p' -> child p' a b -> child p a b /\ a ∉ R /\ b ∉ R.
Proof using.
  intros W (t & Et & t' & x & i & Et' & Q). rewrite (without_pool_tx R p p' a W) in Et. rewrite (without_pool_tx R p p' b W) in Et'. case_decide; [done|]. case_decide; [done|].
  split; [|done]. exists t. split; [done|]. by exists t', x, i.
Qed.

(** [h] spends the out point [o]. *)
Definition spender (p : pool) (o : COutPoint) (h : uint256) : Prop := exists t x, pool_tx p h = Some t /\ x ∈ tx_vin t /\ prevout x = o.

Lemma spender_next (p : pool) o h : pool_wf p -> spender p o h <-> exists c e, mapNextTx p !! o = Some c /\ mp_nodes p !! in_ptx c = Some e /\ tx_hash (e_tx e) = h.
Proof using.
  intros Wf. split.
  - intros (t & x & Et & Hx & <-). apply (pool_tx_node p h t Wf) in Et as (n & e & En & <- & <-). apply list_elem_of_lookup in Hx as [k Hk].
    exists (mk_CInPoint n k), e. split; [|done]. apply (pw_next p Wf). by exists e, x.
  - intros (c & e & Ec & Ee & <-). apply (pw_next p Wf) in Ec as (e' & x & Ee' & Hx & <-). rewrite Ee in Ee'. injection Ee' as <-.
    exists (e_tx e), x. split; [apply (pool_tx_node p _ _ Wf); by exists (in_ptx c), e|]. split; [by apply list_elem_of_lookup_2 in Hx|done].
Qed.

Lemma spender_without (R : gset uint256) (p p' : pool) o h : without R p p' -> spender p' o h <-> spender p o h /\ h ∉ R.
Proof using.
  intros W. unfold spender. rewrite (without_pool_tx R p p' h W). case_decide; split.
  - by intros (t & x & ? & _).
  - by intros [_ ?].
  - intros (t & x & K). split; [by exists t, x|done].
  - by intros [(t & x & K) _]; exists t, x.
Qed.

(** Two transactions of the pool do not spend the same output. *)
Lemma spender_unique (p : pool) o h h' : pool_wf p -> spender p o h -> spender p o h' -> h = h'.
Proof using.
  intros Wf (c & e & Ec & Ee & <-)%(spender_next p o h Wf) (c' & e' & Ec' & Ee' & <-)%(spender_next p o h' Wf).
  rewrite Ec in Ec'. injection Ec' as <-. rewrite Ee in Ee'. by injection Ee' as <-.
Qed.

(** What leaves the pool in conflict with the inputs [vin] of [tx]. *)
Definition conflicting (p : pool) (tx : CTransaction) (vin : list CTxIn) (h : uint256) : Prop :=
  exists x h0, x ∈ vin /\ spender p (prevout x) h0 /\ h0 <> tx_hash tx /\ rtc (child p) h0 h.

Lemma conflicting_in (p : pool) tx vin h : conflicting p tx vin h -> is_Some (pool_tx p h).
Proof using.
  intros (x & h0 & _ & (t & y & Et & _) & _ & K). apply rtc_inv_r in K as [<-|(y' & _ & Hc)]; [by rewrite Et|by eapply child_in].
Qed.

Lemma removeConflicts_loop_spec (tx : CTransaction) vin : forall (p : pool) removed, pool_wf p ->
  exists p' l R, removeConflicts_loop tx vin removed p = (Ret (removed ++ l), p') /\ without R p p' /\ (forall h, h ∈ R <-> conflicting p tx vin h).
Proof using.
  induction vin as [|x vin IH]; intros p removed Wf; cbn [removeConflicts_loop].
  { exists p, [], ∅. rewrite app_nil_r. split; [done|]. split; [by apply without_refl|]. intros h. split; [set_solver|by intros (y & h0 & ?%elem_of_nil & _)]. }
  destruct (mapNextTx p !! prevout x) as [c|] eqn:Ec.
  2: { destruct (IH p removed Wf) as (p' & l & R & Run & W & HR). exists p', l, R. split; [done|]. split; [done|]. intros h. rewrite HR. split.
       - intros (y & h0 & Hy & K). exists y, h0. split; [by apply list_elem_of_further|done].
       - intros (y & h0 & [->|Hy]%elem_of_cons & Sp & K); [|by exists y, h0]. apply (spender_next p _ _ Wf) in Sp as (c & e & E1 & _). by rewrite Ec in E1. }
  pose proof (proj1 (pw_next p Wf _ _) Ec) as (e & i & Ee & _). unfold tx_of. rewrite Ee. unfold ebind at 1, lift.
  assert (Sp : spender p (prevout x) (tx_hash (e_tx e))) by (apply (spender_next p _ _ Wf); by exists c, e).
  case_bool_decide as Eq; cbn [negb].
  - destruct (IH p removed Wf) as (p' & l & R & Run & W & HR). exists p', l, R. split; [done|]. split; [done|]. intros h. rewrite HR. split.
    + intros (y & h0 & Hy & K). exists y, h0. split; [by apply list_elem_of_further|done].
    + intros (y & h0 & [->|Hy]%elem_of_cons & Sp' & Ne & K); [|by exists y, h0]. destruct Ne. rewrite <- Eq. by eapply spender_unique.
  - assert (Pe : pool_tx p (tx_hash (e_tx e)) = Some (e_tx e)) by (apply (pool_tx_node p _ _ Wf); by exists (in_ptx c), e).
    destruct (remove_spec p (e_tx e) removed true Wf) as (p1 & l1 & R1 & Run1 & W1 & H1 & _). unfold ebind. rewrite Run1.
    destruct (IH p1 (removed ++ l1) (wo_wf _ _ _ W1)) as (p' & l & R & Run & W & HR). exists p', (l1 ++ l), (R1 ∪ R). rewrite app_assoc.
    split; [done|]. split; [by eapply without_trans|].
    assert (Cl : forall a b, a ∈ R1 -> child p a b -> b ∈ R1) by (intros a b; rewrite !H1; apply affected_closed).
    intros h. rewrite elem_of_union, H1, HR. split.
    + intros [[_ (h0 & [[_ ->]|[N _]] & K)]|(y & h0 & Hy & Sp' & Ne & K)]; [|congruence|].
      * exists x, (tx_hash (e_tx e)). split; [apply list_elem_of_here|done].
      * exists y, h0. split; [by apply list_elem_of_further|]. apply (spender_without R1 p p1 _ _ W1) in Sp' as [Sp' _]. split; [done|]. split; [done|].
        eapply rtc_subrel; [|exact K]. intros a b Hc. by apply (child_without R1 p p1 _ _ W1) in Hc as [? _].
    + intros (y & h0 & Hy & Sp' & Ne & K). assert (In : is_Some (pool_tx p h)) by (eapply (conflicting_in p tx (x :: vin)); by exists y, h0).
      destruct (decide (h ∈ R1)) as [Hr|Nr]; [left; by apply H1|].
      destruct (rtc_without R1 p p1 h0 h W1 Cl K Nr) as [N0 K1]. right. exists y, h0. split.
      * apply elem_of_cons in Hy as [->|Hy]; [|done]. destruct N0. apply H1. assert (h0 = tx_hash (e_tx e)) as -> by (by eapply spender_unique).
        split; [by rewrite Pe|]. exists (tx_hash (e_tx e)). split; [left; by rewrite Pe|done].
      * split; [by apply (spender_without R1 p p1 _ _ W1)|done].
Qed.
End remove.

Section block_removal.
Context {D E : Type} (seenBlock : E -> list (CTxMemPoolEntry D) -> Z -> CFeeRate -> E).
Abbreviation pool := (CTxMemPool D E).

(** Changes that leave the transactions alone. *)
Lemma set_estimator_wf (p : pool) e deltas : pool_wf p -> pool_wf (set_estimator p e deltas).
Proof using. intros [A B C P S]. by constructor. Qed.

Lemma set_indexes_wf (p : pool) a ai s si : pool_wf p -> pool_wf (set_indexes p a ai s si).
Proof using. intros [A B C P S]. by constructor. Qed.

Lemma clear_wf (p : pool) : pool_wf (clear p).
Proof using.
  constructor; cbn [clear set_pool mapTx mp_nodes mapNextTx totalTxSize].
  - intros h n. by rewrite lookup_empty.
  - intros n e. by rewrite lookup_empty.
  - intros o c. rewrite lookup_empty. split; [done|]. intros (e & i & K & _). cbn [clear set_pool mp_nodes] in K. by rewrite lookup_empty in K.
  - intros n e. by rewrite lookup_empty.
  - unfold pool_bytes. cbn [clear set_pool mp_nodes]. by rewrite map_fold_empty.
Qed.

(** What one transaction of a block takes out of the pool: itself and its conflicts, with
    what depends on these. *)
Definition mined (p : pool) (tx : CTransaction) (h : uint256) : Prop :=
  (is_Some (pool_tx p h) /\ h = tx_hash tx) \/
  exists x h0, x ∈ tx_vin tx /\ spender p (prevout x) h0 /\ h0 <> tx_hash tx /\ rtc (fun a b => child p a b /\ b <> tx_hash tx) h0 h.

Lemma remove_mined_spec (p : pool) (tx : CTransaction) conflicts : pool_wf p ->
  exists p' l R, remove_mined conflicts tx p = (Ret (conflicts ++ l), p') /\ without R p p' /\ (forall h, h ∈ R <-> mined p tx h).
Proof using.
  intros Wf. destruct (remove_spec p tx [] false Wf) as (p1 & l1 & R1 & Run1 & W1 & H1 & _).
  destruct (removeConflicts_loop_spec tx (tx_vin tx) p1 conflicts (wo_wf _ _ _ W1)) as (p2 & l & R2 & Run2 & W2 & H2).
  exists (ClearPrioritisation (tx_hash tx) p2), l, (R1 ∪ R2). split; [|split].
  - unfold remove_mined, ebind. rewrite Run1. unfold removeConflicts. rewrite Run2. done.
  - pose proof (without_trans _ _ _ _ _ W1 W2) as [A B C K]. split; [exact A|exact B|by apply set_estimator_wf|exact K].
  - assert (E1 : forall h, h ∈ R1 <-> is_Some (pool_tx p h) /\ h = tx_hash tx) by (intros h; by rewrite H1).
    intros h. rewrite elem_of_union, E1, H2. unfold mined. apply or_iff_compat_l.
    assert (Ch : forall a b, child p1 a b <-> child p a b /\ a <> tx_hash tx /\ b <> tx_hash tx).
    { intros a b. split.
      - intros Hc. pose proof (child_without R1 p p1 a b W1 Hc) as (K & Na & Nb). split; [done|]. rewrite !E1 in *.
        destruct K as (t & Et & S). split; intros ->; [apply Na|apply Nb]; (split; [|done]); [by rewrite Et|by eapply spends_output_in].
      - intros ((t & Et & t' & x & i & Et' & Q) & Na & Nb). exists t. split; [rewrite (without_pool_tx R1 p p1 a W1), decide_False; [done|rewrite E1; tauto]|].
        exists t', x, i. split; [rewrite (without_pool_tx R1 p p1 b W1), decide_False; [done|rewrite E1; tauto]|done]. }
    split; intros (x & h0 & Hx & Sp & Ne & K); exists x, h0; (split; [done|]).
    + apply (spender_without R1 p p1 _ _ W1) in Sp as [Sp _]. split; [done|]. split; [done|].
      eapply rtc_subrel; [|exact K]. intros a b Hc. by apply Ch in Hc as (? & _ & ?).
    + split; [apply (spender_without R1 p p1 _ _ W1); rewrite E1; split; [done|tauto]|]. split; [done|]. clear Hx Sp.
      induction K as [|a b c [Hc Nb] K IH]; [done|]. eapply rtc_l; [by apply Ch|by apply IH].
Qed.

Lemma block_entries_ok (p : pool) vtx : pool_wf p -> exists l, block_entries vtx p = Ret l /\
  forall e, e ∈ l <-> exists tx, tx ∈ vtx /\ entry_at p (tx_hash tx) = Some e.
Proof using.
  intros Wf. induction vtx as [|tx vtx (l & El & Hl)]; cbn [block_entries].
  { exists []. split; [done|]. intros e. split; [by intros ?%elem_of_nil|by intros (tx & ?%elem_of_nil & _)]. }
  destruct (mapTx p !! tx_hash tx) as [n|] eqn:En.
  - destruct (pw_tx p Wf _ n En) as (e & Ee & _). rewrite Ee, El. cbn [result_bind]. exists (e :: l). split; [done|]. intros e'.
    rewrite elem_of_cons, Hl. split.
    + intros [->|(t & Ht & K)]; [exists tx; split; [apply list_elem_of_here|]; unfold entry_at; rewrite En; exact Ee|exists t; split; [by apply list_elem_of_further|done]].
    + intros (t & [->|Ht]%elem_of_cons & K); [left; unfold entry_at in K; rewrite En in K; cbn [mbind option_bind] in K; congruence|right; by exists t].
  - exists l. split; [done|]. intros e. rewrite Hl. split; intros (t & Ht & K); exists t; (split; [|done]); [by apply list_elem_of_further|].
    apply elem_of_cons in Ht as [->|Ht]; [|done]. unfold entry_at in K. by rewrite En in K.
Qed.
End block_removal.

(** ** Entry *)

Section entry.
Context {D E : Type}.
Abbreviation pool := (CTxMemPool D E).

Lemma enter_inputs_lookup n vin : forall i next (o : COutPoint), NoDup (prevout <$> vin) ->
  enter_inputs n i vin next !! o = match list_find (fun x => prevout x = o) vin with Some (k, _) => Some (mk_CInPoint n (i + k)) | None => next !! o end.
Proof using.
  induction vin as [|x vin IH]; intros i next o Nd; cbn [enter_inputs]; [done|]. rewrite fmap_cons in Nd. apply NoDup_cons in Nd as [Nx Nd].
  rewrite IH by done. cbn [list_find]. destruct (decide (prevout x = o)) as [<-|Ne].
  - destruct (list_find _ vin) as [[k y]|] eqn:Ef; [|by rewrite lookup_insert_eq, Nat.add_0_r].
    apply list_find_Some in Ef as (Ey & Py & _). destruct Nx. rewrite <- Py. apply list_elem_of_fmap. exists y. split; [done|]. by apply list_elem_of_lookup_2 in Ey.
  - destruct (list_find _ vin) as [[k y]|]; cbn; [do 2 f_equal; lia|]. by rewrite lookup_insert_ne.
Qed.

(** A transaction that is not there, and spends nothing the pool spends, can be added. *)
Definition addable_tx (p : pool) (tx : CTransaction) : Prop :=
  mapTx p !! tx_hash tx = None /\ NoDup (prevout <$> tx_vin tx) /\ HasZerocoinSpendInputs tx = false /\
  Forall (fun x => mapNextTx p !! prevout x = None) (tx_vin tx).

Lemma addUnchecked_ok (p : pool) entry : pool_wf p -> addable_tx p (e_tx entry) ->
  pool_wf (addUnchecked (tx_hash (e_tx entry)) entry p) /\
  forall h, pool_tx (addUnchecked (tx_hash (e_tx entry)) entry p) h = if decide (h = tx_hash (e_tx entry)) then Some (e_tx entry) else pool_tx p h.
Proof using.
  intros Wf (Hn & Nd & Pl & Fr). set (tx := e_tx entry) in *. unfold addUnchecked. fold tx. rewrite Hn, Pl. cbn [default negb].
  set (n := fresh (dom (mp_nodes p))). assert (Nn : mp_nodes p !! n = None) by (apply not_elem_of_dom, is_fresh).
  assert (Hne : forall k e, mp_nodes p !! k = Some e -> k <> n /\ tx_hash (e_tx e) <> tx_hash tx).
  { intros k e Ek. split; [intros ->; congruence|]. intros Eq. apply (pw_node p Wf) in Ek. rewrite Eq in Ek. congruence. }
  split; [constructor; cbn [set_pool mapTx mp_nodes mapNextTx totalTxSize]|].
  - intros h m. destruct (decide (h = tx_hash tx)) as [->|Ne].
    + rewrite lookup_insert_eq. intros [= <-]. exists entry. by rewrite lookup_insert_eq.
    + rewrite lookup_insert_ne by done. intros Em. destruct (pw_tx p Wf h m Em) as (e & Ee & Eh). exists e.
      rewrite lookup_insert_ne; [done|]. by intros ->; apply (proj1 (Hne _ _ Ee)).
  - intros m e. destruct (decide (m = n)) as [->|Ne].
    + rewrite lookup_insert_eq. intros [= <-]. by rewrite lookup_insert_eq.
    + rewrite lookup_insert_ne by done. intros Em. rewrite lookup_insert_ne; [by apply (pw_node p Wf)|]. apply not_eq_sym, (Hne _ _ Em).
  - intros o c. unfold spends_at. cbn [set_pool mp_nodes]. rewrite enter_inputs_lookup by done. cbn [Nat.add].
    destruct (list_find _ _) as [[k y]|] eqn:Ef.
    + apply list_find_Some in Ef as (Ey & <- & Fst). split.
      * intros [= <-]. exists entry, y. by rewrite lookup_insert_eq.
      * intros (e & i & Ee & Ei & Eo). destruct (decide (in_ptx c = n)) as [Ec|Nc].
        -- rewrite Ec, lookup_insert_eq in Ee. injection Ee as <-. destruct c as [m j]. cbn [in_ptx in_n] in *. subst m.
           do 2 f_equal. apply (NoDup_lookup (prevout <$> tx_vin tx) _ _ (prevout y)); [done| |]; rewrite list_lookup_fmap.
           ++ by rewrite Ey.
           ++ fold tx in Ei. rewrite Ei. cbn. by rewrite Eo.
        -- rewrite lookup_insert_ne in Ee by done. assert (S : mapNextTx p !! prevout y = Some c) by (apply (pw_next p Wf); by exists e, i).
           rewrite Forall_forall in Fr. rewrite Fr in S; [done|]. by apply list_elem_of_lookup_2 in Ey.
    + apply list_find_None in Ef. rewrite (pw_next p Wf). unfold spends_at. destruct (decide (in_ptx c = n)) as [Ec|Nc].
      * rewrite Ec, Nn, lookup_insert_eq. split; [by intros (e & i & ? & _)|]. intros (e & i & [= <-] & Ei & Eo).
        rewrite Forall_forall in Ef. destruct (Ef i); [by apply list_elem_of_lookup_2 in Ei|done].
      * by rewrite lookup_insert_ne.
  - intros m e. destruct (decide (m = n)) as [->|Ne]; [rewrite lookup_insert_eq; by intros [= <-]|]. rewrite lookup_insert_ne by done. apply (pw_plain p Wf).
  - rewrite (pw_size p Wf). unfold pool_bytes. cbn [set_pool mp_nodes]. rewrite (map_sum_delete e_nTxSize (<[n:=entry]> _) n entry) by apply lookup_insert_eq.
    rewrite delete_insert_id by done. set (s := map_fold _ _ _). unfold u64. rewrite Zplus_mod_idemp_l. f_equal. lia.
  - intros h. unfold pool_tx, entry_at. cbn [set_pool mapTx mp_nodes]. case_decide as Hh.
    + subst h. rewrite lookup_insert_eq. cbn [mbind option_bind]. by rewrite lookup_insert_eq.
    + rewrite lookup_insert_ne by done. destruct (mapTx p !! h) as [m|] eqn:Em; [|done]. cbn [mbind option_bind].
      destruct (pw_tx p Wf h m Em) as (e & Ee & _). rewrite lookup_insert_ne; [done|]. by intros ->; apply (proj1 (Hne _ _ Ee)).
Qed.
End entry.

(** ** Blocks *)

Section blocks.
Context {D E : Type} (seenBlock : E -> list (CTxMemPoolEntry D) -> Z -> CFeeRate -> E).
Abbreviation pool := (CTxMemPool D E).

Definition in_block (vtx : list CTransaction) (h : uint256) : Prop := h ∈ tx_hash <$> vtx.

(** A transaction of the pool spends what one of the block spends, and is another. *)
Definition clashes (p : pool) (vtx : list CTransaction) (h : uint256) : Prop :=
  exists (tx : CTransaction) x, tx ∈ vtx /\ x ∈ tx_vin tx /\ spender p (prevout x) h /\ h <> tx_hash tx.

(** The pool [p] has lost the transactions [R] to those of [vtx]: these themselves, what
    clashes with them, and what depends on it. *)
Record cleared (all vtx : list CTransaction) (p0 p : pool) (R : gset uint256) : Prop := {
  cl_without : without R p0 p;
  cl_gone (tx : CTransaction) : tx ∈ vtx -> pool_tx p (tx_hash tx) = None;
  cl_spent (tx : CTransaction) x h : tx ∈ vtx -> x ∈ tx_vin tx -> ~ spender p (prevout x) h;
  cl_only h : h ∈ R -> is_Some (pool_tx p0 h) /\ (in_block all h \/ exists h0, clashes p0 all h0 /\ rtc (child p0) h0 h);
  cl_closed h h' : h ∈ R -> ~ in_block all h -> child p0 h h' -> h' ∈ R }.

Lemma cleared_step all vtx (p0 p : pool) R tx conflicts : pool_wf p0 -> tx ∈ all -> cleared all vtx p0 p R ->
  exists p' l R', remove_mined conflicts tx p = (Ret (conflicts ++ l), p') /\ cleared all (vtx ++ [tx]) p0 p' R'.
Proof using.
  intros Wf0 Ha [W G Sp On Cl]. destruct (remove_mined_spec p tx conflicts (wo_wf _ _ _ W)) as (p' & l & R1 & Run & W1 & H1).
  assert (Sub : forall h t, pool_tx p h = Some t -> pool_tx p0 h = Some t /\ h ∉ R).
  { intros h t Et. rewrite (without_pool_tx R p0 p h W) in Et. by case_decide. }
  exists p', l, (R ∪ R1). split; [exact Run|]. split.
  - by eapply without_trans.
  - intros t [Ht| ->%list_elem_of_singleton]%elem_of_app.
    + rewrite (without_pool_tx R1 p p' _ W1). case_decide; [done|by apply G].
    + rewrite (without_pool_tx R1 p p' _ W1). case_decide as N; [done|]. apply eq_None_not_Some. intros S. apply N, H1. by left.
  - intros t x h Ht Hx S. apply (spender_without R1 p p' _ _ W1) in S as [S N]. apply elem_of_app in Ht as [Ht| ->%list_elem_of_singleton]; [by eapply Sp|].
    apply N, H1. destruct (decide (h = tx_hash tx)) as [->|Ne]; [left; split; [|done]|right; by exists x, h].
    destruct S as (t' & y & Et & _). by rewrite Et.
  - intros h [Hr|Hr]%elem_of_union; [by apply On|]. apply H1 in Hr as [[[t Et] ->]|(x & h0 & Hx & S & Ne & K)].
    + apply Sub in Et as [Et _]. split; [by rewrite Et|]. left. apply list_elem_of_fmap. by exists tx.
    + assert (K0 : rtc (child p0) h0 h).
      { eapply rtc_subrel; [|exact K]. intros a b [Hc _]. by apply (child_without R p0 p a b W) in Hc as [? _]. }
      assert (S0 : spender p0 (prevout x) h0) by (by apply (spender_without R p0 p _ _ W) in S as [? _]).
      split; [|right; exists h0; split; [by exists tx, x|exact K0]].
      apply rtc_inv_r in K0 as [<-|(y & _ & Hc)]; [destruct S0 as (t & z & Et & _); by rewrite Et|by eapply child_in].
  - intros h h' [Hr|Hr]%elem_of_union Nb Hc; [apply elem_of_union_l; by eapply Cl|]. destruct (decide (h' ∈ R)) as [|Nr]; [by apply elem_of_union_l|].
    apply elem_of_union_r, H1. apply H1 in Hr as [[_ ->]|(x & h0 & Hx & S & Ne & K)]; [destruct Nb; apply list_elem_of_fmap; by exists tx|].
    assert (Hp : is_Some (pool_tx p h)).
    { apply rtc_inv_r in K as [<-|(y & _ & Hy & _)]; [destruct S as (t & z & Et & _); by rewrite Et|by eapply child_in]. }
    assert (Hc' : child p h h').
    { destruct Hp as [t Et]. destruct Hc as (t0 & Et0 & t' & z & i & Et' & Q). destruct (Sub h t Et) as [Et1 _]. rewrite Et0 in Et1. injection Et1 as ->.
      exists t. split; [exact Et|]. exists t', z, i. split; [by rewrite (without_pool_tx R p0 p h' W), decide_False|exact Q]. }
    destruct (decide (h' = tx_hash tx)) as [->|N']; [left; split; [by eapply child_in|done]|].
    right. exists x, h0. split; [done|]. split; [done|]. split; [done|]. by eapply rtc_r.
Qed.

Lemma cleared_fold all : forall vtx done (p0 p : pool) R conflicts, pool_wf p0 -> (forall tx, tx ∈ vtx -> tx ∈ all) -> cleared all done p0 p R ->
  exists p' l R', efold remove_mined vtx conflicts p = (Ret (conflicts ++ l), p') /\ cleared all (done ++ vtx) p0 p' R'.
Proof using.
  induction vtx as [|tx vtx IH]; intros dn p0 p R conflicts Wf0 Ha C; cbn [efold].
  { exists p, [], R. by rewrite !app_nil_r. }
  destruct (cleared_step all dn p0 p R tx conflicts Wf0 (Ha _ (list_elem_of_here _ _)) C) as (p1 & l1 & R1 & Run1 & C1).
  destruct (IH (dn ++ [tx]) p0 p1 R1 (conflicts ++ l1) Wf0 (fun t Ht => Ha t (list_elem_of_further _ _ _ Ht)) C1) as (p' & l & R' & Run & C').
  exists p', (l1 ++ l), R'. rewrite <- app_assoc in C'. split; [|exact C']. unfold ebind. rewrite Run1, Run. by rewrite app_assoc.
Qed.

Lemma removeForBlock_spec vtx nBlockHeight conflicts (p : pool) : pool_wf p ->
  exists p' l R, removeForBlock seenBlock vtx nBlockHeight conflicts p = (Ret (conflicts ++ l), p') /\ cleared vtx vtx p p' R.
Proof using.
  intros Wf. destruct (block_entries_ok p vtx Wf) as (es & Ee & _). unfold removeForBlock, ebind at 1. rewrite Ee. unfold ebind, update.
  set (p1 := set_estimator p _ _). assert (W1 : without ∅ p p1).
  { destruct (without_refl p Wf) as [A B C K]. split; [exact A|exact B|by apply set_estimator_wf|exact K]. }
  destruct (cleared_fold vtx vtx [] p p1 ∅ conflicts Wf (fun _ Ht => Ht)) as (p' & l & R & Run & C); [|by exists p', l, R].
  split; [exact W1| | | |]; set_solver.
Qed.
End blocks.



(** A pool of three: 2 spends an output of 1, which the pool does not have, 3 one of 2, and 4
    is apart. *)
Definition sample_pool_tx (hash from : Z) : CTransaction :=
  mk_CTransaction (base_uint_u64 8 hash) (mk_CMutableTransaction 1
    [CTxIn_make (mk_COutPoint (base_uint_u64 8 from) 0) [] UINT32_MAX] [CTxOut_make 4 [Byte.x51]] 0).
Definition sample_add (p : CTxMemPool unit unit) (tx : CTransaction) : CTxMemPool unit unit :=
  addUnchecked (tx_hash tx) (CTxMemPoolEntry_of tx 0 0 tt 0) p.
Definition sample_pool : CTxMemPool unit unit :=
  foldl sample_add (CTxMemPool_new tt (mk_CFeeRate 0)) [sample_pool_tx 2 1; sample_pool_tx 3 2; sample_pool_tx 4 9].

Lemma new_pool_wf {D E} (est : E) rate : pool_wf (CTxMemPool_new est rate : CTxMemPool D E).
Proof.
  constructor; cbn [CTxMemPool_new mapTx mp_nodes mapNextTx totalTxSize].
  - intros h n. by rewrite lookup_empty.
  - intros n e. by rewrite lookup_empty.
  - intros o c. rewrite lookup_empty. split; [done|]. intros (e & i & K & _). cbn in K. by rewrite lookup_empty in K.
  - intros n e. by rewrite lookup_empty.
  - unfold pool_bytes. cbn. by rewrite map_fold_empty.
Qed.

Lemma sample_add_wf (p : CTxMemPool unit unit) hash from : pool_wf p -> mapTx p !! base_uint_u64 8 hash = None ->
  mapNextTx p !! mk_COutPoint (base_uint_u64 8 from) 0 = None -> pool_wf (sample_add p (sample_pool_tx hash from)).
Proof.
  intros Wf Nt Nn. apply (addUnchecked_ok p (CTxMemPoolEntry_of (sample_pool_tx hash from) 0 0 tt 0) Wf).
  split; [exact Nt|]. split; [apply NoDup_singleton|]. split; [|constructor; [exact Nn|constructor]].
  unfold HasZerocoinSpendInputs. cbn [CTxMemPoolEntry_of e_tx sample_pool_tx tx_data tx_vin existsb]. unfold CTxIn_IsZerocoinSpend. cbn [CTxIn_make scriptSig]. by rewrite andb_false_r.
Qed.

Lemma sample_pool_wf : pool_wf sample_pool.
Proof.
  unfold sample_pool. cbn [foldl]. repeat (apply sample_add_wf; [|vm_compute; reflexivity|vm_compute; reflexivity]). apply new_pool_wf.
Qed.


