(* ===== verification/PoolView.v ===== *)
(** * The coins a pool adds ([txmempool.h], [txmempool.cpp], [coins.h])

    [CCoinsViewMemPool] shows the outputs of the transactions of a pool as coins over those
    of another view; it satisfies the laws of a view that is read.  [SetBackend] changes what
    is under a cache; code that reads cached coins only does not notice. *)

From Stdlib Require Import ZArith Lia List Bool.
From stdpp Require Import base option list gmap.
From coqutil Require Import Byte Word.LittleEndianList.
From S2P Require Import Prelude Effects Uint256 Serialize MerkleDamgard Hash Script Tx Compressor Coins CoinsView Connect Params TxCheck CheckInputs MemPool.

Open Scope Z_scope.
Open Scope btc_scope.

(** ** [CCoinsViewMemPool] *)

Section mempool_view.
Context {D E V : Type} `{CCoinsView V}.

Record CCoinsViewMemPool : Type := mk_mempool_view { mv_base : V; mv_pool : CTxMemPool D E }.

(** A transaction of the pool comes first; pruned coins of the base do not count. *)
Definition mempool_GetCoins (txid : uint256) (v : CCoinsViewMemPool) : CCoinsViewMemPool * option CCoins :=
  match lookup_tx txid (mv_pool v) with
  | Some tx => (v, Some (FromTx tx MEMPOOL_HEIGHT))
  | None =>
      let '(b, r) := GetCoins txid (mv_base v) in
      (mk_mempool_view b (mv_pool v), c ← r; if negb (IsPruned c) then Some c else None)
  end.
Definition mempool_HaveCoins (txid : uint256) (v : CCoinsViewMemPool) : CCoinsViewMemPool * bool :=
  if exists_tx txid (mv_pool v) then (v, true) else
  let '(b, r) := HaveCoins txid (mv_base v) in (mk_mempool_view b (mv_pool v), r).

(** [CCoinsViewBacked] passes the rest on. *)
Definition mempool_GetBestBlock (v : CCoinsViewMemPool) : CCoinsViewMemPool * uint256 :=
  let '(b, h) := GetBestBlock (mv_base v) in (mk_mempool_view b (mv_pool v), h).
Definition mempool_BatchWrite (m : CCoinsMap) (h : uint256) (v : CCoinsViewMemPool) : result view_error (CCoinsViewMemPool * bool) :=
  let* (b, ok) := BatchWrite m h (mv_base v) in Ret (mk_mempool_view b (mv_pool v), ok).

#[export] Instance CCoinsViewMemPool_view : CCoinsView CCoinsViewMemPool := {
  GetCoins := mempool_GetCoins;
  HaveCoins := mempool_HaveCoins;
  GetBestBlock := mempool_GetBestBlock;
  BatchWrite := mempool_BatchWrite }.
End mempool_view.
Arguments CCoinsViewMemPool : clear implicits.

(** ** What it stands for *)

Section mempool_laws.
Context {D E V : Type} {CV : CCoinsView V} {VOk : CCoinsViewOk V}.
Abbreviation mview := (CCoinsViewMemPool D E V).

(** The coins of the ledger [L], and those the pool would add. *)
Definition pool_view (L : ledger) (p : CTxMemPool D E) : ledger := fun t =>
  match pool_tx p t with Some tx => unspent (FromTx tx MEMPOOL_HEIGHT) | None => L t end.

(** The outputs of the transactions of the pool fit the format of coins. *)
Definition pool_coins_ok (p : CTxMemPool D E) : Prop := forall t tx, pool_tx p t = Some tx -> coins_ok (FromTx tx MEMPOOL_HEIGHT).

Definition mview_view (v : mview) : ledger := pool_view (view (mv_base v)) (mv_pool v).
Definition mview_pulled (v : mview) (t : uint256) : Prop := is_Some (pool_tx (mv_pool v) t) \/ pulled (mv_base v) t.
Definition mview_ok (v : mview) : Prop := view_ok (mv_base v) /\ pool_coins_ok (mv_pool v).

(** Reading the view changes its base, to one that stands for the same. *)
Lemma mview_with_base (v : mview) b : mview_ok v -> view_ok b -> (forall x, view b x = view (mv_base v) x) ->
  (forall x, pulled (mv_base v) x -> pulled b x) -> best b = best (mv_base v) ->
  mview_ok (mk_mempool_view b (mv_pool v)) /\ (forall x, mview_view (mk_mempool_view b (mv_pool v)) x = mview_view v x) /\
  (forall x, mview_pulled v x -> mview_pulled (mk_mempool_view b (mv_pool v)) x) /\ best (mv_base (mk_mempool_view b (mv_pool v))) = best (mv_base v).
Proof using.
  intros [_ Hp] Hb Ev Pu Be. split; [by split|]. split; [|split; [|done]].
  - intros x. unfold mview_view, pool_view. cbn [mv_base mv_pool]. by destruct (pool_tx _ x).
  - intros x [?|?]; [by left|right; by apply Pu].
Qed.

Lemma mempool_GetCoins_law (v : mview) t : mview_ok v -> wf 8 t ->
  let '(v', r) := mempool_GetCoins t v in
  mview_ok v' /\ (forall x, mview_view v' x = mview_view v x) /\ (forall x, mview_pulled v x -> mview_pulled v' x) /\
  best (mv_base v') = best (mv_base v) /\ (r ≫= unspent) = mview_view v t /\
  (forall c, r = Some c -> coins_ok c /\ (IsPruned c = false -> mview_pulled v' t)).
Proof using.
  intros Hv Ht. unfold mempool_GetCoins, lookup_tx. destruct (pool_tx (mv_pool v) t) as [tx|] eqn:Et.
  - do 4 (split; [done|]). unfold mview_view, pool_view. rewrite Et. split; [done|]. intros c [= <-].
    split; [by eapply (proj2 Hv)|]. intros _. left. by rewrite Et.
  - pose proof (GetCoins_law (mv_base v) t (proj1 Hv) Ht) as L. destruct (GetCoins t (mv_base v)) as [b r].
    destruct L as (L1 & L2 & L3 & L4 & L5 & L6). destruct (mview_with_base v b Hv L1 L2 L3 L4) as (A & B & C & F).
    do 4 (split; [done|]). split.
    + unfold mview_view, pool_view. rewrite Et, <- L5. destruct r as [c|]; [|done]. cbn [mbind option_bind].
      unfold unspent. destruct (IsPruned c) eqn:P; cbn; [done|by rewrite P].
    + intros c. destruct r as [c0|]; [|done]. cbn [mbind option_bind]. destruct (IsPruned c0) eqn:P; [done|]. intros [= <-].
      destruct (L6 c0 eq_refl) as [O Pu]. split; [done|]. intros _. right. by apply Pu.
Qed.

Lemma mempool_HaveCoins_law (v : mview) t : mview_ok v -> wf 8 t ->
  let '(v', b) := mempool_HaveCoins t v in
  mview_ok v' /\ (forall x, mview_view v' x = mview_view v x) /\ (forall x, mview_pulled v x -> mview_pulled v' x) /\
  best (mv_base v') = best (mv_base v) /\ (is_Some (mview_view v t) -> b = true).
Proof using.
  intros Hv Ht. unfold mempool_HaveCoins, exists_tx. case_bool_decide as Ex; [done|].
  pose proof (HaveCoins_law (mv_base v) t (proj1 Hv) Ht) as L. destruct (HaveCoins t (mv_base v)) as [b r].
  destruct L as (L1 & L2 & L3 & L4 & L5). destruct (mview_with_base v b Hv L1 L2 L3 L4) as (A & B & C & F).
  do 4 (split; [done|]). unfold mview_view, pool_view, pool_tx, entry_at. destruct (mapTx (mv_pool v) !! t) as [n|]; [by destruct Ex|]. exact L5.
Qed.

Lemma mempool_GetBestBlock_law (v : mview) : mview_ok v ->
  let '(v', h) := mempool_GetBestBlock v in
  mview_ok v' /\ (forall x, mview_view v' x = mview_view v x) /\ (forall x, mview_pulled v x -> mview_pulled v' x) /\
  best (mv_base v') = best (mv_base v) /\ h = best (mv_base v) /\ wf 8 h.
Proof using.
  intros Hv. unfold mempool_GetBestBlock. pose proof (GetBestBlock_law (mv_base v) (proj1 Hv)) as L. destruct (GetBestBlock (mv_base v)) as [b h].
  destruct L as (L1 & L2 & L3 & L4 & L5 & L6). destruct (mview_with_base v b Hv L1 L2 L3 L4) as (A & B & C & F). by do 5 (split; [done|]).
Qed.

#[export] Instance CCoinsViewMemPool_ok : CCoinsViewOk mview := {
  view := mview_view;
  pulled := mview_pulled;
  best v := best (mv_base v);
  view_ok := mview_ok;
  GetCoins_law := mempool_GetCoins_law;
  HaveCoins_law := mempool_HaveCoins_law;
  GetBestBlock_law := mempool_GetBestBlock_law }.
End mempool_laws.

(** ** [SetBackend] *)

(** Another view comes under the cache; what is cached stays. *)
Definition SetBackend {V W} (viewIn : W) (v : CCoinsViewCache V) : CCoinsViewCache W :=
  mk_cache viewIn (hasModifier v) (hashBlock v) (cacheCoins v).

Section backend.
Context {V W : Type} {CV : CCoinsView V} {CW : CCoinsView W}.
Context (v : CCoinsViewCache V) (w : CCoinsViewCache W).
Context (Hcache : cacheCoins w = cacheCoins v) (Hbest : hashBlock w = hashBlock v) (Hset : hashBlock v <> zero_hash).

(** The two caches hold the same, and the code reads what they hold only. *)
Definition same_reads {A} (m : eff (CCoinsViewCache V) failure A) (m' : eff (CCoinsViewCache W) failure A) : Prop :=
  exists r, m v = (r, v) /\ m' w = (r, w).

(** The coins an input spends are cached. *)
Definition held (i : CTxIn) : Prop := is_Some (cacheCoins v !! prev_hash (prevout i)).

Lemma same_bind {A B} (m : eff (CCoinsViewCache V) failure A) m' (k : A -> eff (CCoinsViewCache V) failure B) k' :
  same_reads m m' -> (forall a, same_reads (k a) (k' a)) -> same_reads (ebind m k) (ebind m' k').
Proof using.
  intros (r & E1 & E2) Hk. unfold same_reads, ebind. rewrite E1, E2. destruct r as [a|e]; [|by exists (Err e)]. apply Hk.
Qed.

Lemma same_lift {A} (r : result failure A) : same_reads (lift r) (lift r).
Proof using. by exists r. Qed.

Lemma same_access i {A} (k : option CCoins -> eff (CCoinsViewCache V) failure A) k' : held i ->
  (forall c, same_reads (k (Some c)) (k' (Some c))) ->
  same_reads (ebind (reads (AccessCoins (prev_hash (prevout i)))) k) (ebind (reads (AccessCoins (prev_hash (prevout i)))) k').
Proof using Hcache.
  intros [e Ee] Hk. unfold same_reads, ebind, reads, AccessCoins, FetchCoins. rewrite Hcache, Ee. apply Hk.
Qed.

Lemma same_output i {A} (k : option CTxOut -> eff (CCoinsViewCache V) failure A) k' : held i ->
  (forall o, same_reads (k o) (k' o)) -> same_reads (ebind (reads (GetOutputFor i)) k) (ebind (reads (GetOutputFor i)) k').
Proof using Hcache.
  intros [e Ee] Hk. unfold same_reads, ebind, reads, GetOutputFor, AccessCoins, FetchCoins. rewrite Hcache, Ee. apply Hk.
Qed.

Lemma same_HaveInputs_loop (tx : CMutableTransaction) Hcheck vin : Forall held vin ->
  exists b, HaveInputs_loop tx Hcheck vin v = (v, b) /\ HaveInputs_loop tx Hcheck vin w = (w, b).
Proof using Hcache.
  induction 1 as [|i vin [e Ee] Hv (b & E1 & E2)]; cbn [HaveInputs_loop]; [by exists true|].
  unfold AccessCoins, FetchCoins. rewrite Hcache, Ee. cbn [fmap option_fmap option_map]. destruct (_ || _); [by exists false|by exists b].
Qed.

Section check.
Context (params : CChainParams) (Verify : PubKey.CPubKey -> uint256 -> list byte -> bool) (buf : list byte).
Context (H : BlockIndex.heap) (mapBlockIndex : gmap uint256 BlockIndex.ptr).

Lemma same_check_values hs vin state : Forall held vin -> forall n,
  same_reads (check_values params hs vin n state) (check_values params hs vin n state).
Proof using Hcache.
  induction 1 as [|i vin Hi Hv IH]; intros n; cbn [check_values]; [apply (same_lift (Ret n))|].
  apply same_access; [done|]. intros c. apply same_bind; [destruct (_ || _); apply same_lift || exact (same_lift (Ret _))|]. intros d.
  destruct (d <? _); [exact (same_lift (Err _))|]. destruct (c_vout c !! _) as [o|]; [|exact (same_lift (Err _))].
  apply same_bind; [apply same_lift|]. intros m. destruct (_ || _); [apply same_lift|apply IH].
Qed.

Lemma same_check_scripts (tx : CTransaction) flags pv vin state : Forall held vin -> forall i,
  same_reads (check_scripts Verify buf tx flags pv i vin state) (check_scripts Verify buf tx flags pv i vin state).
Proof using Hcache.
  induction 1 as [|x vin Hx Hv IH]; intros i; cbn [check_scripts]; [exact (same_lift (Ret []))|].
  apply same_access; [done|]. intros c. destruct (CScriptCheck_of c tx i flags) as [k|]; [|exact (same_lift (Err _))].
  apply same_bind; [destruct pv; [exact (same_lift (Ret tt))|apply same_lift]|]. intros _. apply same_bind; [apply IH|]. intros l. exact (same_lift (Ret _)).
Qed.

(** [CheckInputs] does not see what is under a cache that holds its inputs. *)
Lemma same_CheckInputs (tx : CTransaction) state fS flags pv Hcheck : Forall held (tx_vin tx) ->
  same_reads (CheckInputs params Verify buf H mapBlockIndex tx state fS flags pv Hcheck)
    (CheckInputs params Verify buf H mapBlockIndex tx state fS flags pv Hcheck).
Proof using Hcache Hbest Hset.
  intros Hv. unfold CheckInputs. destruct (negb (has_inputs tx)); [exact (same_lift (Ret []))|].
  apply same_bind.
  { unfold same_reads, reads, HaveInputs. destruct (_ && _); [|by exists (Ret true)].
    destruct (same_HaveInputs_loop tx Hcheck (tx_vin tx) Hv) as (b & -> & ->). by exists (Ret b). }
  intros b. destruct (negb b); [exact (same_lift (Err _))|]. apply same_bind.
  { unfold same_reads, reads, cache_GetBestBlock. rewrite Hbest, (bool_decide_false _ Hset). by exists (Ret (hashBlock v)). }
  intros bb. apply same_bind; [apply same_lift|]. intros hs. apply same_bind; [by apply same_check_values|]. intros n.
  apply same_bind; [destruct (negb _); [apply same_lift|exact (same_lift (Ret tt))]|]. intros _.
  destruct fS; [by apply same_check_scripts|exact (same_lift (Ret []))].
Qed.
End check.
End backend.
