(* ===== verification/PoolAccept.v ===== *)
(** * Transactions into the memory pool ([main.cpp], [txmempool.cpp])

    What the node relays and keeps: [IsStandardTx], [AreInputsStandard] and
    [AcceptToMemoryPool], with the rows the pool adds to the address and spent indexes. *)

From Stdlib Require Import ZArith Lia List Bool String.
From stdpp Require Import base option list gmap.
From coqutil Require Import Byte Word.LittleEndianList.
From S2P Require Import Prelude Uint256 Serialize MerkleDamgard Hash Script Interpreter Effects PubKey Tx Compressor Coins CoinsView Connect Params BlockIndex Chain TxCheck CheckBlock CheckInputs Standard MemPool PoolView.

Open Scope Z_scope.
Open Scope btc_scope.

Definition MAX_P2SH_SIGOPS : Z := 15.
Definition MAX_TX_SIGOPS_CURRENT : Z := MAX_BLOCK_SIGOPS_CURRENT / 2.
Definition REJECT_DUPLICATE : Z := 0x12.
Definition REJECT_INSUFFICIENTFEE : Z := 0x42.

(** [BaseSignatureChecker]: no signature is valid. *)
Definition no_signatures : BaseSignatureChecker := {| CheckSig := fun _ _ _ => false |}.

(** ** What is relayed *)

Section policy.
(** The settings, and the globals that finality reads. *)
Context (datacarrier : bool) (nMaxDatacarrierBytes : Z) (fIsBareMultisigStd : bool) (minRelayTxFee : CFeeRate)
        (chainHeight adjustedTime : Z).

Fixpoint standard_vin (vin : list CTxIn) : bool :=
  match vin with
  | [] => true
  | txin :: vin =>
      if IsZerocoinSpend (scriptSig txin) then standard_vin vin else
      if (1650 <? length (scriptSig txin))%nat then false else
      if negb (IsPushOnly (scriptSig txin)) then false else standard_vin vin
  end.

(** The outputs, with the number of those that carry data. *)
Fixpoint standard_vout (vout : list CTxOut) (nDataOut : Z) : result failure (option Z) :=
  match vout with
  | [] => Ret (Some nDataOut)
  | txout :: vout =>
      match IsStandard datacarrier nMaxDatacarrierBytes (scriptPubKey txout) with
      | None => Err Throws
      | Some (false, _) => Ret None
      | Some (true, TX_NULL_DATA) => standard_vout vout (nDataOut + 1)
      | Some (true, whichType) =>
          if bool_decide (whichType = TX_MULTISIG) && negb fIsBareMultisigStd then Ret None else
          match IsDust txout minRelayTxFee with
          | None => Err Undefined
          | Some true => Ret None
          | Some false => standard_vout vout nDataOut
          end
      end
  end.

(** The reasons are not kept. *)
Definition IsStandardTx (tx : CTransaction) : result failure bool :=
  if (tx_nVersion tx >? CURRENT_VERSION) || (tx_nVersion tx <? 1) then Ret false else
  if negb (IsFinalTx tx chainHeight adjustedTime (chainHeight + 1) 0) then Ret false else
  let sz := u32 (GetSerializeSize tx) in
  let nMaxSize := if ContainsZerocoins tx then MAX_ZEROCOIN_TX_SIZE else MAX_STANDARD_TX_SIZE in
  if sz >=? nMaxSize then Ret false else
  if negb (standard_vin (tx_vin tx)) then Ret false else
  let* r := standard_vout (tx_vout tx) 0 in
  Ret (match r with None => false | Some nDataOut => negb (nDataOut >? 1) end).
End policy.

Section inputs.
Context {V : Type} {CV : CCoinsView V}.
Abbreviation act := (eff (CCoinsViewCache V) failure).

(** The standard inputs: [None] stops with [return false], [Some true] goes on with the next
    input, [Some false] is the early [return] that decides for all. *)
Definition input_standard (prevScript scriptSig : CScript) : result failure (option (bool * bool)) :=
  match Solver prevScript with
  | None => Err Throws
  | Some (false, _, _) => Ret None
  | Some (true, whichType, vSolutions) =>
      let nArgsExpected := ScriptSigArgsExpected whichType vSolutions in
      if nArgsExpected <? 0 then Ret None else
      match @EvalScript no_signatures 0 [] scriptSig with
      | Err (Error _) => Ret None
      | Err (Throw _) => Err Throws
      | Err AssertFails => Err Asserts
      | Err Interpreter.Undefined => Err Undefined
      | Ret stack =>
          if bool_decide (whichType = TX_SCRIPTHASH) then
            match stack with
            | [] => Ret None
            | subscript :: _ =>
                match Solver subscript with
                | None => Err Throws
                | Some (true, whichType2, vSolutions2) =>
                    let tmpExpected := ScriptSigArgsExpected whichType2 vSolutions2 in
                    if tmpExpected <? 0 then Ret None else
                    Ret (Some (true, Z.of_nat (length stack) =? u32 (nArgsExpected + tmpExpected)))
                | Some (false, _, _) => Ret (Some (false, GetSigOpCount subscript true <=? MAX_P2SH_SIGOPS))
                end
            end
          else Ret (Some (true, Z.of_nat (length stack) =? u32 nArgsExpected))
      end
  end.

Fixpoint AreInputsStandard_loop (vin : list CTxIn) : act bool :=
  match vin with
  | [] => eret true
  | i :: vin =>
      do* prev := reads (GetOutputFor i) in
      match prev with
      | None => throw Asserts
      | Some prev =>
          do* r := lift (input_standard (scriptPubKey prev) (scriptSig i)) in
          match r with
          | None => eret false
          | Some (false, all) => eret all
          | Some (true, ok) => if ok : bool then AreInputsStandard_loop vin else eret false
          end
      end
  end.
Definition AreInputsStandard (tx : CTransaction) : act bool :=
  if IsCoinBase tx || HasZerocoinSpendInputs tx then eret true else AreInputsStandard_loop (tx_vin tx).

(** [GetPriority], whose result is dropped: the reads it makes and the products it takes. *)
Fixpoint GetPriority_loop (nHeight : Z) (vin : list CTxIn) : act unit :=
  match vin with
  | [] => eret tt
  | txin :: vin =>
      do* coins := reads (AccessCoins (prev_hash (prevout txin))) in
      match coins with
      | None => throw Asserts
      | Some coins =>
          let n := Z.to_nat (prev_n (prevout txin)) in
          do* _ := lift (match (if IsAvailable coins n then c_vout coins !! n else None) with
            | None => Ret 0
            | Some o => if Coins.nHeight coins <? nHeight
                        then let* age := as_int (nHeight - Coins.nHeight coins) in as_int64 (nValue o * age) else Ret 0
            end) in
          GetPriority_loop nHeight vin
      end
  end.
Definition GetPriority (tx : CTransaction) (nHeight : Z) : act unit :=
  if IsCoinBase tx || IsCoinStake tx then eret tt else GetPriority_loop nHeight (tx_vin tx).

(** Whether all the transactions spent are known. *)
Fixpoint inputs_known (vin : list CTxIn) : act bool :=
  match vin with
  | [] => eret true
  | txin :: vin =>
      do* have := reads (cache_HaveCoins (prev_hash (prevout txin))) in
      if have : bool then inputs_known vin else eret false
  end.
End inputs.

(** ** [AcceptToMemoryPool] *)

Section accept.
Context {D E V : Type} {CV : CCoinsView V} (d0 : D).
Context (params : CChainParams) (Verify : CPubKey -> uint256 -> list byte -> bool) (buf : list byte).
Context (H : heap) (mapBlockIndex : gmap uint256 ptr) (chainActive : CChain).

(** The settings of the node. *)
Context (datacarrier : bool) (nMaxDatacarrierBytes : Z) (fIsBareMultisigStd : bool) (minRelayTxFee : CFeeRate)
        (fAddressIndex fSpentIndex : bool).

(** The clock, the spork of zerocoin maintenance, the inputs locked by instant transactions. *)
Context (GetTime GetAdjustedTime SPORK_16 : Z) (mapLockedInputs : gmap COutPoint uint256).

(** The zerocoin layer, and what [CheckTransaction] reads. *)
Context {Zc : Zerocoin} (InitialBlockDownload : bool) (tipTime : option Z).
Context (ContextualCheckCoinSpend : CoinSpend -> uint256 -> bool) (IsTransactionInChain : uint256 -> option Z).

Abbreviation pool := (CTxMemPool D E).
Abbreviation pool_cache := (CCoinsViewCache (CCoinsViewMemPool D E (CCoinsViewCache V))).

(** The pool, [pcoinsTip], and what [pfMissingInputs] points to. *)
Record mem_state : Type := mk_mem { ms_pool : pool; ms_tip : CCoinsViewCache V; ms_missing : bool }.
Definition set_pool_of (s : mem_state) (p : pool) : mem_state := mk_mem p (ms_tip s) (ms_missing s).
Definition set_tip_of (s : mem_state) (v : CCoinsViewCache V) : mem_state := mk_mem (ms_pool s) v (ms_missing s).
Definition set_missing (b : bool) (s : mem_state) : mem_state := mk_mem (ms_pool s) (ms_tip s) b.

Abbreviation act := (eff mem_state failure).

(** Code on the pool; code on a view of its own, which is made and dropped. *)
Definition on_pool {A} (m : eff pool failure A) : act A := fun s => let '(r, p) := m (ms_pool s) in (r, set_pool_of s p).
Definition on_dummy {A} (view : CCoinsViewCache NoCoins) (m : eff (CCoinsViewCache NoCoins) failure A) : act A := fun s => ((m view).1, s).

(** A new cache over the coins of the chain and the pool, on which [m] is run; then nothing
    is under it.  The reads fill the caches of [pcoinsTip]. *)
Definition with_view {A} (m : eff pool_cache failure A) : act (A * CCoinsViewCache NoCoins) := fun s =>
  let '(r, view) := m (CCoinsViewCache_new (mk_mempool_view (ms_tip s) (ms_pool s))) in
  (match r with Ret a => Ret (a, SetBackend no_coins view) | Err e => Err e end, set_tip_of s (mv_base (cv_base view))).

(** The value of the inputs; [None]: some are missing. *)
Definition gather_inputs (tx : CTransaction) (state : CValidationState) : eff pool_cache failure (option CAmount) :=
  do* have := reads (cache_HaveCoins (tx_hash tx)) in
  if have : bool then throw (Rejected state) else
  do* known := inputs_known (tx_vin tx) in
  if negb known then eret None else
  do* available := reads (HaveInputs tx (nZerocoinStartHeight params)) in
  if negb available then throw (Rejected (Invalid REJECT_DUPLICATE "bad-txns-inputs-spent" state)) else
  do* _ := reads cache_GetBestBlock in
  do* nValueIn := reads (GetValueIn tx) in
  match nValueIn with Ret n => eret (Some n) | Err ValueAssert => throw Asserts | Err SumOverflow => throw Undefined end.

(** The spends of a zerocoin transaction. *)
Fixpoint zerocoin_spends (txid : uint256) (vin : list CTxIn) (state : CValidationState) : result failure unit :=
  match vin with
  | [] => Ret tt
  | txIn :: vin =>
      if negb (CTxIn_IsZerocoinSpend txIn) then zerocoin_spends txid vin state else
      let* spend := TxInToZerocoinSpend txIn in
      if negb (ContextualCheckCoinSpend spend txid) then Err (Rejected (Invalid 0 "" state)) else zerocoin_spends txid vin state
  end.

Definition zerocoin_value (tx : CTransaction) (state : CValidationState) : result failure CAmount :=
  match GetZerocoinSpent tx with
  | None => Err Undefined
  | Some nValueIn =>
      match IsTransactionInChain (tx_hash tx) with
      | Some _ => Err (Rejected (Invalid REJECT_DUPLICATE "bad-txns-inputs-spent" state))
      | None => let* _ := zerocoin_spends (tx_hash tx) (tx_vin tx) state in Ret nValueIn
      end
  end.

(** The tests that do not need coins. *)
Definition accept_alone (tx : CTransaction) (state : CValidationState) : result failure unit :=
  if (GetAdjustedTime >? SPORK_16) && ContainsZerocoins tx then reject 10 REJECT_INVALID "bad-tx" state else
  let* _ := (match CheckTransaction params InitialBlockDownload GetTime tipTime tx
                     (Height chainActive >=? nZerocoinStartHeight params) state with
             | Err (Rejected state) => reject 100 REJECT_INVALID "bad-tx" state
             | r => r
             end) in
  if IsCoinBase tx then reject 100 REJECT_INVALID "coinbase" state else
  if IsCoinStake tx then reject 100 REJECT_INVALID "coinstake" state else
  let* tip := of_ptr (deref H (Tip chainActive)) in
  if (nHeight tip >=? nLastPOWBlock params) && fRequireStandard params then
    let* ok := IsStandardTx datacarrier nMaxDatacarrierBytes fIsBareMultisigStd minRelayTxFee (Height chainActive) GetAdjustedTime tx in
    if ok : bool then Ret tt else reject 0 REJECT_NONSTANDARD "nonstandard" state
  else Ret tt.

(** Whether an input is locked by another transaction. *)
Definition locked (tx : CTransaction) : bool :=
  existsb (fun i => match mapLockedInputs !! prevout i with Some h => negb (bool_decide (h = tx_hash tx)) | None => false end) (tx_vin tx).

(** Whether the pool spends an input already. *)
Definition conflicts (tx : CTransaction) (p : pool) : bool :=
  negb (HasZerocoinSpendInputs tx) && existsb (fun i => bool_decide (is_Some (mapNextTx p !! prevout i))) (tx_vin tx).

(** The fee has to be enough, and not insane. *)
Definition check_fees (tx : CTransaction) (nFees nSize : Z) (fRejectInsaneFee : bool) (state : CValidationState) : result failure unit :=
  let* low := (if HasZerocoinSpendInputs tx
               then let* least := as_int64 (nMinZerocoinMintFee params * GetZerocoinMintCount tx) in Ret (nFees <? least)
               else Ret (nFees <? GetFee minRelayTxFee nSize)) in
  if low : bool then reject 0 REJECT_INSUFFICIENTFEE "insufficient fee" state else
  if fRejectInsaneFee then
    let* most := as_int64 (GetFee minRelayTxFee nSize * 10000) in
    if nFees >? most then Err (Rejected state) else Ret tt
  else Ret tt.

(** The rows of the indexes. *)
Fixpoint address_inputs (nTime : Z) (txhash : uint256) (j : nat) (vin : list CTxIn) : eff (CCoinsViewCache NoCoins) failure (list (CMempoolAddressDeltaKey * CMempoolAddressDelta)) :=
  match vin with
  | [] => eret []
  | input :: vin =>
      do* prev := reads (GetOutputFor input) in
      match prev with
      | None => throw Asserts
      | Some prev =>
          do* amount := lift (as_int64 (nValue prev * -1)) in
          do* rest := address_inputs nTime txhash (S j) vin in
          eret (match script_address (scriptPubKey prev) with
                | Some (ty, h) => (mk_delta_key ty h txhash j true, mk_delta nTime amount (prev_hash (prevout input)) (prev_n (prevout input))) :: rest
                | None => rest
                end)
      end
  end.
Definition address_outputs (nTime : Z) (tx : CTransaction) : list (CMempoolAddressDeltaKey * CMempoolAddressDelta) :=
  omap (fun ko => match script_address (scriptPubKey ko.2) with
                  | Some (ty, h) => Some (mk_delta_key ty h (tx_hash tx) ko.1 false, mk_delta nTime (nValue ko.2) (base_uint_zero 8) 0)
                  | None => None
                  end) (imap pair (tx_vout tx)).

(** [insert] keeps a row that is there. *)
Definition insert_new {K A} `{Countable K} (m : gmap K A) (kv : K * A) : gmap K A :=
  match m !! kv.1 with Some _ => m | None => <[kv.1 := kv.2]> m end.

Definition addAddressIndex (entry : CTxMemPoolEntry D) (view : CCoinsViewCache NoCoins) : act unit :=
  let tx := e_tx entry in
  do* ins := on_dummy view (address_inputs (e_nTime entry) (tx_hash tx) 0 (tx_vin tx)) in
  let rows := ins ++ address_outputs (e_nTime entry) tx in
  update (fun s => let p := ms_pool s in
    set_pool_of s (set_indexes p (foldl insert_new (mapAddress p) rows) (insert_new (mapAddressInserted p) (tx_hash tx, rows.*1)) (mapSpent p) (mapSpentInserted p))).

Fixpoint spent_inputs (txhash : uint256) (j : nat) (vin : list CTxIn) : eff (CCoinsViewCache NoCoins) failure (list (COutPoint * CSpentIndexValue)) :=
  match vin with
  | [] => eret []
  | input :: vin =>
      do* prev := reads (GetOutputFor input) in
      match prev with
      | None => throw Asserts
      | Some prev =>
          do* rest := spent_inputs txhash (S j) vin in
          let '(ty, h) := default (0, repeat Byte.x00 20) (script_address (scriptPubKey prev)) in
          eret ((prevout input, mk_spent txhash j (-1) (nValue prev) ty h) :: rest)
      end
  end.
Definition addSpentIndex (entry : CTxMemPoolEntry D) (view : CCoinsViewCache NoCoins) : act unit :=
  let tx := e_tx entry in
  do* rows := on_dummy view (spent_inputs (tx_hash tx) 0 (tx_vin tx)) in
  update (fun s => let p := ms_pool s in
    set_pool_of s (set_indexes p (mapAddress p) (mapAddressInserted p) (foldl insert_new (mapSpent p) rows) (insert_new (mapSpentInserted p) (tx_hash tx, rows.*1)))).

(** With the value of the inputs and the view that holds them. *)
Definition accept_inputs (tx : CTransaction) (nValueIn : CAmount) (view : CCoinsViewCache NoCoins) (fRejectInsaneFee : bool) (state : CValidationState) : act unit :=
  do* ok := (if fRequireStandard params then on_dummy view (AreInputsStandard tx) else eret true) in
  if negb ok then throw (Rejected state) else
  do* _ := (if negb (HasZerocoinSpendInputs tx) then
              do* n := on_dummy view (GetP2SHSigOpCount tx) in
              if u32 (GetLegacySigOpCount tx + n) >? MAX_TX_SIGOPS_CURRENT
              then lift (reject 0 REJECT_NONSTANDARD "bad-txns-too-many-sigops" state) else eret tt
            else eret tt) in
  do* nValueOut := lift (of_value (GetValueOut tx)) in
  do* nFees := lift (as_int64 (nValueIn - nValueOut)) in
  do* _ := (if negb (HasZerocoinSpendInputs tx) then on_dummy view (GetPriority tx (Height chainActive)) else eret tt) in
  let entry := CTxMemPoolEntry_of tx nFees GetTime d0 (u32 (Height chainActive)) in
  do* _ := lift (check_fees tx nFees (u32 (e_nTxSize entry)) fRejectInsaneFee state) in
  let Hcheck := if Height chainActive >=? StakingProtocol2Height then nZerocoinStartHeight params else 0 in
  do* _ := on_dummy view (CheckInputs params Verify buf H mapBlockIndex tx state true STANDARD_SCRIPT_VERIFY_FLAGS false Hcheck) in
  do* _ := on_dummy view (CheckInputs params Verify buf H mapBlockIndex tx state true MANDATORY_SCRIPT_VERIFY_FLAGS false 0) in
  do* _ := update (fun s => set_pool_of s (addUnchecked (tx_hash tx) entry (ms_pool s))) in
  do* _ := (if fAddressIndex then addAddressIndex entry view else eret tt) in
  if fSpentIndex then addSpentIndex entry view else eret tt.

(** Returning is [return true]; the wallets are told by the caller. *)
Definition AcceptToMemoryPool (tx : CTransaction) (fRejectInsaneFee : bool) (state : CValidationState) : act unit :=
  do* _ := update (set_missing false) in
  do* _ := lift (accept_alone tx state) in
  do* exists_ := (fun s => (Ret (exists_tx (tx_hash tx) (ms_pool s)), s)) in
  if exists_ : bool then throw (Rejected state) else
  if locked tx then lift (reject 0 REJECT_INVALID "tx-lock-conflict" state) else
  do* conflict := (fun s => (Ret (conflicts tx (ms_pool s)), s)) in
  if conflict : bool then throw (Rejected state) else
  if HasZerocoinSpendInputs tx then
    do* nValueIn := lift (zerocoin_value tx state) in
    accept_inputs tx nValueIn (CCoinsViewCache_new no_coins) fRejectInsaneFee state
  else
    do* (nValueIn, view) := with_view (gather_inputs tx state) in
    match nValueIn with
    | None => do* _ := update (set_missing true) in throw (Rejected state)
    | Some nValueIn => accept_inputs tx nValueIn view fRejectInsaneFee state
    end.
End accept.
