(* ===== verification/PoolAdmission.v ===== *)
(** * What the memory pool accepts ([main.cpp], [txmempool.cpp])

    [AcceptToMemoryPool] accepts exactly the transactions that pass its tests against the
    coins of the chain and those of the pool; what it accepts is entered and nothing else
    changes; what it refuses leaves the pool as it was. *)

From Stdlib Require Import ZArith Lia List Bool String.
From stdpp Require Import base option list gmap.
From coqutil Require Import Byte Word.LittleEndianList.
From S2P Require Import Prelude Uint256 Serialize MerkleDamgard Hash Script Interpreter Effects PubKey Tx Compressor Coins CoinsView CoinsDB Connect Params BlockIndex Chain TxCheck CheckBlock CheckInputs Standard MemPool PoolView PoolAccept.

Open Scope Z_scope.
Open Scope btc_scope.

Lemma ebind_reads {S X A B} (f : S -> S * A) (k : A -> eff S X B) s s' a : f s = (s', a) -> ebind (reads f) k s = k a s'.
Proof. intros F. unfold ebind, reads. by rewrite F. Qed.

(** ** Reading the coins of the pool *)

Section gather.
Context {D E V : Type} {CV : CCoinsView V} {VOk : CCoinsViewOk V}.
Abbreviation pool := (CTxMemPool D E).
Abbreviation pool_cache := (CCoinsViewCache (CCoinsViewMemPool D E (CCoinsViewCache V))).

(** The cache [v'] stands for what [v] does, over the same pool and over caches of the
    chain's coins that stand for the same. *)
Definition descends (v v' : pool_cache) : Prop :=
  keeps v v' /\ mv_pool (cv_base v') = mv_pool (cv_base v) /\ keeps (mv_base (cv_base v)) (mv_base (cv_base v')).

Lemma descends_refl v : cache_ok v -> descends v v.
Proof using. intros K. split; [by apply keeps_refl|]. split; [done|]. apply keeps_refl, K. Qed.

Lemma descends_trans v v' v'' : descends v v' -> descends v' v'' -> descends v v''.
Proof using. intros (A & B & C) (A' & B' & C'). split; [by eapply keeps_trans|]. split; [congruence|by eapply keeps_trans]. Qed.

Lemma descends_ok v v' : descends v v' -> cache_ok v'.
Proof using. by intros ([K _] & _). Qed.

Lemma FetchCoins_descends v t : cache_ok v -> wf 8 t -> descends v (FetchCoins t v).1.
Proof using.
  intros Hv Ht. split; [by apply FetchCoins_keeps|]. assert (Hb : cache_ok (mv_base (cv_base v))) by apply Hv.
  unfold FetchCoins. destruct (cacheCoins v !! t) as [e|]; [by split; [|apply keeps_refl]|].
  cbn [GetCoins CCoinsViewMemPool_view]. unfold mempool_GetCoins. destruct (lookup_tx t _) as [tx|]; [by split; [|apply keeps_refl]|].
  cbn [GetCoins CCoinsViewCache_view]. unfold cache_GetCoins. pose proof (FetchCoins_keeps (mv_base (cv_base v)) t Hb Ht) as K.
  destruct (FetchCoins t (mv_base (cv_base v))) as [b r]. by destruct (_ ≫= _).
Qed.

Lemma AccessCoins_descends v t : cache_ok v -> wf 8 t -> descends v (AccessCoins t v).1.
Proof using. intros Hv Ht. pose proof (FetchCoins_descends v t Hv Ht) as K. unfold AccessCoins. by destruct (FetchCoins t v). Qed.

Lemma HaveCoins_descends v t : cache_ok v -> wf 8 t ->
  descends v (cache_HaveCoins t v).1 /\ (cache_HaveCoins t v).2 = bool_decide (is_Some (cache_view v t)).
Proof using.
  intros Hv Ht. pose proof (cache_HaveCoins_law v t Hv Ht) as L. pose proof (FetchCoins_descends v t Hv Ht) as K.
  unfold cache_HaveCoins in *. destruct (FetchCoins t v). by destruct L as (_ & _ & _ & _ & ->).
Qed.

Lemma GetOutputFor_descends v i : cache_ok v -> hash_wf i -> descends v (GetOutputFor i v).1.
Proof using. intros Hv Hi. pose proof (AccessCoins_descends v _ Hv Hi) as K. unfold GetOutputFor. by destruct (AccessCoins _ v). Qed.

Lemma GetBestBlock_descends v : cache_ok v -> descends v (cache_GetBestBlock v).1.
Proof using.
  intros Hv. split; [by apply GetBestBlock_keeps|]. assert (Hb : cache_ok (mv_base (cv_base v))) by apply Hv.
  unfold cache_GetBestBlock. case_bool_decide; [|by split; [|apply keeps_refl]]. cbn [GetBestBlock CCoinsViewMemPool_view].
  unfold mempool_GetBestBlock. cbn [GetBestBlock CCoinsViewCache_view]. pose proof (GetBestBlock_keeps (mv_base (cv_base v)) Hb) as [K _].
  by destruct (cache_GetBestBlock (mv_base (cv_base v))).
Qed.

Lemma HaveInputs_loop_descends (tx : CMutableTransaction) Hcheck vin : forall v, cache_ok v -> Forall hash_wf vin ->
  descends v (HaveInputs_loop tx Hcheck vin v).1 /\
  ((HaveInputs_loop tx Hcheck vin v).2 = true -> Forall (held (HaveInputs_loop tx Hcheck vin v).1) vin).
Proof using.
  induction vin as [|i vin IH]; intros v Hv Hw; cbn [HaveInputs_loop]; [by split; [apply descends_refl|]|].
  apply Forall_cons in Hw as [Hi Hw]. pose proof (AccessCoins_descends v _ Hv Hi) as K.
  pose proof (FetchCoins_spec v _ (proj2 Hv) Hi) as S. unfold AccessCoins in *. destruct (FetchCoins _ v) as [v1 r].
  destruct S as (_ & _ & Er & _). cbn [fst] in K. destruct r as [e|]; cbn [fmap option_fmap option_map]; [|by split].
  destruct (_ || _); [by split|]. destruct (IH v1 (descends_ok _ _ K) Hw) as [K' Hh]. split; [by eapply descends_trans|].
  intros Ht. constructor; [|by apply Hh]. destruct K' as ((_ & _ & Pu & _) & _). apply Pu. unfold cache_pulled. by rewrite <- Er.
Qed.

Lemma GetValueIn_loop_descends vin : forall n v, cache_ok v -> Forall hash_wf vin -> descends v (GetValueIn_loop vin n v).1.
Proof using.
  induction vin as [|i vin IH]; intros n v Hv Hw; cbn [GetValueIn_loop]; [by apply descends_refl|].
  apply Forall_cons in Hw as [Hi Hw]. pose proof (GetOutputFor_descends v i Hv Hi) as K. destruct (GetOutputFor i v) as [v1 [o|]]; [|done].
  destruct (add_amount _ _) as [m|]; [|done]. eapply descends_trans; [exact K|]. apply IH; [by eapply descends_ok|done].
Qed.

Lemma GetValueIn_loop_hashBlock vin : forall n (v : pool_cache), hashBlock (GetValueIn_loop vin n v).1 = hashBlock v.
Proof using.
  assert (F : forall t (v : pool_cache), hashBlock (FetchCoins t v).1 = hashBlock v).
  { intros t v. unfold FetchCoins. destruct (cacheCoins v !! t); [done|]. by destruct (GetCoins t (cv_base v)) as [b [c|]]. }
  induction vin as [|i vin IH]; intros n v; cbn [GetValueIn_loop]; [done|]. unfold GetOutputFor, AccessCoins.
  specialize (F (prev_hash (prevout i)) v). destruct (FetchCoins _ v) as [v1 r]. cbn [fst] in F. destruct (_ ≫= _) as [o|]; [|done].
  destruct (add_amount _ _) as [m|]; [|done]. by rewrite IH.
Qed.

Lemma inputs_known_spec L vin : forall v : pool_cache, stands v L -> Forall hash_wf vin ->
  exists v', inputs_known vin v = (Ret (forallb (fun i => bool_decide (is_Some (L (prev_hash (prevout i))))) vin), v') /\ descends v v'.
Proof using.
  induction vin as [|i vin IH]; intros v St Hw; cbn [inputs_known forallb]; [exists v; split; [done|apply descends_refl, St]|].
  apply Forall_cons in Hw as [Hi Hw]. destruct (HaveCoins_descends v _ (proj1 St) Hi) as [K Eb]. unfold ebind, reads.
  destruct (cache_HaveCoins _ v) as [v1 b]. cbn [fst snd] in *. rewrite (proj2 St) in Eb. subst b. case_bool_decide; cbn [andb].
  - destruct (IH v1) as (v' & -> & K'); [eapply stands_keeps; [exact St|apply K]|done|]. exists v'. split; [done|by eapply descends_trans].
  - by exists v1.
Qed.

Section gathered.
Context (params : CChainParams).

(** The inputs are there and are no zerocoins from before their start. *)
Definition inputs_there (L : ledger) (tx : CTransaction) : Prop :=
  Forall (fun i => available L (nZerocoinStartHeight params) (IsCoinStake tx) i = true) (tx_vin tx).

Lemma inputs_there_known L tx : inputs_there L tx -> Forall (fun i => is_Some (L (prev_hash (prevout i)))) (tx_vin tx).
Proof using. intros F. eapply Forall_impl; [exact F|]. intros i Ha.
  unfold available, coin_at in Ha. by destruct (L _); [eexists|]. Qed.

(** What is gathered: the transaction is not there yet, and its inputs are. *)
Lemma gather_inputs_spec L (tx : CTransaction) state (v : pool_cache) : stands v L -> wf 8 (tx_hash tx) -> Forall hash_wf (tx_vin tx) ->
  has_inputs tx = true -> cache_best v <> zero_hash ->
  let '(r, v') := gather_inputs params tx state v in
  descends v v' /\
  match r with
  | Ret (Some n) => L (tx_hash tx) = None /\ inputs_there L tx /\ n = value_in L (tx_vin tx) /\ 0 <= n < 2 ^ 63 /\ Forall (held v') (tx_vin tx) /\ hashBlock v' <> zero_hash
  | Ret None => ~ Forall (fun i => is_Some (L (prev_hash (prevout i)))) (tx_vin tx)
  | Err (Rejected _) => ~ (L (tx_hash tx) = None /\ inputs_there L tx)
  | Err e => e = TxCheck.Undefined /\ 2 ^ 63 <= value_in L (tx_vin tx)
  end.
Proof using.
  intros St Hh Hw Hi Hb. unfold gather_inputs. destruct (HaveCoins_descends v _ (proj1 St) Hh) as [K1 Eb]. unfold ebind, reads at 1.
  destruct (cache_HaveCoins _ v) as [v1 b]. cbn [fst snd] in *. rewrite (proj2 St) in Eb. subst b. case_bool_decide as Hn.
  { split; [done|]. intros [N _]. rewrite N in Hn. by destruct Hn. }
  pose proof (stands_keeps _ _ _ St (proj1 K1)) as S1. destruct (inputs_known_spec L (tx_vin tx) v1 S1 Hw) as (v2 & -> & K2).
  pose proof (stands_keeps _ _ _ S1 (proj1 K2)) as S2. pose proof (descends_trans _ _ _ K1 K2) as K12.
  destruct (forallb _ _) eqn:Ek; cbn [negb].
  2: { split; [done|]. intros F. apply not_true_iff_false in Ek. apply Ek, forallb_forall. intros i Hin%list_elem_of_In. rewrite Forall_forall in F. apply bool_decide_eq_true, F, Hin. }
  assert (Hi' : IsCoinBase tx = false /\ HasZerocoinSpendInputs tx = false) by (unfold has_inputs in Hi; by destruct (IsCoinBase tx), (HasZerocoinSpendInputs tx)).
  destruct Hi' as [Hcb Hzc]. unfold reads at 1, HaveInputs. rewrite Hcb, Hzc. cbn [negb andb].
  pose proof (HaveInputs_loop_spec tx (nZerocoinStartHeight params) L (tx_vin tx) v2 S2 Hw) as (_ & _ & E3).
  pose proof (HaveInputs_loop_descends tx (nZerocoinStartHeight params) (tx_vin tx) v2 (proj1 S2) Hw) as [K3 Hd].
  destruct (HaveInputs_loop _ _ _ v2) as [v3 ok]. cbn [fst snd] in *. subst ok. pose proof (descends_trans _ _ _ K12 K3) as K13.
  assert (Eok : forallb (available L (nZerocoinStartHeight params) (IsCoinStake tx)) (tx_vin tx) = true <-> inputs_there L tx).
  { unfold inputs_there. rewrite forallb_forall, Forall_forall. split; intros F i Hin; apply F; by apply list_elem_of_In. }
  destruct (forallb (available _ _ _) _); [cbn [negb]|split; [done|]; intros [_ F]; by apply Eok in F].
  pose proof (proj1 Eok eq_refl) as Ha. pose proof (stands_keeps _ _ _ S2 (proj1 K3)) as S3.
  pose proof (GetBestBlock_descends v3 (proj1 S3)) as K4. pose proof (GetBestBlock_keeps v3 (proj1 S3)) as [_ Eb].
  assert (Hb4 : hashBlock (cache_GetBestBlock v3).1 <> zero_hash).
  { assert (B3 : cache_best v3 <> zero_hash) by (destruct K13 as ((_ & _ & _ & -> & _) & _); done).
    unfold cache_GetBestBlock, cache_best in *. case_bool_decide; [|done]. rewrite <- Eb in B3. by destruct (GetBestBlock (cv_base v3)). }
  unfold reads at 1. destruct (cache_GetBestBlock v3) as [v4 b4]. cbn [fst snd] in *. pose proof (stands_keeps _ _ _ S3 (proj1 K4)) as S4.
  unfold reads, GetValueIn. rewrite Hcb, Hzc. pose proof (GetValueIn_loop_spec L _ _ (tx_vin tx) 0 v4 S4 Hw ltac:(lia) Ha) as [_ E5].
  pose proof (GetValueIn_loop_descends (tx_vin tx) 0 v4 (proj1 S4) Hw) as K5.
  pose proof (GetValueIn_loop_hashBlock (tx_vin tx) 0 v4) as H5. destruct (GetValueIn_loop _ _ v4) as [v5 n]. cbn [fst snd] in *.
  pose proof (descends_trans _ _ _ K13 (descends_trans _ _ _ K4 K5)) as K15. subst n. rewrite Z.add_0_l.
  pose proof (value_in_nonneg v4 L (tx_vin tx) S4 Hw) as Nn. destruct (Z.ltb_spec (value_in L (tx_vin tx)) (2 ^ 63)); [|by split; [|split]].
  split; [done|]. split; [by apply eq_None_not_Some|]. split; [done|]. split; [done|]. split; [done|]. split.
  - assert (Pu : forall t, cache_pulled v3 t -> cache_pulled v5 t).
    { intros t Ht. destruct K4 as ((_ & _ & P4 & _) & _), K5 as ((_ & _ & P5 & _) & _). by apply P5, P4. }
    eapply Forall_impl; [by apply Hd|]. intros i Hin. by apply Pu.
  - by rewrite H5.
Qed.
End gathered.
End gather.

(** ** The tests against a view that holds the inputs *)

Section worthy.
Context {D E V : Type} {CV : CCoinsView V} {VOk : CCoinsViewOk V} (d0 : D).
Context (params : CChainParams) (Hp : params_ok params) (Verify : CPubKey -> uint256 -> list byte -> bool) (buf : list byte).
Context (H : heap) (mapBlockIndex : gmap uint256 ptr) (chainActive : CChain).
Context (minRelayTxFee : CFeeRate) (fAddressIndex fSpentIndex : bool) (GetTime : Z).

Abbreviation pool := (CTxMemPool D E).
Abbreviation mstate := (@mem_state D E V).

(** The cache [w] holds the coins that [L] has at the input. *)
Definition readable (w : CCoinsViewCache NoCoins) (L : ledger) (i : CTxIn) : Prop :=
  exists c o, AccessCoins (prev_hash (prevout i)) w = (w, Some c) /\ GetOutputFor i w = (w, Some o) /\
    script_at L (prevout i) = scriptPubKey o /\ value_at L (prevout i) = nValue o /\ 0 <= nValue o < 2 ^ 61 /\
    exists o', coin_at L (prevout i) = Some (c, o').

Lemma held_readable {W} {CW : CCoinsView W} {WOk : CCoinsViewOk W} (v : CCoinsViewCache W) w L h stake i : stands v L -> cacheCoins w = cacheCoins v ->
  hash_wf i -> held v i -> available L h stake i = true -> readable w L i.
Proof using.
  intros St Ec Hi [e Ee] Ha. destruct (GetOutputFor_available v L i h stake St Hi Ha) as (v' & o & _ & Eo & Ev & Es).
  assert (Eat : exists o', coin_at L (prevout i) = Some (coins e, o')).
  { unfold available in Ha. destruct (coin_at L (prevout i)) as [[c' o']|] eqn:Ea; [|done]. exists o'. f_equal. f_equal.
    unfold coin_at in Ea. rewrite <- (proj2 St) in Ea. unfold cache_view in Ea. rewrite Ee in Ea. unfold unspent in Ea.
    destruct (IsPruned (coins e)); [done|]. cbn [mbind option_bind] in Ea. destruct (c_vout (coins e) !! _) as [x|]; [|done].
    cbn [mbind option_bind] in Ea. destruct (CTxOut_IsNull x); [done|]. by injection Ea. }
  exists (coins e), o. pose proof (value_at_range v L _ St Hi) as R. unfold GetOutputFor, AccessCoins, FetchCoins in Eo |- *. rewrite Ec, Ee. rewrite Ee in Eo.
  cbn [fmap option_fmap option_map] in *. injection Eo as _ Eo. rewrite <- Ev. cbv beta iota. cbn [mbind option_bind]. by rewrite Eo.
Qed.

(** All the inputs are of standard forms, with the arguments these expect. *)
Fixpoint inputs_standard (L : ledger) (vin : list CTxIn) : result failure bool :=
  match vin with
  | [] => Ret true
  | i :: vin =>
      let* r := input_standard (script_at L (prevout i)) (scriptSig i) in
      match r with
      | None => Ret false
      | Some (false, all) => Ret all
      | Some (true, ok) => if ok : bool then inputs_standard L vin else Ret false
      end
  end.

Lemma AreInputsStandard_loop_spec w L vin : Forall (readable w L) vin -> (AreInputsStandard_loop vin w).1 = inputs_standard L vin.
Proof using.
  induction 1 as [|i vin (c & o & _ & Eo & Es & _) Hv IH]; cbn [AreInputsStandard_loop inputs_standard]; [done|].
  unfold ebind at 1, reads. rewrite Eo. rewrite Es. unfold ebind, lift. destruct (input_standard _ _) as [[[[] []]|]|e]; cbn [result_bind fst]; try done.
Qed.

(** The scripts that [Solver] throws on: that of the output spent, or the one that the input
    pushes last. *)
Definition lone_mint : CScript := ops [OP_ZEROCOINMINT].
Definition unsolved (L : ledger) (i : CTxIn) : Prop :=
  script_at L (prevout i) = lone_mint \/ exists stack, @EvalScript no_signatures 0 [] (scriptSig i) = Ret (lone_mint :: stack).

Lemma input_standard_error L i e : input_standard (script_at L (prevout i)) (scriptSig i) = Err e -> e = Throws /\ unsolved L i.
Proof using.
  unfold input_standard, unsolved. destruct (Solver (script_at L (prevout i))) as [[[[] ty] sol]|] eqn:Es; [|done|].
  2: { intros [= <-]. split; [done|]. left. by apply Solver_throws. }
  destruct (_ <? 0); [done|].
  pose proof (@EvalScript_bounded no_signatures 0 [] (scriptSig i) ltac:(constructor) ltac:(cbn; lia)) as B.
  destruct (EvalScript 0 [] (scriptSig i)) as [stk|[| | |]]; try done. case_bool_decide; [|done]. destruct stk as [|sub stk]; [done|].
  destruct (Solver sub) as [[[[] ty2] sol2]|] eqn:Eb; [by destruct (_ <? 0)|done|]. intros [= <-]. split; [done|]. right.
  apply Solver_throws in Eb as ->. by exists stk.
Qed.

Lemma inputs_standard_error L vin e : inputs_standard L vin = Err e -> e = Throws /\ Exists (unsolved L) vin.
Proof using.
  induction vin as [|i vin IH]; cbn [inputs_standard]; [done|]. destruct (input_standard _ _) as [[[[] []]|]|x] eqn:Es; cbn [result_bind]; try done.
  - intros [? ?]%IH. split; [done|]. by right.
  - intros [= <-]. apply input_standard_error in Es as [? ?]. split; [done|]. by left.
Qed.

(** A number that a signed integer of [w] bits cannot hold. *)
Definition overflows (w n : Z) : Prop := n < - 2 ^ (w - 1) \/ 2 ^ (w - 1) <= n.
Lemma as_int64_Err n e : as_int64 n = Err e -> e = TxCheck.Undefined /\ overflows 64 n.
Proof using. unfold as_int64, overflows. destruct (Z.leb_spec (- 2 ^ 63) n), (Z.ltb_spec n (2 ^ 63)); cbn; intros [= <-]; (split; [done|lia]). Qed.
Lemma as_int_Err n e : as_int n = Err e -> e = TxCheck.Undefined /\ overflows 32 n.
Proof using. unfold as_int, overflows. destruct (Z.leb_spec (- 2 ^ 31) n), (Z.ltb_spec n (2 ^ 31)); cbn; intros [= <-]; (split; [done|lia]). Qed.

(** The product of amount and age that [GetPriority] takes of an input at height [h]. *)
Definition age_overflows (L : ledger) (h : Z) (i : CTxIn) : Prop :=
  exists c o, coin_at L (prevout i) = Some (c, o) /\ Coins.nHeight c < h /\
    (overflows 32 (h - Coins.nHeight c) \/ overflows 64 (nValue o * (h - Coins.nHeight c))).

Definition p2sh_count (L : ledger) (vin : list CTxIn) : Z := foldr (fun i n => p2sh_sigops L i + n) 0 vin.

Lemma GetP2SHSigOpCount_loop_read w L vin : Forall (readable w L) vin -> forall n, in_u32 n ->
  GetP2SHSigOpCount_loop vin n w = (Ret (u32 (n + p2sh_count L vin)), w).
Proof using.
  induction 1 as [|i vin (c & o & _ & Eo & Es & _) Hv IH]; intros n Hn; cbn [GetP2SHSigOpCount_loop].
  { unfold eret, p2sh_count. cbn [foldr]. by rewrite Z.add_0_r, u32_small. }
  unfold ebind, reads. rewrite Eo. change (p2sh_count L (i :: vin)) with (p2sh_sigops L i + p2sh_count L vin). unfold p2sh_sigops. rewrite Es.
  destruct (IsPayToScriptHash _); rewrite IH by (exact Hn || apply u32_range); [|done]. rewrite u32_add_l. do 3 f_equal. lia.
Qed.

Lemma GetPriority_loop_read w L h vin : Forall (readable w L) vin ->
  (GetPriority_loop h vin w).1 = Ret tt \/ ((GetPriority_loop h vin w).1 = Err TxCheck.Undefined /\ Exists (age_overflows L h) vin).
Proof using.
  induction 1 as [|i vin (c & o & Ec & _ & _ & _ & _ & o' & Ea) Hv IH]; cbn [GetPriority_loop]; [by left|]. rewrite (ebind_reads _ _ _ _ _ Ec).
  match goal with |- context [lift ?r] => destruct r as [n|e] eqn:En end; unfold ebind, lift.
  { destruct IH as [IH|[IH Ex]]; [by left|right]. split; [exact IH|by right]. }
  right. cbn [fst]. enough (e = TxCheck.Undefined /\ age_overflows L h i) as [-> K] by (split; [done|by left]).
  destruct (IsAvailable c _); [|done]. assert (Eo : c_vout c !! Z.to_nat (prev_n (prevout i)) = Some o').
  { unfold coin_at in Ea. destruct (L _) as [c'|]; [|done]. cbn [mbind option_bind] in Ea. destruct (c_vout c' !! _) as [x|] eqn:Ex; [|done].
    cbn [mbind option_bind] in Ea. destruct (CTxOut_IsNull x); [done|]. injection Ea as -> ->. exact Ex. }
  rewrite Eo in En. destruct (Z.ltb_spec (Coins.nHeight c) h) as [Lt|]; [|done]. unfold age_overflows.
  destruct (as_int _) as [age|x] eqn:Ei; cbn [result_bind] in En.
  - apply as_int_Ret in Ei as ->. apply as_int64_Err in En as [-> K]. split; [done|]. exists c, o'. by repeat (split; [done|]); right.
  - injection En as ->. apply as_int_Err in Ei as [-> K]. split; [done|]. exists c, o'. by repeat (split; [done|]); left.
Qed.

Lemma address_inputs_read w L nTime txhash vin : Forall (readable w L) vin -> forall j, exists rows, address_inputs nTime txhash j vin w = (Ret rows, w).
Proof using.
  induction 1 as [|i vin (c & o & _ & Eo & _ & _ & R & _) Hv IH]; intros j; cbn [address_inputs]; [by eexists|].
  unfold ebind, reads. rewrite Eo. unfold lift. rewrite as_int64_small by lia. destruct (IH (S j)) as [rows ->]. by eexists.
Qed.

Lemma spent_inputs_read w L txhash vin : Forall (readable w L) vin -> forall j, exists rows, spent_inputs txhash j vin w = (Ret rows, w).
Proof using.
  induction 1 as [|i vin (c & o & _ & Eo & _) Hv IH]; intros j; cbn [spent_inputs]; [by eexists|].
  unfold ebind, reads. rewrite Eo. destruct (IH (S j)) as [rows ->]. destruct (default _ _) as [ty h]. by eexists.
Qed.
(** What [accept_inputs] asks for, against the coins [L]. *)
Definition fee_ok (tx : CTransaction) (nFees : Z) (fRejectInsaneFee : bool) : Prop :=
  let least := GetFee minRelayTxFee (u32 (PROTOCOL_SIZE tx)) in
  least <= nFees /\ (fRejectInsaneFee = true -> nFees <= least * 10000).

Record worthy (L : ledger) (hs : Z) (tx : CTransaction) (fRejectInsaneFee : bool) : Prop := {
  wy_standard : fRequireStandard params = true -> inputs_standard L (tx_vin tx) = Ret true;
  wy_sigops : u32 (GetLegacySigOpCount tx + u32 (p2sh_count L (tx_vin tx))) <= MAX_TX_SIGOPS_CURRENT;
  wy_fee : fee_ok tx (value_in L (tx_vin tx) - sum_values (tx_vout tx)) fRejectInsaneFee;
  wy_inputs : inputs_ok params L hs 0 tx;
  wy_scripts : Forall (passes Verify buf) (input_checks L tx STANDARD_SCRIPT_VERIFY_FLAGS 0 (tx_vin tx));
  wy_mandatory : Forall (passes Verify buf) (input_checks L tx MANDATORY_SCRIPT_VERIFY_FLAGS 0 (tx_vin tx)) }.

(** The pool [p'] is [p] with [tx]. *)
Definition entered (p : pool) (tx : CTransaction) (p' : pool) : Prop :=
  pool_wf p' /\ forall h, pool_tx p' h = if decide (h = tx_hash tx) then Some tx else pool_tx p h.

(** The accidents of these tests: [Solver] throws, the product of the priority or of the
    insane fee overflows. *)
Definition coins_accident (L : ledger) (tx : CTransaction) (fRejectInsaneFee : bool) (e : failure) : Prop :=
  (e = Throws /\ fRequireStandard params = true /\ Exists (unsolved L) (tx_vin tx)) \/
  (e = TxCheck.Undefined /\ (Exists (age_overflows L (Height chainActive)) (tx_vin tx) \/
     (fRejectInsaneFee = true /\ overflows 64 (GetFee minRelayTxFee (u32 (PROTOCOL_SIZE tx)) * 10000)))).

(** A refusal is for want of [P], an accident is one of [X]. *)
Definition fails (X : failure -> Prop) (P : Prop) (e : failure) : Prop := match e with Rejected _ => ~ P | _ => X e end.
(** The pool and [pcoinsTip] are as they were. *)
Definition refused (X : failure -> Prop) (P : Prop) (s : mstate) (e : failure) (s' : mstate) : Prop := s' = s /\ fails X P e.

(** A test that passes under [P]. *)
Definition settles {A} (X : failure -> Prop) (r : result failure A) (P : Prop) : Prop :=
  match r with Ret _ => P | Err e => fails X P e end.

Lemma runs_settle {A B} X (P P1 : Prop) (m : eff mstate failure A) (k : A -> eff mstate failure B) r s Q : m s = (r, s) -> settles X r P1 -> (P -> P1) ->
  (forall a, r = Ret a -> P1 -> runs (refused X P s) (k a) s Q) -> runs (refused X P s) (ebind m k) s Q.
Proof using.
  intros Run St I K. unfold runs, ebind. rewrite Run. destruct r as [a|e]; [by apply (K a)|]. split; [done|]. destruct e; cbn in St |- *; [|done..].
  intros HP. by apply St, I.
Qed.

Lemma settles_decides {A} X (r : result failure A) P Q : decides no_accident r P Q -> settles X r P.
Proof using. destruct r as [a|e]; [by intros [? _]|]. intros [N [[st ->]|[]]]. exact N. Qed.

Lemma runs_reject {A} X (P : Prop) (s : mstate) state (Q : A -> mstate -> Prop) : ~ P -> runs (refused X P s) (throw (Rejected state)) s Q.
Proof using. by split. Qed.

(** The rows of the indexes are found, and do not touch the transactions. *)
Lemma index_rows (entry : CTxMemPoolEntry D) (w : CCoinsViewCache NoCoins) L (p : pool) (s : mstate) : Forall (readable w L) (tx_vin (e_tx entry)) ->
  entered p (e_tx entry) (ms_pool s) ->
  exists s', (do* _ := (if fAddressIndex then addAddressIndex entry w else eret tt) in
              if fSpentIndex then addSpentIndex entry w else eret tt) s = (Ret tt, s') /\
    ms_tip s' = ms_tip s /\ ms_missing s' = ms_missing s /\ fSanityCheck (ms_pool s') = fSanityCheck (ms_pool s) /\ entered p (e_tx entry) (ms_pool s').
Proof using.
  intros Hr [Wf He]. destruct (address_inputs_read w L (e_nTime entry) (tx_hash (e_tx entry)) _ Hr 0) as [r1 E1].
  destruct (spent_inputs_read w L (tx_hash (e_tx entry)) _ Hr 0) as [r2 E2].
  unfold ebind, addAddressIndex, addSpentIndex, on_dummy, update, ebind. rewrite E1, E2. cbn [fst].
  destruct fAddressIndex, fSpentIndex; (eexists; split; [reflexivity|]; split; [done|]; split; [done|]; split; [done|];
    split; [by repeat apply set_indexes_wf|exact He]).
Qed.
(** [CheckInputs] on the cache that lost its backend says what it says on the view [v]. *)
Lemma CheckInputs_dummy {W} {CW : CCoinsView W} {WOk : CCoinsViewOk W} (v : CCoinsViewCache W) L (tx : CTransaction) state flags Hcheck p prev :
  stands v L -> hashBlock v <> zero_hash -> Forall (held v) (tx_vin tx) -> Forall hash_wf (tx_vin tx) -> GetValueOut tx = Ret (sum_values (tx_vout tx)) ->
  has_inputs tx = true -> mapBlockIndex !! cache_best v = Some p -> H !! p = Some prev -> 0 <= nHeight prev < 2 ^ 31 - 1 ->
  decides no_accident (CheckInputs params Verify buf H mapBlockIndex tx state true flags false Hcheck (SetBackend no_coins v)).1
    (inputs_ok params L (nHeight prev + 1) Hcheck tx /\ Forall (passes Verify buf) (input_checks L tx flags 0 (tx_vin tx))) (fun _ => True).
Proof using Hp.
  intros St Hz Hh Hw Eo Hi Ep Eprev Hn.
  destruct (same_CheckInputs v (SetBackend no_coins v) eq_refl eq_refl Hz params Verify buf H mapBlockIndex tx state true flags false Hcheck Hh) as (r & E1 & E2).
  destruct (CheckInputs_judged params Hp Verify buf H mapBlockIndex v L tx state true flags false Hcheck p prev _ St Hw Eo Hi Ep Eprev Hn) as [_ Dj].
  rewrite E1 in Dj. rewrite E2. eapply decides_weaken; [exact Dj| |done|done]. split; intros [A B]; (split; [exact A|]); [done|by apply B].
Qed.

Lemma check_fees_settles L (tx : CTransaction) n insane state : HasZerocoinSpendInputs tx = false ->
  settles (coins_accident L tx insane) (check_fees params minRelayTxFee tx n (u32 (PROTOCOL_SIZE tx)) insane state) (fee_ok tx n insane).
Proof using.
  intros Hzc. unfold check_fees, fee_ok, coins_accident. rewrite Hzc. cbn [result_bind].
  destruct (Z.ltb_spec n (GetFee minRelayTxFee (u32 (PROTOCOL_SIZE tx)))); [intros [? _]; lia|]. destruct insane; [|by split].
  destruct (as_int64 _) as [most|e] eqn:Em; cbn [result_bind].
  - apply as_int64_Ret in Em as ->. destruct (Z.gtb_spec n (GetFee minRelayTxFee (u32 (PROTOCOL_SIZE tx)) * 10000)) as [G|G].
    + intros [_ F]. specialize (F eq_refl). lia.
    + split; [done|]. by intros _.
  - apply as_int64_Err in Em as [-> O]. right. split; [done|]. by right.
Qed.

Lemma accept_inputs_spec {W} {CW : CCoinsView W} {WOk : CCoinsViewOk W} (v : CCoinsViewCache W) L (tx : CTransaction) fRejectInsaneFee state p prev (s : mstate) :
  stands v L -> hashBlock v <> zero_hash -> Forall (held v) (tx_vin tx) -> Forall hash_wf (tx_vin tx) -> GetValueOut tx = Ret (sum_values (tx_vout tx)) ->
  IsCoinBase tx = false -> IsCoinStake tx = false -> inputs_there params L tx ->
  mapBlockIndex !! cache_best v = Some p -> H !! p = Some prev -> 0 <= nHeight prev < 2 ^ 31 - 1 ->
  pool_wf (ms_pool s) -> addable_tx (ms_pool s) tx -> 0 <= value_in L (tx_vin tx) < 2 ^ 63 -> 0 <= sum_values (tx_vout tx) < 2 ^ 63 ->
  let ok := worthy L (nHeight prev + 1) tx fRejectInsaneFee in
  runs (refused (coins_accident L tx fRejectInsaneFee) ok s) (accept_inputs d0 params Verify buf H mapBlockIndex chainActive minRelayTxFee fAddressIndex fSpentIndex GetTime
      tx (value_in L (tx_vin tx)) (SetBackend no_coins v) fRejectInsaneFee state) s
    (fun _ s' => ok /\ ms_tip s' = ms_tip s /\ ms_missing s' = ms_missing s /\ fSanityCheck (ms_pool s') = fSanityCheck (ms_pool s) /\
       entered (ms_pool s) tx (ms_pool s')).
Proof using Hp.
  intros St Hz Hh Hw Eo Hcb Hcs Ha Ep Eprev Hn Wf Ad Rin Rout ok. set (w := SetBackend no_coins v).
  assert (Hzc : HasZerocoinSpendInputs tx = false) by apply Ad.
  assert (Hi : has_inputs tx = true) by (unfold has_inputs; by rewrite Hcb, Hzc).
  assert (Hr : Forall (readable w L) (tx_vin tx)).
  { unfold inputs_there in Ha. rewrite Forall_forall in Ha, Hh, Hw |- *. intros i Hin.
    apply (held_readable v w L (nZerocoinStartHeight params) (IsCoinStake tx)); auto. }
  unfold accept_inputs. rewrite Hzc. cbn [negb].
  eapply (runs_settle _ _ True (if fRequireStandard params then _ else _) _ (if fRequireStandard params then inputs_standard L (tx_vin tx) else Ret true)).
  { unfold on_dummy, AreInputsStandard. destruct (fRequireStandard params); [|done]. rewrite Hcb, Hzc. cbn [orb]. by rewrite (AreInputsStandard_loop_spec w L). }
  { destruct (fRequireStandard params) eqn:Rs; [|done]. destruct (inputs_standard _ _) as [b|e] eqn:Es; [done|].
    apply inputs_standard_error in Es as [-> Ex]. by left. }
  { done. }
  intros std Est _. destruct std; cbn [negb]; [|apply runs_reject; intros Wy; pose proof (wy_standard _ _ _ _ Wy) as B; destruct (fRequireStandard params); [rewrite B in Est|]; done].
  assert (Hstd : fRequireStandard params = true -> inputs_standard L (tx_vin tx) = Ret true) by (by intros R; rewrite R in Est). clear Est.
  set (sigops := u32 (GetLegacySigOpCount tx + u32 (p2sh_count L (tx_vin tx)))).
  eapply (runs_settle _ _ (sigops <= MAX_TX_SIGOPS_CURRENT) _ _ (if sigops >? MAX_TX_SIGOPS_CURRENT then reject 0 REJECT_NONSTANDARD "bad-txns-too-many-sigops" state else Ret tt)).
  { unfold ebind, on_dummy, GetP2SHSigOpCount. rewrite Hi. cbn [negb]. rewrite (GetP2SHSigOpCount_loop_read w L _ Hr 0) by done.
    cbn [fst]. rewrite Z.add_0_l. fold sigops. by destruct (sigops >? _). }
  { rewrite Z.gtb_ltb. destruct (Z.ltb_spec MAX_TX_SIGOPS_CURRENT sigops); cbn; lia. }
  { apply wy_sigops. }
  intros _ _ Hsig.
  rewrite Eo. cbn [of_value]. eapply (runs_settle _ _ True (lift _) _ (Ret _)); [done|done|done|]. intros ? [= <-] _.
  eapply (runs_settle _ _ True (lift _)); [done|by rewrite as_int64_small by lia|done|]. intros fees ->%as_int64_Ret _.
  eapply (runs_settle _ _ True (on_dummy _ _)); [unfold on_dummy; reflexivity| |done|].
  { unfold GetPriority. rewrite Hcb, Hcs. cbn [orb]. destruct (GetPriority_loop_read w L (Height chainActive) _ Hr) as [->|[-> Ex]]; [done|]. right. split; [done|by left]. }
  intros _ _ _. cbn [CTxMemPoolEntry_of e_nTxSize].
  eapply (runs_settle _ _ _ (lift _)); [done|by apply check_fees_settles|apply wy_fee|]. intros _ _ Hfee.
  set (Hcheck := if Height chainActive >=? StakingProtocol2Height then nZerocoinStartHeight params else 0).
  eapply (runs_settle _ _ _ (on_dummy _ _)); [unfold on_dummy; reflexivity|by eapply settles_decides, (CheckInputs_dummy v L)| |].
  { intros [? ? ? (F & B & C) Sc ?]. split; [|exact Sc]. split; [|by split]. unfold inputs_there in Ha. rewrite Forall_forall in F, Ha |- *. intros i Hin.
    destruct (F i Hin) as [A0 Sp]. split; [|exact Sp]. unfold Hcheck. destruct (_ >=? _); [by apply Ha|exact A0]. }
  intros _ _ [_ Hscripts].
  eapply (runs_settle _ _ _ (on_dummy _ _)); [unfold on_dummy; reflexivity|by eapply settles_decides, (CheckInputs_dummy v L)|by intros []|].
  intros _ _ [Hin Hman]. assert (Hok : ok) by (by constructor).
  unfold runs, ebind at 1, update. set (entry := CTxMemPoolEntry_of _ _ _ _ _).
  destruct (addUnchecked_ok (ms_pool s) entry Wf Ad) as [Wf' Et].
  destruct (index_rows entry w L (ms_pool s) (set_pool_of s (addUnchecked (tx_hash tx) entry (ms_pool s))) Hr (conj Wf' Et)) as (s' & -> & A & B & C & F).
  split; [exact Hok|]. split; [exact A|]. split; [exact B|]. by split.
Qed.



End worthy.

(** ** Acceptance *)

Section admission.
Context {D E V : Type} {CV : CCoinsView V} {VOk : CCoinsViewOk V} (d0 : D).
Context (params : CChainParams) (Hp : params_ok params) (Verify : CPubKey -> uint256 -> list byte -> bool) (buf : list byte).
Context (H : heap) (mapBlockIndex : gmap uint256 ptr) (chainActive : CChain).
Context (datacarrier : bool) (nMaxDatacarrierBytes : Z) (fIsBareMultisigStd : bool) (minRelayTxFee : CFeeRate) (fAddressIndex fSpentIndex : bool).
Context (GetTime GetAdjustedTime SPORK_16 : Z) (mapLockedInputs : gmap COutPoint uint256).
Context {Zc : Zerocoin} (InitialBlockDownload : bool) (tipTime : option Z) (Htip : InitialBlockDownload = false -> is_Some tipTime).
Context (ContextualCheckCoinSpend : CoinSpend -> uint256 -> bool) (IsTransactionInChain : uint256 -> option Z).

Abbreviation pool := (CTxMemPool D E).
Abbreviation mstate := (@mem_state D E V).
Abbreviation alone := (accept_alone params H chainActive datacarrier nMaxDatacarrierBytes fIsBareMultisigStd minRelayTxFee
  GetTime GetAdjustedTime SPORK_16 InitialBlockDownload tipTime).
Abbreviation accept := (AcceptToMemoryPool d0 params Verify buf H mapBlockIndex chainActive datacarrier nMaxDatacarrierBytes fIsBareMultisigStd minRelayTxFee
  fAddressIndex fSpentIndex GetTime GetAdjustedTime SPORK_16 mapLockedInputs InitialBlockDownload tipTime
  ContextualCheckCoinSpend IsTransactionInChain).

(** The tests of the transaction alone: those of every transaction, and of relayed ones. *)
Abbreviation standard_tx := (IsStandardTx datacarrier nMaxDatacarrierBytes fIsBareMultisigStd minRelayTxFee (Height chainActive) GetAdjustedTime).
Abbreviation zerocoins_active := (Height chainActive >=? nZerocoinStartHeight params).
Record alone_ok (tx : CTransaction) : Prop := {
  al_maintenance : SPORK_16 < GetAdjustedTime -> ContainsZerocoins tx = false;
  al_transaction : transaction_ok params InitialBlockDownload GetTime tipTime tx zerocoins_active;
  al_loose : IsCoinBase tx = false /\ IsCoinStake tx = false;
  al_standard : forall tip, deref H (Tip chainActive) = Ret tip -> nLastPOWBlock params <= nHeight tip -> fRequireStandard params = true ->
    standard_tx tx = Ret true }.

(** What the pool takes: [L] are the coins of the chain, [hs] the height of the next block. *)
Record acceptable (L : ledger) (p : pool) (hs : Z) (tx : CTransaction) (fRejectInsaneFee : bool) : Prop := {
  ac_alone : alone_ok tx;
  ac_new : pool_tx p (tx_hash tx) = None /\ pool_view L p (tx_hash tx) = None;
  ac_unlocked : forall i h, i ∈ tx_vin tx -> mapLockedInputs !! prevout i = Some h -> h = tx_hash tx;
  ac_free : Forall (fun i => forall h, ~ spender p (prevout i) h) (tx_vin tx);
  ac_there : inputs_there params (pool_view L p) tx;
  ac_worthy : worthy params Verify buf minRelayTxFee (pool_view L p) hs tx fRejectInsaneFee }.

(** The accidents: of [CheckTransaction]; an output script that [Solver] throws on, a bound
    of dust that overflows; the sum of the inputs overflows; those of the other tests. *)
Definition outputs_accident (tx : CTransaction) (e : failure) : Prop :=
  fRequireStandard params = true /\
  (e = Throws /\ Exists (fun o => scriptPubKey o = lone_mint) (tx_vout tx) \/
   e = TxCheck.Undefined /\ Exists (fun o => overflows 64 (3 * GetFee minRelayTxFee (GetSerializeSize o + 148))) (tx_vout tx)).
Definition pool_accident (L : ledger) (p : pool) (tx : CTransaction) (fRejectInsaneFee : bool) (e : failure) : Prop :=
  zerocoin_accident tx zerocoins_active e \/ outputs_accident tx e \/
  (e = TxCheck.Undefined /\ 2 ^ 63 <= value_in (pool_view L p) (tx_vin tx)) \/
  coins_accident params chainActive minRelayTxFee (pool_view L p) tx fRejectInsaneFee e.

Lemma accident_no_assertion L p tx insane : ~ pool_accident L p tx insane Asserts.
Proof using. intros [A|[(_ & [[A _]|[A _]])|[[A _]|[(A & _)|[A _]]]]]; try done. by apply accident_kind in A as [|]. Qed.

Lemma IsDust_None o : IsDust o minRelayTxFee = None -> overflows 64 (3 * GetFee minRelayTxFee (GetSerializeSize o + 148)).
Proof using.
  unfold IsDust, overflows. set (n := 3 * _).
  destruct (Z.leb_spec (- 2 ^ 63) n), (Z.ltb_spec n (2 ^ 63)); cbn; try done; intros _; change (64 - 1) with 63; lia.
Qed.

Lemma standard_vout_error vout n e : standard_vout datacarrier nMaxDatacarrierBytes fIsBareMultisigStd minRelayTxFee vout n = Err e ->
  e = Throws /\ Exists (fun o => scriptPubKey o = lone_mint) vout \/
  e = TxCheck.Undefined /\ Exists (fun o => overflows 64 (3 * GetFee minRelayTxFee (GetSerializeSize o + 148))) vout.
Proof using.
  revert n. induction vout as [|o vout IH]; intros n; cbn [standard_vout]; [done|].
  assert (IH' : forall n, standard_vout datacarrier nMaxDatacarrierBytes fIsBareMultisigStd minRelayTxFee vout n = Err e ->
    e = Throws /\ Exists (fun o => scriptPubKey o = lone_mint) (o :: vout) \/
    e = TxCheck.Undefined /\ Exists (fun o => overflows 64 (3 * GetFee minRelayTxFee (GetSerializeSize o + 148))) (o :: vout)).
  { intros m [[-> K]|[-> K]]%IH; [left|right]; (split; [done|by right]). }
  destruct (IsStandard _ _ _) as [[[] ty]|] eqn:Es; [|done|].
  2: { intros [= <-]. left. split; [done|]. left. apply Solver_throws. unfold IsStandard in Es. destruct (Solver _) as [[[ok k] sl]|]; [|done].
       cbn in Es. by destruct (negb ok). }
  assert (Go : forall t, (if bool_decide (t = TX_MULTISIG) && negb fIsBareMultisigStd then Ret None else
      match IsDust o minRelayTxFee with None => Err TxCheck.Undefined | Some true => Ret None
      | Some false => standard_vout datacarrier nMaxDatacarrierBytes fIsBareMultisigStd minRelayTxFee vout n end) = Err e ->
    e = Throws /\ Exists (fun o => scriptPubKey o = lone_mint) (o :: vout) \/
    e = TxCheck.Undefined /\ Exists (fun o => overflows 64 (3 * GetFee minRelayTxFee (GetSerializeSize o + 148))) (o :: vout)).
  { intros t. destruct (_ && _); [done|]. destruct (IsDust _ _) as [[]|] eqn:Ed; [done|apply IH'|].
    intros [= <-]. right. split; [done|]. left. by apply IsDust_None. }
  by destruct ty; first [apply IH'|apply Go].
Qed.

Lemma IsStandardTx_error tx e : standard_tx tx = Err e -> fRequireStandard params = true -> outputs_accident tx e.
Proof using.
  unfold IsStandardTx. repeat match goal with |- (if ?b then Ret false else _) = _ -> _ => destruct b; [done|] end.
  destruct (standard_vout _ _ _ _ _ _) as [r|x] eqn:Es; [done|]. cbn [result_bind]. intros [= <-] Rs. split; [exact Rs|].
  by eapply standard_vout_error.
Qed.

(** The tip is an entry of the index. *)
Context (Hactive : exists tip, deref H (Tip chainActive) = Ret tip).

Lemma alone_settles L p insane (tx : CTransaction) state : settles (pool_accident L p tx insane) (alone tx state) (alone_ok tx).
Proof using Hp Htip Hactive.
  unfold accept_alone. destruct (_ && _) eqn:Em.
  { apply andb_true_iff in Em as [E1 E2]. intros Ok. pose proof (al_maintenance _ Ok) as N. rewrite N in E2 by lia. done. }
  assert (M : SPORK_16 < GetAdjustedTime -> ContainsZerocoins tx = false).
  { intros Lt. apply andb_false_iff in Em as [K|K]; [lia|done]. }
  pose proof (CheckTransaction_decides params Hp InitialBlockDownload GetTime tipTime Htip tx zerocoins_active state) as Dc.
  destruct (CheckTransaction _ _ _ _ _ _ _) as [[]|e].
  2: { destruct Dc as (N & [[st ->]|A]); [intros Ok; by destruct N, Ok|]. pose proof (accident_kind _ _ _ A) as [->| ->]; by left. }
  destruct Dc as [Tx _]. cbn [result_bind]. destruct (IsCoinBase tx) eqn:Cb; [intros Ok; destruct (al_loose _ Ok); congruence|].
  destruct (IsCoinStake tx) eqn:Cs; [intros Ok; destruct (al_loose _ Ok); congruence|].
  destruct Hactive as [tip Et]. rewrite Et. cbn [of_ptr result_bind].
  rewrite Z.geb_leb. destruct (Z.leb_spec (nLastPOWBlock params) (nHeight tip)) as [Lt|Lt]; cbn [andb].
  2: { constructor; try done. intros t [= <-]%(eq_trans (eq_sym Et)). lia. }
  destruct (fRequireStandard params) eqn:Rs; [|constructor; try done; intros t _ _; congruence].
  destruct (standard_tx tx) as [[]|e] eqn:Es; cbn [result_bind].
  - by constructor.
  - intros Ok. pose proof (al_standard _ Ok tip Et Lt Rs). congruence.
  - pose proof (IsStandardTx_error _ _ Es Rs) as A. assert (X : pool_accident L p tx insane e) by (right; by left).
    destruct A as [_ [[-> _]|[-> _]]]; exact X.
Qed.

Lemma alone_accepts (tx : CTransaction) : alone_ok tx -> HasZerocoinSpendInputs tx = false ->
  IsCoinBase tx = false /\ IsCoinStake tx = false /\ NoDup (prevout <$> tx_vin tx) /\ GetValueOut tx = Ret (sum_values (tx_vout tx)) /\
  0 <= sum_values (tx_vout tx) < 2 ^ 63.
Proof using Hp.
  intros [_ (_ & _ & _ & F & T & Di & _) [Hcb Hcs] _] Hzc. split; [done|]. split; [done|].
  pose proof (money_range params Hp) as M. unfold Params.COIN in M. split; [|split].
  - apply NoDup_alt. intros i j o Ei Ej. rewrite list_lookup_fmap in Ei, Ej. destruct (tx_vin tx !! i) as [a|] eqn:Ea; [|done]. destruct (tx_vin tx !! j) as [b|] eqn:Eb; [|done].
    cbn in Ei, Ej. injection Ei as Ei. injection Ej as Ej. assert (Pl : forall k x, tx_vin tx !! k = Some x -> CTxIn_IsZerocoinSpend x = false).
    { intros k x Ek. destruct (CTxIn_IsZerocoinSpend x) eqn:Z; [|done]. unfold HasZerocoinSpendInputs in Hzc. apply not_true_iff_false in Hzc. destruct Hzc.
      apply existsb_exists. exists x. split; [apply list_elem_of_In; by apply list_elem_of_lookup_2 in Ek|done]. }
    destruct (Nat.lt_trichotomy i j) as [Hl|[Hl|Hl]]; [|done|].
    + destruct (Di i j a b Ea Eb Hl (Pl _ _ Ea)). congruence.
    + destruct (Di j i b a Eb Ea Hl (Pl _ _ Eb)). congruence.
  - unfold GetValueOut. apply GetValueOut_loop_spec; [lia|].
    split; [|split; [done|right; lia]]. eapply Forall_impl; [exact F|]. intros o (_ & R & _). lia.
  - split; [|lia]. apply sum_values_nonneg. eapply Forall_impl; [exact F|]. intros o (_ & R & _). lia.
Qed.

Lemma locked_spec (tx : CTransaction) : locked mapLockedInputs tx = false <->
  forall i h, i ∈ tx_vin tx -> mapLockedInputs !! prevout i = Some h -> h = tx_hash tx.
Proof using.
  unfold locked. rewrite <- not_true_iff_false, existsb_exists. split.
  - intros N i h Hin Hl. destruct (decide (h = tx_hash tx)) as [|Ne]; [done|]. destruct N. exists i. split; [by apply list_elem_of_In|].
    by rewrite Hl, bool_decide_false.
  - intros F (i & Hin & K). destruct (mapLockedInputs !! prevout i) as [h|] eqn:Hl; [|done].
    rewrite (F i h) in K by (done || by apply list_elem_of_In). by rewrite bool_decide_true in K.
Qed.

(** Inputs that the pool does not spend. *)
Lemma free_spec (p : pool) vin : pool_wf p ->
  Forall (fun i => mapNextTx p !! prevout i = None) vin <-> Forall (fun i => forall h, ~ spender p (prevout i) h) vin.
Proof using.
  intros Wf. rewrite !Forall_forall. split; intros F i Hin.
  - intros h (c & e & Hc & _)%(spender_next _ _ _ Wf). by rewrite (F i Hin) in Hc.
  - destruct (mapNextTx p !! prevout i) as [c|] eqn:Hc; [|done]. pose proof (proj1 (pw_next _ Wf _ _) Hc) as (e & x & Ee & _).
    destruct (F i Hin (tx_hash (e_tx e))). apply (spender_next _ _ _ Wf). by exists c, e.
Qed.

Lemma existsb_free (p : pool) vin :
  existsb (fun i => bool_decide (is_Some (mapNextTx p !! prevout i))) vin = false <-> Forall (fun i => mapNextTx p !! prevout i = None) vin.
Proof using.
  rewrite <- not_true_iff_false, existsb_exists, Forall_forall. split.
  - intros N i Hin. apply eq_None_not_Some. intros S. apply N. exists i. split; [by apply list_elem_of_In|by apply bool_decide_eq_true].
  - intros F (i & Hin%list_elem_of_In & S%bool_decide_eq_true). rewrite (F i Hin) in S. by destruct S.
Qed.

(** A new cache over the coins of the chain and of the pool. *)
Lemma mempool_cache_stands (tip : CCoinsViewCache V) L (p : pool) : stands tip L -> pool_coins_ok p ->
  stands (CCoinsViewCache_new (mk_mempool_view tip p)) (pool_view L p) /\ cache_best (CCoinsViewCache_new (mk_mempool_view tip p)) = cache_best tip.
Proof using.
  intros St Pc. split; [split|].
  - apply CCoinsViewCache_new_ok. by split; [apply St|].
  - intros x. unfold cache_view. cbn [CCoinsViewCache_new cacheCoins cv_base]. rewrite lookup_empty.
    cbn. unfold mview_view, pool_view. cbn [mv_base mv_pool]. destruct (pool_tx p x); [done|apply St].
  - unfold cache_best at 1. by rewrite bool_decide_true.
Qed.

(** How an attempt ends: [pcoinsTip] stands for the same coins; the transaction is entered
    when it is acceptable, and refused without change to the pool when not. *)
Definition attempt (L : ledger) (hs : Z) (tx : CTransaction) (fRejectInsaneFee : bool) (s : mstate)
    (r : result failure unit) (s' : mstate) : Prop :=
  let p := ms_pool s in
  let ok := acceptable L p hs tx fRejectInsaneFee in
  stands (ms_tip s') L /\ cache_best (ms_tip s') = cache_best (ms_tip s) /\ fSanityCheck (ms_pool s') = fSanityCheck p /\
  (ms_missing s' = true -> ~ Forall (fun i => is_Some (pool_view L p (prev_hash (prevout i)))) (tx_vin tx)) /\
  settles (pool_accident L p tx fRejectInsaneFee) r ok /\ match r with Ret _ => entered p tx (ms_pool s') | Err _ => ms_pool s' = p end.

Lemma accept_attempt (L : ledger) (tx : CTransaction) insane state (s : mstate) q prev :
  stands (ms_tip s) L -> pool_wf (ms_pool s) -> pool_coins_ok (ms_pool s) -> wf 8 (tx_hash tx) -> Forall hash_wf (tx_vin tx) ->
  HasZerocoinSpendInputs tx = false -> cache_best (ms_tip s) <> zero_hash ->
  mapBlockIndex !! cache_best (ms_tip s) = Some q -> H !! q = Some prev -> 0 <= nHeight prev < 2 ^ 31 - 1 ->
  let '(r, s') := accept tx insane state s in attempt L (nHeight prev + 1) tx insane s r s'.
Proof using Hp Htip Hactive.
  intros St Wf Pc Hh Hw Hzc Hz Eq Eprev Hn. set (ok := acceptable L (ms_pool s) (nHeight prev + 1) tx insane). set (X := pool_accident L (ms_pool s) tx insane).
  assert (Keep' : forall e v b, keeps (ms_tip s) v -> (b = true -> ~ Forall (fun i => is_Some (pool_view L (ms_pool s) (prev_hash (prevout i)))) (tx_vin tx)) ->
    fails X ok e -> attempt L (nHeight prev + 1) tx insane s (Err e) (mk_mem (ms_pool s) v b)).
  { intros e v b Kv Hb He. split; [by eapply stands_keeps|]. split; [apply Kv|]. split; [done|]. split; [exact Hb|]. by split. }
  assert (Keep : forall e, fails X ok e ->
    attempt L (nHeight prev + 1) tx insane s (Err e) (set_missing false s)) by (intros e; apply Keep'; [apply keeps_refl, St|done]).
  unfold AcceptToMemoryPool, ebind at 1, update. unfold ebind at 1, lift at 1.
  pose proof (alone_settles L (ms_pool s) insane tx state) as Al. destruct (alone tx state) as [[]|e].
  2: { apply Keep. destruct e; try exact Al. intros Ok. by apply Al, Ok. }
  destruct (alone_accepts tx Al Hzc) as (Hcb & Hcs & Nd & Eo & Rout).
  unfold ebind at 1. cbn [ms_pool set_missing]. rewrite (exists_tx_spec _ _ Wf). case_bool_decide as Ex.
  { apply Keep. intros Ok. destruct (ac_new _ _ _ _ _ Ok) as [N _]. rewrite N in Ex. by destruct Ex. }
  destruct (locked _ tx) eqn:El; [apply Keep; intros Ok; pose proof (proj2 (locked_spec tx) (ac_unlocked _ _ _ _ _ Ok)); congruence|].
  unfold ebind at 1. unfold conflicts. rewrite Hzc. cbn [negb andb].
  pose proof (existsb_free (ms_pool s) (tx_vin tx)) as Ec. destruct (existsb _ (tx_vin tx)).
  { apply Keep. intros Ok. pose proof (ac_free _ _ _ _ _ Ok) as F. by apply (free_spec _ _ Wf), Ec in F. }
  pose proof (proj1 Ec eq_refl) as Fr. clear Ec.
  set (v0 := CCoinsViewCache_new (mk_mempool_view (ms_tip s) (ms_pool s)) : CCoinsViewCache (CCoinsViewMemPool D E (CCoinsViewCache V))).
  destruct (mempool_cache_stands (ms_tip s) L (ms_pool s) St Pc) as [S0 B0]. fold v0 in S0, B0.
  assert (Hi : has_inputs tx = true) by (unfold has_inputs; by rewrite Hcb, Hzc).
  pose proof (gather_inputs_spec params (pool_view L (ms_pool s)) tx state v0 S0 Hh Hw Hi ltac:(by rewrite B0)) as G.
  unfold ebind at 1, with_view. cbn [ms_tip ms_pool set_missing]. fold v0. destruct (gather_inputs params tx state v0) as [r v].
  destruct G as [De G].
  assert (Kt : keeps (ms_tip s) (mv_base (cv_base v))) by apply De.
  destruct r as [[n|]|e].
  2: { apply Keep'; [exact Kt|by intros _|]. intros Ok. apply G, (inputs_there_known params _ _ (ac_there _ _ _ _ _ Ok)). }
  2: { apply Keep'; [exact Kt|done|]. destruct e; [intros Ok; apply G; split; [apply Ok|exact (ac_there _ _ _ _ _ Ok)]|..]; right; right; by left. }
  destruct G as (Nw & Th & -> & Rin & Hd & Hz').
  set (s1 := set_tip_of (set_missing false s) (mv_base (cv_base v))).
  assert (Np : pool_tx (ms_pool s) (tx_hash tx) = None) by (by apply eq_None_not_Some).
  assert (Ad : addable_tx (ms_pool s1) tx).
  { split; [|by split]. pose proof (exists_tx_spec (ms_pool s) (tx_hash tx) Wf) as Et. rewrite bool_decide_false in Et by done.
    unfold exists_tx in Et. apply bool_decide_eq_false in Et. by apply eq_None_not_Some. }
  assert (Ev : cache_best v = cache_best (ms_tip s)) by (destruct De as ((_ & _ & _ & -> & _) & _); exact B0).
  pose proof (accept_inputs_spec d0 params Hp Verify buf H mapBlockIndex chainActive minRelayTxFee fAddressIndex fSpentIndex GetTime
    v _ tx insane state q prev s1 (stands_keeps _ _ _ S0 (proj1 De)) Hz' Hd Hw Eo Hcb Hcs Th ltac:(by rewrite Ev) Eprev Hn Wf Ad Rin Rout) as R.
  assert (Iff : ok <-> worthy params Verify buf minRelayTxFee (pool_view L (ms_pool s)) (nHeight prev + 1) tx insane).
  { split; [apply ac_worthy|]. intros Wy. constructor; try done; [by apply locked_spec|by apply (free_spec _ _ Wf)]. }
  unfold runs in R. destruct (accept_inputs _ _ _ _ _ _ _ _ _ _ _ _ _ _ _ _ s1) as [[u|e] s'].
  - destruct R as (Wy & T & M & F & En). split; [rewrite T; by eapply stands_keeps|]. split; [rewrite T; apply Kt|]. split; [exact F|].
    split; [by rewrite M|]. split; [by apply Iff|exact En].
  - destruct R as [-> R]. apply Keep'; [exact Kt|done|]. destruct e; [by intros Wy%Iff|..]; right; right; by right.
Qed.


End admission.

#[local] Existing Instance toy_zerocoin.

(** An output of 5 at height 1400, spent by a transaction that pays a fee of 1. *)
Definition sample_tip : CCoinsViewCache NoCoins :=
  mk_cache no_coins false (base_uint_u64 8 10) {[ base_uint_u64 8 1 := mk_entry (mk_CCoins false false [CTxOut_make 5 [Byte.x51]] 1400 1) (Z.lor DIRTY FRESH) ]}.
Definition sample_mem : mem_state := mk_mem (CTxMemPool_new tt (mk_CFeeRate 0) : CTxMemPool unit unit) sample_tip false.

Lemma sample_tip_ok : cache_ok sample_tip.
Proof.
  pose proof sample_hashes_wf as W. repeat apply Forall_cons in W as [? W].
  split; [done|]. split; [done|]. split; [done|].
  apply map_Forall_singleton. split; [done|]. split; [by apply one_output_ok|by split].
Qed.

