(* ===== verification/Bloom.v ===== *)
(** * Bloom filters and filtered blocks ([bloom.h], [bloom.cpp], [merkleblock.h], [merkleblock.cpp], [main.cpp])

    [CBloomFilter], by which a peer chooses the transactions it is sent, the messages that
    set it, and [CMerkleBlock], a block reduced to the transactions a filter chooses.  A
    division by zero or an index out of the vector are error values. *)

From Stdlib Require Import ZArith Lia List Bool.
From stdpp Require Import base option list.
From coqutil Require Import Byte Word.LittleEndianList.
From S2P Require Import Prelude Effects Uint256 Serialize MerkleDamgard Hash Script Interpreter Tx TxCheck Standard Block Merkle PartialMerkle.

Open Scope Z_scope.
Open Scope btc_scope.

Definition MAX_BLOOM_FILTER_SIZE : Z := 36000.
Definition MAX_HASH_FUNCS : Z := 50.
Definition BLOOM_UPDATE_NONE : Z := 0.
Definition BLOOM_UPDATE_ALL : Z := 1.
Definition BLOOM_UPDATE_P2PUBKEY_ONLY : Z := 2.
Definition BLOOM_UPDATE_MASK : Z := 3.

Record CBloomFilter : Type := mk_bloom {
  bf_vData : list byte; bf_isFull : bool; bf_isEmpty : bool; bf_nHashFuncs : Z; bf_nTweak : Z; bf_nFlags : Z }.

(** The default constructor. *)
Definition CBloomFilter_new : CBloomFilter := mk_bloom [] true false 0 0 0.

(** The constructor for a rate of false positives.  The two products of [double]s are
    given by their results: [bits], [-1 / LN2SQUARED * nElements * log(nFPRate)], and
    [times_LN2], the multiplication by [LN2]; [None] is the division by zero elements. *)
Definition CBloomFilter_make (bits : Z) (times_LN2 : Z -> Z) (nElements nTweakIn nFlagsIn : Z) : option CBloomFilter :=
  let size := Z.min bits (MAX_BLOOM_FILTER_SIZE * 8) / 8 in
  if nElements =? 0 then None else
  Some (mk_bloom (repeat Byte.x00 (Z.to_nat size)) false false (Z.min (times_LN2 (size * 8 / nElements)) MAX_HASH_FUNCS) nTweakIn nFlagsIn).

Definition with_data (f : CBloomFilter) (vData : list byte) : CBloomFilter :=
  mk_bloom vData (bf_isFull f) (bf_isEmpty f) (bf_nHashFuncs f) (bf_nTweak f) (bf_nFlags f).
Definition with_marks (f : CBloomFilter) (isFull isEmpty : bool) : CBloomFilter :=
  mk_bloom (bf_vData f) isFull isEmpty (bf_nHashFuncs f) (bf_nTweak f) (bf_nFlags f).

(** ** The filter *)

(** [Hash]; dividing by zero is undefined. *)
Definition bf_Hash (f : CBloomFilter) (nHashNum : Z) (vDataToHash : list byte) : result failure Z :=
  let m := Z.of_nat (length (bf_vData f)) * 8 in
  if m =? 0 then Err TxCheck.Undefined
  else Ret (MurmurHash3 (u32 (u32 (nHashNum * 0xFBA4C795) + bf_nTweak f)) vDataToHash mod m).

Definition bit_mask (nIndex : Z) : Z := Z.shiftl 1 (Z.land 7 nIndex).

Definition set_bit (nIndex : Z) (vData : list byte) : option (list byte) :=
  let k := Z.to_nat (Z.shiftr nIndex 3) in
  b ← vData !! k; Some (<[k := byte.of_Z (Z.lor (byte.unsigned b) (bit_mask nIndex))]> vData).
Definition get_bit (nIndex : Z) (vData : list byte) : option bool :=
  b ← vData !! Z.to_nat (Z.shiftr nIndex 3); Some (negb (Z.land (byte.unsigned b) (bit_mask nIndex) =? 0)).

(** The loops over the hash functions from number [i] on, [k] of them. *)
Fixpoint insert_loop (k : nat) (i : Z) (vKey : list byte) (f : CBloomFilter) : result failure CBloomFilter :=
  match k with
  | O => Ret f
  | S k =>
      let* nIndex := bf_Hash f i vKey in
      match set_bit nIndex (bf_vData f) with
      | None => Err TxCheck.Undefined
      | Some vData => insert_loop k (i + 1) vKey (with_data f vData)
      end
  end.
Definition bf_insert (vKey : list byte) (f : CBloomFilter) : result failure CBloomFilter :=
  if bf_isFull f then Ret f else
  let* f := insert_loop (Z.to_nat (bf_nHashFuncs f)) 0 vKey f in
  Ret (with_marks f (bf_isFull f) false).

Fixpoint contains_loop (k : nat) (i : Z) (vKey : list byte) (f : CBloomFilter) : result failure bool :=
  match k with
  | O => Ret true
  | S k =>
      let* nIndex := bf_Hash f i vKey in
      match get_bit nIndex (bf_vData f) with
      | None => Err TxCheck.Undefined
      | Some false => Ret false
      | Some true => contains_loop k (i + 1) vKey f
      end
  end.
Definition bf_contains (vKey : list byte) (f : CBloomFilter) : result failure bool :=
  if bf_isFull f then Ret true else
  if bf_isEmpty f then Ret false else
  contains_loop (Z.to_nat (bf_nHashFuncs f)) 0 vKey f.

(** The overloads. *)
Definition outpoint_key (outpoint : COutPoint) : list byte := Serialize outpoint.
Definition hash_key (hash : uint256) : list byte := uint_bytes hash.

Definition bf_clear (f : CBloomFilter) : CBloomFilter := with_marks (with_data f (repeat Byte.x00 (length (bf_vData f)))) false true.

Definition IsWithinSizeConstraints (f : CBloomFilter) : bool :=
  (Z.of_nat (length (bf_vData f)) <=? MAX_BLOOM_FILTER_SIZE) && (bf_nHashFuncs f <=? MAX_HASH_FUNCS).

Definition UpdateEmptyFull (f : CBloomFilter) : CBloomFilter :=
  with_marks f (forallb (fun b => byte.unsigned b =? 0xff) (bf_vData f)) (forallb (fun b => byte.unsigned b =? 0) (bf_vData f)).

(** What is read is written over a filter of the default constructor. *)
#[export] Instance CBloomFilter_Serializer : Serializer CBloomFilter := {
  Serialize f := Serialize_blob (bf_vData f) ++ ser_writedata 4 (bf_nHashFuncs f) ++ ser_writedata 4 (bf_nTweak f) ++ ser_writedata 1 (bf_nFlags f);
  Unserialize := fun s =>
    let* (d, s) := Unserialize_blob s in
    let* (h, s) := ser_readdata 4 s in
    let* (t, s) := ser_readdata 4 s in
    let* (g, s) := ser_readdata 1 s in
    Ret (mk_bloom d (bf_isFull CBloomFilter_new) (bf_isEmpty CBloomFilter_new) h t g, s);
  GetSerializeSize f := GetSerializeSize_blob (bf_vData f) + 9;
  Serializable f := Z.of_nat (length (bf_vData f)) <= MAX_SIZE /\ in_u32 (bf_nHashFuncs f) /\ in_u32 (bf_nTweak f) /\ in_u8 (bf_nFlags f) /\
    bf_isFull f = true /\ bf_isEmpty f = false }.

(** ** [IsRelevantAndUpdate] *)

(** Whether the filter contains a data element of the script [pc]; the loop ends at the
    first instruction that cannot be read. *)
Fixpoint script_matches (fuel : nat) (pc : list byte) (f : CBloomFilter) : result failure bool :=
  match pc, fuel with
  | [], _ => Ret false
  | _, O => Err TxCheck.Undefined
  | _, S fuel =>
      let op := GetOp2 pc in
      if negb (op_ok op) then Ret false else
      let* hit := (if (length (op_data op) =? 0)%nat then Ret false else bf_contains (op_data op) f) in
      if hit : bool then Ret true else script_matches fuel (op_pc op) f
  end.

(** The outpoint of an output that matched is inserted, as the flags say. *)
Definition update_matched (hash : uint256) (i : Z) (txout : CTxOut) (f : CBloomFilter) : result failure CBloomFilter :=
  let mode := Z.land (bf_nFlags f) BLOOM_UPDATE_MASK in
  if mode =? BLOOM_UPDATE_ALL then bf_insert (outpoint_key (mk_COutPoint hash i)) f else
  if mode =? BLOOM_UPDATE_P2PUBKEY_ONLY then
    match Solver (scriptPubKey txout) with
    | None => Err Throws
    | Some (true, TX_PUBKEY, _) | Some (true, TX_MULTISIG, _) => bf_insert (outpoint_key (mk_COutPoint hash i)) f
    | _ => Ret f
    end
  else Ret f.

Fixpoint match_vout (hash : uint256) (i : Z) (vout : list CTxOut) (fFound : bool) (f : CBloomFilter) : result failure (CBloomFilter * bool) :=
  match vout with
  | [] => Ret (f, fFound)
  | txout :: vout =>
      let* hit := script_matches (length (scriptPubKey txout)) (scriptPubKey txout) f in
      if hit : bool then
        let* f := update_matched hash i txout f in match_vout hash (i + 1) vout true f
      else match_vout hash (i + 1) vout fFound f
  end.

Fixpoint match_vin (vin : list CTxIn) (f : CBloomFilter) : result failure bool :=
  match vin with
  | [] => Ret false
  | txin :: vin =>
      let* spent := bf_contains (outpoint_key (prevout txin)) f in
      if spent : bool then Ret true else
      let* hit := script_matches (length (scriptSig txin)) (scriptSig txin) f in
      if hit : bool then Ret true else match_vin vin f
  end.

Definition IsRelevantAndUpdate (tx : CTransaction) (f : CBloomFilter) : result failure (CBloomFilter * bool) :=
  if bf_isFull f then Ret (f, true) else
  if bf_isEmpty f then Ret (f, false) else
  let* fFound := bf_contains (hash_key (tx_hash tx)) f in
  let* (f, fFound) := match_vout (tx_hash tx) 0 (tx_vout tx) fFound f in
  if fFound : bool then Ret (f, true) else
  let* hit := match_vin (tx_vin tx) f in Ret (f, hit).

(** ** The filter of a peer *)

(** [pfilter], which is never null ([CNode] starts with a new filter), [fRelayTxes] and the
    misbehaviour counted. *)
Record bloom_peer : Type := mk_peer { pfilter : CBloomFilter; fRelayTxes : bool; nMisbehavior : Z }.

Definition filterload (filter : CBloomFilter) (p : bloom_peer) : bloom_peer :=
  if negb (IsWithinSizeConstraints filter) then mk_peer (pfilter p) true (nMisbehavior p + 100)
  else mk_peer (UpdateEmptyFull filter) true (nMisbehavior p).
Definition filteradd (vData : list byte) (p : bloom_peer) : result failure bloom_peer :=
  if Z.of_nat (length vData) >? MAX_SCRIPT_ELEMENT_SIZE then Ret (mk_peer (pfilter p) (fRelayTxes p) (nMisbehavior p + 100)) else
  let* f := bf_insert vData (pfilter p) in Ret (mk_peer f (fRelayTxes p) (nMisbehavior p)).
Definition filterclear (p : bloom_peer) : bloom_peer := mk_peer CBloomFilter_new true (nMisbehavior p).

(** ** [CMerkleBlock] *)

Record CMerkleBlock : Type := mk_CMerkleBlock { mb_header : CBlockHeader; mb_txn : CPartialMerkleTree; vMatchedTxn : list (nat * uint256) }.

(** The loop over the transactions of the block, from number [i] on. *)
Fixpoint match_block (i : nat) (vtx : list CTransaction) (f : CBloomFilter) : result failure (CBloomFilter * list bool * list (nat * uint256)) :=
  match vtx with
  | [] => Ret (f, [], [])
  | tx :: vtx =>
      let* (f, hit) := IsRelevantAndUpdate tx f in
      let* (fm, matched) := match_block (S i) vtx f in
      Ret (fm.1, hit :: fm.2, if hit : bool then (i, tx_hash tx) :: matched else matched)
  end.

(** [None]: [CPartialMerkleTree] reads outside its vectors. *)
Definition CMerkleBlock_of (block : CBlock) (filter : CBloomFilter) : result failure (option CMerkleBlock * CBloomFilter) :=
  let* (fm, matched) := match_block 0 (vtx block) filter in
  Ret ((fun t => mk_CMerkleBlock (GetBlockHeader block) t matched) <$> CPartialMerkleTree_new (txids block) fm.2, fm.1).

(** The header and the tree are sent; what is read has no list of matches. *)
Definition mb_Serialize (m : CMerkleBlock) : bytes := Serialize (mb_header m) ++ CPartialMerkleTree_Serialize (mb_txn m).
Definition mb_Unserialize : reader CMerkleBlock := fun s =>
  let* (h, s) := Unserialize s in
  let* (t, s) := CPartialMerkleTree_Unserialize s in Ret (mk_CMerkleBlock h t [], s).

(** ** What the filter holds *)

(** A filter whose loops run into nothing: it is full, it has bits, or it has no hash function. *)
Definition bf_safe (f : CBloomFilter) : Prop := bf_isFull f = true \/ bf_vData f <> [] \/ bf_nHashFuncs f <= 0.

(** The bits of a key. *)
Definition key_index (f : CBloomFilter) (vKey : list byte) (i : Z) : Z :=
  MurmurHash3 (u32 (u32 (i * 0xFBA4C795) + bf_nTweak f)) vKey mod (Z.of_nat (length (bf_vData f)) * 8).
Definition bit_at (vData : list byte) (nIndex : Z) : bool := default false (get_bit nIndex vData).

(** [contains], as a test. *)
Definition holds (f : CBloomFilter) (vKey : list byte) : bool :=
  bf_isFull f || (negb (bf_isEmpty f) && forallb (fun i => bit_at (bf_vData f) (key_index f vKey (Z.of_nat i))) (seq 0 (Z.to_nat (bf_nHashFuncs f)))).

(** [g] is [f] after insertions. *)
Record grown (f g : CBloomFilter) : Prop := {
  gr_length : length (bf_vData g) = length (bf_vData f);
  gr_bits (nIndex : Z) : bit_at (bf_vData f) nIndex = true -> bit_at (bf_vData g) nIndex = true;
  gr_full : bf_isFull g = bf_isFull f;
  gr_empty : bf_isEmpty g = true -> bf_isEmpty f = true;
  gr_funcs : bf_nHashFuncs g = bf_nHashFuncs f;
  gr_tweak : bf_nTweak g = bf_nTweak f;
  gr_flags : bf_nFlags g = bf_nFlags f }.

Lemma grown_refl f : grown f f.
Proof. by constructor. Qed.

Lemma grown_trans f g h : grown f g -> grown g h -> grown f h.
Proof. intros [] []. constructor; try congruence; auto. Qed.

Lemma grown_safe f g : grown f g -> bf_safe f -> bf_safe g.
Proof.
  intros G [S|[S|S]]; [left; by rewrite (gr_full _ _ G)| |right; right; by rewrite (gr_funcs _ _ G)].
  right; left. intros N. apply S, length_zero_iff_nil. by rewrite <- (gr_length _ _ G), N.
Qed.

Lemma grown_key_index f g vKey i : grown f g -> key_index g vKey i = key_index f vKey i.
Proof. intros G. unfold key_index. by rewrite (gr_tweak _ _ G), (gr_length _ _ G). Qed.

Lemma grown_holds f g vKey : grown f g -> holds f vKey = true -> holds g vKey = true.
Proof.
  intros G. unfold holds. rewrite (gr_full _ _ G), (gr_funcs _ _ G). destruct (bf_isFull f); [done|]. cbn [orb].
  rewrite !andb_true_iff, !negb_true_iff, !forallb_forall. intros [Ne Hb]. split.
  - destruct (bf_isEmpty g) eqn:Eg; [|done]. by rewrite (gr_empty _ _ G Eg) in Ne.
  - intros i Hi. rewrite (grown_key_index f g) by done. by apply (gr_bits _ _ G), Hb.
Qed.

(** Hash values name bytes of the filter. *)
Lemma bf_Hash_index f i vKey : bf_vData f <> [] ->
  bf_Hash f i vKey = Ret (key_index f vKey i) /\ 0 <= key_index f vKey i /\ (Z.to_nat (Z.shiftr (key_index f vKey i) 3) < length (bf_vData f))%nat.
Proof.
  intros Nd. unfold bf_Hash, key_index. assert (L : (0 < length (bf_vData f))%nat) by (destruct (bf_vData f); [done|cbn; lia]).
  rewrite (proj2 (Z.eqb_neq _ 0)) by lia. split; [done|]. set (m := MurmurHash3 _ _).
  pose proof (Z.mod_pos_bound m (Z.of_nat (length (bf_vData f)) * 8) ltac:(lia)) as B. split; [lia|].
  rewrite Z.shiftr_div_pow2 by lia. change (2 ^ 3) with 8. apply Nat2Z.inj_lt. rewrite Z2Nat.id by (apply Z.div_pos; lia).
  apply Z.div_lt_upper_bound; lia.
Qed.

Lemma bit_mask_range nIndex : 0 < bit_mask nIndex < 256.
Proof.
  unfold bit_mask. change 7 with (Z.ones 3). rewrite Z.land_comm, Z.land_ones by lia. change (2 ^ 3) with 8.
  pose proof (Z.mod_pos_bound nIndex 8 ltac:(lia)) as B. rewrite Z.shiftl_mul_pow2, Z.mul_1_l by lia.
  split; [apply Z.pow_pos_nonneg; lia|]. change 256 with (2 ^ 8). apply Z.pow_lt_mono_r; lia.
Qed.

Lemma bit_mask_testbit nIndex b : Z.land b (bit_mask nIndex) =? 0 = negb (Z.testbit b (Z.land 7 nIndex)).
Proof.
  unfold bit_mask. assert (B : 0 <= Z.land 7 nIndex) by (apply Z.land_nonneg; lia). set (k := Z.land 7 nIndex) in *.
  destruct (Z.testbit b k) eqn:T; cbn [negb].
  - apply Z.eqb_neq. intros Z0. assert (K : Z.testbit (Z.land b (Z.shiftl 1 k)) k = true); [|by rewrite Z0, Z.bits_0 in K].
    rewrite Z.land_spec, T, Z.shiftl_spec by lia. by rewrite Z.sub_diag.
  - apply Z.eqb_eq, Z.bits_inj'. intros n Hn. rewrite Z.land_spec, Z.shiftl_spec, Z.bits_0 by lia.
    destruct (Z.eq_dec n k) as [->|Ne]; [by rewrite T|]. change 1 with (Z.ones 1). rewrite Z.testbit_ones by lia.
    replace ((0 <=? n - k) && (n - k <? 1)) with false by lia. by rewrite andb_false_r.
Qed.

Lemma or_mask_range b nIndex : 0 <= Z.lor (byte.unsigned b) (bit_mask nIndex) < 256.
Proof.
  pose proof (byte.unsigned_range b) as B. pose proof (bit_mask_range nIndex) as M.
  apply (lor_bound 8); lia.
Qed.

(** One bit is set, and none is lost. *)
Lemma set_bit_spec nIndex v : (Z.to_nat (Z.shiftr nIndex 3) < length v)%nat ->
  exists v', set_bit nIndex v = Some v' /\ length v' = length v /\ bit_at v' nIndex = true /\ forall j, bit_at v j = true -> bit_at v' j = true.
Proof.
  intros Hk. apply lookup_lt_is_Some in Hk as [b Eb]. pose proof (or_mask_range b nIndex) as R.
  set (v' := <[Z.to_nat (Z.shiftr nIndex 3) := byte.of_Z (Z.lor (byte.unsigned b) (bit_mask nIndex))]> v). exists v'.
  assert (Lt : (Z.to_nat (Z.shiftr nIndex 3) < length v)%nat) by (by eapply lookup_lt_Some).
  assert (At : v' !! Z.to_nat (Z.shiftr nIndex 3) = Some (byte.of_Z (Z.lor (byte.unsigned b) (bit_mask nIndex)))) by (by apply list_lookup_insert_eq).
  assert (Un : byte.unsigned (byte.of_Z (Z.lor (byte.unsigned b) (bit_mask nIndex))) = Z.lor (byte.unsigned b) (bit_mask nIndex)).
  { rewrite byte.unsigned_of_Z. unfold byte.wrap. by rewrite Z.mod_small. }
  split; [unfold set_bit; by rewrite Eb|]. split; [apply length_insert|]. split.
  - unfold bit_at, get_bit. rewrite At. cbn [mbind option_bind from_option id]. rewrite Un, bit_mask_testbit, negb_involutive, Z.lor_spec.
    apply orb_true_intro. right. pose proof (bit_mask_testbit nIndex (bit_mask nIndex)) as T. rewrite Z.land_diag in T.
    pose proof (bit_mask_range nIndex). rewrite (proj2 (Z.eqb_neq (bit_mask nIndex) 0)) in T by lia. by destruct (Z.testbit (bit_mask nIndex) _).
  - intros j. unfold bit_at, get_bit. destruct (decide (Z.to_nat (Z.shiftr j 3) = Z.to_nat (Z.shiftr nIndex 3))) as [->|Ne].
    + rewrite At, Eb. cbn [mbind option_bind from_option id]. rewrite Un, !bit_mask_testbit, !negb_involutive, Z.lor_spec. by intros ->.
    + unfold v'. by rewrite list_lookup_insert_ne.
Qed.

Lemma get_bit_some nIndex v : (Z.to_nat (Z.shiftr nIndex 3) < length v)%nat -> get_bit nIndex v = Some (bit_at v nIndex).
Proof. intros Hk. apply lookup_lt_is_Some in Hk as [b Eb]. unfold bit_at, get_bit. by rewrite Eb. Qed.

Lemma forallb_same {A} (p q : A -> bool) l : (forall x, p x = q x) -> forallb p l = forallb q l.
Proof. intros E. induction l as [|x l IH]; [done|]. cbn [forallb]. by rewrite E, IH. Qed.

Lemma forallb_seq_S (p : nat -> bool) n : forallb p (seq 1 n) = forallb (fun i => p (S i)) (seq 0 n).
Proof. rewrite <- seq_shift. induction (seq 0 n) as [|i l IH]; [done|]. cbn [map forallb]. by rewrite IH. Qed.

Lemma contains_loop_spec vKey f : forall k i, (k = 0%nat \/ bf_vData f <> []) -> 
  contains_loop k i vKey f = Ret (forallb (fun j => bit_at (bf_vData f) (key_index f vKey (i + Z.of_nat j))) (seq 0 k)).
Proof.
  induction k as [|k IH]; intros i Hd; [done|]. destruct Hd as [|Hd]; [done|]. cbn [contains_loop].
  destruct (bf_Hash_index f i vKey Hd) as (-> & Hi & Hlt). cbn [result_bind]. rewrite get_bit_some by done.
  cbn [seq forallb]. rewrite Z.add_0_r. destruct (bit_at _ (key_index f vKey i)); [|done]. cbn [andb]. rewrite IH by (by right).
  f_equal. rewrite forallb_seq_S. apply forallb_same. intros j. do 2 f_equal. lia.
Qed.

Lemma bf_contains_spec f vKey : bf_safe f -> bf_contains vKey f = Ret (holds f vKey).
Proof.
  intros S. unfold bf_contains, holds. destruct (bf_isFull f) eqn:Ef; [done|]. destruct (bf_isEmpty f); [done|]. cbn [orb negb andb].
  rewrite contains_loop_spec; [do 2 f_equal; apply forallb_ext; intros j; do 2 f_equal; lia|].
  destruct S as [S|[S|S]]; [congruence|by right|left; lia].
Qed.

Lemma insert_loop_spec vKey : forall k i f, (k = 0%nat \/ bf_vData f <> []) ->
  exists g, insert_loop k i vKey f = Ret g /\ grown f g /\ bf_isEmpty g = bf_isEmpty f /\
    forall j, (j < k)%nat -> bit_at (bf_vData g) (key_index f vKey (i + Z.of_nat j)) = true.
Proof.
  induction k as [|k IH]; intros i f Hd; [exists f; split; [done|]; split; [apply grown_refl|]; split; [done|lia]|].
  destruct Hd as [|Hd]; [done|]. cbn [insert_loop]. destruct (bf_Hash_index f i vKey Hd) as (-> & Hi & Hlt). cbn [result_bind].
  destruct (set_bit_spec _ _ Hlt) as (v' & -> & Lv & Bi & Bm).
  assert (G1 : grown f (with_data f v')) by (by constructor).
  destruct (IH (i + 1) (with_data f v')) as (g & Run & G & Em & Bj).
  { right. cbn. intros ->. apply Hd, length_zero_iff_nil. by rewrite <- Lv. }
  exists g. split; [exact Run|]. split; [by eapply grown_trans|]. split; [exact Em|]. intros [|j] Hj.
  - rewrite Z.add_0_r. by apply (gr_bits _ _ G).
  - specialize (Bj j ltac:(lia)). rewrite (grown_key_index f _ _ _ G1) in Bj. by replace (i + Z.of_nat (S j)) with (i + 1 + Z.of_nat j) by lia.
Qed.

(** An inserted key is held. *)
Lemma bf_insert_spec f vKey : bf_safe f -> exists g, bf_insert vKey f = Ret g /\ grown f g /\ holds g vKey = true.
Proof.
  intros S. unfold bf_insert. destruct (bf_isFull f) eqn:Ef; [exists f; split; [done|]; split; [apply grown_refl|]; unfold holds; by rewrite Ef|].
  destruct (insert_loop_spec vKey (Z.to_nat (bf_nHashFuncs f)) 0 f) as (g & -> & G & Em & Bj).
  { destruct S as [S|[S|S]]; [congruence|by right|left; lia]. }
  cbn [result_bind]. assert (G' : grown f (with_marks g (bf_isFull g) false)) by (destruct G; by constructor).
  exists (with_marks g (bf_isFull g) false). split; [done|]. split; [exact G'|]. unfold holds. apply orb_true_intro. right. cbn [with_marks bf_isEmpty bf_vData bf_nHashFuncs negb andb].
  apply forallb_forall. intros i Hi%in_seq. rewrite (grown_key_index f _ _ _ G'). rewrite (gr_funcs _ _ G) in Hi. apply (Bj i). lia.
Qed.

Lemma UpdateEmptyFull_safe f : bf_safe (UpdateEmptyFull f).
Proof. unfold bf_safe, UpdateEmptyFull. cbn. destruct (bf_vData f); [by left|right; by left]. Qed.

Lemma CBloomFilter_make_safe bits times_LN2 nElements nTweak nFlags f : 0 <= bits -> times_LN2 0 = 0 ->
  CBloomFilter_make bits times_LN2 nElements nTweak nFlags = Some f -> bf_safe f.
Proof.
  intros Hb H0. unfold CBloomFilter_make. destruct (nElements =? 0); [done|]. intros [= <-]. unfold bf_safe. cbn [bf_isFull bf_vData bf_nHashFuncs].
  set (size := Z.min bits _ / 8). destruct (Z.to_nat size) as [|n] eqn:Es; [|right; by left]. right. right.
  assert (size = 0) as ->; [|rewrite Z.mul_0_l, Zdiv_0_l, H0; unfold MAX_HASH_FUNCS; lia].
  assert (0 <= size) by (apply Z.div_pos; unfold MAX_BLOOM_FILTER_SIZE; lia). lia.
Qed.

(** ** What is relevant *)

(** The data elements of a script, up to the first instruction that cannot be read. *)
Fixpoint script_data (fuel : nat) (pc : list byte) : list (list byte) :=
  match pc, fuel with
  | [], _ | _, O => []
  | _, S fuel => let op := GetOp2 pc in if op_ok op then op_data op :: script_data fuel (op_pc op) else []
  end.
Definition script_has (f : CBloomFilter) (s : CScript) : bool :=
  existsb (fun d => negb (length d =? 0)%nat && holds f d) (script_data (length s) s).

(** The flags ask for the outpoint of this output. *)
Definition updates (f : CBloomFilter) (txout : CTxOut) : bool :=
  let mode := Z.land (bf_nFlags f) BLOOM_UPDATE_MASK in
  (mode =? BLOOM_UPDATE_ALL) || ((mode =? BLOOM_UPDATE_P2PUBKEY_ONLY) &&
    match Solver (scriptPubKey txout) with Some (true, TX_PUBKEY, _) | Some (true, TX_MULTISIG, _) => true | _ => false end).

(** The filter holds the hash, an element of an output, an outpoint spent or an element of
    an input. *)
Definition relevant (f : CBloomFilter) (tx : CTransaction) : bool :=
  holds f (hash_key (tx_hash tx)) || existsb (fun o => script_has f (scriptPubKey o)) (tx_vout tx) ||
  existsb (fun i => holds f (outpoint_key (prevout i)) || script_has f (scriptSig i)) (tx_vin tx).

Lemma script_matches_spec f : bf_safe f -> forall fuel pc, (length pc <= fuel)%nat ->
  script_matches fuel pc f = Ret (existsb (fun d => negb (length d =? 0)%nat && holds f d) (script_data fuel pc)).
Proof.
  intros S. induction fuel as [|fuel IH]; intros [|b pc] L; try done; [cbn in L; lia|]. cbn [script_matches script_data].
  pose proof (GetOp2_length (b :: pc) ltac:(done)) as Lt. destruct (GetOp2 (b :: pc)) as [ok pc' code d]. cbn [op_ok op_data op_pc negb] in *.
  destruct ok; [|done]. cbn [negb existsb]. destruct (length d =? 0)%nat; cbn [negb andb result_bind].
  - rewrite IH by (cbn in *; lia). done.
  - rewrite bf_contains_spec by done. cbn [result_bind]. destruct (holds f d); [done|]. cbn [orb]. rewrite IH by (cbn in *; lia). done.
Qed.

Lemma script_has_spec f s : bf_safe f -> script_matches (length s) s f = Ret (script_has f s).
Proof. intros S. by apply script_matches_spec. Qed.

Lemma grown_script_has f g s : grown f g -> script_has f s = true -> script_has g s = true.
Proof.
  intros G. unfold script_has. rewrite !existsb_exists. intros (d & Hd & [Nd Hh]%andb_true_iff). exists d. split; [done|].
  rewrite Nd. by apply (grown_holds f g).
Qed.

Lemma grown_relevant f g tx : grown f g -> relevant f tx = true -> relevant g tx = true.
Proof.
  intros G. unfold relevant. rewrite !orb_true_iff, !existsb_exists. intros [[Hh|(o & Ho & Hs)]|(i & Hi & [Hs|Hs]%orb_true_iff)].
  - left; left. by apply (grown_holds f g).
  - left; right. exists o. split; [done|]. by apply (grown_script_has f g).
  - right. exists i. split; [done|]. apply orb_true_iff. left. by apply (grown_holds f g).
  - right. exists i. split; [done|]. apply orb_true_iff. right. by apply (grown_script_has f g).
Qed.

Lemma grown_updates f g o : grown f g -> updates g o = updates f o.
Proof. intros G. unfold updates. by rewrite (gr_flags _ _ G). Qed.

(** A script with an element is not the one [Solver] fails on. *)
Lemma script_has_solvable f s : script_has f s = true -> exists r, Solver s = Some r.
Proof.
  intros Hs. destruct (decide (s = ops [OP_ZEROCOINMINT])) as [->|Ne]; [done|].
  destruct (Solver_standard s Ne) as (ok & kind & sols & E & _). by eexists.
Qed.

Lemma update_matched_spec f hash i o : bf_safe f -> script_has f (scriptPubKey o) = true ->
  exists g, update_matched hash i o f = Ret g /\ grown f g /\ (updates f o = true -> holds g (outpoint_key (mk_COutPoint hash i)) = true).
Proof.
  intros S Hs. unfold update_matched, updates. destruct (bf_insert_spec f (outpoint_key (mk_COutPoint hash i)) S) as (g & Eg & G & Hg).
  destruct (script_has_solvable f _ Hs) as ([[ok kind] sols] & ->).
  destruct (_ =? BLOOM_UPDATE_ALL); [by exists g|]. cbn [orb]. destruct (_ =? BLOOM_UPDATE_P2PUBKEY_ONLY); [|by exists f; split; [|split; [apply grown_refl|]]].
  cbn [andb]. destruct ok; [|by exists f; split; [|split; [apply grown_refl|]]].
  destruct kind; solve [by exists g|by exists f; split; [|split; [apply grown_refl|]]].
Qed.

Lemma match_vout_spec hash vout : forall i found f, bf_safe f ->
  exists g, match_vout hash i vout found f = Ret (g, found || existsb (fun o => script_has f (scriptPubKey o)) vout) /\ grown f g /\
    (existsb (fun o => script_has f (scriptPubKey o)) vout = false -> g = f) /\
    forall k o, vout !! k = Some o -> script_has f (scriptPubKey o) = true -> updates f o = true -> holds g (outpoint_key (mk_COutPoint hash (i + Z.of_nat k))) = true.
Proof.
  induction vout as [|o vout IH]; intros i found f S; cbn [match_vout existsb].
  { exists f. rewrite orb_false_r. split; [done|]. split; [apply grown_refl|]. split; [done|]. by intros k o Ek. }
  rewrite script_has_spec by done. cbn [result_bind]. destruct (script_has f (scriptPubKey o)) eqn:Hs; cbn [orb].
  - destruct (update_matched_spec f hash i o S Hs) as (g1 & -> & G1 & U1). cbn [result_bind].
    destruct (IH (i + 1) true g1 (grown_safe _ _ G1 S)) as (g & -> & G & _ & U). exists g. rewrite orb_true_r. split; [done|].
    split; [by eapply grown_trans|]. split; [done|]. intros [|k] o' Ek Ho Hu.
    + injection Ek as <-. rewrite Z.add_0_r. apply (grown_holds g1 g); [done|by apply U1].
    + replace (i + Z.of_nat (Datatypes.S k)) with (i + 1 + Z.of_nat k) by lia. apply (U k o' Ek); [by apply (grown_script_has f g1)|by rewrite (grown_updates f g1)].
  - destruct (IH (i + 1) found f S) as (g & -> & G & Eq & U). exists g. split; [done|]. split; [done|]. split; [done|].
    intros [|k] o' Ek Ho Hu; [injection Ek as <-; congruence|]. replace (i + Z.of_nat (Datatypes.S k)) with (i + 1 + Z.of_nat k) by lia. by apply (U k o').
Qed.

Lemma match_vin_spec vin f : bf_safe f ->
  match_vin vin f = Ret (existsb (fun i => holds f (outpoint_key (prevout i)) || script_has f (scriptSig i)) vin).
Proof.
  intros S. induction vin as [|i vin IH]; [done|]. cbn [match_vin existsb]. rewrite bf_contains_spec by done. cbn [result_bind].
  destruct (holds f _); [done|]. rewrite script_has_spec by done. cbn [result_bind]. by destruct (script_has f _).
Qed.

Lemma empty_irrelevant f tx : bf_isFull f = false -> bf_isEmpty f = true -> relevant f tx = false.
Proof.
  intros Nf Em. assert (Hh : forall k, holds f k = false) by (intros k; unfold holds; by rewrite Nf, Em).
  assert (Hs : forall s, script_has f s = false).
  { intros s. unfold script_has. apply not_true_iff_false. intros (d & _ & K)%existsb_exists. by rewrite Hh, andb_false_r in K. }
  unfold relevant. rewrite Hh. cbn [orb]. apply not_true_iff_false. intros [(o & _ & K)%existsb_exists|(i & _ & K)%existsb_exists]%orb_true_iff.
  - by rewrite Hs in K.
  - by rewrite Hh, Hs in K.
Qed.

Lemma IsRelevantAndUpdate_spec f tx : bf_safe f ->
  exists g, IsRelevantAndUpdate tx f = Ret (g, relevant f tx) /\ grown f g /\
    forall k o, tx_vout tx !! k = Some o -> script_has f (scriptPubKey o) = true -> updates f o = true ->
      holds g (outpoint_key (mk_COutPoint (tx_hash tx) (Z.of_nat k))) = true.
Proof.
  intros S. unfold IsRelevantAndUpdate. destruct (bf_isFull f) eqn:Ef.
  { exists f. unfold relevant, holds at 1. rewrite Ef. split; [done|]. split; [apply grown_refl|]. intros k o _ _ _. unfold holds. by rewrite Ef. }
  destruct (bf_isEmpty f) eqn:Em.
  { exists f. rewrite empty_irrelevant by done. split; [done|]. split; [apply grown_refl|]. intros k o Ek Hs _.
    pose proof (empty_irrelevant f tx Ef Em) as N. unfold relevant in N. apply orb_false_iff in N as [N _]. apply orb_false_iff in N as [_ N].
    apply not_true_iff_false in N. destruct N. apply existsb_exists. exists o. split; [|done]. apply list_elem_of_In; by apply list_elem_of_lookup_2 in Ek. }
  rewrite bf_contains_spec by done. cbn [result_bind].
  destruct (match_vout_spec (tx_hash tx) (tx_vout tx) 0 (holds f (hash_key (tx_hash tx))) f S) as (g & -> & G & Eq & U). cbn [result_bind].
  exists g. unfold relevant. destruct (_ || existsb _ (tx_vout tx)) eqn:Ho; [done|]. apply orb_false_iff in Ho as [_ Ho]. rewrite (Eq Ho) in *.
  rewrite match_vin_spec by done. done.
Qed.

(** ** Sessions *)

(** What a peer sends, and a transaction that the node may relay to it. *)
Inductive bloom_msg : Type :=
  | FilterLoad (filter : CBloomFilter) | FilterAdd (vData : list byte) | FilterClear | Relay (tx : CTransaction).

Definition peer_step (m : bloom_msg) (p : bloom_peer) : result failure (bloom_peer * option bool) :=
  match m with
  | FilterLoad filter => Ret (filterload filter p, None)
  | FilterAdd vData => let* p := filteradd vData p in Ret (p, None)
  | FilterClear => Ret (filterclear p, None)
  | Relay tx => let* (f, hit) := IsRelevantAndUpdate tx (pfilter p) in Ret (mk_peer f (fRelayTxes p) (nMisbehavior p), Some hit)
  end.
Fixpoint peer_run (session : list bloom_msg) (p : bloom_peer) : result failure (bloom_peer * list (option bool)) :=
  match session with
  | [] => Ret (p, [])
  | m :: session =>
      let* (p, reply) := peer_step m p in
      let* (p, replies) := peer_run session p in Ret (p, reply :: replies)
  end.

(** The keys asked for since the last filter. *)
Fixpoint wanted (session : list bloom_msg) (keys : list (list byte)) : list (list byte) :=
  match session with
  | [] => keys
  | FilterLoad filter :: session => wanted session (if IsWithinSizeConstraints filter then [] else keys)
  | FilterAdd vData :: session => wanted session (if Z.of_nat (length vData) >? MAX_SCRIPT_ELEMENT_SIZE then keys else vData :: keys)
  | FilterClear :: session => wanted session []
  | Relay _ :: session => wanted session keys
  end.

(** A key the transaction has. *)
Definition element (key : list byte) (s : CScript) : Prop := key <> [] /\ key ∈ script_data (length s) s.
Definition concerns (tx : CTransaction) (key : list byte) : Prop :=
  key = hash_key (tx_hash tx) \/ (exists o, o ∈ tx_vout tx /\ element key (scriptPubKey o)) \/
  (exists i, i ∈ tx_vin tx /\ (key = outpoint_key (prevout i) \/ element key (scriptSig i))).

Lemma element_has f key s : element key s -> holds f key = true -> script_has f s = true.
Proof.
  intros [N Hk] Hh. unfold script_has. apply existsb_exists. exists key. split; [by apply list_elem_of_In|]. rewrite Hh. destruct key; done.
Qed.

Lemma concerns_relevant f tx key : concerns tx key -> holds f key = true -> relevant f tx = true.
Proof.
  intros [->|[(o & Ho & He)|(i & Hi & Hk)]] Hh; unfold relevant; apply orb_true_iff.
  - left. apply orb_true_iff. by left.
  - left. apply orb_true_iff. right. apply existsb_exists. exists o. split; [by apply list_elem_of_In|by eapply element_has].
  - right. apply existsb_exists. exists i. split; [by apply list_elem_of_In|]. apply orb_true_iff. destruct Hk as [->|He]; [by left|right; by eapply element_has].
Qed.

Lemma peer_run_spec session : forall p keys, bf_safe (pfilter p) -> (forall key, key ∈ keys -> holds (pfilter p) key = true) ->
  exists p' replies, peer_run session p = Ret (p', replies) /\ bf_safe (pfilter p') /\ forall key, key ∈ wanted session keys -> holds (pfilter p') key = true.
Proof.
  induction session as [|m session IH]; intros p keys S Hk; cbn [peer_run wanted]; [by exists p, []|].
  assert (St : exists p1 reply, peer_step m p = Ret (p1, reply) /\ bf_safe (pfilter p1) /\
    forall key, key ∈ wanted [m] keys -> holds (pfilter p1) key = true).
  { destruct m as [filter|vData| |tx]; cbn [peer_step wanted].
    - exists (filterload filter p), None. split; [done|]. unfold filterload. destruct (IsWithinSizeConstraints filter); cbn [negb pfilter]; [|by split].
      split; [apply UpdateEmptyFull_safe|]. by intros key ?%elem_of_nil.
    - unfold filteradd. destruct (_ >? _); cbn [result_bind]; [by eexists _, None; split|].
      destruct (bf_insert_spec (pfilter p) vData S) as (g & -> & G & Hg). cbn [result_bind]. eexists _, None. split; [done|]. cbn [pfilter].
      split; [by eapply grown_safe|]. intros key [->|Hin]%elem_of_cons; [done|]. by apply (grown_holds (pfilter p) g), Hk.
    - exists (filterclear p), None. split; [done|]. split; [by left|]. by intros key ?%elem_of_nil.
    - destruct (IsRelevantAndUpdate_spec (pfilter p) tx S) as (g & -> & G & _). cbn [result_bind]. eexists _, _. split; [done|]. cbn [pfilter].
      split; [by eapply grown_safe|]. intros key Hin. by apply (grown_holds (pfilter p) g), Hk. }
  destruct St as (p1 & reply & -> & S1 & K1). cbn [result_bind].
  destruct (IH p1 (wanted [m] keys) S1 K1) as (p' & replies & -> & S' & K'). cbn [result_bind]. exists p', (reply :: replies). split; [done|].
  split; [exact S'|]. by destruct m.
Qed.

(** C29: whatever filters and keys a peer sends, in whatever order, and whatever transactions
    are tested in between, no loop of the filter divides by zero or leaves the vector; and
    no transaction is kept from the peer that has a key it asked for since it last replaced
    the filter: its hash, a data element of a script, or an outpoint it spends. *)
Theorem bloom_no_false_negatives (session : list bloom_msg) (p : bloom_peer) (Hp : bf_safe (pfilter p)) :
  exists p' replies, peer_run session p = Ret (p', replies) /\
    forall tx, exists p'' hit, peer_step (Relay tx) p' = Ret (p'', Some hit) /\
      ((exists key, key ∈ wanted session [] /\ concerns tx key) -> hit = true).
Proof.
  destruct (peer_run_spec session p [] Hp) as (p' & replies & Run & S & K); [by intros key ?%elem_of_nil|].
  exists p', replies. split; [exact Run|]. intros tx. cbn [peer_step]. destruct (IsRelevantAndUpdate_spec (pfilter p') tx S) as (g & -> & _). cbn [result_bind].
  eexists _, _. split; [done|]. intros (key & Hk & Hc). by apply (concerns_relevant _ tx key), K.
Qed.

(** A filter of two bytes and three functions, which asks for a transaction by its hash. *)
Definition sample_filter : CBloomFilter := mk_bloom [Byte.x00; Byte.x00] true false 3 5 1.

Lemma bloom_no_false_negatives_witness :
  let session := [FilterLoad sample_filter; FilterAdd (hash_key (tx_hash sample_payment)); Relay sample_payment] in
  exists p', peer_run session (mk_peer CBloomFilter_new true 0) = Ret (p', [None; None; Some true]) /\
    exists p'' hit, peer_step (Relay sample_payment) p' = Ret (p'', Some hit) /\ hit = true.
Proof.
  intros session. destruct (bloom_no_false_negatives session (mk_peer CBloomFilter_new true 0) (or_introl eq_refl)) as (p' & replies & Run & K).
  assert (R : replies = [None; None; Some true]).
  { assert (E : (match peer_run session (mk_peer CBloomFilter_new true 0) with Ret (_, r) => r | Err _ => [] end) = [None; None; Some true]) by (vm_compute; reflexivity).
    by rewrite Run in E. }
  exists p'. rewrite <- R. split; [exact Run|]. destruct (K sample_payment) as (p'' & hit & Run' & Hit). exists p'', hit. split; [exact Run'|].
  apply Hit. exists (hash_key (tx_hash sample_payment)). split; [|by left]. assert (W : wanted session [] = [hash_key (tx_hash sample_payment)]) by (vm_compute; reflexivity).
  rewrite W. apply list_elem_of_here.
Defined.

(** ** Filtered blocks *)

Lemma picks_cons h b (zl : list (uint256 * bool)) : picks ((h, b) :: zl) = if b : bool then h :: picks zl else picks zl.
Proof. by destruct b. Qed.

(** The filter that a transaction of the block meets has grown, and holds the outpoints of
    the outputs before it that matched. *)
Lemma match_block_spec vtx : forall i f, bf_safe f -> exists g ms matched, match_block i vtx f = Ret (g, ms, matched) /\ grown f g /\
  length ms = length vtx /\ matched.*2 = picks (zip (map tx_hash vtx) ms) /\
  (forall k h, (k, h) ∈ matched <-> exists j tx, k = (i + j)%nat /\ vtx !! j = Some tx /\ h = tx_hash tx /\ ms !! j = Some true) /\
  forall k tx, vtx !! k = Some tx -> exists fk, grown f fk /\ ms !! k = Some (relevant fk tx) /\
    forall j (t : CTransaction) n o, (j < k)%nat -> vtx !! j = Some t -> tx_vout t !! n = Some o -> script_has f (scriptPubKey o) = true -> updates f o = true ->
      holds fk (outpoint_key (mk_COutPoint (tx_hash t) (Z.of_nat n))) = true.
Proof.
  induction vtx as [|tx vtx IH]; intros i f S; cbn [match_block].
  { exists f, [], []. split; [done|]. split; [apply grown_refl|]. split; [done|]. split; [done|]. split; [|by intros k tx Ek].
    intros k h. split; [by intros ?%elem_of_nil|]. by intros (j & t & _ & Ej & _). }
  destruct (IsRelevantAndUpdate_spec f tx S) as (f1 & -> & G1 & U1). cbn [result_bind].
  destruct (IH (Datatypes.S i) f1 (grown_safe _ _ G1 S)) as (g & ms & matched & -> & G & L & Hp & Hm & Hk). cbn [result_bind fst snd].
  exists g, (relevant f tx :: ms), (if relevant f tx then (i, tx_hash tx) :: matched else matched). split; [done|].
  split; [by eapply grown_trans|]. split; [by cbn; rewrite L|]. split; [|split].
  - cbn [map]. change (zip (tx_hash tx :: map tx_hash vtx) (relevant f tx :: ms)) with ((tx_hash tx, relevant f tx) :: zip (map tx_hash vtx) ms).
    rewrite picks_cons. destruct (relevant f tx); [|exact Hp]. rewrite fmap_cons. by rewrite Hp.
  - intros k h. transitivity ((relevant f tx = true /\ k = i /\ h = tx_hash tx) \/ (k, h) ∈ matched).
    { destruct (relevant f tx); [rewrite elem_of_cons|]; [|by intuition]. split; [intros [[= -> ->]|?]; auto|intros [(_ & -> & ->)|?]; auto]. }
    rewrite Hm. split.
    + intros [(R & -> & ->)|(j & t & -> & Ej & -> & Em)].
      * exists 0%nat, tx. rewrite Nat.add_0_r. split; [done|]. split; [done|]. split; [done|]. cbn. by rewrite R.
      * exists (Datatypes.S j), t. split; [lia|]. by split.
    + intros ([|j] & t & -> & Ej & -> & Em).
      * injection Ej as <-. cbn in Em. injection Em as Em. left. split; [done|]. split; [lia|done].
      * right. exists j, t. split; [lia|]. by split.
  - intros [|k] t Ek.
    + injection Ek as <-. exists f. split; [apply grown_refl|]. split; [done|]. intros j t n o Hj. lia.
    + destruct (Hk k t Ek) as (fk & Gk & Em & Hs). exists fk. split; [by eapply grown_trans|]. split; [exact Em|].
      intros [|j] t' n o Hj Ej En Ho Hu.
      * injection Ej as <-. apply (grown_holds f1 fk); [done|]. by apply (U1 n o).
      * apply (Hs j t' n o); [lia|done|done|by apply (grown_script_has f f1)|by rewrite (grown_updates f f1)].
Qed.

(** C28: [CMerkleBlock] reduces a block to what a filter asks for.  From the tree it builds a
    client extracts the Merkle root of the block and the hashes of [vMatchedTxn], in order;
    these are transactions of the block at the places given; every transaction that the
    filter holds a key of is there, and so is every one that spends an output of an earlier
    transaction of the block that the filter matched, when the flags of the filter ask for
    such outputs. *)
Theorem filtered_block (block : CBlock) (f : CBloomFilter) (Hf : bf_safe f) (L : (1 <= length (vtx block) <= max_transactions)%nat)
    (W : Forall (wf 8) (txids block)) :
  exists mb g, CMerkleBlock_of block f = Ret (Some mb, g) /\ mb_header mb = GetBlockHeader block /\
    ExtractMatches (mb_txn mb) = (merkle_root (txids block), (vMatchedTxn mb).*2, mb_txn mb) /\
    (forall k h, (k, h) ∈ vMatchedTxn mb -> exists tx, vtx block !! k = Some tx /\ h = tx_hash tx) /\
    (forall k tx, vtx block !! k = Some tx ->
       relevant f tx = true \/
       (exists j (t : CTransaction) n o i, (j < k)%nat /\ vtx block !! j = Some t /\ tx_vout t !! n = Some o /\ script_has f (scriptPubKey o) = true /\ updates f o = true /\
          i ∈ tx_vin tx /\ prevout i = mk_COutPoint (tx_hash t) (Z.of_nat n)) ->
       (k, tx_hash tx) ∈ vMatchedTxn mb).
Proof.
  destruct (match_block_spec (vtx block) 0 f Hf) as (g & ms & matched & Run & G & Lm & Hp & Hm & Hk).
  assert (Lt : length (txids block) = length (vtx block)) by (unfold txids; apply length_map).
  destruct (partial_tree_extracts (txids block) ms) as (t & Et & Ex); [by rewrite Lt|by rewrite Lt|done|].
  unfold CMerkleBlock_of. rewrite Run. cbn [result_bind fst snd]. rewrite Et. exists (mk_CMerkleBlock (GetBlockHeader block) t matched), g.
  split; [done|]. split; [done|]. cbn [mb_txn vMatchedTxn]. split; [by rewrite Hp|]. split.
  - intros k h (j & tx & -> & Ej & -> & _)%Hm. by exists tx.
  - intros k tx Ek Hr. apply Hm. exists k, tx. split; [done|]. split; [done|]. split; [done|]. destruct (Hk k tx Ek) as (fk & Gk & Em & Hs). rewrite Em. f_equal.
    destruct Hr as [Hr|(j & t' & n & o & i & Hj & Ej & En & Ho & Hu & Hi & Ei)]; [by apply (grown_relevant f fk)|].
    apply (concerns_relevant fk tx (outpoint_key (prevout i))); [|rewrite Ei; by apply (Hs j t' n o)]. right; right. exists i. split; [done|]. by left.
Qed.

(** A block of three: the second pays to a script with the element asked for, and the third
    spends that output. *)
Definition filter_payment : CTransaction :=
  mk_CTransaction (base_uint_u64 8 2) (mk_CMutableTransaction 1 [CTxIn_make (mk_COutPoint (base_uint_u64 8 9) 0) [] UINT32_MAX] [CTxOut_make 4 [Byte.x02; Byte.xaa; Byte.xbb]] 0).
Definition filter_spend : CTransaction :=
  mk_CTransaction (base_uint_u64 8 3) (mk_CMutableTransaction 1 [CTxIn_make (mk_COutPoint (base_uint_u64 8 2) 0) [] UINT32_MAX] [CTxOut_make 4 [Byte.x51]] 0).
Definition filter_block : CBlock :=
  mk_CBlock CBlockHeader_SetNull [mk_CTransaction (base_uint_u64 8 1) CMutableTransaction_new; filter_payment; filter_spend] [] [] [].
Definition filter_asking : CBloomFilter :=
  match bf_insert [Byte.xaa; Byte.xbb] (UpdateEmptyFull sample_filter) with Ret f => f | Err _ => sample_filter end.

Lemma filtered_block_witness :
  exists mb g, CMerkleBlock_of filter_block filter_asking = Ret (Some mb, g) /\
    (ExtractMatches (mb_txn mb)).1 = (merkle_root (txids filter_block), (vMatchedTxn mb).*2) /\
    (1%nat, base_uint_u64 8 2) ∈ vMatchedTxn mb /\ (2%nat, base_uint_u64 8 3) ∈ vMatchedTxn mb.
Proof.
  assert (S : bf_safe filter_asking) by (right; left; vm_compute; discriminate).
  destruct (filtered_block filter_block filter_asking S) as (mb & g & Run & _ & Ex & _ & Hin).
  - unfold max_transactions. cbn. lia.
  - by repeat constructor.
  - exists mb, g. split; [exact Run|]. split; [by rewrite Ex|].
    assert (Has : script_has filter_asking [Byte.x02; Byte.xaa; Byte.xbb] = true) by (vm_compute; reflexivity).
    split; [apply (Hin 1%nat filter_payment eq_refl); left; vm_compute; reflexivity|].
    apply (Hin 2%nat filter_spend eq_refl). right.
    exists 1%nat, filter_payment, 0%nat, (CTxOut_make 4 [Byte.x02; Byte.xaa; Byte.xbb]), (CTxIn_make (mk_COutPoint (base_uint_u64 8 2) 0) [] UINT32_MAX).
    split; [lia|]. split; [done|]. split; [done|]. split; [exact Has|]. split; [vm_compute; reflexivity|]. split; [apply list_elem_of_here|done].
Defined.
