(* ===== verification/Base58.v ===== *)
(** * Base 58 and addresses ([base58.h], [base58.cpp])

    The conversion of byte vectors to base 58 and back in the fixed-size buffers of the code,
    the checksummed form, addresses and the export format of private keys.  An assertion that
    fails is [None]; the vector a function fills is passed in and returned. *)

From Stdlib Require Import ZArith Lia List Bool String.
From stdpp Require Import base option list.
From coqutil Require Import Byte Word.LittleEndianList.
From S2P Require Import Prelude Uint256 Serialize MerkleDamgard Hash Text Interpreter Params Standard.

Open Scope Z_scope.
Open Scope btc_scope.

(** ** The conversion *)

Definition pszBase58 : list byte := text "123456789ABCDEFGHJKLMNPQRSTUVWXYZabcdefghijkmnopqrstuvwxyz".

(** [strchr(s, c) - s] for a character other than NUL. *)
Fixpoint strchr (s : list byte) (c : byte) : option Z :=
  match s with
  | [] => None
  | b :: s => if Byte.eqb b c then Some 0 else Z.succ <$> strchr s c
  end.

(** The inner loop over [b256] or [b58], from the last digit to the first:
    [carry += mul * *it; *it = carry % base; carry /= base]. *)
Fixpoint mul_add (base mul : Z) (b : list Z) (carry : Z) : list Z * Z :=
  match b with
  | [] => ([], carry)
  | d :: b =>
      let '(b, carry) := mul_add base mul b carry in
      let carry := carry + mul * d in
      (carry mod base :: b, carry / base)
  end.

Fixpoint skip_zeroes (b : list Z) : list Z :=
  match b with d :: rest => if d =? 0 then skip_zeroes rest else b | [] => [] end.

(** The count and what follows the leading characters [c]. *)
Fixpoint skip_count (c : byte) (psz : list byte) : nat * list byte :=
  match psz with
  | b :: rest => if Byte.eqb b c then let '(n, rest) := skip_count c rest in (S n, rest) else (O, psz)
  | [] => (O, [])
  end.

(** The characters up to a space or the end: [Some None] is the [return false]. *)
Fixpoint decode_chars (psz : list byte) (b256 : list Z) : option (option (list Z * list byte)) :=
  match psz with
  | [] => Some (Some (b256, []))
  | c :: rest =>
      if isspace c then Some (Some (b256, psz))
      else match strchr pszBase58 c with
      | None => Some None
      | Some carry =>
          let '(b256, carry) := mul_add 256 58 b256 carry in
          if carry =? 0 then decode_chars rest b256 else None
      end
  end.

(** [DecodeBase58(const char *, std::vector<unsigned char>&)] on the characters before the NUL. *)
Definition DecodeBase58_psz (psz vch : list byte) : option (bool * list byte) :=
  let psz := skip_spaces psz in
  let '(zeroes, psz) := skip_count Byte.x31 psz in
  let b256 := repeat 0 (Z.to_nat (u64 (u64 (Z.of_nat (length psz) * 733) / 1000 + 1))) in
  r ← decode_chars psz b256;
  match r with
  | None => Some (false, vch)
  | Some (b256, psz) =>
      match skip_spaces psz with
      | _ :: _ => Some (false, vch)
      | [] => Some (true, repeat Byte.x00 zeroes ++ map byte.of_Z (skip_zeroes b256))
      end
  end.
Definition DecodeBase58 (str vchRet : list byte) : option (bool * list byte) := DecodeBase58_psz (c_str str) vchRet.

(** [std::string DecodeBase58(const char * )], the hexadecimal form. *)
Definition DecodeBase58_hex (psz : list byte) : option (list byte) :=
  '(_, vch) ← DecodeBase58 psz [];
  Some (vch ≫= (fun c => [hex_char (byte.unsigned c / 16); hex_char (byte.unsigned c mod 16)])).

Fixpoint encode_bytes (p : list byte) (b58 : list Z) : option (list Z) :=
  match p with
  | [] => Some b58
  | b :: p =>
      let '(b58, carry) := mul_add 58 256 b58 (byte.unsigned b) in
      if carry =? 0 then encode_bytes p b58 else None
  end.

Definition base58_char (d : Z) : byte := nth (Z.to_nat d) pszBase58 Byte.x00.

Definition EncodeBase58 (vch : list byte) : option (list byte) :=
  let '(zeroes, p) := skip_count Byte.x00 vch in
  let b58 := repeat 0 (Z.to_nat (i64 (i64 (Z.of_nat (length p) * 138) ÷ 100 + 1))) in
  b58 ← encode_bytes p b58;
  Some (repeat Byte.x31 zeroes ++ map base58_char (skip_zeroes b58)).

(** ** The checksum *)

Definition checksum (vch : list byte) : list byte := take 4 (uint_bytes (Hash [vch])).

Definition EncodeBase58Check (vchIn : list byte) : option (list byte) := EncodeBase58 (vchIn ++ checksum vchIn).

Definition DecodeBase58Check_psz (psz vchRet : list byte) : option (bool * list byte) :=
  '(ok, vchRet) ← DecodeBase58_psz psz vchRet;
  if negb ok || (length vchRet <? 4)%nat then Some (false, [])
  else
    let n := (length vchRet - 4)%nat in
    if negb (bool_decide (checksum (take n vchRet) = drop n vchRet)) then Some (false, [])
    else Some (true, take n vchRet).
Definition DecodeBase58Check (str vchRet : list byte) : option (bool * list byte) := DecodeBase58Check_psz (c_str str) vchRet.

(** ** [CBase58Data] *)

Record CBase58Data : Type := mk_base58 { vchVersion : list byte; vchData : list byte }.
Definition CBase58Data_new : CBase58Data := mk_base58 [] [].

Definition SetData (vchVersionIn pdata : list byte) : CBase58Data := mk_base58 vchVersionIn pdata.

(** [SetString(const char *, unsigned int nVersionBytes = 1)] *)
Definition SetString_psz (psz : list byte) (nVersionBytes : Z) : option (bool * CBase58Data) :=
  '(rc58, vchTemp) ← DecodeBase58Check_psz psz [];
  if negb rc58 || (Z.of_nat (length vchTemp) <? nVersionBytes) then Some (false, mk_base58 [] [])
  else
    let n := Z.to_nat nVersionBytes in
    Some (true, mk_base58 (take n vchTemp) (drop n vchTemp)).
Definition SetString (str : list byte) : option (bool * CBase58Data) := SetString_psz (c_str str) 1.

Definition b58_ToString (d : CBase58Data) : option (list byte) := EncodeBase58Check (vchVersion d ++ vchData d).

(** [operator<] of [std::vector<unsigned char>]. *)
Fixpoint vector_lt (a b : list byte) : bool :=
  match a, b with
  | _, [] => false
  | [], _ :: _ => true
  | x :: a, y :: b =>
      if byte.unsigned x <? byte.unsigned y then true
      else if byte.unsigned y <? byte.unsigned x then false else vector_lt a b
  end.

Definition CompareTo (a b58 : CBase58Data) : Z :=
  if vector_lt (vchVersion a) (vchVersion b58) then -1
  else if vector_lt (vchVersion b58) (vchVersion a) then 1
  else if vector_lt (vchData a) (vchData b58) then -1
  else if vector_lt (vchData b58) (vchData a) then 1
  else 0.

(** ** The version bytes *)

Inductive Base58Type : Type := TPUBKEY_ADDRESS | TSCRIPT_ADDRESS | TSECRET_KEY | EXT_PUBLIC_KEY | EXT_SECRET_KEY.

Definition Base58Prefix (params : CChainParams) (type : Base58Type) : list byte :=
  match type with
  | TPUBKEY_ADDRESS => [byte.of_Z (PUBKEY_ADDRESS params)]
  | TSCRIPT_ADDRESS => [byte.of_Z (SCRIPT_ADDRESS params)]
  | TSECRET_KEY => [byte.of_Z (SECRET_KEY params)]
  | EXT_PUBLIC_KEY =>
      match networkID params with MAIN => [Byte.x04; Byte.x88; Byte.xb2; Byte.x1e] | _ => [Byte.x04; Byte.x35; Byte.x87; Byte.xcf] end
  | EXT_SECRET_KEY =>
      match networkID params with MAIN => [Byte.x04; Byte.x88; Byte.xad; Byte.xe4] | _ => [Byte.x04; Byte.x35; Byte.x83; Byte.x94] end
  end.

(** ** [CBitcoinAddress] *)

Section address.
Context (params : CChainParams).

(** [Set] of the three forms of a destination, through the visitor. *)
Definition addr_Set (addr : CBase58Data) (dest : CTxDestination) : bool * CBase58Data :=
  match dest with
  | CKeyID id => (true, SetData (Base58Prefix params TPUBKEY_ADDRESS) (uint_bytes id))
  | CScriptID id => (true, SetData (Base58Prefix params TSCRIPT_ADDRESS) (uint_bytes id))
  | CNoDestination => (false, addr)
  end.
(** [CBitcoinAddress(const CTxDestination&)] *)
Definition CBitcoinAddress_of (dest : CTxDestination) : CBase58Data := (addr_Set CBase58Data_new dest).2.

Definition is_version (addr : CBase58Data) (type : Base58Type) : bool := bool_decide (vchVersion addr = Base58Prefix params type).

Definition addr_IsValid (addr : CBase58Data) : bool :=
  let fCorrectSize := (length (vchData addr) =? 20)%nat in
  let fKnownVersion := is_version addr TPUBKEY_ADDRESS || is_version addr TSCRIPT_ADDRESS in
  fCorrectSize && fKnownVersion.

Definition addr_Get (addr : CBase58Data) : CTxDestination :=
  if negb (addr_IsValid addr) then CNoDestination
  else
    let id := bytes_uint 5 (take 20 (vchData addr)) in
    if is_version addr TPUBKEY_ADDRESS then CKeyID id
    else if is_version addr TSCRIPT_ADDRESS then CScriptID id
    else CNoDestination.

(** [GetIndexKey]: the hash and the type, when it returns true. *)
Definition GetIndexKey (addr : CBase58Data) : option (base_uint * Z) :=
  if negb (addr_IsValid addr) then None
  else if is_version addr TPUBKEY_ADDRESS then Some (bytes_uint 5 (take 20 (vchData addr)), 1)
  else if is_version addr TSCRIPT_ADDRESS then Some (bytes_uint 5 (take 20 (vchData addr)), 2)
  else None.

Definition addr_GetKeyID (addr : CBase58Data) : option base_uint :=
  if negb (addr_IsValid addr) || negb (is_version addr TPUBKEY_ADDRESS) then None
  else Some (bytes_uint 5 (take 20 (vchData addr))).

Definition addr_IsScript (addr : CBase58Data) : bool := addr_IsValid addr && is_version addr TSCRIPT_ADDRESS.

(** ** [CBitcoinSecret] *)

(** [CKey]: [fValid], [fCompressed] and the 32 bytes. *)
Record CKey : Type := mk_key { fValid : bool; fCompressed : bool; key_vch : list byte }.

(** [CKey()], then [Set]; the bytes of an invalid key are not read. *)
Definition CKey_Set (p : list byte) (fCompressedIn : bool) : CKey :=
  if negb (length p =? 32)%nat then mk_key false false []
  else if ecc_Check (map byte.unsigned p) then mk_key true fCompressedIn p
  else mk_key false false [].

(** [None] is the failed assertion. *)
Definition SetKey (vchSecret : CKey) : option CBase58Data :=
  if negb (fValid vchSecret) then None
  else
    let d := SetData (Base58Prefix params TSECRET_KEY) (key_vch vchSecret) in
    Some (if fCompressed vchSecret then mk_base58 (vchVersion d) (vchData d ++ [Byte.x01]) else d).

Definition GetKey (d : CBase58Data) : option CKey :=
  if (length (vchData d) <? 32)%nat then None
  else Some (CKey_Set (take 32 (vchData d)) ((32 <? length (vchData d))%nat && Byte.eqb (nth 32 (vchData d) Byte.x00) Byte.x01)).

Definition secret_IsValid (d : CBase58Data) : bool :=
  let fExpectedFormat := (length (vchData d) =? 32)%nat ||
    ((length (vchData d) =? 33)%nat && Byte.eqb (nth 32 (vchData d) Byte.x00) Byte.x01) in
  let fCorrectVersion := is_version d TSECRET_KEY in
  fExpectedFormat && fCorrectVersion.

Definition secret_SetString (strSecret : list byte) : option (bool * CBase58Data) :=
  '(ok, d) ← SetString strSecret;
  Some (ok && secret_IsValid d, d).
End address.

(** ** Digits and values *)

Definition digit_of (base d : Z) : Prop := 0 <= d < base.
Definition be_val (base : Z) (l : list Z) : Z := fold_left (fun a d => a * base + d) l 0.
Definition no_lead (l : list Z) : Prop := match l with d :: _ => d <> 0 | [] => True end.

Section digits.
Context (base : Z) (Hb : 1 < base).

Lemma be_val_acc l : forall a, fold_left (fun a d => a * base + d) l a = a * base ^ Z.of_nat (length l) + be_val base l.
Proof.
  unfold be_val. induction l as [|d l IH]; intro a; cbn [fold_left length]; [cbn; lia|].
  rewrite (IH (a * base + d)), (IH (0 * base + d)), Nat2Z.inj_succ, Z.pow_succ_r by lia. lia.
Qed.

Lemma be_val_cons d l : be_val base (d :: l) = d * base ^ Z.of_nat (length l) + be_val base l.
Proof. unfold be_val at 1. cbn [fold_left]. rewrite be_val_acc. lia. Qed.

Lemma be_val_snoc l d : be_val base (l ++ [d]) = be_val base l * base + d.
Proof. unfold be_val. now rewrite fold_left_app. Qed.

Lemma be_val_range l : Forall (digit_of base) l -> 0 <= be_val base l < base ^ Z.of_nat (length l).
Proof.
  induction 1 as [|d l Hd Hl IH]; [cbn; lia|]. rewrite be_val_cons. cbn [length]. rewrite Nat2Z.inj_succ, Z.pow_succ_r by lia.
  unfold digit_of in Hd. nia.
Qed.

Lemma be_val_zeroes n : be_val base (repeat 0 n) = 0.
Proof. induction n as [|n IH]; [reflexivity|]. cbn [repeat]. rewrite be_val_cons. lia. Qed.

Lemma skip_zeroes_val l : be_val base (skip_zeroes l) = be_val base l.
Proof.
  induction l as [|d l IH]; [reflexivity|]. cbn [skip_zeroes]. destruct (d =? 0) eqn:E; [|reflexivity].
  apply Z.eqb_eq in E. subst d. rewrite IH, be_val_cons. lia.
Qed.

Lemma skip_zeroes_Forall (P : Z -> Prop) l : Forall P l -> Forall P (skip_zeroes l).
Proof. induction 1 as [|d l Hd Hl IH]; cbn [skip_zeroes]; [constructor|]. destruct (d =? 0); [exact IH|now constructor]. Qed.

Lemma skip_zeroes_length l : (length (skip_zeroes l) <= length l)%nat.
Proof. induction l as [|d l IH]; cbn; [lia|]. destruct (d =? 0); cbn; lia. Qed.

Lemma skip_zeroes_lead l : no_lead (skip_zeroes l).
Proof. induction l as [|d l IH]; cbn; [exact I|]. destruct (d =? 0) eqn:E; [exact IH|]. now apply Z.eqb_neq in E. Qed.

Lemma skip_zeroes_id l : no_lead l -> skip_zeroes l = l.
Proof. destruct l as [|d l]; cbn; [reflexivity|]. intro H. now rewrite (proj2 (Z.eqb_neq d 0) H). Qed.

Lemma no_lead_positive l : Forall (digit_of base) l -> no_lead l -> l <> [] -> 0 < be_val base l.
Proof.
  intros Hl Hn Hne. destruct l as [|d l]; [easy|]. cbn in Hn. apply Forall_cons in Hl as [Hd Hl].
  rewrite be_val_cons. pose proof (be_val_range l Hl). unfold digit_of in Hd.
  pose proof (Z.pow_pos_nonneg base (Z.of_nat (length l))). nia.
Qed.

Lemma no_lead_init l d : no_lead (l ++ [d]) -> no_lead l.
Proof. now destruct l. Qed.

(** A number has one list of digits without leading zeros. *)
Lemma digits_unique l : forall l', Forall (digit_of base) l -> Forall (digit_of base) l' -> no_lead l -> no_lead l' ->
  be_val base l = be_val base l' -> l = l'.
Proof.
  induction l as [|d l IH] using rev_ind; intros l' Hl Hl' Hn Hn' E.
  - destruct l' as [|d l']; [reflexivity|]. pose proof (no_lead_positive (d :: l') Hl' Hn' ltac:(easy)).
    change (be_val base []) with 0 in E. lia.
  - destruct l' as [|d' l' _] using rev_ind.
    + pose proof (no_lead_positive (l ++ [d]) Hl Hn ltac:(now destruct l)). change (be_val base []) with 0 in E. lia.
    + rewrite !be_val_snoc in E. apply Forall_app in Hl as [Hl Hd], Hl' as [Hl' Hd'].
      apply Forall_cons in Hd as [Hd _], Hd' as [Hd' _]. unfold digit_of in Hd, Hd'.
      assert (d = d') by (apply (f_equal (fun z => z mod base)) in E; rewrite !(Z.add_comm _ d), !(Z.add_comm _ d'), !Z_mod_plus_full, !Z.mod_small in E by lia; exact E).
      subst d'. f_equal. apply IH; eauto using no_lead_init. nia.
Qed.

Lemma mul_add_spec mul b : Forall (digit_of base) b -> 0 <= mul -> forall carry, 0 <= carry ->
  length (mul_add base mul b carry).1 = length b /\ Forall (digit_of base) (mul_add base mul b carry).1 /\
  0 <= (mul_add base mul b carry).2 /\
  be_val base (mul_add base mul b carry).1 + (mul_add base mul b carry).2 * base ^ Z.of_nat (length b) = mul * be_val base b + carry.
Proof.
  intros Hd Hm. induction Hd as [|d b Hd Hbs IH]; intros carry Hc; [cbn; repeat split; [constructor|lia|lia]|].
  destruct (IH carry Hc) as (L & F & C & V). cbn [mul_add]. destruct (mul_add base mul b carry) as [b' c']. cbn [fst snd] in *. cbn [length fst snd].
  set (t := c' + mul * d). assert (Ht : 0 <= t) by (subst t; unfold digit_of in Hd; nia).
  split; [now rewrite L|]. split; [constructor; [apply Z.mod_pos_bound; lia|exact F]|].
  split; [apply Z.div_pos; lia|]. rewrite !be_val_cons, L, Nat2Z.inj_succ, Z.pow_succ_r by lia.
  pose proof (Z.div_mod t base ltac:(lia)). nia.
Qed.

(** The assertion holds when the value fits in the buffer. *)
Lemma mul_add_fits mul b carry : Forall (digit_of base) b -> 0 <= mul -> 0 <= carry ->
  mul * be_val base b + carry < base ^ Z.of_nat (length b) -> exists b',
  mul_add base mul b carry = (b', 0) /\ length b' = length b /\ Forall (digit_of base) b' /\
  be_val base b' = mul * be_val base b + carry.
Proof.
  intros Hd Hm Hc Hv. destruct (mul_add_spec mul b Hd Hm carry Hc) as (L & F & C & V).
  destruct (mul_add base mul b carry) as [b' c']. cbn [fst snd] in L, F, C, V. pose proof (be_val_range b' F).
  assert (c' = 0) as -> by (destruct (Z.eq_dec c' 0); [assumption|]; assert (base ^ Z.of_nat (length b) <= c' * base ^ Z.of_nat (length b)) by (rewrite <- Z.mul_1_l at 1; apply Z.mul_le_mono_nonneg_r; [apply Z.pow_nonneg|]; lia); lia). exists b'. repeat split; try assumption. lia.
Qed.
End digits.

(** [a^n < b^m] when [a^q <= b^p] and [m / n] exceeds [p / q]. *)
Lemma base_change a b p q n m : 1 < a -> 1 < b -> 0 < q -> 0 <= p -> 0 <= n -> 0 <= m -> a ^ q <= b ^ p -> p * n < q * m -> a ^ n < b ^ m.
Proof.
  intros Ha Hbb Hq Hp Hn Hm Hab Hlt. apply Z.pow_lt_mono_l_iff with (c := q); [lia..|].
  rewrite <- !Z.pow_mul_r by lia. apply Z.le_lt_trans with (b ^ (p * n)).
  - rewrite (Z.mul_comm n q), Z.pow_mul_r, (Z.pow_mul_r b p n) by lia. apply Z.pow_le_mono_l. split; [apply Z.pow_nonneg; lia|exact Hab].
  - apply Z.pow_lt_mono_r; lia.
Qed.

(** ** Characters *)

Lemma base58_char_spec d : digit_of 58 d ->
  strchr pszBase58 (base58_char d) = Some d /\ isspace (base58_char d) = false /\
  byte.unsigned (base58_char d) <> 0 /\ (d <> 0 -> Byte.eqb (base58_char d) Byte.x31 = false).
Proof.
  intro H.
  assert (C : (bool_decide (strchr pszBase58 (base58_char d) = Some d) && negb (isspace (base58_char d)) &&
    negb (byte.unsigned (base58_char d) =? 0) && ((d =? 0) || negb (Byte.eqb (base58_char d) Byte.x31))) = true).
  { revert d H.
    refine (below_check (fun d => bool_decide (strchr pszBase58 (base58_char d) = Some d) && negb (isspace (base58_char d)) &&
    negb (byte.unsigned (base58_char d) =? 0) && ((d =? 0) || negb (Byte.eqb (base58_char d) Byte.x31))) 58 _). vm_compute. reflexivity. }
  rewrite !andb_true_iff, orb_true_iff, !negb_true_iff, bool_decide_eq_true, Z.eqb_neq, Z.eqb_eq in C.
  destruct C as [[[C1 C2] C3] C4]. repeat split; try assumption. intro Hd. now destruct C4.
Qed.

Lemma strchr_digit c d : strchr pszBase58 c = Some d -> digit_of 58 d /\ base58_char d = c.
Proof.
  intro H.
  assert (C : match strchr pszBase58 c with Some d => (0 <=? d) && (d <? 58) && Byte.eqb (base58_char d) c | None => true end = true).
  { clear d H. rewrite <- (byte.of_Z_unsigned c).
    refine (byte_check (fun z => match strchr pszBase58 (byte.of_Z z) with
      Some d => (0 <=? d) && (d <? 58) && Byte.eqb (base58_char d) (byte.of_Z z) | None => true end) _ c).
    vm_compute. reflexivity. }
  rewrite H, !andb_true_iff, Z.leb_le, Z.ltb_lt in C. destruct C as [[C1 C2] C3].
  split; [split; assumption|]. now apply Byte.byte_dec_bl.
Qed.

Lemma byte_eqb_spec a b : Byte.eqb a b = true <-> a = b.
Proof. split; [apply Byte.byte_dec_bl|apply Byte.byte_dec_lb]. Qed.

Lemma skip_count_spec c psz : let '(n, rest) := skip_count c psz in
  psz = repeat c n ++ rest /\ match rest with b :: _ => Byte.eqb b c = false | [] => True end.
Proof.
  induction psz as [|b psz IH]; cbn; [done|]. destruct (Byte.eqb b c) eqn:E; [|now rewrite E].
  destruct (skip_count c psz) as [n rest]. destruct IH as [-> IH]. apply byte_eqb_spec in E. now subst b.
Qed.

Lemma skip_count_app c n rest : match rest with b :: _ => Byte.eqb b c = false | [] => True end ->
  skip_count c (repeat c n ++ rest) = (n, rest).
Proof.
  intro H. induction n as [|n IH]; cbn [repeat app].
  - destruct rest as [|b rest]; cbn; [reflexivity|]. now rewrite H.
  - cbn. now rewrite (proj2 (byte_eqb_spec c c) eq_refl), IH.
Qed.

Definition spaces (s : list byte) : Prop := Forall (fun c => isspace c = true) s.

Lemma skip_spaces_app lead s : spaces lead -> skip_spaces (lead ++ s) = skip_spaces s.
Proof. induction 1 as [|c lead Hc _ IH]; cbn; [reflexivity|]. now rewrite Hc. Qed.

Lemma skip_spaces_id s : match s with c :: _ => isspace c = false | [] => True end -> skip_spaces s = s.
Proof. destruct s as [|c s]; cbn; [reflexivity|]. now intros ->. Qed.

Lemma skip_spaces_split s : exists lead, spaces lead /\ s = lead ++ skip_spaces s /\
  match skip_spaces s with c :: _ => isspace c = false | [] => True end.
Proof.
  induction s as [|c s (lead & H1 & H2 & H3)]; [exists []; repeat split; constructor|]. cbn.
  destruct (isspace c) eqn:E.
  - exists (c :: lead). split; [now constructor|]. split; [cbn; now rewrite <- H2|exact H3].
  - exists []. split; [constructor|]. split; [reflexivity|exact E].
Qed.

Lemma skip_spaces_nil s : skip_spaces s = [] <-> spaces s.
Proof.
  split; [|intro H; rewrite <- (app_nil_r s); now apply skip_spaces_app]. intro H.
  destruct (skip_spaces_split s) as (lead & Hl & E & _). rewrite H, app_nil_r in E. now subst lead.
Qed.

Definition values (p : list byte) : list Z := map byte.unsigned p.

Lemma values_digits p : Forall (digit_of 256) (values p).
Proof. apply Forall_map, Forall_true. intro b. apply byte.unsigned_range. Qed.

Lemma values_of_Z l : Forall (digit_of 256) l -> values (map byte.of_Z l) = l.
Proof. unfold values. induction 1 as [|d l Hd _ IH]; cbn; [reflexivity|]. rewrite IH, byte.unsigned_of_Z; unfold byte.wrap; rewrite Z.mod_small; [reflexivity|exact Hd]. Qed.

Lemma of_Z_values p : map byte.of_Z (values p) = p.
Proof. unfold values. rewrite map_map. rewrite <- (map_id p) at 2. apply map_ext, byte.of_Z_unsigned. Qed.

(** ** The loops over the characters and the bytes *)

Lemma decode_chars_digits ds : forall b rest, Forall (digit_of 58) ds -> Forall (digit_of 256) b ->
  be_val 256 b * 58 ^ Z.of_nat (length ds) + be_val 58 ds < 256 ^ Z.of_nat (length b) -> exists b',
  decode_chars (map base58_char ds ++ rest) b = decode_chars rest b' /\ length b' = length b /\ Forall (digit_of 256) b' /\
  be_val 256 b' = be_val 256 b * 58 ^ Z.of_nat (length ds) + be_val 58 ds.
Proof.
  induction ds as [|d ds IH]; intros b rest Hds Hb Hv.
  - exists b. change (be_val 58 []) with 0. cbn [length map app]. split; [reflexivity|]. repeat split; [exact Hb|cbn; lia].
  - apply Forall_cons in Hds as [Hd Hds]. destruct (base58_char_spec d Hd) as (E1 & E2 & _).
    cbn [length map app] in *. rewrite be_val_cons, Nat2Z.inj_succ, Z.pow_succ_r in * by lia.
    pose proof (be_val_range 58 ltac:(lia) ds Hds) as R. pose proof (be_val_range 256 ltac:(lia) b Hb) as Rb.
    destruct (mul_add_fits 256 ltac:(lia) 58 b d Hb ltac:(lia) (proj1 Hd)) as (b1 & M & L1 & F1 & V1).
    { unfold digit_of in Hd. pose proof (Z.pow_pos_nonneg 58 (Z.of_nat (length ds))). nia. }
    destruct (IH b1 rest Hds F1) as (b' & D & L & F & V); [rewrite V1, L1; lia|].
    exists b'. cbn [decode_chars]. rewrite E1, E2, M. cbn [Z.eqb]. repeat split; [exact D|congruence|exact F|rewrite V, V1; lia].
Qed.

Lemma encode_bytes_value p : forall b, Forall (digit_of 58) b ->
  be_val 58 b * 256 ^ Z.of_nat (length p) + be_val 256 (values p) < 58 ^ Z.of_nat (length b) -> exists b',
  encode_bytes p b = Some b' /\ length b' = length b /\ Forall (digit_of 58) b' /\
  be_val 58 b' = be_val 58 b * 256 ^ Z.of_nat (length p) + be_val 256 (values p).
Proof.
  induction p as [|c p IH]; intros b Hb Hv.
  - exists b. change (be_val 256 (values [])) with 0. do 2 (split; [reflexivity|]). split; [exact Hb|cbn; lia].
  - cbn [length values map encode_bytes] in *. rewrite be_val_cons, Nat2Z.inj_succ, Z.pow_succ_r in * by lia.
    pose proof (byte.unsigned_range c) as Hc. fold (values p) in *. rewrite (length_map _ p : length (values p) = _) in *.
    pose proof (be_val_range 256 ltac:(lia) (values p) (values_digits p)) as R.
    destruct (mul_add_fits 58 ltac:(lia) 256 b (byte.unsigned c) Hb ltac:(lia) (proj1 Hc)) as (b1 & M & L1 & F1 & V1).
    { pose proof (Z.pow_pos_nonneg 256 (Z.of_nat (length p))). pose proof (be_val_range 58 ltac:(lia) b Hb). nia. }
    destruct (IH b1 F1) as (b' & D & L & F & V); [rewrite V1, L1; lia|].
    exists b'. rewrite M. cbn [Z.eqb]. repeat split; [exact D|congruence|exact F|rewrite V, V1; lia].
Qed.

(** What stops the loop over the characters. *)
Lemma chars_split psz : exists ds rest, psz = map base58_char ds ++ rest /\ Forall (digit_of 58) ds /\
  match rest with c :: _ => isspace c = true \/ (isspace c = false /\ strchr pszBase58 c = None) | [] => True end.
Proof.
  induction psz as [|c psz (ds & rest & E & F & S)]; [exists [], []; repeat split; constructor|].
  destruct (isspace c) eqn:Es; [exists [], (c :: psz); repeat split; [constructor|now left]|].
  destruct (strchr pszBase58 c) as [d|] eqn:Ec; [|exists [], (c :: psz); repeat split; [constructor|now right]].
  destruct (strchr_digit c d Ec) as [Hd <-]. exists (d :: ds), rest. subst psz. repeat split; [now constructor|exact S].
Qed.

(** ** The buffers are long enough *)

Lemma size_fits a b p q n : 1 < a -> 1 < b -> 0 < q -> 0 <= p -> 0 <= n -> a ^ q <= b ^ p -> a ^ n < b ^ (n * p / q + 1).
Proof.
  intros Ha Hb Hq Hp Hn H. pose proof (Z.div_mod (n * p) q ltac:(lia)). pose proof (Z.mod_pos_bound (n * p) q Hq).
  apply (base_change a b p q); try assumption; [|nia]. pose proof (Z.div_pos (n * p) q). nia.
Qed.

Lemma decode_size n : 0 <= n -> 58 ^ n < 256 ^ (n * 733 / 1000 + 1).
Proof.
  intro H. apply Z.lt_le_trans with (256 ^ (n * 52 / 71 + 1)); [apply size_fits; lia|].
  apply Z.pow_le_mono_r; [lia|]. Z.to_euclidean_division_equations. lia.
Qed.

Lemma encode_size n : 0 <= n -> 256 ^ n < 58 ^ (n * 138 / 100 + 1).
Proof. intro H. apply size_fits; try lia. Qed.

Lemma repeat_digits base n : 1 < base -> Forall (digit_of base) (repeat 0 n).
Proof. intro H. apply Forall_forall. intros d Hd. apply list_elem_of_In, repeat_spec in Hd. subst d. unfold digit_of. lia. Qed.

(** The bytes or digits of a string without its leading zeros. *)
Lemma EncodeBase58_spec v : Z.of_nat (length v) < 2 ^ 40 -> exists z p ds,
  v = repeat Byte.x00 z ++ p /\ no_lead (values p) /\ Forall (digit_of 58) ds /\ no_lead ds /\
  be_val 58 ds = be_val 256 (values p) /\
  Z.of_nat (z + length ds) <= Z.of_nat (length v) * 138 / 100 + 1 /\ EncodeBase58 v = Some (repeat Byte.x31 z ++ map base58_char ds).
Proof.
  intro Hv. unfold EncodeBase58. pose proof (skip_count_spec Byte.x00 v) as S. destruct (skip_count Byte.x00 v) as [z p].
  destruct S as [-> S]. rewrite length_app, repeat_length in Hv.
  assert (i64 (i64 (Z.of_nat (length p) * 138) ÷ 100 + 1) = Z.of_nat (length p) * 138 / 100 + 1) as ->.
  { rewrite (i64_small (_ * 138)) by (unfold in_i64; lia). rewrite Z.quot_div_nonneg by lia. apply i64_small. unfold in_i64. Z.to_euclidean_division_equations. lia. }
  set (n := Z.to_nat _). assert (Hn : Z.of_nat n = Z.of_nat (length p) * 138 / 100 + 1) by (subst n; rewrite Z2Nat.id; [reflexivity|Z.to_euclidean_division_equations; lia]).
  pose proof (be_val_range 256 ltac:(lia) (values p) (values_digits p)) as R. unfold values in R at 3. rewrite length_map in R.
  destruct (encode_bytes_value p (repeat 0 n) (repeat_digits 58 n ltac:(lia))) as (b & E & Lb & F & V).
  { rewrite (be_val_zeroes 58), repeat_length, Hn by lia. pose proof (encode_size (Z.of_nat (length p)) ltac:(lia)). lia. }
  rewrite (be_val_zeroes 58) in V by lia. exists z, p, (skip_zeroes b). rewrite E. cbn [mbind option_bind]. repeat split.
  - destruct p as [|c p]; [exact I|]. cbn. intro H0. enough (Byte.eqb c Byte.x00 = true) by congruence.
    apply byte_eqb_spec. rewrite <- (byte.of_Z_unsigned c), H0. reflexivity.
  - now apply skip_zeroes_Forall.
  - apply skip_zeroes_lead.
  - rewrite (skip_zeroes_val 58) by lia. lia.
  - rewrite repeat_length in Lb. pose proof (skip_zeroes_length b). rewrite length_app, repeat_length.
    transitivity (Z.of_nat z + (Z.of_nat (length p) * 138 / 100 + 1)); [lia|]. Z.to_euclidean_division_equations. lia.
Qed.

Lemma base58_lead ds rest : Forall (digit_of 58) ds -> no_lead ds -> match rest with c :: _ => Byte.eqb c Byte.x31 = false | [] => True end ->
  match map base58_char ds ++ rest with c :: _ => Byte.eqb c Byte.x31 = false | [] => True end.
Proof.
  intros F N H. destruct ds as [|d ds]; [exact H|]. cbn. apply Forall_cons in F as [Hd _]. now apply base58_char_spec.
Qed.

(** The loops of [DecodeBase58] after the spaces and the ones. *)
Lemma decode_digits ds rest : Forall (digit_of 58) ds -> Z.of_nat (length ds + length rest) < 2 ^ 40 -> exists b,
  decode_chars (map base58_char ds ++ rest) (repeat 0 (Z.to_nat (u64 (u64 (Z.of_nat (length (map base58_char ds ++ rest)) * 733) / 1000 + 1)))) =
    decode_chars rest b /\
  Forall (digit_of 256) b /\ be_val 256 b = be_val 58 ds /\ Z.of_nat (length b) <= Z.of_nat (length ds + length rest) * 733 / 1000 + 1.
Proof.
  intros F Hl. rewrite length_app, length_map. set (l := (length ds + length rest)%nat) in *.
  rewrite (u64_small (_ * 733)) by (unfold in_u64; lia). rewrite u64_small by (unfold in_u64; Z.to_euclidean_division_equations; lia).
  set (n := Z.to_nat _). assert (Hn : Z.of_nat n = Z.of_nat l * 733 / 1000 + 1) by (subst n; rewrite Z2Nat.id; [reflexivity|Z.to_euclidean_division_equations; lia]).
  destruct (decode_chars_digits ds (repeat 0 n) rest F (repeat_digits 256 n ltac:(lia))) as (b & D & L & Fb & V).
  { rewrite (be_val_zeroes 256), repeat_length, Hn by lia. pose proof (be_val_range 58 ltac:(lia) ds F).
    pose proof (decode_size (Z.of_nat l) ltac:(lia)). pose proof (Z.pow_le_mono_r 58 (Z.of_nat (length ds)) (Z.of_nat l)). lia. }
  exists b. rewrite (be_val_zeroes 256) in V by lia. rewrite repeat_length in L. repeat split; [exact D|exact Fb|lia|lia].
Qed.

Definition not_space (s : list byte) : Prop := match s with c :: _ => isspace c = false | [] => True end.
Definition chars_stop (s : list byte) : Prop :=
  match s with c :: _ => isspace c = true \/ (isspace c = false /\ strchr pszBase58 c = None) | [] => True end.

Lemma chars_stop_one s : chars_stop s -> match s with c :: _ => Byte.eqb c Byte.x31 = false | [] => True end.
Proof.
  unfold chars_stop. destruct s as [|c s]; [done|]. intro H. apply not_true_is_false. rewrite byte_eqb_spec. intros ->.
  destruct H as [H|[_ H]]; discriminate H.
Qed.

Lemma decode_chars_stop rest b : chars_stop rest -> decode_chars rest b =
  Some (match rest with c :: _ => if isspace c then Some (b, rest) else None | [] => Some (b, []) end).
Proof. unfold chars_stop. destruct rest as [|c rest]; [reflexivity|]. cbn [decode_chars]. now intros [-> | [-> ->]]. Qed.

(** [DecodeBase58] on a string in the form its loops give it. *)
Lemma decode_form lead z ds rest vch : spaces lead -> Forall (digit_of 58) ds -> no_lead ds -> chars_stop rest ->
  not_space (repeat Byte.x31 z ++ map base58_char ds ++ rest) -> Z.of_nat (length ds + length rest) < 2 ^ 40 -> exists bs,
  Forall (digit_of 256) bs /\ no_lead bs /\ be_val 256 bs = be_val 58 ds /\
  Z.of_nat (length bs) <= Z.of_nat (length ds + length rest) * 733 / 1000 + 1 /\
  DecodeBase58_psz (lead ++ repeat Byte.x31 z ++ map base58_char ds ++ rest) vch =
    Some (match skip_spaces rest with [] => (true, repeat Byte.x00 z ++ map byte.of_Z bs) | _ => (false, vch) end).
Proof.
  intros Hl F N S X L. destruct (decode_digits ds rest F L) as (b & D & Fb & V & Lb).
  exists (skip_zeroes b). split; [now apply skip_zeroes_Forall|]. split; [apply skip_zeroes_lead|].
  split; [rewrite (skip_zeroes_val 256) by lia; exact V|].
  split; [pose proof (skip_zeroes_length b); lia|].
  unfold DecodeBase58_psz. rewrite (skip_spaces_app lead) by exact Hl. rewrite (skip_spaces_id (repeat _ z ++ _)) by exact X.
  rewrite skip_count_app by now apply base58_lead, chars_stop_one. cbv zeta. rewrite D, decode_chars_stop by exact S.
  destruct rest as [|c rest]; [reflexivity|]. cbn [skip_spaces mbind option_bind]. destruct (isspace c) eqn:Ec; [|reflexivity].
  cbn [skip_spaces]. rewrite Ec. now destruct (skip_spaces rest).
Qed.

(** Every string has that form. *)
Lemma string_form psz : exists lead z ds rest, psz = lead ++ repeat Byte.x31 z ++ map base58_char ds ++ rest /\
  spaces lead /\ Forall (digit_of 58) ds /\ no_lead ds /\ chars_stop rest /\ not_space (repeat Byte.x31 z ++ map base58_char ds ++ rest).
Proof.
  destruct (skip_spaces_split psz) as (lead & Hl & E & X). pose proof (skip_count_spec Byte.x31 (skip_spaces psz)) as C.
  destruct (skip_count Byte.x31 (skip_spaces psz)) as [z y]. destruct C as [Ex C].
  destruct (chars_split y) as (ds & rest & -> & F & S). rewrite Ex in E, X.
  exists lead, z, ds, rest. repeat split; try assumption. destruct ds as [|d ds]; [exact I|]. cbn in C |- *. intros ->. discriminate.
Qed.

Lemma no_lead_bytes z p z' p' : no_lead (values p) -> no_lead (values p') -> repeat Byte.x00 z ++ p = repeat Byte.x00 z' ++ p' -> z = z' /\ p = p'.
Proof.
  intros N N' E.
  assert (H : forall q, no_lead (values q) -> match q with b :: _ => Byte.eqb b Byte.x00 = false | [] => True end).
  { intros [|b q] Hq; [exact I|]. destruct (Byte.eqb b Byte.x00) eqn:Eb; [|reflexivity]. apply byte_eqb_spec in Eb. subst b. now destruct Hq. }
  apply (f_equal (skip_count Byte.x00)) in E. rewrite !skip_count_app in E by now apply H. now injection E as -> ->.
Qed.

(** What [DecodeBase58] accepts. *)
Lemma decode_accepts psz vch v : Z.of_nat (length psz) < 2 ^ 31 -> DecodeBase58_psz psz vch = Some (true, v) ->
  exists lead s trail, psz = lead ++ s ++ trail /\ spaces lead /\ spaces trail /\ EncodeBase58 v = Some s.
Proof.
  intros L H. destruct (string_form psz) as (lead & z & ds & rest & -> & Hl & F & N & S & X).
  rewrite !length_app, repeat_length, length_map in L.
  destruct (decode_form lead z ds rest vch Hl F N S X ltac:(lia)) as (bs & Fb & Nb & V & Lb & E). rewrite E in H.
  destruct (skip_spaces rest) as [|] eqn:Er; [|discriminate]. injection H as <-.
  exists lead, (repeat Byte.x31 z ++ map base58_char ds), rest. rewrite <- app_assoc. split; [reflexivity|]. split; [exact Hl|].
  split; [now apply skip_spaces_nil|]. destruct (EncodeBase58_spec (repeat Byte.x00 z ++ map byte.of_Z bs)) as (z' & p & ds' & Ev & Np & F' & N' & V' & _ & ->).
  { rewrite length_app, repeat_length, length_map. Z.to_euclidean_division_equations. lia. }
  apply no_lead_bytes in Ev as [<- <-]; [|now rewrite values_of_Z|exact Np]. rewrite values_of_Z in V' by exact Fb.
  do 3 f_equal. apply (digits_unique 58); try assumption; [lia|congruence].
Qed.

(** Decoding an encoding among spaces. *)
Lemma decode_encoded v s lead trail vch : Z.of_nat (length v) < 2 ^ 31 -> EncodeBase58 v = Some s -> spaces lead -> spaces trail ->
  Z.of_nat (length (lead ++ s ++ trail)) < 2 ^ 31 -> DecodeBase58_psz (lead ++ s ++ trail) vch = Some (true, v).
Proof.
  intros Lv E Hl Ht L. destruct (EncodeBase58_spec v) as (z & p & ds & -> & Np & F & N & V & _ & E'); [lia|].
  rewrite E' in E. injection E as <-. rewrite !length_app, repeat_length, length_map in L. rewrite <- app_assoc.
  assert (G : forall lead' rest, spaces lead' -> spaces rest -> not_space (repeat Byte.x31 z ++ map base58_char ds ++ rest) ->
    Z.of_nat (length rest) < 2 ^ 31 -> DecodeBase58_psz (lead' ++ repeat Byte.x31 z ++ map base58_char ds ++ rest) vch = Some (true, repeat Byte.x00 z ++ p)).
  { intros lead' rest Hl' Hr X Lr. destruct (decode_form lead' z ds rest vch Hl' F N) as (bs & Fb & Nb & Vb & _ & ->); [|exact X|lia|].
    - destruct rest; [exact I|]. left. now apply Forall_cons in Hr as [Hr _].
    - rewrite (proj2 (skip_spaces_nil rest) Hr). do 3 f_equal.
      rewrite <- (of_Z_values p). f_equal. apply (digits_unique 256); try assumption; [lia|apply values_digits|congruence]. }
  destruct z as [|z], ds as [|d ds].
  - cbn [repeat map app]. specialize (G (lead ++ trail) []). cbn [repeat map app] in G. rewrite app_nil_r in G.
    apply G; [now apply Forall_app|constructor|exact I|reflexivity].
  - apply G; try assumption; [|lia]. apply Forall_cons in F as [Hd _]. now apply base58_char_spec.
  - apply G; try assumption; [reflexivity|lia].
  - apply G; try assumption; [reflexivity|lia].
Qed.

(** ** The checksummed form *)

Lemma checksum_length v : length (checksum v) = 4%nat.
Proof. unfold checksum. rewrite length_take, uint_bytes_length. unfold Hash. rewrite bytes_uint_length. reflexivity. Qed.

Lemma decode_total psz vch : Z.of_nat (length psz) < 2 ^ 31 -> exists r, DecodeBase58_psz psz vch = Some r.
Proof.
  intro L. destruct (string_form psz) as (lead & z & ds & rest & -> & Hl & F & N & S & X).
  rewrite !length_app, repeat_length, length_map in L.
  destruct (decode_form lead z ds rest vch Hl F N S X ltac:(lia)) as (bs & _ & _ & _ & _ & E). eauto.
Qed.

Lemma encode_total v : Z.of_nat (length v) < 2 ^ 40 -> exists s, EncodeBase58 v = Some s.
Proof. intro L. destruct (EncodeBase58_spec v L) as (z & p & ds & _ & _ & _ & _ & _ & _ & E). eauto. Qed.

Lemma encode_length v s : Z.of_nat (length v) < 2 ^ 40 -> EncodeBase58 v = Some s -> Z.of_nat (length s) <= Z.of_nat (length v) * 138 / 100 + 1.
Proof.
  intros L E. destruct (EncodeBase58_spec v L) as (z & p & ds & _ & _ & _ & _ & _ & Ls & E'). rewrite E' in E. injection E as <-.
  now rewrite length_app, repeat_length, length_map.
Qed.

(** The characters of an encoding are visible. *)
Lemma encode_chars v s : Z.of_nat (length v) < 2 ^ 40 -> EncodeBase58 v = Some s ->
  Forall (fun c => isspace c = false /\ byte.unsigned c <> 0) s.
Proof.
  intros L E. destruct (EncodeBase58_spec v L) as (z & p & ds & _ & _ & F & _ & _ & _ & E'). rewrite E' in E. injection E as <-.
  apply Forall_app. split.
  - clear. induction z as [|z IH]; cbn; constructor; [done|exact IH].
  - apply Forall_map. apply (Forall_impl _ _ _ F). intros d Hd. now destruct (base58_char_spec d Hd) as (_ & H1 & H2 & _).
Qed.

Lemma check_total psz vch : Z.of_nat (length psz) < 2 ^ 31 -> exists r, DecodeBase58Check_psz psz vch = Some r.
Proof.
  intro L. unfold DecodeBase58Check_psz. destruct (decode_total psz vch L) as [[ok v] ->]. cbn [mbind option_bind].
  destruct (_ || _); [eauto|]. destruct (negb _); eauto.
Qed.

Lemma check_accepts psz vch v : Z.of_nat (length psz) < 2 ^ 31 -> DecodeBase58Check_psz psz vch = Some (true, v) ->
  exists lead s trail, psz = lead ++ s ++ trail /\ spaces lead /\ spaces trail /\ EncodeBase58Check v = Some s.
Proof.
  intros L. unfold DecodeBase58Check_psz. destruct (DecodeBase58_psz psz vch) as [[ok w]|] eqn:E; [|discriminate].
  cbn [mbind option_bind]. destruct ok; [|discriminate]. destruct (length w <? 4)%nat eqn:Lw; [discriminate|].
  cbn [negb orb]. destruct (bool_decide _) eqn:C; [|discriminate]. intros [= <-]. apply bool_decide_eq_true in C.
  destruct (decode_accepts psz vch w L E) as (lead & s & trail & -> & H1 & H2 & H3). exists lead, s, trail.
  repeat split; try assumption. unfold EncodeBase58Check. now rewrite C, take_drop.
Qed.

Lemma check_encoded v s lead trail vch : Z.of_nat (length v) < 2 ^ 30 -> EncodeBase58Check v = Some s -> spaces lead -> spaces trail ->
  Z.of_nat (length (lead ++ s ++ trail)) < 2 ^ 31 -> DecodeBase58Check_psz (lead ++ s ++ trail) vch = Some (true, v).
Proof.
  intros Lv E Hl Ht L. unfold DecodeBase58Check_psz. pose proof (checksum_length v) as C.
  rewrite (decode_encoded (v ++ checksum v) s) by first [assumption|rewrite length_app; lia].
  cbn [mbind option_bind negb orb]. rewrite length_app, C, (proj2 (Nat.ltb_ge _ 4)) by lia.
  replace (length v + 4 - 4)%nat with (length v) by lia. rewrite take_app_length, drop_app_length, bool_decide_eq_true_2 by reflexivity.
  reflexivity.
Qed.

(** ** Strings and data *)

Definition visible (s : list byte) : Prop := Forall (fun c => isspace c = false /\ byte.unsigned c <> 0) s.

Lemma spaces_c_str s : spaces s -> Forall (fun c => byte.unsigned c <> 0) s.
Proof. intro H. apply (Forall_impl _ _ _ H). intros c Hc E. unfold isspace in Hc. rewrite E in Hc. discriminate. Qed.

Lemma c_str_length s : (length (c_str s) <= length s)%nat.
Proof. induction s as [|c s IH]; cbn; [lia|]. destruct (byte.unsigned c =? 0); cbn; lia. Qed.

Lemma SetString_encoded (d : CBase58Data) s lead trail : length (vchVersion d) = 1%nat -> Z.of_nat (length (vchData d)) < 2 ^ 10 ->
  b58_ToString d = Some s -> spaces lead -> spaces trail -> Z.of_nat (length (lead ++ s ++ trail)) < 2 ^ 31 ->
  SetString (lead ++ s ++ trail) = Some (true, d).
Proof.
  intros L1 L2 E Hl Ht L. unfold SetString, SetString_psz.
  assert (V : visible s). { apply (encode_chars _ _) in E; [exact E|]. rewrite !length_app, L1, checksum_length. lia. }
  rewrite c_str_id.
  - rewrite (check_encoded (vchVersion d ++ vchData d) s) by first [assumption|rewrite length_app, L1; lia].
    cbn [mbind option_bind negb orb]. rewrite length_app, L1, (proj2 (Z.ltb_ge _ 1)) by lia. change (Z.to_nat 1) with 1%nat.
    rewrite <- L1, take_app_length, drop_app_length. now destruct d.
  - rewrite !Forall_app. repeat split; try now apply spaces_c_str. apply (Forall_impl _ _ _ V). tauto.
Qed.

Lemma ToString_written (d : CBase58Data) lead trail : length (vchVersion d) = 1%nat -> Z.of_nat (length (vchData d)) < 2 ^ 10 ->
  spaces lead -> spaces trail -> Z.of_nat (length lead + length trail) < 2 ^ 30 ->
  exists s, b58_ToString d = Some s /\ visible s /\ SetString (lead ++ s ++ trail) = Some (true, d).
Proof.
  intros L1 L2 Hl Ht L. set (w := (vchVersion d ++ vchData d) ++ checksum (vchVersion d ++ vchData d)).
  assert (Lw : Z.of_nat (length w) < 2 ^ 11) by (subst w; rewrite !length_app, L1, checksum_length; lia).
  destruct (encode_total w ltac:(lia)) as [s E]. exists s. pose proof (encode_length w s ltac:(lia) E).
  split; [exact E|]. split; [apply (encode_chars w s); [lia|exact E]|].
  apply SetString_encoded; try assumption. rewrite !length_app. Z.to_euclidean_division_equations. lia.
Qed.

Lemma SetString_accepts str (d : CBase58Data) : Z.of_nat (length str) < 2 ^ 31 -> SetString str = Some (true, d) ->
  length (vchVersion d) = 1%nat /\ exists lead s trail, c_str str = lead ++ s ++ trail /\ spaces lead /\ spaces trail /\ b58_ToString d = Some s.
Proof.
  intros L. unfold SetString, SetString_psz. pose proof (c_str_length str).
  destruct (DecodeBase58Check_psz (c_str str) []) as [[ok w]|] eqn:E; [|discriminate]. cbn [mbind option_bind].
  destruct ok; [|discriminate]. destruct (Z.of_nat (length w) <? 1) eqn:Lw; [discriminate|]. apply Z.ltb_ge in Lw.
  intros [= <-]. change (Z.to_nat 1) with 1%nat. cbn [vchVersion]. split; [rewrite length_take; lia|].
  destruct (check_accepts (c_str str) [] w ltac:(lia) E) as (lead & s & trail & H1 & H2 & H3 & H4).
  exists lead, s, trail. repeat split; try assumption. unfold b58_ToString. cbn [vchVersion vchData]. now rewrite take_drop.
Qed.

Lemma SetString_total str : Z.of_nat (length str) < 2 ^ 31 -> exists r, SetString str = Some r.
Proof.
  intro L. pose proof (c_str_length str). unfold SetString, SetString_psz. destruct (check_total (c_str str) []) as [[ok w] ->]; [lia|].
  cbn [mbind option_bind]. destruct (_ || _); eauto.
Qed.

(** ** Addresses *)

Definition networks : list CChainParams := [CMainParams; CTestNetParams; CRegTestParams].

Lemma prefixes params : In params networks ->
  Base58Prefix params TPUBKEY_ADDRESS <> Base58Prefix params TSCRIPT_ADDRESS /\
  Base58Prefix params TSECRET_KEY <> Base58Prefix params TPUBKEY_ADDRESS /\
  Base58Prefix params TSECRET_KEY <> Base58Prefix params TSCRIPT_ADDRESS.
Proof. intros [<-|[<-|[<-|[]]]]; repeat split; intro H; vm_compute in H; discriminate H. Qed.

Section address_facts.
Context (params : CChainParams) (Hp : In params networks).

Lemma is_version_prefix t t' data : is_version params (mk_base58 (Base58Prefix params t) data) t' = bool_decide (Base58Prefix params t = Base58Prefix params t').
Proof. reflexivity. Qed.

Lemma address_data dest : dest_ok dest -> let d := CBitcoinAddress_of params dest in
  length (vchVersion d) = 1%nat /\ length (vchData d) = 20%nat /\ addr_IsValid params d = true /\ addr_Get params d = dest.
Proof.
  destruct (prefixes params Hp) as (D & _). intro W. destruct dest as [|h|h]; [destruct W|..]; cbn in W;
    assert (L : length (uint_bytes h) = 20%nat) by (rewrite uint_bytes_length, (proj1 W); reflexivity);
    unfold CBitcoinAddress_of, addr_Set, addr_Get, addr_IsValid, SetData; cbv zeta; cbn [snd vchData vchVersion]; rewrite !is_version_prefix, L;
    rewrite (firstn_all2 (n := 20) (uint_bytes h)) by lia; rewrite bytes_uint_bytes by exact W.
  - rewrite bool_decide_eq_true_2 by reflexivity. repeat split; reflexivity.
  - rewrite bool_decide_eq_false_2 by congruence. rewrite (bool_decide_eq_true_2 (Base58Prefix params TSCRIPT_ADDRESS = _)) by reflexivity.
    repeat split; reflexivity.
Qed.

Lemma address_from_data d : addr_IsValid params d = true -> dest_ok (addr_Get params d) /\ CBitcoinAddress_of params (addr_Get params d) = d.
Proof.
  intro H. unfold addr_Get. rewrite H. cbn [negb]. unfold addr_IsValid in H. apply andb_true_iff in H as [L V]. apply Nat.eqb_eq in L.
  destruct d as [ver data]. cbn [vchData] in *. unfold is_version in *. cbn [vchVersion] in *.
  assert (T : take 20 data = data) by (apply firstn_all2; lia). rewrite T.
  assert (W : wf 5 (bytes_uint 5 data)) by (apply bytes_uint_wf; lia).
  destruct (bool_decide (ver = Base58Prefix params TPUBKEY_ADDRESS)) eqn:E1; [|destruct (bool_decide (ver = Base58Prefix params TSCRIPT_ADDRESS)) eqn:E2];
    [| |discriminate]; (split; [exact W|]); cbn [CBitcoinAddress_of addr_Set snd]; unfold SetData; rewrite uint_bytes_uint by lia;
    f_equal; symmetry; eapply bool_decide_eq_true_1; eassumption.
Qed.
End address_facts.

(** ** Private keys *)

Definition key_ok (k : CKey) : Prop :=
  fValid k = true /\ length (key_vch k) = 32%nat /\ ecc_Check (map byte.unsigned (key_vch k)) = true.

Lemma CKey_Set_ok p c : CKey_Set p c = mk_key false false [] \/ key_ok (CKey_Set p c).
Proof.
  unfold CKey_Set. destruct (length p =? 32)%nat eqn:L; [|now left]. destruct (ecc_Check _) eqn:E; [|now left].
  right. apply Nat.eqb_eq in L. repeat split; [exact L|exact E].
Qed.

Lemma secret_data params k : key_ok k -> exists d, SetKey params k = Some d /\ length (vchVersion d) = 1%nat /\
  Z.of_nat (length (vchData d)) < 2 ^ 10 /\ secret_IsValid params d = true /\ GetKey d = Some k.
Proof.
  intros (V & L & E). destruct k as [v c p]. cbn in V, L, E. subst v. unfold SetKey. cbn [fValid negb fCompressed key_vch].
  eexists. split; [reflexivity|]. destruct c; cbn [vchVersion vchData SetData]; (split; [reflexivity|]);
    rewrite ?length_app, L; cbn [length Nat.add]; (split; [reflexivity|]); unfold secret_IsValid, GetKey, is_version;
    cbn [vchVersion vchData SetData].
  - rewrite length_app, L, app_nth2, L, bool_decide_eq_true_2 by (try reflexivity; lia). cbn [length Nat.add].
    rewrite take_app_le, firstn_all2 by lia. unfold CKey_Set. now rewrite L, E.
  - rewrite L, bool_decide_eq_true_2 by reflexivity. rewrite firstn_all2 by lia. unfold CKey_Set. now rewrite L, E.
Qed.

(** C35: Base 58 is a bijection between byte vectors and the strings it produces.  For every
    string and every vector of fewer than 2^31 bytes the assertions of the two loops hold, so
    the fixed buffers are long enough; every vector has an encoding, made of visible
    characters; and [DecodeBase58] returns a vector exactly for the encoding of that vector
    with any spaces around it, leaving its output alone when it fails. *)
Theorem base58_bijection (psz vch v : list byte) : Z.of_nat (length psz) < 2 ^ 31 -> Z.of_nat (length v) < 2 ^ 31 ->
  (exists s, EncodeBase58 v = Some s /\ visible s) /\
  (exists ok w, DecodeBase58_psz psz vch = Some (ok, w) /\ (ok = false -> w = vch)) /\
  (DecodeBase58_psz psz vch = Some (true, v) <->
   exists lead s trail, psz = lead ++ s ++ trail /\ spaces lead /\ spaces trail /\ EncodeBase58 v = Some s).
Proof.
  intros L Lv. split; [|split; [|split]].
  - destruct (encode_total v ltac:(lia)) as [s E]. exists s. split; [exact E|]. apply (encode_chars v s); [lia|exact E].
  - destruct (decode_total psz vch L) as [[ok w] E]. exists ok, w. split; [exact E|]. intros ->.
    unfold DecodeBase58_psz in E. destruct (skip_count _ _). destruct (decode_chars _ _) as [[[b rest]|]|]; cbn [mbind option_bind] in E;
      [destruct (skip_spaces rest)|..]; congruence.
  - now apply decode_accepts.
  - intros (lead & s & trail & -> & H1 & H2 & H3). now apply decode_encoded.
Qed.

Lemma base58_bijection_witness :
  EncodeBase58 [Byte.x00; Byte.x61] = Some (text "12g") /\
  DecodeBase58_psz (text " 12g ") [] = Some (true, [Byte.x00; Byte.x61]).
Proof.
  split; [vm_compute; reflexivity|].
  apply (base58_bijection (text " 12g ") [] [Byte.x00; Byte.x61]); [vm_compute; reflexivity..|].
  exists [Byte.x20], (text "12g"), [Byte.x20]. split; [reflexivity|].
  do 2 (split; [constructor; [reflexivity|constructor]|]). vm_compute. reflexivity.
Defined.

(** C36: On each network addresses and exported keys are read back as written.  A key hash or
    script hash gives an address of visible characters; read with any spaces around it, the
    address is valid and gives that hash; what [SetString] reads as a valid address is, but
    for spaces, the address of the destination it gives, so that a destination has one
    address.  A private key is restored, with its compression flag, from the string that
    exports it, and no string is both a valid key and a valid address. *)
Theorem addresses_roundtrip (params : CChainParams) (str : list byte) (d : CBase58Data) (dest : CTxDestination) (k : CKey) (lead trail : list byte) :
  In params networks -> Z.of_nat (length str) < 2 ^ 31 -> spaces lead -> spaces trail -> Z.of_nat (length lead + length trail) < 2 ^ 30 ->
  (dest_ok dest -> exists s, b58_ToString (CBitcoinAddress_of params dest) = Some s /\ visible s /\
     SetString (lead ++ s ++ trail) = Some (true, CBitcoinAddress_of params dest) /\
     addr_IsValid params (CBitcoinAddress_of params dest) = true /\ addr_Get params (CBitcoinAddress_of params dest) = dest) /\
  (SetString str = Some (true, d) -> addr_IsValid params d = true ->
     dest_ok (addr_Get params d) /\ exists l s t, c_str str = l ++ s ++ t /\ spaces l /\ spaces t /\
     b58_ToString (CBitcoinAddress_of params (addr_Get params d)) = Some s) /\
  (key_ok k -> exists dk s, SetKey params k = Some dk /\ b58_ToString dk = Some s /\
     secret_SetString params (lead ++ s ++ trail) = Some (true, dk) /\ GetKey dk = Some k) /\
  addr_IsValid params d && secret_IsValid params d = false.
Proof.
  intros Hp L Hl Ht Lt. split; [|split; [|split]].
  - intro W. destruct (address_data params Hp dest W) as (L1 & L2 & V & G). set (a := CBitcoinAddress_of params dest) in *.
    destruct (ToString_written a lead trail) as (s & E & Vs & S); try assumption; [lia|]. now exists s.
  - intros E V. destruct (address_from_data params d V) as [W G]. split; [exact W|]. rewrite G. now apply SetString_accepts.
  - intro K. destruct (secret_data params k K) as (dk & E & L1 & L2 & V & G).
    destruct (ToString_written dk lead trail) as (s & Es & _ & S); try assumption. exists dk, s. repeat split; try assumption.
    unfold secret_SetString. rewrite S. cbn [mbind option_bind]. now rewrite V.
  - destruct (prefixes params Hp) as (_ & D1 & D2). unfold addr_IsValid, secret_IsValid, is_version.
    destruct (bool_decide (vchVersion d = Base58Prefix params TSECRET_KEY)) eqn:E; [|now rewrite !andb_false_r].
    apply bool_decide_eq_true in E. rewrite E, !bool_decide_eq_false_2 by assumption. now rewrite andb_false_r.
Qed.

Lemma addresses_roundtrip_witness :
  b58_ToString (CBitcoinAddress_of CMainParams (CKeyID (base_uint_zero 5))) = Some (text "1111111111111111111114oLvT2") /\
  SetString (text "1111111111111111111114oLvT2 ") = Some (true, CBitcoinAddress_of CMainParams (CKeyID (base_uint_zero 5))).
Proof.
  assert (E : b58_ToString (CBitcoinAddress_of CMainParams (CKeyID (base_uint_zero 5))) = Some (text "1111111111111111111114oLvT2"))
    by (vm_compute; reflexivity).
  split; [exact E|].
  destruct (addresses_roundtrip CMainParams [] CBase58Data_new (CKeyID (base_uint_zero 5)) (mk_key false false []) [] [Byte.x20])
    as ((s & E' & _ & S & _) & _).
  - now left.
  - reflexivity.
  - constructor.
  - constructor; [reflexivity|constructor].
  - reflexivity.
  - exact (wf_zero 5).
  - rewrite E in E'. injection E' as <-. exact S.
Defined.
