(* ===== verification/Modifier.v ===== *)
(** * Stake modifiers ([kernel.h], [kernel.cpp])

    The modifier of a block on top of an entry of the block index: the first version, which
    collects one bit from each of up to 64 selected blocks, the second, which hashes the
    kernel into the modifier before, and the third, which adds the nonces of ten blocks. *)

From Stdlib Require Import ZArith Lia List Bool.
From stdpp Require Import base option list sorting gmap.
From coqutil Require Import Byte Word.LittleEndianList.
From S2P Require Import Prelude Uint256 Compact Serialize MerkleDamgard Hash Script Tx BlockIndex Chain.

Open Scope Z_scope.
Open Scope btc_scope.

(** ** The intervals *)

Definition MODIFIER_INTERVAL : Z := 60.
Definition MODIFIER_INTERVAL_TESTNET : Z := 60.
Definition MODIFIER_INTERVAL_RATIO : Z := 3.

(** [fTestNet] of [kernel.cpp], which nothing sets. *)
Definition fTestNet : bool := false.
Definition getIntervalVersion (fTestNet : bool) : Z := if fTestNet then MODIFIER_INTERVAL_TESTNET else MODIFIER_INTERVAL.

(** [unsigned int] arithmetic; the result is widened. *)
Definition GetStakeModifierSelectionIntervalSection (nSection : Z) : result ptr_error Z :=
  if negb ((0 <=? nSection) && (nSection <? 64)) then Err AssertionFailed
  else Ret (u32 (getIntervalVersion fTestNet * 63) / u32 (63 + ((63 - nSection) * (MODIFIER_INTERVAL_RATIO - 1)))).

Fixpoint sum_sections (sections : list Z) (nSelectionInterval : Z) : result ptr_error Z :=
  match sections with
  | [] => Ret nSelectionInterval
  | nSection :: sections =>
      let* a := GetStakeModifierSelectionIntervalSection nSection in
      sum_sections sections (nSelectionInterval + a)
  end.
Definition GetStakeModifierSelectionInterval : result ptr_error Z := sum_sections (map Z.of_nat (seq 0 64)) 0.

Section store.
Context (H : heap) (mapBlockIndex : gmap uint256 ptr).

(** ** The last modifier *)

(** [while (pindex && pindex->pprev && !pindex->GeneratedStakeModifier())]: one height down in
    each turn. *)
Fixpoint last_modifier_loop (fuel : nat) (pindex : option ptr) : result ptr_error CBlockIndex :=
  let* b := deref H pindex in
  match pprev b with
  | None => Ret b
  | Some _ =>
      if GeneratedStakeModifier b then Ret b
      else match fuel with O => Err OutOfFuel | S fuel => last_modifier_loop fuel (pprev b) end
  end.

(** The modifier and the time, [None] for [return error(...)]. *)
Definition GetLastStakeModifier (pindex : option ptr) : result ptr_error (option (Z * Z)) :=
  match pindex with
  | None => Ret None
  | Some _ =>
      let* b := deref H pindex in
      let* b := last_modifier_loop (Z.to_nat (nHeight b)) pindex in
      Ret (if negb (GeneratedStakeModifier b) then None else Some (nStakeModifier b, GetBlockTime b))
  end.

(** ** The candidates *)

(** [while (pindex && pindex->GetBlockTime() >= nSelectionIntervalStart)] *)
Fixpoint collect_candidates (fuel : nat) (nSelectionIntervalStart : Z) (pindex : option ptr) : result ptr_error (list (Z * uint256)) :=
  match pindex with
  | None => Ret []
  | Some _ =>
      let* b := deref H pindex in
      if GetBlockTime b >=? nSelectionIntervalStart then
        match fuel with
        | O => Err OutOfFuel
        | S fuel =>
            let* l := collect_candidates fuel nSelectionIntervalStart (pprev b) in
            Ret ((GetBlockTime b, blockHash b) :: l)
        end
      else Ret []
  end.

(** The order of [sort] on the pairs; hashes compare as numbers ([CompareTo_spec]). *)
Definition pair_le (a b : Z * uint256) : Prop := a.1 < b.1 \/ (a.1 = b.1 /\ val a.2 <= val b.2).
#[export] Instance pair_le_dec : RelDecision pair_le.
Proof. intros a b. unfold pair_le. apply _. Defined.

Definition sort_candidates (l : list (Z * uint256)) : list (Z * uint256) := merge_sort pair_le (rev l).

(** ** The selection *)

Definition selection_hash (b : CBlockIndex) (nStakeModifierPrev : Z) : uint256 :=
  let hashSelection := Hash [uint_bytes (blockHash b) ++ ser_writedata 8 nStakeModifierPrev] in
  if IsProofOfStake b then bshr hashSelection 32 else hashSelection.

(** The loop; [best] is [hashBest] and [*pindexSelected] once [fSelected].  The result is
    [None] for [return error(...)]. *)
Fixpoint select_loop (vSortedByTimestamp : list (Z * uint256)) (mapSelectedBlocks : gset uint256) (nSelectionIntervalStop nStakeModifierPrev : Z)
    (best : option (uint256 * ptr)) : result ptr_error (option (option (uint256 * ptr))) :=
  match vSortedByTimestamp with
  | [] => Ret (Some best)
  | (_, hash) :: rest =>
      match mapBlockIndex !! hash with
      | None => Ret None
      | Some p =>
          let* b := deref H (Some p) in
          if (if best is Some _ then true else false) && (GetBlockTime b >? nSelectionIntervalStop) then Ret (Some best)
          else if bool_decide (blockHash b ∈ mapSelectedBlocks) then select_loop rest mapSelectedBlocks nSelectionIntervalStop nStakeModifierPrev best
          else
            let hashSelection := selection_hash b nStakeModifierPrev in
            let best := match best with
                        | Some (hashBest, _) => if CompareTo hashSelection hashBest <? 0 then Some (hashSelection, p) else best
                        | None => Some (hashSelection, p)
                        end in
            select_loop rest mapSelectedBlocks nSelectionIntervalStop nStakeModifierPrev best
      end
  end.

(** [None]: nothing is selected, or an error. *)
Definition SelectBlockFromCandidates (vSortedByTimestamp : list (Z * uint256)) (mapSelectedBlocks : gset uint256)
    (nSelectionIntervalStop nStakeModifierPrev : Z) : result ptr_error (option ptr) :=
  let* r := select_loop vSortedByTimestamp mapSelectedBlocks nSelectionIntervalStop nStakeModifierPrev None in
  Ret (snd <$> mjoin r).

(** ** [ComputeNextStakeModifier] *)

(** The rounds [nRound], ..., [nRound + n - 1]. *)
Fixpoint modifier_rounds (n nRound : nat) (vSortedByTimestamp : list (Z * uint256)) (mapSelectedBlocks : gset uint256)
    (nSelectionIntervalStop nStakeModifier nStakeModifierNew : Z) : result ptr_error (option Z) :=
  match n with
  | O => Ret (Some nStakeModifierNew)
  | S n =>
      let* section := GetStakeModifierSelectionIntervalSection (Z.of_nat nRound) in
      let nSelectionIntervalStop := nSelectionIntervalStop + section in
      let* selected := SelectBlockFromCandidates vSortedByTimestamp mapSelectedBlocks nSelectionIntervalStop nStakeModifier in
      match selected with
      | None => Ret None
      | Some p =>
          let* b := deref H (Some p) in
          let nStakeModifierNew := Z.lor nStakeModifierNew (u64 (Z.shiftl (GetStakeEntropyBit b) (Z.of_nat nRound))) in
          modifier_rounds n (S nRound) vSortedByTimestamp ({[blockHash b]} ∪ mapSelectedBlocks) nSelectionIntervalStop nStakeModifier nStakeModifierNew
      end
  end.

(** [uint64_t("stakemodifier")] is the address of the literal. *)
Context (stakemodifier : Z).

(** What the function returns, [nStakeModifier] and [fGeneratedStakeModifier]. *)
Definition ComputeNextStakeModifier (pindexPrev : option ptr) : result ptr_error (bool * Z * bool) :=
  match pindexPrev with
  | None => Ret (true, 0, true)
  | Some _ =>
      let* prev := deref H pindexPrev in
      if nHeight prev =? 0 then Ret (true, stakemodifier, true)
      else
        let* last := GetLastStakeModifier pindexPrev in
        match last with
        | None => Ret (false, 0, false)
        | Some (nStakeModifier, nModifierTime) =>
            let interval := getIntervalVersion fTestNet in
            if Z.quot nModifierTime interval >=? Z.quot (GetBlockTime prev) interval then Ret (true, nStakeModifier, false)
            else
              let* nSelectionInterval := GetStakeModifierSelectionInterval in
              let nSelectionIntervalStart := Z.quot (GetBlockTime prev) interval * interval - nSelectionInterval in
              let* candidates := collect_candidates (S (Z.to_nat (nHeight prev))) nSelectionIntervalStart pindexPrev in
              let vSortedByTimestamp := sort_candidates candidates in
              let n := Z.to_nat (Z.min 64 (i32 (Z.of_nat (length vSortedByTimestamp)))) in
              let* r := modifier_rounds n 0 vSortedByTimestamp ∅ nSelectionIntervalStart nStakeModifier 0 in
              match r with
              | None => Ret (false, nStakeModifier, false)
              | Some nStakeModifierNew => Ret (true, nStakeModifierNew, true)
              end
        end
  end.

(** ** The second and the third version *)

Definition ComputeStakeModifierV2 (pindexPrev : option ptr) (kernel : uint256) : result ptr_error uint256 :=
  match pindexPrev with
  | None => Ret (base_uint_u64 8 0)
  | Some _ =>
      let* prev := deref H pindexPrev in
      Ret (CHashWriter_GetHash [uint_bytes kernel; uint_bytes (nStakeModifierV2 prev)])
  end.

(** [pindex = pindex->pprev; if (!pindex) return false;], [n] times. *)
Fixpoint back (n : nat) (b : CBlockIndex) : result ptr_error (option CBlockIndex) :=
  match n with
  | O => Ret (Some b)
  | S n => match pprev b with None => Ret None | Some _ => let* c := deref H (pprev b) in back n c end
  end.

Fixpoint add_nonces (a : nat) (pindex : CBlockIndex) (nStakeModifier : Z) : result ptr_error (option Z) :=
  match a with
  | O => Ret (Some nStakeModifier)
  | S a =>
      let* r := back 9 pindex in
      match r with
      | None => Ret None
      | Some pindex =>
          if ih_nNonce (header pindex) >? 4294967295 then Ret None
          else add_nonces a pindex (u64 (nStakeModifier + ih_nNonce (header pindex)))
      end
  end.

(** [None] for [return false]. *)
Definition CalculateStakeModifierV3 (pindexPrev : option ptr) : result ptr_error (option Z) :=
  let* prev := deref H pindexPrev in
  match pprev prev with
  | None => Ret None
  | Some _ =>
      let* pindex := deref H (pprev prev) in
      add_nonces 9 pindex (ih_nNonce (header pindex))
  end.
End store.

(** ** Constants *)

Lemma section_value k : (k < 64)%nat ->
  GetStakeModifierSelectionIntervalSection (Z.of_nat k) = Ret (3780 / (189 - 2 * Z.of_nat k)) /\ 20 <= 3780 / (189 - 2 * Z.of_nat k) <= 60.
Proof.
  intro Hk. assert (C : forall k, (k < 64)%nat -> (match GetStakeModifierSelectionIntervalSection (Z.of_nat k) with
      Ret a => (a =? 3780 / (189 - 2 * Z.of_nat k)) && (20 <=? a) && (a <=? 60) | Err _ => false end) = true).
  { clear. intros k Hk. assert (E : forallb (fun k => match GetStakeModifierSelectionIntervalSection (Z.of_nat k) with
      Ret a => (a =? 3780 / (189 - 2 * Z.of_nat k)) && (20 <=? a) && (a <=? 60) | Err _ => false end) (seq 0 64) = true) by (vm_compute; reflexivity).
    rewrite forallb_forall in E. apply E, in_seq. lia. }
  specialize (C k Hk). destruct (GetStakeModifierSelectionIntervalSection _) as [a|]; [|discriminate].
  rewrite !andb_true_iff, Z.eqb_eq, !Z.leb_le in C. destruct C as [[-> C1] C2]. auto.
Qed.

(** 34 minutes and 47 seconds. *)
Lemma selection_interval : GetStakeModifierSelectionInterval = Ret 2087.
Proof. vm_compute. reflexivity. Qed.

(** ** The walks *)

Section facts.
Context (H : heap) (mapBlockIndex : gmap uint256 ptr) (Hok : index_ok H) (Hm : map_ok H mapBlockIndex).

(** The nearest entry at or below [p] that generated a modifier, or the root. *)
Definition nearest_modifier (p : ptr) (c : CBlockIndex) : Prop :=
  exists k q, ancestor H k p = Some q /\ H !! q = Some c /\ (GeneratedStakeModifier c = true \/ pprev c = None) /\
  forall j r d, (j < k)%nat -> ancestor H j p = Some r -> H !! r = Some d -> GeneratedStakeModifier d = false.

Lemma last_modifier_loop_spec fuel : forall p b, H !! p = Some b -> nHeight b <= Z.of_nat fuel ->
  exists c, last_modifier_loop H fuel (Some p) = Ret c /\ nearest_modifier p c.
Proof using Hok.
  induction fuel as [|fuel IH]; intros p b Hp Hf; destruct (Hok p b Hp) as [Hr Hb]; cbn [last_modifier_loop];
    rewrite (deref_Some H p b Hp); cbn [result_bind]; destruct (pprev b) as [q|] eqn:Eq.
  - destruct Hb as [(c & Hq & E) _]. destruct (Hok q c Hq). lia.
  - exists b. split; [reflexivity|]. exists 0%nat, p. split_and!; [done|done|by right|lia].
  - destruct (GeneratedStakeModifier b) eqn:G.
    + exists b. split; [reflexivity|]. exists 0%nat, p. split_and!; [done|done|by left|lia].
    + destruct Hb as [(c & Hq & E) _]. destruct (IH q c Hq ltac:(lia)) as (d & -> & k & r & A & Hr' & G' & N).
      exists d. split; [reflexivity|]. exists (S k), r. split_and!; [by rewrite (ancestor_step H p b), Eq|done|done|].
      intros [|j] r' d' Hj A' Hr''; [injection A' as <-; congruence|]. rewrite (ancestor_step H p b), Eq in A' by done. by apply (N j r' d'); [lia|..].
  - exists b. split; [reflexivity|]. exists 0%nat, p. split_and!; [done|done|by right|lia].
Qed.

(** A candidate is an ancestor of [p], named by its time and hash. *)
Definition candidate (p : ptr) (c : Z * uint256) (q : ptr) (e : CBlockIndex) : Prop :=
  is_ancestor H q p /\ H !! q = Some e /\ c = (GetBlockTime e, blockHash e).

Lemma candidate_map p c q e : candidate p c q e -> mapBlockIndex !! c.2 = Some q.
Proof using Hm. intros (_ & Hq & ->). apply Hm. by exists e. Qed.

Lemma collect_candidates_spec start fuel : forall p b, H !! p = Some b -> nHeight b < Z.of_nat fuel -> exists l,
  collect_candidates H fuel start (Some p) = Ret l /\ NoDup (map snd l) /\ (length l <= S (Z.to_nat (nHeight b)))%nat /\
  Forall (fun c => exists q e, candidate p c q e /\ nHeight e <= nHeight b /\ start <= GetBlockTime e) l /\
  (start <= GetBlockTime b -> l <> []).
Proof using Hok Hm.
  induction fuel as [|fuel IH]; intros p b Hp Hf; destruct (Hok p b Hp) as [Hr Hb]; [lia|].
  cbn [collect_candidates]. rewrite (deref_Some H p b Hp). cbn [result_bind]. rewrite Z.geb_leb. destruct (Z.leb_spec start (GetBlockTime b)) as [T|T];
    [|exists []; split; [done|]; split; [constructor|]; split; [cbn; lia|]; split; [constructor|lia]].
  assert (Here : exists q e, candidate p (GetBlockTime b, blockHash b) q e /\ nHeight e <= nHeight b /\ start <= GetBlockTime e).
  { exists p, b. split; [split_and!; [by exists 0%nat|done|done]|lia]. }
  destruct (pprev b) as [q|] eqn:Eq.
  - destruct Hb as [(c & Hq & E) _]. destruct (IH q c Hq ltac:(lia)) as (l & -> & N & L & F & _). cbn [result_bind]. eexists. split; [reflexivity|].
    split; [|split; [|split; [|done]]].
    + cbn [map snd]. constructor; [|exact N]. intros Hin. apply list_elem_of_In, in_map_iff in Hin as (x & Ex & Hx).
      rewrite Forall_forall in F. destruct (F x) as (r & e & Cx & Lx & _); [by apply list_elem_of_In|]. pose proof (candidate_map q x r e Cx) as M.
      rewrite Ex in M. cbn in M. assert (M' : mapBlockIndex !! blockHash b = Some p) by (apply Hm; by exists b). cbn in Ex.
      rewrite M' in M. injection M as <-. destruct Cx as (_ & Hx' & _). rewrite Hp in Hx'. injection Hx' as <-. lia.
    + cbn [length]. destruct (Hok q c Hq). lia.
    + constructor; [exact Here|]. apply (Forall_impl _ _ _ F). intros x (r & e & (A & Hr' & ->) & Lx & Tx). exists r, e.
      split; [|lia]. split_and!; [|done|done]. destruct A as [k A]. exists (S k). by rewrite (ancestor_step H p b), Eq.
  - eexists. split; [destruct fuel; reflexivity|]. split; [repeat constructor; apply not_elem_of_nil|]. split; [cbn; lia|].
    split; [by constructor|done].
Qed.

(** ** Sorting *)

#[local] Instance pair_le_total : Total pair_le.
Proof. intros [t a] [u b]. unfold pair_le. cbn [fst snd]. lia. Qed.
#[local] Instance pair_le_trans : Transitive pair_le.
Proof. intros [t a] [u b] [v c]. unfold pair_le. cbn [fst snd]. lia. Qed.

Definition by_time (l : list (Z * uint256)) : Prop := StronglySorted (fun a b => a.1 <= b.1) l.

Lemma sort_candidates_spec l : sort_candidates l ≡ₚ l /\ by_time (sort_candidates l).
Proof using.
  unfold sort_candidates. split; [rewrite merge_sort_Permutation; symmetry; apply Permutation_rev|].
  pose proof (StronglySorted_merge_sort pair_le (rev l)) as S. unfold by_time.
  induction S as [|c l' S IH F]; constructor; [exact IH|]. apply (Forall_impl _ _ _ F). intros d Hd. unfold pair_le in Hd. lia.
Qed.

(** ** One round *)

Definition known (c : Z * uint256) (q : ptr) (e : CBlockIndex) : Prop :=
  mapBlockIndex !! c.2 = Some q /\ H !! q = Some e /\ c = (GetBlockTime e, blockHash e).

Lemma known_functional c q e q' e' : known c q e -> known c q' e' -> q' = q /\ e' = e.
Proof using. intros (M & Hq & _) (M' & Hq' & _). rewrite M in M'. injection M' as <-. rewrite Hq in Hq'. by injection Hq' as <-. Qed.

Lemma selection_hash_wf e m : wf 8 (selection_hash e m).
Proof using.
  unfold selection_hash. assert (W : wf 8 (Hash [uint_bytes (blockHash e) ++ ser_writedata 8 m])) by apply Hash_wf.
  destruct (IsProofOfStake e); [|exact W]. by apply bshr_spec.
Qed.

(** What a round selects of [l]: among the blocks not yet taken and not later than [stop] the
    one with the least selection hash; when all those are later, the first. *)
Definition chosen (l : list (Z * uint256)) (taken : gset uint256) (stop m : Z) (q : ptr) (e : CBlockIndex) : Prop :=
  exists c, c ∈ l /\ c.2 ∉ taken /\ known c q e /\
  (c.1 <= stop -> forall d r f, d ∈ l -> d.2 ∉ taken -> d.1 <= stop -> known d r f -> val (selection_hash e m) <= val (selection_hash f m)) /\
  (stop < c.1 -> forall d, d ∈ l -> d.2 ∉ taken -> c.1 <= d.1).

Lemma select_loop_best l taken stop m : by_time l -> Forall (fun c => exists q e, known c q e) l -> forall hb pb, wf 8 hb -> exists h' p',
  select_loop H mapBlockIndex l taken stop m (Some (hb, pb)) = Ret (Some (Some (h', p'))) /\ val h' <= val hb /\
  ((h' = hb /\ p' = pb) \/ exists c e, c ∈ l /\ c.2 ∉ taken /\ c.1 <= stop /\ known c p' e /\ h' = selection_hash e m) /\
  forall c q e, c ∈ l -> c.2 ∉ taken -> c.1 <= stop -> known c q e -> val h' <= val (selection_hash e m).
Proof using.
  induction 1 as [|c l S IH F]; intros K hb pb W.
  { exists hb, pb. split_and!; [done|lia|by left|]. intros c q e Hc. by apply elem_of_nil in Hc. }
  apply Forall_cons in K as [(q & e & Kc) K]. pose proof Kc as (M & Hq & Ec). destruct c as [t hash]. injection Ec as -> ->. cbn in M.
  cbn [select_loop]. rewrite M, (deref_Some H q e Hq). cbn [result_bind andb]. rewrite Z.gtb_ltb.
  destruct (Z.ltb_spec stop (GetBlockTime e)) as [T|T].
  { exists hb, pb. split_and!; [done|lia|by left|]. intros d r f Hd _ Ld _. exfalso. apply elem_of_cons in Hd as [->|Hd]; [cbn in Ld; lia|].
    rewrite Forall_forall in F. specialize (F d Hd). cbn in F. lia. }
  specialize (IH K). destruct (bool_decide (blockHash e ∈ taken)) eqn:B.
  - apply bool_decide_eq_true in B. destruct (IH hb pb W) as (h' & p' & E & V & O & L). exists h', p'. split_and!; [done|done| |].
    + destruct O as [O|(d & f & Hd & O)]; [by left|]. right. exists d, f. split; [by right|done].
    + intros d r f Hd Nd Ld Kd. apply elem_of_cons in Hd as [->|Hd]; [done|]. by apply (L d r f).
  - apply bool_decide_eq_false in B. rewrite (CompareTo_spec 8) by (done || apply selection_hash_wf).
    destruct (Z.ltb_spec (Z.sgn (val (selection_hash e m) - val hb)) 0) as [C|C].
    + destruct (IH (selection_hash e m) q (selection_hash_wf e m)) as (h' & p' & E & V & O & L). exists h', p'. split_and!; [done|lia| |].
      * right. destruct O as [[-> ->]|(d & f & Hd & O)]; [exists (GetBlockTime e, blockHash e), e; split_and!; try done; by left|].
        exists d, f. split; [by right|done].
      * intros d r f Hd Nd Ld Kd. apply elem_of_cons in Hd as [->|Hd]; [|by apply (L d r f)].
        destruct (known_functional _ _ _ _ _ Kc Kd) as [_ ->]. done.
    + destruct (IH hb pb W) as (h' & p' & E & V & O & L). exists h', p'. split_and!; [done|done| |].
      * destruct O as [O|(d & f & Hd & O)]; [by left|]. right. exists d, f. split; [by right|done].
      * intros d r f Hd Nd Ld Kd. apply elem_of_cons in Hd as [->|Hd]; [|by apply (L d r f)].
        destruct (known_functional _ _ _ _ _ Kc Kd) as [_ ->]. lia.
Qed.

Lemma select_spec l taken stop m : by_time l -> Forall (fun c => exists q e, known c q e) l -> Exists (fun c => c.2 ∉ taken) l ->
  exists q e, SelectBlockFromCandidates H mapBlockIndex l taken stop m = Ret (Some q) /\ H !! q = Some e /\ chosen l taken stop m q e.
Proof using.
  intros S K X. unfold SelectBlockFromCandidates.
  enough (R : exists h q e, select_loop H mapBlockIndex l taken stop m None = Ret (Some (Some (h, q))) /\ H !! q = Some e /\ chosen l taken stop m q e)
    by (destruct R as (h & q & e & -> & R); by exists q, e).
  induction S as [|c l S IH F]; [by apply Exists_nil in X|].
  apply Forall_cons in K as [(q & e & Kc) K]. pose proof Kc as (M & Hq & Ec). destruct c as [t hash]. injection Ec as -> ->. cbn in M.
  cbn [select_loop]. rewrite M, (deref_Some H q e Hq). cbn [result_bind andb]. destruct (bool_decide (blockHash e ∈ taken)) eqn:B.
  - apply bool_decide_eq_true in B. apply Exists_cons in X as [X|X]; [done|]. destruct (IH K X) as (h & q' & e' & -> & Hq' & d & Hd & Nd & Kd & C1 & C2).
    exists h, q', e'. split_and!; [done|done|]. exists d. split_and!; [by right|done|done| |].
    + intros Ld x r f Hx Nx. apply elem_of_cons in Hx as [->|Hx]; [done|]. by apply C1.
    + intros Ld x Hx Nx. apply elem_of_cons in Hx as [->|Hx]; [done|]. by apply C2.
  - apply bool_decide_eq_false in B.
    destruct (select_loop_best l taken stop m S K (selection_hash e m) q (selection_hash_wf e m)) as (h & p' & -> & V & O & L).
    assert (Later : forall d, d ∈ l -> GetBlockTime e <= d.1) by (intros d Hd; rewrite Forall_forall in F; by apply (F d Hd)).
    destruct O as [[-> ->]|(d & f & Hd & Nd & Ld & Kd & ->)].
    + exists (selection_hash e m), q, e. split_and!; [done|done|]. exists (GetBlockTime e, blockHash e). split_and!; [by left|done|done| |].
      * intros _ x r f Hx Nx Lx Kx. apply elem_of_cons in Hx as [->|Hx]; [|by apply (L x r f)].
        destruct (known_functional _ _ _ _ _ Kc Kx) as [_ ->]. done.
      * intros _ x Hx _. apply elem_of_cons in Hx as [->|Hx]; [done|by apply Later].
    + exists (selection_hash f m), p', f. split_and!; [done|apply Kd|]. exists d. split_and!; [by right|done|done| |].
      * intros _ x r g Hx Nx Lx Kx. apply elem_of_cons in Hx as [->|Hx]; [|by apply (L x r g)].
        destruct (known_functional _ _ _ _ _ Kc Kx) as [_ ->]. done.
      * lia.
Qed.

(** ** The rounds *)

(** The stop of the selection before round [r]. *)
Definition stop_before (start : Z) (r : nat) : Z := fold_left (fun s k => s + 3780 / (189 - 2 * Z.of_nat k)) (seq 0 r) start.

Definition hashes_of (es : list CBlockIndex) : gset uint256 := list_to_set (map blockHash es).

(** The blocks that the rounds select, one after the other. *)
Definition picks (l : list (Z * uint256)) (start m : Z) (es : list CBlockIndex) : Prop :=
  NoDup (map blockHash es) /\
  forall i e, es !! i = Some e -> exists q, chosen l (hashes_of (take i es)) (stop_before start (S i)) m q e.

(** Bit [j] is the entropy bit of the block of round [j]. *)
Definition entropy_bits (z : Z) (es : list CBlockIndex) : Prop :=
  0 <= z < 2 ^ 64 /\ forall j, Z.testbit z (Z.of_nat j) = match es !! j with Some e => Z.testbit (GetStakeEntropyBit e) 0 | None => false end.

Lemma entropy_bit e : 0 <= GetStakeEntropyBit e <= 1.
Proof using.
  unfold GetStakeEntropyBit. change 1 with (2 ^ 1 - 1) at 1 2. rewrite land_ones_mod by lia.
  pose proof (Z.mod_pos_bound (Get64 (blockHash e) 0) (2 ^ 1) ltac:(lia)). lia.
Qed.

Lemma entropy_bits_snoc z es e : (length es < 64)%nat -> entropy_bits z es ->
  entropy_bits (Z.lor z (u64 (Z.shiftl (GetStakeEntropyBit e) (Z.of_nat (length es))))) (es ++ [e]).
Proof using.
  intros L [R B]. pose proof (entropy_bit e) as E. set (n := Z.of_nat (length es)).
  assert (P : 0 < 2 ^ n <= 2 ^ 63) by (split; [apply Z.pow_pos_nonneg; lia|apply Z.pow_le_mono_r; lia]).
  assert (S : u64 (Z.shiftl (GetStakeEntropyBit e) n) = GetStakeEntropyBit e * 2 ^ n).
  { rewrite Z.shiftl_mul_pow2 by lia. apply u64_small. unfold in_u64. nia. }
  split; [rewrite S; apply lor_bound; [lia|lia|nia]|].
  intro j. rewrite Z.lor_spec, S, B, Z.mul_pow2_bits by lia. destruct (Nat.lt_trichotomy j (length es)) as [J|[->|J]].
  - rewrite lookup_app_l by done. rewrite (Z.testbit_neg_r _ (Z.of_nat j - n)) by lia. apply orb_false_r.
  - rewrite (lookup_ge_None_2 es), list_lookup_middle by done. unfold n. by rewrite Z.sub_diag.
  - rewrite !lookup_ge_None_2 by (rewrite ?length_app; cbn [length]; lia). cbn [orb]. apply (testbit_high _ 1); lia.
Qed.

Lemma chosen_hash l taken stop m q e : chosen l taken stop m q e -> blockHash e ∉ taken /\ (GetBlockTime e, blockHash e) ∈ l.
Proof using. intros (c & Hc & Nc & (_ & _ & ->) & _). done. Qed.

Lemma picks_snoc l start m es e q : picks l start m es -> chosen l (hashes_of es) (stop_before start (S (length es))) m q e -> picks l start m (es ++ [e]).
Proof using.
  intros [N P] C. destruct (chosen_hash _ _ _ _ _ _ C) as [Nh _]. unfold hashes_of in Nh. rewrite elem_of_list_to_set in Nh. split.
  - rewrite map_app. apply NoDup_app. split; [done|]. cbn. split; [|apply NoDup_singleton]. intros x Hx Hx'. apply list_elem_of_singleton in Hx' as ->. done.
  - intros i f Hf. destruct (decide (i < length es)%nat) as [Li|Li].
    + rewrite lookup_app_l in Hf by done. rewrite take_app_le by lia. by apply P.
    + pose proof (lookup_lt_Some _ _ _ Hf) as Li'. rewrite length_app in Li'. cbn in Li'. assert (i = length es) as -> by lia.
      rewrite list_lookup_middle in Hf by done. injection Hf as <-. rewrite take_app_length. by exists q.
Qed.

(** Something is left while fewer blocks are taken than there are candidates. *)
Lemma picks_left l start m es : NoDup (map snd l) -> picks l start m es -> (length es < length l)%nat ->
  Exists (fun c => c.2 ∉ hashes_of es) l.
Proof using.
  intros Nl [N _] L. destruct (decide (Exists (fun c => c.2 ∉ hashes_of es) l)) as [|X]; [done|]. exfalso.
  apply not_Exists_Forall in X; [|intro; apply _]. rewrite Forall_forall in X.
  assert (S : (list_to_set (map snd l) : gset uint256) ⊆ hashes_of es).
  { intros h Hh. apply elem_of_list_to_set, list_elem_of_In, in_map_iff in Hh as (c & <- & Hc). apply list_elem_of_In in Hc.
    destruct (decide (c.2 ∈ hashes_of es)); [done|]. by destruct (X c Hc). }
  apply subseteq_size in S. unfold hashes_of in S. rewrite !size_list_to_set, !length_map in S by done. lia.
Qed.

Lemma modifier_rounds_spec l start m n : by_time l -> Forall (fun c => exists q e, known c q e) l -> NoDup (map snd l) ->
  forall es z, picks l start m es -> entropy_bits z es -> (length es + n <= 64)%nat -> (length es + n <= length l)%nat -> exists es' z',
  modifier_rounds H mapBlockIndex n (length es) l (hashes_of es) (stop_before start (length es)) m z = Ret (Some z') /\
  length es' = (length es + n)%nat /\ picks l start m es' /\ entropy_bits z' es'.
Proof using Hok Hm.
  intros Sl K Nl. induction n as [|n IH]; intros es z P B L1 L2.
  { exists es, z. split_and!; [done|lia|done|done]. }
  cbn [modifier_rounds]. destruct (section_value (length es) ltac:(lia)) as [-> _]. cbn [result_bind].
  assert (Es : stop_before start (length es) + 3780 / (189 - 2 * Z.of_nat (length es)) = stop_before start (S (length es))).
  { unfold stop_before. by rewrite seq_S, fold_left_app. }
  rewrite Es. destruct (select_spec l (hashes_of es) (stop_before start (S (length es))) m Sl K (picks_left l start m es Nl P ltac:(lia))) as (q & e & E & Hq & C).
  rewrite E. cbn [result_bind]. rewrite (deref_Some H q e Hq). cbn [result_bind].
  assert (Eh : {[blockHash e]} ∪ hashes_of es = hashes_of (es ++ [e])).
  { unfold hashes_of. rewrite map_app, list_to_set_app_L. cbn. set_solver. }
  rewrite Eh. pose proof (entropy_bits_snoc z es e ltac:(lia) B) as B'.
  set (z1 := Z.lor z _) in *. destruct (IH (es ++ [e]) z1) as (es' & z' & E' & L' & P' & B''); [by apply (picks_snoc l start m es e q)|done|rewrite length_app; cbn; lia..|].
  rewrite length_app, Nat.add_1_r in E', L'. exists es', z'. split_and!; [done|lia|done|done].
Qed.
End facts.

(** ** The modifier of the next block *)

Definition times_ok (H : heap) : Prop := map_Forall (fun _ b => 0 <= GetBlockTime b < 2 ^ 32) H.

(** What the first version records on top of the entry [b] at [p]: [last] is the nearest entry
    that generated a modifier, if there is one; while its time is in the same minute, or later,
    its modifier stays; otherwise the new one holds the entropy bits of up to 64 blocks picked
    among the ancestors of the last 35 minutes. *)
Definition next_modifier (H : heap) (mapBlockIndex : gmap uint256 ptr) (stakemodifier : Z) (p : ptr) (b : CBlockIndex) (r : bool * Z * bool) : Prop :=
  if decide (nHeight b = 0) then r = (true, stakemodifier, true) else
  exists last, nearest_modifier H p last /\
  if negb (GeneratedStakeModifier last) then r = (false, 0, false)
  else if GetBlockTime b / 60 <=? GetBlockTime last / 60 then r = (true, nStakeModifier last, false)
  else
    let start := GetBlockTime b / 60 * 60 - 2087 in
    exists l es m, r = (true, m, true) /\ l <> [] /\ by_time l /\ NoDup (map snd l) /\
      Forall (fun c => exists q e, candidate H p c q e /\ start <= GetBlockTime e) l /\
      length es = Nat.min 64 (length l) /\ picks H mapBlockIndex l start (nStakeModifier last) es /\ entropy_bits m es.


(** ** A chain of three blocks, each with a modifier *)

Definition timed_header (hash prev time : Z) : block_header :=
  mk_block_header (base_uint_u64 8 hash) (base_uint_u64 8 prev) (mk_header 4 (base_uint_zero 8) time 0x207fffff 0 (base_uint_zero 8)) false None.
Abbreviation timed_Add := (AddToBlockIndex (fun _ => (7, true)) (fun _ _ => base_uint_zero 8) 100).
Definition timed_add (blk : block_header) (s : block_index) : block_index :=
  match timed_Add blk s with Ret (s', _) => s' | Err _ => s end.
Definition timed_index : block_index :=
  timed_add (timed_header 3 2 1200) (timed_add (timed_header 2 1 1100) (timed_add (timed_header 1 0 1000) (mk_index ∅ ∅ None []))).

Lemma timed_reachable : reachable (fun _ => (7, true)) (fun _ _ => base_uint_zero 8) 100 timed_index [].
Proof.
  assert (Step : forall s blk, reachable (fun _ => (7, true)) (fun _ _ => base_uint_zero 8) 100 s [] -> addable 100 s blk ->
    (if timed_Add blk s is Ret _ then true else false) = true -> reachable (fun _ => (7, true)) (fun _ _ => base_uint_zero 8) 100 (timed_add blk s) []).
  { intros s blk R A E. unfold timed_add. destruct (timed_Add blk s) as [[s' p]|] eqn:E'; [|done]. by apply (reach_add _ _ _ s [] blk s' p). }
  unfold timed_index. repeat (apply Step; [| |vm_compute; reflexivity]); [apply reach_empty| | |];
    (split; [done|]; split; [unfold in_u32; cbn; lia|]; intros q c E1 E2; vm_compute in E1; try discriminate E1;
     injection E1 as <-; vm_compute in E2; injection E2 as <-; split; cbn; first [lia|left; lia]).
Qed.


(** ** The third version *)

Definition nonces_ok (H : heap) : Prop := map_Forall (fun _ b => 0 <= ih_nNonce (header b) < 2 ^ 32) H.

Section version3.
Context (H : heap) (Hok : index_ok H) (Hn : nonces_ok H).

Lemma back_spec n : forall p b, H !! p = Some b ->
  match ancestor H n p with
  | Some q => exists e, H !! q = Some e /\ back H n b = Ret (Some e)
  | None => back H n b = Ret None
  end.
Proof using Hok.
  induction n as [|n IH]; intros p b Hp; [by exists b|]. rewrite (ancestor_step H p b n Hp). cbn [back].
  destruct (Hok p b Hp) as [_ Hb]. destruct (pprev b) as [q|]; [|done]. destruct Hb as [(e & Hq & _) _].
  cbn [mbind option_bind]. rewrite (deref_Some H q e Hq). cbn [result_bind]. by apply IH.
Qed.

(** The nonces of [a] entries, nine blocks apart, below [p]. *)
Fixpoint nonces_below (a : nat) (p : ptr) : option Z :=
  match a with
  | O => Some 0
  | S a => q ← ancestor H 9 p; e ← H !! q; z ← nonces_below a q; Some (ih_nNonce (header e) + z)
  end.

Lemma nonces_below_range a p z : nonces_below a p = Some z -> 0 <= z <= Z.of_nat a * 2 ^ 32.
Proof using Hn.
  revert p z. induction a as [|a IH]; intros p z E; cbn [nonces_below] in E; [injection E as <-; lia|].
  destruct (ancestor H 9 p) as [q|]; [|done]. cbn [mbind option_bind] in E. destruct (H !! q) as [e|] eqn:Hq; [|done]. cbn [mbind option_bind] in E.
  destruct (nonces_below a q) as [y|] eqn:Ey; [|done]. injection E as <-. specialize (IH q y Ey). pose proof (Hn q e Hq) as B. cbn in B. lia.
Qed.

Lemma add_nonces_spec a : forall p b m, H !! p = Some b -> 0 <= m -> m + Z.of_nat a * 2 ^ 32 < 2 ^ 64 ->
  add_nonces H a b m = Ret ((fun z => m + z) <$> nonces_below a p).
Proof using Hok Hn.
  induction a as [|a IH]; intros p b m Hp Hm L; cbn [add_nonces nonces_below]; [cbn; by rewrite Z.add_0_r|].
  pose proof (back_spec 9 p b Hp) as B. destruct (ancestor H 9 p) as [q|]; [destruct B as (e & Hq & ->)|by rewrite B].
  cbn [result_bind mbind option_bind]. rewrite Hq. cbn [mbind option_bind]. pose proof (Hn q e Hq) as R. cbn in R.
  rewrite Z.gtb_ltb, (proj2 (Z.ltb_ge _ _)) by lia. rewrite u64_small by (unfold in_u64; lia).
  rewrite (IH q e) by (done || lia). f_equal. destruct (nonces_below a q); cbn; [f_equal; lia|done].
Qed.

(** The sum of the nonces of the parent and of nine blocks below it, at distances of nine. *)
Lemma CalculateStakeModifierV3_spec p b : H !! p = Some b ->
  CalculateStakeModifierV3 H (Some p) = Ret (q ← pprev b; e ← H !! q; z ← nonces_below 9 q; Some (ih_nNonce (header e) + z)).
Proof using Hok Hn.
  intros Hp. unfold CalculateStakeModifierV3. rewrite (deref_Some H p b Hp). cbn [result_bind].
  destruct (Hok p b Hp) as [_ Hb]. destruct (pprev b) as [q|]; [|done]. destruct Hb as [(e & Hq & _) _].
  rewrite (deref_Some H q e Hq). cbn [result_bind mbind option_bind]. pose proof (Hn q e Hq) as R. cbn in R.
  rewrite (add_nonces_spec 9 q e) by (done || lia). rewrite Hq. cbn [mbind option_bind]. done.
Qed.
End version3.
