(* ===== verification/Kernel.v ===== *)
(** * Proof of stake ([kernel.cpp], [GetTransaction] and [CheckWork] of [main.cpp])

    The stake target, the three versions of the kernel check, the search for a kernel, and
    the check of the coin stake of a block. *)

From Stdlib Require Import ZArith Lia List Bool.
From stdpp Require Import base option list gmap.
From coqutil Require Import Byte Word.LittleEndianList.
From S2P Require Import Prelude Uint256 Compact Serialize MerkleDamgard Hash Script Interpreter PubKey Tx SigHash Params BlockIndex Pow Chain Block TxCheck CheckBlock CheckInputs Modifier.

Open Scope Z_scope.
Open Scope btc_scope.

(** ** The target *)

Definition of_uint {A} (r : result uint_error A) : result failure A := match r with Ret a => Ret a | Err _ => Err Throws end.

Definition stakeTargetHit (hashProofOfStake : uint256) (nValueIn : Z) (bnTarget : uint256) : result failure bool :=
  let* bnWeight := of_uint (bdiv (base_uint_u64 8 (u64 nValueIn)) (base_uint_u64 8 100)) in
  Ret (CompareTo hashProofOfStake (bmul bnWeight bnTarget) <? 0).

(** [unsigned int nStakeMinAge]. *)
Definition nStakeMinAge : Z := 60 * 60.

(** The two tests of the time that the three versions start with. *)
Definition stake_time_ok (nTimeBlockFrom nTimeTx : Z) : bool :=
  negb (nTimeTx <? nTimeBlockFrom) && negb (u32 (nTimeBlockFrom + nStakeMinAge) >? nTimeTx).

(** ** Version 3 *)

Definition kernel_stream_v3 (StakeModifierV2 : uint256) (nStakeModifier : Z) (prevout : COutPoint) : list (list byte) :=
  [uint_bytes StakeModifierV2; uint_bytes (prev_hash prevout); ser_writedata 8 nStakeModifier; ser_writedata 4 (prev_n prevout)].
Definition kernel_hash_v3 (StakeModifierV2 : uint256) (nStakeModifier : Z) (prevout : COutPoint) (nTimeTx : Z) : uint256 :=
  CHashWriter_GetHash (kernel_stream_v3 StakeModifierV2 nStakeModifier prevout ++ [ser_writedata 4 nTimeTx]).

(** With [fCheck]: what is returned and [hashProofOfStake]. *)
Definition CheckStakeKernelHashV3 (nBits : Z) (StakeModifierV2 : uint256) (nStakeModifier nTimeBlockFrom theValueIn : Z) (prevout : COutPoint)
    (nTimeTx : Z) (hashProofOfStake : uint256) : result failure (bool * uint256) :=
  if negb (stake_time_ok nTimeBlockFrom nTimeTx) then Ret (false, hashProofOfStake) else
  if theValueIn <? CENT then Ret (false, hashProofOfStake) else
  let '(bnTarget, _, _) := SetCompact nBits in
  let hashProofOfStake := kernel_hash_v3 StakeModifierV2 nStakeModifier prevout nTimeTx in
  let* TargetMet := stakeTargetHit hashProofOfStake theValueIn bnTarget in
  Ret (TargetMet, hashProofOfStake).

(** The loop of the search, [n] more turns; [height k] is [chainActive.Height()] in turn [k],
    which other threads may change.  The result is whether a time is found, the time and the
    hash. *)
Fixpoint search_loop (StakeModifierV2 : uint256) (nStakeModifier theValueIn : Z) (prevout : COutPoint) (bnTarget : uint256)
    (height : nat -> Z) (nHeightStart nTimeTx MaxTime : Z) (n k : nat) (i : Z) (hashProofOfStake : uint256) : result failure (bool * Z * uint256) :=
  if i <=? MaxTime then
    match n with
    | O => Err Undefined
    | S n =>
        if (i >? MaxTime) || negb (height k =? nHeightStart) then Ret (false, nTimeTx, hashProofOfStake)
        else
          let nTryTime := u32 (nTimeTx + i) in
          let hashProofOfStake := kernel_hash_v3 StakeModifierV2 nStakeModifier prevout nTryTime in
          let* hit := stakeTargetHit hashProofOfStake theValueIn bnTarget in
          if hit then Ret (true, nTryTime, hashProofOfStake)
          else search_loop StakeModifierV2 nStakeModifier theValueIn prevout bnTarget height nHeightStart nTimeTx MaxTime n (S k) (i32 (u32 (i + nStakeInterval))) hashProofOfStake
    end
  else Ret (false, nTimeTx, hashProofOfStake).

(** Without [fCheck]; the tip has the height [nHeightStart] and the time [PreviousBlockTime]. *)
Definition SearchStakeKernelHashV3 (LastHashedBlockHeight nHeightStart PreviousBlockTime : Z) (height : nat -> Z)
    (nBits : Z) (StakeModifierV2 : uint256) (nStakeModifier nTimeBlockFrom theValueIn : Z) (prevout : COutPoint)
    (nTimeTx : Z) (hashProofOfStake : uint256) : result failure (bool * Z * uint256) :=
  if negb (stake_time_ok nTimeBlockFrom nTimeTx) then Ret (false, nTimeTx, hashProofOfStake) else
  if theValueIn <? CENT then Ret (false, nTimeTx, hashProofOfStake) else
  let '(bnTarget, _, _) := SetCompact nBits in
  let TimeRemainder := nTimeTx mod nStakeInterval in
  let nTimeTx := nTimeTx - TimeRemainder in
  let HashingStart := if negb (LastHashedBlockHeight =? u32 nHeightStart) then i32 (PreviousBlockTime - nTimeTx) else nStakeInterval in
  let MaxTime := nMaxStakingFutureDriftv3 + TimeRemainder in
  search_loop StakeModifierV2 nStakeModifier theValueIn prevout bnTarget height nHeightStart nTimeTx MaxTime
    (Z.to_nat ((MaxTime - HashingStart) / nStakeInterval + 1)) 0 HashingStart hashProofOfStake.

(** ** Version 2 *)

Definition kernel_hash_v2 (StakeModifierV2 : uint256) (nTimeBlockFrom : Z) (prevout : COutPoint) (nTimeTx : Z) : uint256 :=
  CHashWriter_GetHash [uint_bytes StakeModifierV2; ser_writedata 4 nTimeBlockFrom; uint_bytes (prev_hash prevout);
    ser_writedata 4 (prev_n prevout); ser_writedata 4 nTimeTx].

(** With [fCheck]; [nChainTime] is not read. *)
Definition CheckStakeKernelHashV2 (nBits : Z) (StakeModifierV2 : uint256) (nTimeBlockFrom theValueIn : Z) (prevout : COutPoint)
    (nTimeTx : Z) (hashProofOfStake : uint256) : result failure (bool * uint256) :=
  if negb (stake_time_ok nTimeBlockFrom nTimeTx) then Ret (false, hashProofOfStake) else
  if theValueIn <? CENT then Ret (false, hashProofOfStake) else
  let '(bnTarget, _, _) := SetCompact nBits in
  let hashProofOfStake := kernel_hash_v2 StakeModifierV2 nTimeBlockFrom prevout nTimeTx in
  let* TargetMet := stakeTargetHit hashProofOfStake theValueIn bnTarget in
  Ret (TargetMet, hashProofOfStake).

(** ** Version 1 *)

Section store.
Context (H : heap) (mapBlockIndex : gmap uint256 ptr) (chainActive : CChain).

(** The loop of [GetKernelStakeModifier]: every turn goes one height up the active chain. *)
Fixpoint kernel_modifier_loop (fuel : nat) (pindexFrom : CBlockIndex) (nStakeModifierSelectionInterval : Z) (pindex : CBlockIndex) (pindexNext : option ptr)
    (nStakeModifierHeight nStakeModifierTime : Z) : result failure (option (Z * Z * Z)) :=
  if nStakeModifierTime <? GetBlockTime pindexFrom + nStakeModifierSelectionInterval then
    match pindexNext with
    | None => Ret None
    | Some _ =>
        match fuel with
        | O => Err Undefined
        | S fuel =>
            let* pindex := of_ptr (deref H pindexNext) in
            let* next := int_succ (nHeight pindex) in
            let '(h, t) := if GeneratedStakeModifier pindex then (nHeight pindex, GetBlockTime pindex) else (nStakeModifierHeight, nStakeModifierTime) in
            kernel_modifier_loop fuel pindexFrom nStakeModifierSelectionInterval pindex (at_height chainActive next) h t
        end
    end
  else Ret (Some (nStakeModifier pindex, nStakeModifierHeight, nStakeModifierTime)).

(** The modifier, its height and time; [None] for [return error(...)]. *)
Definition GetKernelStakeModifier (hashBlockFrom : uint256) : result failure (option (Z * Z * Z)) :=
  match mapBlockIndex !! hashBlockFrom with
  | None => Ret None
  | Some p =>
      let* pindexFrom := of_ptr (deref H (Some p)) in
      let* nStakeModifierSelectionInterval := of_ptr GetStakeModifierSelectionInterval in
      let* next := int_succ (nHeight pindexFrom) in
      kernel_modifier_loop (length chainActive) pindexFrom nStakeModifierSelectionInterval pindexFrom (at_height chainActive next)
        (nHeight pindexFrom) (GetBlockTime pindexFrom)
  end.

Definition stakeHash (nTimeTx : Z) (ss : list byte) (prevoutIndex : Z) (prevoutHash : uint256) (nTimeBlockFrom : Z) : uint256 :=
  Hash [ss ++ ser_writedata 4 nTimeBlockFrom ++ ser_writedata 4 prevoutIndex ++ uint_bytes prevoutHash ++ ser_writedata 4 nTimeTx].

Context (HashQuark : bytes -> uint256).

(** With [fCheck]. *)
Definition CheckStakeKernelHash (nBits : Z) (blockFrom : CBlock) (txPrev : CTransaction) (prevout : COutPoint) (nTimeTx : Z)
    (hashProofOfStake : uint256) : result failure (bool * uint256) :=
  match tx_vout txPrev !! Z.to_nat (prev_n prevout) with
  | None => Err Undefined
  | Some o =>
      let nValueIn := nValue o in
      let nTimeBlockFrom := u32 (CBlockHeader_GetBlockTime blockFrom) in
      if negb (stake_time_ok nTimeBlockFrom nTimeTx) then Ret (false, hashProofOfStake) else
      if nValueIn =? 0 then Ret (false, hashProofOfStake) else
      let '(bnTarget, _, _) := SetCompact nBits in
      let* m := GetKernelStakeModifier (CBlockHeader_GetHash HashQuark blockFrom) in
      match m with
      | None => Ret (false, hashProofOfStake)
      | Some (nStakeModifier, _, _) =>
          let hashProofOfStake := stakeHash nTimeTx (ser_writedata 8 nStakeModifier) (prev_n prevout) (prev_hash prevout) nTimeBlockFrom in
          let* hit := stakeTargetHit hashProofOfStake nValueIn bnTarget in
          Ret (hit, hashProofOfStake)
      end
  end.

(** ** [GetTransaction] *)

(** What the lookup in the transaction index finds. *)
Inductive index_read : Type := NotIndexed | ReadError | ReadTx (header : CBlockHeader) (tx : CTransaction).

(** The pool, the transaction index when [fTxIndex] is set, the heights of the coins in
    [pcoinsTip], and the block files. *)
Record tx_sources : Type := mk_sources {
  mempool_lookup : uint256 -> option CTransaction;
  txindex : option (uint256 -> index_read);
  coins_height : uint256 -> option Z;
  ReadBlockFromDisk : CBlockIndex -> option CBlock }.
Context (src : tx_sources).

(** With [fAllowSlow]: the transaction and [hashBlock], which starts at zero. *)
Definition GetTransaction (hash : uint256) : result failure (option (CTransaction * uint256)) :=
  match mempool_lookup src hash with
  | Some tx => Ret (Some (tx, base_uint_zero 8))
  | None =>
      match txindex src with
      | Some read =>
          Ret (match read hash with
               | ReadTx header tx =>
                   if negb (bool_decide (tx_hash tx = hash)) then None else Some (tx, CBlockHeader_GetHash HashQuark header)
               | _ => None
               end)
      | None =>
          let nHeight := default (-1) (coins_height src hash) in
          match (if nHeight >? 0 then at_height chainActive nHeight else None) with
          | None => Ret None
          | Some p =>
              let* pindexSlow := of_ptr (deref H (Some p)) in
              match ReadBlockFromDisk src pindexSlow with
              | None => Ret None
              | Some block =>
                  Ret ((fun tx => (tx, blockHash pindexSlow)) <$> List.find (fun tx : CTransaction => bool_decide (tx_hash tx = hash)) (vtx block))
              end
          end
      end
  end.

(** ** [CheckProofOfStake] *)

Context (Verify : CPubKey -> uint256 -> list byte -> bool) (buf : list byte) (SPORK_13_STAKING_PROTOCOL_2 : Z).

(** The kernel check of the version in force at the height. *)
Definition check_kernel (block : CBlock) (prev : CBlockIndex) (pindexPrev : ptr) (blockprev : CBlock) (txPrev : CTransaction) (prevout : COutPoint)
    (hashProofOfStake : uint256) : result failure (bool * uint256) :=
  let nTime := b_nTime block in
  let* NewHeight := int_succ (nHeight prev) in
  if NewHeight >=? SPORK_13_STAKING_PROTOCOL_2 then
    match tx_vout txPrev !! Z.to_nat (prev_n prevout) with
    | None => Err Undefined
    | Some o =>
        let nTimeBlockFrom := u32 (CBlockHeader_GetBlockTime blockprev) in
        if NewHeight >=? REWARDFORK_BLOCK then
          let* m := of_ptr (CalculateStakeModifierV3 H (Some pindexPrev)) in
          match m with
          | None => Ret (false, hashProofOfStake)
          | Some nStakeModifier =>
              CheckStakeKernelHashV3 (b_nBits block) (nStakeModifierV2 prev) nStakeModifier nTimeBlockFrom (nValue o) prevout nTime hashProofOfStake
          end
        else CheckStakeKernelHashV2 (b_nBits block) (nStakeModifierV2 prev) nTimeBlockFrom (nValue o) prevout nTime hashProofOfStake
    end
  else CheckStakeKernelHash (b_nBits block) blockprev txPrev prevout nTime hashProofOfStake.

Definition CheckProofOfStake (block : CBlock) (pindexPrev : ptr) (hashProofOfStake : uint256) : result failure (bool * uint256) :=
  match vtx block with
  | _ :: tx :: _ =>
      if negb (IsCoinStake tx) then Ret (false, hashProofOfStake) else
      match tx_vin tx with
      | [] => Err Undefined
      | txin :: _ =>
          let* found := GetTransaction (prev_hash (prevout txin)) in
          match found with
          | None => Ret (false, hashProofOfStake)
          | Some (txPrev, hashBlock) =>
              match tx_vout txPrev !! Z.to_nat (prev_n (prevout txin)) with
              | None => Err Undefined
              | Some o =>
                  let* signed := CScriptCheck_run Verify buf (mk_CScriptCheck (scriptPubKey o) tx 0 STANDARD_SCRIPT_VERIFY_FLAGS) in
                  if negb signed then Ret (false, hashProofOfStake) else
                  match mapBlockIndex !! hashBlock with
                  | None => Ret (false, hashProofOfStake)
                  | Some p =>
                      let* pindex := of_ptr (deref H (Some p)) in
                      match ReadBlockFromDisk src pindex with
                      | None => Ret (false, hashProofOfStake)
                      | Some blockprev =>
                          if negb (bool_decide (prev_hash (prevout txin) = tx_hash txPrev)) then Ret (false, hashProofOfStake)
                          else
                            let* prev := of_ptr (deref H (Some pindexPrev)) in
                            check_kernel block prev pindexPrev blockprev txPrev (prevout txin) hashProofOfStake
                      end
                  end
              end
          end
      end
  | _ => Err Undefined
  end.

(** ** [CheckWork] *)

(** [abs(n1 - n2) <= n1 * 0.5] of two difficulties as [double]s ([ConvertBitsToDouble]). *)
Context (bits_within_half : Z -> Z -> bool) (params : CChainParams).

Definition CheckWork (block : CBlock) (pindexPrev : option ptr) : result failure bool :=
  match pindexPrev with
  | None => Ret false
  | Some p =>
      let* prev := of_ptr (deref H (Some p)) in
      let* nBitsRequired := of_ptr (GetNextWorkRequired params H SPORK_13_STAKING_PROTOCOL_2 pindexPrev) in
      let* early := if CBlock_IsProofOfWork block then (let* NewHeight := int_succ (nHeight prev) in Ret (NewHeight <=? 68589)) else Ret false in
      if early then Ret (bits_within_half (b_nBits block) nBitsRequired)
      else if negb (b_nBits block =? nBitsRequired) then Ret false
      else if CBlock_IsProofOfStake block then
        let* r := CheckProofOfStake block p (base_uint_zero 8) in
        Ret r.1
      else Ret true
  end.
End store.

(** ** The checks of a kernel *)

Definition target_of (nBits : Z) : Z := val (SetCompact nBits).1.1.

(** The product of weight and target is a 256-bit integer. *)
Definition hits (hash : uint256) (nValueIn nBits : Z) : Prop := val hash < (nValueIn / 100 * target_of nBits) mod 2 ^ 256.
#[export] Instance hits_dec hash v nBits : Decision (hits hash v nBits).
Proof. unfold hits. apply _. Defined.

Lemma stakeTargetHit_spec hash v nBits : wf 8 hash -> 0 <= v < 2 ^ 63 -> in_u32 nBits ->
  stakeTargetHit hash v (SetCompact nBits).1.1 = Ret (bool_decide (hits hash v nBits)).
Proof.
  intros Wh Hv Hb. unfold stakeTargetHit. rewrite u64_small by (unfold in_u64; lia).
  destruct (base_uint_u64_spec 8 v) as [Wv Vv]; [lia..|]. destruct (div_const _ 100 Wv) as (q & E & Wq & Vq); [lia|].
  rewrite E. cbn [of_uint result_bind]. pose proof (SetCompact_wf nBits Hb) as Wt. destruct (bmul_spec 8 q _ Wq Wt) as [Wm Vm].
  rewrite (CompareTo_spec 8) by done. change (BITS 8) with 256 in Vm. f_equal. apply Bool.eq_iff_eq_true.
  rewrite Z.ltb_lt, bool_decide_eq_true. unfold hits, target_of. rewrite Vm, Vq, Vv. lia.
Qed.

Lemma CHashWriter_wf parts : wf 8 (CHashWriter_GetHash parts).
Proof. apply Hash_wf. Qed.

(** The age of the coin, when adding it to the time does not wrap. *)
Definition aged (nTimeBlockFrom nTimeTx : Z) : Prop := nTimeBlockFrom + nStakeMinAge <= nTimeTx.

Lemma stake_time_ok_spec tf t : 0 <= tf -> tf + nStakeMinAge < 2 ^ 32 -> stake_time_ok tf t = true <-> aged tf t.
Proof.
  intros H0 H1. unfold stake_time_ok, aged, nStakeMinAge in *. rewrite u32_small by (unfold in_u32; lia).
  rewrite andb_true_iff, !negb_true_iff, Z.ltb_ge, Z.gtb_ltb, Z.ltb_ge. lia.
Qed.

(** The end that versions 2 and 3 share. *)
Lemma kernel_end (cond : bool) hash v nBits h0 : wf 8 hash -> 0 <= v < 2 ^ 63 -> in_u32 nBits -> exists ok h',
  (if negb cond then Ret (false, h0) else if v <? CENT then Ret (false, h0) else
   let '(bnTarget, _, _) := SetCompact nBits in let* r := stakeTargetHit hash v bnTarget in Ret (r, hash)) = Ret (ok, h') /\
  (ok = true <-> cond = true /\ CENT <= v /\ hits hash v nBits) /\ (ok = true -> h' = hash).
Proof.
  intros Wh Hv Hb. destruct cond; cbn [negb]; [|exists false, h0; split; [done|split; [split; [done|by intros [? _]]|done]]]. destruct (Z.ltb_spec v CENT) as [L|L]; [|].
  - exists false, h0. split; [done|]. split; [|done]. split; [done|]. intros (_ & ? & _). lia.
  - pose proof (stakeTargetHit_spec hash v nBits Wh Hv Hb) as E. destruct (SetCompact nBits) as [[t n] o] eqn:Es. cbn [fst] in E. rewrite E.
    cbn [result_bind]. eexists _, _. split; [reflexivity|]. rewrite bool_decide_eq_true. split; [|done]. split; [done|by intros (_ & _ & ?)].
Qed.

Lemma CheckStakeKernelHashV3_spec nBits sm m tf v o t h0 : 0 <= v < 2 ^ 63 -> in_u32 nBits -> exists ok h',
  CheckStakeKernelHashV3 nBits sm m tf v o t h0 = Ret (ok, h') /\
  (ok = true <-> stake_time_ok tf t = true /\ CENT <= v /\ hits (kernel_hash_v3 sm m o t) v nBits) /\ (ok = true -> h' = kernel_hash_v3 sm m o t).
Proof. intros Hv Hb. exact (kernel_end (stake_time_ok tf t) (kernel_hash_v3 sm m o t) v nBits h0 (CHashWriter_wf _) Hv Hb). Qed.

Lemma CheckStakeKernelHashV2_spec nBits sm tf v o t h0 : 0 <= v < 2 ^ 63 -> in_u32 nBits -> exists ok h',
  CheckStakeKernelHashV2 nBits sm tf v o t h0 = Ret (ok, h') /\
  (ok = true <-> stake_time_ok tf t = true /\ CENT <= v /\ hits (kernel_hash_v2 sm tf o t) v nBits) /\ (ok = true -> h' = kernel_hash_v2 sm tf o t).
Proof. intros Hv Hb. exact (kernel_end (stake_time_ok tf t) (kernel_hash_v2 sm tf o t) v nBits h0 (CHashWriter_wf _) Hv Hb). Qed.

(** ** The search *)

Lemma i32_u32 z : in_i32 z -> i32 (u32 z) = z.
Proof. intro H. unfold i32, u32. rewrite Z.add_mod_idemp_l by lia. exact (i32_small z H). Qed.

Lemma search_loop_spec sm m v o nBits height hs t MaxTime : 0 <= v < 2 ^ 63 -> in_u32 nBits -> -2 ^ 31 <= MaxTime < 2 ^ 31 - 15 ->
  forall n k i h, -2 ^ 31 <= i -> MaxTime < i + 15 * Z.of_nat n -> exists ok t' h',
  search_loop sm m v o (SetCompact nBits).1.1 height hs t MaxTime n k i h = Ret (ok, t', h') /\
  (ok = true -> exists j : nat, i + 15 * Z.of_nat j <= MaxTime /\ t' = u32 (t + (i + 15 * Z.of_nat j)) /\ h' = kernel_hash_v3 sm m o t' /\ hits h' v nBits) /\
  (ok = false -> (forall j, height j = hs) -> forall j : nat, i + 15 * Z.of_nat j <= MaxTime ->
     ~ hits (kernel_hash_v3 sm m o (u32 (t + (i + 15 * Z.of_nat j)))) v nBits).
Proof.
  intros Hv Hb HM. induction n as [|n IH]; intros k i h Hi Hn; cbn [search_loop];
    (destruct (Z.leb_spec i MaxTime) as [L|L]; [|exists false, t, h; split_and!; [done|done|intros _ _ j; lia]]); [lia|].
  rewrite Z.gtb_ltb, (proj2 (Z.ltb_ge _ _) L). cbn [orb]. destruct (Z.eqb_spec (height k) hs) as [Eh|Eh]; cbn [negb];
    [|exists false, t, h; split_and!; [done|done|intros _ X; by rewrite X in Eh]].
  rewrite stakeTargetHit_spec by (done || apply CHashWriter_wf). cbn [result_bind]. case_bool_decide as X.
  - eexists true, _, _. split_and!; [reflexivity| |done]. intros _. exists 0%nat. split; [lia|]. rewrite Z.mul_0_r, Z.add_0_r. by split_and!.
  - unfold nStakeInterval. rewrite i32_u32 by (unfold in_i32; lia).
    destruct (IH (S k) (i + 15) (kernel_hash_v3 sm m o (u32 (t + i))) ltac:(lia) ltac:(lia)) as (ok & t' & h' & E & T & F).
    exists ok, t', h'. split; [exact E|]. split.
    + intros Ok. destruct (T Ok) as (j & L1 & Et & R). exists (S j). split; [lia|]. split; [rewrite Et; f_equal; lia|exact R].
    + intros Ok Hh [|j] Lj; [by rewrite Z.mul_0_r, Z.add_0_r|]. replace (i + 15 * Z.of_nat (S j)) with (i + 15 + 15 * Z.of_nat j) by lia.
      by apply (F Ok Hh); lia.
Qed.

(** Where the search starts, relative to the time rounded down to fifteen seconds. *)
Definition search_start (LastHashedBlockHeight nHeightStart PreviousBlockTime rounded : Z) : Z :=
  if LastHashedBlockHeight =? nHeightStart then 15 else PreviousBlockTime - rounded.

Lemma SearchStakeKernelHashV3_spec last hs prev height nBits sm m tf v o t h0 : 0 <= v < 2 ^ 63 -> in_u32 nBits -> 0 <= hs < 2 ^ 31 ->
  0 <= t < 2 ^ 31 -> 0 <= prev < 2 ^ 31 ->
  let rounded := t - t mod 15 in let start := search_start last hs prev rounded in
  exists ok t' h', SearchStakeKernelHashV3 last hs prev height nBits sm m tf v o t h0 = Ret (ok, t', h') /\
  (ok = true -> stake_time_ok tf t = true /\ CENT <= v /\ exists j : nat, t' = u32 (rounded + start + 15 * Z.of_nat j) /\
     rounded + start + 15 * Z.of_nat j <= t + 25 /\ h' = kernel_hash_v3 sm m o t' /\ hits h' v nBits) /\
  (ok = false -> stake_time_ok tf t = true -> CENT <= v -> (forall k, height k = hs) ->
     forall j : nat, rounded + start + 15 * Z.of_nat j <= t + 25 -> ~ hits (kernel_hash_v3 sm m o (u32 (rounded + start + 15 * Z.of_nat j))) v nBits).
Proof.
  intros Hv Hb Hh Ht Hp. cbv zeta. unfold SearchStakeKernelHashV3. destruct (stake_time_ok tf t) eqn:Es; cbn [negb];
    [|exists false, t, h0; by split_and!]. destruct (Z.ltb_spec v CENT) as [L|L]; [exists false, t, h0; split_and!; [done|done|intros; lia]|].
  destruct (SetCompact nBits) as [[T ?] ?] eqn:Et. unfold nStakeInterval, nMaxStakingFutureDriftv3.
  pose proof (Z.mod_pos_bound t 15 ltac:(lia)) as R. set (rem := t mod 15) in *. set (rounded := t - rem) in *.
  assert (Rr : 0 <= rounded) by (subst rounded rem; pose proof (Z.mod_le t 15); lia).
  assert (Est : (if negb (last =? u32 hs) then i32 (prev - rounded) else 15) = search_start last hs prev rounded).
  { unfold search_start. rewrite u32_small by (unfold in_u32; lia). rewrite i32_small by (unfold in_i32; lia). by destruct (last =? hs). }
  rewrite Est. set (start := search_start last hs prev rounded) in *.
  assert (Rs : -2 ^ 31 <= start < 2 ^ 31) by (subst start; unfold search_start; destruct (last =? hs); lia).
  pose proof (Z.div_mod (25 + rem - start) 15 ltac:(lia)) as D. pose proof (Z.mod_pos_bound (25 + rem - start) 15 ltac:(lia)) as Dm.
  destruct (search_loop_spec sm m v o nBits height hs rounded (25 + rem) Hv Hb ltac:(lia) (Z.to_nat ((25 + rem - start) / 15 + 1)) 0 start h0 ltac:(lia) ltac:(lia))
    as (ok & t' & h' & E & Tr & F). rewrite Et in E. cbn [fst] in E. rewrite E. exists ok, t', h'. split; [done|]. split.
  - intros Ok. destruct (Tr Ok) as (j & L1 & -> & R'). split; [done|]. split; [done|]. exists j. rewrite <- !Z.add_assoc. split; [done|]. split; [lia|done].
  - intros Ok _ _ Hk j Lj. rewrite <- Z.add_assoc. apply (F Ok Hk). lia.
Qed.

(** ** The modifier of version 1 *)

Section states.
Context (s : block_index) (c : CChain) (Hs : block_index_ok s) (Hc : chain_ok (entries s) c).
Abbreviation H := (entries s).
Abbreviation map := (mapBlockIndex s).

(** Heights can be counted up. *)
Definition heights_ok : Prop := map_Forall (fun _ b => nHeight b + 1 < 2 ^ 31) H.
Context (Hh : heights_ok).

Lemma at_height_entry h q : at_height c h = Some q -> exists e, H !! q = Some e /\ nHeight e = h.
Proof using Hs Hc.
  intros E. destruct Hs as (Hok & _). destruct Hc as [->|(t & [b Ht] & ->)].
  - unfold at_height in E. cbn [length] in E. destruct (Z.ltb_spec h 0); [done|]. rewrite Z.geb_leb in E.
    destruct (Z.leb_spec (Z.of_nat 0) h); [done|lia].
  - destruct (decide (0 <= h <= nHeight b)) as [R|R].
    + rewrite (at_height_chain_of H t b) in E by done.
      destruct (ancestor_height H Hok (Z.to_nat (nHeight b - h)) t b Ht ltac:(lia)) as (q' & e & E' & Hq & Eh).
      rewrite E in E'. injection E' as <-. exists e. split; [done|lia].
    + unfold at_height in E. rewrite (chain_of_length H t b) in E by done. destruct (Z.ltb_spec h 0); [done|]. rewrite Z.geb_leb in E.
      destruct (Z.leb_spec (Z.of_nat (S (Z.to_nat (nHeight b)))) h); [done|]. destruct (Hok t b Ht). lia.
Qed.

Lemma at_height_below h : 0 <= h < Z.of_nat (length c) -> exists q, at_height c h = Some q.
Proof using Hs Hc.
  intros R. destruct Hs as (Hok & _). destruct Hc as [->|(t & [b Ht] & ->)]; [cbn in R; lia|].
  rewrite (chain_of_length H t b) in R by done. destruct (Hok t b Ht) as [Hr _].
  rewrite (at_height_chain_of H t b) by (done || lia). destruct (ancestor_height H Hok (Z.to_nat (nHeight b - h)) t b Ht ltac:(lia)) as (q & e & E & _).
  by exists q.
Qed.

Lemma at_height_range h q : at_height c h = Some q -> 0 <= h < Z.of_nat (length c).
Proof using.
  unfold at_height. destruct (Z.ltb_spec h 0); [done|]. rewrite Z.geb_leb. destruct (Z.leb_spec (Z.of_nat (length c)) h); [done|]. lia.
Qed.

Lemma succ_height q e : H !! q = Some e -> int_succ (nHeight e) = Ret (nHeight e + 1).
Proof using Hh. intros Hq. pose proof (Hh q e Hq) as B. cbn in B. unfold int_succ. rewrite Z.geb_leb. destruct (Z.leb_spec (2 ^ 31) (nHeight e + 1)); [lia|done]. Qed.

(** The entry from which the modifier is taken: the first on the active chain above the
    height of [from] that generated a modifier 2087 seconds later or more. *)
Definition ripe (from e : CBlockIndex) : Prop := GeneratedStakeModifier e = true /\ GetBlockTime from + 2087 <= GetBlockTime e.
Definition unripe_between (from : CBlockIndex) (lo hi : Z) : Prop :=
  forall j q e, lo < j < hi -> at_height c j = Some q -> H !! q = Some e -> ~ ripe from e.
Definition kernel_modifier (from : CBlockIndex) (k : Z) (r : option (Z * Z * Z)) : Prop :=
  match r with
  | Some (m, h, t) => k < h /\ unripe_between from k h /\
      exists q e, at_height c h = Some q /\ H !! q = Some e /\ ripe from e /\ m = nStakeModifier e /\ t = GetBlockTime e
  | None => unripe_between from k (Z.of_nat (length c))
  end.

Lemma kernel_modifier_loop_spec from fuel : forall cur k mh mt, (Z.of_nat (length c) - 1 - k <= Z.of_nat fuel) -> 0 <= k ->
  mt < GetBlockTime from + 2087 ->
  exists r, kernel_modifier_loop H c fuel from 2087 cur (at_height c (k + 1)) mh mt = Ret r /\ kernel_modifier from k r.
Proof using Hs Hc Hh.
  induction fuel as [|fuel IH]; intros cur k mh mt Hf Hk Ht; cbn [kernel_modifier_loop]; rewrite (proj2 (Z.ltb_lt _ _) Ht);
    destruct (at_height c (k + 1)) as [q|] eqn:E.
  - apply at_height_range in E. lia.
  - exists None. split; [done|]. intros j q e R Ej. exfalso. destruct (at_height_below (k + 1)) as (q' & E'); [lia|congruence].
  - destruct (at_height_entry _ _ E) as (e & Hq & Eh). rewrite (deref_Some H q e Hq). cbn [of_ptr result_bind].
    rewrite (succ_height q e Hq), Eh. cbn [result_bind].
    assert (Step : ripe from e \/ ~ ripe from e /\ exists h t, t < GetBlockTime from + 2087 /\
      (if GeneratedStakeModifier e then (k + 1, GetBlockTime e) else (mh, mt)) = (h, t)).
    { unfold ripe. destruct (GeneratedStakeModifier e); [|right; split; [by intros []|by exists mh, mt]].
      destruct (Z.le_gt_cases (GetBlockTime from + 2087) (GetBlockTime e)); [by left|]. right. split; [intros []; lia|by exists (k + 1), (GetBlockTime e)]. }
    destruct Step as [Rp|(Nr & h & t & Lt & Eht)].
    + pose proof Rp as [G L]. rewrite G. exists (Some (nStakeModifier e, k + 1, GetBlockTime e)).
      split; [|split; [lia|]; split; [intros j; lia|by exists q, e]].
      destruct fuel; cbn [kernel_modifier_loop]; by rewrite (proj2 (Z.ltb_ge _ _) L).
    + rewrite Eht. destruct (IH e (k + 1) h t ltac:(lia) ltac:(lia) Lt) as (r & Er & S). exists r. split; [exact Er|].
      assert (Ext : forall hi, unripe_between from (k + 1) hi -> unripe_between from k hi).
      { intros hi U j q' e' R Ej Hq'. destruct (decide (j = k + 1)) as [->|]; [|apply (U j q' e'); [lia|done|done]].
        rewrite E in Ej. injection Ej as <-. rewrite Hq in Hq'. by injection Hq' as <-. }
      destruct r as [[[m h'] t']|]; [|by apply Ext]. destruct S as (S1 & S2 & S3). split; [lia|]. split; [by apply Ext|done].
  - exists None. split; [done|]. intros j q e R Ej. exfalso. destruct (at_height_below (k + 1)) as (q' & E'); [lia|congruence].
Qed.

Lemma GetKernelStakeModifier_spec hash : exists r, GetKernelStakeModifier H map c hash = Ret r /\
  match map !! hash with
  | None => r = None
  | Some p => exists from, H !! p = Some from /\ kernel_modifier from (nHeight from) r
  end.
Proof using Hs Hc Hh.
  unfold GetKernelStakeModifier. destruct (map !! hash) as [p|] eqn:E; [|by exists None].
  destruct Hs as (Hok & _ & Hm & _). apply Hm in E as (from & Hp & _). rewrite (deref_Some H p from Hp). cbn [of_ptr result_bind].
  rewrite selection_interval. cbn [of_ptr result_bind]. rewrite (succ_height p from Hp). cbn [result_bind]. destruct (Hok p from Hp) as [Hr _].
  destruct (kernel_modifier_loop_spec from (length c) from (nHeight from) (nHeight from) (GetBlockTime from)) as (r & Er & S); [lia..|].
  exists r. split; [exact Er|]. by exists from.
Qed.
End states.

(** ** The coin stake of a block *)

Section stake.
Context (s : block_index) (c : CChain) (Hs : block_index_ok s) (Hc : chain_ok (entries s) c).
Context (Hh : heights_ok s) (Hn : nonces_ok (entries s)).
Context (HashQuark : bytes -> uint256) (src : tx_sources).
Context (Verify : CPubKey -> uint256 -> list byte -> bool) (buf : list byte) (spork13 : Z).
Abbreviation H := (entries s).
Abbreviation map := (mapBlockIndex s).
Abbreviation Find := (GetTransaction H c HashQuark src).

Lemma GetTransaction_total hash : exists r, Find hash = Ret r /\
  forall tx hb, r = Some (tx, hb) -> txindex src = None -> mempool_lookup src hash = None -> tx_hash tx = hash.
Proof using Hs Hc.
  unfold GetTransaction. destruct (mempool_lookup src hash) as [tx|]; [by eexists|]. destruct (txindex src) as [read|]; [by eexists|].
  destruct (if default (-1) (coins_height src hash) >? 0 then at_height c (default (-1) (coins_height src hash)) else None) as [p|] eqn:E;
    [|exists None; by split]. destruct (default (-1) (coins_height src hash) >? 0); [|done]. destruct (at_height_entry s c Hs Hc _ _ E) as (e & Hp & _).
  rewrite (deref_Some H p e Hp). cbn [of_ptr result_bind]. destruct (ReadBlockFromDisk src e) as [block|]; [|exists None; by split].
  eexists. split; [reflexivity|]. intros tx hb E' _ _. destruct (List.find _ _) as [tx'|] eqn:F; [|done]. injection E' as <- _.
  apply find_some in F as [_ F]. by apply bool_decide_eq_true in F.
Qed.

(** The kernel of the version in force at the height [h] of the block hits its target. *)
Definition kernel_ok (block : CBlock) (p : ptr) (prev : CBlockIndex) (blockprev : CBlock) (o : CTxOut) (prevout : COutPoint) : Prop :=
  let h := nHeight prev + 1 in
  let tf := u32 (CBlockHeader_GetBlockTime blockprev) in
  let t := b_nTime block in
  stake_time_ok tf t = true /\
  if decide (spork13 <= h) then
    CENT <= nValue o /\
    if decide (REWARDFORK_BLOCK <= h) then
      exists m, CalculateStakeModifierV3 H (Some p) = Ret (Some m) /\ hits (kernel_hash_v3 (nStakeModifierV2 prev) m prevout t) (nValue o) (b_nBits block)
    else hits (kernel_hash_v2 (nStakeModifierV2 prev) tf prevout t) (nValue o) (b_nBits block)
  else
    nValue o <> 0 /\ exists p' from m hm tm, map !! CBlockHeader_GetHash HashQuark blockprev = Some p' /\ H !! p' = Some from /\
      kernel_modifier s c from (nHeight from) (Some (m, hm, tm)) /\
      hits (stakeHash t (ser_writedata 8 m) (prev_n prevout) (prev_hash prevout) tf) (nValue o) (b_nBits block).

Lemma kernel_modifier_unique from k r r' : kernel_modifier s c from k r -> kernel_modifier s c from k r' -> r = r'.
Proof using Hs Hc.
  intros K K'. destruct r as [[[m h] t]|], r' as [[[m' h'] t']|]; try done; cbn [kernel_modifier] in K, K'.
  - destruct K as (L & U & q & e & A & Hq & R & -> & ->), K' as (L' & U' & q' & e' & A' & Hq' & R' & -> & ->).
    destruct (Z.lt_trichotomy h h') as [X|[->|X]]; [by destruct (U' h q e)| |by destruct (U h' q' e')].
    rewrite A in A'. injection A' as <-. rewrite Hq in Hq'. by injection Hq' as <-.
  - destruct K as (L & U & q & e & A & Hq & R & _). destruct (K' h q e); [|done..]. pose proof (at_height_range c h q A). lia.
  - destruct K' as (L & U & q & e & A & Hq & R & _). destruct (K h' q e); [|done..]. pose proof (at_height_range c h' q A). lia.
Qed.

Lemma check_kernel_spec (block : CBlock) p prev (blockprev : CBlock) (txPrev : CTransaction) o prevout h0 : H !! p = Some prev -> in_u32 (b_nBits block) ->
  tx_vout txPrev !! Z.to_nat (prev_n prevout) = Some o -> 0 <= nValue o < 2 ^ 63 -> exists ok h,
  check_kernel H map c HashQuark spork13 block prev p blockprev txPrev prevout h0 = Ret (ok, h) /\
  (ok = true <-> kernel_ok block p prev blockprev o prevout).
Proof using Hs Hc Hh Hn.
  intros Hp Hb Eo Hv. unfold check_kernel, kernel_ok. rewrite (succ_height s Hh p prev Hp). cbn [result_bind]. cbv zeta. rewrite !Z.geb_leb, Eo.
  set (tf := u32 (CBlockHeader_GetBlockTime blockprev)). destruct (Hs) as (Hok & _).
  destruct (Z.leb_spec spork13 (nHeight prev + 1)) as [L|L].
  - rewrite decide_True by done. destruct (Z.leb_spec REWARDFORK_BLOCK (nHeight prev + 1)) as [L'|L'].
    + rewrite decide_True by done. rewrite (CalculateStakeModifierV3_spec H Hok Hn p prev Hp). cbn [of_ptr result_bind].
      destruct (pprev prev ≫= _) as [m|]; [|eexists _, _; split; [reflexivity|]; split; [done|by intros (_ & _ & m & ? & _)]].
      destruct (CheckStakeKernelHashV3_spec (b_nBits block) (nStakeModifierV2 prev) m tf (nValue o) prevout (b_nTime block) h0 Hv Hb) as (ok & h & -> & E & _).
      exists ok, h. split; [done|]. rewrite E. split; [intros (? & ? & ?); split_and!; try done; by exists m|].
      intros (? & ? & m' & [= <-] & ?). by split_and!.
    + rewrite decide_False by lia.
      destruct (CheckStakeKernelHashV2_spec (b_nBits block) (nStakeModifierV2 prev) tf (nValue o) prevout (b_nTime block) h0 Hv Hb) as (ok & h & -> & E & _).
      by exists ok, h.
  - rewrite decide_False by lia. unfold CheckStakeKernelHash. rewrite Eo. fold tf.
    destruct (stake_time_ok tf (b_nTime block)); cbn [negb]; [|eexists _, _; split; [reflexivity|]; split; [done|by intros (? & _)]].
    destruct (Z.eqb_spec (nValue o) 0) as [Ev|Ev]; [eexists _, _; split; [reflexivity|]; split; [done|by intros (_ & ? & _)]|].
    destruct (GetKernelStakeModifier_spec s c Hs Hc Hh (CBlockHeader_GetHash HashQuark blockprev)) as (r & Er & S).
    destruct (SetCompact (b_nBits block)) as [[T ?] ?] eqn:Et. rewrite Er. cbn [result_bind].
    destruct (map !! CBlockHeader_GetHash HashQuark blockprev) as [p'|] eqn:Em;
      [|subst r; eexists _, _; split; [reflexivity|]; split; [done|by intros (_ & _ & p' & from & m & hm & tm & ? & _)]].
    destruct S as (from & Hp' & S). destruct r as [[[m hm] tm]|].
    + set (hash := stakeHash _ _ _ _ _). pose proof (stakeTargetHit_spec hash (nValue o) (b_nBits block) (Hash_wf _) Hv Hb) as E.
      rewrite Et in E. cbn [fst] in E. rewrite E. cbn [result_bind]. eexists _, _. split; [reflexivity|]. rewrite bool_decide_eq_true. split.
      * intros X. split; [done|]. split; [done|]. by exists p', from, m, hm, tm.
      * intros (_ & _ & p2 & from2 & m2 & hm2 & tm2 & [= <-] & Hp2 & S2 & X). rewrite Hp' in Hp2. injection Hp2 as <-.
        pose proof (kernel_modifier_unique _ _ _ _ S S2) as [= <- <- <-]. exact X.
    + eexists _, _. split; [reflexivity|]. split; [done|].
      intros (_ & _ & p2 & from2 & m2 & hm2 & tm2 & [= <-] & Hp2 & S2 & X). rewrite Hp' in Hp2. injection Hp2 as <-.
      by pose proof (kernel_modifier_unique _ _ _ _ S S2).
Qed.

(** What makes a block's coin stake valid on top of [p]. *)
Definition staked (block : CBlock) (p : ptr) (prev : CBlockIndex) (tx : CTransaction) (txin : CTxIn) : Prop :=
  exists (txPrev : CTransaction) hashBlock o q pindex blockprev,
    IsCoinStake tx = true /\ Find (prev_hash (prevout txin)) = Ret (Some (txPrev, hashBlock)) /\ tx_hash txPrev = prev_hash (prevout txin) /\
    tx_vout txPrev !! Z.to_nat (prev_n (prevout txin)) = Some o /\
    @VerifyScript (TransactionSignatureChecker Verify buf tx 0) STANDARD_SCRIPT_VERIFY_FLAGS (scriptSig txin) (scriptPubKey o) = Ret tt /\
    map !! hashBlock = Some q /\ H !! q = Some pindex /\ ReadBlockFromDisk src pindex = Some blockprev /\
    kernel_ok block p prev blockprev o (prevout txin).

(** The amounts of the outputs that are found. *)
Definition found_amounts (hash : uint256) : Prop :=
  forall tx hb, Find hash = Ret (Some (tx, hb)) -> Forall (fun o => 0 <= nValue o < 2 ^ 63) (tx_vout tx).

End stake.

(** ** Claims on the search and on the target *)

Definition no_prevout : COutPoint := mk_COutPoint (base_uint_zero 8) 0.



(** The search starts at the time of the tip when the tip is new, and does not look at the age
    again: here the coin has the age at the time given, and the time found is 15 seconds
    too early, so the check refuses it. *)
Lemma search_finds_too_young : exists h h',
  SearchStakeKernelHashV3 6 7 4590 (fun _ => 7) 0x207fffff (base_uint_zero 8) 0 1000 CENT no_prevout 4600 (base_uint_zero 8) = Ret (true, 4590, h) /\
  aged 1000 4600 /\
  CheckStakeKernelHashV3 0x207fffff (base_uint_zero 8) 0 1000 CENT no_prevout 4590 (base_uint_zero 8) = Ret (false, h').
Proof. eexists _, _. split; [vm_compute; reflexivity|]. split; [unfold aged, nStakeMinAge; lia|vm_compute; reflexivity]. Qed.

(** Weight times target wraps: at the easiest target 0.01 coins hit with almost every hash,
    and 16.777216 coins with none. *)
Lemma weight_wraps : hits (base_uint_zero 8) CENT 0x207fffff /\ forall hash, wf 8 hash -> ~ hits hash (100 * 2 ^ 24) 0x207fffff.
Proof.
  split; [vm_compute; reflexivity|]. intros hash W. pose proof (val_range 8 hash W) as R. unfold hits.
  assert (E : (100 * 2 ^ 24 / 100 * target_of 545259519) mod 2 ^ 256 = 0) by (vm_compute; reflexivity). rewrite E. lia.
Qed.

(** Without wrapping more coins and an easier target help. *)
Lemma hits_mono hash v v' nBits : v <= v' -> 0 <= v -> in_u32 nBits -> v' / 100 * target_of nBits < 2 ^ 256 -> hits hash v nBits -> hits hash v' nBits.
Proof.
  intros L Hv Hb S X. unfold hits in *. pose proof (val_range 8 _ (SetCompact_wf nBits Hb)) as R. fold (target_of nBits) in R.
  pose proof (Z.div_le_mono v v' 100 ltac:(lia) L). pose proof (Z.div_pos v 100 Hv ltac:(lia)).
  rewrite Z.mod_small in * by nia. nia.
Qed.

(** ** A block that stakes *)

Definition staking_input : CTxIn := CTxIn_make (mk_COutPoint (base_uint_u64 8 9) 0) [Byte.x51] UINT32_MAX.
Definition staking_tx : CTransaction := mk_CTransaction (base_uint_u64 8 10)
  (mk_CMutableTransaction 1 [staking_input] [CTxOut_make 0 []; CTxOut_make CENT []] 0).
Definition staked_tx : CTransaction := mk_CTransaction (base_uint_u64 8 9)
  (mk_CMutableTransaction 1 [] [CTxOut_make CENT []] 0).
Definition plain_header (time : Z) : CBlockHeader :=
  mk_CBlockHeader 3 (base_uint_zero 8) (base_uint_zero 8) time 0x207fffff 0 (base_uint_zero 8).
Definition staking_block : CBlock := mk_CBlock (plain_header 5010) [staked_tx; staking_tx] [] [] [].
(** Every header hashes to one; the transaction index finds the staked transaction. *)
Definition hash_one : bytes -> uint256 := fun _ => base_uint_u64 8 1.
Definition staking_sources : tx_sources :=
  mk_sources (fun _ => None) (Some (fun _ => ReadTx (plain_header 1000) staked_tx)) (fun _ => None) (fun _ => Some (CBlock_of (plain_header 1000))).

Lemma index_forall (P : CBlockIndex -> bool) (s : block_index) : forallb (fun kv => P kv.2) (map_to_list (entries s)) = true ->
  map_Forall (fun _ b => P b = true) (entries s).
Proof.
  intros F. apply map_Forall_lookup. intros i x Hx. apply elem_of_map_to_list, list_elem_of_In in Hx.
  rewrite forallb_forall in F. exact (F (i, x) Hx).
Qed.


(** An input that names an output past the end is read outside the vector, whatever the
    script. *)
Definition overrun_tx : CTransaction := mk_CTransaction (base_uint_u64 8 10)
  (mk_CMutableTransaction 1 [CTxIn_make (mk_COutPoint (base_uint_u64 8 9) 7) [] UINT32_MAX] [CTxOut_make 0 []; CTxOut_make CENT []] 0).
Lemma stake_output_overrun :
  CheckProofOfStake (entries timed_index) (mapBlockIndex timed_index) [] hash_one staking_sources (fun _ _ _ => true) [] 0
    (mk_CBlock (plain_header 5010) [staked_tx; overrun_tx] [] [] []) 3 (base_uint_zero 8) = Err Undefined.
Proof. vm_compute. reflexivity. Qed.

(** ** [CheckWork] *)

(** What a block that passes [CheckWork] has: from height 68590 on, and always for a block with
    a coin stake, the bits that its parent asks for and a valid coin stake. *)
Lemma CheckWork_accepts H map c HashQuark src Verify buf spork13 close params (block : CBlock) p :
  CheckWork H map c HashQuark src Verify buf spork13 close params block (Some p) = Ret true ->
  exists prev nBitsRequired, H !! p = Some prev /\ GetNextWorkRequired params H spork13 (Some p) = Ret nBitsRequired /\
  ((CBlock_IsProofOfStake block = false /\ nHeight prev + 1 <= 68589 /\ close (b_nBits block) nBitsRequired = true) \/
   (b_nBits block = nBitsRequired /\
    (CBlock_IsProofOfStake block = true -> exists h, CheckProofOfStake H map c HashQuark src Verify buf spork13 block p (base_uint_zero 8) = Ret (true, h)))).
Proof.
  unfold CheckWork, deref. cbn [mbind option_bind]. destruct (H !! p) as [prev|] eqn:Hp; [|done]. cbn [of_ptr result_bind].
  destruct (GetNextWorkRequired params H spork13 (Some p)) as [bits|[]]; [|done..]. cbn [of_ptr result_bind].
  intros E. exists prev, bits. split; [done|]. split; [done|]. unfold CBlock_IsProofOfWork in E. destruct (CBlock_IsProofOfStake block); cbn [negb] in E.
  - right. cbn [result_bind] in E. destruct (Z.eqb_spec (b_nBits block) bits); [|done]. cbn [negb] in E. split; [done|]. intros _.
    destruct (CheckProofOfStake _ _ _ _ _ _ _ _ _ _ _) as [[ok h]|]; [|done]. cbn in E. injection E as ->. by exists h.
  - unfold int_succ in E. destruct (_ >=? _); [done|]. cbn [result_bind] in E. destruct (Z.leb_spec (nHeight prev + 1) 68589) as [L|L].
    + left. by injection E.
    + right. destruct (Z.eqb_spec (b_nBits block) bits); [|done]. by split.
Qed.
